(* ===== verification/_CoqProject ===== *)
-Q . S2P
Prelude.v
Worklist.v
Common.v
Layout.v
Memory.v
Libc.v
Poisoning.v
StackTrace.v
UmrMap.v
Interface.v
StaticRanges.v
Interceptors.v
Signals.v
Threads.v
Afl.v
Depot.v
Origin.v
Allocator.v
AllocatorGlibc.v
PassShadow.v
PassChecks.v
PassUndef.v
PassLoops.v
PassSinks.v
PassMemory.v
PassPolicy.v
PassVarArgs.v
PassCalls.v
PassFunction.v
Arrays.v
MmapVector.v
Mutex.v
AddrHashMap.v
Printf.v
Flags.v
Formats.v
Streams.v
Leb128.v
Lzw.v
DenseMap.v
StackStore.v
StackDepot.v
SizeClassMap.v
PageRelease.v
Primary64.v
LocalCache.v
Secondary.v
Combined.v
AllocatorCombined.v
AllocatorStack.v
