(* ===== verification/Prelude.v ===== *)
(** * CQMSan: a verification library for the compiler-level opportunistic
    detector of uses of uninitialised memory

    The repository is a sanitizer in three parts.  A compiler pass (src/src/pass)
    instruments the loads and stores of a program; a runtime linked into the program
    (src/src/rt/cqmsan, on the support library src/src/rt/sanitizer_common) keeps one
    shadow byte for each application byte, wraps the C library, owns the heap and
    records, for a use of an uninitialised byte, a bit in a map of 64 KiB; and a fork of
    AFL++ (src/src/aflpp) reads that map after each run and re-runs interesting inputs in
    an accurate detector.  "Opportunistic" is the design's word: shadow is not propagated
    through registers or stores, a store marks what it writes as initialised, and a load
    of an uninitialised byte is the event that counts.

    Every definition is a translation of C or C++ code of the repository; names are the
    source's where Rocq allows it, and each file's first comment says which source it
    translates.  Code that is not in the repository (LLVM's analyses, libunwind, glibc,
    the kernel) is a parameter: a class or a record of functions, with its documented
    behaviour in a second class of laws.

    ** Conventions

    A w-bit unsigned integer is a [Z] with the wrap-around written out ([u8] .. [u64],
    [+64], [-64]).  Code that can stop the process (CHECK, an access out of range) is in
    the [outcome] monad of this file: [Done] with a result or [Died] with the message.
    Handlers that change the runtime's state are in a state monad over it (Interface).
    Steps of several threads are relations ([step]), each step an atomic action of the
    source or a section it runs under a lock; theorems about them are invariants of all
    reachable states ([rtc step]).

    Loops that are not structural take fuel.  The fuel is what the source's own measure
    allows and the theorems show that it suffices, never that "if it ends, it is right":
    hash lists follow links to smaller ids ([Depot.find_from]: fuel [s]), probing of the
    dense map visits each bucket in as many turns as there are buckets
    ([DenseMap.search_stops]), the worklists of the pass push a node once
    ([Worklist.worklist_exact]: the number of nodes), sifting in [Sort] and binary search
    take the index or the length, a LEB128 decoder consumes a byte a turn, the store of
    traces needs two turns to find a block ([StackStore.Store_runs]), the uses that exempt
    a load are searched with the source's own budget of 256.  [strlen] and its like have
    no measure: their fuel is the distance to a terminator, and the totality lemmas of
    Libc take one as a hypothesis.

    ** The memory of the process

    - Layout (cqmsan.h, cqmsan_linux.cpp): the address-space layouts of every platform,
      the maps to shadow and origin, the start-up check and mapping.  Every application
      address has its own shadow and origin byte; one layout (PowerPC64) has a hole.
    - Memory: bytes of the process as a total function, with the C accesses to them.
    - Libc (sanitizer_libc.cpp), Common (sanitizer_common.h): the runtime's own string
      and memory functions and its arithmetic.
    - Poisoning (cqmsan_poisoning.cpp): setting and moving shadow and origins; the fast
      path that releases pages is a memset.

    ** The runtime

    - Interface (cqmsan.cpp, cqmsan_interceptors.cpp): the [__cqmsan_*] functions.  They
      refine sets of initialised bytes.
    - StaticRanges: what counts as initialised by the loader in the flipped convention.
    - Interceptors, Signals, Threads: the wrappers of the C library; signal and exit
      handlers; thread records, fibers and thread-specific data.
    - UmrMap, StackTrace (cqmsan.cpp, sanitizer_stacktrace*.cpp): what a fired check
      leaves in the map, and the call stack it is keyed by.
    - Depot, Origin (sanitizer_stackdepotbase.h, cqmsan_origin.h): hash-consing of stacks
      and origin chains; interleaved [Put]s agree on one id.
    - StackStore on Leb128, Lzw and DenseMap (sanitizer_stack_store.cpp and the headers it
      includes): where the frames of the depot are.  Threads store, blocks are compressed
      and uncompressed meanwhile, and a stored trace is what is loaded.  DenseMap refines
      a finite map; the LZW encoder is proved on finite maps and shown equal to the one on
      the table.
    - StackDepot (sanitizer_stackdepot.cpp): the depot of stacks on Depot and StackStore,
      and the life of its background thread.

    ** The heap

    - Allocator (cqmsan_allocator.cpp, cqmsan_new_delete.cpp): the entry points both
      builds share, against the interface [AllocatorImpl].
    - AllocatorGlibc: the build on glibc's malloc, which is a class.
    - AllocatorCombined: the default build, against the interface of the combined
      allocator; reusing the shadow of freed memory is invisible.
    - SizeClassMap, PageRelease, Primary64, LocalCache, Secondary, Combined
      (sanitizer_allocator_*.h): that allocator.  Chunks are in one place at a time, live
      blocks never overlap, pointers are decoded to their block, only pages without live
      data are given back.
    - AllocatorStack: Combined implements the interface of AllocatorCombined, so that the
      theorems hold of the runtime from malloc down to the system's mappings.

    ** The compiler pass (CompilerQEMUMemorySanitizer.cpp)

    - PassShadow: shadow types and constants, the reduction of a shadow to a bit, one
      check, shadow addresses.
    - PassMemory: what the visitors of memory accesses emit; on any sequence of accesses
      the shadow tracks the set of initialised bytes.
    - PassChecks, PassLoops, PassSinks: the strategies that place checks; each reports
      what one check per load would.
    - PassUndef: values that are uninitialised without a load.
    - PassCalls, PassVarArgs, PassPolicy: calls, variadic calls, what is left alone.
    - PassFunction: a function from end to end.
    - Worklist: the search three of these analyses share.

    ** The fuzzer

    - Afl (afl-fuzz-run.c, afl-fuzz.h): folding the map of a run, and when the accurate
      detector runs; with UmrMap, a report reaches it.

    ** Support

    - Arrays (sanitizer_common.h): heap sort and binary search.  MmapVector: the growing
      array of the runtime, which refines a list.
    - Mutex (sanitizer_mutex.h, .cpp): spin lock, reader-writer lock and semaphore as step
      relations; mutual exclusion, and no lost wake-up.
    - AddrHashMap (sanitizer_addrhashmap.h): the concurrent map of the common interceptors;
      its operations act at one instant each.
    - Printf (sanitizer_printf.cpp): formatted output; a buffer is never overrun, the text
      of a supported format is exact, a message is complete after at most three retries.
    - Formats (sanitizer_common_interceptors_format.inc): the scanf and printf interceptors;
      the objects the conversions stored are initialised, and only they.
    - Streams (sanitizer_common_interceptors.inc): the wrappers of stdio streams; the text of
      a memory stream is initialised after fflush and fclose.
    - Flags (sanitizer_flag_parser.cpp, sanitizer_flags.cpp, cqmsan.cpp): the options;
      whatever they are, the flags the runtime starts with are within their bounds.
    - This file: integers, the [outcome] monad, tactics ([inv_done], [bool_hyps],
      [bool_goal], [zcase]) and lemmas on lists and ranges.

    ** Not modelled

    Reports, the symbolizer and its processes, parsing of /proc, the tables of system structures for the interceptors
    that are generated from one scheme (sanitizer_common_interceptors.inc, the syscall
    hooks), other operating systems, the patching of machine code (interception), and the
    rest of AFL++, which is third-party code.  The declarations the pass adds to a module
    are text.  Weak memory: an atomic operation is one step of a sequentially consistent
    interleaving.  Debug checks (DCHECK) and statistics that are only printed are left
    out. *)

From stdpp Require Export base numbers list gmap strings option.
From Stdlib Require Export ZArith Lia.

Declare Scope cq_scope.
Delimit Scope cq_scope with cq.
Open Scope Z_scope.

(** ** Machine integers

    A w-bit unsigned integer of the source is a [Z]; [u8] .. [u64] are the
    truncations a C conversion performs, [not64] is the 64-bit [~]. *)

Definition u8 (x : Z) : Z := x mod 2 ^ 8.
Definition u16 (x : Z) : Z := x mod 2 ^ 16.
Definition u32 (x : Z) : Z := x mod 2 ^ 32.
Definition u64 (x : Z) : Z := x mod 2 ^ 64.
Definition not64 (x : Z) : Z := 2 ^ 64 - 1 - x.

Notation "x +64 y" := (u64 (x + y)) (at level 50, left associativity) : cq_scope.
Notation "x -64 y" := (u64 (x - y)) (at level 50, left associativity) : cq_scope.
Notation "x *64 y" := (u64 (x * y)) (at level 40, left associativity) : cq_scope.
Open Scope cq_scope.

Create HintDb cq discriminated.
Create HintDb cq_bits.

(** ** Fatal outcomes

    [Die()], a failed [CHECK] and a fatal report end the process: a fallible
    operation returns [Died] with the reason, or [Done] with its result. *)

Inductive outcome (A : Type) : Type :=
| Done (a : A)
| Died (why : string).
Arguments Done {A} a.
Arguments Died {A} why.

#[export] Instance outcome_ret : MRet outcome := fun A a => Done a.
#[export] Instance outcome_bind : MBind outcome :=
  fun A B f m => match m with Done a => f a | Died w => Died w end.

Definition check (b : bool) (why : string) : outcome unit :=
  if b then Done tt else Died why.

Definition is_done {A} (o : outcome A) : bool :=
  match o with Done _ => true | Died _ => false end.

Lemma bind_done {A B} (m : outcome A) (f : A -> outcome B) b :
  m ≫= f = Done b <-> exists a, m = Done a /\ f a = Done b.
Proof.
  destruct m as [a|w]; cbn; split.
  - intros H. by exists a.
  - intros (a' & [= <-] & H). exact H.
  - done.
  - intros (a' & [=] & _).
Qed.

Lemma check_done b why u : check b why = Done u <-> b = true.
Proof. destruct b, u; cbn; naive_solver. Qed.

(** One computation after another where both may run out of fuel ([None]) or stop the
    process. *)
Definition fuel_bind {A B} (a : option (outcome A)) (f : A -> option (outcome B)) : option (outcome B) :=
  match a with Some (Done x) => f x | Some (Died why) => Some (Died why) | None => None end.

(** Splits a hypothesis [m ≫= f = Done b] into the results of its steps. *)
Ltac inv_done :=
  repeat match goal with
  | H : mbind _ _ = Done _ |- _ =>
      let a := fresh "r" in let H1 := fresh "Hr" in
      apply bind_done in H; destruct H as (a & H1 & H)
  | H : check _ _ = Done _ |- _ => apply check_done in H
  | H : mret _ = Done _ |- _ => progress cbv [mret outcome_ret] in H
  | H : Done _ = Done _ |- _ => injection H; clear H; intros; try subst
  | H : Died _ = Done _ |- _ => discriminate H
  end.

(** ** Booleans read as propositions *)

Ltac bool_hyps :=
  repeat match goal with
  | H : _ && _ = true |- _ => apply andb_true_iff in H; destruct H
  | H : _ || _ = false |- _ => apply orb_false_iff in H; destruct H
  | H : (_ <=? _) = true |- _ => apply Z.leb_le in H
  | H : (_ <=? _) = false |- _ => apply Z.leb_gt in H
  | H : (_ <? _) = true |- _ => apply Z.ltb_lt in H
  | H : (_ <? _) = false |- _ => apply Z.ltb_ge in H
  | H : (_ =? _) = true |- _ => apply Z.eqb_eq in H
  | H : (_ =? _) = false |- _ => apply Z.eqb_neq in H
  | H : negb _ = true |- _ => apply negb_true_iff in H
  | H : negb _ = false |- _ => apply negb_false_iff in H
  end.

Ltac bool_goal :=
  repeat match goal with
  | |- _ && _ = true => apply andb_true_iff; split
  | |- (_ <=? _) = true => apply Z.leb_le
  | |- (_ <=? _) = false => apply Z.leb_gt
  | |- (_ <? _) = true => apply Z.ltb_lt
  | |- (_ <? _) = false => apply Z.ltb_ge
  | |- (_ =? _) = true => apply Z.eqb_eq
  | |- (_ =? _) = false => apply Z.eqb_neq
  end.

(** Case analysis on every boolean comparison of the goal. *)
Ltac zcase :=
  repeat match goal with
  | |- context [?x =? ?y] => destruct (Z.eqb_spec x y)
  | |- context [?x <=? ?y] => destruct (Z.leb_spec x y)
  | |- context [?x <? ?y] => destruct (Z.ltb_spec x y)
  end; cbn [andb orb negb].

(** ** Bits *)

Lemma u64_small x : 0 <= x < 2 ^ 64 -> u64 x = x.
Proof. apply Z.mod_small. Qed.

Lemma u64_range x : 0 <= u64 x < 2 ^ 64.
Proof. apply Z.mod_pos_bound. lia. Qed.

Lemma u32_small x : 0 <= x < 2 ^ 32 -> u32 x = x.
Proof. apply Z.mod_small. Qed.

Lemma u32_range x : 0 <= u32 x < 2 ^ 32.
Proof. apply Z.mod_pos_bound. lia. Qed.

Lemma u8_range x : 0 <= u8 x < 2 ^ 8.
Proof. apply Z.mod_pos_bound. lia. Qed.

Lemma div_mod_pow2 a k : 0 <= k -> a = Z.shiftl (Z.shiftr a k) k + Z.land a (Z.ones k).
Proof.
  intros Hk. rewrite Z.shiftl_mul_pow2, Z.shiftr_div_pow2, Z.land_ones by lia.
  pose proof (Z.div_mod a (2 ^ k)). lia.
Qed.

Lemma land_ones_multiple c k : 0 <= k -> Z.land (Z.shiftl c k) (Z.ones k) = 0.
Proof.
  intros Hk. rewrite Z.land_ones, Z.shiftl_mul_pow2 by lia.
  apply Z.mod_mul. lia.
Qed.

(** An exclusive or with a multiple of [2^k] maps each aligned block of [2^k]
    consecutive integers to another one, keeping the offset inside it. *)
Lemma lxor_block a c k :
  0 <= k ->
  Z.lxor a (Z.shiftl c k) =
  Z.shiftl (Z.lxor (Z.shiftr a k) c) k + Z.land a (Z.ones k).
Proof.
  intros Hk.
  rewrite (div_mod_pow2 (Z.lxor a (Z.shiftl c k)) k) by done.
  f_equal.
  - rewrite Z.shiftr_lxor, Z.shiftr_shiftl_l, Z.sub_diag, Z.shiftl_0_r by lia. done.
  - apply Z.bits_inj'. intros i Hi.
    rewrite !Z.land_spec, Z.lxor_spec.
    destruct (Z.ltb_spec i k).
    + rewrite (Z.shiftl_spec_low c k i) by lia. by rewrite xorb_false_r.
    + rewrite Z.ones_spec_high by lia. by rewrite !andb_false_r.
Qed.

(** A mask whose low [k] bits are set does the same. *)
Lemma land_block a m k :
  0 <= k -> Z.land m (Z.ones k) = Z.ones k ->
  Z.land a m = Z.shiftl (Z.land (Z.shiftr a k) (Z.shiftr m k)) k + Z.land a (Z.ones k).
Proof.
  intros Hk Hm.
  rewrite (div_mod_pow2 (Z.land a m) k) by done.
  f_equal.
  - by rewrite Z.shiftr_land.
  - by rewrite <- Z.land_assoc, Hm.
Qed.

Lemma land_not64_ones a c k :
  0 <= k <= 64 -> 0 <= a < 2 ^ 64 -> c = Z.shiftl (Z.shiftr c k) k -> 0 <= c < 2 ^ 64 ->
  Z.land (not64 c) (Z.ones k) = Z.ones k.
Proof.
  intros Hk Ha Hc Hr. rewrite Z.land_ones by lia.
  rewrite Z.ones_equiv. unfold not64.
  rewrite Hc, Z.shiftl_mul_pow2 by lia.
  set (q := Z.shiftr c k).
  replace (2 ^ 64 - 1 - q * 2 ^ k) with ((2 ^ k - 1) + (2 ^ (64 - k) - 1 - q) * 2 ^ k).
  - rewrite Z.mod_add by lia. apply Z.mod_small.
    pose proof (Z.pow_pos_nonneg 2 k). lia.
  - replace (2 ^ 64) with (2 ^ (64 - k) * 2 ^ k) by (rewrite <- Z.pow_add_r by lia; f_equal; lia).
    lia.
Qed.

Lemma lxor_cancel_r a b c : Z.lxor a c = Z.lxor b c -> a = b.
Proof.
  intros H. apply (f_equal (fun x => Z.lxor x c)) in H.
  by rewrite !Z.lxor_assoc, !Z.lxor_nilpotent, !Z.lxor_0_r in H.
Qed.

(** Every index below [n], as the loops of the source enumerate them. *)
Definition zrange (n : Z) : list Z := map Z.of_nat (seq 0 (Z.to_nat n)).

Lemma elem_of_zrange i n : i ∈ zrange n <-> 0 <= i < n.
Proof.
  unfold zrange. rewrite list_elem_of_In, in_map_iff. split.
  - intros (j & <- & Hj). apply in_seq in Hj. lia.
  - intros Hi. exists (Z.to_nat i). rewrite in_seq. lia.
Qed.

Lemma zrange_length n : length (zrange n) = Z.to_nat n.
Proof. unfold zrange. by rewrite length_map, length_seq. Qed.

Lemma zrange_NoDup n : NoDup (zrange n).
Proof. unfold zrange. apply (NoDup_fmap_2 Z.of_nat). apply NoDup_seq. Qed.

Lemma forallb_zrange f n : forallb f (zrange n) = true <-> forall i, 0 <= i < n -> f i = true.
Proof.
  rewrite forallb_forall. setoid_rewrite <- list_elem_of_In.
  by setoid_rewrite elem_of_zrange.
Qed.

Lemma zrange_lookup n j : 0 <= j < n -> zrange n !! Z.to_nat j = Some j.
Proof.
  intros Hj. unfold zrange. rewrite list_lookup_fmap, lookup_seq_lt by lia. cbn. f_equal. lia.
Qed.

(** What comes before an element of [zrange]: the smaller indices. *)
Lemma zrange_prefix n i l1 l2 j : zrange n = l1 ++ i :: l2 -> 0 <= j < i -> j ∈ l1.
Proof.
  intros Hl Hj. assert (i ∈ zrange n) as Hi%elem_of_zrange
    by (rewrite Hl; apply elem_of_app; right; by left).
  assert (length l1 = Z.to_nat i) as Hlen.
  { assert (zrange n !! length l1 = Some i) as H by (rewrite Hl; by apply list_lookup_middle).
    pose proof (zrange_lookup n (Z.of_nat (length l1))) as H2.
    assert (length l1 < length (zrange n))%nat as Hlt by (rewrite Hl, length_app; cbn; lia).
    unfold zrange in Hlt. rewrite length_map, length_seq in Hlt.
    rewrite Nat2Z.id, H in H2. specialize (H2 ltac:(lia)). injection H2 as H2. lia. }
  apply list_elem_of_lookup. exists (Z.to_nat j).
  rewrite <- (zrange_lookup n j) by lia. rewrite Hl, lookup_app_l by lia. done.
Qed.

Lemma existsb_exists_elem {A} (f : A -> bool) l :
  existsb f l = true <-> exists x, x ∈ l /\ f x = true.
Proof.
  rewrite existsb_exists. by setoid_rewrite list_elem_of_In.
Qed.

(** Membership in a concrete list. *)
Ltac in_list :=
  cbn; repeat (apply elem_of_cons; first [left; reflexivity | right]).

(** What [find] skips before its answer. *)
Lemma list_find_first {A} (f : A -> bool) l x :
  List.find f l = Some x -> exists l1 l2, l = l1 ++ x :: l2 /\ forall y, y ∈ l1 -> f y = false.
Proof.
  induction l as [|y l IH]; [done|]. cbn. destruct (f y) eqn:Hy.
  - intros [= <-]. exists [], l. split; [done|]. intros z Hz. by inversion Hz.
  - intros (l1 & l2 & -> & Hl1)%IH. exists (y :: l1), l2. split; [done|].
    intros z [->|Hz]%elem_of_cons; [done|by apply Hl1].
Qed.

Lemma seq_before n m j l1 l2 k : seq n m = l1 ++ j :: l2 -> (n <= k < j)%nat -> k ∈ l1.
Proof.
  revert n l1. induction m as [|m IH]; intros n l1 Heq Hk; [by destruct l1|].
  destruct l1 as [|x l1]; cbn in Heq; injection Heq as Hn Heq; [lia|]. subst x.
  destruct (Nat.eq_dec k n) as [->|]; [by left|right]. eapply IH; [exact Heq|lia].
Qed.
