(* ===== verification/Worklist.v ===== *)
(** * Worklist searches

    Three analyses of the compiler pass (src/pass/CompilerQEMUMemorySanitizer.cpp:
    [computeUndefSlice], [findSinkFor], [guaranteedPathHasBarrier]) are the same
    loop: pop the last element of a worklist, stop if it answers the question,
    push what it leads to and was not seen.  The loop over numbered nodes, with
    the set passed along, and what it computes. *)

From stdpp Require Import relations.
From S2P Require Import Prelude.

(** A bounded set of numbers: inserting a new one leaves strictly less room. *)
Lemma room_insert (n x : nat) (X : gset nat) :
  (x < n)%nat -> x ∉ X -> X ⊆ set_seq 0 n ->
  (size ({[x]} ∪ X) = S (size X))%nat /\ {[x]} ∪ X ⊆ set_seq 0 n /\ (size X < n)%nat.
Proof.
  intros Hx HX Hsub.
  assert (size ({[x]} ∪ X) = S (size X)) as Hs by (rewrite size_union by set_solver; by rewrite size_singleton).
  assert ({[x]} ∪ X ⊆ set_seq 0 n) as Hsub'.
  { intros y [Hy|Hy]%elem_of_union; [|by apply Hsub]. apply elem_of_singleton in Hy.
    apply elem_of_set_seq. lia. }
  split; [done|]. split; [done|].
  apply subseteq_size in Hsub'. rewrite size_set_seq in Hsub'. lia.
Qed.

(** The worklist, last element first, and the set of what was ever pushed. *)
Definition wl_state : Type := list nat * gset nat.

(** [if (cond && Seen.insert(U).second) Work.push_back(U);] *)
Definition wl_push (cond : nat -> bool) (st : wl_state) (U : nat) : wl_state :=
  if cond U && bool_decide (U ∉ st.2) then (U :: st.1, {[U]} ∪ st.2) else st.

(** One scan: what it adds is on the worklist, and nothing it must add is missed. *)
Lemma wl_push_all cond l st :
  let st' := fold_left (wl_push cond) l st in
  st.2 ⊆ st'.2 /\
  (forall x, x ∈ st'.2 <-> x ∈ st.2 \/ (x ∈ l /\ cond x = true)) /\
  (forall x, x ∈ st'.1 <-> x ∈ st.1 \/ (x ∈ st'.2 /\ x ∉ st.2)) /\
  (length st'.1 + size st.2 = length st.1 + size st'.2)%nat.
Proof.
  revert st. induction l as [|y l IH]; intros st; cbn [fold_left].
  - split_and!; [done| | |lia]; intros x; [|set_solver].
    split; [by left|]. intros [|[Hx _]]; [done|]. by apply not_elem_of_nil in Hx.
  - destruct (IH (wl_push cond st y)) as (Hsub & Hin & Hwork & Hlen). clear IH.
    set (st' := fold_left _ _ _) in *. unfold wl_push in *.
    destruct (cond y) eqn:Hc; cbn [andb] in *; [case_bool_decide as Hy|]; cbn [fst snd] in *.
    + rewrite size_union, size_singleton in Hlen by set_solver. cbn [length] in Hlen.
      split_and!; [set_solver| | |lia]; intros x.
      * rewrite Hin. split; [|set_solver]. intros [[->%elem_of_singleton|?]%elem_of_union|[? ?]]; [..|];
          [right; by split; [left|]|by left|right; split; [by right|done]].
      * rewrite Hwork, elem_of_cons. split; [|].
        -- intros [[->|?]|[? ?]]; [right; set_solver|by left|right; set_solver].
        -- intros [?|[? ?]]; [tauto|]. destruct (decide (x = y)); [tauto|]. right. set_solver.
    + split_and!; [done| |done|done]. intros x. rewrite Hin, elem_of_cons. split; [tauto|].
      intros [?|[[->|?] ?]]; [by left|by left|tauto].
    + split_and!; [done| |done|done]. intros x. rewrite Hin, elem_of_cons. split; [tauto|].
      intros [?|[[->|?] ?]]; [by left|congruence|tauto].
Qed.

Section worklist.
Context {R : Type}.
(** What a node may lead to, which of that is followed, and its answer. *)
Context (next : nat -> list nat) (follow : nat -> nat -> bool) (answer : nat -> option R).

(** [while (!Work.empty()) ...]; [None]: out of fuel. *)
Fixpoint worklist (fuel : nat) (st : wl_state) : option (option R * gset nat) :=
  match st.1 with
  | [] => Some (None, st.2)
  | V :: Work =>
      match fuel with
      | O => None
      | S fuel =>
          match answer V with
          | Some r => Some (Some r, st.2)
          | None => worklist fuel (fold_left (wl_push (follow V)) (next V) (Work, st.2))
          end
      end
  end.

Definition leads (V U : nat) : Prop := U ∈ next V /\ follow V U = true.

Context (n : nat) (start : nat -> Prop).

Definition reachable (x : nat) : Prop := exists s, start s /\ rtc leads s x.

Record wl_inv (st : wl_state) : Prop := {
  wi_bound : st.2 ⊆ set_seq 0 n;
  wi_work x : x ∈ st.1 -> x ∈ st.2;
  wi_start s : start s -> s ∈ st.2;
  wi_sound x : x ∈ st.2 -> reachable x;
  wi_done x : x ∈ st.2 -> x ∈ st.1 \/ (answer x = None /\ forall y, leads x y -> y ∈ st.2)
}.

(** The start of a search from the elements of a list. *)
Lemma wl_inv_start cond l :
  (forall s, start s <-> s ∈ l /\ cond s = true) -> (forall s, start s -> (s < n)%nat) ->
  let st := fold_left (wl_push cond) l ([], ∅) in
  wl_inv st /\ length st.1 = size st.2.
Proof.
  intros Hstart Hlt. destruct (wl_push_all cond l ([], ∅)) as (_ & Hin & Hwork & Hlen).
  set (st := fold_left _ _ _) in *. cbn [fst snd length] in *. rewrite size_empty in Hlen.
  assert (forall x, x ∈ st.2 <-> start x) as Hst by (intros x; rewrite Hin, Hstart; set_solver).
  split; [|lia]. split; [|..].
  - intros x Hx%Hst. apply elem_of_set_seq. specialize (Hlt x Hx). lia.
  - intros x [?%not_elem_of_nil|[? ?]]%Hwork; done.
  - intros s ?. by apply Hst.
  - intros x Hx%Hst. by exists x.
  - intros x Hx. left. apply Hwork. right. split; [done|set_solver].
Qed.
Context (Hbound : forall V U, leads V U -> (U < n)%nat).

Lemma wl_inv_step V Work X :
  wl_inv (V :: Work, X) -> answer V = None ->
  wl_inv (fold_left (wl_push (follow V)) (next V) (Work, X)).
Proof.
  intros [Hb Hw Hs Hsd Hd] Hans. cbn [fst snd] in *.
  destruct (wl_push_all (follow V) (next V) (Work, X)) as (Hsub & Hin & Hwork & _).
  set (st := fold_left _ _ _) in *. cbn [fst snd] in *.
  assert (V ∈ X) as HV by (apply Hw; left).
  split; [|..].
  - intros x [Hx|Hx]%Hin; [by apply Hb|]. apply elem_of_set_seq. specialize (Hbound _ _ Hx). lia.
  - intros x [Hx|[? _]]%Hwork; [|done]. apply Hsub, Hw. by right.
  - intros s Hst. apply Hsub. by apply Hs.
  - intros x [Hx|Hx]%Hin; [by apply Hsd|].
    destruct (Hsd V HV) as (s & Hst & Hrtc). exists s. split; [done|]. by eapply rtc_r.
  - intros x Hx. destruct (decide (x ∈ X)) as [HX|HX]; [|left; apply Hwork; by right].
    destruct (Hd x HX) as [[->|?]%elem_of_cons|[? Hc]].
    + right. split; [done|]. intros y Hy. apply Hin. by right.
    + left. apply Hwork. by left.
    + right. split; [done|]. intros y Hy. by apply Hsub, Hc.
Qed.

(** An empty worklist: everything reachable was seen, and nothing answered. *)
Lemma wl_inv_end X :
  wl_inv ([], X) -> forall x, (x ∈ X <-> reachable x) /\ (x ∈ X -> answer x = None).
Proof.
  intros [_ _ Hs Hsd Hd] x. cbn [fst snd] in *. split; [split; [by apply Hsd|]|].
  - intros (s & Hst & Hrtc). apply Hs in Hst. induction Hrtc as [|a b c Hab _ IHr]; [done|].
    apply IHr. destruct (Hd a Hst) as [?%not_elem_of_nil|[_ Hc]]; [done|by apply Hc].
  - intros Hx. by destruct (Hd x Hx) as [?%not_elem_of_nil|[? _]].
Qed.

(** The loop ends, with an answer of some reachable node, or with all the
    reachable nodes and no answer among them. *)
Lemma worklist_exact fuel st :
  wl_inv st -> (length st.1 + n <= fuel + size st.2)%nat ->
  exists r X, worklist fuel st = Some (r, X) /\
    match r with
    | Some y => exists x, reachable x /\ answer x = Some y
    | None => forall x, (x ∈ X <-> reachable x) /\ (x ∈ X -> answer x = None)
    end.
Proof.
  revert st. induction fuel as [|fuel IH]; intros [Work X] Hinv Hfuel; cbn [fst snd worklist] in *;
    pose proof Hinv as [Hb Hw Hs Hsd Hd]; cbn [fst snd] in *; destruct Work as [|V Work].
  1,3: exists None, X; split; [done|]; by apply wl_inv_end.
  - apply subseteq_size in Hb. rewrite size_set_seq in Hb. cbn [length] in Hfuel. lia.
  - destruct (answer V) as [y|] eqn:Hans.
    + exists (Some y), X. split; [done|]. exists V. split; [|done]. apply Hsd, Hw. left.
    + destruct (wl_push_all (follow V) (next V) (Work, X)) as (_ & _ & _ & Hlen).
      cbn [fst snd length] in *. apply IH; [by apply wl_inv_step|]. lia.
Qed.

End worklist.
