(* ===== verification/Common.v ===== *)
(** * Common: the arithmetic helpers of sanitizer_common

    [sanitizer_common.h] (powers of two, rounding, alignment, bit indices,
    character classes) and [sanitizer_allocator_checks.h] (the parameter
    checks of the allocation entry points), on 64-bit [uptr]. *)

From S2P Require Import Prelude.

(** ** Definitions *)

Definition CHECK_NE0 (x : Z) : outcome unit := check (negb (x =? 0)) "CHECK_NE".

(** [SANITIZER_WORDSIZE - 1 - __builtin_clzl(x)] *)
Definition MostSignificantSetBitIndex (x : Z) : outcome Z :=
  _ ← CHECK_NE0 x; mret (Z.log2 x).

(** Number of trailing zeros of a non-zero 64-bit integer. *)
Fixpoint ctz_pos (p : positive) : Z :=
  match p with xO q => 1 + ctz_pos q | _ => 0 end.

Definition LeastSignificantSetBitIndex (x : Z) : outcome Z :=
  _ ← CHECK_NE0 x;
  mret (match x with Zpos p => ctz_pos p | _ => 0 end).

Definition IsPowerOfTwo (x : Z) : bool := Z.land x (x -64 1) =? 0.

Definition RoundUpToPowerOfTwo (size : Z) : outcome Z :=
  _ ← CHECK_NE0 size;
  if IsPowerOfTwo size then mret size else
  up ← MostSignificantSetBitIndex size;
  _ ← check (size <? u64 (Z.shiftl 1 (up + 1))) "CHECK_LT";
  _ ← check (u64 (Z.shiftl 1 up) <? size) "CHECK_GT";
  mret (u64 (Z.shiftl 1 (up + 1))).

Definition RoundUpTo (size boundary : Z) : outcome Z :=
  _ ← check (IsPowerOfTwo boundary) "RAW_CHECK";
  mret (Z.land (size +64 boundary -64 1) (not64 (boundary -64 1))).

Definition RoundDownTo (x boundary : Z) : Z :=
  Z.land x (not64 (boundary -64 1)).

Definition IsAligned (a alignment : Z) : bool :=
  Z.land a (alignment -64 1) =? 0.

Definition Log2 (x : Z) : outcome Z :=
  _ ← check (IsPowerOfTwo x) "CHECK";
  LeastSignificantSetBitIndex x.

Definition Min (a b : Z) : Z := if a <? b then a else b.
Definition Max (a b : Z) : Z := if b <? a then a else b.

Definition IsSpace (c : Z) : bool :=
  (c =? 32) || (c =? 10) || (c =? 9) || (c =? 12) || (c =? 13) || (c =? 11).
Definition IsDigit (c : Z) : bool := (48 <=? c) && (c <=? 57).
Definition ToLower (c : Z) : Z :=
  if (65 <=? c) && (c <=? 90) then c + 97 - 65 else c.

(** [SANITIZER_POSIX] branch. *)
Definition CheckAlignedAllocAlignmentAndSize (alignment size : Z) : bool :=
  negb (alignment =? 0) && IsPowerOfTwo alignment &&
  (Z.land size (alignment -64 1) =? 0).

(** A pointer has 8 bytes. *)
Definition CheckPosixMemalignAlignment (alignment : Z) : bool :=
  negb (alignment =? 0) && IsPowerOfTwo alignment && (alignment mod 8 =? 0).

Definition CheckForCallocOverflow (size n : Z) : bool :=
  if size =? 0 then false else (2 ^ 64 - 1) / size <? n.

Definition CheckForPvallocOverflow (size page_size : Z) : outcome bool :=
  r ← RoundUpTo size page_size; mret (r <? size).

(** Two byte ranges with no byte in common. *)
Definition apart (a n b m : Z) : Prop := a + n <= b \/ b + m <= a.

(** ** Lemmas *)

Lemma ctz_pos_spec p : exists q, Zpos p = 2 ^ (ctz_pos p) * (2 * q + 1) /\ 0 <= q /\ 0 <= ctz_pos p.
Proof.
  induction p as [p _|p (q & Hq & Hq0 & Hc)|].
  - exists (Zpos p). cbn. lia.
  - exists q. cbn [ctz_pos]. rewrite Z.pow_add_r by lia. lia.
  - exists 0. cbn. lia.
Qed.

Lemma land_pred_pow2 k : 0 <= k -> Z.land (2 ^ k) (2 ^ k - 1) = 0.
Proof.
  intros Hk. replace (2 ^ k - 1) with (Z.ones k) by (rewrite Z.ones_equiv; lia).
  rewrite Z.land_ones by done. apply Z.mod_same. lia.
Qed.

(** [IsPowerOfTwo] holds exactly of zero and of the powers of two. *)
Lemma IsPowerOfTwo_spec x :
  0 <= x < 2 ^ 64 ->
  IsPowerOfTwo x = true <-> x = 0 \/ exists k, 0 <= k < 64 /\ x = 2 ^ k.
Proof.
  intros Hx. unfold IsPowerOfTwo. rewrite Z.eqb_eq. split.
  - intros H. destruct (Z.eq_dec x 0) as [|Hne]; [by left|]. right.
    rewrite u64_small in H by lia.
    destruct x as [|p|p]; try lia.
    destruct (ctz_pos_spec p) as (q & Hq & Hq0 & Hc).
    set (c := ctz_pos p) in *. assert (q = 0) as ->.
    { destruct (Z.eq_dec q 0) as [|Hqn]; [done|]. exfalso.
      (* the top bit of x survives in x - 1 *)
      pose proof (Z.pow_pos_nonneg 2 c ltac:(lia) ltac:(lia)) as Hp.
      set (t := Z.log2 (Zpos p)).
      assert (Z.testbit (Z.land (Zpos p) (Zpos p - 1)) t = true) as Ht.
      { unfold t at 1. rewrite Z.land_spec, Z.bit_log2 by lia. rewrite andb_true_l.
        pose proof (Z.log2_spec (Zpos p) ltac:(lia)) as [Hlo Hhi]. fold t in Hlo, Hhi.
        assert (Zpos p <> 2 ^ t).
        { intros E. rewrite E in Hq. assert (0 <= t) by apply Z.log2_nonneg.
          assert (c < t) as Hct.
          { apply (Z.pow_lt_mono_r_iff 2); [lia|done|]. rewrite Hq. nia. }
          replace t with (c + (1 + (t - c - 1))) in Hq by lia.
          rewrite !Z.pow_add_r, Z.pow_1_r in Hq by lia.
          apply Z.mul_reg_l in Hq; lia. }
        assert (Z.log2 (Zpos p - 1) = t) as Ht.
        { apply Z.log2_unique; [apply Z.log2_nonneg|lia]. }
        fold t. rewrite <- Ht. apply Z.bit_log2. lia. }
      rewrite H in Ht. by rewrite Z.testbit_0_l in Ht. }
    exists c. split; [|lia]. split; [done|].
    apply (Z.pow_lt_mono_r_iff 2); lia.
  - intros [->|(k & Hk & ->)]; [reflexivity|].
    pose proof (Z.pow_pos_nonneg 2 k).
    pose proof (Z.pow_lt_mono_r 2 k 64).
    rewrite u64_small by lia. apply land_pred_pow2. lia.
Qed.

Lemma land_not64_pow2 x k :
  0 <= k <= 64 -> 0 <= x < 2 ^ 64 -> Z.land x (not64 (2 ^ k - 1)) = 2 ^ k * (x / 2 ^ k).
Proof.
  intros Hk Hx. unfold not64.
  replace (2 ^ 64 - 1 - (2 ^ k - 1)) with (Z.ldiff (Z.ones 64) (Z.ones k)).
  - apply Z.bits_inj'. intros i Hi.
    rewrite Z.mul_comm, <- Z.shiftl_mul_pow2, <- Z.shiftr_div_pow2 by lia.
    rewrite Z.land_spec, Z.ldiff_spec.
    destruct (Z.ltb_spec i k).
    + rewrite (Z.ones_spec_low k), Z.shiftl_spec_low by lia. cbn. by rewrite !andb_false_r.
    + rewrite (Z.ones_spec_high k), Z.shiftl_spec, Z.shiftr_spec by lia.
      rewrite Z.sub_add. destruct (Z.ltb_spec i 64).
      * rewrite Z.ones_spec_low by lia. by rewrite andb_true_r.
      * rewrite Z.ones_spec_high by lia. cbn. rewrite andb_false_r.
        symmetry. rewrite <- (Z.mod_small x (2 ^ 64)) by lia.
        apply Z.mod_pow2_bits_high. lia.
  - rewrite <- Z.sub_nocarry_ldiff.
    + rewrite !Z.ones_equiv. lia.
    + apply Z.bits_inj'. intros i Hi. rewrite Z.ldiff_spec, Z.testbit_0_l.
      destruct (Z.ltb_spec i k).
      * rewrite (Z.ones_spec_low 64) by lia. by rewrite andb_false_r.
      * rewrite (Z.ones_spec_high k) by lia. done.
Qed.

(** Rounding down to a power of two is the largest multiple not above. *)
Lemma RoundDownTo_spec x k :
  0 <= k < 64 -> 0 <= x < 2 ^ 64 -> RoundDownTo x (2 ^ k) = 2 ^ k * (x / 2 ^ k).
Proof.
  intros Hk Hx. unfold RoundDownTo.
  pose proof (Z.pow_pos_nonneg 2 k). pose proof (Z.pow_lt_mono_r 2 k 64).
  rewrite u64_small by lia. apply land_not64_pow2; lia.
Qed.

Lemma IsAligned_spec a k :
  0 <= k < 64 -> IsAligned a (2 ^ k) = (a mod 2 ^ k =? 0).
Proof.
  intros Hk. unfold IsAligned.
  pose proof (Z.pow_pos_nonneg 2 k). pose proof (Z.pow_lt_mono_r 2 k 64).
  rewrite u64_small by lia.
  replace (2 ^ k - 1) with (Z.ones k) by (rewrite Z.ones_equiv; lia).
  by rewrite Z.land_ones by lia.
Qed.

(** Rounding up, when the sum does not wrap: the least multiple not below. *)
Lemma RoundUpTo_spec x k :
  0 <= k < 64 -> 0 <= x -> x + 2 ^ k - 1 < 2 ^ 64 ->
  RoundUpTo x (2 ^ k) = Done (2 ^ k * ((x + 2 ^ k - 1) / 2 ^ k)).
Proof.
  intros Hk Hx Hs.
  pose proof (Z.pow_pos_nonneg 2 k). pose proof (Z.pow_lt_mono_r 2 k 64).
  unfold RoundUpTo.
  assert (IsPowerOfTwo (2 ^ k) = true) as ->.
  { apply IsPowerOfTwo_spec; [lia|]. right. by exists k. }
  cbn [check mbind outcome_bind mret outcome_ret]. do 2 f_equal.
  replace (x +64 2 ^ k -64 1) with (x + 2 ^ k - 1).
  - rewrite (u64_small (2 ^ k - 1)) by lia. apply land_not64_pow2; lia.
  - unfold u64. rewrite Zminus_mod_idemp_l. symmetry. apply Z.mod_small. lia.
Qed.

Lemma RoundUpTo_bounds x k r :
  0 <= k < 64 -> 0 <= x -> x + 2 ^ k - 1 < 2 ^ 64 ->
  RoundUpTo x (2 ^ k) = Done r ->
  x <= r < x + 2 ^ k /\ (2 ^ k | r) /\ r < 2 ^ 64.
Proof.
  intros Hk Hx Hs. rewrite RoundUpTo_spec by lia. intros [= <-].
  pose proof (Z.pow_pos_nonneg 2 k ltac:(lia) ltac:(lia)) as Hp.
  pose proof (Z.div_mod (x + 2 ^ k - 1) (2 ^ k)).
  pose proof (Z.mod_pos_bound (x + 2 ^ k - 1) (2 ^ k)).
  split; [lia|]. split; [apply Z.divide_factor_l|lia].
Qed.

(** Rounding up, when the sum wraps. *)
Lemma RoundUpTo_wraps x k :
  0 <= k < 64 -> x < 2 ^ 64 -> 2 ^ 64 <= x + 2 ^ k - 1 -> RoundUpTo x (2 ^ k) = Done 0.
Proof.
  intros Hk Hx Hs.
  pose proof (Z.pow_pos_nonneg 2 k). pose proof (Z.pow_lt_mono_r 2 k 64).
  unfold RoundUpTo.
  assert (IsPowerOfTwo (2 ^ k) = true) as ->.
  { apply IsPowerOfTwo_spec; [lia|]. right. by exists k. }
  cbn [check mbind outcome_bind mret outcome_ret]. f_equal.
  replace (x +64 2 ^ k -64 1) with (x + 2 ^ k - 1 - 2 ^ 64).
  - rewrite (u64_small (2 ^ k - 1)), land_not64_pow2 by lia. rewrite Z.div_small by lia. lia.
  - unfold u64. rewrite Zminus_mod_idemp_l. rewrite <- (Z.mod_small (x + 2 ^ k - 1 - 2 ^ 64) (2 ^ 64)) by lia.
    replace (x + 2 ^ k - 1) with (x + 2 ^ k - 1 - 2 ^ 64 + 1 * 2 ^ 64) at 2 by lia. by rewrite Z_mod_plus_full.
Qed.

(** The overflow test of calloc is exact on 64-bit operands. *)
Lemma CheckForCallocOverflow_spec size n :
  0 <= size -> 0 <= n ->
  CheckForCallocOverflow size n = true <-> 2 ^ 64 <= size * n.
Proof.
  intros Hs Hn. unfold CheckForCallocOverflow.
  destruct (Z.eqb_spec size 0) as [->|Hne]; [split; [done|lia]|].
  rewrite Z.ltb_lt. split.
  - intros H. pose proof (Z.mul_succ_div_gt (2 ^ 64 - 1) size ltac:(lia)). nia.
  - intros H. apply Z.div_lt_upper_bound; lia.
Qed.

(** *** Powers of two *)

Lemma IsPowerOfTwo_pow2 k : 0 <= k < 64 -> IsPowerOfTwo (2 ^ k) = true.
Proof.
  intros Hk. pose proof (Z.pow_pos_nonneg 2 k). pose proof (Z.pow_lt_mono_r 2 k 64).
  apply IsPowerOfTwo_spec; [lia|]. right. by exists k.
Qed.

Lemma ctz_pow2 k p : 0 <= k -> Zpos p = 2 ^ k -> ctz_pos p = k.
Proof.
  intros Hk E. destruct (ctz_pos_spec p) as (q & Hq & Hq0 & Hc). rewrite E in Hq.
  destruct (Z.lt_trichotomy (ctz_pos p) k) as [Hlt|[Heq|Hlt]]; [|done|].
  - exfalso. replace k with (ctz_pos p + (1 + (k - ctz_pos p - 1))) in Hq by lia.
    rewrite !Z.pow_add_r, Z.pow_1_r in Hq by lia. apply Z.mul_reg_l in Hq; lia.
  - exfalso. pose proof (Z.pow_lt_mono_r 2 k (ctz_pos p)). pose proof (Z.pow_pos_nonneg 2 k). nia.
Qed.

Lemma Log2_pow2 k : 0 <= k < 64 -> Log2 (2 ^ k) = Done k.
Proof.
  intros Hk. pose proof (Z.pow_pos_nonneg 2 k ltac:(lia) ltac:(lia)) as Hp.
  unfold Log2, LeastSignificantSetBitIndex, CHECK_NE0. rewrite IsPowerOfTwo_pow2 by done.
  rewrite (proj2 (Z.eqb_neq (2 ^ k) 0)) by lia. cbn [check negb mbind outcome_bind mret outcome_ret].
  destruct (2 ^ k) as [|p|p] eqn:E; [lia| |lia]. f_equal. apply ctz_pow2; lia.
Qed.

(** The least power of two not below. *)
Lemma RoundUpToPowerOfTwo_spec x :
  0 < x < 2 ^ 63 -> exists k, RoundUpToPowerOfTwo x = Done (2 ^ k) /\ 0 <= k < 64 /\ x <= 2 ^ k < 2 * x.
Proof.
  intros Hx. unfold RoundUpToPowerOfTwo, MostSignificantSetBitIndex, CHECK_NE0.
  rewrite (proj2 (Z.eqb_neq x 0)) by lia. cbn [check negb mbind outcome_bind mret outcome_ret].
  destruct (IsPowerOfTwo x) eqn:Hp.
  - apply IsPowerOfTwo_spec in Hp as [->|(k & Hk & ->)]; [lia| |lia].
    pose proof (Z.pow_pos_nonneg 2 k). exists k. split_and!; lia || done.
  - pose proof (Z.log2_spec x ltac:(lia)) as Hl. pose proof (Z.log2_nonneg x) as H0.
    set (l := Z.log2 x) in *. clearbody l. rewrite Z.pow_succ_r in Hl by done.
    assert (l < 63) by (apply (Z.pow_lt_mono_r_iff 2); lia).
    assert (x <> 2 ^ l) as Hne by (intros ->; rewrite IsPowerOfTwo_pow2 in Hp by lia; done).
    pose proof (Z.pow_lt_mono_r 2 l 63). rewrite !Z.shiftl_1_l, Z.pow_add_r, Z.pow_1_r by lia.
    rewrite !u64_small by lia. rewrite (proj2 (Z.ltb_lt x (2 ^ l * 2))) by lia.
    rewrite (proj2 (Z.ltb_lt (2 ^ l) x)) by lia. cbn [check mbind outcome_bind].
    exists (l + 1). rewrite Z.pow_add_r, Z.pow_1_r by lia. split_and!; lia || done.
Qed.
