(* ===== verification/Layout.v ===== *)
(** * Layout: application, shadow and origin memory

    [cqmsan.h] (the address-space layout of every supported platform, the
    [MEM_TO_SHADOW] / [SHADOW_TO_ORIGIN] macros, [addr_is_type]) and the part of
    [cqmsan_linux.cpp] that checks the layout and maps the shadow
    ([CheckMemoryLayoutSanity], [ProtectMemoryRange], [InitShadow],
    [InitShadowWithReExec]). *)

From S2P Require Import Prelude Common.

(** ** Data *)

(** [MappingDesc::Type] with the values of the enumeration. *)
Inductive MappingType := INVALID | ALLOCATOR | APP | SHADOW | ORIGIN.

#[export] Instance MappingType_eq_dec : EqDecision MappingType.
Proof. solve_decision. Defined.

Definition type_bits (t : MappingType) : Z :=
  match t with INVALID => 1 | ALLOCATOR => 2 | APP => 4 | SHADOW => 8 | ORIGIN => 16 end.

Record MappingDesc := mkDesc {
  md_start : Z;
  md_end : Z;
  md_type : MappingType;
  md_name : string
}.

(** What the preprocessor selects in cqmsan.h for one target. *)
Record Platform := mkPlatform {
  kMemoryLayout : list MappingDesc;
  MEM_TO_SHADOW : Z -> Z;
  SHADOW_TO_ORIGIN : Z -> Z
}.

(** ** The layouts *)

Definition linux_mips64 : Platform := {|
  kMemoryLayout := [
    mkDesc 0x000000000000 0x000200000000 APP "app-1";
    mkDesc 0x000200000000 0x002200000000 INVALID "invalid";
    mkDesc 0x002200000000 0x004000000000 SHADOW "shadow-2";
    mkDesc 0x004000000000 0x004200000000 INVALID "invalid";
    mkDesc 0x004200000000 0x006000000000 ORIGIN "origin-2";
    mkDesc 0x006000000000 0x006200000000 INVALID "invalid";
    mkDesc 0x006200000000 0x008000000000 SHADOW "shadow-3";
    mkDesc 0x008000000000 0x008200000000 SHADOW "shadow-1";
    mkDesc 0x008200000000 0x00a000000000 ORIGIN "origin-3";
    mkDesc 0x00a000000000 0x00a200000000 ORIGIN "origin-1";
    mkDesc 0x00a200000000 0x00c000000000 APP "app-2";
    mkDesc 0x00c000000000 0x00e200000000 INVALID "invalid";
    mkDesc 0x00e200000000 0x00ffffffffff APP "app-3"];
  MEM_TO_SHADOW mem := Z.lxor mem 0x8000000000;
  SHADOW_TO_ORIGIN shadow := shadow +64 0x2000000000
|}.

Definition linux_aarch64 : Platform := {|
  kMemoryLayout := [
    mkDesc 0x0000000000000 0x0100000000000 APP "app-10-13";
    mkDesc 0x0100000000000 0x0200000000000 SHADOW "shadow-14";
    mkDesc 0x0200000000000 0x0300000000000 INVALID "invalid";
    mkDesc 0x0300000000000 0x0400000000000 ORIGIN "origin-14";
    mkDesc 0x0400000000000 0x0600000000000 SHADOW "shadow-15";
    mkDesc 0x0600000000000 0x0800000000000 ORIGIN "origin-15";
    mkDesc 0x0800000000000 0x0A00000000000 INVALID "invalid";
    mkDesc 0x0A00000000000 0x0B00000000000 APP "app-14";
    mkDesc 0x0B00000000000 0x0C00000000000 SHADOW "shadow-10-13";
    mkDesc 0x0C00000000000 0x0D00000000000 INVALID "invalid";
    mkDesc 0x0D00000000000 0x0E00000000000 ORIGIN "origin-10-13";
    mkDesc 0x0E00000000000 0x0E40000000000 ALLOCATOR "allocator";
    mkDesc 0x0E40000000000 0x1000000000000 APP "app-15"];
  MEM_TO_SHADOW mem := Z.lxor mem 0xB00000000000;
  SHADOW_TO_ORIGIN shadow := shadow +64 0x200000000000
|}.

Definition linux_loongarch64 : Platform := {|
  kMemoryLayout := [
    mkDesc 0x000000000000 0x010000000000 APP "app-1";
    mkDesc 0x010000000000 0x100000000000 SHADOW "shadow-2";
    mkDesc 0x100000000000 0x110000000000 INVALID "invalid";
    mkDesc 0x110000000000 0x200000000000 ORIGIN "origin-2";
    mkDesc 0x200000000000 0x300000000000 SHADOW "shadow-3";
    mkDesc 0x300000000000 0x400000000000 ORIGIN "origin-3";
    mkDesc 0x400000000000 0x500000000000 INVALID "invalid";
    mkDesc 0x500000000000 0x510000000000 SHADOW "shadow-1";
    mkDesc 0x510000000000 0x600000000000 APP "app-2";
    mkDesc 0x600000000000 0x610000000000 ORIGIN "origin-1";
    mkDesc 0x610000000000 0x700000000000 INVALID "invalid";
    mkDesc 0x700000000000 0x740000000000 ALLOCATOR "allocator";
    mkDesc 0x740000000000 0x800000000000 APP "app-3"];
  MEM_TO_SHADOW mem := Z.lxor mem 0x500000000000;
  SHADOW_TO_ORIGIN shadow := shadow +64 0x100000000000
|}.

Definition ppc64_LINEARIZE_MEM (mem : Z) : Z :=
  Z.lxor (Z.land mem (not64 0xE00000000000)) 0x100000000000.

Definition linux_ppc64 : Platform := {|
  kMemoryLayout := [
    mkDesc 0x000000000000 0x000200000000 APP "low memory";
    mkDesc 0x000200000000 0x080000000000 INVALID "invalid";
    mkDesc 0x080000000000 0x180200000000 SHADOW "shadow";
    mkDesc 0x180200000000 0x1C0000000000 INVALID "invalid";
    mkDesc 0x1C0000000000 0x2C0200000000 ORIGIN "origin";
    mkDesc 0x2C0200000000 0x300000000000 INVALID "invalid";
    mkDesc 0x300000000000 0x320000000000 ALLOCATOR "allocator";
    mkDesc 0x320000000000 0x800000000000 APP "high memory"];
  MEM_TO_SHADOW mem := ppc64_LINEARIZE_MEM mem +64 0x080000000000;
  SHADOW_TO_ORIGIN shadow := shadow +64 0x140000000000
|}.

Definition linux_s390x : Platform := {|
  kMemoryLayout := [
    mkDesc 0x000000000000 0x040000000000 APP "low memory";
    mkDesc 0x040000000000 0x080000000000 INVALID "invalid";
    mkDesc 0x080000000000 0x180000000000 SHADOW "shadow";
    mkDesc 0x180000000000 0x1C0000000000 INVALID "invalid";
    mkDesc 0x1C0000000000 0x2C0000000000 ORIGIN "origin";
    mkDesc 0x2C0000000000 0x440000000000 INVALID "invalid";
    mkDesc 0x440000000000 0x460000000000 ALLOCATOR "allocator";
    mkDesc 0x460000000000 0x500000000000 APP "high memory"];
  MEM_TO_SHADOW mem := Z.land mem (not64 0xC00000000000) +64 0x080000000000;
  SHADOW_TO_ORIGIN shadow := shadow +64 0x140000000000
|}.

Definition freebsd_aarch64_LINEARIZE_MEM (mem : Z) : Z :=
  Z.lxor (Z.land mem (not64 0x1800000000000)) 0x400000000000.

Definition freebsd_aarch64 : Platform := {|
  kMemoryLayout := [
    mkDesc 0x000000000000 0x020000000000 APP "low memory";
    mkDesc 0x020000000000 0x200000000000 INVALID "invalid";
    mkDesc 0x200000000000 0x620000000000 SHADOW "shadow";
    mkDesc 0x620000000000 0x700000000000 INVALID "invalid";
    mkDesc 0x700000000000 0xb20000000000 ORIGIN "origin";
    mkDesc 0xb20000000000 0xc00000000000 INVALID "invalid";
    mkDesc 0xc00000000000 0x1000000000000 APP "high memory"];
  MEM_TO_SHADOW mem := freebsd_aarch64_LINEARIZE_MEM mem +64 0x200000000000;
  SHADOW_TO_ORIGIN shadow := shadow +64 0x500000000000
|}.

Definition freebsd64_LINEARIZE_MEM (mem : Z) : Z :=
  Z.lxor (Z.land mem (not64 0xc00000000000)) 0x200000000000.

Definition freebsd64 : Platform := {|
  kMemoryLayout := [
    mkDesc 0x000000000000 0x010000000000 APP "low memory";
    mkDesc 0x010000000000 0x100000000000 INVALID "invalid";
    mkDesc 0x100000000000 0x310000000000 SHADOW "shadow";
    mkDesc 0x310000000000 0x380000000000 INVALID "invalid";
    mkDesc 0x380000000000 0x590000000000 ORIGIN "origin";
    mkDesc 0x590000000000 0x600000000000 INVALID "invalid";
    mkDesc 0x600000000000 0x800000000000 APP "high memory"];
  MEM_TO_SHADOW mem := freebsd64_LINEARIZE_MEM mem +64 0x100000000000;
  SHADOW_TO_ORIGIN shadow := shadow +64 0x280000000000
|}.

(** NetBSD and every other 64-bit Linux: the x86_64 layout of the project. *)
Definition linux_x86_64 : Platform := {|
  kMemoryLayout := [
    mkDesc 0x000000000000 0x010000000000 APP "app-1";
    mkDesc 0x010000000000 0x100000000000 SHADOW "shadow-2";
    mkDesc 0x100000000000 0x110000000000 INVALID "invalid";
    mkDesc 0x110000000000 0x200000000000 ORIGIN "origin-2";
    mkDesc 0x200000000000 0x300000000000 SHADOW "shadow-3";
    mkDesc 0x300000000000 0x400000000000 ORIGIN "origin-3";
    mkDesc 0x400000000000 0x500000000000 INVALID "invalid";
    mkDesc 0x500000000000 0x510000000000 SHADOW "shadow-1";
    mkDesc 0x510000000000 0x600000000000 APP "app-2";
    mkDesc 0x600000000000 0x610000000000 ORIGIN "origin-1";
    mkDesc 0x610000000000 0x700000000000 INVALID "invalid";
    mkDesc 0x700000000000 0x740000000000 ALLOCATOR "allocator";
    mkDesc 0x740000000000 0x800000000000 APP "app-3"];
  MEM_TO_SHADOW mem := Z.lxor mem 0x500000000000;
  SHADOW_TO_ORIGIN mem := mem +64 0x100000000000
|}.

(** Every [#if] branch of cqmsan.h. *)
Definition platforms : list Platform :=
  [linux_mips64; linux_aarch64; linux_loongarch64; linux_ppc64; linux_s390x;
   freebsd_aarch64; freebsd64; linux_x86_64].

(** ** Address classification *)

Section classify.
Context (P : Platform).

Definition MEM_TO_ORIGIN (mem : Z) : Z :=
  SHADOW_TO_ORIGIN P (MEM_TO_SHADOW P mem).

Definition addr_is_type (addr mapping_types : Z) : bool :=
  existsb (fun d =>
    negb (Z.land (type_bits (md_type d)) mapping_types =? 0) &&
    (md_start d <=? addr) && (addr <? md_end d)) (kMemoryLayout P).

Definition MEM_IS_APP (mem : Z) : bool :=
  addr_is_type mem (Z.lor (type_bits APP) (type_bits ALLOCATOR)).
Definition MEM_IS_SHADOW (mem : Z) : bool := addr_is_type mem (type_bits SHADOW).
Definition MEM_IS_ORIGIN (mem : Z) : bool := addr_is_type mem (type_bits ORIGIN).

(** ** Sanity check at start-up *)

(** The checks made at one address of an application region. *)
Definition check_app_addr (addr : Z) : outcome unit :=
  _ ← check (MEM_IS_SHADOW (MEM_TO_SHADOW P addr)) "CHECK(MEM_IS_SHADOW)";
  _ ← check (MEM_IS_ORIGIN (MEM_TO_ORIGIN addr)) "CHECK(MEM_IS_ORIGIN)";
  check (MEM_TO_ORIGIN addr =? SHADOW_TO_ORIGIN P (MEM_TO_SHADOW P addr)) "CHECK_EQ".

Fixpoint check_layout_from (prev_end : Z) (l : list MappingDesc) : outcome unit :=
  match l with
  | [] => mret tt
  | d :: l' =>
      let start := md_start d in
      let end_ := md_end d in
      let type := type_bits (md_type d) in
      _ ← check (start <? end_) "CHECK_LT";
      _ ← check (prev_end =? start) "CHECK_EQ";
      _ ← check (addr_is_type start type) "CHECK";
      _ ← check (addr_is_type (u64 (start + end_) / 2) type) "CHECK";
      _ ← check (addr_is_type (end_ -64 1) type) "CHECK";
      _ ← match md_type d with
          | APP | ALLOCATOR =>
              _ ← check_app_addr start;
              _ ← check_app_addr (u64 (start + end_) / 2);
              check_app_addr (end_ -64 1)
          | _ => mret tt
          end;
      check_layout_from end_ l'
  end.

Definition CheckMemoryLayoutSanity : outcome unit :=
  check_layout_from 0 (kMemoryLayout P).
End classify.

(** ** Mapping the shadow at start-up *)

(** The system calls the mapping functions make, in the order they are made. *)
Inductive os_call :=
| CallMmapFixedNoAccess (beg size : Z)
| CallMmapFixedSuperNoReserve (start size : Z)
| CallDontDumpShadowMemory (start size : Z).

(** The operating system as InitShadow sees it: the answers of the wrappers of
    sanitizer_posix around [mmap], the process's address-space limits, and the
    address of the runtime's own code. *)
Record OS := mkOS {
  MemoryRangeIsAvailable : Z -> Z -> bool;
  MmapFixedNoAccess : Z -> Z -> Z;
  MmapFixedSuperNoReserve : Z -> Z -> bool;
  GetMaxUserVirtualAddress : Z;
  GetPageSizeCached : Z;
  use_madv_dontdump : bool;
  cqmsan_init_addr : Z
}.

Section init.
Context (P : Platform) (os : OS).

Definition CheckMemoryRangeAvailability (beg size : Z) : bool :=
  if 0 <? size then
    let end_ := (beg +64 size) -64 1 in
    if negb (MemoryRangeIsAvailable os beg end_) then false else true
  else true.

Definition ProtectMemoryRange (beg size : Z) : bool * list os_call :=
  if 0 <? size then
    let addr := MmapFixedNoAccess os beg size in
    let calls := [CallMmapFixedNoAccess beg size] in
    if (beg =? 0) && negb (addr =? 0) then
      let gap := 16 *64 GetPageSizeCached os in
      let beg' := beg +64 gap in
      let size' := size -64 gap in
      let addr' := MmapFixedNoAccess os beg' size' in
      (addr' =? beg', calls ++ [CallMmapFixedNoAccess beg' size'])
    else (addr =? beg, calls)
  else (true, []).

(** One iteration of the region loop of InitShadow: [None] continues with the
    next region, [Some b] returns [b]; the calls are those of the iteration. *)
Definition init_region (init_origins dry_run : bool) (d : MappingDesc)
    : outcome (option bool * list os_call) :=
  let start := md_start d in
  let size := md_end d -64 start in
  let ty t := bool_decide (md_type d = t) in
  if GetMaxUserVirtualAddress os <=? start then mret (None, []) else
  if negb init_origins && ty ORIGIN then mret (None, []) else
  let map := ty SHADOW || (init_origins && ty ORIGIN) in
  let protect := ty INVALID || (negb init_origins && ty ORIGIN) in
  _ ← check (negb (map && protect)) "CHECK(!(map && protect))";
  if negb map && negb protect then
    _ ← check (ty APP || ty ALLOCATOR) "CHECK(type == APP || ALLOCATOR)";
    if dry_run && ty ALLOCATOR && negb (CheckMemoryRangeAvailability start size)
    then mret (Some false, []) else mret (None, [])
  else if map then
    if dry_run && negb (CheckMemoryRangeAvailability start size)
    then mret (Some false, []) else
    if dry_run then mret (None, []) else
    let calls := [CallMmapFixedSuperNoReserve start size] in
    if negb (MmapFixedSuperNoReserve os start size) then mret (Some false, calls) else
    mret (None, if use_madv_dontdump os
                then calls ++ [CallDontDumpShadowMemory start size] else calls)
  else
    if dry_run && negb (CheckMemoryRangeAvailability start size)
    then mret (Some false, []) else
    if dry_run then mret (None, []) else
    let '(ok, calls) := ProtectMemoryRange start size in
    mret (if ok then None else Some false, calls).

Fixpoint init_regions (init_origins dry_run : bool) (l : list MappingDesc)
    (log : list os_call) : outcome (bool * list os_call) :=
  match l with
  | [] => mret (true, log)
  | d :: l' =>
      r ← init_region init_origins dry_run d;
      match r with
      | (Some b, calls) => mret (b, log ++ calls)
      | (None, calls) => init_regions init_origins dry_run l' (log ++ calls)
      end
  end.

Definition InitShadow (init_origins dry_run : bool) : outcome (bool * list os_call) :=
  _ ← CheckMemoryLayoutSanity P;
  if negb (MEM_IS_APP P (cqmsan_init_addr os)) then mret (false, []) else
  init_regions init_origins dry_run (kMemoryLayout P) [].

(** The process either answers, or replaces itself by [ReExec()]. *)
Inductive reexec_answer := Answer (success : bool) (calls : list os_call) | ReExeced.

(** [old_personality] is the answer of [personality(0xffffffff)] and
    [set_ok] tells whether setting [ADDR_NO_RANDOMIZE] succeeds. *)
Definition ADDR_NO_RANDOMIZE := 0x0040000.
Definition InitShadowWithReExec (init_origins : bool) (old_personality : Z) (set_ok : bool)
    : outcome reexec_answer :=
  r ← InitShadow init_origins true;
  let success := r.1 in
  let aslr_on := negb (old_personality =? -1) &&
                 (Z.land old_personality ADDR_NO_RANDOMIZE =? 0) in
  if negb success && aslr_on then
    _ ← check set_ok "CHECK_NE(personality(...), -1)";
    mret ReExeced
  else if success then
    r2 ← InitShadow init_origins false;
    mret (Answer r2.1 (r.2 ++ r2.2))
  else mret (Answer false r.2).
End init.

(** ** Lemmas *)

(** [t] is among the bits of the mask exactly when it is one of its types. *)
Lemma addr_is_type_elem P addr mask :
  addr_is_type P addr mask = true <->
  exists d, d ∈ kMemoryLayout P /\ Z.land (type_bits (md_type d)) mask <> 0 /\
            md_start d <= addr < md_end d.
Proof.
  unfold addr_is_type. rewrite existsb_exists_elem. split.
  - intros (d & Hd & H). bool_hyps. eauto.
  - intros (d & Hd & H1 & H2). exists d. split; [done|].
    rewrite !andb_true_iff, negb_true_iff. repeat split; bool_goal; lia.
Qed.

Lemma MEM_IS_APP_elem P addr :
  MEM_IS_APP P addr = true <->
  exists d, d ∈ kMemoryLayout P /\ (md_type d = APP \/ md_type d = ALLOCATOR) /\
            md_start d <= addr < md_end d.
Proof.
  unfold MEM_IS_APP. rewrite addr_is_type_elem.
  split; intros (d & Hd & Ht & Ha); exists d; (split; [done|split; [|done]]).
  - destruct (md_type d); vm_compute in Ht; tauto.
  - destruct Ht as [-> | ->]; done.
Qed.

Definition region_covers (t : MappingType) (l : list MappingDesc) (s g : Z) : bool :=
  existsb (fun d => bool_decide (md_type d = t) && (md_start d <=? s) && (s + g <=? md_end d)) l.

Lemma region_covers_type P t s g x :
  region_covers t (kMemoryLayout P) s g = true -> s <= x < s + g ->
  addr_is_type P x (type_bits t) = true.
Proof.
  unfold region_covers. rewrite existsb_exists_elem. intros (d & Hd & H) Hx.
  rewrite !andb_true_iff, bool_decide_eq_true in H.
  destruct H as [[Ht H1] H2]. bool_hyps.
  apply addr_is_type_elem. exists d. rewrite Ht. split; [done|].
  split; [by destruct t|lia].
Qed.

(** The macros move whole aligned blocks of [2^k] addresses (proved platform by
    platform below). *)
Definition block_linear (P : Platform) (k : Z) : Prop :=
  forall a, 0 <= a < 2 ^ 48 ->
    MEM_TO_SHADOW P a = MEM_TO_SHADOW P (Z.shiftl (Z.shiftr a k) k) + Z.land a (Z.ones k) /\
    MEM_TO_ORIGIN P a = MEM_TO_ORIGIN P (Z.shiftl (Z.shiftr a k) k) + Z.land a (Z.ones k).

Definition block_ok (P : Platform) (k i : Z) : bool :=
  let a := Z.shiftl i k in
  region_covers SHADOW (kMemoryLayout P) (MEM_TO_SHADOW P a) (2 ^ k) &&
  region_covers ORIGIN (kMemoryLayout P) (MEM_TO_ORIGIN P a) (2 ^ k).

Definition desc_ok (P : Platform) (k : Z) (d : MappingDesc) : bool :=
  match md_type d with
  | APP | ALLOCATOR =>
      (0 <=? md_start d) && (md_end d <=? 2 ^ 48) &&
      let i0 := Z.shiftr (md_start d) k in
      forallb (fun j => block_ok P k (i0 + j))
        (zrange (Z.shiftr (md_end d - 1) k - i0 + 1))
  | _ => true
  end.

Lemma land_ones_range a k : 0 <= k -> 0 <= Z.land a (Z.ones k) < 2 ^ k.
Proof. intros Hk. rewrite Z.land_ones by done. apply Z.mod_pos_bound. lia. Qed.

Lemma blocks_sound P k a :
  0 <= k -> block_linear P k -> forallb (desc_ok P k) (kMemoryLayout P) = true ->
  MEM_IS_APP P a = true ->
  MEM_IS_SHADOW P (MEM_TO_SHADOW P a) = true /\ MEM_IS_ORIGIN P (MEM_TO_ORIGIN P a) = true.
Proof.
  intros Hk Hlin Hok (d & Hd & Ht & Ha)%MEM_IS_APP_elem.
  rewrite forallb_forall in Hok. setoid_rewrite <- list_elem_of_In in Hok.
  specialize (Hok d Hd). unfold desc_ok in Hok.
  assert ((0 <=? md_start d) && (md_end d <=? 2 ^ 48) &&
      forallb (fun j => block_ok P k (Z.shiftr (md_start d) k + j))
        (zrange (Z.shiftr (md_end d - 1) k - Z.shiftr (md_start d) k + 1)) = true) as H
    by (destruct Ht as [E|E]; by rewrite E in Hok).
  rewrite !andb_true_iff, forallb_zrange in H. destruct H as [[H0 H1] Hb]. bool_hyps.
  specialize (Hb (Z.shiftr a k - Z.shiftr (md_start d) k)).
  rewrite Zplus_minus in Hb.
  pose proof (land_ones_range a k Hk).
  destruct (Hlin a) as [-> ->]; [lia|].
  assert (block_ok P k (Z.shiftr a k) = true) as Hbo.
  { apply Hb. rewrite !Z.shiftr_div_pow2 by done.
    assert (md_start d / 2 ^ k <= a / 2 ^ k) by (apply Z.div_le_mono; lia).
    assert (a / 2 ^ k <= (md_end d - 1) / 2 ^ k) by (apply Z.div_le_mono; lia). lia. }
  unfold block_ok in Hbo. apply andb_true_iff in Hbo as [Hs Ho].
  split; eapply region_covers_type; eauto; lia.
Qed.

Lemma shiftr_shiftl_id x k : 0 <= k -> Z.shiftr (Z.shiftl x k) k = x.
Proof. intros. rewrite Z.shiftr_shiftl_l, Z.sub_diag by lia. apply Z.shiftl_0_r. Qed.

(** ** The macros act on blocks of addresses *)

(** [f] maps the block of index [i] to the block of index [g i], keeping the
    offset inside the block. *)
Definition acts_on_blocks (k : Z) (f g : Z -> Z) : Prop :=
  forall a, 0 <= a < 2 ^ 48 -> f a = Z.shiftl (g (Z.shiftr a k)) k + Z.land a (Z.ones k).

Definition bounded (f : Z -> Z) (n : Z) : Prop :=
  forall a, 0 <= a < 2 ^ 48 -> 0 <= f a < 2 ^ n.

Lemma block_index k q r : 0 <= k -> 0 <= r < 2 ^ k -> Z.shiftr (Z.shiftl q k + r) k = q.
Proof.
  intros Hk Hr. rewrite Z.shiftr_div_pow2, Z.shiftl_mul_pow2 by done.
  rewrite Z.div_add_l by lia. rewrite Z.div_small; lia.
Qed.

Lemma block_offset k q r :
  0 <= k -> 0 <= r < 2 ^ k -> Z.land (Z.shiftl q k + r) (Z.ones k) = r.
Proof.
  intros Hk Hr. rewrite Z.land_ones, Z.shiftl_mul_pow2 by done.
  rewrite Z.add_comm, Z.mod_add by lia. by apply Z.mod_small.
Qed.

Lemma lxor_range a c n : 0 <= n -> 0 <= a < 2 ^ n -> 0 <= c < 2 ^ n -> 0 <= Z.lxor a c < 2 ^ n.
Proof.
  intros Hn Ha Hc. assert (0 <= Z.lxor a c) as Hnn by (apply Z.lxor_nonneg; lia).
  assert (Z.lxor a c / 2 ^ n = 0) as H.
  { rewrite <- Z.shiftr_div_pow2, Z.shiftr_lxor, !Z.shiftr_div_pow2, !Z.div_small by lia. done. }
  apply Z.div_small_iff in H; lia.
Qed.

Lemma land_range a m n : 0 <= n -> 0 <= a < 2 ^ n -> 0 <= m -> 0 <= Z.land a m < 2 ^ n.
Proof.
  intros Hn Ha Hm. assert (0 <= Z.land a m) as Hnn by (apply Z.land_nonneg; lia).
  assert (Z.land a m / 2 ^ n = 0) as H.
  { rewrite <- Z.shiftr_div_pow2, Z.shiftr_land, (Z.shiftr_div_pow2 a), Z.div_small by lia.
    apply Z.land_0_l. }
  apply Z.div_small_iff in H; lia.
Qed.

Lemma blocks_lxor k c C :
  0 <= k -> C = Z.shiftl c k -> acts_on_blocks k (fun a => Z.lxor a C) (fun i => Z.lxor i c).
Proof. intros Hk -> a _. by apply lxor_block. Qed.

Lemma blocks_land k M :
  0 <= k <= 64 -> M = Z.shiftl (Z.shiftr M k) k -> 0 <= M < 2 ^ 64 ->
  acts_on_blocks k (fun a => Z.land a (not64 M)) (fun i => Z.land i (Z.shiftr (not64 M) k)).
Proof.
  intros Hk HM Hr a Ha. apply land_block; [lia|].
  apply (land_not64_ones a); try done. lia.
Qed.

Lemma blocks_add k c C n :
  0 <= k -> C = Z.shiftl c k -> 0 <= C -> 0 <= n -> 2 ^ n + C <= 2 ^ 64 ->
  forall f g, acts_on_blocks k f g -> bounded f n ->
  acts_on_blocks k (fun a => f a +64 C) (fun i => g i + c).
Proof.
  intros Hk HC HC0 Hn Hsum f g Hf Hb a Ha. cbn. specialize (Hb a Ha).
  rewrite u64_small by lia. rewrite (Hf a Ha), HC, !Z.shiftl_mul_pow2 by done. lia.
Qed.

Lemma blocks_comp k f1 g1 f2 g2 :
  0 <= k -> acts_on_blocks k f1 g1 -> acts_on_blocks k f2 g2 -> bounded f1 48 ->
  acts_on_blocks k (fun a => f2 (f1 a)) (fun i => g2 (g1 i)).
Proof.
  intros Hk H1 H2 Hb a Ha. pose proof (land_ones_range a k Hk). cbn.
  rewrite (H2 (f1 a)) by (by apply Hb). rewrite (H1 a Ha).
  by rewrite block_index, block_offset.
Qed.

Lemma bounded_lxor C : 0 <= C < 2 ^ 48 -> bounded (fun a => Z.lxor a C) 48.
Proof. intros HC a Ha. by apply lxor_range. Qed.

Lemma bounded_land M : 0 <= M < 2 ^ 64 -> bounded (fun a => Z.land a (not64 M)) 48.
Proof. intros HM a Ha. apply land_range; unfold not64; lia. Qed.

Lemma bounded_comp f1 f2 : bounded f1 48 -> bounded f2 48 -> bounded (fun a => f2 (f1 a)) 48.
Proof. intros H1 H2 a Ha. by apply H2, H1. Qed.

Lemma bounded_add f C :
  0 <= C < 2 ^ 48 -> bounded f 48 -> bounded (fun a => f a +64 C) 49.
Proof. intros HC Hf a Ha. specialize (Hf a Ha). cbn. rewrite u64_small; lia. Qed.

#[export] Hint Resolve bounded_lxor bounded_land bounded_comp bounded_add : cq.

Lemma block_linear_of P k g h :
  0 <= k -> acts_on_blocks k (MEM_TO_SHADOW P) g -> acts_on_blocks k (MEM_TO_ORIGIN P) h ->
  block_linear P k.
Proof.
  intros Hk Hg Hh a Ha.
  pose proof (div_mod_pow2 a k Hk). pose proof (land_ones_range a k Hk).
  assert (0 <= Z.shiftl (Z.shiftr a k) k < 2 ^ 48).
  { split; [|lia]. apply Z.shiftl_nonneg, Z.shiftr_nonneg. lia. }
  rewrite (Hg a Ha), (Hh a Ha), Hg, Hh by done.
  rewrite shiftr_shiftl_id, land_ones_multiple by done. lia.
Qed.

Lemma blocks_shadow_lxor P k c d C D :
  0 <= k -> C = Z.shiftl c k -> D = Z.shiftl d k -> 0 <= C < 2 ^ 48 -> 0 <= D < 2 ^ 48 ->
  MEM_TO_SHADOW P = (fun a => Z.lxor a C) -> SHADOW_TO_ORIGIN P = (fun s => s +64 D) ->
  block_linear P k.
Proof.
  intros Hk HC HD HCr HDr Hs Ho. eapply block_linear_of; [done| |].
  - rewrite Hs. by apply blocks_lxor.
  - unfold MEM_TO_ORIGIN. rewrite Hs, Ho.
    eapply (blocks_add k d D 48); try (done || lia); [by apply blocks_lxor|].
    by apply bounded_lxor.
Qed.

(** Macros of the form [((mem & ~M) ^ X) + C], with [X] possibly zero. *)
Lemma blocks_shadow_linearize P k m x c d M X C D :
  0 <= k <= 64 -> M = Z.shiftl (Z.shiftr M k) k -> 0 <= M < 2 ^ 64 -> Z.shiftr M k = m ->
  X = Z.shiftl x k -> C = Z.shiftl c k -> D = Z.shiftl d k ->
  0 <= X < 2 ^ 48 -> 0 <= C < 2 ^ 48 -> 0 <= D < 2 ^ 48 ->
  MEM_TO_SHADOW P = (fun a => Z.lxor (Z.land a (not64 M)) X +64 C) ->
  SHADOW_TO_ORIGIN P = (fun s => s +64 D) ->
  block_linear P k.
Proof.
  intros Hk HM HMr Hm HX HC HD HXr HCr HDr Hs Ho.
  assert (bounded (fun a => Z.lxor (Z.land a (not64 M)) X) 48) as Hb
    by exact (bounded_comp _ _ (bounded_land M HMr) (bounded_lxor X HXr)).
  assert (acts_on_blocks k (MEM_TO_SHADOW P)
            (fun i => Z.lxor (Z.land i (Z.shiftr (not64 M) k)) x + c)) as Hsh.
  { rewrite Hs. eapply (blocks_add k c C 48); try (done || lia).
    exact (blocks_comp k _ _ _ _ ltac:(lia) (blocks_land k M Hk HM HMr)
             (blocks_lxor k x X ltac:(lia) HX) (bounded_land M HMr)). }
  eapply block_linear_of; [lia|exact Hsh|].
  unfold MEM_TO_ORIGIN. rewrite Ho.
  eapply (blocks_add k d D 49); try (done || lia).
  rewrite Hs. by apply bounded_add.
Qed.

Ltac by_lxor k C D :=
  apply (blocks_shadow_lxor _ k (Z.shiftr C k) (Z.shiftr D k) C D); (reflexivity || lia).

Ltac by_linearize k M X C D :=
  apply (blocks_shadow_linearize _ k (Z.shiftr M k) (Z.shiftr X k) (Z.shiftr C k)
           (Z.shiftr D k) M X C D); (reflexivity || lia).

Lemma blocks_mips64 : block_linear linux_mips64 33.
Proof. by_lxor 33 0x8000000000 0x2000000000. Qed.

Lemma blocks_aarch64 : block_linear linux_aarch64 40.
Proof. by_lxor 40 0xB00000000000 0x200000000000. Qed.

Lemma blocks_loongarch64 : block_linear linux_loongarch64 40.
Proof. by_lxor 40 0x500000000000 0x100000000000. Qed.

Lemma blocks_x86_64 : block_linear linux_x86_64 40.
Proof. by_lxor 40 0x500000000000 0x100000000000. Qed.

Lemma blocks_ppc64 : block_linear linux_ppc64 40.
Proof. by_linearize 40 0xE00000000000 0x100000000000 0x080000000000 0x140000000000. Qed.

Lemma blocks_freebsd_aarch64 : block_linear freebsd_aarch64 40.
Proof. by_linearize 40 0x1800000000000 0x400000000000 0x200000000000 0x500000000000. Qed.

Lemma blocks_freebsd64 : block_linear freebsd64 40.
Proof. by_linearize 40 0xc00000000000 0x200000000000 0x100000000000 0x280000000000. Qed.

(** s390x has no exclusive or: the same argument with [X = 0]. *)
Lemma blocks_s390x : block_linear linux_s390x 40.
Proof.
  assert (block_linear (mkPlatform (kMemoryLayout linux_s390x)
            (fun a => Z.lxor (Z.land a (not64 0xC00000000000)) 0 +64 0x080000000000)
            (SHADOW_TO_ORIGIN linux_s390x)) 40) as H
    by by_linearize 40 0xC00000000000 0 0x080000000000 0x140000000000.
  intros a Ha. specialize (H a Ha). unfold MEM_TO_ORIGIN in *.
  cbn [MEM_TO_SHADOW SHADOW_TO_ORIGIN] in H. by rewrite !Z.lxor_0_r in H.
Qed.

(** The platforms whose layout keeps its promise at every address. *)
Definition sound_platforms : list Platform :=
  [linux_mips64; linux_aarch64; linux_loongarch64; linux_s390x;
   freebsd_aarch64; freebsd64; linux_x86_64].

(** ** Properties *)

(** C12: on every supported platform but PowerPC64, every application address
    (program or allocator region) has its shadow inside a SHADOW region and its
    origin inside an ORIGIN region: the promise CheckMemoryLayoutSanity tests at
    three addresses per region holds at all of them. *)
Theorem app_has_shadow_and_origin P a :
  P ∈ sound_platforms -> MEM_IS_APP P a = true ->
  MEM_IS_SHADOW P (MEM_TO_SHADOW P a) = true /\ MEM_IS_ORIGIN P (MEM_TO_ORIGIN P a) = true.
Proof.
  intros HP Ha. unfold sound_platforms in HP.
  repeat (apply elem_of_cons in HP as [->|HP]); [..|by apply elem_of_nil in HP].
  - by apply (blocks_sound _ 33 a ltac:(lia) blocks_mips64).
  - by apply (blocks_sound _ 40 a ltac:(lia) blocks_aarch64).
  - by apply (blocks_sound _ 40 a ltac:(lia) blocks_loongarch64).
  - by apply (blocks_sound _ 40 a ltac:(lia) blocks_s390x).
  - by apply (blocks_sound _ 40 a ltac:(lia) blocks_freebsd_aarch64).
  - by apply (blocks_sound _ 40 a ltac:(lia) blocks_freebsd64).
  - by apply (blocks_sound _ 40 a ltac:(lia) blocks_x86_64).
Qed.

Lemma app_has_shadow_and_origin_witness :
  MEM_IS_APP linux_x86_64 0x740000001234 = true /\ MEM_IS_SHADOW linux_x86_64 0x240000001234 = true.
Proof.
  split; [reflexivity|].
  apply (app_has_shadow_and_origin linux_x86_64 0x740000001234); [|reflexivity].
  unfold sound_platforms. set_solver.
Defined.

(** the start-up check accepts the PowerPC64 layout although it is broken:
    the shadow of every address of [0x400200000000, 0x500000000000), which is
    application memory, falls outside of every SHADOW region. *)
Theorem ppc64_shadow_hole a :
  0x400200000000 <= a < 0x500000000000 ->
  CheckMemoryLayoutSanity linux_ppc64 = Done tt /\
  MEM_IS_APP linux_ppc64 a = true /\
  MEM_IS_SHADOW linux_ppc64 (MEM_TO_SHADOW linux_ppc64 a) = false.
Proof.
  intros Ha. split; [reflexivity|]. split.
  { apply MEM_IS_APP_elem. exists (mkDesc 0x320000000000 0x800000000000 APP "high memory").
    split; [|split; [by left|cbn; lia]]. cbn. set_solver. }
  assert (MEM_TO_SHADOW linux_ppc64 a = a - 0x400000000000 + 0x180000000000) as ->.
  { assert (Z.land a (not64 0xE00000000000) = a - 0x400000000000) as E.
    { rewrite (land_block a (not64 0xE00000000000) 44) by (lia || reflexivity).
      assert (Z.shiftr a 44 = 4) as ->
        by (rewrite Z.shiftr_div_pow2 by lia; symmetry; apply (Z.div_unique_pos _ _ _ (a - 2^44*4)); lia).
      rewrite Z.land_ones by lia.
      rewrite <- (Z.mod_unique_pos a (2 ^ 44) 4 (a - 2 ^ 44 * 4)) by lia.
      change (Z.land 4 (Z.shiftr (not64 0xE00000000000) 44)) with 0. rewrite Z.shiftl_0_l. lia. }
    cbn. unfold ppc64_LINEARIZE_MEM. rewrite E.
    change 0x100000000000 with (Z.shiftl 1 44). rewrite (lxor_block _ 1 44) by lia.
    assert (Z.shiftr (a - 0x400000000000) 44 = 0) as ->
      by (rewrite Z.shiftr_div_pow2 by lia; apply Z.div_small; lia).
    rewrite Z.land_ones, Z.mod_small by lia.
    change (Z.shiftl (Z.lxor 0 1) 44) with 0x100000000000. rewrite u64_small; lia. }
  apply not_true_iff_false. intros (d & Hd & Ht & Hr)%addr_is_type_elem.
  cbn in Hd.
  repeat (apply elem_of_cons in Hd as [->|Hd]);
    [cbn [md_start md_end md_type] in Ht, Hr; (lia || by destruct Ht)..|].
  by apply elem_of_nil in Hd.
Qed.

Lemma ppc64_shadow_hole_witness :
  0x400200000000 <= 0x4abc00000000 < 0x500000000000 /\
  MEM_IS_SHADOW linux_ppc64 (MEM_TO_SHADOW linux_ppc64 0x4abc00000000) = false.
Proof. split; [lia|]. apply (ppc64_shadow_hole 0x4abc00000000). lia. Defined.

(** the layout check of every target passes, so that start-up never dies in
    it: the CHECK of InitShadow that can fail is about the operating system. *)
Theorem layout_sanity_passes P :
  P ∈ platforms -> CheckMemoryLayoutSanity P = Done tt.
Proof.
  intros HP. unfold platforms in HP.
  repeat (apply elem_of_cons in HP as [->|HP]; [reflexivity|]). by apply elem_of_nil in HP.
Qed.

Lemma layout_sanity_passes_witness : CheckMemoryLayoutSanity freebsd64 = Done tt.
Proof. apply layout_sanity_passes. unfold platforms. set_solver. Defined.

(** On x86_64 the shadow of the shadow of an address is the address itself. *)
Lemma x86_shadow_involutive a :
  MEM_TO_SHADOW linux_x86_64 (MEM_TO_SHADOW linux_x86_64 a) = a.
Proof. cbn. by rewrite Z.lxor_assoc, Z.lxor_nilpotent, Z.lxor_0_r. Qed.

(** Every x86_64 region of application memory lies in one block of [2^44] bytes,
    on which the shadow is a translation. *)
Lemma x86_shadow_in_block a i :
  0 <= a -> 0 <= i -> Z.shiftr (a + i) 44 = Z.shiftr a 44 ->
  MEM_TO_SHADOW linux_x86_64 (a + i) = MEM_TO_SHADOW linux_x86_64 a + i.
Proof.
  intros Ha Hi E. cbn. change 0x500000000000 with (Z.shiftl 5 44).
  rewrite !lxor_block, E by lia.
  pose proof (div_mod_pow2 a 44 ltac:(lia)). pose proof (div_mod_pow2 (a + i) 44 ltac:(lia)) as H1.
  rewrite E in H1. lia.
Qed.

Definition x86_app_blocks : list (Z * Z * Z) :=
  [(0, 0x10000000000, 0); (0x510000000000, 0x600000000000, 5); (0x700000000000, 0x800000000000, 7)].

Lemma x86_app_block a :
  MEM_IS_APP linux_x86_64 a = true <->
  exists b, b ∈ x86_app_blocks /\ b.1.1 <= a < b.1.2.
Proof.
  rewrite MEM_IS_APP_elem. split.
  - intros (d & Hd & Ht & Ha). cbn in Hd.
    repeat (apply elem_of_cons in Hd as [->|Hd]);
      [cbn [md_start md_end md_type] in Ht, Ha;
       first [by destruct Ht
         | exists (0, 0x10000000000, 0); split; [set_solver|cbn; lia]
         | exists (0x510000000000, 0x600000000000, 5); split; [set_solver|cbn; lia]
         | exists (0x700000000000, 0x800000000000, 7); split; [set_solver|cbn; lia]]..|].
    by apply elem_of_nil in Hd.
  - intros (b & Hb & Ha). unfold x86_app_blocks in Hb.
    repeat (apply elem_of_cons in Hb as [->|Hb]); [..|by apply elem_of_nil in Hb]; cbn in Ha.
    + eexists (mkDesc 0 0x10000000000 APP "app-1"). cbn. split; [set_solver|tauto].
    + eexists (mkDesc 0x510000000000 0x600000000000 APP "app-2"). cbn. split; [set_solver|tauto].
    + destruct (decide (a < 0x740000000000)).
      * eexists (mkDesc 0x700000000000 0x740000000000 ALLOCATOR "allocator"). cbn.
        split; [set_solver|split; [tauto|lia]].
      * eexists (mkDesc 0x740000000000 0x800000000000 APP "app-3"). cbn.
        split; [set_solver|split; [tauto|lia]].
Qed.

Lemma x86_contiguous a n i :
  (forall j, 0 <= j < n -> MEM_IS_APP linux_x86_64 (a + j) = true) -> 0 <= i < n ->
  MEM_TO_SHADOW linux_x86_64 (a + i) = MEM_TO_SHADOW linux_x86_64 a + i /\
  forall b, MEM_TO_SHADOW linux_x86_64 b = MEM_TO_SHADOW linux_x86_64 (a + i) -> b = a + i.
Proof.
  intros Happ Hi. split.
  - assert (forall j, 0 <= j < n -> exists b, b ∈ x86_app_blocks /\ b.1.1 <= a + j < b.1.2) as Hb.
    { intros j Hj. by apply x86_app_block, Happ. }
    destruct (Hb 0) as (b0 & Hb0 & Ha0); [lia|]. rewrite Z.add_0_r in Ha0.
    assert (forall m, (m <= Z.to_nat i)%nat -> b0.1.1 <= a + Z.of_nat m < b0.1.2) as Hall.
    { induction m as [|m IH]; intros Hm; [rewrite Z.add_0_r; lia|].
      specialize (IH ltac:(lia)). destruct (Hb (Z.of_nat (S m))) as (b1 & Hb1 & Ha1); [lia|].
      unfold x86_app_blocks in *. set_unfold.
      destruct Hb0 as [-> | [-> | [-> | []]]], Hb1 as [-> | [-> | [-> | []]]];
        cbn [fst snd] in *; lia. }
    specialize (Hall (Z.to_nat i) ltac:(lia)). rewrite Z2Nat.id in Hall by lia.
    apply x86_shadow_in_block; unfold x86_app_blocks in *; set_unfold;
      destruct Hb0 as [-> | [-> | [-> | []]]]; cbn [fst snd] in *; try lia;
      rewrite !Z.shiftr_div_pow2 by lia; Z.div_mod_to_equations; lia.
  - intros b H. apply (f_equal (MEM_TO_SHADOW linux_x86_64)) in H.
    by rewrite !x86_shadow_involutive in H.
Qed.

(** on x86_64 the shadow of a buffer of application memory is the contiguous
    buffer of the same length that starts at the shadow of its first byte, and
    no two application bytes share a shadow byte: the runtime may poison, check
    and copy shadow with memset, a linear scan and memcpy. *)
Theorem x86_shadow_contiguous a n i :
  (forall j, 0 <= j < n -> MEM_IS_APP linux_x86_64 (a + j) = true) -> 0 <= i < n ->
  MEM_TO_SHADOW linux_x86_64 (a + i) = MEM_TO_SHADOW linux_x86_64 a + i /\
  forall b, MEM_TO_SHADOW linux_x86_64 b = MEM_TO_SHADOW linux_x86_64 (a + i) -> b = a + i.
Proof. apply x86_contiguous. Qed.

Lemma x86_shadow_contiguous_witness :
  MEM_TO_SHADOW linux_x86_64 (0x7ffff000 + 255) = MEM_TO_SHADOW linux_x86_64 0x7ffff000 + 255.
Proof.
  apply (x86_shadow_contiguous 0x7ffff000 256 255); [|lia].
  intros j Hj. apply x86_app_block. exists (0, 0x10000000000, 0).
  split; [unfold x86_app_blocks; set_solver|cbn; lia].
Defined.

(** *** Start-up mapping *)

(** What one region contributes to a successful real run. *)
Definition maps_region (init_origins : bool) (d : MappingDesc) : bool :=
  bool_decide (md_type d = SHADOW) || init_origins && bool_decide (md_type d = ORIGIN).

(** The bytes a call replaces. *)
Definition call_range (c : os_call) : Z * Z :=
  match c with
  | CallMmapFixedNoAccess b s | CallMmapFixedSuperNoReserve b s
  | CallDontDumpShadowMemory b s => (b, s)
  end.

Definition region_size (d : MappingDesc) : Z := md_end d -64 md_start d.

(** A call made for the region [d]: [d] is neither APP nor ALLOCATOR memory, and
    the call is about [d] itself, or about what is left of a region that starts
    at address zero after a gap of sixteen pages. *)
Definition call_for (os : OS) (d : MappingDesc) (c : os_call) : Prop :=
  md_type d <> APP /\ md_type d <> ALLOCATOR /\
  (call_range c = (md_start d, region_size d) \/
   md_start d = 0 /\ md_type d <> SHADOW /\
   call_range c = (0 +64 (16 *64 GetPageSizeCached os), region_size d -64 (16 *64 GetPageSizeCached os))).

Section init_lemmas.
Context (os : OS).

Lemma init_region_dry io d r calls :
  init_region os io true d = Done (r, calls) -> calls = [].
Proof.
  unfold init_region. cbn [andb].
  repeat case_match; intros; inv_done; done.
Qed.

Lemma init_region_calls io d r calls :
  init_region os io false d = Done (r, calls) -> Forall (call_for os d) calls.
Proof.
  unfold init_region, ProtectMemoryRange, call_for, region_size.
  destruct (md_type d) eqn:Ht, io; cbn [andb orb negb];
    rewrite ?bool_decide_eq_true_2 by done;
    repeat (rewrite bool_decide_eq_false_2 by done); cbn [andb orb negb check];
    repeat case_match; intros; inv_done; simplify_eq/=; bool_hyps;
    repeat (apply List.Forall_cons || apply List.Forall_nil);
    (split; [done|split; [done|]]); simplify_eq/=; auto.
  all: right; repeat split; try done; cbn; congruence.
Qed.
End init_lemmas.

Section init_loop_lemmas.
Context (os : OS) (io : bool).

Lemma init_regions_dry l log r :
  init_regions os io true l log = Done r -> r.2 = log.
Proof.
  revert log. induction l as [|d l IH]; intros log H; cbn in H.
  - by inv_done.
  - apply bind_done in H as ((q & calls) & Hq & H).
    apply init_region_dry in Hq as ->. rewrite app_nil_r in H.
    destruct q; [by inv_done|by apply IH].
Qed.

(** The calls of a run are those of its regions, each about its own region. *)
Lemma init_regions_calls l log r c :
  init_regions os io false l log = Done r -> c ∈ r.2 ->
  c ∈ log \/ exists d, d ∈ l /\ call_for os d c.
Proof.
  revert log. induction l as [|d l IH]; intros log H Hc; cbn in H.
  - inv_done. by left.
  - apply bind_done in H as ((q & calls) & Hq & H).
    apply init_region_calls in Hq. rewrite Forall_forall in Hq.
    assert (c ∈ log ++ calls -> c ∈ log \/ exists d0, d0 ∈ d :: l /\ call_for os d0 c) as Happ.
    { intros [Hl|Hl]%elem_of_app; [by left|]. right. exists d.
      split; [by left|]. apply Hq. by apply list_elem_of_In. }
    destruct q; [inv_done; by apply Happ|].
    destruct (IH _ H Hc) as [Hl|(d0 & Hd0 & Hcall)]; [by apply Happ|].
    right. exists d0. split; [by right|done].
Qed.

Lemma init_regions_log l log r :
  init_regions os io false l log = Done r -> forall c, c ∈ log -> c ∈ r.2.
Proof.
  revert log. induction l as [|d l IH]; intros log H c Hc; cbn in H.
  - by inv_done.
  - apply bind_done in H as ((q & calls) & Hq & H).
    destruct q; [inv_done|apply (IH _ H)]; apply elem_of_app; by left.
Qed.

Lemma init_region_maps d calls :
  md_start d < GetMaxUserVirtualAddress os ->
  init_region os io false d = Done (None, calls) ->
  (maps_region io d = true ->
     CallMmapFixedSuperNoReserve (md_start d) (region_size d) ∈ calls /\
     MmapFixedSuperNoReserve os (md_start d) (region_size d) = true) /\
  (md_type d = INVALID -> 0 < region_size d ->
     CallMmapFixedNoAccess (md_start d) (region_size d) ∈ calls).
Proof.
  intros Hmax H. unfold init_region in H.
  rewrite (proj2 (Z.leb_gt _ _) Hmax) in H. fold (region_size d) in H.
  unfold maps_region, ProtectMemoryRange in *.
  destruct (md_type d) eqn:Ht, io; cbn in *; repeat case_match; inv_done; simplify_eq/=;
    bool_hyps; (split; intros; [|try lia]); try done; rewrite ?negb_false_iff in *;
    try (split; [|done]); set_solver.
Qed.

Lemma init_regions_maps l log log' d :
  init_regions os io false l log = Done (true, log') -> d ∈ l ->
  md_start d < GetMaxUserVirtualAddress os ->
  (maps_region io d = true ->
     CallMmapFixedSuperNoReserve (md_start d) (region_size d) ∈ log' /\
     MmapFixedSuperNoReserve os (md_start d) (region_size d) = true) /\
  (md_type d = INVALID -> 0 < region_size d ->
     CallMmapFixedNoAccess (md_start d) (region_size d) ∈ log').
Proof.
  revert log. induction l as [|d0 l IH]; intros log H Hd Hmax; [by apply elem_of_nil in Hd|].
  cbn in H. apply bind_done in H as ((q & calls) & Hq & H).
  assert (q = None) as ->.
  { destruct q as [b|]; [|done]. inv_done. exfalso.
    unfold init_region in Hq. repeat case_match; inv_done; done. }
  apply elem_of_cons in Hd as [->|Hd]; [|by apply (IH _ H)].
  pose proof (init_regions_log _ _ _ H) as Hlog.
  destruct (init_region_maps _ _ Hmax Hq) as [H1 H2]. cbn in Hlog.
  split; intros; [destruct H1; [done|split; [|done]]|]; apply Hlog, elem_of_app; auto.
Qed.
End init_loop_lemmas.

Definition app_type (d : MappingDesc) : bool :=
  bool_decide (md_type d = APP) || bool_decide (md_type d = ALLOCATOR).

(** The regions of the layout are inside the 48-bit address space, the first
    one is application memory, and no other region overlaps application memory. *)
Definition separated (P : Platform) : bool :=
  forallb (fun d =>
    (0 <=? md_start d) && (md_start d <? md_end d) && (md_end d <=? 2 ^ 49) &&
    (app_type d || negb (md_start d =? 0) &&
     forallb (fun d' => negb (app_type d') || (md_end d <=? md_start d') || (md_end d' <=? md_start d))
       (kMemoryLayout P))) (kMemoryLayout P).

Lemma platforms_separated P : P ∈ platforms -> separated P = true.
Proof.
  unfold platforms. intros HP.
  repeat (apply elem_of_cons in HP as [->|HP]; [reflexivity|]). by apply elem_of_nil in HP.
Qed.

Lemma call_for_spares_app P os d c x :
  separated P = true -> d ∈ kMemoryLayout P -> call_for os d c ->
  (call_range c).1 <= x < (call_range c).1 + (call_range c).2 -> MEM_IS_APP P x = false.
Proof.
  intros Hsep Hd (Ha & Hb & Hr) Hx. apply not_true_iff_false.
  intros (d' & Hd' & Ht & Hx')%MEM_IS_APP_elem.
  unfold separated in Hsep. rewrite forallb_forall in Hsep. setoid_rewrite <- list_elem_of_In in Hsep.
  specialize (Hsep d Hd). unfold app_type in Hsep at 1.
  rewrite !bool_decide_eq_false_2 in Hsep by done. cbn [orb] in Hsep. bool_hyps.
  destruct Hr as [Hr|(Hz & _)]; [|lia]. rewrite Hr in Hx. cbn [fst snd] in Hx.
  unfold region_size in Hx. rewrite u64_small in Hx by lia.
  match goal with H : forallb _ _ = true |- _ => rewrite forallb_forall in H;
    setoid_rewrite <- list_elem_of_In in H; specialize (H d' Hd') end.
  assert (app_type d' = true) as Happ.
  { unfold app_type. destruct Ht as [-> | ->]; reflexivity. }
  rewrite Happ in *. cbn [negb orb] in *.
  match goal with H : _ || _ = true |- _ => apply orb_true_iff in H as [H|H] end;
    bool_hyps; lia.
Qed.

(** when start-up reports success, every byte of a SHADOW region (and of an
    ORIGIN region when origins are on) below the user address limit belongs to a
    mapping the runtime asked for and obtained. *)
Theorem InitShadow_maps_shadow P os init_origins log d x :
  InitShadow P os init_origins false = Done (true, log) ->
  d ∈ kMemoryLayout P -> maps_region init_origins d = true ->
  md_start d < GetMaxUserVirtualAddress os -> md_end d - md_start d < 2 ^ 64 ->
  md_start d <= x < md_end d ->
  exists start size, CallMmapFixedSuperNoReserve start size ∈ log /\
    MmapFixedSuperNoReserve os start size = true /\ start <= x < start + size.
Proof.
  intros H Hd Hm Hmax Hlt Hx. unfold InitShadow in H. inv_done.
  case_match; inv_done; [done|].
  destruct (init_regions_maps _ _ _ _ _ _ H Hd Hmax) as [H1 _].
  destruct (H1 Hm) as [Hin Hok]. exists (md_start d), (region_size d).
  repeat split; try done; [lia|]. unfold region_size. rewrite u64_small; lia.
Qed.

(** start-up never maps over the program: on every target, no address in a
    call the runtime makes (dry run or real run, successful or not) is
    application or allocator memory, and the dry run makes no call at all. *)
Theorem InitShadow_spares_app P os init_origins dry_run ok log c x :
  P ∈ platforms ->
  InitShadow P os init_origins dry_run = Done (ok, log) -> c ∈ log ->
  (call_range c).1 <= x < (call_range c).1 + (call_range c).2 ->
  dry_run = false /\ MEM_IS_APP P x = false.
Proof.
  intros HP H Hc Hx. unfold InitShadow in H. inv_done.
  case_match; inv_done; [by apply elem_of_nil in Hc|].
  destruct dry_run.
  - apply init_regions_dry in H. cbn in H. subst. by apply elem_of_nil in Hc.
  - split; [done|].
    destruct (init_regions_calls _ _ _ _ _ _ H Hc) as [Hn|(d & Hd & Hcall)];
      [by apply elem_of_nil in Hn|].
    eapply call_for_spares_app; eauto. by apply platforms_separated.
Qed.

(** A machine where every mapping succeeds, for the witnesses. *)
Definition friendly_os : OS :=
  mkOS (fun _ _ => true) (fun beg _ => beg) (fun _ _ => true) (2 ^ 47) 4096 true 0x555555560000.

Lemma InitShadow_maps_shadow_witness :
  exists start size,
    MmapFixedSuperNoReserve friendly_os start size = true /\
    start <= 0x240000001234 < start + size.
Proof.
  destruct (InitShadow linux_x86_64 friendly_os true false) as [[ok log]|] eqn:E;
    [|vm_compute in E; discriminate].
  destruct (InitShadow_maps_shadow linux_x86_64 friendly_os true log
              (mkDesc 0x200000000000 0x300000000000 SHADOW "shadow-3") 0x240000001234)
    as (s & n & _ & H); [| | reflexivity | reflexivity | reflexivity | cbn; lia | by exists s, n].
  - rewrite E. vm_compute in E. by injection E as <- <-.
  - in_list.
Defined.

Lemma InitShadow_spares_app_witness : MEM_IS_APP linux_x86_64 0x240000001234 = false.
Proof.
  destruct (InitShadow linux_x86_64 friendly_os true false) as [[ok log]|] eqn:E;
    [|vm_compute in E; discriminate].
  refine (proj2 (InitShadow_spares_app linux_x86_64 friendly_os true false ok log
           (CallMmapFixedSuperNoReserve 0x200000000000 0x100000000000) _ _ E _ _)).
  - in_list.
  - vm_compute in E. injection E as <- <-. in_list.
  - cbn. lia.
Defined.

(** InitShadowWithReExec maps the shadow only after a dry run succeeded, and
    it restarts the process only when the dry run failed and address-space
    randomisation was on, in which case the personality was changed. *)
Theorem InitShadowWithReExec_outcomes P os init_origins old_personality set_ok r :
  InitShadowWithReExec P os init_origins old_personality set_ok = Done r ->
  match r with
  | ReExeced =>
      InitShadow P os init_origins true = Done (false, []) /\ set_ok = true /\
      old_personality <> -1 /\ Z.land old_personality ADDR_NO_RANDOMIZE = 0
  | Answer false [] => True
  | Answer ok calls =>
      InitShadow P os init_origins true = Done (true, []) /\
      InitShadow P os init_origins false = Done (ok, calls)
  end.
Proof.
  unfold InitShadowWithReExec. intros H. apply bind_done in H as ((b & log) & Hdry & H).
  assert (log = []) as ->.
  { clear H. unfold InitShadow in Hdry. inv_done. case_match; inv_done; [done|].
    by apply init_regions_dry in Hdry. }
  cbn [fst snd] in H. destruct b; cbn [negb andb] in H.
  - apply bind_done in H as ((ok & calls) & Hreal & H). inv_done. destruct ok, calls; auto.
  - destruct (negb (old_personality =? -1) && _) eqn:E; cbn [negb andb] in H; inv_done; [|done].
    bool_hyps. repeat split; auto.
Qed.

Lemma InitShadowWithReExec_outcomes_witness :
  InitShadow linux_x86_64 friendly_os true true = Done (true, []).
Proof.
  destruct (InitShadowWithReExec linux_x86_64 friendly_os true 0 true) as [r|] eqn:E;
    [|vm_compute in E; discriminate].
  pose proof (InitShadowWithReExec_outcomes _ _ _ _ _ _ E) as H.
  vm_compute in E. injection E as <-. exact (proj1 H).
Defined.

(** ** The interface the runtime's other parts rely on

    A platform whose application buffers have contiguous, private shadow.  The
    components that fill and scan shadow are verified against this class. *)

Definition app_buffer (P : Platform) (a n : Z) : Prop :=
  forall j, 0 <= j < n -> MEM_IS_APP P (a + j) = true.

Class ShadowLayout (P : Platform) : Prop := {
  sl_app_range a : MEM_IS_APP P a = true -> 0 <= a < 2 ^ 48;
  sl_shadow_range a : MEM_IS_APP P a = true -> 0 <= MEM_TO_SHADOW P a < 2 ^ 48;
  sl_contiguous a n i :
    app_buffer P a n -> 0 <= i < n -> MEM_TO_SHADOW P (a + i) = MEM_TO_SHADOW P a + i;
  sl_injective a b : MEM_TO_SHADOW P a = MEM_TO_SHADOW P b -> a = b;
  sl_shadow_not_app a : MEM_IS_APP P a = true -> MEM_IS_APP P (MEM_TO_SHADOW P a) = false
}.

(** The shadow of an application address of x86_64, block by block. *)
Lemma x86_shadow_value a :
  MEM_IS_APP linux_x86_64 a = true ->
  (0 <= a < 0x10000000000 /\ MEM_TO_SHADOW linux_x86_64 a = a + 0x500000000000) \/
  (0x510000000000 <= a < 0x600000000000 /\ MEM_TO_SHADOW linux_x86_64 a = a - 0x500000000000) \/
  (0x700000000000 <= a < 0x800000000000 /\ MEM_TO_SHADOW linux_x86_64 a = a - 0x500000000000).
Proof.
  intros (b & Hb & Ha)%x86_app_block.
  assert (forall base i, 0 <= base -> 0 <= i -> Z.shiftr (base + i) 44 = Z.shiftr base 44 ->
    MEM_TO_SHADOW linux_x86_64 (base + i) = MEM_TO_SHADOW linux_x86_64 base + i) as H
    by (intros; by apply x86_shadow_in_block).
  unfold x86_app_blocks in Hb. set_unfold. destruct Hb as [-> | [-> | [-> | []]]]; cbn [fst snd] in Ha;
    [left|right; left|right; right]; (split; [lia|]).
  1: specialize (H 0 a). 2: specialize (H 0x510000000000 (a - 0x510000000000)).
  3: specialize (H 0x700000000000 (a - 0x700000000000)).
  all: rewrite ?Z.add_0_l, ?Zplus_minus in H; rewrite H; [|lia|lia|].
  all: try (match goal with |- context [Z.lxor ?x ?y] =>
    let v := eval vm_compute in (Z.lxor x y) in change (Z.lxor x y) with v end; lia).
  all: rewrite !Z.shiftr_div_pow2 by lia; Z.div_mod_to_equations; lia.
Qed.

#[export] Instance x86_64_shadow_layout : ShadowLayout linux_x86_64.
Proof.
  split.
  - intros a H. destruct (x86_shadow_value a H) as [[? _]|[[? _]|[? _]]]; lia.
  - intros a H. destruct (x86_shadow_value a H) as [[? E]|[[? E]|[? E]]]; cbn in E |- *; lia.
  - intros a n i H Hi. by apply (x86_contiguous a n i).
  - intros a b H. apply (f_equal (MEM_TO_SHADOW linux_x86_64)) in H.
    by rewrite !x86_shadow_involutive in H.
  - intros a H. apply not_true_iff_false. intros (b & Hb & Hr)%x86_app_block.
    unfold x86_app_blocks in Hb. set_unfold.
    destruct (x86_shadow_value a H) as [[? E]|[[? E]|[? E]]],
      Hb as [-> | [-> | [-> | []]]]; cbn in E, Hr; lia.
Qed.
