(* ===== verification/Memory.v ===== *)
(** * Memory: the bytes of the process

    The flat address space the runtime's C code works on, as a total function
    from addresses to bytes, the accesses of the source (byte, word, memset,
    memcpy, memmove), and the laws that relate them.  Two memories that agree at
    every address are equal for every client: the equivalence [≡] is pointwise
    equality, and the operations are [Proper] for it. *)

From S2P Require Import Prelude Common.

(** ** Data and accesses *)

Definition mem : Type := Z -> Z.

(** Every cell holds a byte. *)
Definition bytes_ok (m : mem) : Prop := forall a, 0 <= m a < 256.

#[export] Instance mem_equiv : Equiv mem := fun m1 m2 => forall a, m1 a = m2 a.

#[export] Instance mem_equivalence : Equivalence (≡@{mem}).
Proof.
  split.
  - by intros m a.
  - intros m1 m2 H a. by rewrite H.
  - intros m1 m2 m3 H1 H2 a. by rewrite H1, H2.
Qed.

Definition store8 (m : mem) (a v : Z) : mem := fun x => if x =? a then u8 v else m x.

Definition in_range (a n x : Z) : bool := (a <=? x) && (x <? a + n).

(** The contracts of the C library's functions. *)
Definition memset (m : mem) (a v n : Z) : mem := fun x => if in_range a n x then u8 v else m x.

Definition memmove (m : mem) (d s n : Z) : mem :=
  fun x => if in_range d n x then m (s + (x - d)) else m x.

(** Little-endian words. *)
Definition load (k : Z) (m : mem) (a : Z) : Z :=
  foldr (fun i acc => m (a + i) + 256 * acc) 0 (zrange k).

Definition store (k : Z) (m : mem) (a v : Z) : mem :=
  fun x => if in_range a k x then u8 (Z.shiftr v (8 * (x - a))) else m x.

Definition load32 := load 4.
Definition load64 := load 8.
Definition store32 := store 4.
Definition store64 := store 8.

(** The address as a multiple of four: [x & ~3UL]. *)
Definition align4 (x : Z) : Z := Z.land x (not64 3).

(** ** Laws *)

Lemma in_range_true a n x : in_range a n x = true <-> a <= x < a + n.
Proof. unfold in_range. rewrite andb_true_iff, Z.leb_le, Z.ltb_lt. done. Qed.

Lemma in_range_false a n x : in_range a n x = false <-> ~ a <= x < a + n.
Proof. rewrite <- in_range_true. by destruct (in_range a n x). Qed.

(** Decides every range test of the goal. *)
Ltac ranges :=
  unfold memset, memmove, store8, store;
  repeat match goal with
  | |- context [in_range ?a ?n ?x] =>
      let H := fresh "Hin" in
      destruct (in_range a n x) eqn:H;
      [apply in_range_true in H | apply in_range_false in H]
  | |- context [?x =? ?y] => destruct (Z.eqb_spec x y)
  end.

#[export] Instance memset_proper : Proper ((≡) ==> (=) ==> (=) ==> (=) ==> (≡)) memset.
Proof. intros m1 m2 H a ? <- v ? <- n ? <- x. unfold memset. by case_match. Qed.

#[export] Instance memmove_proper : Proper ((≡) ==> (=) ==> (=) ==> (=) ==> (≡)) memmove.
Proof. intros m1 m2 H d ? <- s ? <- n ? <- x. unfold memmove. by case_match. Qed.

#[export] Instance store8_proper : Proper ((≡) ==> (=) ==> (=) ==> (≡)) store8.
Proof. intros m1 m2 H a ? <- v ? <- x. unfold store8. by case_match. Qed.

#[export] Instance store_proper k : Proper ((≡) ==> (=) ==> (=) ==> (≡)) (store k).
Proof. intros m1 m2 H a ? <- v ? <- x. unfold store. by case_match. Qed.

#[export] Instance load_proper k : Proper ((≡) ==> (=) ==> (=)) (load k).
Proof.
  intros m1 m2 H a ? <-. unfold load.
  induction (zrange k) as [|i l IH]; cbn; [done|]. by rewrite H, IH.
Qed.

Lemma memset_bytes m a v n : bytes_ok m -> bytes_ok (memset m a v n).
Proof. intros H x. unfold memset. case_match; [apply u8_range|apply H]. Qed.

Lemma memmove_bytes m d s n : bytes_ok m -> bytes_ok (memmove m d s n).
Proof. intros H x. unfold memmove. case_match; apply H. Qed.

Lemma store_bytes k m a v : bytes_ok m -> bytes_ok (store k m a v).
Proof. intros H x. unfold store. case_match; [apply u8_range|apply H]. Qed.

Lemma store8_bytes m a v : bytes_ok m -> bytes_ok (store8 m a v).
Proof. intros H x. unfold store8. case_match; [apply u8_range|apply H]. Qed.

#[export] Hint Resolve memset_bytes memmove_bytes store_bytes store8_bytes : cq.

Lemma memset_in m a v n x : a <= x < a + n -> memset m a v n x = u8 v.
Proof. intros H. ranges; [done|lia]. Qed.

Lemma memset_out m a v n x : ~ a <= x < a + n -> memset m a v n x = m x.
Proof. intros H. ranges; [lia|done]. Qed.

Lemma memset_empty m a v n : n <= 0 -> memset m a v n ≡ m.
Proof. intros H x. ranges; [lia|done]. Qed.

Lemma store_zero n m a : store n m a 0 ≡ memset m a 0 n.
Proof. intros x. ranges; [|done]. by rewrite Z.shiftr_0_l. Qed.

(** Consecutive fills with one value are one fill. *)
Lemma memset_append m a v n1 n2 :
  0 <= n1 -> 0 <= n2 -> memset (memset m a v n1) (a + n1) v n2 ≡ memset m a v (n1 + n2).
Proof. intros H1 H2 x. ranges; (done || lia). Qed.

Lemma memset_memset m a v w n : memset (memset m a v n) a w n ≡ memset m a w n.
Proof. intros x. ranges; (done || lia). Qed.

Lemma memset_comm m a b v w n k :
  a + n <= b -> memset (memset m a v n) b w k ≡ memset (memset m b w k) a v n.
Proof. intros H x. ranges; (done || lia). Qed.

(** A word is zero exactly when its bytes are. *)
Lemma load_zero_in k m a :
  (forall i, 0 <= i < k -> 0 <= m (a + i)) -> load k m a = 0 <-> forall i, 0 <= i < k -> m (a + i) = 0.
Proof.
  intros Hm. unfold load.
  assert (forall l, (forall i, i ∈ l -> 0 <= m (a + i)) ->
            0 <= foldr (fun i acc => m (a + i) + 256 * acc) 0 l /\
            (foldr (fun i acc => m (a + i) + 256 * acc) 0 l = 0 <->
             forall i, i ∈ l -> m (a + i) = 0)) as H.
  { induction l as [|j l IH]; cbn; intros Hl.
    - split; [lia|]. split; [|done]. intros _ i Hi. by apply elem_of_nil in Hi.
    - pose proof (Hl j ltac:(by left)). destruct IH as [IH0 IH]; [intros i Hi; apply Hl; by right|].
      split; [lia|]. split.
      + intros E i [->|Hi]%elem_of_cons; [lia|]. apply IH; [lia|done].
      + intros Hall. rewrite (Hall j) by by left.
        assert (foldr (fun i acc => m (a + i) + 256 * acc) 0 l = 0) as ->; [|lia].
        apply IH. intros i Hi. apply Hall. by right. }
  rewrite (proj2 (H _ ltac:(intros i Hi%elem_of_zrange; by apply Hm))). by setoid_rewrite elem_of_zrange.
Qed.

Lemma load_zero k m a :
  bytes_ok m -> load k m a = 0 <-> forall i, 0 <= i < k -> m (a + i) = 0.
Proof. intros Hm. apply load_zero_in. intros i _. apply Hm. Qed.

Lemma load32_eq m a :
  load32 m a = m (a + 0) + 256 * (m (a + 1) + 256 * (m (a + 2) + 256 * (m (a + 3) + 256 * 0))).
Proof. reflexivity. Qed.

Lemma load32_range m a : bytes_ok m -> 0 <= load32 m a < 2 ^ 32.
Proof.
  intros Hm. rewrite load32_eq.
  pose proof (Hm (a + 0)). pose proof (Hm (a + 1)).
  pose proof (Hm (a + 2)). pose proof (Hm (a + 3)). lia.
Qed.

Lemma load32_bytes m1 m2 a b :
  (forall i, 0 <= i < 4 -> m1 (a + i) = m2 (b + i)) -> load32 m1 a = load32 m2 b.
Proof.
  intros H. rewrite !load32_eq.
  rewrite (H 0), (H 1), (H 2), (H 3) by lia. done.
Qed.

Lemma u8_shiftr v i : 0 <= i -> u8 (Z.shiftr v (8 * i)) = v / 2 ^ (8 * i) mod 256.
Proof. intros Hi. unfold u8. by rewrite Z.shiftr_div_pow2 by lia. Qed.

Lemma load_store32 m a v : 0 <= v < 2 ^ 32 -> load32 (store32 m a v) a = v.
Proof.
  intros Hv. rewrite load32_eq. unfold store32, store, in_range.
  repeat (rewrite (proj2 (Z.leb_le _ _)) by lia). repeat (rewrite (proj2 (Z.ltb_lt _ _)) by lia).
  cbn [andb]. rewrite !u8_shiftr by lia.
  replace (a + 0 - a) with 0 by lia. replace (a + 1 - a) with 1 by lia.
  replace (a + 2 - a) with 2 by lia. replace (a + 3 - a) with 3 by lia.
  change (2 ^ (8 * 0)) with 1. change (2 ^ (8 * 1)) with 256.
  change (2 ^ (8 * 2)) with 65536. change (2 ^ (8 * 3)) with 16777216.
  Z.div_mod_to_equations; lia.
Qed.

Lemma load32_store_other k m a b v :
  (b + 4 <= a \/ a + k <= b) -> load32 (store k m a v) b = load32 m b.
Proof. intros H. apply load32_bytes. intros i Hi. ranges; (done || lia). Qed.

(** Rounding addresses. *)
Lemma align4_div x : 0 <= x < 2 ^ 64 -> align4 x = 4 * (x / 4).
Proof. intros Hx. exact (land_not64_pow2 x 2 ltac:(lia) Hx). Qed.

(** Words of any width. *)
Lemma load_ext k m1 m2 a b :
  (forall i, 0 <= i < k -> m1 (a + i) = m2 (b + i)) -> load k m1 a = load k m2 b.
Proof.
  intros H. unfold load.
  assert (forall l, (forall i, i ∈ l -> m1 (a + i) = m2 (b + i)) ->
    foldr (fun i acc => m1 (a + i) + 256 * acc) 0 l = foldr (fun i acc => m2 (b + i) + 256 * acc) 0 l) as Hl.
  { induction l as [|i l IH]; intros Hl; cbn; [done|].
    rewrite (Hl i) by by left. rewrite IH; [done|]. intros j Hj. apply Hl. by right. }
  apply Hl. intros i Hi%elem_of_zrange. by apply H.
Qed.

Lemma load_store k m a v : 0 <= v < 2 ^ (8 * k) -> load k (store k m a v) a = v.
Proof.
  intros Hv. destruct (Z.ltb_spec k 0) as [Hk|Hk].
  { rewrite Z.pow_neg_r in Hv by lia. lia. }
  assert (forall n s, (s + n <= Z.to_nat k)%nat ->
    foldr (fun i acc => store k m a v (a + i) + 256 * acc) 0 (map Z.of_nat (seq s n))
    = v / 2 ^ (8 * Z.of_nat s) mod 2 ^ (8 * Z.of_nat n)) as Hl.
  { induction n as [|n IH]; intros s Hs; cbn [seq map foldr].
    - by rewrite Z.mul_0_r, Z.pow_0_r, Z.mod_1_r.
    - rewrite IH by lia. unfold store. rewrite (proj2 (in_range_true _ _ _)) by lia.
      replace (a + Z.of_nat s - a) with (Z.of_nat s) by lia. rewrite u8_shiftr by lia.
      replace (8 * Z.of_nat (S s)) with (8 * Z.of_nat s + 8) by lia.
      replace (8 * Z.of_nat (S n)) with (8 + 8 * Z.of_nat n) by lia.
      rewrite !Z.pow_add_r by lia. rewrite <- Z.div_div by lia.
      change (2 ^ 8) with 256. symmetry. apply Z.rem_mul_r; lia. }
  unfold load, zrange. rewrite Hl by lia. rewrite Z.mul_0_r, Z.pow_0_r, Z.div_1_r.
  rewrite Z2Nat.id by done. by apply Z.mod_small.
Qed.

Lemma load_store_other j k m a b v :
  (b + j <= a \/ a + k <= b) -> load j (store k m a v) b = load j m b.
Proof. intros H. apply load_ext. intros i Hi. ranges; (done || lia). Qed.
