(* ===== verification/Libc.v ===== *)
(** * Libc: the runtime's own string and memory functions

    [sanitizer_libc.cpp].  The runtime cannot call the C library it intercepts,
    so it carries its own [memcpy], [memset], [strlen] ...; each loop is written
    here as the source writes it.  A loop without a bound of its own ([strlen],
    [strchr], [strcmp]) takes fuel and answers [None] when it runs out, which is
    what an unterminated string is; the totality lemmas say which fuel is
    enough. *)

From S2P Require Import Prelude Common Memory.

(** ** Memory functions *)

(** [char] is signed on the targets of the project. *)
Definition schar (b : Z) : Z := if b <? 128 then b else b - 256.

Section memchr.
Context (m : mem) (c : Z).

(** [for (i = 0; i < n; ++i, ++t)]: the remaining count decreases. *)
Fixpoint memchr_loop (n : nat) (t : Z) : option Z :=
  match n with
  | O => None
  | S n' => if schar (m t) =? c then Some t else memchr_loop n' (t + 1)
  end.

Fixpoint memrchr_loop (n : nat) (t : Z) (res : option Z) : option Z :=
  match n with
  | O => res
  | S n' => memrchr_loop n' (t + 1) (if schar (m t) =? c then Some t else res)
  end.
End memchr.

Definition internal_memchr (m : mem) (s c n : Z) : option Z := memchr_loop m c (Z.to_nat n) s.
Definition internal_memrchr (m : mem) (s c n : Z) : option Z :=
  memrchr_loop m c (Z.to_nat n) s None.

Fixpoint memcmp_loop (m : mem) (n : nat) (t1 t2 : Z) : Z :=
  match n with
  | O => 0
  | S n' =>
      if negb (schar (m t1) =? schar (m t2))
      then (if schar (m t1) <? schar (m t2) then -1 else 1)
      else memcmp_loop m n' (t1 + 1) (t2 + 1)
  end.

Definition internal_memcmp (m : mem) (s1 s2 n : Z) : Z := memcmp_loop m (Z.to_nat n) s1 s2.

Definition copy_byte (d s : Z) (m : mem) (i : Z) : mem := store8 m (d + i) (m (s + i)).

Definition internal_memcpy (m : mem) (d s n : Z) : mem :=
  fold_left (copy_byte d s) (zrange n) m.

Definition internal_memmove (m : mem) (d s n : Z) : outcome mem :=
  let signed_n := if n <? 2 ^ 63 then n else n - 2 ^ 64 in
  _ ← check (0 <=? signed_n) "CHECK_GE(signed_n, 0)";
  mret (if d <? s then fold_left (copy_byte d s) (zrange signed_n) m
        else if (s <? d) && (0 <? signed_n)
        then fold_left (copy_byte d s) (rev (zrange signed_n)) m
        else m).

(** [c] is an [int]: the conversion to [u64] extends its sign. *)
Definition memset_word (c : Z) : Z :=
  let v := u64 c in
  let v := Z.lor v (u64 (Z.shiftl v 8)) in
  let v := Z.lor v (u64 (Z.shiftl v 16)) in
  Z.lor v (u64 (Z.shiftl v 32)).

Definition internal_memset (m : mem) (s c n : Z) : mem :=
  if (s mod 16 =? 0) && (n mod 16 =? 0) then
    let v := memset_word c in
    fold_left (fun m i => store64 (store64 m (s + 16 * i + 8) v) (s + 16 * i) v)
      (zrange (n / 16)) m
  else fold_left (fun m i => store8 m (s + i) c) (zrange n) m.

Definition or_bytes (m : mem) (from to : Z) (all : Z) : Z :=
  fold_left (fun all i => Z.lor all (u64 (schar (m (from + i))))) (zrange (to - from)) all.

Definition or_words (m : mem) (from to : Z) (all : Z) : Z :=
  fold_left (fun all i => Z.lor all (load64 m (from + 8 * i))) (zrange ((to - from) / 8)) all.

Definition mem_is_zero (m : mem) (beg size : Z) : outcome bool :=
  _ ← check (size <=? 2 ^ 40) "CHECK_LE(size, 1 << 40)";
  let end_ := beg + size in
  aligned_beg ← RoundUpTo beg 8;
  let aligned_end := RoundDownTo end_ 8 in
  let all := or_bytes m beg (Z.min aligned_beg end_) 0 in
  let all := or_words m aligned_beg aligned_end all in
  let all := if beg <=? aligned_end then or_bytes m aligned_end end_ all else all in
  mret (all =? 0).

(** ** Strings *)

(** The scans of the string functions: the first index from [i] on where [stop]
    holds, [None] when the fuel ends first. *)
Fixpoint scan (fuel : nat) (stop : Z -> bool) (i : Z) : option Z :=
  match fuel with
  | O => None
  | S f => if stop i then Some i else scan f stop (i + 1)
  end.

Section strings.
Context (fuel : nat).

Definition internal_strlen (m : mem) (s : Z) : option Z :=
  scan fuel (fun i => m (s + i) =? 0) 0.

Definition internal_strnlen (m : mem) (s maxlen : Z) : option Z :=
  scan fuel (fun i => (maxlen <=? i) || (m (s + i) =? 0)) 0.

(** The outer option is the fuel, the inner one the null pointer. *)
Definition internal_strchr (m : mem) (s c : Z) : option (option Z) :=
  i ← scan fuel (fun i => (schar (m (s + i)) =? schar (u8 c)) || (m (s + i) =? 0)) 0;
  Some (if schar (m (s + i)) =? schar (u8 c) then Some (s + i) else None).

Definition internal_strchrnul (m : mem) (s c : Z) : option Z :=
  r ← internal_strchr m s c;
  match r with
  | Some p => Some p
  | None => n ← internal_strlen m s; Some (s + n)
  end.

Definition internal_strrchr (m : mem) (s c : Z) : option (option Z) :=
  n ← internal_strlen m s;
  Some (fold_left (fun res i => if schar (m (s + i)) =? c then Some (s + i) else res)
          (zrange n) None).

Definition internal_strcspn (m : mem) (s reject : Z) : option Z :=
  let fix go (f : nat) (i : Z) : option Z :=
    match f with
    | O => None
    | S f' =>
        if m (s + i) =? 0 then Some i else
        r ← internal_strchr m reject (m (s + i));
        match r with Some _ => Some i | None => go f' (i + 1) end
    end in
  go fuel 0.

Fixpoint strcmp_loop (f : nat) (m : mem) (s1 s2 : Z) : option Z :=
  match f with
  | O => None
  | S f' =>
      let c1 := u32 (schar (m s1)) in
      let c2 := u32 (schar (m s2)) in
      if negb (c1 =? c2) then Some (if c1 <? c2 then -1 else 1)
      else if c1 =? 0 then Some 0 else strcmp_loop f' m (s1 + 1) (s2 + 1)
  end.

Definition internal_strcmp (m : mem) (s1 s2 : Z) : option Z := strcmp_loop fuel m s1 s2.

Definition internal_strstr (m : mem) (haystack needle : Z) : option (option Z) :=
  len1 ← internal_strlen m haystack;
  len2 ← internal_strlen m needle;
  Some (if len1 <? len2 then None else
    (fix go (l : list Z) : option Z :=
       match l with
       | [] => None
       | pos :: l' =>
           if internal_memcmp m (haystack + pos) needle len2 =? 0
           then Some (haystack + pos) else go l'
       end) (zrange (len1 - len2 + 1))).

Definition internal_strlcpy (m : mem) (dst src maxlen : Z) : option (outcome (mem * Z)) :=
  srclen ← internal_strlen m src;
  Some (if srclen <? maxlen then
    m' ← internal_memmove m dst src (srclen + 1); mret (m', srclen)
  else if negb (maxlen =? 0) then
    m' ← internal_memmove m dst src (maxlen - 1);
    mret (store8 m' (dst + maxlen - 1) 0, srclen)
  else mret (m, srclen)).

Definition internal_strlcat (m : mem) (dst src maxlen : Z) : option (outcome (mem * Z)) :=
  srclen ← internal_strlen m src;
  dstlen ← internal_strnlen m dst maxlen;
  Some (if dstlen =? maxlen then mret (m, maxlen + srclen)
  else if srclen <? maxlen - dstlen then
    m' ← internal_memmove m (dst + dstlen) src (srclen + 1); mret (m', dstlen + srclen)
  else
    m' ← internal_memmove m (dst + dstlen) src (maxlen - dstlen - 1);
    mret (store8 m' (dst + maxlen - 1) 0, dstlen + srclen)).

(** [for (i = 0; i < n && src[i]; i++) dst[at + i] = src[i];] *)
Fixpoint copy_string (f : nat) (m : mem) (dst src i n : Z) : mem * Z :=
  match f with
  | O => (m, i)
  | S f' =>
      if (i <? n) && negb (m (src + i) =? 0)
      then copy_string f' (store8 m (dst + i) (m (src + i))) dst src (i + 1) n
      else (m, i)
  end.

Definition internal_strncat (m : mem) (dst src n : Z) : option mem :=
  len ← internal_strlen m dst;
  let '(m', i) := copy_string (Z.to_nat n) m (dst + len) src 0 n in
  Some (store8 m' (dst + len + i) 0).

Definition internal_strncpy (m : mem) (dst src n : Z) : mem :=
  let '(m', i) := copy_string (Z.to_nat n) m dst src 0 n in
  internal_memset m' (dst + i) 0 (n - i).
End strings.

Fixpoint strncmp_loop (f : nat) (m : mem) (s1 s2 : Z) : Z :=
  match f with
  | O => 0
  | S f' =>
      let c1 := u32 (schar (m s1)) in
      let c2 := u32 (schar (m s2)) in
      if negb (c1 =? c2) then (if c1 <? c2 then -1 else 1)
      else if c1 =? 0 then 0 else strncmp_loop f' m (s1 + 1) (s2 + 1)
  end.

Definition internal_strncmp (m : mem) (s1 s2 n : Z) : Z := strncmp_loop (Z.to_nat n) m s1 s2.

(** ** Wide strings: [wchar_t] is four bytes *)

Section wide.
Context (fuel : nat).

Definition wload (m : mem) (s i : Z) : Z := load32 m (s + 4 * i).

Definition internal_wcslen (m : mem) (s : Z) : option Z :=
  scan fuel (fun i => wload m s i =? 0) 0.

Definition internal_wcsnlen (m : mem) (s maxlen : Z) : option Z :=
  scan fuel (fun i => (maxlen <=? i) || (wload m s i =? 0)) 0.

(** [do { *dst_it++ = *src++; } while ( *src);] *)
Fixpoint wcscpy_loop (f : nat) (m : mem) (dst src : Z) : option mem :=
  match f with
  | O => None
  | S f' =>
      let m' := store32 m dst (load32 m src) in
      if load32 m' (src + 4) =? 0 then Some m' else wcscpy_loop f' m' (dst + 4) (src + 4)
  end.

Definition internal_wcscpy (m : mem) (dst src : Z) : option mem := wcscpy_loop fuel m dst src.

Fixpoint wcopy_string (f : nat) (m : mem) (dst src i n : Z) : mem * Z :=
  match f with
  | O => (m, i)
  | S f' =>
      if (i <? n) && negb (wload m src i =? 0)
      then wcopy_string f' (store32 m (dst + 4 * i) (wload m src i)) dst src (i + 1) n
      else (m, i)
  end.

Definition internal_wcsncpy (m : mem) (dst src n : Z) : mem :=
  let '(m', i) := wcopy_string (Z.to_nat n) m dst src 0 n in
  internal_memset m' (dst + 4 * i) 0 ((n - i) * 4).
End wide.

(** ** Numbers *)

Definition UINT64_MAX : Z := 2 ^ 64 - 1.
Definition INT64_MAX : Z := 2 ^ 63 - 1.
Definition INT64_MIN : Z := - 2 ^ 63.

(** One digit: the saturating [res * 10 + digit]. *)
Definition add_digit (res digit : Z) : Z :=
  let res := if res <=? UINT64_MAX / 10 then res * 10 else UINT64_MAX in
  if res <=? UINT64_MAX - digit then res + digit else UINT64_MAX.

Section strtoll.
Context (fuel : nat).

Fixpoint digits_loop (f : nat) (m : mem) (nptr res : Z) (have_digits : bool)
    : option (Z * Z * bool) :=
  match f with
  | O => None
  | S f' =>
      if IsDigit (schar (m nptr)) then
        digits_loop f' m (nptr + 1) (add_digit res (schar (m nptr) - 48)) true
      else Some (nptr, res, have_digits)
  end.

(** The value, and the address [*endptr] receives. *)
Definition internal_simple_strtoll (m : mem) (nptr base : Z) : option (outcome (Z * Z)) :=
  if negb (base =? 10) then Some (Died "CHECK_EQ(base, 10)") else
  i ← scan fuel (fun i => negb (IsSpace (schar (m (nptr + i))))) 0;
  let nptr := nptr + i in
  let old_nptr := nptr in
  let '(sgn, nptr) :=
    if schar (m nptr) =? 43 then (1, nptr + 1)
    else if schar (m nptr) =? 45 then (-1, nptr + 1) else (1, nptr) in
  '(nptr, res, have_digits) ← digits_loop fuel m nptr 0 false;
  let endptr := if (have_digits : bool) then nptr else old_nptr in
  Some (Done (if 0 <? sgn then Z.min INT64_MAX res
              else if INT64_MAX <? res then INT64_MIN else res * -1, endptr)).

Definition internal_atoll (m : mem) (nptr : Z) : option (outcome Z) :=
  r ← internal_simple_strtoll m nptr 10;
  Some (match r with Done x => Done x.1 | Died w => Died w end).
End strtoll.

(** ** Lemmas: copies and fills *)

Lemma zrange_S k : 0 <= k -> zrange (k + 1) = zrange k ++ [k].
Proof.
  intros Hk. unfold zrange. rewrite Z2Nat.inj_add by lia.
  rewrite Nat.add_1_r, seq_S, map_app. cbn. by rewrite Z2Nat.id.
Qed.

Lemma zrange_nonpos k : k <= 0 -> zrange k = [].
Proof. intros Hk. unfold zrange. by replace (Z.to_nat k) with 0%nat by lia. Qed.

(** Induction on a count that starts at zero. *)
Lemma Z_count_ind (P : Z -> Prop) :
  (forall n, n <= 0 -> P n) -> (forall n, 0 <= n -> P n -> P (n + 1)) -> forall n, P n.
Proof.
  intros H0 HS n. destruct (Z.le_gt_cases n 0) as [Hn|Hn]; [by apply H0|].
  replace n with (Z.of_nat (Z.to_nat n)) by lia.
  induction (Z.to_nat n) as [|k IH]; [apply H0; lia|].
  replace (Z.of_nat (S k)) with (Z.of_nat k + 1) by lia. apply HS; [lia|done].
Qed.

Lemma u8_byte m x : bytes_ok m -> u8 (m x) = m x.
Proof. intros H. apply Z.mod_small. specialize (H x). lia. Qed.

Lemma copy_forward m d s n :
  bytes_ok m -> d <= s \/ s + n <= d ->
  fold_left (copy_byte d s) (zrange n) m ≡ memmove m d s n.
Proof.
  intros Hm. induction n as [n Hn|n Hn IH] using Z_count_ind; intros Hd x.
  - rewrite zrange_nonpos by done. ranges; (done || lia).
  - rewrite zrange_S, fold_left_app by done. cbn.
    unfold copy_byte at 1. rewrite (store8_proper _ _ (IH ltac:(lia)) _ _ eq_refl _ _ eq_refl x).
    rewrite (IH ltac:(lia) (s + n)). ranges; try lia; rewrite ?u8_byte by done; f_equal; lia.
Qed.

Lemma copy_backward m d s n :
  bytes_ok m -> s <= d -> fold_left (copy_byte d s) (rev (zrange n)) m ≡ memmove m d s n.
Proof.
  intros Hm Hd. revert m Hm. induction n as [n Hn|n Hn IH] using Z_count_ind; intros m Hm x.
  - rewrite zrange_nonpos by done. ranges; (done || lia).
  - rewrite zrange_S, rev_app_distr by done. cbn.
    rewrite (IH (copy_byte d s m n) (store8_bytes _ _ _ Hm) x).
    unfold copy_byte. ranges; try lia; rewrite ?u8_byte by done; f_equal; lia.
Qed.

Lemma fill_bytes m s c n :
  fold_left (fun m i => store8 m (s + i) c) (zrange n) m ≡ memset m s c n.
Proof.
  induction n as [n Hn|n Hn IH] using Z_count_ind; intros x.
  - rewrite zrange_nonpos by done. ranges; (done || lia).
  - rewrite zrange_S, fold_left_app by done. cbn.
    rewrite (store8_proper _ _ IH _ _ eq_refl _ _ eq_refl x). ranges; (done || lia).
Qed.

(** For a character the word of the fast path repeats it eight times. *)
Lemma memset_word_char c i :
  0 <= c < 256 -> 0 <= i < 8 -> u8 (Z.shiftr (memset_word c) (8 * i)) = c.
Proof.
  intros Hc Hi.
  assert (forallb (fun c => forallb (fun i => u8 (Z.shiftr (memset_word c) (8 * i)) =? c)
            (zrange 8)) (zrange 256) = true) as H by by vm_compute.
  rewrite forallb_zrange in H. specialize (H c Hc). rewrite forallb_zrange in H.
  by apply Z.eqb_eq, H.
Qed.

Lemma fill_words m s c n :
  0 <= c < 256 ->
  fold_left (fun m i => store64 (store64 m (s + 16 * i + 8) (memset_word c)) (s + 16 * i)
               (memset_word c)) (zrange n) m ≡ memset m s c (16 * n).
Proof.
  intros Hc. induction n as [n Hn|n Hn IH] using Z_count_ind; intros x.
  - rewrite zrange_nonpos by done. ranges; (done || lia).
  - rewrite zrange_S, fold_left_app by done. cbn [fold_left].
    specialize (IH x). set (M := fold_left _ (zrange n) m) in *. clearbody M.
    unfold store64, store. unfold memset in *.
    repeat match goal with
    | |- context [in_range ?a ?n ?y] =>
        let H := fresh in destruct (in_range a n y) eqn:H;
        [apply in_range_true in H | apply in_range_false in H]
    end; try lia; rewrite ?memset_word_char by lia; try (unfold u8; rewrite Z.mod_small; lia).
    all: rewrite IH; destruct (in_range _ _ x) eqn:E; try done;
      first [apply in_range_false in E; lia | apply in_range_true in E; lia].
Qed.

Lemma fold_lor_zero {A} (f : A -> Z) l acc :
  fold_left (fun all i => Z.lor all (f i)) l acc = 0 <-> acc = 0 /\ forall i, i ∈ l -> f i = 0.
Proof.
  revert acc. induction l as [|j l IH]; intros acc; cbn.
  - split; [|tauto]. intros ->. split; [done|]. intros i Hi. by apply elem_of_nil in Hi.
  - rewrite IH, Z.lor_eq_0_iff. split.
    + intros ((-> & Hj) & Hl). split; [done|]. intros i [->|Hi]%elem_of_cons; [done|by apply Hl].
    + intros (-> & Hl). repeat split; [apply Hl; by left|]. intros i Hi. apply Hl. by right.
Qed.

Lemma schar_zero b : 0 <= b < 256 -> u64 (schar b) = 0 <-> b = 0.
Proof.
  intros Hb. unfold schar, u64. zcase.
  - by rewrite Z.mod_small by lia.
  - rewrite <- (Z.mod_add _ 1) by lia. rewrite Z.mod_small by lia. lia.
Qed.

Lemma or_bytes_zero m from to all :
  bytes_ok m ->
  or_bytes m from to all = 0 <-> all = 0 /\ forall a, from <= a < to -> m a = 0.
Proof.
  intros Hm. unfold or_bytes. rewrite fold_lor_zero. apply and_iff_compat_l. split.
  - intros H a Ha. apply (schar_zero (m a)); [apply Hm|].
    replace a with (from + (a - from)) by lia. apply (H (a - from)). apply elem_of_zrange. lia.
  - intros H i Hi%elem_of_zrange. apply schar_zero; [apply Hm|]. apply H. lia.
Qed.

Lemma or_words_zero m from to all :
  bytes_ok m -> (8 | to - from) ->
  or_words m from to all = 0 <-> all = 0 /\ forall a, from <= a < to -> m a = 0.
Proof.
  intros Hm [q Hq]. unfold or_words. rewrite fold_lor_zero. apply and_iff_compat_l.
  rewrite Hq, Z.div_mul by lia. split.
  - intros H a Ha. specialize (H ((a - from) / 8)).
    rewrite elem_of_zrange in H. unfold load64 in H. rewrite load_zero in H by done.
    replace a with (from + 8 * ((a - from) / 8) + (a - from) mod 8)
      by (pose proof (Z.div_mod (a - from) 8); lia).
    pose proof (Z.mod_pos_bound (a - from) 8). apply H; [|lia].
    pose proof (Z.div_mod (a - from) 8). lia.
  - intros H i Hi%elem_of_zrange. unfold load64. rewrite load_zero by done.
    intros j Hj. apply H. lia.
Qed.

(** ** Properties of the memory functions *)

Lemma memmove_correct m d s n :
  bytes_ok m -> 0 <= n < 2 ^ 64 ->
  match internal_memmove m d s n with
  | Done m' => m' ≡ memmove m d s n /\ n < 2 ^ 63
  | Died _ => 2 ^ 63 <= n
  end.
Proof.
  intros Hm Hn. unfold internal_memmove.
  destruct (Z.ltb_spec n (2 ^ 63)) as [Hlt|Hge].
  - rewrite (proj2 (Z.leb_le 0 n)) by lia. cbn [check mbind outcome_bind mret outcome_ret].
    split; [|done]. destruct (Z.ltb_spec d s) as [Hds|Hds]; [by apply copy_forward; [|lia]|].
    destruct (Z.ltb_spec s d) as [Hsd|Hsd]; cbn [andb].
    + destruct (Z.ltb_spec 0 n); [by apply copy_backward; [|lia]|].
      intros x. ranges; (done || lia).
    + intros x. ranges; [f_equal; lia|done].
  - rewrite (proj2 (Z.leb_gt 0 (n - 2 ^ 64))) by lia. done.
Qed.

(** internal_memmove copies its source for every overlap of the two ranges
    and refuses only a size with its top bit set. *)
Theorem internal_memmove_spec m d s n :
  bytes_ok m -> 0 <= n < 2 ^ 64 ->
  match internal_memmove m d s n with
  | Done m' => m' ≡ memmove m d s n /\ n < 2 ^ 63
  | Died _ => 2 ^ 63 <= n
  end.
Proof. apply memmove_correct. Qed.

Lemma internal_memmove_spec_witness :
  let m := store8 (store8 (fun _ => 0) 1 7) 2 9 in
  is_done (internal_memmove m 2 1 2) = true /\
  bytes_ok m /\
  match internal_memmove m 2 1 2 with
  | Done m' => m' ≡ memmove m 2 1 2 /\ 2 < 2 ^ 63
  | Died _ => 2 ^ 63 <= 2
  end.
Proof.
  intros m. split; [reflexivity|]. assert (bytes_ok m) as Hm by (apply store8_bytes, store8_bytes; done).
  split; [done|]. apply (internal_memmove_spec m 2 1 2); [done|lia].
Defined.

Lemma memset_correct m s c n :
  0 <= c < 256 -> 0 <= n -> internal_memset m s c n ≡ memset m s c n.
Proof.
  intros Hc Hn. unfold internal_memset.
  destruct (_ && _) eqn:E; [|apply fill_bytes].
  bool_hyps. rewrite fill_words by done.
  assert (16 * (n / 16) = n) as -> by (pose proof (Z.div_mod n 16); lia). done.
Qed.

(** internal_memset agrees with memset for every character, on the word path
    and on the byte path alike. *)
Theorem internal_memset_spec m s c n :
  0 <= c < 256 -> 0 <= n -> internal_memset m s c n ≡ memset m s c n.
Proof. apply memset_correct. Qed.

Lemma internal_memset_spec_witness :
  internal_memset (fun _ => 1) 32 255 16 ≡ memset (fun _ => 1) 32 255 16.
Proof. apply internal_memset_spec; lia. Defined.

(** outside of the characters the two paths disagree: memset converts the
    value to unsigned char, the word path of internal_memset does not, so that
    filling an aligned buffer with 0x102 writes 3 where memset writes 2. *)
Theorem internal_memset_wide_value :
  internal_memset (fun _ => 0) 32 0x102 16 33 = 3 /\ memset (fun _ => 0) 32 0x102 16 33 = 2 /\
  internal_memset (fun _ => 0) 33 0x102 16 33 = 2.
Proof. vm_compute. auto. Qed.

Lemma mem_is_zero_correct m beg size b :
  bytes_ok m -> 0 <= beg -> 0 <= size -> beg + size + 7 < 2 ^ 64 ->
  mem_is_zero m beg size = Done b ->
  b = true <-> forall a, beg <= a < beg + size -> m a = 0.
Proof.
  intros Hm Hb Hs Hr H. unfold mem_is_zero in H. inv_done.
  change 8 with (2 ^ 3) in Hr0.
  assert (beg <= r0 < beg + 8 /\ (8 | r0) /\ r0 < 2 ^ 64) as (Hbnd & Hdiv & _)
    by (apply (RoundUpTo_bounds beg 3); [lia..|done]).
  change 8 with (2 ^ 3). rewrite RoundDownTo_spec by lia. change (2 ^ 3) with 8.
  set (e := 8 * ((beg + size) / 8)).
  assert (e <= beg + size < e + 8) as He by (unfold e; Z.div_mod_to_equations; lia).
  assert ((8 | e - r0)) as Hd8 by (apply Z.divide_sub_r; [by exists ((beg + size) / 8); lia|done]).
  rewrite Z.eqb_eq.
  assert (or_words m r0 e (or_bytes m beg (Z.min r0 (beg + size)) 0) = 0 <->
          forall a, beg <= a < Z.max (Z.min r0 (beg + size)) e -> m a = 0) as Hhead.
  { rewrite or_words_zero, or_bytes_zero by done. split.
    - intros ((_ & H1) & H2) a Ha. destruct (decide (a < Z.min r0 (beg + size))); [apply H1; lia|].
      apply H2. lia.
    - intros H. split; [split; [done|]|]; intros a Ha; apply H; lia. }
  destruct (Z.leb_spec beg e) as [Hle|Hgt].
  - rewrite or_bytes_zero, Hhead by done. split.
    + intros (H1 & H2) a Ha. destruct (decide (a < e)); [apply H1; lia|apply H2; lia].
    + intros H. split; intros a Ha; apply H; lia.
  - destruct Hd8 as [q Hq]. rewrite Hhead. split; intros H a Ha; apply H; lia.
Qed.

(** mem_is_zero answers whether every byte of the buffer is zero, through
    its unaligned head, word-wide middle and unaligned tail. *)
Theorem mem_is_zero_spec m beg size b :
  bytes_ok m -> 0 <= beg -> 0 <= size -> beg + size + 7 < 2 ^ 64 ->
  mem_is_zero m beg size = Done b ->
  b = true <-> forall a, beg <= a < beg + size -> m a = 0.
Proof. apply mem_is_zero_correct. Qed.

Lemma mem_is_zero_spec_witness :
  mem_is_zero (fun a => if a =? 21 then 4 else 0) 3 18 = Done true /\
  forall a, 3 <= a < 3 + 18 -> (if a =? 21 then 4 else 0) = 0.
Proof.
  assert (mem_is_zero (fun a => if a =? 21 then 4 else 0) 3 18 = Done true) as E by reflexivity.
  split; [exact E|].
  apply (proj1 (mem_is_zero_spec (fun a => if a =? 21 then 4 else 0) 3 18 true
    ltac:(intros a; destruct (a =? 21); lia) ltac:(lia) ltac:(lia) ltac:(lia) E)).
  reflexivity.
Defined.

(** ** Lemmas: scans and strings *)

Lemma scan_sound fuel stop i r :
  scan fuel stop i = Some r -> i <= r /\ stop r = true /\ forall j, i <= j < r -> stop j = false.
Proof.
  revert i. induction fuel as [|f IH]; intros i H; cbn in H; [done|].
  destruct (stop i) eqn:E.
  - injection H as <-. repeat split; [lia|done|lia].
  - destruct (IH _ H) as (H1 & H2 & H3). repeat split; [lia|done|].
    intros j Hj. destruct (decide (j = i)) as [->|]; [done|apply H3; lia].
Qed.

Lemma scan_total fuel stop i r :
  i <= r < i + Z.of_nat fuel -> stop r = true -> (forall j, i <= j < r -> stop j = false) ->
  scan fuel stop i = Some r.
Proof.
  revert i. induction fuel as [|f IH]; intros i Hr Hs Hn; cbn; [lia|].
  destruct (decide (i = r)) as [->|]; [by rewrite Hs|].
  rewrite Hn by lia. apply IH; [lia|done|]. intros j Hj. apply Hn. lia.
Qed.

(** A NUL-terminated string of length [n] at [s]. *)
Definition c_string (m : mem) (s n : Z) : Prop :=
  0 <= n /\ m (s + n) = 0 /\ forall i, 0 <= i < n -> m (s + i) <> 0.

Lemma internal_strlen_total fuel m s n :
  c_string m s n -> n < Z.of_nat fuel -> internal_strlen fuel m s = Some n.
Proof.
  intros (H0 & Hz & Hnz) Hf. unfold internal_strlen. apply scan_total; [lia|by apply Z.eqb_eq|].
  intros j Hj. by apply Z.eqb_neq, Hnz.
Qed.

Lemma internal_strlen_sound fuel m s n : internal_strlen fuel m s = Some n -> c_string m s n.
Proof.
  intros (H0 & Hz & Hnz)%scan_sound. apply Z.eqb_eq in Hz. repeat split; [lia|done|].
  intros i Hi. by apply Z.eqb_neq, Hnz.
Qed.

Lemma internal_strnlen_total fuel m s n k :
  c_string m s n -> n < Z.of_nat fuel -> 0 <= k ->
  internal_strnlen fuel m s k = Some (Z.min n k).
Proof.
  intros (H0 & Hz & Hnz) Hf Hk. unfold internal_strnlen. apply scan_total; [lia|..].
  - destruct (Z.le_gt_cases n k).
    + rewrite Z.min_l, Hz by lia. apply orb_true_r.
    + rewrite Z.min_r by lia. by rewrite Z.leb_refl.
  - intros j Hj. apply orb_false_iff. split; [apply Z.leb_gt; lia|]. apply Z.eqb_neq, Hnz. lia.
Qed.

(** The memmove of a string function succeeds: its size is below [2^63]. *)
Lemma internal_memmove_done m d s n :
  bytes_ok m -> 0 <= n < 2 ^ 63 ->
  exists m', internal_memmove m d s n = Done m' /\ m' ≡ memmove m d s n.
Proof.
  intros Hm Hn. pose proof (memmove_correct m d s n Hm) as H.
  destruct (internal_memmove m d s n) as [m'|]; [exists m'; split; [done|apply H; lia]|lia].
Qed.

(** ** Properties of the string functions *)

(** What strlcpy promises: the destination holds the longest prefix of the source
    that fits with its terminator, and no byte outside of it changed. *)
Definition strlcpy_result (m : mem) (dst src n maxlen : Z) (m' : mem) : Prop :=
  (forall i, 0 <= i < Z.min n (maxlen - 1) -> m' (dst + i) = m (src + i)) /\
  (0 < maxlen -> m' (dst + Z.min n (maxlen - 1)) = 0) /\
  (forall x, ~ dst <= x < dst + maxlen -> m' x = m x).

Lemma strlcpy_correct fuel m dst src n maxlen :
  bytes_ok m -> c_string m src n -> n < Z.of_nat fuel -> n < 2 ^ 62 -> 0 <= maxlen < 2 ^ 63 ->
  exists m', internal_strlcpy fuel m dst src maxlen = Some (Done (m', n)) /\
             strlcpy_result m dst src n maxlen m'.
Proof.
  intros Hm Hs Hf Hn Hmax. unfold internal_strlcpy.
  rewrite (internal_strlen_total _ _ _ _ Hs Hf). cbn [mbind option_bind].
  destruct Hs as (H0 & Hz & Hnz). unfold strlcpy_result.
  destruct (Z.ltb_spec n maxlen) as [Hlt|Hge].
  - destruct (internal_memmove_done m dst src (n + 1) Hm) as (m' & -> & Hm'); [lia|].
    exists m'. split; [done|]. rewrite Z.min_l by lia.
    repeat split; [intros i Hi|intros _|intros x Hx]; rewrite (Hm' _); ranges; try lia; try done;
      rewrite <- ?Hz; f_equal; lia.
  - destruct (Z.eqb_spec maxlen 0) as [->|Hne]; cbn [negb].
    + exists m. split; [done|]. repeat split; intros; lia.
    + destruct (internal_memmove_done m dst src (maxlen - 1) Hm) as (m' & -> & Hm'); [lia|].
      eexists. split; [reflexivity|]. rewrite Z.min_r by lia.
      repeat split; [intros i Hi|intros _|intros x Hx]; unfold store8;
        match goal with |- context [?x =? ?y] => destruct (Z.eqb_spec x y) end; try lia; try done;
        match goal with |- context [m' ?y] => rewrite (Hm' y) end;
        ranges; try lia; try done; f_equal; lia.
Qed.

(** internal_strlcpy keeps its contract for every source and destination size
    (truncation, exact fit and size zero included), ranges that overlap too: the
    destination ends up holding the longest terminated prefix that fits, nothing
    outside of it changes, and the answer is the length of the source. *)
Theorem internal_strlcpy_spec fuel m dst src n maxlen :
  bytes_ok m -> c_string m src n -> n < Z.of_nat fuel -> n < 2 ^ 62 -> 0 <= maxlen < 2 ^ 63 ->
  exists m', internal_strlcpy fuel m dst src maxlen = Some (Done (m', n)) /\
             strlcpy_result m dst src n maxlen m'.
Proof. apply strlcpy_correct. Qed.

Lemma internal_strlcpy_spec_witness :
  let m := store8 (store8 (store8 (fun _ => 0) 100 65) 101 66) 102 67 in
  exists m', internal_strlcpy 10 m 200 100 3 = Some (Done (m', 3)) /\ m' 201 = 66 /\ m' 202 = 0.
Proof.
  intros m. assert (bytes_ok m) as Hm by (apply store8_bytes, store8_bytes, store8_bytes; done).
  assert (c_string m 100 3) as Hs.
  { repeat split; try lia. intros i Hi.
    assert (i = 0 \/ i = 1 \/ i = 2) as [-> | [-> | ->]] by lia; discriminate. }
  destruct (internal_strlcpy_spec 10 m 200 100 3 3 Hm Hs) as (m' & H & H1 & H2 & _); [lia..|].
  exists m'. split; [done|]. split; [exact (H1 1 ltac:(lia))|exact (H2 ltac:(lia))].
Defined.

(** *** Numbers *)

Fixpoint text_at (m : mem) (a : Z) (l : list Z) : Prop :=
  match l with [] => True | c :: l' => m a = c /\ text_at m (a + 1) l' end.

Definition digits_value (ds : list Z) : Z := fold_left (fun acc d => 10 * acc + d) ds 0.

Lemma text_at_app m a l1 l2 :
  text_at m a (l1 ++ l2) <-> text_at m a l1 /\ text_at m (a + Z.of_nat (length l1)) l2.
Proof.
  revert a. induction l1 as [|c l1 IH]; intros a; cbn [text_at app length].
  - rewrite Z.add_0_r. tauto.
  - rewrite IH. replace (a + 1 + Z.of_nat (length l1)) with (a + Z.of_nat (S (length l1))) by lia.
    tauto.
Qed.

(** The saturating step computes the saturated value. *)
Lemma add_digit_saturates v d :
  0 <= v -> 0 <= d <= 9 -> add_digit (Z.min v UINT64_MAX) d = Z.min (10 * v + d) UINT64_MAX.
Proof.
  intros Hv Hd. unfold add_digit.
  change UINT64_MAX with 18446744073709551615.
  change (18446744073709551615 / 10) with 1844674407370955161.
  destruct (Z.leb_spec (Z.min v 18446744073709551615) 1844674407370955161); zcase; lia.
Qed.

Lemma schar_ascii c : 0 <= c < 128 -> schar c = c.
Proof. intros Hc. unfold schar. by rewrite (proj2 (Z.ltb_lt _ _)) by lia. Qed.

Lemma IsDigit_char d : 0 <= d <= 9 -> IsDigit (schar (48 + d)) = true.
Proof. intros Hd. rewrite schar_ascii by lia. unfold IsDigit. bool_goal; lia. Qed.

Lemma digits_loop_value fuel m a ds stop v hd :
  Forall (fun d => 0 <= d <= 9) ds -> IsDigit (schar stop) = false -> 0 <= v ->
  text_at m a (map (Z.add 48) ds ++ [stop]) -> (length ds < fuel)%nat ->
  digits_loop fuel m a (Z.min v UINT64_MAX) hd =
  Some (a + Z.of_nat (length ds),
        Z.min (fold_left (fun acc d => 10 * acc + d) ds v) UINT64_MAX,
        hd || negb (bool_decide (ds = []))).
Proof.
  intros Hds Hstop. revert fuel a v hd. induction ds as [|d ds IH]; intros fuel a v hd Hv Ht Hf.
  - destruct fuel as [|f]; [cbn in Hf; lia|]. cbn in Ht. destruct Ht as [Hc _].
    cbn [digits_loop]. rewrite Hc, Hstop. cbn [length fold_left Z.of_nat].
    rewrite Z.add_0_r, bool_decide_eq_true_2, orb_false_r by done. done.
  - destruct fuel as [|f]; [cbn in Hf; lia|]. cbn [map app text_at length] in Ht, Hf.
    apply Forall_cons_iff in Hds as [Hd Hds]. destruct Ht as [Hc Ht]. cbn [digits_loop].
    rewrite Hc, (IsDigit_char d Hd), schar_ascii by lia.
    replace (48 + d - 48) with d by lia. rewrite (add_digit_saturates v d Hv Hd).
    rewrite IH; [|done|lia|done|lia]. cbn [fold_left length].
    rewrite orb_true_l. rewrite bool_decide_eq_false_2 by done. rewrite orb_true_r.
    do 2 f_equal. f_equal. lia.
Qed.

Lemma digits_value_nonneg ds v :
  Forall (fun d => 0 <= d <= 9) ds -> 0 <= v -> 0 <= fold_left (fun acc d => 10 * acc + d) ds v.
Proof.
  intros Hds. revert v. induction Hds as [|d ds Hd Hds IH]; intros v Hv; cbn; [done|].
  apply IH. lia.
Qed.

Definition sign_chars (sgn : Z) (explicit : bool) : list Z :=
  if sgn <? 0 then [45] else if explicit then [43] else [].

(** internal_simple_strtoll reads blanks, an optional sign and digits, stops
    at the first other character, and answers the number clamped to the range of
    a 64-bit signed integer: no input overflows. *)
Theorem internal_simple_strtoll_spec fuel m a blanks sgn explicit ds stop :
  Forall (fun c => IsSpace (schar c) = true) blanks -> sgn = 1 \/ sgn = -1 ->
  ds <> [] -> Forall (fun d => 0 <= d <= 9) ds -> IsDigit (schar stop) = false ->
  text_at m a (blanks ++ sign_chars sgn explicit ++ map (Z.add 48) ds ++ [stop]) ->
  (length blanks < fuel)%nat -> (length ds < fuel)%nat ->
  internal_simple_strtoll fuel m a 10 =
  Some (Done (Z.max INT64_MIN (Z.min INT64_MAX (sgn * digits_value ds)),
              a + Z.of_nat (length blanks + length (sign_chars sgn explicit) + length ds))).
Proof.
  intros Hsp Hsgn Hne Hds Hstop Ht Hf1 Hf2.
  apply text_at_app in Ht as [Hb Ht]. unfold internal_simple_strtoll. cbn [Z.eqb negb Pos.eqb].
  assert (scan fuel (fun i => negb (IsSpace (schar (m (a + i))))) 0
          = Some (Z.of_nat (length blanks))) as ->.
  { apply scan_total; [lia| |].
    - destruct ds as [|d ds]; [done|]. apply Forall_cons_iff in Hds as [Hd _].
      unfold sign_chars in Ht. destruct Hsgn as [-> | ->], explicit; cbn in Ht;
        destruct Ht as [-> _]; rewrite schar_ascii by lia; unfold IsSpace; zcase; done || lia.
    - clear -Hb Hsp. revert a Hb. induction Hsp as [|c l Hc Hl IH]; intros a Hb j Hj; cbn in Hj; [lia|].
      cbn in Hb. destruct Hb as [Ha Hb]. destruct (decide (j = 0)) as [->|].
      + rewrite Z.add_0_r, Ha, Hc. done.
      + replace (a + j) with (a + 1 + (j - 1)) by lia. apply (IH _ Hb). lia. }
  cbn [mbind option_bind]. set (b := a + Z.of_nat (length blanks)) in *.
  pose proof (digits_value_nonneg ds 0 Hds ltac:(lia)) as Hnn. fold (digits_value ds) in Hnn.
  assert (exists q, (if schar (m b) =? 43 then (1, b + 1)
          else if schar (m b) =? 45 then (-1, b + 1) else (1, b)) = (sgn, q) /\
          q = b + Z.of_nat (length (sign_chars sgn explicit)) /\
          text_at m q (map (Z.add 48) ds ++ [stop])) as (q & -> & Hq & Htq).
  { unfold sign_chars in *. destruct ds as [|d ds]; [done|]. apply Forall_cons_iff in Hds as [Hd _].
    destruct Hsgn as [-> | ->], explicit; cbn in Ht |- *; destruct Ht as [Hc Ht]; rewrite Hc;
      rewrite schar_ascii by lia; eexists; (split; [zcase; (lia || done)|split; [lia|]]);
      rewrite ?Z.add_0_r; cbn; auto. }
  pose proof (digits_loop_value fuel m q ds stop 0 false Hds Hstop ltac:(lia) Htq Hf2) as E.
  change (Z.min 0 UINT64_MAX) with 0 in E. rewrite E. fold (digits_value ds). rewrite bool_decide_eq_false_2 by done. cbn [mbind option_bind orb negb].
  f_equal. f_equal. f_equal; [|subst q b; lia].
  unfold INT64_MAX, INT64_MIN, UINT64_MAX. destruct Hsgn as [-> | ->]; zcase; lia.
Qed.

Lemma internal_simple_strtoll_spec_witness :
  let m := fun a => nth (Z.to_nat a) [32; 45; 57; 57; 120] 0 in
  internal_simple_strtoll 9 m 0 10 = Some (Done (-99, 4)).
Proof.
  exact (internal_simple_strtoll_spec 9 (fun a => nth (Z.to_nat a) [32; 45; 57; 57; 120] 0)
    0 [32] (-1) false [9; 9] 120 ltac:(by repeat constructor) ltac:(by right) ltac:(done)
    ltac:(repeat constructor; lia) eq_refl ltac:(by repeat split) ltac:(cbn; lia) ltac:(cbn; lia)).
Defined.

(** internal_wcscpy does not copy the terminator of its source: after copying
    a one-character string onto a buffer of ones, the word that follows the
    character is still the old one, whereas the bounded internal_wcsncpy
    terminates the copy. *)
Theorem internal_wcscpy_drops_terminator :
  let m := memset (store32 (store32 (fun _ => 0) 0 65) 4 0) 100 1 16 in
  c_string (fun i => load32 m (4 * i)) 0 1 /\
  (exists m', internal_wcscpy 5 m 100 0 = Some m' /\ load32 m' 100 = 65 /\ load32 m' 104 <> 0) /\
  load32 (internal_wcsncpy m 100 0 2) 104 = 0.
Proof.
  split; [|split; [|reflexivity]].
  - repeat split; [lia|]. intros i Hi. by assert (i = 0) as -> by lia.
  - eexists. split; [reflexivity|]. split; [reflexivity|]. vm_compute. discriminate.
Qed.
