(* ===== verification/Poisoning.v ===== *)
(** * Poisoning: writing shadow and origin memory

    [cqmsan_poisoning.cpp]: setting the shadow of a buffer ([SetShadow], with its
    page-releasing fast path), reading and copying origins, moving shadow and
    origins together.  Application, shadow and origin memory are parts of the one
    address space of [Memory]. *)

From S2P Require Import Prelude Common Memory Layout.

(** ** The environment

    The run-time flags and the operating system the functions consult.
    [mmap_ok beg size] is the answer of [MmapFixedSuperNoReserve]; a successful
    call replaces the pages by fresh ones, which read as zero. *)

Record Env := mkEnv {
  page_size : Z;
  clear_shadow_mmap_threshold : Z;
  mmap_ok : Z -> Z -> bool
}.

Definition MmapFixedSuperNoReserve_mem (env : Env) (m : mem) (beg size : Z) : outcome mem :=
  _ ← check (mmap_ok env beg size) "Die";
  mret (memset m beg 0 size).

Section poisoning.
Context (P : Platform) (env : Env).

(** *** Origins of poisoned bytes *)

Fixpoint GetOriginIfPoisoned_loop (m : mem) (s : Z) (l : list Z) : Z :=
  match l with
  | [] => 0
  | i :: l' =>
      if negb (m (s + i) =? 0) then load32 m (SHADOW_TO_ORIGIN P (align4 (s + i)))
      else GetOriginIfPoisoned_loop m s l'
  end.

Definition GetOriginIfPoisoned (m : mem) (addr size : Z) : Z :=
  GetOriginIfPoisoned_loop m (MEM_TO_SHADOW P addr) (zrange size).

Definition SetOriginIfPoisoned (m : mem) (addr src_shadow size src_origin : Z) : mem :=
  let dst_s := MEM_TO_SHADOW P addr in
  fold_left (fun m i =>
    if negb (m (src_shadow + i) =? 0)
    then store32 m (SHADOW_TO_ORIGIN P (align4 (dst_s + i))) src_origin else m)
    (zrange size) m.

(** *** SetShadow *)

(** [track_origins] is the answer of [__cqmsan_get_track_origins()]. *)
Definition SetShadow (track_origins : Z) (m : mem) (ptr size value : Z) : outcome mem :=
  let PageSize := page_size env in
  let shadow_beg := MEM_TO_SHADOW P ptr in
  let shadow_end := shadow_beg +64 size in
  if negb (value =? 0) || (shadow_end -64 shadow_beg <? clear_shadow_mmap_threshold env)
  then mret (memset m shadow_beg value (shadow_end -64 shadow_beg))
  else
    page_beg ← RoundUpTo shadow_beg PageSize;
    let page_end := RoundDownTo shadow_end PageSize in
    if page_end <=? page_beg
    then mret (memset m shadow_beg 0 (shadow_end -64 shadow_beg))
    else
      let m := if negb (page_beg =? shadow_beg)
               then memset m shadow_beg 0 (page_beg -64 shadow_beg) else m in
      let m := if negb (page_end =? shadow_end)
               then memset m page_end 0 (shadow_end -64 page_end) else m in
      m ← MmapFixedSuperNoReserve_mem env m page_beg (page_end -64 page_beg);
      if negb (track_origins =? 0) then
        origin_beg ← RoundUpTo (MEM_TO_ORIGIN P ptr) PageSize;
        MmapFixedSuperNoReserve_mem env m origin_beg (page_end -64 page_beg)
      else mret m.

(** *** SetOrigin *)

Definition align8 (x : Z) : Z := Z.land x (not64 7).

(** [for (addr = beg; addr < limit; addr += 8)]: the iterations left. *)
Definition SetOrigin (m : mem) (dst size origin : Z) : mem :=
  let x := MEM_TO_ORIGIN P dst in
  let beg := align4 x in
  let end_ := align4 (u64 (x + size + 3)) in
  let origin64 := Z.lor (Z.shiftl origin 32) origin in
  let m1 := if negb (Z.land beg 7 =? 0) then store32 m beg origin else m in
  let beg1 := if negb (Z.land beg 7 =? 0) then beg +64 4 else beg in
  let m2 := fold_left (fun m i => store64 m (beg1 + 8 * i) origin64)
              (zrange ((align8 end_ - beg1 + 7) / 8)) m1 in
  if negb (Z.land end_ 7 =? 0) then store32 m2 (end_ -64 4) origin else m2.

(** *** Copying origins

    [chain] is [ChainOrigin] at the stack trace of the caller, over the state
    [D] of the origin depots. *)
Section copy.
Context {D : Type} (chain : D -> Z -> Z * D) (track_origins : Z).

Definition chained (d : D) (o : Z) : Z * D :=
  if 1 <? track_origins then chain d o else (o, d).

(** Copies the origin of the first poisoned byte of [src, src+n) to [slot]. *)
Definition copy_unaligned (st : mem * D) (slot src n : Z) : mem * D :=
  let o := GetOriginIfPoisoned st.1 src n in
  if negb (o =? 0) then
    let '(o', d') := chained st.2 o in
    (store32 st.1 (MEM_TO_ORIGIN P slot) o', d')
  else st.

(** One word of the chaining loops: [(st, src_o, dst_o)]. *)
Definition copy_word (acc : mem * D * Z * Z) (src src_s dst : Z) : mem * D * Z * Z :=
  let '(m, d, src_o, dst_o) := acc in
  if load32 m src_s =? 0 then acc else
  let '(src_o, dst_o, d) :=
    if negb (load32 m src =? src_o) then
      let '(dst_o', d') := chain d (load32 m src) in (load32 m src, dst_o', d')
    else (src_o, dst_o, d) in
  (store32 m dst dst_o, d, src_o, dst_o).

Definition CopyOrigin (st : mem * D) (dst src size : Z) : mem * D :=
  if negb (MEM_IS_APP P dst) || negb (MEM_IS_APP P src) then st else
  let d := dst in
  let beg0 := align4 d in
  let st := if beg0 <? d then copy_unaligned st beg0 src (beg0 + 4 - d) else st in
  let beg := if beg0 <? d then beg0 + 4 else beg0 in
  let end_ := align4 (d +64 size) in
  if end_ <? beg then st else
  let st := if end_ <? d +64 size
            then copy_unaligned st end_ (src + (end_ - d)) ((d +64 size) - end_) else st in
  if beg <? end_ then
    let s := align4 (src +64 3) in
    if 1 <? track_origins then
      let '(m, dp, _, _) :=
        fold_left (fun acc i =>
          copy_word acc (MEM_TO_ORIGIN P s + 4 * i) (MEM_TO_SHADOW P s + 4 * i)
            (MEM_TO_ORIGIN P beg + 4 * i))
          (zrange ((MEM_TO_ORIGIN P (s + (end_ - beg)) - MEM_TO_ORIGIN P s + 3) / 4))
          (st.1, st.2, 0, 0) in
      (m, dp)
    else (memmove st.1 (MEM_TO_ORIGIN P beg) (MEM_TO_ORIGIN P s) (end_ - beg), st.2)
  else st.

Definition ReverseCopyOrigin (st : mem * D) (dst src size : Z) : mem * D :=
  if negb (MEM_IS_APP P dst) || negb (MEM_IS_APP P src) then st else
  let d := dst in
  let end_ := align4 (d +64 size) in
  let st := if end_ <? d +64 size
            then copy_unaligned st end_ (src + (end_ - d)) ((d +64 size) - end_) else st in
  let beg := align4 d in
  let st :=
    if beg + 4 <? end_ then
      let s := align4 (src +64 3) in
      if 1 <? track_origins then
        let src0 := MEM_TO_ORIGIN P (s + end_ - beg - 4) in
        let '(m, dp, _, _) :=
          fold_left (fun acc i =>
            copy_word acc (src0 - 4 * i) (MEM_TO_SHADOW P (s + end_ - beg - 4) - 4 * i)
              (MEM_TO_ORIGIN P (end_ - 4) - 4 * i))
            (zrange ((src0 - MEM_TO_ORIGIN P s + 4) / 4)) (st.1, st.2, 0, 0) in
        (m, dp)
      else (memmove st.1 (MEM_TO_ORIGIN P beg) (MEM_TO_ORIGIN P s) (end_ - beg - 4), st.2)
    else st in
  if beg <? d then copy_unaligned st beg src (beg + 4 - d) else st.

Definition MoveOrigin (st : mem * D) (dst src size : Z) : mem * D :=
  let src_aligned_beg := align4 src in
  let src_aligned_end := align4 (src +64 size) in
  let dst_aligned_beg := align4 dst in
  if (dst_aligned_beg <? src_aligned_end) && (src_aligned_beg <=? dst_aligned_beg)
  then ReverseCopyOrigin st dst src size
  else CopyOrigin st dst src size.

Definition MoveShadowAndOrigin (st : mem * D) (dst src size : Z) : mem * D :=
  if negb (MEM_IS_APP P dst) then st else
  if negb (MEM_IS_APP P src) then st else
  if src =? dst then st else
  let st := if negb (track_origins =? 0) then MoveOrigin st dst src size else st in
  (memmove st.1 (MEM_TO_SHADOW P dst) (MEM_TO_SHADOW P src) size, st.2).

Definition CopyShadowAndOrigin (st : mem * D) (dst src size : Z) : mem * D :=
  if negb (MEM_IS_APP P dst) then st else
  if negb (MEM_IS_APP P src) then st else
  let st := (memmove st.1 (MEM_TO_SHADOW P dst) (MEM_TO_SHADOW P src) size, st.2) in
  if negb (track_origins =? 0) then MoveOrigin st dst src size else st.

Definition CopyMemory (st : mem * D) (dst src size : Z) : mem * D :=
  CopyShadowAndOrigin (memmove st.1 dst src size, st.2) dst src size.
End copy.

(** [heap_origin] is the id [CreateHeapOrigin(stack)] answers, [in_signal] the
    test [t && t->InSignalHandler()]. *)
Definition PoisonMemory (track_origins : Z) (in_signal : bool) (heap_origin : Z)
    (m : mem) (dst size : Z) : outcome mem :=
  m ← SetShadow track_origins m dst size 255;
  if negb (track_origins =? 0) then
    if in_signal then mret m else mret (SetOrigin m dst size heap_origin)
  else mret m.
End poisoning.

(** ** Lemmas: SetShadow *)

Lemma MmapFixed_mem_done env m beg size m' :
  MmapFixedSuperNoReserve_mem env m beg size = Done m' ->
  m' = memset m beg 0 size /\ mmap_ok env beg size = true.
Proof. unfold MmapFixedSuperNoReserve_mem. intros H. by inv_done. Qed.

(** Head, tail and whole pages in between make up the range. *)
Lemma page_split m sb se pb pe :
  sb <= pb -> pb < pe -> pe <= se ->
  let m1 := if negb (pb =? sb) then memset m sb 0 (pb - sb) else m in
  let m2 := if negb (pe =? se) then memset m1 pe 0 (se - pe) else m1 in
  memset m2 pb 0 (pe - pb) ≡ memset m sb 0 (se - sb).
Proof.
  intros H1 H2 H3 m1 m2 x. unfold m2, m1.
  destruct (Z.eqb_spec pb sb), (Z.eqb_spec pe se); cbn [negb]; ranges; (done || lia).
Qed.

Section setshadow.
Context (P : Platform) (env : Env) (k : Z).
Context (Hk : 0 <= k <= 32) (Hpage : page_size env = 2 ^ k).

(** The origins a SetShadow may release: those of the buffer. *)
Definition origin_of_buffer (track ptr size x : Z) : Prop :=
  track <> 0 /\ MEM_TO_ORIGIN P ptr <= x < MEM_TO_ORIGIN P ptr + size.

Lemma SetShadow_memset track m ptr size value m' :
  0 <= MEM_TO_SHADOW P ptr -> 0 <= size ->
  MEM_TO_SHADOW P ptr + size + 2 ^ k < 2 ^ 64 ->
  (track <> 0 -> 0 <= MEM_TO_ORIGIN P ptr /\ MEM_TO_ORIGIN P ptr + 2 ^ k < 2 ^ 64 /\
                 (2 ^ k | MEM_TO_ORIGIN P ptr - MEM_TO_SHADOW P ptr)) ->
  SetShadow P env track m ptr size value = Done m' ->
  forall x, ~ origin_of_buffer track ptr size x ->
    m' x = memset m (MEM_TO_SHADOW P ptr) value size x.
Proof.
  intros H0 Hs Hr Ho H x Hx. unfold SetShadow in H.
  set (sb := MEM_TO_SHADOW P ptr) in *.
  assert (1 <= 2 ^ k) as Hpow by (pose proof (Z.pow_pos_nonneg 2 k); lia).
  assert (2 ^ k <= 2 ^ 32) as Hpow2 by (apply Z.pow_le_mono_r; lia).
  rewrite (u64_small (sb + size)) in H by lia.
  replace (sb + size - sb) with size in H by lia. rewrite (u64_small size) in H by lia.
  destruct (Z.eqb_spec value 0) as [->|Hv]; cbn [negb orb] in H; [|by inv_done].
  destruct (size <? _) eqn:Hth; [by inv_done|].
  apply bind_done in H as (pb & Hpb & H). rewrite Hpage in Hpb.
  apply RoundUpTo_bounds in Hpb as (Hb1 & Hb2 & Hb3); [|lia..].
  rewrite Hpage, RoundDownTo_spec in H by lia.
  set (pe := 2 ^ k * ((sb + size) / 2 ^ k)) in *.
  assert (pe <= sb + size < pe + 2 ^ k) as Hpe.
  { unfold pe. pose proof (Z.div_mod (sb + size) (2 ^ k)).
    pose proof (Z.mod_pos_bound (sb + size) (2 ^ k)). lia. }
  destruct (Z.leb_spec pe pb) as [Hle|Hlt]; [by inv_done|].
  rewrite (u64_small (pb - sb)), (u64_small (sb + size - pe)), (u64_small (pe - pb)) in H by lia.
  apply bind_done in H as (m1 & Hm1 & H). apply MmapFixed_mem_done in Hm1 as [Hm1 _].
  pose proof (page_split m sb (sb + size) pb pe ltac:(lia) ltac:(lia) ltac:(lia) x) as Hsp.
  cbn zeta in Hsp. rewrite <- Hm1 in Hsp. replace (sb + size - sb) with size in Hsp by lia.
  destruct (Z.eqb_spec track 0) as [->|Ht]; cbn [negb] in H; [by inv_done|].
  apply bind_done in H as (ob & Hob & H).
  destruct (Ho Ht) as (Ho1 & Ho2 & Ho3).
  assert (ob - MEM_TO_ORIGIN P ptr = pb - sb) as Heq.
  { apply RoundUpTo_bounds in Hob as (Hob1 & Hob2 & _); [|lia..].
    destruct Hb2 as [q1 Hq1], Hob2 as [q2 Hq2], Ho3 as [q3 Hq3]. fold sb in Hq3.
    assert (q2 - q1 - q3 = 0) by nia. nia. }
  apply MmapFixed_mem_done in H as [-> _].
  rewrite memset_out; [done|]. unfold origin_of_buffer in Hx. intros Hin. apply Hx. lia.
Qed.
End setshadow.

(** The call cannot die when the mappings it may ask for succeed. *)
Lemma SetShadow_total P env track m ptr size value :
  (forall b s, mmap_ok env b s = true) -> (exists k, 0 <= k <= 32 /\ page_size env = 2 ^ k) ->
  is_done (SetShadow P env track m ptr size value) = true.
Proof.
  intros Hok (k & Hk & Hpage).
  assert (forall x, exists r, RoundUpTo x (page_size env) = Done r) as Hup.
  { intros x. unfold RoundUpTo. rewrite Hpage.
    assert (IsPowerOfTwo (2 ^ k) = true) as ->; [|by eexists].
    assert (1 <= 2 ^ k <= 2 ^ 32) as Hpow.
    { split; [pose proof (Z.pow_pos_nonneg 2 k); lia|apply Z.pow_le_mono_r; lia]. }
    apply IsPowerOfTwo_spec; [lia|]. right. exists k. split; [lia|done]. }
  unfold SetShadow, MmapFixedSuperNoReserve_mem. case_match; [done|].
  destruct (Hup (MEM_TO_SHADOW P ptr)) as (pb & ->). cbn [mbind outcome_bind].
  case_match; [done|]. rewrite Hok. cbn [check mbind outcome_bind mret outcome_ret].
  case_match; [|done]. destruct (Hup (MEM_TO_ORIGIN P ptr)) as (ob & ->).
  cbn [mbind outcome_bind]. by rewrite Hok.
Qed.

(** ** Lemmas: origins *)

Lemma zrange_cons k : 0 < k -> zrange k = 0 :: map (Z.add 1) (zrange (k - 1)).
Proof.
  intros Hk. unfold zrange. replace (Z.to_nat k) with (S (Z.to_nat (k - 1))) by lia.
  cbn. f_equal. rewrite <- seq_shift, !map_map. apply map_ext. intros i. lia.
Qed.

Lemma GetOriginIfPoisoned_clean P m s l :
  (forall i, i ∈ l -> m (s + i) = 0) -> GetOriginIfPoisoned_loop P m s l = 0.
Proof.
  induction l as [|i l IH]; intros H; cbn; [done|].
  rewrite (H i) by by left. apply IH. intros j Hj. apply H. by right.
Qed.

Lemma GetOriginIfPoisoned_first P m s l1 i l2 :
  (forall j, j ∈ l1 -> m (s + j) = 0) -> m (s + i) <> 0 ->
  GetOriginIfPoisoned_loop P m s (l1 ++ i :: l2) =
  load32 m (SHADOW_TO_ORIGIN P (align4 (s + i))).
Proof.
  induction l1 as [|j l1 IH]; intros H Hi; cbn.
  - by rewrite (proj2 (Z.eqb_neq _ _) Hi).
  - rewrite (H j) by by left. apply IH; [|done]. intros j' Hj. apply H. by right.
Qed.

Lemma zrange_split k i : 0 <= i < k -> exists l2, zrange k = zrange i ++ i :: l2.
Proof.
  intros Hi. unfold zrange. exists (map Z.of_nat (seq (S (Z.to_nat i)) (Z.to_nat (k - i - 1)))).
  replace (Z.to_nat k) with (Z.to_nat i + S (Z.to_nat (k - i - 1)))%nat by lia.
  rewrite seq_app, map_app. cbn. do 2 f_equal. lia.
Qed.

(** Byte [j] of a 32-bit origin. *)
Definition origin_byte (o j : Z) : Z := u8 (Z.shiftr o (8 * j)).

Lemma origin64_byte o i :
  0 <= o < 2 ^ 32 -> 0 <= i < 8 ->
  u8 (Z.shiftr (Z.lor (Z.shiftl o 32) o) (8 * i)) = origin_byte o (i mod 4).
Proof.
  intros Ho Hi.
  assert (Z.lor (Z.shiftl o 32) o = o * 2 ^ 32 + o) as ->.
  { assert (Z.land (Z.shiftl o 32) o = 0) as Hland.
    { apply Z.bits_inj'. intros j Hj. rewrite Z.land_spec, Z.bits_0.
      destruct (Z.ltb_spec j 32); [by rewrite Z.shiftl_spec_low|].
      rewrite (Z.bits_above_log2 o j), andb_false_r; [done|lia|].
      destruct (decide (o = 0)) as [->|]; [cbn; lia|]. apply Z.log2_lt_pow2; [lia|].
      eapply Z.lt_le_trans; [apply Ho|]. apply Z.pow_le_mono_r; lia. }
    pose proof (Z.add_lor_land (Z.shiftl o 32) o) as Hadd.
    rewrite <- (Z.shiftl_mul_pow2 o 32) by lia. lia. }
  unfold origin_byte. rewrite !u8_shiftr by (Z.div_mod_to_equations; lia).
  assert (i = 0 \/ i = 1 \/ i = 2 \/ i = 3 \/ i = 4 \/ i = 5 \/ i = 6 \/ i = 7) as Hc by lia.
  repeat destruct Hc as [-> | Hc]; [..|subst i];
    match goal with |- context [2 ^ (8 * (?a mod 4))] =>
      let v := eval vm_compute in (2 ^ (8 * (a mod 4))) in change (2 ^ (8 * (a mod 4))) with v end;
    match goal with |- context [2 ^ (8 * ?a)] =>
      let v := eval vm_compute in (2 ^ (8 * a)) in change (2 ^ (8 * a)) with v end;
    change (2 ^ 32) with 4294967296 in *; Z.div_mod_to_equations; lia.
Qed.

(** The words of [b, e) filled with the origin [o]. *)
Definition fill_origin (m : mem) (b e o : Z) : mem :=
  fun y => if (b <=? y) && (y <? e) then origin_byte o ((y - b) mod 4) else m y.

Lemma store32_fill m a o : store32 m a o ≡ fill_origin m a (a + 4) o.
Proof.
  intros y. unfold store32, store, fill_origin, in_range, origin_byte.
  destruct (_ && _) eqn:E; [|done]. bool_hyps. by rewrite Z.mod_small by lia.
Qed.

Lemma store64_fill m a o :
  0 <= o < 2 ^ 32 -> store64 m a (Z.lor (Z.shiftl o 32) o) ≡ fill_origin m a (a + 8) o.
Proof.
  intros Ho y. unfold store64, store, fill_origin, in_range.
  destruct (_ && _) eqn:E; [|done]. bool_hyps. apply origin64_byte; [done|lia].
Qed.

#[export] Instance fill_origin_proper :
  Proper ((≡) ==> (=) ==> (=) ==> (=) ==> (≡)) fill_origin.
Proof. intros m1 m2 H b ? <- e ? <- o ? <- y. unfold fill_origin. by case_match. Qed.

Lemma fill_origin_append m a b c o :
  a <= b -> b <= c -> (4 | b - a) ->
  fill_origin (fill_origin m a b o) b c o ≡ fill_origin m a c o.
Proof.
  intros Hab Hbc [q Hq] y. unfold fill_origin.
  replace (y - a) with (y - b + q * 4) by lia. rewrite Z.mod_add by lia.
  destruct (Z.leb_spec a y), (Z.leb_spec b y), (Z.ltb_spec y b), (Z.ltb_spec y c);
    cbn [andb]; (done || lia).
Qed.

Lemma fill_origin_empty m b e o : e <= b -> fill_origin m b e o ≡ m.
Proof.
  intros H y. unfold fill_origin.
  destruct (Z.leb_spec b y), (Z.ltb_spec y e); cbn [andb]; (done || lia).
Qed.

Lemma fill_words_origin m a o n :
  0 <= o < 2 ^ 32 -> 0 <= n ->
  fold_left (fun m i => store64 m (a + 8 * i) (Z.lor (Z.shiftl o 32) o)) (zrange n) m
  ≡ fill_origin m a (a + 8 * n) o.
Proof.
  intros Ho Hn. replace n with (Z.of_nat (Z.to_nat n)) by lia.
  induction (Z.to_nat n) as [|k IH].
  - rewrite fill_origin_empty by lia. done.
  - assert (zrange (Z.of_nat (S k)) = zrange (Z.of_nat k) ++ [Z.of_nat k]) as ->.
    { unfold zrange. rewrite !Nat2Z.id, seq_S, map_app. done. }
    rewrite fold_left_app. cbn [fold_left]. unfold store64.
    rewrite IH. rewrite (store64_fill _ _ _ Ho).
    replace (a + 8 * Z.of_nat k + 8) with (a + 8 * Z.of_nat (S k)) by lia.
    apply fill_origin_append; [lia|lia|]. exists (2 * Z.of_nat k). lia.
Qed.

Lemma land7 x : Z.land x 7 = x mod 8.
Proof. exact (Z.land_ones x 3 ltac:(lia)). Qed.

Lemma SetOrigin_fill P m dst size origin :
  0 <= origin < 2 ^ 32 -> 0 < size -> 0 <= MEM_TO_ORIGIN P dst ->
  MEM_TO_ORIGIN P dst + size + 11 < 2 ^ 64 ->
  SetOrigin P m dst size origin ≡
  fill_origin m (align4 (MEM_TO_ORIGIN P dst)) (align4 (MEM_TO_ORIGIN P dst + size + 3)) origin.
Proof.
  intros Ho Hs H0 Hr. unfold SetOrigin. set (x := MEM_TO_ORIGIN P dst) in *.
  rewrite (u64_small (x + size + 3)) by lia.
  rewrite !align4_div by lia. set (b := 4 * (x / 4)). set (e := 4 * ((x + size + 3) / 4)).
  assert (b mod 4 = 0 /\ e mod 4 = 0 /\ b + 4 <= e /\ 0 <= b /\ e < 2 ^ 64 - 4) as (Hb & He & Hbe & Hb0 & He2).
  { unfold b, e. Z.div_mod_to_equations. lia. }
  unfold align8. change (not64 7) with (not64 (2 ^ 3 - 1)). rewrite (land_not64_pow2 e 3) by lia.
  change (2 ^ 3) with 8. rewrite !land7. clearbody b e.
  rewrite (u64_small (b + 4)), (u64_small (e - 4)) by lia.
  assert (forall M lo, lo mod 8 = 0 -> b <= lo -> lo <= e -> M ≡ fill_origin m b lo origin ->
    (if negb (e mod 8 =? 0)
     then store32 (fold_left (fun m i => store64 m (lo + 8 * i) (Z.lor (Z.shiftl origin 32) origin))
            (zrange ((8 * (e / 8) - lo + 7) / 8)) M) (e - 4) origin
     else fold_left (fun m i => store64 m (lo + 8 * i) (Z.lor (Z.shiftl origin 32) origin))
            (zrange ((8 * (e / 8) - lo + 7) / 8)) M) ≡ fill_origin m b e origin) as Hgen.
  { intros M lo Hlo Hblo Hloe HM.
    assert ((8 * (e / 8) - lo + 7) / 8 = e / 8 - lo / 8) as -> by (Z.div_mod_to_equations; lia).
    assert (lo + 8 * (e / 8 - lo / 8) = 8 * (e / 8)) as Hlim by (Z.div_mod_to_equations; lia).
    assert ((4 | lo - b)) as Hd by (exists ((lo - b) / 4); Z.div_mod_to_equations; lia).
    assert ((4 | 8 * (e / 8) - b)) as Hd2
      by (exists ((8 * (e / 8) - b) / 4); Z.div_mod_to_equations; lia).
    assert (lo <= 8 * (e / 8)) as Hlo2 by (Z.div_mod_to_equations; lia).
    assert (fold_left (fun m i => store64 m (lo + 8 * i) (Z.lor (Z.shiftl origin 32) origin))
              (zrange (e / 8 - lo / 8)) M ≡ fill_origin m b (8 * (e / 8)) origin) as Hfill.
    { rewrite fill_words_origin by (done || (Z.div_mod_to_equations; lia)).
      rewrite Hlim, HM. by apply fill_origin_append. }
    destruct (Z.eqb_spec (e mod 8) 0) as [He8|He8]; cbn [negb].
    - rewrite Hfill. by replace (8 * (e / 8)) with e by (Z.div_mod_to_equations; lia).
    - assert (e - 4 = 8 * (e / 8)) as He4 by (Z.div_mod_to_equations; lia).
      unfold store32. rewrite Hfill, He4, store32_fill. replace (8 * (e / 8) + 4) with e by lia.
      apply fill_origin_append; [lia|lia|done]. }
  destruct (Z.eqb_spec (b mod 8) 0) as [Hb8|Hb8]; cbn [negb].
  - apply Hgen; [done|lia|lia|]. by rewrite fill_origin_empty by lia.
  - apply Hgen; [Z.div_mod_to_equations; lia|lia|lia|]. apply store32_fill.
Qed.

(** ** Properties *)

(** SetShadow is a memset of the shadow of the buffer.  Whatever the value,
    the size, the threshold and the page size, the page-releasing fast path (head
    and tail cleared, whole pages replaced by fresh mappings) leaves every byte of
    memory as the plain fill would, apart from the origins of the buffer itself,
    which are released only when origins are tracked; it fails only when a
    mapping does. *)
Theorem SetShadow_is_memset P env k track m ptr size value :
  0 <= k <= 32 -> page_size env = 2 ^ k -> 0 <= MEM_TO_SHADOW P ptr -> 0 <= size ->
  MEM_TO_SHADOW P ptr + size + 2 ^ k < 2 ^ 64 ->
  (track <> 0 -> 0 <= MEM_TO_ORIGIN P ptr /\ MEM_TO_ORIGIN P ptr + 2 ^ k < 2 ^ 64 /\
                 (2 ^ k | MEM_TO_ORIGIN P ptr - MEM_TO_SHADOW P ptr)) ->
  match SetShadow P env track m ptr size value with
  | Done m' => forall x, ~ origin_of_buffer P track ptr size x ->
      m' x = memset m (MEM_TO_SHADOW P ptr) value size x
  | Died _ => exists beg len, mmap_ok env beg len = false
  end.
Proof.
  intros Hk Hp H0 Hs Hr Ho. destruct (SetShadow _ _ _ _ _ _ _) as [m'|w] eqn:E.
  - exact (SetShadow_memset P env k Hk Hp track m ptr size value m' H0 Hs Hr Ho E).
  - assert (IsPowerOfTwo (2 ^ k) = true) as Hpow.
    { apply IsPowerOfTwo_spec; [|right; exists k; split; [lia|done]].
      split; [apply Z.pow_nonneg; lia|]. apply Z.pow_lt_mono_r; lia. }
    unfold SetShadow, RoundUpTo, MmapFixedSuperNoReserve_mem in E. rewrite Hp, Hpow in E.
    cbn [check mbind outcome_bind mret outcome_ret] in E.
    destruct (_ || _) eqn:? in E; [done|]. destruct (RoundDownTo _ _ <=? _) eqn:? in E; [done|].
    cbv [check mbind outcome_bind mret outcome_ret] in E.
    destruct (negb (track =? 0)) eqn:? in E;
      repeat (destruct (mmap_ok env _ _) eqn:? in E; [|by eauto]); discriminate.
Qed.

(** 4096-byte pages, the default threshold, and mappings that always succeed. *)
Definition linux_env : Env := mkEnv 4096 65536 (fun _ _ => true).

Lemma SetShadow_is_memset_witness :
  match SetShadow linux_x86_64 linux_env 1 (fun _ => 255) 0x700000000123 200000 0 with
  | Done m' => forall x, ~ origin_of_buffer linux_x86_64 1 0x700000000123 200000 x ->
      m' x = memset (fun _ => 255) 0x200000000123 0 200000 x
  | Died _ => exists beg len, mmap_ok linux_env beg len = false
  end.
Proof.
  apply (SetShadow_is_memset linux_x86_64 linux_env 12 1 (fun _ => 255) 0x700000000123 200000 0);
    try (reflexivity || lia || discriminate).
  intros _. split; [discriminate|]. split; [reflexivity|]. exists 0x100000000. reflexivity.
Defined.

(** for a non-empty buffer SetOrigin writes the origin into every four-byte
    slot the buffer touches and nothing else, through its 32-bit head and tail
    and its 64-bit middle. *)
Theorem SetOrigin_spec P m dst size origin y :
  0 <= origin < 2 ^ 32 -> 0 < size -> 0 <= MEM_TO_ORIGIN P dst ->
  MEM_TO_ORIGIN P dst + size + 11 < 2 ^ 64 ->
  let x := MEM_TO_ORIGIN P dst in
  SetOrigin P m dst size origin y =
  if (4 * (x / 4) <=? y) && (y <? 4 * ((x + size + 3) / 4))
  then origin_byte origin (y mod 4) else m y.
Proof.
  intros Ho Hs H0 Hr x. rewrite (SetOrigin_fill P m dst size origin Ho Hs H0 Hr y).
  fold x. rewrite !align4_div by (unfold x; lia). unfold fill_origin.
  case_match; [|done]. f_equal. rewrite <- (Z.mod_add (y - _) (x / 4) 4) by lia. f_equal. lia.
Qed.

Lemma SetOrigin_spec_witness :
  load32 (SetOrigin linux_x86_64 (fun _ => 0) 0x700000000005 3 0x89abcdef) 0x300000000004
    = 0x89abcdef /\
  SetOrigin linux_x86_64 (fun _ => 0) 0x700000000005 3 0x89abcdef 0x300000000008 = 0.
Proof.
  split; [reflexivity|].
  exact (SetOrigin_spec linux_x86_64 (fun _ => 0) 0x700000000005 3 0x89abcdef 0x300000000008
           ltac:(lia) ltac:(lia) ltac:(done) ltac:(reflexivity)).
Defined.

(** for an empty buffer whose origin is at an odd multiple of four, SetOrigin
    still overwrites two origin words: the one at the buffer and the one before
    it, which belong to other memory. *)
Theorem SetOrigin_empty_overwrites P m dst q :
  MEM_TO_ORIGIN P dst = 8 * q + 4 -> 0 <= q -> 8 * q + 20 < 2 ^ 64 ->
  let m' := SetOrigin P m dst 0 0x11111111 in
  load32 m' (8 * q + 4) = 0x11111111 /\ load32 m' (8 * q) = 0x11111111.
Proof.
  intros Hx Hq Hr m'. subst m'. unfold SetOrigin. rewrite Hx.
  rewrite (u64_small (8 * q + 4 + 0 + 3)) by lia. rewrite !align4_div by lia.
  assert (4 * ((8 * q + 4 + 0 + 3) / 4) = 8 * q + 4) as -> by (Z.div_mod_to_equations; lia).
  assert (4 * ((8 * q + 4) / 4) = 8 * q + 4) as -> by (Z.div_mod_to_equations; lia).
  unfold align8. change (not64 7) with (not64 (2 ^ 3 - 1)). rewrite (land_not64_pow2 _ 3) by lia.
  change (2 ^ 3) with 8. rewrite !land7.
  assert ((8 * q + 4) mod 8 =? 0 = false) as -> by (apply Z.eqb_neq; Z.div_mod_to_equations; lia).
  cbn [negb]. rewrite (u64_small (8 * q + 4 + 4)), (u64_small (8 * q + 4 - 4)) by lia.
  assert ((8 * ((8 * q + 4) / 8) - (8 * q + 4 + 4) + 7) / 8 = -1) as ->
    by (Z.div_mod_to_equations; lia).
  change (zrange (-1)) with (@nil Z). cbn [fold_left].
  replace (8 * q + 4 - 4) with (8 * q) by lia. split.
  - unfold store32 at 1. rewrite load32_store_other by lia. by apply load_store32.
  - by apply load_store32.
Qed.

Lemma SetOrigin_empty_overwrites_witness :
  load32 (SetOrigin linux_x86_64 (fun _ => 0) 0x700000000004 0 0x11111111) 0x300000000000
    = 0x11111111.
Proof.
  exact (proj2 (SetOrigin_empty_overwrites linux_x86_64 (fun _ => 0) 0x700000000004 0x60000000000
           eq_refl ltac:(lia) ltac:(lia))).
Defined.

(** moving a buffer forward onto itself does not move the origin of its last
    word: with origins tracked (level 1) and 4-byte aligned, overlapping ranges,
    the origin of the last word of the destination stays what it was, whereas the
    copy of two disjoint ranges transfers every word. *)
Theorem MoveOrigin_overlap_drops_last_word :
  let src := 0x700000000000 in
  let o := 0x300000000000 in
  let m := store32 (store32 (store32 (fun _ => 0) o 11) (o + 4) 22) (o + 8) 33 in
  let moved := (MoveOrigin linux_x86_64 (fun d x => (x, d)) 1 (m, tt) (src + 4) src 8).1 in
  let copied := (MoveOrigin linux_x86_64 (fun d x => (x, d)) 1 (m, tt) (src + 64) src 8).1 in
  load32 moved (o + 4) = 11 /\ load32 moved (o + 8) = 33 /\
  load32 copied (o + 64) = 11 /\ load32 copied (o + 68) = 22.
Proof. vm_compute. auto. Qed.
