(* ===== verification/StackTrace.v ===== *)
(** * StackTrace: capturing the call stack at a use of uninitialised memory

    [sanitizer_stacktrace.h], [sanitizer_stacktrace.cpp],
    [sanitizer_stacktrace_libcdep.cpp] (the dispatcher),
    [sanitizer_unwind_linux_libcdep.cpp] (the slow unwinder around libunwind) and
    [BufferedStackTrace::UnwindImpl] of [cqmsan.cpp], for the x86_64 target.  A
    trace is the list of the first [size] cells of [trace_buffer]. *)

From S2P Require Import Prelude Common Memory.

Definition kStackTraceMax : Z := 255.
Definition SANITIZER_CAN_FAST_UNWIND : bool := true.
Definition SANITIZER_CAN_SLOW_UNWIND : bool := true.

Definition WillUseFastUnwind (request_fast_unwind : bool) : bool :=
  if negb SANITIZER_CAN_FAST_UNWIND then false else
  if negb SANITIZER_CAN_SLOW_UNWIND then true else request_fast_unwind.

Definition GetPreviousInstructionPc (pc : Z) : Z := pc -64 1.
Definition GetNextInstructionPc (pc : Z) : Z := pc +64 1.

Definition kFrameSize : Z := 2 * 8.

Definition IsValidFrame (frame stack_top stack_bottom : Z) : bool :=
  (stack_bottom <? frame) && (frame <? stack_top -64 kFrameSize).

Definition GetCanonicFrame (bp stack_top stack_bottom : Z) : outcome Z :=
  _ ← check (stack_bottom <? stack_top) "CHECK_GT(stack_top, stack_bottom)";
  mret bp.

(** ** The frame-pointer unwinder *)

Section fast.
Context (m : mem) (kPageSize stack_top max_depth pc : Z).

(** The loop of UnwindFast; [None] when the fuel ends first. *)
Fixpoint unwind_fast_loop (fuel : nat) (frame bottom : Z) (trace : list Z)
    : option (outcome (list Z)) :=
  match fuel with
  | O => None
  | S f =>
      if IsValidFrame frame stack_top bottom && IsAligned frame 8 &&
         (Z.of_nat (length trace) <? max_depth) then
        let pc1 := load64 m (frame + 8) in
        if pc1 <? kPageSize then Some (mret trace) else
        let trace := if negb (pc1 =? pc) then trace ++ [pc1] else trace in
        let bottom := frame in
        let new_bp := load64 m frame in
        match GetCanonicFrame new_bp stack_top bottom with
        | Done frame => unwind_fast_loop f frame bottom trace
        | Died w => Some (Died w)
        end
      else Some (mret trace)
  end.

Definition UnwindFast (fuel : nat) (bp stack_bottom : Z) : option (outcome (list Z)) :=
  match check (2 <=? max_depth) "CHECK_GE(max_depth, 2)" with
  | Died w => Some (Died w)
  | Done _ =>
      if stack_top <? 4096 then Some (mret [pc]) else
      match GetCanonicFrame bp stack_top stack_bottom with
      | Died w => Some (Died w)
      | Done frame => unwind_fast_loop fuel frame stack_bottom [pc]
      end
  end.
End fast.

(** ** Trimming a trace *)

Definition PopStackFrames (count : Z) (trace : list Z) : outcome (list Z) :=
  _ ← check (count <? Z.of_nat (length trace)) "CHECK_LT(count, size)";
  mret (drop (Z.to_nat count) trace).

Definition Distance (a b : Z) : Z := if a <? b then b - a else a - b.

(** [best] and the distance of its frame, over the frames left. *)
Definition LocatePcInTrace (pc : Z) (trace : list Z) : Z :=
  fold_left (fun best i =>
    if Distance (nth (Z.to_nat i) trace 0) pc <? Distance (nth (Z.to_nat best) trace 0) pc
    then i else best)
    (map (Z.add 1) (zrange (Z.of_nat (length trace) - 1))) 0.

(** ** The slow unwinder

    [_Unwind_Backtrace] calls [Unwind_Trace] once per frame until it answers
    [UNWIND_STOP]: [ips] are the instruction pointers it would offer. *)

Fixpoint Unwind_Trace (kPageSize max_depth : Z) (ips trace : list Z) : outcome (list Z) :=
  match ips with
  | [] => mret trace
  | pc :: ips' =>
      _ ← check (Z.of_nat (length trace) <? max_depth) "CHECK_LT(size, max_depth)";
      if pc <? kPageSize then mret trace else
      let trace := trace ++ [pc] in
      if Z.of_nat (length trace) =? max_depth then mret trace
      else Unwind_Trace kPageSize max_depth ips' trace
  end.

Definition UnwindSlow (kPageSize : Z) (ips : list Z) (pc max_depth : Z) : outcome (list Z) :=
  _ ← check (2 <=? max_depth) "CHECK_GE(max_depth, 2)";
  trace ← Unwind_Trace kPageSize (Min (u32 (max_depth + 1)) kStackTraceMax) ips [];
  let to_pop := LocatePcInTrace pc trace in
  let to_pop := if (to_pop =? 0) && (1 <? Z.of_nat (length trace)) then 1 else to_pop in
  trace ← PopStackFrames to_pop trace;
  mret (match trace with [] => [] | _ :: t => pc :: t end).

(** ** The dispatchers *)

Section unwind.
Context (m : mem) (kPageSize : Z) (ips : list Z) (fuel : nat).

Definition BufferedStackTrace_Unwind (max_depth pc bp stack_top stack_bottom : Z)
    (request_fast_unwind : bool) : option (outcome (list Z)) :=
  if negb (eqb request_fast_unwind (WillUseFastUnwind request_fast_unwind))
  then Some (Died "CHECK_EQ(request_fast_unwind, WillUseFastUnwind)") else
  if max_depth =? 0 then Some (mret []) else
  if max_depth =? 1 then Some (mret [pc]) else
  if negb (WillUseFastUnwind request_fast_unwind) then
    match UnwindSlow kPageSize ips pc max_depth with
    | Died w => Some (Died w)
    | Done trace =>
        if (2 <? Z.of_nat (length trace)) || (max_depth <=? Z.of_nat (length trace))
        then Some (mret trace)
        else UnwindFast m kPageSize stack_top max_depth pc fuel bp stack_bottom
    end
  else UnwindFast m kPageSize stack_top max_depth pc fuel bp stack_bottom.

(** [thread] holds the stack bounds of the current thread, when there is one. *)
Definition UnwindImpl (thread : option (Z * Z)) (pc bp : Z) (request_fast : bool)
    (max_depth : Z) : option (outcome (list Z)) :=
  let slow := BufferedStackTrace_Unwind max_depth pc bp
                (match thread with Some (_, top) => top | None => 0 end)
                (match thread with Some (bottom, _) => bottom | None => 0 end) false in
  match thread with
  | None => slow
  | Some (bottom, top) =>
      if negb (WillUseFastUnwind request_fast) then slow
      else BufferedStackTrace_Unwind max_depth pc bp top bottom true
  end.

(** The inline entry point, with its shortcut for small depths. *)
Definition Unwind (thread : option (Z * Z)) (pc bp : Z) (request_fast : bool) (max_depth : Z)
    : option (outcome (list Z)) :=
  if max_depth <=? 1 then
    Some (mret (if max_depth =? 1 then [pc] else []))
  else UnwindImpl thread pc bp request_fast max_depth.

(** GET_UMR_MAP_STACK_TRACE_PC_BP: the trace the feedback map is updated with. *)
Definition umr_map_depth (umr_unwind_depth : Z) : Z :=
  if 0 <? umr_unwind_depth then u32 umr_unwind_depth else kStackTraceMax.

Definition GET_UMR_MAP_STACK_TRACE_PC_BP (cqmsan_inited umr_fast_unwind : bool)
    (umr_unwind_depth : Z) (thread : option (Z * Z)) (pc bp : Z) : option (outcome (list Z)) :=
  if cqmsan_inited
  then Unwind thread pc bp umr_fast_unwind (umr_map_depth umr_unwind_depth)
  else Some (mret []).
End unwind.

(** ** Lemmas *)

(** What every trace of the fast unwinder looks like. *)
Definition trace_ok (kPageSize max_depth pc : Z) (trace : list Z) : Prop :=
  (exists t, trace = pc :: t /\ Forall (fun q => kPageSize <= q /\ q <> pc) t) /\
  Z.of_nat (length trace) <= max_depth.

Section fast_lemmas.
Context (m : mem) (kPageSize stack_top max_depth pc : Z) (Hm : bytes_ok m).
Context (Htop : 4096 <= stack_top < 2 ^ 64).

Lemma IsValidFrame_spec frame bottom :
  IsValidFrame frame stack_top bottom = true <-> bottom < frame < stack_top - 16.
Proof.
  unfold IsValidFrame, kFrameSize. rewrite u64_small by lia.
  rewrite andb_true_iff, !Z.ltb_lt. lia.
Qed.

(** The frames climb: a walk is over after as many steps as there are words
    above the first frame, and then more fuel changes nothing. *)
Lemma unwind_fast_loop_total fuel frame bottom trace :
  0 <= bottom < stack_top -> (Z.to_nat (stack_top - bottom) < fuel)%nat ->
  trace_ok kPageSize max_depth pc trace ->
  exists r, unwind_fast_loop m kPageSize stack_top max_depth pc fuel frame bottom trace
            = Some (Done r) /\ trace_ok kPageSize max_depth pc r /\ trace `prefix_of` r.
Proof.
  revert frame bottom trace. induction fuel as [|f IH]; intros frame bottom trace Hb Hf Hok; [lia|].
  cbn [unwind_fast_loop].
  destruct (IsValidFrame frame stack_top bottom && IsAligned frame 8 && _) eqn:E;
    [|by exists trace].
  rewrite !andb_true_iff, IsValidFrame_spec, Z.ltb_lt in E. destruct E as [[Hv _] Hlen].
  set (pc1 := load64 m (frame + 8)). destruct (Z.ltb_spec pc1 kPageSize) as [|Hpage]; [by exists trace|].
  unfold GetCanonicFrame. rewrite (proj2 (Z.ltb_lt frame stack_top)) by lia.
  cbn [check mbind outcome_bind mret outcome_ret].
  destruct (Z.eqb_spec pc1 pc) as [->|Hne]; cbn [negb].
  - apply IH; [lia|lia|done].
  - destruct (IH (load64 m frame) frame (trace ++ [pc1])) as (r & -> & Hr & Hpre); [lia|lia| |].
    + destruct Hok as ((t & -> & Ht) & _). split.
      * exists (t ++ [pc1]). split; [done|]. apply Forall_app. split; [done|].
        by repeat constructor.
      * rewrite length_app. cbn [length] in *. lia.
    + exists r. repeat split; try apply Hr. etrans; [by apply prefix_app_r|done].
Qed.
End fast_lemmas.

(** ** Properties *)

Lemma UnwindFast_total_aux m kPageSize stack_top max_depth pc fuel bp stack_bottom :
  4096 <= stack_top < 2 ^ 64 -> 0 <= stack_bottom < stack_top -> 2 <= max_depth ->
  (Z.to_nat (stack_top - stack_bottom) < fuel)%nat ->
  exists r, UnwindFast m kPageSize stack_top max_depth pc fuel bp stack_bottom = Some (Done r) /\
            trace_ok kPageSize max_depth pc r.
Proof.
  intros Htop Hb Hd Hf. unfold UnwindFast, GetCanonicFrame.
  rewrite (proj2 (Z.leb_le 2 max_depth)), (proj2 (Z.ltb_ge stack_top 4096)),
    (proj2 (Z.ltb_lt stack_bottom stack_top)) by lia.
  cbn [check mbind outcome_bind mret outcome_ret].
  destruct (unwind_fast_loop_total m kPageSize stack_top max_depth pc Htop fuel bp
    stack_bottom [pc]) as (r & -> & Hr & _); [done|done| |by exists r].
  split; [by exists []|]. cbn. lia.
Qed.

(** the frame-pointer unwinder terminates on every stack content and its
    trace is well formed: it starts at the given pc, has at most [max_depth]
    entries, and every other entry is a plausible return address different from
    the first.  The fuel needed is the size of the stack. *)
Theorem UnwindFast_total m kPageSize stack_top max_depth pc fuel bp stack_bottom :
  4096 <= stack_top < 2 ^ 64 -> 0 <= stack_bottom < stack_top -> 2 <= max_depth ->
  (Z.to_nat (stack_top - stack_bottom) < fuel)%nat ->
  exists r, UnwindFast m kPageSize stack_top max_depth pc fuel bp stack_bottom = Some (Done r) /\
            trace_ok kPageSize max_depth pc r.
Proof. apply UnwindFast_total_aux. Qed.

(** A stack of frames 16 bytes apart, each holding the next frame and a pc. *)
Definition ladder (base a : Z) : Z :=
  let w := (a - base) / 16 in
  let v := if (a - base) mod 16 <? 8 then base + 16 * (w + 1) else 0x400000 + w in
  u8 (Z.shiftr v (8 * (a mod 8))).

Lemma UnwindFast_total_witness :
  exists r, UnwindFast (ladder 8192) 4096 8272 5 77 100 8192 8184 = Some (Done r) /\
            trace_ok 4096 5 77 r.
Proof. apply UnwindFast_total; try lia. Defined.

(** the trace buffer has 255 cells and the flag that bounds the unwinding of
    the feedback path is not bounded itself: with umr_unwind_depth = 300 there is
    a stack on which the unwinder writes 300 cells.  Every depth the flag can
    express below that size is safe. *)
Theorem umr_unwind_depth_overflows :
  (exists r, GET_UMR_MAP_STACK_TRACE_PC_BP (ladder 8192) 4096 [] 6000 true true 300
      (Some (8184, 8192 + 16 * 310)) 77 8192 = Some (Done r) /\
    kStackTraceMax < Z.of_nat (length r)) /\
  (forall m ips fuel depth bottom top pc bp r,
    4096 <= top < 2 ^ 64 -> 0 <= bottom < top -> (Z.to_nat (top - bottom) < fuel)%nat ->
    depth <= kStackTraceMax ->
    GET_UMR_MAP_STACK_TRACE_PC_BP m 4096 ips fuel true true depth (Some (bottom, top)) pc bp
      = Some (Done r) ->
    Z.of_nat (length r) <= kStackTraceMax).
Proof.
  split.
  - eexists. split; [vm_compute; reflexivity|]. vm_compute. reflexivity.
  - intros m ips fuel depth bottom top pc bp r Htop Hb Hf Hd H.
    unfold GET_UMR_MAP_STACK_TRACE_PC_BP, Unwind, UnwindImpl, BufferedStackTrace_Unwind in H.
    assert (0 < umr_map_depth depth <= kStackTraceMax) as Hr.
    { unfold umr_map_depth, kStackTraceMax in *. zcase; [rewrite u32_small|]; lia. }
    unfold kStackTraceMax in *. cbn [WillUseFastUnwind negb eqb
      SANITIZER_CAN_FAST_UNWIND SANITIZER_CAN_SLOW_UNWIND] in H.
    destruct (Z.leb_spec (umr_map_depth depth) 1).
    + destruct (_ =? 1) in H; injection H as <-; cbn; lia.
    + rewrite !(proj2 (Z.eqb_neq _ _)) in H by lia.
      destruct (UnwindFast_total_aux m 4096 top (umr_map_depth depth) pc fuel bp bottom)
        as (r' & Hr' & _ & Hlen); [done|done|lia|done|].
      rewrite Hr' in H. injection H as <-. lia.
Qed.
