(* ===== verification/UmrMap.v ===== *)
(** * UmrMap: the feedback a use of uninitialised memory leaves for the fuzzer

    The part of [cqmsan.cpp] between a fired check and the fuzzer: the 64 KiB map
    shared with afl-fuzz ([cqmsan_update_map], [cqmsan_update_map_pc],
    [cqmsan_site_known]), the warning entry points the instrumentation calls, and
    the attachment to the shared memory.

    The stack a handler captures is given by [capture pc], which the interface
    [Unwinder] describes: the caller's pc comes first.  [StackTrace] implements
    it. *)

From S2P Require Import Prelude Memory StackTrace.

(** ** State *)

Definition MAP_SIZE : Z := 2 ^ 16.

Definition CQMSAN_AFL_CLEAN : Z := 1.
Definition CQMSAN_AFL_ERROR : Z := 2.
Definition CQMSAN_AFL_MEMORY : Z := 4.
Definition CQMSAN_AFL_PC_EDGE : Z := 8.
Definition CQMSAN_AFL_CS : Z := 16.
Definition CQMSAN_AFL_CS_EDGE : Z := 32.

(** The flags of [cqmsan_flags.inc] the handlers read. *)
Record Flags := mkFlags {
  report_umrs : bool;
  halt_on_error : bool;
  skip_known_sites : bool;
  print_stats : bool
}.

Record Umr := mkUmr {
  area : Z -> Z;                    (* cqmsan_area_ptr[0 .. MAP_SIZE-1] *)
  last_edge : Z;
  last_cs_edge : Z;
  cqmsan_report_count : Z;
  cqmsan_expect_umr : bool;
  cqmsan_expected_umr_found : bool;
  cqmsan_origin_tls : Z
}.

Definition set_area (u : Umr) (a : Z -> Z) : Umr :=
  mkUmr a (last_edge u) (last_cs_edge u) (cqmsan_report_count u) (cqmsan_expect_umr u)
    (cqmsan_expected_umr_found u) (cqmsan_origin_tls u).
Definition set_edges (u : Umr) (e cs : Z) : Umr :=
  mkUmr (area u) e cs (cqmsan_report_count u) (cqmsan_expect_umr u)
    (cqmsan_expected_umr_found u) (cqmsan_origin_tls u).
Definition count_report (u : Umr) : Umr :=
  mkUmr (area u) (last_edge u) (last_cs_edge u) (cqmsan_report_count u + 1)
    (cqmsan_expect_umr u) (cqmsan_expected_umr_found u) (cqmsan_origin_tls u).
Definition set_expected (u : Umr) (expect found : bool) (origin : Z) : Umr :=
  mkUmr (area u) (last_edge u) (last_cs_edge u) (cqmsan_report_count u) expect found origin.

(** [area[i] |= b] and [area[i] = b]. *)
Definition area_or (a : Z -> Z) (i b : Z) : Z -> Z :=
  fun j => if j =? i then Z.lor (a i) b else a j.
Definition area_set (a : Z -> Z) (i b : Z) : Z -> Z :=
  fun j => if j =? i then b else a j.

(** ** The map *)

Definition callstack_hash (stack : list Z) : Z :=
  fold_left (fun h q => Z.lxor h (GetPreviousInstructionPc q)) stack 0.

Definition cqmsan_update_map (stack : list Z) (u : Umr) : Umr :=
  match stack with
  | [] => u
  | top :: _ =>
      let pc := GetPreviousInstructionPc top in
      let hash := callstack_hash stack in
      let idx := u32 (Z.lxor hash (Z.shiftr (last_cs_edge u) 1) mod MAP_SIZE) in
      let last_cs_edge := hash in
      let a := area_or (area u) (pc mod MAP_SIZE) CQMSAN_AFL_ERROR in
      let a := area_or a (Z.lxor (Z.shiftr (last_edge u) 1) pc mod MAP_SIZE) CQMSAN_AFL_PC_EDGE in
      let last_edge := pc in
      let a := area_or a (hash mod MAP_SIZE) CQMSAN_AFL_CS in
      let a := area_or a idx CQMSAN_AFL_CS_EDGE in
      let a := area_set a (MAP_SIZE - 1) 0xff in
      set_edges (set_area u a) last_edge last_cs_edge
  end.

Definition cqmsan_update_map_pc (pc : Z) (u : Umr) : Umr :=
  let a := area_or (area u) (pc mod MAP_SIZE) CQMSAN_AFL_ERROR in
  let a := area_or a (Z.lxor (Z.shiftr (last_edge u) 1) pc mod MAP_SIZE) CQMSAN_AFL_PC_EDGE in
  let a := area_set a (MAP_SIZE - 1) 0xff in
  set_edges (set_area u a) pc (last_cs_edge u).

Definition cqmsan_site_known (fl : Flags) (site_pc : Z) (u : Umr) : bool :=
  skip_known_sites fl && negb (Z.land (area u (site_pc mod MAP_SIZE)) CQMSAN_AFL_ERROR =? 0).

(** ** The warning handlers

    [capture] is the stack the handler unwinds for a caller at [pc].  A handler
    answers [Died] when it ends the process. *)

Class Unwinder (capture : Z -> list Z) : Prop :=
  capture_head pc : exists callers, capture pc = pc :: callers.

Section handlers.
Context (fl : Flags) (capture : Z -> list Z) (flip : bool).

(** CQMSAN_MAYBE_WARNING_TRIGGERED *)
Definition triggered (s : Z) : bool := if flip then s =? 0 else negb (s =? 0).

Definition die_if (b : bool) (u : Umr) : outcome Umr :=
  if b then Died "halt_on_error" else mret u.

Definition PrintWarningWithOrigin (pc origin : Z) (u : Umr) : Umr :=
  if cqmsan_expect_umr u then set_expected u (cqmsan_expect_umr u) true origin
  else cqmsan_update_map (capture pc) (count_report u).

Definition __cqmsan_maybe_warning (pc s o : Z) (u : Umr) : outcome Umr :=
  if triggered s then die_if (halt_on_error fl) (PrintWarningWithOrigin pc o u) else mret u.

Definition __cqmsan_warning (pc : Z) (u : Umr) : outcome Umr :=
  die_if (halt_on_error fl) (PrintWarningWithOrigin pc 0 u).

Definition __cqmsan_warning_noreturn (pc : Z) (u : Umr) : outcome Umr :=
  let u := PrintWarningWithOrigin pc 0 u in die_if true u.

Definition __cqmsan_warning_fast (pc : Z) (u : Umr) : outcome Umr :=
  let u := count_report u in
  let u := if negb (cqmsan_site_known fl (GetPreviousInstructionPc pc) u)
           then cqmsan_update_map (capture pc) u else u in
  die_if (halt_on_error fl) u.

Definition __cqmsan_maybe_warning_fast (pc s o : Z) (u : Umr) : outcome Umr :=
  if negb (triggered s) then mret u else
  let u := count_report u in
  let u := if negb (cqmsan_site_known fl (GetPreviousInstructionPc pc) u)
           then cqmsan_update_map (capture pc) u else u in
  die_if (halt_on_error fl) u.

Definition __cqmsan_warning_fast_pconly (pc : Z) (u : Umr) : outcome Umr :=
  let u := count_report u in
  let u := if negb (cqmsan_site_known fl pc u) then cqmsan_update_map_pc pc u else u in
  die_if (halt_on_error fl) u.

Definition __cqmsan_maybe_warning_fast_pconly (pc s o : Z) (u : Umr) : outcome Umr :=
  if negb (triggered s) then mret u else
  let u := count_report u in
  let u := if negb (cqmsan_site_known fl pc u) then cqmsan_update_map_pc pc u else u in
  die_if (halt_on_error fl) u.

Definition __cqmsan_warning_fast_noupdate (pc : Z) (u : Umr) : outcome Umr :=
  die_if (halt_on_error fl) (count_report u).

Definition __cqmsan_maybe_warning_fast_noupdate (pc s o : Z) (u : Umr) : outcome Umr :=
  if negb (triggered s) then mret u else die_if (halt_on_error fl) (count_report u).

Definition __cqmsan_set_expect_umr (expect_umr : bool) (u : Umr) : outcome Umr :=
  if expect_umr then mret (set_expected u true false (cqmsan_origin_tls u))
  else if negb (cqmsan_expected_umr_found u) then Died "ReportExpectedUMRNotFound"
  else mret (set_expected u false (cqmsan_expected_umr_found u) (cqmsan_origin_tls u)).
End handlers.

Definition __cqmsan_set_keep_going (keep_going : bool) (fl : Flags) : Flags :=
  mkFlags (report_umrs fl) (negb keep_going) (skip_known_sites fl) (print_stats fl).

(** ** Attaching to the fuzzer's shared memory

    What the environment holds, the number [atoi] reads from the id, and the
    bytes [shmat] attaches, when it succeeds. *)

Record AflEnv := mkAflEnv {
  env_require_shm : bool;            (* CQMSAN_REQUIRE_AFL_SHM is set *)
  env_shm_id : option Z;             (* atoi of __MSAN_AFL_SHM_ID *)
  env_afl_inst_ratio : bool;         (* AFL_INST_RATIO is set *)
  shmat : Z -> option (Z -> Z)
}.

Definition cqmsan_attach_afl_shm (env : AflEnv) (u : Umr) : outcome Umr :=
  match env_shm_id env with
  | None => if env_require_shm env then Died "no shm id" else mret u
  | Some msid =>
      if msid <=? 0 then
        if env_require_shm env then Died "invalid shm id" else mret u
      else
        match shmat env msid with
        | None => Died "shmat"
        | Some p =>
            mret (set_area u (if env_afl_inst_ratio env then area_set p 0 1 else p))
        end
  end.

(** ** Lemmas *)

Lemma area_or_spec a i b j : area_or a i b j = if j =? i then Z.lor (a j) b else a j.
Proof. unfold area_or. by destruct (Z.eqb_spec j i) as [->|]. Qed.

(** [b] keeps every bit of [a]. *)
Definition keeps (a b : Z) : Prop := Z.land a b = a.

Lemma keeps_bits a b : keeps a b <-> forall i, 0 <= i -> Z.testbit a i = true -> Z.testbit b i = true.
Proof.
  unfold keeps. split.
  - intros H i Hi Ha. rewrite <- H, Z.land_spec in Ha. by apply andb_true_iff in Ha as [_ Ha].
  - intros H. apply Z.bits_inj'. intros i Hi. rewrite Z.land_spec.
    destruct (Z.testbit a i) eqn:E; [by rewrite H|done].
Qed.

Lemma keeps_refl a : keeps a a.
Proof. apply Z.land_diag. Qed.

Lemma keeps_trans a b c : keeps a b -> keeps b c -> keeps a c.
Proof. rewrite !keeps_bits. eauto. Qed.

Lemma keeps_lor a b : keeps a (Z.lor a b).
Proof. apply keeps_bits. intros i _ H. by rewrite Z.lor_spec, H. Qed.

Lemma keeps_ff a : 0 <= a < 256 -> keeps a 0xff.
Proof. intros Ha. unfold keeps. change 0xff with (Z.ones 8). rewrite Z.land_ones by lia. apply Z.mod_small. lia. Qed.

#[export] Hint Resolve keeps_refl keeps_lor keeps_ff : cq.

Definition area_bytes (a : Z -> Z) : Prop := forall i, 0 <= a i < 256.

Lemma lor_byte a b : 0 <= a < 256 -> 0 <= b < 256 -> 0 <= Z.lor a b < 256.
Proof.
  intros Ha Hb. assert (0 <= Z.lor a b) as H0 by (apply Z.lor_nonneg; lia). split; [done|].
  assert (Z.lor a b / 2 ^ 8 = 0) as H.
  { rewrite <- Z.shiftr_div_pow2, Z.shiftr_lor, !Z.shiftr_div_pow2, !Z.div_small by lia. done. }
  apply Z.div_small_iff in H; lia.
Qed.

Lemma area_or_bytes a i b : area_bytes a -> 0 <= b < 256 -> area_bytes (area_or a i b).
Proof. intros Ha Hb j. rewrite area_or_spec. case_match; [by apply lor_byte|apply Ha]. Qed.

Lemma area_set_bytes a i b : area_bytes a -> 0 <= b < 256 -> area_bytes (area_set a i b).
Proof. intros Ha Hb j. unfold area_set. by case_match. Qed.

Lemma area_or_keeps a i b j : keeps (a j) (area_or a i b j).
Proof. rewrite area_or_spec. case_match; auto with cq. Qed.

Lemma area_set_keeps a i j : area_bytes a -> keeps (a j) (area_set a i 0xff j).
Proof. intros Ha. unfold area_set. case_match; auto with cq. Qed.

#[export] Hint Resolve area_or_bytes area_set_bytes area_or_keeps area_set_keeps : cq.

(** The map only gains bits, and keeps holding bytes. *)
Definition map_step (u u' : Umr) : Prop :=
  area_bytes (area u) -> area_bytes (area u') /\ forall i, keeps (area u i) (area u' i).

Lemma update_map_step stack u : map_step u (cqmsan_update_map stack u).
Proof.
  intros Hu. destruct stack as [|top callers]; cbn [cqmsan_update_map]; [split; auto with cq|].
  cbn [area set_edges set_area]. unfold CQMSAN_AFL_ERROR, CQMSAN_AFL_PC_EDGE, CQMSAN_AFL_CS,
    CQMSAN_AFL_CS_EDGE. split.
  - repeat (apply area_or_bytes || apply area_set_bytes); (done || lia).
  - intros i. eapply keeps_trans; [|apply area_set_keeps;
      repeat apply area_or_bytes; (done || lia)].
    repeat (eapply keeps_trans; [|apply area_or_keeps]). apply keeps_refl.
Qed.

Lemma update_map_pc_step pc u : map_step u (cqmsan_update_map_pc pc u).
Proof.
  intros Hu. cbn [cqmsan_update_map_pc area set_edges set_area].
  unfold CQMSAN_AFL_ERROR, CQMSAN_AFL_PC_EDGE. split.
  - repeat (apply area_or_bytes || apply area_set_bytes); (done || lia).
  - intros i. eapply keeps_trans; [|apply area_set_keeps;
      repeat apply area_or_bytes; (done || lia)].
    repeat (eapply keeps_trans; [|apply area_or_keeps]). apply keeps_refl.
Qed.

(** What was reported stays known. *)
Lemma site_known_mono fl pc u u' :
  area_bytes (area u) -> map_step u u' ->
  cqmsan_site_known fl pc u = true -> cqmsan_site_known fl pc u' = true.
Proof.
  intros Hu Hs. destruct (Hs Hu) as [_ Hk]. unfold cqmsan_site_known, CQMSAN_AFL_ERROR.
  rewrite !andb_true_iff, !negb_true_iff, !Z.eqb_neq. intros [Hsk Hb]. split; [done|].
  intros H. apply Hb. specialize (Hk (pc mod MAP_SIZE)). rewrite keeps_bits in Hk.
  apply Z.bits_inj'. intros i Hi. rewrite Z.land_spec, Z.bits_0.
  destruct (Z.testbit (area u _) i) eqn:E; [|done]. cbn.
  apply (f_equal (fun x => Z.testbit x i)) in H. rewrite Z.land_spec, Z.bits_0, (Hk i Hi E) in H.
  done.
Qed.

(** The probe and the update use the same index. *)
Lemma ERROR_bit_set a : negb (Z.land (Z.lor a CQMSAN_AFL_ERROR) CQMSAN_AFL_ERROR =? 0) = true.
Proof.
  rewrite negb_true_iff, Z.eqb_neq. unfold CQMSAN_AFL_ERROR. intros H.
  apply (f_equal (fun x => Z.testbit x 1)) in H.
  by rewrite Z.land_spec, Z.lor_spec, orb_true_r in H.
Qed.


Lemma known_if_kept fl pc u a :
  skip_known_sites fl = true ->
  keeps (area_or (area u) (pc mod MAP_SIZE) CQMSAN_AFL_ERROR (pc mod MAP_SIZE)) (a (pc mod MAP_SIZE)) ->
  forall u', area u' = a -> cqmsan_site_known fl pc u' = true.
Proof.
  intros Hsk Hk u' <-. unfold cqmsan_site_known. rewrite Hsk, andb_true_l.
  rewrite area_or_spec, Z.eqb_refl in Hk.
  pose proof (ERROR_bit_set (area u (pc mod MAP_SIZE))) as Hb. revert Hk Hb.
  rewrite !negb_true_iff, !Z.eqb_neq, keeps_bits. unfold CQMSAN_AFL_ERROR. intros Hk Hb H. apply Hb.
  apply Z.bits_inj'. intros i Hi. rewrite Z.land_spec, Z.bits_0.
  destruct (Z.testbit (Z.lor _ 2) i) eqn:E; [|done]. cbn.
  apply (f_equal (fun x => Z.testbit x i)) in H. by rewrite Z.land_spec, Z.bits_0, (Hk i Hi E) in H.
Qed.

Lemma update_map_known fl pc callers u :
  skip_known_sites fl = true -> area_bytes (area u) ->
  cqmsan_site_known fl (GetPreviousInstructionPc pc) (cqmsan_update_map (pc :: callers) u) = true.
Proof.
  intros Hsk Hu. eapply known_if_kept with (u := u); [done| |reflexivity].
  cbn [cqmsan_update_map area set_edges set_area]. unfold CQMSAN_AFL_ERROR,
    CQMSAN_AFL_PC_EDGE, CQMSAN_AFL_CS, CQMSAN_AFL_CS_EDGE.
  eapply keeps_trans; [|apply area_set_keeps; repeat apply area_or_bytes; (done || lia)].
  do 3 (eapply keeps_trans; [|apply area_or_keeps]). apply keeps_refl.
Qed.

Lemma update_map_pc_known fl pc u :
  skip_known_sites fl = true -> area_bytes (area u) ->
  cqmsan_site_known fl pc (cqmsan_update_map_pc pc u) = true.
Proof.
  intros Hsk Hu. eapply known_if_kept with (u := u); [done| |reflexivity].
  cbn [cqmsan_update_map_pc area set_edges set_area]. unfold CQMSAN_AFL_ERROR, CQMSAN_AFL_PC_EDGE.
  eapply keeps_trans; [|apply area_set_keeps; repeat apply area_or_bytes; (done || lia)].
  eapply keeps_trans; [|apply area_or_keeps]. apply keeps_refl.
Qed.

(** ** The handlers as one step relation

    Everything the instrumented program can do to the map: a transition is one
    firing of one handler at one site. *)

Section steps.
Context (fl : Flags) (capture : Z -> list Z) (flip : bool).

Inductive fires : Umr -> Umr -> Prop :=
| fires_maybe pc s o u u' :
    __cqmsan_maybe_warning fl capture flip pc s o u = Done u' -> fires u u'
| fires_warning pc u u' : __cqmsan_warning fl capture pc u = Done u' -> fires u u'
| fires_fast pc u u' : __cqmsan_warning_fast fl capture pc u = Done u' -> fires u u'
| fires_maybe_fast pc s o u u' :
    __cqmsan_maybe_warning_fast fl capture flip pc s o u = Done u' -> fires u u'
| fires_pconly pc u u' : __cqmsan_warning_fast_pconly fl pc u = Done u' -> fires u u'
| fires_maybe_pconly pc s o u u' :
    __cqmsan_maybe_warning_fast_pconly fl flip pc s o u = Done u' -> fires u u'
| fires_noupdate pc u u' : __cqmsan_warning_fast_noupdate fl pc u = Done u' -> fires u u'
| fires_maybe_noupdate pc s o u u' :
    __cqmsan_maybe_warning_fast_noupdate fl flip pc s o u = Done u' -> fires u u'
| fires_expect b u u' : __cqmsan_set_expect_umr b u = Done u' -> fires u u'.

Lemma map_step_same u u' : area u' = area u -> map_step u u'.
Proof. intros E Hu. rewrite E. split; auto with cq. Qed.

Lemma die_if_done b u u' : die_if b u = Done u' -> u' = u.
Proof. unfold die_if. destruct b; intros H; by inv_done. Qed.

Lemma print_warning_step pc o u : map_step u (PrintWarningWithOrigin capture pc o u).
Proof.
  unfold PrintWarningWithOrigin. case_match; [by apply map_step_same|].
  exact (update_map_step (capture pc) (count_report u)).
Qed.

Lemma fires_step u u' : fires u u' -> map_step u u'.
Proof.
  assert (forall stack u0, map_step u0 (cqmsan_update_map stack (count_report u0))) as Hm
    by (intros; apply (update_map_step _ (count_report u0))).
  assert (forall pc u0, map_step u0 (cqmsan_update_map_pc pc (count_report u0))) as Hp
    by (intros; apply (update_map_pc_step _ (count_report u0))).
  destruct 1; unfold __cqmsan_maybe_warning, __cqmsan_warning, __cqmsan_warning_fast,
    __cqmsan_maybe_warning_fast, __cqmsan_warning_fast_pconly,
    __cqmsan_maybe_warning_fast_pconly, __cqmsan_warning_fast_noupdate,
    __cqmsan_maybe_warning_fast_noupdate, __cqmsan_set_expect_umr in *;
    repeat case_match; inv_done; try (by apply map_step_same);
    repeat match goal with H : die_if _ _ = Done _ |- _ => apply die_if_done in H as -> end;
    auto using print_warning_step; by apply map_step_same.
Qed.
End steps.

(** ** Properties *)


Definition umr0 : Umr := mkUmr (fun _ => 0) 0 0 0 false false 0.
Definition flags_skip : Flags := mkFlags true false true false.


(** the first firing of a site makes it known under the very index the probe
    looks at, so with skip_known_sites every later firing there (by the fast
    handlers) only counts: the map, the sentinel and the edges stay as they are. *)
Theorem second_firing_is_skipped fl capture pc u u1 :
  Unwinder capture -> skip_known_sites fl = true -> halt_on_error fl = false ->
  area_bytes (area u) -> __cqmsan_warning_fast fl capture pc u = Done u1 ->
  __cqmsan_warning_fast fl capture pc u1 = Done (count_report u1) /\
  cqmsan_site_known fl (GetPreviousInstructionPc pc) u1 = true.
Proof.
  intros Hcap Hsk Hh Hu H.
  assert (cqmsan_site_known fl (GetPreviousInstructionPc pc) u1 = true) as Hk.
  { unfold __cqmsan_warning_fast, die_if in H. rewrite Hh in H. inv_done.
    destruct (cqmsan_site_known fl (GetPreviousInstructionPc pc) (count_report u)) eqn:E; [done|].
    cbn [negb]. destruct (Hcap pc) as (callers & ->). by apply update_map_known. }
  split; [|done]. unfold __cqmsan_warning_fast, die_if.
  assert (cqmsan_site_known fl (GetPreviousInstructionPc pc) (count_report u1) = true) as ->
    by done.
  by rewrite Hh.
Qed.

Lemma second_firing_is_skipped_witness :
  exists u1, __cqmsan_warning_fast flags_skip (fun pc => [pc; 99]) 0x401000 umr0 = Done u1 /\
  __cqmsan_warning_fast flags_skip (fun pc => [pc; 99]) 0x401000 u1 = Done (count_report u1).
Proof.
  eexists. split; [reflexivity|].
  refine (proj1 (second_firing_is_skipped flags_skip (fun pc => [pc; 99]) 0x401000 umr0 _
    _ eq_refl eq_refl _ eq_refl)).
  - intros pc. by exists [99].
  - intros i. cbn. lia.
Defined.

(** the sentinel byte stands for a site too.  After any first report, every
    site whose index is the last byte of the map counts as known although it never
    fired, so that with skip_known_sites its first firing leaves no feedback. *)
Theorem sentinel_hides_a_site fl capture pc u pc' callers :
  skip_known_sites fl = true -> halt_on_error fl = false ->
  GetPreviousInstructionPc pc mod MAP_SIZE = MAP_SIZE - 1 ->
  let u1 := cqmsan_update_map (pc' :: callers) u in
  __cqmsan_warning_fast fl capture pc u1 = Done (count_report u1).
Proof.
  intros Hsk Hh Hpc u1. unfold __cqmsan_warning_fast, die_if.
  assert (cqmsan_site_known fl (GetPreviousInstructionPc pc) (count_report u1) = true) as ->;
    [|by rewrite Hh].
  unfold cqmsan_site_known. rewrite Hsk, Hpc. unfold u1.
  cbn [cqmsan_update_map area set_edges set_area count_report]. unfold area_set.
  by rewrite Z.eqb_refl.
Qed.

Lemma sentinel_hides_a_site_witness :
  let u1 := cqmsan_update_map [0x401000] umr0 in
  __cqmsan_warning_fast flags_skip (fun pc => [pc]) 0x420000 u1 = Done (count_report u1).
Proof. exact (sentinel_hides_a_site flags_skip _ 0x420000 umr0 0x401000 [] eq_refl eq_refl eq_refl). Defined.

(** *** The callstack context *)

Lemma callstack_hash_acc l h :
  fold_left (fun h q => Z.lxor h (GetPreviousInstructionPc q)) l h = Z.lxor h (callstack_hash l).
Proof.
  unfold callstack_hash. revert h. induction l as [|q l IH]; intros h; cbn [fold_left].
  - by rewrite Z.lxor_0_r.
  - rewrite IH, (IH (Z.lxor 0 _)), Z.lxor_0_l. by rewrite Z.lxor_assoc.
Qed.

Lemma callstack_hash_cons q l :
  callstack_hash (q :: l) = Z.lxor (GetPreviousInstructionPc q) (callstack_hash l).
Proof. unfold callstack_hash at 1. cbn [fold_left]. by rewrite callstack_hash_acc, Z.lxor_0_l. Qed.

Lemma callstack_hash_perm l1 l2 : l1 ≡ₚ l2 -> callstack_hash l1 = callstack_hash l2.
Proof.
  induction 1 as [|q l1 l2 _ IH|q1 q2 l|l1 l2 l3 _ IH1 _ IH2]; rewrite ?callstack_hash_cons.
  - done.
  - by rewrite IH.
  - rewrite <- !Z.lxor_assoc. f_equal. apply Z.lxor_comm.
  - by rewrite IH1.
Qed.

(** the callstack context is order-insensitive and self-cancelling: two stacks
    with the same top and the same callers in any order update the map in the same
    way, and so does a stack with a caller that occurs twice more, such as one
    more round of a two-frame recursion entered twice. *)
Theorem callstack_context_collides top callers callers' q u :
  callers ≡ₚ callers' ->
  cqmsan_update_map (top :: callers) u = cqmsan_update_map (top :: callers') u /\
  cqmsan_update_map (top :: q :: q :: callers) u = cqmsan_update_map (top :: callers) u.
Proof.
  intros Hp. assert (callstack_hash (top :: callers) = callstack_hash (top :: callers')) as E.
  { apply callstack_hash_perm. by constructor. }
  assert (callstack_hash (top :: q :: q :: callers) = callstack_hash (top :: callers)) as E2.
  { rewrite !callstack_hash_cons, <- (Z.lxor_assoc (GetPreviousInstructionPc q)).
    by rewrite Z.lxor_nilpotent, Z.lxor_0_l. }
  cbn [cqmsan_update_map]. split; [by rewrite E|by rewrite E2].
Qed.

Lemma callstack_context_collides_witness :
  cqmsan_update_map [1; 2; 3] umr0 = cqmsan_update_map [1; 3; 2] umr0.
Proof. apply (callstack_context_collides 1 [2; 3] [3; 2] 0 umr0). constructor. Defined.

(** the outlined checks agree with the inlined ones: called with the shadow of
    the value, each of the fast families behaves as its warning entry point when
    the shadow fires under the polarity in use, and does nothing otherwise. *)
Theorem outlined_checks_agree fl capture (flip : bool) pc s o u :
  let fires := if flip then s =? 0 else negb (s =? 0) in
  __cqmsan_maybe_warning_fast fl capture flip pc s o u
    = (if fires then __cqmsan_warning_fast fl capture pc u else Done u) /\
  __cqmsan_maybe_warning_fast_pconly fl flip pc s o u
    = (if fires then __cqmsan_warning_fast_pconly fl pc u else Done u) /\
  __cqmsan_maybe_warning_fast_noupdate fl flip pc s o u
    = (if fires then __cqmsan_warning_fast_noupdate fl pc u else Done u) /\
  (o = 0 -> __cqmsan_maybe_warning fl capture flip pc s o u
    = (if fires then __cqmsan_warning fl capture pc u else Done u)).
Proof.
  unfold __cqmsan_maybe_warning_fast, __cqmsan_maybe_warning_fast_pconly,
    __cqmsan_maybe_warning_fast_noupdate, __cqmsan_maybe_warning, triggered.
  cbv zeta. destruct (if flip then s =? 0 else negb (s =? 0)); cbn [negb];
    (split; [|split; [|split]]); try reflexivity; intros; subst; reflexivity.
Qed.

Lemma outlined_checks_agree_witness :
  __cqmsan_maybe_warning flags_skip (fun pc => [pc]) false 5 1 0 umr0
  = __cqmsan_warning flags_skip (fun pc => [pc]) 5 umr0.
Proof.
  exact (proj2 (proj2 (proj2 (outlined_checks_agree flags_skip (fun pc => [pc]) false 5 1 0 umr0)))
    eq_refl).
Defined.

(** ** The unwinder of the runtime implements the interface *)

Section captured.
Context (m : mem) (kPageSize : Z) (ips : list Z) (fuel : nat) (depth bottom top bp : Z).
Context (Htop : 4096 <= top < 2 ^ 64) (Hbot : 0 <= bottom < top).
Context (Hfuel : (Z.to_nat (top - bottom) < fuel)%nat) (Hdepth : depth < 2 ^ 32).

Definition captured_trace (r : option (outcome (list Z))) : list Z :=
  match r with Some (Done t) => t | _ => [] end.

Definition runtime_capture (pc : Z) : list Z :=
  captured_trace (GET_UMR_MAP_STACK_TRACE_PC_BP m kPageSize ips fuel true true depth
                    (Some (bottom, top)) pc bp).

#[local] Instance runtime_capture_unwinder : Unwinder runtime_capture.
Proof.
  intros pc. unfold runtime_capture, GET_UMR_MAP_STACK_TRACE_PC_BP, Unwind, UnwindImpl,
    BufferedStackTrace_Unwind.
  assert (0 < umr_map_depth depth) as Hd.
  { unfold umr_map_depth, kStackTraceMax. zcase; [rewrite u32_small|]; lia. }
  cbn [WillUseFastUnwind negb eqb SANITIZER_CAN_FAST_UNWIND SANITIZER_CAN_SLOW_UNWIND].
  destruct (Z.leb_spec (umr_map_depth depth) 1).
  - replace (umr_map_depth depth) with 1 by lia. by exists [].
  - rewrite !(proj2 (Z.eqb_neq _ _)) by lia.
    destruct (UnwindFast_total_aux m kPageSize top (umr_map_depth depth) pc fuel bp bottom)
      as (r & -> & (t & -> & _) & _); [done|done|lia|done|]. by exists t.
Qed.
End captured.
#[export] Existing Instance runtime_capture_unwinder.
