(* ===== verification/Interface.v ===== *)
(** * Interface: the calls of the instrumented program

    The entry points the compiler pass and the interceptors call on shadow
    memory: [cqmsan_interceptors.cpp] (the [__cqmsan_*] functions at its end and
    the [CHECK_UNPOISONED] macros at its start) and the interface part of
    [cqmsan.cpp].  The handlers run in a state monad over the runtime's state;
    a process that dies has no state after it. *)

From S2P Require Import Prelude Common Memory Libc Layout Poisoning UmrMap.

(** ** State *)

(** The thread-local shadow of arguments and results: byte arrays of 800 cells. *)
Record Tls := mkTls {
  param_tls : mem;
  retval_tls : mem;
  va_arg_tls : mem;
  va_arg_origin_tls : mem;
  va_arg_overflow_size_tls : Z
}.

Definition kCQMsanParamTlsSize : Z := 800.
Definition kCQMsanRetvalTlsSize : Z := 800.

Record Rt := mkRt {
  rt_mem : mem;
  rt_tls : Tls;
  rt_umr : Umr;
  cqmsan_inited : bool;
  cqmsan_init_is_running : bool;
  is_in_symbolizer_or_unwinder : Z;
  in_interceptor_scope : Z
}.

Definition set_mem (m : mem) (r : Rt) : Rt :=
  mkRt m (rt_tls r) (rt_umr r) (cqmsan_inited r) (cqmsan_init_is_running r)
    (is_in_symbolizer_or_unwinder r) (in_interceptor_scope r).
Definition set_tls (t : Tls) (r : Rt) : Rt :=
  mkRt (rt_mem r) t (rt_umr r) (cqmsan_inited r) (cqmsan_init_is_running r)
    (is_in_symbolizer_or_unwinder r) (in_interceptor_scope r).
Definition set_umr (u : Umr) (r : Rt) : Rt :=
  mkRt (rt_mem r) (rt_tls r) u (cqmsan_inited r) (cqmsan_init_is_running r)
    (is_in_symbolizer_or_unwinder r) (in_interceptor_scope r).
Definition set_scope (n : Z) (r : Rt) : Rt :=
  mkRt (rt_mem r) (rt_tls r) (rt_umr r) (cqmsan_inited r) (cqmsan_init_is_running r)
    (is_in_symbolizer_or_unwinder r) n.

(** ** The monad *)

Definition M (A : Type) : Type := Rt -> outcome (A * Rt).

#[export] Instance M_ret : MRet M := fun A a r => Done (a, r).
#[export] Instance M_bind : MBind M := fun A B f m r =>
  match m r with Done (a, r') => f a r' | Died w => Died w end.

Definition get : M Rt := fun r => Done (r, r).
Definition modify (f : Rt -> Rt) : M unit := fun r => Done (tt, f r).
Definition modify_tls (f : Tls -> Tls) : M unit := modify (fun r => set_tls (f (rt_tls r)) r).
Definition CHECK (b : bool) (why : string) : M unit :=
  fun r => if b then Done (tt, r) else Died why.
Definition lift {A} (o : outcome A) : M A :=
  fun r => match o with Done a => Done (a, r) | Died w => Died w end.
Definition when (b : bool) (m : M unit) : M unit := if b then m else mret tt.

(** A call of the C library on the process's memory, with its result. *)
Definition REAL {A} (f : mem -> A * mem) : M A :=
  fun r => Done (let '(a, m') := f (rt_mem r) in (a, set_mem m' r)).

(** The common flags the calls read. *)
Record CommonFlags := mkCommonFlags { strict_string_checks : bool }.

(** ** Everything a call depends on *)

Record Ctx := mkCtx {
  cP : Platform;
  cEnv : Env;
  cFlags : Flags;
  cCommon : CommonFlags;
  cFlip : bool;                       (* CQMSAN_FLIP_CONVENTION *)
  cCapture : Z -> list Z;             (* the unwinder *)
  cInit : Rt -> outcome Rt;           (* __cqmsan_init *)
  cFuel : nat                         (* for the scans of strings *)
}.

Section interface.
Context (c : Ctx).

Definition kCleanByte : Z := if cFlip c then 255 else 0.
Definition kPoisonByte : Z := if cFlip c then 0 else 255.

(** [__cqmsan_get_track_origins()] is the constant 0. *)
Definition track_origins : Z := 0.

Definition SetShadow_M (a size value : Z) : M unit := fun r =>
  match SetShadow (cP c) (cEnv c) track_origins (rt_mem r) a size value with
  | Done m' => Done (tt, set_mem m' r)
  | Died w => Died w
  end.

Definition IsInSymbolizerOrUnwider (r : Rt) : bool := negb (is_in_symbolizer_or_unwinder r =? 0).
Definition IsInInterceptorScope (r : Rt) : bool := negb (in_interceptor_scope r =? 0).

Definition ENSURE_CQMSAN_INITED : M unit := fun r =>
  if cqmsan_init_is_running r then Died "CHECK(!cqmsan_init_is_running)" else
  if negb (cqmsan_inited r)
  then match cInit c r with Done r' => Done (tt, r') | Died w => Died w end
  else Done (tt, r).

(** *** Shadow *)

Definition __cqmsan_unpoison (a size : Z) : M unit :=
  if negb (MEM_IS_APP (cP c) a) then mret tt else SetShadow_M a size kCleanByte.

Definition __cqmsan_poison (a size : Z) : M unit :=
  if negb (MEM_IS_APP (cP c) a) then mret tt else SetShadow_M a size kPoisonByte.

Definition __cqmsan_poison_stack (a size : Z) : M unit :=
  if negb (MEM_IS_APP (cP c) a) then mret tt else SetShadow_M a size kPoisonByte.

Definition __cqmsan_clear_and_unpoison (a size : Z) : M unit :=
  modify (fun r => set_mem (memset (rt_mem r) a 0 size) r);;
  SetShadow_M a size kCleanByte.

Definition strlen_M (s : Z) : M Z := fun r =>
  match internal_strlen (cFuel c) (rt_mem r) s with
  | Some n => Done (n, r) | None => Died "no terminator" end.

Definition strnlen_M (s n : Z) : M Z := fun r =>
  match internal_strnlen (cFuel c) (rt_mem r) s n with
  | Some k => Done (k, r) | None => Died "no terminator" end.

Definition wcslen_M (s : Z) : M Z := fun r =>
  match internal_wcslen (cFuel c) (rt_mem r) s with
  | Some n => Done (n, r) | None => Died "no terminator" end.

Definition wcsnlen_M (s n : Z) : M Z := fun r =>
  match internal_wcsnlen (cFuel c) (rt_mem r) s n with
  | Some k => Done (k, r) | None => Died "no terminator" end.

Definition __cqmsan_unpoison_string (s : Z) : M unit :=
  if negb (MEM_IS_APP (cP c) s) then mret tt else
  n ← strlen_M s; __cqmsan_unpoison s (n + 1).

(** *** Copying and filling memory *)

Definition libc_mem (f : mem -> mem) (ret : Z) : M Z := REAL (fun m => (ret, f m)).

Definition mem_call (internal real : mem -> mem) (dest n : Z) : M Z :=
  r ← get;
  if negb (cqmsan_inited r) then libc_mem internal dest else
  if cqmsan_init_is_running r || IsInSymbolizerOrUnwider r then libc_mem real dest else
  ENSURE_CQMSAN_INITED;;
  res ← libc_mem real dest;
  __cqmsan_unpoison dest n;;
  mret res.

Definition __cqmsan_memcpy (dest src n : Z) : M Z :=
  mem_call (fun m => internal_memcpy m dest src n) (fun m => memmove m dest src n) dest n.

Definition __cqmsan_memset (s ch n : Z) : M Z :=
  mem_call (fun m => internal_memset m s ch n) (fun m => memset m s ch n) s n.

Definition __cqmsan_memmove (dest src n : Z) : M Z :=
  r ← get;
  if negb (cqmsan_inited r) then
    m' ← lift (internal_memmove (rt_mem r) dest src n);
    modify (set_mem m');; mret dest
  else mem_call (fun m => m) (fun m => memmove m dest src n) dest n.

Definition __cqmsan_load_unpoisoned (src size dst : Z) : M unit :=
  modify (fun r => set_mem (internal_memcpy (rt_mem r) dst src size) r);;
  __cqmsan_unpoison dst size.

Definition __cqmsan_partial_poison (data shadow size : Z) : M unit :=
  modify (fun r => set_mem (internal_memcpy (rt_mem r) (MEM_TO_SHADOW (cP c) data) shadow size) r).

Definition __cqmsan_copy_shadow (dest src n : Z) : M unit := __cqmsan_unpoison dest n.

(** *** Checking *)

(** [sptr __cqmsan_test_shadow(const void *x, uptr size)]: -1, or the offset of
    the first byte whose shadow is not zero. *)
Fixpoint test_shadow_loop (m : mem) (s : Z) (l : list Z) : Z :=
  match l with
  | [] => -1
  | i :: l' => if negb (m (s + i) =? 0) then i else test_shadow_loop m s l'
  end.

Definition __cqmsan_test_shadow (x size : Z) : M Z :=
  if negb (MEM_IS_APP (cP c) x) then mret (-1) else
  r ← get;
  let s := MEM_TO_SHADOW (cP c) x in
  z ← lift (mem_is_zero (rt_mem r) s size);
  if (z : bool) then mret (-1) else mret (test_shadow_loop (rt_mem r) s (zrange size)).

(** The fast check of the interceptors: counts, updates the map, may die. *)
Definition CHECK_UNPOISONED_0_FAST (pc x n : Z) : M unit :=
  r ← get;
  if IsInSymbolizerOrUnwider r then mret tt else
  offset ← __cqmsan_test_shadow x n;
  if (0 <=? offset) && report_umrs (cFlags c) then
    modify (fun r => set_umr (count_report (rt_umr r)) r);;
    modify (fun r => set_umr
      (if negb (cqmsan_site_known (cFlags c) (StackTrace.GetPreviousInstructionPc pc) (rt_umr r))
       then cqmsan_update_map (cCapture c pc) (rt_umr r) else rt_umr r) r);;
    CHECK (negb (halt_on_error (cFlags c))) "halt_on_error"
  else mret tt.

(** The full check, with a report. *)
Definition CHECK_UNPOISONED_0 (pc x n : Z) : M unit :=
  r ← get;
  if IsInSymbolizerOrUnwider r then mret tt else
  offset ← __cqmsan_test_shadow x n;
  if (0 <=? offset) && report_umrs (cFlags c) then
    modify (fun r => set_umr (PrintWarningWithOrigin (cCapture c) pc 0 (rt_umr r)) r);;
    CHECK (negb (halt_on_error (cFlags c))) "halt_on_error"
  else mret tt.

Definition CHECK_UNPOISONED (pc x n : Z) : M unit :=
  r ← get;
  if negb (IsInInterceptorScope r) then CHECK_UNPOISONED_0_FAST pc x n else mret tt.

Definition CHECK_UNPOISONED_STRING_OF_LEN (pc x len n : Z) : M unit :=
  CHECK_UNPOISONED pc x (if strict_string_checks (cCommon c) then len + 1 else n).

Definition CHECK_UNPOISONED_STRING (pc x n : Z) : M unit :=
  len ← strlen_M x; CHECK_UNPOISONED_STRING_OF_LEN pc x len n.

Definition __cqmsan_check_mem_is_initialized (pc x size : Z) : M unit :=
  if negb (report_umrs (cFlags c)) then mret tt else
  offset ← __cqmsan_test_shadow x size;
  if offset <? 0 then mret tt else
  modify (fun r => set_umr (PrintWarningWithOrigin (cCapture c) pc 0 (rt_umr r)) r);;
  CHECK (negb (halt_on_error (cFlags c))) "halt_on_error".

(** *** Thread-local shadow *)

Definition UnpoisonParam (n : Z) : M unit :=
  modify_tls (fun t => mkTls (internal_memset (param_tls t) 0 0 (n * 8)) (retval_tls t)
    (va_arg_tls t) (va_arg_origin_tls t) (va_arg_overflow_size_tls t)).

Definition __cqmsan_unpoison_param (n : Z) : M unit := UnpoisonParam n.

Definition __cqmsan_clear_on_return : M unit :=
  modify_tls (fun t => mkTls (store64 (param_tls t) 0 0) (retval_tls t)
    (va_arg_tls t) (va_arg_origin_tls t) (va_arg_overflow_size_tls t)).

(** The saved field of ScopedThreadLocalStateBackup. *)
Definition ScopedThreadLocalStateBackup_Backup : M Z :=
  r ← get; mret (va_arg_overflow_size_tls (rt_tls r)).

Definition ScopedThreadLocalStateBackup_Restore (saved : Z) : M unit :=
  modify_tls (fun t => mkTls
    (internal_memset (param_tls t) 0 0 kCQMsanParamTlsSize)
    (internal_memset (retval_tls t) 0 0 kCQMsanRetvalTlsSize)
    (internal_memset (va_arg_tls t) 0 0 kCQMsanParamTlsSize)
    (internal_memset (va_arg_origin_tls t) 0 0 kCQMsanParamTlsSize)
    saved).

(** [m] run with the thread-local state saved around it. *)
Definition with_tls_backup (m : M unit) : M unit :=
  saved ← ScopedThreadLocalStateBackup_Backup;
  m;; ScopedThreadLocalStateBackup_Restore saved.

(** *** Unaligned accesses *)

Definition unaligned_load (k p : Z) : M Z :=
  r ← get;
  let s := MEM_TO_SHADOW (cP c) p in
  modify_tls (fun t => mkTls (param_tls t)
    (fun i => if in_range 0 k i then rt_mem r (s + i) else retval_tls t i)
    (va_arg_tls t) (va_arg_origin_tls t) (va_arg_overflow_size_tls t));;
  mret (load k (rt_mem r) p).

Definition __sanitizer_unaligned_load16 := unaligned_load 2.
Definition __sanitizer_unaligned_load32 := unaligned_load 4.
Definition __sanitizer_unaligned_load64 := unaligned_load 8.

(** The shadow of [x] is the second word of the parameter shadow. *)
Definition unaligned_store (k p x : Z) : M unit :=
  modify (fun r =>
    let s := load k (param_tls (rt_tls r)) 8 in
    set_mem (store k (store k (rt_mem r) (MEM_TO_SHADOW (cP c) p) s) p x) r).

Definition __sanitizer_unaligned_store16 := unaligned_store 2.
Definition __sanitizer_unaligned_store32 := unaligned_store 4.
Definition __sanitizer_unaligned_store64 := unaligned_store 8.
End interface.

(** ** Abstract view

    What the instrumented program can observe of a byte of its memory: the value
    and its shadow.  A call refines an abstract operation when it turns the view
    of every application byte into the one the operation prescribes. *)

Definition view (P : Platform) (m : mem) (a : Z) : Z * Z := (m a, m (MEM_TO_SHADOW P a)).

(** [spec] prescribes the view of every application byte after the call. *)
Definition refines (P : Platform) (m m' : mem) (spec : Z -> Z * Z) : Prop :=
  forall a, MEM_IS_APP P a = true -> view P m' a = spec a.

Section lemmas.
Context (c : Ctx) `{!ShadowLayout (cP c)}.

Lemma app_buffer_sub P a n i j :
  app_buffer P a n -> 0 <= i -> 0 <= j -> i + j <= n -> app_buffer P (a + i) j.
Proof. intros H Hi Hj Hn x Hx. rewrite <- Z.add_assoc. apply H. lia. Qed.

Lemma shadow_end_range a n :
  MEM_IS_APP (cP c) a = true -> app_buffer (cP c) a n -> 0 <= n ->
  MEM_TO_SHADOW (cP c) a + n <= 2 ^ 48.
Proof.
  intros Ha H Hn. destruct (decide (n = 0)) as [->|Hne].
  - pose proof (sl_shadow_range a Ha). lia.
  - pose proof (sl_contiguous a n (n - 1) H ltac:(lia)) as Hc.
    pose proof (sl_shadow_range _ (H (n - 1) ltac:(lia))). lia.
Qed.

(** An application byte is not in the shadow of a buffer; its shadow is there
    exactly when the byte is in the buffer. *)
Lemma shadow_of_buffer a n b :
  app_buffer (cP c) a n -> MEM_IS_APP (cP c) b = true ->
  (~ MEM_TO_SHADOW (cP c) a <= b < MEM_TO_SHADOW (cP c) a + n) /\
  (MEM_TO_SHADOW (cP c) a <= MEM_TO_SHADOW (cP c) b < MEM_TO_SHADOW (cP c) a + n
     <-> a <= b < a + n).
Proof.
  intros H Hb. split.
  - intros Hin. set (i := b - MEM_TO_SHADOW (cP c) a).
    pose proof (sl_contiguous a n i H ltac:(unfold i; lia)) as Hc.
    pose proof (sl_shadow_not_app (a + i) (H i ltac:(unfold i; lia))) as Hn.
    rewrite Hc in Hn. unfold i in Hn. rewrite Zplus_minus in Hn. congruence.
  - split; intros Hin.
    + set (i := MEM_TO_SHADOW (cP c) b - MEM_TO_SHADOW (cP c) a).
      pose proof (sl_contiguous a n i H ltac:(unfold i; lia)) as Hc.
      assert (a + i = b) as Hab by (apply sl_injective; unfold i in *; lia).
      unfold i in *. lia.
    + pose proof (sl_contiguous a n (b - a) H ltac:(lia)) as Hc.
      rewrite Zplus_minus in Hc. lia.
Qed.

End lemmas.

Section views.
Context (c : Ctx) `{!ShadowLayout (cP c)}.
Context (k : Z) (Hk : 0 <= k <= 32) (Hpage : page_size (cEnv c) = 2 ^ k).

Lemma SetShadow_view m m' a n v :
  MEM_IS_APP (cP c) a = true -> app_buffer (cP c) a n -> 0 <= n ->
  SetShadow (cP c) (cEnv c) 0 m a n v = Done m' ->
  refines (cP c) m m' (fun b =>
    (m b, if in_range a n b then u8 v else m (MEM_TO_SHADOW (cP c) b))).
Proof.
  intros Ha Hbuf Hn H b Hb.
  pose proof (sl_shadow_range a Ha) as Hr. pose proof (shadow_end_range c a n Ha Hbuf Hn) as He.
  assert (2 ^ k <= 2 ^ 32) as Hp by (apply Z.pow_le_mono_r; lia).
  assert (forall x, m' x = memset m (MEM_TO_SHADOW (cP c) a) v n x) as Hm.
  { intros x. eapply (SetShadow_memset _ _ k Hk Hpage 0); try done; try lia.
    unfold origin_of_buffer. lia. }
  destruct (shadow_of_buffer c a n b Hbuf Hb) as [H1 H2].
  unfold view. rewrite !Hm, memset_out by done. f_equal.
  unfold memset. destruct (in_range a n b) eqn:E.
  - apply in_range_true, H2 in E. by rewrite (proj2 (in_range_true _ _ _) E).
  - apply in_range_false in E. rewrite (proj2 (in_range_false _ _ _)); [done|]. by rewrite H2.
Qed.

Lemma unpoison_view a n r r' :
  app_buffer (cP c) a n -> 0 <= n -> __cqmsan_unpoison c a n r = Done (tt, r') ->
  r' = set_mem (rt_mem r') r /\
  refines (cP c) (rt_mem r) (rt_mem r') (fun b =>
    (rt_mem r b, if in_range a n b && MEM_IS_APP (cP c) a then kCleanByte c
                 else rt_mem r (MEM_TO_SHADOW (cP c) b))).
Proof.
  intros Hbuf Hn H. unfold __cqmsan_unpoison in H.
  destruct (MEM_IS_APP (cP c) a) eqn:Ha; cbn [negb] in H.
  - unfold SetShadow_M in H. destruct (SetShadow _ _ _ _ _ _ _) as [m'|] eqn:E; [|done].
    injection H as <-. split; [by destruct r|]. cbn [rt_mem set_mem].
    intros b Hb. rewrite (SetShadow_view _ _ _ _ _ Ha Hbuf Hn E b Hb). f_equal.
    rewrite andb_true_r. case_match; [|done]. unfold kCleanByte. by destruct (cFlip c).
  - injection H as <-. split; [by destruct r|]. intros b Hb. unfold view. f_equal.
    by rewrite andb_false_r.
Qed.

Lemma test_shadow_loop_spec m s l :
  (test_shadow_loop m s l = -1 /\ forall i, i ∈ l -> m (s + i) = 0) \/
  (exists l1 i l2, l = l1 ++ i :: l2 /\ test_shadow_loop m s l = i /\ m (s + i) <> 0 /\
     forall j, j ∈ l1 -> m (s + j) = 0).
Proof.
  induction l as [|i l IH]; cbn.
  - left. split; [done|]. intros i Hi. by apply elem_of_nil in Hi.
  - destruct (Z.eqb_spec (m (s + i)) 0) as [E|E]; cbn [negb].
    + destruct IH as [[H1 H2]|(l1 & j & l2 & -> & H2 & H3 & H4)].
      * left. split; [done|]. intros j [->|Hj]%elem_of_cons; auto.
      * right. exists (i :: l1), j, l2. repeat split; try done.
        intros j' [->|Hj]%elem_of_cons; auto.
    + right. exists [], i, l. repeat split; try done. intros j Hj. by apply elem_of_nil in Hj.
Qed.
End views.

(** A machine whose page size is a power of two and whose mappings succeed. *)
Definition env_ok (env : Env) : Prop :=
  (exists k, 0 <= k <= 32 /\ page_size env = 2 ^ k) /\ forall b s, mmap_ok env b s = true.

(** The runtime is up, and the call does not come from inside of it. *)
Definition runtime_up (r : Rt) : Prop :=
  cqmsan_inited r = true /\ cqmsan_init_is_running r = false /\ is_in_symbolizer_or_unwinder r = 0.

Section calls.
Context (c : Ctx) `{!ShadowLayout (cP c)} (Henv : env_ok (cEnv c)).

Lemma unpoison_total a n r :
  app_buffer (cP c) a n -> 0 <= n ->
  exists m', __cqmsan_unpoison c a n r = Done (tt, set_mem m' r) /\
    refines (cP c) (rt_mem r) m' (fun b =>
      (rt_mem r b, if in_range a n b && MEM_IS_APP (cP c) a then kCleanByte c
                   else rt_mem r (MEM_TO_SHADOW (cP c) b))).
Proof.
  intros Hbuf Hn. destruct Henv as [(k & Hk & Hpage) Hok].
  destruct (__cqmsan_unpoison c a n r) as [[[] r']|w] eqn:E.
  - destruct (unpoison_view c k Hk Hpage a n r r' Hbuf Hn E) as [Hr Href].
    exists (rt_mem r'). by rewrite <- Hr.
  - exfalso. unfold __cqmsan_unpoison, SetShadow_M in E. case_match; [done|].
    pose proof (SetShadow_total (cP c) (cEnv c) track_origins (rt_mem r) a n (kCleanByte c) Hok
      ltac:(by exists k)) as Hd.
    by destruct (SetShadow _ _ _ _ _ _ _).
Qed.

(** Marking a buffer, with any value. *)
Lemma SetShadow_M_total a n v r :
  MEM_IS_APP (cP c) a = true -> app_buffer (cP c) a n -> 0 <= n ->
  exists m', SetShadow_M c a n v r = Done (tt, set_mem m' r) /\
    refines (cP c) (rt_mem r) m' (fun b =>
      (rt_mem r b, if in_range a n b then u8 v else rt_mem r (MEM_TO_SHADOW (cP c) b))).
Proof.
  intros Ha Hbuf Hn. destruct Henv as [(k & Hk & Hpage) Hok].
  pose proof (SetShadow_total (cP c) (cEnv c) track_origins (rt_mem r) a n v Hok ltac:(by exists k)) as Hd.
  unfold SetShadow_M. destruct (SetShadow _ _ _ _ _ _ _) as [m'|] eqn:E; [|done].
  exists m'. split; [done|]. by eapply (SetShadow_view c k Hk Hpage).
Qed.

Lemma poison_total a n r :
  MEM_IS_APP (cP c) a = true -> app_buffer (cP c) a n -> 0 <= n ->
  exists m', __cqmsan_poison c a n r = Done (tt, set_mem m' r) /\
    refines (cP c) (rt_mem r) m' (fun b =>
      (rt_mem r b, if in_range a n b then kPoisonByte c else rt_mem r (MEM_TO_SHADOW (cP c) b))).
Proof.
  intros Ha Hbuf Hn. unfold __cqmsan_poison. rewrite Ha. cbn [negb].
  destruct (SetShadow_M_total a n (kPoisonByte c) r Ha Hbuf Hn) as (m' & -> & Href).
  exists m'. split; [done|]. intros b Hb. rewrite (Href b Hb). f_equal. case_match; [|done].
  unfold kPoisonByte. by destruct (cFlip c).
Qed.

(** A fill or copy whose effect on memory is confined to its destination. *)
Lemma mem_call_refines internal real dest n r :
  runtime_up r -> app_buffer (cP c) dest n -> 0 <= n ->
  (forall x, ~ dest <= x < dest + n -> real (rt_mem r) x = rt_mem r x) ->
  exists m', mem_call c internal real dest n r = Done (dest, set_mem m' r) /\
    refines (cP c) (rt_mem r) m' (fun b =>
      if in_range dest n b then (real (rt_mem r) b, kCleanByte c) else view (cP c) (rt_mem r) b).
Proof.
  intros (Hi & Hrun & Hsym) Hbuf Hn Hreal.
  unfold mem_call, mbind, M_bind, get, IsInSymbolizerOrUnwider, ENSURE_CQMSAN_INITED.
  rewrite Hi, Hrun, Hsym. cbn [negb orb Z.eqb].
  unfold libc_mem, REAL. cbn beta iota zeta. rewrite ?Hrun, ?Hi. cbn beta iota zeta delta [negb].
  destruct (unpoison_total dest n (set_mem (real (rt_mem r)) r) Hbuf Hn) as (m' & -> & Href).
  exists m'. split; [by destruct r|]. intros b Hb. rewrite (Href b Hb). cbn [rt_mem set_mem].
  destruct (in_range dest n b) eqn:E.
  - apply in_range_true in E. rewrite <- (Zplus_minus dest b) in Hb |- *.
    assert (MEM_IS_APP (cP c) dest = true) as ->; [|done].
    specialize (Hbuf 0). rewrite Z.add_0_r in Hbuf. apply Hbuf. lia.
  - apply in_range_false in E. cbn [andb]. unfold view. rewrite !Hreal; [done| |done].
    intros Hin. pose proof (sl_shadow_not_app b Hb) as Hna.
    rewrite <- (Zplus_minus dest (MEM_TO_SHADOW (cP c) b)) in Hna.
    rewrite Hbuf in Hna; [done|lia].
Qed.

End calls.

Section scanning.
Context (c : Ctx) `{!ShadowLayout (cP c)}.

(** Scanning shadow. *)
Lemma test_shadow_spec x n r :
  bytes_ok (rt_mem r) -> app_buffer (cP c) x n -> 0 < n <= 2 ^ 40 ->
  exists off, __cqmsan_test_shadow c x n r = Done (off, r) /\
    ((off = -1 /\ forall i, 0 <= i < n -> rt_mem r (MEM_TO_SHADOW (cP c) (x + i)) = 0) \/
     (0 <= off < n /\ rt_mem r (MEM_TO_SHADOW (cP c) (x + off)) <> 0 /\
      forall i, 0 <= i < off -> rt_mem r (MEM_TO_SHADOW (cP c) (x + i)) = 0)).
Proof.
  intros Hm Hbuf Hn. assert (MEM_IS_APP (cP c) x = true) as Hx.
  { specialize (Hbuf 0). rewrite Z.add_0_r in Hbuf. apply Hbuf. lia. }
  unfold __cqmsan_test_shadow. rewrite Hx. cbn [negb]. unfold mbind, M_bind, get, lift.
  pose proof (sl_shadow_range x Hx) as Hr.
  assert (exists z, mem_is_zero (rt_mem r) (MEM_TO_SHADOW (cP c) x) n = Done z) as (z & Hz).
  { unfold mem_is_zero. rewrite (proj2 (Z.leb_le n (2 ^ 40))) by lia.
    change 8 with (2 ^ 3). rewrite RoundUpTo_spec by lia. by eexists. }
  rewrite Hz. pose proof (mem_is_zero_correct (rt_mem r) (MEM_TO_SHADOW (cP c) x) n z Hm ltac:(lia) ltac:(lia) ltac:(lia) Hz) as Hzero.
  assert (forall i, 0 <= i < n -> MEM_TO_SHADOW (cP c) (x + i) = MEM_TO_SHADOW (cP c) x + i) as Hc
    by (intros; by apply (sl_contiguous x n)).
  destruct z.
  - exists (-1). split; [done|]. left. split; [done|]. intros i Hi. rewrite Hc by done.
    apply Hzero; [done|lia].
  - eexists. split; [done|].
    destruct (test_shadow_loop_spec (rt_mem r) (MEM_TO_SHADOW (cP c) x) (zrange n))
      as [[-> Hall]|(l1 & i & l2 & Hl & -> & Hne & Hbefore)].
    + left. split; [done|]. intros i Hi. rewrite Hc by done. by apply Hall, elem_of_zrange.
    + assert (i ∈ zrange n) as Hin%elem_of_zrange by (rewrite Hl; set_solver).
      right. split; [done|]. rewrite Hc by done. split; [done|]. intros j Hj.
      rewrite Hc by lia. apply Hbefore.
      by apply (zrange_prefix n i l1 l2 j Hl).
Qed.
End scanning.

(** ** Properties *)

Section properties.
Context (c : Ctx) `{!ShadowLayout (cP c)} (Henv : env_ok (cEnv c)).

(** The abstract copy: the destination holds the source's bytes and is defined,
    whatever the shadow of the source; nothing else changes. *)
Definition abstract_copy (m : mem) (dest src n : Z) : Z -> Z * Z :=
  fun b => if in_range dest n b then (m (src + (b - dest)), kCleanByte c)
           else view (cP c) m b.

Lemma mem_functions_refine_lemma dest src ch n r :
  runtime_up r -> app_buffer (cP c) dest n -> 0 <= n ->
  (exists m', __cqmsan_memcpy c dest src n r = Done (dest, set_mem m' r) /\
     refines (cP c) (rt_mem r) m' (abstract_copy (rt_mem r) dest src n)) /\
  (exists m', __cqmsan_memmove c dest src n r = Done (dest, set_mem m' r) /\
     refines (cP c) (rt_mem r) m' (abstract_copy (rt_mem r) dest src n)) /\
  (exists m', __cqmsan_memset c dest ch n r = Done (dest, set_mem m' r) /\
     refines (cP c) (rt_mem r) m' (fun b =>
       if in_range dest n b then (u8 ch, kCleanByte c) else view (cP c) (rt_mem r) b)).
Proof.
  intros Hup Hbuf Hn.
  assert (forall x, ~ dest <= x < dest + n -> memmove (rt_mem r) dest src n x = rt_mem r x) as Hmv
    by (intros x Hx; unfold memmove; by rewrite (proj2 (in_range_false _ _ _) Hx)).
  assert (forall m', refines (cP c) (rt_mem r) m' (fun b =>
      if in_range dest n b then (memmove (rt_mem r) dest src n b, kCleanByte c)
      else view (cP c) (rt_mem r) b) ->
    refines (cP c) (rt_mem r) m' (abstract_copy (rt_mem r) dest src n)) as Hspec.
  { intros m' H b Hb. rewrite (H b Hb). unfold abstract_copy, memmove. by case_match. }
  split; [|split].
  - destruct (mem_call_refines c Henv (fun m => internal_memcpy m dest src n)
      (fun m => memmove m dest src n) dest n r Hup Hbuf Hn Hmv) as (m' & H & Href).
    exists m'. split; [done|by apply Hspec].
  - destruct (mem_call_refines c Henv (fun m => m)
      (fun m => memmove m dest src n) dest n r Hup Hbuf Hn Hmv) as (m' & H & Href).
    exists m'. split; [|by apply Hspec]. destruct Hup as (Hi & _ & _).
    unfold __cqmsan_memmove, mbind at 1, M_bind at 1, get. rewrite Hi. exact H.
  - destruct (mem_call_refines c Henv (fun m => internal_memset m dest ch n)
      (fun m => memset m dest ch n) dest n r Hup Hbuf Hn) as (m' & H & Href).
    { intros x Hx. by apply memset_out. }
    exists m'. split; [done|]. intros b Hb. rewrite (Href b Hb).
    destruct (in_range dest n b) eqn:E; [|done]. f_equal. unfold memset. by rewrite E.
Qed.
End properties.

(** C24: the memory functions the instrumentation calls implement the abstract
    copy and fill of the opportunistic detector: the destination receives the
    bytes and becomes defined (the shadow of the source is not read), every other
    application byte keeps its value and its shadow, and the call returns. *)
Theorem mem_functions_refine c (L : ShadowLayout (cP c)) dest src ch n r :
  env_ok (cEnv c) -> runtime_up r -> app_buffer (cP c) dest n -> 0 <= n ->
  (exists m', __cqmsan_memcpy c dest src n r = Done (dest, set_mem m' r) /\
     refines (cP c) (rt_mem r) m' (abstract_copy c (rt_mem r) dest src n)) /\
  (exists m', __cqmsan_memmove c dest src n r = Done (dest, set_mem m' r) /\
     refines (cP c) (rt_mem r) m' (abstract_copy c (rt_mem r) dest src n)) /\
  (exists m', __cqmsan_memset c dest ch n r = Done (dest, set_mem m' r) /\
     refines (cP c) (rt_mem r) m' (fun b =>
       if in_range dest n b then (u8 ch, kCleanByte c) else view (cP c) (rt_mem r) b)).
Proof. intros. by apply mem_functions_refine_lemma. Qed.

(** The default configuration on x86_64. *)
Definition ctx0 : Ctx :=
  mkCtx linux_x86_64 linux_env (mkFlags true false false false) (mkCommonFlags false) false
    (fun pc => [pc]) (fun r => Done r) 1000.
Definition tls0 : Tls := mkTls (fun _ => 255) (fun _ => 255) (fun _ => 255) (fun _ => 255) 7.
Definition rt0 (m : mem) : Rt := mkRt m tls0 umr0 true false 0 0.

Lemma linux_env_ok : env_ok linux_env.
Proof. split; [exists 12; split; [lia|done]|done]. Qed.

Lemma app1_buffer a n : 0 <= a -> a + n <= 0x10000000000 -> app_buffer linux_x86_64 a n.
Proof.
  intros Ha Hn j Hj. apply x86_app_block. exists (0, 0x10000000000, 0).
  split; [unfold x86_app_blocks; in_list|cbn; lia].
Qed.

Lemma mem_functions_refine_witness :
  let r := rt0 (fun a => if a <? 0x500000000000 then 5 else 255) in
  exists m', __cqmsan_memcpy ctx0 4096 8192 10 r = Done (4096, set_mem m' r) /\
    view linux_x86_64 m' 4100 = (5, 0).
Proof.
  intros r.
  destruct (proj1 (mem_functions_refine ctx0 x86_64_shadow_layout 4096 8192 0 10 r linux_env_ok
    ltac:(done) ltac:(by apply app1_buffer) ltac:(lia))) as (m' & H & Href).
  exists m'. split; [exact H|]. exact (Href 4100 (app1_buffer 4100 1 ltac:(lia) ltac:(lia) 0 ltac:(lia))).
Defined.

(** __cqmsan_test_shadow answers -1 exactly when no byte of the buffer is
    poisoned, and otherwise the offset of the first poisoned byte, through its
    word-wide fast path and its byte scan. *)
Theorem test_shadow_first_poisoned c (L : ShadowLayout (cP c)) x n r :
  bytes_ok (rt_mem r) -> app_buffer (cP c) x n -> 0 < n <= 2 ^ 40 ->
  exists off, __cqmsan_test_shadow c x n r = Done (off, r) /\
    ((off = -1 /\ forall i, 0 <= i < n -> rt_mem r (MEM_TO_SHADOW (cP c) (x + i)) = 0) \/
     (0 <= off < n /\ rt_mem r (MEM_TO_SHADOW (cP c) (x + off)) <> 0 /\
      forall i, 0 <= i < off -> rt_mem r (MEM_TO_SHADOW (cP c) (x + i)) = 0)).
Proof. exact (test_shadow_spec c x n r). Qed.

Lemma test_shadow_first_poisoned_witness :
  let r := rt0 (store8 (fun _ => 0) (0x500000000000 + 4100) 255) in
  exists off, __cqmsan_test_shadow ctx0 4096 10 r = Done (off, r) /\ off <> -1.
Proof.
  intros r. destruct (test_shadow_first_poisoned ctx0 x86_64_shadow_layout 4096 10 r)
    as (off & H & Hoff).
  - intros a. cbn. unfold store8. case_match; [apply u8_range|lia].
  - by apply app1_buffer.
  - lia.
  - exists off. split; [exact H|]. intros ->. destruct Hoff as [[_ Hall]|[Hr _]]; [|lia].
    specialize (Hall 4 ltac:(lia)). change (255 = 0) in Hall. lia.
Defined.

(** in a build with the flipped shadow convention (zero is uninitialised)
    __cqmsan_test_shadow is not flipped: after __cqmsan_poison of a buffer it
    reports no poisoned byte, and after __cqmsan_unpoison it reports the first
    byte of the initialised buffer. *)
Theorem flip_inverts_test_shadow c (L : ShadowLayout (cP c)) x n r :
  cFlip c = true -> env_ok (cEnv c) -> bytes_ok (rt_mem r) ->
  app_buffer (cP c) x n -> 0 < n <= 2 ^ 40 ->
  (exists r1, __cqmsan_poison c x n r = Done (tt, r1) /\
     __cqmsan_test_shadow c x n r1 = Done (-1, r1)) /\
  (exists r2, __cqmsan_unpoison c x n r = Done (tt, r2) /\
     __cqmsan_test_shadow c x n r2 = Done (0, r2)).
Proof.
  intros Hflip Henv Hm Hbuf Hn.
  assert (MEM_IS_APP (cP c) x = true) as Hx.
  { specialize (Hbuf 0). rewrite Z.add_0_r in Hbuf. apply Hbuf. lia. }
  assert (forall v, 0 <= v < 256 -> exists m', SetShadow_M c x n v r = Done (tt, set_mem m' r) /\
    bytes_ok m' /\ forall i, 0 <= i < n -> m' (MEM_TO_SHADOW (cP c) (x + i)) = v) as Hset.
  { intros v Hv. pose proof Henv as [(k & Hk & Hpage) Hok].
    unfold SetShadow_M.
    pose proof (SetShadow_total (cP c) (cEnv c) track_origins (rt_mem r) x n v Hok
      ltac:(by exists k)) as Hd.
    destruct (SetShadow (cP c) (cEnv c) track_origins (rt_mem r) x n v) as [m'|] eqn:E; [|done].
    exists m'. split; [done|]. split.
    - intros a. assert (MEM_TO_SHADOW (cP c) x + n <= 2 ^ 48) as He by (eapply shadow_end_range; eauto; lia).
      pose proof (sl_shadow_range x Hx) as Hr.
      assert (2 ^ k <= 2 ^ 32) by (apply Z.pow_le_mono_r; lia).
      rewrite (SetShadow_memset (cP c) (cEnv c) k Hk Hpage track_origins (rt_mem r) x n v m'
        ltac:(lia) ltac:(lia) ltac:(lia) ltac:(done) E a)
        by (unfold origin_of_buffer, track_origins; lia). by apply memset_bytes.
    - intros i Hi. pose proof (SetShadow_view c k Hk Hpage _ _ x n v Hx Hbuf ltac:(lia) E
        (x + i) (Hbuf i Hi)) as Hv'. unfold view in Hv'. injection Hv' as _ ->.
      rewrite (proj2 (in_range_true _ _ _)) by lia. by apply Z.mod_small. }
  unfold __cqmsan_poison, __cqmsan_unpoison, kPoisonByte, kCleanByte. rewrite Hx, Hflip. cbn [negb].
  split.
  - destruct (Hset 0 ltac:(lia)) as (m' & H & Hb & Hall). exists (set_mem m' r). split; [done|].
    destruct (test_shadow_spec c x n (set_mem m' r) Hb Hbuf Hn)
      as (off & Hts & [[-> _]|(Hr & Hne & _)]); [done|].
    exfalso. apply Hne. by apply Hall.
  - destruct (Hset 255 ltac:(lia)) as (m' & H & Hb & Hall). exists (set_mem m' r). split; [done|].
    destruct (test_shadow_spec c x n (set_mem m' r) Hb Hbuf Hn)
      as (off & Hts & [[_ Hz]|(Hr & Hne & Hbefore)]).
    + specialize (Hz 0 ltac:(lia)). cbn [rt_mem set_mem] in Hz. rewrite Hall in Hz; [done|lia].
    + replace off with 0 in Hts; [done|]. destruct (decide (off = 0)) as [->|]; [done|].
      specialize (Hbefore 0 ltac:(lia)). cbn [rt_mem set_mem] in Hbefore.
      rewrite Hall in Hbefore; [done|lia].
Qed.

Definition ctx_flip : Ctx :=
  mkCtx linux_x86_64 linux_env (mkFlags true false false false) (mkCommonFlags false) true
    (fun pc => [pc]) (fun r => Done r) 1000.

Lemma flip_inverts_test_shadow_witness :
  exists r1, __cqmsan_poison ctx_flip 4096 64 (rt0 (fun _ => 255)) = Done (tt, r1) /\
    __cqmsan_test_shadow ctx_flip 4096 64 r1 = Done (-1, r1).
Proof.
  apply (flip_inverts_test_shadow ctx_flip x86_64_shadow_layout 4096 64 (rt0 (fun _ => 255)) eq_refl
    linux_env_ok); [intros a; cbn; lia|by apply app1_buffer|lia].
Defined.

(** a callback run under ScopedThreadLocalStateBackup (a signal handler)
    leaves the thread-local shadow of arguments, results and variadic arguments
    clean, whatever it did to it, and the overflow size as it was before. *)
Theorem tls_backup_isolates m r r' :
  with_tls_backup m r = Done (tt, r') ->
  va_arg_overflow_size_tls (rt_tls r') = va_arg_overflow_size_tls (rt_tls r) /\
  forall i, 0 <= i < 800 -> param_tls (rt_tls r') i = 0 /\ retval_tls (rt_tls r') i = 0 /\
    va_arg_tls (rt_tls r') i = 0 /\ va_arg_origin_tls (rt_tls r') i = 0.
Proof.
  unfold with_tls_backup, ScopedThreadLocalStateBackup_Backup,
    ScopedThreadLocalStateBackup_Restore, modify_tls, modify, mbind, M_bind, get, mret, M_ret.
  intros H. destruct (m r) as [[[] r1]|]; [|done]. injection H as <-.
  split; [done|]. intros i Hi. cbn [rt_tls set_tls param_tls retval_tls va_arg_tls va_arg_origin_tls].
  unfold kCQMsanParamTlsSize, kCQMsanRetvalTlsSize.
  rewrite !(memset_correct _ 0 0 800 ltac:(lia) ltac:(lia) i), !memset_in by lia. done.
Qed.

Lemma tls_backup_isolates_witness :
  exists r', with_tls_backup (UnpoisonParam 3) (rt0 (fun _ => 0)) = Done (tt, r') /\
    retval_tls (rt_tls r') 9 = 0.
Proof.
  eexists. split; [reflexivity|].
  apply (tls_backup_isolates (UnpoisonParam 3) (rt0 (fun _ => 0)) _ eq_refl). lia.
Defined.
