(* ===== verification/StaticRanges.v ===== *)
(** * The static ranges of the flipped convention

    The part of src/rt/cqmsan/cqmsan.cpp built with CQMSAN_FLIP_CONVENTION: the
    table of the loaded segments and of the calling thread's TLS blocks
    ([CollectPhdrRanges], [InitStaticRangeList]), and the query
    [__cqmsan_is_static_range] the slow path of an instrumented load makes.  Where
    zero is uninitialised, the memory the loader initialises would be reported on
    every read without it. *)

From S2P Require Import Prelude.

(** ** Data *)

Inductive p_type := PT_LOAD | PT_TLS | PT_OTHER.

Record Phdr := mkPhdr { ph_type : p_type; p_vaddr : Z; p_memsz : Z }.

(** One object of dl_iterate_phdr: its base, its headers, and the address of its
    TLS block in the calling thread, zero when it has none. *)
Record dl_phdr_info := mkInfo { dlpi_addr : Z; dlpi_phdr : list Phdr; dlpi_tls_data : Z }.

Record StaticRange := mkRange { start : Z; rend : Z }.

Definition kMaxStaticRanges : nat := 256.

(** The table, filled in order, and the two counters of the log. *)
Record ranges := mkRanges {
  g_static_ranges : list StaticRange;
  g_tls_segments_seen : Z;
  g_tls_ranges_added : Z
}.

(** ** Operations *)

Definition full (g : ranges) : bool := (kMaxStaticRanges <=? length (g_static_ranges g))%nat.

Definition register (first size : Z) (g : ranges) : list StaticRange :=
  g_static_ranges g ++ [mkRange first (first +64 size)].

Section collect.
(** whether the loader's structure is as large as the one compiled against *)
Context (size_ok : bool).

(** The loop over the headers; a full table returns from the callback. *)
Fixpoint CollectPhdrRanges (info : dl_phdr_info) (phdrs : list Phdr) (g : ranges) : ranges :=
  match phdrs with
  | [] => g
  | phdr :: phdrs =>
      match ph_type phdr with
      | PT_LOAD =>
          if full g then g else
          CollectPhdrRanges info phdrs
            (mkRanges (register (dlpi_addr info +64 p_vaddr phdr) (p_memsz phdr) g)
               (g_tls_segments_seen g) (g_tls_ranges_added g))
      | PT_TLS =>
          let g := mkRanges (g_static_ranges g) (g_tls_segments_seen g + 1) (g_tls_ranges_added g) in
          if negb size_ok then CollectPhdrRanges info phdrs g else
          if dlpi_tls_data info =? 0 then CollectPhdrRanges info phdrs g else
          if full g then g else
          CollectPhdrRanges info phdrs
            (mkRanges (register (dlpi_tls_data info) (p_memsz phdr) g)
               (g_tls_segments_seen g) (g_tls_ranges_added g + 1))
      | PT_OTHER => CollectPhdrRanges info phdrs g
      end
  end.

(** The callback always returns 0: every object is visited. *)
Definition InitStaticRangeList (objects : list dl_phdr_info) : ranges :=
  fold_left (fun g info => CollectPhdrRanges info (dlpi_phdr info) g) objects (mkRanges [] 0 0).

Definition __cqmsan_is_static_range (g : ranges) (addr : Z) : bool :=
  existsb (fun r => (start r <=? addr) && (addr <? rend r)) (g_static_ranges g).

(** ** What the table holds *)

(** The ranges an object asks for. *)
Definition segment_range (info : dl_phdr_info) (phdr : Phdr) : option StaticRange :=
  match ph_type phdr with
  | PT_LOAD => let a := dlpi_addr info +64 p_vaddr phdr in Some (mkRange a (a +64 p_memsz phdr))
  | PT_TLS => if size_ok && negb (dlpi_tls_data info =? 0)
              then Some (mkRange (dlpi_tls_data info) (dlpi_tls_data info +64 p_memsz phdr)) else None
  | PT_OTHER => None
  end.

Definition object_ranges (info : dl_phdr_info) (phdrs : list Phdr) : list StaticRange :=
  omap (segment_range info) phdrs.

Definition all_ranges (objects : list dl_phdr_info) : list StaticRange :=
  concat (map (fun info => object_ranges info (dlpi_phdr info)) objects).

Lemma full_take {A} (l x : list A) (k : nat) : (k <= length l)%nat -> take k (l ++ x) = take k l.
Proof. intros H. rewrite take_app_le by done. done. Qed.

(** An object appends its ranges, up to the table's size. *)
Lemma CollectPhdrRanges_table info phdrs g :
  (length (g_static_ranges g) <= kMaxStaticRanges)%nat ->
  g_static_ranges (CollectPhdrRanges info phdrs g)
  = take kMaxStaticRanges (g_static_ranges g ++ object_ranges info phdrs).
Proof.
  revert g. induction phdrs as [|phdr phdrs IH]; intros g Hg.
  { cbn [CollectPhdrRanges object_ranges omap list_omap]. rewrite app_nil_r, take_ge by done. done. }
  assert (forall r seen added, full g = false ->
    g_static_ranges (CollectPhdrRanges info phdrs (mkRanges (g_static_ranges g ++ [r]) seen added))
    = take kMaxStaticRanges (g_static_ranges g ++ r :: object_ranges info phdrs)) as Hadd.
  { intros r seen added Hf. rewrite IH; cbn [g_static_ranges]; [by rewrite <- app_assoc|].
    rewrite length_app. cbn [length]. unfold full in Hf. apply Nat.leb_gt in Hf. lia. }
  assert (forall l, full g = true -> g_static_ranges g = take kMaxStaticRanges (g_static_ranges g ++ l)) as Hfull.
  { intros l Hf. unfold full in Hf. apply Nat.leb_le in Hf. rewrite full_take by done. by rewrite take_ge by lia. }
  cbn [CollectPhdrRanges]. unfold object_ranges. cbn [omap list_omap]. unfold segment_range at 1.
  destruct (ph_type phdr).
  - destruct (full g) eqn:Hf; [by apply Hfull|]. by apply Hadd.
  - unfold full at 1. cbn [g_static_ranges]. fold (full g).
    destruct size_ok; cbn [negb andb]; [|by rewrite IH].
    destruct (dlpi_tls_data info =? 0); cbn [negb]; [by rewrite IH|].
    destruct (full g) eqn:Hf; [by apply Hfull|]. by apply Hadd.
  - by apply IH.
Qed.

Lemma InitStaticRangeList_table objects :
  g_static_ranges (InitStaticRangeList objects) = take kMaxStaticRanges (all_ranges objects).
Proof.
  unfold InitStaticRangeList, all_ranges.
  assert (forall g, (length (g_static_ranges g) <= kMaxStaticRanges)%nat ->
    g_static_ranges (fold_left (fun g info => CollectPhdrRanges info (dlpi_phdr info) g) objects g)
    = take kMaxStaticRanges (g_static_ranges g ++
        concat (map (fun info => object_ranges info (dlpi_phdr info)) objects))) as H.
  { induction objects as [|info objects IH]; intros g Hg; cbn [fold_left map concat].
    - by rewrite app_nil_r, take_ge by done.
    - rewrite IH; rewrite CollectPhdrRanges_table by done; [|rewrite length_take; lia].
      rewrite app_assoc. set (l := g_static_ranges g ++ _). set (x := concat _).
      destruct (decide (length l <= kMaxStaticRanges)%nat).
      + by rewrite (take_ge l) by done.
      + rewrite !full_take by (rewrite ?length_take; lia). by rewrite take_take, Nat.min_id. }
  by rewrite H by (cbn; lia).
Qed.
End collect.

(** the table never overflows its 256 entries, and the query answers true
    exactly for the addresses in one of the first 256 segments the loader
    reports: every loadable segment, and the TLS block of the calling thread for
    every object that has one.  With at most 256 segments none is missing. *)
Theorem static_ranges_exact size_ok objects addr :
  let g := InitStaticRangeList size_ok objects in
  let segments := all_ranges size_ok objects in
  (length (g_static_ranges g) <= 256)%nat /\
  (__cqmsan_is_static_range g addr = true <->
   exists i r, (i < 256)%nat /\ segments !! i = Some r /\ start r <= addr < rend r) /\
  ((length segments <= 256)%nat -> g_static_ranges g = segments).
Proof.
  intros g segments. unfold g. unfold __cqmsan_is_static_range. rewrite InitStaticRangeList_table.
  fold segments. split; [rewrite length_take; unfold kMaxStaticRanges; lia|]. split.
  - rewrite existsb_exists_elem. split.
    + intros (r & Hr & Ha). apply list_elem_of_lookup in Hr as (i & Hi).
      apply lookup_take_Some in Hi as [Hi Hlt]. exists i, r. bool_hyps. split_and!; (done || lia).
    + intros (i & r & Hlt & Hi & Ha). exists r. split; [|lia].
      apply list_elem_of_lookup. exists i. by apply lookup_take_Some.
  - intros Hle. by apply take_ge.
Qed.
