(* ===== verification/Interceptors.v ===== *)
(** * Interceptors: the C library functions the runtime wraps

    [cqmsan_interceptors.cpp]: each wrapper calls the C library ([real], the call
    as the library performs it on the process's memory, with its result) and then
    marks what the library wrote as initialised.  [MAP_FAILED], [-1] of [SIZE_T]
    and null pointers are the integers they are. *)

From S2P Require Import Prelude Common Memory Libc Layout Poisoning UmrMap Interface.

Definition CLibCall : Type := mem -> Z * mem.

Section interceptors.
Context (c : Ctx).

Let unpoison := __cqmsan_unpoison c.
Let ENSURE := ENSURE_CQMSAN_INITED c.

(** The scope object: nested interceptors skip their checks. *)
Definition InterceptorScope {A} (m : M A) : M A :=
  modify (fun r => set_scope (in_interceptor_scope r + 1) r);;
  a ← m;
  modify (fun r => set_scope (in_interceptor_scope r - 1) r);;
  mret a.

(** *** Memory and strings *)

Definition fread_unlocked (real : CLibCall) (ptr size nmemb : Z) : M Z :=
  ENSURE;;
  res ← REAL real;
  when (0 <? res) (unpoison ptr (res *64 size));;
  mret res.

Definition mempcpy (dest src n : Z) : M Z :=
  p ← __cqmsan_memcpy c dest src n; mret (p + n).

Definition memccpy (pc : Z) (real : CLibCall) (dest src n : Z) : M Z :=
  ENSURE;;
  res ← REAL real;
  CHECK ((res =? 0) || (dest <=? res) && (res <=? dest + n)) "CHECK(!res || ...)";;
  let sz := if negb (res =? 0) then res - dest else n in
  CHECK_UNPOISONED c pc src sz;;
  unpoison dest sz;;
  mret res.

Definition bcopy (src dest n : Z) : M Z := __cqmsan_memmove c dest src n.

Definition strcpy (pc : Z) (real : CLibCall) (dest src : Z) : M Z :=
  ENSURE;;
  n ← strlen_M c src;
  CHECK_UNPOISONED_STRING c pc (src + n) 0;;
  res ← REAL real;
  unpoison dest (n + 1);;
  mret res.

Definition strncpy (real : CLibCall) (dest src n : Z) : M Z :=
  ENSURE;; res ← REAL real; unpoison dest n;; mret res.

Definition stpcpy (real : CLibCall) (dest src : Z) : M Z :=
  ENSURE;; n ← strlen_M c src; res ← REAL real; unpoison dest (n + 1);; mret res.

Definition stpncpy (real : CLibCall) (dest src n : Z) : M Z :=
  ENSURE;; res ← REAL real; unpoison dest n;; mret res.

Definition strdup (real : CLibCall) (src : Z) : M Z :=
  ENSURE;; n ← strlen_M c src; res ← REAL real; unpoison res (n + 1);; mret res.

Definition __strdup (real : CLibCall) (src : Z) : M Z :=
  ENSURE;; n ← strlen_M c src; res ← REAL real; unpoison res (n + 1);; mret res.

Definition gcvt (real : CLibCall) (buf : Z) : M Z :=
  ENSURE;; res ← REAL real; n ← strlen_M c buf; unpoison buf (n + 1);; mret res.

Definition strcat (real : CLibCall) (dest src : Z) : M Z :=
  ENSURE;;
  src_size ← strlen_M c src;
  dest_size ← strlen_M c dest;
  res ← REAL real;
  unpoison (dest + dest_size) (src_size + 1);;
  mret res.

Definition strncat (real : CLibCall) (dest src n : Z) : M Z :=
  ENSURE;;
  dest_size ← strlen_M c dest;
  copy_size ← strnlen_M c src n;
  res ← REAL real;
  unpoison (dest + dest_size) (copy_size + 1);;
  mret res.

Definition INTERCEPTOR_STRTO_BODY (real : CLibCall) (endptr : Z) : M Z :=
  ENSURE;; res ← REAL real; unpoison endptr 8;; mret res.

(** *** Formatting, multibyte and wide characters *)

Definition vswprintf (real : CLibCall) (str : Z) : M Z :=
  ENSURE;;
  res ← REAL real;
  when (0 <=? res) (unpoison str (4 * (res + 1)));;
  mret res.

Definition swprintf (real : CLibCall) (str : Z) : M Z := ENSURE;; vswprintf real str.

Definition INTERCEPTOR_STRFTIME_BODY (char_size : Z) (real : CLibCall) (s : Z) : M Z :=
  ENSURE;;
  InterceptorScope (
    res ← REAL real;
    when (negb (s =? 0)) (unpoison s (char_size * (res + 1)));;
    mret res).

Definition mbtowc (real : CLibCall) (dest : Z) : M Z :=
  ENSURE;;
  res ← REAL real;
  when (negb (res =? -1) && negb (dest =? 0)) (unpoison dest 4);;
  mret res.

Definition mbrtowc (real : CLibCall) (dest : Z) : M Z :=
  ENSURE;;
  res ← REAL real;
  when (negb (res =? 2 ^ 64 - 1) && negb (dest =? 0)) (unpoison dest 4);;
  mret res.

Definition wmemcpy (real : CLibCall) (dest n : Z) : M Z :=
  ENSURE;; res ← REAL real; unpoison dest (n *64 4);; mret res.

Definition wmempcpy (real : CLibCall) (dest n : Z) : M Z :=
  ENSURE;; res ← REAL real; unpoison dest (n *64 4);; mret res.

Definition wmemset (real : CLibCall) (s n : Z) : M Z :=
  CHECK (MEM_IS_APP (cP c) s) "CHECK(MEM_IS_APP(s))";;
  ENSURE;; res ← REAL real; unpoison s (n *64 4);; mret res.

Definition wmemmove (real : CLibCall) (dest n : Z) : M Z :=
  ENSURE;; res ← REAL real; unpoison dest (n *64 4);; mret res.

Definition wcscmp (real : CLibCall) : M Z := ENSURE;; REAL real.
Definition wcschr (real : CLibCall) : M Z := ENSURE;; REAL real.

Definition wcscpy (real : CLibCall) (dest src : Z) : M Z :=
  ENSURE;;
  res ← REAL real;
  n ← wcslen_M c src;
  unpoison dest (4 * (n + 1));;
  mret res.

Definition wcsncpy (real : CLibCall) (dest src n : Z) : M Z :=
  ENSURE;;
  copy_size ← wcsnlen_M c src n;
  res ← REAL real;
  unpoison dest (n *64 4);;
  mret res.

(** *** Time, environment, files *)

Definition gettimeofday (real : CLibCall) (tv tz : Z) : M Z :=
  ENSURE;;
  res ← REAL real;
  when (negb (tv =? 0)) (unpoison tv 16);;
  when (negb (tz =? 0)) (unpoison tz 8);;
  mret res.

Definition unpoison_cstr (p : Z) : M unit := n ← strlen_M c p; unpoison p (n + 1).

Definition fcvt (real : CLibCall) (b d : Z) : M Z :=
  ENSURE;;
  res ← REAL real;
  unpoison b 4;; unpoison d 4;;
  when (negb (res =? 0)) (unpoison_cstr res);;
  mret res.

(** A wrapper that goes straight to the library while the runtime starts. *)
Definition or_real (real : CLibCall) (m : M Z) : M Z :=
  r ← get; if cqmsan_init_is_running r then REAL real else m.

Definition getenv (real : CLibCall) : M Z :=
  or_real real (
    ENSURE;;
    res ← REAL real;
    when (negb (res =? 0)) (unpoison_cstr res);;
    mret res).

(** [environ] is the address of the vector; the walk ends at its null entry. *)
Fixpoint UnpoisonEnviron_loop (fuel : nat) (envp : Z) : M unit :=
  match fuel with
  | O => lift (Died "no terminator")
  | S f =>
      r ← get;
      let e := load64 (rt_mem r) envp in
      if e =? 0 then unpoison envp 8
      else unpoison envp 8;; unpoison_cstr e;; UnpoisonEnviron_loop f (envp + 8)
  end.

Definition UnpoisonEnviron (environ : Z) : M unit := UnpoisonEnviron_loop (cFuel c) environ.

Definition setenv (pc : Z) (real : CLibCall) (name environ : Z) : M Z :=
  ENSURE;;
  CHECK_UNPOISONED_STRING c pc name 0;;
  res ← REAL real;
  when (res =? 0) (UnpoisonEnviron environ);;
  mret res.

Definition putenv (real : CLibCall) (environ : Z) : M Z :=
  ENSURE;; res ← REAL real; when (res =? 0) (UnpoisonEnviron environ);; mret res.

(** fstat, fstat64, __fxstat, __fxstat64, fstatat, fstatat64, __fxstatat,
    __fxstatat64: the structure's size is the only difference. *)
Definition stat_interceptor (real : CLibCall) (buf size : Z) : M Z :=
  ENSURE;; res ← REAL real; when (res =? 0) (unpoison buf size);; mret res.

Definition pipe (real : CLibCall) (pipefd : Z) : M Z :=
  or_real real (ENSURE;; res ← REAL real; when (res =? 0) (unpoison pipefd 8);; mret res).

Definition pipe2 (real : CLibCall) (pipefd : Z) : M Z :=
  ENSURE;; res ← REAL real; when (res =? 0) (unpoison pipefd 8);; mret res.

Definition socketpair (real : CLibCall) (sv : Z) : M Z :=
  ENSURE;; res ← REAL real; when (res =? 0) (unpoison sv 8);; mret res.

Definition fgets_unlocked (real : CLibCall) (s : Z) : M Z :=
  ENSURE;;
  res ← REAL real;
  when (negb (res =? 0)) (unpoison_cstr s);;
  mret res.

(** [real_getrlimit] is what the wrapper of every function of the family calls
    during start-up. *)
Definition INTERCEPTOR_GETRLIMIT_BODY (real_getrlimit real : CLibCall) (rlim size : Z) : M Z :=
  r ← get;
  if cqmsan_init_is_running r then REAL real_getrlimit else
  ENSURE;; res ← REAL real; when (res =? 0) (unpoison rlim size);; mret res.

Definition getrlimit64 (real : CLibCall) (rlim size : Z) : M Z :=
  or_real real (ENSURE;; res ← REAL real; when (res =? 0) (unpoison rlim size);; mret res).

(** prlimit and prlimit64. *)
Definition prlimit (pc : Z) (real : CLibCall) (new_rlimit old_rlimit size : Z) : M Z :=
  or_real real (
    ENSURE;;
    CHECK_UNPOISONED c pc new_rlimit size;;
    res ← REAL real;
    when (res =? 0) (unpoison old_rlimit size);;
    mret res).

Definition gethostname (real : CLibCall) (errno_is_ENAMETOOLONG : bool) (name len : Z) : M Z :=
  ENSURE;;
  res ← REAL real;
  (if (res =? 0) || ((res =? -1) && errno_is_ENAMETOOLONG) then
     real_len ← strnlen_M c name len;
     unpoison name (if real_len <? len then real_len + 1 else real_len)
   else mret tt);;
  mret res.

(** epoll_wait and epoll_pwait. *)
Definition epoll_wait (real : CLibCall) (events size : Z) : M Z :=
  ENSURE;; res ← REAL real; when (0 <? res) (unpoison events (size * res));; mret res.

Definition getrusage (real : CLibCall) (usage size : Z) : M Z :=
  ENSURE;; res ← REAL real; when (res =? 0) (unpoison usage size);; mret res.

(** *** Explicit annotations *)

Definition PoisonMemory_M (data size : Z) : M unit := fun r =>
  match PoisonMemory (cP c) (cEnv c) track_origins false 0 (rt_mem r) data size with
  | Done m' => Done (tt, set_mem m' r)
  | Died w => Died w
  end.

Definition __cqmsan_allocated_memory (poison_in_malloc : bool) (data size : Z) : M unit :=
  when poison_in_malloc (PoisonMemory_M data size).

Definition __sanitizer_dtor_callback (poison_in_dtor : bool) (data size : Z) : M unit :=
  when poison_in_dtor (PoisonMemory_M data size).

Definition __sanitizer_dtor_callback_fields (poison_in_dtor : bool) (data size : Z) : M unit :=
  when poison_in_dtor (PoisonMemory_M data size).

Definition __sanitizer_dtor_callback_vptr (poison_in_dtor : bool) (data : Z) : M unit :=
  when poison_in_dtor (PoisonMemory_M data 8).

(** *** Memory mappings *)

Definition MAP_FAILED : Z := -1.

(** [real_mmap addr] is the system call at the possibly cleared hint;
    [internal_munmap] drops a mapping the shadow cannot cover. *)
Definition mmap_interceptor (real_mmap : Z -> CLibCall) (internal_munmap : Z -> mem -> mem)
    (addr length : Z) (map_fixed : bool) : M Z :=
  rounded_length ← lift (RoundUpTo length (page_size (cEnv c)));
  let end_addr := addr +64 rounded_length -64 1 in
  if negb (addr =? 0) && (negb (MEM_IS_APP (cP c) addr) || negb (MEM_IS_APP (cP c) end_addr)) &&
     map_fixed
  then mret MAP_FAILED
  else
    let addr :=
      if negb (addr =? 0) && (negb (MEM_IS_APP (cP c) addr) || negb (MEM_IS_APP (cP c) end_addr))
      then 0 else addr in
    res ← REAL (real_mmap addr);
    if negb (res =? MAP_FAILED) then
      let end_res := res +64 rounded_length -64 1 in
      if MEM_IS_APP (cP c) res && MEM_IS_APP (cP c) end_res then
        unpoison res rounded_length;; mret res
      else
        modify (fun r => set_mem (internal_munmap res (rt_mem r)) r);; mret MAP_FAILED
    else mret res.

(** *** Threads *)

Definition pthread_create_result (real : CLibCall) (th size : Z) : M Z :=
  res ← REAL real; when (res =? 0) (unpoison th size);; mret res.

Definition pthread_key_create (real : CLibCall) (key size : Z) : M Z :=
  or_real real (
    ENSURE;;
    res ← REAL real;
    when ((res =? 0) && negb (key =? 0)) (unpoison key size);;
    mret res).

(** pthread_join, pthread_tryjoin_np and pthread_timedjoin_np. *)
Definition pthread_join (real : CLibCall) (retval : Z) : M Z :=
  ENSURE;;
  res ← REAL real;
  when ((res =? 0) && negb (retval =? 0)) (unpoison retval 8);;
  mret res.

Definition tzset (real : CLibCall) (tzname0 tzname1 : Z) : M Z :=
  ENSURE;;
  InterceptorScope (
    res ← REAL real;
    when (negb (tzname0 =? 0)) (unpoison_cstr tzname0);;
    when (negb (tzname1 =? 0)) (unpoison_cstr tzname1);;
    mret res).

(** openpty writes two descriptors, forkpty one. *)
Definition openpty (real : CLibCall) (aparent aworker : Z) : M Z :=
  ENSURE;;
  InterceptorScope (
    res ← REAL real;
    when (res =? 0) (unpoison aparent 4;; unpoison aworker 4);;
    mret res).

Definition forkpty (real : CLibCall) (aparent : Z) : M Z :=
  ENSURE;;
  InterceptorScope (
    res ← REAL real;
    when (negb (res =? -1)) (unpoison aparent 4);;
    mret res).

(** *** Common interceptors *)

(** COMMON_INTERCEPTOR_ENTER around a body, with the address of [errno]. *)
Definition COMMON_INTERCEPTOR_ENTER (errno_location : Z) (real : CLibCall) (body : M Z) : M Z :=
  or_real real (
    ENSURE;;
    InterceptorScope (unpoison errno_location 4;; body)).

Definition COMMON_INTERCEPTOR_COPY_STRING (to size : Z) : M unit := unpoison to (size + 1).

(** strsignal and dlerror. *)
Definition strsignal (errno_location : Z) (real : CLibCall) : M Z :=
  COMMON_INTERCEPTOR_ENTER errno_location real (
    res ← REAL real;
    when (negb (res =? 0)) (unpoison_cstr res);;
    mret res).

(** [segsz] is the size [shmctl] answers, when it succeeds. *)
Definition shmat_interceptor (real : CLibCall) (shmctl : Z -> option Z) : M Z :=
  ENSURE;;
  p ← REAL real;
  (if negb (p =? -1) then
     match shmctl p with Some segsz => unpoison p segsz | None => mret tt end
   else mret tt);;
  mret p.

(** The fields of [dl_phdr_info] the callback wrapper reads. *)
Definition cqmsan_dl_iterate_phdr_cb (phdr_size info size dlpi_phdr dlpi_phnum dlpi_name : Z)
    (callback : M Z) : M Z :=
  (if negb (info =? 0) then
     unpoison info size;;
     when (negb (dlpi_phdr =? 0) && negb (dlpi_phnum =? 0))
       (unpoison dlpi_phdr (phdr_size * dlpi_phnum));;
     when (negb (dlpi_name =? 0)) (unpoison_cstr dlpi_name)
   else mret tt);;
  UnpoisonParam 3;;
  callback.
End interceptors.

(** ** Lemmas *)

(** The library call writes nothing outside of [d, d+n). *)
Definition writes_only (real : CLibCall) (m : mem) (d n : Z) : Prop :=
  forall x, ~ d <= x < d + n -> (real m).2 x = m x.

(** What a faithful wrapper of such a call leaves: the library's result and
    bytes, the written range defined, every other application byte as it was. *)
Definition wrapped (c : Ctx) (real : CLibCall) (d n : Z) (call : M Z) (r : Rt) : Prop :=
  exists m', call r = Done ((real (rt_mem r)).1, set_mem m' r) /\
    refines (cP c) (rt_mem r) m' (fun b =>
      if in_range d n b then ((real (rt_mem r)).2 b, kCleanByte c)
      else view (cP c) (rt_mem r) b).

Section wrapper_lemmas.
Context (c : Ctx) `{!ShadowLayout (cP c)} (Henv : env_ok (cEnv c)).

Lemma REAL_unpoison real d n r :
  app_buffer (cP c) d n -> 0 <= n -> writes_only real (rt_mem r) d n ->
  wrapped c real d n (res ← REAL real; __cqmsan_unpoison c d n;; mret res) r.
Proof.
  intros Hbuf Hn Hw. unfold wrapped, REAL, mbind, M_bind.
  destruct (real (rt_mem r)) as [v m1] eqn:E.
  destruct (unpoison_total c Henv d n (set_mem m1 r) Hbuf Hn) as (m' & -> & Href).
  exists m'. split; [by destruct r|]. intros b Hb. rewrite (Href b Hb). cbn [rt_mem set_mem fst snd].
  assert (forall x, ~ d <= x < d + n -> m1 x = rt_mem r x) as Hw'
    by (intros x Hx; rewrite <- (Hw x Hx); by rewrite E).
  destruct (in_range d n b) eqn:Eb.
  - apply in_range_true in Eb. assert (MEM_IS_APP (cP c) d = true) as ->; [|done].
    specialize (Hbuf 0). rewrite Z.add_0_r in Hbuf. apply Hbuf. lia.
  - apply in_range_false in Eb. cbn [andb]. unfold view. rewrite !Hw'; [done| |done].
    intros Hin. pose proof (sl_shadow_not_app b Hb) as Hna.
    rewrite <- (Zplus_minus d (MEM_TO_SHADOW (cP c) b)) in Hna.
    rewrite Hbuf in Hna; [done|lia].
Qed.

Lemma ENSURE_up {A} (m : M A) r :
  runtime_up r -> (ENSURE_CQMSAN_INITED c;; m) r = m r.
Proof.
  intros (Hi & Hr & _). unfold mbind, M_bind, ENSURE_CQMSAN_INITED. by rewrite Hi, Hr.
Qed.

Lemma strlen_M_string s n r {A} (k : Z -> M A) :
  c_string (rt_mem r) s n -> n < Z.of_nat (cFuel c) ->
  (x ← strlen_M c s; k x) r = k n r.
Proof.
  intros Hs Hf. unfold mbind, M_bind, strlen_M. by rewrite (internal_strlen_total _ _ _ _ Hs Hf).
Qed.

Lemma strnlen_M_string s n j r {A} (k : Z -> M A) :
  c_string (rt_mem r) s n -> n < Z.of_nat (cFuel c) -> 0 <= j ->
  (x ← strnlen_M c s j; k x) r = k (Z.min n j) r.
Proof.
  intros Hs Hf Hj. unfold mbind, M_bind, strnlen_M.
  by rewrite (internal_strnlen_total _ _ _ _ _ Hs Hf Hj).
Qed.

Lemma wrapped_string_calls real dest src ns nd n r :
  runtime_up r -> c_string (rt_mem r) src ns -> c_string (rt_mem r) dest nd ->
  ns < Z.of_nat (cFuel c) -> nd < Z.of_nat (cFuel c) -> 0 <= n ->
  let w d k call :=
    app_buffer (cP c) d k -> writes_only real (rt_mem r) d k -> wrapped c real d k call r in
  w dest (ns + 1) (stpcpy c real dest src) /\
  w dest n (strncpy c real dest src n) /\
  w dest n (stpncpy c real dest src n) /\
  w (dest + nd) (ns + 1) (strcat c real dest src) /\
  w (dest + nd) (Z.min ns n + 1) (strncat c real dest src n).
Proof.
  intros Hup Hs Hd Hfs Hfd Hn w.
  assert (0 <= ns) as Hns by (by destruct Hs). assert (0 <= nd) as Hnd by (by destruct Hd).
  assert (forall call d k, call r = (res ← REAL real; __cqmsan_unpoison c d k;; mret res) r ->
    0 <= k -> w d k call) as Hw.
  { intros call d k E Hk Hbuf Hwr. unfold wrapped. rewrite E. by apply REAL_unpoison. }
  repeat split; apply Hw; try lia.
  - unfold stpcpy. rewrite ENSURE_up by done. by rewrite (strlen_M_string src ns).
  - unfold strncpy. by rewrite ENSURE_up.
  - unfold stpncpy. by rewrite ENSURE_up.
  - unfold strcat. rewrite ENSURE_up by done. rewrite (strlen_M_string src ns) by done.
    by rewrite (strlen_M_string dest nd).
  - unfold strncat. rewrite ENSURE_up by done. rewrite (strlen_M_string dest nd) by done.
    by rewrite (strnlen_M_string src ns).
Qed.
End wrapper_lemmas.

(** ** Properties *)

(** C26: the wrappers of the string functions mark exactly what the C library
    writes: for every library implementation that stays inside the extent the
    standard gives (n bytes for strncpy and stpncpy, the string and its
    terminator otherwise, at the end of the destination for strcat and strncat),
    the call returns the library's result, the extent is defined afterwards and
    no other byte of the program changes its value or its shadow. *)
Theorem string_wrappers_define_output c (L : ShadowLayout (cP c)) real dest src ns nd n r :
  env_ok (cEnv c) -> runtime_up r ->
  c_string (rt_mem r) src ns -> c_string (rt_mem r) dest nd ->
  ns < Z.of_nat (cFuel c) -> nd < Z.of_nat (cFuel c) -> 0 <= n ->
  let w d k call :=
    app_buffer (cP c) d k -> writes_only real (rt_mem r) d k -> wrapped c real d k call r in
  w dest (ns + 1) (stpcpy c real dest src) /\
  w dest n (strncpy c real dest src n) /\
  w dest n (stpncpy c real dest src n) /\
  w (dest + nd) (ns + 1) (strcat c real dest src) /\
  w (dest + nd) (Z.min ns n + 1) (strncat c real dest src n).
Proof. intros Henv. exact (wrapped_string_calls c Henv real dest src ns nd n r). Qed.

Lemma string_wrappers_define_output_witness :
  let m := store8 (store8 (fun _ => 0) 8192 65) 0x500000001005 255 in
  let real : CLibCall := fun m => (4096, memset m 4096 65 8) in
  exists m', strncpy ctx0 real 4096 8192 8 (rt0 m) = Done (4096, set_mem m' (rt0 m)) /\
    view linux_x86_64 m' 4101 = (65, 0).
Proof.
  intros m real.
  assert (c_string m 8192 1 /\ c_string m 4096 0) as [Hs Hd].
  { split; (split; [lia|split; [reflexivity|]]); intros i Hi; [|lia].
    by assert (i = 0) as -> by lia. }
  destruct (string_wrappers_define_output ctx0 x86_64_shadow_layout real 4096 8192 1 0 8 (rt0 m)
    linux_env_ok ltac:(done) Hs Hd ltac:(cbn; lia) ltac:(cbn; lia) ltac:(lia)) as (_ & H & _).
  destruct H as (m' & H & Href).
  - by apply app1_buffer.
  - intros x Hx. cbn. by apply memset_out.
  - exists m'. split; [exact H|].
    exact (Href 4101 (app1_buffer 4101 1 ltac:(lia) ltac:(lia) 0 ltac:(lia))).
Defined.

(** mmap never hands the program memory without shadow: a fixed request
    outside of application memory is refused before the system call, any other
    such hint is dropped, and a mapping the kernel places outside is unmapped and
    reported as a failure; what is returned starts and ends in application
    memory. *)
Theorem mmap_stays_in_app_memory c real_mmap munmap addr length fixed r p r' :
  mmap_interceptor c real_mmap munmap addr length fixed r = Done (p, r') ->
  (p <> MAP_FAILED ->
     MEM_IS_APP (cP c) p = true /\
     exists rounded, RoundUpTo length (page_size (cEnv c)) = Done rounded /\
       MEM_IS_APP (cP c) (p +64 rounded -64 1) = true) /\
  (fixed = true -> addr <> 0 -> MEM_IS_APP (cP c) addr = false -> p = MAP_FAILED /\ r' = r).
Proof.
  unfold mmap_interceptor, mbind, M_bind, lift, mret, M_ret, modify.
  destruct (RoundUpTo length (page_size (cEnv c))) as [rounded|] eqn:Er; [|done].
  set (bad := negb (addr =? 0) && _). intros H. split.
  - intros Hp. destruct (bad && fixed); [injection H as <- _; done|].
    destruct (REAL _ r) as [[res r1]|]; [|done].
    destruct (negb (res =? MAP_FAILED)) eqn:Ef.
    + destruct (MEM_IS_APP (cP c) res && MEM_IS_APP (cP c) (res +64 rounded -64 1)) eqn:Ea.
      * destruct (__cqmsan_unpoison c res rounded r1) as [[? r2]|]; [|done].
        injection H as <- _. apply andb_true_iff in Ea as [Ha1 Ha2]. eauto.
      * by injection H as <- _.
    + injection H as <- _. apply negb_false_iff, Z.eqb_eq in Ef. done.
  - intros -> Hne Happ. assert (bad = true) as Hb.
    { unfold bad. rewrite Happ. by rewrite (proj2 (Z.eqb_neq addr 0) Hne). }
    rewrite Hb in H. cbn [andb] in H. injection H as <- <-. done.
Qed.

Lemma mmap_stays_in_app_memory_witness :
  let call := mmap_interceptor ctx0 (fun a m => (0x700000000000, m)) (fun _ m => m) 0 10 false
    (rt0 (fun _ => 0)) in
  match call with Done (p, _) => p = 0x700000000000 /\ MEM_IS_APP linux_x86_64 p = true
                | Died _ => False end.
Proof.
  intros call. assert (match call with Done (p, _) => p =? 0x700000000000 | Died _ => false end = true)
    as Hp by reflexivity.
  destruct call as [[p r']|] eqn:E; [|discriminate]. apply Z.eqb_eq in Hp. split; [done|].
  refine (proj1 (proj1 (mmap_stays_in_app_memory ctx0 (fun a m => (0x700000000000, m))
    (fun _ m => m) 0 10 false (rt0 (fun _ => 0)) p r' E) _)). rewrite Hp. discriminate.
Defined.
