(* ===== verification/Signals.v ===== *)
(** * Signals: wrapped signal handlers and exit handlers

    The stateful wrappers of [cqmsan_interceptors.cpp]: [sigaction_impl],
    [signal_impl] and the two trampolines that dispatch through [sigactions];
    [setup_at_exit_wrapper] with its stack of records; and [CQMsanAtExit] of
    [cqmsan_linux.cpp].  The kernel's table of dispositions and the C library's
    list of exit functions are explicit state. *)

From S2P Require Import Prelude.

(** ** Signals *)

(** A handler as the kernel's table holds it: the two special values, the
    runtime's trampolines, [SIG_ERR], and the program's functions. *)
Inductive handler :=
| SIG_DFL | SIG_IGN | SIG_ERR
| SignalHandler | SignalAction
| App (f : Z).

#[export] Instance handler_eq_dec : EqDecision handler.
Proof. solve_decision. Defined.

Record sigact := mkAct { act_handler : handler; sa_siginfo : bool }.

Record SigState := mkSig {
  sigactions : Z -> handler;      (* the runtime's table, zero (SIG_DFL) at first *)
  kernel : Z -> sigact            (* the kernel's dispositions *)
}.

Definition kMaxSignals : Z := 1024.

Definition fset {A} (f : Z -> A) (i : Z) (v : A) : Z -> A := fun j => if j =? i then v else f j.

Definition is_trampoline (h : handler) : bool :=
  match h with SignalHandler | SignalAction => true | _ => false end.

Section signals.
(** [kernel_accepts signo] is false for the signals the kernel refuses to
    redirect; [wrap_signals] is the run-time flag. *)
Context (kernel_accepts : Z -> bool) (wrap_signals : bool).

(** REAL(sigaction): the result and the old disposition. *)
Definition real_sigaction (signo : Z) (act : option sigact) (st : SigState)
    : Z * sigact * SigState :=
  let old := kernel st signo in
  match act with
  | None => (0, old, st)
  | Some a =>
      if kernel_accepts signo then (0, old, mkSig (sigactions st) (fset (kernel st) signo a))
      else (-1, old, st)
  end.

(** The result and what [*oldact] receives when the program asked for it. *)
Definition sigaction_impl (signo : Z) (act : option sigact) (st : SigState)
    : Z * option sigact * SigState :=
  if (signo <=? 0) || (kMaxSignals <=? signo) then (-1, None, st) else
  if wrap_signals then
    let old_cb := sigactions st signo in
    let '(new_act, st) :=
      match act with
      | None => (None, st)
      | Some a =>
          let cb := act_handler a in
          let new_cb := if sa_siginfo a then SignalAction else SignalHandler in
          if negb (bool_decide (cb = SIG_IGN)) && negb (bool_decide (cb = SIG_DFL)) then
            (Some (mkAct new_cb (sa_siginfo a)),
             mkSig (fset (sigactions st) signo cb) (kernel st))
          else (Some a, st)
      end in
    let '(res, old, st) := real_sigaction signo new_act st in
    if res =? 0 then
      let cb := act_handler old in
      (res, Some (if bool_decide (cb = SignalAction) || bool_decide (cb = SignalHandler)
                  then mkAct old_cb (sa_siginfo old) else old), st)
    else (res, None, st)
  else
    let '(res, old, st) := real_sigaction signo act st in
    (res, if res =? 0 then Some old else None, st).

Definition signal_impl (signo : Z) (cb : handler) (st : SigState) : handler * SigState :=
  if (signo <=? 0) || (kMaxSignals <=? signo) then (SIG_ERR, st) else
  if wrap_signals && negb (bool_decide (cb = SIG_IGN)) && negb (bool_decide (cb = SIG_DFL))
  then (SignalHandler, mkSig (fset (sigactions st) signo cb) (kernel st))
  else (cb, st).

(** SIGNAL_INTERCEPTOR_SIGNAL_IMPL: the wrapper of signal(2). *)
Definition signal_interceptor (signo : Z) (h : handler) (st : SigState) : handler * SigState :=
  let '(h, st) := signal_impl signo h st in
  if (signo <=? 0) || (kMaxSignals <=? signo) || negb (kernel_accepts signo) then (SIG_ERR, st)
  else (act_handler (kernel st signo),
        mkSig (sigactions st) (fset (kernel st) signo (mkAct h false))).

(** Delivering a signal: a trampoline calls what [sigactions] holds.  [None]
    when the calls nest deeper than the fuel. *)
Fixpoint deliver (fuel : nat) (h : handler) (signo : Z) (st : SigState) : option handler :=
  match fuel with
  | O => None
  | S f => if is_trampoline h then deliver f (sigactions st signo) signo st else Some h
  end.

Definition raise (fuel : nat) (signo : Z) (st : SigState) : option handler :=
  deliver fuel (act_handler (kernel st signo)) signo st.
End signals.

(** ** Exit handlers *)

(** An entry of the C library's list: the wrapper of an atexit function, whose
    record is on the runtime's stack, or the wrapper of a __cxa_atexit function
    with its own record.  A record is the function and its argument. *)
Inductive exit_entry := CQMSanAtExitWrapper | CQMSanCxaAtExitWrapper (f arg : Z).

Record ExitState := mkExit {
  AtExitStack : list (Z * Z);       (* the last record is the top *)
  libc_list : list exit_entry       (* the head runs first *)
}.

Definition setup_at_exit_wrapper (real_ok : bool) (f arg : Z) (dso : bool) (st : ExitState)
    : Z * ExitState :=
  let res := if real_ok then 0 else -1 in
  if negb dso then
    (res, if res =? 0
          then mkExit (AtExitStack st ++ [(f, arg)]) (CQMSanAtExitWrapper :: libc_list st)
          else st)
  else
    (res, if res =? 0
          then mkExit (AtExitStack st) (CQMSanCxaAtExitWrapper f arg :: libc_list st)
          else st).

(** One wrapper runs: the function called, and whether it gets its argument. *)
Definition run_exit_entry (e : exit_entry) (st : ExitState) : outcome (Z * option Z * ExitState) :=
  match e with
  | CQMSanAtExitWrapper =>
      let element := (length (AtExitStack st) - 1)%nat in
      match AtExitStack st !! element with
      | None => Died "Vector index out of range"
      | Some r => mret (r.1, None, mkExit (take element (AtExitStack st)) (libc_list st))
      end
  | CQMSanCxaAtExitWrapper f arg => mret (f, Some arg, st)
  end.

(** exit(3): the C library runs its list from the head. *)
Fixpoint run_exit (l : list exit_entry) (stack : list (Z * Z)) : outcome (list (Z * option Z)) :=
  match l with
  | [] => mret []
  | e :: l' =>
      r ← run_exit_entry e (mkExit stack l');
      let '(f, arg, st) := r in
      rest ← run_exit l' (AtExitStack st);
      mret ((f, arg) :: rest)
  end.

(** A program registers functions: whether the library accepted, the function,
    its argument and whether a shared object is given. *)
Definition register (st : ExitState) (q : bool * Z * Z * bool) : ExitState :=
  let '(ok, f, arg, dso) := q in (setup_at_exit_wrapper ok f arg dso st).2.

(** *** CQMsanAtExit *)

Record AtExitFlags := mkAtExitFlags {
  ae_print_stats : bool; ae_atexit : bool; ae_verbosity : Z; ae_exitcode : Z
}.

Inductive at_exit_action := ReportStats | ReportAtExitStatistics | internal__exit (code : Z).

Definition CQMsanAtExit (fl : AtExitFlags) (report_count : Z) : list at_exit_action :=
  (if ae_print_stats fl && (ae_atexit fl || (0 <? report_count)) then [ReportStats] else []) ++
  (if 0 <? report_count then
     (if ae_print_stats fl || (0 <? ae_verbosity fl) then [ReportAtExitStatistics] else []) ++
     (if negb (ae_exitcode fl =? 0) then [internal__exit (ae_exitcode fl)] else [])
   else []).

(** ** Lemmas *)

(** The disposition the program believes is installed. *)
Definition program_view (st : SigState) (signo : Z) : handler :=
  let h := act_handler (kernel st signo) in
  if is_trampoline h then sigactions st signo else h.

Definition is_program_handler (h : handler) : bool :=
  match h with SIG_DFL | SIG_IGN | App _ => true | _ => false end.

(** No trampoline and no error value in the runtime's table or, as the program
    sees it, in the kernel's: the state calls of the program build. *)
Definition sig_ok (st : SigState) : Prop :=
  forall s, is_program_handler (sigactions st s) = true /\
            act_handler (kernel st s) <> SIG_ERR.

Lemma fset_same {A} (f : Z -> A) i v : fset f i v i = v.
Proof. unfold fset. by rewrite Z.eqb_refl. Qed.

Lemma fset_other {A} (f : Z -> A) i v j : j <> i -> fset f i v j = f j.
Proof. intros H. unfold fset. by rewrite (proj2 (Z.eqb_neq _ _) H). Qed.

Lemma program_view_handler st signo :
  sig_ok st -> is_program_handler (program_view st signo) = true.
Proof.
  intros H. destruct (H signo) as [H1 H2]. unfold program_view.
  destruct (act_handler (kernel st signo)); cbn; done.
Qed.

(** ** Properties *)

Section signal_properties.
Context (kernel_accepts : Z -> bool).

(** A successful call through the wrapper, with signal wrapping on. *)
Lemma sigaction_transparent_lemma signo a st :
  sig_ok st -> 0 < signo < kMaxSignals -> kernel_accepts signo = true ->
  is_program_handler (act_handler a) = true ->
  exists old st', sigaction_impl kernel_accepts true signo (Some a) st = (0, Some old, st') /\
    act_handler old = program_view st signo /\
    program_view st' signo = act_handler a /\
    (forall s, s <> signo -> program_view st' s = program_view st s) /\
    raise 3 signo st' = Some (act_handler a) /\ sig_ok st'.
Proof.
  intros Hok Hs Hacc Ha. unfold sigaction_impl, real_sigaction, kMaxSignals in *.
  rewrite (proj2 (Z.leb_gt signo 0)), (proj2 (Z.leb_gt 1024 signo)) by lia. cbn [orb].
  pose proof (program_view_handler st signo Hok) as Hpv.
  set (wraps := negb (bool_decide (act_handler a = SIG_IGN)) &&
                negb (bool_decide (act_handler a = SIG_DFL))).
  assert (wraps = match act_handler a with App _ => true | _ => false end) as Hw.
  { unfold wraps. by destruct (act_handler a). }
  rewrite Hw. destruct a as [h si]. cbn [act_handler sa_siginfo] in *.
  assert (forall o : sigact, act_handler (if bool_decide (act_handler o = SignalAction) ||
    bool_decide (act_handler o = SignalHandler) then mkAct (sigactions st signo) (sa_siginfo o)
    else o) = if is_trampoline (act_handler o) then sigactions st signo else act_handler o) as Ho.
  { intros [[] ?]; reflexivity. }
  destruct h as [| | | | |f]; try done; rewrite Hacc; cbn [sigactions kernel Z.eqb];
    do 2 eexists; (split; [reflexivity|]); (split; [apply Ho|]);
    unfold program_view, raise, sig_ok; cbn [sigactions kernel]; rewrite !fset_same;
    (split; [try (by destruct si); by cbn; rewrite ?fset_same|]);
    (split; [intros s Hne; by rewrite !fset_other by done|]);
    (split; [cbn; rewrite ?fset_same; try done; by destruct si; cbn; rewrite ?fset_same|]);
    intros s; destruct (decide (s = signo)) as [->|Hne];
    rewrite ?fset_same, ?(fset_other _ _ _ s Hne); cbn; try (split; [done|by destruct si]);
    try (split; [apply Hok|done]); apply Hok.
Qed.
End signal_properties.

(** with signal wrapping on, a sigaction call the kernel accepts behaves for
    the program as the real one: it learns the handler it had installed before
    (never a trampoline), the new handler is the one it will see and the one a
    signal reaches in a single dispatch, and the other signals keep theirs. *)
Theorem sigaction_is_transparent kernel_accepts signo a st :
  sig_ok st -> 0 < signo < kMaxSignals -> kernel_accepts signo = true ->
  is_program_handler (act_handler a) = true ->
  exists old st', sigaction_impl kernel_accepts true signo (Some a) st = (0, Some old, st') /\
    act_handler old = program_view st signo /\
    program_view st' signo = act_handler a /\
    (forall s, s <> signo -> program_view st' s = program_view st s) /\
    raise 3 signo st' = Some (act_handler a) /\ sig_ok st'.
Proof. apply sigaction_transparent_lemma. Qed.

Definition sig0 : SigState := mkSig (fun _ => SIG_DFL) (fun _ => mkAct SIG_DFL false).

Lemma sig0_ok : sig_ok sig0.
Proof. done. Qed.

Lemma sigaction_is_transparent_witness :
  exists old st', sigaction_impl (fun _ => true) true 2 (Some (mkAct (App 7) true)) sig0
    = (0, Some old, st') /\ raise 3 2 st' = Some (App 7).
Proof.
  destruct (sigaction_is_transparent (fun _ => true) 2 (mkAct (App 7) true) sig0 sig0_ok
    ltac:(done) eq_refl eq_refl) as (old & st' & H & _ & _ & _ & Hr & _).
  by exists old, st'.
Defined.

(** a sigaction call the kernel refuses still redirects the signal: the table
    is written before the system call, so that a handler installed earlier is
    replaced by the one whose installation failed. *)
Theorem refused_sigaction_redirects signo f g si st :
  0 < signo < kMaxSignals -> kernel st signo = mkAct SignalHandler si ->
  sigactions st signo = App f ->
  exists st', sigaction_impl (fun _ => false) true signo (Some (mkAct (App g) si)) st
      = (-1, None, st') /\
    raise 3 signo st = Some (App f) /\ raise 3 signo st' = Some (App g).
Proof.
  intros Hs Hk Ht. unfold sigaction_impl, real_sigaction, kMaxSignals in *.
  rewrite (proj2 (Z.leb_gt signo 0)), (proj2 (Z.leb_gt 1024 signo)) by lia. cbn [orb].
  cbn -[raise]. eexists. split; [reflexivity|]. unfold raise. cbn [kernel sigactions].
  rewrite Hk. cbn [act_handler deliver is_trampoline sigactions]. rewrite Ht, fset_same. done.
Qed.

Lemma refused_sigaction_redirects_witness :
  let st := mkSig (fun _ => App 5) (fun _ => mkAct SignalHandler false) in
  exists st', sigaction_impl (fun _ => false) true 10 (Some (mkAct (App 6) false)) st
      = (-1, None, st') /\ raise 3 10 st' = Some (App 6).
Proof.
  intros st. destruct (refused_sigaction_redirects 10 5 6 false st ltac:(done) eq_refl eq_refl)
    as (st' & H & _ & Hr). by exists st'.
Defined.

Lemma signal_interceptor_installs signo h st :
  0 < signo < kMaxSignals -> h <> SIG_IGN -> h <> SIG_DFL ->
  signal_interceptor (fun _ => true) true signo h st =
  (act_handler (kernel st signo),
   mkSig (fset (sigactions st) signo h) (fset (kernel st) signo (mkAct SignalHandler false))).
Proof.
  intros Hs H1 H2. unfold signal_interceptor, signal_impl, kMaxSignals in *.
  rewrite (proj2 (Z.leb_gt signo 0)), (proj2 (Z.leb_gt 1024 signo)) by lia.
  by rewrite !bool_decide_eq_false_2 by done.
Qed.

(** the wrapper of signal(2) answers the runtime's trampoline instead of the
    handler the program had installed; when the program restores what it was
    given, the next signal calls the trampoline from itself without end. *)
Theorem signal_returns_trampoline signo f g st fuel :
  0 < signo < kMaxSignals ->
  let '(_, st1) := signal_interceptor (fun _ => true) true signo (App f) st in
  let '(old, st2) := signal_interceptor (fun _ => true) true signo (App g) st1 in
  let '(_, st3) := signal_interceptor (fun _ => true) true signo old st2 in
  old = SignalHandler /\ raise 2 signo st2 = Some (App g) /\ raise fuel signo st3 = None.
Proof.
  intros Hs. rewrite !signal_interceptor_installs by done. cbn [kernel sigactions].
  rewrite fset_same. cbn [act_handler]. rewrite signal_interceptor_installs by done.
  split; [done|]. unfold raise. cbn [kernel sigactions]. rewrite !fset_same. split.
  - cbn [act_handler deliver is_trampoline sigactions]. by rewrite fset_same.
  - cbn [act_handler]. induction fuel as [|n IH]; cbn [deliver is_trampoline sigactions]; [done|].
    rewrite fset_same. exact IH.
Qed.

Lemma signal_returns_trampoline_witness :
  let st1 := (signal_interceptor (fun _ => true) true 2 (App 7) sig0).2 in
  (signal_interceptor (fun _ => true) true 2 (App 8) st1).1 = SignalHandler.
Proof. exact (proj1 (signal_returns_trampoline 2 7 8 sig0 0 ltac:(done))). Defined.

(** *** Exit handlers *)

(** What a program expects of exit(3): the accepted registrations, latest first,
    an atexit function without argument. *)
Definition expected_exits (qs : list (bool * Z * Z * bool)) : list (Z * option Z) :=
  rev (map (fun q : bool * Z * Z * bool =>
         let '(_, f, arg, dso) := q in (f, if dso then Some arg else None))
       (filter (fun q : bool * Z * Z * bool => q.1.1.1 = true) qs)).

(** Every atexit entry of the list has its record on the stack, in order. *)
Lemma run_exit_registered qs st rest :
  run_exit (libc_list st) (AtExitStack st) = Done rest ->
  let st' := fold_left register qs st in
  run_exit (libc_list st') (AtExitStack st') = Done (expected_exits qs ++ rest).
Proof.
  revert st rest. induction qs as [|[[[ok f] arg] dso] qs IH]; intros st rest H; cbn [fold_left]; [done|].
  unfold expected_exits. rewrite filter_cons. cbn [fst].
  destruct ok; [rewrite decide_True by done|rewrite decide_False by done].
  - rewrite map_cons. cbn [rev]. rewrite <- app_assoc. apply IH.
    destruct dso; simpl; [by rewrite H|].
    rewrite length_app. cbn [length].
    replace (length (AtExitStack st) + 1 - 1)%nat with (length (AtExitStack st)) by lia.
    rewrite list_lookup_middle by done. simpl. rewrite take_app_length. by rewrite H.
  - assert (register st (false, f, arg, dso) = st) as -> by by destruct dso.
    by apply IH.
Qed.

(** exit handlers run as registered: after any sequence of atexit and
    __cxa_atexit calls, some of which the C library may refuse, exit(3) calls the
    accepted functions latest first, each with its own argument, and the record
    stack never underflows. *)
Theorem exit_handlers_run_in_order qs :
  let st := fold_left register qs (mkExit [] []) in
  run_exit (libc_list st) (AtExitStack st) = Done (expected_exits qs).
Proof. cbv zeta. rewrite (run_exit_registered qs (mkExit [] []) [] eq_refl). by rewrite app_nil_r. Qed.

(** CQMsanAtExit changes the exit code exactly when something was reported and an
    exit code is configured; with the reports off it does nothing else. *)
Lemma CQMsanAtExit_exits fl n code :
  internal__exit code ∈ CQMsanAtExit fl n <->
  0 < n /\ ae_exitcode fl <> 0 /\ code = ae_exitcode fl.
Proof.
  unfold CQMsanAtExit. rewrite elem_of_app.
  destruct (Z.ltb_spec 0 n), (Z.eqb_spec (ae_exitcode fl) 0), (ae_print_stats fl), (ae_atexit fl),
    (0 <? ae_verbosity fl); cbn; set_unfold; naive_solver lia.
Qed.
