(* ===== verification/Threads.v ===== *)
(** * Threads: thread records, fibers and thread-specific data

    [cqmsan_thread.h], [cqmsan_thread.cpp] and the thread-specific data of
    [cqmsan_linux.cpp].  A signal handler may unwind the stack in the middle of a
    fiber switch, so the two switch operations are also given as the sequences of
    their single assignments. *)

From S2P Require Import Prelude Common Memory Layout Poisoning UmrMap Interface.

(** ** State *)

Record StackBounds := mkBounds { sb_bottom : Z; sb_top : Z }.

Record CQMsanThread := mkThread {
  start_routine_ : option Z;
  arg_ : Z;
  destructor_iterations_ : Z;
  stack_switching_ : bool;
  stack_ : StackBounds;
  next_stack_ : StackBounds;
  tls_begin_ : Z;
  tls_end_ : Z;
  in_signal_handler_ : Z
}.

(** [CQMsanThread::Create]: the record is fresh, zeroed memory. *)
Definition Create (start_routine : option Z) (arg pthread_destructor_iterations : Z) : CQMsanThread :=
  mkThread start_routine arg pthread_destructor_iterations false
    (mkBounds 0 0) (mkBounds 0 0) 0 0 0.

Definition IsMainThread (t : CQMsanThread) : bool :=
  match start_routine_ t with None => true | Some _ => false end.

(** The result of the routine, called on its argument; 0 without a routine. *)
Definition ThreadStart (run : Z -> Z -> Z) (t : CQMsanThread) : Z :=
  match start_routine_ t with None => 0 | Some f => run f (arg_ t) end.

Definition InSignalHandler (t : CQMsanThread) : bool := negb (in_signal_handler_ t =? 0).

Definition set_signal_depth (n : Z) (t : CQMsanThread) : CQMsanThread :=
  mkThread (start_routine_ t) (arg_ t) (destructor_iterations_ t) (stack_switching_ t)
    (stack_ t) (next_stack_ t) (tls_begin_ t) (tls_end_ t) n.
Definition EnterSignalHandler (t : CQMsanThread) := set_signal_depth (u32 (in_signal_handler_ t + 1)) t.
Definition LeaveSignalHandler (t : CQMsanThread) := set_signal_depth (u32 (in_signal_handler_ t - 1)) t.

(** ** Stack bounds and fibers *)

(** [cur_stack] is the frame address of the caller. *)
Definition GetStackBounds (cur_stack : Z) (t : CQMsanThread) : StackBounds :=
  if negb (stack_switching_ t) then stack_ t else
  if (sb_bottom (next_stack_ t) <=? cur_stack) && (cur_stack <? sb_top (next_stack_ t))
  then next_stack_ t else stack_ t.

Definition stack_top (cur_stack : Z) (t : CQMsanThread) : Z := sb_top (GetStackBounds cur_stack t).
Definition stack_bottom (cur_stack : Z) (t : CQMsanThread) : Z := sb_bottom (GetStackBounds cur_stack t).

Definition AddrIsInStack (cur_stack addr : Z) (t : CQMsanThread) : bool :=
  let bounds := GetStackBounds cur_stack t in
  (sb_bottom bounds <=? addr) && (addr <? sb_top bounds).

Definition set_stack (s : StackBounds) (t : CQMsanThread) : CQMsanThread :=
  mkThread (start_routine_ t) (arg_ t) (destructor_iterations_ t) (stack_switching_ t) s
    (next_stack_ t) (tls_begin_ t) (tls_end_ t) (in_signal_handler_ t).
Definition set_next_stack (s : StackBounds) (t : CQMsanThread) : CQMsanThread :=
  mkThread (start_routine_ t) (arg_ t) (destructor_iterations_ t) (stack_switching_ t) (stack_ t) s
    (tls_begin_ t) (tls_end_ t) (in_signal_handler_ t).
Definition set_switching (b : bool) (t : CQMsanThread) : CQMsanThread :=
  mkThread (start_routine_ t) (arg_ t) (destructor_iterations_ t) b (stack_ t) (next_stack_ t)
    (tls_begin_ t) (tls_end_ t) (in_signal_handler_ t).

(** The assignments of StartSwitchFiber, in order. *)
Definition start_switch_steps (bottom size : Z) : list (CQMsanThread -> CQMsanThread) :=
  [ (fun t => set_next_stack (mkBounds bottom (sb_top (next_stack_ t))) t);
    (fun t => set_next_stack (mkBounds (sb_bottom (next_stack_ t)) (bottom +64 size)) t);
    set_switching true ].

(** The assignments of FinishSwitchFiber, in order. *)
Definition finish_switch_steps : list (CQMsanThread -> CQMsanThread) :=
  [ (fun t => set_stack (mkBounds (sb_bottom (next_stack_ t)) (sb_top (stack_ t))) t);
    (fun t => set_stack (mkBounds (sb_bottom (stack_ t)) (sb_top (next_stack_ t))) t);
    set_switching false;
    (fun t => set_next_stack (mkBounds (sb_bottom (next_stack_ t)) 0) t);
    (fun t => set_next_stack (mkBounds 0 (sb_top (next_stack_ t))) t) ].

Definition run_steps (l : list (CQMsanThread -> CQMsanThread)) (t : CQMsanThread) : CQMsanThread :=
  fold_left (fun t f => f t) l t.

Definition StartSwitchFiber (bottom size : Z) (t : CQMsanThread) : outcome CQMsanThread :=
  _ ← check (negb (stack_switching_ t)) "CHECK(!stack_switching_)";
  mret (run_steps (start_switch_steps bottom size) t).

(** Also answers the old bottom and size. *)
Definition FinishSwitchFiber (t : CQMsanThread) : outcome (Z * Z * CQMsanThread) :=
  _ ← check (stack_switching_ t) "CHECK(stack_switching_)";
  mret (sb_bottom (stack_ t), sb_top (stack_ t) -64 sb_bottom (stack_ t),
        run_steps finish_switch_steps t).

(** The calls of the instrumented program, for a thread the runtime may not know. *)
Definition __cqmsan_start_switch_fiber (bottom size : Z) (t : option CQMsanThread)
    : outcome (option CQMsanThread) :=
  match t with
  | None => mret None
  | Some t => t' ← StartSwitchFiber bottom size t; mret (Some t')
  end.

Definition __cqmsan_finish_switch_fiber (t : option CQMsanThread) (tls : Tls)
    : outcome (option (Z * Z) * option CQMsanThread * Tls) :=
  match t with
  | None => mret (None, None, tls)
  | Some t =>
      r ← FinishSwitchFiber t;
      let '(bottom_old, size_old, t') := r in
      mret (Some (bottom_old, size_old), Some t',
        mkTls (Libc.internal_memset (param_tls tls) 0 0 kCQMsanParamTlsSize)
          (Libc.internal_memset (retval_tls tls) 0 0 kCQMsanRetvalTlsSize)
          (Libc.internal_memset (va_arg_tls tls) 0 0 kCQMsanParamTlsSize)
          (va_arg_origin_tls tls) (va_arg_overflow_size_tls tls))
  end.

(** ** Starting and ending a thread *)

Section lifecycle.
Context (c : Ctx).

(** [local] is the address of the local variable that checks the bounds. *)
Definition SetThreadStackAndTls (bottom top tls_begin tls_end local : Z) (t : CQMsanThread)
    : outcome CQMsanThread :=
  let t := mkThread (start_routine_ t) (arg_ t) (destructor_iterations_ t) (stack_switching_ t)
             (mkBounds bottom top) (next_stack_ t) tls_begin tls_end (in_signal_handler_ t) in
  _ ← check (AddrIsInStack local local t) "CHECK(AddrIsInStack)";
  mret t.

(** [dtv] lists the dynamic TLS blocks, as address and size. *)
Definition ClearShadowForThreadStackAndTLS (dtv : list (Z * Z)) (t : CQMsanThread) : M unit :=
  __cqmsan_unpoison c (sb_bottom (stack_ t)) (sb_top (stack_ t) -64 sb_bottom (stack_ t));;
  when (negb (tls_begin_ t =? tls_end_ t))
    (__cqmsan_unpoison c (tls_begin_ t) (tls_end_ t -64 tls_begin_ t));;
  foldr (fun b (k : M unit) => __cqmsan_unpoison c b.1 b.2;; k) (mret tt) dtv.

Definition Init (bottom top tls_begin tls_end local : Z) (dtv : list (Z * Z)) (t : CQMsanThread)
    : M CQMsanThread :=
  t ← lift (SetThreadStackAndTls bottom top tls_begin tls_end local t);
  CHECK (MEM_IS_APP (cP c) (sb_bottom (stack_ t))) "CHECK(MEM_IS_APP(stack_.bottom))";;
  CHECK (MEM_IS_APP (cP c) (sb_top (stack_ t) -64 1)) "CHECK(MEM_IS_APP(stack_.top - 1))";;
  ClearShadowForThreadStackAndTLS dtv t;;
  mret t.
End lifecycle.

(** *** Thread-specific data

    [current] is [cqmsan_current_thread], [tsd] what pthread_setspecific holds. *)

Record TsdState := mkTsd {
  tsd_key_inited : bool;
  current : option CQMsanThread;
  tsd : option CQMsanThread;
  destroyed : list CQMsanThread       (* the threads TSDDtor destroyed *)
}.

Definition CQMsanTSDInit (key_created : bool) (st : TsdState) : outcome TsdState :=
  _ ← check (negb (tsd_key_inited st)) "CHECK(!tsd_key_inited)";
  _ ← check key_created "CHECK_EQ(0, pthread_key_create)";
  mret (mkTsd true (current st) (tsd st) (destroyed st)).

Definition GetCurrentThread (st : TsdState) : option CQMsanThread := current st.

Definition SetCurrentThread (t : CQMsanThread) (st : TsdState) : outcome TsdState :=
  _ ← check (match current st with None => true | Some _ => false end)
        "CHECK_EQ(0, cqmsan_current_thread)";
  _ ← check (tsd_key_inited st) "CHECK(tsd_key_inited)";
  mret (mkTsd (tsd_key_inited st) (Some t) (Some t) (destroyed st)).

(** The C library clears the slot, then calls the destructor with its value. *)
Definition CQMsanTSDDtor (t : CQMsanThread) (st : TsdState) : TsdState :=
  if 1 <? destructor_iterations_ t then
    let t' := mkThread (start_routine_ t) (arg_ t) (destructor_iterations_ t - 1)
                (stack_switching_ t) (stack_ t) (next_stack_ t) (tls_begin_ t) (tls_end_ t)
                (in_signal_handler_ t) in
    mkTsd (tsd_key_inited st) (Some t') (Some t') (destroyed st)
  else mkTsd (tsd_key_inited st) None (tsd st) (destroyed st ++ [t]).

(** The rounds of destructor calls at thread exit, [PTHREAD_DESTRUCTOR_ITERATIONS]
    of them at most: each takes the value out of the slot. *)
Fixpoint thread_exit (iterations : nat) (st : TsdState) : TsdState :=
  match iterations with
  | O => st
  | S n =>
      match tsd st with
      | None => st
      | Some t =>
          thread_exit n (CQMsanTSDDtor t (mkTsd (tsd_key_inited st) (current st) None (destroyed st)))
      end
  end.

(** ** Properties *)

(** The bounds a reader on [cur] sees in every state along a sequence of steps. *)
Definition bounds_along (l : list (CQMsanThread -> CQMsanThread)) (cur : Z) (t : CQMsanThread)
    (b : StackBounds) : Prop :=
  forall n, (n <= length l)%nat -> GetStackBounds cur (run_steps (take n l) t) = b.

(** a fiber switch is safe to interrupt: a signal handler that unwinds
    between any two assignments of StartSwitchFiber (on the old stack) sees the
    bounds of the old stack, and between any two assignments of FinishSwitchFiber
    (on the new stack) it sees the bounds of the new one; at the end the new stack
    is the thread's, the old bounds were answered and a next switch can start. *)
Theorem fiber_switch_is_interruptible t bottom size cur_old cur_new :
  stack_switching_ t = false ->
  ~ bottom <= cur_old < bottom + size -> bottom <= cur_new < bottom + size ->
  0 <= bottom -> bottom + size < 2 ^ 64 ->
  exists t1 t2,
    StartSwitchFiber bottom size t = Done t1 /\
    FinishSwitchFiber t1 = Done (sb_bottom (stack_ t), sb_top (stack_ t) -64 sb_bottom (stack_ t), t2) /\
    bounds_along (start_switch_steps bottom size) cur_old t (stack_ t) /\
    bounds_along finish_switch_steps cur_new t1 (mkBounds bottom (bottom + size)) /\
    stack_switching_ t2 = false /\ stack_ t2 = mkBounds bottom (bottom + size) /\
    is_done (StartSwitchFiber (sb_bottom (stack_ t)) 1 t2) = true.
Proof.
  intros Hsw Hold Hnew H0 Hs. unfold StartSwitchFiber at 1. rewrite Hsw. cbn [negb check mbind outcome_bind].
  eexists _, _. split; [reflexivity|]. split; [reflexivity|].
  assert (bottom +64 size = bottom + size) as E by (apply u64_small; lia).
  split; [|split; [|by cbn; rewrite E]].
  - intros n Hn. cbn in Hn. unfold GetStackBounds.
    destruct n as [|[|[|[|n]]]]; [..|lia]; cbn; rewrite ?Hsw; cbn; try done.
    rewrite E. destruct (Z.leb_spec bottom cur_old), (Z.ltb_spec cur_old (bottom + size)); cbn;
      (done || lia).
  - intros n Hn. cbn in Hn. unfold GetStackBounds.
    assert ((bottom <=? cur_new) && (cur_new <? bottom + size) = true) as Hin by (bool_goal; lia).
    destruct n as [|[|[|[|[|[|n]]]]]]; [..|lia]; cbn; rewrite ?E, ?Hin; done.
Qed.

Lemma fiber_switch_is_interruptible_witness :
  exists t1, StartSwitchFiber 8192 4096 (Create (Some 1) 2 4) = Done t1 /\
    stack_top 9000 t1 = 12288.
Proof.
  destruct (fiber_switch_is_interruptible (Create (Some 1) 2 4) 8192 4096 100 9000 eq_refl)
    as (t1 & t2 & H & _ & _ & Hb & _); [lia..|].
  exists t1. split; [exact H|]. unfold stack_top. specialize (Hb 0%nat ltac:(cbn; lia)).
  change (GetStackBounds 9000 t1 = mkBounds 8192 (8192 + 4096)) in Hb. by rewrite Hb.
Defined.

Lemma thread_exit_nothing n st : tsd st = None -> thread_exit n st = st.
Proof. destruct n; cbn; [done|]. by intros ->. Qed.


