(* ===== verification/Afl.v ===== *)
(** * Afl: the fuzzer's side of the feedback map

    [check_msan_trace] and [qmsan_check_bugs] of [afl-fuzz-run.c]: after each
    execution the fuzzer folds the map of [UmrMap] into its own copy, and runs the
    accurate detector when the fold finds something new.  The compile-time modes
    ([-DQMSAN_FILTERING] and the like) are the fields of [Modes]; [default_modes]
    are those the README builds with. *)

From S2P Require Import Prelude Memory StackTrace UmrMap.

(** ** State *)

Record Modes := mkModes {
  SIMPLE : bool; NAIVE : bool; FILTERING : bool; DROPOFF : bool; FLAGGING : bool;
  EDGES : bool; MEMORY : bool; CALLSTACK : bool; CALLSTACK_EDGES : bool;
  NOOP_FPCHECK : bool; NOOP_ACCURATE : bool
}.

Definition default_modes : Modes :=
  mkModes false false true false false true false true true false false.

(** The fields of [afl_state_t] the code uses; the counters are [u64]. *)
Record Afl := mkAfl {
  msan_traces : Z -> Z;
  qmsan_errors : Z;
  qmsan_violations : Z;
  qmsan_mixed : Z;
  qmsan_edges : Z;
  qmsan_memory : Z;
  qmsan_callstack : Z;
  qmsan_callstack_edges : Z;
  qmsan_crashes : Z;
  heavyweight_runs : Z
}.

Inductive counter := c_errors | c_violations | c_mixed | c_edges | c_memory | c_cs | c_cs_edges
  | c_crashes | c_heavyweight.

Definition set_traces (a : Afl) (t : Z -> Z) : Afl :=
  mkAfl t (qmsan_errors a) (qmsan_violations a) (qmsan_mixed a) (qmsan_edges a) (qmsan_memory a)
    (qmsan_callstack a) (qmsan_callstack_edges a) (qmsan_crashes a) (heavyweight_runs a).

Definition bump (c : counter) (a : Afl) : Afl :=
  let inc k x := match c, k with
    | c_errors, c_errors | c_violations, c_violations | c_mixed, c_mixed | c_edges, c_edges
    | c_memory, c_memory | c_cs, c_cs | c_cs_edges, c_cs_edges | c_crashes, c_crashes
    | c_heavyweight, c_heavyweight => x +64 1
    | _, _ => x end in
  mkAfl (msan_traces a) (inc c_errors (qmsan_errors a)) (inc c_violations (qmsan_violations a))
    (inc c_mixed (qmsan_mixed a)) (inc c_edges (qmsan_edges a)) (inc c_memory (qmsan_memory a))
    (inc c_cs (qmsan_callstack a)) (inc c_cs_edges (qmsan_callstack_edges a))
    (inc c_crashes (qmsan_crashes a)) (inc c_heavyweight (heavyweight_runs a)).

(** The bits of the fuzzer's header are those of the runtime. *)
Definition QMSAN_AFL_CLEAN : Z := Z.shiftl 1 0.
Definition QMSAN_AFL_ERROR : Z := Z.shiftl 1 1.
Definition QMSAN_AFL_MEMORY : Z := Z.shiftl 1 2.
Definition QMSAN_AFL_PC_EDGE : Z := Z.shiftl 1 3.
Definition QMSAN_AFL_CS : Z := Z.shiftl 1 4.
Definition QMSAN_AFL_CS_EDGE : Z := Z.shiftl 1 5.

Definition has (bit arg : Z) : bool := negb (Z.land arg bit =? 0).
Definition QMSAN_CHECK_UNTOUCHED (arg : Z) : bool := Z.land arg 3 =? 0.

(** ** check_msan_trace *)

(** The loop's state: [afl], [heavyweight_needed], [violation]. *)
Record Scan := mkScan { sc_afl : Afl; heavyweight_needed : bool; violation : bool }.

(** [afl->msan_traces[i] |= bit] *)
Definition trace_or (i bit : Z) (a : Afl) : Afl := set_traces a (area_or (msan_traces a) i bit).
Definition trace_set (i v : Z) (a : Afl) : Afl := set_traces a (area_set (msan_traces a) i v).

Definition upd (f : Afl -> Afl) (s : Scan) : Scan :=
  mkScan (f (sc_afl s)) (heavyweight_needed s) (violation s).
Definition need (s : Scan) : Scan := mkScan (sc_afl s) true (violation s).

(** The blocks that record one bit of a byte: FILTERING, EDGES, MEMORY, CALLSTACK,
    CALLSTACK_EDGES. *)
Definition record_bit (bit : Z) (c : counter) (i new old : Z) (s : Scan) : Scan :=
  if negb (has bit old) && has bit new
  then need (upd (fun a => trace_or i bit (bump c a)) s) else s.

Definition simple_block (i new old : Z) (s : Scan) : Scan :=
  if (old =? 0) && negb (new =? 0)
  then need (upd (fun a => trace_set i 1 (bump c_errors a)) s) else s.

Definition dropoff_block (i new old : Z) (s : Scan) : Scan :=
  if has QMSAN_AFL_ERROR new then
    let s := if old =? 0 then upd (bump c_errors) s else s in
    if negb (old =? 0xff) then
      let s := upd (fun a => trace_set i (u8 (msan_traces a i + 1)) a) s in
      if Z.land old (old - 1) =? 0 then need s else s
    else s
  else s.

Definition flagging_block (i new old : Z) (s : Scan) : Scan :=
  if has QMSAN_AFL_ERROR new then
    let s := if violation s then s
             else mkScan (bump c_violations (sc_afl s)) (heavyweight_needed s) true in
    if QMSAN_CHECK_UNTOUCHED old
    then upd (bump c_errors) (need (upd (trace_or i QMSAN_AFL_ERROR) s))
    else if has QMSAN_AFL_CLEAN (msan_traces (sc_afl s) i)
    then need (upd (trace_or i QMSAN_AFL_ERROR) s)
    else s
  else if has QMSAN_AFL_CLEAN new && negb (has QMSAN_AFL_ERROR new) && has QMSAN_AFL_ERROR old
            && negb (has QMSAN_AFL_CLEAN old)
  then upd (fun a => bump c_mixed (trace_or i QMSAN_AFL_CLEAN a)) s
  else s.

Definition when (b : bool) (f : Scan -> Scan) (s : Scan) : Scan := if b then f s else s.

(** The blocks after the NAIVE one, in the order of the source. *)
Definition blocks (md : Modes) (i new old : Z) (s : Scan) : Scan :=
  let s := when (FILTERING md) (record_bit QMSAN_AFL_ERROR c_errors i new old) s in
  let s := when (DROPOFF md) (dropoff_block i new old) s in
  let s := when (FLAGGING md) (flagging_block i new old) s in
  let s := when (EDGES md) (record_bit QMSAN_AFL_PC_EDGE c_edges i new old) s in
  let s := when (MEMORY md) (record_bit QMSAN_AFL_MEMORY c_memory i new old) s in
  let s := when (CALLSTACK md) (record_bit QMSAN_AFL_CS c_cs i new old) s in
  when (CALLSTACK_EDGES md) (record_bit QMSAN_AFL_CS_EDGE c_cs_edges i new old) s.

(** One iteration; the boolean is the [break] of NAIVE. *)
Definition scan_byte (md : Modes) (trace : Z -> Z) (i : Z) (s : Scan) : Scan * bool :=
  let new := trace i in
  let old := msan_traces (sc_afl s) i in
  if new =? old then (s, false) else
  let s := when (SIMPLE md) (simple_block i new old) s in
  if NAIVE md && has QMSAN_AFL_ERROR new then (need s, true)
  else (blocks md i new old s, false).

(** [while(i--)]: the bytes [n-1], ..., [0]. *)
Fixpoint scan (md : Modes) (trace : Z -> Z) (n : nat) (s : Scan) : Scan :=
  match n with
  | O => s
  | S i => let '(s, stop) := scan_byte md trace (Z.of_nat i) s in
           if stop then s else scan md trace i s
  end.

Definition scan_map (md : Modes) (trace : Z -> Z) (size : Z) (s : Scan) : Scan :=
  scan md trace (Z.to_nat size) s.

(** [memcmp(trace, afl->msan_traces, MAP_SIZE - 1) == 0] *)
Definition maps_equal (t1 t2 : Z -> Z) (n : Z) : bool :=
  forallb (fun i => t1 i =? t2 i) (zrange n).

Definition check_msan_trace (md : Modes) (trace : Z -> Z) (afl : Afl) : Afl * bool :=
  if maps_equal trace (msan_traces afl) (MAP_SIZE - 1) then (afl, false) else
  let s := scan_map md trace (MAP_SIZE - 1) (mkScan afl false false) in
  (sc_afl s, heavyweight_needed s).

(** ** qmsan_check_bugs *)

Definition WEXITSTATUS (status : Z) : Z := Z.land (Z.shiftr status 8) 0xff.

(** [msan_bits] is the map the target shares with the fuzzer, [None] when there is
    none; [accurate] is what [system(cmdline)] returns.  [init_cmdline], called
    before the first use, is below. *)
Section check_bugs.
Context (md : Modes) (valgrind_mode : bool) (accurate : Z).

Definition clear_sentinel (bits : Z -> Z) : Z -> Z := area_set bits (MAP_SIZE - 1) 0.

Definition qmsan_check_bugs (msan_bits : option (Z -> Z)) (afl : Afl)
    : option (Z -> Z) * Afl * bool :=
  if NOOP_FPCHECK md then (clear_sentinel <$> msan_bits, afl, false) else
  let '(bits, afl, ret) :=
    match msan_bits with
    | Some bits =>
        if negb (bits (MAP_SIZE - 1) =? 0) then
          let '(afl, novel) := check_msan_trace md bits afl in
          let '(bits, afl, ret) :=
            if novel then
              let bits := clear_sentinel bits in
              let status := if NOOP_ACCURATE md then 0 else WEXITSTATUS accurate in
              let afl := bump c_heavyweight afl in
              if (negb valgrind_mode && (status =? 1)) || (valgrind_mode && (status =? 100))
              then (clear_sentinel bits, bump c_crashes afl, true)
              else (bits, afl, false)
            else (bits, afl, false) in
          (Some (clear_sentinel bits), afl, ret)
        else (Some bits, afl, false)
    | None => (None, afl, false)
    end in
  if FLAGGING md || NAIVE md
  then ((fun _ _ => 0) <$> bits, afl, ret)
  else (bits, afl, ret).
End check_bugs.

(** A run of the fuzzer: each execution hands over the bits the target left. *)
Inductive check_run (md : Modes) : list (Z -> Z) -> Afl -> Afl -> Prop :=
| run_nil a : check_run md [] a a
| run_cons bits vg accurate bits' a a1 ret execs a2 :
    qmsan_check_bugs md vg accurate (Some bits) a = (bits', a1, ret) ->
    check_run md execs a1 a2 -> check_run md (bits :: execs) a a2.

(** ** init_cmdline *)

(** What it reads: the environment, whether [valgrind --version] runs, [argv]
    without [argv[0]]. *)
Record CmdEnv := mkCmdEnv {
  QEMU_LD_PREFIX : option string;
  QMSAN_PATH : option string;
  AFL_CQMSAN_ACCURATE_TARGET : option string;
  valgrind_works : bool;
  accurate_log : string;
  argv_tail : list string
}.

Definition valgrind_path : string :=
  "valgrind --expensive-definedness-checks=yes                         --exit-on-first-error=yes  --error-exitcode=100 ".

Definition CMDLINE_SIZE : Z := 4096.

(** The command line and [valgrind_mode]; the [sprintf]s append to one buffer, so
    its content is their concatenation, whatever the buffer's size. *)
Definition init_cmdline (e : CmdEnv) : outcome (string * bool) :=
  let cmd := match QEMU_LD_PREFIX e with
             | Some p => ("QEMU_LD_PREFIX=" ++ p ++ " ")%string | None => ""%string end in
  '(path, vg) ← match QMSAN_PATH e with
                | Some p => mret (p, false)
                | None => if valgrind_works e then mret (valgrind_path, true)
                          else Died "valgrind"
                end;
  let cmd := (cmd ++ path ++ " ")%string in
  target ← match AFL_CQMSAN_ACCURATE_TARGET e with
           | Some t => mret t | None => Died "AFL_CQMSAN_ACCURATE_TARGET not set" end;
  let cmd := if vg : bool then (cmd ++ target ++ " ")%string else cmd in
  let cmd := fold_left (fun c a => (c ++ a ++ " ")%string) (argv_tail e) cmd in
  mret ((cmd ++ " >>" ++ accurate_log e ++ " 2>&1 ")%string, vg).

(** What a [char[4096]] has room for, with the terminator. *)
Definition fits_cmdline (cmd : string) : bool := Z.of_nat (String.length cmd) + 1 <=? CMDLINE_SIZE.
(** [strlen(cmdline) > 4095]: the message; the function returns in any case. *)
Definition overflow_reported (cmd : string) : bool := 4095 <? Z.of_nat (String.length cmd).

(** ** The fold in the modes that record bits

    FILTERING, EDGES, MEMORY, CALLSTACK and CALLSTACK_EDGES in any combination, the
    default build among them. *)

Definition bit_modes (md : Modes) : bool :=
  negb (SIMPLE md) && negb (NAIVE md) && negb (DROPOFF md) && negb (FLAGGING md).

(** The bits of a byte the build looks at, as positions and as a mask. *)
Definition mask_bits (md : Modes) : list Z :=
  (if FILTERING md then [1] else []) ++ (if EDGES md then [3] else []) ++
  (if MEMORY md then [2] else []) ++ (if CALLSTACK md then [4] else []) ++
  (if CALLSTACK_EDGES md then [5] else []).
Definition mask (md : Modes) : Z := fold_right (fun k m => Z.lor (2 ^ k) m) 0 (mask_bits md).

(** Some byte has a bit of the mask that the fuzzer has not recorded. *)
Definition novel_byte (md : Modes) (new old : Z) : bool :=
  existsb (fun k => Z.testbit new k && negb (Z.testbit old k)) (mask_bits md).
Definition novel (md : Modes) (trace traces : Z -> Z) : bool :=
  existsb (fun i => novel_byte md (trace i) (traces i)) (zrange (MAP_SIZE - 1)).

Lemma has_testbit k x : 0 <= k -> has (2 ^ k) x = Z.testbit x k.
Proof.
  intros Hk. unfold has. destruct (Z.testbit x k) eqn:E.
  - rewrite negb_true_iff, Z.eqb_neq. intros H. apply (f_equal (fun y => Z.testbit y k)) in H.
    rewrite Z.land_spec, E, Z.pow2_bits_true, Z.bits_0 in H by done. done.
  - rewrite negb_false_iff, Z.eqb_eq. apply Z.bits_inj'. intros i Hi.
    rewrite Z.land_spec, Z.bits_0, Z.pow2_bits_eqb by done.
    destruct (Z.eqb_spec k i) as [->|]; [by rewrite E|apply andb_false_r].
Qed.

Lemma mask_testbit_list l k :
  (forall j, j ∈ l -> 0 <= j) ->
  Z.testbit (fold_right (fun k m => Z.lor (2 ^ k) m) 0 l) k = existsb (Z.eqb k) l.
Proof.
  intros Hl. induction l as [|j l IH]; cbn [fold_right existsb]; [apply Z.bits_0|].
  rewrite Z.lor_spec, IH by (intros; apply Hl; by right).
  rewrite Z.pow2_bits_eqb by (apply Hl; by left). by rewrite Z.eqb_sym.
Qed.

Lemma mask_bits_range md k : k ∈ mask_bits md -> 1 <= k <= 5.
Proof.
  unfold mask_bits. rewrite !elem_of_app.
  destruct (FILTERING md), (EDGES md), (MEMORY md), (CALLSTACK md), (CALLSTACK_EDGES md);
    rewrite ?list_elem_of_singleton, ?elem_of_nil; lia.
Qed.

Lemma mask_testbit md k : Z.testbit (mask md) k = existsb (Z.eqb k) (mask_bits md).
Proof. apply mask_testbit_list. intros j Hj%mask_bits_range. lia. Qed.

(** [records i m nb s s']: the step adds the bits [m] to byte [i], touches no
    other byte, and asks for the detector when [nb]. *)
Definition records (i m : Z) (nb : bool) (s s' : Scan) : Prop :=
  (forall j, msan_traces (sc_afl s') j
    = if j =? i then Z.lor (msan_traces (sc_afl s) i) m else msan_traces (sc_afl s) j) /\
  heavyweight_needed s' = heavyweight_needed s || nb.

Lemma records_refl i s : records i 0 false s s.
Proof.
  split; [|by rewrite orb_false_r]. intros j. destruct (Z.eqb_spec j i) as [->|]; [|done].
  by rewrite Z.lor_0_r.
Qed.

Lemma records_trans i m1 m2 b1 b2 s1 s2 s3 :
  records i m1 b1 s1 s2 -> records i m2 b2 s2 s3 -> records i (Z.lor m1 m2) (b1 || b2) s1 s3.
Proof.
  intros [H1 B1] [H2 B2]. split; [|by rewrite B2, B1, orb_assoc].
  intros j. rewrite H2, !H1, Z.eqb_refl. case_match; [by rewrite Z.lor_assoc|done].
Qed.

Definition new_bit (k new old : Z) : bool := Z.testbit new k && negb (Z.testbit old k).

Lemma record_bit_records k c i new old s :
  0 <= k ->
  records i (if new_bit k new old then 2 ^ k else 0) (new_bit k new old) s
    (record_bit (2 ^ k) c i new old s).
Proof.
  intros Hk. unfold record_bit, new_bit. rewrite !has_testbit by done.
  rewrite (andb_comm (negb _)).
  destruct (Z.testbit new k && negb (Z.testbit old k)); [|apply records_refl].
  split; [|cbn; by rewrite orb_true_r]. intros j. cbn. done.
Qed.

Lemma when_records (b : bool) i m nb f s :
  records i m nb s (f s) ->
  records i (if b then m else 0) (b && nb) s (when b f s).
Proof. destruct b; cbn; [done|intros _; apply records_refl]. Qed.

Lemma blocks_records md i new old s :
  bit_modes md = true ->
  exists m, records i m (novel_byte md new old) s (blocks md i new old s) /\
    m = fold_right (fun k m => Z.lor (if new_bit k new old then 2 ^ k else 0) m) 0 (mask_bits md).
Proof.
  intros Hb. unfold bit_modes in Hb. bool_hyps. unfold blocks.
  repeat match goal with H : DROPOFF md = _ |- _ => rewrite H
    | H : FLAGGING md = _ |- _ => rewrite H end. cbn [when].
  change QMSAN_AFL_ERROR with (2 ^ 1). change QMSAN_AFL_PC_EDGE with (2 ^ 3).
  change QMSAN_AFL_MEMORY with (2 ^ 2). change QMSAN_AFL_CS with (2 ^ 4).
  change QMSAN_AFL_CS_EDGE with (2 ^ 5).
  eexists. split.
  - eapply eq_rect with (P := fun b => records _ _ b _ _).
    + do 4 (eapply records_trans; [|eapply when_records, record_bit_records; lia]).
      eapply when_records, record_bit_records. lia.
    + unfold novel_byte, mask_bits, new_bit.
      destruct (FILTERING md), (EDGES md), (MEMORY md), (CALLSTACK md), (CALLSTACK_EDGES md);
        cbn [app existsb andb]; rewrite ?orb_false_r, ?orb_false_l, <- ?orb_assoc; reflexivity.
  - unfold mask_bits.
    destruct (FILTERING md), (EDGES md), (MEMORY md), (CALLSTACK md), (CALLSTACK_EDGES md);
      cbn [app fold_right]; rewrite ?Z.lor_0_r, ?Z.lor_0_l, <- ?Z.lor_assoc; reflexivity.
Qed.

(** Adding the bits that are new is adding all bits of the mask. *)
Lemma lor_new_bits l new old :
  (forall j, j ∈ l -> 0 <= j) ->
  Z.lor old (fold_right (fun k m => Z.lor (if new_bit k new old then 2 ^ k else 0) m) 0 l)
  = Z.lor old (Z.land new (fold_right (fun k m => Z.lor (2 ^ k) m) 0 l)).
Proof.
  intros Hl. apply Z.bits_inj'. intros i Hi. rewrite !Z.lor_spec, Z.land_spec.
  destruct (Z.testbit old i) eqn:E; cbn [orb]; [done|].
  induction l as [|k l IH]; cbn [fold_right]; [by rewrite Z.bits_0, andb_false_r|].
  rewrite !Z.lor_spec, IH by (intros; apply Hl; by right). rewrite andb_orb_distrib_r. f_equal.
  assert (0 <= k) by (apply Hl; by left). rewrite Z.pow2_bits_eqb by done. unfold new_bit.
  destruct (Z.eqb_spec k i) as [->|]; [rewrite E, andb_true_r, andb_true_r|].
  - destruct (Z.testbit new i); [by apply Z.pow2_bits_true|apply Z.bits_0].
  - rewrite andb_false_r. case_match; [by apply Z.pow2_bits_false|apply Z.bits_0].
Qed.

Lemma novel_byte_same md x : novel_byte md x x = false.
Proof.
  unfold novel_byte. apply not_true_iff_false. rewrite existsb_exists_elem.
  intros (k & _ & H). by rewrite andb_negb_r in H.
Qed.

Lemma scan_byte_records md trace i s :
  bit_modes md = true ->
  exists s', scan_byte md trace i s = (s', false) /\
  (forall j, msan_traces (sc_afl s') j
    = if j =? i then Z.lor (msan_traces (sc_afl s) i) (Z.land (trace i) (mask md))
      else msan_traces (sc_afl s) j) /\
  heavyweight_needed s'
    = heavyweight_needed s || novel_byte md (trace i) (msan_traces (sc_afl s) i).
Proof.
  intros Hb. unfold scan_byte. destruct (Z.eqb_spec (trace i) (msan_traces (sc_afl s) i)) as [E|].
  - exists s. rewrite E, novel_byte_same, orb_false_r. split; [done|split; [|done]].
    intros j. destruct (Z.eqb_spec j i) as [->|]; [|done].
    apply Z.bits_inj'. intros k Hk. rewrite Z.lor_spec, Z.land_spec.
    by destruct (Z.testbit _ k), (Z.testbit (mask md) k).
  - destruct (blocks_records md i (trace i) (msan_traces (sc_afl s) i) s Hb) as (m & [H1 H2] & Hm).
    unfold bit_modes in Hb. bool_hyps.
    repeat match goal with H : SIMPLE md = _ |- _ => rewrite H
      | H : NAIVE md = _ |- _ => rewrite H end. cbn [when andb].
    eexists. split; [reflexivity|split; [|done]]. intros j. rewrite H1, Hm. case_match; [|done].
    apply lor_new_bits. intros k Hk%mask_bits_range. lia.
Qed.

Lemma existsb_ext_elem {A} (f g : A -> bool) l :
  (forall x, x ∈ l -> f x = g x) -> existsb f l = existsb g l.
Proof.
  intros H. induction l as [|x l IH]; [done|]. cbn.
  rewrite (H x) by by left. f_equal. apply IH. intros y Hy. apply H. by right.
Qed.

(** The whole loop, on the bytes below [n]. *)
Lemma scan_records md trace n s :
  bit_modes md = true ->
  let s' := scan md trace n s in
  (forall j, msan_traces (sc_afl s') j
    = if (0 <=? j) && (j <? Z.of_nat n)
      then Z.lor (msan_traces (sc_afl s) j) (Z.land (trace j) (mask md))
      else msan_traces (sc_afl s) j) /\
  heavyweight_needed s' = heavyweight_needed s
    || existsb (fun i => novel_byte md (trace i) (msan_traces (sc_afl s) i)) (zrange (Z.of_nat n)).
Proof.
  intros Hb. revert s. induction n as [|n IH]; intros s; cbn [scan].
  - split; [|by rewrite orb_false_r]. intros j. zcase; (lia || done).
  - destruct (scan_byte_records md trace (Z.of_nat n) s Hb) as (s1 & -> & Ht & Hn).
    destruct (IH s1) as [Ht' Hn']. split.
    + intros j. rewrite Ht', Ht. zcase; try lia; try done. subst. done.
    + rewrite Hn', Hn.
      replace (Z.of_nat (S n)) with (Z.of_nat n + 1) by lia.
      rewrite <- orb_assoc. f_equal. unfold zrange. rewrite Z2Nat.inj_add, Nat2Z.id, Nat.add_1_r by lia.
      rewrite seq_S, map_app, existsb_app, Nat.add_0_l. cbn [map existsb].
      rewrite orb_false_r, orb_comm. f_equal. apply existsb_ext_elem.
      intros i Hi. rewrite Ht. case_match; [|done]. bool_hyps. subst.
      rewrite list_elem_of_In, in_map_iff in Hi. destruct Hi as (k & Hk & Hin%in_seq). lia.
Qed.

Lemma scan_map_records md trace size a :
  bit_modes md = true -> 0 <= size ->
  let s' := scan_map md trace size (mkScan a false false) in
  (forall j, msan_traces (sc_afl s') j
    = if (0 <=? j) && (j <? size)
      then Z.lor (msan_traces a j) (Z.land (trace j) (mask md)) else msan_traces a j) /\
  heavyweight_needed s'
    = existsb (fun i => novel_byte md (trace i) (msan_traces a i)) (zrange size).
Proof.
  intros Hb Hs. pose proof (scan_records md trace (Z.to_nat size) (mkScan a false false) Hb) as H.
  rewrite Z2Nat.id in H by done. exact H.
Qed.

Lemma maps_equal_spec t1 t2 n : maps_equal t1 t2 n = true <-> forall i, 0 <= i < n -> t1 i = t2 i.
Proof.
  unfold maps_equal. rewrite forallb_zrange. split; intros H i Hi; specialize (H i Hi); bool_hyps; [done|].
  by apply Z.eqb_eq.
Qed.

(** What the fold leaves and answers, whichever way it takes. *)
Lemma check_msan_trace_correct md trace a :
  bit_modes md = true ->
  let '(a', b) := check_msan_trace md trace a in
  (forall j, msan_traces a' j
    = if (0 <=? j) && (j <? MAP_SIZE - 1)
      then Z.lor (msan_traces a j) (Z.land (trace j) (mask md)) else msan_traces a j) /\
  b = novel md trace (msan_traces a).
Proof.
  intros Hb. unfold check_msan_trace. destruct (maps_equal _ _ _) eqn:E.
  - rewrite maps_equal_spec in E. split.
    + intros j. destruct ((0 <=? j) && (j <? MAP_SIZE - 1)) eqn:Hj; [|done]. bool_hyps.
      rewrite E by done. apply Z.bits_inj'. intros k Hk. rewrite Z.lor_spec, Z.land_spec.
      by destruct (Z.testbit _ k), (Z.testbit (mask md) k).
    + unfold novel. symmetry. apply not_true_iff_false. rewrite existsb_exists_elem.
      intros (i & Hi%elem_of_zrange & H). by rewrite E, novel_byte_same in H.
  - destruct (scan_map_records md trace (MAP_SIZE - 1) a Hb) as [Ht Hn]; [unfold MAP_SIZE; lia|].
    split; [exact Ht|exact Hn].
Qed.

Lemma novel_byte_spec md new old :
  novel_byte md new old = false <->
  forall k, k ∈ mask_bits md -> Z.testbit new k = true -> Z.testbit old k = true.
Proof.
  unfold novel_byte. rewrite <- not_true_iff_false, existsb_exists_elem. split.
  - intros H k Hk Hn. destruct (Z.testbit old k) eqn:E; [done|]. exfalso. apply H.
    exists k. by rewrite Hn, E.
  - intros H (k & Hk & Hb). bool_hyps. rewrite (H k) in H1; done.
Qed.

(** ** Properties of the fold *)

Definition afl0 : Afl := mkAfl (fun _ => 0) 0 0 0 0 0 0 0 0 0.
Definition one_byte (i v : Z) : Z -> Z := fun j => if j =? i then v else 0.

(** in every build that records bits (the default one included) the fold is
    exact: afterwards the fuzzer's map is the old one with the bits of the trace
    the build looks at, on all bytes but the sentinel, and the detector is asked
    for exactly when one of these bits was not recorded.  In particular the
    whole-map early-out and the skipping of unchanged bytes lose nothing, and a
    second fold of the same trace asks for nothing. *)
Theorem check_msan_trace_exact md trace a :
  bit_modes md = true ->
  let '(a', b) := check_msan_trace md trace a in
  (forall j, msan_traces a' j
    = if (0 <=? j) && (j <? MAP_SIZE - 1)
      then Z.lor (msan_traces a j) (Z.land (trace j) (mask md)) else msan_traces a j) /\
  b = novel md trace (msan_traces a) /\
  snd (check_msan_trace md trace a') = false.
Proof.
  intros Hb. pose proof (check_msan_trace_correct md trace a Hb) as H.
  destruct (check_msan_trace md trace a) as [a' b]. destruct H as [Ht Hn].
  split; [done|split; [done|]].
  pose proof (check_msan_trace_correct md trace a' Hb) as H2.
  destruct (check_msan_trace md trace a') as [a2 b2]. destruct H2 as [_ ->]. cbn [snd].
  unfold novel. apply not_true_iff_false. rewrite existsb_exists_elem.
  intros (i & Hi%elem_of_zrange & H). apply eq_true_false_abs in H; [done|].
  rewrite novel_byte_spec. intros k Hk Hbit. rewrite Ht.
  replace ((0 <=? i) && (i <? MAP_SIZE - 1)) with true by (symmetry; bool_goal; lia).
  rewrite Z.lor_spec, Z.land_spec, Hbit, mask_testbit.
  apply orb_true_iff. right. cbn. apply existsb_exists_elem. exists k. split; [done|apply Z.eqb_refl].
Qed.

Lemma check_msan_trace_exact_witness :
  let '(a', b) := check_msan_trace default_modes (one_byte 5 10) afl0 in
  msan_traces a' 5 = 10 /\ snd (check_msan_trace default_modes (one_byte 5 10) a') = false.
Proof.
  pose proof (check_msan_trace_exact default_modes (one_byte 5 10) afl0 eq_refl) as H.
  destruct (check_msan_trace default_modes (one_byte 5 10) afl0) as [a' b].
  destruct H as (H & _ & H2). split; [|exact H2]. rewrite (H 5). reflexivity.
Defined.

(** ** The detector's runs *)

(** The fold leaves the counters of the detector alone, in every mode. *)
Definition same_runs (a a' : Afl) : Prop :=
  heavyweight_runs a' = heavyweight_runs a /\ qmsan_crashes a' = qmsan_crashes a.

Lemma blocks_runs md i new old s : same_runs (sc_afl s) (sc_afl (blocks md i new old s)).
Proof.
  assert (forall s s' s'', same_runs (sc_afl s) (sc_afl s') -> same_runs (sc_afl s') (sc_afl s'') ->
    same_runs (sc_afl s) (sc_afl s'')) as Htr.
  { intros s1 s2 s3 [H1 H2] [H3 H4]. split; congruence. }
  assert (forall bit c i new old s, c <> c_heavyweight -> c <> c_crashes ->
    same_runs (sc_afl s) (sc_afl (record_bit bit c i new old s))) as Hrec.
  { intros. unfold record_bit. case_match; [|done]. by destruct c. }
  unfold blocks. repeat (eapply Htr; [|
    match goal with |- context [when ?b] => destruct b end; cbn [when]; [|done];
    first [by apply Hrec | unfold dropoff_block, flagging_block; by repeat case_match]]).
  all: try done.
Qed.

Lemma check_msan_trace_runs md trace a : same_runs a (fst (check_msan_trace md trace a)).
Proof.
  assert (forall n s, same_runs (sc_afl s) (sc_afl (scan md trace n s))) as Hscan.
  { induction n as [|n IH]; intros s; cbn [scan]; [done|]. unfold scan_byte.
    destruct (_ =? _); [apply IH|].
    set (s1 := when (SIMPLE md) _ s).
    assert (same_runs (sc_afl s) (sc_afl s1)) as [H1 H2].
    { subst s1. unfold when, simple_block. by repeat case_match. }
    destruct (NAIVE md && _); [by split|].
    destruct (blocks_runs md (Z.of_nat n) (trace (Z.of_nat n)) (msan_traces (sc_afl s) (Z.of_nat n)) s1)
      as [H3 H4].
    destruct (IH (blocks md (Z.of_nat n) (trace (Z.of_nat n)) (msan_traces (sc_afl s) (Z.of_nat n)) s1))
      as [H5 H6]. split; congruence. }
  unfold check_msan_trace, scan_map. case_match; [done|apply (Hscan _ (mkScan a false false))].
Qed.

(** The answer of the accurate detector counts as a crash. *)
Definition confirmed (md : Modes) (valgrind_mode : bool) (accurate : Z) : bool :=
  let status := if NOOP_ACCURATE md then 0 else WEXITSTATUS accurate in
  (negb valgrind_mode && (status =? 1)) || (valgrind_mode && (status =? 100)).

(** One execution, in the modes that record bits. *)
Lemma check_bugs_correct md vg acc bits a :
  bit_modes md = true -> NOOP_FPCHECK md = false ->
  exists bits' a' ret, qmsan_check_bugs md vg acc (Some bits) a = (Some bits', a', ret) /\
  (forall j, bits' j = if j =? MAP_SIZE - 1 then 0 else bits j) /\
  let fired := negb (bits (MAP_SIZE - 1) =? 0) in
  let run := fired && novel md bits (msan_traces a) in
  (forall j, msan_traces a' j = msan_traces (if fired then fst (check_msan_trace md bits a) else a) j) /\
  heavyweight_runs a' = (if run then heavyweight_runs a +64 1 else heavyweight_runs a) /\
  qmsan_crashes a' = (if run && confirmed md vg acc then qmsan_crashes a +64 1 else qmsan_crashes a) /\
  ret = run && confirmed md vg acc.
Proof.
  intros Hb Hn. pose proof (check_msan_trace_correct md bits a Hb) as Hc.
  unfold qmsan_check_bugs. rewrite Hn.
  unfold bit_modes in Hb. bool_hyps.
  repeat match goal with H : NAIVE md = _ |- _ => rewrite H
    | H : FLAGGING md = _ |- _ => rewrite H end. cbn [orb].
  pose proof (check_msan_trace_runs md bits a) as [Hr1 Hr2].
  destruct (bits (MAP_SIZE - 1) =? 0) eqn:E; cbn [negb andb].
  - exists bits, a, false. split; [done|split; [|done]]. intros j. destruct (Z.eqb_spec j (MAP_SIZE - 1)) as [->|]; [|done].
    by apply Z.eqb_eq in E.
  - destruct (check_msan_trace md bits a) as [a1 n]. cbn [fst] in *. destruct Hc as [_ ->].
    fold (confirmed md vg acc).
    destruct (novel md bits (msan_traces a)); cbn [andb].
    + destruct (confirmed md vg acc);
        (eexists _, _, _; split; [reflexivity|]); cbn; rewrite ?Hr1, ?Hr2;
        (split; [|done]); intros j; unfold clear_sentinel, area_set;
        by destruct (j =? MAP_SIZE - 1).
    + eexists _, _, _. split; [reflexivity|]. (split; [|done]); intros j; unfold clear_sentinel, area_set;
        by destruct (j =? MAP_SIZE - 1).
Qed.

(** The bits the fuzzer has recorded, among those the build looks at. *)
Definition recordable (md : Modes) : list (Z * Z) := list_prod (zrange (MAP_SIZE - 1)) (mask_bits md).
Definition recorded (md : Modes) (t : Z -> Z) : Z :=
  Z.of_nat (length (List.filter (fun p => Z.testbit (t p.1) p.2) (recordable md))).

Lemma filter_length_mono {A} (f g : A -> bool) l :
  (forall x, x ∈ l -> f x = true -> g x = true) ->
  (length (List.filter f l) <= length (List.filter g l))%nat /\
  ((exists x, x ∈ l /\ f x = false /\ g x = true) ->
   (length (List.filter f l) < length (List.filter g l))%nat).
Proof.
  induction l as [|y l IH]; intros H; cbn [List.filter]; [split; [done|]; intros (x & Hx & _); by apply elem_of_nil in Hx|].
  destruct IH as [IH1 IH2]; [intros x Hx; apply H; by right|].
  specialize (H y ltac:(by left)). split.
  - destruct (f y) eqn:F; [rewrite H by done; cbn; lia|destruct (g y); cbn; lia].
  - intros (x & Hx & Hf & Hg). apply elem_of_cons in Hx as [->|Hx].
    + rewrite Hf, Hg. cbn. lia.
    + specialize (IH2 (ex_intro _ x (conj Hx (conj Hf Hg)))).
      destruct (f y) eqn:F; [rewrite H by done; cbn; lia|destruct (g y); cbn; lia].
Qed.

Lemma elem_of_recordable md i k : (i, k) ∈ recordable md <-> 0 <= i < MAP_SIZE - 1 /\ k ∈ mask_bits md.
Proof.
  unfold recordable. rewrite list_elem_of_In, in_prod_iff, <- !list_elem_of_In. by rewrite elem_of_zrange.
Qed.

Lemma recorded_bound md t : 0 <= recorded md t <= Z.of_nat (length (mask_bits md)) * (MAP_SIZE - 1).
Proof.
  unfold recorded. pose proof (List.filter_length_le (fun p => Z.testbit (t p.1) p.2) (recordable md)) as H.
  unfold recordable in H at 2. rewrite length_prod in H. unfold zrange in H.
  rewrite length_map, length_seq in H. unfold MAP_SIZE in *. lia.
Qed.

(** A fold that asks for the detector records at least one bit more. *)
Lemma fold_records_more md trace a :
  bit_modes md = true ->
  recorded md (msan_traces a) + (if novel md trace (msan_traces a) then 1 else 0)
  <= recorded md (msan_traces (fst (check_msan_trace md trace a))).
Proof.
  intros Hb. pose proof (check_msan_trace_correct md trace a Hb) as H.
  destruct (check_msan_trace md trace a) as [a' b]. destruct H as [Ht _]. cbn [fst].
  unfold recorded.
  destruct (filter_length_mono (fun p => Z.testbit (msan_traces a p.1) p.2)
    (fun p => Z.testbit (msan_traces a' p.1) p.2) (recordable md)) as [Hle Hlt].
  { intros [i k] _ Hbit. cbn [fst snd] in *. rewrite Ht. case_match; [|done].
    by rewrite Z.lor_spec, Hbit. }
  destruct (novel md trace (msan_traces a)) eqn:E; [|lia].
  unfold novel in E. rewrite existsb_exists_elem in E. destruct E as (i & Hi%elem_of_zrange & E).
  unfold novel_byte in E. rewrite existsb_exists_elem in E. destruct E as (k & Hk & E). bool_hyps.
  enough (length (List.filter (fun p => Z.testbit (msan_traces a p.1) p.2) (recordable md))
    < length (List.filter (fun p => Z.testbit (msan_traces a' p.1) p.2) (recordable md)))%nat by lia.
  apply Hlt. exists (i, k). rewrite elem_of_recordable. split; [done|]. cbn [fst snd]. split; [done|].
  rewrite Ht. replace ((0 <=? i) && (i <? MAP_SIZE - 1)) with true by (symmetry; bool_goal; lia).
  rewrite Z.lor_spec, Z.land_spec, mask_testbit, H. apply orb_true_iff. right. cbn.
  apply existsb_exists_elem. exists k. split; [done|apply Z.eqb_refl].
Qed.

(** the expensive detector is bounded over a whole fuzzing campaign: however
    many executions run and whatever bits the targets leave, it runs at most once
    per byte and recorded bit, i.e. at most 4 * 65535 times in the default
    build. *)
Theorem heavyweight_runs_bounded md execs a a' :
  bit_modes md = true -> NOOP_FPCHECK md = false -> check_run md execs a a' ->
  heavyweight_runs a = 0 ->
  heavyweight_runs a' <= Z.of_nat (length (mask_bits md)) * (MAP_SIZE - 1).
Proof.
  intros Hb Hn Hrun H0.
  enough (0 <= heavyweight_runs a /\ 0 <= heavyweight_runs a' /\
    heavyweight_runs a' - heavyweight_runs a
      <= recorded md (msan_traces a') - recorded md (msan_traces a)) as H.
  { pose proof (recorded_bound md (msan_traces a')). pose proof (recorded_bound md (msan_traces a)). lia. }
  assert (0 <= heavyweight_runs a) as Hpos by lia. clear H0.
  induction Hrun as [a|bits vg acc bits' a a1 ret execs a2 Hc _ IH]; [lia|].
  destruct (check_bugs_correct md vg acc bits a Hb Hn) as (bits'' & a1' & ret' & E & _ & Ht & Hr & _).
  rewrite E in Hc. injection Hc as _ -> _.
  pose proof (fold_records_more md bits a Hb) as Hm.
  assert (recorded md (msan_traces a1) = recorded md (msan_traces
    (if negb (bits (MAP_SIZE - 1) =? 0) then fst (check_msan_trace md bits a) else a))) as Hrec.
  { unfold recorded. do 2 f_equal. apply filter_ext. intros p. by rewrite Ht. }
  assert (u64 (heavyweight_runs a + 1) <= heavyweight_runs a + 1) by (apply Z.mod_le; lia).
  pose proof (u64_range (heavyweight_runs a + 1)).
  destruct (bits (MAP_SIZE - 1) =? 0); cbn [negb andb] in *; [|destruct (novel md bits _)];
    specialize (IH ltac:(lia)); lia.
Qed.

Lemma heavyweight_runs_bounded_witness :
  exists a', check_run default_modes [fun _ => 0] afl0 a' /\ heavyweight_runs a' <= 4 * 65535.
Proof.
  assert (check_run default_modes [fun _ => 0] afl0 afl0) as H
    by (apply (run_cons _ _ true 0 (Some (fun _ => 0)) _ afl0 false); [reflexivity|constructor]).
  exists afl0. split; [exact H|].
  exact (heavyweight_runs_bounded default_modes [fun _ => 0] afl0 afl0 eq_refl eq_refl H eq_refl).
Defined.

Lemma update_map_error_bit top callers u i :
  i = GetPreviousInstructionPc top mod MAP_SIZE -> area_bytes (area u) ->
  Z.testbit (area (cqmsan_update_map (top :: callers) u) i) 1 = true /\
  area (cqmsan_update_map (top :: callers) u) (MAP_SIZE - 1) = 0xff.
Proof.
  intros -> Hu. split.
  - pose proof (update_map_known flags_skip top callers u eq_refl Hu) as H.
    unfold cqmsan_site_known in H. apply andb_true_iff in H as [_ H].
    by rewrite <- (has_testbit 1) by lia.
  - cbn [cqmsan_update_map area set_edges set_area]. unfold area_set. by rewrite Z.eqb_refl.
Qed.

(** C23: from the check to the detector.  When an instrumented check fires at a
    site the runtime does not know yet, and the fuzzer has not recorded an error
    at the site's byte, the next [qmsan_check_bugs] of the default build runs the
    accurate detector once, reports a crash exactly when the detector confirms it,
    remembers the site, and leaves the sentinel clear for the next execution.
    (The one byte left out is the sentinel's own.) *)
Theorem report_reaches_accurate_detector fl capture pc u u1 vg acc a :
  Unwinder capture -> halt_on_error fl = false -> area_bytes (area u) ->
  let site := GetPreviousInstructionPc pc mod MAP_SIZE in
  site <> MAP_SIZE - 1 ->
  cqmsan_site_known fl (GetPreviousInstructionPc pc) u = false ->
  Z.testbit (msan_traces a site) 1 = false ->
  __cqmsan_warning_fast fl capture pc u = Done u1 ->
  exists bits a', qmsan_check_bugs default_modes vg acc (Some (area u1)) a
      = (Some bits, a', confirmed default_modes vg acc) /\
    bits (MAP_SIZE - 1) = 0 /\
    heavyweight_runs a' = heavyweight_runs a +64 1 /\
    Z.testbit (msan_traces a' site) 1 = true.
Proof.
  intros Hcap Hh Hu site Hsite Hk Hold Hw.
  unfold __cqmsan_warning_fast, die_if in Hw. rewrite Hh in Hw.
  assert (cqmsan_site_known fl (GetPreviousInstructionPc pc) (count_report u) = false) as Hk' by exact Hk.
  rewrite Hk' in Hw. cbn [negb] in Hw. inv_done. destruct (Hcap pc) as (callers & ->).
  destruct (update_map_error_bit pc callers (count_report u) site eq_refl Hu) as [Hbit Hsent].
  set (bits := area (cqmsan_update_map (pc :: callers) (count_report u))) in *.
  assert (0 <= site < MAP_SIZE) as Hr by (apply Z.mod_pos_bound; done).
  assert (novel default_modes bits (msan_traces a) = true) as Hnov.
  { unfold novel. apply existsb_exists_elem. exists site. rewrite elem_of_zrange. split; [lia|].
    unfold novel_byte. apply existsb_exists_elem. exists 1. split; [cbn; by left|]. by rewrite Hbit, Hold. }
  destruct (check_bugs_correct default_modes vg acc bits a eq_refl eq_refl)
    as (bits' & a' & ret & E & Hb & Ht & Hruns & _ & Hret).
  rewrite Hsent in Ht, Hruns, Hret. rewrite Hnov in Hruns, Hret. cbn [negb andb Z.eqb] in *.
  exists bits', a'. rewrite E, Hret. split; [done|]. rewrite Hb, Z.eqb_refl. split; [done|].
  split; [exact Hruns|]. rewrite Ht.
  pose proof (check_msan_trace_correct default_modes bits a eq_refl) as Hc.
  destruct (check_msan_trace default_modes bits a) as [a1 b1]. destruct Hc as [Hc _]. cbn [fst].
  rewrite Hc. replace ((0 <=? site) && (site <? MAP_SIZE - 1)) with true by (symmetry; bool_goal; lia).
  by rewrite Z.lor_spec, Z.land_spec, Hbit, mask_testbit, orb_true_r.
Qed.

Lemma report_reaches_accurate_detector_witness :
  exists u1 bits a', __cqmsan_warning_fast flags_skip (fun pc => [pc; 99]) 0x401000 umr0 = Done u1 /\
  qmsan_check_bugs default_modes false 0x100 (Some (area u1)) afl0 = (Some bits, a', true) /\
  bits (MAP_SIZE - 1) = 0.
Proof.
  destruct (report_reaches_accurate_detector flags_skip (fun pc => [pc; 99]) 0x401000 umr0
    (cqmsan_update_map [0x401000; 99] (count_report umr0)) false 0x100 afl0)
    as (bits & a' & H & Hs & _).
  - intros pc. by exists [99].
  - reflexivity.
  - intros i. cbn. lia.
  - unfold MAP_SIZE, GetPreviousInstructionPc. discriminate.
  - reflexivity.
  - reflexivity.
  - reflexivity.
  - exists (cqmsan_update_map [0x401000; 99] (count_report umr0)), bits, a'.
    split; [reflexivity|split; [exact H|exact Hs]].
Defined.

(** ** The command line of the detector *)

Lemma string_length_app a b : String.length (a ++ b)%string = (String.length a + String.length b)%nat.
Proof. induction a as [|c a IH]; [done|]. change (S (String.length (a ++ b)%string) = S (String.length a + String.length b)). by rewrite IH. Qed.

Lemma fold_args_length l c :
  Z.of_nat (String.length (fold_left (fun c a => (c ++ a ++ " ")%string) l c))
  = Z.of_nat (String.length c) + fold_right (fun a n => Z.of_nat (String.length a) + 1 + n) 0 l.
Proof.
  revert c. induction l as [|a l IH]; intros c; cbn [fold_left fold_right]; [lia|].
  rewrite IH, !string_length_app. cbn [String.length]. lia.
Qed.

(** the check for an overlong command line never prevents an overflow: the
    message is printed exactly when the [sprintf]s have already written past the
    4096 bytes of the buffer, and the function returns the overlong command all
    the same; any argument list of 4096 characters or more gets there. *)
Theorem init_cmdline_overflow_returns e path target :
  QMSAN_PATH e = Some path -> AFL_CQMSAN_ACCURATE_TARGET e = Some target ->
  4096 <= fold_right (fun a n => Z.of_nat (String.length a) + 1 + n) 0 (argv_tail e) ->
  exists cmd, init_cmdline e = Done (cmd, false) /\ fits_cmdline cmd = false /\
    overflow_reported cmd = true.
Proof.
  intros Hp Ht Hl. unfold init_cmdline. rewrite Hp, Ht. eexists. split; [reflexivity|].
  unfold fits_cmdline, overflow_reported, CMDLINE_SIZE.
  rewrite !string_length_app, !Nat2Z.inj_add, fold_args_length. split; bool_goal; lia.
Qed.

Definition long_env : CmdEnv :=
  mkCmdEnv None (Some "qmsan"%string) (Some "target"%string) true "log"%string
    (repeat "x"%string 2048).

Lemma init_cmdline_overflow_returns_witness :
  exists cmd, init_cmdline long_env = Done (cmd, false) /\ fits_cmdline cmd = false.
Proof.
  destruct (init_cmdline_overflow_returns long_env "qmsan" "target" eq_refl eq_refl)
    as (cmd & H1 & H2 & _); [cbn [long_env argv_tail]; vm_compute; discriminate|].
  exists cmd. split; [exact H1|exact H2].
Defined.
