(* ===== verification/Depot.v ===== *)
(** * Depot: the hash-consing tables behind origins

    [StackDepotBase] of [sanitizer_stackdepotbase.h], which gives every stack
    trace (and every link of an origin chain) a small unique id, together with
    its two node types: [ChainedOriginDepotNode] and [StackDepotNode].

    The node type is a class: its operations ([NodeOps]) and what the table needs
    of them ([DepotNode]).  [Put] first looks the bucket up without the lock, then
    locks the bucket and looks again; the two halves are [Put_probe] and
    [Put_locked], and the interleavings of several threads are the relation
    [step].  A bucket's lock is held throughout [Put_locked], so that it is one
    step; nodes never change once they are linked.

    A node keeps its arguments here; StackDepot puts the frames of a [StackDepotNode] in
    the compressing store instead. *)

From S2P Require Import Prelude.

(** ** Nodes *)

Class NodeOps (A : Type) := mkNodeOps {
  node_hash : A -> Z;
  node_is_valid : A -> bool;
  node_eq : Z -> A -> Z -> A -> bool;   (* stored hash and arguments, searched ones *)
  no_args : A;                          (* args_type() *)
  kReservedBits : Z;
  kTabSizeLog : Z
}.

Definition same_args {A} `{NodeOps A} (a b : A) : bool := node_eq (node_hash a) a (node_hash b) b.

Class DepotNode (A : Type) `{NodeOps A} : Prop := {
  same_args_refl a : same_args a a = true;
  same_args_sym a b : same_args a b = true -> same_args b a = true;
  same_args_trans a b c : same_args a b = true -> same_args b c = true -> same_args a c = true;
  same_args_hash a b : same_args a b = true -> node_hash a = node_hash b;
  kReservedBits_range : 1 <= kReservedBits <= 31;
  kTabSizeLog_nonneg : 0 <= kTabSizeLog
}.

(** ** The table *)

Record Node (A : Type) := mkNode { n_hash : Z; n_args : A; link : Z }.
Arguments mkNode {A}. Arguments n_hash {A}. Arguments n_args {A}. Arguments link {A}.

Record Depot (A : Type) := mkDepot {
  tab : Z -> Z;                 (* the head of each bucket's list, 0 when empty *)
  n_uniq_ids : Z;
  nodes : gmap Z (Node A)
}.
Arguments mkDepot {A}. Arguments tab {A}. Arguments n_uniq_ids {A}. Arguments nodes {A}.

Section depot.
Context {A : Type} `{NodeOps A}.
Implicit Types (d : Depot A) (a : A).

Definition kIdSizeLog : Z := 32 - Z.max kReservedBits 1.
Definition kUnlockMask : Z := 2 ^ kIdSizeLog - 1.
Definition kTabSize : Z := 2 ^ kTabSizeLog.

Definition bucket (h : Z) : Z := h mod kTabSize.

(** [for (; s;)]: the list from [s]; [None] when the fuel does not suffice. *)
Fixpoint find (fuel : nat) d (s : Z) a (h : Z) : option Z :=
  if s =? 0 then Some 0 else
  match fuel with
  | O => None
  | S fuel =>
      match nodes d !! s with
      | Some node => if node_eq (n_hash node) (n_args node) h a then Some s
                     else find fuel d (link node) a h
      | None => None
      end
  end.

(** Links go to smaller ids, so that [s] rounds are enough. *)
Definition find_from d (s : Z) a : option Z := find (Z.to_nat s) d s a (node_hash a).

Inductive probe := Found (id : Z) | Missed (s : Z).

(** Until the lock is taken. *)
Definition Put_probe d a : option probe :=
  if negb (node_is_valid a) then Some (Found 0) else
  let s := tab d (bucket (node_hash a)) in
  node ← find_from d s a;
  Some (if negb (node =? 0) then Found node else Missed s).

Definition insert_node d a (s2 : Z) : outcome (Z * bool * Depot A) :=
  let s := u32 (n_uniq_ids d + 1) in
  _ ← check (Z.land s kUnlockMask =? s) "depot";
  _ ← check (Z.land s (Z.shiftr (2 ^ 32 - 1) kReservedBits) =? s) "depot";
  let node := mkNode (node_hash a) a s2 in
  let b := bucket (node_hash a) in
  mret (s, true, mkDepot (fun j => if j =? b then s else tab d j) s (<[s := node]> (nodes d))).

(** With the lock of the bucket, after [Put_probe] missed in the list of [s]:
    the id, whether it was inserted, and the new table. *)
Definition Put_locked d a (s : Z) : option (outcome (Z * bool * Depot A)) :=
  let s2 := tab d (bucket (node_hash a)) in
  if negb (s2 =? s) then
    node ← find_from d s2 a;
    if negb (node =? 0) then Some (Done (node, false, d)) else Some (insert_node d a s2)
  else Some (insert_node d a s2).

Definition Put d a : option (outcome (Z * bool * Depot A)) :=
  p ← Put_probe d a;
  match p with
  | Found id => Some (Done (id, false, d))
  | Missed s => Put_locked d a s
  end.

(** A block of nodes that exists but was never stored to is zero and loads as no
    arguments, like one that does not exist. *)
Definition Get d (id : Z) : outcome A :=
  if id =? 0 then mret no_args else
  _ ← check (Z.land id (Z.shiftr (2 ^ 32 - 1) kReservedBits) =? id) "depot";
  mret (match nodes d !! id with Some node => n_args node | None => no_args end).

Definition empty_depot : Depot A := mkDepot (fun _ => 0) 0 ∅.

(** ** Threads calling Put *)

Inductive pc :=
| Calling (a : A)
| Locking (a : A) (s : Z)
| Returned (a : A) (id : Z) (inserted : bool).

Inductive step : Depot A * list pc -> Depot A * list pc -> Prop :=
| step_found d ts i a id :
    ts !! i = Some (Calling a) -> Put_probe d a = Some (Found id) ->
    step (d, ts) (d, <[i := Returned a id false]> ts)
| step_missed d ts i a s :
    ts !! i = Some (Calling a) -> Put_probe d a = Some (Missed s) ->
    step (d, ts) (d, <[i := Locking a s]> ts)
| step_locked d ts i a s id ins d' :
    ts !! i = Some (Locking a s) -> Put_locked d a s = Some (Done (id, ins, d')) ->
    step (d, ts) (d', <[i := Returned a id ins]> ts).
End depot.
Arguments pc A : clear implicits.

(** ** The two node types *)

(** The murmur2 step of both hashes. *)
Definition murmur_m : Z := 0x5bd1e995.
Definition murmur_mix (h k : Z) : Z :=
  let k := u32 (k * murmur_m) in
  let k := Z.lxor k (Z.shiftr k 24) in
  let k := u32 (k * murmur_m) in
  let h := u32 (h * murmur_m) in
  Z.lxor h k.

Record ChainedOriginDepotDesc := mkDesc { here_id : Z; prev_id : Z }.

Definition ChainedOriginDepotNode_hash (args : ChainedOriginDepotDesc) : Z :=
  let h := 0x9747b28c in
  let h := murmur_mix h (here_id args) in
  let h := murmur_mix h (prev_id args) in
  let h := Z.lxor h (Z.shiftr h 13) in
  let h := u32 (h * murmur_m) in
  Z.lxor h (Z.shiftr h 15).

#[export] Instance ChainedOriginDepotNode : NodeOps ChainedOriginDepotDesc := {
  node_hash := ChainedOriginDepotNode_hash;
  node_is_valid _ := true;
  node_eq _ n _ args := (here_id n =? here_id args) && (prev_id n =? prev_id args);
  no_args := mkDesc 0 0;
  kReservedBits := 4;
  kTabSizeLog := 20
}.

Record StackTrace := mkStackTrace { trace : list Z; tag : Z }.

Definition murmur64_m : Z := 0xc6a4a7935bd1e995.
Definition murmur64_seed : Z := 0x9747b28c9747b28c.

Definition MurMur2Hash64_add (h k : Z) : Z :=
  let k := u64 (k * murmur64_m) in
  let k := Z.lxor k (Z.shiftr k 47) in
  let k := u64 (k * murmur64_m) in
  u64 (Z.lxor h k * murmur64_m).
Definition MurMur2Hash64_get (h : Z) : Z :=
  let x := Z.lxor h (Z.shiftr h 47) in
  let x := u64 (x * murmur64_m) in
  Z.lxor x (Z.shiftr x 47).

Definition StackDepotNode_hash (args : StackTrace) : Z :=
  let h := Z.lxor murmur64_seed (u64 (Z.of_nat (length (trace args)) * 8 * murmur64_m)) in
  let h := fold_left MurMur2Hash64_add (trace args) h in
  MurMur2Hash64_get (MurMur2Hash64_add h (tag args)).

(** Only the 64-bit hash is compared. *)
#[export] Instance StackDepotNode : NodeOps StackTrace := {
  node_hash := StackDepotNode_hash;
  node_is_valid args := negb (Nat.eqb (length (trace args)) 0);
  node_eq stored_hash _ hash _ := hash =? stored_hash;
  no_args := mkStackTrace [] 0;
  kReservedBits := 1;
  kTabSizeLog := 20
}.

#[export] Instance ChainedOriginDepotNode_laws : DepotNode ChainedOriginDepotDesc.
Proof.
  split; unfold same_args; cbn [node_eq node_hash ChainedOriginDepotNode kReservedBits kTabSizeLog].
  - intros a. by rewrite !Z.eqb_refl.
  - intros a b E. bool_hyps. bool_goal; done.
  - intros a b c E1 E2. bool_hyps. bool_goal; congruence.
  - intros [a1 a2] [b1 b2] E. cbn in E. bool_hyps. by subst.
  - lia.
  - lia.
Qed.

#[export] Instance StackDepotNode_laws : DepotNode StackTrace.
Proof.
  split; unfold same_args; cbn [node_eq node_hash StackDepotNode kReservedBits kTabSizeLog].
  - intros a. apply Z.eqb_refl.
  - intros a b E. bool_hyps. by apply Z.eqb_eq.
  - intros a b c E1 E2. bool_hyps. apply Z.eqb_eq. congruence.
  - intros a b E. by bool_hyps.
  - lia.
  - lia.
Qed.

Definition ChainedDepot : Type := Depot ChainedOriginDepotDesc.
Definition StackDepot : Type := Depot StackTrace.

(** ** The invariant *)

Section invariant.
Context {A : Type} `{DepotNode A}.
Implicit Types (d : Depot A) (a : A).

(** [id] is in the list from [s]. *)
Inductive listed d : Z -> Z -> Prop :=
| listed_here s node : nodes d !! s = Some node -> listed d s s
| listed_next s node id : nodes d !! s = Some node -> listed d (link node) id -> listed d s id.

Lemma listed_stored d s id : listed d s id -> is_Some (nodes d !! id).
Proof. induction 1; [by eexists|done]. Qed.

Definition id_or_0 d (s : Z) : Prop := s = 0 \/ is_Some (nodes d !! s).

Record depot_ok d : Prop := {
  ok_count : 0 <= n_uniq_ids d <= kUnlockMask;
  ok_ids id : is_Some (nodes d !! id) <-> 1 <= id <= n_uniq_ids d;
  ok_hash id node : nodes d !! id = Some node -> n_hash node = node_hash (n_args node);
  ok_link id node : nodes d !! id = Some node -> link node < id /\ id_or_0 d (link node);
  ok_tab b : id_or_0 d (tab d b);
  ok_listed id node : nodes d !! id = Some node -> listed d (tab d (bucket (n_hash node))) id;
  ok_unique id1 id2 node1 node2 :
    nodes d !! id1 = Some node1 -> nodes d !! id2 = Some node2 ->
    same_args (n_args node1) (n_args node2) = true -> id1 = id2
}.

(** Nothing in the list from [s] is [a]. *)
Definition not_in_list d (s : Z) a : Prop :=
  forall id node, listed d s id -> nodes d !! id = Some node -> same_args (n_args node) a = false.
Definition not_stored d a : Prop :=
  forall id node, nodes d !! id = Some node -> same_args (n_args node) a = false.
Definition stored_as d a (id : Z) : Prop :=
  exists node, nodes d !! id = Some node /\ same_args (n_args node) a = true.

Lemma listed_0 d id : depot_ok d -> ~ listed d 0 id.
Proof.
  intros Hd Hl. assert (is_Some (nodes d !! 0)) as Hs by (by inversion Hl).
  apply (ok_ids d Hd) in Hs. lia.
Qed.

Lemma kUnlockMask_range : 0 < kUnlockMask < 2 ^ 31.
Proof.
  pose proof kReservedBits_range. unfold kUnlockMask, kIdSizeLog.
  rewrite Z.max_l by lia.
  pose proof (Z.pow_le_mono_r 2 (32 - kReservedBits) 31). 
  pose proof (Z.pow_le_mono_r 2 1 (32 - kReservedBits)). lia.
Qed.

(** The search is right, and ends within the fuel [find_from] gives it. *)
Lemma find_correct d a fuel s :
  depot_ok d -> id_or_0 d s -> (Z.to_nat s <= fuel)%nat ->
  exists r, find fuel d s a (node_hash a) = Some r /\
  (r = 0 -> not_in_list d s a) /\ (r <> 0 -> stored_as d a r).
Proof.
  intros Hd. revert s. induction fuel as [|fuel IH]; intros s Hs Hf; cbn [find];
    destruct (Z.eqb_spec s 0) as [->|Hne].
  1,3: exists 0; (split; [done|split; [|done]]); intros _ id node Hl; by apply listed_0 in Hl.
  { destruct Hs as [->|Hs]; [lia|]. apply (ok_ids d Hd) in Hs. lia. }
  destruct Hs as [->|[node Hn]]; [lia|]. rewrite Hn.
  rewrite (ok_hash d Hd s node Hn). fold (same_args (n_args node) a).
  destruct (same_args (n_args node) a) eqn:E.
  - exists s. split; [done|split; [done|]]. intros _. by exists node.
  - destruct (ok_link d Hd s node Hn) as [Hlt Hlink].
    assert (1 <= s) by (apply (ok_ids d Hd); by eexists).
    destruct (IH (link node) Hlink ltac:(lia)) as (r & -> & Hr0 & Hr1).
    exists r. split; [done|split; [|done]]. intros -> id node' Hl Hn'.
    inversion Hl as [? ? Hn2|? ? ? Hn2 Hl2]; subst.
    + congruence.
    + rewrite Hn in Hn2. injection Hn2 as <-. by apply (Hr0 eq_refl id node').
Qed.

Lemma find_from_correct d a s :
  depot_ok d -> id_or_0 d s ->
  exists r, find_from d s a = Some r /\ (r = 0 -> not_in_list d s a) /\ (r <> 0 -> stored_as d a r).
Proof. intros Hd Hs. by apply find_correct. Qed.

(** A bucket without [a] means a table without [a]. *)
Lemma not_in_bucket d a :
  depot_ok d -> not_in_list d (tab d (bucket (node_hash a))) a -> not_stored d a.
Proof.
  intros Hd Hl id node Hn. destruct (same_args (n_args node) a) eqn:E; [|done].
  rewrite <- E. apply (Hl id); [|done].
  rewrite <- (same_args_hash _ _ E), <- (ok_hash d Hd id node Hn). by apply ok_listed.
Qed.

(** *** Insertion *)

(** The nodes of [d] are still there in [d']. *)
Definition grows d d' : Prop :=
  forall id node, nodes d !! id = Some node -> nodes d' !! id = Some node.

Lemma grows_refl d : grows d d. Proof. by intros id node. Qed.

Lemma listed_grows d d' s id : grows d d' -> listed d s id -> listed d' s id.
Proof. intros Hg. induction 1; [eapply listed_here|eapply listed_next]; eauto. Qed.

Lemma listed_shrinks d d' s id :
  depot_ok d -> grows d d' -> id_or_0 d s -> ~ is_Some (nodes d' !! 0) -> listed d' s id -> listed d s id.
Proof.
  intros Hd Hg Hs Hz Hl. induction Hl as [s node Hn|s node id Hn Hl IH].
  - destruct Hs as [->|[node' Hn']]; [by destruct Hz; eexists|by eapply listed_here].
  - destruct Hs as [->|[node' Hn']]; [by destruct Hz; eexists|].
    pose proof (Hg _ _ Hn') as E. rewrite Hn in E. injection E as <-.
    eapply listed_next; [done|]. apply IH. by apply (ok_link d Hd s).
Qed.

Lemma stored_as_grows d d' a id : grows d d' -> stored_as d a id -> stored_as d' a id.
Proof. intros Hg (node & Hn & E). exists node. eauto. Qed.

Lemma land_mask_small s k : 0 <= k -> Z.land s (2 ^ k - 1) =? s = true -> 0 <= s < 2 ^ k.
Proof.
  intros Hk Hs. bool_hyps. rewrite <- Hs. replace (2 ^ k - 1) with (Z.ones k) by (rewrite Z.ones_equiv; lia).
  rewrite Z.land_ones by done. apply Z.mod_pos_bound. lia.
Qed.

Lemma insert_node_correct d a id ins d' :
  depot_ok d -> not_stored d a ->
  insert_node d a (tab d (bucket (node_hash a))) = Done (id, ins, d') ->
  depot_ok d' /\ grows d d' /\ stored_as d' a id /\ ins = true /\ nodes d !! id = None.
Proof.
  intros Hd Hns. unfold insert_node. intros Hi. inv_done.
  pose proof kUnlockMask_range as Hm. pose proof (ok_count d Hd) as Hc.
  rewrite u32_small in * by lia. set (s := n_uniq_ids d + 1) in *.
  assert (nodes d !! s = None) as Hfresh.
  { apply eq_None_not_Some. intros Hs%(ok_ids d Hd). lia. }
  set (node := mkNode (node_hash a) a (tab d (bucket (node_hash a)))).
  set (d' := mkDepot _ _ _).
  assert (grows d d') as Hg.
  { intros id' node' Hn. cbn. rewrite lookup_insert_ne by (intros <-; congruence). done. }
  assert (forall x, id_or_0 d x -> id_or_0 d' x) as Hi0.
  { intros x [->|[y Hy]]; [by left|right; eexists; by apply Hg]. }
  assert (nodes d' !! s = Some node) as Hnew by (cbn; apply lookup_insert_eq).
  split; [|split; [done|split; [|done]]];
    [|exists node; split; [done|apply same_args_refl]].
  assert (forall x n, nodes d' !! x = Some n -> x = s /\ n = node \/ nodes d !! x = Some n) as Hcase.
  { intros x n. cbn. destruct (decide (s = x)) as [<-|]; [rewrite lookup_insert_eq|rewrite lookup_insert_ne by done];
      [intros [= <-]; by left|by right]. }
  split.
  - cbn. split; [lia|]. unfold kUnlockMask, kIdSizeLog in *. pose proof kReservedBits_range.
    match goal with E : (Z.land s (2 ^ (32 - _) - 1) =? s) = true |- _ =>
      apply land_mask_small in E; lia end.
  - intros x. cbn. destruct (decide (s = x)) as [<-|Hne].
    + rewrite lookup_insert_eq. split; [lia|by eexists].
    + rewrite lookup_insert_ne by done. rewrite (ok_ids d Hd). lia.
  - intros x n [[-> ->]|Hn]%Hcase; [done|by apply (ok_hash d Hd x)].
  - intros x n [[-> ->]|Hn]%Hcase.
    + cbn [link node]. pose proof (ok_tab d Hd (bucket (node_hash a))) as Ht.
      split; [|by apply Hi0]. destruct Ht as [->|Ht%(ok_ids d Hd)]; lia.
    + destruct (ok_link d Hd x n Hn). eauto.
  - intros b. cbn. case_match; [right; by eexists|apply Hi0, (ok_tab d Hd)].
  - intros x n Hn. pose proof (Hcase x n Hn) as [[-> ->]|Ho].
    + cbn [n_hash node tab d']. rewrite Z.eqb_refl. by eapply listed_here.
    + cbn [tab d']. pose proof (listed_grows d d' _ _ Hg (ok_listed d Hd x n Ho)) as Hl.
      destruct (Z.eqb_spec (bucket (n_hash n)) (bucket (node_hash a))) as [E|]; [|done].
      eapply listed_next; [exact Hnew|]. cbn [link node]. by rewrite <- E.
  - intros x1 x2 n1 n2 [[-> ->]|Ho1]%Hcase [[-> ->]|Ho2]%Hcase E; [done| | |by eapply (ok_unique d Hd)].
    + apply same_args_sym in E. cbn [n_args node] in E. by rewrite (Hns x2 n2 Ho2) in E.
    + cbn [n_args node] in E. by rewrite (Hns x1 n1 Ho1) in E.
Qed.
End invariant.

(** ** Put, sequential and interleaved *)

Section puts.
Context {A : Type} `{DepotNode A}.
Implicit Types (d : Depot A) (a : A).

(** What a thread that missed still knows, whatever the others inserted since. *)
Definition missed_ok d a (s : Z) : Prop := id_or_0 d s /\ not_in_list d s a.

Lemma empty_depot_ok : depot_ok (@empty_depot A).
Proof.
  pose proof kUnlockMask_range. split; cbn.
  - lia.
  - intros id. rewrite lookup_empty. split; [by intros [? ?]|lia].
  - done.
  - done.
  - intros b. by left.
  - done.
  - done.
Qed.

Lemma Put_probe_correct d a :
  depot_ok d ->
  exists p, Put_probe d a = Some p /\
  match p with
  | Found id => (node_is_valid a = true -> stored_as d a id) /\ (node_is_valid a = false -> id = 0)
  | Missed s => missed_ok d a s /\ node_is_valid a = true
  end.
Proof.
  intros Hd. unfold Put_probe. destruct (node_is_valid a); cbn [negb]; [|by exists (Found 0)].
  destruct (find_from_correct d a (tab d (bucket (node_hash a))) Hd (ok_tab d Hd _))
    as (r & -> & Hr0 & Hr1).
  cbn. eexists. split; [reflexivity|]. destruct (Z.eqb_spec r 0) as [->|Hne]; cbn [negb].
  - split; [|done]. split; [apply (ok_tab d Hd)|by apply Hr0].
  - split; [by intros _; apply Hr1|done].
Qed.

Lemma Put_locked_correct d a s :
  depot_ok d -> missed_ok d a s ->
  exists o, Put_locked d a s = Some o /\
  forall id ins d', o = Done (id, ins, d') ->
    depot_ok d' /\ grows d d' /\ stored_as d' a id /\ (ins = true -> nodes d !! id = None).
Proof.
  intros Hd [Hs Hmiss]. unfold Put_locked. set (s2 := tab d (bucket (node_hash a))).
  assert (not_in_list d s2 a -> forall id ins d', insert_node d a s2 = Done (id, ins, d') ->
    depot_ok d' /\ grows d d' /\ stored_as d' a id /\ (ins = true -> nodes d !! id = None)) as Hins.
  { intros Hl id ins d' E. apply insert_node_correct in E; [|done|by apply not_in_bucket].
    destruct E as (? & ? & ? & ? & ?). by repeat (split; [done|]). }
  destruct (Z.eqb_spec s2 s) as [->|Hne]; cbn [negb].
  - eexists. split; [reflexivity|]. by apply Hins.
  - destruct (find_from_correct d a s2 Hd (ok_tab d Hd _)) as (r & -> & Hr0 & Hr1). cbn.
    destruct (Z.eqb_spec r 0) as [->|Hr]; cbn [negb].
    + eexists. split; [reflexivity|]. by apply Hins, Hr0.
    + eexists. split; [reflexivity|]. intros id ins d' [= <- <- <-].
      split; [done|split; [apply grows_refl|split; [by apply Hr1|done]]].
Qed.

Lemma Put_correct d a :
  depot_ok d -> node_is_valid a = true ->
  exists o, Put d a = Some o /\
  forall id ins d', o = Done (id, ins, d') ->
    depot_ok d' /\ grows d d' /\ stored_as d' a id /\ (ins = true -> nodes d !! id = None).
Proof.
  intros Hd Hv. unfold Put. destruct (Put_probe_correct d a Hd) as (p & -> & Hp). cbn.
  destruct p as [id|s].
  - eexists. split; [reflexivity|]. intros ? ? ? [= <- <- <-].
    split; [done|split; [apply grows_refl|split; [by apply Hp|done]]].
  - apply Put_locked_correct; [done|apply Hp].
Qed.

(** A stored value is found again, by [Get] and by [Put]. *)
Lemma stored_as_range d a id : depot_ok d -> stored_as d a id -> 1 <= id <= kUnlockMask.
Proof.
  intros Hd (node & Hn & _). pose proof (ok_count d Hd).
  assert (1 <= id <= n_uniq_ids d) by (apply (ok_ids d Hd); by eexists). lia.
Qed.

Lemma stored_as_unique d a b ida idb :
  depot_ok d -> stored_as d a ida -> stored_as d b idb -> ida = idb <-> same_args a b = true.
Proof.
  intros Hd (na & Ha & Ea) (nb & Hb & Eb). split.
  - intros <-. rewrite Ha in Hb. injection Hb as <-. apply same_args_sym in Ea.
    by eapply same_args_trans.
  - intros E. eapply (ok_unique d Hd); [done|done|]. apply same_args_sym in Eb.
    by eapply same_args_trans; [|by eapply same_args_trans].
Qed.

Lemma Get_stored d a id :
  depot_ok d -> stored_as d a id -> exists a', Get d id = Done a' /\ same_args a' a = true.
Proof.
  intros Hd Hs. pose proof (stored_as_range d a id Hd Hs) as Hr. destruct Hs as (node & Hn & E).
  pose proof kReservedBits_range as Hk. 
  exists (n_args node). unfold Get. rewrite (proj2 (Z.eqb_neq id 0)) by lia. rewrite Hn.
  assert (Z.land id (Z.shiftr (2 ^ 32 - 1) kReservedBits) =? id = true) as ->; [|done].
  apply Z.eqb_eq. replace (2 ^ 32 - 1) with (Z.ones 32) by reflexivity.
  rewrite Z.shiftr_div_pow2, Z.ones_div_pow2, Z.land_ones by lia. apply Z.mod_small.
  unfold kUnlockMask, kIdSizeLog in Hr. rewrite Z.max_l in Hr by lia. lia.
Qed.

Lemma Put_stored d a id :
  depot_ok d -> node_is_valid a = true -> stored_as d a id -> Put d a = Some (Done (id, false, d)).
Proof.
  intros Hd Hv Hs. unfold Put, Put_probe. rewrite Hv. cbn [negb].
  destruct (find_from_correct d a (tab d (bucket (node_hash a))) Hd (ok_tab d Hd _))
    as (r & -> & Hr0 & Hr1). cbn.
  destruct (Z.eqb_spec r 0) as [->|Hne]; cbn [negb].
  - destruct Hs as (node & Hn & E). specialize (Hr0 eq_refl).
    by rewrite (not_in_bucket d a Hd Hr0 id node Hn) in E.
  - assert (r = id) as ->; [|done].
    apply (stored_as_unique d a a r id); [done|by apply Hr1|done|apply same_args_refl].
Qed.

(** The only fatal outcome is that of exhausted ids. *)
Lemma Put_died d a w : Put d a = Some (Died w) -> w = "depot"%string.
Proof.
  assert (forall s2, insert_node d a s2 = Died w -> w = "depot"%string) as Hi.
  { intros s2. unfold insert_node, check. repeat case_match; cbn; by intros [= <-]. }
  unfold Put. destruct (Put_probe d a) as [[id|s]|]; cbn; [done| |done].
  unfold Put_locked. case_match; [|intros [=]; by eapply Hi].
  destruct (find_from d _ a) as [node|]; cbn; [|done].
  case_match; [done|intros [=]; by eapply Hi].
Qed.

(** *** Threads *)

(** What holds of a thread at each of its points. *)
Definition pc_ok d (t : pc A) : Prop :=
  match t with
  | Calling a => node_is_valid a = true
  | Locking a s => node_is_valid a = true /\ missed_ok d a s
  | Returned a id ins => stored_as d a id
  end.

Definition no_two_inserted (ts : list (pc A)) : Prop :=
  forall i j a b ida idb, ts !! i = Some (Returned a ida true) ->
    ts !! j = Some (Returned b idb true) -> i <> j -> ida <> idb.

Definition run_ok (st : Depot A * list (pc A)) : Prop :=
  depot_ok st.1 /\ (forall i t, st.2 !! i = Some t -> pc_ok st.1 t) /\ no_two_inserted st.2.

Lemma missed_ok_grows d d' a s :
  depot_ok d -> depot_ok d' -> grows d d' -> missed_ok d a s -> missed_ok d' a s.
Proof.
  intros Hd Hd' Hg [Hs Hm]. split.
  - destruct Hs as [->|[n Hn]]; [by left|right; eexists; by apply Hg].
  - intros id node Hl Hn. apply (listed_shrinks d d') in Hl; [|done|done|done|].
    + apply (Hm id node Hl). assert (is_Some (nodes d !! id)) as [node' Hn'] by (by eapply listed_stored).
      pose proof (Hg _ _ Hn') as E. congruence.
    + intros Hz%(ok_ids d' Hd'). lia.
Qed.

Lemma pc_ok_grows d d' t : depot_ok d -> depot_ok d' -> grows d d' -> pc_ok d t -> pc_ok d' t.
Proof.
  intros Hd Hd' Hg. destruct t as [a|a s|a id ins]; cbn; [done| |by apply stored_as_grows].
  intros [Hv Hm]. split; [done|by apply (missed_ok_grows d)].
Qed.

(** One thread moves on while the table grows. *)
Lemma run_ok_update d d' ts i t :
  run_ok (d, ts) -> depot_ok d' -> grows d d' -> pc_ok d' t ->
  (forall a id, t = Returned a id true -> nodes d !! id = None) ->
  run_ok (d', <[i := t]> ts).
Proof.
  intros (Hd & Hts & Hno) Hd' Hg Ht Hfresh. split; [done|split]; cbn [fst snd] in *.
  - intros j u Hu. apply list_lookup_insert_Some in Hu as [(-> & -> & _)|[_ Hu]]; [done|].
    apply (pc_ok_grows d); [done|done|done|by eapply Hts].
  - assert (forall j a b ida idb, ts !! j = Some (Returned a ida true) ->
      t = Returned b idb true -> ida <> idb) as Hnew.
    { intros j a b ida idb Hj Et ->. apply Hfresh in Et.
      destruct (Hts _ _ Hj) as (node & Hn & _). congruence. }
    intros j k a b ida idb Hj Hk Hne.
    apply list_lookup_insert_Some in Hj as [(<- & Ej & _)|[_ Hj]];
      apply list_lookup_insert_Some in Hk as [(<- & Ek & _)|[_ Hk]].
    + done.
    + intros E. by destruct (Hnew _ _ _ _ _ Hk Ej).
    + by apply (Hnew _ _ _ _ _ Hj Ek).
    + by apply (Hno _ _ _ _ _ _ Hj Hk).
Qed.

Lemma step_run_ok st st' : run_ok st -> step st st' -> run_ok st'.
Proof.
  intros Hr Hs. pose proof Hr as (Hd & Hts & _).
  destruct Hs as [d ts i a id Hi Hp|d ts i a s Hi Hp|d ts i a s id ins d' Hi Hp]; cbn [fst snd] in *.
  1,2: destruct (Put_probe_correct d a Hd) as (p & Ep & Hok); rewrite Hp in Ep; injection Ep as <-;
       pose proof (Hts _ _ Hi) as Hv; cbn in Hv;
       apply (run_ok_update d d); [done|done|apply grows_refl| |done].
  - by apply Hok.
  - cbn. destruct Hok. done.
  - pose proof (Hts _ _ Hi) as [Hv Hm].
    destruct (Put_locked_correct d a s Hd Hm) as (o & Eo & Hok). rewrite Hp in Eo. injection Eo as <-.
    destruct (Hok _ _ _ eq_refl) as (Hd' & Hg & Hst & Hf).
    apply (run_ok_update d d'); [done|done|done|exact Hst|]. intros b id' [= <- <- ->]. by apply Hf.
Qed.
End puts.

(** ** Properties *)

(** however the calls of any number of threads to [Put] interleave on an empty
    depot (each first probing without the lock), two finished calls got the same id
    exactly when the depot considers their arguments the same; ids are non-zero and
    fit the reserved bits, only one of the calls with a given id is told that it
    inserted it, and [Get] returns the arguments of each id. *)
Theorem depot_put_interleavings {A} `{DepotNode A} (calls : list A) d ts :
  (forall a, a ∈ calls -> node_is_valid a = true) ->
  rtc step (empty_depot, map Calling calls) (d, ts) ->
  forall i j a b ida idb insa insb,
  ts !! i = Some (Returned a ida insa) -> ts !! j = Some (Returned b idb insb) ->
  (ida = idb <-> same_args a b = true) /\
  1 <= ida <= kUnlockMask /\
  (i <> j -> ida = idb -> insa && insb = false) /\
  exists a', Get d ida = Done a' /\ same_args a' a = true.
Proof.
  intros Hv Hrun.
  assert (run_ok (d, ts)) as (Hd & Hts & Hno).
  { assert (run_ok (empty_depot, map Calling calls)) as Hinit.
    - split; [apply empty_depot_ok|split]; cbn [fst snd].
      + intros i t Ht. apply list_lookup_fmap_Some in Ht as (a & -> & Ha). apply Hv.
        by eapply list_elem_of_lookup_2.
      + intros i j a b ida idb Hi. apply list_lookup_fmap_Some in Hi as (x & [=] & _).
    - revert Hinit. generalize (@empty_depot A, map Calling calls) (d, ts) Hrun.
      induction 1 as [|x y z Hxy _ IH]; [done|]. intros Hx. apply IH. by eapply step_run_ok. }
  cbn [fst snd] in *. intros i j a b ida idb insa insb Hi Hj.
  pose proof (Hts _ _ Hi) as Ha. pose proof (Hts _ _ Hj) as Hb. cbn in Ha, Hb.
  split; [by eapply stored_as_unique|split; [by eapply stored_as_range|split]].
  - intros Hne ->. destruct insa, insb; [|done..]. by destruct (Hno _ _ _ _ _ _ Hi Hj Hne).
  - by apply Get_stored.
Qed.

Definition desc_a : ChainedOriginDepotDesc := mkDesc 7 0.

(** Both calls miss before either inserts; the second one finds the first one's
    node when it looks again. *)
Lemma depot_put_interleavings_witness :
  exists d, rtc step (empty_depot, map Calling [desc_a; desc_a])
              (d, [Returned desc_a 1 true; Returned desc_a 1 false]) /\
  exists a', Get d 1 = Done a' /\ same_args a' desc_a = true.
Proof.
  set (d1 := mkDepot (fun j => if j =? bucket (node_hash desc_a) then 1 else 0) 1
               {[ 1 := mkNode (node_hash desc_a) desc_a 0 ]}).
  assert (rtc step (empty_depot, map Calling [desc_a; desc_a])
              (d1, [Returned desc_a 1 true; Returned desc_a 1 false])) as Hrun.
  { eapply rtc_l; [apply (step_missed _ _ 0%nat desc_a 0); reflexivity|].
    eapply rtc_l; [apply (step_missed _ _ 1%nat desc_a 0); reflexivity|].
    eapply rtc_l; [apply (step_locked _ _ 0%nat desc_a 0 1 true d1); reflexivity|].
    eapply rtc_l; [apply (step_locked _ _ 1%nat desc_a 0 1 false d1); reflexivity|].
    apply rtc_refl. }
  exists d1. split; [exact Hrun|].
  exact (proj2 (proj2 (proj2 (depot_put_interleavings [desc_a; desc_a] d1 _
    (fun _ _ => eq_refl) Hrun 0%nat 1%nat desc_a desc_a 1 1 true false eq_refl eq_refl)))).
Defined.

(** [Put] always ends, and round-trips with [Get]: unless the ids are exhausted
    (a fatal check), the id it returns maps back to the same arguments, putting
    them again returns that id and changes nothing, and every id handed out before
    stays as it was. *)
Theorem depot_put_get {A} `{DepotNode A} (d : Depot A) a :
  depot_ok d -> node_is_valid a = true ->
  exists o, Put d a = Some o /\
  forall id ins d', o = Done (id, ins, d') ->
    depot_ok d' /\ 1 <= id <= kUnlockMask /\
    (exists a', Get d' id = Done a' /\ same_args a' a = true) /\
    Put d' a = Some (Done (id, false, d')) /\
    forall b idb, stored_as d b idb -> node_is_valid b = true ->
      Put d' b = Some (Done (idb, false, d')).
Proof.
  intros Hd Hv. destruct (Put_correct d a Hd Hv) as (o & Eo & Ho). exists o. split; [done|].
  intros id ins d' ->. destruct (Ho _ _ _ eq_refl) as (Hd' & Hg & Hs & _).
  split; [done|split; [by eapply stored_as_range|split; [by apply Get_stored|split; [by apply Put_stored|]]]].
  intros b idb Hb Hvb. apply Put_stored; [done|done|]. by eapply stored_as_grows.
Qed.

Lemma depot_put_get_witness :
  exists d', Put empty_depot desc_a = Some (Done (1, true, d')) /\
  Put d' desc_a = Some (Done (1, false, d')).
Proof.
  pose proof (depot_put_get empty_depot desc_a empty_depot_ok) as Hp.
  destruct (Hp eq_refl) as (o & Eo & Ho). clear Hp.
  assert (Some o = Some (insert_node empty_depot desc_a 0)) as E by (rewrite <- Eo; reflexivity).
  injection E as ->. rewrite Eo. 
  destruct (insert_node empty_depot desc_a 0) as [[[id ins] d']|] eqn:Ei; [|discriminate Ei].
  destruct (Ho _ _ _ eq_refl) as (_ & _ & _ & Hp & _). injection Ei as <- <- _.
  exists d'. split; [reflexivity|exact Hp].
Defined.
