(* ===== verification/Origin.v ===== *)
(** * Origin: where an uninitialised value comes from

    The 32-bit origin ids of [cqmsan_origin.h], the depots they index ([Depot]),
    [ChainOrigin], [SetAllocaOrigin] and [GetStackOriginDescr] of [cqmsan.cpp], and
    [DescribeOrigin] of [cqmsan_report.cpp], whose output is a list of [Event]s.

    The runtime is built with [__cqmsan_get_track_origins() = 0]: the code below is
    what the origin entry points of the interface run when they are called. *)

From S2P Require Import Prelude Depot.

(** ** Encoding *)

Definition kDepthBits : Z := 3.
Definition kDepthShift : Z := 32 - kDepthBits - 1.
Definition kHeapShift : Z := 31.
Definition kChainedIdMask : Z := Z.shiftr (2 ^ 32 - 1) (32 - kDepthShift).
Definition kStackIdMask : Z := Z.shiftr (2 ^ 32 - 1) (32 - kDepthShift).
Definition kHeapIdMask : Z := Z.shiftr (2 ^ 32 - 1) (32 - kHeapShift).
Definition kMaxDepth : Z := Z.shiftl 1 kDepthBits - 1.

Definition isValidId (id : Z) : bool := negb (id =? 0) && negb (id =? 2 ^ 32 - 1).
Definition isHeapOrigin (raw : Z) : bool := Z.shiftr raw kHeapShift =? 0.
Definition isStackOrigin (raw : Z) : bool := Z.shiftr raw kDepthShift =? Z.shiftl 1 kDepthBits.
Definition isChainedOrigin (raw : Z) : bool := Z.shiftl 1 kDepthBits <? Z.shiftr raw kDepthShift.

Definition getChainedId (raw : Z) : outcome Z :=
  _ ← check (isChainedOrigin raw) "isChainedOrigin"; mret (Z.land raw kChainedIdMask).
Definition getStackId (raw : Z) : outcome Z :=
  _ ← check (isStackOrigin raw) "isStackOrigin"; mret (Z.land raw kChainedIdMask).
Definition getHeapId (raw : Z) : outcome Z :=
  _ ← check (isHeapOrigin raw) "isHeapOrigin"; mret (Z.land raw kHeapIdMask).

(** [depth()], whose [CHECK] its one caller has just made. *)
Definition depth (raw : Z) : Z := Z.land (Z.shiftr raw kDepthShift) (Z.shiftl 1 kDepthBits - 1).

(** ** State *)

Record OriginFlags := mkOriginFlags {
  origin_history_size : Z;
  origin_history_per_stack_limit : Z
}.

Definition kNumStackOriginDescrs : Z := 4 * 1024 * 1024.

Record Origins := mkOrigins {
  stacks : StackDepot;                      (* theDepot *)
  chains : ChainedDepot;                    (* chainedOriginDepot *)
  useCounts : Z -> Z;
  NumStackOriginDescrs : Z;
  StackOriginDescr : Z -> option string;    (* None: the null pointer *)
  StackOriginPC : Z -> Z
}.

Definition set_stacks (st : Origins) (d : StackDepot) : Origins :=
  mkOrigins d (chains st) (useCounts st) (NumStackOriginDescrs st) (StackOriginDescr st)
    (StackOriginPC st).
Definition set_chains (st : Origins) (d : ChainedDepot) : Origins :=
  mkOrigins (stacks st) d (useCounts st) (NumStackOriginDescrs st) (StackOriginDescr st)
    (StackOriginPC st).
Definition inc_use_count_unsafe (st : Origins) (id : Z) : Origins :=
  mkOrigins (stacks st) (chains st)
    (fun j => if j =? id then u32 (useCounts st j + 1) else useCounts st j)
    (NumStackOriginDescrs st) (StackOriginDescr st) (StackOriginPC st).

(** ** Creation

    The depots answer [option]: [None] is a search that does not end, which
    [Depot.depot_put_get] rules out. *)

Definition and_then {A B} (o : option (outcome A)) (f : A -> outcome B) : option (outcome B) :=
  match o with Some o => Some (o ≫= f) | None => None end.

Definition StackDepotPut (stack : StackTrace) (st : Origins) : option (outcome (Z * Origins)) :=
  and_then (Put (stacks st) stack) (fun '(id, _, d) => mret (id, set_stacks st d)).

Definition ChainedOriginDepotPut (here prev : Z) (st : Origins)
    : option (outcome (Z * bool * Origins)) :=
  and_then (Put (chains st) (mkDesc here prev))
    (fun '(id, ins, d) => mret (id, ins, set_chains st d)).

(** The stack id and [prev_id]. *)
Definition ChainedOriginDepotGet (id : Z) (st : Origins) : outcome (Z * Z) :=
  d ← Get (chains st) id; mret (here_id d, prev_id d).

Definition CreateStackOrigin (id : Z) : outcome Z :=
  _ ← check (Z.land id kStackIdMask =? id) "stack origin id";
  mret (u32 (Z.lor (Z.shiftl 1 kHeapShift) id)).

Definition CreateHeapOrigin (stack : StackTrace) (st : Origins) : option (outcome (Z * Origins)) :=
  and_then (StackDepotPut stack st) (fun '(stack_id, st) =>
    _ ← check (negb (stack_id =? 0)) "stack_id";
    _ ← check (Z.land stack_id kHeapIdMask =? stack_id) "stack_id";
    mret (stack_id, st)).

(** What follows the depth computation.  [h.valid()] compares the address of a
    node with null and is always true. *)
Definition chain_node (fl : OriginFlags) (prev depth : Z) (stack : StackTrace) (st : Origins)
    : option (outcome (Z * Origins)) :=
  match StackDepotPut stack st with
  | None => None
  | Some (Died w) => Some (Died w)
  | Some (Done (h, st)) =>
      if (0 <? origin_history_per_stack_limit fl)
         && (origin_history_per_stack_limit fl <? useCounts st h)
      then Some (Done (prev, st)) else
      and_then (ChainedOriginDepotPut h prev st) (fun '(chained_id, inserted, st) =>
        _ ← check (Z.land chained_id kChainedIdMask =? chained_id) "chained_id";
        let st := if inserted && (0 <? origin_history_per_stack_limit fl)
                  then inc_use_count_unsafe st h else st in
        mret (u32 (Z.lor (Z.lor (Z.shiftl 1 kHeapShift) (Z.shiftl depth kDepthShift))
                     chained_id), st))
  end.

Definition CreateChainedOrigin (fl : OriginFlags) (prev : Z) (stack : StackTrace) (st : Origins)
    : option (outcome (Z * Origins)) :=
  let d := if isChainedOrigin prev then depth prev else 0 in
  if 0 <? origin_history_size fl then
    if origin_history_size fl <=? d + 1 then Some (Done (prev, st))
    else if d + 1 <? Z.shiftl 1 kDepthBits then chain_node fl prev (d + 1) stack st
    else Some (Died "depth")
  else chain_node fl prev d stack st.

Definition TAG_UNKNOWN : Z := 0.

(** [in_signal_handler]: the current thread's flag, false without a thread. *)
Definition ChainOrigin (fl : OriginFlags) (in_signal_handler : bool) (id : Z) (stack : StackTrace)
    (st : Origins) : option (outcome (Z * Origins)) :=
  if in_signal_handler then Some (Done (id, st))
  else CreateChainedOrigin fl id (mkStackTrace (trace stack) TAG_UNKNOWN) st.

(** ** Stack origins *)

Definition first_timer : Z := let dash := 0x2d in
  u32 (dash + Z.shiftl dash 8 + Z.shiftl dash 16 + Z.shiftl dash 24).

(** [id] is [*id_ptr]; the new value comes back.  [__cqmsan_set_origin] writes
    nothing with origins off. *)
Definition SetAllocaOrigin (id : Z) (descr : option string) (pc : Z) (st : Origins)
    : outcome (Z * Origins) :=
  if (id =? 0) || (id =? first_timer) then
    let idx := NumStackOriginDescrs st in
    let st := mkOrigins (stacks st) (chains st) (useCounts st) (u32 (idx + 1))
                (StackOriginDescr st) (StackOriginPC st) in
    _ ← check (idx <? kNumStackOriginDescrs) "kNumStackOriginDescrs";
    let st := mkOrigins (stacks st) (chains st) (useCounts st) (NumStackOriginDescrs st)
                (fun j => if j =? idx then descr else StackOriginDescr st j)
                (fun j => if j =? idx then pc else StackOriginPC st j) in
    id ← CreateStackOrigin idx;
    mret (id, st)
  else mret (id, st).

Definition GetStackOriginDescr (id : Z) (st : Origins) : outcome (option string * Z) :=
  _ ← check (id <? kNumStackOriginDescrs) "kNumStackOriginDescrs";
  mret (StackOriginDescr st id, StackOriginPC st id).

(** ** DescribeOrigin *)

Inductive Event :=
| StoredToMemory (stack : StackTrace)
| CreatedInFrame (descr : option string) (pc : Z)
| CreatedBy (stack : StackTrace).     (* the message depends on the stack's tag *)

Definition getNextChainedOrigin (raw : Z) (st : Origins) : outcome (StackTrace * Z) :=
  id ← getChainedId raw;
  '(stack_id, prev) ← ChainedOriginDepotGet id st;
  stack ← Get (stacks st) stack_id;
  mret (stack, prev).

Definition getStackTraceForHeapOrigin (raw : Z) (st : Origins) : outcome StackTrace :=
  id ← getHeapId raw; Get (stacks st) id.

Fixpoint DescribeOrigin (fuel : nat) (raw : Z) (st : Origins) : option (outcome (list Event)) :=
  if isChainedOrigin raw then
    match fuel with
    | O => None
    | S fuel =>
        match getNextChainedOrigin raw st with
        | Died w => Some (Died w)
        | Done (stack, prev) =>
            and_then (DescribeOrigin fuel prev st) (fun evs => mret (StoredToMemory stack :: evs))
        end
    end
  else if isStackOrigin raw then
    Some (id ← getStackId raw;
          '(descr, pc) ← GetStackOriginDescr id st;
          mret [CreatedInFrame descr pc])
  else Some (stack ← getStackTraceForHeapOrigin raw st; mret [CreatedBy stack]).

(** ** Encoding lemmas *)

Definition pack (k id : Z) : Z := k * 2 ^ 28 + id.

Lemma lor_pack k id : 0 <= id < 2 ^ 28 -> Z.lor (Z.shiftl k 28) id = pack k id.
Proof.
  intros Hid. unfold pack. rewrite <- Z.shiftl_mul_pow2 by lia.
  symmetry. rewrite <- Z.lxor_lor, Z.add_nocarry_lxor; [done|..].
  all: apply Z.bits_inj'; intros i Hi; rewrite Z.land_spec, Z.bits_0.
  all: destruct (Z.ltb_spec i 28); [by rewrite Z.shiftl_spec_low|].
  all: rewrite <- (Z.mod_small id (2 ^ 28)) by done.
  all: by rewrite Z.mod_pow2_bits_high, andb_false_r by lia.
Qed.

Lemma pack_shiftr k id : 0 <= id < 2 ^ 28 -> Z.shiftr (pack k id) 28 = k.
Proof. intros. rewrite Z.shiftr_div_pow2 by lia. unfold pack. rewrite Z.div_add_l, Z.div_small by lia. lia. Qed.

Lemma pack_land k id : 0 <= id < 2 ^ 28 -> Z.land (pack k id) kChainedIdMask = id.
Proof.
  intros. change kChainedIdMask with (Z.ones 28). rewrite Z.land_ones by lia. unfold pack.
  rewrite Z.add_comm, Z.mod_add, Z.mod_small by lia. done.
Qed.

Lemma is_pack raw : 0 <= raw < 2 ^ 32 -> exists k id, raw = pack k id /\ 0 <= id < 2 ^ 28 /\ 0 <= k < 16.
Proof.
  intros Hr. exists (raw / 2 ^ 28), (raw mod 2 ^ 28). unfold pack.
  pose proof (Z.div_mod raw (2 ^ 28)). pose proof (Z.mod_pos_bound raw (2 ^ 28)).
  split; [lia|]. split; [lia|]. split; [apply Z.div_pos; lia|apply Z.div_lt_upper_bound; lia].
Qed.

Lemma kinds_of_pack k id :
  0 <= id < 2 ^ 28 -> 0 <= k < 16 ->
  isHeapOrigin (pack k id) = (k <? 8) /\ isStackOrigin (pack k id) = (k =? 8) /\
  isChainedOrigin (pack k id) = (8 <? k) /\ (8 < k -> depth (pack k id) = k - 8).
Proof.
  intros Hid Hk. unfold isHeapOrigin, isStackOrigin, isChainedOrigin, depth.
  change kDepthShift with 28. rewrite pack_shiftr by done. (split; [|split; [done|split; [done|]]]).
  - change kHeapShift with (28 + 3). rewrite <- Z.shiftr_shiftr by lia. rewrite pack_shiftr by done.
    rewrite Z.shiftr_div_pow2 by lia. change (2 ^ 3) with 8.
    destruct (Z.ltb_spec k 8); [rewrite Z.div_small by lia; done|]. apply Z.eqb_neq.
    pose proof (Z.div_le_lower_bound k 8 1). lia.
  - intros H8. change (Z.shiftl 1 kDepthBits - 1) with (Z.ones 3). rewrite Z.land_ones by lia.
    change (2 ^ 3) with 8. rewrite <- (Z.mod_add k (-1) 8) by lia. apply Z.mod_small. lia.
Qed.

(** What [CreateChainedOrigin] puts together. *)
Lemma chained_raw d id :
  0 <= id < 2 ^ 28 -> 0 <= d < 8 ->
  u32 (Z.lor (Z.lor (Z.shiftl 1 kHeapShift) (Z.shiftl d kDepthShift)) id) = pack (8 + d) id.
Proof.
  intros Hid Hd. change (Z.shiftl 1 kHeapShift) with (Z.shiftl 8 28). change kDepthShift with 28.
  rewrite <- Z.shiftl_lor, lor_pack by done.
  replace (Z.lor 8 d) with (8 + d).
  - apply u32_small. unfold pack. lia.
  - assert (d = 0 \/ d = 1 \/ d = 2 \/ d = 3 \/ d = 4 \/ d = 5 \/ d = 6 \/ d = 7)
      as [->|[->|[->|[->|[->|[->|[->| ->]]]]]]] by lia; reflexivity.
Qed.

Lemma land_mask_id id : 0 <= id < 2 ^ 28 -> Z.land id kChainedIdMask =? id = true.
Proof.
  intros H. apply Z.eqb_eq. change kChainedIdMask with (Z.ones 28).
  rewrite Z.land_ones by lia. by apply Z.mod_small.
Qed.

(** ** Chains *)

Definition depots_ok (st : Origins) : Prop := depot_ok (stacks st) /\ depot_ok (chains st).

(** A chain whose links are all in the depot, [n] links long.  Garbage read from
    uninitialised memory need not be one. *)
Inductive valid_origin (st : Origins) : Z -> nat -> Prop :=
| valid_base raw : isChainedOrigin raw = false -> valid_origin st raw 0
| valid_link raw node n :
    isChainedOrigin raw = true ->
    nodes (chains st) !! Z.land raw kChainedIdMask = Some node ->
    valid_origin st (prev_id (n_args node)) n -> valid_origin st raw (S n).

Definition chain_depth (raw : Z) : Z := if isChainedOrigin raw then depth raw else 0.

(** A chain that is as long as its id says. *)
Definition known_origin (st : Origins) (raw : Z) : Prop :=
  0 <= raw < 2 ^ 32 /\ exists n, valid_origin st raw n /\ Z.of_nat n <= chain_depth raw.

Lemma valid_origin_grows st st' raw n :
  grows (chains st) (chains st') -> valid_origin st raw n -> valid_origin st' raw n.
Proof.
  intros Hg. induction 1; [by apply valid_base|]. eapply valid_link; eauto.
Qed.

Lemma chain_depth_bound raw : 0 <= raw < 2 ^ 32 -> 0 <= chain_depth raw <= kMaxDepth.
Proof.
  intros (k & id & -> & Hid & Hk)%is_pack. unfold chain_depth.
  destruct (kinds_of_pack k id Hid Hk) as (_ & _ & -> & Hd).
  change kMaxDepth with 7. destruct (Z.ltb_spec 8 k); [rewrite Hd|]; lia.
Qed.

(** What a valid link stands for. *)
Lemma next_of_valid st raw node r :
  depot_ok (chains st) -> isChainedOrigin raw = true ->
  nodes (chains st) !! Z.land raw kChainedIdMask = Some node ->
  getNextChainedOrigin raw st = Done r -> snd r = prev_id (n_args node).
Proof.
  intros Hd E Hn Eg. unfold getNextChainedOrigin, getChainedId, ChainedOriginDepotGet, Get in Eg.
  assert (1 <= Z.land raw kChainedIdMask) by (apply (ok_ids _ Hd); by eexists).
  rewrite E in Eg. cbn [check mbind outcome_bind mret outcome_ret] in Eg.
  rewrite Hn, (proj2 (Z.eqb_neq _ _)) in Eg by lia. inv_done. done.
Qed.

(** The report of a chain ends within its length. *)
Lemma Describe_total st raw n fuel :
  depot_ok (chains st) -> valid_origin st raw n -> (n <= fuel)%nat ->
  exists o, DescribeOrigin fuel raw st = Some o.
Proof.
  intros Hd Hv. revert fuel. induction Hv as [raw E|raw node n E Hn Hv IH]; intros fuel Hf.
  - destruct fuel; cbn [DescribeOrigin]; rewrite E; case_match; by eexists.
  - destruct fuel as [|fuel]; [lia|]. cbn [DescribeOrigin]. rewrite E.
    destruct (getNextChainedOrigin raw st) as [[stack prev]|w] eqn:Eg; [|by eexists].
    apply (next_of_valid st raw node) in Eg; [|done|done|done]. cbn [snd] in Eg. subst prev.
    destruct (IH fuel ltac:(lia)) as (o & ->). by eexists.
Qed.

Definition origins_grow (st st' : Origins) : Prop :=
  grows (stacks st) (stacks st') /\ grows (chains st) (chains st').

Lemma chained_id_range d a id :
  depot_ok (d : ChainedDepot) -> stored_as d a id -> 0 <= id < 2 ^ 28.
Proof.
  intros Hd Hs. pose proof (stored_as_range d a id Hd Hs) as H.
  change kUnlockMask with (2 ^ 28 - 1) in H. lia.
Qed.

(** The node of a new link; only exhausted depots are fatal. *)
Lemma chain_node_correct fl prev d stack st :
  depots_ok st -> trace stack <> [] -> 0 <= d < 8 ->
  exists o, chain_node fl prev d stack st = Some o /\
  match o with
  | Died w => w = "depot"%string
  | Done (raw, st') => depots_ok st' /\ origins_grow st st' /\
      (raw = prev \/ exists id h, 0 <= id < 2 ^ 28 /\ raw = pack (8 + d) id /\
         stored_as (chains st') (mkDesc h prev) id /\ stored_as (stacks st') stack h)
  end.
Proof.
  intros [Hds Hdc] Htr Hd. unfold chain_node, StackDepotPut, and_then.
  assert (node_is_valid stack = true) as Hv by (cbn; by destruct (trace stack)).
  destruct (Put_correct (stacks st) stack Hds Hv) as (o & Eo & Ho). rewrite Eo.
  destruct o as [[[h ins] ds]|w]; cbn; [|eexists; split; [reflexivity|]; by eapply Put_died].
  destruct (Ho _ _ _ eq_refl) as (Hds' & Hgs & Hst & _).
  case_match; [eexists; split; [reflexivity|]; split; [done|split; [split; [done|apply grows_refl]|by left]]|].
  unfold ChainedOriginDepotPut. cbn [chains set_stacks].
  destruct (Put_correct (chains st) (mkDesc h prev) Hdc eq_refl) as (o & Eo' & Ho'). rewrite Eo'.
  destruct o as [[[id ins'] dc]|w]; cbn; [|eexists; split; [reflexivity|]; exact (Put_died _ _ _ Eo')].
  destruct (Ho' _ _ _ eq_refl) as (Hdc' & Hgc & Hsc & _).
  pose proof (chained_id_range dc _ id Hdc' Hsc) as Hid.
  rewrite land_mask_id by done. cbn [check mbind outcome_bind mret outcome_ret].
  eexists. split; [reflexivity|]. rewrite chained_raw by done.
  destruct (ins' && _); cbn; (split; [done|split; [done|]]); right; exists id, h; done.
Qed.

(** What a new link is. *)
Lemma linked_origin st prev n d id h stack :
  depots_ok st -> 1 <= d < 8 -> 0 <= id < 2 ^ 28 ->
  stored_as (chains st) (mkDesc h prev) id -> stored_as (stacks st) stack h ->
  valid_origin st prev n -> Z.of_nat n + 1 <= d ->
  let raw := pack (8 + d) id in
  known_origin st raw /\ isChainedOrigin raw = true /\ chain_depth raw = d /\
  exists t, getNextChainedOrigin raw st = Done (t, prev) /\ same_args t stack = true.
Proof.
  intros [Hds Hdc] Hd Hid Hsc Hss Hv Hn raw.
  destruct (kinds_of_pack (8 + d) id Hid ltac:(lia)) as (_ & _ & Hch & Hdep).
  fold raw in Hch, Hdep. rewrite (proj2 (Z.ltb_lt _ _)) in Hch by lia.
  assert (chain_depth raw = d) as Hcd by (unfold chain_depth; rewrite Hch, Hdep; lia).
  assert (Z.land raw kChainedIdMask = id) as Hland by by apply pack_land.
  destruct (Get_stored _ _ _ Hdc Hsc) as (a & Ea & Sa).
  unfold same_args in Sa. cbn in Sa. apply andb_true_iff in Sa as [Sa1 Sa2].
  apply Z.eqb_eq in Sa1, Sa2. cbn in Sa1, Sa2.
  destruct (Get_stored _ _ _ Hds Hss) as (t & Et & St).
  assert (getNextChainedOrigin raw st = Done (t, prev)) as Hnext.
  { unfold getNextChainedOrigin, getChainedId, ChainedOriginDepotGet. rewrite Hch.
    cbn [check mbind outcome_bind mret outcome_ret]. rewrite Hland, Ea.
    cbn [mbind outcome_bind mret outcome_ret]. rewrite Sa1, Et. cbn. by rewrite Sa2. }
  split; [|split; [done|split; [done|by exists t]]].
  split; [subst raw; unfold pack; lia|]. exists (S n). split; [|lia].
  destruct Hsc as (node & Hnode & Sn). unfold same_args in Sn. cbn in Sn.
  apply andb_true_iff in Sn as [_ Sn]. apply Z.eqb_eq in Sn. cbn in Sn.
  apply (valid_link st raw node); [done|by rewrite Hland|by rewrite Sn].
Qed.

(** ** Properties *)

(** the three kinds of origin are disjoint and cover every 32-bit id, and a
    stack origin gives its index back. *)
Theorem origin_kinds_partition raw id :
  0 <= raw < 2 ^ 32 -> 0 <= id < 2 ^ 28 ->
  (if isHeapOrigin raw then 1 else 0) + (if isStackOrigin raw then 1 else 0)
    + (if isChainedOrigin raw then 1 else 0) = 1 /\
  exists r, CreateStackOrigin id = Done r /\ isStackOrigin r = true /\ getStackId r = Done id.
Proof.
  intros (k & i & -> & Hi & Hk)%is_pack Hid. split.
  - destruct (kinds_of_pack k i Hi Hk) as (-> & -> & -> & _). zcase; lia.
  - unfold CreateStackOrigin. change kStackIdMask with kChainedIdMask.
    rewrite land_mask_id by done. cbn [check mbind outcome_bind mret outcome_ret].
    eexists. split; [reflexivity|]. pose proof (chained_raw 0 id Hid ltac:(lia)) as E.
    rewrite Z.shiftl_0_l, Z.lor_0_r in E. rewrite E, Z.add_0_r.
    destruct (kinds_of_pack 8 id Hid ltac:(lia)) as (_ & Es & _). rewrite Es. split; [done|].
    unfold getStackId. rewrite Es. cbn. by rewrite pack_land.
Qed.

Lemma origin_kinds_partition_witness :
  exists r, CreateStackOrigin 5 = Done r /\ isStackOrigin r = true /\ getStackId r = Done 5.
Proof. apply (origin_kinds_partition 0 5); lia. Defined.

(** with a bounded history (the default; [InitializeFlags] admits 1 to 7)
    [ChainOrigin] always ends, its own checks never fail, and its result is the
    origin it got, at the end of the history or of the per-stack budget, or a new
    link: a chained id one deeper, below the bound, whose next origin is the one it
    got and whose trace is the one of the call (up to the depot's hash).  What it
    returns for a known origin is a known origin, so that the report's walk of the
    chain ends within kMaxDepth links. *)
Theorem ChainOrigin_extends_history fl sig prev stack st :
  1 <= origin_history_size fl <= kMaxDepth -> depots_ok st -> trace stack <> [] ->
  known_origin st prev ->
  exists o, ChainOrigin fl sig prev stack st = Some o /\
  match o with
  | Died w => w = "depot"%string
  | Done (raw, st') =>
      depots_ok st' /\ origins_grow st st' /\ known_origin st' raw /\
      (raw = prev \/
       isChainedOrigin raw = true /\ chain_depth raw = chain_depth prev + 1 /\
       chain_depth raw < origin_history_size fl /\
       exists t, getNextChainedOrigin raw st' = Done (t, prev) /\
         same_args t (mkStackTrace (trace stack) TAG_UNKNOWN) = true) /\
      exists evs, DescribeOrigin (Z.to_nat kMaxDepth) raw st' = Some evs
  end.
Proof.
  change kMaxDepth with 7. intros Hsz Hd Htr Hk.
  assert (forall st' raw, depots_ok st' -> known_origin st' raw ->
    exists evs, DescribeOrigin (Z.to_nat 7) raw st' = Some evs) as Hdesc.
  { intros st' raw [_ Hc] (Hr & n & Hv & Hn). eapply Describe_total; [done|done|].
    pose proof (chain_depth_bound raw Hr) as Hb. change kMaxDepth with 7 in Hb. lia. }
  assert (forall o, o = Done (prev, st) -> exists o', Some o = Some o' /\ match o' with
    | Died w => w = "depot"%string
    | Done (raw, st') => depots_ok st' /\ origins_grow st st' /\ known_origin st' raw /\
      (raw = prev \/ isChainedOrigin raw = true /\ chain_depth raw = chain_depth prev + 1 /\
       chain_depth raw < origin_history_size fl /\
       exists t, getNextChainedOrigin raw st' = Done (t, prev) /\
         same_args t (mkStackTrace (trace stack) TAG_UNKNOWN) = true) /\
      exists evs, DescribeOrigin (Z.to_nat 7) raw st' = Some evs end) as Hsame.
  { intros o ->. eexists. split; [reflexivity|]. split; [done|split; [split; apply grows_refl|]].
    split; [done|split; [by left|by apply Hdesc]]. }
  unfold ChainOrigin. destruct sig; [by apply Hsame|]. unfold CreateChainedOrigin.
  rewrite (proj2 (Z.ltb_lt 0 _)) by lia. fold (chain_depth prev).
  destruct (Z.leb_spec (origin_history_size fl) (chain_depth prev + 1)); [by apply Hsame|].
  change (Z.shiftl 1 kDepthBits) with 8. rewrite (proj2 (Z.ltb_lt _ 8)) by lia.
  pose proof Hk as (Hr & n & Hv & Hn). pose proof (chain_depth_bound prev Hr) as Hb.
  destruct (chain_node_correct fl prev (chain_depth prev + 1)
    (mkStackTrace (trace stack) TAG_UNKNOWN) st Hd Htr ltac:(lia)) as (o & -> & Ho).
  exists o. split; [done|]. destruct o as [[raw st']|w]; [|exact Ho].
  destruct Ho as (Hd' & Hg & Hcase). split; [done|split; [done|]].
  assert (known_origin st' raw /\ (raw = prev \/ isChainedOrigin raw = true /\
    chain_depth raw = chain_depth prev + 1 /\ chain_depth raw < origin_history_size fl /\
    exists t, getNextChainedOrigin raw st' = Done (t, prev) /\
      same_args t (mkStackTrace (trace stack) TAG_UNKNOWN) = true)) as [Hk' Hc'];
    [|split; [done|split; [done|by apply Hdesc]]].
  destruct Hcase as [->|(id & h & Hid & -> & Hsc & Hss)].
  { split; [|by left]. split; [done|exists n]. split; [|done].
    eapply valid_origin_grows; [apply Hg|done]. }
  destruct (linked_origin st' prev n (chain_depth prev + 1) id h
    (mkStackTrace (trace stack) TAG_UNKNOWN)) as (Hk' & Hch & Hdep & Hnext); try done; try lia.
  { eapply valid_origin_grows; [apply Hg|done]. }
  split; [done|right]. split; [done|split; [done|split; [lia|done]]].
Qed.

Definition origins0 : Origins :=
  mkOrigins empty_depot empty_depot (fun _ => 0) 0 (fun _ => None) (fun _ => 0).
Definition history7 : OriginFlags := mkOriginFlags 7 20000.
Definition a_stack : StackTrace := mkStackTrace [0x401000] 0.

Lemma origins0_ok : depots_ok origins0.
Proof. split; apply empty_depot_ok. Qed.

Lemma ChainOrigin_extends_history_witness :
  exists o, ChainOrigin history7 false 5 a_stack origins0 = Some o /\
  match o with Died w => w = "depot"%string | Done (raw, st') => known_origin st' raw end.
Proof.
  destruct (ChainOrigin_extends_history history7 false 5 a_stack origins0) as (o & E & Ho).
  - split; discriminate.
  - exact origins0_ok.
  - discriminate.
  - split; [lia|]. exists 0%nat. split; [by apply valid_base|done].
  - exists o. split; [exact E|]. destruct o as [[raw st']|w]; [apply Ho|exact Ho].
Defined.

(** with [origin_history_size=0], announced as an unlimited history, the first
    link of a chain is created with depth 0, which is the encoding of a stack
    origin: whatever is created is not a chained origin, so that its trace and the
    history before it are never reported. *)
Theorem unlimited_history_loses_chains fl prev stack st raw st' :
  origin_history_size fl = 0 -> depots_ok st -> trace stack <> [] ->
  isChainedOrigin prev = false ->
  ChainOrigin fl false prev stack st = Some (Done (raw, st')) ->
  raw = prev \/ isStackOrigin raw = true /\
    DescribeOrigin 0 raw st'
      = Some ('(descr, pc) ← GetStackOriginDescr (Z.land raw kChainedIdMask) st';
              Done [CreatedInFrame descr pc]).
Proof.
  intros Hsz Hd Htr Hp. unfold ChainOrigin, CreateChainedOrigin. rewrite Hp, Hsz. cbn [Z.ltb Z.compare].
  destruct (chain_node_correct fl prev 0 (mkStackTrace (trace stack) TAG_UNKNOWN) st Hd Htr ltac:(lia))
    as (o & -> & Ho). intros [= ->]. destruct Ho as (_ & _ & [->|(id & h & Hid & -> & _)]); [by left|right].
  destruct (kinds_of_pack 8 id Hid ltac:(lia)) as (_ & Es & Ec & _). rewrite Z.add_0_r.
  split; [by rewrite Es|]. cbn [DescribeOrigin]. rewrite Ec, Es. unfold getStackId. rewrite Es. done.
Qed.

Definition history0 : OriginFlags := mkOriginFlags 0 0.

Lemma unlimited_history_loses_chains_witness :
  exists raw st', ChainOrigin history0 false 5 a_stack origins0 = Some (Done (raw, st')) /\
  isStackOrigin raw = true.
Proof.
  destruct (ChainOrigin history0 false 5 a_stack origins0) as [[[raw st']|w]|] eqn:E;
    [|discriminate E|discriminate E].
  exists raw, st'. split; [reflexivity|].
  destruct (unlimited_history_loses_chains history0 5 a_stack origins0 raw st' eq_refl origins0_ok
    ltac:(discriminate) eq_refl E) as [->|[H _]]; [|exact H].
  exfalso. unfold ChainOrigin, CreateChainedOrigin in E. discriminate E.
Defined.

(** an alloca gets its origin id once: the first call on a fresh id pointer
    allocates the next index, records the description and the pc under it, and
    leaves an id that says stack and leads back to them; a later call on the same
    pointer changes nothing. *)
Theorem SetAllocaOrigin_once id descr pc st :
  id = 0 \/ id = first_timer -> 0 <= NumStackOriginDescrs st < kNumStackOriginDescrs ->
  exists r st', SetAllocaOrigin id descr pc st = Done (r, st') /\
  NumStackOriginDescrs st' = NumStackOriginDescrs st + 1 /\
  isStackOrigin r = true /\
  (i ← getStackId r; GetStackOriginDescr i st') = Done (descr, pc) /\
  (forall i, i <> NumStackOriginDescrs st ->
     GetStackOriginDescr i st' = GetStackOriginDescr i st) /\
  forall descr' pc', SetAllocaOrigin r descr' pc' st' = Done (r, st').
Proof.
  intros Hid Hn. change kNumStackOriginDescrs with 4194304 in Hn. unfold SetAllocaOrigin.
  assert ((id =? 0) || (id =? first_timer) = true) as ->.
  { apply orb_true_iff. rewrite !Z.eqb_eq. done. }
  rewrite (proj2 (Z.ltb_lt _ _)) by (change kNumStackOriginDescrs with 4194304; lia).
  set (idx := NumStackOriginDescrs st) in *. assert (0 <= idx < 2 ^ 28) as Hidx by lia.
  unfold CreateStackOrigin. change kStackIdMask with kChainedIdMask.
  rewrite land_mask_id by done. cbn [check mbind outcome_bind mret outcome_ret].
  pose proof (chained_raw 0 idx Hidx ltac:(lia)) as E. rewrite Z.shiftl_0_l, Z.lor_0_r, Z.add_0_r in E.
  rewrite E. eexists _, _. split; [reflexivity|].
  destruct (kinds_of_pack 8 idx Hidx ltac:(lia)) as (_ & Es & _). rewrite Z.eqb_refl in Es.
  split; [cbn; rewrite u32_small; lia|split; [exact Es|split; [|split]]].
  - unfold getStackId. rewrite Es. cbn [check mbind outcome_bind mret outcome_ret].
    rewrite pack_land by done. unfold GetStackOriginDescr.
    rewrite (proj2 (Z.ltb_lt _ _)) by (change kNumStackOriginDescrs with 4194304; lia).
    cbn. by rewrite Z.eqb_refl.
  - intros i Hi. unfold GetStackOriginDescr. cbn. by rewrite (proj2 (Z.eqb_neq i idx)).
  - intros descr' pc'.
    assert ((pack 8 idx =? 0) || (pack 8 idx =? first_timer) = false) as ->; [|done].
    change first_timer with 0x2d2d2d2d. unfold pack. zcase; lia.
Qed.

Lemma SetAllocaOrigin_once_witness :
  exists r st', SetAllocaOrigin 0 (Some "buf@main"%string) 0x401000 origins0 = Done (r, st') /\
  (i ← getStackId r; GetStackOriginDescr i st') = Done (Some "buf@main"%string, 0x401000).
Proof.
  destruct (SetAllocaOrigin_once 0 (Some "buf@main"%string) 0x401000 origins0)
    as (r & st' & H & _ & _ & H2 & _); [by left|split; [discriminate|reflexivity]|].
  exists r, st'. split; [exact H|exact H2].
Defined.
