(* ===== verification/Allocator.v ===== *)
(** * Allocator: the allocation entry points

    The functions of [cqmsan_allocator.cpp] the interceptors and the C++ operators
    call ([cqmsan_malloc] ... [cqmsan_posix_memalign], the ownership queries), with
    the operators of [cqmsan_new_delete.cpp].  They are shared by the two builds of
    the allocator and written against the interface [AllocatorImpl]; [AllocatorGlibc]
    and [AllocatorCombined] implement it.

    A stack trace only feeds reports and is left out; so are the bodies of the
    user's malloc hooks: that they ran, with which arguments, is recorded in
    [w_hooks]. *)

From S2P Require Import Prelude Common Memory Layout Poisoning UmrMap Interface.

(** ** State *)

Inductive Hook := MallocHook (p size : Z) | FreeHook (p : Z).
Inductive Errno := ENOMEM | EINVAL.

(** [H] is the state of the allocator underneath. *)
Record World (H : Type) := mkWorld {
  w_rt : Rt;
  w_heap : H;
  w_hooks : list Hook;
  w_errno : option Errno;
  w_oom : bool                      (* IsAllocatorOutOfMemory() *)
}.
Arguments mkWorld {H}. Arguments w_rt {H}. Arguments w_heap {H}. Arguments w_hooks {H}.
Arguments w_errno {H}. Arguments w_oom {H}.

(** What the allocator reads of the flags, and the page size. *)
Record AllocCtx := mkAllocCtx {
  ac_ctx : Ctx;
  poison_in_malloc : bool;
  poison_in_free : bool;
  poison_reuse : bool;
  AllocatorMayReturnNull : bool;
  IsRssLimitExceeded : bool;
  max_malloc_size : Z
}.

Section world.
Context {H : Type}.
Implicit Types (w : World H).

Definition set_rt w r : World H := mkWorld r (w_heap w) (w_hooks w) (w_errno w) (w_oom w).
Definition set_heap w h : World H := mkWorld (w_rt w) h (w_hooks w) (w_errno w) (w_oom w).
Definition set_errno w e : World H :=
  mkWorld (w_rt w) (w_heap w) (w_hooks w) (Some e) (w_oom w).
Definition SetAllocatorOutOfMemory w : World H :=
  mkWorld (w_rt w) (w_heap w) (w_hooks w) (w_errno w) true.
Definition w_mem w : mem := rt_mem (w_rt w).
Definition set_w_mem w m : World H := set_rt w (set_mem m (w_rt w)).

Definition run_hook w k : World H :=
  mkWorld (w_rt w) (w_heap w) (w_hooks w ++ [k]) (w_errno w) (w_oom w).
Definition RunMallocHooks w p size : World H := run_hook w (MallocHook p size).
Definition RunFreeHooks w p : World H := run_hook w (FreeHook p).

(** A call of the interface in this state. *)
Definition exec (m : M unit) w : outcome (World H) :=
  match m (w_rt w) with Done (_, r) => Done (set_rt w r) | Died why => Died why end.

Definition SetErrnoOnNull (r : Z * World H) : Z * World H :=
  let '(p, w) := r in if p =? 0 then (p, set_errno w ENOMEM) else (p, w).

(** ** The interface to the two builds *)

Class AllocatorImpl := {
  CQMsanAllocate : AllocCtx -> Z -> Z -> bool -> World H -> outcome (Z * World H);
  CQMsanDeallocate : AllocCtx -> Z -> World H -> outcome (World H);
  CQMsanReallocate : AllocCtx -> Z -> Z -> Z -> World H -> outcome (Z * World H);
  AllocationBegin : Z -> World H -> Z;
  AllocationSizeFast : Z -> World H -> Z
}.

Context `{AllocatorImpl} (ac : AllocCtx).

Definition PageSize : Z := page_size (cEnv (ac_ctx ac)).
(** The failure of a parameter check: null, or a fatal report. *)
Definition null_or_die {A} (null : A) (why : string) w : outcome (A * World H) :=
  if AllocatorMayReturnNull ac then mret (null, w) else Died why.

Definition CQMsanCalloc (nmemb size : Z) w : outcome (Z * World H) :=
  if Common.CheckForCallocOverflow size nmemb then null_or_die 0 "calloc-overflow" w
  else CQMsanAllocate ac (nmemb *64 size) 8 true w.

Definition AllocationSize (p : Z) w : Z :=
  if p =? 0 then 0 else if negb (AllocationBegin p w =? p) then 0 else AllocationSizeFast p w.

Definition cqmsan_malloc (size : Z) w : outcome (Z * World H) :=
  r ← CQMsanAllocate ac size 8 false w; mret (SetErrnoOnNull r).

Definition cqmsan_calloc (nmemb size : Z) w : outcome (Z * World H) :=
  r ← CQMsanCalloc nmemb size w; mret (SetErrnoOnNull r).

Definition cqmsan_realloc (ptr size : Z) w : outcome (Z * World H) :=
  if ptr =? 0 then r ← CQMsanAllocate ac size 8 false w; mret (SetErrnoOnNull r)
  else if size =? 0 then w ← CQMsanDeallocate ac ptr w; mret (0, w)
  else r ← CQMsanReallocate ac ptr size 8 w; mret (SetErrnoOnNull r).

Definition cqmsan_reallocarray (ptr nmemb size : Z) w : outcome (Z * World H) :=
  if Common.CheckForCallocOverflow size nmemb
  then null_or_die 0 "reallocarray-overflow" (set_errno w ENOMEM)
  else cqmsan_realloc ptr (nmemb *64 size) w.

Definition cqmsan_valloc (size : Z) w : outcome (Z * World H) :=
  r ← CQMsanAllocate ac size PageSize false w; mret (SetErrnoOnNull r).

Definition cqmsan_pvalloc (size : Z) w : outcome (Z * World H) :=
  o ← Common.CheckForPvallocOverflow size PageSize;
  if o : bool then null_or_die 0 "pvalloc-overflow" (set_errno w ENOMEM) else
  size ← (if negb (size =? 0) then Common.RoundUpTo size PageSize else mret PageSize);
  r ← CQMsanAllocate ac size PageSize false w; mret (SetErrnoOnNull r).

Definition cqmsan_aligned_alloc (alignment size : Z) w : outcome (Z * World H) :=
  if negb (Common.CheckAlignedAllocAlignmentAndSize alignment size)
  then null_or_die 0 "invalid-aligned-alloc-alignment" (set_errno w EINVAL)
  else r ← CQMsanAllocate ac size alignment false w; mret (SetErrnoOnNull r).

Definition cqmsan_memalign (alignment size : Z) w : outcome (Z * World H) :=
  if negb (Common.IsPowerOfTwo alignment)
  then null_or_die 0 "invalid-allocation-alignment" (set_errno w EINVAL)
  else r ← CQMsanAllocate ac size alignment false w; mret (SetErrnoOnNull r).

(** The error code, 0 for success; the pointer goes to [*memptr]. *)
Inductive PosixResult := POk | PError (e : Errno).

Definition cqmsan_posix_memalign (memptr alignment size : Z) w
    : outcome (PosixResult * World H) :=
  if negb (Common.CheckPosixMemalignAlignment alignment)
  then null_or_die (PError EINVAL) "invalid-posix-memalign-alignment" w
  else
    '(ptr, w) ← CQMsanAllocate ac size alignment false w;
    if ptr =? 0 then mret (PError ENOMEM, w) else
    _ ← check (Common.IsAligned ptr alignment) "CHECK(IsAligned)";
    mret (POk, set_w_mem w (store64 (w_mem w) memptr ptr)).

Definition __sanitizer_get_ownership (p : Z) w : bool := negb (AllocationSize p w =? 0).
Definition __sanitizer_get_allocated_size (p : Z) w : Z := AllocationSize p w.
Definition __sanitizer_get_estimated_allocated_size (size : Z) : Z := size.

(** *** The C++ operators and the interceptors above them *)

Definition operator_new (nothrow : bool) (size : Z) w : outcome (Z * World H) :=
  '(res, w) ← cqmsan_malloc size w;
  if negb nothrow && (res =? 0) then Died "out-of-memory" else mret (res, w).

Definition operator_new_align (nothrow : bool) (size align : Z) w : outcome (Z * World H) :=
  '(res, w) ← cqmsan_memalign align size w;
  if negb nothrow && (res =? 0) then Died "out-of-memory" else mret (res, w).

Definition operator_delete (ptr : Z) w : outcome (World H) :=
  if negb (ptr =? 0) then CQMsanDeallocate ac ptr w else mret w.

(** [dlsym]: the pointer belongs to the early allocator, which frees it. *)
Definition free (dlsym : bool) (ptr : Z) w : outcome (World H) :=
  if ptr =? 0 then mret w else if dlsym then mret w else CQMsanDeallocate ac ptr w.

Definition posix_memalign (memptr alignment size : Z) w : outcome (PosixResult * World H) :=
  _ ← check (negb (memptr =? 0)) "CHECK_NE";
  '(res, w) ← cqmsan_posix_memalign memptr alignment size w;
  match res with
  | POk => w ← exec (__cqmsan_unpoison (ac_ctx ac) memptr 8) w; mret (res, w)
  | PError _ => mret (res, w)
  end.
End world.
Arguments AllocatorImpl : clear implicits.

(** Used by both builds to give the shadow pages of a large block back. *)
Definition ReleaseMemoryPagesToOS (env : Env) (m : mem) (beg end_ : Z) : outcome mem :=
  beg_aligned ← RoundUpTo beg (page_size env);
  let end_aligned := RoundDownTo end_ (page_size env) in
  mret (if beg_aligned <? end_aligned then memset m beg_aligned 0 (end_aligned - beg_aligned) else m).

(** ** Calls of the interface on a world *)

Section calls.
Context {H : Type} (c : Ctx) `{!ShadowLayout (cP c)} (Henv : env_ok (cEnv c)).
Implicit Types (w : World H).

Lemma exec_poison_view a n w :
  MEM_IS_APP (cP c) a = true -> app_buffer (cP c) a n -> 0 <= n ->
  exists m', exec (__cqmsan_poison c a n) w = Done (set_w_mem w m') /\
    refines (cP c) (w_mem w) m' (fun b =>
      (w_mem w b, if in_range a n b then kPoisonByte c else w_mem w (MEM_TO_SHADOW (cP c) b))).
Proof.
  intros Ha Hb Hn. destruct (poison_total c Henv a n (w_rt w) Ha Hb Hn) as (m' & E & Href).
  exists m'. split; [|exact Href]. unfold exec. by rewrite E.
Qed.

Lemma exec_SetShadow_view a n v w :
  MEM_IS_APP (cP c) a = true -> app_buffer (cP c) a n -> 0 <= n ->
  exists m', exec (SetShadow_M c a n v) w = Done (set_w_mem w m') /\
    refines (cP c) (w_mem w) m' (fun b =>
      (w_mem w b, if in_range a n b then u8 v else w_mem w (MEM_TO_SHADOW (cP c) b))).
Proof.
  intros Ha Hb Hn. destruct (SetShadow_M_total c Henv a n v (w_rt w) Ha Hb Hn) as (m' & E & Href).
  exists m'. split; [|exact Href]. unfold exec. by rewrite E.
Qed.
End calls.

(** ** Requests *)

Section requests.
Context {H : Type} `{AllocatorImpl H} (ac : AllocCtx).
Context (k : Z) (Hk : 0 <= k < 63) (Hpage : page_size (cEnv (ac_ctx ac)) = 2 ^ k).

Lemma pvalloc_overflow size :
  0 <= size < 2 ^ 64 ->
  Common.CheckForPvallocOverflow size (PageSize ac) = Done (2 ^ 64 <=? size + 2 ^ k - 1).
Proof.
  intros Hs. unfold Common.CheckForPvallocOverflow, PageSize. rewrite Hpage.
  pose proof (Z.pow_pos_nonneg 2 k ltac:(lia) ltac:(lia)) as Hp.
  pose proof (Z.pow_lt_mono_r 2 k 64 ltac:(lia) ltac:(lia) ltac:(lia)) as Hlt.
  destruct (Z.leb_spec (2 ^ 64) (size + 2 ^ k - 1)) as [Ho|Ho].
  - unfold Common.RoundUpTo.
    assert (Common.IsPowerOfTwo (2 ^ k) = true) as ->.
    { apply Common.IsPowerOfTwo_spec; [lia|]. right. exists k. lia. }
    cbn [check mbind outcome_bind mret outcome_ret]. do 2 f_equal.
    rewrite (u64_small (2 ^ k - 1)) by lia.
    assert (size +64 2 ^ k -64 1 = size + 2 ^ k - 1 - 2 ^ 64) as ->.
    { unfold u64. rewrite Zminus_mod_idemp_l. rewrite <- (Z.mod_add _ (-1)) by lia.
      apply Z.mod_small. lia. }
    rewrite Common.land_not64_pow2 by lia. rewrite Z.div_small by lia. apply Z.ltb_lt. lia.
  - destruct (Common.RoundUpTo size (2 ^ k)) as [r|w] eqn:E;
      [|rewrite Common.RoundUpTo_spec in E by lia; discriminate E].
    cbn. pose proof (Common.RoundUpTo_bounds size k r ltac:(lia) ltac:(lia) ltac:(lia) E).
    f_equal. apply Z.ltb_ge. lia.
Qed.
End requests.

(** sizes are never computed modulo 2^64.  Whatever allocator is underneath:
    calloc and reallocarray pass on the exact product or, when it does not fit in
    64 bits, neither allocate nor release anything and answer null (with ENOMEM)
    or die, as configured; pvalloc asks for whole pages that hold the request, at
    least one, or fails in the same way. *)
Theorem requests_are_exact {H} `{AllocatorImpl H} ac k nmemb size ptr w :
  0 <= nmemb < 2 ^ 64 -> 0 <= size < 2 ^ 64 ->
  0 <= k < 63 -> page_size (cEnv (ac_ctx ac)) = 2 ^ k ->
  let failed why := if AllocatorMayReturnNull ac then Done (0, set_errno w ENOMEM) else Died why in
  cqmsan_calloc ac nmemb size w
    = (if nmemb * size <? 2 ^ 64
       then (r ← CQMsanAllocate ac (nmemb * size) 8 true w; mret (SetErrnoOnNull r))
       else failed "calloc-overflow"%string) /\
  cqmsan_reallocarray ac ptr nmemb size w
    = (if nmemb * size <? 2 ^ 64 then cqmsan_realloc ac ptr (nmemb * size) w
       else failed "reallocarray-overflow"%string) /\
  exists pages, size <= pages * 2 ^ k /\ 1 <= pages /\ pages * 2 ^ k < size + 2 ^ k + 1 /\
  cqmsan_pvalloc ac size w
    = (if size + 2 ^ k - 1 <? 2 ^ 64
       then (r ← CQMsanAllocate ac (pages * 2 ^ k) (2 ^ k) false w; mret (SetErrnoOnNull r))
       else failed "pvalloc-overflow"%string).
Proof.
  intros Hn Hs Hk Hpage failed.
  assert (Common.CheckForCallocOverflow size nmemb = negb (nmemb * size <? 2 ^ 64)) as Hco.
  { pose proof (Common.CheckForCallocOverflow_spec size nmemb ltac:(lia) ltac:(lia)) as E.
    destruct (Common.CheckForCallocOverflow size nmemb), (Z.ltb_spec (nmemb * size) (2 ^ 64));
      try done; [destruct E as [E _]; specialize (E eq_refl)|destruct E as [_ E]; specialize (E ltac:(lia))];
      (lia || done). }
  split; [|split].
  - unfold cqmsan_calloc, CQMsanCalloc. rewrite Hco. destruct (Z.ltb_spec (nmemb * size) (2 ^ 64)); cbn [negb].
    + rewrite u64_small by nia. reflexivity.
    + unfold null_or_die, failed. by destruct (AllocatorMayReturnNull ac).
  - unfold cqmsan_reallocarray. rewrite Hco. destruct (Z.ltb_spec (nmemb * size) (2 ^ 64)); cbn [negb].
    + rewrite u64_small by nia. reflexivity.
    + reflexivity.
  - pose proof (Z.pow_pos_nonneg 2 k ltac:(lia) ltac:(lia)) as Hp.
    unfold cqmsan_pvalloc. rewrite (pvalloc_overflow ac k Hk Hpage) by done. cbn [mbind outcome_bind].
    unfold PageSize. rewrite Hpage.
    destruct (Z.eqb_spec size 0) as [->|Hne].
    + exists 1. split; [lia|split; [lia|split; [lia|]]].
      pose proof (Z.pow_lt_mono_r 2 k 64 ltac:(lia) ltac:(lia) ltac:(lia)).
      rewrite (proj2 (Z.leb_gt _ _)), (proj2 (Z.ltb_lt _ _)) by lia. cbn [negb mbind outcome_bind mret outcome_ret].
      by rewrite Z.mul_1_l.
    + exists ((size + 2 ^ k - 1) / 2 ^ k).
      pose proof (Z.div_mod (size + 2 ^ k - 1) (2 ^ k)). pose proof (Z.mod_pos_bound (size + 2 ^ k - 1) (2 ^ k)).
      split; [lia|split; [apply Z.div_le_lower_bound; lia|split; [lia|]]].
      destruct (Z.ltb_spec (size + 2 ^ k - 1) (2 ^ 64)).
      * rewrite (proj2 (Z.leb_gt _ _)) by lia. cbn [negb].
        rewrite Common.RoundUpTo_spec by lia. cbn [mbind outcome_bind mret outcome_ret].
        by rewrite (Z.mul_comm (2 ^ k)).
      * rewrite (proj2 (Z.leb_le _ _)) by lia. reflexivity.
Qed.

(** A world over an allocator that answers one address. *)
Definition alloc_ctx0 : AllocCtx := mkAllocCtx ctx0 true true true true false (2 ^ 40).
Definition world0 {H} (h : H) (m : mem) : World H := mkWorld (rt0 m) h [] None false.

Definition one_block : AllocatorImpl unit := {|
  CQMsanAllocate _ size _ _ w := Done (if size <=? 64 then 4096 else 0, w);
  CQMsanDeallocate _ _ w := Done w;
  CQMsanReallocate _ p _ _ w := Done (p, w);
  AllocationBegin p _ := p;
  AllocationSizeFast _ _ := 64
|}.

Lemma requests_are_exact_witness :
  let w := world0 tt (fun _ => 0) in
  @cqmsan_calloc unit one_block alloc_ctx0 (2 ^ 32) (2 ^ 32) w = Done (0, set_errno w ENOMEM).
Proof.
  intros w.
  pose proof (@requests_are_exact unit one_block alloc_ctx0 12 (2 ^ 32) (2 ^ 32) 4096 w
    ltac:(lia) ltac:(lia) ltac:(lia) eq_refl) as [E _]. exact E.
Defined.
