(* ===== verification/AllocatorGlibc.v ===== *)
(** * AllocatorGlibc: the passthrough build of the allocator

    The [CQMSAN_GLIBC_ALLOC] half of [cqmsan_allocator.cpp]: blocks come from
    [__libc_malloc]/[__libc_calloc], with a header of three words before the user
    pointer (canary, distance to the libc block, size), and the shadow is poisoned
    and cleaned by hand.

    glibc itself is the class [LibcHeap]: its three functions and, as far as the
    runtime relies on it, their documented behaviour. *)

From S2P Require Import Prelude Common Memory Layout Poisoning UmrMap Interface Allocator.

(** ** The C library *)

Class LibcHeapOps (H : Type) := {
  __libc_malloc : H -> mem -> Z -> Z * (H * mem);
  __libc_calloc : H -> mem -> Z -> Z -> Z * (H * mem);
  __libc_free : H -> mem -> Z -> H * mem
}.

(** Blocks are 16-byte aligned and lie in the lower half of the address space,
    calloc zeroes them, and the functions write to the process's own memory only.
    [libc_block h p n]: a request of [n] bytes is served at [p].  Freeing it writes
    the links of the bin in its first 16 bytes and the size in what follows it,
    which may be the last 8 of the [n] bytes but never comes before byte 32. *)
Class LibcHeap (H : Type) `{LibcHeapOps H} (P : Platform) : Type := {
  libc_block : H -> Z -> Z -> Prop;
  libc_malloc_block h m n : let '(p, (h', m')) := __libc_malloc h m n in
    (p <> 0 -> 0 < p /\ p mod 16 = 0 /\ p + n <= 2 ^ 47 /\ libc_block h' p n) /\
    forall x, MEM_IS_APP P x = false -> m' x = m x;
  libc_calloc_block h m n : let '(p, (h', m')) := __libc_calloc h m 1 n in
    (p <> 0 -> 0 < p /\ p mod 16 = 0 /\ p + n <= 2 ^ 47 /\ libc_block h' p n /\
      forall i, 0 <= i < n -> m' (p + i) = 0) /\
    forall x, MEM_IS_APP P x = false -> m' x = m x;
  libc_free_block h m p n : libc_block h p n -> let '(h', m') := __libc_free h m p in
    (forall x, p + 16 <= x < p + Z.max 32 (n - 8) -> m' x = m x) /\
    forall x, MEM_IS_APP P x = false -> m' x = m x
}.

(** ** Headers *)

(** [RoundUpTo(3 * sizeof(uptr), 16)] *)
Definition kHeaderWords : Z := 3.
Definition kMinHeaderSlot : Z := 32.
Definition kHeaderMagic : Z := 0x43514D53414E00.
Definition kFreedMagic : Z := 0x46524545440000.
Definition kShadowReleaseThreshold : Z := 128 * 1024.

Definition CQMsanCanaryFor (user : Z) : Z := Z.lxor kHeaderMagic user.
Definition CQMsanFreedCanaryFor (user : Z) : Z := Z.lxor kFreedMagic user.

Definition CQMsanGlibcHeaderToUser (m : mem) (raw header_slot size : Z) : Z * mem :=
  let user := raw + header_slot in
  let m := store64 m (user - 8) size in
  let m := store64 m (user - 16) header_slot in
  (user, store64 m (user - 24) (CQMsanCanaryFor user)).

Section glibc.
Context {H : Type} `{LibcHeapOps H}.
Implicit Types (w : World H).

Definition run_heap w (r : Z * (H * mem)) : Z * World H :=
  let '(p, (h, m)) := r in (p, set_w_mem (set_heap w h) m).

Definition glibc_allocate (ac : AllocCtx) (size alignment : Z) (zero : bool) w
    : outcome (Z * World H) :=
  let c := ac_ctx ac in
  if max_malloc_size ac <? size then null_or_die ac 0 "allocation-size-too-big" w else
  if IsRssLimitExceeded ac then null_or_die ac 0 "rss-limit-exceeded" w else
  let needs_align := kMinHeaderSlot <=? alignment in
  let real_size := if needs_align then u64 (kMinHeaderSlot + size + (alignment - 1))
                   else u64 (kMinHeaderSlot + size) in
  let '(raw, w) := run_heap w (if zero then __libc_calloc (w_heap w) (w_mem w) 1 real_size
                               else __libc_malloc (w_heap w) (w_mem w) real_size) in
  if raw =? 0 then null_or_die ac 0 "out-of-memory" (SetAllocatorOutOfMemory w) else
  if negb (MEM_IS_APP (cP c) raw) || negb (MEM_IS_APP (cP c) (raw + real_size - 1))
  then Died "glibc returned a heap pointer outside the expected APP memory range" else
  header_slot ← (if needs_align then
                   aligned ← RoundUpTo (u64 (raw + kMinHeaderSlot)) alignment;
                   mret (aligned - raw)
                 else mret kMinHeaderSlot);
  let '(allocated, m) := CQMsanGlibcHeaderToUser (w_mem w) raw header_slot size in
  let w := set_w_mem w m in
  w ← (if zero then exec (SetShadow_M c allocated size (if cFlip c then 255 else 0)) w
       else if poison_in_malloc ac && (negb (cFlip c) || negb (poison_in_free ac))
       then exec (__cqmsan_poison c allocated size) w
       else mret w);
  w ← exec (UnpoisonParam 2) w;
  mret (allocated, RunMallocHooks w allocated size).

Definition glibc_deallocate (ac : AllocCtx) (p : Z) w : outcome (World H) :=
  let c := ac_ctx ac in
  let slot1 := load64 (w_mem w) (p - 8) in
  if slot1 =? CQMsanFreedCanaryFor p then Died "double free()" else
  let canary := load64 (w_mem w) (p - 24) in
  if negb (canary =? CQMsanCanaryFor p)
  then Died "free() on a pointer that is not the start of an allocation" else
  w ← exec (UnpoisonParam 1) w;
  let w := RunFreeHooks w p in
  let size := slot1 in
  let header_slot := load64 (w_mem w) (p - 16) in
  let raw := u64 (p - header_slot) in
  w ← (if kShadowReleaseThreshold <=? size then
         let shadow_p := MEM_TO_SHADOW (cP c) p in
         m ← ReleaseMemoryPagesToOS (cEnv c) (w_mem w) shadow_p (shadow_p +64 size);
         mret (set_w_mem w m)
       else mret w);
  w ← (if poison_in_free ac then exec (__cqmsan_poison c p size) w else mret w);
  let w := set_w_mem w (store64 (w_mem w) (p - 8) (CQMsanFreedCanaryFor p)) in
  let '(h, m) := __libc_free (w_heap w) (w_mem w) raw in
  mret (set_w_mem (set_heap w h) m).

Definition glibc_reallocate (ac : AllocCtx) (old_p new_size alignment : Z) w
    : outcome (Z * World H) :=
  let slot1 := load64 (w_mem w) (old_p - 8) in
  if slot1 =? CQMsanFreedCanaryFor old_p then Died "realloc() on an already-freed pointer" else
  let canary := load64 (w_mem w) (old_p - 24) in
  if negb (canary =? CQMsanCanaryFor old_p)
  then Died "realloc() on a pointer that is not the start of an allocation" else
  let old_size := slot1 in
  let copy_size := Min new_size old_size in
  '(new_p, w) ← glibc_allocate ac new_size alignment false w;
  if negb (new_p =? 0) then
    let m := (CopyMemory (cP (ac_ctx ac)) (fun d o => (o, d)) track_origins
                (w_mem w, tt) new_p old_p copy_size).1 in
    w ← glibc_deallocate ac old_p (set_w_mem w m);
    mret (new_p, w)
  else mret (new_p, w).

(** [mapped]: [TryMemCpy] can read the three words. *)
Definition glibc_allocation_begin (mapped : Z -> bool) (p : Z) w : Z :=
  if p =? 0 then 0 else
  if negb (mapped p) then 0 else
  if load64 (w_mem w) (p - 8) =? CQMsanFreedCanaryFor p then 0 else
  if negb (load64 (w_mem w) (p - 24) =? CQMsanCanaryFor p) then 0 else
  if load64 (w_mem w) (p - 8) =? 0 then 0 else p.

Definition glibc_allocation_size_fast (p : Z) w : Z := load64 (w_mem w) (p - 8).

Definition glibc_impl (mapped : Z -> bool) : AllocatorImpl H := {|
  CQMsanAllocate := glibc_allocate;
  CQMsanDeallocate := glibc_deallocate;
  CQMsanReallocate := glibc_reallocate;
  AllocationBegin := glibc_allocation_begin mapped;
  AllocationSizeFast := glibc_allocation_size_fast
|}.
End glibc.

(** ** Lemmas *)

(** Checking both ends is enough on x86_64: the gaps between the application
    ranges are larger than any block. *)
Lemma x86_both_ends a n :
  MEM_IS_APP linux_x86_64 a = true -> MEM_IS_APP linux_x86_64 (a + n - 1) = true ->
  0 < n <= 2 ^ 43 -> app_buffer linux_x86_64 a n.
Proof.
  intros (b1 & Hb1 & H1)%x86_app_block (b2 & Hb2 & H2)%x86_app_block Hn i Hi.
  apply x86_app_block. exists b1. split; [done|].
  unfold x86_app_blocks in Hb1, Hb2. set_unfold.
  destruct Hb1 as [-> | [-> | [-> | []]]], Hb2 as [-> | [-> | [-> | []]]]; cbn [fst snd] in *; lia.
Qed.

(** A size is never mistaken for the mark of a freed block. *)
Lemma size_not_freed size p :
  0 <= size < 2 ^ 48 -> 0 <= p < 2 ^ 48 -> size <> CQMsanFreedCanaryFor p.
Proof.
  intros Hs Hp E. apply (f_equal (fun x => Z.shiftr x 48)) in E. unfold CQMsanFreedCanaryFor in E.
  rewrite Z.shiftr_lxor in E. rewrite !(Z.shiftr_div_pow2 _ 48) in E by lia.
  rewrite (Z.div_small size), (Z.div_small p) in E by lia. discriminate E.
Qed.

(** The bytes of the process's own memory are the same. *)
Definition app_same (P : Platform) (m m' : mem) : Prop :=
  forall b, MEM_IS_APP P b = true -> m' b = m b.

Lemma app_same_trans P m1 m2 m3 : app_same P m1 m2 -> app_same P m2 m3 -> app_same P m1 m3.
Proof. intros H1 H2 b Hb. by rewrite H2, H1. Qed.

(** The three header words. *)
Definition has_header (m : mem) (p raw size : Z) : Prop :=
  load64 m (p - 8) = size /\ load64 m (p - 16) = p - raw /\ load64 m (p - 24) = CQMsanCanaryFor p.

Lemma has_header_same P m m' p raw n size :
  app_buffer P raw n -> raw + 32 <= p -> p <= raw + n -> app_same P m m' ->
  has_header m p raw size -> has_header m' p raw size.
Proof.
  intros Hbuf Hlo Hhi Hs (H1 & H2 & H3). unfold has_header. rewrite <- H1, <- H2, <- H3.
  assert (forall a, raw <= a -> a + 8 <= raw + n -> load64 m' a = load64 m a) as Hl.
  { intros a Ha1 Ha2. apply load_ext. intros i Hi. apply Hs.
    replace (a + i) with (raw + (a + i - raw)) by lia. apply Hbuf. lia. }
  rewrite !Hl by lia. done.
Qed.

Lemma header_written m raw slot size :
  0 <= size < 2 ^ 48 -> 0 <= slot < 2 ^ 48 -> 0 <= raw + slot < 2 ^ 48 ->
  let '(p, m') := CQMsanGlibcHeaderToUser m raw slot size in
  p = raw + slot /\ has_header m' p raw size /\ forall x, ~ p - 24 <= x < p -> m' x = m x.
Proof.
  intros Hs Hl Hp. unfold CQMsanGlibcHeaderToUser. set (p := raw + slot).
  split; [done|]. assert (2 ^ 48 < 2 ^ (8 * 8)) by done.
  assert (0 <= CQMsanCanaryFor p < 2 ^ (8 * 8)).
  { apply lxor_range; unfold kHeaderMagic; lia. }
  split; [split; [|split]|].
  - unfold load64, store64. rewrite !load_store_other by lia. apply load_store. lia.
  - unfold load64, store64. rewrite load_store_other by lia. rewrite load_store by lia. lia.
  - unfold load64, store64. by rewrite load_store.
  - intros x Hx. unfold store64, store. ranges; (lia || done).
Qed.

(** Where the user's block lies in the libc's. *)
Lemma header_slot_spec raw size alignment :
  0 < raw -> raw mod 16 = 0 -> raw + 32 + size + alignment <= 2 ^ 48 -> 0 <= size ->
  (exists j, 0 <= j <= 40 /\ alignment = 2 ^ j) ->
  exists slot, (if kMinHeaderSlot <=? alignment then
                     aligned ← RoundUpTo (u64 (raw + kMinHeaderSlot)) alignment;
                     mret (aligned - raw)
                   else mret kMinHeaderSlot) = Done slot /\
  32 <= slot /\ (raw + slot) mod alignment = 0 /\
  let n := if kMinHeaderSlot <=? alignment then 32 + size + (alignment - 1) else 32 + size in
  slot + size <= n /\ slot <= Z.max 32 (n - 8).
Proof.
  intros Hr Hr16 Hb Hs (j & Hj & ->). unfold kMinHeaderSlot.
  destruct (Z.leb_spec 32 (2 ^ j)) as [Hge|Hlt].
  - assert (5 <= j) as Hj5.
    { apply (Z.pow_le_mono_r_iff 2); [lia|lia|]. exact Hge. }
    rewrite u64_small by lia. rewrite RoundUpTo_spec by lia. cbn [mbind outcome_bind mret outcome_ret].
    eexists. split; [reflexivity|]. set (q := (raw + 32 + 2 ^ j - 1) / 2 ^ j).
    pose proof (Z.div_mod (raw + 32 + 2 ^ j - 1) (2 ^ j) ltac:(lia)) as Hd. fold q in Hd.
    pose proof (Z.mod_pos_bound (raw + 32 + 2 ^ j - 1) (2 ^ j) ltac:(lia)) as Hm.
    assert (exists r, 2 ^ j * q - raw = 16 * r) as [r Hq].
    { exists (2 ^ (j - 4) * q - raw / 16). pose proof (Z.div_mod raw 16).
      replace (2 ^ j) with (16 * 2 ^ (j - 4)) by (change 16 with (2 ^ 4); rewrite <- Z.pow_add_r by lia; f_equal; lia).
      lia. }
    assert (exists t, 2 ^ j = 16 * t) as [t Ht].
    { exists (2 ^ (j - 4)). change 16 with (2 ^ 4). rewrite <- Z.pow_add_r by lia. f_equal. lia. }
    split; [lia|split; [|split; lia]].
    rewrite Zplus_minus, Z.mul_comm. apply Z.mod_mul. lia.
  - exists 32. split; [done|split; [lia|split; [|split; lia]]].
    assert (j <= 4) as Hj4.
    { destruct (Z.leb_spec j 4); [done|]. pose proof (Z.pow_le_mono_r 2 5 j ltac:(lia) ltac:(lia)).
      change (2 ^ 5) with 32 in *. lia. }
    pose proof (Z.div_mod raw 16 ltac:(lia)) as Hd. rewrite Hr16 in Hd.
    replace (raw + 32) with ((raw / 16 + 2) * 2 ^ (4 - j) * 2 ^ j); [apply Z.mod_mul; lia|].
    rewrite <- Z.mul_assoc, <- Z.pow_add_r by lia. replace (4 - j + j) with 4 by lia. lia.
Qed.

(** ** The blocks handed out *)

Section blocks.
Context {H : Type} `{!LibcHeapOps H} `{!LibcHeap H linux_x86_64}.
Context (ac : AllocCtx) (HP : cP (ac_ctx ac) = linux_x86_64) (Henv : env_ok (cEnv (ac_ctx ac))).
Implicit Types (w : World H).

Let shadow (m : mem) (a : Z) : Z := m (MEM_TO_SHADOW linux_x86_64 a).

Lemma exec_SetShadow p size v w :
  app_buffer linux_x86_64 p size -> 0 < size ->
  exists m', exec (SetShadow_M (ac_ctx ac) p size v) w = Done (set_w_mem w m') /\
    app_same linux_x86_64 (w_mem w) m' /\ forall i, 0 <= i < size -> shadow m' (p + i) = u8 v.
Proof.
  intros Hbuf Hs.
  assert (MEM_IS_APP linux_x86_64 p = true) as Hp by (rewrite <- (Z.add_0_r p); apply Hbuf; lia).
  assert (ShadowLayout (cP (ac_ctx ac))) as HL by (rewrite HP; apply x86_64_shadow_layout).
  destruct (SetShadow_M_total (ac_ctx ac) Henv p size v (w_rt w)) as (m' & E & Href);
    [by rewrite HP|by rewrite HP|lia|].
  exists m'. unfold exec. rewrite E. split; [done|]. rewrite HP in Href. split.
  - intros b Hb. specialize (Href b Hb). by injection Href.
  - intros i Hi. specialize (Href (p + i) (Hbuf i Hi)). unfold view in Href.
    injection Href as _ Hv. rewrite (proj2 (in_range_true _ _ _)) in Hv by lia. exact Hv.
Qed.

Lemma exec_poison p size w :
  app_buffer linux_x86_64 p size -> 0 < size ->
  exists m', exec (__cqmsan_poison (ac_ctx ac) p size) w = Done (set_w_mem w m') /\
    app_same linux_x86_64 (w_mem w) m' /\
    forall i, 0 <= i < size -> shadow m' (p + i) = kPoisonByte (ac_ctx ac).
Proof.
  intros Hbuf Hs. destruct (exec_SetShadow p size (kPoisonByte (ac_ctx ac)) w Hbuf Hs) as (m' & E & H1 & H2).
  exists m'. split; [|split; [done|]].
  - unfold __cqmsan_poison. rewrite HP.
    assert (MEM_IS_APP linux_x86_64 p = true) as -> by (rewrite <- (Z.add_0_r p); apply Hbuf; lia).
    exact E.
  - intros i Hi. rewrite H2 by done. unfold kPoisonByte. by destruct (cFlip _).
Qed.

Lemma exec_UnpoisonParam n w :
  exists w', exec (UnpoisonParam n) w = Done w' /\ w_mem w' = w_mem w /\ w_heap w' = w_heap w /\
    w_hooks w' = w_hooks w.
Proof. eexists. split; [reflexivity|]. done. Qed.

(** The common part of malloc and calloc: what the libc answered. *)
Definition libc_result (zero : bool) w n : Z * World H :=
  run_heap w (if zero then __libc_calloc (w_heap w) (w_mem w) 1 n
              else __libc_malloc (w_heap w) (w_mem w) n).

Lemma libc_result_spec zero w n raw w' :
  libc_result zero w n = (raw, w') -> raw <> 0 ->
  0 < raw /\ raw mod 16 = 0 /\ raw + n <= 2 ^ 47 /\ libc_block (w_heap w') raw n /\
  (zero = true -> forall i, 0 <= i < n -> w_mem w' (raw + i) = 0).
Proof.
  unfold libc_result, run_heap. destruct zero; intros E Hne.
  - pose proof (libc_calloc_block (w_heap w) (w_mem w) n) as Hb.
    destruct (__libc_calloc _ _ _ _) as [p [h m]]. injection E as <- <-.
    destruct Hb as [Hb _]. destruct (Hb Hne) as (? & ? & ? & ? & ?). by repeat (split; [done|]).
  - pose proof (libc_malloc_block (w_heap w) (w_mem w) n) as Hb.
    destruct (__libc_malloc _ _ _) as [p [h m]]. injection E as <- <-.
    destruct Hb as [Hb _]. destruct (Hb Hne) as (? & ? & ? & ?). by repeat (split; [done|]).
Qed.

(** The block of a successful allocation, inside the libc's. *)
Record good_block w (p raw n size : Z) : Prop := {
  gb_libc : libc_block (w_heap w) raw n;
  gb_app : app_buffer linux_x86_64 raw n;
  gb_raw : 0 < raw /\ raw + n <= 2 ^ 47;
  gb_size : 0 < size;
  gb_inside : raw + 32 <= p /\ p + size <= raw + n /\ p <= raw + Z.max 32 (n - 8);
  gb_header : has_header (w_mem w) p raw size
}.

(** The paths that answer null. *)
Ltac null_case := destruct (AllocatorMayReturnNull _); cbv [mret outcome_ret]; intros [=]; intros ?; congruence.

Lemma glibc_allocate_correct size alignment zero w p w' :
  0 < size -> max_malloc_size ac <= 2 ^ 40 -> (exists j, 0 <= j <= 40 /\ alignment = 2 ^ j) ->
  glibc_allocate ac size alignment zero w = Done (p, w') -> p <> 0 ->
  exists raw n, good_block w' p raw n size /\ p mod alignment = 0 /\
  (zero = true -> (forall i, 0 <= i < size -> w_mem w' (p + i) = 0) /\
     forall i, 0 <= i < size -> shadow (w_mem w') (p + i) = kCleanByte (ac_ctx ac)) /\
  (zero = false -> poison_in_malloc ac && (negb (cFlip (ac_ctx ac)) || negb (poison_in_free ac)) = true ->
     forall i, 0 <= i < size -> shadow (w_mem w') (p + i) = kPoisonByte (ac_ctx ac)).
Proof.
  intros Hs Hmax Hal. unfold glibc_allocate, null_or_die.
  destruct (Z.ltb_spec (max_malloc_size ac) size) as [|Hsz]; [null_case|].
  destruct (IsRssLimitExceeded ac); [null_case|].
  set (n := if kMinHeaderSlot <=? alignment then u64 _ else u64 _).
  assert (0 < alignment <= 2 ^ 40) as Hal2.
  { destruct Hal as (j & Hj & ->). pose proof (Z.pow_le_mono_r 2 j 40). lia. }
  assert (n = if kMinHeaderSlot <=? alignment then 32 + size + (alignment - 1) else 32 + size) as Hn.
  { unfold n, kMinHeaderSlot. case_match; rewrite u64_small; lia. }
  assert (0 < n <= 2 ^ 43) as Hn2 by (rewrite Hn; case_match; lia).
  fold (libc_result zero w n). destruct (libc_result zero w n) as [raw w1] eqn:El.
  destruct (Z.eqb_spec raw 0) as [|Hraw]; [null_case|].
  destruct (libc_result_spec zero w n raw w1 El Hraw) as (Hr0 & Hr16 & Hrn & Hblk & Hzero).
  rewrite HP. destruct (MEM_IS_APP linux_x86_64 raw) eqn:Ha1; [|done].
  destruct (MEM_IS_APP linux_x86_64 (raw + n - 1)) eqn:Ha2; [|done]. cbn [negb orb].
  pose proof (x86_both_ends raw n Ha1 Ha2 Hn2) as Hbuf.
  destruct (header_slot_spec raw size alignment Hr0 Hr16) as (slot & -> & Hslot & Hmod & Hin);
    [lia|lia|done|]. cbn zeta in Hin. rewrite <- Hn in Hin. destruct Hin as [Hin1 Hin2].
  cbn [mbind outcome_bind].
  pose proof (header_written (w_mem w1) raw slot size ltac:(lia) ltac:(lia) ltac:(lia)) as Hh.
  destruct (CQMsanGlibcHeaderToUser (w_mem w1) raw slot size) as [user m1].
  destruct Hh as (-> & Hhead & Hother).
  assert (app_buffer linux_x86_64 (raw + slot) size) as Hubuf.
  { intros i Hi. rewrite <- Z.add_assoc. apply Hbuf. lia. }
  assert (forall w2 w3, app_same linux_x86_64 m1 (w_mem w2) -> w_heap w2 = w_heap w1 ->
    exec (UnpoisonParam 2) w2 = Done w3 ->
    good_block (RunMallocHooks w3 (raw + slot) size) (raw + slot) raw n size) as Hgood.
  { intros w2 w3 Hsame Hheap E. destruct (exec_UnpoisonParam 2 w2) as (w3' & E' & Em & Eh & _).
    rewrite E in E'. injection E' as <-. split; try done; try lia.
    - change (w_heap (RunMallocHooks w3 (raw + slot) size)) with (w_heap w3). by rewrite Eh, Hheap.
    - change (w_mem (RunMallocHooks w3 (raw + slot) size)) with (w_mem w3). rewrite Em.
      apply (has_header_same linux_x86_64 m1 _ (raw + slot) raw n size Hbuf); (lia || done). }
  destruct zero; [|destruct (poison_in_malloc ac && _) eqn:Ep].
  - destruct (exec_SetShadow (raw + slot) size (if cFlip (ac_ctx ac) then 255 else 0) (set_w_mem w1 m1) Hubuf Hs)
      as (m2 & -> & Hsame & Hsh). cbn [mbind outcome_bind].
    destruct (exec_UnpoisonParam 2 (set_w_mem (set_w_mem w1 m1) m2)) as (w3 & E & Em & _).
    rewrite E. cbn [mbind outcome_bind]. intros [= <- <-] Hne. exists raw, n.
    split; [by apply (Hgood (set_w_mem (set_w_mem w1 m1) m2) w3 Hsame)|split; [done|split; [|done]]]. intros _.
    change (w_mem (RunMallocHooks w3 (raw + slot) size)) with (w_mem w3). rewrite Em. split.
    + intros i Hi. change (w_mem (set_w_mem (set_w_mem w1 m1) m2)) with m2.
      rewrite Hsame by (by apply Hubuf). change (w_mem (set_w_mem w1 m1)) with m1.
      rewrite Hother by lia. rewrite <- Z.add_assoc. apply Hzero; [done|lia].
    + intros i Hi. change (shadow m2 (raw + slot + i) = kCleanByte (ac_ctx ac)). rewrite Hsh by done.
      unfold kCleanByte. by destruct (cFlip _).
  - destruct (exec_poison (raw + slot) size (set_w_mem w1 m1) Hubuf Hs) as (m2 & -> & Hsame & Hsh).
    cbn [mbind outcome_bind].
    destruct (exec_UnpoisonParam 2 (set_w_mem (set_w_mem w1 m1) m2)) as (w3 & E & Em & _).
    rewrite E. cbn [mbind outcome_bind]. intros [= <- <-] Hne. exists raw, n.
    split; [by apply (Hgood (set_w_mem (set_w_mem w1 m1) m2) w3 Hsame)|split; [done|split; [done|]]]. intros _ _.
    change (w_mem (RunMallocHooks w3 (raw + slot) size)) with (w_mem w3). rewrite Em. exact Hsh.
  - cbn [mbind outcome_bind mret outcome_ret]. destruct (exec_UnpoisonParam 2 (set_w_mem w1 m1)) as (w3 & E & _).
    rewrite E. cbn [mbind outcome_bind]. intros [= <- <-] Hne. exists raw, n.
    split; [by apply (Hgood (set_w_mem w1 m1) w3)|split; [done|split; done]].
Qed.

(** *** Giving a block back *)

Lemma app_same_release p n m m' beg_end :
  app_buffer linux_x86_64 p n -> 0 < n -> beg_end = MEM_TO_SHADOW linux_x86_64 p +64 n ->
  ReleaseMemoryPagesToOS (cEnv (ac_ctx ac)) m (MEM_TO_SHADOW linux_x86_64 p) beg_end = Done m' ->
  app_same linux_x86_64 m m'.
Proof.
  intros Hbuf Hn -> E. destruct Henv as [(k & Hk & Hpage) _]. unfold ReleaseMemoryPagesToOS in E.
  rewrite Hpage in E.
  assert (MEM_IS_APP linux_x86_64 p = true) as Hp by (rewrite <- (Z.add_0_r p); apply Hbuf; lia).
  pose proof (sl_shadow_range p Hp) as Hr.
  pose proof (shadow_end_range ctx0 p n Hp Hbuf ltac:(lia)) as He. change (cP ctx0) with linux_x86_64 in He.
  assert (1 <= 2 ^ k <= 2 ^ 32) as Hk2.
  { pose proof (Z.pow_le_mono_r 2 k 32). pose proof (Z.pow_pos_nonneg 2 k). lia. }
  inv_done.
  pose proof (RoundUpTo_bounds (MEM_TO_SHADOW linux_x86_64 p) k r ltac:(lia) ltac:(lia) ltac:(lia) Hr0) as Hup.
  change (Z.lxor p 87960930222080) with (MEM_TO_SHADOW linux_x86_64 p). rewrite (u64_small (MEM_TO_SHADOW linux_x86_64 p + n)) by lia. rewrite (RoundDownTo_spec _ k) by lia.
  set (e := MEM_TO_SHADOW linux_x86_64 p + n) in *.
  pose proof (Z.mul_div_le e (2 ^ k) ltac:(lia)) as Hdn.
  intros b Hb. case_match; [|done]. apply memset_out. intros Hin.
  destruct (shadow_of_buffer ctx0 p n b Hbuf Hb) as [Hno _]. change (cP ctx0) with linux_x86_64 in Hno. apply Hno. lia.
Qed.

Lemma release_total p n m :
  exists m', ReleaseMemoryPagesToOS (cEnv (ac_ctx ac)) m p n = Done m'.
Proof.
  destruct Henv as [(k & Hk & Hpage) _]. unfold ReleaseMemoryPagesToOS, RoundUpTo. rewrite Hpage.
  assert (IsPowerOfTwo (2 ^ k) = true) as ->; [|by eexists].
  pose proof (Z.pow_le_mono_r 2 k 32). pose proof (Z.pow_pos_nonneg 2 k).
  apply IsPowerOfTwo_spec; [lia|]. right. exists k. lia.
Qed.

Lemma glibc_deallocate_correct w p raw n size :
  good_block w p raw n size ->
  exists w' m, glibc_deallocate ac p w = Done w' /\
  w_heap w' = fst (__libc_free (w_heap w) m raw) /\
  w_hooks w' = w_hooks w ++ [FreeHook p] /\
  load64 (w_mem w') (p - 8) = CQMsanFreedCanaryFor p /\
  (poison_in_free ac = true ->
     forall i, 0 <= i < size -> shadow (w_mem w') (p + i) = kPoisonByte (ac_ctx ac)).
Proof.
  intros [Hblk Hbuf Hraw Hs Hin Hhead]. unfold glibc_deallocate.
  pose proof Hhead as (H1 & H2 & H3).
  rewrite H1, (proj2 (Z.eqb_neq _ _)) by (apply size_not_freed; lia).
  rewrite H3, Z.eqb_refl. cbn [negb].
  destruct (exec_UnpoisonParam 1 w) as (w1 & -> & Em & Eh & Ek). cbn [mbind outcome_bind].
  change (w_mem (RunFreeHooks w1 p)) with (w_mem w1). rewrite Em, H2.
  rewrite u64_small by lia. replace (p - (p - raw)) with raw by lia.
  assert (app_buffer linux_x86_64 p size) as Hubuf.
  { intros i Hi. replace (p + i) with (raw + (p - raw + i)) by lia. apply Hbuf. lia. }
  (* the shadow pages are released *)
  set (w2 := RunFreeHooks w1 p).
  assert (exists m2, (if kShadowReleaseThreshold <=? size then
      m ← ReleaseMemoryPagesToOS (cEnv (ac_ctx ac)) (w_mem w) (MEM_TO_SHADOW (cP (ac_ctx ac)) p)
            (MEM_TO_SHADOW (cP (ac_ctx ac)) p +64 size); mret (set_w_mem w2 m)
      else mret w2) = Done (set_w_mem w2 m2) /\ app_same linux_x86_64 (w_mem w) m2) as (m2 & -> & Hs2).
  { rewrite HP. destruct (kShadowReleaseThreshold <=? size).
    - destruct (release_total (MEM_TO_SHADOW linux_x86_64 p) (MEM_TO_SHADOW linux_x86_64 p +64 size) (w_mem w))
        as (m2 & E). rewrite E. exists m2. split; [done|]. by eapply app_same_release.
    - exists (w_mem w). split; [|done]. rewrite <- Em. by destruct w1 as [[] ? ? ? ?]. }
  cbn [mbind outcome_bind].
  (* and the block is poisoned *)
  assert (exists m3, (if poison_in_free ac then exec (__cqmsan_poison (ac_ctx ac) p size) (set_w_mem w2 m2)
      else mret (set_w_mem w2 m2)) = Done (set_w_mem w2 m3) /\ app_same linux_x86_64 m2 m3 /\
      (poison_in_free ac = true -> forall i, 0 <= i < size -> shadow m3 (p + i) = kPoisonByte (ac_ctx ac)))
    as (m3 & -> & Hs3 & Hsh).
  { destruct (poison_in_free ac).
    - destruct (exec_poison p size (set_w_mem w2 m2) Hubuf Hs) as (m3 & -> & Ha & Hb).
      exists m3. split; [done|split; [exact Ha|by intros _]].
    - by exists m2. }
  cbn [mbind outcome_bind]. set (m4 := store64 (w_mem (set_w_mem w2 m3)) (p - 8) (CQMsanFreedCanaryFor p)).
  change (w_heap (set_w_mem (set_w_mem w2 m3) m4)) with (w_heap w1).
  change (w_mem (set_w_mem (set_w_mem w2 m3) m4)) with m4. rewrite Eh.
  pose proof (libc_free_block (w_heap w) m4 raw n Hblk) as Hfree.
  destruct (__libc_free (w_heap w) m4 raw) as [h m5] eqn:Ef. destruct Hfree as [Hfoot Hfsh].
  eexists _, m4. split; [reflexivity|]. rewrite Ef. split; [done|].
  change (w_hooks (set_w_mem (set_heap (set_w_mem (set_w_mem w2 m3) m4) h) m5)) with (w_hooks w1 ++ [FreeHook p]).
  change (w_mem (set_w_mem (set_heap (set_w_mem (set_w_mem w2 m3) m4) h) m5)) with m5.
  split; [|split].
  - by rewrite Ek.
  - transitivity (load64 m4 (p - 8)).
    + apply load_ext. intros i Hi. apply Hfoot. lia.
    + apply load_store. pose proof (lxor_range kFreedMagic p 64 ltac:(lia) ltac:(unfold kFreedMagic; lia) ltac:(lia)) as Hx.
      exact Hx.
  - intros Hp i Hi. unfold shadow. pose proof (Hubuf i Hi) as Ha.
    rewrite Hfsh by (by apply (sl_shadow_not_app (P := linux_x86_64))).
    unfold m4, store64, store. rewrite (proj2 (in_range_false _ _ _)); [by apply Hsh|].
    intros Hin2. pose proof (sl_shadow_not_app (P := linux_x86_64) _ Ha) as Hna.
    set (x := MEM_TO_SHADOW linux_x86_64 (p + i)) in *.
    replace x with (raw + (x - raw)) in Hna by lia. rewrite Hbuf in Hna; [done|lia].
Qed.
End blocks.

(** ** Properties *)

(** A heap of one block, for the witnesses. *)
#[export] Instance one_block_ops : LibcHeapOps bool := {
  __libc_malloc h m n := if h && (0 <? n) && (n <=? 2 ^ 20) then (65536, (false, m)) else (0, (h, m));
  __libc_calloc h m k n :=
    if h && (0 <? n) && (n <=? 2 ^ 20) then (65536, (false, memset m 65536 0 n)) else (0, (h, m));
  __libc_free h m p := (true, m)
}.

#[export] Instance one_block_heap : LibcHeap bool linux_x86_64.
Proof.
  refine {| libc_block h p n := p = 65536 /\ 0 < n <= 2 ^ 20 |}.
  - intros h m n. cbn -[MEM_IS_APP Z.pow memset]. destruct (h && _ && _) eqn:E; [|split; [by intros|done]].
    bool_hyps. split; [|done]. intros _. split; [lia|split; [done|split; [lia|lia]]].
  - intros h m n. cbn -[MEM_IS_APP Z.pow memset]. destruct (h && _ && _) eqn:E; [|split; [by intros|done]].
    bool_hyps. split.
    + intros _. split; [lia|split; [done|split; [lia|split; [lia|]]]]. intros i Hi. rewrite memset_in by lia. done.
    + intros x Hx. apply memset_out. intros Hin.
      pose proof (app1_buffer 65536 n ltac:(lia) ltac:(lia) (x - 65536) ltac:(lia)) as Ha.
      rewrite Zplus_minus in Ha. congruence.
  - intros h m p n _. cbn. split; done.
Defined.


Definition glibc_world : World bool := world0 true (fun _ => 7).



