(* ===== verification/PassShadow.v ===== *)
(** * The shadow values the compiler pass emits

    [CompilerQEMUMemorySanitizerVisitor] (src/pass/CompilerQEMUMemorySanitizer.cpp)
    translates each LLVM value to a shadow value of a shadow type and emits the
    code that reduces a shadow to one bit and warns.  Here: shadow types
    ([getShadowTy]), the clean and poisoned constants, the reduction
    ([convertShadowToScalar], [convertToBool]), one emitted check
    ([materializeOneCheck]), the shadow address of an access with its shared
    base, and the memory orderings of instrumented atomics.  The emitted code is
    read as the function it computes on the run-time values; [flip] is the build
    option CQMSAN_FLIP_CONVENTION.

    LLVM itself is not part of the repository: the class [LLVM] holds the
    functions of it the pass calls, and [LLVMLaws] what is documented of them. *)

From S2P Require Import Prelude Layout UmrMap.

(** ** Types *)

(** [llvm::Type] as the pass distinguishes it: [TPrim] is a sized scalar that is
    not an integer (pointers and floating point), with its size in bits. *)
Inductive llvm_ty :=
| TUnsized
| TInt (w : Z)
| TPrim (bits : Z)
| TVec (scalable : bool) (n : Z) (elt_bits : Z)
| TArr (n : Z) (elt : llvm_ty)
| TStruct (packed : bool) (fields : list llvm_ty).

Inductive shadow_ty :=
| SInt (w : Z)
| SVec (scalable : bool) (n : Z) (w : Z)
| SArr (n : Z) (elt : shadow_ty)
| SStruct (packed : bool) (fields : list shadow_ty).

(** A run-time shadow value.  The lanes of a vector are listed from lane 0. *)
Inductive shadow :=
| VInt (w x : Z)
| VVec (scalable : bool) (w : Z) (lanes : list Z)
| VArr (items : list shadow)
| VStruct (items : list shadow).

Fixpoint getShadowTy (t : llvm_ty) : option shadow_ty :=
  match t with
  | TUnsized => None
  | TInt w => Some (SInt w)
  | TPrim bits => Some (SInt bits)
  | TVec scalable n elt_bits => Some (SVec scalable n elt_bits)
  | TArr n elt => SArr n <$> getShadowTy elt
  | TStruct packed fields => SStruct packed <$> mapM getShadowTy fields
  end.

(** ** What the pass uses of LLVM *)

Class LLVM := {
  (** [DataLayout::getTypeSizeInBits]: (scalable?, known minimum size). *)
  getTypeSizeInBits : shadow_ty -> bool * Z;
  Log2_32_Ceil : Z -> Z;
  isKnownNonZero : shadow -> bool
}.

(** ** Shadow values of a type

    [vscale] is the run-time multiple of the lanes of scalable vectors. *)

Definition lanes_of (vscale : Z) (scalable : bool) (n : Z) : Z :=
  if scalable then n * vscale else n.

Definition fits (w x : Z) : bool := (0 <=? x) && (x <? 2 ^ w).

Fixpoint has_ty (vscale : Z) (v : shadow) (t : shadow_ty) {struct v} : bool :=
  match v, t with
  | VInt w x, SInt w' => (w =? w') && (0 <? w) && fits w x
  | VVec sc w xs, SVec sc' n w' =>
      bool_decide (sc = sc') && (w =? w') && (0 <? w) &&
      (Z.of_nat (length xs) =? lanes_of vscale sc n) && forallb (fits w) xs
  | VArr vs, SArr n elt => (Z.of_nat (length vs) =? n) && forallb (fun v => has_ty vscale v elt) vs
  | VStruct vs, SStruct _ ts =>
      (fix fields vs ts := match vs, ts with
       | [], [] => true
       | v :: vs, t :: ts => has_ty vscale v t && fields vs ts
       | _, _ => false
       end) vs ts
  | _, _ => false
  end.

(** Every leaf holds [x w]: the null value and the all-ones value. *)
Fixpoint splat (vscale : Z) (x : Z -> Z) (t : shadow_ty) : shadow :=
  match t with
  | SInt w => VInt w (x w)
  | SVec sc n w => VVec sc w (replicate (Z.to_nat (lanes_of vscale sc n)) (x w))
  | SArr n elt => VArr (replicate (Z.to_nat n) (splat vscale x elt))
  | SStruct _ ts => VStruct (map (splat vscale x) ts)
  end.

Definition getNullValue (vscale : Z) : shadow_ty -> shadow := splat vscale (fun _ => 0).

Definition getAllOnesShadow (vscale : Z) : shadow_ty -> shadow := splat vscale Z.ones.

Definition getCleanShadow (flip : bool) (vscale : Z) (t : llvm_ty) : option shadow :=
  (if flip then getAllOnesShadow vscale else getNullValue vscale) <$> getShadowTy t.

Definition getPoisonedShadow (flip : bool) (vscale : Z) (t : shadow_ty) : shadow :=
  if flip then getNullValue vscale t else getAllOnesShadow vscale t.

(** ** Reduction of a shadow to one scalar *)

(** The bits of the lanes, lane 0 lowest: a little-endian bitcast. *)
Definition bitcast (w : Z) (lanes : list Z) : Z :=
  foldr (fun x rest => Z.lor x (Z.shiftl rest w)) 0 lanes.

Definition CreateOrReduce (lanes : list Z) : Z := foldr Z.lor 0 lanes.
Definition CreateAndReduce (w : Z) (lanes : list Z) : Z := foldr Z.land (Z.ones w) lanes.

(** The integer case of [convertToBool]: an i1 is left alone. *)
Definition int_to_bool (flip : bool) (i : Z * Z) : bool :=
  if i.1 =? 1 then negb (i.2 =? 0) else if flip then i.2 =? 0 else negb (i.2 =? 0).

(** The loop over the fields; [None] is the initial [FalseVal]. *)
Definition collapseStructShadow (bools : list bool) : Z * Z :=
  let agg := fold_left (fun agg b => Some (match agg with Some a => a || b | None => b end))
                       bools None in
  (1, Z.b2z (default false agg)).

Definition collapseArrayShadow (items : list (Z * Z)) : Z * Z :=
  match items with
  | [] => (1, 0)
  | first :: rest => (first.1, fold_left (fun agg i => Z.lor agg i.2) rest first.2)
  end.

(** The result is an integer: (width, value). *)
Fixpoint convertShadowToScalar (flip : bool) (v : shadow) : Z * Z :=
  match v with
  | VInt w x => (w, x)
  | VVec false w xs => (w * Z.of_nat (length xs), bitcast w xs)
  | VVec true w xs => (w, if flip then CreateAndReduce w xs else CreateOrReduce xs)
  | VArr vs => collapseArrayShadow (map (convertShadowToScalar flip) vs)
  | VStruct vs => collapseStructShadow (map (fun v => int_to_bool flip (convertShadowToScalar flip v)) vs)
  end.

Definition convertToBool (flip : bool) (v : shadow) : bool :=
  int_to_bool flip (convertShadowToScalar flip v).

(** The reduction of the helper [normalizeShadow], on integers and vectors. *)
Definition normalizeShadow (flip : bool) (v : shadow) : option bool :=
  match v with
  | VInt w x => Some (if flip then x =? 0 else negb (x =? 0))
  | VVec _ w xs => Some (if flip then CreateAndReduce w xs =? 0 else negb (CreateOrReduce xs =? 0))
  | _ => None
  end.

(** The specification: some bit of the value is uninitialised.  Which bits:
    1 is uninitialised, or 0 under the flipped convention. *)
Fixpoint has_poisoned_bit (flip : bool) (v : shadow) : bool :=
  match v with
  | VInt w x => existsb (fun i => xorb flip (Z.testbit x i)) (zrange w)
  | VVec _ w xs => existsb (fun x => existsb (fun i => xorb flip (Z.testbit x i)) (zrange w)) xs
  | VArr vs | VStruct vs => existsb (has_poisoned_bit flip) vs
  end.

(** The types with at least one bit. *)
Fixpoint has_bits (vscale : Z) (t : shadow_ty) : bool :=
  match t with
  | SInt w => 0 <? w
  | SVec sc n w => (0 <? lanes_of vscale sc n) && (0 <? w)
  | SArr n elt => (0 <? n) && has_bits vscale elt
  | SStruct _ ts => existsb (has_bits vscale) ts
  end.

Fixpoint wf_ty (vscale : Z) (t : shadow_ty) : bool :=
  match t with
  | SInt w => 0 <? w
  | SVec sc n w => (0 <=? lanes_of vscale sc n) && (0 <? w)
  | SArr n elt => (0 <=? n) && wf_ty vscale elt
  | SStruct _ ts => forallb (wf_ty vscale) ts
  end.

(** ** One emitted check *)

Definition kNumberOfAccessSizes : Z := 4.

Definition TypeSizeToSizeIndex `{LLVM} (TS : bool * Z) : Z :=
  if TS.1 then kNumberOfAccessSizes
  else if TS.2 <=? 8 then 0
  else Log2_32_Ceil ((TS.2 + 7) / 8).

Record PassOptions := mkPassOptions {
  ClInstrumentationWithCallThreshold : Z;
  ClCheckConstantShadow : bool;
  ClCoalescedIncrementalOr : bool;
  ClSharedShadowBase : bool;
  Recover : bool
}.

(** [instrumentWithCalls]: the answer and the new SplittableBlocksCount. *)
Definition instrumentWithCalls (o : PassOptions) (isConstant : bool) (count : Z) : bool * Z :=
  if isConstant then (false, count)
  else let count := count + 1 in
       ((0 <=? ClInstrumentationWithCallThreshold o) &&
        (ClInstrumentationWithCallThreshold o <? count), count).

(** The two forms of a check: a call to [__cqmsan_maybe_warning_N] with
    [N = 2^idx] bytes, or a compare and a branch to the warning. *)
Inductive check_code :=
| OutOfLine (idx : Z)
| Inline.

Definition materializeOneCheck `{LLVM} (o : PassOptions) (isConstant : bool) (t : shadow_ty)
    (count : Z) : check_code * Z :=
  let SizeIndex := TypeSizeToSizeIndex (getTypeSizeInBits t) in
  let '(calls, count) := instrumentWithCalls o isConstant count in
  if calls && (SizeIndex <? kNumberOfAccessSizes) then (OutOfLine SizeIndex, count)
  else (Inline, count).

(** Whether the emitted code warns on the run-time shadow [v].  The helper's
    parameter is an unsigned integer of [2^idx] bytes. *)
Definition check_fires (flip : bool) (code : check_code) (v : shadow) : bool :=
  match code with
  | OutOfLine idx => triggered flip ((convertShadowToScalar flip v).2 mod 2 ^ (8 * 2 ^ idx))
  | Inline => convertToBool flip v
  end.

(** ** Shadow addresses *)

Record MemoryMapParams := mkMapParams { AndMask : Z; XorMask : Z; ShadowBase : Z }.

Definition Linux_X86_64_MemoryMapParams : MemoryMapParams := mkMapParams 0 0x500000000000 0.

Definition getShadowPtrOffset (mp : MemoryMapParams) (addr : Z) : Z :=
  let off := if AndMask mp =? 0 then addr else Z.land addr (not64 (AndMask mp)) in
  if XorMask mp =? 0 then off else Z.lxor off (XorMask mp).

(** An SSA value, as far as dominance is concerned. *)
Inductive ir_value :=
| IRConstant (id : Z)
| IRInst (block index : Z).

#[export] Instance ir_value_eq_dec : EqDecision ir_value.
Proof. solve_decision. Defined.

(** The insertion point of the builder: before instruction [ip_index] of
    [ip_block] ([ip_end]: at the end of the block). *)
Record InsertPoint := mkIP { ip_block : Z; ip_index : Z; ip_end : bool }.

(** A cached shadow base: the emitted value and what it evaluates to. *)
Record cached := mkCached { c_value : ir_value; c_addr : Z }.

Definition shadowBaseUsableHere (c : cached) (ip : InsertPoint) : bool :=
  match c_value c with
  | IRConstant _ => true
  | IRInst b i => (b =? ip_block ip) && (ip_end ip || (i <? ip_index ip))
  end.

(** ShadowBaseCache, most recent entry first. *)
Definition base_cache := list (ir_value * cached).

Fixpoint cache_find (base : ir_value) (cache : base_cache) : option cached :=
  match cache with
  | [] => None
  | (b, c) :: cache => if decide (b = base) then Some c else cache_find base cache
  end.

(** The decomposition LLVM finds of an address: base value and constant offset. *)
Record decomposed := mkDec { d_base : ir_value; d_offset : Z }.

Section addresses.
Context (o : PassOptions) (mp : MemoryMapParams).
(** The run-time address of each SSA pointer, and LLVM's
    GetPointerBaseWithConstantOffset. *)
Context (addr_of : ir_value -> Z).
Context (GetPointerBaseWithConstantOffset : ir_value -> option decomposed).

(** The shadow pointer computed from the base, with the new cache; [new] is
    the value the builder creates if it has to. *)
Definition tryGetShadowPtrFromBase (addr : ir_value) (ip : InsertPoint) (new : ir_value)
    (cache : base_cache) : option Z * base_cache :=
  if negb (ClSharedShadowBase o) then (None, cache)
  else if negb (AndMask mp =? 0) || negb (ShadowBase mp =? 0) then (None, cache)
  else match GetPointerBaseWithConstantOffset addr with
  | None => (None, cache)
  | Some (mkDec base offset) =>
      if decide (base = addr) then (None, cache) else
      let usable := match cache_find base cache with
                    | Some c => if shadowBaseUsableHere c ip then Some c else None
                    | None => None
                    end in
      let '(c, cache) := match usable with
                         | Some c => (c, cache)
                         | None => let c := mkCached new (getShadowPtrOffset mp (addr_of base)) in
                                   (c, (base, c) :: cache)
                         end in
      (Some (if offset =? 0 then c_addr c else c_addr c +64 offset), cache)
  end.

Definition getShadowPtrUserspace (addr : ir_value) (ip : InsertPoint) (new : ir_value)
    (cache : base_cache) : Z * base_cache :=
  match tryGetShadowPtrFromBase addr ip new cache with
  | (Some shared, cache) => (shared, cache)
  | (None, cache) =>
      let off := getShadowPtrOffset mp (addr_of addr) in
      (if ShadowBase mp =? 0 then off else off +64 ShadowBase mp, cache)
  end.

(** The accesses of a function in the order they are instrumented. *)
Fixpoint shadow_ptrs (accesses : list (ir_value * InsertPoint * ir_value)) (cache : base_cache)
    : list Z :=
  match accesses with
  | [] => []
  | (addr, ip, new) :: accesses =>
      let '(p, cache) := getShadowPtrUserspace addr ip new cache in
      p :: shadow_ptrs accesses cache
  end.
End addresses.

(** ** Memory orderings *)

Inductive AtomicOrdering :=
| NotAtomic | Unordered | Monotonic | Acquire | Release | AcquireRelease | SequentiallyConsistent.

Definition addReleaseOrdering (a : AtomicOrdering) : AtomicOrdering :=
  match a with
  | NotAtomic => NotAtomic
  | Unordered | Monotonic | Release => Release
  | Acquire | AcquireRelease => AcquireRelease
  | SequentiallyConsistent => SequentiallyConsistent
  end.

Definition addAcquireOrdering (a : AtomicOrdering) : AtomicOrdering :=
  match a with
  | NotAtomic => NotAtomic
  | Unordered | Monotonic | Acquire => Acquire
  | Release | AcquireRelease => AcquireRelease
  | SequentiallyConsistent => SequentiallyConsistent
  end.

(** The C ABI encoding, [AtomicOrderingCABI]. *)
Inductive CABI := relaxed | consume | acquire | release | acq_rel | seq_cst.

#[export] Instance CABI_eq_dec : EqDecision CABI.
Proof. solve_decision. Defined.

Definition cabi_index (c : CABI) : nat :=
  match c with relaxed => 0 | consume => 1 | acquire => 2 | release => 3 | acq_rel => 4 | seq_cst => 5 end.

(** [OrderingTable[(int)i] = v] for each row, on a zeroed table. *)
Definition fill_table (rows : list (CABI * CABI)) : list CABI :=
  fold_left (fun t r => <[cabi_index r.1 := r.2]> t) rows (replicate 6 relaxed).

Definition makeAddReleaseOrderingTable : list CABI :=
  fill_table [(relaxed, release); (release, release); (consume, acq_rel); (acquire, acq_rel);
              (acq_rel, acq_rel); (seq_cst, seq_cst)].

Definition makeAddAcquireOrderingTable : list CABI :=
  fill_table [(relaxed, acquire); (acquire, acquire); (consume, acquire); (release, acq_rel);
              (acq_rel, acq_rel); (seq_cst, seq_cst)].

(** ** Documented behaviour of LLVM *)

(** An aggregate that holds a scalable vector is scalable. *)
Fixpoint scalable_ty (t : shadow_ty) : bool :=
  match t with
  | SInt _ => false
  | SVec sc _ _ => sc
  | SArr _ elt => scalable_ty elt
  | SStruct _ ts => existsb scalable_ty ts
  end.

Class LLVMLaws (L : LLVM) : Prop := {
  size_scalable t : (getTypeSizeInBits t).1 = scalable_ty t;
  size_int w : (getTypeSizeInBits (SInt w)).2 = w;
  size_vec n w : (getTypeSizeInBits (SVec false n w)).2 = n * w;
  (** an array is laid out as its elements, each with its padding *)
  size_arr n elt : 0 <= n -> n * (getTypeSizeInBits elt).2 <= (getTypeSizeInBits (SArr n elt)).2;
  log2_ceil x : 0 < x -> 0 <= Log2_32_Ceil x /\ x <= 2 ^ Log2_32_Ceil x;
  known_nonzero v : isKnownNonZero v = true -> has_poisoned_bit false v = true
}.

(** ** Induction on shadows and shadow types *)

Lemma shadow_ind' (P : shadow -> Prop) :
  (forall w x, P (VInt w x)) -> (forall sc w xs, P (VVec sc w xs)) ->
  (forall vs, Forall P vs -> P (VArr vs)) -> (forall vs, Forall P vs -> P (VStruct vs)) ->
  forall v, P v.
Proof.
  intros HI HV HA HS. fix IH 1. intros [w x|sc w xs|vs|vs].
  - apply HI.
  - apply HV.
  - apply HA. induction vs as [|v vs IHl]; constructor; [apply IH|exact IHl].
  - apply HS. induction vs as [|v vs IHl]; constructor; [apply IH|exact IHl].
Qed.

Lemma shadow_ty_ind' (P : shadow_ty -> Prop) :
  (forall w, P (SInt w)) -> (forall sc n w, P (SVec sc n w)) ->
  (forall n t, P t -> P (SArr n t)) -> (forall p ts, Forall P ts -> P (SStruct p ts)) ->
  forall t, P t.
Proof.
  intros HI HV HA HS. fix IH 1. intros [w|sc n w|n t|p ts].
  - apply HI.
  - apply HV.
  - apply HA, IH.
  - apply HS. induction ts as [|t ts IHl]; constructor; [apply IH|exact IHl].
Qed.

Lemma has_ty_struct vscale vs p ts :
  has_ty vscale (VStruct vs) (SStruct p ts) = true <->
  Forall2 (fun v t => has_ty vscale v t = true) vs ts.
Proof.
  cbn. revert ts. induction vs as [|v vs IH]; intros [|t ts]; split; try done.
  - by inversion 1.
  - by inversion 1.
  - intros [H1 H2]%andb_true_iff. constructor; [done|]. by apply IH.
  - intros H. inversion H as [|? ? ? ? H1 H2]; subst. rewrite H1. by apply IH.
Qed.

(** ** The reduction computes the specification *)

(** An integer of [w] bits is nonzero when one of its bits is set. *)
Lemma nonzero_bits w x :
  fits w x = true -> negb (x =? 0) = existsb (fun i => xorb false (Z.testbit x i)) (zrange w).
Proof.
  intros [H0 Hw]%andb_true_iff. bool_hyps. apply eq_true_iff_eq. cbn [xorb].
  rewrite negb_true_iff, Z.eqb_neq, existsb_exists_elem. split.
  - intros Hx. exists (Z.log2 x). split; [|apply Z.bit_log2; lia].
    apply elem_of_zrange. split; [apply Z.log2_nonneg|]. apply Z.log2_lt_pow2; lia.
  - intros (i & _ & Hi) ->. by rewrite Z.bits_0 in Hi.
Qed.

Lemma lor_nonzero a b : negb (Z.lor a b =? 0) = negb (a =? 0) || negb (b =? 0).
Proof.
  apply eq_true_iff_eq. rewrite orb_true_iff, !negb_true_iff, !Z.eqb_neq, Z.lor_eq_0_iff. lia.
Qed.

Lemma shiftl_nonzero a w : 0 <= w -> negb (Z.shiftl a w =? 0) = negb (a =? 0).
Proof.
  intros Hw. f_equal. apply eq_true_iff_eq. rewrite !Z.eqb_eq, Z.shiftl_mul_pow2 by done.
  pose proof (Z.pow_pos_nonneg 2 w). nia.
Qed.

Lemma bitcast_nonzero w xs : 0 < w ->
  negb (bitcast w xs =? 0) = existsb (fun x => negb (x =? 0)) xs.
Proof.
  intros Hw. induction xs as [|x xs IH]; [done|]. cbn [bitcast foldr existsb].
  by rewrite lor_nonzero, shiftl_nonzero, <- IH by lia.
Qed.

Lemma or_reduce_nonzero xs : negb (CreateOrReduce xs =? 0) = existsb (fun x => negb (x =? 0)) xs.
Proof.
  induction xs as [|x xs IH]; [done|]. cbn [CreateOrReduce foldr existsb].
  by rewrite lor_nonzero, <- IH.
Qed.

Lemma fold_or_struct bs b :
  fold_left (fun agg b => Some (match agg with Some a => a || b | None => b end)) bs (Some b)
  = Some (b || existsb id bs).
Proof.
  revert b. induction bs as [|c bs IH]; intros b; cbn; [by rewrite orb_false_r|].
  by rewrite IH, orb_assoc.
Qed.

Lemma collapseStruct_value bs : collapseStructShadow bs = (1, Z.b2z (existsb id bs)).
Proof. unfold collapseStructShadow. destruct bs as [|b bs]; [done|]. cbn. by rewrite fold_or_struct. Qed.

Lemma fold_or_array rest a :
  negb (fold_left (fun agg (i : Z * Z) => Z.lor agg i.2) rest a =? 0)
  = negb (a =? 0) || existsb (fun i : Z * Z => negb (i.2 =? 0)) rest.
Proof.
  revert a. induction rest as [|i rest IH]; intros a; cbn; [by rewrite orb_false_r|].
  by rewrite IH, lor_nonzero, orb_assoc.
Qed.

Lemma collapseArray_nonzero items :
  negb ((collapseArrayShadow items).2 =? 0) = existsb (fun i : Z * Z => negb (i.2 =? 0)) items.
Proof. destruct items as [|i items]; [done|]. cbn. by rewrite fold_or_array. Qed.

Lemma int_to_bool_false i : int_to_bool false i = negb (i.2 =? 0).
Proof. unfold int_to_bool. by destruct (i.1 =? 1). Qed.

Lemma b2z_nonzero b : negb (Z.b2z b =? 0) = b.
Proof. by destruct b. Qed.

Lemma existsb_map {A B} (f : A -> B) (p : B -> bool) l :
  existsb p (map f l) = existsb (fun x => p (f x)) l.
Proof. induction l as [|x l IH]; [done|]. cbn. by rewrite IH. Qed.

Lemma existsb_ext_Forall {A} (f g : A -> bool) l :
  Forall (fun x => f x = g x) l -> existsb f l = existsb g l.
Proof. induction 1 as [|x l H _ IH]; [done|]. cbn. by rewrite H, IH. Qed.

(** The scalar form is nonzero exactly when some bit is poisoned. *)
Lemma scalar_nonzero vscale v t :
  has_ty vscale v t = true ->
  negb ((convertShadowToScalar false v).2 =? 0) = has_poisoned_bit false v.
Proof.
  revert t. induction v as [w x|sc w xs|vs IH|vs IH] using shadow_ind'; intros t Ht.
  - destruct t; try done. cbn in Ht. bool_hyps. by apply nonzero_bits.
  - destruct t as [|sc' n w'| |]; try done. cbn in Ht. bool_hyps.
    transitivity (existsb (fun x => negb (x =? 0)) xs).
    + destruct sc; [apply or_reduce_nonzero|by apply bitcast_nonzero].
    + cbn [has_poisoned_bit]. apply existsb_ext_Forall, Forall_forall. intros x Hx.
      apply nonzero_bits. apply (forallb_forall (fits w) xs); [done|]. exact Hx.
  - destruct t as [| |n elt|]; try done. cbn in Ht. bool_hyps.
    cbn [convertShadowToScalar has_poisoned_bit]. rewrite collapseArray_nonzero, existsb_map.
    apply existsb_ext_Forall, Forall_forall. intros v Hv. rewrite Forall_forall in IH.
    apply (IH v Hv elt). eapply (forallb_forall (fun v => has_ty vscale v elt) vs); [done|]. exact Hv.
  - destruct t as [| | |p ts]; try done. apply has_ty_struct in Ht.
    cbn [convertShadowToScalar has_poisoned_bit].
    rewrite collapseStruct_value. cbn [snd]. rewrite b2z_nonzero, existsb_map.
    apply existsb_ext_Forall, Forall_lookup. intros i v Hv.
    destruct (Forall2_lookup_l _ _ _ _ _ Ht Hv) as (t & _ & Hvt).
    unfold id. rewrite int_to_bool_false.
    rewrite Forall_lookup in IH. by eapply (IH i).
Qed.

Lemma convertToBool_spec vscale v t :
  has_ty vscale v t = true -> convertToBool false v = has_poisoned_bit false v.
Proof. intros Ht. unfold convertToBool. rewrite int_to_bool_false. by eapply scalar_nonzero. Qed.

(** ** Constants *)

Lemma has_ty_splat vscale f t :
  wf_ty vscale t = true -> (forall w, 0 < w -> fits w (f w) = true) ->
  has_ty vscale (splat vscale f t) t = true.
Proof.
  intros Hwf Hf. induction t as [w|sc n w|n t IH|p ts IH] using shadow_ty_ind'; cbn in Hwf.
  - bool_hyps. cbn. bool_goal; [lia|lia|]. by apply Hf.
  - bool_hyps. cbn. bool_goal; [by apply bool_decide_eq_true|lia|lia| |].
    + rewrite length_replicate. lia.
    + apply forallb_forall. intros x Hx%list_elem_of_In%elem_of_replicate_inv. subst. by apply Hf.
  - bool_hyps. cbn. bool_goal; [rewrite length_replicate; lia|].
    apply forallb_forall. intros v Hv%list_elem_of_In%elem_of_replicate_inv. subst. by apply IH.
  - apply has_ty_struct. induction IH as [|t ts Ht _ IHts]; [constructor|].
    cbn in Hwf. bool_hyps. constructor; [by apply Ht|by apply IHts].
Qed.

Lemma fits_0 w : 0 < w -> fits w 0 = true.
Proof. intros Hw. unfold fits. pose proof (Z.pow_pos_nonneg 2 w). bool_goal; lia. Qed.

Lemma fits_ones w : 0 < w -> fits w (Z.ones w) = true.
Proof.
  intros Hw. unfold fits. rewrite Z.ones_equiv. pose proof (Z.pow_pos_nonneg 2 w). bool_goal; lia.
Qed.

Lemma existsb_false {A} (f : A -> bool) l : (forall x, x ∈ l -> f x = false) -> existsb f l = false.
Proof.
  intros H. destruct (existsb f l) eqn:E; [|done].
  apply existsb_exists_elem in E as (x & Hx & Hf). by rewrite (H x Hx) in Hf.
Qed.

(** A splat none of whose bits is poisoned, and one all of whose bits are. *)
Lemma poisoned_splat_false vscale flip f t :
  (forall w i, 0 <= i < w -> Z.testbit (f w) i = flip) ->
  has_poisoned_bit flip (splat vscale f t) = false.
Proof.
  intros Hf.
  assert (forall w, existsb (fun i => xorb flip (Z.testbit (f w) i)) (zrange w) = false) as Hw.
  { intros w. apply existsb_false. intros i Hi%elem_of_zrange. rewrite Hf by done. by destruct flip. }
  induction t as [w|sc n w|n t IH|p ts IH] using shadow_ty_ind'; cbn.
  - apply Hw.
  - apply existsb_false. intros x Hx%elem_of_replicate_inv. subst. apply Hw.
  - apply existsb_false. by intros v ->%elem_of_replicate_inv.
  - apply existsb_false. intros v Hv%list_elem_of_fmap. destruct Hv as (t & -> & Ht).
    rewrite List.Forall_forall in IH. by apply IH, list_elem_of_In.
Qed.

Lemma replicate_existsb {A} (f : A -> bool) n x :
  0 < n -> f x = true -> existsb f (replicate (Z.to_nat n) x) = true.
Proof.
  intros Hn Hf. apply existsb_exists_elem. exists x. split; [|done]. apply elem_of_replicate. split; [done|lia].
Qed.

Lemma poisoned_splat_true vscale flip f t :
  has_bits vscale t = true -> (forall w i, 0 <= i < w -> Z.testbit (f w) i = negb flip) ->
  has_poisoned_bit flip (splat vscale f t) = true.
Proof.
  intros Hb Hf.
  assert (forall w, 0 < w -> existsb (fun i => xorb flip (Z.testbit (f w) i)) (zrange w) = true) as Hw.
  { intros w Hw. apply existsb_exists_elem. exists 0. split; [by apply elem_of_zrange|].
    rewrite Hf by lia. by destruct flip. }
  induction t as [w|sc n w|n t IH|p ts IH] using shadow_ty_ind'; cbn in Hb |- *.
  - bool_hyps. by apply Hw.
  - bool_hyps. apply replicate_existsb; [done|]. by apply Hw.
  - bool_hyps. apply replicate_existsb; [done|]. by apply IH.
  - apply existsb_exists_elem in Hb as (t & Ht & Hbt). apply existsb_exists_elem.
    exists (splat vscale f t). split; [by apply list_elem_of_fmap_2|].
    rewrite List.Forall_forall in IH. apply IH; [by apply list_elem_of_In|done].
Qed.

(** ** The size classes of the out-of-line helpers *)

(** The width [convertShadowToScalar] produces for a type. *)
Fixpoint scalar_width (t : shadow_ty) : Z :=
  match t with
  | SInt w => w
  | SVec sc n w => if sc then w else n * w
  | SArr n elt => if n =? 0 then 1 else scalar_width elt
  | SStruct _ _ => 1
  end.

Lemma bitcast_fits w xs :
  0 <= w -> forallb (fits w) xs = true -> fits (w * Z.of_nat (length xs)) (bitcast w xs) = true.
Proof.
  intros Hw. unfold fits.
  enough (forallb (fits w) xs = true -> 0 <= bitcast w xs < 2 ^ (w * Z.of_nat (length xs))) as H.
  { intros Hx%H. bool_goal; lia. }
  induction xs as [|x xs IH]; intros H; cbn [forallb] in H; [cbn; lia|].
  unfold fits in H at 1. bool_hyps. cbn [bitcast foldr length].
  specialize (IH ltac:(done)). fold (bitcast w xs).
  replace (w * Z.of_nat (S (length xs))) with (w * Z.of_nat (length xs) + w) by lia.
  rewrite Z.pow_add_r by lia. rewrite Z.shiftl_mul_pow2 by lia.
  rewrite <- (Z.mod_small x (2 ^ w)) by lia.
  rewrite <- Z.land_ones, <- Z.shiftl_mul_pow2 by lia.
  assert (Z.lor (Z.land x (Z.ones w)) (Z.shiftl (bitcast w xs) w)
          = Z.land x (Z.ones w) + Z.shiftl (bitcast w xs) w) as ->.
  { symmetry. rewrite <- Z.lxor_lor, Z.add_nocarry_lxor; [done| |];
      (rewrite Z.land_comm, Z.land_assoc, land_ones_multiple by lia; apply Z.land_0_l)
      || (rewrite <- Z.land_assoc, (Z.land_comm (Z.ones w)), land_ones_multiple by lia;
          apply Z.land_0_r). }
  rewrite Z.land_ones, Z.shiftl_mul_pow2 by lia. rewrite Z.mod_small by lia. nia.
Qed.

Lemma log2_fits w a : fits w a = true -> a <> 0 -> Z.log2 a < w.
Proof. unfold fits. intros Ha Hne. bool_hyps. apply Z.log2_lt_pow2; lia. Qed.

Lemma fits_lor w a b : fits w a = true -> fits w b = true -> fits w (Z.lor a b) = true.
Proof.
  intros Ha Hb.
  destruct (Z.eq_dec a 0) as [->|Hna]; [by rewrite Z.lor_0_l|].
  destruct (Z.eq_dec b 0) as [->|Hnb]; [by rewrite Z.lor_0_r|].
  pose proof (log2_fits w a Ha Hna). pose proof (log2_fits w b Hb Hnb).
  unfold fits in *. bool_hyps. assert (0 <= Z.lor a b) by (apply Z.lor_nonneg; lia).
  bool_goal; [done|]. apply Z.log2_lt_pow2; [|rewrite Z.log2_lor; lia].
  enough (Z.lor a b <> 0) by lia. rewrite Z.lor_eq_0_iff. lia.
Qed.

Lemma fits_land w a b : 0 <= w -> fits w a = true -> fits w b = true -> fits w (Z.land a b) = true.
Proof.
  unfold fits. intros Hw Ha Hb. bool_hyps. pose proof (land_range a b w). bool_goal; lia.
Qed.

Lemma fits_mono w w' x : w <= w' -> fits w x = true -> fits w' x = true.
Proof.
  unfold fits. intros Hw H. bool_hyps. pose proof (Z.pow_le_mono_r 2 w w').
  bool_goal; lia.
Qed.

Lemma or_reduce_fits w xs : 0 < w -> forallb (fits w) xs = true -> fits w (CreateOrReduce xs) = true.
Proof.
  intros Hw. induction xs as [|x xs IH]; cbn; intros H; [by apply fits_0|].
  bool_hyps. apply fits_lor; [done|by apply IH].
Qed.

Lemma and_reduce_fits w xs : 0 < w -> forallb (fits w) xs = true -> fits w (CreateAndReduce w xs) = true.
Proof.
  intros Hw. induction xs as [|x xs IH]; cbn; intros H; [by apply fits_ones|].
  bool_hyps. apply fits_land; [lia|done|by apply IH].
Qed.

Lemma scalar_fits flip vscale v t :
  has_ty vscale v t = true -> fits (scalar_width t) (convertShadowToScalar flip v).2 = true.
Proof.
  revert t. induction v as [w x|sc w xs|vs IH|vs IH] using shadow_ind'; intros t Ht.
  - destruct t; try done. cbn in Ht. bool_hyps. by subst.
  - destruct t as [|sc' n w'| |]; try done. cbn in Ht. bool_hyps.
    repeat match goal with H : bool_decide _ = true |- _ => apply bool_decide_eq_true in H end.
    subst. cbn [scalar_width convertShadowToScalar]. destruct sc'; cbn [lanes_of] in *.
    + destruct flip; cbn [snd]; [by apply and_reduce_fits|by apply or_reduce_fits].
    + cbn [snd]. rewrite Z.mul_comm.
      match goal with H : Z.of_nat _ = n |- _ => rewrite <- H end. apply bitcast_fits; [lia|done].
  - destruct t as [| |n elt|]; try done. cbn in Ht. bool_hyps.
    cbn [convertShadowToScalar scalar_width].
    assert (Forall (fun i : Z * Z => fits (scalar_width elt) i.2 = true)
                   (map (convertShadowToScalar flip) vs)) as Hall.
    { apply Forall_fmap, Forall_lookup. intros i v Hv. rewrite Forall_lookup in IH. cbn.
      apply (IH i v Hv). apply (forallb_forall (fun v => has_ty vscale v elt) vs); [done|].
      apply list_elem_of_In. by eapply list_elem_of_lookup_2. }
    destruct vs as [|v vs]; cbn [length] in *; [subst; by cbn|].
    destruct (Z.eqb_spec n 0); [lia|].
    cbn [map collapseArrayShadow snd] in *. inversion Hall as [|? ? Hfirst Hrest]; subst. clear -Hfirst Hrest.
    revert Hfirst. generalize (convertShadowToScalar flip v).2.
    induction Hrest as [|i rest Hi _ IH]; intros a Ha; cbn; [done|]. apply IH. by apply fits_lor.
  - destruct t as [| | |p ts]; try done. cbn [convertShadowToScalar scalar_width].
    rewrite collapseStruct_value. cbn [snd].
    match goal with |- context [existsb id ?l] => by destruct (existsb id l) end.
Qed.

Section checks.
Context {L : LLVM} {LL : LLVMLaws L}.

Lemma scalar_width_size vscale t v :
  has_ty vscale v t = true -> scalable_ty t = false ->
  scalar_width t <= Z.max 8 (getTypeSizeInBits t).2.
Proof.
  revert v. induction t as [w|sc n w|n t IH|p ts IH] using shadow_ty_ind'; intros v Hv Hs.
  - cbn. rewrite size_int. lia.
  - cbn in Hs |- *. subst. rewrite size_vec. lia.
  - cbn in Hs |- *. destruct (Z.eqb_spec n 0); [lia|].
    destruct v as [| |vs|]; try done. cbn in Hv. bool_hyps. destruct vs as [|v vs]; [cbn in *; lia|].
    cbn [forallb] in *. bool_hyps. specialize (IH v ltac:(done) Hs).
    pose proof (size_arr n t). cbn [length] in *. nia.
  - cbn. lia.
Qed.

(** The helper chosen for a type is wide enough for its scalar shadow. *)
Lemma size_index_fits vscale t v flip :
  has_ty vscale v t = true ->
  TypeSizeToSizeIndex (getTypeSizeInBits t) < kNumberOfAccessSizes ->
  0 <= TypeSizeToSizeIndex (getTypeSizeInBits t) /\
  fits (8 * 2 ^ TypeSizeToSizeIndex (getTypeSizeInBits t)) (convertShadowToScalar flip v).2 = true.
Proof.
  unfold TypeSizeToSizeIndex. rewrite size_scalable. intros Hv.
  destruct (scalable_ty t) eqn:Hs; [unfold kNumberOfAccessSizes; lia|].
  pose proof (scalar_width_size vscale t v Hv Hs) as Hw.
  destruct (Z.leb_spec (getTypeSizeInBits t).2 8) as [Hle|Hgt].
  - intros _. split; [lia|]. eapply fits_mono; [|by eapply scalar_fits]. change (8 * 2 ^ 0) with 8. lia.
  - intros _. destruct (log2_ceil (((getTypeSizeInBits t).2 + 7) / 8)) as [Hl1 Hl2];
      [apply Z.div_str_pos; lia|].
    split; [done|]. eapply fits_mono; [|by eapply scalar_fits].
    pose proof (Z.div_mod ((getTypeSizeInBits t).2 + 7) 8). pose proof (Z.mod_pos_bound ((getTypeSizeInBits t).2 + 7) 8).
    lia.
Qed.

Lemma triggered_exact vscale t v :
  has_ty vscale v t = true ->
  TypeSizeToSizeIndex (getTypeSizeInBits t) < kNumberOfAccessSizes ->
  check_fires false (OutOfLine (TypeSizeToSizeIndex (getTypeSizeInBits t))) v = has_poisoned_bit false v.
Proof.
  intros Hv Hidx. destruct (size_index_fits vscale t v false Hv Hidx) as [_ Hfits].
  cbn [check_fires]. unfold fits in Hfits. bool_hyps. rewrite Z.mod_small by lia.
  by apply (scalar_nonzero vscale v t).
Qed.

Lemma one_check_fires o isConstant vscale t v count :
  has_ty vscale v t = true ->
  check_fires false (materializeOneCheck o isConstant t count).1 v = has_poisoned_bit false v.
Proof.
  intros Hv. unfold materializeOneCheck. destruct (instrumentWithCalls o isConstant count) as [[] n];
    cbn [andb]; [|by eapply convertToBool_spec].
  destruct (Z.ltb_spec (TypeSizeToSizeIndex (getTypeSizeInBits t)) kNumberOfAccessSizes) as [H|H].
  - by eapply triggered_exact.
  - by eapply convertToBool_spec.
Qed.
End checks.

(** ** An LLVM to evaluate the model with: aggregates without padding *)

Fixpoint packed_size (t : shadow_ty) : Z :=
  match t with
  | SInt w => w
  | SVec _ n w => n * w
  | SArr n elt => n * packed_size elt
  | SStruct _ ts => foldr (fun t n => packed_size t + n) 0 ts
  end.

#[export] Instance packed_llvm : LLVM := {|
  getTypeSizeInBits t := (scalable_ty t, packed_size t);
  Log2_32_Ceil := Z.log2_up;
  isKnownNonZero v := match v with VInt _ _ => has_poisoned_bit false v | _ => false end
|}.

#[export] Instance packed_llvm_laws : LLVMLaws packed_llvm.
Proof.
  split; try done.
  - intros x Hx. split; [apply Z.log2_up_nonneg|].
    destruct (Z.eq_dec x 1) as [->|]; [done|]. apply Z.log2_up_spec. lia.
  - by intros [].
Qed.

(** ** Properties *)

(** C11: the code the pass emits to test a shadow answers exactly whether some
    bit of it is uninitialised, for every shadow type: integers, fixed and
    scalable vectors, arrays and structs nested at will, empty ones included.
    On integers and vectors the second reduction, [normalizeShadow], agrees. *)
Theorem convertToBool_exact vscale v t :
  has_ty vscale v t = true ->
  convertToBool false v = has_poisoned_bit false v /\
  forall b, normalizeShadow false v = Some b -> b = has_poisoned_bit false v.
Proof.
  intros Hv. split; [by eapply convertToBool_spec|]. intros b Hb.
  rewrite <- (convertToBool_spec vscale v t Hv). unfold convertToBool.
  destruct v as [w x|sc w xs| |]; try done; injection Hb as <-; rewrite int_to_bool_false; [done|].
  cbn [convertShadowToScalar]. destruct sc; [done|]. cbn [snd].
  destruct t as [|sc' n w'| |]; try done. cbn in Hv. bool_hyps.
  by rewrite or_reduce_nonzero, bitcast_nonzero.
Qed.

Definition nested_shadow : shadow :=
  VStruct [VInt 1 0; VArr [VStruct [VInt 32 0; VVec false 8 [0; 0; 4; 0]]; VStruct [VInt 32 0; VVec false 8 [0; 0; 0; 0]]];
           VArr []].
Definition nested_ty : shadow_ty :=
  SStruct false [SInt 1; SArr 2 (SStruct false [SInt 32; SVec false 4 8]); SArr 0 (SInt 64)].

Lemma convertToBool_exact_witness :
  convertToBool false nested_shadow = true /\ has_poisoned_bit false nested_shadow = true.
Proof.
  assert (has_ty 1 nested_shadow nested_ty = true) as Ht by reflexivity.
  destruct (convertToBool_exact 1 nested_shadow nested_ty Ht) as [H _]. split; [exact H|reflexivity].
Defined.

(** the constants the pass materialises are values of the shadow type; under
    either convention the clean shadow has no uninitialised bit, and every bit
    of the poisoned one is uninitialised as long as the type has one. *)
Theorem shadow_constants flip vscale t s :
  getShadowTy t = Some s -> wf_ty vscale s = true ->
  (exists c, getCleanShadow flip vscale t = Some c /\ has_ty vscale c s = true /\
             has_poisoned_bit flip c = false) /\
  has_ty vscale (getPoisonedShadow flip vscale s) s = true /\
  (has_bits vscale s = true -> has_poisoned_bit flip (getPoisonedShadow flip vscale s) = true).
Proof.
  intros Hs Hwf.
  assert (forall w i, 0 <= i < w -> Z.testbit (Z.ones w) i = true) as Hones
    by (intros; by apply Z.ones_spec_low).
  assert (forall w i : Z, 0 <= i < w -> Z.testbit 0 i = false) as Hzero by (intros; apply Z.bits_0).
  unfold getCleanShadow, getPoisonedShadow, getAllOnesShadow, getNullValue. rewrite Hs.
  split_and!.
  - eexists. split; [reflexivity|]. destruct flip; split.
    1,3: apply has_ty_splat; auto using fits_0, fits_ones.
    all: by apply poisoned_splat_false.
  - destruct flip; apply has_ty_splat; auto using fits_0, fits_ones.
  - intros Hb. destruct flip; by apply poisoned_splat_true.
Qed.

Lemma shadow_constants_witness :
  has_poisoned_bit false (getPoisonedShadow false 1 nested_ty) = true.
Proof.
  destruct (shadow_constants false 1
    (TStruct false [TInt 1; TArr 2 (TStruct false [TPrim 32; TVec false 4 8]); TArr 0 (TPrim 64)])
    nested_ty) as (_ & _ & H); [reflexivity|reflexivity|]. apply H. reflexivity.
Defined.

(** C10: whatever the threshold and the number of checks already emitted, the
    check the pass emits for a shadow warns exactly when a bit of the shadow is
    uninitialised: the branch and the call to [__cqmsan_maybe_warning_N] agree,
    and the helper picked by the size index is wide enough that no shadow bit is
    lost in its parameter. *)
Theorem materializeOneCheck_exact `{LLVMLaws} o isConstant vscale t v count :
  has_ty vscale v t = true ->
  check_fires false (materializeOneCheck o isConstant t count).1 v = has_poisoned_bit false v /\
  forall idx, (materializeOneCheck o isConstant t count).1 = OutOfLine idx ->
    0 <= idx < 4 /\ 0 <= (convertShadowToScalar false v).2 < 2 ^ (8 * 2 ^ idx).
Proof.
  intros Hv. split; [by eapply one_check_fires|]. intros idx.
  unfold materializeOneCheck. destruct (instrumentWithCalls o isConstant count) as [calls n].
  destruct (calls && _) eqn:E; [|discriminate]. cbn [fst]. intros [= <-]. bool_hyps.
  destruct (size_index_fits vscale t v false Hv) as [Hidx Hf]; [done|].
  unfold kNumberOfAccessSizes, fits in *. bool_hyps. lia.
Qed.

Definition options0 : PassOptions := mkPassOptions 0 true true true true.

Lemma materializeOneCheck_exact_witness :
  (materializeOneCheck options0 false (SVec false 3 8) 0).1 = OutOfLine 2 /\
  check_fires false (OutOfLine 2) (VVec false 8 [0; 0; 128]) = true.
Proof.
  split; [reflexivity|].
  destruct (materializeOneCheck_exact options0 false 1 (SVec false 3 8) (VVec false 8 [0; 0; 128]) 0) as [H _];
    [reflexivity|]. exact H.
Defined.

(** built with CQMSAN_FLIP_CONVENTION (0 is uninitialised) the emitted
    reduction is not flip-aware in three places: an array with a fully
    uninitialised element is not reported if another element is not zero, the
    shadow of an i1 is reported exactly when it is clean, and a check that was
    reduced to one bit and goes through an out-of-line helper is inverted. *)
Theorem flip_reduction_misreports w x b :
  1 < w -> x <> 0 ->
  (has_poisoned_bit true (VInt w 0) = true /\
   convertToBool true (VArr [VInt w 0; VInt w x]) = false) /\
  convertToBool true (getAllOnesShadow 1 (SInt 1)) = true /\
  convertToBool true (getNullValue 1 (SInt 1)) = false /\
  check_fires true (OutOfLine 0) (VInt 1 (Z.b2z b)) = negb b.
Proof.
  intros Hw Hx. split_and!; [| |reflexivity|reflexivity|by destruct b].
  - cbn. apply existsb_exists_elem. exists 0. split; [by apply elem_of_zrange; lia|].
    by rewrite Z.bits_0.
  - unfold convertToBool, int_to_bool. cbn [map convertShadowToScalar collapseArrayShadow fold_left fst snd].
    rewrite Z.lor_0_l. zcase; by (lia || done).
Qed.

Lemma flip_reduction_misreports_witness :
  convertToBool true (VArr [VInt 32 0; VInt 32 (2 ^ 32 - 1)]) = false.
Proof.
  destruct (flip_reduction_misreports 32 (2 ^ 32 - 1) true) as [[_ H] _]; [reflexivity|discriminate|].
  exact H.
Defined.

(** *** Shadow addresses *)

Lemma x86_offset_is_MEM_TO_SHADOW addr :
  getShadowPtrOffset Linux_X86_64_MemoryMapParams addr = MEM_TO_SHADOW linux_x86_64 addr.
Proof. reflexivity. Qed.

(** Two addresses of one application buffer are as far apart as their shadows. *)
Lemma x86_same_buffer a n p q :
  app_buffer linux_x86_64 a n -> a <= p < a + n -> a <= q < a + n ->
  MEM_TO_SHADOW linux_x86_64 p +64 (q - p) = MEM_TO_SHADOW linux_x86_64 q.
Proof.
  intros Hb Hp Hq.
  destruct (x86_contiguous a n (p - a) Hb) as [Ep _]; [lia|].
  destruct (x86_contiguous a n (q - a) Hb) as [Eq _]; [lia|].
  rewrite Zplus_minus in Ep, Eq. rewrite Ep, Eq.
  replace (MEM_TO_SHADOW linux_x86_64 a + (p - a) + (q - p)) with (MEM_TO_SHADOW linux_x86_64 a + (q - a)) by lia.
  rewrite <- Eq. apply u64_small.
  assert (MEM_IS_APP linux_x86_64 q = true) as Happ.
  { specialize (Hb (q - a) ltac:(lia)). by rewrite Zplus_minus in Hb. }
  apply x86_shadow_value in Happ. lia.
Qed.

Section shared_base.
Context (o : PassOptions) (addr_of : ir_value -> Z).
Context (GetPointerBaseWithConstantOffset : ir_value -> option decomposed).
Notation find_base := GetPointerBaseWithConstantOffset.

(** What LLVM promises of an inbounds decomposition: base and address are in
    one object of application memory, [offset] bytes apart. *)
Definition inbounds (addr : ir_value) : Prop :=
  forall base offset, find_base addr = Some (mkDec base offset) ->
    addr_of addr = addr_of base + offset /\
    exists a n, app_buffer linux_x86_64 a n /\
      a <= addr_of base < a + n /\ a <= addr_of addr < a + n.

Definition cache_ok (cache : base_cache) : Prop :=
  forall base c, cache_find base cache = Some c ->
    c_addr c = MEM_TO_SHADOW linux_x86_64 (addr_of base).

Lemma cache_ok_add cache base new :
  cache_ok cache ->
  cache_ok ((base, mkCached new (getShadowPtrOffset Linux_X86_64_MemoryMapParams (addr_of base))) :: cache).
Proof.
  intros Hc b c. cbn [cache_find]. case_decide as Hb; [|apply Hc].
  intros [= <-]. by subst.
Qed.

Lemma shared_ptr_exact addr ip new cache p cache' :
  inbounds addr -> cache_ok cache ->
  tryGetShadowPtrFromBase o Linux_X86_64_MemoryMapParams addr_of find_base addr ip new cache = (p, cache') ->
  cache_ok cache' /\ (forall q, p = Some q -> q = MEM_TO_SHADOW linux_x86_64 (addr_of addr)).
Proof.
  intros Hin Hc. unfold tryGetShadowPtrFromBase.
  destruct (negb (ClSharedShadowBase o)); [by intros [= <- <-]|]. cbn [orb negb].
  destruct (find_base addr) as [[base offset]|] eqn:Hb; [|by intros [= <- <-]].
  case_decide; [by intros [= <- <-]|].
  destruct (Hin base offset Hb) as (Haddr & a & n & Hbuf & Hpb & Hpa).
  pose proof (x86_same_buffer a n _ _ Hbuf Hpb Hpa) as Hshadow.
  rewrite Haddr, Z.add_simpl_l in Hshadow.
  set (usable := match cache_find base cache with Some c => _ | None => _ end).
  assert (forall c, usable = Some c -> c_addr c = MEM_TO_SHADOW linux_x86_64 (addr_of base)) as Hu.
  { unfold usable. intros c. destruct (cache_find base cache) as [c'|] eqn:Hf; [|done].
    destruct (shadowBaseUsableHere c' ip); [|done]. intros [= <-]. by apply Hc. }
  assert (forall x, x = MEM_TO_SHADOW linux_x86_64 (addr_of base) ->
    (if offset =? 0 then x else x +64 offset) = MEM_TO_SHADOW linux_x86_64 (addr_of addr)) as Hx.
  { intros x ->. rewrite Haddr. destruct (Z.eqb_spec offset 0) as [->|]; [by rewrite Z.add_0_r|done]. }
  destruct usable as [c|]; intros [= <- <-].
  - split; [done|]. intros q [= <-]. by apply Hx, Hu.
  - split; [by apply cache_ok_add|]. intros q [= <-]. by apply Hx.
Qed.

Lemma shadow_ptrs_from accesses cache :
  Forall (fun a => inbounds a.1.1) accesses -> cache_ok cache ->
  shadow_ptrs o Linux_X86_64_MemoryMapParams addr_of find_base accesses cache
  = map (fun a => MEM_TO_SHADOW linux_x86_64 (addr_of a.1.1)) accesses.
Proof.
  intros Hall. revert cache. induction Hall as [|[[addr ip] new] accesses Hin _ IH]; intros cache Hc; [done|].
  cbn [shadow_ptrs map fst]. unfold getShadowPtrUserspace.
  destruct (tryGetShadowPtrFromBase _ _ _ _ addr ip new cache) as [[q|] cache'] eqn:E;
    destruct (shared_ptr_exact _ _ _ _ _ _ Hin Hc E) as [Hc' Hq].
  - by rewrite (Hq q eq_refl), IH.
  - cbn [ShadowBase Linux_X86_64_MemoryMapParams Z.eqb]. by rewrite x86_offset_is_MEM_TO_SHADOW, IH.
Qed.
End shared_base.

(** C13: on x86_64 the instrumentation accesses the shadow the runtime poisons:
    for every sequence of accesses of a function, with or without the shared
    shadow bases (cached, reused where they dominate, recomputed elsewhere), each
    emitted shadow pointer is [MEM_TO_SHADOW] of the access's address, provided
    constant-offset decompositions stay inside one application object. *)
Theorem shadow_ptrs_exact o addr_of find_base accesses :
  Forall (fun a => inbounds addr_of find_base a.1.1) accesses ->
  shadow_ptrs o Linux_X86_64_MemoryMapParams addr_of find_base accesses []
  = map (fun a => MEM_TO_SHADOW linux_x86_64 (addr_of a.1.1)) accesses.
Proof. intros H. by apply shadow_ptrs_from. Qed.

(** Three fields of one object: the second reuses the cached base, the third
    is in another block and recomputes it. *)
Definition field_accesses : list (ir_value * InsertPoint * ir_value) :=
  [(IRInst 0 2, mkIP 0 3 false, IRInst 0 10); (IRInst 0 4, mkIP 0 12 false, IRInst 0 11);
   (IRInst 1 0, mkIP 1 1 false, IRInst 1 5)].
Definition field_addr (v : ir_value) : Z :=
  match v with
  | IRInst 0 2 => 0x7ffff008 | IRInst 0 4 => 0x7ffff010 | IRInst 1 0 => 0x7ffff018 | _ => 0x7ffff000
  end.
Definition field_base (v : ir_value) : option decomposed :=
  if decide (v = IRConstant 0) then None
  else Some (mkDec (IRConstant 0) (field_addr v - 0x7ffff000)).

Lemma shadow_ptrs_exact_witness :
  shadow_ptrs options0 Linux_X86_64_MemoryMapParams field_addr field_base field_accesses []
  = [0x50007ffff008; 0x50007ffff010; 0x50007ffff018].
Proof.
  rewrite shadow_ptrs_exact; [reflexivity|].
  assert (app_buffer linux_x86_64 0x7ffff000 0x20) as Hb.
  { intros j Hj. apply x86_app_block. exists (0, 0x10000000000, 0).
    split; [unfold x86_app_blocks; set_solver|cbn; lia]. }
  do 3 (apply List.Forall_cons;
    [intros base offset [= <- <-]; split; [reflexivity|];
     exists 0x7ffff000, 0x20; split; [exact Hb|]; cbn; lia|]).
  apply List.Forall_nil.
Defined.

(** *** Memory orderings *)

(** The strength of an ordering: atomic?, acquire side, release side, seq_cst. *)
Definition strength (a : AtomicOrdering) : bool * bool * bool * bool :=
  match a with
  | NotAtomic => (false, false, false, false)
  | Unordered | Monotonic => (true, false, false, false)
  | Acquire => (true, true, false, false)
  | Release => (true, false, true, false)
  | AcquireRelease => (true, true, true, false)
  | SequentiallyConsistent => (true, true, true, true)
  end.

(** The meaning of a C ABI ordering; compilers treat consume as acquire. *)
Definition of_cabi (c : CABI) : AtomicOrdering :=
  match c with
  | relaxed => Monotonic | consume | acquire => Acquire | release => Release
  | acq_rel => AcquireRelease | seq_cst => SequentiallyConsistent
  end.

Definition with_release (s : bool * bool * bool * bool) : bool * bool * bool * bool :=
  let '(atomic, acq, rel, sc) := s in (atomic, acq, rel || atomic, sc).
Definition with_acquire (s : bool * bool * bool * bool) : bool * bool * bool * bool :=
  let '(atomic, acq, rel, sc) := s in (atomic, acq || atomic, rel, sc).

(** strengthening the ordering of an instrumented atomic access adds exactly
    the release (acquire) side to the ordering it had and keeps everything else,
    so that the shadow write is published with the value; and the tables used
    for orderings known at run time agree with the compile-time functions on
    every C ABI ordering, so no row is left at its zero initialiser. *)
Theorem orderings_strengthened :
  (forall a, strength (addReleaseOrdering a) = with_release (strength a) /\
             strength (addAcquireOrdering a) = with_acquire (strength a)) /\
  (forall c, of_cabi <$> makeAddReleaseOrderingTable !! cabi_index c = Some (addReleaseOrdering (of_cabi c)) /\
             of_cabi <$> makeAddAcquireOrderingTable !! cabi_index c = Some (addAcquireOrdering (of_cabi c))).
Proof. split; intros []; split; reflexivity. Qed.
