(* ===== verification/PassChecks.v ===== *)
(** * Where the pass puts its checks

    A visitor of [CompilerQEMUMemorySanitizerVisitor]
    (src/pass/CompilerQEMUMemorySanitizer.cpp) only records what must be
    checked, in InstrumentationList; [materializeChecks] emits the checks
    afterwards.  This file models the baseline ([materializeChecksLegacy], one
    check at each recorded instruction) and the coalesced strategy
    ([materializeCoalescedChecks], one check per straight-line segment of a block,
    at the segment's anchor); the loop strategy, off by default, is in PassLoops,
    and the deferral of checks to their sinks, on by default and run before
    either, in PassSinks.  Both strategies implement
    one specification: a report for every recorded check that the execution
    reaches with an uninitialised bit.

    A function is its list of blocks, a block its list of instructions with what
    LLVM says of each, and a location a block and an index in it.  Inserted code
    is a list of emissions, each placed before a location; a visit of a block is
    the block, the instruction at which the execution leaves it, and the values
    the shadow instructions take. *)

From S2P Require Import Prelude PassShadow.

(** ** Instructions, locations, shadows *)

Record instr := mkInstr {
  (** isGuaranteedToTransferExecutionToSuccessor *)
  transfers : bool;
  isPHI : bool;
  isEHPad : bool;
  (** catchswitch, cleanupret, catchret, callbr *)
  isEHTerminator : bool;
  isIndirectCall : bool;
  isAtomicRMWOrCmpXchg : bool
}.

Record loc := mkLoc { lb : nat; li : nat }.

#[export] Instance loc_eq_dec : EqDecision loc.
Proof. solve_decision. Defined.

(** The [Value*] of a shadow: a constant, or the result of an instruction. *)
Inductive src :=
| SrcConst (t : shadow_ty) (v : shadow)
| SrcInst (l : loc) (t : shadow_ty).

Definition src_type (s : src) : shadow_ty :=
  match s with SrcConst t _ | SrcInst _ t => t end.

(** The values the shadow instructions take in one visit. *)
Definition env := loc -> shadow.

Definition src_value (ρ : env) (s : src) : shadow :=
  match s with SrcConst _ v => v | SrcInst l _ => ρ l end.

(** ShadowAndInsertPoint *)
Record check := mkCheck { Shadow : src; OrigIns : loc; Essential : bool }.

(** ** Emitted expressions and checks *)

Inductive sexpr :=
| ERaw (s : src)
| EBool (e : sexpr)
| EOr (a b : sexpr).

Fixpoint eval (flip : bool) (ρ : env) (e : sexpr) : shadow :=
  match e with
  | ERaw s => src_value ρ s
  | EBool e => VInt 1 (Z.b2z (convertToBool flip (eval flip ρ e)))
  | EOr a b => VInt 1 (Z.lor (convertShadowToScalar flip (eval flip ρ a)).2
                             (convertShadowToScalar flip (eval flip ρ b)).2)
  end.

Definition expr_type (e : sexpr) : shadow_ty :=
  match e with ERaw s => src_type s | EBool _ | EOr _ _ => SInt 1 end.

(** The builder folds operations on constants. *)
Fixpoint isa_Constant (e : sexpr) : bool :=
  match e with
  | ERaw (SrcConst _ _) => true
  | ERaw (SrcInst _ _) => false
  | EBool e => isa_Constant e
  | EOr a b => isa_Constant a && isa_Constant b
  end.

Inductive emitted :=
| EmitWarning
| EmitCheck (code : check_code) (e : sexpr).

(** Code inserted before a location. *)
Record emission := mkEmission { at_loc : loc; what : emitted }.

Definition emitted_fires (flip : bool) (ρ : env) (w : emitted) : bool :=
  match w with
  | EmitWarning => true
  | EmitCheck code e => check_fires flip code (eval flip ρ e)
  end.

(** One pass of the execution through a block: it leaves after [v_stop]. *)
Record visit := mkVisit { v_block : nat; v_stop : nat; v_env : env }.

Definition reached (v : visit) (l : loc) : bool :=
  (lb l =? v_block v)%nat && (li l <=? v_stop v)%nat.

Definition reports (flip : bool) (code : list emission) (v : visit) : bool :=
  existsb (fun e => reached v (at_loc e) && emitted_fires flip (v_env v) (what e)) code.

(** ** Positions in a block *)

Definition isBBBarrier (bb : list instr) (i : nat) : bool :=
  match bb !! i with Some ins => negb (transfers ins) | None => false end.

Definition isUnsplittableTerminator (bb : list instr) (i : nat) : bool :=
  match bb !! i with Some ins => isEHTerminator ins || isEHPad ins | None => false end.

Definition terminator (bb : list instr) : nat := length bb - 1.

(** The first barrier from the instruction on, or the terminator. *)
Definition anchorFor (bb : list instr) (i : nat) : option nat :=
  let Term := terminator bb in
  if isBBBarrier bb i && negb (i =? Term)%nat then Some i
  else match List.find (isBBBarrier bb) (seq (S i) (Term - S i)) with
       | Some j => Some j
       | None => if isUnsplittableTerminator bb Term then None else Some Term
       end.

(** [++IP] over PHIs and EH pads. *)
Fixpoint skip_pads (bb : list instr) (ip : nat) : nat :=
  match bb with
  | ins :: bb => if isPHI ins || isEHPad ins then skip_pads bb (S ip) else ip
  | [] => ip
  end.

Section pass.
Context {L : LLVM} (o : PassOptions).
(** LLVM's BasicBlock::getFirstInsertionPt. *)
Context (getFirstInsertionPt : list instr -> nat).
Context (fn : list (list instr)).

Definition block (b : nat) : list instr := default [] (fn !! b).

Definition insertPointAfter (bb : list instr) (p : nat) : nat :=
  match bb !! p with
  | Some ins => if isPHI ins then getFirstInsertionPt bb else skip_pads (drop (S p) bb) (S p)
  | None => S p
  end.

(** The last shadow of the group defined in the block at or after OrigIns. *)
Definition last_shadow (orig : loc) (checks : list check) : option nat :=
  fold_left (fun last c =>
    match Shadow c with
    | SrcInst l _ =>
        if negb (lb l =? lb orig)%nat || (li l <? li orig)%nat then last
        else match last with
             | None => Some (li l)
             | Some p => if (p <? li l)%nat then Some (li l) else Some p
             end
    | SrcConst _ _ => last
    end) checks None.

Definition point_after (bb : list instr) (p : nat) : nat :=
  let ip := insertPointAfter bb p in
  if (ip =? length bb)%nat then terminator bb else ip.

Definition checkInsertPoint (orig : loc) (checks : list check) : loc :=
  match last_shadow orig checks with
  | None => orig
  | Some p => mkLoc (lb orig) (point_after (block (lb orig)) p)
  end.

Definition isZeroValue (v : shadow) : bool := negb (has_poisoned_bit false v).

Definition emitOneCheck (at_ : loc) (e : sexpr) (count : Z) : emission * Z :=
  let '(code, count) := materializeOneCheck o (isa_Constant e) (expr_type e) count in
  (mkEmission at_ (EmitCheck code e), count).

(** The loop of materializeInstructionChecks: the warnings emitted and the
    shadow to check at the end; [return] leaves none. *)
Fixpoint group_loop (at_ : loc) (checks : list check) (acc : option sexpr)
    : list emission * option sexpr :=
  match checks with
  | [] => ([], acc)
  | c :: checks =>
      let e := ERaw (Shadow c) in
      let accumulate :=
        group_loop at_ checks (Some match acc with
                                    | None => e
                                    | Some a => EOr (EBool a) (EBool e)
                                    end) in
      match Shadow c with
      | SrcConst _ v =>
          if negb (ClCheckConstantShadow o) || isZeroValue v then group_loop at_ checks acc
          else if isKnownNonZero v then
            if negb (Recover o) then ([mkEmission at_ EmitWarning], None)
            else let '(ws, acc) := group_loop at_ checks acc in
                 (mkEmission at_ EmitWarning :: ws, acc)
          else accumulate
      | SrcInst _ _ => accumulate
      end
  end.

Definition materializeInstructionChecks (checks : list check) (count : Z) : list emission * Z :=
  match checks with
  | [] => ([], count)
  | c :: _ =>
      let InsertPt := checkInsertPoint (OrigIns c) checks in
      match group_loop InsertPt checks None with
      | (ws, Some e) => let '(em, count) := emitOneCheck InsertPt e count in (ws ++ [em], count)
      | (ws, None) => (ws, count)
      end
  end.

(** The maximal runs of consecutive checks of one instruction. *)
Fixpoint runs (l : list check) : list (list check) :=
  match l with
  | [] => []
  | c :: l =>
      match runs l with
      | (c' :: g) :: gs => if decide (OrigIns c = OrigIns c') then (c :: c' :: g) :: gs
                           else [c] :: (c' :: g) :: gs
      | gs => [c] :: gs
      end
  end.

Fixpoint materialize_all {A} (f : A -> Z -> list emission * Z) (l : list A) (count : Z)
    : list emission * Z :=
  match l with
  | [] => ([], count)
  | x :: l => let '(es, count) := f x count in
              let '(es', count) := materialize_all f l count in (es ++ es', count)
  end.

Definition materializeChecksLegacy (InstrumentationList : list check) (count : Z)
    : list emission * Z :=
  materialize_all materializeInstructionChecks (runs InstrumentationList) count.

(** *** Coalesced checks *)

Definition isImmediateEssentialSink (l : loc) : bool :=
  match block (lb l) !! li l with
  | Some ins => isIndirectCall ins || isAtomicRMWOrCmpXchg ins
  | None => false
  end.

(** [MapVector::operator[](k).push_back(v)]: keys in order of first insertion. *)
Fixpoint mv_push {K V} `{EqDecision K} (k : K) (v : V) (m : list (K * list V)) : list (K * list V) :=
  match m with
  | [] => [(k, [v])]
  | (k', vs) :: m => if decide (k = k') then (k', vs ++ [v]) :: m else (k', vs) :: mv_push k v m
  end.

Definition groupByOrigIns (V : list check) : list check :=
  if (length V <? 2)%nat then V
  else concat (map snd (fold_left (fun m c => mv_push (OrigIns c) c m) V [])).

(** The shadows chained where they are defined, without duplicates, and the
    ones folded in at the anchor. *)
Definition split_step (At : loc) (st : list src * list src) (s : src) : list src * list src :=
  let '(Local, Remote) := st in
  match s with
  | SrcInst l _ =>
      if (lb l =? lb At)%nat && (li l <? li At)%nat
      then (if bool_decide (l ∈ omap (fun s => match s with SrcInst l _ => Some l | _ => None end) Local)
            then (Local, Remote) else (Local ++ [s], Remote))
      else (Local, Remote ++ [s])
  | SrcConst _ _ => (Local, Remote ++ [s])
  end.
Definition split_local (At : loc) (Shadows : list src) : list src * list src :=
  fold_left (split_step At) Shadows ([], []).

Definition src_ord (s : src) : nat := match s with SrcInst l _ => li l | SrcConst _ _ => 0 end.

(** llvm::sort by position. *)
Fixpoint insert_sorted (s : src) (l : list src) : list src :=
  match l with
  | [] => [s]
  | s' :: l => if (src_ord s <=? src_ord s')%nat then s :: s' :: l else s' :: insert_sorted s l
  end.
Definition sort_by_ord (l : list src) : list src := foldr insert_sorted [] l.

Definition or_chain (first : sexpr) (rest : list src) : sexpr :=
  fold_left (fun acc s => EOr acc (EBool (ERaw s))) rest first.

Definition emitCoalescedCheck (At : loc) (Shadows : list src) (count : Z) : list emission * Z :=
  match Shadows with
  | [] => ([], count)
  | s0 :: rest =>
      let at_anchor := let '(em, count) := emitOneCheck At (or_chain (EBool (ERaw s0)) rest) count in
                       ([em], count) in
      if ClCoalescedIncrementalOr o && (1 <? length Shadows)%nat then
        let '(Local, Remote) := split_local At Shadows in
        match sort_by_ord Local with
        | s1 :: s2 :: more =>
            let Acc := or_chain (EBool (ERaw s1)) (s2 :: more) in
            let '(em, count) := emitOneCheck At (or_chain Acc Remote) count in ([em], count)
        | _ => at_anchor
        end
      else at_anchor
  end.

(** Phase 1: what is essential, and the other shadows by anchor. *)
Definition anchor_loc (l : loc) : option loc := mkLoc (lb l) <$> anchorFor (block (lb l)) (li l).

Definition is_essential (c : check) : bool := Essential c || isImmediateEssentialSink (OrigIns c).

Definition sort_deferrable (st : list check * list (loc * list src)) (c : check)
    : list check * list (loc * list src) :=
  let '(Ess, ByAnchor) := st in
  match anchor_loc (OrigIns c) with
  | Some A => (Ess, mv_push A (Shadow c) ByAnchor)
  | None => (Ess ++ [mkCheck (Shadow c) (OrigIns c) true], ByAnchor)
  end.

Definition materializeCoalescedChecks (InstrumentationList : list check) (count : Z)
    : list emission * Z :=
  let Ess := filter (fun c => is_essential c = true) InstrumentationList in
  let Deferrable := filter (fun c => is_essential c = false) InstrumentationList in
  let '(Ess, ByAnchor) := fold_left sort_deferrable Deferrable (Ess, []) in
  let '(es, count) := materialize_all materializeInstructionChecks (runs (groupByOrigIns Ess)) count in
  let '(es', count) := materialize_all (fun kv => emitCoalescedCheck kv.1 kv.2) ByAnchor count in
  (es ++ es', count).

(** *** The specification: a check at its own instruction *)

Definition isConstantSrc (s : src) : bool := match s with SrcConst _ _ => true | _ => false end.

Definition check_reports (v : visit) (c : check) : bool :=
  reached v (OrigIns c) && (ClCheckConstantShadow o || negb (isConstantSrc (Shadow c))) &&
  has_poisoned_bit false (src_value (v_env v) (Shadow c)).
End pass.

(** ** Positions *)

(** Control that reaches [i] reaches [p]. *)
Definition clear_path (bb : list instr) (i p : nat) : Prop :=
  (i <= p)%nat /\ (p < length bb)%nat /\ forall j, (i <= j < p)%nat -> isBBBarrier bb j = false.

(** Where an execution can leave a block: its terminator, or an instruction that
    may not transfer control to the next one. *)
Definition leaves_at (bb : list instr) (stop : nat) : Prop :=
  stop = terminator bb \/ isBBBarrier bb stop = true.

Lemma clear_path_stop bb i p stop :
  leaves_at bb stop -> clear_path bb i p -> (i <= stop <-> p <= stop)%nat.
Proof.
  intros Hstop (Hle & Hlt & Hclear). split; [|lia]. intros Hi.
  destruct (Nat.le_gt_cases p stop) as [|Hgt]; [done|]. destruct Hstop as [->|Hb].
  - unfold terminator in *. lia.
  - by rewrite Hclear in Hb by lia.
Qed.

Lemma anchor_clear bb i A : (i < length bb)%nat -> anchorFor bb i = Some A -> clear_path bb i A.
Proof.
  intros Hi. unfold anchorFor. destruct (isBBBarrier bb i && _) eqn:Eb.
  - intros [= <-]. split_and!; [done|done|lia].
  - assert (i = terminator bb \/ isBBBarrier bb i = false) as Hib.
    { apply andb_false_iff in Eb as [?|Eb]; [by right|].
      apply negb_false_iff, Nat.eqb_eq in Eb. by left. }
    destruct (List.find _ _) as [j|] eqn:Ef.
    + intros [= <-]. pose proof (find_some _ _ Ef) as [Hin _]. apply in_seq in Hin.
      unfold terminator in *. split_and!; [lia|lia|]. intros k Hk.
      destruct (Nat.eq_dec k i) as [->|]; [destruct Hib; [lia|done]|].
      apply list_find_first in Ef as (l1 & l2 & Heq & Hl1). apply Hl1. clear Hl1.
      apply (seq_before (S i) (length bb - 1 - S i) j l1 l2 k Heq). lia.
    + destruct (isUnsplittableTerminator bb (terminator bb)); [done|]. intros [= <-].
      unfold terminator in *. split_and!; [lia|lia|]. intros k Hk.
      destruct (Nat.eq_dec k i) as [->|]; [destruct Hib; [lia|done]|].
      apply (find_none _ _ Ef). apply in_seq. lia.
Qed.

(** ** Values *)

Lemma i1_inv vscale w : has_ty vscale w (SInt 1) = true -> exists x, w = VInt 1 x /\ fits 1 x = true.
Proof. destruct w as [w x| | |]; try done. cbn. intros H. bool_hyps. subst. eauto. Qed.

Lemma i1_poisoned x : fits 1 x = true -> has_poisoned_bit false (VInt 1 x) = negb (x =? 0).
Proof. intros Hx. by rewrite (nonzero_bits 1 x Hx). Qed.

Fixpoint leaves (e : sexpr) : list src :=
  match e with
  | ERaw s => [s]
  | EBool e => leaves e
  | EOr a b => leaves a ++ leaves b
  end.

Section values.
Context (vscale : Z) (ρ : env).

Definition src_ok (s : src) : Prop := has_ty vscale (src_value ρ s) (src_type s) = true.
Definition poisoned (s : src) : bool := has_poisoned_bit false (src_value ρ s).

Fixpoint expr_ok (e : sexpr) : Prop :=
  match e with
  | ERaw s => src_ok s
  | EBool e => expr_ok e
  | EOr a b => expr_ok a /\ expr_ok b /\ expr_type a = SInt 1 /\ expr_type b = SInt 1
  end.

Lemma expr_eval e :
  expr_ok e ->
  has_ty vscale (eval false ρ e) (expr_type e) = true /\
  has_poisoned_bit false (eval false ρ e) = existsb poisoned (leaves e).
Proof.
  induction e as [s|e IH|a IHa b IHb]; cbn [expr_ok eval expr_type leaves]; intros Hok.
  - split; [done|]. cbn. by rewrite orb_false_r.
  - destruct (IH Hok) as [Ht Hp]. rewrite (convertToBool_spec vscale _ _ Ht), Hp.
    split; [|rewrite i1_poisoned; by destruct (existsb poisoned (leaves e))].
    by destruct (existsb poisoned (leaves e)).
  - destruct Hok as (Ha & Hb & Ta & Tb).
    destruct (IHa Ha) as [Ht1 Hp1], (IHb Hb) as [Ht2 Hp2]. rewrite Ta in Ht1. rewrite Tb in Ht2.
    destruct (i1_inv _ _ Ht1) as (x & Ex & Hx), (i1_inv _ _ Ht2) as (y & Ey & Hy).
    rewrite Ex, Ey in *. cbn [convertShadowToScalar snd].
    assert (fits 1 (Z.lor x y) = true) as Hxy by (by apply fits_lor).
    split; [cbn [has_ty]; by rewrite Hxy|].
    by rewrite existsb_app, <- Hp1, <- Hp2, !i1_poisoned, lor_nonzero.
Qed.

Lemma or_chain_ok first rest :
  expr_ok first -> expr_type first = SInt 1 -> Forall src_ok rest ->
  expr_ok (or_chain first rest) /\ expr_type (or_chain first rest) = SInt 1 /\
  existsb poisoned (leaves (or_chain first rest))
  = existsb poisoned (leaves first) || existsb poisoned rest.
Proof.
  intros Hf Ht Hr. revert first Hf Ht.
  induction Hr as [|s rest Hs _ IH]; intros first Hf Ht; cbn [or_chain fold_left existsb].
  - by rewrite orb_false_r.
  - destruct (IH (EOr first (EBool (ERaw s)))) as (H1 & H2 & H3); [by split_and!|done|].
    unfold or_chain in *. rewrite H3. cbn [leaves]. rewrite existsb_app. cbn [existsb].
    by rewrite orb_false_r, orb_assoc.
Qed.
End values.

(** ** Lists *)

Lemma existsb_concat {A} (f : A -> bool) ll : existsb f (concat ll) = existsb (existsb f) ll.
Proof. induction ll as [|l ll IH]; [done|]. cbn [concat existsb]. by rewrite existsb_app, IH. Qed.

Lemma existsb_filter {A} (f p : A -> bool) (l : list A) :
  existsb f l = existsb f (filter (fun x => p x = true) l) || existsb f (filter (fun x => p x = false) l).
Proof.
  induction l as [|x l IH]; [done|]. rewrite !filter_cons. cbn [existsb].
  destruct (p x); repeat (case_decide; try done); cbn [existsb]; rewrite IH;
    destruct (f x); cbn [orb]; by rewrite ?orb_true_r.
Qed.

Lemma Forall_filter_keep {A} (P Q : A -> Prop) `{forall x, Decision (Q x)} (l : list A) :
  Forall P l -> Forall P (filter Q l).
Proof.
  induction 1 as [|x l Hx _ IH]; [constructor|]. rewrite filter_cons. case_decide; [by constructor|done].
Qed.

Section mapvector.
Context {K V : Type} `{EqDecision K} (P : K -> V -> bool).

Definition mv_exists (m : list (K * list V)) : bool := existsb (fun kv => existsb (P kv.1) kv.2) m.

Lemma mv_push_exists k x m : mv_exists (mv_push k x m) = mv_exists m || P k x.
Proof.
  induction m as [|[k' vs] m IH]; cbn.
  - by rewrite !orb_false_r.
  - case_decide as Hk; cbn [existsb].
    + cbn. subst. rewrite existsb_app. cbn.
      rewrite orb_false_r. rewrite <- !orb_assoc. f_equal. apply orb_comm.
    + cbn. unfold mv_exists in IH. rewrite IH. by rewrite orb_assoc.
Qed.

Lemma mv_push_Forall (Q : K -> V -> Prop) k x m :
  Forall (fun kv => Forall (Q kv.1) kv.2) m -> Q k x ->
  Forall (fun kv => Forall (Q kv.1) kv.2) (mv_push k x m).
Proof.
  intros Hm Hx. induction Hm as [|[k' vs] m Hvs Hm IH]; cbn.
  - repeat constructor. done.
  - case_decide as Hk; constructor; try done. subst. cbn in *. apply Forall_app. split; [done|].
    by constructor.
Qed.
End mapvector.

Lemma concat_runs l : concat (runs l) = l.
Proof.
  induction l as [|c l IH]; [done|]. cbn [runs].
  destruct (runs l) as [|[|c' g] gs] eqn:E; cbn in *; [by rewrite <- IH..|].
  destruct (decide _); cbn; by rewrite <- IH.
Qed.

Lemma runs_same l : Forall (fun g => exists O, Forall (fun c => OrigIns c = O) g) (runs l).
Proof.
  assert (forall c, exists O, Forall (fun c => OrigIns c = O) [c]) as H1
    by (intros c; exists (OrigIns c); by repeat constructor).
  induction l as [|c l IH]; [constructor|]. cbn [runs]. destruct (runs l) as [|[|c' g] gs].
  - by constructor.
  - by constructor.
  - inversion IH as [|? ? [O HO] Hgs]; subst. case_decide as Hc; [|by constructor].
    constructor; [|done]. exists O. constructor; [|done]. rewrite Hc. by inversion HO.
Qed.

(** ** One visit of one block *)

Section visit.
Context {L : LLVM} {LL : LLVMLaws L} (o : PassOptions).
Context (getFirstInsertionPt : list instr -> nat) (fn : list (list instr)).
Context (vscale : Z) (v : visit).
Notation block := (block fn).
Notation point_after := (point_after getFirstInsertionPt).
Notation poisoned := (poisoned (v_env v)).

(** The visit is one of the function. *)
Definition visit_ok : Prop := leaves_at (block (v_block v)) (v_stop v).

(** What the visitors guarantee of a recorded check: its instruction exists,
    its shadow has a value of its type, and a shadow defined after the
    instruction is defined right after it, not behind a barrier. *)
Record check_ok (c : check) : Prop := {
  ok_index : (li (OrigIns c) < length (block (lb (OrigIns c))))%nat;
  ok_src : src_ok vscale (v_env v) (Shadow c);
  ok_placed l t : Shadow c = SrcInst l t -> lb l = lb (OrigIns c) -> (li (OrigIns c) <= li l)%nat ->
    clear_path (block (lb (OrigIns c))) (li (OrigIns c))
               (point_after (block (lb (OrigIns c))) (li l))
}.

Lemma reached_clear b i p :
  visit_ok -> clear_path (block b) i p -> reached v (mkLoc b p) = reached v (mkLoc b i).
Proof.
  intros Hv Hc. unfold reached. cbn. destruct (Nat.eqb_spec b (v_block v)) as [->|]; [cbn|done].
  pose proof (clear_path_stop _ _ _ _ Hv Hc). apply eq_true_iff_eq. rewrite !Nat.leb_le. lia.
Qed.

Definition fires (es : list emission) : bool :=
  existsb (fun e => emitted_fires false (v_env v) (what e)) es.

Lemma reports_at l es :
  Forall (fun e => at_loc e = l) es -> reports false es v = reached v l && fires es.
Proof.
  unfold reports, fires. induction 1 as [|e es He _ IH]; cbn; [by rewrite andb_false_r|].
  rewrite IH, He. by destruct (reached v l).
Qed.

Lemma reports_app es es' : reports false (es ++ es') v = reports false es v || reports false es' v.
Proof. apply existsb_app. Qed.

Lemma emitOneCheck_fires l e count em count' :
  expr_ok vscale (v_env v) e -> emitOneCheck o l e count = (em, count') ->
  at_loc em = l /\ emitted_fires false (v_env v) (what em) = existsb poisoned (leaves e).
Proof.
  intros He. unfold emitOneCheck.
  pose proof (expr_eval vscale (v_env v) e He) as [Ht Hp].
  pose proof (one_check_fires o (isa_Constant e) vscale (expr_type e) _ count Ht) as Hf.
  destruct (materializeOneCheck o _ _ count) as [code n]. intros [= <- <-].
  split; [done|]. cbn [what emitted_fires fst] in *. by rewrite Hf, Hp.
Qed.

(** *** Groups of one instruction *)

Definition last_ok (orig : loc) (checks : list check) (last : option nat) : Prop :=
  forall p, last = Some p -> exists c l t, c ∈ checks /\ Shadow c = SrcInst l t /\
    lb l = lb orig /\ (li orig <= li l)%nat /\ li l = p.

Lemma last_shadow_ok orig checks : last_ok orig checks (last_shadow orig checks).
Proof.
  unfold last_shadow.
  enough (forall done_ last, last_ok orig done_ last ->
    last_ok orig (done_ ++ checks) (fold_left (fun last c =>
      match Shadow c with
      | SrcInst l _ => if negb (lb l =? lb orig)%nat || (li l <? li orig)%nat then last
          else match last with None => Some (li l) | Some p => if (p <? li l)%nat then Some (li l) else Some p end
      | SrcConst _ _ => last end) checks last)) as H by (apply (H [] None); intros p; discriminate).
  induction checks as [|c checks IH]; intros done_ last Hl; [by rewrite app_nil_r|].
  cbn [fold_left]. replace (done_ ++ c :: checks) with ((done_ ++ [c]) ++ checks) by (by rewrite <- app_assoc).
  apply IH. assert (last_ok orig (done_ ++ [c]) last) as Hw.
  { intros p (c' & l & t & Hc' & Hrest)%Hl. exists c', l, t. split; [apply elem_of_app; by left|done]. }
  destruct (Shadow c) as [|l t] eqn:Es; [done|].
  destruct (negb _ || _) eqn:Eg; [done|]. apply orb_false_iff in Eg as [Eb Ei].
  apply negb_false_iff, Nat.eqb_eq in Eb. apply Nat.ltb_ge in Ei.
  assert (last_ok orig (done_ ++ [c]) (Some (li l))) as Hn.
  { intros p [= <-]. exists c, l, t. split_and!; try done. apply elem_of_app. right. by left. }
  destruct last as [p|]; [|done]. by destruct (p <? li l)%nat.
Qed.

Lemma checkInsertPoint_reached orig checks :
  visit_ok -> Forall (fun c => OrigIns c = orig /\ check_ok c) checks ->
  reached v (checkInsertPoint getFirstInsertionPt fn orig checks) = reached v orig.
Proof.
  intros Hv Hall. unfold checkInsertPoint. pose proof (last_shadow_ok orig checks) as Hl.
  destruct (last_shadow orig checks) as [p|]; [|done].
  destruct (Hl p eq_refl) as (c & l & t & Hc & Es & Eb & Hi & <-).
  rewrite Forall_forall in Hall. apply list_elem_of_In in Hc. destruct (Hall c Hc) as [Ho Hok].
  destruct orig as [b i]. rewrite (reached_clear b i); [done|done|].
  pose proof (ok_placed c Hok l t Es) as H. rewrite Ho in H. by apply H.
Qed.

Definition counted (c : check) : bool :=
  (ClCheckConstantShadow o || negb (isConstantSrc (Shadow c))) && poisoned (Shadow c).

Definition acc_poisoned (acc : option sexpr) : bool :=
  match acc with Some e => existsb poisoned (leaves e) | None => false end.
Definition acc_ok (acc : option sexpr) : Prop :=
  match acc with Some e => expr_ok vscale (v_env v) e | None => True end.

Lemma group_loop_fires l checks acc es acc' :
  Forall (fun c => src_ok vscale (v_env v) (Shadow c)) checks -> acc_ok acc ->
  group_loop o l checks acc = (es, acc') ->
  Forall (fun e => at_loc e = l) es /\ acc_ok acc' /\
  fires es || acc_poisoned acc' = acc_poisoned acc || existsb counted checks.
Proof.
  intros Hall. revert acc es acc'. induction Hall as [|c checks Hc _ IH]; intros acc es acc' Hacc.
  { intros [= <- <-]. split_and!; [constructor|done|]. cbn. by rewrite orb_false_r. }
  set (new := match acc with None => ERaw (Shadow c) | Some a => EOr (EBool a) (EBool (ERaw (Shadow c))) end).
  assert (acc_ok (Some new)) as Hnew by (destruct acc; [by repeat split|exact Hc]).
  assert (acc_poisoned (Some new) = acc_poisoned acc || poisoned (Shadow c)) as Pnew.
  { destruct acc; cbn; rewrite ?existsb_app; cbn; by rewrite orb_false_r. }
  cbn [group_loop existsb]. fold new. unfold counted at 1. destruct (Shadow c) as [t w|l' t] eqn:Es.
  2:{ intros H. destruct (IH _ _ _ Hnew H) as (H1 & H2 & H3). split_and!; try done.
      rewrite H3, Pnew. cbn [isConstantSrc negb]. by rewrite orb_true_r, orb_assoc. }
  cbn [isConstantSrc negb]. rewrite orb_false_r.
  assert (poisoned (SrcConst t w) = has_poisoned_bit false w) as Ew by done.
  destruct (negb (ClCheckConstantShadow o) || isZeroValue w) eqn:Ez.
  { intros H. destruct (IH _ _ _ Hacc H) as (H1 & H2 & H3). split_and!; try done.
    rewrite H3, Ew. apply orb_true_iff in Ez as [Ez|Ez]; apply negb_true_iff in Ez; rewrite Ez;
      by rewrite ?andb_false_r. }
  apply orb_false_iff in Ez as [Ec Ez]. apply negb_false_iff in Ec, Ez. rewrite Ec, Ew, Ez.
  destruct (isKnownNonZero w); [destruct (negb (Recover o))|].
  - intros [= <- <-]. split_and!; [by repeat constructor|done|]. cbn. by rewrite orb_true_r.
  - destruct (group_loop o l checks acc) as [ws acc1] eqn:E. intros [= <- <-].
    destruct (IH _ _ _ Hacc E) as (H1 & H2 & H3). split_and!; [by constructor|done|].
    cbn. by rewrite orb_true_r.
  - intros H. destruct (IH _ _ _ Hnew H) as (H1 & H2 & H3). split_and!; try done.
    rewrite H3, Pnew, Ew, Ez. by rewrite orb_assoc.
Qed.

Lemma group_reports checks orig count :
  visit_ok -> Forall (fun c => OrigIns c = orig /\ check_ok c) checks ->
  reports false (materializeInstructionChecks o getFirstInsertionPt fn checks count).1 v
  = existsb (check_reports o v) checks.
Proof.
  intros Hv Hall.
  assert (existsb (check_reports o v) checks = reached v orig && existsb counted checks) as ->.
  { induction Hall as [|c checks [Ho _] _ IH]; cbn; [by rewrite andb_false_r|].
    rewrite IH. unfold check_reports, counted, PassChecks.poisoned. rewrite Ho.
    by destruct (reached v orig). }
  destruct checks as [|c checks]; [by rewrite andb_false_r|].
  pose proof (checkInsertPoint_reached orig (c :: checks) Hv Hall) as Hr.
  inversion Hall as [|? ? [Ho _] _]; subst. cbn [materializeInstructionChecks].
  set (l := checkInsertPoint _ _ _ _) in *.
  destruct (group_loop o l (c :: checks) None) as [es acc] eqn:E.
  apply group_loop_fires in E as (Hat & Hacc & Hf); [|eapply List.Forall_impl; [|exact Hall]; by intros ? [_ []]|done].
  cbn [acc_poisoned orb] in Hf. rewrite <- Hr, <- Hf. destruct acc as [e|].
  - destruct (emitOneCheck o l e count) as [em n] eqn:Ee. cbn [fst].
    destruct (emitOneCheck_fires _ _ _ _ _ Hacc Ee) as [Hl Hp].
    rewrite (reports_at l); [|apply Forall_app; split; [done|by repeat constructor]].
    f_equal. unfold fires. rewrite existsb_app. cbn. by rewrite Hp, orb_false_r.
  - cbn [fst]. rewrite (reports_at l) by done. by rewrite orb_false_r.
Qed.

Lemma materialize_all_reports {A} (f : A -> Z -> list emission * Z) (spec : A -> bool) (l : list A) :
  Forall (fun x => forall count, reports false (f x count).1 v = spec x) l ->
  forall count, reports false (materialize_all f l count).1 v = existsb spec l.
Proof.
  induction 1 as [|x l Hx _ IH]; intros count; [done|]. cbn [materialize_all existsb].
  specialize (Hx count). destruct (f x count) as [es n]. specialize (IH n).
  destruct (materialize_all f l n) as [es' n']. cbn [fst] in *. by rewrite reports_app, Hx, IH.
Qed.

Lemma runs_reports l count :
  visit_ok -> Forall check_ok l ->
  reports false (materialize_all (materializeInstructionChecks o getFirstInsertionPt fn) (runs l) count).1 v
  = existsb (check_reports o v) l.
Proof.
  intros Hv Hall. rewrite <- (concat_runs l) in Hall |- *. rewrite existsb_concat, concat_runs.
  apply materialize_all_reports. apply List.Forall_concat in Hall.
  pose proof (runs_same l) as Hs. rewrite List.Forall_forall in *.
  intros g Hg count'. destruct (Hs g Hg) as [O HO]. specialize (Hall g Hg).
  apply (group_reports g O); [done|]. rewrite List.Forall_forall in *. auto.
Qed.
(** *** Coalesced groups *)

Notation src_ok := (src_ok vscale (v_env v)).

Definition split_poisoned (st : list src * list src) : bool :=
  existsb poisoned st.1 || existsb poisoned st.2.
Definition split_ok (st : list src * list src) : Prop := Forall src_ok st.1 /\ Forall src_ok st.2.

Lemma split_step_ok At st s :
  split_ok st -> src_ok s ->
  split_ok (split_step At st s) /\
  split_poisoned (split_step At st s) = split_poisoned st || poisoned s.
Proof.
  destruct st as [L0 R0]. intros [HL HR] Hs. unfold split_ok, split_poisoned. cbn [fst snd] in *.
  assert (Forall src_ok (R0 ++ [s])) as HR' by (apply Forall_app; split; [done|by constructor]).
  assert (Forall src_ok (L0 ++ [s])) as HL' by (apply Forall_app; split; [done|by constructor]).
  assert (existsb poisoned L0 || existsb poisoned (R0 ++ [s])
          = existsb poisoned L0 || existsb poisoned R0 || poisoned s) as Eremote.
  { rewrite existsb_app. cbn. by rewrite orb_false_r, orb_assoc. }
  destruct s as [t w|l t]; cbn [split_step]; [by split_and!|].
  destruct (_ && _); [|by split_and!].
  case_bool_decide as Hdup; cbn [fst snd]; split_and!; try done.
  - apply list_elem_of_omap in Hdup as (s' & Hs' & El). destruct s' as [|l' t']; [done|].
    injection El as ->. destruct (poisoned (SrcInst l t)) eqn:Ep; [|by rewrite orb_false_r].
    rewrite orb_true_r. apply orb_true_iff. left. apply existsb_exists_elem. by exists (SrcInst l t').
  - rewrite existsb_app. cbn [existsb]. rewrite orb_false_r.
    by destruct (existsb poisoned L0), (poisoned (SrcInst l t)), (existsb poisoned R0).
Qed.

Lemma split_local_ok At Shadows :
  Forall src_ok Shadows ->
  split_ok (split_local At Shadows) /\ split_poisoned (split_local At Shadows) = existsb poisoned Shadows.
Proof.
  unfold split_local. intros Hall.
  enough (forall st, split_ok st -> split_ok (fold_left (split_step At) Shadows st) /\
    split_poisoned (fold_left (split_step At) Shadows st) = split_poisoned st || existsb poisoned Shadows)
    as H by (apply (H ([], [])); by split).
  induction Hall as [|s Shadows Hs _ IH]; intros st Hst; cbn [fold_left existsb]; [by rewrite orb_false_r|].
  destruct (split_step_ok At st s Hst Hs) as [H1 H2]. destruct (IH _ H1) as [H3 H4].
  split; [done|]. by rewrite H4, H2, orb_assoc.
Qed.

Lemma sort_perm l : sort_by_ord l ≡ₚ l.
Proof.
  assert (forall s l, insert_sorted s l ≡ₚ s :: l) as Hi.
  { intros s l'. induction l' as [|s' l' IH]; [done|]. cbn. destruct (_ <=? _)%nat; [done|].
    rewrite IH. apply Permutation_swap. }
  induction l as [|s l IH]; [done|]. cbn. by rewrite Hi, IH.
Qed.

Lemma existsb_perm {A} (f : A -> bool) l l' : l ≡ₚ l' -> existsb f l = existsb f l'.
Proof.
  intros Hp. apply eq_true_iff_eq. rewrite !existsb_exists_elem.
  split; intros (x & Hx & Hf); exists x; (split; [|done]); by rewrite Hp in * || rewrite <- Hp in *.
Qed.

Lemma emit_chain At e first rest count :
  e = or_chain (EBool first) rest -> expr_ok vscale (v_env v) first -> Forall src_ok rest ->
  reports false (let '(em, n) := emitOneCheck o At e count in ([em], n)).1 v
  = reached v At && (existsb poisoned (leaves first) || existsb poisoned rest).
Proof.
  intros -> Hf Hr. destruct (or_chain_ok vscale (v_env v) (EBool first) rest Hf eq_refl Hr) as (He & _ & Hl).
  destruct (emitOneCheck o At _ count) as [em n] eqn:E.
  destruct (emitOneCheck_fires _ _ _ _ _ He E) as [Ha Hp]. cbn [fst].
  rewrite (reports_at At) by (by repeat constructor). unfold fires. cbn. rewrite Hp, Hl.
  by rewrite orb_false_r.
Qed.

(** One check at the anchor stands for all the shadows of its segment, in
    whatever order and place their disjunction is built. *)
Lemma coalesced_reports At Shadows count :
  Forall src_ok Shadows ->
  reports false (emitCoalescedCheck o At Shadows count).1 v
  = reached v At && existsb poisoned Shadows.
Proof.
  intros Hall. destruct Shadows as [|s0 rest]; [by rewrite andb_false_r|].
  inversion Hall as [|? ? Hs0 Hrest]; subst. cbn [emitCoalescedCheck].
  assert (reports false (let '(em, n) := emitOneCheck o At (or_chain (EBool (ERaw s0)) rest) count
                         in ([em], n)).1 v = reached v At && existsb poisoned (s0 :: rest)) as Hplain.
  { rewrite (emit_chain At _ (ERaw s0) rest) by done. cbn. by rewrite orb_false_r. }
  destruct (ClCoalescedIncrementalOr o && _); [|exact Hplain].
  destruct (split_local_ok At _ Hall) as [Hok Esplit].
  destruct (split_local At (s0 :: rest)) as [Local Remote]. destruct Hok as [HL HR].
  unfold split_poisoned in *. cbn [fst snd] in *.
  pose proof (sort_perm Local) as Hp.
  destruct (sort_by_ord Local) as [|s1 [|s2 more]]; [exact Hplain|exact Hplain|].
  rewrite <- Esplit. rewrite <- Hp in HL. rewrite <- (existsb_perm _ _ _ Hp).
  rewrite (emit_chain At _ (ERaw s1) ((s2 :: more) ++ Remote)).
  - cbn [leaves]. rewrite existsb_app. cbn [existsb].
    rewrite orb_false_r. rewrite <- !orb_assoc. reflexivity.
  - symmetry. apply fold_left_app.
  - by inversion HL.
  - apply Forall_app. split; [by inversion HL|done].
Qed.
(** *** The two strategies *)

Notation check_reports := (check_reports o v).

Lemma groupByOrigIns_ok l :
  Forall check_ok l ->
  Forall check_ok (groupByOrigIns l) /\ existsb check_reports (groupByOrigIns l) = existsb check_reports l.
Proof.
  intros Hall. unfold groupByOrigIns. destruct (length l <? 2)%nat; [done|].
  set (push := fun m c => mv_push (OrigIns c) c m).
  enough (forall m, Forall (fun kv => Forall (fun c => check_ok c) kv.2) m ->
    Forall (fun kv => Forall (fun c => check_ok c) kv.2) (fold_left push l m) /\
    mv_exists (fun _ : loc => check_reports) (fold_left push l m)
    = mv_exists (fun _ => check_reports) m || existsb check_reports l) as H.
  { destruct (H []) as [H1 H2]; [constructor|].
    assert (forall m : list (loc * list check),
      existsb check_reports (concat (map snd m)) = mv_exists (fun _ => check_reports) m) as Hm.
    { intros m. rewrite existsb_concat. unfold mv_exists. by rewrite existsb_map. }
    split; [|by rewrite Hm, H2]. apply List.Forall_concat. by apply List.Forall_map. }
  induction Hall as [|c l Hc _ IH]; intros m Hm; cbn [fold_left existsb]; [by rewrite orb_false_r|].
  destruct (IH (push m c)) as [H1 H2].
  { by apply (mv_push_Forall (fun _ => check_ok)). }
  split; [done|]. rewrite H2. unfold push. rewrite mv_push_exists. by rewrite orb_assoc.
Qed.

Definition anchored_reports (A : loc) (s : src) : bool := reached v A && poisoned s.

Definition deferred_ok (st : list check * list (loc * list src)) : Prop :=
  Forall check_ok st.1 /\ Forall (fun kv => Forall src_ok kv.2) st.2.
Definition deferred_reports (st : list check * list (loc * list src)) : bool :=
  existsb check_reports st.1 || mv_exists anchored_reports st.2.

(** No constant is recorded unless constants are checked (insertShadowCheck). *)
Definition constants_ok (c : check) : Prop :=
  ClCheckConstantShadow o || negb (isConstantSrc (Shadow c)) = true.

Lemma sort_deferrable_ok st c :
  visit_ok -> check_ok c -> constants_ok c -> deferred_ok st ->
  deferred_ok (sort_deferrable fn st c) /\
  deferred_reports (sort_deferrable fn st c) = deferred_reports st || check_reports c.
Proof.
  intros Hv Hc Hconst. destruct st as [Ess BA]. intros [HE HB].
  unfold sort_deferrable, deferred_ok, deferred_reports in *. cbn [fst snd] in *.
  unfold anchor_loc. destruct (anchorFor _ _) as [A|] eqn:EA; cbn [fmap option_fmap option_map fst snd].
  - apply anchor_clear in EA; [|apply Hc].
    pose proof (reached_clear _ _ _ Hv EA) as Hr. split.
    + split; [done|]. apply (mv_push_Forall (fun _ => src_ok)); [done|apply Hc].
    + rewrite mv_push_exists, orb_assoc. f_equal. unfold anchored_reports, PassChecks.check_reports.
      rewrite Hconst, andb_true_r, Hr. by destruct (OrigIns c).
  - split.
    + split; [|done]. apply Forall_app. split; [done|]. constructor; [|constructor]. by destruct Hc.
    + rewrite existsb_app. cbn [existsb]. rewrite orb_false_r.
      destruct (existsb check_reports Ess), (mv_exists anchored_reports BA);
        cbn [orb]; rewrite ?orb_true_r, ?orb_false_r; done.
Qed.

Lemma sort_all_ok l st :
  visit_ok -> Forall check_ok l -> Forall constants_ok l -> deferred_ok st ->
  deferred_ok (fold_left (sort_deferrable fn) l st) /\
  deferred_reports (fold_left (sort_deferrable fn) l st) = deferred_reports st || existsb check_reports l.
Proof.
  intros Hv Hl. revert st. induction Hl as [|c l Hc _ IH]; intros st Hconst Hst; cbn [fold_left existsb];
    [by rewrite orb_false_r|].
  inversion Hconst as [|? ? Hcc Hcl]; subst.
  destruct (sort_deferrable_ok st c Hv Hc Hcc Hst) as [H1 H2]. destruct (IH _ Hcl H1) as [H3 H4].
  split; [done|]. by rewrite H4, H2, orb_assoc.
Qed.

Lemma coalesced_visit IL count :
  visit_ok -> Forall check_ok IL -> Forall constants_ok IL ->
  reports false (materializeCoalescedChecks o getFirstInsertionPt fn IL count).1 v
  = existsb check_reports IL.
Proof.
  intros Hv Hall Hconst. unfold materializeCoalescedChecks.
  set (ess := filter (fun c => is_essential fn c = true) IL).
  set (def := filter (fun c => is_essential fn c = false) IL).
  assert (Forall check_ok ess /\ Forall check_ok def /\ Forall constants_ok def) as (He & Hd & Hdc).
  { split_and!; by apply Forall_filter_keep. }
  destruct (sort_all_ok def (ess, []) Hv Hd Hdc) as [[H1 H2] H3]; [by split|].
  destruct (fold_left (sort_deferrable fn) def (ess, [])) as [Ess BA].
  unfold deferred_reports in H3. cbn [fst snd] in *.
  destruct (groupByOrigIns_ok Ess H1) as [H4 H5].
  pose proof (runs_reports (groupByOrigIns Ess) count Hv H4) as H6.
  destruct (materialize_all _ (runs _) count) as [es n]. cbn [fst] in H6.
  assert (reports false (materialize_all (fun kv => emitCoalescedCheck o kv.1 kv.2) BA n).1 v
          = mv_exists anchored_reports BA) as H7.
  { apply (materialize_all_reports (fun kv => emitCoalescedCheck o kv.1 kv.2)
             (fun kv : loc * list src => existsb (anchored_reports kv.1) kv.2)).
    rewrite List.Forall_forall in *. intros [A ss] Hin count'. cbn [fst snd].
    rewrite coalesced_reports by (by apply (H2 (A, ss))). unfold anchored_reports.
    clear. destruct (reached v A); cbn; [done|]. by induction ss. }
  destruct (materialize_all _ BA n) as [es' n']. cbn [fst] in *.
  rewrite reports_app, H6, H7, H5, H3. cbn. rewrite orb_false_r.
  symmetry. apply existsb_filter.
Qed.

Lemma legacy_visit IL count :
  visit_ok -> Forall check_ok IL ->
  reports false (materializeChecksLegacy o getFirstInsertionPt fn IL count).1 v
  = existsb check_reports IL.
Proof. apply runs_reports. Qed.
End visit.

(** ** Properties *)

Section properties.
Context {L : LLVM} {LL : LLVMLaws L} (o : PassOptions).
Context (getFirstInsertionPt : list instr -> nat) (fn : list (list instr)) (vscale : Z).

(** An execution of the function: the blocks it visits, in order. *)
Definition execution_ok (IL : list check) (trace : list visit) : Prop :=
  Forall (fun v => visit_ok fn v /\ Forall (check_ok getFirstInsertionPt fn vscale v) IL) trace.

Definition trace_reports (code : list emission) (trace : list visit) : bool :=
  existsb (reports false code) trace.

(** What the instrumentation promises: a recorded check whose instruction is
    executed while its shadow has an uninitialised bit is reported. *)
Definition spec_reports (IL : list check) (trace : list visit) : bool :=
  existsb (fun v => existsb (check_reports o v) IL) trace.

Lemma legacy_trace IL trace count :
  execution_ok IL trace ->
  trace_reports (materializeChecksLegacy o getFirstInsertionPt fn IL count).1 trace
  = spec_reports IL trace.
Proof.
  intros Hall. apply existsb_ext_Forall. eapply List.Forall_impl; [|exact Hall].
  intros v [Hv Hc]. by eapply legacy_visit.
Qed.

Lemma coalesced_trace IL trace count :
  execution_ok IL trace -> Forall (constants_ok o) IL ->
  trace_reports (materializeCoalescedChecks o getFirstInsertionPt fn IL count).1 trace
  = spec_reports IL trace.
Proof.
  intros Hall Hconst. apply existsb_ext_Forall. eapply List.Forall_impl; [|exact Hall].
  intros v [Hv Hc]. by eapply coalesced_visit.
Qed.
End properties.

(** C4: the baseline instrumentation reports on an execution exactly when the
    execution reaches a recorded check whose shadow has an uninitialised bit:
    grouping the checks of an instruction, folding constant shadows away and
    moving the check behind the last shadow it reads lose and add nothing. *)
Theorem legacy_checks_exact `{LLVMLaws} o gfip fn vscale IL trace count :
  execution_ok gfip fn vscale IL trace ->
  trace_reports (materializeChecksLegacy o gfip fn IL count).1 trace = spec_reports o IL trace.
Proof. apply legacy_trace. Qed.

(** C3: the coalesced instrumentation, one check per straight-line segment moved
    down to the segment's anchor, reports on exactly the executions the baseline
    reports on, whether or not the disjunction is built incrementally: the
    anchor is reached whenever the instruction is, because no instruction in
    between can keep control, and every check is either essential or anchored. *)
Theorem coalesced_checks_refine `{LLVMLaws} o gfip fn vscale IL trace count count' :
  execution_ok gfip fn vscale IL trace -> Forall (constants_ok o) IL ->
  trace_reports (materializeCoalescedChecks o gfip fn IL count).1 trace
    = trace_reports (materializeChecksLegacy o gfip fn IL count').1 trace /\
  trace_reports (materializeCoalescedChecks o gfip fn IL count).1 trace = spec_reports o IL trace.
Proof.
  intros He Hc. rewrite (legacy_trace o gfip fn vscale) by done.
  by rewrite (coalesced_trace o gfip fn vscale) by done.
Qed.

(** A block of two loads with their shadow loads, a call that may not return,
    and a third load before the terminator. *)
Definition plain : instr := mkInstr true false false false false false.
Definition a_call : instr := mkInstr false false false false false false.
Definition demo_fn : list (list instr) := [[plain; plain; plain; plain; a_call; plain; plain; plain]].
Definition demo_shadow (i : nat) : src := SrcInst (mkLoc 0 i) (SInt 32).
Definition demo_checks : list check :=
  [mkCheck (demo_shadow 1) (mkLoc 0 0) false; mkCheck (demo_shadow 3) (mkLoc 0 2) false;
   mkCheck (demo_shadow 6) (mkLoc 0 5) false].
Definition demo_first (bb : list instr) : nat := 0.

(** The call does not return; the second load read uninitialised memory. *)
Definition demo_visit : visit :=
  mkVisit 0 4 (fun l => VInt 32 (if decide (l = mkLoc 0 3) then 0xff00 else 0)).

Lemma demo_execution : execution_ok demo_first demo_fn 1 demo_checks [demo_visit].
Proof.
  constructor; [|constructor]. split; [by right|].
  assert (forall i, (i < 8)%nat ->
    clear_path (block demo_fn 0) i (point_after demo_first (block demo_fn 0) (S i)) ->
    check_ok demo_first demo_fn 1 demo_visit (mkCheck (demo_shadow (S i)) (mkLoc 0 i) false)) as Hok.
  { intros i H1 H2. split; [exact H1| |].
    - unfold src_ok. cbn [Shadow demo_shadow src_value demo_visit v_env src_type]. by case_decide.
    - by intros l t [= <- <-] _ _. }
  apply List.Forall_cons; [|apply List.Forall_cons; [|apply List.Forall_cons; [|apply List.Forall_nil]]];
    (apply Hok; [lia|]); (split_and!; [cbn; lia|cbn; lia|]);
    intros j Hj; do 8 (destruct j as [|j]; [cbn in *; first [reflexivity|lia]|]); cbn in Hj; lia.
Qed.

Lemma legacy_checks_exact_witness :
  trace_reports (materializeChecksLegacy options0 demo_first demo_fn demo_checks 0).1 [demo_visit] = true.
Proof. rewrite (legacy_checks_exact options0 demo_first demo_fn 1 _ _ _ demo_execution). reflexivity. Defined.

Lemma coalesced_checks_refine_witness :
  map at_loc (materializeCoalescedChecks options0 demo_first demo_fn demo_checks 0).1 = [mkLoc 0 4; mkLoc 0 7] /\
  trace_reports (materializeCoalescedChecks options0 demo_first demo_fn demo_checks 0).1 [demo_visit] = true.
Proof.
  split; [reflexivity|].
  destruct (coalesced_checks_refine options0 demo_first demo_fn 1 demo_checks [demo_visit] 0 0 demo_execution)
    as [_ H]; [by repeat constructor|]. rewrite H. reflexivity.
Defined.
