(* ===== verification/PassUndef.v ===== *)
(** * Uninitialised values that never pass through memory

    A check at every load cannot see an [undef] that a PHI or a select brings in.
    The pass (src/pass/CompilerQEMUMemorySanitizer.cpp) has two answers, modelled
    here.  [visitReturnInst] records a check of the returned shadow and
    [filterPendingReturnChecks] keeps it only when [returnShadowMayCarryUndef]
    finds a poisoned source in the graph of shadow values; the filter loses no
    report.  [computeUndefSlice] is the forward slice of the values that depend on
    such an [undef], [handleUndefSliceInst] propagates the shadow along it and
    [checkUndefSliceSinks] checks it; a value of the slice whose shadow is clean
    does not depend on the choice LLVM makes for [undef]. *)

From stdpp Require Import relations.
From S2P Require Import Prelude Worklist PassShadow PassChecks.

(** ** The graph of shadow values *)

Inductive sopcode :=
| Phi | Select | Or | And | Xor | ZExt | SExt | Trunc | BitCast | IntToPtr | PtrToInt
| Shl | LShr | AShr
| OtherOpcode.

(** A [Value] of the shadow computation.  The operands of an instruction are
    values, with whether their type is sized. *)
Inductive svalue :=
| SConstant (v : shadow)
| SInstruction (op : sopcode) (operands : list (nat * bool))
| SOtherValue.

Definition looks_through (op : sopcode) : bool :=
  match op with OtherOpcode => false | _ => true end.

(** What the filter uses of LLVM's semantics: the value an instruction computes. *)
Class ShadowSemantics := {
  apply_op : sopcode -> list shadow -> shadow
}.

(** A PHI and a select copy one operand; the bit operations and casts of clean
    shadows are clean. *)
Class ShadowSemanticsLaws `{ShadowSemantics} := {
  apply_clean op vs : op <> Phi -> looks_through op = true ->
    Forall (fun v => isZeroValue v = true) vs -> isZeroValue (apply_op op vs) = true
}.

Section returns.
Context (g : list svalue) (CheckedLoadShadows : gset nat).

(** A C++ [bool] result with the set passed by reference; [None]: out of fuel. *)
Definition search := gset nat -> option (bool * gset nat).

(** [for (Op : operands) if (sized && rec(Op)) return true; return false;] *)
Fixpoint any_operand (rec : nat -> search) (ops : list (nat * bool)) : search := fun Seen =>
  match ops with
  | [] => Some (false, Seen)
  | (o, sized) :: ops =>
      if sized then
        match rec o Seen with
        | Some (true, Seen) => Some (true, Seen)
        | Some (false, Seen) => any_operand rec ops Seen
        | None => None
        end
      else any_operand rec ops Seen
  end.

Fixpoint mayCarryUndef (fuel : nat) (S : nat) : search := fun Seen =>
  match fuel with
  | O => None
  | Datatypes.S fuel =>
      match g !! S with
      | None => Some (true, Seen)
      | Some nd =>
          if bool_decide (S ∈ Seen) then Some (false, Seen)
          else let Seen := {[S]} ∪ Seen in
          match nd with
          | SConstant v => Some (negb (isZeroValue v), Seen)
          | SInstruction op ops =>
              if bool_decide (S ∈ CheckedLoadShadows) then Some (false, Seen)
              else if looks_through op then any_operand (mayCarryUndef fuel) ops Seen
              else Some (true, Seen)
          | SOtherValue =>
              if bool_decide (S ∈ CheckedLoadShadows) then Some (false, Seen) else Some (true, Seen)
          end
      end
  end.

Definition returnShadowMayCarryUndef (S : nat) : search :=
  mayCarryUndef (Datatypes.S (length g)) S.

(** *** The specification: a path to a leaf that is not known clean *)

Definition inspects (S S' : nat) : Prop :=
  exists op ops, g !! S = Some (SInstruction op ops) /\ looks_through op = true /\
                 S ∉ CheckedLoadShadows /\ (S', true) ∈ ops.

Definition suspicious (S : nat) : Prop :=
  match g !! S with
  | None => True
  | Some (SConstant v) => isZeroValue v = false
  | Some (SInstruction op _) => S ∉ CheckedLoadShadows /\ looks_through op = false
  | Some SOtherValue => S ∉ CheckedLoadShadows
  end.

(** ** The search is total and exact *)

Definition dom_ok (Seen : gset nat) : Prop := Seen ⊆ set_seq 0 (length g).

Lemma any_operand_total rec ops Seen :
  (forall o X, Seen ⊆ X -> dom_ok X -> exists b X', rec o X = Some (b, X') /\ X ⊆ X' /\ dom_ok X') ->
  dom_ok Seen ->
  exists b Seen', any_operand rec ops Seen = Some (b, Seen') /\ Seen ⊆ Seen' /\ dom_ok Seen'.
Proof.
  revert Seen. induction ops as [|[o sized] ops IH]; intros Seen Hrec Hok; cbn [any_operand].
  - exists false, Seen. split_and!; try done.
  - destruct sized; [|by apply IH].
    destruct (Hrec o Seen) as (b & X' & -> & Hsub & Hok'); [done|done|].
    destruct b; [by exists true, X'|].
    destruct (IH X') as (b & X'' & Hany & Hsub' & Hok''); [|done|].
    + intros o' Y HY. apply Hrec. by transitivity X'.
    + exists b, X''. split_and!; try done. by transitivity X'.
Qed.

(** Each level of the recursion adds a value to Seen: the graph's size bounds it. *)
Lemma mayCarryUndef_total fuel S Seen :
  dom_ok Seen -> (length g < fuel + size Seen)%nat ->
  exists b Seen', mayCarryUndef fuel S Seen = Some (b, Seen') /\ Seen ⊆ Seen' /\ dom_ok Seen'.
Proof.
  revert S Seen. induction fuel as [|fuel IH]; intros S Seen Hok Hfuel; cbn [mayCarryUndef].
  - apply subseteq_size in Hok. rewrite size_set_seq in Hok. lia.
  - destruct (g !! S) as [nd|] eqn:Hg; [|by exists true, Seen].
    apply lookup_lt_Some in Hg.
    case_bool_decide as HS; [by exists false, Seen|].
    destruct (room_insert _ _ _ Hg HS Hok) as (Hsize & Hok' & _).
    assert (Seen ⊆ {[S]} ∪ Seen) as Hsub by set_solver.
    destruct nd as [v|op ops|].
    + by exists (negb (isZeroValue v)), ({[S]} ∪ Seen).
    + case_bool_decide; [by exists false, ({[S]} ∪ Seen)|].
      destruct (looks_through op); [|by exists true, ({[S]} ∪ Seen)].
      destruct (any_operand_total (mayCarryUndef fuel) ops ({[S]} ∪ Seen)) as (b & X & ? & ? & ?);
        [| done |].
      * intros o X HX HokX. apply IH; [done|]. apply subseteq_size in HX. lia.
      * exists b, X. split_and!; try done. by transitivity ({[S]} ∪ Seen).
    + case_bool_decide; [by exists false, ({[S]} ∪ Seen)|by exists true, ({[S]} ∪ Seen)].
Qed.

(** [true] is answered with a path to a suspicious value. *)
Lemma any_operand_true rec ops Seen Seen' :
  any_operand rec ops Seen = Some (true, Seen') ->
  exists o X X', (o, true) ∈ ops /\ rec o X = Some (true, X').
Proof.
  revert Seen. induction ops as [|[o [|]] ops IH]; intros Seen; cbn [any_operand]; [done| |].
  - destruct (rec o Seen) as [[[|] X]|] eqn:Hrec; try done.
    + intros _. exists o, Seen, X. split; [left|done].
    + intros (o' & X' & X'' & Hin & Ho)%IH. exists o', X', X''. split; [by right|done].
  - intros (o' & X' & X'' & Hin & Ho)%IH. exists o', X', X''. split; [by right|done].
Qed.

Lemma mayCarryUndef_true fuel S Seen Seen' :
  mayCarryUndef fuel S Seen = Some (true, Seen') -> exists S', rtc inspects S S' /\ suspicious S'.
Proof.
  revert S Seen Seen'. induction fuel as [|fuel IH]; intros S Seen Seen'; cbn [mayCarryUndef]; [done|].
  destruct (g !! S) as [nd|] eqn:Hg.
  2:{ intros _. exists S. split; [done|]. unfold suspicious. by rewrite Hg. }
  case_bool_decide; [done|].
  destruct nd as [v|op ops|].
  - intros [= Hv _]. exists S. split; [done|]. unfold suspicious. rewrite Hg. by destruct (isZeroValue v).
  - case_bool_decide as Hchk; [done|]. destruct (looks_through op) eqn:Hop.
    + intros (o & X & X' & Hin & (S' & Hrtc & HS')%IH)%any_operand_true.
      exists S'. split; [|done]. eapply rtc_l; [|done]. by exists op, ops.
    + intros _. exists S. split; [done|]. unfold suspicious. by rewrite Hg.
  - case_bool_decide as Hchk; [done|]. intros _. exists S. split; [done|]. unfold suspicious. by rewrite Hg.
Qed.

(** [false] is answered with a set that has no suspicious value and is closed
    under inspection, apart from what was already open before. *)
Definition explored (Seen Seen' : gset nat) : Prop :=
  forall x, x ∈ Seen' -> x ∉ Seen -> ~ suspicious x /\ (forall y, inspects x y -> y ∈ Seen').

Lemma explored_trans X Y Z' : X ⊆ Y -> Y ⊆ Z' -> explored X Y -> explored Y Z' -> explored X Z'.
Proof.
  intros HXY HYZ H1 H2 x Hx HX. destruct (decide (x ∈ Y)) as [HY|HY].
  - destruct (H1 x HY HX) as [Hs Hc]. split; [done|]. intros y Hy. apply HYZ. by apply Hc.
  - by apply H2.
Qed.

Lemma explored_leaf S Seen : ~ suspicious S -> (forall y, ~ inspects S y) -> explored Seen ({[S]} ∪ Seen).
Proof.
  intros Hs Hc x [Hx|Hx]%elem_of_union HX; [|done]. apply elem_of_singleton in Hx as ->.
  split; [done|]. intros y Hy. by destruct (Hc y).
Qed.

Lemma any_operand_false rec ops Seen Seen' :
  (forall o X X', rec o X = Some (false, X') -> X ⊆ X' /\ o ∈ X' /\ explored X X') ->
  any_operand rec ops Seen = Some (false, Seen') ->
  Seen ⊆ Seen' /\ (forall o, (o, true) ∈ ops -> o ∈ Seen') /\ explored Seen Seen'.
Proof.
  intros Hrec. revert Seen. induction ops as [|[o [|]] ops IH]; intros Seen; cbn [any_operand].
  - intros [= ->]. split; [done|]. split; [|intros x ? Hx; by destruct Hx]. intros o Ho. by apply not_elem_of_nil in Ho.
  - destruct (rec o Seen) as [[[|] X]|] eqn:Ho; try done.
    destruct (Hrec _ _ _ Ho) as (Hsub & Hin & Hexp).
    intros (Hsub' & Hops & Hexp')%IH. split; [by transitivity X|]. split.
    + intros o' [[= <-]|Ho']%elem_of_cons; [by apply Hsub'|by apply Hops].
    + by apply (explored_trans _ X).
  - intros (Hsub' & Hops & Hexp')%IH. split; [done|]. split; [|done].
    intros o' [[=]|Ho']%elem_of_cons. by apply Hops.
Qed.

Lemma mayCarryUndef_false fuel S Seen Seen' :
  mayCarryUndef fuel S Seen = Some (false, Seen') -> Seen ⊆ Seen' /\ S ∈ Seen' /\ explored Seen Seen'.
Proof.
  revert S Seen Seen'. induction fuel as [|fuel IH]; intros S Seen Seen'; cbn [mayCarryUndef]; [done|].
  destruct (g !! S) as [nd|] eqn:Hg; [|done].
  case_bool_decide as HS; [intros [= <-]; by split_and!; [| |intros x ? Hx; destruct Hx]|].
  assert (forall op ops y, nd = SInstruction op ops -> inspects S y ->
            looks_through op = true /\ S ∉ CheckedLoadShadows /\ (y, true) ∈ ops) as Hinsp.
  { intros op ops y -> (op' & ops' & Hg' & ? & ? & ?). rewrite Hg in Hg'. by injection Hg' as <- <-. }
  assert (Seen ⊆ {[S]} ∪ Seen /\ S ∈ {[S]} ∪ Seen) as [Hsub HinS] by set_solver.
  destruct nd as [v|op ops|].
  - intros [= Hv <-]. split; [done|]. split; [done|]. apply explored_leaf.
    + unfold suspicious. rewrite Hg. by destruct (isZeroValue v).
    + intros y (op' & ops' & Hg' & _). by rewrite Hg in Hg'.
  - case_bool_decide as Hchk.
    + intros [= <-]. split; [done|]. split; [done|]. apply explored_leaf.
      * unfold suspicious. rewrite Hg. by intros [? _].
      * intros y Hy. by destruct (Hinsp _ _ _ eq_refl Hy) as (_ & ? & _).
    + destruct (looks_through op) eqn:Hop; [|done].
      intros (Hsub' & Hops & Hexp)%(any_operand_false _ _ _ _ IH).
      split; [set_solver|]. split; [by apply Hsub'|].
      intros x Hx HX. destruct (decide (x = S)) as [->|Hne]; [|apply Hexp; set_solver].
      split.
      * unfold suspicious. rewrite Hg. intros [_ ?]. congruence.
      * intros y Hy. apply Hops. by destruct (Hinsp _ _ _ eq_refl Hy) as (_ & _ & ?).
  - case_bool_decide as Hchk; [|done]. intros [= <-]. split; [done|]. split; [done|]. apply explored_leaf.
    + unfold suspicious. rewrite Hg. by intros ?.
    + intros y (op' & ops' & Hg' & _). by rewrite Hg in Hg'.
Qed.

Lemma search_exact S :
  exists b Seen, returnShadowMayCarryUndef S ∅ = Some (b, Seen) /\
    (b = true <-> exists S', rtc inspects S S' /\ suspicious S').
Proof.
  destruct (mayCarryUndef_total (Datatypes.S (length g)) S ∅) as (b & Seen & Hs & _);
    [unfold dom_ok; set_solver | lia |].
  exists b, Seen. split; [done|]. split.
  - intros ->. by eapply mayCarryUndef_true.
  - intros (S' & Hrtc & Hbad). destruct b; [done|]. exfalso.
    destruct (mayCarryUndef_false _ _ _ _ Hs) as (_ & HS & Hexp).
    assert (S' ∈ Seen) as HS'.
    { clear Hs Hbad. induction Hrtc as [|x y z Hxy _ IH]; [done|]. apply IH.
      by apply (Hexp x HS). }
    by apply (Hexp S' HS').
Qed.

End returns.

Section filter.
Context (g : list svalue) (CheckedLoadShadows : gset nat).
Local Notation suspicious := (suspicious g CheckedLoadShadows).
Local Notation inspects := (inspects g CheckedLoadShadows).

(** *** The values a shadow takes when no load check fires *)

Context `{ShadowSemantics}.

Inductive takes : nat -> shadow -> Prop :=
| takes_constant S v : g !! S = Some (SConstant v) -> takes S v
| takes_checked S v : S ∈ CheckedLoadShadows -> isZeroValue v = true ->
    (forall c, g !! S <> Some (SConstant c)) -> takes S v
| takes_phi S ops o v : g !! S = Some (SInstruction Phi ops) -> S ∉ CheckedLoadShadows ->
    (o, true) ∈ ops -> takes o v -> takes S v
| takes_op S op ops vs : g !! S = Some (SInstruction op ops) -> S ∉ CheckedLoadShadows ->
    op <> Phi -> looks_through op = true -> takes_all ops vs -> takes S (apply_op op vs)
| takes_other S v : suspicious S -> (forall c, g !! S <> Some (SConstant c)) -> takes S v
with takes_all : list (nat * bool) -> list shadow -> Prop :=
| takes_nil : takes_all [] []
| takes_cons o ops v vs : takes o v -> takes_all ops vs -> takes_all ((o, true) :: ops) (v :: vs).

(** *** [visitReturnInst] and the deferred checks *)

Record ReturnInst := mkReturn {
  (** the returned value's shadow, if the function returns a value *)
  RetShadow : option nat;
  (** isAMustTailRetVal *)
  mustTail : bool;
  (** integer, pointer or floating point *)
  ScalarRet : bool;
  ret_loc : loc
}.

Definition visitReturnInst (flip ClCheckReturns hasNoUndefRet : bool) (ins : ReturnInst)
    (PendingReturnChecks : list (nat * loc)) : list (nat * loc) :=
  if flip then PendingReturnChecks
  else match RetShadow ins with
  | None => PendingReturnChecks
  | Some s =>
      if mustTail ins then PendingReturnChecks
      else if (if ClCheckReturns then ScalarRet ins else hasNoUndefRet)
      then PendingReturnChecks ++ [(s, ret_loc ins)]
      else PendingReturnChecks
  end.

(** The shadow value in the representation of PassChecks. *)
Context (src_of : nat -> src).

Definition pushShadowCheck (InsertChecks : bool) (c : PassChecks.check)
    (InstrumentationList : list PassChecks.check) : list PassChecks.check :=
  if InsertChecks then InstrumentationList ++ [c] else InstrumentationList.

Definition return_check (pr : nat * loc) : PassChecks.check := mkCheck (src_of pr.1) pr.2 true.

(** The new InstrumentationList; PendingReturnChecks is empty afterwards. *)
Definition filterPendingReturnChecks (InsertChecks : bool) (Pending : list (nat * loc))
    (InstrumentationList : list PassChecks.check) : option (list PassChecks.check) :=
  foldl (fun acc pr =>
    match acc, returnShadowMayCarryUndef g CheckedLoadShadows pr.1 ∅ with
    | Some l, Some (true, _) => Some (pushShadowCheck InsertChecks (return_check pr) l)
    | Some l, Some (false, _) => Some l
    | _, _ => None
    end) (Some InstrumentationList) Pending.

(** ** The filter loses no report *)

Scheme takes_mind := Minimality for takes Sort Prop
  with takes_all_mind := Minimality for takes_all Sort Prop.

Context `{!ShadowSemanticsLaws}.

Lemma takes_clean S v :
  takes S v -> (forall S', rtc inspects S S' -> ~ suspicious S') -> isZeroValue v = true.
Proof.
  intros Ht. induction Ht using takes_mind with
    (P0 := fun ops vs => (forall o S', (o, true) ∈ ops -> rtc inspects o S' -> ~ suspicious S') ->
                         Forall (fun v => isZeroValue v = true) vs).
  - intros Hclean. specialize (Hclean S (rtc_refl _ _)). unfold suspicious in Hclean.
    match goal with Hg : g !! S = _ |- _ => rewrite Hg in Hclean end. by destruct (isZeroValue v).
  - done.
  - intros Hclean. apply IHHt. intros S' HS'. apply Hclean. eapply rtc_l; [|done]. by exists Phi, ops.
  - intros Hclean. apply apply_clean; [done..|]. apply IHHt.
    intros o S' Ho HS'. apply Hclean. eapply rtc_l; [|done]. by exists op, ops.
  - intros Hclean. by destruct (Hclean S (rtc_refl _ _)).
  - constructor.
  - intros Hclean. constructor.
    + apply IHHt. intros S' HS'. apply (Hclean o); [left|done].
    + apply IHHt0. intros o' S' Ho. apply (Hclean o'). by right.
Qed.

Context (o : PassOptions).

Lemma filter_one pr l :
  exists b, filterPendingReturnChecks true [pr] l = Some (if b : bool then l ++ [return_check pr] else l) /\
    (b = true <-> exists S', rtc inspects pr.1 S' /\ suspicious S').
Proof.
  unfold filterPendingReturnChecks. cbn [foldl].
  destruct (search_exact g CheckedLoadShadows pr.1) as (b & Seen & -> & Hb). exists b. split; [by destruct b|done].
Qed.

Lemma filter_app InsertChecks p1 p2 l :
  filterPendingReturnChecks InsertChecks (p1 ++ p2) l =
  match filterPendingReturnChecks InsertChecks p1 l with
  | Some l => filterPendingReturnChecks InsertChecks p2 l
  | None => None
  end.
Proof.
  unfold filterPendingReturnChecks. rewrite foldl_app. set (step := fun _ _ => _).
  destruct (foldl step (Some l) p1); [done|]. by induction p2.
Qed.

Lemma filter_reports Pending l v :
  (forall pr, pr ∈ Pending -> takes pr.1 (src_value (v_env v) (src_of pr.1))) ->
  exists acc, filterPendingReturnChecks true Pending l = Some acc /\
    existsb (check_reports o v) acc = existsb (check_reports o v) (l ++ map return_check Pending).
Proof.
  revert l. induction Pending as [|pr Pending IH]; intros l Ht.
  - exists l. by rewrite app_nil_r.
  - destruct (filter_one pr l) as (b & Hf & Hb).
    destruct (IH (if b then l ++ [return_check pr] else l)) as (acc & Hacc & Heq).
    { intros pr' Hpr'. apply Ht. by right. }
    exists acc. split; [change (pr :: Pending) with ([pr] ++ Pending); by rewrite filter_app, Hf|].
    rewrite Heq. destruct b; [by rewrite <- app_assoc|]. rewrite !existsb_app. f_equal. cbn [map existsb].
    assert (check_reports o v (return_check pr) = false) as ->; [|done].
    unfold check_reports. cbn [return_check Shadow]. apply andb_false_iff. right.
    assert (isZeroValue (src_value (v_env v) (src_of pr.1)) = true) as Hz.
    { apply (takes_clean pr.1); [apply Ht; left|]. intros S' HS' Hbad.
      assert (false = true) by (apply Hb; by exists S'). done. }
    by apply negb_true_iff.
Qed.
End filter.

(** ** The slice of the values that depend on [undef] *)

(** An operand of the original IR, with its type. *)
Inductive oval := OConstant (c : Z) | OUndef | OArgument (a : Z) | OInst (n : nat).
Record operand := mkOperand { o_val : oval; o_ty : llvm_ty }.

Inductive okind :=
| KPhi | KSelect | KBinary | KUnary | KCast | KCmp | KGEP
| KBranch (conditional : bool) | KSwitch | KLoad | KStore
(** inline assembly or intrinsic; for each argument NoUndef and ByVal *)
| KCall (exempt : bool) (attrs : list (bool * bool))
| KOther.

Record oinst := mkInst {
  kind : okind;
  ty : llvm_ty;
  nosanitize : bool;
  operands : list operand
}.

#[export] Instance oval_eq_dec : EqDecision oval.
Proof. solve_decision. Defined.

Definition isUndefSliceScalar (t : llvm_ty) : bool :=
  match t with TInt _ | TPrim _ => true | _ => false end.

(** BinaryOperator, UnaryOperator, CastInst, CmpInst, SelectInst, GetElementPtrInst *)
Definition isTransferKind (k : okind) : bool :=
  match k with KSelect | KBinary | KUnary | KCast | KCmp | KGEP => true | _ => false end.

Definition isPhiKind (k : okind) : bool := match k with KPhi => true | _ => false end.

Section slice.
Context (fn : list oinst).

(** The list filled by [visit]. *)
Context (Instructions : list nat).

Definition isUndef (op : operand) : bool := match o_val op with OUndef => true | _ => false end.

Definition isSeed (ins : oinst) : bool :=
  isUndefSliceScalar (ty ins) &&
  match kind ins, operands ins with
  | KPhi, ops => existsb isUndef ops
  | KSelect, [_; t; f] => isUndef t || isUndef f
  | _, _ => false
  end.

(** The instructions that have the value as an operand. *)
Definition users (V : nat) : list nat :=
  List.filter (fun U => match fn !! U with
                        | Some ins => bool_decide (OInst V ∈ o_val <$> operands ins)
                        | None => false
                        end) (seq 0 (length fn)).

Definition isTransferUser (U : nat) : bool :=
  match fn !! U with
  | Some ins => negb (nosanitize ins) && (isPhiKind (kind ins) || isTransferKind (kind ins)) &&
                isUndefSliceScalar (ty ins)
  | None => false
  end.

Definition seeds (n : nat) : bool :=
  match fn !! n with Some ins => isSeed ins | None => false end.

(** The first loop: Work and UndefSlice. *)
Definition slice_seeds : wl_state := fold_left (wl_push seeds) Instructions ([], ∅).

(** [while (!Work.empty())] *)
Definition computeUndefSlice : option (gset nat) :=
  snd <$> worklist (R := unit) users (fun _ => isTransferUser) (fun _ => None) (length fn) slice_seeds.

(** *** The specification *)

Definition seed (n : nat) : Prop :=
  n ∈ Instructions /\ exists ins, fn !! n = Some ins /\ isSeed ins = true.

Definition flows (V U : nat) : Prop :=
  isTransferUser U = true /\ exists ins, fn !! U = Some ins /\ OInst V ∈ o_val <$> operands ins.

Definition in_slice (n : nat) : Prop := exists s, seed s /\ rtc flows s n.

Lemma elem_of_users V U :
  U ∈ users V <-> exists ins, fn !! U = Some ins /\ OInst V ∈ o_val <$> operands ins.
Proof.
  unfold users. rewrite list_elem_of_In, filter_In, <- list_elem_of_In, elem_of_seq. split.
  - intros [_ HU]. destruct (fn !! U) as [ins|]; [|done]. apply bool_decide_eq_true in HU. eauto.
  - intros (ins & Hins & HU). rewrite Hins. split; [|by apply bool_decide_eq_true].
    apply lookup_lt_Some in Hins. lia.
Qed.

Lemma flows_users V U : flows V U <-> U ∈ users V /\ isTransferUser U = true.
Proof. rewrite elem_of_users. unfold flows. tauto. Qed.

(** *** The worklist *)

Lemma seed_elem s : seed s <-> s ∈ Instructions /\ seeds s = true.
Proof.
  unfold seed, seeds. split.
  - intros [? (ins & -> & ?)]. done.
  - intros [? Hs]. destruct (fn !! s) as [ins|]; [|done]. eauto.
Qed.

Lemma leads_flows V U : leads users (fun _ => isTransferUser) V U <-> flows V U.
Proof. by rewrite flows_users. Qed.

Lemma reachable_in_slice n : reachable users (fun _ => isTransferUser) seed n <-> in_slice n.
Proof.
  unfold reachable, in_slice.
  split; intros (s & Hs & Hrtc); exists s; (split; [done|]);
    (eapply rtc_subrel; [|exact Hrtc]); intros x y; apply leads_flows.
Qed.

Lemma computeUndefSlice_spec :
  exists X, computeUndefSlice = Some X /\ forall n, n ∈ X <-> in_slice n.
Proof.
  assert (forall n ins, fn !! n = Some ins -> (n < length fn)%nat) as Hlt by (intros; by eapply lookup_lt_Some).
  destruct (wl_inv_start (R := unit) users (fun _ => isTransferUser) (fun _ => None) (length fn) seed seeds Instructions
              seed_elem) as [Hinv Hlen].
  { intros s (_ & ins & Hs & _). by eapply Hlt. }
  fold slice_seeds in Hinv, Hlen.
  destruct (worklist_exact (R := unit) users (fun _ => isTransferUser) (fun _ => None) (length fn) seed) with
    (fuel := length fn) (st := slice_seeds) as (r & X & Hr & Hx).
  - intros V U [HU _]. apply elem_of_users in HU as (ins & HU & _). by eapply Hlt.
  - done.
  - lia.
  - unfold computeUndefSlice. rewrite Hr. exists X. split; [done|]. intros n.
    rewrite <- reachable_in_slice. destruct r as [y|]; [by destruct Hx as (x & _ & ?)|apply Hx].
Qed.

(** *** The shadows of the slice *)

Context (flip PoisonUndef : bool) (vscale : Z).
Context (UndefSlice : gset nat).

Definition inSlice (op : operand) : bool :=
  match o_val op with OInst n => bool_decide (n ∈ UndefSlice) | _ => false end.

Definition clean_shadow (t : llvm_ty) : shadow := default (VInt 0 0) (getCleanShadow flip vscale t).

(** [getShadow] of an UndefValue. *)
Definition getShadow_undef (t : llvm_ty) : shadow :=
  match getShadowTy t with
  | Some st => if PoisonUndef then getPoisonedShadow flip vscale st else clean_shadow t
  | None => VInt 0 0
  end.

(** An operand of an instruction being handled, with what [getShadow] gives for it. *)
Definition shadowed : Type := operand * shadow.

Definition getUndefSliceShadow (V : shadowed) : shadow :=
  if isUndef V.1 || inSlice V.1 then V.2 else clean_shadow (o_ty V.1).

(** [CreateSExt] of a bit to a shadow type, [CreateOr] of two scalar shadows. *)
Definition sext_bool (t : llvm_ty) (b : bool) : shadow :=
  match getShadowTy t with
  | Some st => splat vscale (fun w => if b then Z.ones w else 0) st
  | None => VInt 0 0
  end.
Definition or_shadow (a b : shadow) : shadow :=
  VInt (convertShadowToScalar flip a).1
       (Z.lor (convertShadowToScalar flip a).2 (convertShadowToScalar flip b).2).

Definition isSized (t : llvm_ty) : bool := match getShadowTy t with Some _ => true | None => false end.

(** [Acc]: the OR of the operands that count. *)
Definition slice_acc (ops : list shadowed) : option bool :=
  fold_left (fun acc V =>
    if negb (isUndef V.1) && negb (inSlice V.1) then acc
    else if negb (isSized (o_ty V.1)) then acc
    else let B := convertToBool flip V.2 in
         Some (match acc with Some a => a || B | None => B end)) ops None.

(** [cond]: the run-time value of a select's condition. *)
Definition handleUndefSliceInst (ins : oinst) (cond : bool) (ops : list shadowed) : shadow :=
  match kind ins, ops with
  | KSelect, [c; t; f] =>
      let S := if cond then getUndefSliceShadow t else getUndefSliceShadow f in
      if inSlice c.1 then or_shadow S (sext_bool (ty ins) (convertToBool flip c.2)) else S
  | _, _ =>
      match slice_acc ops with
      | Some b => sext_bool (ty ins) b
      | None => clean_shadow (ty ins)
      end
  end.

(** The operands [checkUndefSliceSinks] passes to [insertShadowCheck]; a call's
    operands are its arguments. *)
Definition checkUndefSliceSinks (ClCheckAccessAddress EagerChecks : bool) (ins : oinst) : list operand :=
  match kind ins, operands ins with
  | KBranch conditional, c :: _ => if conditional && inSlice c then [c] else []
  | KSwitch, c :: _ => if inSlice c then [c] else []
  | KLoad, p :: _ => if negb ClCheckAccessAddress && inSlice p then [p] else []
  | KStore, _ :: p :: _ => if negb ClCheckAccessAddress && inSlice p then [p] else []
  | KCall exempt attrs, args =>
      if EagerChecks || exempt then []
      else map fst (List.filter (fun a => inSlice a.1 && a.2.1 && negb a.2.2) (zip args attrs))
  | _, _ => []
  end.

(** *** Two executions that differ in what [undef] is

    [sees n v1 v2 sh]: along the same path, instruction [n] computes [v1] in one
    execution and [v2] in the other, and the first has shadow [sh].  What is not
    a scalar transfer or PHI (a load, a call, a freeze) gives the same value. *)

(** The value LLVM computes for an instruction from those of its operands. *)
Context (compute : nat -> list Z -> Z).

Inductive sees : nat -> Z -> Z -> shadow -> Prop :=
| sees_phi n ins k op v1 v2 sh :
    isTransferUser n = true -> fn !! n = Some ins -> kind ins = KPhi ->
    operands ins !! k = Some op -> sees_op op v1 v2 sh -> sees n v1 v2 sh
| sees_select n ins c t f c1 c2 cs t1 t2 ts f1 f2 fs sh :
    isTransferUser n = true -> fn !! n = Some ins -> kind ins = KSelect -> operands ins = [c; t; f] ->
    sees_op c c1 c2 cs -> sees_op t t1 t2 ts -> sees_op f f1 f2 fs ->
    (n ∈ UndefSlice -> sh = handleUndefSliceInst ins (negb (c1 =? 0)) [(c, cs); (t, ts); (f, fs)]) ->
    sees n (if c1 =? 0 then f1 else t1) (if c2 =? 0 then f2 else t2) sh
| sees_compute n ins vs1 vs2 shs sh :
    isTransferUser n = true -> fn !! n = Some ins -> isTransferKind (kind ins) = true ->
    kind ins <> KSelect -> sees_ops (operands ins) vs1 vs2 shs ->
    (n ∈ UndefSlice -> sh = handleUndefSliceInst ins true (zip (operands ins) shs)) ->
    sees n (compute n vs1) (compute n vs2) sh
| sees_opaque n v sh : isTransferUser n = false -> sees n v v sh
with sees_op : operand -> Z -> Z -> shadow -> Prop :=
| sees_constant op c sh : o_val op = OConstant c -> sees_op op c c sh
| sees_argument op a v sh : o_val op = OArgument a -> sees_op op v v sh
| sees_undef op v1 v2 : isUndef op = true -> sees_op op v1 v2 (getShadow_undef (o_ty op))
| sees_inst op n v1 v2 sh : o_val op = OInst n -> sees n v1 v2 sh -> sees_op op v1 v2 sh
with sees_ops : list operand -> list Z -> list Z -> list shadow -> Prop :=
| sees_nil : sees_ops [] [] [] []
| sees_cons op ops v1 v2 sh vs1 vs2 shs :
    sees_op op v1 v2 sh -> sees_ops ops vs1 vs2 shs ->
    sees_ops (op :: ops) (v1 :: vs1) (v2 :: vs2) (sh :: shs).

Scheme sees_mind := Minimality for sees Sort Prop
  with sees_op_mind := Minimality for sees_op Sort Prop
  with sees_ops_mind := Minimality for sees_ops Sort Prop.

(** Well-formed IR: the merged values and the arms have the result's type, an
    operand has the type of its definition, a scalar has at least one bit, and
    an [undef] operand that LLVM did not fold is one of a PHI or of a select's arms. *)
Definition wf_scalar (t : llvm_ty) : bool :=
  match t with TInt w | TPrim w => 0 <? w | _ => false end.

Definition wf_inst (ins : oinst) : Prop :=
  (isUndefSliceScalar (ty ins) = true -> wf_scalar (ty ins) = true) /\
  (forall op n d, op ∈ operands ins -> o_val op = OInst n -> fn !! n = Some d -> o_ty op = ty d) /\
  (isUndefSliceScalar (ty ins) = true ->
     match kind ins, operands ins with
     | KPhi, ops => Forall (fun op => o_ty op = ty ins) ops
     | KSelect, [c; t; f] => isUndef c = false /\ o_ty t = ty ins /\ o_ty f = ty ins
     | KSelect, _ => False
     | k, ops => isTransferKind k = true -> existsb isUndef ops = false
     end).
End slice.

(** ** Clean shadows along the slice *)

Lemma scalar_shadow t : isUndefSliceScalar t = true -> exists w, getShadowTy t = Some (SInt w) /\ wf_scalar t = (0 <? w).
Proof. destruct t; try done; eauto. Qed.

Lemma ones_nonzero w : 0 < w -> (Z.ones w =? 0) = false.
Proof.
  intros Hw. apply Z.eqb_neq. rewrite Z.ones_equiv.
  pose proof (Z.pow_gt_1 2 w ltac:(lia)) as [H _]. specialize (H Hw). lia.
Qed.

Lemma convert_sext vscale t b :
  isUndefSliceScalar t = true -> wf_scalar t = true -> convertToBool false (sext_bool vscale t b) = b.
Proof.
  intros (w & Hw & Hwf)%scalar_shadow Hsc. rewrite Hwf in Hsc. apply Z.ltb_lt in Hsc.
  unfold sext_bool. rewrite Hw. cbn [splat]. unfold convertToBool. rewrite int_to_bool_false.
  cbn [convertShadowToScalar snd]. destruct b; [by rewrite ones_nonzero|done].
Qed.

Lemma convert_undef vscale t :
  isUndefSliceScalar t = true -> wf_scalar t = true ->
  convertToBool false (getShadow_undef false true vscale t) = true.
Proof.
  intros Hs Hwf. etransitivity; [|exact (convert_sext vscale t true Hs Hwf)]. reflexivity.
Qed.

Lemma convert_or a b :
  convertToBool false (or_shadow false a b) = convertToBool false a || convertToBool false b.
Proof. unfold convertToBool. rewrite !int_to_bool_false. apply lor_nonzero. Qed.

Section slice_sound.
Context (fn : list oinst) (Instructions : list nat) (vscale : Z) (compute : nat -> list Z -> Z).
Context (UndefSlice : gset nat).
Context (Hslice : forall n, n ∈ UndefSlice <-> in_slice fn Instructions n).
(** [visit] keeps every instruction the slice can go through. *)
Context (Hvisited : forall n, isTransferUser fn n = true -> n ∈ Instructions).
Context (Hwf : forall n ins, fn !! n = Some ins -> wf_inst fn ins).

Local Notation inSlice := (inSlice UndefSlice).
Local Notation sees := (sees fn false true vscale UndefSlice compute).
Local Notation sees_op := (sees_op fn false true vscale UndefSlice compute).

Definition counted (V : shadowed) : bool := (isUndef V.1 || inSlice V.1) && isSized (o_ty V.1).

Lemma slice_acc_spec flip ops :
  slice_acc flip UndefSlice ops =
  if existsb counted ops then Some (existsb (fun V => counted V && convertToBool flip V.2) ops) else None.
Proof.
  unfold slice_acc. set (step := fun _ _ => _).
  assert (forall acc, fold_left step ops acc =
    if existsb counted ops
    then Some (default false acc || existsb (fun V => counted V && convertToBool flip V.2) ops)
    else acc) as ->; [|done].
  induction ops as [|V ops IH]; intros acc; cbn [fold_left existsb]; [done|].
  rewrite IH. unfold step. rewrite <- negb_orb.
  assert (counted V = (isUndef V.1 || inSlice V.1) && isSized (o_ty V.1)) as -> by done.
  destruct (isUndef V.1 || inSlice V.1), (isSized (o_ty V.1)); cbn [negb andb orb]; try done.
  destruct (existsb counted ops) eqn:He.
  - by destruct acc; cbn [default]; rewrite ?orb_assoc.
  - assert (existsb (fun V => counted V && convertToBool flip V.2) ops = false) as ->.
    { clear -He. induction ops as [|V' ops IH]; [done|]. cbn [existsb] in *.
      apply orb_false_iff in He as [-> He]. by rewrite IH. }
    by destruct acc; cbn [default]; rewrite ?orb_false_r.
Qed.

Lemma slice_transfer n : n ∈ UndefSlice -> isTransferUser fn n = true \/ exists ins, fn !! n = Some ins /\ isSeed ins = true.
Proof.
  intros (s & (_ & Hs) & Hrtc)%Hslice. apply rtc_inv_r in Hrtc as [->|(y & _ & Hu & _)]; [by right|by left].
Qed.

Lemma slice_scalar n ins : n ∈ UndefSlice -> fn !! n = Some ins -> isUndefSliceScalar (ty ins) = true.
Proof.
  intros [Hu|(ins' & Hn' & Hs)]%slice_transfer Hn.
  - unfold isTransferUser in Hu. rewrite Hn in Hu. by apply andb_true_iff in Hu as [_ ?].
  - rewrite Hn in Hn'. injection Hn' as <-. unfold isSeed in Hs. by apply andb_true_iff in Hs as [? _].
Qed.

(** Outside the slice an instruction has no [undef] operand and none in the slice. *)
Lemma outside_operand n ins op :
  isTransferUser fn n = true -> fn !! n = Some ins -> n ∉ UndefSlice -> op ∈ operands ins ->
  isUndef op || inSlice op = false.
Proof.
  intros Hu Hn Hout Hop.
  assert (isUndefSliceScalar (ty ins) = true /\ isPhiKind (kind ins) || isTransferKind (kind ins) = true)
    as [Hs Hk].
  { unfold isTransferUser in Hu. rewrite Hn in Hu. apply andb_true_iff in Hu as [Hu ?].
    by apply andb_true_iff in Hu as [_ ?]. }
  apply orb_false_iff. split.
  - apply not_true_is_false. intros Hund. apply Hout, Hslice. exists n. split; [|done].
    split; [by apply Hvisited|]. exists ins. split; [done|]. unfold isSeed. rewrite Hs. cbn [andb].
    assert (existsb isUndef (operands ins) = true) as Hex.
    { apply existsb_exists_elem. by exists op. }
    destruct (Hwf _ _ Hn) as (_ & _ & Hops). specialize (Hops Hs).
    destruct (kind ins); try done; try (rewrite (Hops eq_refl) in Hex; discriminate Hex).
    destruct (operands ins) as [|c [|t [|f [|]]]]; try done. destruct Hops as (Hc & _).
    cbn [existsb] in Hex. rewrite Hc, orb_false_r in Hex. exact Hex.
  - unfold inSlice. destruct (o_val op) as [| | |m] eqn:Hm; try done.
    apply bool_decide_eq_false. intros (s & Hseed & Hrtc)%Hslice. apply Hout, Hslice.
    exists s. split; [done|]. eapply rtc_r; [done|]. split; [done|]. exists ins. split; [done|].
    rewrite <- Hm. by apply list_elem_of_fmap_2.
Qed.

(** What is shown of an operand and of an instruction. *)
Definition agree_op (op : operand) (v1 v2 : Z) (sh : shadow) : Prop :=
  (isUndef op || inSlice op = false -> v1 = v2) /\
  (isUndef op || inSlice op = true -> (isUndef op = true -> wf_scalar (o_ty op) = true) ->
   convertToBool false sh = false -> v1 = v2).

Definition agree (n : nat) (v1 v2 : Z) (sh : shadow) : Prop :=
  (n ∉ UndefSlice -> v1 = v2) /\ (n ∈ UndefSlice -> convertToBool false sh = false -> v1 = v2).

Definition agree_ops (ops : list operand) (vs1 vs2 : list Z) (shs : list shadow) : Prop :=
  (forall V, V ∈ zip ops shs -> isUndef V.1 = false /\
     (inSlice V.1 = true -> convertToBool false V.2 = false)) -> vs1 = vs2.

(** A clean arm chosen by the handler agrees. *)
Lemma agree_chosen V v1 v2 :
  agree_op V.1 v1 v2 V.2 -> (isUndef V.1 = true -> wf_scalar (o_ty V.1) = true) ->
  convertToBool false (getUndefSliceShadow false vscale UndefSlice V) = false -> v1 = v2.
Proof.
  intros [Hout Hin] Hw Hc. unfold getUndefSliceShadow in Hc.
  destruct (isUndef V.1 || inSlice V.1); [by apply Hin|by apply Hout].
Qed.

(** What a clean result of the handler says of the operands. *)
Lemma clean_compute n ins shs V :
  n ∈ UndefSlice -> fn !! n = Some ins -> isTransferKind (kind ins) = true -> kind ins <> KSelect ->
  convertToBool false (handleUndefSliceInst false vscale UndefSlice ins true (zip (operands ins) shs)) = false ->
  V ∈ zip (operands ins) shs -> isUndef V.1 = false /\ (inSlice V.1 = true -> convertToBool false V.2 = false).
Proof.
  intros Hn Hins Hk Hns Hclean HV. pose proof (slice_scalar _ _ Hn Hins) as Hs.
  destruct (Hwf _ _ Hins) as (Hsc & Hty & Hops). specialize (Hsc Hs). specialize (Hops Hs).
  assert (V.1 ∈ operands ins) as HV1 by (destruct V; by eapply elem_of_zip_l).
  assert (existsb isUndef (operands ins) = false) as Hund by (destruct (kind ins); try done; by apply Hops).
  assert (isUndef V.1 = false) as HVu.
  { apply not_true_is_false. intros ?. rewrite <- not_true_iff_false, existsb_exists_elem in Hund.
    apply Hund. by exists V.1. }
  split; [done|]. intros Hin.
  assert (counted V = true) as Hcnt.
  { unfold counted. rewrite Hin, orb_true_r. cbn [andb]. unfold inSlice in Hin.
    destruct (o_val V.1) as [| | |m] eqn:Hm; try done. apply bool_decide_eq_true in Hin.
    destruct (slice_transfer m Hin) as [Hu|(d & Hd & _)].
    - unfold isTransferUser in Hu. destruct (fn !! m) as [d|] eqn:Hd; [|done].
      rewrite (Hty _ _ _ HV1 Hm Hd). unfold isSized.
      destruct (scalar_shadow _ (slice_scalar _ _ Hin Hd)) as (w & -> & _). done.
    - rewrite (Hty _ _ _ HV1 Hm Hd). unfold isSized.
      destruct (scalar_shadow _ (slice_scalar _ _ Hin Hd)) as (w & -> & _). done. }
  assert (handleUndefSliceInst false vscale UndefSlice ins true (zip (operands ins) shs) =
          sext_bool vscale (ty ins)
            (existsb (fun V => counted V && convertToBool false V.2) (zip (operands ins) shs))) as Hh.
  { assert (existsb counted (zip (operands ins) shs) = true) as Hex.
    { apply existsb_exists_elem. by exists V. }
    unfold handleUndefSliceInst. rewrite slice_acc_spec, Hex. by destruct (kind ins). }
  rewrite Hh, convert_sext in Hclean by done.
  apply not_true_is_false. intros Hp. rewrite <- not_true_iff_false, existsb_exists_elem in Hclean.
  apply Hclean. exists V. by rewrite Hcnt, Hp.
Qed.

Lemma outside_compute n ins shs V :
  isTransferUser fn n = true -> fn !! n = Some ins -> n ∉ UndefSlice -> V ∈ zip (operands ins) shs ->
  isUndef V.1 = false /\ (inSlice V.1 = true -> convertToBool false V.2 = false).
Proof.
  intros Hu Hn Hout HV.
  assert (V.1 ∈ operands ins) as HV1 by (destruct V; by eapply elem_of_zip_l).
  pose proof (outside_operand _ _ _ Hu Hn Hout HV1) as [-> ->]%orb_false_iff. done.
Qed.

(** The operands a select chooses between. *)
Lemma agree_select n ins c t f c1 c2 cs t1 t2 ts f1 f2 fs sh :
  isTransferUser fn n = true -> fn !! n = Some ins -> kind ins = KSelect -> operands ins = [c; t; f] ->
  agree_op c c1 c2 cs -> agree_op t t1 t2 ts -> agree_op f f1 f2 fs ->
  (n ∈ UndefSlice -> sh = handleUndefSliceInst false vscale UndefSlice ins (negb (c1 =? 0))
                            [(c, cs); (t, ts); (f, fs)]) ->
  agree n (if c1 =? 0 then f1 else t1) (if c2 =? 0 then f2 else t2) sh.
Proof.
  intros Hu Hins Hk Hops Hc Ht Hf Hsh. split.
  - intros Hout.
    assert (forall op, op ∈ [c; t; f] -> isUndef op || inSlice op = false) as Ho.
    { intros op Hop. apply (outside_operand n ins); try done. by rewrite Hops. }
    destruct Hc as [-> _], Ht as [-> _], Hf as [-> _]; try done; apply Ho; set_solver.
  - intros Hin Hclean. rewrite (Hsh Hin) in Hclean. clear Hsh.
    pose proof (slice_scalar _ _ Hin Hins) as Hs.
    destruct (Hwf _ _ Hins) as (Hsc & _ & Hw). specialize (Hw Hs). rewrite Hk, Hops in Hw.
    destruct Hw as (Hcu & Hty1 & Hty2).
    unfold handleUndefSliceInst in Hclean. rewrite Hk in Hclean. cbn [fst snd] in Hclean.
    set (S := if negb (c1 =? 0) then _ else _) in Hclean.
    assert (convertToBool false S = false /\ (inSlice c = true -> convertToBool false cs = false))
      as [HS Hcc].
    { destruct (inSlice c); [|done]. rewrite convert_or, convert_sext in Hclean by auto.
      by apply orb_false_iff in Hclean as [? ?]. }
    assert (c1 = c2) as <-.
    { destruct Hc as [Hc1 Hc2]. destruct (inSlice c) eqn:Hic.
      - apply Hc2; [apply orb_true_r|by rewrite Hcu|by apply Hcc].
      - apply Hc1. by rewrite Hcu. }
    subst S. destruct (c1 =? 0); cbn [negb] in HS.
    + apply (agree_chosen (f, fs)); [done| |done]. intros _. cbn [fst]. rewrite Hty2. by apply Hsc.
    + apply (agree_chosen (t, ts)); [done| |done]. intros _. cbn [fst]. rewrite Hty1. by apply Hsc.
Qed.

(** The same for a PHI: the value of one operand. *)
Lemma agree_phi n ins k op v1 v2 sh :
  isTransferUser fn n = true -> fn !! n = Some ins -> kind ins = KPhi -> operands ins !! k = Some op ->
  agree_op op v1 v2 sh -> agree n v1 v2 sh.
Proof.
  intros Hu Hins Hk Hop [Ho Hi]. assert (op ∈ operands ins) as Hin by (by eapply list_elem_of_lookup_2).
  split.
  - intros Hout. apply Ho. by apply (outside_operand n ins).
  - intros Hsl Hc. destruct (isUndef op || inSlice op) eqn:Ht; [|by apply Ho].
    apply Hi; [done| |done]. intros _.
    pose proof (slice_scalar _ _ Hsl Hins) as Hs.
    destruct (Hwf _ _ Hins) as (Hsc & _ & Hw). specialize (Hw Hs). rewrite Hk in Hw.
    rewrite (proj1 (list.Forall_forall _ _) Hw op Hin). by apply Hsc.
Qed.

Lemma agree_compute n ins vs1 vs2 shs sh :
  isTransferUser fn n = true -> fn !! n = Some ins -> isTransferKind (kind ins) = true ->
  kind ins <> KSelect -> agree_ops (operands ins) vs1 vs2 shs ->
  (n ∈ UndefSlice -> sh = handleUndefSliceInst false vscale UndefSlice ins true (zip (operands ins) shs)) ->
  agree n (compute n vs1) (compute n vs2) sh.
Proof.
  intros Hu Hins Hk Hns Hops Hsh. split.
  - intros Hout. f_equal. apply Hops. intros V HV. by eapply (outside_compute n).
  - intros Hin Hc. f_equal. apply Hops. intros V HV. rewrite (Hsh Hin) in Hc. by eapply (clean_compute n).
Qed.

Lemma agree_undef op v1 v2 :
  isUndef op = true -> agree_op op v1 v2 (getShadow_undef false true vscale (o_ty op)).
Proof.
  intros Hu. unfold agree_op. rewrite Hu. cbn [orb]. split; [done|]. intros _ Hw Hc.
  assert (wf_scalar (o_ty op) = true) as Hsc by (by apply Hw).
  rewrite convert_undef in Hc; [done|by destruct (o_ty op)|done].
Qed.

Lemma agree_inst op n v1 v2 sh : o_val op = OInst n -> agree n v1 v2 sh -> agree_op op v1 v2 sh.
Proof.
  intros Hop [Ho Hi]. unfold agree_op, isUndef, PassUndef.inSlice. rewrite Hop. cbn [orb]. split.
  - intros Hb%bool_decide_eq_false. by apply Ho.
  - intros Hb%bool_decide_eq_true _. by apply Hi.
Qed.

Lemma agree_cons op ops v1 v2 sh vs1 vs2 shs :
  agree_op op v1 v2 sh -> agree_ops ops vs1 vs2 shs ->
  agree_ops (op :: ops) (v1 :: vs1) (v2 :: vs2) (sh :: shs).
Proof.
  intros [Ho Hi] IH HV. f_equal.
  - destruct (HV (op, sh)) as [Hu Hc]; [left|]. cbn [fst snd] in *.
    destruct (inSlice op) eqn:Hs; [apply Hi; [by rewrite orb_true_r|by rewrite Hu|by apply Hc]|].
    apply Ho. by rewrite Hu.
  - apply IH. intros V HV'. apply HV. by right.
Qed.

Lemma sees_agree :
  (forall n v1 v2 sh, sees n v1 v2 sh -> agree n v1 v2 sh) /\
  (forall op v1 v2 sh, sees_op op v1 v2 sh -> agree_op op v1 v2 sh).
Proof.
  split; intros x v1 v2 sh;
    [apply (sees_mind fn false true vscale UndefSlice compute agree agree_op agree_ops)
    |apply (sees_op_mind fn false true vscale UndefSlice compute agree agree_op agree_ops)].
  all: intros.
  all: try (by eapply agree_phi); try (by eapply agree_select); try (by eapply agree_compute);
       try (by eapply agree_undef); try (by eapply agree_inst); try (by apply agree_cons).
  all: by split.
Qed.
End slice_sound.

(** ** Theorems *)

(** the search for an [undef] source in a returned shadow terminates on every
    graph, PHI cycles included, and answers exactly whether some constant that is
    not clean, or some value it cannot classify, is reached from the returned
    shadow without crossing a shadow already checked at its load. *)
Theorem returnShadow_search_exact g Checked S :
  exists b Seen, returnShadowMayCarryUndef g Checked S ∅ = Some (b, Seen) /\
    (b = true <-> exists S', rtc (inspects g Checked) S S' /\ suspicious g Checked S').
Proof. apply search_exact. Qed.

(** C27: dropping the return checks that the search refuses loses no report.  In
    every execution in which no check at a load fires, the list with the filtered
    checks reports exactly when the list with all the pending ones does; when the
    pass inserts no checks the list does not change. *)
Theorem return_filter_is_invisible g Checked `{ShadowSemanticsLaws} src_of o Pending l v :
  (forall pr, pr ∈ Pending -> takes g Checked pr.1 (src_value (v_env v) (src_of pr.1))) ->
  (exists acc, filterPendingReturnChecks g Checked src_of true Pending l = Some acc /\
     existsb (check_reports o v) acc = existsb (check_reports o v) (l ++ map (return_check src_of) Pending)) /\
  filterPendingReturnChecks g Checked src_of false Pending l = Some l.
Proof.
  intros Ht. split; [by eapply filter_reports|].
  clear Ht. induction Pending as [|pr Pending IH]; [done|].
  change (pr :: Pending) with ([pr] ++ Pending). rewrite filter_app. unfold filterPendingReturnChecks at 1.
  cbn [foldl]. destruct (search_exact g Checked pr.1) as (b & Seen & -> & _). by destruct b.
Qed.

(** A loop that returns a PHI of a checked load and of itself, and one with an
    [undef] edge: 0 is the load's shadow, 1 the first PHI, 2 the poison constant,
    3 the second PHI, 4 its truncation. *)
Definition return_graph : list svalue :=
  [SInstruction OtherOpcode []; SInstruction Phi [(0%nat, true); (1%nat, true)];
   SConstant (VInt 32 (Z.ones 32)); SInstruction Phi [(1%nat, true); (2%nat, true)];
   SInstruction Trunc [(3%nat, true)]].

#[export] Instance zero_ops : ShadowSemantics := {
  apply_op op vs := if forallb isZeroValue vs then VInt 8 0 else VInt 8 255
}.
#[export] Instance zero_ops_laws : ShadowSemanticsLaws.
Proof.
  split. intros op vs _ _ Hvs. cbn.
  assert (forallb isZeroValue vs = true) as ->; [|reflexivity].
  apply forallb_forall. intros x Hx. by apply (proj1 (list.Forall_forall _ _) Hvs), list_elem_of_In.
Defined.

Lemma return_filter_is_invisible_witness :
  exists acc,
    filterPendingReturnChecks return_graph {[0%nat]}
      (fun n => SrcInst (mkLoc 0 n) (SInt (if (n =? 4)%nat then 8 else 32))) true
      [(1%nat, mkLoc 0 9); (4%nat, mkLoc 1 9)] [] = Some acc /\ length acc = 1%nat.
Proof.
  set (ρ := fun l : loc => if (li l =? 4)%nat then VInt 8 255 else VInt 32 0).
  destruct (return_filter_is_invisible return_graph {[0%nat]}
    (fun n => SrcInst (mkLoc 0 n) (SInt (if (n =? 4)%nat then 8 else 32)))
    (mkPassOptions 0 true true true true) [(1%nat, mkLoc 0 9); (4%nat, mkLoc 1 9)] []
    (mkVisit 1 9 ρ)) as [(acc & Hacc & _) _].
  - intros pr [->|[->|?%not_elem_of_nil]%elem_of_cons]%elem_of_cons; [| |done]; cbn.
    + eapply (takes_phi _ _ 1 _ 0); [reflexivity|by vm_compute|left|].
      apply takes_checked; [by vm_compute|reflexivity|done].
    + change (VInt 8 255) with (apply_op Trunc [VInt 32 (Z.ones 32)]).
      apply (takes_op _ _ 4 Trunc [(3%nat, true)] [VInt 32 (Z.ones 32)]);
        [reflexivity|by vm_compute|done|reflexivity|].
      constructor; [|constructor].
      eapply (takes_phi _ _ 3 _ 2); [reflexivity|by vm_compute|right; left|by constructor].
  - exists acc. split; [exact Hacc|]. vm_compute in Hacc. injection Hacc as <-. reflexivity.
Defined.

(** C28: the worklist of the undef slice ends with exactly the instructions that
    depend on a PHI or select with an [undef] operand through scalar PHIs and
    transfer instructions, however the worklist is ordered; every one of them is
    a scalar. *)
Theorem computeUndefSlice_exact fn Instructions :
  exists X, computeUndefSlice fn Instructions = Some X /\
    (forall n, n ∈ X <-> in_slice fn Instructions n) /\
    (forall n ins, n ∈ X -> fn !! n = Some ins -> isUndefSliceScalar (ty ins) = true).
Proof.
  destruct (computeUndefSlice_spec fn Instructions) as (X & HX & Hspec).
  exists X. split; [done|]. split; [done|]. intros n ins. by apply (slice_scalar fn Instructions X Hspec).
Qed.


(** [int x; if (c) x = 5; x += 1; if (x > 3)]: the condition (an argument), the
    PHI, the addition, the comparison and the branch. *)
Definition i32 := TInt 32.
Definition undef_fn : list oinst :=
  [mkInst KPhi i32 false [mkOperand (OConstant 5) i32; mkOperand OUndef i32];
   mkInst KBinary i32 false [mkOperand (OInst 0) i32; mkOperand (OConstant 1) i32];
   mkInst KCmp (TInt 1) false [mkOperand (OInst 1) i32; mkOperand (OConstant 3) i32];
   mkInst (KBranch true) TUnsized false [mkOperand (OInst 2) (TInt 1)]].

Definition undef_compute (n : nat) (vs : list Z) : Z :=
  match n, vs with
  | 1%nat, [a; b] => (a + b) mod 2 ^ 32
  | 2%nat, [a; b] => Z.b2z (b <? a)
  | _, _ => 0
  end.

Lemma undef_fn_wf n ins : undef_fn !! n = Some ins -> wf_inst undef_fn ins.
Proof.
  intros Hn. do 4 (destruct n as [|n]; [injection Hn as <-; split; [done|];
    (split; [intros op m d Hop; repeat (apply elem_of_cons in Hop as [->|Hop]; [by intros [= <-] [= <-]|]);
             by apply not_elem_of_nil in Hop | by intros _; repeat constructor])|]). done.
Qed.


(** built with the flipped convention (0 is uninitialised), the handler of the
    slice gives the opposite of the shadow it means: an instruction with a poisoned
    operand gets all ones, which is clean, and one whose operands are all clean
    gets zero, which is poisoned. *)
Theorem flip_inverts_undef_slice vscale X ins ops w :
  isTransferKind (kind ins) = true -> kind ins <> KSelect -> ty ins = TInt w -> 1 < w ->
  existsb (counted X) ops = true ->
  convertToBool true (handleUndefSliceInst true vscale X ins true ops) =
  negb (existsb (fun V => counted X V && convertToBool true V.2) ops).
Proof.
  intros Hk Hns Hty Hw Hex.
  assert (handleUndefSliceInst true vscale X ins true ops =
          sext_bool vscale (ty ins) (existsb (fun V => counted X V && convertToBool true V.2) ops)) as ->.
  { unfold handleUndefSliceInst. rewrite (slice_acc_spec X), Hex. by destruct (kind ins). }
  unfold sext_bool. rewrite Hty. cbn [getShadowTy splat]. unfold convertToBool at 1, int_to_bool.
  cbn [convertShadowToScalar fst snd]. assert (w =? 1 = false) as -> by lia.
  destruct (existsb (fun V => counted X V && convertToBool true V.2) ops); cbn [negb]; [|done].
  apply ones_nonzero. lia.
Qed.

Lemma flip_inverts_undef_slice_witness :
  convertToBool true (handleUndefSliceInst true 1 {[0%nat]}
    (mkInst KBinary i32 false [mkOperand (OInst 0) i32]) true [(mkOperand (OInst 0) i32, VInt 32 0)]) = false.
Proof.
  rewrite (flip_inverts_undef_slice 1 {[0%nat]} _ _ 32); [reflexivity|reflexivity|done|reflexivity|lia|reflexivity].
Defined.
