(* ===== verification/PassLoops.v ===== *)
(** * Checks accumulated over a loop

    With -cqmsan-loop-coalesced-checks the pass
    (src/pass/CompilerQEMUMemorySanitizer.cpp) does not test a shadow in every
    iteration: [materializeCoalescedLoopChecks] ORs it into an accumulator of its
    loop and type, resets the accumulator in the loop's preheader and tests it
    once in each exit block, provided [loopFlushIsSound] says that the exits are
    always reached.  The checks that do not qualify are coalesced at their anchor
    or left at their instruction.  This file models the strategy on executions
    through the control-flow graph and shows that, on an execution that leaves its
    loops, it reports exactly when the baseline does; under the flipped convention
    it reports nothing.

    Loops, preheaders and exit blocks are LLVM's: [LoopInfo] holds what the pass
    asks, [LoopInfoLaws] what is documented of the answers. *)

From S2P Require Import Prelude PassShadow PassChecks.

(** ** Types as keys *)

Section list_eqb.
Context {A : Type} (eqb : A -> A -> bool).
Fixpoint list_eqb (l l' : list A) : bool :=
  match l, l' with
  | [], [] => true
  | x :: l, x' :: l' => eqb x x' && list_eqb l l'
  | _, _ => false
  end.

Lemma list_eqb_eq l : Forall (fun x => forall y, eqb x y = true <-> x = y) l ->
  forall l', list_eqb l l' = true <-> l = l'.
Proof.
  induction 1 as [|x l Hx _ IH]; intros [|x' l']; try done. cbn.
  rewrite andb_true_iff, Hx, IH. split; [by intros [-> ->]|by intros [= -> ->]].
Qed.
End list_eqb.

Fixpoint shadow_ty_eqb (a b : shadow_ty) {struct a} : bool :=
  match a, b with
  | SInt w, SInt w' => w =? w'
  | SVec s n w, SVec s' n' w' => bool_decide (s = s') && (n =? n') && (w =? w')
  | SArr n t, SArr n' t' => (n =? n') && shadow_ty_eqb t t'
  | SStruct p ts, SStruct p' ts' =>
      bool_decide (p = p') && list_eqb shadow_ty_eqb ts ts'
  | _, _ => false
  end.

Lemma shadow_ty_eqb_eq a b : shadow_ty_eqb a b = true <-> a = b.
Proof.
  revert b. induction a as [w|s n w|n t IH|p ts IH] using shadow_ty_ind'; intros [w'|s' n' w'|n' t'|p' ts'];
    cbn [shadow_ty_eqb]; try done.
  - rewrite Z.eqb_eq. split; [by intros ->|by intros [= ->]].
  - rewrite !andb_true_iff, bool_decide_eq_true, !Z.eqb_eq. split; [by intros [[-> ->] ->]|by intros [= -> -> ->]].
  - rewrite andb_true_iff, Z.eqb_eq, IH. split; [by intros [-> ->]|by intros [= -> ->]].
  - rewrite andb_true_iff, bool_decide_eq_true, (list_eqb_eq _ _ IH).
    split; [by intros [-> ->]|by intros [= -> ->]].
Qed.

#[export] Instance shadow_ty_eq_dec : EqDecision shadow_ty.
Proof.
  intros a b. destruct (shadow_ty_eqb a b) eqn:E; [left|right].
  - by apply shadow_ty_eqb_eq.
  - intros H%shadow_ty_eqb_eq. congruence.
Defined.

(** ** What the pass asks of LLVM's loop analysis *)

Record LoopInfo := mkLoopInfo {
  (** the innermost loop of a block, by number *)
  getLoopFor : nat -> option nat;
  loop_blocks : nat -> list nat;
  getLoopPreheader : nat -> option nat;
  getExitBlocks : nat -> list nat
}.

Record LoopInfoLaws (LI : LoopInfo) (successors : nat -> list nat) : Prop := {
  innermost b l : getLoopFor LI b = Some l -> b ∈ loop_blocks LI l;
  exits l b s : b ∈ loop_blocks LI l -> s ∈ successors b -> s ∉ loop_blocks LI l ->
    s ∈ getExitBlocks LI l;
  preheader_outside l p : getLoopPreheader LI l = Some p -> p ∉ loop_blocks LI l
}.

(** ** Accumulators *)

Definition isIntOrIntVectorTy (t : shadow_ty) : bool :=
  match t with SInt _ | SVec _ _ _ => true | _ => false end.

(** [CreateOr] of two integer or vector shadows of one type. *)
Definition CreateOr (a b : shadow) : shadow :=
  match a, b with
  | VInt w x, VInt _ y => VInt w (Z.lor x y)
  | VVec sc w xs, VVec _ _ ys => VVec sc w (zip_with Z.lor xs ys)
  | _, _ => a
  end.

(** An accumulator: its loop and type, and the shadows it collects. *)
Definition acc_key : Type := nat * shadow_ty.
Definition accumulator : Type := acc_key * list src.

Section loops.
Context {L : LLVM} (o : PassOptions).
Context (getFirstInsertionPt : list instr -> nat).
Context (fn : list (list instr)) (LI : LoopInfo).

Notation block := (block fn).

(** [BasicBlock::isEHPad] *)
Definition blockIsEHPad (bb : list instr) : bool :=
  match List.find (fun ins => negb (isPHI ins)) bb with Some ins => isEHPad ins | None => false end.

(** An exit block that cannot hold the check. *)
Definition exitUnusable (E : nat) : bool :=
  blockIsEHPad (block E) || (getFirstInsertionPt (block E) =? length (block E))%nat.

(** The answer the cache keeps. *)
Definition loopFlushIsSound (l : nat) : bool :=
  let Exits := getExitBlocks LI l in
  negb (bool_decide (Exits = [])) &&
  negb (existsb exitUnusable Exits) &&
  forallb (fun b => negb (existsb (fun ins => negb (transfers ins)) (block b))) (loop_blocks LI l).

(** The accumulator a check goes to, with its shadow, if it qualifies. *)
Definition loopAccumulator (c : check) : option acc_key :=
  match getLoopFor LI (lb (OrigIns c)), Shadow c with
  | Some l, SrcInst s t =>
      match getLoopPreheader LI l with
      | Some _ =>
          if bool_decide (lb s ∈ loop_blocks LI l) && isIntOrIntVectorTy t && loopFlushIsSound l
          then Some (l, t) else None
      | None => None
      end
  | _, _ => None
  end.

(** Phase 1: what stays at its instruction, what goes to an anchor, the accumulators. *)
Record loop_plan := mkPlan {
  lp_essential : list check;
  lp_anchored : list (loc * list src);
  lp_accs : list accumulator
}.

Definition plan_check (p : loop_plan) (c : check) : loop_plan :=
  if is_essential fn c then mkPlan (lp_essential p ++ [c]) (lp_anchored p) (lp_accs p)
  else match loopAccumulator c with
  | Some k => mkPlan (lp_essential p) (lp_anchored p) (mv_push k (Shadow c) (lp_accs p))
  | None =>
      match anchor_loc fn (OrigIns c) with
      | Some A => mkPlan (lp_essential p) (mv_push A (Shadow c) (lp_anchored p)) (lp_accs p)
      | None => mkPlan (lp_essential p ++ [mkCheck (Shadow c) (OrigIns c) true]) (lp_anchored p) (lp_accs p)
      end
  end.

Definition plan_checks (InstrumentationList : list check) : loop_plan :=
  fold_left plan_check InstrumentationList (mkPlan [] [] []).

(** [Seen.insert(E).second]: the first occurrence of each. *)
Fixpoint first_occurrences (seen l : list nat) : list nat :=
  match l with
  | [] => []
  | x :: l => if bool_decide (x ∈ seen) then first_occurrences seen l
              else x :: first_occurrences (x :: seen) l
  end.

(** Phase 2: the (loop, exit block) pairs, loops in the order of AccsByLoop. *)
Definition exit_checks (accs : list accumulator) : list (nat * nat) :=
  concat (map (fun l => map (pair l) (List.filter (fun E => negb (exitUnusable E))
                                        (first_occurrences [] (getExitBlocks LI l))))
              (first_occurrences [] (map (fun a => a.1.1) accs))).

(** The check of the shadows gathered at an anchor. *)
Definition emitAnchored (At : loc) (Shadows : list src) (count : Z) : list emission * Z :=
  match Shadows with
  | [] => ([], count)
  | s0 :: rest =>
      let '(em, count) := emitOneCheck o At (or_chain (EBool (ERaw s0)) rest) count in ([em], count)
  end.

(** The checks of [materializeCoalescedLoopChecks] that are not in a loop exit. *)
Definition straight_checks (p : loop_plan) (count : Z) : list emission * Z :=
  let '(es, count) := materialize_all (fun kv => emitAnchored kv.1 kv.2) (lp_anchored p) count in
  let '(es', count) := materialize_all (materializeInstructionChecks o getFirstInsertionPt fn)
                         (runs (lp_essential p)) count in
  (es ++ es', count).

(** *** The emitted code, executed

    One activation of the function: a visit runs the exit checks at the block's
    first insertion point, then ORs the shadows it computes into the
    accumulators, and the preheader's terminator comes after a reset. *)

Context (flip : bool) (vscale : Z).

Definition clean_of (t : shadow_ty) : shadow :=
  if flip then getAllOnesShadow vscale t else getNullValue vscale t.

(** Right after the shadow, or after the PHIs. *)
Definition accumulate_point (l : loc) : loc :=
  match block (lb l) !! li l with
  | Some ins => if isPHI ins then mkLoc (lb l) (getFirstInsertionPt (block (lb l))) else mkLoc (lb l) (S (li l))
  | None => mkLoc (lb l) (S (li l))
  end.

Definition accumulates (v : visit) (s : src) : bool :=
  match s with SrcInst l _ => reached v (accumulate_point l) | SrcConst _ _ => false end.

Definition resets (v : visit) (l : nat) : bool :=
  match getLoopPreheader LI l with
  | Some p => (p =? v_block v)%nat && reached v (mkLoc p (terminator (block p)))
  | None => false
  end.

Definition acc_step (v : visit) (a : accumulator) (value : shadow) : shadow :=
  let value := fold_left (fun value s =>
                 if accumulates v s then CreateOr value (src_value (v_env v) s) else value) a.2 value in
  if resets v a.1.1 then clean_of a.1.2 else value.

Definition mem_step (accs : list accumulator) (v : visit) (mem : list shadow) : list shadow :=
  zip_with (acc_step v) accs mem.

(** [Comb]: some accumulator of the loop is poisoned. *)
Definition comb (accs : list accumulator) (mem : list shadow) (l : nat) : bool :=
  existsb (fun am => (am.1.1.1 =? l)%nat && default false (normalizeShadow flip am.2)) (zip accs mem).

Definition exit_reports (accs : list accumulator) (mem : list shadow) (v : visit) : bool :=
  existsb (fun le => reached v (mkLoc le.2 (getFirstInsertionPt (block le.2))) && comb accs mem le.1)
          (exit_checks accs).

Fixpoint loop_reports (accs : list accumulator) (mem : list shadow) (trace : list visit) : bool :=
  match trace with
  | [] => false
  | v :: trace => exit_reports accs mem v || loop_reports accs (mem_step accs v mem) trace
  end.

Definition init_mem (accs : list accumulator) : list shadow := map (fun a => clean_of a.1.2) accs.

(** What the instrumented function reports on an execution. *)
Definition materializeCoalescedLoopChecks (InstrumentationList : list check) (count : Z)
    (trace : list visit) : bool :=
  let p := plan_checks InstrumentationList in
  existsb (reports flip (straight_checks p count).1) trace ||
  loop_reports (lp_accs p) (init_mem (lp_accs p)) trace.
End loops.

(** ** Values of the accumulators *)

Lemma zip_lor_ok w xs ys :
  length xs = length ys -> forallb (fits w) xs = true -> forallb (fits w) ys = true ->
  forallb (fits w) (zip_with Z.lor xs ys) = true /\
  existsb (fun x => negb (x =? 0)) (zip_with Z.lor xs ys)
  = existsb (fun x => negb (x =? 0)) xs || existsb (fun x => negb (x =? 0)) ys.
Proof.
  revert ys. induction xs as [|x xs IH]; intros [|y ys]; try done. cbn. intros [= Hl].
  intros [Hx Hxs]%andb_true_iff [Hy Hys]%andb_true_iff. destruct (IH ys Hl Hxs Hys) as [H1 H2].
  rewrite H1, H2, fits_lor, lor_nonzero by done. split; [done|].
  by destruct (negb (x =? 0)), (negb (y =? 0)), (existsb _ xs), (existsb _ ys).
Qed.

Lemma lanes_poisoned w xs :
  forallb (fits w) xs = true ->
  existsb (fun x => existsb (fun i => xorb false (Z.testbit x i)) (zrange w)) xs
  = existsb (fun x => negb (x =? 0)) xs.
Proof.
  intros Hxs. apply existsb_ext_Forall. apply List.Forall_forall. intros x Hx.
  symmetry. apply nonzero_bits. by apply (proj1 (forallb_forall _ _) Hxs).
Qed.

Lemma int_poisoned w x : fits w x = true -> has_poisoned_bit false (VInt w x) = negb (x =? 0).
Proof. intros Hx. symmetry. by apply nonzero_bits. Qed.

Lemma CreateOr_ok vscale t a b :
  isIntOrIntVectorTy t = true -> has_ty vscale a t = true -> has_ty vscale b t = true ->
  has_ty vscale (CreateOr a b) t = true /\
  has_poisoned_bit false (CreateOr a b) = has_poisoned_bit false a || has_poisoned_bit false b.
Proof.
  destruct t as [w|sc n w| |]; try done; intros _; destruct a as [wa x|sa wa xs| |]; try done;
    destruct b as [wb y|sb wb ys| |]; try done; cbn [has_ty CreateOr]; intros Ha Hb.
  - repeat (apply andb_true_iff in Ha as [Ha ?]; apply andb_true_iff in Hb as [Hb ?]).
    apply Z.eqb_eq in Ha as ->, Hb as ->. assert (fits w (Z.lor x y) = true) as Hf by (by apply fits_lor).
    rewrite Z.eqb_refl, Hf. split; [by apply andb_true_iff|].
    by rewrite !int_poisoned, lor_nonzero.
  - rewrite !andb_true_iff, !bool_decide_eq_true, !Z.eqb_eq in Ha, Hb.
    destruct Ha as ((((-> & ->) & Hw) & Hl) & Hx), Hb as ((((-> & ->) & _) & Hl') & Hy).
    assert (length xs = length ys) as Hlen by lia.
    destruct (zip_lor_ok w xs ys Hlen Hx Hy) as [H1 H2]. split.
    + rewrite !andb_true_iff, bool_decide_eq_true, !Z.eqb_eq, length_zip_with. split_and!; try done. lia.
    + cbn [has_poisoned_bit]. by rewrite !lanes_poisoned, H2.
Qed.

Lemma normalize_ok vscale t v :
  isIntOrIntVectorTy t = true -> has_ty vscale v t = true ->
  normalizeShadow false v = Some (has_poisoned_bit false v).
Proof.
  destruct t as [w|sc n w| |]; try done; intros _; destruct v as [wa x|sa wa xs| |]; try done;
    cbn [has_ty normalizeShadow]; rewrite !andb_true_iff.
  - intros ((Hw%Z.eqb_eq & _) & Hx). subst. f_equal. by rewrite int_poisoned.
  - intros ((((_ & Hw%Z.eqb_eq) & _) & _) & Hx). subst. f_equal. cbn [has_poisoned_bit].
    by rewrite lanes_poisoned, or_reduce_nonzero.
Qed.

Lemma clean_ok vscale t :
  isIntOrIntVectorTy t = true -> wf_ty vscale t = true ->
  has_ty vscale (clean_of false vscale t) t = true /\ has_poisoned_bit false (clean_of false vscale t) = false.
Proof.
  intros _ Hwf. unfold clean_of, getNullValue. split.
  - by apply has_ty_splat; [|intros; apply fits_0].
  - apply poisoned_splat_false. intros w i _. apply Z.bits_0.
Qed.

Lemma has_ty_wf vscale v t :
  isIntOrIntVectorTy t = true -> has_ty vscale v t = true -> wf_ty vscale t = true.
Proof.
  destruct t as [w|sc n w| |]; try done; intros _; destruct v as [wa x|sa wa xs| |]; try done;
    cbn [has_ty wf_ty]; rewrite !andb_true_iff.
  - intros ((->%Z.eqb_eq & Hw) & _). done.
  - intros ((((->%bool_decide_eq_true & ->%Z.eqb_eq) & Hw) & Hl%Z.eqb_eq) & _). split; [|done].
    apply Z.leb_le. lia.
Qed.

(** ** Executions *)

Lemma or_swap a b c d e : a || b || c || (d || e) = a || b || d || (c || e).
Proof. by destruct a, b, c, d, e. Qed.

Section sound.
Context {L : LLVM} {LL : LLVMLaws L} (o : PassOptions).
Context (getFirstInsertionPt : list instr -> nat).
(** Only PHIs and pads come before it, and they pass control on. *)
Context (Hfirst : forall bb j, (j < getFirstInsertionPt bb)%nat -> isBBBarrier bb j = false).
Context (Hwithin : forall bb, (getFirstInsertionPt bb <= length bb)%nat).
Context (fn : list (list instr)) (LI : LoopInfo) (successors : nat -> list nat).
Context (Hlaws : LoopInfoLaws LI successors).
Context (vscale : Z).

Notation block := (block fn).
Notation flush_sound := (loopFlushIsSound getFirstInsertionPt fn LI).
Notation acc_step := (acc_step getFirstInsertionPt fn LI false vscale).
Notation mem_step := (mem_step getFirstInsertionPt fn LI false vscale).
Notation exit_reports := (exit_reports getFirstInsertionPt fn LI false).
Notation loop_reports := (loop_reports getFirstInsertionPt fn LI false vscale).
Notation accumulates := (accumulates getFirstInsertionPt fn).

(** Control goes from a block's terminator to one of its successors. *)
Definition steps_to (v v' : visit) : Prop :=
  v_stop v = terminator (block (v_block v)) /\ v_block v' ∈ successors (v_block v).

Fixpoint walk (v : visit) (trace : list visit) : Prop :=
  match trace with
  | [] => forall l, flush_sound l = true -> v_block v ∉ loop_blocks LI l
  | v' :: trace => steps_to v v' /\ walk v' trace
  end.

(** What a visitor guarantees of a check it defers in a loop: the shadow is in
    the instruction's block, and there is room after it. *)
Definition loop_check_ok (c : check) : Prop :=
  forall l t, Shadow c = SrcInst l t ->
    lb l = lb (OrigIns c) /\ lb (accumulate_point getFirstInsertionPt fn l) = lb l /\
    (li (accumulate_point getFirstInsertionPt fn l) <= terminator (block (lb l)))%nat.

(** In a loop whose flush is sound no instruction keeps control. *)
Lemma flush_stop l v :
  flush_sound l = true -> v_block v ∈ loop_blocks LI l -> visit_ok fn v ->
  v_stop v = terminator (block (v_block v)).
Proof.
  intros [_ Hall]%andb_true_iff Hin [Hstop|Hb]; [done|]. exfalso.
  rewrite forallb_forall in Hall. apply list_elem_of_In in Hin. specialize (Hall _ Hin).
  apply negb_true_iff in Hall. unfold isBBBarrier in Hb.
  destruct (block (v_block v) !! v_stop v) as [ins|] eqn:Hi; [|done].
  apply not_true_iff_false in Hall. apply Hall. apply existsb_exists_elem. exists ins.
  split; [by eapply list_elem_of_lookup_2|done].
Qed.

Lemma exit_usable l E v :
  flush_sound l = true -> E ∈ getExitBlocks LI l -> v_block v = E -> visit_ok fn v ->
  exitUnusable getFirstInsertionPt fn E = false /\
  reached v (mkLoc E (getFirstInsertionPt (block E))) = true.
Proof.
  intros [[_ Hu]%andb_true_iff _]%andb_true_iff HE <- Hv.
  assert (exitUnusable getFirstInsertionPt fn (v_block v) = false) as Hus.
  { apply negb_true_iff in Hu. apply not_true_is_false. intros Hx. apply not_true_iff_false in Hu.
    apply Hu, existsb_exists_elem. eauto. }
  split; [done|]. unfold reached. cbn [lb li]. rewrite Nat.eqb_refl. cbn [andb]. apply Nat.leb_le.
  destruct (Nat.le_gt_cases (getFirstInsertionPt (block (v_block v))) (v_stop v)) as [|Hlt]; [done|].
  apply orb_false_iff in Hus as [_ Hlen%Nat.eqb_neq].
  destruct Hv as [Hv|Hv]; [|by rewrite (Hfirst _ _ Hlt) in Hv].
  unfold terminator in Hv. pose proof (Hwithin (block (v_block v))). lia.
Qed.

(** What is known of the accumulators at a visit. *)
Record acc_ok (v : visit) (a : accumulator) : Prop := {
  ao_type : isIntOrIntVectorTy a.1.2 = true;
  ao_flush : flush_sound a.1.1 = true;
  ao_src s : s ∈ a.2 -> src_ok vscale (v_env v) s /\ src_type s = a.1.2;
  ao_inside s : s ∈ a.2 -> accumulates v s = true -> v_block v ∈ loop_blocks LI a.1.1;
  ao_some : a.2 <> []
}.

Definition acc_hits (v : visit) (a : accumulator) : bool :=
  existsb (fun s => accumulates v s && poisoned (v_env v) s) a.2.

Definition value_ok (a : accumulator) (m : shadow) : Prop := has_ty vscale m a.1.2 = true.

(** The OR of the shadows the visit computes. *)
Lemma fold_or v t ss m :
  isIntOrIntVectorTy t = true -> has_ty vscale m t = true ->
  (forall s, s ∈ ss -> src_ok vscale (v_env v) s /\ src_type s = t) ->
  let m' := fold_left (fun m s => if accumulates v s then CreateOr m (src_value (v_env v) s) else m) ss m in
  has_ty vscale m' t = true /\
  has_poisoned_bit false m' =
  has_poisoned_bit false m || existsb (fun s => accumulates v s && poisoned (v_env v) s) ss.
Proof.
  intros Ht. revert m. induction ss as [|s ss IH]; intros m Hm Hss; cbn [fold_left existsb]; [by rewrite orb_false_r|].
  destruct (Hss s) as [Hs Hst]; [left|].
  destruct (accumulates v s); cbn [andb orb].
  - unfold src_ok in Hs. rewrite Hst in Hs. destruct (CreateOr_ok vscale t m _ Ht Hm Hs) as [H1 H2].
    destruct (IH _ H1) as [H3 H4]; [intros s' Hs'; apply Hss; by right|]. split; [done|].
    by rewrite H4, H2, orb_assoc.
  - apply IH; [done|]. intros s' Hs'. apply Hss. by right.
Qed.

Lemma acc_step_ok v a m :
  acc_ok v a -> value_ok a m ->
  value_ok a (acc_step v a m) /\
  has_poisoned_bit false (acc_step v a m) =
  negb (resets fn LI v a.1.1) && (has_poisoned_bit false m || acc_hits v a).
Proof.
  intros [Ht _ Hs _ _] Hm. unfold acc_step, value_ok.
  destruct (fold_or v a.1.2 a.2 m Ht Hm Hs) as [H1 H2].
  destruct (resets fn LI v a.1.1); cbn [negb andb]; [|by split].
  apply clean_ok; [done|]. by eapply has_ty_wf.
Qed.

(** The preheader is outside its loop. *)
Lemma no_reset_inside v l : v_block v ∈ loop_blocks LI l -> resets fn LI v l = false.
Proof.
  intros Hin. unfold resets. destruct (getLoopPreheader LI l) as [p|] eqn:Hp; [|done].
  destruct (Nat.eqb_spec p (v_block v)) as [->|]; [|done].
  by destruct (preheader_outside _ _ Hlaws _ _ Hp).
Qed.

(** *** The exit checks *)

Lemma elem_of_first_occurrences seen l x :
  x ∈ first_occurrences seen l <-> x ∈ l /\ x ∉ seen.
Proof.
  revert seen. induction l as [|y l IH]; intros seen; cbn [first_occurrences].
  - split; [by intros ?%not_elem_of_nil|]. by intros [?%not_elem_of_nil _].
  - case_bool_decide as Hy; rewrite ?elem_of_cons, IH; [|rewrite not_elem_of_cons]; split.
    + intros [? ?]. tauto.
    + intros [[->|?] ?]; [done|tauto].
    + intros [->|(? & ? & ?)]; tauto.
    + intros [[->|?] ?]; [tauto|]. destruct (decide (x = y)); tauto.
Qed.

Lemma elem_of_exit_checks accs l E :
  (l, E) ∈ exit_checks getFirstInsertionPt fn LI accs <->
  (exists a, a ∈ accs /\ a.1.1 = l) /\ E ∈ getExitBlocks LI l /\ exitUnusable getFirstInsertionPt fn E = false.
Proof.
  unfold exit_checks. rewrite list_elem_of_In, in_concat.
  setoid_rewrite in_map_iff. setoid_rewrite <- list_elem_of_In. setoid_rewrite elem_of_first_occurrences. split.
  - intros (x & (l' & <- & [Hl _]) & Hx). apply list_elem_of_In, in_map_iff in Hx as (E' & [= -> ->] & HE).
    apply filter_In in HE as [HE Hu]. apply list_elem_of_In, elem_of_first_occurrences in HE as [HE _].
    apply list_elem_of_In, in_map_iff in Hl as (a & Ha & Hin). apply negb_true_iff in Hu.
    split; [|done]. exists a. split; [by apply list_elem_of_In|done].
  - intros ((a & Ha & <-) & HE & Hu). eexists. split; [exists a.1.1; split; [reflexivity|]|].
    + split; [|apply not_elem_of_nil]. apply list_elem_of_In, in_map_iff. exists a.
      split; [done|by apply list_elem_of_In].
    + apply list_elem_of_In, in_map_iff. exists E. split; [done|]. apply filter_In.
      rewrite Hu. split; [|done]. apply list_elem_of_In, elem_of_first_occurrences. split; [done|apply not_elem_of_nil].
Qed.

Lemma exit_reports_spec accs mem v :
  visit_ok fn v -> Forall (acc_ok v) accs -> Forall2 value_ok accs mem ->
  exit_reports accs mem v = true <->
  exists i a m, accs !! i = Some a /\ mem !! i = Some m /\ has_poisoned_bit false m = true /\
                v_block v ∈ getExitBlocks LI a.1.1.
Proof.
  intros Hv Hok Hmem. unfold exit_reports. rewrite existsb_exists_elem. split.
  - intros ((l & E) & (Hex & HE & _)%elem_of_exit_checks & [Hr Hc]%andb_true_iff). cbn [fst snd] in *.
    unfold comb in Hc. apply existsb_exists_elem in Hc as ((a & m) & Ham & [Hl Hn]%andb_true_iff).
    cbn [fst snd] in *. apply Nat.eqb_eq in Hl.
    apply list_elem_of_lookup in Ham as (i & Hi). apply lookup_zip_with_Some in Hi as (a' & m' & [= <- <-] & Ha & Hm).
    exists i, a, m. pose proof (Forall2_lookup_lr _ _ _ _ _ _ Hmem Ha Hm) as Hty.
    rewrite list.Forall_forall in Hok. destruct (Hok a) as [Ht _ _ _ _]; [by eapply list_elem_of_lookup_2|].
    rewrite (normalize_ok vscale a.1.2) in Hn by done. split_and!; try done.
    rewrite Hl. unfold reached in Hr. cbn [lb] in Hr. apply andb_true_iff in Hr as [->%Nat.eqb_eq _]. done.
  - intros (i & a & m & Ha & Hm & Hp & HE).
    pose proof (Forall2_lookup_lr _ _ _ _ _ _ Hmem Ha Hm) as Hty.
    assert (a ∈ accs) as Hin by (by eapply list_elem_of_lookup_2).
    rewrite list.Forall_forall in Hok. destruct (Hok a Hin) as [Ht Hf _ _ _].
    destruct (exit_usable _ _ v Hf HE eq_refl Hv) as [Hu Hr].
    exists (a.1.1, v_block v). split; [apply elem_of_exit_checks; split; [by exists a|done]|].
    cbn [fst snd]. rewrite Hr. cbn [andb]. apply existsb_exists_elem. exists (a, m). split.
    + apply list_elem_of_lookup. exists i. apply lookup_zip_with_Some. eauto.
    + cbn [fst snd]. rewrite Nat.eqb_refl, (normalize_ok vscale a.1.2) by done. exact Hp.
Qed.

Lemma mem_step_ok accs mem v :
  Forall (acc_ok v) accs -> Forall2 value_ok accs mem -> Forall2 value_ok accs (mem_step accs v mem).
Proof.
  intros Hok Hmem. unfold mem_step. induction Hmem as [|a m accs mem Hm _ IH]; [constructor|].
  inversion Hok; subst. cbn. constructor; [by apply acc_step_ok|by apply IH].
Qed.

Lemma mem_step_lookup accs mem v i (a : accumulator) m' :
  accs !! i = Some a -> mem_step accs v mem !! i = Some m' ->
  exists m, mem !! i = Some m /\ m' = acc_step v a m.
Proof.
  intros Ha (a' & m & -> & Ha' & Hm)%lookup_zip_with_Some. rewrite Ha in Ha'. injection Ha' as <-. eauto.
Qed.

(** *** From an iteration to the exit *)

(** Once poisoned, an accumulator is reported at the first block outside its loop. *)
Lemma poisoned_reported accs trace prev mem i (a : accumulator) m :
  Forall (fun v => visit_ok fn v /\ Forall (acc_ok v) accs) trace -> Forall2 value_ok accs mem ->
  walk prev trace -> accs !! i = Some a -> flush_sound a.1.1 = true ->
  v_block prev ∈ loop_blocks LI a.1.1 ->
  mem !! i = Some m -> has_poisoned_bit false m = true -> loop_reports accs mem trace = true.
Proof.
  revert prev mem m. induction trace as [|v trace IH]; intros prev mem m Hall Hmem Hwalk Ha Hf Hin Hm Hp.
  { by destruct (Hwalk _ Hf). }
  apply list.Forall_cons in Hall as [[Hv Hok] Hall]. destruct Hwalk as [[_ Hsucc] Hwalk].
  cbn [PassLoops.loop_reports]. apply orb_true_iff.
  destruct (decide (v_block v ∈ loop_blocks LI a.1.1)) as [Hv_in|Hout].
  - right. pose proof (Forall2_lookup_lr _ _ _ _ _ _ Hmem Ha Hm) as Hty.
    pose proof (proj1 (list.Forall_forall _ _) Hok a ltac:(by eapply list_elem_of_lookup_2)) as Hao.
    destruct (acc_step_ok v a m Hao Hty) as [_ Hpois].
    rewrite (no_reset_inside v _ Hv_in), Hp in Hpois.
    eapply (IH v _ (acc_step v a m)); [done|by apply mem_step_ok|done|done|done|done| |by rewrite Hpois].
    apply lookup_zip_with_Some. eauto.
  - left. apply exit_reports_spec; [done|done|done|]. exists i, a, m. split_and!; try done.
    by eapply (exits _ _ Hlaws).
Qed.

(** A report at an exit comes from a poisoned shadow of an earlier visit. *)
Lemma reported_poisoned accs trace mem :
  Forall (fun v => visit_ok fn v /\ Forall (acc_ok v) accs) trace -> Forall2 value_ok accs mem ->
  loop_reports accs mem trace = true ->
  (exists i m, mem !! i = Some m /\ has_poisoned_bit false m = true) \/
  existsb (fun v => existsb (acc_hits v) accs) trace = true.
Proof.
  revert mem. induction trace as [|v trace IH]; intros mem Hall Hmem; [done|].
  apply list.Forall_cons in Hall as [[Hv Hok] Hall]. cbn [PassLoops.loop_reports existsb].
  intros [Hr|Hr]%orb_true_iff.
  - left. apply exit_reports_spec in Hr as (i & a & m & _ & Hm & Hp & _); [|done..]. eauto.
  - apply IH in Hr as [(i & m' & Hm' & Hp)|Hr]; [|right; by rewrite Hr, orb_true_r|done|by apply mem_step_ok].
    assert (exists a, accs !! i = Some a) as [a Ha].
    { apply lookup_lt_is_Some_2. apply lookup_lt_Some in Hm'. unfold mem_step in Hm'.
      rewrite length_zip_with in Hm'. lia. }
    destruct (mem_step_lookup _ _ _ _ _ _ Ha Hm') as (m & Hm & ->).
    pose proof (Forall2_lookup_lr _ _ _ _ _ _ Hmem Ha Hm) as Hty.
    assert (a ∈ accs) as Hin by (by eapply list_elem_of_lookup_2).
    pose proof (proj1 (list.Forall_forall _ _) Hok a Hin) as Hao.
    destruct (acc_step_ok v a m Hao Hty) as [_ Hpois]. rewrite Hpois in Hp.
    apply andb_true_iff in Hp as [_ [Hp|Hp]%orb_true_iff]; [left; eauto|].
    right. apply orb_true_iff. left. apply existsb_exists_elem. eauto.
Qed.

(** An iteration that computes a poisoned shadow is reported. *)
Lemma hit_reported accs trace v mem :
  Forall (fun v => visit_ok fn v /\ Forall (acc_ok v) accs) (v :: trace) -> Forall2 value_ok accs mem ->
  walk v trace ->
  existsb (fun v => existsb (acc_hits v) accs) (v :: trace) = true -> loop_reports accs mem (v :: trace) = true.
Proof.
  revert v mem. induction trace as [|v' trace IH]; intros v mem [[Hv Hok] Hall]%list.Forall_cons Hmem Hwalk;
    cbn [existsb PassLoops.loop_reports]; intros [Hh|Hh]%orb_true_iff; try done.
  3:{ apply orb_true_iff. right. apply IH; [done|by apply mem_step_ok|by destruct Hwalk|exact Hh]. }
  all: apply existsb_exists_elem in Hh as (a & Hin & Hh).
  all: apply orb_true_iff; right; pose proof (proj1 (list.Forall_forall _ _) Hok a Hin) as Hao.
  all: pose proof Hh as (s & Hs & [Hacc _]%andb_true_iff)%existsb_exists_elem.
  all: pose proof (ao_inside v a Hao s Hs Hacc) as Hinside; pose proof (ao_flush v a Hao) as Hf.
  - by destruct (Hwalk _ Hf).
  - apply list_elem_of_lookup in Hin as (i & Ha).
    destruct (Forall2_lookup_l _ _ _ _ _ Hmem Ha) as (m & Hm & Hty).
    destruct (acc_step_ok v a m Hao Hty) as [_ Hpois].
    eapply (poisoned_reported accs (v' :: trace) v _ i a (acc_step v a m));
      [done|by apply mem_step_ok|done|done|done|done| |].
    + apply lookup_zip_with_Some. eauto.
    + by rewrite Hpois, (no_reset_inside v _ Hinside), Hh, orb_true_r.
Qed.

(** *** The plan of a list of checks, seen from one visit *)

Notation check_ok := (check_ok getFirstInsertionPt fn vscale).
Notation plan_check := (plan_check getFirstInsertionPt fn LI).
Notation plan_checks := (plan_checks getFirstInsertionPt fn LI).

Record plan_ok (v : visit) (p : loop_plan) : Prop := {
  po_essential : Forall (check_ok v) (lp_essential p);
  po_anchored : Forall (fun kv => Forall (src_ok vscale (v_env v)) kv.2) (lp_anchored p);
  po_accs : Forall (acc_ok v) (lp_accs p)
}.

Definition acc_value (v : visit) (_ : acc_key) (s : src) : bool := accumulates v s && poisoned (v_env v) s.

Definition plan_reports (v : visit) (p : loop_plan) : bool :=
  existsb (check_reports o v) (lp_essential p) || mv_exists (anchored_reports v) (lp_anchored p) ||
  mv_exists (acc_value v) (lp_accs p).

(** A check that goes to an accumulator reaches it when it is reached. *)
Lemma accumulator_reached v c k :
  visit_ok fn v -> check_ok v c -> loop_check_ok c ->
  loopAccumulator getFirstInsertionPt fn LI c = Some k ->
  isIntOrIntVectorTy k.2 = true /\ flush_sound k.1 = true /\ src_type (Shadow c) = k.2 /\
  (accumulates v (Shadow c) = true -> v_block v ∈ loop_blocks LI k.1) /\
  acc_value v k (Shadow c) = check_reports o v c.
Proof.
  intros Hv [Hidx _ _] Hloop. unfold loopAccumulator.
  destruct (getLoopFor LI _) as [l|]; [|done]. destruct (Shadow c) as [|s t] eqn:Es; [done|].
  destruct (getLoopPreheader LI l); [|done]. destruct (_ && _) eqn:Ec; [|done]. intros [= <-]. cbn [fst snd].
  apply andb_true_iff in Ec as [[Hin%bool_decide_eq_true Ht]%andb_true_iff Hf].
  destruct (Hloop s t Es) as (Hb & Hab & Hai).
  assert (accumulates v (SrcInst s t) = (lb s =? v_block v)%nat /\
          reached v (OrigIns c) = (lb s =? v_block v)%nat) as [Ha Hr].
  { cbn [PassLoops.accumulates]. unfold reached. rewrite Hab, <- Hb.
    destruct (Nat.eqb_spec (lb s) (v_block v)) as [Hbv|]; [|done]. cbn [andb].
    rewrite (flush_stop l v) by (try done; by rewrite <- Hbv). rewrite <- Hbv.
    split; apply Nat.leb_le; [done|]. rewrite Hb. unfold terminator. lia. }
  split_and!; try done.
  - rewrite Ha. intros <-%Nat.eqb_eq. done.
  - unfold acc_value, check_reports. rewrite Ha, Hr, Es. cbn [isConstantSrc negb].
    by rewrite orb_true_r, andb_true_r.
Qed.

Lemma mv_push_all {K V} `{EqDecision K} (P : K * list V -> Prop) k x (m : list (K * list V)) :
  Forall P m -> P (k, [x]) -> (forall vs, P (k, vs) -> P (k, vs ++ [x])) -> Forall P (mv_push k x m).
Proof.
  intros Hm H1 H2. induction Hm as [|[k' vs] m Hvs Hm IH]; cbn; [by constructor|].
  case_decide as Hk; constructor; subst; auto.
Qed.

Lemma plan_check_ok v p c :
  visit_ok fn v -> check_ok v c -> constants_ok o c -> loop_check_ok c -> plan_ok v p ->
  plan_ok v (plan_check p c) /\
  plan_reports v (plan_check p c) = plan_reports v p || check_reports o v c.
Proof.
  intros Hv Hc Hconst Hloop [HE HA HM]. unfold PassLoops.plan_check.
  assert (forall c', check_ok v c' -> Forall (check_ok v) (lp_essential p ++ [c'])) as HE'.
  { intros c' Hc'. apply list.Forall_app. split; [done|by apply list.Forall_singleton]. }
  assert (forall c', check_reports o v c' = check_reports o v c ->
    plan_reports v (mkPlan (lp_essential p ++ [c']) (lp_anchored p) (lp_accs p)) =
    plan_reports v p || check_reports o v c) as HR.
  { intros c' Hc'. unfold plan_reports. cbn [lp_essential lp_anchored lp_accs]. rewrite existsb_app.
    cbn [existsb]. rewrite Hc', orb_false_r.
    by destruct (existsb _ _), (check_reports o v c), (mv_exists _ (lp_anchored p)), (mv_exists _ (lp_accs p)). }
  destruct (is_essential fn c) eqn:Hess; [split; [split; try done; by apply HE'|by apply HR]|].
  destruct (loopAccumulator _ _ _ c) as [k|] eqn:Hk.
  - destruct (accumulator_reached v c k Hv Hc Hloop Hk) as (Ht & Hf & Hty & Hin & Hrep). split.
    + split; try done. cbn [lp_accs]. apply mv_push_all; [done| |].
      * split; try done; cbn [fst snd]; intros s ->%list_elem_of_singleton; [split; [apply Hc|done]|done].
      * intros vs [H1 H2 H3 H4 H5]. split; try done; cbn [fst snd] in *; [| |by destruct vs];
          intros s [Hs| ->%list_elem_of_singleton]%elem_of_app; eauto. split; [apply Hc|done].
    + unfold plan_reports. cbn [lp_essential lp_anchored lp_accs].
      by rewrite mv_push_exists, Hrep, orb_assoc.
  - unfold anchor_loc. destruct (anchorFor _ _) as [A|] eqn:EA; cbn [fmap option_fmap option_map].
    + apply anchor_clear in EA; [|apply Hc]. pose proof (reached_clear fn v _ _ _ Hv EA) as Hr. split.
      * split; try done. apply (mv_push_Forall (fun _ => src_ok vscale (v_env v))); [done|apply Hc].
      * unfold plan_reports. cbn [lp_essential lp_anchored lp_accs]. rewrite mv_push_exists.
        assert (anchored_reports v (mkLoc (lb (OrigIns c)) A) (Shadow c) = check_reports o v c) as ->.
        { unfold anchored_reports, check_reports. rewrite Hconst, andb_true_r, Hr. by destruct (OrigIns c). }
        by destruct (existsb _ _), (check_reports o v c), (mv_exists _ (lp_anchored p)), (mv_exists _ (lp_accs p)).
    + split; [split; try done; apply HE'; by destruct Hc|by apply HR].
Qed.

Lemma plan_checks_ok v IL :
  visit_ok fn v -> Forall (check_ok v) IL -> Forall (constants_ok o) IL -> Forall loop_check_ok IL ->
  plan_ok v (plan_checks IL) /\ plan_reports v (plan_checks IL) = existsb (check_reports o v) IL.
Proof.
  intros Hv Hc Hconst Hloop. unfold PassLoops.plan_checks.
  enough (forall p, plan_ok v p -> plan_ok v (fold_left plan_check IL p) /\
    plan_reports v (fold_left plan_check IL p) = plan_reports v p || existsb (check_reports o v) IL) as H
    by (apply H; split; constructor).
  induction IL as [|c IL IH]; intros p Hp; cbn [fold_left existsb]; [by rewrite orb_false_r|].
  apply list.Forall_cons in Hc as [Hc Hcs], Hconst as [Hco Hcos], Hloop as [Hl Hls].
  destruct (plan_check_ok v p c Hv Hc Hco Hl Hp) as [H1 H2]. destruct (IH Hcs Hcos Hls _ H1) as [H3 H4].
  split; [done|]. by rewrite H4, H2, orb_assoc.
Qed.

(** The code outside the loop exits. *)
Lemma straight_reports v p count :
  visit_ok fn v -> plan_ok v p ->
  reports false (straight_checks o getFirstInsertionPt fn p count).1 v =
  existsb (check_reports o v) (lp_essential p) || mv_exists (anchored_reports v) (lp_anchored p).
Proof.
  intros Hv [HE HA _]. unfold straight_checks.
  pose proof (materialize_all_reports v (fun kv => emitAnchored o kv.1 kv.2)
    (fun kv : loc * list src => existsb (anchored_reports v kv.1) kv.2) (lp_anchored p)) as H1.
  specialize (H1 ltac:(clear H1; eapply list.Forall_impl; [exact HA|]; intros [A ss] Hss count'; cbn [fst snd] in *;
    destruct ss as [|s0 rest]; [done|]; cbn [emitAnchored]; apply list.Forall_cons in Hss as [Hs0 Hrest];
    rewrite (emit_chain o vscale v A _ (ERaw s0) rest) by done; cbn [leaves existsb];
    rewrite orb_false_r; unfold anchored_reports; destruct (reached v A); [done|by clear; induction rest])).
  specialize (H1 count).
  destruct (materialize_all (fun kv => emitAnchored o kv.1 kv.2) (lp_anchored p) count) as [es n].
  pose proof (runs_reports o getFirstInsertionPt fn vscale v (lp_essential p) n Hv HE) as H2.
  destruct (materialize_all (materializeInstructionChecks o getFirstInsertionPt fn) _ n) as [es' n'].
  cbn [fst] in *. rewrite reports_app, H1, H2. apply orb_comm.
Qed.

Lemma loop_trace IL v0 trace count :
  Forall (fun v => visit_ok fn v /\ Forall (check_ok v) IL) (v0 :: trace) ->
  Forall (constants_ok o) IL -> Forall loop_check_ok IL -> walk v0 trace ->
  materializeCoalescedLoopChecks o getFirstInsertionPt fn LI false vscale IL count (v0 :: trace)
  = spec_reports o IL (v0 :: trace).
Proof.
  intros Hall Hconst Hloop Hwalk. unfold materializeCoalescedLoopChecks, spec_reports.
  set (p := plan_checks IL). set (accs := lp_accs p).
  assert (Forall (fun v => visit_ok fn v /\ plan_ok v p /\
            plan_reports v p = existsb (check_reports o v) IL) (v0 :: trace)) as Hp.
  { eapply list.Forall_impl; [exact Hall|]. intros v [Hv Hc]. split; [done|]. by apply plan_checks_ok. }
  assert (Forall (fun v => visit_ok fn v /\ Forall (acc_ok v) accs) (v0 :: trace)) as Haccs.
  { eapply list.Forall_impl; [exact Hp|]. intros v (Hv & [] & _). done. }
  assert (Forall2 value_ok accs (init_mem false vscale accs) /\
          (forall i m, init_mem false vscale accs !! i = Some m -> has_poisoned_bit false m = false)) as [Hmem Hclean].
  { apply list.Forall_cons in Haccs as [[_ H0] _]. clear Hp Hall. unfold init_mem.
    assert (forall a : accumulator, a ∈ accs -> isIntOrIntVectorTy a.1.2 = true /\ wf_ty vscale a.1.2 = true) as Hwf.
    { intros [k ss] Ha. destruct (proj1 (list.Forall_forall _ _) H0 _ Ha) as [Ht _ Hs _ Hne]. split; [done|].
      cbn [fst snd] in *. destruct ss as [|s ss]; [done|]. destruct (Hs s) as [Hok Hty]; [left|].
      apply (has_ty_wf vscale (src_value (v_env v0) s)); [done|]. unfold src_ok in Hok. by rewrite Hty in Hok. }
    split.
    - apply Forall2_fmap_r. apply Forall_Forall2_diag. apply list.Forall_forall. intros a Ha.
      destruct (Hwf a Ha). by apply clean_ok.
    - intros i m (a & -> & Ha)%list_lookup_fmap_Some. destruct (Hwf a); [by eapply list_elem_of_lookup_2|].
      by apply clean_ok. }
  assert (loop_reports accs (init_mem false vscale accs) (v0 :: trace) =
          existsb (fun v => existsb (acc_hits v) accs) (v0 :: trace)) as ->.
  { apply eq_true_iff_eq. split.
    - intros [(i & m & Hm & Hpois)|Hr]%reported_poisoned; try done. by rewrite (Hclean i m Hm) in Hpois.
    - intros Hh. by apply hit_reported. }
  clear -LL Hp. induction Hp as [|v t (Hv & Hpv & Heq) _ IH]; [done|]. cbn [existsb].
  rewrite <- IH, <- Heq, (straight_reports v p count Hv Hpv). unfold plan_reports.
  assert (mv_exists (acc_value v) (lp_accs p) = existsb (acc_hits v) accs) as -> by done.
  apply or_swap.
Qed.
End sound.

(** ** The flipped convention *)

(** Bit 0 of every lane: what keeps an accumulator clean when clean is all ones. *)
Definition odd_lanes (v : shadow) : bool :=
  match v with
  | VInt w x => (0 <? w) && Z.testbit x 0
  | VVec _ w xs => (0 <? w) && forallb (fun x => Z.testbit x 0) xs
  | _ => false
  end.

Lemma odd_or a b : odd_lanes a = true -> odd_lanes (CreateOr a b) = true.
Proof.
  destruct a as [w x|sc w xs| |]; try done; destruct b as [w' y|sc' w' ys| |]; try done; cbn [odd_lanes CreateOr].
  - intros [-> Hx]%andb_true_iff. by rewrite Z.lor_spec, Hx.
  - intros [-> Hx]%andb_true_iff. cbn [andb]. revert ys. induction xs as [|x xs IH]; intros [|y ys]; try done.
    cbn [forallb zip_with] in *. apply andb_true_iff in Hx as [Hx Hxs]. by rewrite Z.lor_spec, Hx, IH.
Qed.

Lemma odd_normalize v : odd_lanes v = true -> normalizeShadow true v = Some false.
Proof.
  assert (forall x, Z.testbit x 0 = true -> (x =? 0) = false) as Hnz.
  { intros x Hx. apply Z.eqb_neq. intros ->. by rewrite Z.bits_0 in Hx. }
  destruct v as [w x|sc w xs| |]; try done; cbn [odd_lanes normalizeShadow]; intros [Hw Hx]%andb_true_iff.
  - by rewrite Hnz.
  - rewrite Hnz; [done|]. apply Z.ltb_lt in Hw. unfold CreateAndReduce in *. induction xs as [|x xs IH]; cbn [foldr forallb] in *.
    + by apply Z.ones_spec_low.
    + apply andb_true_iff in Hx as [Hx Hxs]. by rewrite Z.land_spec, Hx, IH.
Qed.

Lemma odd_clean vscale t :
  isIntOrIntVectorTy t = true -> wf_ty vscale t = true -> odd_lanes (clean_of true vscale t) = true.
Proof.
  destruct t as [w|sc n w| |]; try done; intros _; cbn [wf_ty]; unfold clean_of, getAllOnesShadow; cbn [splat odd_lanes].
  - intros Hw. rewrite Hw. apply Z.ones_spec_low. lia.
  - intros [_ Hw]%andb_true_iff. rewrite Hw. cbn [andb]. apply forallb_forall. intros x Hx.
    apply list_elem_of_In, elem_of_replicate in Hx as [-> _]. apply Z.ones_spec_low. lia.
Qed.

Section flip.
Context (gfip : list instr -> nat) (fn : list (list instr)) (LI : LoopInfo) (vscale : Z).

Lemma flip_step v (a : accumulator) m :
  odd_lanes (clean_of true vscale a.1.2) = true -> odd_lanes m = true ->
  odd_lanes (acc_step gfip fn LI true vscale v a m) = true.
Proof.
  intros Hc Hm. unfold acc_step. destruct (resets fn LI v a.1.1); [done|]. clear Hc.
  destruct a as [k ss]. cbn [snd]. revert m Hm. induction ss as [|s ss IH]; intros m Hm; [done|].
  cbn [fold_left]. apply IH. destruct (accumulates gfip fn v s); [by apply odd_or|done].
Qed.

Lemma flip_silent accs mem trace :
  Forall2 (fun (a : accumulator) m => odd_lanes (clean_of true vscale a.1.2) = true /\ odd_lanes m = true) accs mem ->
  loop_reports gfip fn LI true vscale accs mem trace = false.
Proof.
  revert mem. induction trace as [|v trace IH]; intros mem Hmem; [done|]. cbn [loop_reports].
  rewrite IH.
  - rewrite orb_false_r. unfold exit_reports. apply existsb_false. intros [l E] _.
    apply andb_false_iff. right. unfold comb. apply existsb_false. intros [a m] Ham.
    apply andb_false_iff. right. cbn [fst snd].
    apply list_elem_of_lookup in Ham as (i & (a' & m' & [= <- <-] & Ha & Hm)%lookup_zip_with_Some).
    destruct (Forall2_lookup_lr _ _ _ _ _ _ Hmem Ha Hm) as [_ Ho]. by rewrite odd_normalize.
  - clear IH. unfold mem_step. induction Hmem as [|a m accs mem [Hc Hm] _ IHm]; [constructor|].
    cbn. constructor; [|done]. split; [done|by apply flip_step].
Qed.
End flip.

(** ** Theorems *)

(** C7: accumulating the checks of a loop and testing them at its exits reports on
    exactly the executions the specification, and so the baseline, reports on,
    provided the execution ends outside the loops whose flush is sound.  The
    accumulator cannot be missed (no instruction of such a loop keeps control and
    every way out is a tested exit), is reset only outside its loop, and starts
    clean, so nothing is invented either. *)
Theorem loop_checks_refine `{LLVMLaws} o gfip fn LI successors vscale IL v0 trace count count' :
  (forall bb j, (j < gfip bb)%nat -> isBBBarrier bb j = false) ->
  (forall bb, (gfip bb <= length bb)%nat) ->
  LoopInfoLaws LI successors ->
  execution_ok gfip fn vscale IL (v0 :: trace) ->
  Forall (constants_ok o) IL -> Forall (loop_check_ok gfip fn) IL -> walk gfip fn LI successors v0 trace ->
  materializeCoalescedLoopChecks o gfip fn LI false vscale IL count (v0 :: trace)
    = spec_reports o IL (v0 :: trace) /\
  materializeCoalescedLoopChecks o gfip fn LI false vscale IL count (v0 :: trace)
    = trace_reports (materializeChecksLegacy o gfip fn IL count').1 (v0 :: trace).
Proof.
  intros Hf Hw HL He Hc Hl Hwalk.
  assert (materializeCoalescedLoopChecks o gfip fn LI false vscale IL count (v0 :: trace)
          = spec_reports o IL (v0 :: trace)) as Heq by (by eapply loop_trace).
  split; [done|]. rewrite Heq. symmetry. by eapply legacy_trace.
Qed.

(** A preheader, a loop of one block that loads in each iteration, and its exit. *)
Definition loop_fn : list (list instr) := [[plain; plain]; [plain; plain; plain; plain]; [plain; plain]].
Definition loop_info : LoopInfo := {|
  getLoopFor b := match b with 1%nat => Some 0%nat | _ => None end;
  loop_blocks _ := [1%nat];
  getLoopPreheader _ := Some 0%nat;
  getExitBlocks _ := [2%nat] |}.
Definition loop_succ (b : nat) : list nat := match b with 0 => [1] | 1 => [1; 2] | _ => [] end%nat.
Definition loop_il : list check := [mkCheck (SrcInst (mkLoc 1 1) (SInt 32)) (mkLoc 1 0) false].

Lemma loop_info_laws : LoopInfoLaws loop_info loop_succ.
Proof.
  split; cbn.
  - intros [|[|b]] l; try done. intros _. by left.
  - intros l b s ->%list_elem_of_singleton [->|[->|?%not_elem_of_nil]%elem_of_cons]%elem_of_cons Hout; [|by left|done].
    exfalso. apply Hout. by left.
  - intros l p [= <-] ?%list_elem_of_singleton. done.
Qed.

(** Uninitialised in the first of two iterations. *)
Definition dirty_env : env := fun _ => VInt 32 0x80.
Definition clean_env : env := fun _ => VInt 32 0.
Definition loop_visits : list visit := [mkVisit 1 3 dirty_env; mkVisit 1 3 clean_env; mkVisit 2 1 clean_env].

Lemma loop_execution : execution_ok demo_first loop_fn 1 loop_il (mkVisit 0 1 clean_env :: loop_visits).
Proof.
  assert (forall v, visit_ok loop_fn v -> src_ok 1 (v_env v) (SrcInst (mkLoc 1 1) (SInt 32)) ->
    visit_ok loop_fn v /\ Forall (check_ok demo_first loop_fn 1 v) loop_il) as H.
  { intros v Hv Hs. split; [done|]. apply list.Forall_singleton. split; [cbn; lia|exact Hs|].
    intros l t [= <- <-] _ _. split_and!; [cbn; lia|cbn; lia|].
    intros j Hj. do 4 (destruct j as [|j]; [reflexivity|]). cbn in Hj. lia. }
  repeat (apply list.Forall_cons; split; [apply H; [by left|reflexivity]|]). constructor.
Qed.

Lemma loop_checks_refine_witness :
  materializeCoalescedLoopChecks options0 demo_first loop_fn loop_info false 1 loop_il 0
    (mkVisit 0 1 clean_env :: loop_visits) = true.
Proof.
  destruct (loop_checks_refine options0 demo_first loop_fn loop_info loop_succ 1 loop_il
    (mkVisit 0 1 clean_env) loop_visits 0 0) as [H _]; [..|rewrite H; reflexivity].
  - intros bb j Hj. unfold demo_first in Hj. lia.
  - intros bb. unfold demo_first. lia.
  - exact loop_info_laws.
  - exact loop_execution.
  - by apply list.Forall_singleton.
  - apply list.Forall_singleton. intros l t [= <- <-]. split_and!; [done|done|cbn; lia].
  - repeat split; try (by left); try (by right; left). intros l _ ?%list_elem_of_singleton. done.
Defined.

(** built with the flipped convention the loop accumulators are blind: clean is
    all ones and a shadow is ORed in, so whatever the loops read, no exit check ever
    reports, although the same shadows are reported by a check at the load. *)
Theorem flip_loops_never_report gfip fn LI vscale (accs : list accumulator) trace :
  Forall (fun a : accumulator => isIntOrIntVectorTy a.1.2 = true /\ wf_ty vscale a.1.2 = true) accs ->
  loop_reports gfip fn LI true vscale accs (init_mem true vscale accs) trace = false.
Proof.
  intros Hall. apply flip_silent. unfold init_mem. apply Forall2_fmap_r, Forall_Forall2_diag.
  eapply list.Forall_impl; [exact Hall|]. intros a [Ht Hwf]. split; by apply odd_clean.
Qed.

Lemma flip_loops_never_report_witness :
  lp_accs (plan_checks demo_first loop_fn loop_info loop_il) = [((0%nat, SInt 32), [SrcInst (mkLoc 1 1) (SInt 32)])] /\
  loop_reports demo_first loop_fn loop_info true 1 [((0%nat, SInt 32), [SrcInst (mkLoc 1 1) (SInt 32)])]
    (init_mem true 1 [((0%nat, SInt 32), [SrcInst (mkLoc 1 1) (SInt 32)])])
    [mkVisit 0 1 clean_env; mkVisit 1 3 clean_env; mkVisit 2 1 clean_env] = false.
Proof. split; [reflexivity|]. apply flip_loops_never_report. by repeat constructor. Defined.

(** the price of the strategy.  An execution that never visits an exit block of
    a loop (it spins there for good, or dies in it) reports none of the checks that
    the loop accumulated. *)
Theorem unfinished_loop_is_silent gfip fn LI flip vscale accs mem trace :
  (forall v a, v ∈ trace -> a ∈ accs -> v_block v ∉ getExitBlocks LI a.1.1) ->
  loop_reports gfip fn LI flip vscale accs mem trace = false.
Proof.
  revert mem. induction trace as [|v trace IH]; intros mem Hout; [done|]. cbn [loop_reports].
  rewrite IH by (intros v' a Hv'; apply Hout; by right). rewrite orb_false_r.
  unfold exit_reports. apply existsb_false. intros [l E] ((a & Ha & <-) & HE & _)%elem_of_exit_checks.
  apply andb_false_iff. left. unfold reached. cbn [fst snd lb].
  destruct (Nat.eqb_spec E (v_block v)) as [->|]; [|done]. exfalso. by apply (Hout v a); [left| |].
Qed.

Lemma unfinished_loop_is_silent_witness :
  loop_reports demo_first loop_fn loop_info false 1 [((0%nat, SInt 32), [SrcInst (mkLoc 1 1) (SInt 32)])]
    [VInt 32 0] [mkVisit 0 1 clean_env; mkVisit 1 3 dirty_env] = false.
Proof.
  apply unfinished_loop_is_silent.
  intros v a [->|[->|?%not_elem_of_nil]%elem_of_cons]%elem_of_cons _ ?%list_elem_of_singleton; done.
Defined.
