(* ===== verification/PassSinks.v ===== *)
(** * Moving the check of a load down to its sink

    With -cqmsan-sink-checks, on by default, the pass
    (src/pass/CompilerQEMUMemorySanitizer.cpp) moves the check of a loaded value
    to the first use that matters: [findSinkFor] follows the value through casts,
    arithmetic and the like, and takes a memory access, a division or a call whose
    block is the load's or post-dominates it, in the same innermost loop, with no
    instruction on the way that may keep control ([guaranteedPathHasBarrier]).
    This file models the two searches and shows that every execution that runs
    the load and ends goes on to run the sink; that the moved check reports what
    the check at the load does when the load is not run again first; and, by an
    example, that the conditions of the source do not exclude that it is. *)

From stdpp Require Import relations.
From S2P Require Import Prelude Worklist PassShadow PassChecks PassLoops.

(** ** Uses *)

(** A user of a value, as [findSinkFor] distinguishes it.  Operands are
    instructions of the function by number, [None] anything else. *)
Inductive use_op :=
| ULoad (ptr : option nat)
| UStore (val ptr : option nat)
| UReturn (v : option nat)
| UBranch (conditional : bool) (cond : option nat)
| USwitch (cond : option nat)
(** sdiv, udiv, srem, urem *)
| UDivRem (a b : option nat)
| UBinary (a b : option nat)
(** MemIntrinsic; a callee whose name starts with __cqmsan; the arguments *)
| UCall (memIntrinsic runtime : bool) (args : list (option nat))
(** cast, getelementptr, cmp, extract, insert, shuffle, unary, freeze *)
| UPropagate
| UOther.

Record user := mkUser { u_loc : loc; u_op : use_op }.

(** What the body of the loop does with a user: a candidate sink, a value to
    follow, or nothing. *)
Inductive use_action := Candidate | Follow | Skip.

#[export] Instance use_action_eq_dec : EqDecision use_action.
Proof. solve_decision. Defined.

Definition is_value (V : nat) (op : option nat) : bool := bool_decide (op = Some V).

Definition classify (V : nat) (op : use_op) : use_action :=
  match op with
  | ULoad ptr => if is_value V ptr then Candidate else Skip
  | UStore val ptr => if is_value V ptr then Candidate else Skip
  | UReturn v => if is_value V v then Candidate else Skip
  | UBranch conditional c => if conditional && is_value V c then Candidate else Skip
  | USwitch c => if is_value V c then Candidate else Skip
  | UDivRem a b => if is_value V b then Candidate else Follow
  | UBinary _ _ => Follow
  | UCall memIntrinsic runtime args =>
      if memIntrinsic then Skip else if runtime then Skip
      else if existsb (is_value V) args then Candidate else Skip
  | UPropagate => Follow
  | UOther => Skip
  end.

Section sinks.
Context (fn : list (list instr)) (successors : nat -> list nat).
(** LLVM's loop and post-dominance analyses. *)
Context (getLoopFor : nat -> option nat) (postDominates : nat -> nat -> bool).
(** The instructions, and the use lists. *)
Context (insts : list user) (users : nat -> list nat).
Context (ClSinkPastBarriers : bool).

Notation block := (block fn).

Definition loc_of (V : nat) : loc := match insts !! V with Some u => u_loc u | None => mkLoc 0 0 end.
Definition op_of (V : nat) : use_op := match insts !! V with Some u => u_op u | None => UOther end.

(** ** [guaranteedPathHasBarrier] *)

Definition has_barrier (bb : list instr) (from upto : nat) : bool :=
  existsb (isBBBarrier bb) (seq from (upto - from)).

(** The blocks between: reachable from the load's block without passing the sink's. *)
Definition path_start (LBB SBB : nat) : wl_state :=
  fold_left (wl_push (fun S => negb (S =? SBB)%nat)) (successors LBB) ([], ∅).

Definition path_blocks_have_barrier (LBB SBB : nat) : option bool :=
  match worklist successors (fun _ S => negb (S =? SBB)%nat)
          (fun B => if has_barrier (block B) 0 (length (block B)) then Some tt else None)
          (length fn) (path_start LBB SBB) with
  | Some (Some _, _) => Some true
  | Some (None, _) => Some false
  | None => None
  end.

Definition guaranteedPathHasBarrier (Load Sink : loc) : option bool :=
  let LBB := lb Load in let SBB := lb Sink in
  if (LBB =? SBB)%nat then Some (has_barrier (block LBB) (S (li Load)) (li Sink))
  else if has_barrier (block LBB) (S (li Load)) (length (block LBB)) then Some true
  else match path_blocks_have_barrier LBB SBB with
       | Some true => Some true
       | Some false => Some (has_barrier (block SBB) 0 (li Sink))
       | None => None
       end.

(** ** [findSinkFor] *)

Definition isTerminator (l : loc) : bool := (li l =? terminator (block (lb l)))%nat.

Definition acceptable (Load Cand : loc) : bool :=
  negb (isTerminator Cand) &&
  bool_decide (getLoopFor (lb Cand) = getLoopFor (lb Load)) &&
  (if (lb Cand =? lb Load)%nat then (li Load <? li Cand)%nat else postDominates (lb Cand) (lb Load)) &&
  (ClSinkPastBarriers || match guaranteedPathHasBarrier Load Cand with Some b => negb b | None => false end).

(** [for (User *U : V->users())]: [inl] is the sink returned. *)
Fixpoint scan_users (Load : loc) (V : nat) (us : list nat) (st : wl_state) : nat + wl_state :=
  match us with
  | [] => inr st
  | U :: us =>
      match classify V (op_of U) with
      | Candidate => if acceptable Load (loc_of U) then inl U else scan_users Load V us st
      | Follow => scan_users Load V us (if bool_decide (U ∈ st.2) then st else (U :: st.1, {[U]} ∪ st.2))
      | Skip => scan_users Load V us st
      end
  end.

Fixpoint sink_loop (Load : loc) (fuel : nat) (st : wl_state) : option (option nat) :=
  match st.1 with
  | [] => Some None
  | V :: wl =>
      match fuel with
      | O => None
      | S fuel =>
          match scan_users Load V (users V) (wl, st.2) with
          | inl sink => Some (Some sink)
          | inr st => sink_loop Load fuel st
          end
      end
  end.

Definition findSinkFor (Load : nat) : option (option nat) :=
  sink_loop (loc_of Load) (length insts) ([Load], {[Load]}).

(** The remapping in [runOnFunction]: the check of a load moves to its sink. *)
Definition remap_check (load_of : check -> option nat) (c : check) : check :=
  if Essential c then c
  else match load_of c with
  | None => c
  | Some Load => match findSinkFor Load with
                 | Some (Some sink) => mkCheck (Shadow c) (loc_of sink) (Essential c)
                 | _ => c
                 end
  end.

(** *** The specification *)

Definition flows_to (V U : nat) : Prop := U ∈ users V /\ classify V (op_of U) = Follow.

Definition sink_of (Load U : nat) : Prop :=
  exists V, rtc flows_to Load V /\ U ∈ users V /\ classify V (op_of U) = Candidate /\
            acceptable (loc_of Load) (loc_of U) = true.

(** ** The search for a sink *)

Definition first_sink (Load : loc) (V : nat) : option nat :=
  List.find (fun U => bool_decide (classify V (op_of U) = Candidate) && acceptable Load (loc_of U)) (users V).

Definition follows (V U : nat) : bool := bool_decide (classify V (op_of U) = Follow).

Lemma scan_users_spec Load V us st :
  match List.find (fun U => bool_decide (classify V (op_of U) = Candidate) && acceptable Load (loc_of U)) us with
  | Some U => scan_users Load V us st = inl U
  | None => scan_users Load V us st = inr (fold_left (wl_push (follows V)) us st)
  end.
Proof.
  revert st. induction us as [|U us IH]; intros st; [done|].
  assert (wl_push (follows V) st U =
          if bool_decide (classify V (op_of U) = Follow)
          then if bool_decide (U ∈ st.2) then st else (U :: st.1, {[U]} ∪ st.2) else st) as Hpush.
  { unfold wl_push, follows. repeat case_bool_decide; done. }
  cbn [scan_users List.find fold_left]. rewrite Hpush. clear Hpush.
  destruct (classify V (op_of U)); cbn [bool_decide decide decide_rel].
  - rewrite (bool_decide_true (Candidate = Candidate)), (bool_decide_false (Candidate = Follow)) by done.
    cbn [andb]. destruct (acceptable Load (loc_of U)); [done|apply IH].
  - rewrite (bool_decide_false (Follow = Candidate)), (bool_decide_true (Follow = Follow)) by done. apply IH.
  - rewrite (bool_decide_false (Skip = Candidate)), (bool_decide_false (Skip = Follow)) by done. apply IH.
Qed.

Lemma sink_loop_worklist Load fuel st :
  sink_loop Load fuel st = fst <$> worklist users follows (first_sink Load) fuel st.
Proof.
  revert st. induction fuel as [|fuel IH]; intros [wl X]; cbn [sink_loop worklist fst snd]; destruct wl as [|V wl];
    try done.
  pose proof (scan_users_spec Load V (users V) (wl, X)) as Hs. fold (first_sink Load V) in Hs.
  destruct (first_sink Load V); rewrite Hs; [done|apply IH].
Qed.

Context (Husers : forall V U, U ∈ users V -> (U < length insts)%nat).

Lemma leads_flows_to V U : leads users follows V U <-> flows_to V U.
Proof. unfold leads, flows_to, follows. by rewrite bool_decide_eq_true. Qed.

Lemma findSinkFor_spec Load :
  (Load < length insts)%nat ->
  exists r, findSinkFor Load = Some r /\
    match r with Some U => sink_of Load U | None => forall U, ~ sink_of Load U end.
Proof.
  intros HLoad. unfold findSinkFor. rewrite sink_loop_worklist.
  assert (forall x, reachable users follows (fun s => s = Load) x <-> rtc flows_to Load x) as Hreach.
  { intros x. unfold reachable. split.
    - intros (s & -> & Hrtc). eapply rtc_subrel; [|exact Hrtc]. intros a b. apply leads_flows_to.
    - intros Hrtc. exists Load. split; [done|]. eapply rtc_subrel; [|exact Hrtc]. intros a b. apply leads_flows_to. }
  destruct (worklist_exact users follows (first_sink (loc_of Load)) (length insts) (fun s => s = Load)) with
    (fuel := length insts) (st := ([Load], {[Load]}) : wl_state) as (r & X & Hr & Hx).
  - intros V U [HU _]. by eapply Husers.
  - split; cbn [fst snd].
    + intros x ->%elem_of_singleton. apply elem_of_set_seq. lia.
    + intros x ->%list_elem_of_singleton. by apply elem_of_singleton.
    + intros s ->. by apply elem_of_singleton.
    + intros x ->%elem_of_singleton. by exists Load.
    + intros x ->%elem_of_singleton. left. by left.
  - cbn [fst snd length]. rewrite size_singleton. lia.
  - exists r. rewrite Hr. split; [done|]. destruct r as [U|].
    + destruct Hx as (V & HV%Hreach & HU). unfold first_sink in HU. apply find_some in HU as [Hin HU].
      apply andb_true_iff in HU as [Hc%bool_decide_eq_true Ha]. exists V. split_and!; try done.
      by apply list_elem_of_In.
    + intros U (V & HV & HU & Hc & Ha). destruct (Hx V) as [HXV HnoV].
      specialize (HnoV (proj2 HXV (proj2 (Hreach V) HV))). unfold first_sink in HnoV.
      apply list_elem_of_In in HU. pose proof (find_none _ _ HnoV U HU) as Hf. cbn in Hf.
      by rewrite bool_decide_true, Ha in Hf.
Qed.

(** ** The blocks between a load and its sink *)

Definition between (LBB SBB B : nat) : Prop :=
  exists s, s ∈ successors LBB /\ s <> SBB /\ rtc (fun a b => b ∈ successors a /\ b <> SBB) s B.

Context (Hsuccessors : forall b s, s ∈ successors b -> (s < length fn)%nat).

Lemma path_blocks_spec LBB SBB :
  exists b, path_blocks_have_barrier LBB SBB = Some b /\
    (b = false -> forall B, between LBB SBB B -> has_barrier (block B) 0 (length (block B)) = false).
Proof.
  set (start := fun s => s ∈ successors LBB /\ s <> SBB).
  set (ans := fun B => if has_barrier (block B) 0 (length (block B)) then Some tt else None).
  destruct (wl_inv_start successors (fun _ S => negb (S =? SBB)%nat) ans (length fn) start
              (fun S => negb (S =? SBB)%nat) (successors LBB)) as [Hinv Hlen].
  { intros s. unfold start. rewrite negb_true_iff, Nat.eqb_neq. done. }
  { intros s [Hs _]. by eapply Hsuccessors. }
  fold (path_start LBB SBB) in Hinv, Hlen.
  destruct (worklist_exact successors (fun _ S => negb (S =? SBB)%nat) ans (length fn) start) with
    (fuel := length fn) (st := path_start LBB SBB) as (r & X & Hr & Hx).
  - intros V U [HU _]. by eapply Hsuccessors.
  - done.
  - lia.
  - unfold path_blocks_have_barrier. fold ans. rewrite Hr. destruct r as [u|]; [by exists true|].
    exists false. split; [done|]. intros _ B (s & Hs & Hne & Hrtc).
    destruct (Hx B) as [HXB HnoB]. assert (B ∈ X) as HB.
    { apply HXB. exists s. split; [done|]. eapply rtc_subrel; [|exact Hrtc]. intros a b [Hab Hb].
      split; [done|]. by apply negb_true_iff, Nat.eqb_neq. }
    specialize (HnoB HB). unfold ans in HnoB. by destruct (has_barrier _ _ _).
Qed.

Lemma no_barrier_at bb from upto j :
  has_barrier bb from upto = false -> (from <= j < upto)%nat -> isBBBarrier bb j = false.
Proof.
  intros Hb Hj. apply not_true_is_false. intros Hx. apply not_true_iff_false in Hb. apply Hb.
  apply existsb_exists_elem. exists j. split; [apply elem_of_seq; lia|done].
Qed.

(** What the two conditions say of an accepted sink in another block. *)
Lemma clear_between Load Sink :
  lb Load <> lb Sink -> guaranteedPathHasBarrier Load Sink = Some false ->
  (forall j, (li Load < j < length (block (lb Load)))%nat -> isBBBarrier (block (lb Load)) j = false) /\
  (forall B j, between (lb Load) (lb Sink) B -> (j < length (block B))%nat -> isBBBarrier (block B) j = false) /\
  (forall j, (j < li Sink)%nat -> isBBBarrier (block (lb Sink)) j = false).
Proof.
  intros Hne. unfold guaranteedPathHasBarrier. apply Nat.eqb_neq in Hne as ->.
  destruct (has_barrier (block (lb Load)) _ _) eqn:Htail; [done|].
  destruct (path_blocks_spec (lb Load) (lb Sink)) as (b & -> & Hb). destruct b; [done|].
  intros [= Hhead]. split_and!.
  - intros j Hj. eapply no_barrier_at; [exact Htail|lia].
  - intros B j HB Hj. eapply no_barrier_at; [by apply Hb|lia].
  - intros j Hj. eapply no_barrier_at; [exact Hhead|lia].
Qed.

(** ** Executions *)

(** Consecutive visits: along an edge, and a shadow keeps its value until its
    block is visited again. *)
Definition goes_on (v v' : visit) : Prop :=
  steps_to fn successors v v' /\ forall l, lb l <> v_block v' -> v_env v' l = v_env v l.

Definition linked (R : visit -> visit -> Prop) (t : list visit) : Prop :=
  forall l1 a b l2, t = l1 ++ a :: b :: l2 -> R a b.

(** The function returns, or an instruction keeps control. *)
Definition ends (v : visit) : Prop :=
  (v_stop v = terminator (block (v_block v)) /\ successors (v_block v) = []) \/
  isBBBarrier (block (v_block v)) (v_stop v) = true.

Record activation (t : list visit) : Prop := {
  ac_visits v : v ∈ t -> visit_ok fn v;
  ac_linked : linked goes_on t;
  ac_ends l v : t = l ++ [v] -> ends v
}.

Lemma linked_tail R a t : linked R (a :: t) -> linked R t.
Proof. intros H l1 x y l2 ->. by apply (H (a :: l1) x y l2). Qed.

Lemma activation_tail v v' t : activation (v :: v' :: t) -> activation (v' :: t).
Proof.
  intros [Hv Hl He]. split.
  - intros w Hw. apply Hv. by right.
  - by eapply linked_tail.
  - intros l w Hw. apply (He (v :: l)). by rewrite Hw.
Qed.

Lemma activation_app t1 v t2 : activation (t1 ++ v :: t2) -> activation (v :: t2).
Proof.
  induction t1 as [|a t1 IH]; [done|]. intros H. apply IH. destruct t1; by eapply activation_tail.
Qed.

(** The documented meaning of post-dominance: no exit without the post-dominator. *)
Definition avoids (S a b : nat) : Prop := b ∈ successors a /\ b <> S.

Definition postdominance_law : Prop :=
  forall S LBB B, postDominates S LBB = true -> LBB <> S -> rtc (avoids S) LBB B -> successors B <> [].

Section moved.
Context (Hpost : postdominance_law).
Context (Load Sink : loc).
Context (Hne : lb Load <> lb Sink).
Context (Hdom : postDominates (lb Sink) (lb Load) = true).
Context (Hclear : guaranteedPathHasBarrier Load Sink = Some false).
Context (HSink : (li Sink < length (block (lb Sink)))%nat).
(** The load itself passes control on. *)
Context (HLoad : isBBBarrier (block (lb Load)) (li Load) = false).

Lemma between_rtc B : between (lb Load) (lb Sink) B -> rtc (avoids (lb Sink)) (lb Load) B.
Proof. intros (s & Hs & Hns & Hrtc). eapply rtc_l; [by split|done]. Qed.

Lemma between_next B s :
  (B = lb Load \/ between (lb Load) (lb Sink) B) -> s ∈ successors B -> s <> lb Sink ->
  between (lb Load) (lb Sink) s.
Proof.
  intros [->|(s0 & Hs0 & Hns0 & Hrtc)] Hs Hns; [exists s; split_and!; done|].
  exists s0. split_and!; try done. eapply rtc_r; [done|]. by split.
Qed.

(** A visit that has run the load, or one of a block between. *)
Definition on_the_way (v : visit) : Prop :=
  (v_block v = lb Load /\ (li Load <= v_stop v)%nat) \/ between (lb Load) (lb Sink) (v_block v).

Lemma on_the_way_open v : on_the_way v -> isBBBarrier (block (v_block v)) (v_stop v) = false.
Proof.
  destruct (clear_between Load Sink Hne Hclear) as (Htail & Hmid & _). intros Hv.
  apply not_true_is_false. intros Hb. pose proof Hb as Hlt. unfold isBBBarrier in Hlt.
  destruct (_ !! _) eqn:Hi in Hlt; [|done]. apply lookup_lt_Some in Hi. clear Hlt.
  destruct Hv as [[Heq Hs]|Hv]; [|by rewrite (Hmid _ _ Hv Hi) in Hb].
  rewrite Heq in *. destruct (decide (v_stop v = li Load)) as [Hs'|Hs']; [by rewrite Hs', HLoad in Hb|].
  rewrite Htail in Hb; [done|]. lia.
Qed.

Lemma sink_visit_reached v : visit_ok fn v -> v_block v = lb Sink -> reached v Sink = true.
Proof.
  destruct (clear_between Load Sink Hne Hclear) as (_ & _ & Hhead). intros Hv Hw.
  unfold reached. rewrite Hw, Nat.eqb_refl. cbn [andb]. apply Nat.leb_le.
  destruct (Nat.le_gt_cases (li Sink) (v_stop v)) as [|Hlt]; [done|]. exfalso.
  destruct Hv as [Hs|Hs]; rewrite Hw in Hs; [unfold terminator in Hs; lia|].
  by rewrite (Hhead _ Hlt) in Hs.
Qed.

(** From there the execution goes on, and gets to the sink. *)
Lemma reaches_sink v t :
  activation (v :: t) -> on_the_way v ->
  exists t1 w t2, t = t1 ++ w :: t2 /\ v_block w = lb Sink /\ reached w Sink = true /\
    forall u, u ∈ t1 -> between (lb Load) (lb Sink) (v_block u).
Proof.
  revert v. induction t as [|w t IH]; intros v Hact Hv;
    assert (v_block v = lb Load \/ between (lb Load) (lb Sink) (v_block v)) as Hvb by (destruct Hv as [[? _]|?]; auto).
  - exfalso. destruct (ac_ends _ Hact [] v eq_refl) as [[_ Hsucc]|Hb]; [|by rewrite on_the_way_open in Hb].
    apply (Hpost (lb Sink) (lb Load) (v_block v)); try done.
    destruct Hvb as [->|?]; [done|by apply between_rtc].
  - pose proof (ac_linked _ Hact [] v w t eq_refl) as [[_ Hedge] _].
    destruct (decide (v_block w = lb Sink)) as [Hw|Hw].
    + exists [], w, t. split_and!; try done; [|intros u Hu; by apply not_elem_of_nil in Hu].
      apply sink_visit_reached; [|done]. apply (ac_visits _ Hact). right. left.
    + assert (between (lb Load) (lb Sink) (v_block w)) as Hbw by (by eapply between_next).
      destruct (IH w) as (t1 & w' & t2 & -> & H1 & H2 & H3); [by eapply activation_tail|by right|].
      exists (w :: t1), w', t2. split_and!; try done. intros u [->|Hu]%elem_of_cons; auto.
Qed.

(** *** The moved check *)

(** The shadow is computed in the load's block, and the load is not run again
    before its sink. *)
Context (l : loc) (t : shadow_ty) (Hl : lb l = lb Load).
Context (Honce : ~ between (lb Load) (lb Sink) (lb Load)).

Lemma shadow_kept v t1 w t2 :
  linked goes_on (v :: t1 ++ w :: t2) -> (forall u, u ∈ t1 -> v_block u <> lb Load) -> v_block w <> lb Load ->
  v_env w l = v_env v l.
Proof.
  revert v. induction t1 as [|u t1 IH]; intros v Hlink Hne' Hw.
  - destruct (Hlink [] v w t2 eq_refl) as [_ ->]; [done|]. by rewrite Hl.
  - rewrite (IH u); [|by eapply linked_tail| |done].
    + destruct (Hlink [] v u (t1 ++ w :: t2) eq_refl) as [_ ->]; [done|]. rewrite Hl. apply not_eq_sym.
      apply Hne'. left.
    + intros u' Hu'. apply Hne'. by right.
Qed.

(** The last visit of the load's block before a visit of another block. *)
Lemma last_load_visit t1 w t2 :
  linked goes_on (t1 ++ w :: t2) -> v_block w <> lb Load -> (exists u, u ∈ t1 /\ v_block u = lb Load) ->
  exists u, u ∈ t1 /\ v_block u = lb Load /\ v_stop u = terminator (block (lb Load)) /\ v_env w l = v_env u l.
Proof.
  revert w t2. induction t1 as [|x t1 IH] using rev_ind; intros w t2 Hlink Hw (u & Hu & Hul).
  { by apply not_elem_of_nil in Hu. }
  rewrite <- app_assoc in Hlink. cbn [app] in Hlink.
  pose proof (Hlink t1 x w t2 eq_refl) as [[Hstop _] Henv].
  assert (v_env w l = v_env x l) as Hk by (apply Henv; rewrite Hl; by apply not_eq_sym).
  destruct (decide (v_block x = lb Load)) as [Hx|Hx].
  - exists x. split_and!; [apply elem_of_app; right; left|done|by rewrite <- Hx|done].
  - destruct (IH x (w :: t2)) as (u' & Hu' & H1 & H2 & H3); [done|done| |].
    + apply elem_of_app in Hu as [Hu| ->%list_elem_of_singleton]; [by exists u|done].
    + exists u'. split_and!; try done; [apply elem_of_app; by left|]. by rewrite Hk.
Qed.

Context (o : PassOptions) (ess : bool).
Context (HLoad_in : (li Load < length (block (lb Load)))%nat).

Lemma moved_reports trace :
  activation trace ->
  (forall t1 w t2, trace = t1 ++ w :: t2 -> v_block w = lb Sink -> exists u, u ∈ t1 /\ v_block u = lb Load) ->
  existsb (fun v => check_reports o v (mkCheck (SrcInst l t) Sink ess)) trace =
  existsb (fun v => check_reports o v (mkCheck (SrcInst l t) Load ess)) trace.
Proof.
  intros Hact Hdomt. apply eq_true_iff_eq. rewrite !existsb_exists_elem. unfold check_reports.
  cbn [Shadow OrigIns isConstantSrc negb src_value]. split.
  - intros (w & Hin & [[Hr _]%andb_true_iff Hp]%andb_true_iff).
    apply list_elem_of_split in Hin as (t1 & t2 & ->).
    assert (v_block w = lb Sink) as Hw by (apply andb_true_iff in Hr as [Hr _]; by apply Nat.eqb_eq in Hr).
    destruct (last_load_visit t1 w t2) as (u & Hu & Hub & Hus & Hk);
      [apply Hact|by rewrite Hw; apply not_eq_sym|by eapply Hdomt|].
    exists u. split; [apply elem_of_app; by left|]. rewrite Hk in Hp. rewrite Hp, orb_true_r, !andb_true_r.
    unfold reached. rewrite Hub, Nat.eqb_refl. cbn [andb]. apply Nat.leb_le. rewrite Hus. unfold terminator. lia.
  - intros (v & Hin & [[Hr _]%andb_true_iff Hp]%andb_true_iff).
    apply list_elem_of_split in Hin as (t1 & t2 & ->). apply activation_app in Hact as Hact'.
    apply andb_true_iff in Hr as [Hb%Nat.eqb_eq Hs%Nat.leb_le].
    destruct (reaches_sink v t2 Hact') as (t3 & w & t4 & -> & Hw & Hrw & Hbtw); [by left|].
    exists w. split; [apply elem_of_app; right; right; apply elem_of_app; right; left|].
    rewrite orb_true_r, andb_true_r, Hrw. cbn [andb].
    rewrite (shadow_kept v t3 w t4); [done|apply Hact'| |by rewrite Hw; apply not_eq_sym].
    intros u Hu Hul. apply Honce. rewrite <- Hul at 2. by apply Hbtw.
Qed.
End moved.
End sinks.

(** ** Theorems *)

(** the search for a sink terminates on every def-use graph, cycles included,
    and finds a sink exactly when there is one: a candidate use of a value the load
    flows to, in the load's loop, guaranteed, with no barrier on the way. *)
Theorem findSinkFor_exact fn successors getLoopFor postDominates insts users past Load :
  (forall V U, U ∈ users V -> (U < length insts)%nat) -> (Load < length insts)%nat ->
  exists r, findSinkFor fn successors getLoopFor postDominates insts users past Load = Some r /\
    match r with
    | Some U => sink_of fn successors getLoopFor postDominates insts users past Load U
    | None => forall U, ~ sink_of fn successors getLoopFor postDominates insts users past Load U
    end.
Proof. intros Hu HL. by apply findSinkFor_spec. Qed.

(** What an accepted sink satisfies. *)
Lemma acceptable_inv fn successors getLoopFor postDominates Load Sink :
  acceptable fn successors getLoopFor postDominates false Load Sink = true ->
  isTerminator fn Sink = false /\ guaranteedPathHasBarrier fn successors Load Sink = Some false /\
  (if (lb Sink =? lb Load)%nat then (li Load < li Sink)%nat else postDominates (lb Sink) (lb Load) = true).
Proof.
  unfold acceptable. intros [[[Ht _]%andb_true_iff Hg]%andb_true_iff Hb]%andb_true_iff. cbn [orb] in Hb.
  split_and!.
  - by apply negb_true_iff.
  - destruct (guaranteedPathHasBarrier _ _ _ _) as [[]|]; done.
  - destruct (lb Sink =? lb Load)%nat; [by apply Nat.ltb_lt|done].
Qed.

(** In one block, the sink is on a clear path from the load. *)
Lemma same_block_clear fn successors Load Sink :
  lb Load = lb Sink -> (li Load < li Sink < length (block fn (lb Load)))%nat ->
  isBBBarrier (block fn (lb Load)) (li Load) = false ->
  guaranteedPathHasBarrier fn successors Load Sink = Some false ->
  clear_path (block fn (lb Load)) (li Load) (li Sink).
Proof.
  unfold guaranteedPathHasBarrier. intros <- Hlt HL. rewrite Nat.eqb_refl. intros [= Hb].
  split_and!; [lia|lia|]. intros j Hj. destruct (decide (j = li Load)) as [->|]; [done|].
  eapply no_barrier_at; [exact Hb|lia].
Qed.

(** C9: a sink the search accepts is reached.  In every activation of the function
    that returns or is ended by an instruction that keeps control, each visit that
    runs the load runs the sink too, in the same visit or in a later one reached
    through blocks that cannot be left otherwise. *)
Theorem accepted_sink_is_reached fn successors getLoopFor postDominates Load Sink v t :
  (forall b s, s ∈ successors b -> (s < length fn)%nat) ->
  postdominance_law successors postDominates ->
  acceptable fn successors getLoopFor postDominates false Load Sink = true ->
  (li Sink < length (block fn (lb Sink)))%nat -> isBBBarrier (block fn (lb Load)) (li Load) = false ->
  activation fn successors (v :: t) -> reached v Load = true ->
  exists w, w ∈ v :: t /\ reached w Sink = true.
Proof.
  intros Hsucc Hpost (_ & Hclear & Hg)%acceptable_inv HS HL Hact Hr.
  apply andb_true_iff in Hr as [Hb%Nat.eqb_eq Hs%Nat.leb_le].
  destruct (Nat.eqb_spec (lb Sink) (lb Load)) as [He|Hne].
  - exists v. split; [left|].
    assert (clear_path (block fn (lb Load)) (li Load) (li Sink)) as Hc.
    { apply (same_block_clear _ successors); try done. rewrite <- He. lia. }
    assert (visit_ok fn v) as Hv by (apply Hact; left).
    pose proof (reached_clear fn v (lb Load) (li Load) (li Sink) Hv Hc) as Hrc.
    destruct Sink as [bs is_]. cbn [lb li] in *. subst bs. rewrite Hrc. unfold reached. cbn [lb li].
    by rewrite Hb, Nat.eqb_refl, (proj2 (Nat.leb_le _ _) Hs).
  - destruct (reaches_sink fn successors postDominates Hsucc Hpost Load Sink (not_eq_sym Hne) Hg Hclear HS HL v t Hact)
      as (t1 & w & t2 & -> & _ & Hw & _); [by left|].
    exists w. split; [set_solver|done].
Qed.

Lemma moved_check_reports fn successors getLoopFor postDominates Load Sink l t o ess trace :
  (forall b s, s ∈ successors b -> (s < length fn)%nat) ->
  postdominance_law successors postDominates ->
  acceptable fn successors getLoopFor postDominates false Load Sink = true ->
  (li Sink < length (block fn (lb Sink)))%nat -> (li Load < length (block fn (lb Load)))%nat ->
  isBBBarrier (block fn (lb Load)) (li Load) = false -> lb l = lb Load ->
  activation fn successors trace ->
  (lb Load <> lb Sink ->
     ~ between successors (lb Load) (lb Sink) (lb Load) /\
     forall t1 w t2, trace = t1 ++ w :: t2 -> v_block w = lb Sink -> exists u, u ∈ t1 /\ v_block u = lb Load) ->
  existsb (fun v => check_reports o v (mkCheck (SrcInst l t) Sink ess)) trace =
  existsb (fun v => check_reports o v (mkCheck (SrcInst l t) Load ess)) trace.
Proof.
  intros Hsucc Hpost (_ & Hclear & Hg)%acceptable_inv HS HLi HL Hl Hact Hcross.
  destruct (Nat.eqb_spec (lb Sink) (lb Load)) as [He|Hne].
  - apply existsb_ext_Forall, list.Forall_forall. intros v Hv. unfold check_reports. cbn [OrigIns Shadow].
    assert (clear_path (block fn (lb Load)) (li Load) (li Sink)) as Hc.
    { apply (same_block_clear _ successors); try done. rewrite <- He. lia. }
    pose proof (reached_clear fn v (lb Load) (li Load) (li Sink) (ac_visits _ _ _ Hact v Hv) Hc) as Hrc.
    destruct Load as [bl il], Sink as [bs is_]. cbn [lb li] in *. subst bs. by rewrite Hrc.
  - destruct (Hcross (not_eq_sym Hne)) as [Honce Hdomt].
    by apply (moved_reports fn successors postDominates Hsucc Hpost).
Qed.

(** C8: the check moved to its sink reports on an activation exactly when the check
    at the load does, provided the load dominates the sink (SSA) and is not run
    again before it: what the accepted conditions leave open is the last point. *)
Theorem moved_check_exact fn successors getLoopFor postDominates Load Sink l t o ess trace :
  (forall b s, s ∈ successors b -> (s < length fn)%nat) ->
  postdominance_law successors postDominates ->
  acceptable fn successors getLoopFor postDominates false Load Sink = true ->
  (li Sink < length (block fn (lb Sink)))%nat -> (li Load < length (block fn (lb Load)))%nat ->
  isBBBarrier (block fn (lb Load)) (li Load) = false -> lb l = lb Load ->
  activation fn successors trace ->
  (lb Load <> lb Sink ->
     ~ between successors (lb Load) (lb Sink) (lb Load) /\
     forall t1 w t2, trace = t1 ++ w :: t2 -> v_block w = lb Sink -> exists u, u ∈ t1 /\ v_block u = lb Load) ->
  existsb (fun v => check_reports o v (mkCheck (SrcInst l t) Sink ess)) trace =
  existsb (fun v => check_reports o v (mkCheck (SrcInst l t) Load ess)) trace.
Proof. apply moved_check_reports. Qed.

(** A diamond: the load in block 0, the call that uses it in block 3. *)
Definition diamond_fn : list (list instr) := [[plain; plain; plain]; [plain]; [plain]; [plain; plain]].
Definition diamond_succ (b : nat) : list nat := match b with 0 => [1; 2] | 1 | 2 => [3] | _ => [] end%nat.
Definition diamond_postdom (s b : nat) : bool := (s =? 3)%nat && (b <? 3)%nat.

Lemma diamond_law : postdominance_law diamond_succ diamond_postdom.
Proof.
  intros S LBB B [->%Nat.eqb_eq HL%Nat.ltb_lt]%andb_true_iff _ Hrtc.
  assert (B < 3)%nat as HB.
  { induction Hrtc as [x|x y z [Hxy Hn] _ IH]; [done|]. apply IH.
    destruct x as [|[|[|x]]]; cbn in Hxy; [|set_solver|set_solver|lia].
    apply elem_of_cons in Hxy as [->|Hxy]; [lia|]. apply list_elem_of_singleton in Hxy as ->. lia. }
  by destruct B as [|[|[|B]]]; [..|lia].
Qed.

(** The shadows of the load's block hold [x]. *)
Definition shadow_at (x : Z) : env := fun l => VInt 32 (if (lb l =? 0)%nat then x else 0).
Definition diamond_trace : list visit :=
  [mkVisit 0 2 (shadow_at 0xff); mkVisit 2 0 (shadow_at 0xff); mkVisit 3 1 (shadow_at 0xff)].

(** A trace of few visits is an activation by inspection of its neighbours. *)
Lemma linked_cons R a b t : R a b -> linked R (b :: t) -> linked R (a :: b :: t).
Proof.
  intros Hab Ht [|x l1] c d l2 Heq; cbn in Heq; [by injection Heq as <- <- _|].
  injection Heq as _ Heq. by eapply Ht.
Qed.
Lemma linked_one R a : linked R [a].
Proof. intros [|x [|y l1]] c d l2; done. Qed.

Lemma last_visit {A} (t l : list A) a v : t ++ [a] = l ++ [v] -> v = a.
Proof. intros H. apply app_inj_2 in H as [_ H]; [congruence|done]. Qed.

Lemma diamond_activation : activation diamond_fn diamond_succ diamond_trace.
Proof.
  split.
  - intros v Hv. repeat (apply elem_of_cons in Hv as [->|Hv]; [by left|]). by apply not_elem_of_nil in Hv.
  - repeat (apply linked_cons; [split; [split; [reflexivity|in_list]|done]|]). apply linked_one.
  - intros l v Hv. left. by rewrite (last_visit (take 2 diamond_trace) l (mkVisit 3 1 (shadow_at 0xff)) v Hv).
Qed.

Definition diamond_insts : list user :=
  [mkUser (mkLoc 0 0) (ULoad None); mkUser (mkLoc 3 0) (UCall false false [Some 0%nat])].
Definition diamond_users (V : nat) : list nat := match V with 0%nat => [1%nat] | _ => [] end.

Lemma findSinkFor_exact_witness :
  findSinkFor diamond_fn diamond_succ (fun _ => None) diamond_postdom diamond_insts diamond_users false 0
  = Some (Some 1%nat) /\
  exists r, findSinkFor diamond_fn diamond_succ (fun _ => None) diamond_postdom diamond_insts diamond_users false 0
            = Some r.
Proof.
  split; [reflexivity|].
  destruct (findSinkFor_exact diamond_fn diamond_succ (fun _ => None) diamond_postdom diamond_insts diamond_users
    false 0) as (r & H & _).
  - intros [|V] U; cbn; [by intros ->%list_elem_of_singleton; lia|by intros ?%not_elem_of_nil].
  - cbn. lia.
  - by exists r.
Defined.

Lemma diamond_succ_bound b s : s ∈ diamond_succ b -> (s < length diamond_fn)%nat.
Proof. destruct b as [|[|[|b]]]; cbn; intros Hs; repeat (apply elem_of_cons in Hs as [->|Hs]; [lia|]); by apply not_elem_of_nil in Hs. Qed.

Lemma accepted_sink_is_reached_witness :
  exists w, w ∈ diamond_trace /\ reached w (mkLoc 3 0) = true.
Proof.
  apply (accepted_sink_is_reached diamond_fn diamond_succ (fun _ => None) diamond_postdom (mkLoc 0 0) (mkLoc 3 0)
    (mkVisit 0 2 (shadow_at 0xff)) _ diamond_succ_bound diamond_law); try reflexivity; [cbn; lia|exact diamond_activation].
Defined.

Lemma moved_check_exact_witness :
  existsb (fun v => check_reports options0 v (mkCheck (SrcInst (mkLoc 0 1) (SInt 32)) (mkLoc 3 0) false)) diamond_trace
  = true.
Proof.
  rewrite (moved_check_exact diamond_fn diamond_succ (fun _ => None) diamond_postdom (mkLoc 0 0) (mkLoc 3 0)
    (mkLoc 0 1) (SInt 32) options0 false diamond_trace diamond_succ_bound diamond_law);
    try reflexivity; [cbn; lia|cbn; lia|exact diamond_activation|].
  intros _. split.
  - intros (s & Hs & Hn & Hrtc). cbn in Hs, Hrtc.
    assert (forall x y, rtc (fun a b => b ∈ diamond_succ a /\ b <> 3%nat) x y -> (0 < x)%nat -> (0 < y)%nat) as Hpos.
    { intros x y Hxy. induction Hxy as [|x y z [Hxy _] _ IH]; [done|]. intros _. apply IH.
      destruct x as [|[|[|x]]]; cbn in Hxy; repeat (apply elem_of_cons in Hxy as [->|Hxy]; [lia|]);
        by apply not_elem_of_nil in Hxy. }
    apply Hpos in Hrtc; [lia|]. repeat (apply elem_of_cons in Hs as [->|Hs]; [lia|]). by apply not_elem_of_nil in Hs.
  - intros t1 w t2 Heq Hw. destruct t1 as [|u t1].
    + injection Heq as <- _. done.
    + injection Heq as <- _. eexists. split; [left|done].
Defined.

(** The loop [for (;;) { x = *p; if (c) continue; g(x); if (d) break; }]. *)
Definition continue_fn : list (list instr) :=
  [[plain; plain; plain; plain]; [plain]; [a_call; plain]; [plain]].
Definition continue_succ (b : nat) : list nat :=
  match b with 0 => [1; 2] | 1 => [0] | 2 => [3; 1] | _ => [] end%nat.
Definition continue_loop (b : nat) : option nat := if (b <? 3)%nat then Some 0%nat else None.
Definition continue_postdom (s b : nat) : bool := (s =? 2)%nat && (b <? 2)%nat.
Definition continue_insts : list user :=
  [mkUser (mkLoc 0 0) (ULoad None); mkUser (mkLoc 2 0) (UCall false false [Some 0%nat])].

Definition continue_trace : list visit :=
  [mkVisit 0 3 (shadow_at 0xff); mkVisit 1 0 (shadow_at 0xff); mkVisit 0 3 (shadow_at 0);
   mkVisit 2 1 (shadow_at 0); mkVisit 3 0 (shadow_at 0)].

Lemma continue_law : postdominance_law continue_succ continue_postdom.
Proof.
  intros S LBB B [->%Nat.eqb_eq HL%Nat.ltb_lt]%andb_true_iff _ Hrtc.
  assert (B < 2)%nat as HB.
  { induction Hrtc as [x|x y z [Hxy Hn] _ IH]; [done|]. apply IH.
    destruct x as [|[|x]]; cbn in Hxy; [| |lia];
      repeat (apply elem_of_cons in Hxy as [->|Hxy]; [lia|]); by apply not_elem_of_nil in Hxy. }
  by destruct B as [|[|B]]; [..|lia].
Qed.

Lemma continue_activation : activation continue_fn continue_succ continue_trace.
Proof.
  split.
  - intros v Hv. repeat (apply elem_of_cons in Hv as [->|Hv]; [by left|]). by apply not_elem_of_nil in Hv.
  - repeat (apply linked_cons; [split; [split; [reflexivity|in_list]|]|]); try apply linked_one; try done.
    intros l Hl%Nat.eqb_neq. cbn [v_block v_env] in *. unfold shadow_at. by rewrite Hl.
  - intros l v Hv. left. by rewrite (last_visit (take 4 continue_trace) l (mkVisit 3 0 (shadow_at 0)) v Hv).
Qed.

(** an iteration of the load can escape its moved check.  In the loop
    [for (;;) { x = *p; if (c) continue; g(x); if (d) break; }] the call
    post-dominates the load and is in the same innermost loop, so the search accepts
    it; an execution whose first iteration reads uninitialised memory and continues
    is reported by the check at the load and not by the moved one. *)
Theorem sink_loses_an_iteration :
  findSinkFor continue_fn continue_succ continue_loop continue_postdom continue_insts diamond_users false 0
    = Some (Some 1%nat) /\
  postdominance_law continue_succ continue_postdom /\
  activation continue_fn continue_succ continue_trace /\
  (let c := mkCheck (SrcInst (mkLoc 0 1) (SInt 32)) (mkLoc 0 0) false in
   let moved := remap_check continue_fn continue_succ continue_loop continue_postdom continue_insts diamond_users
                  false (fun _ => Some 0%nat) c in
   OrigIns moved = mkLoc 2 0 /\
   existsb (fun v => check_reports options0 v c) continue_trace = true /\
   existsb (fun v => check_reports options0 v moved) continue_trace = false).
Proof.
  split; [reflexivity|]. split; [exact continue_law|]. split; [exact continue_activation|].
  split_and!; reflexivity.
Qed.
