(* ===== verification/PassMemory.v ===== *)
(** * Instrumented memory accesses

    What the visitors of src/pass/CompilerQEMUMemorySanitizer.cpp emit for the
    instructions that touch memory: scalar and vector loads and stores, masked,
    expanding, compressing, gathering and scattering accesses, atomics, stack
    allocations and the outputs of inline assembly.  A load reads the shadow of
    what it loads and records a check of it, of the active lanes only; a store
    marks what it writes as initialised, whatever the value ("opportunistic": no
    shadow is propagated).  The emitted code is read as what it does to the shadow
    memory.

    The abstract specification is the set of initialised bytes of the program: an
    access reads some bytes, initialises others and leaves the rest.  On any
    sequence of accesses the shadow memory tracks that set, and a load's check
    fires exactly when it reads a byte outside it.

    An access has a size of whole bytes, at its run-time address.  Left to other
    files: the placement of a check (PassChecks, PassSinks, PassLoops), the shared
    shadow pointer of neighbouring accesses (PassShadow), the shadow of a register
    that is not loaded (PassUndef).  ClCheckAccessAddress, off by default, would
    add a check of the address operand to every access. *)

From S2P Require Import Prelude Memory Layout Poisoning Interface PassShadow.

Notation P := linux_x86_64.
Notation shadow_ptr a := (getShadowPtrOffset Linux_X86_64_MemoryMapParams a) (only parsing).

(** ** Lanes *)

(** Where each lane of a vector access is, and whether its mask bit is set. *)
Definition lanes : Type := list (Z * bool).

(** Lane [i] at [a + i * es]. *)
Fixpoint contiguous (a es : Z) (mask : list bool) : lanes :=
  match mask with
  | [] => []
  | b :: mask => (a, b) :: contiguous (a + es) es mask
  end.

(** expandload, compressstore: the active lanes one after the other. *)
Fixpoint packed (a es : Z) (mask : list bool) : lanes :=
  match mask with
  | [] => []
  | b :: mask => (a, b) :: packed (if b then a + es else a) es mask
  end.

(** ** The memory instructions *)

Inductive access :=
(** a load and a store of [n] bytes, a whole number of them; [value]: the shadow
    of the value stored, [slice]: whether the value is of the undef slice;
    [dead], [callee]: what onlyFeedsNoSanitize and onlyFeedsCallee answer for the
    value loaded (file PassPolicy) *)
| ALoad (a n : Z) (dead callee : bool)
| AStore (a n : Z) (isAtomic : bool) (value : Z) (slice : bool)
(** atomicrmw, and cmpxchg with the recorded shadow of its comparand *)
| AAtomicRMW (a n : Z)
| AAtomicCmpXchg (a n : Z) (cmp : option Z)
(** the intrinsics; [es] is the size of a lane, [pass] the shadow of the
    pass-through, [values] that of the values *)
| AMaskedLoad (a es : Z) (mask : list bool) (pass : list Z)
| AMaskedExpandLoad (a es : Z) (mask : list bool) (pass : list Z)
| AMaskedGather (ptrs : list Z) (es : Z) (mask : list bool) (pass : list Z)
| AMaskedStore (a es : Z) (mask : list bool) (values : list Z)
| AMaskedCompressStore (a es : Z) (mask : list bool) (values : list Z)
| AMaskedScatter (ptrs : list Z) (es : Z) (mask : list bool) (values : list Z)
| AVectorLoad (a n : Z)
| AVectorStore (a n : Z) (value : Z)
| AStmxcsr (a : Z)
| ALdmxcsr (a : Z)
(** llvm.memcpy, llvm.memmove, llvm.memset, lowered to calls of the runtime *)
| AMemCpy (dst src n : Z)
| AMemMove (dst src n : Z)
| AMemSet (dst ch n : Z)
(** libatomic's __atomic_load and __atomic_store *)
| ALibAtomicLoad (size src dst : Z)
| ALibAtomicStore (size dst : Z)
(** the outputs of an inline assembly, with the sizes of their types *)
| AAsmOutputs (outs : list (Z * option Z))
(** an alloca: the size of its type, and the number of elements of an array *)
| AAlloca (a size : Z) (count : option Z).

Record MemOptions := mkMemOptions {
  ClSkipNoSanitizeOnlyLoads : bool;
  ClSkipCalleeOnlyLoads : bool;
  ClInstrumentLoads : bool;
  ClInstrumentStores : bool;
  ClCheckLoads : bool;
  ClUnpoisonStores : bool;
  InsertChecks : bool;
  PoisonStack : bool;
  ClPoisonStackWithCall : bool;
  ClPoisonStackPattern : Z
}.

(** The options' defaults. *)
Definition default_mem_options : MemOptions := mkMemOptions true false true true true true true true false 0xff.

(** What the emitted code calls in the runtime, as effects on memory. *)
Class RuntimeMem := {
  memcpy_fn : Z -> Z -> Z -> mem -> mem;
  memmove_fn : Z -> Z -> Z -> mem -> mem;
  memset_fn : Z -> Z -> Z -> mem -> mem;
  poison_stack_fn : Z -> Z -> mem -> mem;
  is_static_range_fn : Z -> bool
}.

(** What the pass relies on: the destination becomes initialised, the shadow of
    the rest of the application is left alone. *)
Class RuntimeMemLaws (flip : bool) (R : RuntimeMem) : Prop := {
  rt_initialises (f : mem -> mem) dst src ch n m b :
    f = memcpy_fn dst src n \/ f = memmove_fn dst src n \/ f = memset_fn dst ch n ->
    app_buffer P dst n -> 0 <= n -> MEM_IS_APP P b = true ->
    f m (MEM_TO_SHADOW P b) =
      if in_range dst n b then (if flip then 0xff else 0) else m (MEM_TO_SHADOW P b)
}.

Section instrument.
Context `{RuntimeMem} (o : MemOptions) (flip : bool).

(** A byte, and a word of [n] bytes, of the clean shadow. *)
Definition clean_byte : Z := if flip then 0xff else 0.
Definition clean_word (n : Z) : Z := if flip then Z.ones (8 * n) else 0.

(** What an access did: whether its check fires, and the new memory. *)
Definition result : Type := bool * mem.

(** *** Stores *)

(** [materializeStores], for one store. *)
Definition materializeStore (a n : Z) (isAtomic : bool) (value : Z) (slice : bool) (m : mem) : mem :=
  let shadow := if ClUnpoisonStores o || isAtomic then clean_word n else value in
  let shadow := if ClUnpoisonStores o && negb isAtomic && slice then value else shadow in
  store n m (shadow_ptr a) shadow.

Definition visitStoreInst (a n : Z) (isAtomic : bool) (value : Z) (slice : bool) (m : mem) : result :=
  if ClInstrumentStores o then (false, materializeStore a n isAtomic value slice m) else (false, m).

(** The value's check is that of cmpxchg's comparand. *)
Definition handleCASOrRMW (a n : Z) (cmp : option Z) (m : mem) : result :=
  (match cmp with Some v => InsertChecks o && convertToBool flip (VInt (8 * n) v) | None => false end,
   store n m (shadow_ptr a) (clean_word n)).

(** A masked store of shadows to the lanes at [sps]. *)
Definition store_lanes (es : Z) (sps : lanes) (shadows : list Z) (m : mem) : mem :=
  fold_left (fun m (l : Z * bool * Z) => if l.1.2 then store es m l.1.1 l.2 else m) (zip sps shadows) m.

Definition shadow_lanes (ptrs : list Z) (mask : list bool) : lanes :=
  zip (map (fun a => shadow_ptr a) ptrs) mask.

Definition stored_shadows (es : Z) (values : list Z) : list Z :=
  if ClUnpoisonStores o then map (fun _ => clean_word es) values else values.

Definition masked_store (es : Z) (sps : lanes) (values : list Z) (m : mem) : result :=
  if ClInstrumentStores o then (false, store_lanes es sps (stored_shadows es values) m) else (false, m).

Definition handleMaskedStore (a es : Z) (mask : list bool) (values : list Z) (m : mem) : result :=
  masked_store es (contiguous (shadow_ptr a) es mask) values m.

Definition handleMaskedCompressStore (a es : Z) (mask : list bool) (values : list Z) (m : mem) : result :=
  masked_store es (packed (shadow_ptr a) es mask) values m.

Definition handleMaskedScatter (ptrs : list Z) (es : Z) (mask : list bool) (values : list Z) (m : mem) : result :=
  masked_store es (shadow_lanes ptrs mask) values m.

Definition handleVectorStoreIntrinsic (a n value : Z) (m : mem) : result :=
  if ClInstrumentStores o
  then (false, store n m (shadow_ptr a) (if ClUnpoisonStores o then clean_word n else value))
  else (false, m).

Definition handleStmxcsr (a : Z) (m : mem) : result :=
  (false, store 4 m (shadow_ptr a) (clean_word 4)).

Definition visitLibAtomicStore (size dst : Z) (m : mem) : result :=
  (false, memset m (shadow_ptr dst) clean_byte size).

(** *** Loads *)

(** The recorded check of a shadow just loaded from [sp]. *)
Definition check_loaded (n : Z) (m : mem) (sp : Z) : bool :=
  convertToBool flip (VInt (8 * n) (load n m sp)).

(** Under the flipped convention the slow path spares the static ranges. *)
Definition visitLoadInst (a n : Z) (dead callee : bool) (m : mem) : result :=
  if ClInstrumentLoads o then
    if ClSkipNoSanitizeOnlyLoads o && dead then (false, m) else
    if ClSkipCalleeOnlyLoads o && callee then (false, m) else
    let poisoned := check_loaded n m (shadow_ptr a) in
    let poisoned := if flip then (if poisoned then negb (is_static_range_fn a) else false) else poisoned in
    (ClCheckLoads o && InsertChecks o && poisoned, m)
  else (false, m).

Definition handleVectorLoadIntrinsic (a n : Z) (m : mem) : result :=
  (InsertChecks o && check_loaded n m (shadow_ptr a), m).

Definition handleLdmxcsr (a : Z) (m : mem) : result :=
  if InsertChecks o then (check_loaded 4 m (shadow_ptr a), m) else (false, m).

(** The masked load of the shadow, with the pass-through in the other lanes, and
    the select that leaves only the active lanes to the check. *)
Definition load_lanes (es : Z) (sps : lanes) (pass : list Z) (m : mem) : list Z :=
  zip_with (fun (l : Z * bool) p => if l.2 then load es m l.1 else p) sps pass.

Definition active_shadow (es : Z) (sps : lanes) (shadow : list Z) : list Z :=
  zip_with (fun (l : Z * bool) s => if l.2 then s else clean_word es) sps shadow.

Definition check_lanes (es : Z) (sps : lanes) (pass : list Z) (m : mem) : bool :=
  convertToBool flip (VVec false (8 * es) (active_shadow es sps (load_lanes es sps pass m))).

Definition masked_load (es : Z) (sps : lanes) (pass : list Z) (m : mem) : result :=
  (ClCheckLoads o && InsertChecks o && check_lanes es sps pass m, m).

Definition handleMaskedLoad (a es : Z) (mask : list bool) (pass : list Z) (m : mem) : result :=
  masked_load es (contiguous (shadow_ptr a) es mask) pass m.

Definition handleMaskedExpandLoad (a es : Z) (mask : list bool) (pass : list Z) (m : mem) : result :=
  masked_load es (packed (shadow_ptr a) es mask) pass m.

Definition handleMaskedGather (ptrs : list Z) (es : Z) (mask : list bool) (pass : list Z) (m : mem) : result :=
  masked_load es (shadow_lanes ptrs mask) pass m.

(** libatomic copies the shadow after the call. *)
Definition visitLibAtomicLoad (size src dst : Z) (m : mem) : result :=
  (false, memmove m (shadow_ptr dst) (shadow_ptr src) size).

(** *** Memory intrinsics *)

Definition visitMemCpyInst (dst src n : Z) (m : mem) : result := (false, memcpy_fn dst src (u64 n) m).
Definition visitMemMoveInst (dst src n : Z) (m : mem) : result := (false, memmove_fn dst src (u64 n) m).
Definition visitMemSetInst (dst ch n : Z) (m : mem) : result := (false, memset_fn dst (u32 ch) (u64 n) m).

(** *** Allocations and assembly *)

Definition poisonAllocaUserspace (a Len : Z) (m : mem) : mem :=
  if PoisonStack o && ClPoisonStackWithCall o then poison_stack_fn a Len m
  else
    let PoisonValue := if PoisonStack o
                       then (if flip then not64 (ClPoisonStackPattern o) else ClPoisonStackPattern o)
                       else clean_byte in
    memset m (shadow_ptr a) PoisonValue Len.

Definition instrumentAlloca (a size : Z) (count : option Z) (m : mem) : result :=
  let Len := match count with Some k => u64 (size * k) | None => size end in
  (false, poisonAllocaUserspace a Len m).

(** Up to 32 bytes a store of the clean shadow, beyond that a memset of zero; an
    unsized type is skipped. *)
Definition instrumentAsmArgument (m : mem) (out : Z * option Z) : mem :=
  match out.2 with
  | None => m
  | Some Size =>
      if Size <=? 32 then store Size m (shadow_ptr out.1) (clean_word Size)
      else memset m (shadow_ptr out.1) 0 Size
  end.

Definition visitAsmInstruction (outs : list (Z * option Z)) (m : mem) : result :=
  (false, fold_left instrumentAsmArgument outs m).

(** The dispatch of [visit] and [visitIntrinsicInst]. *)
Definition instrument (x : access) (m : mem) : result :=
  match x with
  | ALoad a n dead callee => visitLoadInst a n dead callee m
  | AStore a n isAtomic value slice => visitStoreInst a n isAtomic value slice m
  | AAtomicRMW a n => handleCASOrRMW a n None m
  | AAtomicCmpXchg a n cmp => handleCASOrRMW a n cmp m
  | AMaskedLoad a es mask pass => handleMaskedLoad a es mask pass m
  | AMaskedExpandLoad a es mask pass => handleMaskedExpandLoad a es mask pass m
  | AMaskedGather ptrs es mask pass => handleMaskedGather ptrs es mask pass m
  | AMaskedStore a es mask values => handleMaskedStore a es mask values m
  | AMaskedCompressStore a es mask values => handleMaskedCompressStore a es mask values m
  | AMaskedScatter ptrs es mask values => handleMaskedScatter ptrs es mask values m
  | AVectorLoad a n => handleVectorLoadIntrinsic a n m
  | AVectorStore a n value => handleVectorStoreIntrinsic a n value m
  | AStmxcsr a => handleStmxcsr a m
  | ALdmxcsr a => handleLdmxcsr a m
  | AMemCpy dst src n => visitMemCpyInst dst src n m
  | AMemMove dst src n => visitMemMoveInst dst src n m
  | AMemSet dst ch n => visitMemSetInst dst ch n m
  | ALibAtomicLoad size src dst => visitLibAtomicLoad size src dst m
  | ALibAtomicStore size dst => visitLibAtomicStore size dst m
  | AAsmOutputs outs => visitAsmInstruction outs m
  | AAlloca a size count => instrumentAlloca a size count m
  end.

(** The reports of a sequence of accesses, and the memory at its end. *)
Fixpoint run (xs : list access) (m : mem) : list bool * mem :=
  match xs with
  | [] => ([], m)
  | x :: xs => let '(r, m) := instrument x m in let '(rs, m) := run xs m in (r :: rs, m)
  end.
End instrument.

(** The shadow whose check the access records, in a build without the flip, with
    the default options. *)
Definition recorded_shadow (x : access) (m : mem) : option shadow :=
  let lane_shadow es sps pass := VVec false (8 * es) (active_shadow false es sps (load_lanes es sps pass m)) in
  match x with
  | ALoad a n dead _ => if dead then None else Some (VInt (8 * n) (load n m (shadow_ptr a)))
  | AVectorLoad a n => Some (VInt (8 * n) (load n m (shadow_ptr a)))
  | ALdmxcsr a => Some (VInt 32 (load 4 m (shadow_ptr a)))
  | AMaskedLoad a es mask pass => Some (lane_shadow es (contiguous (shadow_ptr a) es mask) pass)
  | AMaskedExpandLoad a es mask pass => Some (lane_shadow es (packed (shadow_ptr a) es mask) pass)
  | AMaskedGather ptrs es mask pass => Some (lane_shadow es (shadow_lanes ptrs mask) pass)
  | AAtomicCmpXchg _ n cmp => VInt (8 * n) <$> cmp
  | _ => None
  end.

(** ** The abstract specification: initialised bytes *)

Definition initialised : Type := Z -> bool.

(** The active lanes, as ranges. *)
Definition active_ranges (es : Z) (ls : lanes) : list (Z * Z) :=
  map (fun l => (l.1, es)) (List.filter (fun l : Z * bool => l.2) ls).

(** The ranges whose initialisation the access checks: a load whose value no
    instrumented instruction consumes checks nothing. *)
Definition reads (x : access) : list (Z * Z) :=
  match x with
  | ALoad a n dead _ => if dead then [] else [(a, n)]
  | AVectorLoad a n => [(a, n)]
  | AMaskedLoad a es mask _ => active_ranges es (contiguous a es mask)
  | AMaskedExpandLoad a es mask _ => active_ranges es (packed a es mask)
  | AMaskedGather ptrs es mask _ => active_ranges es (zip ptrs mask)
  | ALdmxcsr a => [(a, 4)]
  | _ => []
  end.

(** The ranges it initialises. *)
Definition writes (x : access) : list (Z * Z) :=
  match x with
  | AStore a n _ _ _ | AAtomicRMW a n | AAtomicCmpXchg a n _ | AVectorStore a n _
  | ALibAtomicStore n a | AMemCpy a _ n | AMemMove a _ n | AMemSet a _ n => [(a, n)]
  | AMaskedStore a es mask _ => active_ranges es (contiguous a es mask)
  | AMaskedCompressStore a es mask _ => active_ranges es (packed a es mask)
  | AMaskedScatter ptrs es mask _ => active_ranges es (zip ptrs mask)
  | AStmxcsr a => [(a, 4)]
  | AAsmOutputs outs => omap (fun out => pair out.1 <$> out.2) outs
  | _ => []
  end.

Definition covered (rs : list (Z * Z)) (b : Z) : bool := existsb (fun r => in_range r.1 r.2 b) rs.

(** The use the access reports: of an uninitialised byte, or of an
    uninitialised comparand. *)
Definition uses_uninitialised (x : access) (init : initialised) : bool :=
  match x with
  | AAtomicCmpXchg _ _ (Some v) => negb (v =? 0)
  | _ => existsb (fun r => existsb (fun i => negb (init (r.1 + i))) (zrange r.2)) (reads x)
  end.

Definition alloca_len (size : Z) (count : option Z) : Z := size * default 1 count.

Definition spec_step (x : access) (init : initialised) : initialised :=
  match x with
  | AAlloca a size count => fun b => if in_range a (alloca_len size count) b then false else init b
  | ALibAtomicLoad size src dst => fun b => if in_range dst size b then init (src + (b - dst)) else init b
  | _ => fun b => covered (writes x) b || init b
  end.

Fixpoint spec_run (xs : list access) (init : initialised) : list bool * initialised :=
  match xs with
  | [] => ([], init)
  | x :: xs => let '(rs, init') := spec_run xs (spec_step x init) in (uses_uninitialised x init :: rs, init')
  end.

Definition buffer_ok (a n : Z) : Prop := 0 < n < 2 ^ 64 /\ app_buffer P a n.

(** An access is within application memory, a vector access with all its lanes
    in one object; the value stored is not of the undef slice. *)
Definition access_ok (x : access) : Prop :=
  match x with
  | ALoad a n _ _ | AVectorLoad a n | AAtomicRMW a n | AAtomicCmpXchg a n _ | AVectorStore a n _
  | ALibAtomicStore n a | AMemCpy a _ n | AMemMove a _ n | AMemSet a _ n => buffer_ok a n
  | AStore a n _ _ slice => slice = false /\ buffer_ok a n
  | AMaskedLoad a es mask shadows | AMaskedExpandLoad a es mask shadows
  | AMaskedStore a es mask shadows | AMaskedCompressStore a es mask shadows =>
      0 < es /\ length shadows = length mask /\ app_buffer P a (Z.of_nat (length mask) * es)
  | AMaskedGather ptrs es mask shadows | AMaskedScatter ptrs es mask shadows =>
      0 < es /\ length shadows = length mask /\ length ptrs = length mask /\
      Forall (fun a => app_buffer P a es) ptrs
  | AStmxcsr a | ALdmxcsr a => app_buffer P a 4
  | ALibAtomicLoad size src dst => app_buffer P src size /\ app_buffer P dst size
  | AAsmOutputs outs => Forall (fun out => forall n, out.2 = Some n -> app_buffer P out.1 n) outs
  | AAlloca a size count => buffer_ok a (alloca_len size count)
  end.

(** The refinement relation: the shadow of an application byte is a byte, zero
    exactly when the application byte is initialised. *)
Definition tracks (m : mem) (init : initialised) : Prop :=
  forall b, MEM_IS_APP P b = true ->
    0 <= m (MEM_TO_SHADOW P b) < 256 /\ (m (MEM_TO_SHADOW P b) =? 0) = init b.

(** ** The shadow of a range *)

#[export] Instance tracks_proper : Proper ((≡) ==> pointwise_relation Z (=) ==> iff) tracks.
Proof.
  intros m1 m2 Hm i1 i2 Hi. split; intros H b Hb; specialize (H b Hb).
  - by rewrite <- (Hm (MEM_TO_SHADOW P b)), <- (Hi b).
  - by rewrite (Hm (MEM_TO_SHADOW P b)), (Hi b).
Qed.

Lemma range_shadow a n b :
  app_buffer P a n -> MEM_IS_APP P b = true ->
  in_range (MEM_TO_SHADOW P a) n (MEM_TO_SHADOW P b) = in_range a n b.
Proof.
  intros Ha Hb. apply eq_true_iff_eq. rewrite !in_range_true.
  by apply (shadow_of_buffer ctx0 a n b).
Qed.

Lemma tracks_memset m init a n v :
  tracks m init -> app_buffer P a n ->
  tracks (memset m (shadow_ptr a) v n) (fun b => if in_range a n b then u8 v =? 0 else init b).
Proof.
  intros H Ha b Hb. rewrite x86_offset_is_MEM_TO_SHADOW. unfold memset. rewrite range_shadow by done.
  destruct (in_range a n b); [|by apply H]. split; [apply u8_range|done].
Qed.

(** Marking ranges as initialised, one after the other. *)
Definition mark (m : mem) (r : Z * Z) : mem := memset m (shadow_ptr r.1) 0 r.2.

Lemma tracks_mark m init a n :
  tracks m init -> app_buffer P a n ->
  tracks (memset m (shadow_ptr a) 0 n) (fun b => covered [(a, n)] b || init b).
Proof.
  intros H Ha. pose proof (tracks_memset m init a n 0 H Ha) as Ht.
  eapply tracks_proper; [reflexivity| |exact Ht]. intros b. cbn [covered existsb fst snd].
  by destruct (in_range a n b).
Qed.

Lemma tracks_marks rs m init :
  tracks m init -> Forall (fun r => app_buffer P r.1 r.2) rs ->
  tracks (fold_left mark rs m) (fun b => covered rs b || init b).
Proof.
  revert m init. induction rs as [|r rs IH]; intros m init H Hr; cbn [fold_left]; [done|].
  apply list.Forall_cons in Hr as [Hr Hrs].
  pose proof (IH _ _ (tracks_mark m init r.1 r.2 H Hr) Hrs) as Ht.
  eapply tracks_proper; [reflexivity| |exact Ht]. intros b.
  unfold covered. cbn [existsb fst snd]. by destruct (in_range r.1 r.2 b), (existsb _ rs), (init b).
Qed.

Lemma marks_proper rs m1 m2 : m1 ≡ m2 -> fold_left mark rs m1 ≡ fold_left mark rs m2.
Proof.
  revert m1 m2. induction rs as [|r rs IH]; intros m1 m2 H; cbn; [done|].
  apply IH. unfold mark. by rewrite H.
Qed.

(** The shadow loaded for a range is nonzero exactly when a byte of it is not
    initialised. *)
Lemma load_tracks m init a n :
  tracks m init -> app_buffer P a n ->
  negb (load n m (shadow_ptr a) =? 0) = existsb (fun i => negb (init (a + i))) (zrange n).
Proof.
  intros H Ha. rewrite x86_offset_is_MEM_TO_SHADOW.
  assert (forall i, 0 <= i < n -> 0 <= m (MEM_TO_SHADOW P a + i) < 256 /\
    (m (MEM_TO_SHADOW P a + i) =? 0) = init (a + i)) as Hi.
  { intros i Hi. rewrite <- (sl_contiguous a n i Ha Hi). apply H. by apply Ha. }
  pose proof (load_zero_in n m (MEM_TO_SHADOW P a) ltac:(intros i Hr; apply Hi; lia)) as Hz.
  apply eq_true_iff_eq. rewrite negb_true_iff, Z.eqb_neq, existsb_exists_elem, Hz. split.
  - intros Hn. destruct (existsb (fun i => negb (init (a + i))) (zrange n)) eqn:E.
    + by apply existsb_exists_elem in E.
    + exfalso. apply Hn. intros i Hr. apply Z.eqb_eq. rewrite (proj2 (Hi i Hr)).
      apply negb_false_iff. apply not_true_iff_false. intros Hb. apply not_true_iff_false in E.
      apply E, existsb_exists_elem. exists i. by rewrite elem_of_zrange.
  - intros (i & Hr%elem_of_zrange & Hb) Hall. destruct (Hi i Hr) as [_ Hz'].
    rewrite Hall, Z.eqb_refl in Hz' by done. by rewrite <- Hz' in Hb.
Qed.

(** ** Lanes *)

(** The lanes of the shadow, from those of the application. *)
Definition to_shadow (l : Z * bool) : Z * bool := (shadow_ptr l.1, l.2).

Definition lanes_ok (es : Z) (ls : lanes) : Prop := Forall (fun l => app_buffer P l.1 es) ls.

Lemma app_buffer_within a n k es :
  app_buffer P a n -> 0 <= k -> 0 <= es -> k + es <= n -> app_buffer P (a + k) es.
Proof. apply app_buffer_sub. Qed.

(** The two shapes of lanes of one object: [step] is how the address moves on. *)
Lemma lanes_of_object (step : bool -> Z) (f : Z -> list bool -> lanes) a n es :
  (forall x, f x [] = []) -> (forall x b mask, f x (b :: mask) = (x, b) :: f (x + step b) mask) ->
  (forall b, 0 <= step b <= es) -> 0 < es -> app_buffer P a n ->
  forall mask k, 0 <= k -> k + Z.of_nat (length mask) * es <= n ->
    f (MEM_TO_SHADOW P a + k) mask = map to_shadow (f (a + k) mask) /\ lanes_ok es (f (a + k) mask).
Proof.
  intros Hnil Hcons Hstep Hes Ha mask. induction mask as [|b mask IH]; intros k Hk Hn.
  - rewrite !Hnil. split; [done|constructor].
  - cbn [length] in Hn. rewrite !Hcons. specialize (Hstep b).
    destruct (IH (k + step b)) as [E Hok]; [lia|nia|].
    rewrite <- !Z.add_assoc. rewrite E. split.
    + rewrite List.map_cons. unfold to_shadow at 2. cbn [fst snd]. rewrite x86_offset_is_MEM_TO_SHADOW.
      by rewrite (sl_contiguous a n k Ha) by nia.
    + constructor; [|exact Hok]. cbn [fst]. apply (app_buffer_within a n k es Ha); nia.
Qed.

Lemma contiguous_lanes a es mask :
  0 < es -> app_buffer P a (Z.of_nat (length mask) * es) ->
  contiguous (shadow_ptr a) es mask = map to_shadow (contiguous a es mask) /\
  lanes_ok es (contiguous a es mask).
Proof.
  intros Hes Ha.
  pose proof (lanes_of_object (fun _ => es) (fun x => contiguous x es) a _ es ltac:(done) ltac:(done)
    ltac:(lia) Hes Ha mask 0 ltac:(lia) ltac:(lia)) as H.
  by rewrite !Z.add_0_r in H.
Qed.

Lemma packed_lanes a es mask :
  0 < es -> app_buffer P a (Z.of_nat (length mask) * es) ->
  packed (shadow_ptr a) es mask = map to_shadow (packed a es mask) /\ lanes_ok es (packed a es mask).
Proof.
  intros Hes Ha.
  pose proof (lanes_of_object (fun b : bool => if b then es else 0) (fun x => packed x es) a
    (Z.of_nat (length mask) * es) es) as H.
  specialize (H ltac:(done)). cbn beta in H.
  pose proof (H ltac:(intros x [] l; cbn [packed]; by rewrite ?Z.add_0_r) ltac:(intros []; lia)
    Hes Ha mask 0 ltac:(lia) ltac:(lia)) as H'.
  by rewrite !Z.add_0_r in H'.
Qed.

Lemma gather_lanes ptrs es mask :
  length ptrs = length mask -> Forall (fun a => app_buffer P a es) ptrs ->
  shadow_lanes ptrs mask = map to_shadow (zip ptrs mask) /\ lanes_ok es (zip ptrs mask).
Proof.
  intros Hl Hp. split.
  - unfold shadow_lanes. clear Hl Hp. revert mask.
    induction ptrs as [|p ptrs IH]; intros [|b mask]; try done. cbn. by rewrite <- IH.
  - unfold lanes_ok. revert mask Hl. induction Hp as [|p ptrs H _ IH]; intros [|b mask] Hl; try done.
    constructor; [done|]. apply IH. by injection Hl.
Qed.

Lemma contiguous_length a es mask : length (contiguous a es mask) = length mask.
Proof. revert a. induction mask as [|b mask IH]; intros a; cbn; [done|]. by rewrite IH. Qed.

Lemma packed_length a es mask : length (packed a es mask) = length mask.
Proof. revert a. induction mask as [|b mask IH]; intros a; cbn; [done|]. by rewrite IH. Qed.

Lemma active_ranges_ok es ls :
  lanes_ok es ls -> Forall (fun r => app_buffer P r.1 r.2) (active_ranges es ls).
Proof.
  unfold active_ranges. induction 1 as [|[a []] ls H _ IH]; cbn; [constructor|by constructor|done].
Qed.

Lemma check_lanes_exact es ls pass m init :
  tracks m init -> 0 < es -> lanes_ok es ls -> length pass = length ls ->
  check_lanes false es (map to_shadow ls) pass m =
  existsb (fun r => existsb (fun i => negb (init (r.1 + i))) (zrange r.2)) (active_ranges es ls).
Proof.
  intros Hm Hes Hok Hl. unfold check_lanes, convertToBool. rewrite int_to_bool_false.
  cbn [convertShadowToScalar snd]. rewrite bitcast_nonzero by lia.
  unfold active_shadow, load_lanes, clean_word, active_ranges. revert pass Hl.
  induction Hok as [|[a b] ls Ha _ IH]; intros [|p pass] Hl; try done.
  injection Hl as Hl. cbn [map zip_with existsb to_shadow fst snd List.filter].
  rewrite IH by done. destruct b; [|done]. cbn [map existsb fst snd].
  f_equal. by apply load_tracks.
Qed.

Lemma store_lanes_clean es ls (values : list Z) m :
  length values = length ls ->
  store_lanes es (map to_shadow ls) (map (fun _ => 0) values) m ≡ fold_left mark (active_ranges es ls) m.
Proof.
  unfold store_lanes, active_ranges. revert values m.
  induction ls as [|[a b] ls IH]; intros [|v values] m Hl; try done.
  injection Hl as Hl. destruct b; cbn; [|by apply IH].
  rewrite IH by done. apply marks_proper. unfold mark. cbn [fst snd]. apply store_zero.
Qed.

Lemma tracks_store m init a n :
  tracks m init -> app_buffer P a n ->
  tracks (store n m (shadow_ptr a) 0) (fun b => covered [(a, n)] b || init b).
Proof. intros H Ha. rewrite store_zero. by apply tracks_mark. Qed.

Lemma tracks_store_lanes m init es ls (values : list Z) :
  tracks m init -> lanes_ok es ls -> length values = length ls ->
  tracks (store_lanes es (map to_shadow ls) (map (fun _ => 0) values) m)
    (fun b => covered (active_ranges es ls) b || init b).
Proof.
  intros H Hok Hl. rewrite store_lanes_clean by done.
  by apply tracks_marks, active_ranges_ok.
Qed.

Lemma tracks_asm outs m init :
  tracks m init -> Forall (fun out => forall n, out.2 = Some n -> app_buffer P out.1 n) outs ->
  tracks (fold_left (instrumentAsmArgument false) outs m) (spec_step (AAsmOutputs outs) init).
Proof.
  intros H Ho. cbn [spec_step writes].
  assert (fold_left (instrumentAsmArgument false) outs m
    ≡ fold_left mark (omap (fun out => pair out.1 <$> out.2) outs) m) as ->.
  { clear H Ho. revert m. induction outs as [|[a [n|]] outs IH]; intros m; cbn; [done| |by apply IH].
    rewrite IH. apply marks_proper. unfold instrumentAsmArgument, mark, clean_word. cbn [fst snd].
    case_match; [apply store_zero|done]. }
  apply tracks_marks; [done|]. clear H.
  induction Ho as [|[a [n|]] outs Ha _ IH]; cbn; [constructor| |done].
  constructor; [|done]. by apply Ha.
Qed.

Lemma tracks_runtime (R : RuntimeMem) (L : RuntimeMemLaws false R) f dst src ch n m init :
  f = memcpy_fn dst src n \/ f = memmove_fn dst src n \/ f = memset_fn dst ch n ->
  tracks m init -> app_buffer P dst n -> 0 <= n ->
  tracks (f m) (fun b => covered [(dst, n)] b || init b).
Proof.
  intros Hf H Ha Hn b Hb. rewrite (rt_initialises f dst src ch n m b Hf Ha Hn Hb).
  cbn [covered existsb fst snd]. destruct (in_range dst n b); cbn; [done|by apply H].
Qed.

Lemma tracks_libatomic m init size src dst :
  tracks m init -> app_buffer P src size -> app_buffer P dst size ->
  tracks (memmove m (shadow_ptr dst) (shadow_ptr src) size)
    (fun b => if in_range dst size b then init (src + (b - dst)) else init b).
Proof.
  intros H Hs Hd b Hb. rewrite !x86_offset_is_MEM_TO_SHADOW. unfold memmove.
  rewrite range_shadow by done. destruct (in_range dst size b) eqn:E; [|by apply H].
  apply in_range_true in E.
  pose proof (sl_contiguous dst size (b - dst) Hd ltac:(lia)) as Ed.
  rewrite Zplus_minus in Ed. rewrite Ed.
  replace (MEM_TO_SHADOW P src + (MEM_TO_SHADOW P dst + (b - dst) - MEM_TO_SHADOW P dst))
    with (MEM_TO_SHADOW P src + (b - dst)) by lia.
  rewrite <- (sl_contiguous src size (b - dst) Hs) by lia. apply H, Hs. lia.
Qed.

(** ** One access *)

Lemma instrument_recorded `{RuntimeMem} x m :
  (instrument default_mem_options false x m).1
  = match recorded_shadow x m with Some s => convertToBool false s | None => false end.
Proof.
  destruct x as [a n [] callee| | |a n [cmp|]| | | | | | | | | | | | | | | | |]; reflexivity.
Qed.

Lemma instrument_refines (R : RuntimeMem) (L : RuntimeMemLaws false R) x m init :
  tracks m init -> access_ok x ->
  (instrument default_mem_options false x m).1 = uses_uninitialised x init /\
  tracks (instrument default_mem_options false x m).2 (spec_step x init).
Proof.
  intros H Hx. assert (forall a n, buffer_ok a n -> u64 n = n /\ 0 <= n /\ app_buffer P a n) as Hb.
  { intros a n [Hn Ha]. split; [|split; [lia|done]]. apply u64_small. lia. }
  assert (forall a n, app_buffer P a n -> check_loaded false n m (shadow_ptr a) =
    existsb (fun r => existsb (fun i => negb (init (r.1 + i))) (zrange r.2)) [(a, n)]) as Hc.
  { intros a n Ha. cbn [existsb fst snd]. rewrite orb_false_r, <- (load_tracks m) by done.
    unfold check_loaded, convertToBool. by rewrite int_to_bool_false. }
  destruct x as [a n [] callee|a n isAtomic value slice|a n|a n cmp|a es ms pass|a es ms pass|ptrs es ms pass|
    a es ms values|a es ms values|ptrs es ms values|a n|a n value|a|a|dst src n|dst src n|dst ch n|
    size src dst|size dst|outs|a size count]; cbn [instrument uses_uninitialised reads spec_step writes access_ok] in *.
  all: try match goal with Hx : buffer_ok _ _ |- _ => destruct (Hb _ _ Hx) as (Hu & Hn & Ha) end.
  - done.
  - split; [by apply Hc|done].
  - destruct Hx as [-> Hx]. destruct (Hb _ _ Hx) as (_ & _ & Ha).
    split; [done|]. destruct isAtomic; by apply tracks_store.
  - split; [done|]. by apply tracks_store.
  - split; [|by apply tracks_store]. destruct cmp; [|done]. apply int_to_bool_false.
  - destruct Hx as (Hes & Hl & Ha). unfold handleMaskedLoad, masked_load.
    destruct (contiguous_lanes a es ms Hes Ha) as [-> Hok]. cbn [fst snd]. split; [|done].
    apply check_lanes_exact; [done..|]. by rewrite contiguous_length.
  - destruct Hx as (Hes & Hl & Ha). unfold handleMaskedExpandLoad, masked_load.
    destruct (packed_lanes a es ms Hes Ha) as [-> Hok]. cbn [fst snd]. split; [|done].
    apply check_lanes_exact; [done..|]. by rewrite packed_length.
  - destruct Hx as (Hes & Hl & Hp & Ha). unfold handleMaskedGather, masked_load.
    destruct (gather_lanes ptrs es ms Hp Ha) as [-> Hok]. cbn [fst snd]. split; [|done].
    apply check_lanes_exact; [done..|]. rewrite length_zip. lia.
  - destruct Hx as (Hes & Hl & Ha). unfold handleMaskedStore, masked_store, stored_shadows.
    destruct (contiguous_lanes a es ms Hes Ha) as [-> Hok]. split; [done|].
    apply tracks_store_lanes; [done..|]. by rewrite contiguous_length.
  - destruct Hx as (Hes & Hl & Ha). unfold handleMaskedCompressStore, masked_store, stored_shadows.
    destruct (packed_lanes a es ms Hes Ha) as [-> Hok]. split; [done|].
    apply tracks_store_lanes; [done..|]. by rewrite packed_length.
  - destruct Hx as (Hes & Hl & Hp & Ha). unfold handleMaskedScatter, masked_store, stored_shadows.
    destruct (gather_lanes ptrs es ms Hp Ha) as [-> Hok]. split; [done|].
    apply tracks_store_lanes; [done..|]. rewrite length_zip. lia.
  - split; [by apply Hc|done].
  - split; [done|]. by apply tracks_store.
  - split; [done|]. by apply tracks_store.
  - split; [by apply Hc|done].
  - split; [done|]. cbn [visitMemCpyInst snd]. rewrite Hu.
    eapply (tracks_runtime R L _ dst src 0 n); eauto.
  - split; [done|]. cbn [visitMemMoveInst snd]. rewrite Hu.
    eapply (tracks_runtime R L _ dst src 0 n); eauto.
  - split; [done|]. cbn [visitMemSetInst snd]. rewrite Hu.
    eapply (tracks_runtime R L _ dst 0 (u32 ch) n); eauto.
  - destruct Hx as [Hs Hd]. split; [done|]. by apply tracks_libatomic.
  - split; [done|]. by apply tracks_mark.
  - split; [done|]. by apply tracks_asm.
  - split; [done|]. unfold instrumentAlloca, poisonAllocaUserspace. cbn [snd PoisonStack ClPoisonStackWithCall default_mem_options andb].
    assert (match count with Some k => u64 (size * k) | None => size end = alloca_len size count) as ->.
    { unfold alloca_len in *. destruct count; cbn in *; [done|lia]. }
    pose proof (tracks_memset m init a (alloca_len size count) 0xff H Ha) as Ht.
    eapply tracks_proper; [reflexivity| |exact Ht]. intros b. by destruct (in_range _ _ b).
Qed.

Lemma run_refines (R : RuntimeMem) (L : RuntimeMemLaws false R) xs m init :
  tracks m init -> Forall access_ok xs ->
  (run default_mem_options false xs m).1 = (spec_run xs init).1 /\
  tracks (run default_mem_options false xs m).2 (spec_run xs init).2.
Proof.
  revert m init. induction xs as [|x xs IH]; intros m init H Hxs; [done|].
  apply list.Forall_cons in Hxs as [Hx Hxs]. cbn [run spec_run].
  destruct (instrument_refines R L x m init H Hx) as [Hr Ht].
  destruct (instrument default_mem_options false x m) as [r m1]. cbn [fst snd] in Hr, Ht.
  destruct (IH m1 _ Ht Hxs) as [Hrs Ht'].
  destruct (run default_mem_options false xs m1), (spec_run xs (spec_step x init)).
  cbn [fst snd] in *. by rewrite Hr, Hrs.
Qed.

(** C2: the instrumentation of memory accesses implements the initialised-bytes
    machine.  Over any sequence of accesses (loads, stores, atomics, masked,
    expanding, compressing, gathering and scattering vector accesses, memory
    intrinsics, libatomic calls, stack allocations and assembly outputs), with the
    default options, the shadow memory tracks exactly the set of initialised
    application bytes, and the check of an access fires exactly when the access
    reads a byte outside that set in an active lane, a load whose value no
    instrumented instruction consumes apart: no false positive, no false
    negative. *)
Theorem memory_instrumentation_refines (R : RuntimeMem) (L : RuntimeMemLaws false R) xs m init :
  tracks m init -> Forall access_ok xs ->
  (run default_mem_options false xs m).1 = (spec_run xs init).1 /\
  tracks (run default_mem_options false xs m).2 (spec_run xs init).2.
Proof. by apply run_refines. Qed.

(** ** The runtime provides the interface *)

Definition on_mem {A} (f : M A) (r : Rt) (m : mem) : mem :=
  match f (set_mem m r) with Done (_, r') => rt_mem r' | Died _ => m end.

(** The runtime's entry points, in a process whose other state is [r]. *)
Definition cqmsan_runtime (c : Ctx) (is_static : Z -> bool) (r : Rt) : RuntimeMem := {|
  memcpy_fn dst src n := on_mem (__cqmsan_memcpy c dst src n) r;
  memmove_fn dst src n := on_mem (__cqmsan_memmove c dst src n) r;
  memset_fn dst ch n := on_mem (__cqmsan_memset c dst ch n) r;
  poison_stack_fn a n := on_mem (__cqmsan_poison_stack c a n) r;
  is_static_range_fn := is_static
|}.

Lemma cqmsan_runtime_laws c is_static r :
  cP c = linux_x86_64 -> env_ok (cEnv c) -> runtime_up r ->
  RuntimeMemLaws (cFlip c) (cqmsan_runtime c is_static r).
Proof.
  intros HP Henv Hup. split. intros f dst src ch n m b Hf Ha Hn Hb.
  pose proof x86_64_shadow_layout as L. rewrite <- HP in L, Ha, Hb |- *.
  destruct (mem_functions_refine_lemma c Henv dst src ch n (set_mem m r) Hup Ha Hn)
    as ((m1 & E1 & H1) & (m2 & E2 & H2) & (m3 & E3 & H3)).
  cbn [memcpy_fn memmove_fn memset_fn cqmsan_runtime] in Hf.
  destruct Hf as [-> | [-> | ->]]; unfold on_mem.
  - rewrite E1. specialize (H1 b Hb). unfold view, abstract_copy, kCleanByte in H1. cbn [rt_mem set_mem] in *.
    by destruct (in_range dst n b); injection H1 as _ ->.
  - rewrite E2. specialize (H2 b Hb). unfold view, abstract_copy, kCleanByte in H2. cbn [rt_mem set_mem] in *.
    by destruct (in_range dst n b); injection H2 as _ ->.
  - rewrite E3. specialize (H3 b Hb). unfold view, kCleanByte in H3. cbn [rt_mem set_mem] in *.
    by destruct (in_range dst n b); injection H3 as _ ->.
Qed.

(** A function with a 16-byte array on the stack: half of it is copied from
    elsewhere, a masked load reads lanes 0, 1 (initialised) and 3 (not), a scalar
    load reads lane 1. *)
Definition stack_accesses : list access := [
  AAlloca 4096 4 (Some 4);
  AMemCpy 4096 8192 8;
  AMaskedLoad 4096 4 [true; true; false; false] [0; 0; 0; 0];
  AMaskedLoad 4096 4 [true; false; false; true] [0; 0; 0; 0];
  ALoad 4100 4 false false;
  AAtomicCmpXchg 4108 4 (Some 0);
  ALoad 4104 8 true false;
  ALoad 4104 8 false false;
  AStore 4104 4 false 0 false;
  ALoad 4104 8 false false].

Lemma memory_instrumentation_refines_witness :
  (run (H := cqmsan_runtime ctx0 (fun _ => false) (rt0 (fun _ => 0))) default_mem_options false
    stack_accesses (fun _ => 0)).1
  = [false; false; false; true; false; false; false; true; false; false].
Proof.
  refine (eq_trans (proj1 (memory_instrumentation_refines
    (cqmsan_runtime ctx0 (fun _ => false) (rt0 (fun _ => 0)))
    (cqmsan_runtime_laws ctx0 (fun _ => false) (rt0 (fun _ => 0)) eq_refl linux_env_ok ltac:(done))
    stack_accesses (fun _ => 0) (fun _ => true) _ _)) _).
  - intros b _. split; [lia|done].
  - unfold stack_accesses, alloca_len, buffer_ok. rewrite !list.Forall_cons. cbn [access_ok].
    unfold buffer_ok, alloca_len. repeat split; cbn; try (lia || done); try (apply app1_buffer; cbn; lia).
  - vm_compute. reflexivity.
Defined.

(** under the flipped convention (zero is uninitialised) an output of more
    than 32 bytes of an inline assembly is marked uninitialised, byte by byte: the
    fill is a memset of zero, not of the clean byte. *)
Theorem flip_poisons_large_asm_outputs a n m b :
  app_buffer P a n -> 32 < n -> a <= b < a + n ->
  (visitAsmInstruction true [(a, Some n)] m).2 (MEM_TO_SHADOW P b) = 0.
Proof.
  intros Ha Hn Hb. cbn [visitAsmInstruction fold_left snd]. unfold instrumentAsmArgument. cbn [fst snd].
  rewrite (proj2 (Z.leb_gt n 32)) by lia. rewrite x86_offset_is_MEM_TO_SHADOW.
  rewrite memset_in; [done|]. rewrite <- (Zplus_minus a b), (sl_contiguous a n) by (done || lia). lia.
Qed.

Lemma flip_poisons_large_asm_outputs_witness :
  (visitAsmInstruction true [(4096, Some 64)] (fun _ => 255)).2 (MEM_TO_SHADOW P 4100) = 0.
Proof. apply (flip_poisons_large_asm_outputs 4096 64); [by apply app1_buffer|lia|lia]. Defined.
