(* ===== verification/PassPolicy.v ===== *)
(** * What the pass instruments

    The parts of src/pass/CompilerQEMUMemorySanitizer.cpp that decide which
    functions and instructions are left alone: the ignore list
    ([isFunctionIgnored], [sanitizeFunction]), the filter every instruction goes
    through ([visit]), the recognition of AFL's own accesses
    ([stripIntPtrArithmetic], [isAFLRuntimePointer]), and the two analyses of the
    uses of a loaded value ([onlyFeedsNoSanitize], [onlyFeedsCallee]). *)

From stdpp Require Import relations.
From S2P Require Import Prelude Worklist.

(** ** Addresses *)

Inductive opcode := IntToPtr | PtrToInt | BitCast | AddrSpaceCast | Add | OtherOpcode.

(** A value as the recognition sees it: [Operator] is an instruction or a constant
    expression with its operands, other than a load. *)
Inductive value :=
| GlobalVariable (name : string)
| ConstantInt (c : Z)
| Operator (op : opcode) (op0 : value) (op1 : option value)
| Load (ptr : value)
| OtherValue (id : Z).

Definition is_const_int (v : value) : bool := match v with ConstantInt _ => true | _ => false end.

(** [for (Depth = 0; Depth < 8; ++Depth)], with the iterations left. *)
Fixpoint strip_from (depth : nat) (V : value) : value :=
  match depth with
  | O => V
  | S depth =>
      match V with
      | Operator op op0 op1 =>
          match op with
          | IntToPtr | PtrToInt | BitCast | AddrSpaceCast => strip_from depth op0
          | Add =>
              match op1 with
              | Some op1 =>
                  if is_const_int op1 then strip_from depth op0
                  else if is_const_int op0 then strip_from depth op1
                  else V
              | None => V
              end
          | OtherOpcode => V
          end
      | _ => V
      end
  end.

Definition stripIntPtrArithmetic : value -> value := strip_from 8.

(** [StringRef::starts_with]. *)
Definition starts_with (prefix s : string) : bool := String.prefix prefix s.

(** LLVM's analysis of the objects an address points into. *)
Class UnderlyingObjects := {
  getUnderlyingObjects : value -> list value;
  getUnderlyingObject : value -> value
}.

Section addresses.
Context `{UnderlyingObjects}.

Definition isAFLRuntimeObject (O : value) : bool :=
  match getUnderlyingObject (stripIntPtrArithmetic O) with
  | GlobalVariable name => starts_with "__afl_" name || starts_with "__sancov_gen_" name
  | Load ptr =>
      match getUnderlyingObject (stripIntPtrArithmetic ptr) with
      | GlobalVariable name => String.eqb name "__afl_area_ptr"
      | _ => false
      end
  | _ => false
  end.

Definition isAFLRuntimePointer (Ptr : value) : bool :=
  match getUnderlyingObjects Ptr with
  | [] => false
  | Objs => forallb isAFLRuntimeObject Objs
  end.

(** ** Instructions *)

Inductive intrinsic :=
| umax | umin | smax | smin | abs | ctpop | ctlz | cttz | bswap | fshl | fshr | other_intrinsic.

Inductive ikind :=
| LoadInst (ptr : value) | StoreInst (ptr : value) | AtomicRMWInst (ptr : value)
| GetElementPtrInst | CastInst | PHINode | SelectInst | BinaryOperator | ICmpInst
| FreezeInst | ExtractElementInst | InsertElementInst | ShuffleVectorInst | UnaryOperator
| IntrinsicInst (id : intrinsic) | CallBase | OtherInst.

(** A use: the instruction that uses the value, or none for a constant
    expression, and whether it is as the callee of a call. *)
Record use := mkUse { u_user : option nat; u_callee : bool }.

(** A function's instructions are numbered; a block and an index place them. *)
Record inst := mkInst {
  i_kind : ikind;
  i_nosanitize : bool;
  i_uses : list use;
  i_block : nat;
  i_index : nat
}.

Definition isAFLRuntimeAccess (ClSkipAFLRuntimeAccesses : bool) (I : inst) : bool :=
  if negb ClSkipAFLRuntimeAccesses then false else
  match i_kind I with
  | LoadInst ptr | StoreInst ptr | AtomicRMWInst ptr => isAFLRuntimePointer ptr
  | _ => false
  end.

Definition isInPrologue (FnPrologueEnd I : inst) : bool :=
  bool_decide (i_block I = i_block FnPrologueEnd) &&
  (bool_decide (i_index I = i_index FnPrologueEnd) || bool_decide (i_index I < i_index FnPrologueEnd)%nat).

(** What becomes of an instruction. *)
Inductive visited := Skipped | ShadowSetClean | Collected.

Definition visit (skip_afl : bool) (FnPrologueEnd : inst) (shouldExecute : bool) (I : inst) : visited :=
  if i_nosanitize I then Skipped else
  if isAFLRuntimeAccess skip_afl I then Skipped else
  if isInPrologue FnPrologueEnd I then Skipped else
  if negb shouldExecute then ShadowSetClean else Collected.

(** ** The uses of a loaded value *)

Context (skip_afl : bool) (code : nat -> inst).

Definition isNoSanitizeEquivalent (I : inst) : bool :=
  i_nosanitize I || isAFLRuntimeAccess skip_afl I.

Definition is_call (k : ikind) : bool := match k with CallBase | IntrinsicInst _ => true | _ => false end.

Definition onlyFeedsCallee (uses : list use) : bool :=
  match uses with
  | [] => false
  | _ => forallb (fun U => match u_user U with
                           | Some CB => is_call (i_kind (code CB)) && u_callee U
                           | None => false
                           end) uses
  end.

Definition Pure (k : ikind) : bool :=
  match k with
  | GetElementPtrInst | CastInst | PHINode | SelectInst | BinaryOperator | ICmpInst | FreezeInst
  | ExtractElementInst | InsertElementInst | ShuffleVectorInst | UnaryOperator => true
  | IntrinsicInst other_intrinsic => false
  | IntrinsicInst _ => true
  | _ => false
  end.

Definition budget : nat := 256.

(** [PushUsers]; [None]: it returned false. *)
Fixpoint PushUsers (uses : list use) (st : wl_state) : option wl_state :=
  match uses with
  | [] => Some st
  | U :: uses =>
      match u_user U with
      | None => None
      | Some UI =>
          let st := wl_push (fun _ => true) st UI in
          if (budget <? size st.2)%nat then None else PushUsers uses st
      end
  end.

(** [while (!Work.empty())]: at most [budget] instructions are pushed, so as many
    iterations are enough. *)
Fixpoint feeds_loop (fuel : nat) (st : wl_state) : option bool :=
  match st.1 with
  | [] => Some true
  | UI :: Work =>
      match fuel with
      | O => None
      | S fuel =>
          if isNoSanitizeEquivalent (code UI) then feeds_loop fuel (Work, st.2) else
          if negb (Pure (i_kind (code UI))) then Some false else
          match PushUsers (i_uses (code UI)) (Work, st.2) with
          | None => Some false
          | Some st => feeds_loop fuel st
          end
      end
  end.

Definition onlyFeedsNoSanitize (uses : list use) : option bool :=
  match PushUsers uses ([], ∅) with
  | None => Some false
  | Some st => feeds_loop budget st
  end.
End addresses.

(** ** Functions *)

Definition kCQMSanModuleCtorName : string := "cqmsan.module_ctor".

(** A [SpecialCaseList] read from CQMSAN_IGNORELIST, if the variable is set:
    section, prefix and query. *)
Definition special_case_list : Type := string -> string -> string -> bool.

Record fn := mkFn {
  fn_name : string;
  fn_no_instrumentation : bool;
  fn_subprogram : option (string * string)   (* directory, file *)
}.

Definition isFunctionIgnored (IgnoreList : option special_case_list) (F : fn) : bool :=
  if starts_with "__gxx_personality" (fn_name F) then true else
  match IgnoreList with
  | None => false
  | Some inSection =>
      if inSection "cqmsan" "fun" (fn_name F) then true else
      match fn_subprogram F with
      | Some (directory, file) =>
          let SourceFile := if String.eqb directory "" then file
                            else String.append directory (String.append "/" file) in
          inSection "cqmsan" "src" SourceFile
      | None => false
      end
  end.

(** Whether the function reaches the visitor. *)
Definition sanitizeFunction (IgnoreList : option special_case_list) (F : fn) : bool :=
  if String.eqb (fn_name F) kCQMSanModuleCtorName then false else
  if fn_no_instrumentation F then false else
  negb (isFunctionIgnored IgnoreList F).

(** ** What the analysis of uses computes *)

Section uses.
Context `{UnderlyingObjects} (skip_afl : bool) (code : nat -> inst).

Definition users (uses : list use) : list nat := omap u_user uses.

Definition has_constant_user (uses : list use) : bool :=
  existsb (fun U => match u_user U with None => true | Some _ => false end) uses.

(** A user is transparent when it only computes a value from its operands, or is
    never instrumented: only in the first case is it followed. *)
Definition dead_end (x : nat) : bool := isNoSanitizeEquivalent skip_afl (code x).

Definition observes (x : nat) : option unit :=
  if dead_end x then None else
  if negb (Pure (i_kind (code x))) || has_constant_user (i_uses (code x)) then Some tt else None.

Definition next_users (x : nat) : list nat := users (i_uses (code x)).
Definition followed (x _ : nat) : bool := negb (dead_end x).

(** The instructions the value flows to through transparent ones. *)
Definition flows_to (uses : list use) (x : nat) : Prop :=
  reachable next_users followed (fun s => s ∈ users uses) x.

Definition push_true (l : list nat) (st : wl_state) : wl_state := fold_left (wl_push (fun _ => true)) l st.

Lemma push_true_sub l st : st.2 ⊆ (push_true l st).2.
Proof. exact (proj1 (wl_push_all (fun _ => true) l st)). Qed.

Lemma PushUsers_Some uses st st' :
  PushUsers uses st = Some st' -> (size st.2 <= budget)%nat ->
  st' = push_true (users uses) st /\ has_constant_user uses = false /\ (size st'.2 <= budget)%nat.
Proof.
  revert st. induction uses as [|[[u|] c] uses IH]; intros st E Hst; cbn [PushUsers u_user] in E; [|case_match|done].
  - by injection E as <-.
  - done.
  - match goal with Hb : (_ <? _)%nat = false |- _ => apply Nat.ltb_ge in Hb as Hs end.
    destruct (IH _ E Hs) as (-> & Hc & Hsz). done.
Qed.

Lemma PushUsers_None uses st :
  PushUsers uses st = None ->
  has_constant_user uses = true \/ (budget < size (push_true (users uses) st).2)%nat.
Proof.
  revert st. induction uses as [|[[u|] c] uses IH]; intros st E; cbn [PushUsers u_user] in E; [done| |by left].
  destruct (_ <? _)%nat eqn:Hb.
  - right. apply Nat.ltb_lt in Hb. eapply Nat.lt_le_trans; [exact Hb|].
    apply subseteq_size, (push_true_sub (users uses) (wl_push _ st u)).
  - by destruct (IH _ E); [left|right].
Qed.

Context (n : nat) (uses0 : list use).
Context (Hstart : forall s, s ∈ users uses0 -> (s < n)%nat).
Context (Hcode : forall x s, s ∈ next_users x -> (s < n)%nat).

(** The verdict on a value: [true] when nothing it flows to observes it. *)
Definition verdict_ok (b : bool) : Prop :=
  if b then has_constant_user uses0 = false /\ forall x, flows_to uses0 x -> observes x = None
  else has_constant_user uses0 = true \/ (exists x, flows_to uses0 x /\ observes x <> None) \/
    exists X : gset nat, (budget < size X)%nat /\ forall x, x ∈ X -> flows_to uses0 x.

Lemma feeds_loop_exact fuel st :
  has_constant_user uses0 = false ->
  wl_inv next_users followed observes n (fun s => s ∈ users uses0) st ->
  (size st.2 <= budget)%nat -> (length st.1 + budget <= fuel + size st.2)%nat ->
  exists b, feeds_loop skip_afl code fuel st = Some b /\ verdict_ok b.
Proof.
  intros Hc0. revert st. induction fuel as [|fuel IH]; intros [Work X] Hinv HX Hfuel;
    cbn [fst snd feeds_loop] in *; destruct Work as [|V Work].
  1,3: exists true; split; [done|]; split; [done|]; intros x Hx;
    destruct (wl_inv_end _ _ _ _ _ _ Hinv x) as [Hin Hobs]; by apply Hobs, Hin.
  { cbn [length] in Hfuel. lia. }
  pose proof Hinv as [_ Hw _ Hsd _]. cbn [fst snd length] in Hw, Hsd, Hfuel.
  assert (flows_to uses0 V) as HV by (apply Hsd, Hw; left).
  pose proof (wl_inv_step next_users followed observes n (fun s => s ∈ users uses0)
    ltac:(intros a b [? _]; by apply (Hcode a)) V Work X Hinv) as Hstep.
  pose proof (wl_push_all (followed V) (next_users V) (Work, X)) as (_ & _ & _ & Hlen).
  assert (observes V <> None -> verdict_ok false) as Hobs by (intros Ho; right; left; by exists V).
  unfold observes, followed, dead_end in Hstep, Hlen, Hobs.
  destruct (isNoSanitizeEquivalent skip_afl (code V)); cbn [negb] in *.
  { assert (forall l st, fold_left (wl_push (fun _ => false)) l st = st) as Hno
      by (intros l; induction l as [|y l IHl]; intros st; [done|exact (IHl st)]).
    rewrite Hno in Hstep. apply IH; [by apply Hstep|done|cbn [fst snd]; lia]. }
  destruct (Pure (i_kind (code V))); cbn [negb orb] in *; [|exists false; by split; [|apply Hobs]].
  destruct (PushUsers (i_uses (code V)) (Work, X)) as [st|] eqn:E.
  - destruct (PushUsers_Some _ _ _ E HX) as (-> & Hc & Hs). rewrite Hc in Hstep.
    apply IH; [by apply Hstep|exact Hs|]. unfold push_true, next_users in *. cbn [fst snd] in *. lia.
  - exists false. split; [done|].
    destruct (PushUsers_None _ _ E) as [Hc|Hbig]; [by rewrite Hc in Hobs; apply Hobs|].
    destruct (has_constant_user (i_uses (code V))); [by apply Hobs|].
    right; right. eexists. split; [exact Hbig|]. intros x Hx. by apply (wi_sound _ _ _ _ _ _ (Hstep eq_refl)).
Qed.

Lemma onlyFeedsNoSanitize_decides :
  exists b, onlyFeedsNoSanitize skip_afl code uses0 = Some b /\ verdict_ok b.
Proof.
  unfold onlyFeedsNoSanitize.
  destruct (wl_inv_start next_users followed observes n (fun s => s ∈ users uses0) (fun _ => true)
    (users uses0) ltac:(intros; by split; [|intros [? _]]) Hstart) as [Hinv Hlen].
  destruct (PushUsers uses0 ([], ∅)) as [st|] eqn:E.
  - destruct (PushUsers_Some _ _ _ E) as (-> & Hc & Hs); [cbn; rewrite size_empty; unfold budget; lia|].
    apply feeds_loop_exact; [done..|]. unfold push_true. rewrite Hlen. lia.
  - exists false. split; [done|]. destruct (PushUsers_None _ _ E) as [Hc|Hbig]; [by left|].
    right; right. eexists. split; [exact Hbig|]. intros x Hx. by apply (wi_sound _ _ _ _ _ _ Hinv).
Qed.
End uses.

(** the analysis that exempts a load always ends within its budget of 256
    instructions, and answers true only when every instruction the loaded value
    flows to, through value-computing instructions, is never instrumented or
    computes a value itself (so no instrumented instruction observes it), and the
    value has no constant user; it answers false only when some instruction does
    observe it, a constant uses it, or more than 256 instructions are involved. *)
Theorem onlyFeedsNoSanitize_exact `{UnderlyingObjects} skip_afl code n uses :
  (forall s, s ∈ users uses -> (s < n)%nat) ->
  (forall x s, s ∈ next_users code x -> (s < n)%nat) ->
  exists b, onlyFeedsNoSanitize skip_afl code uses = Some b /\
    if b then has_constant_user uses = false /\
           forall x, flows_to skip_afl code uses x -> observes skip_afl code x = None
    else has_constant_user uses = true \/
         (exists x, flows_to skip_afl code uses x /\ observes skip_afl code x <> None) \/
         exists X : gset nat, (256 < size X)%nat /\ forall x, x ∈ X -> flows_to skip_afl code uses x.
Proof. exact (onlyFeedsNoSanitize_decides skip_afl code n uses). Qed.

(** A coverage counter: the load of it feeds an add, which feeds a store through
    __afl_area_ptr; the same value feeds a comparison, which feeds a store of the
    program. *)
Definition no_analysis : UnderlyingObjects := {| getUnderlyingObjects v := [v]; getUnderlyingObject v := v |}.

Definition counter_code (observed : bool) (x : nat) : inst :=
  match x with
  | 1%nat => mkInst BinaryOperator false ([mkUse (Some 2%nat) false] ++ if observed then [mkUse (Some 3%nat) false] else []) 0 1
  | 2%nat => mkInst (StoreInst (Load (GlobalVariable "__afl_area_ptr"))) false [] 0 2
  | 3%nat => mkInst (StoreInst (GlobalVariable "buffer")) false [] 0 3
  | _ => mkInst OtherInst false [] 0 0
  end.

Lemma onlyFeedsNoSanitize_exact_witness :
  onlyFeedsNoSanitize (H := no_analysis) true (counter_code false) [mkUse (Some 1%nat) false] = Some true /\
  onlyFeedsNoSanitize (H := no_analysis) true (counter_code true) [mkUse (Some 1%nat) false] = Some false /\
  observes (H := no_analysis) true (counter_code false) 1 = None.
Proof.
  split; [vm_compute; reflexivity|]. split; [vm_compute; reflexivity|].
  destruct (onlyFeedsNoSanitize_exact (H := no_analysis) true (counter_code false) 4 [mkUse (Some 1%nat) false])
    as (b & E & Hb).
  - intros s Hs. cbn in Hs. set_unfold. lia.
  - intros [|[|[|[|x]]]] s Hs; cbn in Hs; set_unfold; lia.
  - assert (b = true) as -> by (vm_compute in E; congruence). apply Hb.
    exists 1%nat. split; [cbn; set_solver|constructor].
Defined.
