(* ===== verification/PassVarArgs.v ===== *)
(** * Variadic calls on AMD64

    [VarArgHelperBase] and [VarArgAMD64Helper] of
    src/pass/CompilerQEMUMemorySanitizer.cpp.  The caller of a variadic function
    stores the size of the stack area of the variadic arguments, computed at
    compile time, in a thread-local variable; the callee loads it in its prologue
    and, at va_start, marks the va_list, the register save area and that many
    bytes of the overflow area as initialised.

    The reference is the AMD64 ABI: where each argument of a call is, and so what
    va_arg reads in the callee. *)

From S2P Require Import Prelude Memory Layout Poisoning Interface PassShadow PassMemory.

(** ** The code *)

Definition AMD64GpEndOffset : Z := 48.
Definition AMD64FpEndOffsetSSE : Z := 176.
Definition AMD64FpEndOffsetNoSSE : Z := AMD64GpEndOffset.

(** The helper's constructor: whether the function's target-features contain
    "-sse". *)
Definition AMD64FpEndOffset (no_sse : bool) : Z :=
  if no_sse then AMD64FpEndOffsetNoSSE else AMD64FpEndOffsetSSE.

Inductive ArgKind := AK_GeneralPurpose | AK_FloatingPoint | AK_Memory.

(** The type of an argument as [classifyArgument] tests it. *)
Inductive arg_ty := X86_FP80Ty | FPOrFPVectorTy | IntegerTy (bits : Z) | PointerTy | OtherTy.

Definition classifyArgument (T : arg_ty) : ArgKind :=
  match T with
  | X86_FP80Ty => AK_Memory
  | FPOrFPVectorTy => AK_FloatingPoint
  | IntegerTy bits => if bits <=? 64 then AK_GeneralPurpose else AK_Memory
  | PointerTy => AK_GeneralPurpose
  | OtherTy => AK_Memory
  end.

(** An argument of a call: its type, the allocation size and the alignment of
    that type, and the size of the aggregate when it is passed by value. *)
Record arg := mkArg { arg_type : arg_ty; arg_size : Z; arg_align : Z; arg_byval : option Z }.

Definition alignTo (size a : Z) : Z := (size + a - 1) / a * a.

Section helper.
Context (FpEnd : Z).

(** One argument of [visitCallBase]'s loop; the offsets are unsigned ints. *)
Definition visit_arg (IsFixed : bool) (A : arg) (offs : Z * Z * Z) : Z * Z * Z :=
  let '(GpOffset, FpOffset, OverflowOffset) := offs in
  match arg_byval A with
  | Some size =>
      if IsFixed then offs else (GpOffset, FpOffset, u32 (OverflowOffset + alignTo size 8))
  | None =>
      let AK := classifyArgument (arg_type A) in
      let AK := match AK with
                | AK_GeneralPurpose => if AMD64GpEndOffset <=? GpOffset then AK_Memory else AK
                | _ => AK end in
      let AK := match AK with
                | AK_FloatingPoint => if FpEnd <=? FpOffset then AK_Memory else AK
                | _ => AK end in
      match AK with
      | AK_GeneralPurpose => (u32 (GpOffset + 8), FpOffset, OverflowOffset)
      | AK_FloatingPoint => (GpOffset, u32 (FpOffset + 16), OverflowOffset)
      | AK_Memory =>
          if IsFixed then offs else (GpOffset, FpOffset, u32 (OverflowOffset + alignTo (arg_size A) 8))
      end
  end.

(** [NumParams]: the parameters the callee's type names, the others are variadic. *)
Fixpoint visit_args (ArgNo NumParams : Z) (args : list arg) (offs : Z * Z * Z) : Z * Z * Z :=
  match args with
  | [] => offs
  | A :: args => visit_args (ArgNo + 1) NumParams args (visit_arg (ArgNo <? NumParams) A offs)
  end.

(** The value stored in [VAArgOverflowSizeTLS]. *)
Definition visitCallBase (NumParams : Z) (args : list arg) : Z :=
  let '(_, _, OverflowOffset) := visit_args 0 NumParams args (0, AMD64GpEndOffset, FpEnd) in
  u32 (OverflowOffset - FpEnd).

(** *** The callee *)

Definition VAListTagSize : Z := 24.

Definition unpoisonVAListTagForInst (VAListTag : Z) (m : mem) : mem :=
  memset m (MEM_TO_SHADOW P VAListTag) 0 VAListTagSize.

(** va_start and va_copy; a Win64 function is left alone. *)
Definition visitVAStartInst (win64 : bool) (VAListTag : Z) (m : mem) : mem :=
  if win64 then m else unpoisonVAListTagForInst VAListTag m.

Definition visitVACopyInst (win64 : bool) (VAListTag : Z) (m : mem) : mem :=
  if win64 then m else unpoisonVAListTagForInst VAListTag m.

(** What [finalizeInstrumentation] emits after a va_start, where
    [VAArgOverflowSize] was loaded in the prologue. *)
Definition finalizeInstrumentation (VAArgOverflowSize VAListTag : Z) (m : mem) : mem :=
  let RegSaveAreaPtr := load64 m (VAListTag +64 16) in
  let m := memset m (MEM_TO_SHADOW P RegSaveAreaPtr) 0 FpEnd in
  let OverflowArgAreaPtr := load64 m (VAListTag +64 8) in
  memset m (MEM_TO_SHADOW P OverflowArgAreaPtr) 0 VAArgOverflowSize.
End helper.

(** The no-op helper of other architectures marks 32 bytes of the va_list. *)
Definition NoOp_visitVAStartInst (VAListTag : Z) (m : mem) : mem :=
  memset m (MEM_TO_SHADOW P VAListTag) 0 32.

(** ** The reference: where the ABI puts the arguments *)

(** In the register save area, or on the stack, at an offset and with a size. *)
Inductive place := InRegSaveArea (off n : Z) | OnStack (off n : Z).

(** The general purpose and vector registers used, in bytes of the register save
    area, and the bytes of stack used. *)
Record abi_state := mkAbi { gp : Z; fp : Z; stack : Z }.

Definition abi_start : abi_state := mkAbi 0 48 0.

(** An argument on the stack is at a multiple of its alignment, at least 8, and
    takes a multiple of 8 bytes. *)
Definition on_stack (size align : Z) (s : abi_state) : place * abi_state :=
  let off := alignTo (stack s) (Z.max 8 align) in
  (OnStack off size, mkAbi (gp s) (fp s) (off + alignTo size 8)).

(** [vectors]: vector registers are available. *)
Definition abi_arg (vectors : bool) (A : arg) (s : abi_state) : place * abi_state :=
  match arg_byval A with
  | Some size => on_stack size (arg_align A) s
  | None =>
      match arg_type A with
      | IntegerTy _ | PointerTy =>
          if gp s <? 48 then (InRegSaveArea (gp s) (arg_size A), mkAbi (gp s + 8) (fp s) (stack s))
          else on_stack (arg_size A) (arg_align A) s
      | FPOrFPVectorTy =>
          if vectors && (fp s <? 176) then (InRegSaveArea (fp s) (arg_size A), mkAbi (gp s) (fp s + 16) (stack s))
          else on_stack (arg_size A) (arg_align A) s
      | X86_FP80Ty | OtherTy => on_stack (arg_size A) (arg_align A) s
      end
  end.

Fixpoint abi_args (vectors : bool) (args : list arg) (s : abi_state) : list place * abi_state :=
  match args with
  | [] => ([], s)
  | A :: args =>
      let '(p, s) := abi_arg vectors A s in
      let '(ps, s) := abi_args vectors args s in
      (p :: ps, s)
  end.

(** The types the ABI passes the way the classification does: integers of at most
    64 bits, vectors of at most 128. *)
Definition abi_supported (A : arg) : Prop :=
  0 <= arg_size A /\
  match arg_byval A with Some n => 0 <= n | None => True end /\
  match arg_type A with
  | IntegerTy bits => bits <= 64 /\ arg_size A <= 8
  | PointerTy => arg_size A <= 8
  | FPOrFPVectorTy => arg_size A <= 16
  | _ => True
  end.

(** The address of a place in the callee: overflow_arg_area starts after the
    stack arguments the callee's type names, the first [fixed] bytes. *)
Definition place_address (reg_save_area overflow_arg_area fixed : Z) (p : place) : Z * Z :=
  match p with
  | InRegSaveArea off n => (reg_save_area + off, n)
  | OnStack off n => (overflow_arg_area + (off - fixed), n)
  end.

(** ** The classification follows the ABI *)

Lemma alignTo_8 size : size <= alignTo size 8 < size + 8 /\ alignTo size 8 mod 8 = 0.
Proof. unfold alignTo. split; [Z.div_mod_to_equations; lia|]. apply Z.mod_mul. lia. Qed.

Lemma alignTo_8_id x : x mod 8 = 0 -> alignTo x 8 = x.
Proof. unfold alignTo. intros H. Z.div_mod_to_equations; lia. Qed.

Definition FpEnd_of (vectors : bool) : Z := AMD64FpEndOffset (negb vectors).

Record abi_ok (vectors : bool) (s : abi_state) : Prop := {
  ao_gp : 0 <= gp s <= 48 /\ gp s mod 8 = 0;
  ao_fp : 48 <= fp s <= FpEnd_of vectors /\ fp s mod 16 = 0;
  ao_stack : 0 <= stack s /\ stack s mod 8 = 0
}.

(** Where an argument is, between two states of the walk. *)
Definition place_ok (vectors : bool) (s s' : abi_state) (p : place) : Prop :=
  match p with
  | InRegSaveArea off n => 0 <= off /\ off + n <= FpEnd_of vectors
  | OnStack off n => stack s <= off /\ off + n <= stack s'
  end.

Lemma on_stack_ok vectors size align s p s' :
  abi_ok vectors s -> 0 <= size -> align <= 8 -> on_stack size align s = (p, s') ->
  abi_ok vectors s' /\ gp s' = gp s /\ fp s' = fp s /\ stack s' = stack s + alignTo size 8 /\
  stack s <= stack s' /\ place_ok vectors s s' p.
Proof.
  intros [Hg Hf [Hs0 Hs]] Hsize Halign E. unfold on_stack in E.
  rewrite Z.max_l, alignTo_8_id in E by done. injection E as <- <-.
  destruct (alignTo_8 size) as [Ha Hm]. cbn [gp fp stack place_ok]. repeat split; cbn [gp fp stack]; try (tauto || lia).
  rewrite Z.add_mod by lia. by rewrite Hs, Hm.
Qed.

(** A register slot. *)
Lemma gp_slot vectors s n :
  abi_ok vectors s -> gp s < 48 -> n <= 8 ->
  u32 (gp s + 8) = gp s + 8 /\ abi_ok vectors (mkAbi (gp s + 8) (fp s) (stack s)) /\
  place_ok vectors s (mkAbi (gp s + 8) (fp s) (stack s)) (InRegSaveArea (gp s) n).
Proof.
  intros [Hg Hf Hs] Hlt Hn. split; [apply u32_small; lia|].
  assert (gp s <= 40) by (Z.div_mod_to_equations; lia).
  split; [split; cbn [gp fp stack]; [|done|done]|cbn [place_ok]; lia].
  split; [lia|]. Z.div_mod_to_equations; lia.
Qed.

Lemma fp_slot s n :
  abi_ok true s -> fp s < 176 -> n <= 16 ->
  u32 (fp s + 16) = fp s + 16 /\ abi_ok true (mkAbi (gp s) (fp s + 16) (stack s)) /\
  place_ok true s (mkAbi (gp s) (fp s + 16) (stack s)) (InRegSaveArea (fp s) n).
Proof.
  intros [Hg [Hf Hm] Hs] Hlt Hn. split; [apply u32_small; lia|].
  assert (fp s <= 160) by (Z.div_mod_to_equations; lia).
  change (FpEnd_of true) with 176 in Hf.
  split; [split; cbn [gp fp stack]; [done| |done]|cbn [place_ok]; change (FpEnd_of true) with 176; lia].
  change (FpEnd_of true) with 176. split; [lia|]. Z.div_mod_to_equations; lia.
Qed.

(** The kind of an argument that is not passed by value, given the registers left. *)
Definition effective_kind (FpEnd : Z) (T : arg_ty) (GpOffset FpOffset : Z) : ArgKind :=
  match classifyArgument T with
  | AK_GeneralPurpose => if 48 <=? GpOffset then AK_Memory else AK_GeneralPurpose
  | AK_FloatingPoint => if FpEnd <=? FpOffset then AK_Memory else AK_FloatingPoint
  | AK_Memory => AK_Memory
  end.

Lemma abi_arg_kind vectors A s :
  abi_ok vectors s -> abi_supported A -> arg_byval A = None ->
  abi_arg vectors A s =
    match effective_kind (FpEnd_of vectors) (arg_type A) (gp s) (fp s) with
    | AK_GeneralPurpose => (InRegSaveArea (gp s) (arg_size A), mkAbi (gp s + 8) (fp s) (stack s))
    | AK_FloatingPoint => (InRegSaveArea (fp s) (arg_size A), mkAbi (gp s) (fp s + 16) (stack s))
    | AK_Memory => on_stack (arg_size A) (arg_align A) s
    end.
Proof.
  intros [_ [Hf _] _] (_ & _ & Hty) E. unfold abi_arg, effective_kind. rewrite E.
  assert (forall x y : Z, (x <? y) = negb (y <=? x)) as Hneg by (intros; lia).
  rewrite !Hneg. destruct (arg_type A); cbn [classifyArgument]; try done.
  - destruct vectors; [by destruct (_ <=? _)|]. cbn [andb].
    change (FpEnd_of false) with 48. by rewrite (proj2 (Z.leb_le 48 (fp s))) by lia.
  - rewrite (proj2 (Z.leb_le bits 64)) by lia. by destruct (_ <=? _).
  - by destruct (_ <=? _).
Qed.

Lemma kind_sizes vectors A s :
  abi_ok vectors s -> abi_supported A ->
  match effective_kind (FpEnd_of vectors) (arg_type A) (gp s) (fp s) with
  | AK_GeneralPurpose => gp s < 48 /\ arg_size A <= 8
  | AK_FloatingPoint => vectors = true /\ fp s < 176 /\ arg_size A <= 16
  | AK_Memory => True
  end.
Proof.
  intros [_ [Hf _] _] (_ & _ & Hty). unfold effective_kind.
  destruct (arg_type A) as [| |bits| |]; cbn [classifyArgument]; try done.
  - destruct (Z.leb_spec (FpEnd_of vectors) (fp s)); [done|].
    destruct vectors; [change (FpEnd_of true) with 176 in *; split_and!; (done || lia)|].
    change (FpEnd_of false) with 48 in *. lia.
  - destruct (bits <=? 64); [|done]. destruct (Z.leb_spec 48 (gp s)); [done|]. lia.
  - destruct (Z.leb_spec 48 (gp s)); [done|]. lia.
Qed.

(** The walk of the ABI keeps its invariant, and its places are where it says. *)
Lemma abi_arg_ok vectors A s p s' :
  abi_ok vectors s -> abi_supported A -> arg_align A <= 8 -> abi_arg vectors A s = (p, s') ->
  abi_ok vectors s' /\ stack s <= stack s' /\ place_ok vectors s s' p.
Proof.
  intros Hok Hsup Hal E. pose proof Hsup as (Hsize & Hbv & _).
  assert (forall size, 0 <= size -> on_stack size (arg_align A) s = (p, s') ->
    abi_ok vectors s' /\ stack s <= stack s' /\ place_ok vectors s s' p) as Hmem
    by (intros size Hsz Es; by destruct (on_stack_ok vectors _ _ _ _ _ Hok Hsz Hal Es) as (? & _ & _ & _ & ? & ?)).
  destruct (arg_byval A) as [size|] eqn:Eb; [unfold abi_arg in E; rewrite Eb in E; by apply (Hmem size)|].
  rewrite abi_arg_kind in E by done. pose proof (kind_sizes vectors A s Hok Hsup) as Hk.
  destruct (effective_kind _ _ _ _); [| |by apply (Hmem (arg_size A))]; injection E as <- <-.
  - destruct Hk. destruct (gp_slot vectors s (arg_size A) Hok) as (_ & ? & ?); [lia..|].
    split_and!; (done || cbn; lia).
  - destruct Hk as (-> & ? & ?). destruct (fp_slot s (arg_size A) Hok) as (_ & ? & ?); [lia..|].
    split_and!; (done || cbn; lia).
Qed.

(** One argument: the code's offsets follow the ABI's state, the overflow offset
    of a variadic argument by what it takes of the stack. *)
Lemma visit_arg_abi vectors fixed A s ov p s' :
  abi_ok vectors s -> abi_supported A -> arg_align A <= 8 -> abi_arg vectors A s = (p, s') ->
  0 <= ov -> ov + (stack s' - stack s) < 2 ^ 32 ->
  visit_arg (FpEnd_of vectors) fixed A (gp s, fp s, ov)
  = (gp s', fp s', if fixed then ov else ov + (stack s' - stack s)).
Proof.
  intros Hok Hsup Hal E Hov Hlt. pose proof Hsup as (Hsize & Hbv & _).
  assert (forall size, 0 <= size -> on_stack size (arg_align A) s = (p, s') ->
    (if fixed then (gp s, fp s, ov) else (gp s, fp s, u32 (ov + alignTo size 8)))
    = (gp s', fp s', if fixed then ov else ov + (stack s' - stack s))) as Hmem.
  { intros size Hsz Es. destruct (on_stack_ok vectors _ _ _ _ _ Hok Hsz Hal Es) as (_ & H2 & H3 & H4 & _ & _).
    rewrite H2, H3. destruct fixed; [done|].
    destruct (alignTo_8 size) as [? _]. rewrite u32_small by lia. do 2 f_equal. lia. }
  destruct (arg_byval A) as [size|] eqn:Eb.
  { unfold visit_arg, abi_arg in *. rewrite Eb in *. by apply (Hmem size). }
  rewrite abi_arg_kind in E by done. pose proof (kind_sizes vectors A s Hok Hsup) as Hk.
  unfold visit_arg. rewrite Eb. unfold effective_kind in *. unfold AMD64GpEndOffset.
  destruct (classifyArgument (arg_type A)); [| |by apply (Hmem (arg_size A))].
  - destruct (48 <=? gp s); [by apply (Hmem (arg_size A))|]. injection E as <- <-. cbn [gp fp stack].
    destruct (gp_slot vectors s 0 Hok) as (-> & _); [lia..|].
    rewrite Z.sub_diag, Z.add_0_r. by destruct fixed.
  - destruct (FpEnd_of vectors <=? fp s); [by apply (Hmem (arg_size A))|]. injection E as <- <-. cbn [gp fp stack].
    destruct Hk as (-> & ? & _). destruct (fp_slot s 0 Hok) as (-> & _); [lia..|].
    rewrite Z.sub_diag, Z.add_0_r. by destruct fixed.
Qed.

Lemma place_ok_mono vectors s0 s s' s1 p :
  stack s0 <= stack s -> stack s' <= stack s1 -> place_ok vectors s s' p -> place_ok vectors s0 s1 p.
Proof. destruct p; cbn [place_ok]; lia. Qed.

Definition args_ok (args : list arg) : Prop := Forall (fun A => abi_supported A /\ arg_align A <= 8) args.

Lemma abi_args_ok vectors args s ps s' :
  abi_ok vectors s -> args_ok args -> abi_args vectors args s = (ps, s') ->
  abi_ok vectors s' /\ stack s <= stack s' /\ Forall (place_ok vectors s s') ps.
Proof.
  intros Hok Hargs. revert s ps Hok. induction Hargs as [|A args [Hsup Hal] _ IH]; intros s ps Hok E.
  { injection E as <- <-. split_and!; [done|lia|constructor]. }
  cbn [abi_args] in E. destruct (abi_arg vectors A s) as [p s1] eqn:E1.
  destruct (abi_args vectors args s1) as [ps1 s2] eqn:E2. injection E as <- <-.
  destruct (abi_arg_ok vectors A s p s1 Hok Hsup Hal E1) as (Hok1 & Hle1 & Hp1).
  destruct (IH s1 ps1 Hok1 E2) as (Hok2 & Hle2 & Hps).
  split_and!; [done|lia|]. constructor; [by eapply place_ok_mono; [| |exact Hp1]; lia|].
  eapply list.Forall_impl; [exact Hps|]. intros q Hq. by eapply place_ok_mono; [| |exact Hq]; lia.
Qed.

Lemma visit_args_abi vectors (fixed : bool) NumParams args ArgNo s ov ps s' :
  (if fixed then ArgNo + Z.of_nat (length args) <= NumParams else NumParams <= ArgNo) ->
  abi_ok vectors s -> args_ok args -> abi_args vectors args s = (ps, s') ->
  0 <= ov -> ov + (stack s' - stack s) < 2 ^ 32 ->
  visit_args (FpEnd_of vectors) ArgNo NumParams args (gp s, fp s, ov)
  = (gp s', fp s', if fixed then ov else ov + (stack s' - stack s)).
Proof.
  intros Hfix Hok Hargs. revert ArgNo s ov ps Hfix Hok.
  induction Hargs as [|A args [Hsup Hal] Hargs IH]; intros ArgNo s ov ps Hfix Hok E Hov Hlt.
  { injection E as _ <-. cbn [visit_args]. destruct fixed; do 2 f_equal; lia. }
  cbn [abi_args visit_args length] in *. destruct (abi_arg vectors A s) as [p s1] eqn:E1.
  destruct (abi_args vectors args s1) as [ps1 s2] eqn:E2. injection E as _ <-.
  destruct (abi_arg_ok vectors A s p s1 Hok Hsup Hal E1) as (Hok1 & Hle1 & _).
  destruct (abi_args_ok vectors args s1 ps1 s2 Hok1 Hargs E2) as (_ & Hle2 & _).
  assert ((ArgNo <? NumParams) = fixed) as -> by (destruct fixed; lia).
  rewrite (visit_arg_abi vectors fixed A s ov p s1) by (done || lia).
  rewrite (IH (ArgNo + 1) s1 _ ps1) by (destruct fixed; (done || lia)).
  destruct fixed; [done|]. f_equal. lia.
Qed.

Lemma visit_args_app FpEnd args1 args2 ArgNo NumParams offs :
  visit_args FpEnd ArgNo NumParams (args1 ++ args2) offs
  = visit_args FpEnd (ArgNo + Z.of_nat (length args1)) NumParams args2
      (visit_args FpEnd ArgNo NumParams args1 offs).
Proof.
  revert ArgNo offs. induction args1 as [|A args1 IH]; intros ArgNo offs; cbn [app visit_args length].
  - by rewrite Z.add_0_r.
  - rewrite IH. by replace (ArgNo + Z.of_nat (S (length args1))) with (ArgNo + 1 + Z.of_nat (length args1)) by lia.
Qed.

Lemma abi_start_ok vectors : abi_ok vectors abi_start.
Proof. destruct vectors; split; unfold FpEnd_of, AMD64FpEndOffset, AMD64FpEndOffsetSSE, AMD64FpEndOffsetNoSSE, AMD64GpEndOffset; cbn; (split; [lia|done]). Qed.

Lemma overflow_size_exact vectors fixed variadic ps0 s0 ps s1 :
  args_ok (fixed ++ variadic) -> abi_args vectors fixed abi_start = (ps0, s0) ->
  abi_args vectors variadic s0 = (ps, s1) -> stack s1 < 2 ^ 31 ->
  visitCallBase (FpEnd_of vectors) (Z.of_nat (length fixed)) (fixed ++ variadic) = stack s1 - stack s0 /\
  0 <= stack s1 - stack s0 /\ Forall (place_ok vectors s0 s1) ps.
Proof.
  intros [Hf Hv]%list.Forall_app E0 E1 Hlt. pose proof (abi_start_ok vectors) as Hst.
  destruct (abi_args_ok vectors fixed _ _ _ Hst Hf E0) as (Hok0 & Hle0 & _).
  destruct (abi_args_ok vectors variadic _ _ _ Hok0 Hv E1) as (Hok1 & Hle1 & Hps).
  cbn [stack abi_start] in Hle0.
  assert (48 <= FpEnd_of vectors <= 176) as Hend by (destruct vectors; done).
  split; [|split; [lia|done]]. unfold visitCallBase. rewrite visit_args_app.
  rewrite (visit_args_abi vectors true _ fixed 0 abi_start (FpEnd_of vectors) ps0 s0)
    by (done || cbn [stack abi_start]; lia).
  rewrite (visit_args_abi vectors false _ variadic _ s0 (FpEnd_of vectors) ps s1) by (done || lia).
  rewrite u32_small by lia. lia.
Qed.

(** ** The callee *)

(** Marking the shadow of an application buffer leaves application memory alone. *)
Lemma mark_load m a n p :
  app_buffer P a n -> app_buffer P p 8 -> load64 (memset m (MEM_TO_SHADOW P a) 0 n) p = load64 m p.
Proof.
  intros Ha Hp. apply load_ext. intros i Hi. apply memset_out.
  apply (shadow_of_buffer ctx0 a n (p + i) Ha). by apply Hp.
Qed.

Lemma mark_zero m a n b :
  app_buffer P a n -> MEM_IS_APP P b = true ->
  memset m (MEM_TO_SHADOW P a) 0 n (MEM_TO_SHADOW P b)
  = if in_range a n b then 0 else m (MEM_TO_SHADOW P b).
Proof. intros Ha Hb. unfold memset. by rewrite range_shadow by done. Qed.

Lemma app_first a n : app_buffer P a n -> 0 < n -> MEM_IS_APP P a = true.
Proof. intros H Hn. specialize (H 0 ltac:(lia)). by rewrite Z.add_0_r in H. Qed.

(** What [finalizeInstrumentation] leaves: the two areas are clean, and nothing
    clean is marked. *)
Lemma finalize_zero FpEnd size tag m b :
  app_buffer P tag 24 -> app_buffer P (load64 m (tag + 16)) FpEnd ->
  app_buffer P (load64 m (tag + 8)) size -> MEM_IS_APP P b = true ->
  finalizeInstrumentation FpEnd size tag m (MEM_TO_SHADOW P b)
  = if in_range (load64 m (tag + 8)) size b || in_range (load64 m (tag + 16)) FpEnd b then 0
    else m (MEM_TO_SHADOW P b).
Proof.
  intros Htag Hr Ho Hb. unfold finalizeInstrumentation.
  pose proof (sl_app_range tag (app_first tag 24 Htag ltac:(lia))) as Ht.
  rewrite !(u64_small (tag + _)) by lia.
  rewrite mark_load by (done || by apply (app_buffer_within tag 24)).
  rewrite mark_zero, mark_zero by done.
  by destruct (in_range (load64 m (tag + 8)) size b).
Qed.


(** printf-like: a format and, variadic, six integers, a double and a structure of
    20 bytes by value: two integers and the structure are on the stack. *)
Definition ptr_arg : arg := mkArg PointerTy 8 8 None.
Definition long_arg : arg := mkArg (IntegerTy 64) 8 8 None.
Definition int_arg : arg := mkArg (IntegerTy 32) 4 4 None.
Definition double_arg : arg := mkArg FPOrFPVectorTy 8 8 None.
Definition struct_arg : arg := mkArg PointerTy 8 8 (Some 20).
Definition long_double_arg : arg := mkArg X86_FP80Ty 16 16 None.

Definition printf_variadic : list arg :=
  [long_arg; long_arg; int_arg; long_arg; long_arg; double_arg; int_arg; struct_arg].

(** The va_list at 4096, its areas at 8192 and 16384; every shadow byte is 255. *)
Definition va_list_mem : mem := store64 (store64 (fun _ => 255) (4096 + 16) 8192) (4096 + 8) 16384.

(** The shadow of an application byte is not where the va_list is. *)
Lemma shadow_not_low b :
  MEM_IS_APP P b = true -> 0x10000000000 <= MEM_TO_SHADOW P b.
Proof. intros H. destruct (x86_shadow_value b H) as [[? E]|[[? E]|[? E]]]; rewrite E; lia. Qed.

(** va_start writes the va_list. *)
Definition va_start_example (m : mem) : mem := store64 (store64 m (4096 + 16) 8192) (4096 + 8) 16384.


(** the overflow size ignores the alignment of the arguments.  A long double
    is aligned to 16 on the stack; after an odd number of 8-byte stack arguments
    the padding is not counted, and the last bytes of the long double that va_arg
    reads stay outside of what va_start marks, whatever their shadow was. *)
Theorem overaligned_vararg_is_undercounted :
  let variadic := [long_arg; long_arg; long_arg; long_arg; long_arg; long_arg; long_double_arg] in
  visitCallBase 176 1 (ptr_arg :: variadic) = 24 /\
  OnStack 16 16 ∈ (abi_args true variadic (mkAbi 8 48 0)).1 /\
  forall m tag a, app_buffer P tag 24 -> app_buffer P (load64 m (tag + 16)) 176 ->
    load64 m (tag + 8) = a -> load64 m (tag + 16) + 176 <= a ->
    app_buffer P a 32 ->
    finalizeInstrumentation 176 24 tag m (MEM_TO_SHADOW P (a + 25)) = m (MEM_TO_SHADOW P (a + 25)).
Proof.
  intros variadic. split; [reflexivity|]. split; [vm_compute; repeat constructor|].
  intros m tag a Htag Hr <- Hle Ha.
  rewrite finalize_zero; [|done|done| |].
  - rewrite !(proj2 (in_range_false _ _ _)) by lia. done.
  - intros j Hj. apply Ha. lia.
  - apply Ha. lia.
Qed.

Lemma overaligned_vararg_is_undercounted_witness :
  finalizeInstrumentation 176 24 4096 va_list_mem (MEM_TO_SHADOW P (16384 + 25)) = 255.
Proof.
  destruct overaligned_vararg_is_undercounted as (_ & _ & H).
  rewrite (H va_list_mem 4096 16384).
  - vm_compute. reflexivity.
  - by apply app1_buffer.
  - apply app1_buffer; vm_compute; congruence.
  - vm_compute. reflexivity.
  - vm_compute. congruence.
  - by apply app1_buffer.
Defined.
