(* ===== verification/PassCalls.v ===== *)
(** * Calls, and the shadows of values

    The visitors of src/pass/CompilerQEMUMemorySanitizer.cpp that touch no memory:
    [visitCallBase] and what it dispatches to, [visitPHINode], [visitInstruction],
    and the map of shadows with [setShadow], [getShadow] and [insertShadowCheck].

    A call's arguments carry no shadow and its result is trusted, unless options
    say otherwise: with eager checks the noundef arguments are checked before the
    call, and without [ClTrustReturn] the result's shadow is what the callee left
    in [__cqmsan_retval_tls], cleared before the call.  The map gives every sized
    value exactly one shadow, which two assertions of the pass rely on. *)

From Stdlib Require Import String.
From S2P Require Import Prelude PassShadow PassChecks.
From S2P Require PassVarArgs.

(** ** Data *)

(** A [Value]: the result of an instruction, with whether [getShadow] exempts it
    (!nosanitize, or an access of AFL's runtime), an undef, an argument, or
    anything else. *)
Inductive value :=
| VInstruction (n : nat) (T : llvm_ty) (exempt : bool)
| VUndef (T : llvm_ty)
| VArgument (T : llvm_ty)
| VOther (T : llvm_ty).

Definition value_ty (V : value) : llvm_ty :=
  match V with VInstruction _ T _ | VUndef T | VArgument T | VOther T => T end.

Record CallOptions := mkCallOptions {
  EagerChecks : bool;
  ClTrustReturn : bool;
  ClHandleAsmConservative : bool;
  ClCheckConstantShadow : bool;
  InsertChecks : bool;
  PoisonUndef : bool
}.

(** The options' defaults. *)
Definition default_call_options : CallOptions := mkCallOptions false true true true true true.

(** What the visitor emits around a call: the store of a clean shadow to the
    return slot and of the size of the variadic overflow area before it, the load
    of the return slot after it. *)
Inductive emitted :=
| StoreRetval (t : shadow_ty) (v : shadow)
| StoreOverflowSize (n : Z)
| LoadRetval (l : loc) (t : shadow_ty).

Record visitor := mkVisitor {
  ShadowMap : gmap nat src;
  InstrumentationList : list check;
  ShadowPHINodes : list nat;
  emitted_code : list emitted
}.

Definition visitor0 : visitor := mkVisitor ∅ [] [] [].

Definition emit (e : emitted) (st : visitor) : visitor :=
  mkVisitor (ShadowMap st) (InstrumentationList st) (ShadowPHINodes st) (emitted_code st ++ [e]).

(** ** Inline assembly *)

Inductive ConstraintType := isInput | isOutput (indirect : bool) | isClobber | isLabel.

(** The return type of an assembly, as [getNumOutputArgs] looks at it. *)
Inductive asm_ret := RetVoid | RetStruct (elements : Z) | RetScalar.

Definition getNumOutputArgs (RetTy : asm_ret) (Constraints : list ConstraintType) : Z :=
  let NumRetOutputs := match RetTy with RetVoid => 0 | RetStruct n => n | RetScalar => 1 end in
  let NumOutputs := Z.of_nat (List.length (List.filter
    (fun c => match c with isOutput _ => true | _ => false end) Constraints)) in
  NumOutputs - NumRetOutputs.

(** The operands [visitAsmInstruction] hands to [instrumentAsmArgument] as outputs. *)
Definition asm_output_operands {A} (RetTy : asm_ret) (Constraints : list ConstraintType) (operands : list A) : list A :=
  firstn (Z.to_nat (getNumOutputArgs RetTy Constraints)) operands.

(** ** Calls *)

(** An argument with its attributes. *)
Record call_arg := mkCallArg { ca_value : value; ca_byval : bool; ca_noundef : bool }.

Inductive LibFunc := LibFunc_atomic_load | LibFunc_atomic_store | LibFunc_other.

Record CallBase := mkCallBase {
  cb_id : nat;
  cb_loc : loc;
  cb_ty : llvm_ty;
  isInlineAsm : bool;
  (** [TLI->getLibFunc] *)
  cb_libfunc : option LibFunc;
  (** a CallInst, or an invoke *)
  isCallInst : bool;
  (** the name of the callee, of a direct call *)
  getCalledFunction : option string;
  cb_args : list call_arg;
  (** of a variadic callee: the named parameters, and the arguments as the helper
      sees them *)
  isVarArg : option (Z * list PassVarArgs.arg);
  isMustTailCall : bool;
  hasNoUndefRet : bool;
  (** the place after the call: for an invoke, in its normal destination, if that
      has the one predecessor *)
  cb_next : option loc
}.

Section visitor.
Context (asserts flip : bool) (vscale FpEnd : Z) (o : CallOptions).

(** [getCleanShadow], as a [Value]. *)
Definition clean_src (T : llvm_ty) : option src :=
  match getShadowTy T, getCleanShadow flip vscale T with
  | Some t, Some v => Some (SrcConst t v)
  | _, _ => None
  end.

Definition poisoned_src (T : llvm_ty) : option src :=
  (fun t => SrcConst t (getPoisonedShadow flip vscale t)) <$> getShadowTy T.

(** The assertion stops a build that has it; a null shadow is not stored. *)
Definition setShadow (n : nat) (SV : option src) (st : visitor) : outcome visitor :=
  if asserts && (match ShadowMap st !! n with Some _ => true | None => false end)
  then Died "Values may only have one shadow"%string
  else mret (mkVisitor (match SV with Some s => <[n := s]> (ShadowMap st) | None => ShadowMap st end)
               (InstrumentationList st) (ShadowPHINodes st) (emitted_code st)).

Definition getShadow (V : value) (st : visitor) : outcome (option src) :=
  match V with
  | VInstruction n T exempt =>
      if exempt then mret (clean_src T) else
      match ShadowMap st !! n with
      | Some s => mret (Some s)
      | None => if asserts then Died "CQMSan: missing shadow"%string else mret (clean_src T)
      end
  | VUndef T => mret (if PoisonUndef o then poisoned_src T else clean_src T)
  | VArgument T | VOther T => mret (clean_src T)
  end.

Definition pushShadowCheck (Shadow : src) (OrigIns : loc) (Essential : bool) (st : visitor) : visitor :=
  if InsertChecks o
  then mkVisitor (ShadowMap st) (InstrumentationList st ++ [mkCheck Shadow OrigIns Essential])
         (ShadowPHINodes st) (emitted_code st)
  else st.

Definition insertShadowCheck (Val : value) (OrigIns : loc) (Essential : bool) (st : visitor) : outcome visitor :=
  Shadow ← getShadow Val st;
  let Shadow := if ClCheckConstantShadow o then Shadow
                else match Shadow with Some (SrcInst l t) => Some (SrcInst l t) | _ => None end in
  match Shadow with
  | None => mret st
  | Some s => mret (pushShadowCheck s OrigIns Essential st)
  end.

Definition isSized (T : llvm_ty) : bool := match getShadowTy T with Some _ => true | None => false end.

Definition visitInstruction (n : nat) (T : llvm_ty) (st : visitor) : outcome visitor :=
  if isSized T then setShadow n (clean_src T) st else mret st.

(** The shadow PHI is at the PHI; its incoming shadows are added at the end. *)
Definition visitPHINode (n : nat) (T : llvm_ty) (l : loc) (st : visitor) : outcome visitor :=
  setShadow n (SrcInst l <$> getShadowTy T)
    (mkVisitor (ShadowMap st) (InstrumentationList st) (ShadowPHINodes st ++ [n]) (emitted_code st)).

(** The one test on names: users may call these, and they expect shadow in the TLS. *)
Definition MayCheckCall (CB : CallBase) : bool :=
  EagerChecks o &&
  match getCalledFunction CB with
  | Some name => negb (String.prefix "__sanitizer_unaligned_" name)
  | None => true
  end.

Definition is_checked_arg (a : call_arg) : bool :=
  isSized (value_ty (ca_value a)) && negb (ca_byval a) && ca_noundef a.

Fixpoint check_args (args : list call_arg) (OrigIns : loc) (st : visitor) : outcome visitor :=
  match args with
  | [] => mret st
  | a :: args =>
      st ← (if is_checked_arg a then insertShadowCheck (ca_value a) OrigIns true st else mret st);
      check_args args OrigIns st
  end.

(** The shadow of the result. *)
Definition handle_return (CB : CallBase) (st : visitor) : outcome visitor :=
  if negb (isSized (cb_ty CB)) then mret st else
  if isCallInst CB && isMustTailCall CB then mret st else
  if MayCheckCall CB && hasNoUndefRet CB then setShadow (cb_id CB) (clean_src (cb_ty CB)) st else
  if ClTrustReturn o then setShadow (cb_id CB) (clean_src (cb_ty CB)) st else
  match clean_src (cb_ty CB) with
  | Some (SrcConst t v) =>
      let st := emit (StoreRetval t v) st in
      match cb_next CB with
      | None => setShadow (cb_id CB) (clean_src (cb_ty CB)) st
      | Some l => setShadow (cb_id CB) (Some (SrcInst l t)) (emit (LoadRetval l t) st)
      end
  | _ => mret st
  end.

(** What a call is, to the visitor. *)
Inductive call_kind := AsmCall | LibAtomicLoad | LibAtomicStore | OrdinaryCall.

Definition dispatch (CB : CallBase) : call_kind :=
  if isInlineAsm CB then AsmCall else
  match cb_libfunc CB with
  | Some LibFunc_atomic_load => if isCallInst CB then LibAtomicLoad else OrdinaryCall
  | Some LibFunc_atomic_store => LibAtomicStore
  | _ => OrdinaryCall
  end.

(** What the libatomic and assembly calls do to memory is in PassMemory. *)
Definition visitCallBase (CB : CallBase) (st : visitor) : outcome visitor :=
  match dispatch CB with
  | AsmCall =>
      if ClHandleAsmConservative o then setShadow (cb_id CB) (clean_src (cb_ty CB)) st
      else visitInstruction (cb_id CB) (cb_ty CB) st
  | LibAtomicLoad | LibAtomicStore => mret st
  | OrdinaryCall =>
      st ← (if MayCheckCall CB then check_args (cb_args CB) (cb_loc CB) st else mret st);
      let st := match isVarArg CB with
                | Some (NumParams, args) => emit (StoreOverflowSize (PassVarArgs.visitCallBase FpEnd NumParams args)) st
                | None => st
                end in
      handle_return CB st
  end.

(** ** The visit of the instructions

    [IOther]: an instruction that another visitor handles, with the shadow that
    visitor gives it, if any: the load's, the slice's, a clean one. *)
Inductive inst :=
| IDefault (n : nat) (T : llvm_ty)
| IPhi (n : nat) (T : llvm_ty) (l : loc)
| ICall (CB : CallBase)
| IOther (n : nat) (SV : option src).

Definition inst_id (i : inst) : nat :=
  match i with IDefault n _ | IPhi n _ _ | IOther n _ => n | ICall CB => cb_id CB end.

Definition visit_inst (i : inst) (st : visitor) : outcome visitor :=
  match i with
  | IDefault n T => visitInstruction n T st
  | IPhi n T l => visitPHINode n T l st
  | ICall CB => visitCallBase CB st
  | IOther n SV => setShadow n SV st
  end.

Fixpoint visit_insts (is_ : list inst) (st : visitor) : outcome visitor :=
  match is_ with
  | [] => mret st
  | i :: is_ => st ← visit_inst i st; visit_insts is_ st
  end.

(** *** Returns *)

(** The instruction that defines a value, as [isAMustTailRetVal] looks at it. *)
Inductive definition := DBitCast (op : value) | DCallInst (isMustTail : bool) | DOther.

Definition isAMustTailRetVal (def : value -> definition) (RetVal : value) : bool :=
  let RetVal := match def RetVal with DBitCast op => op | _ => RetVal end in
  match def RetVal with DCallInst isMustTail => isMustTail | _ => false end.

(** ** Facts *)

Implicit Types (st : visitor) (CB : CallBase).

Lemma clean_src_sized T : isSized T = true ->
  exists t v, clean_src T = Some (SrcConst t v) /\ getShadowTy T = Some t /\ getCleanShadow flip vscale T = Some v.
Proof.
  unfold isSized, clean_src, getCleanShadow. destruct (getShadowTy T) as [t|]; [|done]. intros _. cbn. eauto.
Qed.

Lemma clean_src_unsized T : isSized T = false -> clean_src T = None.
Proof. unfold isSized, clean_src. by destruct (getShadowTy T). Qed.

(** What a visitor does to the map: at most the shadow of its own value. *)
Definition sets (n : nat) (SV : option src) st st' : Prop :=
  ShadowMap st' = match SV with Some s => <[n := s]> (ShadowMap st) | None => ShadowMap st end.

Lemma setShadow_done n SV st : ShadowMap st !! n = None ->
  setShadow n SV st = Done (mkVisitor (match SV with Some s => <[n := s]> (ShadowMap st) | None => ShadowMap st end)
    (InstrumentationList st) (ShadowPHINodes st) (emitted_code st)).
Proof. intros Hn. unfold setShadow. by rewrite Hn, andb_false_r. Qed.

(** The check [insertShadowCheck] records for a value whose shadow is [s]. *)
Definition recorded (s : option src) (OrigIns : loc) (Essential : bool) : list check :=
  match s with
  | None => []
  | Some s => if InsertChecks o && (ClCheckConstantShadow o || match s with SrcInst _ _ => true | _ => false end)
              then [mkCheck s OrigIns Essential] else []
  end.

Lemma insertShadowCheck_spec V l b st s : getShadow V st = Done s ->
  insertShadowCheck V l b st = Done (mkVisitor (ShadowMap st) (InstrumentationList st ++ recorded s l b)
    (ShadowPHINodes st) (emitted_code st)).
Proof.
  intros E. unfold insertShadowCheck, recorded, pushShadowCheck. rewrite E. cbn [mbind outcome_bind].
  destruct s as [s|], (ClCheckConstantShadow o), (InsertChecks o); cbn [andb orb]; rewrite ?app_nil_r; try (by destruct st).
  all: destruct s; rewrite ?app_nil_r; by destruct st.
Qed.

(** The shadow of a value that has one. *)
Definition has_shadow st (V : value) : Prop :=
  match V with VInstruction n _ false => is_Some (ShadowMap st !! n) | _ => True end.

Definition shadow_of st (V : value) : option src :=
  match getShadow V st with Done s => s | Died _ => None end.

Lemma getShadow_done V st : has_shadow st V -> getShadow V st = Done (shadow_of st V).
Proof. unfold shadow_of. destruct V as [n T []|T|T|T]; cbn; try done. by intros [s ->]. Qed.

Lemma shadow_of_map V st st' : ShadowMap st' = ShadowMap st -> shadow_of st' V = shadow_of st V.
Proof. intros E. unfold shadow_of, getShadow. by rewrite E. Qed.

Definition arg_checks st (OrigIns : loc) (a : call_arg) : list check :=
  if is_checked_arg a then recorded (shadow_of st (ca_value a)) OrigIns true else [].

Lemma check_args_spec args l st :
  Forall (fun a => is_checked_arg a = true -> has_shadow st (ca_value a)) args ->
  check_args args l st = Done (mkVisitor (ShadowMap st) (InstrumentationList st ++ concat (map (arg_checks st l) args))
    (ShadowPHINodes st) (emitted_code st)).
Proof.
  revert st. induction args as [|a args IH]; intros st Hall; cbn [check_args map concat].
  - rewrite app_nil_r. by destruct st.
  - apply list.Forall_cons in Hall as [Ha Hall].
    assert (exists l2, l2 = arg_checks st l a /\ (if is_checked_arg a then insertShadowCheck (ca_value a) l true st else mret st) =
      Done (mkVisitor (ShadowMap st) (InstrumentationList st ++ l2) (ShadowPHINodes st) (emitted_code st))) as (l2 & -> & ->).
    { eexists. split; [done|]. unfold arg_checks. destruct (is_checked_arg a).
      - rewrite (insertShadowCheck_spec _ _ _ _ _ (getShadow_done _ _ (Ha eq_refl))). done.
      - rewrite app_nil_r. by destruct st. }
    cbn [mbind outcome_bind]. rewrite IH by (eapply list.Forall_impl; [exact Hall|done]).
    cbn [ShadowMap InstrumentationList ShadowPHINodes emitted_code]. by rewrite <- app_assoc.
Qed.

(** *** What a call gets *)

(** Its result is trusted: by the option, or because the callee checks it. *)
Definition trusted CB : bool := MayCheckCall CB && hasNoUndefRet CB || ClTrustReturn o.

Definition call_src CB : option src :=
  match dispatch CB with
  | AsmCall => clean_src (cb_ty CB)
  | LibAtomicLoad | LibAtomicStore => None
  | OrdinaryCall =>
      if isCallInst CB && isMustTailCall CB then None else
      if trusted CB then clean_src (cb_ty CB) else
      match cb_next CB with
      | Some l => SrcInst l <$> getShadowTy (cb_ty CB)
      | None => clean_src (cb_ty CB)
      end
  end.

Definition return_code CB : list emitted :=
  if isCallInst CB && isMustTailCall CB || trusted CB then [] else
  match clean_src (cb_ty CB) with
  | Some (SrcConst t v) => StoreRetval t v :: match cb_next CB with Some l => [LoadRetval l t] | None => [] end
  | _ => []
  end.

Definition call_code CB : list emitted :=
  match dispatch CB with
  | OrdinaryCall =>
      match isVarArg CB with
      | Some (NumParams, args) => [StoreOverflowSize (PassVarArgs.visitCallBase FpEnd NumParams args)]
      | None => []
      end ++ return_code CB
  | _ => []
  end.

(** The checks of its arguments. *)
Definition call_checks CB st : list check :=
  match dispatch CB with
  | OrdinaryCall => if MayCheckCall CB then concat (map (arg_checks st (cb_loc CB)) (cb_args CB)) else []
  | _ => []
  end.

Definition args_have_shadows CB st : Prop :=
  dispatch CB = OrdinaryCall -> MayCheckCall CB = true ->
  Forall (fun a => is_checked_arg a = true -> has_shadow st (ca_value a)) (cb_args CB).

Definition updated st (n : nat) (SV : option src) (checks : list check) (phis : list nat) (code : list emitted) : visitor :=
  mkVisitor (match SV with Some s => <[n := s]> (ShadowMap st) | None => ShadowMap st end)
    (InstrumentationList st ++ checks) (ShadowPHINodes st ++ phis) (emitted_code st ++ code).

Lemma updated_nil st n : updated st n None [] [] [] = st.
Proof. unfold updated. rewrite !app_nil_r. by destruct st. Qed.

Lemma handle_return_spec CB st :
  ShadowMap st !! cb_id CB = None -> dispatch CB = OrdinaryCall ->
  handle_return CB st = Done (updated st (cb_id CB) (call_src CB) [] [] (return_code CB)).
Proof.
  intros Hn Hd. unfold handle_return, call_src, return_code, trusted. rewrite Hd.
  destruct (isSized (cb_ty CB)) eqn:Hs; cbn [negb].
  - destruct (clean_src_sized _ Hs) as (t & v & -> & -> & _).
    destruct (isCallInst CB && isMustTailCall CB); cbn [orb]; [by rewrite updated_nil|].
    unfold updated. rewrite !app_nil_r.
    destruct (MayCheckCall CB && hasNoUndefRet CB); cbn [orb]; [by rewrite setShadow_done, app_nil_r|].
    destruct (ClTrustReturn o); [by rewrite setShadow_done, app_nil_r|].
    destruct (cb_next CB) as [l|]; [by rewrite setShadow_done; cbn; rewrite <- ?app_assoc|].
    by rewrite setShadow_done.
  - rewrite (clean_src_unsized _ Hs). unfold isSized in Hs. destruct (getShadowTy (cb_ty CB)); [done|].
    replace (if _ || _ then _ else _) with (@nil emitted) by (by repeat case_match).
    replace (if _ && _ then _ else _) with (@None src) by (by repeat case_match). by rewrite updated_nil.
Qed.

Lemma visitCallBase_spec CB st :
  ShadowMap st !! cb_id CB = None -> args_have_shadows CB st ->
  visitCallBase CB st = Done (updated st (cb_id CB) (call_src CB) (call_checks CB st) [] (call_code CB)).
Proof.
  intros Hn Hargs. unfold visitCallBase, call_checks, call_code.
  destruct (dispatch CB) eqn:Hd; [| |by unfold call_src; rewrite Hd, updated_nil|].
  - unfold call_src. rewrite Hd. unfold updated. rewrite !app_nil_r. destruct (ClHandleAsmConservative o).
    + by rewrite setShadow_done.
    + unfold visitInstruction. destruct (isSized (cb_ty CB)) eqn:Hs; [by rewrite setShadow_done|].
      rewrite (clean_src_unsized _ Hs). by destruct st.
  - by unfold call_src; rewrite Hd, updated_nil.
  - set (st1 := mkVisitor (ShadowMap st)
      (InstrumentationList st ++ (if MayCheckCall CB then concat (map (arg_checks st (cb_loc CB)) (cb_args CB)) else []))
      (ShadowPHINodes st) (emitted_code st)).
    assert ((if MayCheckCall CB then check_args (cb_args CB) (cb_loc CB) st else mret st) = Done st1) as ->.
    { unfold st1. destruct (MayCheckCall CB) eqn:Hm; [apply check_args_spec, Hargs; done|].
      rewrite app_nil_r. by destruct st. }
    cbn [mbind outcome_bind]. destruct (isVarArg CB) as [[k args]|]; rewrite handle_return_spec by done;
      unfold updated; cbn [emit ShadowMap InstrumentationList ShadowPHINodes emitted_code st1];
      rewrite ?app_nil_r, <- ?app_assoc; done.
Qed.

(** *** What the visit of the instructions does *)

Definition inst_src (i : inst) : option src :=
  match i with
  | IDefault _ T => clean_src T
  | IPhi _ T l => SrcInst l <$> getShadowTy T
  | ICall CB => call_src CB
  | IOther _ SV => SV
  end.

(** The values whose shadow an instruction's visitor asks for. *)
Definition asked (i : inst) : list value :=
  match i with
  | ICall CB => if MayCheckCall CB then map ca_value (List.filter is_checked_arg (cb_args CB)) else []
  | _ => []
  end.

(** An instruction of the list gives the value a shadow. *)
Definition given_by (is_ : list inst) (V : value) : Prop :=
  match V with
  | VInstruction n _ false => exists i, i ∈ is_ /\ inst_id i = n /\ is_Some (inst_src i)
  | _ => True
  end.

(** Blocks are visited so that a definition comes before its uses. *)
Definition defined_before_use (is_ : list inst) : Prop :=
  forall is1 i is2, is_ = is1 ++ i :: is2 -> Forall (given_by is1) (asked i).

(** The map of the shadows of a list of instructions. *)
Definition map_of (is_ : list inst) (m : gmap nat src) : Prop :=
  (forall i, i ∈ is_ -> m !! inst_id i = inst_src i) /\
  forall n, is_Some (m !! n) -> n ∈ map inst_id is_.

Lemma visit_inst_spec i st :
  ShadowMap st !! inst_id i = None -> Forall (has_shadow st) (asked i) ->
  exists checks phis code, visit_inst i st = Done (updated st (inst_id i) (inst_src i) checks phis code) /\
    phis = match i with IPhi n _ _ => [n] | _ => [] end.
Proof.
  intros Hn Hargs. destruct i as [n T|n T l|CB|n SV]; cbn [visit_inst inst_src inst_id] in *.
  - exists [], [], []. split; [|done]. unfold visitInstruction, updated. rewrite !app_nil_r.
    destruct (isSized T) eqn:Hs; [by rewrite setShadow_done|]. rewrite (clean_src_unsized _ Hs). by destruct st.
  - exists [], [n], []. split; [|done]. unfold visitPHINode, updated. rewrite setShadow_done by done.
    cbn [ShadowMap InstrumentationList ShadowPHINodes emitted_code]. by rewrite !app_nil_r.
  - eexists _, [], _. split; [|done]. apply visitCallBase_spec; [done|]. intros Hd Hm.
    cbn [asked] in Hargs. rewrite Hm in Hargs. apply list.Forall_forall. intros a Ha Hchk.
    rewrite list.Forall_forall in Hargs. apply Hargs, list_elem_of_fmap. exists a. split; [done|].
    apply list_elem_of_In, filter_In. split; [by apply list_elem_of_In|done].
  - exists [], [], []. split; [|done]. unfold updated. rewrite !app_nil_r. by rewrite setShadow_done.
Qed.

Lemma map_of_app is_ i m : map_of is_ m -> inst_id i ∉ map inst_id is_ ->
  map_of (is_ ++ [i]) (match inst_src i with Some s => <[inst_id i := s]> m | None => m end).
Proof.
  intros [Hin Hdom] Hi.
  assert (m !! inst_id i = None) as Hnone.
  { destruct (m !! inst_id i) eqn:E; [|done]. exfalso. apply Hi, Hdom. by rewrite E. }
  split.
  - intros j [Hj|Hj%list_elem_of_singleton]%elem_of_app.
    + assert (inst_id j <> inst_id i) by (intros E; apply Hi; rewrite <- E; by apply list_elem_of_fmap_2).
      destruct (inst_src i); [rewrite lookup_insert_ne by done|]; by apply Hin.
    + subst j. destruct (inst_src i); [by rewrite lookup_insert_eq|done].
  - intros n Hn. rewrite map_app. apply elem_of_app. destruct (inst_src i) as [s|]; [|left; by apply Hdom].
    destruct (decide (inst_id i = n)) as [<-|Hne]; [right; left|]. rewrite lookup_insert_ne in Hn by done. left. by apply Hdom.
Qed.

Lemma given_has_shadow is_ V st : map_of is_ (ShadowMap st) -> given_by is_ V -> has_shadow st V.
Proof. intros [Hin _]. destruct V as [n T []|T|T|T]; try done. intros (i & Hi & <- & Hs). cbn. by rewrite Hin. Qed.

Definition phi_ids (is_ : list inst) : list nat := omap (fun i => match i with IPhi n _ _ => Some n | _ => None end) is_.

Lemma visit_insts_spec is1 is2 st :
  NoDup (map inst_id (is1 ++ is2)) -> defined_before_use (is1 ++ is2) ->
  map_of is1 (ShadowMap st) -> ShadowPHINodes st = phi_ids is1 ->
  exists st', visit_insts is2 st = Done st' /\ map_of (is1 ++ is2) (ShadowMap st') /\
    ShadowPHINodes st' = phi_ids (is1 ++ is2).
Proof.
  revert is1 st. induction is2 as [|i is2 IH]; intros is1 st Hnd Hord Hm Hphi.
  - exists st. by rewrite app_nil_r.
  - cbn [visit_insts].
    assert (inst_id i ∉ map inst_id is1) as Hi.
    { rewrite map_app in Hnd. apply list.NoDup_app in Hnd as (_ & Hnd & _). intros Hin. by apply (Hnd _ Hin); left. }
    destruct (visit_inst_spec i st) as (checks & phis & code & -> & Ephi).
    { destruct Hm as [_ Hdom]. destruct (ShadowMap st !! inst_id i) eqn:E; [|done]. exfalso. apply Hi, Hdom. by rewrite E. }
    { eapply list.Forall_impl; [exact (Hord is1 i is2 eq_refl)|]. intros V. by apply given_has_shadow. }
    cbn [mbind outcome_bind].
    destruct (IH (is1 ++ [i]) (updated st (inst_id i) (inst_src i) checks phis code)) as (st' & E & Hm' & Hp').
    + by rewrite <- app_assoc.
    + by rewrite <- app_assoc.
    + by apply map_of_app.
    + cbn [updated ShadowPHINodes]. rewrite Hphi, Ephi. unfold phi_ids. rewrite omap_app. by destruct i.
    + exists st'. rewrite <- app_assoc in Hm', Hp'. done.
Qed.

(** The end of the visit: the incoming shadows of the PHIs. *)
Fixpoint getShadows (Vs : list value) st : outcome (list (option src)) :=
  match Vs with
  | [] => mret []
  | V :: Vs => s ← getShadow V st; ss ← getShadows Vs st; mret (s :: ss)
  end.

Fixpoint finalizeShadowPHIs (incoming : nat -> list value) (PNs : list nat) st
    : outcome (list (nat * list (option src))) :=
  match PNs with
  | [] => mret []
  | PN :: PNs =>
      ss ← getShadows (incoming PN) st;
      rest ← finalizeShadowPHIs incoming PNs st;
      mret ((PN, ss) :: rest)
  end.

Lemma getShadows_spec Vs st : Forall (has_shadow st) Vs -> getShadows Vs st = Done (map (shadow_of st) Vs).
Proof.
  induction 1 as [|V Vs HV _ IH]; [done|]. cbn [getShadows map]. rewrite (getShadow_done _ _ HV). cbn [mbind outcome_bind].
  by rewrite IH.
Qed.

Lemma finalize_spec incoming PNs st : Forall (fun PN => Forall (has_shadow st) (incoming PN)) PNs ->
  finalizeShadowPHIs incoming PNs st = Done (map (fun PN => (PN, map (shadow_of st) (incoming PN))) PNs).
Proof.
  induction 1 as [|PN PNs HP _ IH]; [done|]. cbn [finalizeShadowPHIs map]. rewrite (getShadows_spec _ _ HP).
  cbn [mbind outcome_bind]. by rewrite IH.
Qed.
End visitor.

(** ** Properties *)


(** The thread-local slot of the return value, as LLVM's loads and stores see it. *)
Class RetvalTLS := {
  tls : Type;
  tls_store : shadow_ty -> shadow -> tls -> tls;
  tls_load : shadow_ty -> tls -> shadow;
  tls_load_store t v s : tls_load t (tls_store t v s) = v
}.

Fixpoint run_before `{RetvalTLS} (code : list emitted) (s : tls) : tls :=
  match code with
  | [] => s
  | StoreRetval t v :: code => run_before code (tls_store t v s)
  | _ :: code => run_before code s
  end.

(** The shadow of a call's result, when the callee does [callee] to the slot. *)
Definition result_shadow `{RetvalTLS} (code : list emitted) (SV : src) (callee : tls -> tls) (s : tls) : shadow :=
  match SV with
  | SrcConst _ v => v
  | SrcInst _ t => tls_load t (callee (run_before code s))
  end.

(** the shadow of a call's result.  Under any options and in both conventions,
    the sized result of a call that is not a tail call gets exactly one shadow: a
    clean one when the result is trusted, or checked by the callee, or consumed
    where the edge from the call is not the only one; otherwise what the callee
    left in the return slot.  A callee that leaves the slot alone, such as any
    function of the module, returns a clean value, whatever was in the slot before
    the call. *)
Theorem call_result_shadow `{RetvalTLS} asserts flip vscale FpEnd o CB st st' v (callee : tls -> tls) (s : tls) :
  dispatch CB = OrdinaryCall -> isCallInst CB && isMustTailCall CB = false ->
  getCleanShadow flip vscale (cb_ty CB) = Some v ->
  ShadowMap st !! cb_id CB = None -> args_have_shadows o CB st -> emitted_code st = [] ->
  visitCallBase asserts flip vscale FpEnd o CB st = Done st' ->
  exists SV, ShadowMap st' !! cb_id CB = Some SV /\
    let result := result_shadow (emitted_code st') SV callee s in
    (trusted o CB = true \/ cb_next CB = None -> result = v) /\
    (forall l t, trusted o CB = false -> cb_next CB = Some l -> getShadowTy (cb_ty CB) = Some t ->
       result = tls_load t (callee (tls_store t v s))) /\
    ((forall x, callee x = x) -> result = v).
Proof.
  intros Hd Hmust Hclean Hn Hargs Hcode E. rewrite visitCallBase_spec in E by done. injection E as <-.
  unfold call_src, call_code, return_code, updated. rewrite Hd, Hmust, Hcode. cbn [orb app emitted_code ShadowMap].
  unfold clean_src. unfold getCleanShadow in Hclean |- *. destruct (getShadowTy (cb_ty CB)) as [t|]; [|done].
  cbn in Hclean |- *. injection Hclean as <-.
  assert (forall k c, run_before (match isVarArg CB with
    | Some (NumParams, args) => [StoreOverflowSize (PassVarArgs.visitCallBase FpEnd NumParams args)]
    | None => [] end ++ k) c = run_before k c) as Hrun by (intros; by destruct (isVarArg CB) as [[]|]).
  destruct (trusted o CB); [|destruct (cb_next CB) as [l|]]; rewrite lookup_insert_eq; eexists; (split; [reflexivity|]);
    cbn [result_shadow]; rewrite ?Hrun; cbn [run_before].
  - by split_and!.
  - split_and!; [by intros []|by intros l' t' _ _ [= ->]|]. intros ->. apply tls_load_store.
  - by split_and!.
Qed.

(** the checks of a call are those of its noundef arguments.  A call records a
    check exactly for each argument that is sized, noundef and not by value, of
    its shadow and at the call, when eager checks are on and the callee is not one
    of the unaligned-access functions; with the default options it records none. *)
Theorem eager_checks_exact asserts flip vscale FpEnd o CB st st' :
  ShadowMap st !! cb_id CB = None -> args_have_shadows o CB st ->
  visitCallBase asserts flip vscale FpEnd o CB st = Done st' ->
  exists checks, InstrumentationList st' = InstrumentationList st ++ checks /\
  (EagerChecks o = false -> checks = []) /\
  forall c, c ∈ checks <->
    dispatch CB = OrdinaryCall /\ EagerChecks o = true /\ InsertChecks o = true /\
    (forall name, getCalledFunction CB = Some name -> String.prefix "__sanitizer_unaligned_" name = false) /\
    exists a sh, a ∈ cb_args CB /\ isSized (value_ty (ca_value a)) = true /\ ca_byval a = false /\ ca_noundef a = true /\
      getShadow asserts flip vscale o (ca_value a) st = Done (Some sh) /\
      (ClCheckConstantShadow o = true \/ exists l t, sh = SrcInst l t) /\
      c = mkCheck sh (cb_loc CB) true.
Proof.
  intros Hn Hargs E. rewrite visitCallBase_spec in E by done. injection E as <-.
  exists (call_checks asserts flip vscale o CB st). cbn [updated InstrumentationList]. split; [done|].
  split; [intros He; unfold call_checks, MayCheckCall; rewrite He; by destruct (dispatch CB)|].
  intros c. unfold call_checks. destruct (dispatch CB) eqn:Hd;
    [split; [by intros ?%not_elem_of_nil|by intros [? _]]..|].
  assert (MayCheckCall o CB = true <-> EagerChecks o = true /\
    forall name, getCalledFunction CB = Some name -> String.prefix "__sanitizer_unaligned_" name = false) as Hmay.
  { unfold MayCheckCall. rewrite andb_true_iff. destruct (getCalledFunction CB) as [name|]; [|naive_solver].
    rewrite negb_true_iff. naive_solver. }
  destruct (MayCheckCall o CB) eqn:Hm; [|rewrite elem_of_nil; split; [done|]; intros (_ & He & _ & Hf & _); discriminate (proj2 Hmay (conj He Hf))].
  destruct (proj1 Hmay eq_refl) as [He Hf]. specialize (Hargs Hd Hm). rewrite list.Forall_forall in Hargs.
  rewrite list_elem_of_In, in_concat. setoid_rewrite <- list_elem_of_In. setoid_rewrite list_elem_of_fmap.
  unfold arg_checks, recorded. split.
  - intros (x & (a & -> & Ha) & Hc). specialize (Hargs a Ha). destruct (is_checked_arg a) eqn:Hchk; [|by apply not_elem_of_nil in Hc].
    pose proof (getShadow_done asserts flip vscale o (ca_value a) st (Hargs eq_refl)) as Hg.
    destruct (shadow_of asserts flip vscale o st (ca_value a)) as [sh|]; [|by apply not_elem_of_nil in Hc].
    destruct (InsertChecks o) eqn:Hi; [|by apply not_elem_of_nil in Hc]. cbn [andb] in Hc.
    destruct (ClCheckConstantShadow o || _) eqn:Hk; [|by apply not_elem_of_nil in Hc]. apply list_elem_of_singleton in Hc as ->.
    unfold is_checked_arg in Hchk. bool_hyps. do 4 (split; [done|]). exists a, sh. do 5 (split; [done|]). split; [|done].
    apply orb_true_iff in Hk as [Hk|Hk]; [by left|right]. destruct sh; [done|eauto].
  - intros (_ & _ & Hi & _ & a & sh & Ha & Hs & Hb & Hnu & Hg & Hk & ->). rewrite Hi.
    assert (is_checked_arg a = true) as Hchk by (unfold is_checked_arg; by rewrite Hs, Hb, Hnu).
    eexists. split; [by exists a|]. rewrite Hchk. unfold shadow_of. rewrite Hg. cbn [andb].
    replace (ClCheckConstantShadow o || _) with true by (destruct Hk as [->|(l & t & ->)]; [done|by rewrite orb_true_r]).
    by left.
Qed.

(** What LLVM's verifier demands of an assembly's type: its direct outputs are what
    the call returns. *)
Definition direct_outputs (Constraints : list ConstraintType) : Z :=
  Z.of_nat (List.length (List.filter (fun c => match c with isOutput false => true | _ => false end) Constraints)).
Definition indirect_outputs (Constraints : list ConstraintType) : Z :=
  Z.of_nat (List.length (List.filter (fun c => match c with isOutput true => true | _ => false end) Constraints)).

Definition asm_verified (RetTy : asm_ret) (Constraints : list ConstraintType) : Prop :=
  match RetTy with
  | RetVoid => direct_outputs Constraints = 0
  | RetScalar => direct_outputs Constraints = 1
  | RetStruct n => direct_outputs Constraints = n
  end.

(** the outputs of an assembly are found.  The operands the visitor marks as
    initialised are the first ones, as many as the assembly has indirect outputs:
    those LLVM passes as pointers, before the inputs. *)
Theorem asm_outputs_exact {A} RetTy Constraints (outputs inputs : list A) :
  asm_verified RetTy Constraints -> Z.of_nat (List.length outputs) = indirect_outputs Constraints ->
  getNumOutputArgs RetTy Constraints = indirect_outputs Constraints /\
  asm_output_operands RetTy Constraints (outputs ++ inputs) = outputs.
Proof.
  intros Hv Hl.
  assert (getNumOutputArgs RetTy Constraints = indirect_outputs Constraints) as E.
  { transitivity (indirect_outputs Constraints + direct_outputs Constraints -
      match RetTy with RetVoid => 0 | RetStruct n => n | RetScalar => 1 end).
    - unfold getNumOutputArgs, indirect_outputs, direct_outputs. f_equal. clear Hv Hl.
      induction Constraints as [|[|[]| |] l IH]; cbn [List.filter List.length]; lia.
    - destruct RetTy; cbn in Hv; lia. }
  split; [done|]. unfold asm_output_operands. rewrite E, <- Hl, Nat2Z.id. by rewrite firstn_app, Nat.sub_diag, firstn_all, app_nil_r.
Qed.

(** ** Witnesses

    A PHI, an invoke of its value with eager checks, and a variadic call of both. *)

Definition i32 : llvm_ty := TInt 32.
Definition phi_inst : inst := IPhi 0 i32 (mkLoc 0 0).
Definition invoke_inst : CallBase := mkCallBase 1 (mkLoc 0 1) i32 false None false (Some "f"%string)
  [mkCallArg (VInstruction 0 i32 false) false true; mkCallArg (VArgument i32) false false] None false false (Some (mkLoc 1 0)).
Definition printf_call : CallBase := mkCallBase 2 (mkLoc 1 1) i32 false None true (Some "printf"%string)
  [mkCallArg (VInstruction 1 i32 false) false true; mkCallArg (VInstruction 0 i32 false) false true]
  (Some (1, [PassVarArgs.ptr_arg; PassVarArgs.int_arg])) false false (Some (mkLoc 1 2)).
Definition example_insts : list inst := [phi_inst; ICall invoke_inst; ICall printf_call; IDefault 3 i32].
Definition eager_options : CallOptions := mkCallOptions true false true true true true.

#[local] Instance one_slot : RetvalTLS := {|
  tls := shadow; tls_store _ v _ := v; tls_load _ s := s; tls_load_store _ _ _ := eq_refl
|}.

Lemma example_ordered : defined_before_use false 1 eager_options example_insts.
Proof.
  intros is1 i is2 E.
  destruct is1 as [|a [|b [|c [|d is1]]]]; cbn [app] in E; injection E as <-;
    [constructor| | |subst; constructor|by destruct is1].
  - subst. repeat constructor. exists phi_inst. split; [left|]. by split; [|eexists].
  - subst. repeat constructor; [exists (ICall invoke_inst)|exists phi_inst]; (split; [in_list|by split; [|eexists]]).
Qed.


Definition after_phi : visitor := mkVisitor {[0%nat := SrcInst (mkLoc 0 0) (SInt 32)]} [] [0%nat] [].

Lemma after_phi_args : args_have_shadows eager_options invoke_inst after_phi.
Proof. intros _ _. repeat constructor; by eexists. Qed.

Lemma call_result_shadow_witness :
  exists st', visitCallBase true false 1 176 eager_options invoke_inst after_phi = Done st' /\
  exists SV, ShadowMap st' !! 1%nat = Some SV /\
    @result_shadow one_slot (emitted_code st') SV (fun s => s) (VInt 32 77) = VInt 32 0.
Proof.
  eexists. split; [reflexivity|].
  destruct (@call_result_shadow one_slot true false 1 176 eager_options invoke_inst after_phi _ (VInt 32 0) (fun s => s) (VInt 32 77)
    eq_refl eq_refl eq_refl eq_refl after_phi_args eq_refl eq_refl) as (SV & E & _ & _ & Hkept).
  exists SV. split; [exact E|]. exact (Hkept (fun x => eq_refl)).
Defined.

Lemma eager_checks_exact_witness :
  exists st', visitCallBase true false 1 176 eager_options invoke_inst after_phi = Done st' /\
    mkCheck (SrcInst (mkLoc 0 0) (SInt 32)) (mkLoc 0 1) true ∈ InstrumentationList st'.
Proof.
  eexists. split; [reflexivity|].
  destruct (eager_checks_exact true false 1 176 eager_options invoke_inst after_phi _ eq_refl after_phi_args eq_refl)
    as (checks & E & _ & Hc).
  rewrite E. apply elem_of_app. right. apply Hc. split; [reflexivity|]. split; [reflexivity|]. split; [reflexivity|].
  split; [intros name [= <-]; reflexivity|].
  exists (mkCallArg (VInstruction 0 i32 false) false true), (SrcInst (mkLoc 0 0) (SInt 32)).
  split; [left|]. do 4 (split; [reflexivity|]). split; [by left|reflexivity].
Defined.

Lemma asm_outputs_exact_witness :
  asm_output_operands RetScalar [isOutput false; isOutput true; isInput; isClobber] [11; 22] = [11].
Proof.
  exact (proj2 (asm_outputs_exact RetScalar [isOutput false; isOutput true; isInput; isClobber] [11] [22] eq_refl eq_refl)).
Defined.
