(* ===== verification/PassFunction.v ===== *)
(** * One instrumented function, from end to end

    [runOnFunction] of src/pass/CompilerQEMUMemorySanitizer.cpp: the poisoning of
    the allocas, at their lifetime markers or where they are; the deferral of the
    recorded checks to their sinks and their grouping; the choice of the
    materialisation.  The analyses and the emitted code of each phase are in the
    other files of the pass.

    The end-to-end statement puts them together: an execution of the instrumented
    function, through its basic blocks, with the memory accesses it makes,
    reports exactly when the abstract machine of PassMemory, which knows only
    which bytes are initialised, sees a use of an uninitialised byte. *)

From S2P Require Import Prelude Memory Layout Poisoning Interface PassShadow PassChecks PassLoops PassSinks PassMemory.

(** ** Allocas and their lifetimes *)

(** What the collected instructions say: an alloca, or a lifetime.start with the
    alloca LLVM finds for it. *)
Inductive stack_inst := IAlloca (a : nat) | ILifetimeStart (ii : nat) (a : option nat).

Record stack_plan := mkStackPlan {
  InstrumentLifetimeStart : bool;
  AllocaSet : list nat;
  LifetimeStartList : list (nat * nat)
}.

Definition set_insert (a : nat) (l : list nat) : list nat :=
  if bool_decide (a ∈ l) then l else l ++ [a].

Definition visitAllocaInst (a : nat) (p : stack_plan) : stack_plan :=
  mkStackPlan (InstrumentLifetimeStart p) (set_insert a (AllocaSet p)) (LifetimeStartList p).

Definition handleLifetimeStart (PoisonStack : bool) (ii : nat) (AI : option nat) (p : stack_plan) : stack_plan :=
  if negb PoisonStack then p else
  match AI with
  | None => mkStackPlan false (AllocaSet p) (LifetimeStartList p)
  | Some a => mkStackPlan (InstrumentLifetimeStart p) (AllocaSet p) (LifetimeStartList p ++ [(ii, a)])
  end.

Definition visit_stack_inst (PoisonStack : bool) (p : stack_plan) (x : stack_inst) : stack_plan :=
  match x with
  | IAlloca a => visitAllocaInst a p
  | ILifetimeStart ii a => handleLifetimeStart PoisonStack ii a p
  end.

Definition collect_stack (PoisonStack ClHandleLifetimeIntrinsics : bool) (Instructions : list stack_inst) : stack_plan :=
  fold_left (visit_stack_inst PoisonStack) Instructions (mkStackPlan ClHandleLifetimeIntrinsics [] []).

(** Where [instrumentAlloca] is called: after a lifetime.start, or after the alloca. *)
Inductive poison_point := AtLifetimeStart (ii a : nat) | AtAlloca (a : nat).

Definition poison_points (p : stack_plan) : list poison_point :=
  let remaining := if InstrumentLifetimeStart p
                   then List.filter (fun a => negb (existsb (fun item => (item.2 =? a)%nat) (LifetimeStartList p))) (AllocaSet p)
                   else AllocaSet p in
  (if InstrumentLifetimeStart p then map (fun item => AtLifetimeStart item.1 item.2) (LifetimeStartList p) else [])
  ++ map AtAlloca remaining.

(** ** Checks *)

Section function.
Context `{LLVM} (o : PassOptions) (getFirstInsertionPt : list instr -> nat).
Context (fn : list (list instr)) (successors : nat -> list nat).
Context (LI : LoopInfo) (flip : bool) (vscale : Z).
Context (postDominates : nat -> nat -> bool) (insts : list user) (users : nat -> list nat).
Context (ClSinkPastBarriers : bool) (load_of : check -> option nat).

(** The deferral to the sinks, and the grouping it requires. *)
Definition sunk_checks (ClSinkChecks : bool) (InstrumentationList : list check) : list check :=
  if ClSinkChecks then
    groupByOrigIns (map (remap_check fn successors (getLoopFor LI) postDominates insts users
                           ClSinkPastBarriers load_of) InstrumentationList)
  else InstrumentationList.

(** [materializeChecks], as what the emitted code reports on an execution. *)
Definition materializeChecks (ClLoopCoalescedChecks ClBBCoalescedChecks : bool)
    (InstrumentationList : list check) (count : Z) (trace : list visit) : bool :=
  if ClLoopCoalescedChecks then
    materializeCoalescedLoopChecks o getFirstInsertionPt fn LI flip vscale InstrumentationList count trace
  else if ClBBCoalescedChecks then
    existsb (reports flip (materializeCoalescedChecks o getFirstInsertionPt fn InstrumentationList count).1) trace
  else existsb (reports flip (materializeChecksLegacy o getFirstInsertionPt fn InstrumentationList count).1) trace.

(** The end of [runOnFunction]. *)
Definition function_reports (ClSinkChecks ClLoopCoalescedChecks ClBBCoalescedChecks : bool)
    (InstrumentationList : list check) (count : Z) (trace : list visit) : bool :=
  materializeChecks ClLoopCoalescedChecks ClBBCoalescedChecks (sunk_checks ClSinkChecks InstrumentationList)
    count trace.
End function.

(** ** Every alloca is poisoned *)

Definition allocas (Instructions : list stack_inst) : list nat :=
  omap (fun x => match x with IAlloca a => Some a | _ => None end) Instructions.

Definition lifetimes (Instructions : list stack_inst) : list (nat * nat) :=
  omap (fun x => match x with ILifetimeStart ii (Some a) => Some (ii, a) | _ => None end) Instructions.

Definition all_found (Instructions : list stack_inst) : bool :=
  forallb (fun x => match x with ILifetimeStart _ None => false | _ => true end) Instructions.

Lemma collect_stack_exact PoisonStack Instructions p :
  let q := fold_left (visit_stack_inst PoisonStack) Instructions p in
  (forall a, a ∈ AllocaSet q <-> a ∈ AllocaSet p \/ a ∈ allocas Instructions) /\
  LifetimeStartList q = LifetimeStartList p ++ (if PoisonStack then lifetimes Instructions else []) /\
  InstrumentLifetimeStart q = InstrumentLifetimeStart p && (negb PoisonStack || all_found Instructions).
Proof.
  revert p. induction Instructions as [|x l IH]; intros p; cbn [fold_left].
  - split_and!; [set_solver|by destruct PoisonStack; rewrite app_nil_r|by rewrite orb_true_r, andb_true_r].
  - destruct (IH (visit_stack_inst PoisonStack p x)) as (H1 & H2 & H3). clear IH.
    cbn zeta in H1. split_and!.
    + intros a. rewrite H1. destruct x as [a'|ii a']; cbn [visit_stack_inst].
      * unfold visitAllocaInst, set_insert. cbn [AllocaSet allocas omap list_omap].
        case_bool_decide; set_solver.
      * unfold handleLifetimeStart. destruct PoisonStack, a'; cbn; set_solver.
    + rewrite H2. destruct x as [a'|ii [a'|]]; cbn [visit_stack_inst]; [done| |];
        unfold handleLifetimeStart; destruct PoisonStack; cbn; rewrite <- ?app_assoc; done.
    + rewrite H3. destruct x as [a'|ii [a'|]]; cbn [visit_stack_inst all_found forallb]; [done| |];
        unfold handleLifetimeStart; destruct PoisonStack; cbn; rewrite ?andb_false_r; done.
Qed.

Lemma at_lifetime_in p ii a :
  AtLifetimeStart ii a ∈ poison_points p <-> InstrumentLifetimeStart p = true /\ (ii, a) ∈ LifetimeStartList p.
Proof.
  unfold poison_points. rewrite elem_of_app. destruct (InstrumentLifetimeStart p).
  - split.
    + intros [Hin|Hin]; apply list_elem_of_fmap in Hin; [|by destruct Hin as (? & ? & _)].
      by destruct Hin as ((ii' & a') & [= -> ->] & Hin).
    + intros [_ Hin]. left. apply list_elem_of_fmap. by exists (ii, a).
  - split; [|by intros [? _]]. intros [Hin|Hin]; [by apply not_elem_of_nil in Hin|].
    apply list_elem_of_fmap in Hin. by destruct Hin as (? & ? & _).
Qed.

Lemma at_alloca_in p a :
  AtAlloca a ∈ poison_points p <->
  a ∈ AllocaSet p /\ ~ (InstrumentLifetimeStart p = true /\ exists ii, (ii, a) ∈ LifetimeStartList p).
Proof.
  assert (existsb (fun item => (item.2 =? a)%nat) (LifetimeStartList p) = true <->
    exists ii, (ii, a) ∈ LifetimeStartList p) as Hm.
  { rewrite existsb_exists_elem. split.
    - intros ((ii & a') & Hin & He%Nat.eqb_eq). cbn in He. subst. by exists ii.
    - intros (ii & Hin). exists (ii, a). split; [done|]. apply Nat.eqb_refl. }
  assert (forall l, AtAlloca a ∈ map AtAlloca l <-> a ∈ l) as Hl.
  { intros l. rewrite list_elem_of_fmap. split; [by intros (? & [= <-] & ?)|by exists a]. }
  unfold poison_points. rewrite elem_of_app, Hl, <- Hm. clear Hm. destruct (InstrumentLifetimeStart p).
  - rewrite list_elem_of_fmap. setoid_rewrite list_elem_of_In at 2. rewrite filter_In, negb_true_iff.
    rewrite <- list_elem_of_In, <- not_true_iff_false. split; [|tauto].
    intros [(? & ? & _)|?]; [done|tauto].
  - rewrite elem_of_nil. split; [|tauto]. intros [[]|?]. split; [done|]. by intros [? _].
Qed.

(** every alloca of a sanitized function is poisoned: after each of its
    lifetime.start markers when it has some and the alloca of every marker was
    found, and after the alloca itself otherwise; and nothing else is poisoned. *)
Theorem every_alloca_is_poisoned PoisonStack handle Instructions :
  let p := collect_stack PoisonStack handle Instructions in
  let marked a := exists ii, (ii, a) ∈ lifetimes Instructions in
  let markers_used := handle = true /\ PoisonStack = true /\ all_found Instructions = true in
  forall pt, pt ∈ poison_points p <->
    match pt with
    | AtLifetimeStart ii a => markers_used /\ (ii, a) ∈ lifetimes Instructions
    | AtAlloca a => a ∈ allocas Instructions /\ ~ (markers_used /\ marked a)
    end.
Proof.
  intros p marked used pt.
  destruct (collect_stack_exact PoisonStack Instructions (mkStackPlan handle [] [])) as (H1 & H2 & H3).
  fold (collect_stack PoisonStack handle Instructions) in H1, H2, H3. fold p in H1, H2, H3.
  cbn [AllocaSet LifetimeStartList InstrumentLifetimeStart app] in *.
  assert (forall a, a ∈ AllocaSet p <-> a ∈ allocas Instructions) as Ha by (intros a; rewrite H1, elem_of_nil; tauto).
  assert (forall (Q : Prop), (Q -> PoisonStack = true) ->
    (handle && (negb PoisonStack || all_found Instructions) = true /\ Q <-> used /\ Q)) as Hused.
  { intros Q HQ. unfold used. rewrite andb_true_iff, orb_true_iff. split; [|destruct PoisonStack; tauto].
    intros [[-> Hn] Hq]. rewrite (HQ Hq) in *. destruct Hn as [Hn|Hn]; [done|tauto]. }
  destruct pt as [ii a|a].
  - rewrite at_lifetime_in, H3, H2, Hused by (destruct PoisonStack; [done|by intros ?%not_elem_of_nil]).
    destruct PoisonStack; [done|]. unfold used. rewrite elem_of_nil. naive_solver.
  - rewrite at_alloca_in, Ha, H3, H2, Hused
      by (destruct PoisonStack; [done|by intros (? & ?%not_elem_of_nil)]).
    unfold marked, used. destruct PoisonStack; [done|]. naive_solver.
Qed.

(** ** Deferred checks *)

Lemma existsb_swap {A B} (f : A -> B -> bool) l k :
  existsb (fun a => existsb (f a) k) l = existsb (fun b => existsb (fun a => f a b) l) k.
Proof.
  apply eq_true_iff_eq. rewrite !existsb_exists_elem. setoid_rewrite existsb_exists_elem.
  split; intros (x & ? & y & ? & ?); by exists y; split; [|exists x].
Qed.

Section deferral.
Context (fn : list (list instr)) (successors : nat -> list nat).
Context (getLoopFor : nat -> option nat) (postDominates : nat -> nat -> bool).
Context (insts : list user) (users : nat -> list nat) (load_of : check -> option nat).
Context (o : PassOptions).

Notation sink_for := (findSinkFor fn successors getLoopFor postDominates insts users false).
Notation remap := (remap_check fn successors getLoopFor postDominates insts users false load_of).

(** A check that is moved is the check of a load, its shadow is computed in the
    load's block, and the load is not run again before the sink: the one point the
    accepted conditions leave open. *)
Definition moved_ok (trace : list visit) (c : check) : Prop :=
  forall Load U, Essential c = false -> load_of c = Some Load -> sink_for Load = Some (Some U) ->
    let Sink := loc_of insts U in
    (exists l t, Shadow c = SrcInst l t /\ lb l = lb (OrigIns c)) /\
    OrigIns c = loc_of insts Load /\ (Load < length insts)%nat /\
    (li Sink < length (block fn (lb Sink)))%nat /\
    (li (OrigIns c) < length (block fn (lb (OrigIns c))))%nat /\
    isBBBarrier (block fn (lb (OrigIns c))) (li (OrigIns c)) = false /\
    (lb (OrigIns c) <> lb Sink ->
       ~ between successors (lb (OrigIns c)) (lb Sink) (lb (OrigIns c)) /\
       forall t1 w t2, trace = t1 ++ w :: t2 -> v_block w = lb Sink ->
         exists u, u ∈ t1 /\ v_block u = lb (OrigIns c)).

Context (Hsucc : forall b s, s ∈ successors b -> (s < length fn)%nat).
Context (Hpost : postdominance_law successors postDominates).
Context (Husers : forall V U, U ∈ users V -> (U < length insts)%nat).

Lemma remap_reports trace c :
  activation fn successors trace -> moved_ok trace c ->
  existsb (fun v => check_reports o v (remap c)) trace = existsb (fun v => check_reports o v c) trace.
Proof.
  intros Hact Hok. unfold remap_check. destruct (Essential c) eqn:Ee; [done|].
  destruct (load_of c) as [Load|] eqn:El; [|done].
  destruct (sink_for Load) as [[U|]|] eqn:Es; [|done..].
  destruct (Hok Load U Ee El Es) as ((l & t & Hsh & Hl) & Ho & HL & HS & HLi & Hb & Hcross).
  destruct (findSinkFor_spec fn successors getLoopFor postDominates insts users false Husers Load HL)
    as (r & Hr & Hsink). rewrite Es in Hr. injection Hr as <-.
  destruct Hsink as (V & _ & _ & _ & Hacc). rewrite <- Ho in Hacc. rewrite Hsh.
  destruct c as [sh orig ess]. cbn [Shadow OrigIns Essential] in *. subst sh ess.
  by apply (moved_check_reports fn successors getLoopFor postDominates).
Qed.

Lemma groupByOrigIns_Forall (Q : check -> Prop) l : Forall Q l -> Forall Q (groupByOrigIns l).
Proof.
  intros Hl. unfold groupByOrigIns. destruct (length l <? 2)%nat; [done|].
  apply List.Forall_concat, List.Forall_map.
  assert (forall m, Forall (fun kv : loc * list check => Forall Q kv.2) m ->
    Forall (fun kv => Forall Q kv.2) (fold_left (fun m c => mv_push (OrigIns c) c m) l m)) as H.
  { induction Hl as [|c l Hc _ IH]; intros m Hm; cbn [fold_left]; [done|].
    apply IH. by apply (mv_push_Forall (fun _ => Q)). }
  apply H. constructor.
Qed.

Lemma remap_Shadow c : Shadow (remap c) = Shadow c.
Proof. unfold remap_check. by repeat case_match. Qed.

Lemma sunk_constants IL : Forall (constants_ok o) IL -> Forall (constants_ok o) (groupByOrigIns (map remap IL)).
Proof.
  intros H. apply groupByOrigIns_Forall, List.Forall_map. eapply list.Forall_impl; [exact H|].
  intros c. unfold constants_ok. by rewrite remap_Shadow.
Qed.

Lemma sunk_reports gfip vscale trace IL :
  activation fn successors trace -> Forall (moved_ok trace) IL ->
  execution_ok gfip fn vscale (map remap IL) trace ->
  spec_reports o (groupByOrigIns (map remap IL)) trace = spec_reports o IL trace /\
  execution_ok gfip fn vscale (groupByOrigIns (map remap IL)) trace.
Proof.
  intros Hact Hmoved Hex. split.
  - transitivity (spec_reports o (map remap IL) trace).
    + apply existsb_ext_Forall. eapply list.Forall_impl; [exact Hex|]. intros v [_ Hv].
      by apply (groupByOrigIns_ok o gfip fn vscale).
    + unfold spec_reports.
      rewrite (existsb_swap (fun v => check_reports o v)), (existsb_swap (fun v => check_reports o v)).
      rewrite existsb_map. apply existsb_ext_Forall. eapply list.Forall_impl; [exact Hmoved|].
      intros c Hc. by apply remap_reports.
  - eapply list.Forall_impl; [exact Hex|]. intros v [Hv Hc]. split; [done|].
    by apply (groupByOrigIns_ok o gfip fn vscale v).
Qed.
End deferral.

(** ** Executions with their memory accesses *)

(** Whether the access records a check. *)
Definition is_checked (x : access) : bool :=
  match x with
  | ALoad _ _ dead _ => negb dead
  | AVectorLoad _ _ | ALdmxcsr _ | AMaskedLoad _ _ _ _ | AMaskedExpandLoad _ _ _ _ | AMaskedGather _ _ _ _ => true
  | AAtomicCmpXchg _ _ cmp => match cmp with Some _ => true | None => false end
  | _ => false
  end.

Lemma is_checked_recorded x m :
  is_checked x = match recorded_shadow x m with Some _ => true | None => false end.
Proof. destruct x as [a n [] callee| | |a n [cmp|]| | | | | | | | | | | | | | | | |]; reflexivity. Qed.

(** A visit of a block with the accesses it makes, each with the index of its
    instruction. *)
Definition executed : Type := visit * list (nat * access).

Definition accesses_of (ex : list executed) : list access := concat (map (fun e => map snd e.2) ex).

Section execution.
Context (R : RuntimeMem).
(** The shadow that is checked at an instruction. *)
Context (slot : loc -> src).

Notation step x m := (instrument default_mem_options false x m).2.
Notation run_all := (run default_mem_options false).

(** The shadows of a visit have the values the emitted code loads. *)
Fixpoint visit_match (v : visit) (accs : list (nat * access)) (m : mem) : Prop :=
  match accs with
  | [] => True
  | (i, x) :: accs =>
      (forall s, recorded_shadow x m = Some s -> src_value (v_env v) (slot (mkLoc (v_block v) i)) = s) /\
      visit_match v accs (step x m)
  end.

Fixpoint shadows_match (ex : list executed) (m : mem) : Prop :=
  match ex with
  | [] => True
  | (v, accs) :: ex => visit_match v accs m /\ shadows_match ex (run_all (map snd accs) m).2
  end.

(** The recorded checks are those of the accesses: one per instruction, run when
    the instruction is. *)
Record visit_accesses (IL : list check) (e : executed) : Prop := {
  va_made c : c ∈ IL -> reached e.1 (OrigIns c) = true ->
    exists x, (li (OrigIns c), x) ∈ e.2 /\ is_checked x = true;
  va_recorded i x : (i, x) ∈ e.2 -> is_checked x = true ->
    (i <= v_stop e.1)%nat /\ exists c, c ∈ IL /\ OrigIns c = mkLoc (v_block e.1) i
}.

Lemma run_app xs ys m :
  (run_all (xs ++ ys) m).1 = (run_all xs m).1 ++ (run_all ys (run_all xs m).2).1.
Proof.
  revert m. induction xs as [|x xs IH]; intros m; [done|]. cbn [app run].
  destruct (instrument _ _ x m) as [r m1]. specialize (IH m1).
  destruct (run_all (xs ++ ys) m1), (run_all xs m1) as [rs m2]. cbn [fst snd] in *. by rewrite IH.
Qed.

(** What a visit's accesses report is what their shadows say. *)
Lemma visit_results v accs m :
  visit_match v accs m ->
  existsb id (run_all (map snd accs) m).1 =
  existsb (fun ix => is_checked ix.2 && convertToBool false (src_value (v_env v) (slot (mkLoc (v_block v) ix.1)))) accs.
Proof.
  revert m. induction accs as [|[i x] accs IH]; intros m Hm; [done|]. destruct Hm as [Hx Hm].
  cbn [map run fst snd existsb]. pose proof (instrument_recorded x m) as Hr.
  rewrite (is_checked_recorded x m).
  destruct (instrument _ _ x m) as [r m1]. cbn [fst snd] in *. specialize (IH m1 Hm).
  destruct (run_all (map snd accs) m1) as [rs m2]. cbn [fst existsb] in *. rewrite IH. f_equal.
  unfold id. rewrite Hr. destruct (recorded_shadow x m) as [s|]; [|done]. by rewrite (Hx s eq_refl).
Qed.

Context (o : PassOptions) (vscale : Z) (gfip : list instr -> nat) (fn : list (list instr)).

(** In one visit, the specification of the checks and the accesses agree. *)
Lemma visit_reports IL v accs m :
  Forall (fun c => Shadow c = slot (OrigIns c)) IL -> Forall (constants_ok o) IL ->
  Forall (check_ok gfip fn vscale v) IL ->
  visit_accesses IL (v, accs) -> visit_match v accs m ->
  existsb (check_reports o v) IL = existsb id (run_all (map snd accs) m).1.
Proof.
  intros Hslot Hconst Hok [Hmade Hrec] Hm. rewrite (visit_results _ _ _ Hm). cbn [fst snd] in *.
  assert (forall c, c ∈ IL -> reached v (OrigIns c) = true ->
    check_reports o v c = convertToBool false (src_value (v_env v) (slot (OrigIns c)))) as Hc.
  { intros c Hin Hr. unfold check_reports. rewrite Hr.
    rewrite list.Forall_forall in Hslot, Hconst, Hok.
    pose proof (Hconst c Hin) as Hk. unfold constants_ok in Hk. rewrite Hk. cbn [andb].
    rewrite <- (Hslot c Hin). symmetry. eapply convertToBool_spec. apply (Hok c Hin). }
  apply eq_true_iff_eq. rewrite !existsb_exists_elem. split.
  - intros (c & Hin & Hcr). assert (reached v (OrigIns c) = true) as Hr.
    { unfold check_reports in Hcr. by destruct (reached v (OrigIns c)). }
    destruct (Hmade c Hin Hr) as (x & Hx & Hchk). exists (li (OrigIns c), x). split; [done|].
    cbn [fst snd]. rewrite Hchk. cbn [andb]. rewrite Hc in Hcr by done.
    apply andb_true_iff in Hr as [Hb%Nat.eqb_eq _]. rewrite <- Hb. by destruct (OrigIns c).
  - intros ((i & x) & Hx & [Hchk Hp]%andb_true_iff). cbn [fst snd] in *.
    destruct (Hrec i x Hx Hchk) as (Hi & c & Hin & Ho). exists c. split; [done|].
    assert (reached v (OrigIns c) = true) as Hr.
    { rewrite Ho. unfold reached. cbn. rewrite Nat.eqb_refl. by apply Nat.leb_le. }
    by rewrite Hc, Ho.
Qed.

Lemma execution_reports IL ex m :
  Forall (fun c => Shadow c = slot (OrigIns c)) IL -> Forall (constants_ok o) IL ->
  execution_ok gfip fn vscale IL (map fst ex) -> Forall (visit_accesses IL) ex -> shadows_match ex m ->
  spec_reports o IL (map fst ex) = existsb id (run_all (accesses_of ex) m).1.
Proof.
  intros Hslot Hconst Hok Hacc. revert m. induction ex as [|[v accs] ex IH]; intros m Hm; [done|].
  destruct Hm as [Hv Hm]. apply list.Forall_cons in Hacc as [Ha Hacc].
  unfold execution_ok in Hok. cbn [map] in Hok. apply list.Forall_cons in Hok as [[_ Hc] Hok].
  unfold accesses_of, spec_reports in *. cbn [map concat existsb fst snd].
  rewrite run_app, existsb_app, (IH Hok Hacc _ Hm). f_equal. by apply visit_reports.
Qed.
End execution.

(** ** The whole function *)

(** What an execution of the instrumented function is, for a source with the
    recorded checks [IL]: a walk through its blocks whose shadows have the values
    the emitted code loads, whose accesses are valid, and which runs the recorded
    checks of the accesses it makes. *)
Record function_execution `{RuntimeMem} (o : PassOptions) (gfip : list instr -> nat) (fn : list (list instr))
    (vscale : Z) (slot : loc -> src) (IL : list check) (ex : list executed) (m : mem) : Prop := {
  fe_slots : Forall (fun c => Shadow c = slot (OrigIns c)) IL;
  fe_constants : Forall (constants_ok o) IL;
  fe_blocks : execution_ok gfip fn vscale IL (map fst ex);
  fe_accesses : Forall (visit_accesses IL) ex;
  fe_shadows : shadows_match _ slot ex m;
  fe_valid : Forall access_ok (accesses_of ex)
}.

(** What the deferral relies on: the control-flow graph, LLVM's post-dominators
    and use lists, and that no moved check skips an iteration. *)
Record deferral_ok (gfip : list instr -> nat) (fn : list (list instr)) (vscale : Z)
    (successors : nat -> list nat) (LI : LoopInfo) (postDominates : nat -> nat -> bool)
    (insts : list user) (users : nat -> list nat) (load_of : check -> option nat)
    (IL : list check) (trace : list visit) : Prop := {
  df_edges b s : s ∈ successors b -> (s < length fn)%nat;
  df_postdominance : postdominance_law successors postDominates;
  df_users V U : U ∈ users V -> (U < length insts)%nat;
  df_activation : activation fn successors trace;
  df_moved : Forall (moved_ok fn successors (getLoopFor LI) postDominates insts users load_of trace) IL;
  df_blocks : execution_ok gfip fn vscale
    (map (remap_check fn successors (getLoopFor LI) postDominates insts users false load_of) IL) trace
}.


(** ** An example

    A store of four bytes, a load of them, a load of the four bytes after them,
    which nothing has written, and a division by the second value: the check of
    the second load moves down to the division. *)

Definition div_fn : list (list instr) := [[plain; plain; plain; plain; plain; plain; plain]].
Definition div_slot (l : loc) : src := SrcInst (mkLoc (lb l) (S (li l))) (SInt 32).
Definition div_check (i : nat) : check := mkCheck (div_slot (mkLoc 0 i)) (mkLoc 0 i) false.
Definition div_checks : list check := [div_check 1; div_check 3].
Definition div_visit : visit :=
  mkVisit 0 6 (fun l => VInt 32 (if decide (l = mkLoc 0 4) then 2 ^ 32 - 1 else 0)).
Definition div_accesses : list (nat * access) :=
  [(0%nat, AStore 4096 4 false 0 false); (1%nat, ALoad 4096 4 false false); (3%nat, ALoad 4100 4 false false)].
Definition div_insts : list user :=
  [mkUser (mkLoc 0 1) (ULoad None); mkUser (mkLoc 0 3) (ULoad None); mkUser (mkLoc 0 5) (UDivRem None (Some 1%nat))].
Definition div_users (V : nat) : list nat := match V with 1%nat => [2%nat] | _ => [] end.
Definition div_load_of (c : check) : option nat :=
  if decide (OrigIns c = mkLoc 0 1) then Some 0%nat else if decide (OrigIns c = mkLoc 0 3) then Some 1%nat else None.
Definition no_loops : LoopInfo := mkLoopInfo (fun _ => None) (fun _ => []) (fun _ => None) (fun _ => []).
Definition div_runtime : RuntimeMem := cqmsan_runtime ctx0 (fun _ => false) (rt0 (fun _ => 0)).

Lemma div_check_ok slot i k :
  (i < 7)%nat -> (k < 6)%nat -> slot = div_slot (mkLoc 0 k) ->
  check_ok demo_first div_fn 1 div_visit (mkCheck slot (mkLoc 0 i) false).
Proof.
  intros Hi Hk ->. split; [exact Hi| |].
  - unfold src_ok. cbn [Shadow div_slot src_value div_visit v_env src_type lb li]. by case_decide.
  - cbn [Shadow OrigIns div_slot lb li]. intros l t [= <- <-] _ Hle. cbn [li] in *.
    split; [|split].
    + do 7 (destruct k as [|k]; [cbn in *; lia|]). lia.
    + do 7 (destruct k as [|k]; [cbn in *; lia|]). lia.
    + intros j Hj. do 7 (destruct j as [|j]; [reflexivity|]). done.
Qed.

Lemma div_execution :
  function_execution (H := div_runtime) options0 demo_first div_fn 1 div_slot div_checks
    [(div_visit, div_accesses)] (fun _ => 255).
Proof.
  split.
  - repeat (apply list.Forall_cons; split; [done|]). by apply list.Forall_nil.
  - repeat (apply list.Forall_cons; split; [done|]). by apply list.Forall_nil.
  - unfold execution_ok. cbn [map fst]. apply list.Forall_singleton. split; [by left|].
    repeat (apply list.Forall_cons; split; [eapply div_check_ok; [lia| |reflexivity]; lia|]). by apply list.Forall_nil.
  - apply list.Forall_singleton. split; cbn [fst snd].
    + intros c Hc _. unfold div_checks in Hc. set_unfold in Hc. destruct Hc as [-> | [-> | []]];
        [exists (ALoad 4096 4 false false)|exists (ALoad 4100 4 false false)]; (split; [|done]); in_list.
    + intros i x Hx Hk. unfold div_accesses in Hx. set_unfold in Hx.
      destruct Hx as [[= -> ->] | [[= -> ->] | [[= -> ->] | []]]]; [done|..]; (split; [cbn; lia|]);
        [exists (div_check 1)|exists (div_check 3)]; (split; [in_list|done]).
  - cbn [shadows_match visit_match div_accesses]. split_and!; try done; intros s [= <-]; vm_compute; reflexivity.
  - cbn [accesses_of map concat app snd div_accesses].
    rewrite !list.Forall_cons, list.Forall_nil. cbn [access_ok]. unfold buffer_ok.
    split_and!; (lia || done || (apply app1_buffer; cbn; lia)).
Qed.

Lemma div_deferral :
  deferral_ok demo_first div_fn 1 (fun _ => []) no_loops (fun _ _ => false) div_insts div_users div_load_of
    div_checks [div_visit].
Proof.
  split.
  - intros b s Hs. by apply not_elem_of_nil in Hs.
  - intros S LBB B HS. done.
  - intros [|[|V]] U HU; cbn in HU; set_unfold in HU; cbn; lia.
  - split.
    + intros v Hv. set_unfold in Hv. destruct Hv as [-> | []]. by left.
    + intros l1 a b l2 E. by destruct l1 as [|? [|? ?]].
    + intros l v E. left. split; [|done]. destruct l as [|? [|? ?]]; [by injection E as <-|done..].
  - apply list.Forall_cons. split; [|apply list.Forall_singleton]; intros Load U _ E Es;
      vm_compute in E; injection E as <-; vm_compute in Es; [done|]. injection Es as <-.
    split_and!; try (cbn; lia); try done. by eexists _, _.
  - assert (map (remap_check div_fn (fun _ => []) (getLoopFor no_loops) (fun _ _ => false) div_insts div_users
      false div_load_of) div_checks = [div_check 1; mkCheck (div_slot (mkLoc 0 3)) (mkLoc 0 5) false]) as ->
      by reflexivity.
    apply list.Forall_singleton. split; [by left|].
    apply list.Forall_cons. split; [|apply list.Forall_singleton].
    + apply (div_check_ok _ 1 1); (lia || done).
    + apply (div_check_ok _ 5 3); (lia || done).
Qed.


Lemma stack_example :
  poison_points (collect_stack true true [IAlloca 0; IAlloca 1; ILifetimeStart 5 (Some 1%nat)])
  = [AtLifetimeStart 5 1; AtAlloca 0].
Proof. reflexivity. Qed.
