(* ===== verification/Arrays.v ===== *)
(** * Arrays: sorting and searching in sanitizer_common

    The array algorithms of [sanitizer_common.h] (heap sort, lower bound, sort and
    remove duplicates) and the loops on arrays its clients share.  An array is a
    function from indices; its length is passed along, as the code does.

    [Sort] is shown to sort, for any comparison that is a strict weak order:
    the result is a permutation, in order. *)

From S2P Require Import Prelude Common.

(** ** Definitions *)

Definition upd {A} (f : Z -> A) (i : Z) (v : A) : Z -> A := fun j => if j =? i then v else f j.

Definition Swap {A} (v : Z -> A) (i j : Z) : Z -> A := upd (upd v i (v j)) j (v i).

(** [for (uptr i = 0; i < n; i++) dst[dst_off + i] = src[src_off + i];] *)
Definition copy_array {A} (dst : Z -> A) (dst_off : Z) (src : Z -> A) (src_off n : Z) : Z -> A :=
  fold_left (fun d i => upd d (dst_off + i) (src (src_off + i))) (zrange n) dst.

Section sort.
Context {A : Type} (comp : A -> A -> bool).

(** Stage 1: the inner loop, from [j] up to the root. *)
Fixpoint sift_up (fuel : nat) (v : Z -> A) (j : Z) : Z -> A :=
  match fuel with
  | O => v
  | S fuel =>
      if 0 <? j then
        let p := (j - 1) / 2 in
        if comp (v p) (v j) then sift_up fuel (Swap v j p) p else v
      else v
  end.

(** Stage 2: the inner loop, from [j] down, in the heap of the first [i] elements. *)
Fixpoint sink (fuel : nat) (v : Z -> A) (i j : Z) : Z -> A :=
  match fuel with
  | O => v
  | S fuel =>
      if j <? i then
        let left := 2 * j + 1 in
        let right := 2 * j + 2 in
        let max_ind := j in
        let max_ind := if (left <? i) && comp (v max_ind) (v left) then left else max_ind in
        let max_ind := if (right <? i) && comp (v max_ind) (v right) then right else max_ind in
        if negb (max_ind =? j) then sink fuel (Swap v j max_ind) i max_ind else v
      else v
  end.

(** The outer loops: [i] from 1 up, and from [n] down to 1.  An index moves at each
    iteration of an inner loop, so [i] iterations are enough. *)
Definition heapify (v : Z -> A) (size : Z) : Z -> A :=
  fold_left (fun v i => sift_up (Z.to_nat i) v i) (map (Z.add 1) (zrange (size - 1))) v.

Fixpoint extract (n : nat) (v : Z -> A) : Z -> A :=
  match n with
  | O => v
  | S m => let i := Z.of_nat n in extract m (sink (Z.to_nat i) (Swap v 0 i) i 0)
  end.

Definition Sort (v : Z -> A) (size : Z) : Z -> A :=
  if size <? 2 then v else extract (Z.to_nat (size - 1)) (heapify v size).

Context {B : Type} (comp2 : A -> B -> bool).

Fixpoint lower_bound_loop (fuel : nat) (v : Z -> A) (val : B) (first last : Z) : Z :=
  match fuel with
  | O => first
  | S fuel =>
      if first <? last then
        let mid := (first + last) / 2 in
        if comp2 (v mid) val then lower_bound_loop fuel v val (mid + 1) last
        else lower_bound_loop fuel v val first mid
      else first
  end.

(** The interval shrinks at each iteration. *)
Definition InternalLowerBound (v : Z -> A) (size : Z) (val : B) : Z :=
  lower_bound_loop (Z.to_nat size) v val 0 size.

(** The loop of [SortAndDedup]: the array and [last]. *)
Fixpoint dedup_loop (is_ : list Z) (v : Z -> A) (last : Z) : outcome ((Z -> A) * Z) :=
  match is_ with
  | [] => mret (v, last)
  | i :: is_ =>
      if comp (v last) (v i) then
        let last := last + 1 in
        dedup_loop is_ (if negb (last =? i) then upd v last (v i) else v) last
      else
        _ ← check (negb (comp (v i) (v last))) "CHECK"; dedup_loop is_ v last
  end.

(** The array and its new size. *)
Definition SortAndDedup (v : Z -> A) (size : Z) : outcome ((Z -> A) * Z) :=
  let v := Sort v size in
  if size <? 2 then mret (v, size) else
  res ← dedup_loop (map (Z.add 1) (zrange (size - 1))) v 0;
  let '(v, last) := res : (Z -> A) * Z in
  mret (v, last + 1).
End sort.

Example sort5 : map (Sort Z.ltb (fun i => nth (Z.to_nat i) [5; 1; 4; 1; 3] 0) 5) (zrange 5) = [1; 1; 3; 4; 5].
Proof. reflexivity. Qed.

(** ** Lemmas *)

Lemma upd_same {A} (f : Z -> A) i v : upd f i v i = v.
Proof. unfold upd. by rewrite Z.eqb_refl. Qed.

Lemma upd_other {A} (f : Z -> A) i j v : j <> i -> upd f i v j = f j.
Proof. intros Hne. unfold upd. by rewrite (proj2 (Z.eqb_neq j i)). Qed.

Lemma Swap_spec {A} (v : Z -> A) i j k : Swap v i j k = if k =? j then v i else if k =? i then v j else v k.
Proof. reflexivity. Qed.

Lemma copy_array_spec {A} (dst : Z -> A) doff src soff n j :
  0 <= n -> copy_array dst doff src soff n j =
  if (doff <=? j) && (j <? doff + n) then src (soff + (j - doff)) else dst j.
Proof.
  intros Hn. unfold copy_array, zrange.
  assert (forall m : nat, fold_left (fun d i => upd d (doff + i) (src (soff + i))) (map Z.of_nat (seq 0 m)) dst j
    = if (doff <=? j) && (j <? doff + Z.of_nat m) then src (soff + (j - doff)) else dst j) as Hind.
  { induction m as [|m IH].
    - cbn [seq map fold_left]. zcase; try done; lia.
    - rewrite seq_S, map_app, fold_left_app. cbn [map fold_left]. rewrite Nat.add_0_l. unfold upd at 1. rewrite IH.
      zcase; try done; try lia. f_equal. lia. }
  rewrite Hind, Z2Nat.id by done. done.
Qed.

(** [v'] has the elements of [v] between [off] and [off + n] in another order. *)
Definition permutes {A} (off n : Z) (v v' : Z -> A) : Prop :=
  exists p q : Z -> Z, (forall j, v' j = v (p j)) /\
    (forall j, p (q j) = j) /\ (forall j, q (p j) = j) /\
    (forall j, off <= j < off + n -> off <= p j < off + n) /\
    (forall j, off <= j < off + n -> off <= q j < off + n) /\
    forall j, ~ off <= j < off + n -> p j = j.

Lemma permutes_refl {A} off n (v : Z -> A) : permutes off n v v.
Proof. exists (fun j => j), (fun j => j). by split_and!. Qed.

Lemma permutes_trans {A} off n (v v' v'' : Z -> A) :
  permutes off n v v' -> permutes off n v' v'' -> permutes off n v v''.
Proof.
  intros (p & q & Hp & Hpq & Hqp & Hin & Hiq & Hout) (p' & q' & Hp' & Hpq' & Hqp' & Hin' & Hiq' & Hout').
  exists (fun j => p (p' j)), (fun j => q' (q j)). split_and!.
  - intros j. by rewrite Hp', Hp.
  - intros j. by rewrite Hpq', Hpq.
  - intros j. by rewrite Hqp, Hqp'.
  - intros j Hj. by apply Hin, Hin'.
  - intros j Hj. by apply Hiq', Hiq.
  - intros j Hj. rewrite Hout' by done. by apply Hout.
Qed.

Lemma permutes_weaken {A} off n off' n' (v v' : Z -> A) :
  off' <= off -> off + n <= off' + n' -> permutes off n v v' -> permutes off' n' v v'.
Proof.
  intros H1 H2 (p & q & Hv & Hpq & Hqp & Hin & Hiq & Hout).
  exists p, q. split_and!; try done; intros j Hj.
  - destruct (decide (off <= j < off + n)) as [Hi|Hi]; [apply Hin in Hi; lia|by rewrite Hout].
  - destruct (decide (off <= j < off + n)) as [Hi|Hi]; [apply Hiq in Hi; lia|].
    by rewrite <- (Hout j Hi), Hqp.
  - apply Hout. lia.
Qed.

Lemma Swap_permutes {A} off n (v : Z -> A) i j :
  off <= i < off + n -> off <= j < off + n -> permutes off n v (Swap v i j).
Proof.
  intros Hi Hj. set (p := fun k => if k =? j then i else if k =? i then j else k).
  exists p, p. unfold p. split_and!; intros k;
    [rewrite Swap_spec; zcase; done|..]; destruct (Z.eqb_spec k j), (Z.eqb_spec k i); zcase; lia.
Qed.

(** *** Heap sort *)

Section heap.
Context {A : Type} (comp : A -> A -> bool).

(** [comp] is a strict weak order: "not above" is total and transitive. *)
Class StrictWeakOrder : Prop := {
  swo_asym a b : comp a b = true -> comp b a = false;
  swo_trans a b c : comp b a = false -> comp c b = false -> comp c a = false
}.
Context `{!StrictWeakOrder}.

Definition le (a b : A) : Prop := comp b a = false.

Lemma le_refl a : le a a.
Proof. unfold le. destruct (comp a a) eqn:E; [|done]. by rewrite (swo_asym _ _ E) in E. Qed.

Lemma le_trans a b c : le a b -> le b c -> le a c.
Proof. apply swo_trans. Qed.

Lemma comp_le a b : comp a b = true -> le a b.
Proof. apply swo_asym. Qed.

Definition parent (k : Z) : Z := (k - 1) / 2.

Lemma parent_child k j : 0 < k -> parent k = j <-> k = 2 * j + 1 \/ k = 2 * j + 2.
Proof. intros Hk. unfold parent. pose proof (Z.div_mod (k - 1) 2). pose proof (Z.mod_pos_bound (k - 1) 2). lia. Qed.

Lemma parent_range k : 0 < k -> 0 <= parent k < k.
Proof. intros Hk. unfold parent. pose proof (Z.div_mod (k - 1) 2). pose proof (Z.mod_pos_bound (k - 1) 2). lia. Qed.

Definition heap (v : Z -> A) (n : Z) : Prop := forall k, 0 < k < n -> le (v k) (v (parent k)).

(** A heap but for the element at [j], which may be above its parent. *)
Definition heap_but_up (v : Z -> A) (n j : Z) : Prop :=
  (forall k, 0 < k < n -> k <> j -> le (v k) (v (parent k))) /\
  (forall k, 0 < k < n -> parent k = j -> 0 < j -> le (v k) (v (parent j))).

Lemma sift_up_heap fuel v n j :
  (Z.to_nat j <= fuel)%nat -> 0 <= j < n -> heap_but_up v n j ->
  heap (sift_up comp fuel v j) n /\ permutes 0 n v (sift_up comp fuel v j).
Proof.
  revert v j. induction fuel as [|fuel IH]; intros v j Hf Hj [H1 H2]; cbn [sift_up].
  - assert (j = 0) by lia. split; [intros k Hk; apply H1; lia|apply permutes_refl].
  - destruct (Z.ltb_spec 0 j) as [Hpos|]; [|split; [intros k Hk; apply H1; lia|apply permutes_refl]].
    fold (parent j). pose proof (parent_range j Hpos) as Hp. cbv zeta.
    destruct (comp (v (parent j)) (v j)) eqn:Hc.
    2:{ split; [|apply permutes_refl]. intros k Hk. destruct (Z.eq_dec k j) as [->|]; [exact Hc|by apply H1]. }
    apply comp_le in Hc. set (p := parent j) in *.
    destruct (IH (Swap v j p) p) as [Hh Hperm]; [lia|lia| |].
    + split.
      * intros k Hk Hkp. pose proof (parent_range k ltac:(lia)) as Hpk. rewrite !Swap_spec.
        rewrite (proj2 (Z.eqb_neq k p) Hkp). destruct (Z.eqb_spec k j) as [->|Hkj].
        { fold p. rewrite Z.eqb_refl. exact Hc. }
        destruct (Z.eqb_spec (parent k) p) as [Epk|Hpp].
        { apply (le_trans _ (v p)); [|exact Hc]. rewrite <- Epk. by apply H1. }
        destruct (Z.eqb_spec (parent k) j) as [Epj|]; [by apply H2|by apply H1].
      * intros k Hk Epk Hp0. pose proof (parent_range p Hp0) as Hpp. rewrite !Swap_spec.
        rewrite (proj2 (Z.eqb_neq (parent p) p)), (proj2 (Z.eqb_neq (parent p) j)) by lia.
        pose proof (parent_range k ltac:(lia)).
        rewrite (proj2 (Z.eqb_neq k p)) by lia. destruct (Z.eqb_spec k j) as [->|Hkj]; [apply H1; lia|].
        apply (le_trans _ (v p)); [rewrite <- Epk; by apply H1|apply H1; lia].
    + split; [exact Hh|]. eapply permutes_trans; [|exact Hperm]. apply Swap_permutes; lia.
Qed.

(** A heap but for the element at [j], which may be below its children. *)
Definition heap_but_down (v : Z -> A) (n j : Z) : Prop :=
  (forall k, 0 < k < n -> parent k <> j -> le (v k) (v (parent k))) /\
  (forall k, 0 < k < n -> parent k = j -> 0 < j -> le (v k) (v (parent j))).

(** The index the loop of the sink picks: the element and its children are not
    above the one there. *)
Definition pick (v : Z -> A) (i j : Z) : Z :=
  let m := if (2 * j + 1 <? i) && comp (v j) (v (2 * j + 1)) then 2 * j + 1 else j in
  if (2 * j + 2 <? i) && comp (v m) (v (2 * j + 2)) then 2 * j + 2 else m.

Lemma pick_spec v i j :
  0 <= j < i -> let m := pick v i j in
  (m = j \/ (0 < m < i /\ parent m = j)) /\ le (v j) (v m) /\
  forall k, 0 < k < i -> parent k = j -> le (v k) (v m).
Proof.
  intros Hj. unfold pick. cbv zeta.
  set (m1 := if (2 * j + 1 <? i) && comp (v j) (v (2 * j + 1)) then 2 * j + 1 else j).
  assert ((m1 = j \/ m1 = 2 * j + 1 /\ 2 * j + 1 < i) /\ le (v j) (v m1) /\
    (2 * j + 1 < i -> le (v (2 * j + 1)) (v m1))) as (Hm1 & Hj1 & Hl1).
  { unfold m1. destruct (Z.ltb_spec (2 * j + 1) i); cbn [andb];
      [|split; [by left|]; split; [apply le_refl|lia]].
    destruct (comp (v j) (v (2 * j + 1))) eqn:Hc; [apply comp_le in Hc; split; [by right|]; split; [done|]; intros _; apply le_refl|].
    split; [by left|]. split; [apply le_refl|]. by intros _. }
  clearbody m1.
  assert (forall k, 0 < k < i -> parent k = j -> k = 2 * j + 1 \/ k = 2 * j + 2) as Hch
    by (intros k Hk E; apply parent_child in E; lia).
  destruct (Z.ltb_spec (2 * j + 2) i) as [Hr|Hr]; cbn [andb].
  - destruct (comp (v m1) (v (2 * j + 2))) eqn:Hc.
    + apply comp_le in Hc. split; [right; split; [lia|]; apply parent_child; lia|].
      split; [by eapply le_trans|]. intros k Hk E. destruct (Hch k Hk E) as [->| ->]; [|apply le_refl].
      eapply le_trans; [apply Hl1; lia|exact Hc].
    + split; [destruct Hm1 as [->|[-> ?]]; [by left|right; split; [lia|]; apply parent_child; lia]|].
      split; [exact Hj1|]. intros k Hk E. destruct (Hch k Hk E) as [->| ->]; [apply Hl1; lia|exact Hc].
  - split; [destruct Hm1 as [->|[-> ?]]; [by left|right; split; [lia|]; apply parent_child; lia]|].
    split; [exact Hj1|]. intros k Hk E. destruct (Hch k Hk E) as [->| ->]; [apply Hl1; lia|lia].
Qed.

Lemma sink_heap fuel v i j :
  (Z.to_nat (i - j) <= fuel)%nat -> 0 <= j < i -> heap_but_down v i j ->
  heap (sink comp fuel v i j) i /\ permutes 0 i v (sink comp fuel v i j).
Proof.
  revert v j. induction fuel as [|fuel IH]; intros v j Hf Hj [H1 H2]; [lia|]. cbn [sink].
  rewrite (proj2 (Z.ltb_lt j i)) by lia. cbv zeta. fold (pick v i j).
  destruct (pick_spec v i j Hj) as (Hm & Hjm & Hk). set (m := pick v i j) in *.
  destruct (Z.eqb_spec m j) as [Emj|Hne]; cbn [negb].
  - split; [|apply permutes_refl]. intros k Hki. destruct (Z.eq_dec (parent k) j) as [E|]; [|by apply H1].
    rewrite E, <- Emj. by apply Hk.
  - destruct Hm as [|[Hmi Epm]]; [done|].
    pose proof (parent_range m ltac:(lia)) as Hpm. rewrite Epm in Hpm.
    destruct (IH (Swap v j m) m) as [Hh Hperm]; [lia|lia| |].
    + split.
      * intros k Hki Hkm. pose proof (parent_range k ltac:(lia)) as Hpk. rewrite !Swap_spec.
        rewrite (proj2 (Z.eqb_neq (parent k) m) Hkm). destruct (Z.eqb_spec k m) as [->|Hk1].
        { rewrite Epm, Z.eqb_refl. exact Hjm. }
        destruct (Z.eqb_spec (parent k) j) as [Ej|Hpj].
        { rewrite (proj2 (Z.eqb_neq k j)) by lia. by apply Hk. }
        destruct (Z.eqb_spec k j) as [->|Hkj]; [apply H2; [lia|done|lia]|by apply H1].
      * intros k Hki Epk Hm0. pose proof (parent_range k ltac:(lia)) as Hpk. rewrite !Swap_spec, Epm.
        rewrite (proj2 (Z.eqb_neq j m)), Z.eqb_refl by lia.
        rewrite (proj2 (Z.eqb_neq k m)), (proj2 (Z.eqb_neq k j)) by lia. rewrite <- Epk. apply H1; lia.
    + split; [exact Hh|]. eapply permutes_trans; [|exact Hperm]. apply Swap_permutes; lia.
Qed.

Lemma heapify_heap v size :
  2 <= size -> heap (heapify comp v size) size /\ permutes 0 size v (heapify comp v size).
Proof.
  intros Hs. unfold heapify, zrange.
  assert (forall m : nat, Z.of_nat m < size ->
    let v' := fold_left (fun v i => sift_up comp (Z.to_nat i) v i) (map (Z.add 1) (map Z.of_nat (seq 0 m))) v in
    heap v' (Z.of_nat m + 1) /\ permutes 0 size v v') as Hind.
  { induction m as [|m IH]; intros Hm; cbv zeta in *.
    - split; [intros k Hk; lia|apply permutes_refl].
    - rewrite seq_S, !map_app, fold_left_app. cbn [map fold_left]. rewrite Nat.add_0_l.
      destruct IH as [Hh Hp]; [lia|].
      set (v' := fold_left _ _ v) in *. clearbody v'.
      replace (1 + Z.of_nat m) with (Z.of_nat m + 1) by lia.
      destruct (sift_up_heap (Z.to_nat (Z.of_nat m + 1)) v' (Z.of_nat m + 2) (Z.of_nat m + 1)) as [Hh' Hp']; [done|lia| |].
      + split; intros k Hk; [intros Hne; apply Hh; lia|]. intros E. apply parent_child in E; lia.
      + split; [by replace (Z.of_nat (S m) + 1) with (Z.of_nat m + 2) by lia|].
        eapply permutes_trans; [exact Hp|]. eapply permutes_weaken; [| |exact Hp']; lia. }
  specialize (Hind (Z.to_nat (size - 1))). rewrite Z2Nat.id in Hind by lia.
  replace (size - 1 + 1) with size in Hind by lia. apply Hind. lia.
Qed.

Lemma heap_root v n k : heap v n -> 0 <= k < n -> le (v k) (v 0).
Proof.
  intros Hh [H0 Hn]. revert Hn. revert k H0. refine (Zlt_lower_bound_ind _ 0 _). intros k IH H0 Hn.
  destruct (Z.eq_dec k 0) as [->|Hk]; [apply le_refl|].
  pose proof (parent_range k ltac:(lia)). eapply le_trans; [apply Hh; lia|]. apply IH; lia.
Qed.

(** The stage that extracts: the first [n + 1] elements are a heap, the rest is in
    order and not below them. *)
Lemma extract_sorts n v size :
  Z.of_nat n < size -> heap v (Z.of_nat n + 1) ->
  (forall k j, 0 <= k <= Z.of_nat n -> Z.of_nat n < j < size -> le (v k) (v j)) ->
  (forall k j, Z.of_nat n < k -> k <= j < size -> le (v k) (v j)) ->
  (forall k j, 0 <= k -> k <= j < size -> le (extract comp n v k) (extract comp n v j)) /\
  permutes 0 size v (extract comp n v).
Proof.
  revert v. induction n as [|n IH]; intros v Hn Hh Hlow Hhigh.
  - cbn [extract]. split; [|apply permutes_refl]. intros k j Hk Hj.
    destruct (Z.eq_dec k 0) as [->|]; [|apply Hhigh; lia].
    destruct (Z.eq_dec j 0) as [->|]; [apply le_refl|apply Hlow; lia].
  - cbn [extract]. set (i := Z.of_nat (S n)) in *.
    assert (heap_but_down (Swap v 0 i) i 0) as Hd.
    { split; [|lia]. intros k Hk Hp. pose proof (parent_range k ltac:(lia)). rewrite !Swap_spec.
      zcase; try lia. apply Hh. lia. }
    destruct (sink_heap (Z.to_nat i) _ i 0 ltac:(lia) ltac:(lia) Hd) as [Hh' Hp'].
    set (v2 := sink comp _ _ i 0) in *. clearbody v2.
    assert (forall k, 0 <= k < i -> exists k', 0 <= k' <= i /\ v2 k = v k') as Hin.
    { destruct Hp' as (p & q & Hv & _ & _ & Hi & _). intros k Hk. specialize (Hi k Hk).
      rewrite Hv, Swap_spec. zcase; eexists; (split; [|done]); lia. }
    assert (forall k, i <= k -> v2 k = if k =? i then v 0 else v k) as Hout.
    { destruct Hp' as (p & q & Hv & _ & _ & _ & _ & Ho). intros k Hk.
      rewrite Hv, Ho, Swap_spec by lia. zcase; try done; lia. }
    destruct (IH v2) as [Hsort Hperm].
    + lia.
    + by replace (Z.of_nat n + 1) with i by lia.
    + intros k j Hk Hj. destruct (Hin k) as (k' & Hk' & ->); [lia|]. rewrite Hout by lia.
      zcase; [by apply (heap_root v (i + 1)); [|lia]|apply Hlow; lia].
    + intros k j Hk Hj. rewrite !Hout by lia. zcase; try lia; try apply le_refl; [apply Hlow; lia|apply Hhigh; lia].
    + split; [exact Hsort|]. eapply permutes_trans; [|exact Hperm].
      eapply permutes_trans; [apply (Swap_permutes 0 size v 0 i); lia|]. eapply permutes_weaken; [| |exact Hp']; lia.
Qed.

(** [v'] is [v] in order. *)
Lemma Sort_sorts v size :
  permutes 0 size v (Sort comp v size) /\
  forall k j, 0 <= k -> k <= j < size -> le (Sort comp v size k) (Sort comp v size j).
Proof.
  unfold Sort. destruct (Z.ltb_spec size 2).
  - split; [apply permutes_refl|]. intros k j Hk Hj. assert (j = k) as -> by lia. apply le_refl.
  - destruct (heapify_heap v size) as [Hh Hp]; [done|].
    destruct (extract_sorts (Z.to_nat (size - 1)) (heapify comp v size) size) as [H1 H2]; try lia.
    + by replace (Z.of_nat (Z.to_nat (size - 1)) + 1) with size by lia.
    + split; [by eapply permutes_trans|exact H1].
Qed.

Lemma comp_trans a b c : comp a b = true -> comp b c = true -> comp a c = true.
Proof.
  intros Hab Hbc. destruct (comp a c) eqn:E; [done|].
  assert (le b a) as Hba by (eapply le_trans; [apply comp_le, Hbc|exact E]). unfold le in Hba. congruence.
Qed.

Definition strictly_increasing (v : Z -> A) (n : Z) : Prop :=
  forall k j, 0 <= k < j -> j < n -> comp (v k) (v j) = true.

(** [v] holds, on its first [n] indices, one of each of the elements of [w]. *)
Definition representatives (v : Z -> A) (n : Z) (w : Z -> A) (m : Z) : Prop :=
  (forall j, 0 <= j < n -> exists k, 0 <= k < m /\ v j = w k) /\
  (forall k, 0 <= k < m -> exists j, 0 <= j < n /\ le (v j) (w k) /\ le (w k) (v j)).

Lemma dedup_loop_spec (w : Z -> A) m : forall (i : nat) v last,
  (forall k j, 0 <= k -> k <= j < Z.of_nat (i + m) + 1 -> le (w k) (w j)) ->
  0 <= last <= Z.of_nat i -> (forall j, Z.of_nat i < j -> v j = w j) ->
  strictly_increasing v (last + 1) -> representatives v (last + 1) w (Z.of_nat i + 1) ->
  exists v' last', dedup_loop comp (map (Z.add 1) (map Z.of_nat (seq i m))) v last = Done (v', last') /\
    strictly_increasing v' (last' + 1) /\ representatives v' (last' + 1) w (Z.of_nat (i + m) + 1) /\
    0 <= last' <= Z.of_nat (i + m).
Proof.
  induction m as [|m IH]; intros i v last Hs Hl Hv Hinc [Hr1 Hr2]; cbn [seq map dedup_loop].
  { exists v, last. by replace (i + 0)%nat with i by lia. }
  replace (i + S m)%nat with (S i + m)%nat in * by lia.
  rewrite (Hv (1 + Z.of_nat i)) by lia. set (x := w (1 + Z.of_nat i)).
  assert (forall j, 0 <= j <= last -> le (v j) x) as Hbelow.
  { intros j Hj. destruct (Hr1 j) as (k & Hk & ->); [lia|]. apply Hs; lia. }
  destruct (comp (v last) x) eqn:Hc.
  - set (v1 := if negb (last + 1 =? 1 + Z.of_nat i) then upd v (last + 1) x else v).
    assert (v1 (last + 1) = x /\ forall j, j <> last + 1 -> v1 j = v j) as [H1 H2].
    { unfold v1. destruct (Z.eqb_spec (last + 1) (1 + Z.of_nat i)) as [E|]; cbn [negb].
      - split; [|done]. rewrite E. apply Hv. lia.
      - split; [apply upd_same|]. intros j Hj. by apply upd_other. }
    clearbody v1. apply IH; [done|lia| | |split].
    + intros j Hj. rewrite H2 by lia. apply Hv. lia.
    + intros k j Hk Hj. rewrite (H2 k) by lia. destruct (Z.eq_dec j (last + 1)) as [->|].
      * rewrite H1. destruct (Z.eq_dec k last) as [->|]; [done|].
        eapply comp_trans; [|exact Hc]. apply Hinc; lia.
      * rewrite H2 by done. apply Hinc; lia.
    + intros j Hj. destruct (Z.eq_dec j (last + 1)) as [->|].
      * rewrite H1. exists (1 + Z.of_nat i). split; [lia|done].
      * rewrite H2 by done. destruct (Hr1 j) as (k & Hk & ->); [lia|]. exists k. split; [lia|done].
    + intros k Hk. destruct (Z.eq_dec k (1 + Z.of_nat i)) as [->|].
      * exists (last + 1). rewrite H1. split; [lia|]. split; apply le_refl.
      * destruct (Hr2 k) as (j & Hj & Hle); [lia|]. exists j. rewrite H2 by lia. split; [lia|done].
  - assert (comp x (v last) = false) as -> by (apply (Hbelow last); lia). cbn [negb check].
    apply IH; [done|lia| |done|split].
    + intros j Hj. apply Hv. lia.
    + intros j Hj. destruct (Hr1 j) as (k & Hk & ->); [lia|]. exists k. split; [lia|done].
    + intros k Hk. destruct (Z.eq_dec k (1 + Z.of_nat i)) as [->|].
      * exists last. split; [lia|]. split; [apply Hbelow; lia|exact Hc].
      * apply Hr2. lia.
Qed.

Lemma representatives_permutes v n w m w' :
  representatives v n w m -> permutes 0 m w' w -> representatives v n w' m.
Proof.
  intros [H1 H2] (p & q & Hv & Hpq & Hqp & Hin & Hiq & Hout). split.
  - intros j Hj. destruct (H1 j Hj) as (k & Hk & ->). exists (p k). split; [apply Hin; lia|apply Hv].
  - intros k Hk. destruct (H2 (q k)) as (j & Hj & Hle); [apply Hiq; lia|].
    rewrite Hv, Hpq in Hle. by exists j.
Qed.

(** sorting.  [Sort] leaves the elements of the array in order, each once and
    nothing outside touched; [SortAndDedup] never dies and answers an array that
    is strictly increasing and has one of each of the elements. *)
Theorem Sort_correct v size :
  permutes 0 size v (Sort comp v size) /\
  (forall k j, 0 <= k -> k <= j < size -> comp (Sort comp v size j) (Sort comp v size k) = false) /\
  (0 <= size -> exists v' n, SortAndDedup comp v size = Done (v', n) /\
    strictly_increasing v' n /\ representatives v' n v size /\ n <= size).
Proof.
  destruct (Sort_sorts v size) as [Hp Hs]. split; [exact Hp|]. split; [exact Hs|]. intros H0.
  unfold SortAndDedup. destruct (Z.ltb_spec size 2) as [H2|H2].
  - do 2 eexists. split; [reflexivity|]. split; [intros k j Hk Hj; lia|]. split; [|lia].
    apply (representatives_permutes _ _ (Sort comp v size)); [|done].
    split; intros j Hj; exists j; [done|split; [lia|]; split; apply le_refl].
  - unfold zrange.
    destruct (dedup_loop_spec (Sort comp v size) (Z.to_nat (size - 1)) 0 (Sort comp v size) 0)
      as (v' & last & -> & Hinc & Hr & Hl).
    + intros k j Hk Hj. apply Hs; lia.
    + done.
    + done.
    + intros k j Hk Hj. lia.
    + split; intros j Hj; exists j; [done|split; [lia|]; split; apply le_refl].
    + exists v', (last + 1). split; [done|]. split; [done|]. split; [|lia].
      replace (Z.of_nat (0 + Z.to_nat (size - 1)) + 1) with size in Hr by lia.
      by eapply representatives_permutes.
Qed.
End heap.

#[export] Instance ltb_strict : StrictWeakOrder Z.ltb.
Proof. split; intros *; rewrite ?Z.ltb_lt, ?Z.ltb_ge; lia. Qed.

Lemma Sort_correct_witness :
  exists v' n, SortAndDedup Z.ltb (fun i => 7 - i) 5 = Done (v', n) /\ strictly_increasing Z.ltb v' n /\
    representatives Z.ltb v' n (fun i => 7 - i) 5 /\ n <= 5.
Proof. apply (proj2 (proj2 (Sort_correct Z.ltb (fun i => 7 - i) 5))). lia. Defined.

(** *** Binary search *)

(** the lower bound.  On an array where the elements below [val] come first, the
    index of the first element that is not, or the size of the array. *)
Theorem InternalLowerBound_correct {A B} (comp2 : A -> B -> bool) (v : Z -> A) size val :
  0 <= size ->
  (forall i j, 0 <= i -> i <= j < size -> comp2 (v j) val = true -> comp2 (v i) val = true) ->
  let r := InternalLowerBound comp2 v size val in
  0 <= r <= size /\ (forall i, 0 <= i < r -> comp2 (v i) val = true) /\
  forall i, r <= i < size -> comp2 (v i) val = false.
Proof.
  intros H0 Hpart. cbv zeta. unfold InternalLowerBound.
  assert (forall fuel first last, 0 <= first <= last -> last <= size -> last - first <= Z.of_nat fuel ->
    (forall i, 0 <= i < first -> comp2 (v i) val = true) ->
    (forall i, last <= i < size -> comp2 (v i) val = false) ->
    let r := lower_bound_loop comp2 fuel v val first last in
    0 <= r <= size /\ (forall i, 0 <= i < r -> comp2 (v i) val = true) /\
    forall i, r <= i < size -> comp2 (v i) val = false) as Hloop.
  { induction fuel as [|fuel IH]; intros first last Hf Hl Hfu Hlo Hhi; cbv zeta in *; cbn [lower_bound_loop].
    - split; [lia|]. split; [done|]. intros i Hi. apply Hhi. lia.
    - destruct (Z.ltb_spec first last); [|split; [lia|]; split; [done|]; intros i Hi; apply Hhi; lia].
      pose proof (Z.div_mod (first + last) 2). pose proof (Z.mod_pos_bound (first + last) 2).
      set (mid := (first + last) / 2) in *. destruct (comp2 (v mid) val) eqn:Hc.
      + apply IH; try lia; [|done]. intros i Hi. apply (Hpart i mid); [lia|lia|done].
      + apply IH; try lia; [done|]. intros i Hi. destruct (comp2 (v i) val) eqn:Hci; [|done].
        rewrite (Hpart mid i) in Hc; [done|lia|lia|done]. }
  apply Hloop; lia.
Qed.

Lemma InternalLowerBound_correct_witness :
  let r := InternalLowerBound Z.ltb (fun i => 3 * i) 6 8 in
  0 <= r <= 6 /\ (forall i, 0 <= i < r -> (3 * i <? 8) = true) /\ forall i, r <= i < 6 -> (3 * i <? 8) = false.
Proof. apply (InternalLowerBound_correct Z.ltb (fun i => 3 * i) 6 8); [lia|]. intros i j Hi Hj. rewrite !Z.ltb_lt. lia. Defined.
