(* ===== verification/MmapVector.v ===== *)
(** * MmapVector: the runtime's growing array

    [InternalMmapVectorNoCtor] and [InternalMmapVector] of
    src/rt/sanitizer_common/sanitizer_common.h: an array in memory mapped from the system,
    which grows by mapping a larger one.  The mapped elements are a list, of the length of
    the capacity; a fresh mapping is zero.  [MmapOrDie] stops the process when the system
    refuses, here it succeeds.

    The array refines the list of its first [size_] elements, and pushing reallocates a
    number of times that is logarithmic in the size. *)

From S2P Require Import Prelude Common.

(** The element type: its size, the element of zero bytes; and the page size. *)
Class VectorParams (T : Type) := { sizeof_T : Z; zero_T : T; vector_page_log : Z }.

Class VectorOk {T} (P : VectorParams T) : Prop := {
  sizeof_pos : 1 <= sizeof_T <= 2 ^ 12;
  vector_page : 12 <= vector_page_log <= 30
}.

Section vector.
Context {T : Type} `{!VectorParams T}.

(** ** Definitions *)

Record vector := mkVector { data_ : list T; capacity_bytes_ : Z; size_ : Z }.

Definition capacity (v : vector) : Z := capacity_bytes_ v / sizeof_T.

Definition Realloc (v : vector) (new_capacity : Z) : outcome vector :=
  _ ← check (0 <? new_capacity) "new_capacity > 0";
  _ ← check (size_ v <=? new_capacity) "size_ <= new_capacity";
  new_capacity_bytes ← RoundUpTo (u64 (new_capacity * sizeof_T)) (2 ^ vector_page_log);
  mret (mkVector (firstn (Z.to_nat (size_ v)) (data_ v) ++ repeat zero_T (Z.to_nat (new_capacity_bytes / sizeof_T - size_ v)))
          new_capacity_bytes (size_ v)).

Definition reserve (v : vector) (new_size : Z) : outcome vector :=
  if capacity v <? new_size then Realloc v new_size else mret v.

Definition resize (v : vector) (new_size : Z) : outcome vector :=
  if size_ v <? new_size then
    v ← reserve v new_size;
    let from := Z.to_nat (size_ v) in
    let n := (Z.to_nat new_size - from)%nat in
    mret (mkVector (firstn from (data_ v) ++ repeat zero_T n ++ drop (from + n) (data_ v)) (capacity_bytes_ v) new_size)
  else mret (mkVector (data_ v) (capacity_bytes_ v) new_size).

Definition push_back (v : vector) (element : T) : outcome vector :=
  v ← (if capacity v <=? size_ v then
         _ ← check (size_ v =? capacity v) "size_ == capacity()";
         new_capacity ← RoundUpToPowerOfTwo (size_ v + 1);
         Realloc v new_capacity
       else mret v);
  mret (mkVector (<[Z.to_nat (size_ v) := element]> (data_ v)) (capacity_bytes_ v) (size_ v + 1)).

(** [operator[]]: reading and writing. *)
Definition at_ (v : vector) (i : Z) : outcome T :=
  _ ← check ((0 <=? i) && (i <? size_ v)) "i < size_"; mret (nth (Z.to_nat i) (data_ v) zero_T).
Definition set_at (v : vector) (i : Z) (x : T) : outcome vector :=
  _ ← check ((0 <=? i) && (i <? size_ v)) "i < size_";
  mret (mkVector (<[Z.to_nat i := x]> (data_ v)) (capacity_bytes_ v) (size_ v)).

Definition back (v : vector) : outcome T :=
  _ ← check (0 <? size_ v) "size_ > 0"; mret (nth (Z.to_nat (size_ v - 1)) (data_ v) zero_T).

Definition pop_back (v : vector) : outcome vector :=
  _ ← check (0 <? size_ v) "size_ > 0"; mret (mkVector (data_ v) (capacity_bytes_ v) (size_ v - 1)).

Definition clear (v : vector) : vector := mkVector (data_ v) (capacity_bytes_ v) 0.
Definition empty (v : vector) : bool := size_ v =? 0.
Definition swap (v other : vector) : vector * vector := (other, v).

Definition Initialize (initial_capacity : Z) : outcome vector := reserve (mkVector [] 0 0) initial_capacity.
Definition InternalMmapVector (cnt : Z) : outcome vector := v ← Initialize cnt; resize v cnt.

Definition elements (v : vector) : list T := firstn (Z.to_nat (size_ v)) (data_ v).

Context `{!VectorOk _}.
Implicit Types v : vector.

(** ** The array refines a list *)

(** Sizes stay far from 2^64 bytes. *)
Definition max_elements : Z := 2 ^ 48.

Record vector_ok v : Prop := {
  v_size : 0 <= size_ v <= capacity v;
  v_cells : Z.of_nat (length (data_ v)) = capacity v;
  v_bytes : 0 <= capacity_bytes_ v
}.

Lemma elements_length v : vector_ok v -> Z.of_nat (length (elements v)) = size_ v.
Proof. intros Hv. destruct (v_size v Hv). pose proof (v_cells v Hv). unfold elements. rewrite length_firstn. lia. Qed.

Lemma Realloc_spec v n : vector_ok v -> 0 < n <= max_elements -> size_ v <= n ->
  exists v', Realloc v n = Done v' /\ vector_ok v' /\ size_ v' = size_ v /\ elements v' = elements v /\ n <= capacity v' /\
    capacity v' < n + 2 ^ vector_page_log.
Proof.
  intros Hv Hn Hs. unfold Realloc. destruct (v_size v Hv) as [H0 Hc]. pose proof (v_cells v Hv) as Hl.
  pose proof sizeof_pos as He. pose proof vector_page as Hp.
  rewrite (proj2 (Z.ltb_lt 0 n)), (proj2 (Z.leb_le (size_ v) n)) by lia. cbn [check mbind outcome_bind].
  unfold max_elements in Hn. assert (0 < n * sizeof_T <= 2 ^ 48 * 2 ^ 12) as Hb by (split; [lia|apply Z.mul_le_mono_nonneg; lia]).
  assert (2 ^ 12 <= 2 ^ vector_page_log <= 2 ^ 30) as Hpg by (split; apply Z.pow_le_mono_r; lia).
  rewrite u64_small by lia. destruct (RoundUpTo (n * sizeof_T) (2 ^ vector_page_log)) as [b|] eqn:E;
    [|rewrite RoundUpTo_spec in E by lia; done].
  apply RoundUpTo_bounds in E as (Hr & _ & _); [|lia..]. cbn [mbind outcome_bind].
  assert (n <= b / sizeof_T) as Hcap by (apply Z.div_le_lower_bound; lia).
  eexists. split; [done|]. unfold elements, capacity. cbn [size_ data_ capacity_bytes_]. split; [split|].
  - unfold capacity. cbn. lia.
  - unfold capacity in *. cbn [data_ capacity_bytes_]. rewrite length_app, length_firstn, repeat_length. lia.
  - cbn. lia.
  - split; [done|]. split; [|split; [done|]].
    + rewrite take_app_le, firstn_firstn, Nat.min_id by (rewrite length_firstn; lia). done.
    + apply Z.div_lt_upper_bound; nia.
Qed.

Lemma vector_reserve_spec v n : vector_ok v -> n <= max_elements ->
  exists v', reserve v n = Done v' /\ vector_ok v' /\ size_ v' = size_ v /\ elements v' = elements v /\ n <= capacity v' /\
    (capacity v' = capacity v \/ (capacity v < n /\ n <= capacity v' < n + 2 ^ vector_page_log)).
Proof.
  intros Hv Hn. unfold reserve. destruct (v_size v Hv). destruct (Z.ltb_spec (capacity v) n).
  - destruct (Realloc_spec v n Hv ltac:(lia) ltac:(lia)) as (v' & E & Hok & Hs & He & Hc & Hc2). exists v'. split_and!; (done || lia).
  - exists v. split_and!; (done || lia).
Qed.

(** resizing cuts the list, or extends it by zero elements; never less room than before. *)
Theorem vector_resize_spec v n : vector_ok v -> 0 <= n <= max_elements ->
  exists v', resize v n = Done v' /\ vector_ok v' /\ size_ v' = n /\
    (capacity v' = capacity v \/ (capacity v < n /\ n <= capacity v' < n + 2 ^ vector_page_log)) /\
    elements v' = firstn (Z.to_nat n) (elements v) ++ repeat zero_T (Z.to_nat n - length (elements v)).
Proof.
  intros Hv Hn. unfold resize. destruct (v_size v Hv). pose proof (v_cells v Hv) as Hl. pose proof (elements_length v Hv) as Hel.
  destruct (Z.ltb_spec (size_ v) n) as [Hlt|Hge].
  - destruct (vector_reserve_spec v n Hv ltac:(lia)) as (v1 & -> & Hok & Hs & He & Hc & Hcc). cbn [mbind outcome_bind]. eexists. split; [done|].
    pose proof (v_cells v1 Hok) as Hl1. pose proof (v_bytes v1 Hok). unfold elements in He |- *. cbn [size_ data_]. rewrite Hs in *. unfold capacity in *. cbn [capacity_bytes_ size_ data_] in *.
    split; [split; unfold capacity; cbn [capacity_bytes_ size_ data_]; [lia| |done]|].
    + rewrite !length_app, length_firstn, repeat_length, length_drop. lia.
    + split; [done|]. split; [done|]. rewrite He, app_assoc, take_app_le by (rewrite length_app, length_firstn, repeat_length; lia).
      change (take (Z.to_nat (size_ v)) (data_ v)) with (elements v).
      rewrite (take_ge (elements v ++ _)) by (rewrite length_app, repeat_length; lia). rewrite (take_ge (elements v)) by lia. do 2 f_equal. lia.
  - eexists. split; [done|]. unfold elements in *. cbn [size_ data_]. split; [split; unfold capacity in *; cbn; try lia; apply Hv|].
    split; [done|]. split; [by left|]. rewrite firstn_firstn, Nat.min_l by lia.
    replace (Z.to_nat n - length (take (Z.to_nat (size_ v)) (data_ v)))%nat with 0%nat by lia. by rewrite app_nil_r.
Qed.

(** Pushing appends; [grew] tells whether it mapped a new array. *)
Lemma vector_push_back_spec v x : vector_ok v -> size_ v < max_elements / 2 ->
  exists v', push_back v x = Done v' /\ vector_ok v' /\ elements v' = elements v ++ [x] /\
    ((size_ v < capacity v /\ capacity v' = capacity v) \/
     (capacity v = size_ v /\ exists k, 0 <= k /\ size_ v < 2 ^ k <= 2 * size_ v + 1 /\ 2 ^ k <= capacity v')).
Proof.
  intros Hv Hs. unfold push_back. destruct (v_size v Hv) as [H0 Hc]. change (max_elements / 2) with (2 ^ 47) in Hs.
  assert (forall v1, vector_ok v1 -> size_ v1 = size_ v -> size_ v < capacity v1 ->
    vector_ok (mkVector (<[Z.to_nat (size_ v1) := x]> (data_ v1)) (capacity_bytes_ v1) (size_ v1 + 1)) /\
    elements (mkVector (<[Z.to_nat (size_ v1) := x]> (data_ v1)) (capacity_bytes_ v1) (size_ v1 + 1)) = elements v1 ++ [x]) as Hput.
  { intros v1 Hv1 E1 Hlt. pose proof (v_cells v1 Hv1) as Hl. pose proof (v_bytes v1 Hv1). split.
    - split; unfold capacity in *; cbn; [lia| |done]. by rewrite length_insert.
    - unfold elements. cbn [size_ data_]. rewrite Z2Nat.inj_add by lia. change (Z.to_nat 1) with 1%nat. rewrite Nat.add_1_r.
      rewrite (take_S_r _ _ x) by (apply list_lookup_insert_eq; lia). by rewrite take_insert_ge by lia. }
  destruct (Z.leb_spec (capacity v) (size_ v)) as [Hfull|Hroom].
  - rewrite (proj2 (Z.eqb_eq (size_ v) (capacity v))) by lia. cbn [check mbind outcome_bind].
    destruct (RoundUpToPowerOfTwo_spec (size_ v + 1) ltac:(lia)) as (k & -> & Hk & Hk2). cbn [mbind outcome_bind].
    destruct (Realloc_spec v (2 ^ k) Hv) as (v1 & -> & Hok & E1 & He & Hcap & _); [unfold max_elements; lia|lia|]. cbn [mbind outcome_bind mret outcome_ret].
    destruct (Hput v1 Hok E1 ltac:(lia)) as [Ho Hel]. eexists. split; [done|]. split; [done|]. split; [by rewrite Hel, He|]. right. split; [lia|].
    exists k. split; [lia|]. split; [lia|]. done.
  - cbn [mbind outcome_bind mret outcome_ret]. destruct (Hput v Hv eq_refl ltac:(lia)) as [Ho Hel]. eexists. split; [done|]. split; [done|]. split; [done|].
    left. by split.
Qed.

Lemma at_spec v i : vector_ok v -> 0 <= i -> at_ v i = match elements v !! Z.to_nat i with Some x => Done x | None => Died "i < size_" end.
Proof.
  intros Hv Hi. unfold at_, elements. destruct (v_size v Hv). pose proof (v_cells v Hv). rewrite (proj2 (Z.leb_le 0 i)) by lia. destruct (Z.ltb_spec i (size_ v)).
  - destruct (lookup_lt_is_Some_2 (data_ v) (Z.to_nat i) ltac:(lia)) as [x Hx]. rewrite lookup_take_lt, Hx by lia.
    cbn. by rewrite (nth_lookup_Some _ _ _ _ Hx).
  - rewrite lookup_take_ge by lia. done.
Qed.

(** *** How often it grows *)

(** Pushing elements one after the other, counting the mappings. *)
Fixpoint pushes (v : vector) (xs : list T) : outcome (vector * Z) :=
  match xs with
  | [] => mret (v, 0)
  | x :: xs =>
      v1 ← push_back v x;
      r ← pushes v1 xs;
      mret (r.1, r.2 + (if capacity v <=? size_ v then 1 else 0))
  end.

Lemma pushes_spec xs : forall v j, vector_ok v -> size_ v + Z.of_nat (length xs) <= max_elements / 2 -> 0 <= j -> 2 ^ j <= capacity v ->
  exists v' n, pushes v xs = Done (v', n) /\ vector_ok v' /\ elements v' = elements v ++ xs /\ 0 <= n /\
    (n = 0 \/ 2 ^ (j + n) <= 2 * Z.of_nat (length (elements v ++ xs))).
Proof.
  induction xs as [|x xs IH]; intros v j Hv Hlen Hj Hcap; cbn [pushes length] in *.
  - exists v, 0. rewrite app_nil_r. split_and!; try done. by left.
  - destruct (vector_push_back_spec v x Hv ltac:(lia)) as (v1 & -> & Hv1 & He & Hgrow). cbn [mbind outcome_bind].
    pose proof (elements_length v Hv) as Hl. pose proof (elements_length v1 Hv1) as Hl1. pose proof Hl1 as Hl2. rewrite He, length_app in Hl2. cbn in Hl2.
    assert (elements v ++ x :: xs = elements v1 ++ xs) as -> by (by rewrite He, <- app_assoc).
    destruct Hgrow as [[Hroom Hc]|(Hfull & k & Hk & Hk2 & Hck)].
    + destruct (IH v1 j Hv1 ltac:(lia) Hj ltac:(lia)) as (v' & n & -> & Hrest).
      cbn [mbind outcome_bind fst snd]. rewrite (proj2 (Z.leb_gt _ _)) by lia. exists v', n. by rewrite Z.add_0_r.
    + assert (j + 1 <= k) as Hjk by (assert (j < k); [apply (Z.pow_lt_mono_r_iff 2)|]; lia).
      destruct (IH v1 k Hv1 ltac:(lia) Hk Hck) as (v' & n & -> & Hok & He' & Hn & Hb).
      cbn [mbind outcome_bind fst snd]. rewrite (proj2 (Z.leb_le _ _)) by lia. exists v', (n + 1). split_and!; try done; [lia|right].
      rewrite length_app. destruct Hb as [->|Hb].
      * pose proof (Z.pow_le_mono_r 2 (j + (0 + 1)) k). lia.
      * rewrite length_app in Hb. pose proof (Z.pow_le_mono_r 2 (j + (n + 1)) (k + n)). lia.
Qed.

Lemma empty_vector_ok : vector_ok (mkVector [] 0 0).
Proof. pose proof sizeof_pos. split; unfold capacity; cbn; rewrite ?Z.div_0_l; lia. Qed.

(** an array filled by pushing holds the pushed elements in order, and has moved them
    a logarithmic number of times. *)
Theorem push_back_is_amortised xs : 0 < Z.of_nat (length xs) <= max_elements / 2 ->
  exists v n, pushes (mkVector [] 0 0) xs = Done (v, n) /\ vector_ok v /\ elements v = xs /\ 1 <= n <= 2 + Z.log2 (Z.of_nat (length xs)).
Proof.
  intros Hlen. destruct xs as [|x xs]; [cbn in Hlen; lia|]. cbn [pushes]. pose proof empty_vector_ok as Hv. pose proof sizeof_pos as He.
  destruct (vector_push_back_spec (mkVector [] 0 0) x Hv ltac:(done)) as (v1 & -> & Hv1 & Hel & Hgrow). cbn [mbind outcome_bind].
  change (elements (mkVector [] 0 0) ++ [x]) with [x] in Hel.
  assert (capacity (mkVector [] 0 0) = 0) as Hc0 by (unfold capacity; cbn; apply Z.div_0_l; lia).
  destruct Hgrow as [[? _]|(_ & k & Hk & Hk2 & Hck)]; [cbn in *; lia|]. cbn in Hk2.
  assert (k = 0) as -> by (assert (k < 1); [apply (Z.pow_lt_mono_r_iff 2)|]; lia).
  pose proof (elements_length v1 Hv1) as Hl1. rewrite Hel in Hl1. cbn in Hl1, Hlen.
  destruct (pushes_spec xs v1 0 Hv1 ltac:(lia) ltac:(lia) Hck) as (v' & n & -> & Hok & He' & Hn & Hb). cbn [mbind outcome_bind fst snd].
  rewrite Hc0. cbn [size_ Z.leb Z.compare]. exists v', (n + 1). split; [done|]. split; [done|]. rewrite He', Hel in *. split; [done|]. cbn [app] in Hb |- *.
  destruct Hb as [->|Hb]; [pose proof (Z.log2_nonneg (Z.of_nat (length (x :: xs)))); lia|].
  rewrite Z.add_0_l in Hb. assert (n <= Z.log2 (2 * Z.of_nat (length (x :: xs)))) as Hlog by (apply Z.log2_le_pow2; cbn in *; lia).
  rewrite Z.log2_double in Hlog by (cbn; lia). lia.
Qed.
End vector.

(** Words of eight bytes, and pages of 4 KiB. *)
Definition word_vector : VectorParams Z := {| sizeof_T := 8; zero_T := 0; vector_page_log := 12 |}.

Lemma word_vector_ok : VectorOk word_vector.
Proof. by split. Qed.

Lemma vector_resize_spec_witness :
  exists v', resize (VectorParams0 := word_vector) (mkVector [] 0 0) 2 = Done v' /\ elements v' = [0; 0].
Proof.
  destruct (vector_resize_spec (VectorOk0 := word_vector_ok) (mkVector [] 0 0) 2 (empty_vector_ok (VectorOk0 := word_vector_ok)) ltac:(done)) as (v' & E & _ & _ & _ & He).
  exists v'. by rewrite He.
Defined.

Lemma push_back_is_amortised_witness :
  exists v n, pushes (VectorParams0 := word_vector) (mkVector [] 0 0) [3; 1; 2] = Done (v, n) /\ elements v = [3; 1; 2].
Proof.
  destruct (push_back_is_amortised (VectorOk0 := word_vector_ok) [3; 1; 2] ltac:(done)) as (v & n & E & _ & He & _). by exists v, n.
Defined.
