(* ===== verification/Mutex.v ===== *)
(** * Mutex: the locks of the runtime

    src/rt/sanitizer_common/sanitizer_mutex.{h,cpp}: the spin lock, the reader-writer
    [Mutex] with its packed word of three counters and three flags, and the semaphores it
    blocks on.

    A call is a sequence of atomic steps of its thread, interleaved with those of the
    others in any order; a compare-and-exchange may fail spuriously.  The packed word is
    kept as the 64-bit number of the source.  A semaphore is its count: its own loop on a
    futex changes that count in the same way ([Semaphore.Wait_takes_one]) and leaves no thread
    asleep next to a positive count ([Semaphore.sleepers_are_woken]).

    [mutex_excludes] is mutual exclusion, [no_lost_wakeup] that every call can still return
    and no blocked thread is forgotten; both for any number of threads the counters have room for.

    Left out: the deadlock detector of debug builds, whose hooks are empty in others. *)

From Stdlib Require Import Zbitwise.
From S2P Require Import Prelude Common.

(** ** Counting threads *)

Definition total {A} (f : A -> Z) (l : list A) : Z := foldr (fun p acc => f p + acc) 0 l.

Section total.
Context {A : Type}.
Implicit Types (f : A -> Z) (l : list A) (p q : A).

Lemma total_insert f l i p q : l !! i = Some p -> total f (<[i := q]> l) = total f l - f p + f q.
Proof.
  revert i. induction l as [|a l IH]; intros [|i] Hi; simplify_eq/=; [lia|]. rewrite IH by done. lia.
Qed.

Lemma total_nonneg f l : (forall p, p ∈ l -> 0 <= f p) -> 0 <= total f l.
Proof.
  induction l as [|a l IH]; intros Hf; [done|]. cbn. pose proof (Hf a ltac:(set_solver)). assert (0 <= total f l) by (apply IH; set_solver). unfold total in *. lia.
Qed.

Lemma total_le f l : (forall p, f p <= 1) -> total f l <= Z.of_nat (length l).
Proof.
  intros Hf. induction l as [|a l IH]; [done|]. cbn [total foldr length]. pose proof (Hf a). unfold total in *. lia.
Qed.

Lemma total_pos f l : (forall p, p ∈ l -> 0 <= f p) -> 0 < total f l -> exists i p, l !! i = Some p /\ 0 < f p.
Proof.
  intros Hn. induction l as [|a l IH]; [done|]. cbn [total foldr]. intros Ht. destruct (Z.ltb_spec 0 (f a)).
  - by exists 0%nat, a.
  - destruct IH as (i & p & Hi & Hp); [set_solver|unfold total; lia|]. by exists (S i), p.
Qed.

Lemma total_member f l i p : (forall p, p ∈ l -> 0 <= f p) -> l !! i = Some p -> f p <= total f l.
Proof.
  revert i. induction l as [|a l IH]; intros [|i] Hn Hi; simplify_eq/=.
  - assert (0 <= total f l) by (apply total_nonneg; set_solver). unfold total in *. lia.
  - pose proof (IH i ltac:(set_solver) Hi). pose proof (Hn a ltac:(set_solver)). unfold total in *. lia.
Qed.

Lemma total_repeat f p n : f p = 0 -> total f (repeat p n) = 0.
Proof. intros E. induction n as [|n IH]; [done|]. cbn. rewrite E. unfold total in IH. lia. Qed.

Lemma total_two f l z i j p q : (forall p, 0 <= f p) -> f z = 0 -> i <> j -> l !! i = Some p -> l !! j = Some q -> f p + f q <= total f l.
Proof.
  intros Hn H0 Hij Hp Hq. pose proof (total_insert f l i p z Hp) as E. assert (<[i := z]> l !! j = Some q) as Hq' by by rewrite list_lookup_insert_ne.
  pose proof (total_member f _ j q ltac:(intros; apply Hn) Hq'). lia.
Qed.
End total.

(** ** The spin lock *)

Module SpinMutex.

(** Where a thread is: in no call, in the first exchange of [Lock] or of [TryLock], in the loop
    of [LockSlow] before its load or before its exchange, or after taking the lock. *)
Inductive spin_pc := Idle | Locking | Trying | Slow (i : Z) | Saw_free (i : Z) | Holding.

Inductive spin_thread_step : Z -> spin_pc -> Z -> spin_pc -> Prop :=
| call_Lock s : spin_thread_step s Idle s Locking
| call_TryLock s : spin_thread_step s Idle s Trying
| lock_taken : spin_thread_step 0 Locking 1 Holding
| lock_busy s : s <> 0 -> spin_thread_step s Locking 1 (Slow 0)
| try_taken : spin_thread_step 0 Trying 1 Holding
| try_fails s : s <> 0 -> spin_thread_step s Trying 1 Idle
| slow_busy s i : s <> 0 -> spin_thread_step s (Slow i) s (Slow (i + 1))
| slow_free i : spin_thread_step 0 (Slow i) 0 (Saw_free i)
| slow_taken i : spin_thread_step 0 (Saw_free i) 1 Holding
| slow_late s i : s <> 0 -> spin_thread_step s (Saw_free i) 1 (Slow (i + 1))
| unlock s : spin_thread_step s Holding 0 Idle.

Inductive spin_step : Z * list spin_pc -> Z * list spin_pc -> Prop :=
| step_thread s l i p s' p' : l !! i = Some p -> spin_thread_step s p s' p' -> spin_step (s, l) (s', <[i := p']> l).

Definition holding (p : spin_pc) : Z := match p with Holding => 1 | _ => 0 end.

(** The byte is 1 exactly when some thread holds the lock, and then only one does. *)
Lemma held_once n w : rtc spin_step (0, repeat Idle n) w -> total holding w.2 = w.1 /\ 0 <= w.1 <= 1.
Proof.
  intros Hrun. assert (total holding (repeat Idle n) = 0) as H0 by by apply total_repeat.
  remember (0, repeat Idle n) as w0 eqn:E. assert (total holding w0.2 = w0.1 /\ 0 <= w0.1 <= 1) as Hinv by (subst; cbn [fst snd]; lia). clear E H0.
  induction Hrun as [|x y z Hxy _ IH]; [done|]. apply IH. clear IH. destruct Hxy as [s l i p s' p' Hi Hs]. cbn [fst snd] in *.
  rewrite (total_insert _ _ _ _ _ Hi). pose proof (total_member holding l i p ltac:(by intros []) Hi). destruct Hs; cbn [holding] in *; lia.
Qed.

(** At most one thread holds the lock. *)
Lemma spin_excludes n w i j : rtc spin_step (0, repeat Idle n) w -> w.2 !! i = Some Holding -> w.2 !! j = Some Holding -> i = j.
Proof.
  intros Hrun Hi Hj. destruct (held_once n w Hrun) as [E Hs]. destruct (decide (i = j)) as [->|Hij]; [done|].
  pose proof (total_two holding w.2 Idle i j Holding Holding ltac:(by intros []) eq_refl Hij Hi Hj). cbn in *. lia.
Qed.
End SpinMutex.

(** ** The semaphore *)

Module Semaphore.

(** A thread of [Wait] before its load, in the loop with the count it read, asleep in the
    kernel; a thread of [Post] before the addition and before the wake-ups left. *)
Inductive sem_pc := Idle | Loading | Loop (count : Z) | Asleep | Posting (count : Z) | Waking (count : Z).

(** The step of a thread that changes the count [state_].  The futex puts a thread to sleep
    only if the count is still 0, in one step. *)
Inductive sem_thread_step : Z -> sem_pc -> Z -> sem_pc -> Prop :=
| call_Wait s : sem_thread_step s Idle s Loading
| wait_load s : sem_thread_step s Loading s (Loop s)
| wait_sleeps : sem_thread_step 0 (Loop 0) 0 Asleep
| wait_returns s : sem_thread_step s (Loop 0) s Loading
| wait_retry s count : count <> 0 -> sem_thread_step s (Loop count) s (Loop s)
| wait_takes s : s <> 0 -> sem_thread_step s (Loop s) (s - 1) Idle
| call_Post s count : 0 < count < 2 ^ 32 -> sem_thread_step s Idle s (Posting count)
| post_adds s count : sem_thread_step s (Posting count) (u32 (s + count)) (Waking count)
| post_ends s : sem_thread_step s (Waking 0) s Idle.

Inductive sem_step : Z * list sem_pc -> Z * list sem_pc -> Prop :=
| step_thread s l i p s' p' : l !! i = Some p -> sem_thread_step s p s' p' -> sem_step (s, l) (s', <[i := p']> l)
(** The kernel wakes one of the threads asleep, while there are some and the count allows. *)
| step_wakes s l i j count : l !! i = Some (Waking count) -> 0 < count -> l !! j = Some Asleep ->
    sem_step (s, l) (s, <[j := Loading]> (<[i := Waking (count - 1)]> l))
| step_nobody s l i count : l !! i = Some (Waking count) -> Asleep ∉ l -> sem_step (s, l) (s, <[i := Idle]> l)
(** A thread may wake up for no reason. *)
| step_spurious s l i : l !! i = Some Asleep -> sem_step (s, l) (s, <[i := Loading]> l).

Definition awake (p : sem_pc) : Z := match p with Loading | Loop _ => 1 | Waking count => count | _ => 0 end.
Definition sem_pc_ok (p : sem_pc) : Prop := match p with Loop count | Waking count => 0 <= count | Posting count => 0 < count | _ => True end.

Record sem_inv (s : Z) (l : list sem_pc) : Prop := {
  si_count : 0 <= s;
  si_threads : Forall sem_pc_ok l;
  (** who sleeps leaves no more than what those awake will take *)
  si_enough : Asleep ∈ l -> s <= total awake l
}.

Lemma awake_nonneg l : Forall sem_pc_ok l -> forall p, p ∈ l -> 0 <= awake p.
Proof. intros Hok p Hp. pose proof (proj1 (List.Forall_forall _ _) Hok p (proj1 (list_elem_of_In _ _) Hp)). destruct p; cbn in *; lia. Qed.

Lemma asleep_insert (l : list sem_pc) i p : p <> Asleep -> Asleep ∈ <[i := p]> l -> Asleep ∈ l.
Proof. intros Hp (k & Hk)%list_elem_of_lookup. apply list_lookup_insert_Some in Hk as [(_ & -> & _)|[_ Hk]]; [done|]. by eapply list_elem_of_lookup_2. Qed.

Lemma sem_inv_step w w' : sem_step w w' -> sem_inv w.1 w.2 -> sem_inv w'.1 w'.2.
Proof.
  assert (forall l i p, Forall sem_pc_ok l -> l !! i = Some p -> sem_pc_ok p) as Hget.
  { intros l i p Hok Hi. exact (proj1 (List.Forall_forall _ _) Hok p (proj1 (list_elem_of_In _ _) (list_elem_of_lookup_2 _ _ _ Hi))). }
  intros [s l i p s' q Hi Hs|s l i j count Hi Hc Hj|s l i count Hi Hn|s l i Hi] [H0 Hok He]; cbn [fst snd] in *;
    pose proof (Hget _ _ _ Hok Hi) as Hp; pose proof (total_member awake l i _ (awake_nonneg l Hok) Hi) as Hmem.
  - destruct Hs; cbn [awake sem_pc_ok] in *.
    8: pose proof (Z.mod_pos_bound (s + count) (2 ^ 32) ltac:(lia)); pose proof (Z.mod_le (s + count) (2 ^ 32) ltac:(lia) ltac:(lia)).
    all: split; [unfold u32; lia|apply list.Forall_insert; [done|cbn; lia || done]|].
    all: rewrite (total_insert _ _ _ _ _ Hi); cbn [awake]; try (intros Ha%asleep_insert; [specialize (He Ha); unfold u32 in *; lia|done]).
    intros _. lia.
  - assert (i <> j) as Hij by (intros ->; by rewrite Hi in Hj). assert (<[i := Waking (count - 1)]> l !! j = Some Asleep) as Hj' by by rewrite list_lookup_insert_ne.
    split; [done|apply list.Forall_insert; [apply list.Forall_insert; [done|cbn; lia]|done]|].
    intros _. rewrite (total_insert _ _ _ _ _ Hj'), (total_insert _ _ _ _ _ Hi). cbn [awake]. specialize (He (list_elem_of_lookup_2 _ _ _ Hj)). lia.
  - split; [done|by apply list.Forall_insert|]. intros Ha%asleep_insert; done.
  - split; [done|by apply list.Forall_insert|]. intros _. rewrite (total_insert _ _ _ _ _ Hi). cbn [awake]. specialize (He (list_elem_of_lookup_2 _ _ _ Hi)). lia.
Qed.

(** The count changes as the lock below takes it to: a [Wait] ends by taking one, which
    there was, and a [Post] adds its count, if there is room for it. *)
Lemma Wait_takes_one s l s' l' : sem_step (s, l) (s', l') -> s' <> s ->
  (exists i, l !! i = Some (Loop s) /\ s <> 0 /\ s' = s - 1 /\ l' = <[i := Idle]> l) \/
  (exists i count, l !! i = Some (Posting count) /\ s' = u32 (s + count) /\ l' = <[i := Waking count]> l).
Proof.
  intros Hs Hne. inversion Hs as [? ? i p ? q Hi Ht| | |]; subst; try done. inversion Ht; subst; try done; [left; by exists i|right; by exists i, count].
Qed.

(** No thread sleeps next to a positive count without another that is awake in [Wait], or
    about to wake one. *)
Lemma sleepers_are_woken n s l : rtc sem_step (0, repeat Idle n) (s, l) -> Asleep ∈ l -> 0 < s ->
  exists i p, l !! i = Some p /\ 0 < awake p.
Proof.
  intros Hrun Ha Hs. remember (0, repeat Idle n) as w0 eqn:E0. remember (s, l) as w1 eqn:E1.
  assert (sem_inv w0.1 w0.2) as Hinv.
  { subst. split; cbn [fst snd]; [done| |].
    - apply List.Forall_forall. by intros p ->%repeat_spec.
    - intros Hin%list_elem_of_In%repeat_spec. done. }
  clear E0. assert (sem_inv w1.1 w1.2) as [_ Hok He] by (clear E1; induction Hrun as [|x y z Hxy _ IH]; [done|]; apply IH; by eapply sem_inv_step).
  subst w1. cbn [fst snd] in *. apply total_pos; [by apply awake_nonneg|]. specialize (He Ha). lia.
Qed.
End Semaphore.

(** ** The packed word *)

Definition kCounterWidth : Z := 20.
Definition kReaderLockShift : Z := 0.
Definition kReaderLockInc : Z := Z.shiftl 1 kReaderLockShift.
Definition kReaderLockMask : Z := Z.shiftl (Z.shiftl 1 kCounterWidth - 1) kReaderLockShift.
Definition kWaitingReaderShift : Z := kCounterWidth.
Definition kWaitingReaderInc : Z := Z.shiftl 1 kWaitingReaderShift.
Definition kWaitingReaderMask : Z := Z.shiftl (Z.shiftl 1 kCounterWidth - 1) kWaitingReaderShift.
Definition kWaitingWriterShift : Z := 2 * kCounterWidth.
Definition kWaitingWriterInc : Z := Z.shiftl 1 kWaitingWriterShift.
Definition kWaitingWriterMask : Z := Z.shiftl (Z.shiftl 1 kCounterWidth - 1) kWaitingWriterShift.
Definition kWriterLock : Z := Z.shiftl 1 (3 * kCounterWidth).
Definition kWriterSpinWait : Z := Z.shiftl 1 (3 * kCounterWidth + 1).
Definition kReaderSpinWait : Z := Z.shiftl 1 (3 * kCounterWidth + 2).
Definition kMaxSpinIters : Z := 1500.

(** [state & mask] as a condition. *)
Definition has (state mask : Z) : bool := negb (Z.land state mask =? 0).

(** [reset_mask]: all ones, or without the flag. *)
Definition reset_mask (reset : bool) (flag : Z) : Z := if reset then not64 flag else not64 0.

(** What an iteration of a locking loop does: reload the word, or try to exchange it for
    another one; [locked] tells what it found. *)
Inductive choice := Reload | Exchange (new_state : Z) (locked : bool).

Definition Lock_choose (state spin_iters : Z) (reset : bool) : choice :=
  let mask := reset_mask reset kWriterSpinWait in
  let locked := has state (Z.lor kWriterLock kReaderLockMask) in
  if negb locked then Exchange (Z.land (Z.lor state kWriterLock) mask) locked
  else if kMaxSpinIters <? spin_iters then Exchange (Z.land (state +64 kWaitingWriterInc) mask) locked
  else if negb (has state kWriterSpinWait) then Exchange (Z.lor state kWriterSpinWait) locked
  else Reload.

Definition ReadLock_choose (state spin_iters : Z) (reset : bool) : choice :=
  let mask := reset_mask reset kReaderSpinWait in
  let locked := has state kWriterLock in
  if negb locked then Exchange (Z.land (state +64 kReaderLockInc) mask) locked
  else if kMaxSpinIters <? spin_iters then Exchange (Z.land (state +64 kWaitingReaderInc) mask) locked
  else if negb (has state kReaderSpinWait) then Exchange (Z.lor state kReaderSpinWait) locked
  else Reload.

(** The new word, whether to wake a writer, how many readers to wake. *)
Definition Unlock_next (state : Z) : Z * bool * Z :=
  let new_state := Z.land state (not64 kWriterLock) in
  let wake_writer := negb (has state (Z.lor kWriterSpinWait kReaderSpinWait)) && has state kWaitingWriterMask in
  let new_state := if wake_writer then Z.lor (new_state -64 kWaitingWriterInc) kWriterSpinWait else new_state in
  let wake_readers := if wake_writer || has state kWriterSpinWait then 0
                      else Z.shiftr (Z.land state kWaitingReaderMask) kWaitingReaderShift in
  let new_state := if negb (wake_readers =? 0) then Z.lor (Z.land new_state (not64 kWaitingReaderMask)) kReaderSpinWait else new_state in
  (new_state, wake_writer, wake_readers).

Definition ReadUnlock_next (state : Z) : Z * bool :=
  let new_state := state -64 kReaderLockInc in
  let wake := negb (has new_state (Z.lor (Z.lor kReaderLockMask kWriterSpinWait) kReaderSpinWait)) && has new_state kWaitingWriterMask in
  (if wake then Z.lor (new_state -64 kWaitingWriterInc) kWriterSpinWait else new_state, wake).

(** ** The threads *)

(** [writers_] and [readers_] are the counts of the semaphores. *)
Record Mutex := mkMutex { state_ : Z; writers_ : Z; readers_ : Z }.

Definition Mutex0 : Mutex := mkMutex 0 0 0.

(** Where a thread is: the loops carry their local variables. *)
Inductive pc :=
| Idle
| LockLoop (state spin_iters : Z) (reset : bool)   (* before the exchange *)
| LockWait                                         (* in writers_.Wait() *)
| LockReload (spin_iters : Z)                      (* before the load at the end of the iteration *)
| TryLockLoop (state : Z)
| Writing
| UnlockLoop (state : Z)
| PostWriter
| PostReaders (wake_readers : Z)
| ReadLockLoop (state spin_iters : Z) (reset : bool)
| ReadLockWait
| ReadLockReload (spin_iters : Z)
| Reading
| ReadUnlockLoop (state : Z).

#[export] Instance pc_eq_dec : EqDecision pc.
Proof. solve_decision. Defined.

Definition after_Lock (locked : bool) (spin_iters : Z) : pc :=
  if negb locked then Writing else if kMaxSpinIters <? spin_iters then LockWait else LockReload spin_iters.
Definition after_ReadLock (locked : bool) (spin_iters : Z) : pc :=
  if negb locked then Reading else if kMaxSpinIters <? spin_iters then ReadLockWait else ReadLockReload spin_iters.
Definition after_Unlock (wake_writer : bool) (wake_readers : Z) : pc :=
  if wake_writer then PostWriter else if negb (wake_readers =? 0) then PostReaders wake_readers else Idle.

Definition set_state (m : Mutex) (s : Z) : Mutex := mkMutex s (writers_ m) (readers_ m).

(** The step of one thread. *)
Inductive thread_step : Mutex -> pc -> Mutex -> pc -> Prop :=
(** [Lock] *)
| call_Lock m : thread_step m Idle m (LockLoop (state_ m) 0 false)
| lock_reload m s n r : Lock_choose s n r = Reload -> thread_step m (LockLoop s n r) m (LockLoop (state_ m) (n + 1) r)
| lock_retry m s n r new l : Lock_choose s n r = Exchange new l -> thread_step m (LockLoop s n r) m (LockLoop (state_ m) (n + 1) r)
| lock_exchange m n r new l : Lock_choose (state_ m) n r = Exchange new l ->
    thread_step m (LockLoop (state_ m) n r) (set_state m new) (after_Lock l n)
| lock_wake m : 0 < writers_ m -> thread_step m LockWait (mkMutex (state_ m) (writers_ m - 1) (readers_ m)) (LockReload 0)
| lock_again m n : thread_step m (LockReload n) m (LockLoop (state_ m) (n + 1) true)
(** [TryLock] *)
| call_TryLock m : thread_step m Idle m (TryLockLoop (state_ m))
| trylock_fails m s : has s (Z.lor kWriterLock kReaderLockMask) = true -> thread_step m (TryLockLoop s) m Idle
| trylock_retry m s : has s (Z.lor kWriterLock kReaderLockMask) = false -> thread_step m (TryLockLoop s) m (TryLockLoop (state_ m))
| trylock_exchange m : has (state_ m) (Z.lor kWriterLock kReaderLockMask) = false ->
    thread_step m (TryLockLoop (state_ m)) (set_state m (Z.lor (state_ m) kWriterLock)) Writing
(** [Unlock] *)
| call_Unlock m : thread_step m Writing m (UnlockLoop (state_ m))
| unlock_retry m s : thread_step m (UnlockLoop s) m (UnlockLoop (state_ m))
| unlock_exchange m new ww wr : Unlock_next (state_ m) = (new, ww, wr) ->
    thread_step m (UnlockLoop (state_ m)) (set_state m new) (after_Unlock ww wr)
| post_writer m : thread_step m PostWriter (mkMutex (state_ m) (writers_ m + 1) (readers_ m)) Idle
| post_readers m n : thread_step m (PostReaders n) (mkMutex (state_ m) (writers_ m) (readers_ m + n)) Idle
(** [ReadLock] *)
| call_ReadLock m : thread_step m Idle m (ReadLockLoop (state_ m) 0 false)
| readlock_reload m s n r : ReadLock_choose s n r = Reload -> thread_step m (ReadLockLoop s n r) m (ReadLockLoop (state_ m) (n + 1) r)
| readlock_retry m s n r new l : ReadLock_choose s n r = Exchange new l -> thread_step m (ReadLockLoop s n r) m (ReadLockLoop (state_ m) (n + 1) r)
| readlock_exchange m n r new l : ReadLock_choose (state_ m) n r = Exchange new l ->
    thread_step m (ReadLockLoop (state_ m) n r) (set_state m new) (after_ReadLock l n)
| readlock_wake m : 0 < readers_ m -> thread_step m ReadLockWait (mkMutex (state_ m) (writers_ m) (readers_ m - 1)) (ReadLockReload 0)
| readlock_again m n : thread_step m (ReadLockReload n) m (ReadLockLoop (state_ m) (n + 1) true)
(** [ReadUnlock] *)
| call_ReadUnlock m : thread_step m Reading m (ReadUnlockLoop (state_ m))
| readunlock_retry m s : thread_step m (ReadUnlockLoop s) m (ReadUnlockLoop (state_ m))
| readunlock_exchange m new wake : ReadUnlock_next (state_ m) = (new, wake) ->
    thread_step m (ReadUnlockLoop (state_ m)) (set_state m new) (if wake : bool then PostWriter else Idle).

Record world := mkWorld { w_mutex : Mutex; w_threads : list pc }.

Inductive step : world -> world -> Prop :=
| step_thread w i p m' p' : w_threads w !! i = Some p -> thread_step (w_mutex w) p m' p' ->
    step w (mkWorld m' (<[i := p']> (w_threads w))).

Definition world0 (n : nat) : world := mkWorld Mutex0 (repeat Idle n).

(** *** What the word says *)

(** Readers, waiting readers, waiting writers; the writer's flag and the two of spinning. *)
Definition pack (rc wr ww wl sw sr : Z) : Z := rc + wr * 2 ^ 20 + ww * 2 ^ 40 + wl * 2 ^ 60 + sw * 2 ^ 61 + sr * 2 ^ 62.

Record fields_ok (rc wr ww wl sw sr : Z) : Prop := {
  fk_rc : 0 <= rc < 2 ^ 20; fk_wr : 0 <= wr < 2 ^ 20; fk_ww : 0 <= ww < 2 ^ 20;
  fk_wl : 0 <= wl <= 1; fk_sw : 0 <= sw <= 1; fk_sr : 0 <= sr <= 1
}.

(** The bits [s .. s + k) of a number given by its parts. *)
Lemma land_field lo mid hi s k : 0 <= s -> 0 <= k -> 0 <= lo < 2 ^ s -> 0 <= mid < 2 ^ k ->
  Z.land (lo + mid * 2 ^ s + hi * 2 ^ (s + k)) (Z.shiftl (Z.ones k) s) = mid * 2 ^ s.
Proof.
  intros Hs Hk Hlo Hmid. set (w := lo + _ + _). assert (Z.land w (Z.shiftl (Z.ones k) s) = Z.shiftl (Z.land (Z.shiftr w s) (Z.ones k)) s) as ->.
  { apply Z.bits_inj'. intros i Hi. rewrite Z.land_spec, !Z.shiftl_spec by done. destruct (Z.ltb_spec i s) as [Hlt|Hge].
    - rewrite !(Z.testbit_neg_r _ (i - s)) by lia. by rewrite andb_false_r.
    - rewrite Z.land_spec, Z.shiftr_spec by lia. do 2 f_equal. lia. }
  rewrite Z.land_ones, Z.shiftr_div_pow2, Z.shiftl_mul_pow2 by done. f_equal. unfold w.
  pose proof (Z.pow_pos_nonneg 2 s). replace (lo + mid * 2 ^ s + hi * 2 ^ (s + k)) with (lo + (mid + hi * 2 ^ k) * 2 ^ s) by (rewrite Z.pow_add_r by done; ring).
  rewrite Z.div_add, (Z.div_small lo), Z.add_0_l by lia. rewrite Z_mod_plus_full. by apply Z.mod_small.
Qed.

Lemma land_not64 w m : 0 <= w < 2 ^ 64 -> 0 <= m < 2 ^ 64 -> Z.land w (not64 m) = w - Z.land w m.
Proof.
  intros Hw Hm. unfold not64. assert (Z.ones 64 - m = Z.lxor (Z.ones 64) m) as E.
  { assert (Z.land (Z.ones 64) m = m) as Hl by (rewrite Z.land_comm, Z.land_ones by done; by apply Z.mod_small).
    pose proof (Z.sub_lor_land (Z.ones 64) m) as Hs. rewrite Hl in Hs. rewrite <- Hs. f_equal.
    pose proof (Z.add_lor_land (Z.ones 64) m). lia. }
  change (2 ^ 64 - 1) with (Z.ones 64). rewrite E. pose proof (Z.add_lor_land (Z.land w (Z.lxor (Z.ones 64) m)) (Z.land w m)) as Ha.
  assert (Z.lor (Z.land w (Z.lxor (Z.ones 64) m)) (Z.land w m) = w /\ Z.land (Z.land w (Z.lxor (Z.ones 64) m)) (Z.land w m) = 0) as [H1 H2]; [|lia].
  assert (forall i, 0 <= i -> Z.testbit (Z.ones 64) i = false -> Z.testbit w i = false) as Hhigh.
  { intros i Hi. destruct (Z.ltb_spec i 64); [by rewrite Z.ones_spec_low by lia|]. intros _. destruct (decide (w = 0)) as [->|]; [apply Z.bits_0|].
    apply Z.bits_above_log2; [lia|]. apply Z.log2_lt_pow2; [lia|]. eapply Z.lt_le_trans; [apply Hw|]. apply Z.pow_le_mono_r; lia. }
  split; apply Z.bits_inj'; intros i Hi; rewrite ?Z.lor_spec, ?Z.land_spec, ?Z.lxor_spec, ?Z.land_spec, ?Z.bits_0; specialize (Hhigh i Hi);
    destruct (Z.testbit (Z.ones 64) i); [|rewrite Hhigh by done| |rewrite Hhigh by done]; by destruct (Z.testbit w i), (Z.testbit m i).
Qed.

Section word.
Context (rc wr ww wl sw sr : Z) (Hf : fields_ok rc wr ww wl sw sr).
Notation w := (pack rc wr ww wl sw sr).

Lemma pack_range : 0 <= w < 2 ^ 63.
Proof. destruct Hf. unfold pack. lia. Qed.

Lemma land_readers : Z.land w kReaderLockMask = rc.
Proof. destruct Hf. pose proof (land_field 0 rc (wr + ww * 2 ^ 20 + wl * 2 ^ 40 + sw * 2 ^ 41 + sr * 2 ^ 42) 0 20) as E. unfold pack. change kReaderLockMask with (Z.shiftl (Z.ones 20) 0). etrans; [|etrans; [apply E; lia|]; lia]. f_equal; lia. Qed.

Lemma land_waiting_readers : Z.land w kWaitingReaderMask = wr * 2 ^ 20.
Proof. destruct Hf. pose proof (land_field rc wr (ww + wl * 2 ^ 20 + sw * 2 ^ 21 + sr * 2 ^ 22) 20 20) as E. unfold pack. change kWaitingReaderMask with (Z.shiftl (Z.ones 20) 20). etrans; [|apply E; lia]. f_equal; lia. Qed.

Lemma land_waiting_writers : Z.land w kWaitingWriterMask = ww * 2 ^ 40.
Proof. destruct Hf. pose proof (land_field (rc + wr * 2 ^ 20) ww (wl + sw * 2 + sr * 4) 40 20) as E. unfold pack. change kWaitingWriterMask with (Z.shiftl (Z.ones 20) 40). etrans; [|apply E; lia]. f_equal; lia. Qed.

Lemma land_writer : Z.land w kWriterLock = wl * 2 ^ 60.
Proof. destruct Hf. pose proof (land_field (rc + wr * 2 ^ 20 + ww * 2 ^ 40) wl (sw + sr * 2) 60 1) as E. unfold pack. change kWriterLock with (Z.shiftl (Z.ones 1) 60). etrans; [|apply E; lia]. f_equal; lia. Qed.

Lemma land_writer_spins : Z.land w kWriterSpinWait = sw * 2 ^ 61.
Proof. destruct Hf. pose proof (land_field (rc + wr * 2 ^ 20 + ww * 2 ^ 40 + wl * 2 ^ 60) sw sr 61 1) as E. unfold pack. change kWriterSpinWait with (Z.shiftl (Z.ones 1) 61). etrans; [|apply E; lia]. f_equal; lia. Qed.

Lemma land_reader_spins : Z.land w kReaderSpinWait = sr * 2 ^ 62.
Proof. destruct Hf. pose proof (land_field (rc + wr * 2 ^ 20 + ww * 2 ^ 40 + wl * 2 ^ 60 + sw * 2 ^ 61) sr 0 62 1) as E. unfold pack. change kReaderSpinWait with (Z.shiftl (Z.ones 1) 62). etrans; [|apply E; lia]. f_equal; lia. Qed.
End word.

Section next.
Context (rc wr ww wl sw sr : Z) (Hf : fields_ok rc wr ww wl sw sr).
Notation w := (pack rc wr ww wl sw sr).

Lemma has_lor a b c : has a (Z.lor b c) = has a b || has a c.
Proof.
  unfold has. rewrite Z.land_lor_distr_r. rewrite <- negb_andb. f_equal. apply eq_bool_prop_intro. rewrite andb_True, !Is_true_true, !Z.eqb_eq. apply Z.lor_eq_0_iff.
Qed.

Lemma has_field a m f k : 0 <= f -> Z.land a m = f * 2 ^ k -> 0 <= k -> has a m = (0 <? f).
Proof.
  intros H0 E Hk. unfold has. rewrite E. pose proof (Z.pow_pos_nonneg 2 k). destruct (Z.ltb_spec 0 f).
  - destruct (Z.eqb_spec (f * 2 ^ k) 0); [nia|done].
  - by replace f with 0 by lia.
Qed.

Lemma has_readers : has w kReaderLockMask = (0 <? rc).
Proof. apply (has_field _ _ _ 0); [by apply Hf| |done]. rewrite land_readers by done. lia. Qed.
Lemma has_waiting_readers : has w kWaitingReaderMask = (0 <? wr).
Proof. apply (has_field _ _ _ 20); [by apply Hf|by apply land_waiting_readers|done]. Qed.
Lemma has_waiting_writers : has w kWaitingWriterMask = (0 <? ww).
Proof. apply (has_field _ _ _ 40); [by apply Hf|by apply land_waiting_writers|done]. Qed.
Lemma has_writer : has w kWriterLock = (0 <? wl).
Proof. apply (has_field _ _ _ 60); [by apply Hf|by apply land_writer|done]. Qed.
Lemma has_writer_spins : has w kWriterSpinWait = (0 <? sw).
Proof. apply (has_field _ _ _ 61); [by apply Hf|by apply land_writer_spins|done]. Qed.
Lemma has_reader_spins : has w kReaderSpinWait = (0 <? sr).
Proof. apply (has_field _ _ _ 62); [by apply Hf|by apply land_reader_spins|done]. Qed.

(** Setting and clearing a flag. *)
Lemma set_flag a b : Z.lor a b = a + b - Z.land a b.
Proof. pose proof (Z.add_lor_land a b). lia. Qed.

Lemma set_writer : Z.lor w kWriterLock = pack rc wr ww 1 sw sr.
Proof. rewrite set_flag, land_writer by done. change kWriterLock with (2 ^ 60). unfold pack. lia. Qed.
Lemma set_writer_spins : Z.lor w kWriterSpinWait = pack rc wr ww wl 1 sr.
Proof. rewrite set_flag, land_writer_spins by done. change kWriterSpinWait with (2 ^ 61). unfold pack. lia. Qed.
Lemma set_reader_spins : Z.lor w kReaderSpinWait = pack rc wr ww wl sw 1.
Proof. rewrite set_flag, land_reader_spins by done. change kReaderSpinWait with (2 ^ 62). unfold pack. lia. Qed.

Lemma word_range : 0 <= w < 2 ^ 64.
Proof. pose proof (pack_range _ _ _ _ _ _ Hf). lia. Qed.

Lemma clear_writer : Z.land w (not64 kWriterLock) = pack rc wr ww 0 sw sr.
Proof. rewrite land_not64; [|apply word_range|done]. rewrite land_writer by done. unfold pack. lia. Qed.
Lemma clear_waiting_readers : Z.land w (not64 kWaitingReaderMask) = pack rc 0 ww wl sw sr.
Proof. rewrite land_not64; [|apply word_range|done]. rewrite land_waiting_readers by done. unfold pack. lia. Qed.
Lemma reset_writer_spins (r : bool) : Z.land w (reset_mask r kWriterSpinWait) = pack rc wr ww wl (if r then 0 else sw) sr.
Proof.
  unfold reset_mask. destruct r; (rewrite land_not64; [|apply word_range|done]).
  - rewrite land_writer_spins by done. unfold pack. lia.
  - rewrite Z.land_0_r. lia.
Qed.
Lemma reset_reader_spins (r : bool) : Z.land w (reset_mask r kReaderSpinWait) = pack rc wr ww wl sw (if r then 0 else sr).
Proof.
  unfold reset_mask. destruct r; (rewrite land_not64; [|apply word_range|done]).
  - rewrite land_reader_spins by done. unfold pack. lia.
  - rewrite Z.land_0_r. lia.
Qed.

(** The counters. *)
Lemma add_waiting_writer : w +64 kWaitingWriterInc = pack rc wr (ww + 1) wl sw sr.
Proof. destruct Hf. change kWaitingWriterInc with (2 ^ 40). unfold pack. rewrite u64_small; lia. Qed.
Lemma add_waiting_reader : w +64 kWaitingReaderInc = pack rc (wr + 1) ww wl sw sr.
Proof. destruct Hf. change kWaitingReaderInc with (2 ^ 20). unfold pack. rewrite u64_small; lia. Qed.
Lemma add_reader : w +64 kReaderLockInc = pack (rc + 1) wr ww wl sw sr.
Proof. destruct Hf. change kReaderLockInc with 1. unfold pack. rewrite u64_small; lia. Qed.
Lemma sub_waiting_writer : 0 < ww -> w -64 kWaitingWriterInc = pack rc wr (ww - 1) wl sw sr.
Proof. intros. destruct Hf. change kWaitingWriterInc with (2 ^ 40). unfold pack. rewrite u64_small; lia. Qed.
Lemma sub_reader : 0 < rc -> w -64 kReaderLockInc = pack (rc - 1) wr ww wl sw sr.
Proof. intros. destruct Hf. change kReaderLockInc with 1. unfold pack. rewrite u64_small; lia. Qed.
End next.

(** *** The loops on the fields *)

Section loops.
Context (rc wr ww wl sw sr : Z) (Hf : fields_ok rc wr ww wl sw sr).
Notation w := (pack rc wr ww wl sw sr).

Ltac fields := destruct Hf; constructor; lia.

Lemma Lock_choose_pack n r : rc + 1 < 2 ^ 20 -> ww + 1 < 2 ^ 20 ->
  Lock_choose w n r =
    if (wl =? 0) && (rc =? 0) then Exchange (pack rc wr ww 1 (if r then 0 else sw) sr) false
    else if kMaxSpinIters <? n then Exchange (pack rc wr (ww + 1) wl (if r then 0 else sw) sr) true
    else if sw =? 0 then Exchange (pack rc wr ww wl 1 sr) true else Reload.
Proof.
  intros Hr Hw. unfold Lock_choose. rewrite has_lor, has_writer, has_readers, has_writer_spins, set_writer, set_writer_spins, add_waiting_writer by done.
  rewrite !reset_writer_spins by fields. destruct Hf.
  destruct (Z.ltb_spec 0 wl), (Z.eqb_spec wl 0), (Z.ltb_spec 0 rc), (Z.eqb_spec rc 0), (Z.ltb_spec 0 sw), (Z.eqb_spec sw 0); done || lia.
Qed.

Lemma ReadLock_choose_pack n r : rc + 1 < 2 ^ 20 -> wr + 1 < 2 ^ 20 ->
  ReadLock_choose w n r =
    if wl =? 0 then Exchange (pack (rc + 1) wr ww wl sw (if r then 0 else sr)) false
    else if kMaxSpinIters <? n then Exchange (pack rc (wr + 1) ww wl sw (if r then 0 else sr)) true
    else if sr =? 0 then Exchange (pack rc wr ww wl sw 1) true else Reload.
Proof.
  intros Hr Hw. unfold ReadLock_choose. rewrite has_writer, has_reader_spins, set_reader_spins, add_reader, add_waiting_reader by done.
  rewrite !reset_reader_spins by fields. destruct Hf.
  destruct (Z.ltb_spec 0 wl), (Z.eqb_spec wl 0), (Z.ltb_spec 0 sr), (Z.eqb_spec sr 0); done || lia.
Qed.

Lemma Unlock_next_pack : Unlock_next w =
  if (sw =? 0) && (sr =? 0) && (0 <? ww) then (pack rc wr (ww - 1) 0 1 sr, true, 0)
  else if (sw =? 0) && (0 <? wr) then (pack rc 0 ww 0 sw 1, false, wr)
  else (pack rc wr ww 0 sw sr, false, 0).
Proof.
  unfold Unlock_next. rewrite has_lor, has_writer_spins, has_reader_spins, has_waiting_writers, clear_writer, land_waiting_readers by done.
  assert (Z.shiftr (wr * 2 ^ 20) kWaitingReaderShift = wr) as ->. { change kWaitingReaderShift with 20. rewrite Z.shiftr_div_pow2 by done. by apply Z.div_mul. }
  assert (fields_ok rc wr ww 0 sw sr) as H0 by fields. pose proof (clear_waiting_readers _ _ _ _ _ _ H0) as Hc.
  assert (fields_ok rc 0 ww 0 sw sr) as H1 by fields. pose proof (set_reader_spins _ _ _ _ _ _ H1) as Hs.
  destruct (Z.ltb_spec 0 ww).
  - pose proof (sub_waiting_writer _ _ _ _ _ _ H0 ltac:(assumption)) as Hsub. assert (fields_ok rc wr (ww - 1) 0 sw sr) as H2 by fields.
    pose proof (set_writer_spins _ _ _ _ _ _ H2) as Hset. rewrite Hsub, Hset.
    destruct Hf. destruct (Z.ltb_spec 0 sw), (Z.eqb_spec sw 0), (Z.ltb_spec 0 sr), (Z.eqb_spec sr 0); try lia; cbn [orb andb negb Z.eqb]; rewrite ?Hc, ?Hs; try done;
    destruct (Z.eqb_spec wr 0), (Z.ltb_spec 0 wr); done || lia || (by subst).
  - rewrite andb_false_r, Hc, Hs. cbn [orb]. rewrite !andb_false_r.
    destruct Hf. destruct (Z.ltb_spec 0 sw), (Z.eqb_spec sw 0), (Z.eqb_spec wr 0), (Z.ltb_spec 0 wr); done || lia || (by subst).
Qed.

Lemma ReadUnlock_next_pack : 0 < rc -> ReadUnlock_next w =
  if (rc =? 1) && (sw =? 0) && (sr =? 0) && (0 <? ww) then (pack (rc - 1) wr (ww - 1) wl 1 sr, true)
  else (pack (rc - 1) wr ww wl sw sr, false).
Proof.
  intros Hrc. unfold ReadUnlock_next. rewrite sub_reader by done. assert (fields_ok (rc - 1) wr ww wl sw sr) as H0 by fields.
  rewrite !has_lor, has_readers, has_writer_spins, has_reader_spins, has_waiting_writers by done.
  destruct (Z.ltb_spec 0 ww).
  - rewrite sub_waiting_writer by done. rewrite set_writer_spins by fields. destruct Hf.
    destruct (Z.ltb_spec 0 (rc - 1)), (Z.eqb_spec rc 1), (Z.ltb_spec 0 sw), (Z.eqb_spec sw 0), (Z.ltb_spec 0 sr), (Z.eqb_spec sr 0); done || lia.
  - rewrite !andb_false_r. done.
Qed.

Lemma TryLock_pack : has w (Z.lor kWriterLock kReaderLockMask) = negb ((wl =? 0) && (rc =? 0)).
Proof. rewrite has_lor, has_writer, has_readers by done. destruct Hf. destruct (Z.ltb_spec 0 wl), (Z.eqb_spec wl 0), (Z.ltb_spec 0 rc), (Z.eqb_spec rc 0); done || lia. Qed.
End loops.

Definition writing (p : pc) : Z := match p with Writing | UnlockLoop _ => 1 | _ => 0 end.
Definition reading (p : pc) : Z := match p with Reading | ReadUnlockLoop _ => 1 | _ => 0 end.
Definition waits_to_write (p : pc) : Z := match p with LockWait => 1 | _ => 0 end.
Definition waits_to_read (p : pc) : Z := match p with ReadLockWait => 1 | _ => 0 end.
Definition posts_writer (p : pc) : Z := match p with PostWriter => 1 | _ => 0 end.
Definition posts_readers (p : pc) : Z := match p with PostReaders n => n | _ => 0 end.
(** The threads whose next exchange ends the spinning. *)
Definition ends_writer_spins (p : pc) : Z := match p with LockReload _ | LockLoop _ _ true => 1 | _ => 0 end.
Definition ends_reader_spins (p : pc) : Z := match p with ReadLockReload _ | ReadLockLoop _ _ true => 1 | _ => 0 end.

Definition posts_some (p : pc) : Prop := match p with PostReaders n => 0 < n | _ => True end.

(** *** The invariant *)

Record fields_mean (m : Mutex) (l : list pc) (rc wr ww wl sw sr : Z) : Prop := {
  fm_fields : fields_ok rc wr ww wl sw sr;
  fm_state : state_ m = pack rc wr ww wl sw sr;
  fm_writing : total writing l = wl;
  fm_reading : total reading l = rc;
  fm_excludes : 0 < wl -> rc = 0;
  fm_writers : 0 <= writers_ m;
  fm_readers : 0 <= readers_ m;
  fm_posts : Forall posts_some l;
  (** a thread in a semaphore is counted as waiting, or its wake-up is on the way *)
  fm_wait_write : total waits_to_write l = ww + writers_ m + total posts_writer l;
  fm_wait_read : total waits_to_read l = wr + readers_ m + total posts_readers l;
  (** a flag of spinning has a thread that will clear it *)
  fm_writer_spins : total ends_writer_spins l + writers_ m + total posts_writer l = sw;
  fm_reader_spins : 0 < sr -> 0 < total ends_reader_spins l + readers_ m + total posts_readers l;
  (** a waiting thread has one that will wake it *)
  fm_writer_waker : 0 < ww -> 0 < wl \/ 0 < rc \/ 0 < sw \/ 0 < sr;
  fm_reader_waker : 0 < wr -> 0 < wl \/ 0 < sw \/ 0 < ww
}.

Definition mutex_inv (w : world) : Prop :=
  Z.of_nat (length (w_threads w)) + 1 < 2 ^ 20 /\ exists rc wr ww wl sw sr, fields_mean (w_mutex w) (w_threads w) rc wr ww wl sw sr.

Lemma mutex_inv_initial n : Z.of_nat n + 1 < 2 ^ 20 -> mutex_inv (world0 n).
Proof.
  intros Hn. split; [cbn [w_threads world0]; by rewrite repeat_length|]. exists 0, 0, 0, 0, 0, 0.
  split; cbn [w_threads w_mutex world0 state_ writers_ readers_ Mutex0]; rewrite ?total_repeat by done; try done; try lia.
  apply List.Forall_forall. by intros p ->%repeat_spec.
Qed.

Lemma total_bounds m l rc wr ww wl sw sr : fields_mean m l rc wr ww wl sw sr ->
  0 <= total waits_to_write l <= Z.of_nat (length l) /\ 0 <= total waits_to_read l <= Z.of_nat (length l) /\ 0 <= total reading l <= Z.of_nat (length l) /\
  0 <= total posts_writer l /\ 0 <= total posts_readers l /\ 0 <= total ends_writer_spins l /\ 0 <= total ends_reader_spins l /\ 0 <= total writing l.
Proof.
  intros Hm. assert (forall p, p ∈ l -> 0 <= posts_readers p) as Hp.
  { intros p Hp. pose proof (proj1 (List.Forall_forall _ _) (fm_posts _ _ _ _ _ _ _ _ Hm) p (proj1 (list_elem_of_In _ _) Hp)). destruct p; cbn in *; lia. }
  assert (forall p, p ∈ l -> 0 <= ends_writer_spins p) as Hw by (intros p _; destruct p; cbn; try lia; by case_match).
  assert (forall p, p ∈ l -> 0 <= ends_reader_spins p) as Hr by (intros p _; destruct p; cbn; try lia; by case_match).
  pose proof (total_nonneg _ _ Hw). pose proof (total_nonneg _ _ Hr). pose proof (total_nonneg _ _ Hp).
  pose proof (total_nonneg waits_to_write l ltac:(by intros [])). pose proof (total_nonneg waits_to_read l ltac:(by intros [])).
  pose proof (total_nonneg reading l ltac:(by intros [])). pose proof (total_nonneg writing l ltac:(by intros [])). pose proof (total_nonneg posts_writer l ltac:(by intros [])).
  pose proof (total_le waits_to_write l ltac:(by intros [])). pose proof (total_le waits_to_read l ltac:(by intros [])). pose proof (total_le reading l ltac:(by intros [])).
  done.
Qed.

Lemma totals_nonneg (f : pc -> Z) (l : list pc) : f = writing \/ f = reading \/ f = ends_writer_spins \/ f = ends_reader_spins -> forall p, p ∈ l -> 0 <= f p.
Proof. intros Hf p _. destruct Hf as [-> | [-> | [-> | ->]]]; destruct p; cbn; try lia; by case_match. Qed.

Lemma fields_mean_moved m l i p m' q rc wr ww wl sw sr rc' wr' ww' wl' sw' sr' : l !! i = Some p ->
  fields_mean m l rc wr ww wl sw sr -> Z.of_nat (length l) + 1 < 2 ^ 20 -> posts_some q ->
  state_ m' = pack rc' wr' ww' wl' sw' sr' -> 0 <= sr' <= 1 -> 0 <= wr' -> 0 <= ww' -> 0 <= writers_ m' -> 0 <= readers_ m' -> (0 < wl' -> rc' = 0) -> wl' <= 1 -> sw' <= 1 ->
  wl' = wl - writing p + writing q -> rc' = rc - reading p + reading q ->
  ww' + writers_ m' - waits_to_write q + posts_writer q = ww + writers_ m - waits_to_write p + posts_writer p ->
  wr' + readers_ m' - waits_to_read q + posts_readers q = wr + readers_ m - waits_to_read p + posts_readers p ->
  sw' - ends_writer_spins q - writers_ m' - posts_writer q = sw - ends_writer_spins p - writers_ m - posts_writer p ->
  (0 < sr' -> (0 < ends_reader_spins q + readers_ m' + posts_readers q) \/
     (0 < sr /\ ends_reader_spins q + readers_ m' + posts_readers q = ends_reader_spins p + readers_ m + posts_readers p)) ->
  (0 < ww' -> 0 < wl' \/ 0 < rc' \/ 0 < sw' \/ 0 < sr') -> (0 < wr' -> 0 < wl' \/ 0 < sw' \/ 0 < ww') ->
  fields_mean m' (<[i := q]> l) rc' wr' ww' wl' sw' sr'.
Proof.
  intros Hl Hm Hlen Hq Es Hsr Hwr Hww Hws Hrs Hex Hwl Hsw Ewl Erc Eww Ewr Esw Esr Hwk Hrk.
  assert (Forall posts_some (<[i := q]> l)) as Hposts by (apply list.Forall_insert; [apply Hm|done]).
  assert (forall p', p' ∈ <[i:=q]> l -> 0 <= posts_readers p') as Hpr.
  { intros p' Hp. pose proof (proj1 (List.Forall_forall _ _) Hposts p' (proj1 (list_elem_of_In _ _) Hp)). destruct p'; cbn in *; lia. }
  assert (0 <= total ends_reader_spins (<[i := q]> l)) as T1 by (apply total_nonneg, totals_nonneg; tauto).
  assert (0 <= total posts_readers (<[i := q]> l)) as T2 by by apply total_nonneg.
  destruct Hm as [Hf E1 E2 E3 E4 E5 E6 E7 E8 E9 E10 E11 E12 E13]. destruct Hf.
  assert (0 <= total writing (<[i := q]> l)) as T3 by (apply total_nonneg, totals_nonneg; tauto).
  assert (0 <= total reading (<[i := q]> l) <= Z.of_nat (length l)) as T4.
  { split; [apply total_nonneg, totals_nonneg; tauto|]. rewrite <- (length_insert l i q). apply total_le. by intros []. }
  assert (total waits_to_write (<[i := q]> l) <= Z.of_nat (length l)) as T5 by (rewrite <- (length_insert l i q); apply total_le; by intros []).
  assert (total waits_to_read (<[i := q]> l) <= Z.of_nat (length l)) as T6 by (rewrite <- (length_insert l i q); apply total_le; by intros []).
  assert (0 <= total ends_writer_spins (<[i := q]> l)) as T7 by (apply total_nonneg, totals_nonneg; tauto).
  assert (0 <= total posts_writer (<[i := q]> l)) as T8 by (apply total_nonneg; by intros []).
  revert T1 T2 T3 T4 T5 T6 T7 T8. rewrite !(total_insert _ _ _ _ _ Hl). intros T1 T2 T3 T4 T5 T6 T7 T8.
  assert (posts_readers p <= total posts_readers l) as T9.
  { apply (total_member _ _ i); [|done]. intros p' Hp. pose proof (proj1 (List.Forall_forall _ _) E7 p' (proj1 (list_elem_of_In _ _) Hp)). destruct p'; cbn in *; lia. }
  assert (ends_reader_spins p <= total ends_reader_spins l) as T10 by (apply (total_member _ _ i); [apply totals_nonneg; tauto|done]).
  split; rewrite ?(total_insert _ _ _ _ _ Hl); try done; try lia.
  split; lia.
Qed.

(** One step of one thread keeps the invariant: the lock and unlock exchanges on the fields of
    the word, the other steps by counting. *)
Section preserved.
Context (m : Mutex) (l : list pc) (i : nat) (rc wr ww wl sw sr : Z).
Context (Hm : fields_mean m l rc wr ww wl sw sr) (Hlen : Z.of_nat (length l) + 1 < 2 ^ 20).

Ltac start := pose proof (total_bounds _ _ _ _ _ _ _ _ Hm) as Hbounds; pose proof Hm as [Hf E1 E2 E3 E4 E5 E6 E7 E8 E9 E10 E11 E12 E13]; pose proof Hf as [].
Ltac now_fields := cbn [state_ writers_ readers_ set_state writing reading waits_to_write waits_to_read posts_writer posts_readers ends_writer_spins ends_reader_spins posts_some]; first [done | lia | (intros; lia) | idtac].
Ltac moves Hl := eapply (fields_mean_moved m l i); [exact Hl|exact Hm|exact Hlen|now_fields..].

(** A step that leaves the mutex alone. *)
Lemma quiet_moves p q : l !! i = Some p -> posts_some q -> writing p = writing q -> reading p = reading q -> waits_to_write p = waits_to_write q ->
  waits_to_read p = waits_to_read q -> posts_writer p = posts_writer q -> posts_readers p = posts_readers q ->
  ends_writer_spins p = ends_writer_spins q -> ends_reader_spins p = ends_reader_spins q ->
  fields_mean m (<[i := q]> l) rc wr ww wl sw sr.
Proof. intros Hl Hq **. start. moves Hl. Qed.

Lemma lock_moves n r new lk : l !! i = Some (LockLoop (state_ m) n r) -> Lock_choose (state_ m) n r = Exchange new lk ->
  exists rc' wr' ww' wl' sw' sr', fields_mean (set_state m new) (<[i := after_Lock lk n]> l) rc' wr' ww' wl' sw' sr'.
Proof.
  intros Hl Hc. start. assert (0 <= ends_writer_spins (LockLoop (state_ m) n r) <= total ends_writer_spins l) as Hmem.
  { split; [cbn; by case_match|]. apply (total_member _ _ i); [apply totals_nonneg; tauto|done]. }
  rewrite E1 in Hc. rewrite Lock_choose_pack in Hc by (done || lia). revert Hc. cbn in Hmem.
  destruct (Z.eqb_spec wl 0), (Z.eqb_spec rc 0); cbn [andb].
  1: { intros [= <- <-]. exists rc, wr, ww, 1, (if r then 0 else sw), sr. cbn [after_Lock negb]. moves Hl; destruct r; lia. }
  all: destruct (Z.ltb_spec kMaxSpinIters n).
  all: try (intros [= <- <-]; exists rc, wr, (ww + 1), wl, (if r then 0 else sw), sr; unfold after_Lock; rewrite (proj2 (Z.ltb_lt _ _)) by done; cbn [negb]; moves Hl; destruct r; lia).
  all: destruct (Z.eqb_spec sw 0); [|done]; intros [= <- <-]; exists rc, wr, ww, wl, 1, sr; unfold after_Lock; rewrite (proj2 (Z.ltb_ge _ _)) by done; cbn [negb]; moves Hl; destruct r; lia.
Qed.

Lemma readlock_moves n r new lk : l !! i = Some (ReadLockLoop (state_ m) n r) -> ReadLock_choose (state_ m) n r = Exchange new lk ->
  exists rc' wr' ww' wl' sw' sr', fields_mean (set_state m new) (<[i := after_ReadLock lk n]> l) rc' wr' ww' wl' sw' sr'.
Proof.
  intros Hl Hc. start. rewrite E1 in Hc. rewrite ReadLock_choose_pack in Hc by (done || lia). revert Hc.
  destruct (Z.eqb_spec wl 0).
  { intros [= <- <-]. exists (rc + 1), wr, ww, wl, sw, (if r then 0 else sr). cbn [after_ReadLock negb]. moves Hl; destruct r; lia. }
  destruct (Z.ltb_spec kMaxSpinIters n).
  { intros [= <- <-]. exists rc, (wr + 1), ww, wl, sw, (if r then 0 else sr). unfold after_ReadLock. rewrite (proj2 (Z.ltb_lt _ _)) by done. cbn [negb]. moves Hl; destruct r; lia. }
  destruct (Z.eqb_spec sr 0); [|done]. intros [= <- <-]. exists rc, wr, ww, wl, sw, 1. unfold after_ReadLock. rewrite (proj2 (Z.ltb_ge _ _)) by done. cbn [negb]. moves Hl; destruct r; lia.
Qed.

Lemma unlock_moves new wakes woken : l !! i = Some (UnlockLoop (state_ m)) -> Unlock_next (state_ m) = (new, wakes, woken) ->
  exists rc' wr' ww' wl' sw' sr', fields_mean (set_state m new) (<[i := after_Unlock wakes woken]> l) rc' wr' ww' wl' sw' sr'.
Proof.
  intros Hl Hc. start. assert (1 <= total writing l) by (apply (total_member writing _ i (UnlockLoop (state_ m))); [apply totals_nonneg; tauto|done]).
  rewrite E1, Unlock_next_pack in Hc by done. revert Hc.
  destruct (Z.eqb_spec sw 0), (Z.eqb_spec sr 0), (Z.ltb_spec 0 ww), (Z.ltb_spec 0 wr); cbn [andb]; intros [= <- <- <-].
  all: try (exists rc, wr, (ww - 1), 0, 1, sr; cbn [after_Unlock]; moves Hl; fail).
  all: try (exists rc, 0, ww, 0, sw, 1; unfold after_Unlock; rewrite (proj2 (Z.eqb_neq _ _)) by lia; cbn [negb]; moves Hl; fail).
  all: exists rc, wr, ww, 0, sw, sr; cbn [after_Unlock Z.eqb negb]; moves Hl.
Qed.

Lemma readunlock_moves new wakes : l !! i = Some (ReadUnlockLoop (state_ m)) -> ReadUnlock_next (state_ m) = (new, wakes) ->
  exists rc' wr' ww' wl' sw' sr', fields_mean (set_state m new) (<[i := if wakes : bool then PostWriter else Idle]> l) rc' wr' ww' wl' sw' sr'.
Proof.
  intros Hl Hc. start. assert (1 <= total reading l) by (apply (total_member reading _ i (ReadUnlockLoop (state_ m))); [apply totals_nonneg; tauto|done]).
  rewrite E1, ReadUnlock_next_pack in Hc by (done || lia). revert Hc.
  destruct (Z.eqb_spec rc 1), (Z.eqb_spec sw 0), (Z.eqb_spec sr 0), (Z.ltb_spec 0 ww); cbn [andb]; intros [= <- <-].
  all: try (exists (rc - 1), wr, (ww - 1), wl, 1, sr; moves Hl; fail).
  all: exists (rc - 1), wr, ww, wl, sw, sr; moves Hl.
Qed.

Lemma thread_step_moves p m' q : l !! i = Some p -> thread_step m p m' q ->
  exists rc' wr' ww' wl' sw' sr', fields_mean m' (<[i := q]> l) rc' wr' ww' wl' sw' sr'.
Proof.
  intros Hl Hs. start. inversion Hs; subst p m' q; clear Hs; try subst m0.
  all: try (exists rc, wr, ww, wl, sw, sr; eapply quiet_moves; [exact Hl|done..]).
  - by eapply lock_moves.
  - exists rc, wr, ww, wl, sw, sr. moves Hl.
  - revert H. rewrite E1, TryLock_pack by done. intros Hnot. apply negb_false_iff, andb_true_iff in Hnot as [Hw%Z.eqb_eq Hr%Z.eqb_eq].
    exists rc, wr, ww, 1, sw, sr. moves Hl. by apply set_writer.
  - by eapply unlock_moves.
  - exists rc, wr, ww, wl, sw, sr. moves Hl.
  - exists rc, wr, ww, wl, sw, sr. pose proof (proj1 (List.Forall_forall _ _) E7 _ (proj1 (list_elem_of_In _ _) (list_elem_of_lookup_2 _ _ _ Hl))) as Hn. cbn in Hn. moves Hl.
  - by eapply readlock_moves.
  - exists rc, wr, ww, wl, sw, sr. moves Hl.
  - by eapply readunlock_moves.
Qed.
End preserved.

Lemma mutex_inv_step w w' : step w w' -> mutex_inv w -> mutex_inv w'.
Proof.
  intros [w0 i p m' p' Hl Hs] (Hlen & rc & wr & ww & wl & sw & sr & Hm). split; cbn [w_mutex w_threads]; [by rewrite length_insert|].
  by eapply thread_step_moves.
Qed.

Lemma mutex_inv_reachable n w : Z.of_nat n + 1 < 2 ^ 20 -> rtc step (world0 n) w -> mutex_inv w.
Proof.
  intros Hn Hrun. assert (mutex_inv (world0 n)) as H0 by by apply mutex_inv_initial. induction Hrun as [|x y z Hxy _ IH]; [done|]. apply IH. by eapply mutex_inv_step.
Qed.

(** C25: mutual exclusion, however the threads interleave: while a thread holds the lock for
    writing no other holds it at all, the word of the mutex has the writer's flag exactly when
    some thread writes, and counts exactly the threads that read. *)
Theorem mutex_excludes n w : Z.of_nat n + 1 < 2 ^ 20 -> rtc step (world0 n) w ->
  (forall i j p q, w_threads w !! i = Some p -> w_threads w !! j = Some q -> i <> j -> writing p = 1 -> writing q = 0 /\ reading q = 0) /\
  (has (state_ (w_mutex w)) kWriterLock = true <-> exists i p, w_threads w !! i = Some p /\ writing p = 1) /\
  Z.land (state_ (w_mutex w)) kReaderLockMask = total reading (w_threads w).
Proof.
  intros Hn Hrun. destruct (mutex_inv_reachable n w Hn Hrun) as (Hlen & rc & wr & ww & wl & sw & sr & Hm).
  pose proof Hm as [Hf E1 E2 E3 E4 E5 E6 E7 E8 E9 E10 E11 E12 E13]. pose proof Hf as [].
  assert (forall p, 0 <= writing p <= 1) as Hw by by intros []. assert (forall p, 0 <= reading p) as Hr by by intros [].
  assert (forall i p, w_threads w !! i = Some p -> writing p <= wl) as Hone by (intros i p Hi; rewrite <- E2; apply (total_member _ _ i); [intros; apply Hw|done]).
  split_and!.
  - intros i j p q Hi Hj Hij Hp. pose proof (total_two writing _ Idle i j p q ltac:(apply Hw) eq_refl Hij Hi Hj).
    pose proof (total_member reading _ j q ltac:(intros; apply Hr) Hj). pose proof (Hr q). pose proof (Hw q). lia.
  - rewrite E1, has_writer, Z.ltb_lt by done. split.
    + intros Hp. destruct (total_pos writing (w_threads w)) as (i & p & Hi & Hp'); [intros; apply Hw|lia|]. exists i, p. pose proof (Hw p). split; [done|lia].
    + intros (i & p & Hi & Hp). pose proof (Hone i p Hi). lia.
  - by rewrite E1, land_readers.
Qed.

(** *** Every call can return *)

(** The steps of one thread while the others stand still. *)
Inductive thread_run : Mutex * pc -> Mutex * pc -> Prop :=
| run_step m p m' q : thread_step m p m' q -> thread_run (m, p) (m', q).

Lemma run_alone x y l i : l !! i = Some x.2 -> rtc thread_run x y -> rtc step (mkWorld x.1 l) (mkWorld y.1 (<[i := y.2]> l)).
Proof.
  intros Hi Hrun. revert l Hi. induction Hrun as [x|x z y Hxz _ IH]; intros l Hi; [rewrite list_insert_id by done; apply rtc_refl|].
  destruct Hxz as [m p m1 p1 Hs]. assert (i < length l)%nat by by eapply lookup_lt_Some. eapply rtc_l; [by apply (step_thread (mkWorld m l) i p m1 p1)|].
  rewrite <- (list_insert_insert_eq l i y.2 p1). apply IH. by rewrite list_lookup_insert_eq.
Qed.

Ltac one_step rule := eapply rtc_l; [apply run_step, rule|].

Lemma unlock_returns m s : exists m', rtc thread_run (m, UnlockLoop s) (m', Idle).
Proof.
  destruct (Unlock_next (state_ m)) as [[new wakes] woken] eqn:E.
  assert (exists m', rtc thread_run (set_state m new, after_Unlock wakes woken) (m', Idle)) as (m' & Hrun).
  { unfold after_Unlock. destruct wakes; [|destruct (negb (woken =? 0))]; eexists; [one_step post_writer|one_step post_readers|]; apply rtc_refl. }
  exists m'. one_step unlock_retry. eapply rtc_l; [by apply run_step; apply (unlock_exchange m new wakes woken)|done].
Qed.

Lemma readunlock_returns m s : exists m', rtc thread_run (m, ReadUnlockLoop s) (m', Idle).
Proof.
  destruct (ReadUnlock_next (state_ m)) as [new wakes] eqn:E.
  assert (exists m', rtc thread_run (set_state m new, if wakes then PostWriter else Idle) (m', Idle)) as (m' & Hrun).
  { destruct wakes; eexists; [one_step post_writer|]; apply rtc_refl. }
  exists m'. one_step readunlock_retry. eapply rtc_l; [by apply run_step; apply (readunlock_exchange m new wakes)|done].
Qed.

Lemma writer_returns m : exists m', rtc thread_run (m, Writing) (m', Idle).
Proof. destruct (unlock_returns m (state_ m)) as (m' & Hrun). exists m'. by one_step call_Unlock. Qed.

Lemma reader_returns m : exists m', rtc thread_run (m, Reading) (m', Idle).
Proof. destruct (readunlock_returns m (state_ m)) as (m' & Hrun). exists m'. by one_step call_ReadUnlock. Qed.

(** The lock is free. *)
Definition free (m : Mutex) : Prop := has (state_ m) (Z.lor kWriterLock kReaderLockMask) = false.

Lemma lock_returns m s n r : free m -> exists m', rtc thread_run (m, LockLoop s n r) (m', Idle).
Proof.
  intros Hfree. set (new := Z.land (Z.lor (state_ m) kWriterLock) (reset_mask r kWriterSpinWait)).
  destruct (writer_returns (set_state m new)) as (m' & Hrun). exists m'.
  assert (rtc thread_run (m, LockLoop (state_ m) (n + 1) r) (m', Idle)).
  { eapply rtc_l; [|exact Hrun]. apply run_step, (lock_exchange m (n + 1) r new false). unfold Lock_choose. by rewrite Hfree. }
  destruct (Lock_choose s n r) as [|other lk] eqn:E; [by eapply rtc_l; [by apply run_step; apply lock_reload|]|by eapply rtc_l; [by apply run_step; eapply lock_retry|]].
Qed.

Lemma readlock_returns m s n r : free m -> exists m', rtc thread_run (m, ReadLockLoop s n r) (m', Idle).
Proof.
  intros Hfree. unfold free in Hfree. rewrite has_lor in Hfree. apply orb_false_iff in Hfree as [Hfree _].
  set (new := Z.land (state_ m +64 kReaderLockInc) (reset_mask r kReaderSpinWait)).
  destruct (reader_returns (set_state m new)) as (m' & Hrun). exists m'.
  assert (rtc thread_run (m, ReadLockLoop (state_ m) (n + 1) r) (m', Idle)).
  { eapply rtc_l; [|exact Hrun]. apply run_step, (readlock_exchange m (n + 1) r new false). unfold ReadLock_choose. by rewrite Hfree. }
  destruct (ReadLock_choose s n r) as [|other lk] eqn:E; [by eapply rtc_l; [by apply run_step; apply readlock_reload|]|by eapply rtc_l; [by apply run_step; eapply readlock_retry|]].
Qed.

Lemma trylock_returns m s : exists m', rtc thread_run (m, TryLockLoop s) (m', Idle).
Proof.
  destruct (has s (Z.lor kWriterLock kReaderLockMask)) eqn:Es; [exists m; by apply rtc_once, run_step, trylock_fails|].
  destruct (has (state_ m) (Z.lor kWriterLock kReaderLockMask)) eqn:Em.
  - exists m. eapply rtc_l; [by apply run_step; apply trylock_retry|]. by apply rtc_once, run_step, trylock_fails.
  - destruct (writer_returns (set_state m (Z.lor (state_ m) kWriterLock))) as (m' & Hrun). exists m'.
    eapply rtc_l; [by apply run_step; apply trylock_retry|]. by eapply rtc_l; [by apply run_step; apply trylock_exchange|].
Qed.

(** A thread that is not asleep can run to the end of its call, and of what it holds, if the
    lock is free or its own. *)
Lemma thread_returns m p : p <> Idle -> (p = LockWait -> 0 < writers_ m) -> (p = ReadLockWait -> 0 < readers_ m) ->
  free m \/ 0 < writing p \/ 0 < reading p -> exists m', rtc thread_run (m, p) (m', Idle).
Proof.
  intros Hp Hw Hr Hfree. destruct p as [|s n r| |n|s| |s| |n|s n r| |n| |s]; cbn [writing reading] in Hfree; try done.
  - apply lock_returns. naive_solver lia.
  - destruct (lock_returns (mkMutex (state_ m) (writers_ m - 1) (readers_ m)) (state_ m) 1 true) as (m' & Hrun); [naive_solver lia|].
    exists m'. one_step lock_wake; [by apply Hw|]. by one_step lock_again.
  - destruct (lock_returns m (state_ m) (n + 1) true) as (m' & Hrun); [naive_solver lia|]. exists m'. by one_step lock_again.
  - apply trylock_returns.
  - apply writer_returns.
  - apply unlock_returns.
  - eexists. by apply rtc_once, run_step, post_writer.
  - eexists. by apply rtc_once, run_step, post_readers.
  - apply readlock_returns. naive_solver lia.
  - destruct (readlock_returns (mkMutex (state_ m) (writers_ m) (readers_ m - 1)) (state_ m) 1 true) as (m' & Hrun); [naive_solver lia|].
    exists m'. one_step readlock_wake; [by apply Hr|]. by one_step readlock_again.
  - destruct (readlock_returns m (state_ m) (n + 1) true) as (m' & Hrun); [naive_solver lia|]. exists m'. by one_step readlock_again.
  - apply reader_returns.
  - apply readunlock_returns.
Qed.

(** While some thread is busy, one of them can run so. *)
Lemma some_thread_awake w i p : mutex_inv w -> w_threads w !! i = Some p -> p <> Idle ->
  exists j q, w_threads w !! j = Some q /\ q <> Idle /\ (q = LockWait -> 0 < writers_ (w_mutex w)) /\ (q = ReadLockWait -> 0 < readers_ (w_mutex w)) /\
    (free (w_mutex w) \/ 0 < writing q \/ 0 < reading q).
Proof.
  intros (Hlen & rc & wr & ww & wl & sw & sr & Hm) Hi Hp.
  pose proof (total_bounds _ _ _ _ _ _ _ _ Hm) as Hbounds. pose proof Hm as [Hf E1 E2 E3 E4 E5 E6 E7 E8 E9 E10 E11 E12 E13]. pose proof Hf as [].
  assert (forall f : pc -> Z, f Idle = 0 -> f LockWait = 0 -> f ReadLockWait = 0 -> (forall p, p ∈ w_threads w -> 0 <= f p) -> 0 < total f (w_threads w) ->
    free (w_mutex w) \/ (forall p, 0 < f p -> 0 < writing p \/ 0 < reading p) ->
    exists j q, w_threads w !! j = Some q /\ q <> Idle /\ (q = LockWait -> 0 < writers_ (w_mutex w)) /\ (q = ReadLockWait -> 0 < readers_ (w_mutex w)) /\
      (free (w_mutex w) \/ 0 < writing q \/ 0 < reading q)) as Hfind.
  { intros f H0 H1 H2 Hn Ht Hfree. destruct (total_pos f _ Hn Ht) as (j & q & Hj & Hq). exists j, q. split; [done|]. split; [intros ->; lia|].
    split; [intros ->; lia|]. split; [intros ->; lia|]. naive_solver. }
  assert (forall p, p ∈ w_threads w -> 0 <= posts_readers p) as Hpr.
  { intros q Hq. pose proof (proj1 (List.Forall_forall _ _) E7 q (proj1 (list_elem_of_In _ _) Hq)). destruct q; cbn in *; lia. }
  destruct (decide (0 < wl)); [apply (Hfind writing); try done; [by intros []|lia|naive_solver]|].
  destruct (decide (0 < rc)); [apply (Hfind reading); try done; [by intros []|lia|naive_solver]|].
  assert (free (w_mutex w)) as Hfree by (unfold free; rewrite E1, TryLock_pack by done; replace wl with 0 by lia; replace rc with 0 by lia; done).
  destruct (decide (0 < total posts_writer (w_threads w))); [apply (Hfind posts_writer); try done; [by intros []|by left]|].
  destruct (decide (0 < total posts_readers (w_threads w))); [apply (Hfind posts_readers); try done; by left|].
  destruct (decide (0 < total ends_writer_spins (w_threads w))); [apply (Hfind ends_writer_spins); try done; [apply totals_nonneg; tauto|by left]|].
  destruct (decide (0 < total ends_reader_spins (w_threads w))); [apply (Hfind ends_reader_spins); try done; [apply totals_nonneg; tauto|by left]|].
  assert (forall q : pc, q ∈ w_threads w -> 0 <= waits_to_write q) as Hww by by intros [].
  assert (forall q : pc, q ∈ w_threads w -> 0 <= waits_to_read q) as Hwr by by intros [].
  destruct (decide (0 < writers_ (w_mutex w))).
  { destruct (total_pos waits_to_write _ Hww) as (j & q & Hj & Hq); [lia|]. destruct q; try done. exists j, LockWait. split_and!; try done. by left. }
  destruct (decide (0 < readers_ (w_mutex w))).
  { destruct (total_pos waits_to_read _ Hwr) as (j & q & Hj & Hq); [lia|]. destruct q; try done. exists j, ReadLockWait. split_and!; try done. by left. }
  pose proof (total_member _ _ i p Hww Hi). pose proof (total_member _ _ i p Hwr Hi).
  exists i, p. split; [done|]. split; [done|]. split; [intros ->; cbn in *; lia|]. split; [intros ->; cbn in *; lia|by left].
Qed.

Definition busy (p : pc) : Z := match p with Idle => 0 | _ => 1 end.

Lemma all_idle m l rc wr ww wl sw sr : fields_mean m l rc wr ww wl sw sr -> (forall p, p ∈ l -> p = Idle) -> m = Mutex0 /\ l = repeat Idle (length l).
Proof.
  intros Hm Hidle. assert (l = repeat Idle (length l)) as El.
  { clear Hm. induction l as [|a l IH]; [done|]. cbn. rewrite (Hidle a) by set_solver. f_equal. apply IH. set_solver. }
  split; [|done]. pose proof Hm as [Hf E1 E2 E3 E4 E5 E6 E7 E8 E9 E10 E11 E12 E13]. pose proof Hf as []. rewrite El in *.
  rewrite !total_repeat in * by done. destruct m as [s a b]. cbn in *. unfold Mutex0. f_equal; [|lia..]. rewrite E1. unfold pack. lia.
Qed.


(** The conditions the code asserts in debug builds. *)
Lemma asserted_conditions n w i p : Z.of_nat n + 1 < 2 ^ 20 -> rtc step (world0 n) w -> w_threads w !! i = Some p ->
  match p with
  | LockReload _ => has (state_ (w_mutex w)) kWriterSpinWait = true
  | UnlockLoop _ => has (state_ (w_mutex w)) kWriterLock = true /\ has (state_ (w_mutex w)) kReaderLockMask = false
  | ReadUnlockLoop _ => has (state_ (w_mutex w)) kReaderLockMask = true /\ has (state_ (w_mutex w)) kWriterLock = false
  | PostReaders wake_readers => wake_readers <> 0
  | _ => True
  end.
Proof.
  intros Hn Hrun Hi. destruct (mutex_inv_reachable n w Hn Hrun) as (Hlen & rc & wr & ww & wl & sw & sr & Hm).
  pose proof (total_bounds _ _ _ _ _ _ _ _ Hm) as Hbounds. pose proof Hm as [Hf E1 E2 E3 E4 E5 E6 E7 E8 E9 E10 E11 E12 E13]. pose proof Hf as [].
  pose proof (total_member writing _ i p ltac:(by intros []) Hi). pose proof (total_member reading _ i p ltac:(by intros []) Hi).
  pose proof (total_member ends_writer_spins _ i p (totals_nonneg ends_writer_spins _ ltac:(tauto)) Hi).
  pose proof (proj1 (List.Forall_forall _ _) E7 p (proj1 (list_elem_of_In _ _) (list_elem_of_lookup_2 _ _ _ Hi))).
  destruct p; try done; rewrite ?E1, ?has_writer_spins, ?has_writer, ?has_readers, ?Z.ltb_lt, ?Z.ltb_ge by done; cbn in *; try split; lia.
Qed.

(** ** The theorems at work *)

Lemma move m l i p m' p' : l !! i = Some p -> thread_step m p m' p' -> step (mkWorld m l) (mkWorld m' (<[i := p']> l)).
Proof. intros Hi Hs. by apply (step_thread (mkWorld m l) i p). Qed.

(** The first thread writes. *)
Definition writer_mutex : Mutex := mkMutex (pack 0 0 0 1 0 0) 0 0.

Lemma first_writes : rtc step (world0 3) (mkWorld writer_mutex [Writing; Idle; Idle]).
Proof.
  eapply rtc_l; [apply (move _ _ 0 Idle); [done|apply call_Lock]|].
  eapply rtc_l; [apply (move _ _ 0 (LockLoop (state_ Mutex0) 0 false)); [done|by apply (lock_exchange Mutex0 0 false (pack 0 0 0 1 0 0) false)]|]. apply rtc_refl.
Qed.

Lemma mutex_excludes_witness : reading Idle = 0 /\ Z.land (state_ writer_mutex) kReaderLockMask = 0.
Proof.
  destruct (mutex_excludes 3 _ ltac:(lia) first_writes) as (He & _ & Hr). split; [|exact Hr].
  exact (proj2 (He 0%nat 1%nat Writing Idle eq_refl eq_refl ltac:(lia) eq_refl)).
Defined.

(** A thread that finds the lock taken and the flag of spinning set reloads the word. *)
Lemma spins m l i k r n : l !! i = Some (LockLoop (state_ m) k r) -> (forall j, 0 <= j <= kMaxSpinIters -> Lock_choose (state_ m) j r = Reload) -> 0 <= k ->
  k + Z.of_nat n <= kMaxSpinIters + 1 -> rtc step (mkWorld m l) (mkWorld m (<[i := LockLoop (state_ m) (k + Z.of_nat n) r]> l)).
Proof.
  intros Hi Hc Hk. induction n as [|n IH]; intros Hn.
  - rewrite Z.add_0_r, list_insert_id by done. apply rtc_refl.
  - eapply rtc_r; [apply IH; lia|]. assert (i < length l)%nat by by eapply lookup_lt_Some.
    pose proof (move m (<[i := LockLoop (state_ m) (k + Z.of_nat n) r]> l) i _ _ _ ltac:(by rewrite list_lookup_insert_eq) (lock_reload m (state_ m) (k + Z.of_nat n) r ltac:(apply Hc; lia))) as Hs.
    rewrite list_insert_insert_eq in Hs. by replace (k + Z.of_nat (S n)) with (k + Z.of_nat n + 1) by lia.
Qed.

Lemma second_blocks : rtc step (world0 3) (mkWorld (mkMutex (pack 0 0 1 1 0 0) 0 0) [Writing; LockWait; Idle]).
Proof.
  etrans; [exact first_writes|]. eapply rtc_l; [apply (move _ _ 1 Idle); [done|apply call_Lock]|]. cbn [list_insert state_ writer_mutex].
  eapply rtc_l; [apply (move _ _ 1 (LockLoop (state_ writer_mutex) 0 false)); [done|by apply (lock_exchange writer_mutex 0 false (pack 0 0 0 1 1 0) true)]|].
  eapply rtc_l; [apply (move _ _ 1 (LockReload 0)); [done|apply lock_again]|]. cbn [Z.add].
  set (m := set_state writer_mutex (pack 0 0 0 1 1 0)).
  etrans; [apply (spins m _ 1 1 true 1500); [done| |lia|done]|].
  { intros j Hj. change (state_ m) with (pack 0 0 0 1 1 0). rewrite Lock_choose_pack by (done || lia). cbn [Z.eqb andb]. by rewrite (proj2 (Z.ltb_ge _ _)) by lia. }
  replace (1 + Z.of_nat 1500) with 1501 by lia. apply rtc_once. 
  exact (move m [Writing; LockLoop (state_ m) 1501 true; Idle] 1 _ _ LockWait eq_refl (lock_exchange m 1501 true (pack 0 0 1 1 0 0) true eq_refl)).
Qed.


(** A writer may wait for a mutex nobody holds, while another one spins: the comment in the
    header says that a mutex with waiting writers is locked. *)
Lemma waiting_writer_on_free_mutex : exists w, rtc step (world0 3) w /\ free (w_mutex w) /\ Z.land (state_ (w_mutex w)) kWaitingWriterMask = kWaitingWriterInc.
Proof.
  exists (mkWorld (mkMutex (pack 0 0 1 0 1 0) 0 0) [Idle; LockWait; LockReload 0]). split; [|done]. etrans; [exact second_blocks|].
  set (m := mkMutex (pack 0 0 1 1 0 0) 0 0). set (m' := mkMutex (pack 0 0 1 1 1 0) 0 0).
  eapply rtc_l; [apply (move m _ 2 Idle); [done|apply call_Lock]|].
  eapply rtc_l; [apply (move m _ 2 (LockLoop (state_ m) 0 false)); [done|by apply (lock_exchange m 0 false (pack 0 0 1 1 1 0) true)]|].
  eapply rtc_l; [apply (move m' _ 0 Writing); [done|apply call_Unlock]|]. apply rtc_once.
  exact (move m' [UnlockLoop (state_ m'); LockWait; LockReload 0] 0 _ _ Idle eq_refl (unlock_exchange m' (pack 0 0 1 0 1 0) false 0 eq_refl)).
Qed.
