(* ===== verification/AddrHashMap.v ===== *)
(** * AddrHashMap: the concurrent map of the common interceptors

    src/rt/sanitizer_common/sanitizer_addrhashmap.h: a table of buckets, each a [Mutex], three
    cells that are read without it, and an array of more cells that is read under it.  A
    bucket is modelled with the threads that use it; the others are independent of it.

    Of the accesses of a thread, each load and store that another thread may see is a step:
    the loads of the embedded cells without the lock, and the stores to them.  What is done
    under the lock and touches only what the lock protects is one step with its end; the lock
    is held by the threads whose place in the code is in its section, as Mutex shows of the
    real one.  A handle's cell is its index in the embedded cells followed by the others.

    [map_is_linearizable]: every operation acts on a finite map at one instant between its
    start and its end.  The places where the code checks a condition are shown to hold it
    ([checks_hold]), and ForEach to meet each element of a bucket once ([visited_elements],
    [visited_once]). *)

From S2P Require Import Prelude Common Mutex.

Section map.
(** The type of the values, the value of zeroed memory, [sizeof(Cell)]. *)
Context {V : Type} (zeroed : V) (cell_size : Z).

(** ** Buckets *)

Record Cell := mkCell { c_addr : Z; c_val : V }.
Record AddBucket := mkAddBucket { cap : Z; size : nat; cells : list Cell }.
Record Bucket := mkBucket { embed : list Cell; add : option AddBucket }.

Definition kBucketSize : nat := 3.

(** A zeroed table: MmapOrDie. *)
Definition empty_cell : Cell := mkCell 0 zeroed.
Definition Bucket0 : Bucket := mkBucket (repeat empty_cell kBucketSize) None.

Definition calcHash (kSize addr : Z) : Z :=
  let addr := u64 (addr + u64 (Z.shiftl addr 10)) in
  let addr := Z.lxor addr (Z.shiftr addr 6) in
  addr mod kSize.

(** [&b->cells[i]], [&add->cells[i - kBucketSize]]. *)
Definition all_cells (b : Bucket) : list Cell := embed b ++ match add b with Some a => cells a | None => [] end.

Definition set_cell (b : Bucket) (i : nat) (c : Cell) : Bucket :=
  if (i <? kBucketSize)%nat then mkBucket (<[i := c]> (embed b)) (add b)
  else mkBucket (embed b) (match add b with Some a => Some (mkAddBucket (cap a) (size a) (<[(i - kBucketSize)%nat := c]> (cells a))) | None => None end).

(** The index of the first cell of the address. *)
Definition find_addr (l : list Cell) (addr : Z) : option nat := fst <$> list_find (fun c => c_addr c = addr) l.

Definition added (b : Bucket) : list Cell := match add b with Some a => take (size a) (cells a) | None => [] end.

(** ** [acquire] *)

Record Handle := mkHandle { addr_ : Z; remove_ : bool; create_ : bool }.

Definition sizeof_AddBucket : Z := 16 + cell_size.
Definition kInitSize : Z := 64.

(** The array with room for one more cell. *)
Definition allocated_add (b : Bucket) : AddBucket :=
  match add b with
  | Some a => a
  | None => let n := u64 (kInitSize - sizeof_AddBucket) / cell_size + 1 in mkAddBucket n 0 (repeat empty_cell (Z.to_nat n))
  end.

Definition grown_add (a : AddBucket) : AddBucket :=
  if Z.of_nat (size a) =? cap a then
    let oldsize := sizeof_AddBucket + (cap a - 1) * cell_size in
    let newsize := oldsize * 2 in
    let n := (newsize - sizeof_AddBucket) / cell_size + 1 in
    mkAddBucket n (size a) (take (size a) (cells a) ++ repeat empty_cell (Z.to_nat n - size a))
  else a.

Inductive found := Retry | Hold (i : nat) | Absent | Create (b : Bucket) (i : nat).

(** From [b->mtx.Lock()] on. *)
Definition locked_phase (b : Bucket) (h : Handle) : found :=
  match find_addr (embed b) (addr_ h) with
  | Some i => if remove_ h then Hold i else Retry
  | None =>
      match find_addr (added b) (addr_ h) with
      | Some i => if remove_ h then Hold (kBucketSize + i) else Retry
      | None =>
          if remove_ h || negb (create_ h) then Absent
          else match find_addr (embed b) 0 with
               | Some i => Create b i
               | None =>
                   let a := grown_add (allocated_add b) in
                   Create (mkBucket (embed b) (Some (mkAddBucket (cap a) (S (size a)) (cells a)))) (kBucketSize + size a)
               end
      end
  end.

(** ** [release] of a removed element *)

(** The compaction, after the cell [i] was emptied. *)
Definition compact (b : Bucket) (i : nat) : Bucket :=
  match add b with
  | None => b
  | Some a =>
      if (i <? kBucketSize)%nat && (size a =? 0)%nat then b else
      let last := (kBucketSize + Nat.pred (size a))%nat in
      let b := mkBucket (embed b) (Some (mkAddBucket (cap a) (Nat.pred (size a)) (cells a))) in
      if (i =? last)%nat then b
      else match all_cells b !! last with
           | Some c1 => set_cell (set_cell b i c1) last (mkCell 0 (c_val c1))
           | None => b
           end
  end.

(** ** [ForEach] *)

(** What a bucket gives the callback; it is called under the read lock. *)
Definition visited (b : Bucket) : list (Z * V) :=
  (fun c => (c_addr c, c_val c)) <$> filter (fun c => c_addr c <> 0) (embed b ++ added b).
Definition ForEach (table : list Bucket) : list (Z * V) := table ≫= visited.

(** ** The threads *)

(** How the cell of a handle may be used. *)
Inductive access := Shared | Shared_locked | Created | Removing.

Inductive pc :=
| Idle
| Probe (h : Handle) (i : nat)    (* before the load of an embedded cell *)
| LoadAdd (h : Handle)            (* before the load of [b->add] *)
| WantRead (h : Handle)
| InRead (h : Handle)
| WantLock (h : Handle)
| InLock (h : Handle)
| Held (h : Handle) (i : nat) (m : access)
| Missing (h : Handle)            (* the handle has no cell *)
| Published (h : Handle)          (* before the unlock of an insertion *)
| Emptied (h : Handle) (i : nat)  (* before the compaction *)
| Compacted.

Definition writer (p : pc) : Z :=
  match p with InLock _ | Held _ _ Created | Held _ _ Removing | Published _ | Emptied _ _ | Compacted => 1 | _ => 0 end.
Definition reader (p : pc) : Z := match p with InRead _ | Held _ _ Shared_locked => 1 | _ => 0 end.

(** What a step does to the map, or has learnt of it. *)
Inductive label := Tau | Found (addr : Z) | NotThere (addr : Z) | Insert (addr : Z) (v : V) | Delete (addr : Z).

(** The step of a thread; [writers] and [readers] are the others in the lock's sections. *)
Inductive thread_step (writers readers : Z) (b : Bucket) : pc -> label -> Bucket -> pc -> Prop :=
| call_acquire h : addr_ h <> 0 -> thread_step writers readers b Idle Tau b (if remove_ h then WantLock h else Probe h 0)
| probe_hit h i c : (i < kBucketSize)%nat -> embed b !! i = Some c -> c_addr c = addr_ h ->
    thread_step writers readers b (Probe h i) (Found (addr_ h)) b (Held h i Shared)
| probe_miss h i c : (i < kBucketSize)%nat -> embed b !! i = Some c -> c_addr c <> addr_ h -> thread_step writers readers b (Probe h i) Tau b (Probe h (S i))
| probe_end h : thread_step writers readers b (Probe h kBucketSize) Tau b (LoadAdd h)
| load_add h : thread_step writers readers b (LoadAdd h) Tau b (match add b with Some _ => WantRead h | None => WantLock h end)
| read_lock h : writers = 0 -> thread_step writers readers b (WantRead h) Tau b (InRead h)
| read_hit h i : find_addr (added b) (addr_ h) = Some i ->
    thread_step writers readers b (InRead h) (Found (addr_ h)) b (Held h (kBucketSize + i) Shared_locked)
| read_miss h : find_addr (added b) (addr_ h) = None -> thread_step writers readers b (InRead h) Tau b (WantLock h)
| lock h : writers = 0 -> readers = 0 -> thread_step writers readers b (WantLock h) Tau b (InLock h)
| locked_retry h : locked_phase b h = Retry -> thread_step writers readers b (InLock h) Tau b (Probe h 0)
| locked_hold h i : locked_phase b h = Hold i -> thread_step writers readers b (InLock h) (Found (addr_ h)) b (Held h i Removing)
| locked_absent h : locked_phase b h = Absent -> thread_step writers readers b (InLock h) (NotThere (addr_ h)) b (Missing h)
| locked_create h b' i : locked_phase b h = Create b' i -> thread_step writers readers b (InLock h) (NotThere (addr_ h)) b' (Held h i Created)
(** the owner of the handle of a new cell writes the value *)
| write_value h i c v : all_cells b !! i = Some c -> thread_step writers readers b (Held h i Created) Tau (set_cell b i (mkCell (c_addr c) v)) (Held h i Created)
(** [release] *)
| release_missing h : thread_step writers readers b (Missing h) Tau b Idle
| release_shared h i : thread_step writers readers b (Held h i Shared) Tau b Idle
| release_locked h i : thread_step writers readers b (Held h i Shared_locked) Tau b Idle
| release_created h i c : all_cells b !! i = Some c ->
    thread_step writers readers b (Held h i Created) (Insert (addr_ h) (c_val c)) (set_cell b i (mkCell (addr_ h) (c_val c))) (Published h)
| unlock_created h : thread_step writers readers b (Published h) Tau b Idle
| release_removed h i c : all_cells b !! i = Some c ->
    thread_step writers readers b (Held h i Removing) (Delete (addr_ h)) (set_cell b i (mkCell 0 (c_val c))) (Emptied h i)
| compacts h i : thread_step writers readers b (Emptied h i) Tau (compact b i) Compacted
| unlock_removed : thread_step writers readers b Compacted Tau b Idle.

Record world := mkWorld { bucket : Bucket; threads : list pc }.

Inductive step : world -> label -> world -> Prop :=
| step_thread w i p l b' p' : threads w !! i = Some p ->
    thread_step (total writer (threads w)) (total reader (threads w)) (bucket w) p l b' p' -> step w l (mkWorld b' (<[i := p']> (threads w))).

Definition world0 (n : nat) : world := mkWorld Bucket0 (repeat Idle n).

Inductive reachable (n : nat) : world -> Prop :=
| reach_start : reachable n (world0 n)
| reach_step w l w' : reachable n w -> step w l w' -> reachable n w'.

(** The map of a bucket: what a search of all its cells finds. *)
Definition contents (b : Bucket) (addr : Z) : option V := c_val ∘ snd <$> list_find (fun c => c_addr c = addr) (all_cells b).

(** ** Buckets that are in order *)

Record bucket_ok (b : Bucket) : Prop := {
  bo_embed : length (embed b) = kBucketSize;
  bo_add : forall a, add b = Some a -> Z.of_nat (length (cells a)) = cap a /\ (size a <= length (cells a))%nat /\
             (forall j c, (size a <= j)%nat -> cells a !! j = Some c -> c_addr c = 0) /\ 0 < cap a;
  bo_unique : forall i j c d, all_cells b !! i = Some c -> all_cells b !! j = Some d -> c_addr c = c_addr d -> c_addr c <> 0 -> i = j
}.

(** An index of a cell in use or that may be used. *)
Definition live (b : Bucket) (i : nat) : Prop := (i < kBucketSize + length (added b))%nat.

Lemma added_length b : bucket_ok b -> length (added b) = match add b with Some a => size a | None => 0%nat end.
Proof.
  intros [_ Ha _]. unfold added. destruct (add b) as [a|]; [|done]. destruct (Ha a eq_refl) as (_ & Hs & _). rewrite length_take. lia.
Qed.

Lemma live_cell b i : bucket_ok b -> live b i -> exists c, all_cells b !! i = Some c.
Proof.
  intros Hb Hl. apply lookup_lt_is_Some. unfold live in Hl. rewrite added_length in Hl by done. revert Hl. unfold all_cells. rewrite length_app, (bo_embed b Hb).
  destruct (add b) as [a|] eqn:E; [destruct (bo_add b Hb a E) as (_ & Hs & _); lia|cbn; lia].
Qed.

Lemma embed_cell b i : bucket_ok b -> (i < kBucketSize)%nat -> all_cells b !! i = embed b !! i.
Proof. intros Hb Hi. unfold all_cells. apply lookup_app_l. by rewrite (bo_embed b Hb). Qed.

Lemma added_cell b i c : bucket_ok b -> added b !! i = Some c -> all_cells b !! (kBucketSize + i)%nat = Some c.
Proof.
  intros Hb Hi. unfold all_cells. rewrite lookup_app_r by (rewrite (bo_embed b Hb); lia). rewrite (bo_embed b Hb). replace (kBucketSize + i - kBucketSize)%nat with i by lia.
  unfold added in Hi. destruct (add b) as [a|]; [|done]. by apply lookup_take_Some in Hi as [Hi _].
Qed.

Lemma all_set_cell b i c : bucket_ok b -> live b i -> all_cells (set_cell b i c) = <[i := c]> (all_cells b).
Proof.
  intros Hb Hl. unfold set_cell, all_cells. destruct (Nat.ltb_spec i kBucketSize) as [Hi|Hi]; cbn [embed add].
  - by rewrite insert_app_l by (by rewrite (bo_embed b Hb)).
  - unfold live in Hl. destruct (add b) as [a|] eqn:E; [|unfold added in Hl; rewrite E in Hl; cbn [length] in Hl; lia]. cbn [cells].
    rewrite insert_app_r_alt by (rewrite (bo_embed b Hb); lia). by rewrite (bo_embed b Hb).
Qed.

Lemma added_set_length b i c : length (added (set_cell b i c)) = length (added b).
Proof.
  unfold set_cell. destruct (i <? kBucketSize)%nat; [done|]. unfold added. cbn [add]. destruct (add b) as [a|]; [|done]. cbn [size cells]. rewrite !length_take, length_insert. done.
Qed.

(** The shape of a bucket stays when a cell in use changes. *)
Lemma set_cell_ok b i c : bucket_ok b -> live b i ->
  (c_addr c <> 0 -> forall j d, j <> i -> all_cells b !! j = Some d -> c_addr d <> c_addr c) -> bucket_ok (set_cell b i c).
Proof.
  intros Hb Hl Hu. split.
  - unfold set_cell. destruct (i <? kBucketSize)%nat; cbn [embed]; [rewrite length_insert|]; apply Hb.
  - intros a Ha. unfold set_cell in Ha. destruct (Nat.ltb_spec i kBucketSize); cbn [add] in Ha; [by apply Hb|].
    destruct (add b) as [a0|] eqn:E; [|done]. injection Ha as <-. cbn [cap size cells]. destruct (bo_add b Hb a0 E) as (H1 & H2 & H3 & H4). rewrite length_insert.
    split; [done|]. split; [done|]. split; [|done]. intros j d Hj [(Eij & _ & _)|[_ Hd]]%list_lookup_insert_Some; [|by eapply H3].
    exfalso. unfold live in Hl. rewrite added_length, E in Hl by done. lia.
  - intros j k d e. rewrite all_set_cell by done. intros [(-> & -> & _)|[Hji Hd]]%list_lookup_insert_Some [(-> & -> & _)|[Hki He]]%list_lookup_insert_Some Heq Hne; try done.
    + exfalso. by apply (Hu Hne k e).
    + exfalso. apply (Hu ltac:(congruence) j d); [done|done|congruence].
    + by apply (bo_unique b Hb j k d e).
Qed.

(** *** The map *)

Definition holds (b : Bucket) (addr : Z) (v : V) : Prop := exists i c, all_cells b !! i = Some c /\ c_addr c = addr /\ c_val c = v.

Lemma contents_holds b addr v : bucket_ok b -> addr <> 0 -> contents b addr = Some v <-> holds b addr v.
Proof.
  intros Hb Ha. unfold contents. split.
  - intros Hf. destruct (list_find (fun c => c_addr c = addr) (all_cells b)) as [[i c]|] eqn:E; [|done]. apply list_find_Some in E as (Hi & Hc & _).
    exists i, c. split; [done|]. split; [done|]. by injection Hf.
  - intros (i & c & Hi & Hc & Hv). assert (list_find (fun c => c_addr c = addr) (all_cells b) = Some (i, c)) as ->; [|cbn; congruence].
    apply list_find_Some. split; [done|]. split; [done|]. intros j d Hj Hlt Hd. assert (j = i) as ->; [|lia]. apply (bo_unique b Hb j i d c); congruence.
Qed.

Lemma contents_none b addr : bucket_ok b -> addr <> 0 -> contents b addr = None <-> forall i c, all_cells b !! i = Some c -> c_addr c <> addr.
Proof.
  intros Hb Ha. split.
  - intros Hn i c Hi Hc. assert (holds b addr (c_val c)) as Hh by by exists i, c. apply contents_holds in Hh; [congruence|done|done].
  - intros Hall. destruct (contents b addr) as [v|] eqn:E; [|done]. apply contents_holds in E as (i & c & Hi & Hc & _); [|done|done]. by apply Hall in Hi.
Qed.

Lemma contents_ext b b' addr : bucket_ok b -> bucket_ok b' -> addr <> 0 -> (forall v, holds b' addr v <-> holds b addr v) -> contents b' addr = contents b addr.
Proof. intros Hb Hb' Ha Hh. apply option_eq. intros v. by rewrite !contents_holds. Qed.

(** The cell [i] changes to [c]: what the map finds at another address, and at its own. *)
Lemma contents_set b i c c0 addr : bucket_ok b -> bucket_ok (set_cell b i c) -> live b i -> all_cells b !! i = Some c0 -> addr <> 0 ->
  contents (set_cell b i c) addr = if addr =? c_addr c then Some (c_val c) else if addr =? c_addr c0 then None else contents b addr.
Proof.
  intros Hb Hb' Hl Hi Ha. assert (i < length (all_cells b))%nat by by eapply lookup_lt_Some.
  destruct (Z.eqb_spec addr (c_addr c)) as [->|Hne].
  { apply contents_holds; [done|done|]. exists i, c. rewrite all_set_cell by done. by rewrite list_lookup_insert_eq. }
  destruct (Z.eqb_spec addr (c_addr c0)) as [->|Hne0].
  { apply contents_none; [done|done|]. intros j d. rewrite all_set_cell by done. intros [(-> & -> & _)|[Hij Hd]]%list_lookup_insert_Some; [done|].
    intros Heq. apply Hij. symmetry. apply (bo_unique b Hb j i d c0); [done|done|done|congruence]. }
  apply contents_ext; [done..|]. intros v. split; intros (j & d & Hj & Hd & Hv).
  - rewrite all_set_cell in Hj by done. apply list_lookup_insert_Some in Hj as [(-> & -> & _)|[_ Hj]]; [congruence|]. by exists j, d.
  - exists j, d. rewrite all_set_cell by done. rewrite list_lookup_insert_ne; [done|]. intros ->. congruence.
Qed.

(** *** Searching *)

Lemma find_addr_Some l addr i : find_addr l addr = Some i -> exists c, l !! i = Some c /\ c_addr c = addr.
Proof.
  unfold find_addr. destruct (list_find _ l) as [[j c]|] eqn:E; [|done]. intros [= <-]. apply list_find_Some in E as (Hi & Hc & _). by exists c.
Qed.

Lemma find_addr_None l addr : find_addr l addr = None -> forall i c, l !! i = Some c -> c_addr c <> addr.
Proof.
  unfold find_addr. destruct (list_find _ l) as [[j c]|] eqn:E; [done|]. intros _ i c Hi. apply list_find_None in E. apply (proj1 (List.Forall_forall _ _) E).
  by eapply list_elem_of_In, list_elem_of_lookup_2.
Qed.

(** A cell of the bucket is embedded, added, or empty. *)
Lemma cell_cases b i c : bucket_ok b -> all_cells b !! i = Some c -> embed b !! i = Some c \/ (exists j, i = (kBucketSize + j)%nat /\ added b !! j = Some c) \/ c_addr c = 0.
Proof.
  intros Hb Hi. unfold all_cells in Hi. apply lookup_app_Some in Hi as [Hi|[Hge Hi]]; [by left|right]. rewrite (bo_embed b Hb) in Hge, Hi.
  destruct (add b) as [a|] eqn:E; [|done]. destruct (bo_add b Hb a E) as (H1 & H2 & H3 & H4).
  destruct (decide (i - kBucketSize < size a)%nat) as [Hlt|Hnl]; [left|right; by apply (H3 (i - kBucketSize)%nat c); [lia|]].
  exists (i - kBucketSize)%nat. split; [lia|]. unfold added. rewrite E. by apply lookup_take_Some.
Qed.

Lemma absent_everywhere b addr : bucket_ok b -> addr <> 0 -> find_addr (embed b) addr = None -> find_addr (added b) addr = None -> contents b addr = None.
Proof.
  intros Hb Ha He Hadd. apply contents_none; [done|done|]. intros i c Hi Hc. destruct (cell_cases b i c Hb Hi) as [Hin|[(j & _ & Hin)|H0]].
  - by apply (find_addr_None _ _ He i c).
  - by apply (find_addr_None _ _ Hadd j c).
  - congruence.
Qed.

(** A visit meets the elements of the bucket, each once. *)
Lemma visited_elements b addr v : bucket_ok b -> addr <> 0 -> (addr, v) ∈ visited b <-> contents b addr = Some v.
Proof.
  intros Hb Ha. rewrite contents_holds by done. unfold visited. rewrite list_elem_of_fmap. setoid_rewrite list_elem_of_filter. setoid_rewrite elem_of_app. split.
  - intros ([a w] & [= -> ->] & _ & [Hin|Hin]); apply list_elem_of_lookup in Hin as [i Hi].
    + exists i, (mkCell a w). rewrite embed_cell; [done|done|]. rewrite <- (bo_embed b Hb). by eapply lookup_lt_Some.
    + exists (kBucketSize + i)%nat, (mkCell a w). split; [by apply added_cell|done].
  - intros (i & c & Hi & <- & <-). exists c. split; [done|]. split; [done|].
    destruct (cell_cases b i c Hb Hi) as [Hin|[(j & _ & Hin)|?]]; [left|right|done]; by eapply list_elem_of_lookup_2.
Qed.

Lemma visited_once b : bucket_ok b -> NoDup (visited b).*1.
Proof.
  intros Hb. unfold visited. rewrite <- list_fmap_compose. assert (exists r, all_cells b = (embed b ++ added b) ++ r) as [r Er].
  { unfold all_cells, added. destruct (add b) as [a|]; [exists (drop (size a) (cells a))|exists []; by rewrite !app_nil_r]. by rewrite <- app_assoc, take_drop. }
  pose proof (bo_unique b Hb) as Hu. rewrite Er in Hu. clear Er. revert Hu. generalize (embed b ++ added b). intros l. induction l as [|c l IH]; intros Hu; [constructor|].
  assert (NoDup ((fst ∘ (fun c : Cell => (c_addr c, c_val c))) <$> filter (fun c => c_addr c <> 0) l)) as Hl.
  { apply IH. intros i j d e Hi Hj Heq Hne. pose proof (Hu (S i) (S j) d e Hi Hj Heq Hne). lia. }
  rewrite filter_cons. destruct (decide (c_addr c <> 0)) as [Hc|]; [|done]. rewrite fmap_cons. constructor; [|done].
  intros (d & Hd & [_ Hin]%list_elem_of_filter)%list_elem_of_fmap. apply list_elem_of_lookup in Hin as [j Hj].
  pose proof (Hu 0%nat (S j) c d eq_refl ltac:(cbn; by apply lookup_app_l_Some) Hd Hc). lia.
Qed.

(** ** The operations keep the bucket in order *)

Context (Hcell : 0 < cell_size <= 48).

Definition old_cells (b : Bucket) : list Cell := match add b with Some a => cells a | None => [] end.

Lemma repeat_lookup {A} (x : A) n i c : repeat x n !! i = Some c -> c = x.
Proof. intros H. apply list_elem_of_lookup_2, list_elem_of_In in H. by eapply repeat_spec. Qed.

(** There is room for one more cell, the cells keep their places, the new ones are empty. *)
Lemma grown_ok b : bucket_ok b ->
  let a := grown_add (allocated_add b) in
  Z.of_nat (length (cells a)) = cap a /\ (size a < length (cells a))%nat /\ size a = length (added b) /\ 0 < cap a /\
  exists k, cells a = old_cells b ++ repeat empty_cell k.
Proof.
  intros Hb. assert (exists k, cells (allocated_add b) = old_cells b ++ repeat empty_cell k) as [k Ek].
  { unfold allocated_add, old_cells. destruct (add b) as [a|]; [exists 0%nat; by rewrite app_nil_r|by eexists]. }
  assert (Z.of_nat (length (cells (allocated_add b))) = cap (allocated_add b) /\ (size (allocated_add b) <= length (cells (allocated_add b)))%nat /\
    size (allocated_add b) = length (added b) /\ 0 < cap (allocated_add b)) as (H1 & H2 & H3 & H4).
  { unfold allocated_add. rewrite added_length by done. destruct (add b) as [a|] eqn:E; [destruct (bo_add b Hb a E) as (? & ? & _ & ?); auto|].
    cbn [cap size cells]. rewrite repeat_length. unfold kInitSize, sizeof_AddBucket. rewrite u64_small by lia. pose proof (Z.div_pos (64 - (16 + cell_size)) cell_size ltac:(lia) ltac:(lia)). lia. }
  cbv zeta. unfold grown_add. destruct (Z.eqb_spec (Z.of_nat (size (allocated_add b))) (cap (allocated_add b))) as [Hfull|Hroom].
  - cbn [cap size cells]. set (n := _ / cell_size + 1). assert (2 * cap (allocated_add b) <= n) as Hn.
    { unfold n, sizeof_AddBucket. set (k0 := cap (allocated_add b)) in *. replace ((16 + cell_size + (k0 - 1) * cell_size) * 2 - (16 + cell_size)) with (16 + (2 * k0 - 1) * cell_size) by ring.
      rewrite Z.div_add by lia. pose proof (Z.div_pos 16 cell_size ltac:(lia) ltac:(lia)). lia. }
    rewrite take_ge by lia. rewrite length_app, repeat_length. split; [lia|]. split; [lia|]. split; [done|]. split; [lia|].
    exists (k + (Z.to_nat n - size (allocated_add b)))%nat. rewrite Ek, <- app_assoc. f_equal. by rewrite repeat_app.
  - split; [done|]. split; [lia|]. split; [done|]. split; [done|]. by exists k.
Qed.

(** New empty cells change nothing. *)
Lemma more_cells b a k : bucket_ok b -> cells a = old_cells b ++ repeat empty_cell k -> Z.of_nat (length (cells a)) = cap a -> 0 < cap a ->
  (length (added b) <= size a <= length (cells a))%nat -> let b' := mkBucket (embed b) (Some a) in
  bucket_ok b' /\ (forall x, x <> 0 -> contents b' x = contents b x).
Proof.
  intros Hb Ec El Hcap Hsize b'. assert (all_cells b' = all_cells b ++ repeat empty_cell k) as Ea by (unfold all_cells at 1; cbn [embed add b']; by rewrite Ec, app_assoc).
  assert (forall i c, all_cells b' !! i = Some c -> c_addr c <> 0 -> all_cells b !! i = Some c) as Hold.
  { intros i c. rewrite Ea. intros [Hi|[_ Hi]]%lookup_app_Some Hne; [done|]. apply repeat_lookup in Hi. by subst. }
  assert (forall i c, all_cells b !! i = Some c -> all_cells b' !! i = Some c) as Hnew.
  { intros i c Hi. rewrite Ea. by apply lookup_app_l_Some. }
  assert (bucket_ok b') as Hb'.
  { split; [by apply Hb| |].
    - intros a0 [= <-]. split; [done|]. split; [lia|]. split; [|done]. intros j c Hj Hc. rewrite Ec in Hc. apply lookup_app_Some in Hc as [Hc|[_ Hc]]; [|apply repeat_lookup in Hc; by subst].
      unfold old_cells in Hc. rewrite added_length in Hsize by done. destruct (add b) as [a1|] eqn:E; [|done]. destruct (bo_add b Hb a1 E) as (_ & _ & Hz & _). apply (Hz j c); [lia|done].
    - intros i j c d Hi Hj Heq Hne. apply (bo_unique b Hb i j c d); [by apply Hold|apply Hold; congruence|done|done]. }
  split; [done|]. intros x Hx. apply contents_ext; [done..|]. intros v. split; intros (i & c & Hi & Hc & Hv); exists i, c; (split; [|done]); [apply Hold; congruence|by apply Hnew].
Qed.

Lemma create_effect b h b' i : bucket_ok b -> addr_ h <> 0 -> locked_phase b h = Create b' i ->
  bucket_ok b' /\ live b' i /\ (exists c, all_cells b' !! i = Some c /\ c_addr c = 0) /\ contents b (addr_ h) = None /\ (forall x, x <> 0 -> contents b' x = contents b x).
Proof.
  intros Hb Ha Hl. unfold locked_phase in Hl. destruct (find_addr (embed b) (addr_ h)) eqn:E1; [by destruct (remove_ h)|].
  destruct (find_addr (added b) (addr_ h)) eqn:E2; [by destruct (remove_ h)|]. destruct (remove_ h || negb (create_ h)); [done|].
  pose proof (absent_everywhere b (addr_ h) Hb Ha E1 E2) as Habs. destruct (find_addr (embed b) 0) as [j|] eqn:E0.
  - injection Hl as <- <-. destruct (find_addr_Some _ _ _ E0) as (c & Hj & Hc). assert (j < kBucketSize)%nat as Hlt by (rewrite <- (bo_embed b Hb); by eapply lookup_lt_Some).
    split; [done|]. split; [unfold live; lia|]. split; [exists c; by rewrite embed_cell|]. done.
  - pose proof (grown_ok b Hb) as (H1 & H2 & H3 & H4 & k & H5). set (a := grown_add (allocated_add b)) in *. injection Hl as <- <-.
    destruct (more_cells b (mkAddBucket (cap a) (S (size a)) (cells a)) k Hb H5 H1 H4 ltac:(cbn [size cells]; lia)) as [Hb' Hc].
    assert (live (mkBucket (embed b) (Some (mkAddBucket (cap a) (S (size a)) (cells a)))) (kBucketSize + size a)) as Hlive.
    { unfold live. rewrite added_length by done. cbn [add size]. lia. }
    split; [done|]. split; [done|]. split; [|done]. destruct (live_cell _ _ Hb' Hlive) as [c Hcell0]. exists c. split; [done|].
    (* it lies in the old cells after the used ones, or in the new ones *)
    unfold all_cells in Hcell0. cbn [embed add cells] in Hcell0. rewrite H5, app_assoc in Hcell0. apply lookup_app_Some in Hcell0 as [Ho|[_ Ho]]; [|apply repeat_lookup in Ho; by subst].
    destruct (Z.eq_dec (c_addr c) 0) as [|Hne]; [done|exfalso]. change (embed b ++ old_cells b) with (all_cells b) in Ho.
    rewrite added_length in H3 by done. unfold all_cells in Ho. rewrite lookup_app_r in Ho by (rewrite (bo_embed b Hb); lia). rewrite (bo_embed b Hb) in Ho.
    destruct (add b) as [a0|] eqn:E; [|done]. destruct (bo_add b Hb a0 E) as (_ & _ & Hz & _). apply Hne, (Hz (size a) c); [lia|]. by replace (kBucketSize + size a - kBucketSize)%nat with (size a) in Ho by lia.
Qed.

Lemma hold_effect b h i : bucket_ok b -> locked_phase b h = Hold i -> live b i /\ exists c, all_cells b !! i = Some c /\ c_addr c = addr_ h.
Proof.
  intros Hb Hl. unfold locked_phase in Hl. destruct (find_addr (embed b) (addr_ h)) as [j|] eqn:E1.
  - destruct (remove_ h); [|done]. injection Hl as <-. destruct (find_addr_Some _ _ _ E1) as (c & Hj & Hc).
    assert (j < kBucketSize)%nat as Hlt by (rewrite <- (bo_embed b Hb); by eapply lookup_lt_Some). split; [unfold live; lia|]. exists c. by rewrite embed_cell.
  - destruct (find_addr (added b) (addr_ h)) as [j|] eqn:E2.
    + destruct (remove_ h); [|done]. assert (i = (kBucketSize + j)%nat) as -> by congruence. destruct (find_addr_Some _ _ _ E2) as (c & Hj & Hc). apply lookup_lt_Some in Hj as Hlt.
      split; [unfold live; lia|]. exists c. split; [by apply added_cell|done].
    + destruct (remove_ h || negb (create_ h)); [done|]. by destruct (find_addr (embed b) 0).
Qed.

Lemma absent_effect b h : bucket_ok b -> addr_ h <> 0 -> locked_phase b h = Absent -> contents b (addr_ h) = None.
Proof.
  intros Hb Ha Hl. unfold locked_phase in Hl. destruct (find_addr (embed b) (addr_ h)) eqn:E1; [by destruct (remove_ h)|].
  destruct (find_addr (added b) (addr_ h)) eqn:E2; [by destruct (remove_ h)|]. by apply absent_everywhere.
Qed.

(** Forgetting the last cell of the array, if it is empty. *)
Lemma shrink_ok b a c : bucket_ok b -> add b = Some a -> (0 < size a)%nat -> all_cells b !! (kBucketSize + Nat.pred (size a))%nat = Some c -> c_addr c = 0 ->
  let b' := mkBucket (embed b) (Some (mkAddBucket (cap a) (Nat.pred (size a)) (cells a))) in
  bucket_ok b' /\ all_cells b' = all_cells b.
Proof.
  intros Hb E Hpos Hc Hz b'. assert (all_cells b' = all_cells b) as Ea by (unfold all_cells; cbn [embed add b' cells]; by rewrite E).
  split; [|done]. destruct (bo_add b Hb a E) as (H1 & H2 & H3 & H4). split; [apply Hb| |].
  - intros a0 [= <-]. cbn [cap size cells]. split; [done|]. split; [lia|]. split; [|done]. intros j d Hj Hd. destruct (decide (j = Nat.pred (size a))) as [->|Hne]; [|apply (H3 j d); [lia|done]].
    unfold all_cells in Hc. rewrite E, lookup_app_r in Hc by (rewrite (bo_embed b Hb); lia). rewrite (bo_embed b Hb) in Hc.
    replace (kBucketSize + Nat.pred (size a) - kBucketSize)%nat with (Nat.pred (size a)) in Hc by lia. congruence.
  - rewrite Ea. apply Hb.
Qed.

(** The map without looking at what the lock protects: a bucket with the same cells. *)
Lemma contents_same_cells b b' x : all_cells b' = all_cells b -> contents b' x = contents b x.
Proof. unfold contents. by intros ->. Qed.

Lemma compact_effect b i c : bucket_ok b -> live b i -> all_cells b !! i = Some c -> c_addr c = 0 ->
  bucket_ok (compact b i) /\ (forall x, x <> 0 -> contents (compact b i) x = contents b x).
Proof.
  intros Hb Hl Hi Hz. unfold compact. destruct (add b) as [a|] eqn:E; [|done].
  destruct ((i <? kBucketSize)%nat && (size a =? 0)%nat) eqn:Enone; [done|].
  assert (0 < size a)%nat as Hpos.
  { unfold live in Hl. rewrite added_length, E in Hl by done. apply andb_false_iff in Enone as [Hn|Hn]; [apply Nat.ltb_ge in Hn|apply Nat.eqb_neq in Hn]; lia. }
  set (last := (kBucketSize + Nat.pred (size a))%nat). assert (live b last) as Hlast by (unfold live; rewrite added_length, E by done; lia).
  destruct (live_cell b last Hb Hlast) as [c1 Hc1].
  destruct (Nat.eqb_spec i last) as [->|Hne].
  { destruct (shrink_ok b a c Hb E Hpos Hi Hz) as [Hb' Ea]. split; [done|]. intros x _. by apply contents_same_cells. }
  (* the same in another order: empty the last cell, fill the freed one, forget the last *)
  set (z := mkCell 0 (c_val c1)). set (b2 := set_cell b last z). set (b3 := set_cell b2 i c1).
  assert (all_cells (mkBucket (embed b) (Some (mkAddBucket (cap a) (Nat.pred (size a)) (cells a)))) = all_cells b) as Ea by (unfold all_cells; cbn [embed add cells]; by rewrite E).
  rewrite Ea, Hc1.
  assert (bucket_ok b2) as Hb2 by by apply set_cell_ok.
  assert (live b2 i) as Hl2 by (unfold live, b2; by rewrite added_set_length).
  assert (all_cells b2 !! i = Some c) as Hi2 by (unfold b2; rewrite all_set_cell by done; by rewrite list_lookup_insert_ne).
  assert (bucket_ok b3) as Hb3.
  { apply set_cell_ok; [done|done|]. intros Hnz j d Hji Hj Heq. unfold b2 in Hj. rewrite all_set_cell in Hj by done.
    apply list_lookup_insert_Some in Hj as [(<- & <- & _)|[Hjl Hj]]; [cbn in Heq; congruence|]. apply Hjl. symmetry. apply (bo_unique b Hb j last d c1); [done|done|done|congruence]. }
  assert (forall x, x <> 0 -> contents b3 x = contents b x) as Hc3.
  { intros x Hx. unfold b3. rewrite (contents_set b2 i c1 c) by done. unfold b2. rewrite (contents_set b last z c1) by done. cbn [c_addr z]. rewrite Hz, (proj2 (Z.eqb_neq x 0)) by done.
    destruct (Z.eqb_spec x (c_addr c1)) as [->|]; [|done]. symmetry. apply contents_holds; [done|done|]. by exists last, c1. }
  assert (exists a3, add b3 = Some a3 /\ cap a3 = cap a /\ size a3 = size a /\ mkBucket (embed b3) (Some (mkAddBucket (cap a3) (Nat.pred (size a3)) (cells a3))) =
    set_cell (set_cell (mkBucket (embed b) (Some (mkAddBucket (cap a) (Nat.pred (size a)) (cells a)))) i c1) last z) as (a3 & Ea3 & Hcap3 & Hsize3 & Eb3).
  { unfold b3, b2, set_cell. rewrite (proj2 (Nat.ltb_ge last kBucketSize)) by (unfold last; lia). destruct (Nat.ltb_spec i kBucketSize); cbn [embed add]; rewrite E; (eexists; split; [done|]); cbn [cap size cells].
    - done.
    - split; [done|]. split; [done|]. do 3 f_equal. apply list_insert_insert_ne || apply list_insert_commute. lia. }
  cbv beta iota zeta. fold z. rewrite <- Eb3. destruct (shrink_ok b3 a3 z Hb3 Ea3 ltac:(lia)) as [Hb4 Ea4]; [|done|].
  - rewrite Hsize3. fold last. unfold b3. rewrite all_set_cell by done. rewrite list_lookup_insert_ne by done. unfold b2. rewrite all_set_cell by done.
    apply list_lookup_insert_eq. by eapply lookup_lt_Some.
  - split; [done|]. intros x Hx. rewrite <- Hc3 by done. by apply contents_same_cells.
Qed.

(** ** The threads *)

(** What holds of the bucket while a thread is at a place. *)
Definition pc_ok (b : Bucket) (p : pc) : Prop :=
  match p with
  | Idle | Published _ | Compacted | Missing _ => True
  | Probe h i => addr_ h <> 0 /\ (i <= kBucketSize)%nat
  | LoadAdd h | WantRead h | InRead h | WantLock h | InLock h => addr_ h <> 0
  | Held h i Shared => addr_ h <> 0 /\ (i < kBucketSize)%nat
  | Held h i Shared_locked => addr_ h <> 0 /\ live b i /\ exists c, all_cells b !! i = Some c /\ c_addr c = addr_ h
  | Held h i Removing => addr_ h <> 0 /\ live b i /\ exists c, all_cells b !! i = Some c /\ c_addr c = addr_ h
  | Held h i Created => addr_ h <> 0 /\ live b i /\ (exists c, all_cells b !! i = Some c /\ c_addr c = 0) /\ contents b (addr_ h) = None
  | Emptied h i => live b i /\ exists c, all_cells b !! i = Some c /\ c_addr c = 0
  end.

(** A thread outside of the lock's sections does not depend on the bucket. *)
Lemma pc_ok_outside b b' p : writer p = 0 -> reader p = 0 -> pc_ok b p -> pc_ok b' p.
Proof. by destruct p as [| | | | | | |h i []| | | |]. Qed.

(** What a label says of the map before and after. *)
Definition effect (l : label) (f f' : Z -> option V) : Prop :=
  let same := forall x, x <> 0 -> f' x = f x in
  match l with
  | Tau => same
  | Found a => same /\ f a <> None
  | NotThere a => same /\ f a = None
  | Insert a v => f a = None /\ forall x, x <> 0 -> f' x = if x =? a then Some v else f x
  | Delete a => f a <> None /\ forall x, x <> 0 -> f' x = if x =? a then None else f x
  end.

Lemma present b i c : bucket_ok b -> all_cells b !! i = Some c -> c_addr c <> 0 -> contents b (c_addr c) <> None.
Proof. intros Hb Hi Hne Hn. apply (proj1 (contents_none b (c_addr c) Hb Hne) Hn i c Hi). done. Qed.

Lemma thread_effect writers readers b p l b' p' : bucket_ok b -> pc_ok b p -> thread_step writers readers b p l b' p' ->
  bucket_ok b' /\ pc_ok b' p' /\ effect l (contents b) (contents b') /\ (writer p = 1 \/ b' = b).
Proof.
  intros Hb Hp Hs. destruct Hs as [h Ha|h i c Hi Hc Ha|h i c Hi Hc Ha|h|h|h Hw|h i Hf|h Hf|h Hw Hr|h Hl|h i Hl|h Hl|h b' i Hl|h i c v Hi|h|h i|h i|h i c Hi|h|h i c Hi|h i|]; cbn [pc_ok writer] in *.
  - split; [done|]. split; [destruct (remove_ h); cbn; [done|split; [done|lia]]|]. split; [done|by right].
  - destruct Hp as [Hne _]. split; [done|]. split; [done|]. split; [|by right]. split; [done|]. rewrite <- Ha. apply (present b i c); [done|by rewrite embed_cell|by rewrite Ha].
  - destruct Hp as [Hne _]. split; [done|]. split; [split; [done|lia]|]. split; [done|by right].
  - split; [done|]. split; [by destruct Hp|]. split; [done|by right].
  - split; [done|]. split; [by destruct (add b)|]. split; [done|by right].
  - split; [done|]. split; [done|]. split; [done|by right].
  - destruct (find_addr_Some _ _ _ Hf) as (c & Hc & Ha). apply (added_cell b i c Hb) in Hc as Hcell0. split; [done|]. split.
    + split; [done|]. split; [unfold live; apply lookup_lt_Some in Hc; lia|by exists c].
    + split; [|by right]. split; [done|]. rewrite <- Ha. apply (present b (kBucketSize + i)%nat c); [done|done|by rewrite Ha].
  - split; [done|]. split; [done|]. split; [done|by right].
  - split; [done|]. split; [done|]. split; [done|by right].
  - split; [done|]. split; [split; [done|lia]|]. split; [done|by right].
  - destruct (hold_effect b h i Hb Hl) as (Hlive & c & Hc & Ha). split; [done|]. split; [split; [done|]; split; [done|by exists c]|].
    split; [|by left]. split; [done|]. rewrite <- Ha. apply (present b i c); [done|done|by rewrite Ha].
  - split; [done|]. split; [done|]. split; [|by left]. split; [done|]. by apply absent_effect.
  - destruct (create_effect b h b' i Hb Hp Hl) as (Hb' & Hlive & Hc & Hn & Hsame). split; [done|]. split.
    + split; [done|]. split; [done|]. split; [done|]. by rewrite Hsame.
    + split; [|by left]. by split.
  - destruct Hp as (Hne & Hlive & (c' & Hc' & Hz) & Hn). rewrite Hi in Hc'. injection Hc' as <-.
    assert (bucket_ok (set_cell b i (mkCell (c_addr c) v))) as Hb' by (apply set_cell_ok; [done|done|cbn; congruence]).
    assert (forall x, x <> 0 -> contents (set_cell b i (mkCell (c_addr c) v)) x = contents b x) as Hsame.
    { intros x Hx. rewrite (contents_set b i _ c) by done. cbn [c_addr c_val]. rewrite Hz. by rewrite (proj2 (Z.eqb_neq x 0)). }
    split; [done|]. split; [|split; [done|by left]]. split; [done|]. split; [unfold live; by rewrite added_set_length|]. split; [|by rewrite Hsame].
    eexists. rewrite all_set_cell by done. split; [apply list_lookup_insert_eq; by eapply lookup_lt_Some|done].
  - split; [done|]. split; [done|]. split; [done|by right].
  - split; [done|]. split; [done|]. split; [done|by right].
  - split; [done|]. split; [done|]. split; [done|by right].
  - destruct Hp as (Hne & Hlive & (c' & Hc' & Hz) & Hn). rewrite Hi in Hc'. injection Hc' as <-.
    assert (bucket_ok (set_cell b i (mkCell (addr_ h) (c_val c)))) as Hb'.
    { apply set_cell_ok; [done|done|]. cbn [c_addr]. intros _ j d _ Hj. by apply (proj1 (contents_none b (addr_ h) Hb Hne) Hn j d). }
    split; [done|]. split; [done|]. split; [|by left]. split; [done|]. intros x Hx. rewrite (contents_set b i _ c) by done. cbn [c_addr c_val].
    destruct (x =? addr_ h); [done|]. by rewrite Hz, (proj2 (Z.eqb_neq x 0)).
  - split; [done|]. split; [done|]. split; [done|by left].
  - destruct Hp as (Hne & Hlive & (c' & Hc' & Ha)). rewrite Hi in Hc'. injection Hc' as <-.
    assert (bucket_ok (set_cell b i (mkCell 0 (c_val c)))) as Hb' by by apply set_cell_ok.
    split; [done|]. split.
    + split; [unfold live; by rewrite added_set_length|]. eexists. rewrite all_set_cell by done. split; [apply list_lookup_insert_eq; by eapply lookup_lt_Some|done].
    + split; [|by left]. split; [rewrite <- Ha; apply (present b i c); [done|done|by rewrite Ha]|]. intros x Hx.
      rewrite (contents_set b i _ c) by done. cbn [c_addr c_val]. by rewrite (proj2 (Z.eqb_neq x 0)), Ha.
  - destruct Hp as (Hlive & c & Hc & Hz). destruct (compact_effect b i c Hb Hlive Hc Hz) as [Hb' Hsame]. split; [done|]. split; [done|]. split; [done|by left].
  - split; [done|]. split; [done|]. split; [done|by right].
Qed.

(** *** All threads *)

Record world_ok (w : world) : Prop := {
  wo_bucket : bucket_ok (bucket w);
  wo_writers : total writer (threads w) <= 1;
  wo_excludes : 0 < total writer (threads w) -> total reader (threads w) = 0;
  wo_threads : forall t p, threads w !! t = Some p -> pc_ok (bucket w) p
}.

Lemma writer_range p : 0 <= writer p <= 1.
Proof. by destruct p as [| | | | | | |? ? []| | | |]. Qed.
Lemma reader_range p : 0 <= reader p <= 1.
Proof. by destruct p as [| | | | | | |? ? []| | | |]. Qed.

Lemma world_ok_initial n : world_ok (world0 n).
Proof.
  split; cbn [bucket threads world0].
  - split; [done|done|]. intros i j c d Hi Hj _ Hne. unfold all_cells in Hi. cbn [embed add Bucket0] in Hi. rewrite app_nil_r in Hi. apply repeat_lookup in Hi. by subst.
  - by rewrite total_repeat.
  - by rewrite total_repeat.
  - intros t p Hp. apply repeat_lookup in Hp. by subst.
Qed.

Lemma lock_counts writers readers b p l b' p' : thread_step writers readers b p l b' p' ->
  (writer p' <= writer p /\ reader p' <= reader p) \/ (writers = 0 /\ writer p = 0 /\ reader p = 0 /\ (writer p' = 0 \/ reader p' = 0 /\ readers = 0)).
Proof.
  intros Hs. destruct Hs; cbn [writer reader]; try (left; lia); try (right; lia); left; case_match; cbn [writer reader]; lia.
Qed.

Lemma world_ok_step w l w' : step w l w' -> world_ok w -> world_ok w' /\ effect l (contents (bucket w)) (contents (bucket w')).
Proof.
  intros [w0 t p l0 b' p' Ht Hs] [Hb Hw He Hp]. destruct (thread_effect _ _ _ _ _ _ _ Hb (Hp t p Ht) Hs) as (Hb' & Hp' & Heff & Hch).
  cbn [bucket threads]. split; [|done].
  pose proof (total_member writer _ t p ltac:(intros; apply writer_range) Ht). pose proof (total_member reader _ t p ltac:(intros; apply reader_range) Ht).
  pose proof (total_nonneg reader (threads w0) ltac:(intros; apply reader_range)). pose proof (writer_range p'). pose proof (reader_range p'). pose proof (writer_range p). pose proof (reader_range p).
  split; cbn [bucket threads]; rewrite ?(total_insert _ _ _ _ _ Ht); [done| | |].
  - destruct (lock_counts _ _ _ _ _ _ _ Hs) as [?|?]; lia.
  - destruct (lock_counts _ _ _ _ _ _ _ Hs) as [?|?]; lia.
  - intros u q [(<- & <- & _)|[Hne Hu]]%list_lookup_insert_Some; [done|]. specialize (Hp u q Hu) as Hq. destruct Hch as [Hone| ->]; [|done].
    pose proof (total_two writer _ Idle t u p q ltac:(intros; apply writer_range) eq_refl Hne Ht Hu). pose proof (total_member reader _ u q ltac:(intros; apply reader_range) Hu).
    pose proof (writer_range q). pose proof (reader_range q). apply (pc_ok_outside (bucket w0)); [lia|lia|done].
Qed.

Lemma world_ok_reachable n w : reachable n w -> world_ok w.
Proof. induction 1 as [|w l w' _ IH Hs]; [apply world_ok_initial|]. by destruct (world_ok_step _ _ _ Hs IH). Qed.

(** The conditions the code checks. *)
Lemma checks_hold n w t p : reachable n w -> threads w !! t = Some p ->
  match p with
  | Held h i Created => exists c, all_cells (bucket w) !! i = Some c /\ c_addr c = 0
  | Held h i Removing | Held h i Shared_locked => exists c, all_cells (bucket w) !! i = Some c /\ c_addr c = addr_ h
  | _ => True
  end.
Proof.
  intros Hr Ht. pose proof (wo_threads _ (world_ok_reachable n w Hr) t p Ht) as Hp. destruct p as [| | | | | | |h i []| | | |]; try done; cbn in Hp; tauto.
Qed.

(** *** Handles *)

(** A cell that others may read without the lock changes only when its element is deleted. *)
Lemma embedded_stays writers readers b p l b' p' i c : bucket_ok b -> pc_ok b p -> thread_step writers readers b p l b' p' ->
  (i < kBucketSize)%nat -> all_cells b !! i = Some c -> c_addr c <> 0 -> l <> Delete (c_addr c) -> all_cells b' !! i = Some c.
Proof.
  intros Hb Hp Hs Hi Hc Hne Hl. assert (forall j d e, live b j -> all_cells b !! j = Some d -> c_addr d <> c_addr c -> all_cells (set_cell b j e) !! i = Some c) as Hset.
  { intros j d e Hlive Hj Hd. rewrite all_set_cell by done. rewrite list_lookup_insert_ne; [done|]. intros ->. congruence. }
  destruct Hs as [h Ha|h j d Hj Hd Ha|h j d Hj Hd Ha|h|h|h Hw|h j Hf|h Hf|h Hw Hr|h Hlk|h j Hlk|h Hlk|h b' j Hlk|h j d v Hj|h|h j|h j|h j d Hj|h|h j d Hj|h j|]; cbn [pc_ok] in *; try done.
  - (* an array with more cells *)
    unfold locked_phase in Hlk. destruct (find_addr (embed b) (addr_ h)); [by destruct (remove_ h)|]. destruct (find_addr (added b) (addr_ h)); [by destruct (remove_ h)|].
    destruct (remove_ h || negb (create_ h)); [done|]. destruct (find_addr (embed b) 0); [by injection Hlk as <- _|]. injection Hlk as <- _.
    rewrite embed_cell in Hc by done. unfold all_cells. cbn [embed]. by apply lookup_app_l_Some.
  - destruct Hp as (_ & Hlive & (d' & Hd' & Hz) & _). apply (Hset j d); [done|done|]. rewrite Hj in Hd'. congruence.
  - destruct Hp as (_ & Hlive & (d' & Hd' & Hz) & _). apply (Hset j d); [done|done|]. rewrite Hj in Hd'. congruence.
  - destruct Hp as (_ & Hlive & (d' & Hd' & Hz)). apply (Hset j d); [done|done|]. rewrite Hj in Hd'. injection Hd' as <-. intros E. apply Hl. congruence.
  - destruct Hp as (Hlive & d & Hd & Hz). unfold compact. destruct (add b) as [a|] eqn:E; [|done]. destruct ((j <? kBucketSize)%nat && (size a =? 0)%nat); [done|].
    set (last := (kBucketSize + Nat.pred (size a))%nat). assert (all_cells (mkBucket (embed b) (Some (mkAddBucket (cap a) (Nat.pred (size a)) (cells a)))) = all_cells b) as Ea by (unfold all_cells; cbn [embed add cells]; by rewrite E).
    destruct (j =? last)%nat; [by rewrite Ea|]. rewrite Ea. destruct (all_cells b !! last) as [c1|]; [|by rewrite Ea].
    assert (i <> j) as Hij by (intros ->; congruence). rewrite embed_cell in Hc by done.
    assert (embed (set_cell (set_cell (mkBucket (embed b) (Some (mkAddBucket (cap a) (Nat.pred (size a)) (cells a)))) j c1) last (mkCell 0 (c_val c1))) !! i = Some c) as He.
    { unfold set_cell at 1. rewrite (proj2 (Nat.ltb_ge last kBucketSize)) by (unfold last; lia). cbn [embed]. unfold set_cell. destruct (j <? kBucketSize)%nat; cbn [embed]; [|done].
      by rewrite list_lookup_insert_ne by congruence. }
    unfold all_cells. by apply lookup_app_l_Some.
Qed.

(** ** The map as a sequence of operations *)

(** What a history of labels, the last one first, has made of the empty map. *)
Fixpoint abstract (ls : list label) (x : Z) : option V :=
  match ls with
  | [] => None
  | Insert a v :: ls => if x =? a then Some v else abstract ls x
  | Delete a :: ls => if x =? a then None else abstract ls x
  | _ :: ls => abstract ls x
  end.

(** Every answer in it is that of the map at that point. *)
Fixpoint legal (ls : list label) : Prop :=
  match ls with
  | [] => True
  | l :: ls => legal ls /\ match l with Tau => True | Found a | Delete a => abstract ls a <> None | NotThere a | Insert a _ => abstract ls a = None end
  end.

Inductive run (n : nat) : list label -> world -> Prop :=
| run_start : run n [] (world0 n)
| run_step ls w l w' : run n ls w -> step w l w' -> run n (l :: ls) w'.

Lemma run_reachable n ls w : run n ls w -> reachable n w.
Proof. induction 1 as [|ls w l w' _ IH Hs]; [constructor|by econstructor]. Qed.

Lemma label_nonzero writers readers b p l b' p' : pc_ok b p -> thread_step writers readers b p l b' p' ->
  match l with Tau => True | Found a | NotThere a | Insert a _ | Delete a => a <> 0 end.
Proof. intros Hp Hs. destruct Hs; cbn in Hp; tauto. Qed.

Lemma run_abstract n ls w : run n ls w -> legal ls /\ forall x, x <> 0 -> contents (bucket w) x = abstract ls x.
Proof.
  induction 1 as [|ls w l w' Hrun [Hlegal Hc] Hs].
  - split; [done|]. intros x Hx. apply contents_none; [apply (wo_bucket _ (world_ok_initial n))|done|].
    intros i c Hi. unfold all_cells in Hi. cbn [bucket world0 embed add Bucket0] in Hi. rewrite app_nil_r in Hi. apply repeat_lookup in Hi. by subst.
  - pose proof (world_ok_reachable n w (run_reachable n ls w Hrun)) as Hok. destruct (world_ok_step w l w' Hs Hok) as [_ Heff].
    assert (match l with Tau => True | Found a | NotThere a | Insert a _ | Delete a => a <> 0 end) as Hl by (destruct Hs as [w t p l b' p' Ht Hs]; by apply (label_nonzero _ _ _ _ _ _ _ (wo_threads _ Hok t p Ht) Hs)).
    cbn [legal]. destruct l as [|a|a|a v|a]; cbn [effect abstract] in *.
    + split; [done|]. intros x Hx. by rewrite Heff, Hc.
    + destruct Heff as [Hsame Ha]. rewrite Hc in Ha by done. split; [done|]. intros x Hx. by rewrite Hsame, Hc.
    + destruct Heff as [Hsame Ha]. rewrite Hc in Ha by done. split; [done|]. intros x Hx. by rewrite Hsame, Hc.
    + destruct Heff as [Ha Hi]. rewrite Hc in Ha by done. split; [done|]. intros x Hx. rewrite Hi by done. by destruct (x =? a); [|apply Hc].
    + destruct Heff as [Ha Hi]. rewrite Hc in Ha by done. split; [done|]. intros x Hx. rewrite Hi by done. by destruct (x =? a); [|apply Hc].
Qed.

(** While a handle on an element is held, its cell keeps the element, until somebody deletes
    it: what the class asks of its users. *)
Lemma handles_stay_valid n w l w' t h i m c : reachable n w -> threads w !! t = Some (Held h i m) -> m = Shared \/ m = Shared_locked ->
  all_cells (bucket w) !! i = Some c -> c_addr c = addr_ h -> step w l w' -> threads w' !! t = Some (Held h i m) -> l <> Delete (addr_ h) ->
  all_cells (bucket w') !! i = Some c.
Proof.
  intros Hr Ht Hm Hc Ha Hs Ht' Hl. pose proof (world_ok_reachable n w Hr) as [Hb Hw He Hp]. pose proof (Hp t _ Ht) as Hok.
  destruct Hs as [w u p l b' p' Hu Hs]. cbn [bucket threads] in *. destruct (thread_effect _ _ _ _ _ _ _ Hb (Hp u p Hu) Hs) as (_ & _ & _ & Hch).
  destruct Hm as [-> | ->]; cbn in Hok.
  - destruct Hok as [Hne Hi]. apply (embedded_stays _ _ _ _ _ _ _ i c Hb (Hp u p Hu) Hs Hi Hc); congruence.
  - destruct Hch as [Hone| ->]; [|done]. assert (0 < total writer (threads w)) as Hpos by (pose proof (total_member writer _ u p ltac:(intros; apply writer_range) Hu); lia).
    pose proof (total_member reader _ t _ ltac:(intros; apply reader_range) Ht) as Hread. cbn in Hread. specialize (He Hpos). lia.
Qed.
End map.

Arguments Tau {V}.
Arguments Found {V}.
Arguments NotThere {V}.
Arguments Insert {V}.
Arguments Delete {V}.

(** C35: the map is linearizable: take any run of any number of threads that look elements
    up, create and remove them, reading the embedded cells without the lock.  There is one
    history of operations on a finite map, in the order of the run, in which every answer
    (found, not there) is right at its instant and an insertion finds its key absent, a
    deletion present; and the cells always hold what the history has made. *)
Theorem map_is_linearizable {V} (zeroed : V) cell_size n ls w : 0 < cell_size <= 48 -> run zeroed cell_size n ls w ->
  legal ls /\ forall x, x <> 0 -> contents (bucket w) x = abstract ls x.
Proof. intros Hcell. exact (run_abstract zeroed cell_size Hcell n ls w). Qed.

(** ** The theorem at work *)

Definition example_handle : Handle := mkHandle 5 false true.

Lemma take_step {V} (zeroed : V) cell_size n ls w i p l b' p' : run zeroed cell_size n ls w -> threads w !! i = Some p ->
  thread_step zeroed cell_size (total writer (threads w)) (total reader (threads w)) (bucket w) p l b' p' ->
  run zeroed cell_size n (l :: ls) (mkWorld b' (<[i := p']> (threads w))).
Proof. intros Hr Hi Hs. eapply run_step; [done|]. by eapply step_thread. Qed.

(** One thread creates the element 5 with the value 7. *)
Lemma example_run : exists b, run 0 32 1 ([Insert 5 7; Tau; NotThere 5] ++ repeat Tau 7) (mkWorld b [Published example_handle]).
Proof.
  eexists. cbn [repeat app].
  eapply (take_step 0 32 1 _ (mkWorld _ [Held example_handle 0 Created]) 0); [|done|by eapply (release_created _ _ _ _ (mkBucket [mkCell 0 7; mkCell 0 0; mkCell 0 0] None) example_handle 0 (mkCell 0 7))].
  eapply (take_step 0 32 1 _ (mkWorld _ [Held example_handle 0 Created]) 0); [|done|by apply (write_value _ _ _ _ (Bucket0 0) example_handle 0 (mkCell 0 0) 7)].
  eapply (take_step 0 32 1 _ (mkWorld _ [InLock example_handle]) 0); [|done|by apply (locked_create _ _ _ _ (Bucket0 0) example_handle)].
  eapply (take_step 0 32 1 _ (mkWorld _ [WantLock example_handle]) 0); [|done|by apply lock].
  eapply (take_step 0 32 1 _ (mkWorld _ [LoadAdd example_handle]) 0); [|done|by apply (load_add _ _ _ _ (Bucket0 0))].
  eapply (take_step 0 32 1 _ (mkWorld _ [Probe example_handle 3]) 0); [|done|by apply probe_end].
  eapply (take_step 0 32 1 _ (mkWorld _ [Probe example_handle 2]) 0); [|done|apply (probe_miss _ _ _ _ (Bucket0 0) _ 2 (mkCell 0 0)); [unfold kBucketSize; lia|done|done]].
  eapply (take_step 0 32 1 _ (mkWorld _ [Probe example_handle 1]) 0); [|done|apply (probe_miss _ _ _ _ (Bucket0 0) _ 1 (mkCell 0 0)); [unfold kBucketSize; lia|done|done]].
  eapply (take_step 0 32 1 _ (mkWorld _ [Probe example_handle 0]) 0); [|done|apply (probe_miss _ _ _ _ (Bucket0 0) _ 0 (mkCell 0 0)); [unfold kBucketSize; lia|done|done]].
  eapply (take_step 0 32 1 _ (world0 0 1) 0); [apply run_start|done|by apply (call_acquire _ _ _ _ (Bucket0 0) example_handle)].
Qed.

Lemma map_is_linearizable_witness : exists b, contents b 5 = Some 7.
Proof. destruct example_run as [b Hrun]. exists b. exact (proj2 (map_is_linearizable 0 32 1 _ _ ltac:(lia) Hrun) 5 ltac:(lia)). Defined.

(** ** After a handle is released *)

(** A cell belongs to its element no longer than a handle is held: the element 4 was found in
    the cell 3; when 1 is removed it moves to the cell 0, and the cell 3 is the next element's. *)
Lemma released_cell_is_reused :
  let b := mkBucket [mkCell 1 10; mkCell 2 20; mkCell 3 30] (Some (mkAddBucket 2 1 [mkCell 4 40; empty_cell 0])) in
  let b1 := compact (set_cell b 0 (mkCell 0 10)) 0 in
  find_addr (added b) 4 = Some 0%nat /\ contents b1 4 = Some 40 /\ exists b2, locked_phase 0 24 b1 (mkHandle 5 false true) = Create b2 3.
Proof. cbv zeta. split; [by vm_compute|]. split; [by vm_compute|]. by eexists. Qed.
