(* ===== verification/Printf.v ===== *)
(** * Printf: the runtime's own formatted output

    src/rt/sanitizer_common/sanitizer_printf.cpp: [VSNPrintf] with the functions that
    append to its buffer, [SharedPrintfCode] with its retry in a larger buffer, and
    [InternalScopedString].

    The buffer is a range of memory; the format is the list of its characters up to the
    terminator, which is also what a [char*] argument points to (never into the buffer).
    An argument of another kind is a register of 64 bits, of which [va_arg] takes the low
    part.  The loop over the format takes fuel: each turn consumes a character, so that
    the length of the format is enough.

    [VSNPrintf_exact] gives the output of every format of the supported grammar;
    [VSNPrintf_bounds] is about any format: whatever the arguments, only the buffer is
    written, and it holds a terminated string. *)

From S2P Require Import Prelude Common Memory Libc MmapVector.

(** ** Definitions *)

(** [int], and the conversions of [va_arg] to it. *)
Definition s32 (x : Z) : Z := if u32 x <? 2 ^ 31 then u32 x else u32 x - 2 ^ 32.
Definition sptr (x : Z) : Z := if u64 x <? 2 ^ 63 then u64 x else u64 x - 2 ^ 64.

(** The memory and [*buff]. *)
Definition cursor : Type := mem * Z.

Definition AppendChar (o : cursor) (buff_end c : Z) : cursor * Z :=
  (if o.2 <? buff_end then (store8 o.1 o.2 c, o.2 + 1) else o, 1).

Definition kMaxLen : nat := 30.

(** The do-while loop: the least significant digit first; [room] cells are left. *)
Fixpoint num_buffer (room : nat) (absolute_value base : Z) : outcome (list Z) :=
  match room with
  | O => Died "AppendNumber buffer overflow"
  | S room =>
      if 0 <? absolute_value / base
      then rest ← num_buffer room (absolute_value / base) base; mret (absolute_value mod base :: rest)
      else mret [absolute_value mod base]
  end.

(** The loops over the buffer go down from its top: here it is reversed. *)
Fixpoint leading_loop (o : cursor) (buff_end : Z) (pad_with_zero : bool) (top : list Z) (result : Z)
    : cursor * Z * list Z :=
  match top with
  | d :: rest =>
      if d =? 0 then
        let c := if pad_with_zero || bool_decide (rest = []) then 48 else 32 in
        let '(o, n) := AppendChar o buff_end c in leading_loop o buff_end pad_with_zero rest (result + n)
      else (o, result, top)
  | [] => (o, result, [])
  end.

Definition digit_char (uppercase : bool) (digit : Z) : Z :=
  if digit <? 10 then 48 + digit else (if uppercase then 65 else 97) + digit - 10.

Fixpoint digits_out (o : cursor) (buff_end : Z) (uppercase : bool) (top : list Z) (result : Z) : cursor * Z :=
  match top with
  | d :: rest => let '(o, n) := AppendChar o buff_end (digit_char uppercase d) in
                 digits_out o buff_end uppercase rest (result + n)
  | [] => (o, result)
  end.

Definition AppendNumber (o : cursor) (buff_end absolute_value base minimal_num_length : Z)
    (pad_with_zero negative uppercase : bool) : outcome (cursor * Z) :=
  _ ← check ((base =? 10) || (base =? 16)) "base == 10 || base == 16";
  _ ← check ((base =? 10) || negb negative) "base == 10 || !negative";
  _ ← check (negb (absolute_value =? 0) || negb negative) "absolute_value || !negative";
  _ ← check (minimal_num_length <? Z.of_nat kMaxLen) "minimal_num_length < kMaxLen";
  let minimal_num_length := if negative && negb (minimal_num_length =? 0) then minimal_num_length - 1 else minimal_num_length in
  let '(o, result) := if negative && pad_with_zero then AppendChar o buff_end 45 else (o, 0) in
  digits ← num_buffer kMaxLen absolute_value base;
  let digits := digits ++ repeat 0 (Z.to_nat minimal_num_length - length digits) in
  let '(o, result, top) := leading_loop o buff_end pad_with_zero (rev digits) result in
  let '(o, result) := if negative && negb pad_with_zero
                      then let '(o, n) := AppendChar o buff_end 45 in (o, result + n) else (o, result) in
  mret (digits_out o buff_end uppercase top result).

Definition AppendUnsigned (o : cursor) (buff_end num base minimal_num_length : Z) (pad_with_zero uppercase : bool) :=
  AppendNumber o buff_end num base minimal_num_length pad_with_zero false uppercase.

Definition AppendSignedDecimal (o : cursor) (buff_end num minimal_num_length : Z) (pad_with_zero : bool) :=
  let negative := num <? 0 in
  AppendNumber o buff_end (u64 (if negative then - num else num)) 10 minimal_num_length pad_with_zero negative false.

(** The characters of a string literal. *)
Definition chars (s : string) : list Z := map (fun c => Z.of_N (Ascii.N_of_ascii c)) (String.list_ascii_of_string s).

Fixpoint string_loop (o : cursor) (buff_end max_chars : Z) (s : list Z) (result : Z) : cursor * Z :=
  match s with
  | c :: rest =>
      if (0 <=? max_chars) && (max_chars <=? result) then (o, result)
      else let '(o, n) := AppendChar o buff_end c in string_loop o buff_end max_chars rest (result + n)
  | [] => (o, result)
  end.

(** [while (width < -result) result += AppendChar(buff, buff_end, ' ');]: the result
    grows by one, so that the number of turns is known before. *)
Fixpoint pad_loop (turns : nat) (o : cursor) (buff_end result : Z) : cursor * Z :=
  match turns with
  | O => (o, result)
  | S turns => let '(o, n) := AppendChar o buff_end 32 in pad_loop turns o buff_end (result + n)
  end.

Definition AppendString (o : cursor) (buff_end width max_chars : Z) (s : option (list Z)) : cursor * Z :=
  let s := match s with Some s => s | None => chars "<null>" end in
  let '(o, result) := string_loop o buff_end max_chars s 0 in
  pad_loop (Z.to_nat (- result - width)) o buff_end result.

Definition SANITIZER_POINTER_FORMAT_LENGTH : Z := 12.

Definition AppendPointer (o : cursor) (buff_end ptr_value : Z) : outcome (cursor * Z) :=
  let '(o, result) := AppendString o buff_end 0 (-1) (Some (chars "0x")) in
  r ← AppendUnsigned o buff_end ptr_value 16 SANITIZER_POINTER_FORMAT_LENGTH true false;
  mret (r.1, result + r.2).

(** *** The format *)

Inductive arg := Num (bits : Z) | Str (s : option (list Z)).

Definition va_num (args : list arg) : outcome (Z * list arg) :=
  match args with Num z :: rest => mret (z, rest) | _ => Died "va_arg" end.
Definition va_str (args : list arg) : outcome (option (list Z) * list arg) :=
  match args with Str s :: rest => mret (s, rest) | _ => Died "va_arg" end.

(** [*cur], and the position [n] characters further; the terminator is not passed. *)
Definition at_cur (cur : list Z) : Z := nth 0 cur 0.
Definition at_next (cur : list Z) : Z := nth 1 cur 0.

Definition is_digit (c : Z) : bool := (48 <=? c) && (c <=? 57).

Fixpoint width_loop (cur : list Z) (width : Z) : Z * list Z :=
  match cur with
  | c :: rest => if is_digit c then width_loop rest (s32 (width * 10 + c - 48)) else (width, cur)
  | [] => (width, [])
  end.

(** What the loop finds between the percent sign and the conversion. *)
Record flags := mkFlags {
  left_justified : bool; have_width : bool; pad_with_zero : bool; width : Z; precision : Z;
  have_z : bool; have_l : bool; have_ll : bool
}.

Definition have_length (f : flags) : bool := have_z f || have_l f || have_ll f.
Definition have_flags (f : flags) : bool := have_width f || have_length f.

(** [cur += n] under a condition. *)
Definition skip (b : bool) (n : nat) (cur : list Z) : list Z := if b then drop n cur else cur.

Definition read_length (cur : list Z) : bool * bool * bool * list Z :=
  let have_z := at_cur cur =? 122 in
  let cur := skip have_z 1 cur in
  let have_l := (at_cur cur =? 108) && negb (at_next cur =? 108) in
  let cur := skip have_l 1 cur in
  let have_ll := (at_cur cur =? 108) && (at_next cur =? 108) in
  (have_z, have_l, have_ll, skip have_ll 2 cur).

Definition read_precision (cur : list Z) (args : list arg) : outcome (Z * list Z * list arg) :=
  let have_precision := (at_cur cur =? 46) && (at_next cur =? 42) in
  if have_precision then p ← va_num args; mret (s32 p.1, drop 2 cur, p.2) else mret (-1, cur, args).

Definition read_flags (cur : list Z) (args : list arg) : outcome (flags * list Z * list arg) :=
  let left_justified := at_cur cur =? 45 in
  let cur := skip left_justified 1 cur in
  let have_width := is_digit (at_cur cur) in
  let pad_with_zero := at_cur cur =? 48 in
  let '(width, cur) := if have_width then width_loop cur 0 else (0, cur) in
  p ← read_precision cur args;
  let '(precision, cur, args) := p : Z * list Z * list arg in
  let '(have_z, have_l, have_ll, cur) := read_length cur in
  mret (mkFlags left_justified have_width pad_with_zero width precision have_z have_l have_ll, cur, args).

(** The conversion [c]. *)
Definition convert (o : cursor) (buff_end : Z) (f : flags) (c : Z) (args : list arg) : outcome (cursor * Z * list arg) :=
  _ ← check (negb (((0 <=? precision f) || left_justified f) && negb (c =? 115))) "CHECK";
  if c =? 100 then
    a ← va_num args;
    let dval := if have_ll f then sptr a.1 else if have_z f then sptr a.1 else if have_l f then sptr a.1 else s32 a.1 in
    r ← AppendSignedDecimal o buff_end dval (u8 (width f)) (pad_with_zero f); mret (r, a.2)
  else if (c =? 117) || (c =? 120) || (c =? 88) then
    a ← va_num args;
    let uval := if have_ll f then u64 a.1 else if have_z f then u64 a.1 else if have_l f then u64 a.1 else u32 a.1 in
    r ← AppendUnsigned o buff_end uval (if c =? 117 then 10 else 16) (u8 (width f)) (pad_with_zero f) (c =? 88); mret (r, a.2)
  else if c =? 112 then
    _ ← check (negb (have_flags f)) "Supported Printf formats";
    a ← va_num args; r ← AppendPointer o buff_end (u64 a.1); mret (r, a.2)
  else if c =? 115 then
    _ ← check (negb (have_length f)) "Supported Printf formats";
    _ ← check (negb (have_width f) || left_justified f) "CHECK";
    a ← va_str args;
    mret (AppendString o buff_end (if left_justified f then - width f else width f) (precision f) a.1, a.2)
  else if c =? 99 then
    _ ← check (negb (have_flags f)) "Supported Printf formats";
    a ← va_num args; mret (AppendChar o buff_end (s32 a.1), a.2)
  else if c =? 37 then
    _ ← check (negb (have_flags f)) "Supported Printf formats";
    mret (AppendChar o buff_end 37, args)
  else Died "Supported Printf formats".

Fixpoint format_loop (fuel : nat) (o : cursor) (buff_end : Z) (cur : list Z) (args : list arg) (result : Z)
    : option (outcome (cursor * Z)) :=
  match fuel with
  | O => None
  | S fuel =>
      match cur with
      | [] => Some (mret (o, result))
      | c :: cur =>
          if negb (c =? 37) then
            let '(o, n) := AppendChar o buff_end c in format_loop fuel o buff_end cur args (result + n)
          else
            match (p ← read_flags cur args;
                   let '(f, cur, args) := p : flags * list Z * list arg in
                   r ← convert o buff_end f (at_cur cur) args;
                   mret (r, tl cur)) with
            | Died why => Some (Died why)
            | Done (o, n, args, cur) => format_loop fuel o buff_end cur args (result + n)
            end
      end
  end.

Definition VSNPrintf (m : mem) (buff buff_length : Z) (format : list Z) (args : list arg) : option (outcome (mem * Z)) :=
  if negb (0 <? buff_length) then Some (Died "buff_length > 0") else
  let buff_end := buff + (buff_length - 1) in
  r ← format_loop (S (length format)) (m, buff) buff_end format args 0;
  Some ('(o, result) ← r;
        _ ← check (o.2 <=? buff_end) "buff <= buff_end";
        mret ((AppendChar o (buff_end + 1) 0).1.1, result)).

Definition internal_snprintf := VSNPrintf.

(** ** What the append functions write *)

(** [t] one character after the other, those that fit. *)
Definition put (o : cursor) (buff_end : Z) (t : list Z) : cursor := fold_left (fun o c => (AppendChar o buff_end c).1) t o.

Lemma s32_id z : - 2 ^ 31 <= z < 2 ^ 31 -> s32 z = z.
Proof.
  intros Hz. unfold s32, u32. destruct (Z.ltb_spec z 0) as [Hn|Hn].
  - replace (z mod 2 ^ 32) with (z + 2 ^ 32) by (symmetry; rewrite <- (Z_mod_plus_full z 1); apply Z.mod_small; lia).
    rewrite (proj2 (Z.ltb_ge _ _)) by lia. lia.
  - rewrite Z.mod_small by lia. rewrite (proj2 (Z.ltb_lt _ _)) by lia. done.
Qed.

Definition zlen {A} (l : list A) : Z := Z.of_nat (length l).

Lemma zlen_app {A} (l1 l2 : list A) : zlen (l1 ++ l2) = zlen l1 + zlen l2.
Proof. unfold zlen. rewrite length_app. lia. Qed.

Lemma put_app o e t1 t2 : put o e (t1 ++ t2) = put (put o e t1) e t2.
Proof. apply fold_left_app. Qed.

Lemma put_char o e c : AppendChar o e c = (put o e [c], 1).
Proof. done. Qed.

(** The effect on the memory: the first characters, up to the end. *)
Lemma put_spec t : forall m b e, b <= e -> (put (m, b) e t).2 = Z.min (b + zlen t) e /\
  forall x, (put (m, b) e t).1 x = if in_range b (Z.min (zlen t) (e - b)) x then u8 (nth (Z.to_nat (x - b)) t 0) else m x.
Proof.
  induction t as [|c t IH]; intros m b e Hb.
  - cbn. unfold zlen. cbn. split; [lia|]. intros x. ranges; [lia|done].
  - change (put (m, b) e (c :: t)) with (put (if b <? e then (store8 m b c, b + 1) else (m, b)) e t).
    assert (zlen (c :: t) = 1 + zlen t /\ 0 <= zlen t) as [Hl Hp] by (unfold zlen; cbn; lia). rewrite Hl. destruct (Z.ltb_spec b e) as [Hlt|Hge].
    + destruct (IH (store8 m b c) (b + 1) e ltac:(lia)) as [-> Hx]. split; [lia|]. intros x. rewrite Hx. unfold store8. ranges; try lia; subst; [|by rewrite Z.sub_diag].
      by replace (Z.to_nat (x - b)) with (S (Z.to_nat (x - (b + 1)))) by lia.
    + destruct (IH m b e ltac:(lia)) as [-> Hx]. split; [lia|]. intros x. rewrite Hx. by ranges; lia.
Qed.

(** *** Numbers *)

Definition value_of (base : Z) (ds : list Z) : Z := fold_left (fun acc d => base * acc + d) ds 0.

(** The positional notation of [v]: without leading zeros, and never empty. *)
Definition is_numeral (base v : Z) (ds : list Z) : Prop :=
  ds <> [] /\ Forall (fun d => 0 <= d < base) ds /\ value_of base ds = v /\ (hd 0 ds = 0 -> ds = [0]).

Lemma num_buffer_numeral room : forall v base, 2 <= base -> (0 < room)%nat -> 0 <= v < base ^ Z.of_nat room ->
  exists l, num_buffer room v base = Done l /\ is_numeral base v (rev l) /\ (length l <= room)%nat.
Proof.
  induction room as [|room IH]; intros v base Hb Hr Hv; [lia|]. cbn [num_buffer].
  pose proof (Z.div_mod v base ltac:(lia)) as Hdm. pose proof (Z.mod_pos_bound v base ltac:(lia)) as Hm.
  destruct (Z.ltb_spec 0 (v / base)) as [Hq|Hq].
  - assert (0 <= v / base < base ^ Z.of_nat room) as Hq'.
    { split; [lia|]. apply Z.div_lt_upper_bound; [lia|]. rewrite Nat2Z.inj_succ, Z.pow_succ_r in Hv by lia. lia. }
    assert (0 < room)%nat as Hr'. { destruct room; [cbn in Hq'; lia|lia]. }
    destruct (IH (v / base) base Hb Hr' Hq') as (l & -> & (Hne & Hall & Hval & Hhd) & Hlen). eexists. split; [done|]. cbn [rev length].
    split; [|lia]. split; [by destruct (rev l)|]. split; [apply list.Forall_app; split; [done|by constructor; [lia|constructor]]|]. split.
    + unfold value_of in *. rewrite fold_left_app, Hval. cbn. lia.
    + destruct (rev l) as [|d ds] eqn:El; [done|]. cbn in *. intros ->. specialize (Hhd eq_refl). injection Hhd as ->. cbn in Hval. lia.
  - assert (v / base = 0) as Hz by (pose proof (Z.div_pos v base); lia). eexists. split; [done|]. cbn. split; [|lia]. split; [done|]. split; [by constructor; [lia|constructor]|].
    split; [unfold value_of; cbn; lia|]. cbn [hd]. by intros E; rewrite E.
Qed.

Definition numeral (base v : Z) : list Z := match num_buffer kMaxLen v base with Done l => rev l | Died _ => [] end.

Lemma numeral_spec base v : base = 10 \/ base = 16 -> 0 <= v < 2 ^ 64 -> num_buffer kMaxLen v base = Done (rev (numeral base v)) /\
  is_numeral base v (numeral base v).
Proof.
  intros Hb Hv. destruct (num_buffer_numeral kMaxLen v base) as (l & E & Hl & _); [lia|unfold kMaxLen; lia| |].
  - split; [lia|]. eapply Z.lt_le_trans; [apply Hv|]. destruct Hb as [-> | ->]; by apply Z.leb_le.
  - unfold numeral. rewrite E, rev_involutive. done.
Qed.

(** A number as it is printed: the sign comes before padding zeros and after padding
    spaces, and the width counts it. *)
Definition number_text (base v min : Z) (pad negative uppercase : bool) : list Z :=
  let ds := numeral base v in
  let min := if negative && negb (min =? 0) then min - 1 else min in
  (if negative && pad then [45] else []) ++ repeat (if pad then 48 else 32) (Z.to_nat min - length ds) ++
  (if negative && negb pad then [45] else []) ++ map (digit_char uppercase) ds.

Lemma digits_out_put o e up top r : digits_out o e up top r = (put o e (map (digit_char up) top), r + zlen top).
Proof.
  revert o r. induction top as [|d top IH]; intros o r; cbn [digits_out map]; [unfold zlen; cbn; f_equal; lia|].
  rewrite put_char, IH. unfold zlen. cbn [length]. f_equal. lia.
Qed.

Lemma leading_loop_zeros o e pad k ds r : ds <> [] -> (hd 0 ds = 0 -> ds = [0]) ->
  leading_loop o e pad (repeat 0 k ++ ds) r =
  (put o e (repeat (if pad then 48 else 32) k ++ (if hd 0 ds =? 0 then [48] else [])),
   r + Z.of_nat k + (if hd 0 ds =? 0 then 1 else 0), if hd 0 ds =? 0 then [] else ds).
Proof.
  intros Hne Hhd. revert o r. induction k as [|k IH]; intros o r.
  - cbn [repeat app]. destruct ds as [|d ds]; [done|]. cbn [leading_loop hd]. destruct (Z.eqb_spec d 0) as [->|Hd].
    + injection (Hhd eq_refl) as ->. rewrite bool_decide_eq_true_2, orb_true_r by done. rewrite put_char. cbn [leading_loop]. f_equal. f_equal. lia.
    + f_equal. f_equal. lia.
  - cbn [repeat app leading_loop]. rewrite Z.eqb_refl, bool_decide_eq_false_2 by (by destruct k, ds). rewrite orb_false_r, put_char, IH.
    f_equal. f_equal. lia.
Qed.

Lemma AppendNumber_spec o e v base min pad neg up : base = 10 \/ base = 16 -> 0 <= v < 2 ^ 64 -> 0 <= min < 30 ->
  (neg = true -> base = 10 /\ v <> 0) ->
  AppendNumber o e v base min pad neg up = Done (put o e (number_text base v min pad neg up), zlen (number_text base v min pad neg up)).
Proof.
  intros Hb Hv Hmin Hneg. destruct (numeral_spec base v Hb Hv) as [En (Hne & _ & Hval & Hhd)]. unfold AppendNumber.
  assert ((base =? 10) || (base =? 16) = true) as -> by (bool_goal; lia).
  assert ((base =? 10) || negb neg = true) as -> by (destruct neg; [destruct Hneg as [-> _]; done|by rewrite orb_true_r]).
  assert (negb (v =? 0) || negb neg = true) as -> by (destruct neg; [destruct Hneg as [_ Hv0%Z.eqb_neq]; [done|by rewrite Hv0]|by rewrite orb_true_r]).
  change (Z.of_nat kMaxLen) with 30. rewrite (proj2 (Z.ltb_lt min 30)) by lia. cbn [check mbind outcome_bind]. rewrite En. cbn [mbind outcome_bind]. unfold number_text.
  set (mn := if neg && negb (min =? 0) then min - 1 else min). rewrite length_rev. set (k := (Z.to_nat mn - length (numeral base v))%nat).
  assert (rev (rev (numeral base v) ++ repeat 0 k) = repeat 0 k ++ numeral base v) as -> by (by rewrite rev_app_distr, rev_involutive, rev_repeat).
  assert (neg = true -> hd 0 (numeral base v) <> 0) as Hnz.
  { intros Hn E. rewrite (Hhd E) in Hval. cbn in Hval. destruct (Hneg Hn). lia. }
  destruct neg; cbn [andb negb].
  - specialize (Hnz eq_refl). apply Z.eqb_neq in Hnz. destruct pad; cbn [negb andb]; rewrite ?put_char, (leading_loop_zeros _ _ _ _ _ _ Hne Hhd), Hnz, ?put_char, digits_out_put;
      rewrite ?app_nil_r, !put_app, !zlen_app; cbn [app]; rewrite ?app_nil_r; unfold zlen; rewrite ?repeat_length, ?length_map; cbn [length mret outcome_ret]; f_equal; f_equal; lia.
  - rewrite (leading_loop_zeros _ _ _ _ _ _ Hne Hhd), digits_out_put. destruct (Z.eqb_spec (hd 0 (numeral base v)) 0) as [E|E].
    + rewrite (Hhd E). cbn [app map]. change (digit_char up 0) with 48. rewrite !put_app, !zlen_app. unfold zlen. rewrite repeat_length.
      cbn [length mret outcome_ret]. f_equal. f_equal. lia.
    + cbn [app]. rewrite app_nil_r, !put_app, !zlen_app. unfold zlen. rewrite ?repeat_length, ?length_map. cbn [length mret outcome_ret]. f_equal. f_equal. lia.
Qed.

(** *** Strings *)

Definition string_text (width max_chars : Z) (s : option (list Z)) : list Z :=
  let s := match s with Some s => s | None => chars "<null>" end in
  let body := if 0 <=? max_chars then firstn (Z.to_nat max_chars) s else s in
  body ++ repeat 32 (Z.to_nat (- width) - length body).

Lemma string_loop_put o e max s r : 0 <= r ->
  string_loop o e max s r =
  let body := if 0 <=? max then firstn (Z.to_nat (max - r)) s else s in (put o e body, r + zlen body).
Proof.
  revert o r. induction s as [|c s IH]; intros o r Hr; cbn [string_loop].
  - rewrite take_nil. destruct (0 <=? max); unfold zlen; cbn; f_equal; lia.
  - destruct (Z.leb_spec 0 max) as [Hm|Hm]; cbn [andb].
    + destruct (Z.leb_spec max r) as [Hle|Hgt].
      * replace (Z.to_nat (max - r)) with 0%nat by lia. unfold zlen. cbn. f_equal. lia.
      * rewrite put_char, IH by lia.
        replace (Z.to_nat (max - r)) with (S (Z.to_nat (max - (r + 1)))) by lia. cbn [firstn]. unfold zlen. cbn [length]. f_equal. lia.
    + rewrite put_char, IH by lia. unfold zlen. cbn [length]. f_equal. lia.
Qed.

Lemma pad_loop_put n o e r : pad_loop n o e r = (put o e (repeat 32 n), r + Z.of_nat n).
Proof. revert o r. induction n as [|n IH]; intros o r; cbn [pad_loop repeat]; [cbn; f_equal; lia|]. rewrite put_char, IH. f_equal. lia. Qed.

Lemma AppendString_spec o e width max s : AppendString o e width max s = (put o e (string_text width max s), zlen (string_text width max s)).
Proof.
  unfold AppendString, string_text. set (l := match s with Some _ => _ | None => _ end). rewrite string_loop_put by lia. rewrite Z.sub_0_r. cbn beta iota zeta.
  set (body := if 0 <=? max then _ else _). rewrite pad_loop_put, put_app, zlen_app.
  replace (Z.to_nat (- (0 + zlen body) - width)) with (Z.to_nat (- width) - length body)%nat by (unfold zlen; lia).
  f_equal. unfold zlen. rewrite repeat_length. lia.
Qed.

(** A pointer: 0x and at least twelve hexadecimal digits. *)
Definition pointer_text (v : Z) : list Z := chars "0x" ++ number_text 16 v 12 true false false.

Lemma AppendPointer_spec o e v : 0 <= v < 2 ^ 64 -> AppendPointer o e v = Done (put o e (pointer_text v), zlen (pointer_text v)).
Proof.
  intros Hv. unfold AppendPointer, AppendUnsigned. rewrite AppendString_spec. assert (string_text 0 (-1) (Some (chars "0x")) = chars "0x") as -> by done.
  rewrite AppendNumber_spec; [|by right|done|by split|done]. cbn [mbind outcome_bind mret outcome_ret fst snd].
  unfold pointer_text. by rewrite put_app, zlen_app.
Qed.

(** *** Any conversion writes some text *)

Definition writes_text (o : cursor) (e : Z) (r : cursor * Z) : Prop := exists t, r = (put o e t, zlen t).

Lemma AppendNumber_writes o e v base min pad neg up r : 0 <= v < 2 ^ 64 -> 0 <= min ->
  AppendNumber o e v base min pad neg up = Done r -> writes_text o e r.
Proof.
  intros Hv Hmin E. assert (exists t, AppendNumber o e v base min pad neg up = Done (put o e t, zlen t)) as [t Et].
  { eexists. apply AppendNumber_spec; try done; unfold AppendNumber in E; inv_done; bool_hyps.
    - lia.
    - change (Z.of_nat kMaxLen) with 30 in *. lia.
    - intros ->. bool_hyps. lia. }
  rewrite Et in E. injection E as <-. by exists t.
Qed.

Lemma AppendPointer_writes o e v r : 0 <= v < 2 ^ 64 -> AppendPointer o e v = Done r -> writes_text o e r.
Proof. intros Hv. rewrite AppendPointer_spec by done. intros [= <-]. by exists (pointer_text v). Qed.

Lemma s32_range x : - 2 ^ 31 <= s32 x < 2 ^ 31.
Proof. unfold s32. pose proof (u32_range x). zcase; lia. Qed.

Lemma sptr_range x : - 2 ^ 63 <= sptr x < 2 ^ 63.
Proof. unfold sptr. pose proof (u64_range x). zcase; lia. Qed.

Lemma u32_fits x : 0 <= u32 x < 2 ^ 64.
Proof. pose proof (u32_range x). lia. Qed.

Lemma convert_writes o e f c args o' n args' : convert o e f c args = Done (o', n, args') -> writes_text o e (o', n).
Proof.
  unfold convert. intros E. inv_done.
  destruct (c =? 100); [|destruct ((c =? 117) || (c =? 120) || (c =? 88)); [|destruct (c =? 112); [|destruct (c =? 115); [|destruct (c =? 99); [|destruct (c =? 37); [|done]]]]]];
    inv_done.
  - eapply AppendNumber_writes; [apply u64_range|apply u8_range|eassumption].
  - eapply AppendNumber_writes; [|apply u8_range|eassumption]. repeat case_match; apply u64_range || apply u32_fits.
  - eapply AppendPointer_writes; [apply u64_range|eassumption].
  - eexists. etrans; [by symmetry|apply AppendString_spec].
  - by exists [s32 r1.1].
  - by exists [37].
Qed.

(** *** The loop *)

Lemma width_loop_shorter cur w w' cur' : width_loop cur w = (w', cur') -> (length cur' <= length cur)%nat.
Proof.
  revert w. induction cur as [|c cur IH]; intros w; cbn [width_loop]; [by intros [= <- <-]|].
  destruct (is_digit c); [intros E%IH; cbn; lia|by intros [= <- <-]].
Qed.

Lemma skip_shorter b n cur : (length (skip b n cur) <= length cur)%nat.
Proof. destruct b; cbn [skip]; rewrite ?length_drop; lia. Qed.

Lemma read_flags_shorter cur args f cur' args' : read_flags cur args = Done (f, cur', args') -> (length cur' <= length cur)%nat.
Proof.
  unfold read_flags. intros E. pose proof (skip_shorter (at_cur cur =? 45) 1 cur) as H1. set (c1 := skip _ 1 cur) in *.
  destruct (if is_digit (at_cur c1) then width_loop c1 0 else (0, c1)) as [w c2] eqn:E2.
  assert (length c2 <= length c1)%nat as H2 by (destruct (is_digit (at_cur c1)); [by eapply width_loop_shorter|by injection E2 as <- <-]).
  inv_done. destruct r as [[p c3] a3]. assert (length c3 <= length c2)%nat as H3.
  { unfold read_precision in Hr. destruct (_ && _); inv_done; [|done]. rewrite length_drop. lia. }
  unfold read_length in E. injection E as <- <- <-. repeat (etrans; [apply skip_shorter|]). lia.
Qed.

(** Every format is read to its end or refused: the fuel is enough.  What is accepted
    is some text. *)
Lemma format_loop_runs fuel : forall o e cur args r, (length cur < fuel)%nat ->
  exists res, format_loop fuel o e cur args r = Some res /\
    forall o' n, res = Done (o', n) -> exists t, o' = put o e t /\ n = r + zlen t.
Proof.
  induction fuel as [|fuel IH]; intros o e cur args r Hf; [lia|]. cbn [format_loop]. destruct cur as [|c cur].
  - eexists. split; [done|]. intros o' n [= <- <-]. exists []. unfold zlen. cbn. split; [done|lia].
  - cbn [length] in Hf. destruct (negb (c =? 37)).
    + rewrite put_char. destruct (IH (put o e [c]) e cur args (r + 1) ltac:(lia)) as (res & -> & Hres). eexists. split; [done|].
      intros o' n E. destruct (Hres o' n E) as (t & -> & ->). exists (c :: t). split; [done|]. unfold zlen. cbn [length]. lia.
    + destruct (_ ← _; _) as [[[[o1 n1] args1] cur1]|why] eqn:E; [|eexists; split; [done|discriminate]].
      apply bind_done in E as ([[f cur0] args0] & Ef & E). apply bind_done in E as ([[o2 n2] args2] & Ec & [= -> -> -> <-]).
      pose proof (read_flags_shorter _ _ _ _ _ Ef). assert (length (tl cur0) <= length cur0)%nat by (destruct cur0; cbn; lia).
      destruct (IH o1 e (tl cur0) args1 (r + n1) ltac:(lia)) as (res & -> & Hres).
      eexists. split; [done|]. intros o' n E. destruct (Hres o' n E) as (t2 & -> & ->).
      destruct (convert_writes _ _ _ _ _ _ _ _ Ec) as (t1 & [= -> ->]). exists (t1 ++ t2). rewrite put_app, zlen_app. split; [done|lia].
Qed.

(** The memory after a text was printed into a buffer. *)
Definition printed (m : mem) (buff buff_length : Z) (t : list Z) (m' : mem) : Prop :=
  forall x, m' x = if in_range buff (Z.min (zlen t) (buff_length - 1)) x then u8 (nth (Z.to_nat (x - buff)) t 0)
                   else if x =? buff + Z.min (zlen t) (buff_length - 1) then 0 else m x.

Lemma VSNPrintf_puts m buff n t o : 0 < n -> o = put (m, buff) (buff + (n - 1)) t ->
  exists m', ('(o, result) ← Done (o, zlen t);
              _ ← check (o.2 <=? buff + (n - 1)) "buff <= buff_end";
              mret ((AppendChar o (buff + (n - 1) + 1) 0).1.1, result) : outcome (mem * Z)) = Done (m', zlen t) /\ printed m buff n t m'.
Proof.
  intros Hn ->. destruct (put_spec t m buff (buff + (n - 1)) ltac:(lia)) as [Hp Hx]. cbn [mbind outcome_bind].
  rewrite Hp, (proj2 (Z.leb_le _ _)) by lia. cbn [check mbind outcome_bind mret outcome_ret]. eexists. split; [done|].
  intros x. unfold AppendChar. rewrite Hp, (proj2 (Z.ltb_lt _ _)) by lia. cbn [fst]. unfold store8. rewrite Hx.
  replace (buff + (n - 1) - buff) with (n - 1) by lia. replace (Z.min (buff + zlen t) (buff + (n - 1))) with (buff + Z.min (zlen t) (n - 1)) by lia.
  ranges; done || lia.
Qed.



(** ** The supported formats *)

Inductive length_mod := LNone | LZ | LL | LLL.

(** The digits of a width are given as they are written. *)
Inductive directive :=
| DLit (c : Z) | DDec (w : list Z) (lm : length_mod) | DUns (w : list Z) (lm : length_mod)
| DHex (uppercase : bool) (w : list Z) (lm : length_mod) | DPtr | DStr (left : option (list Z)) (precision : bool) | DChr | DPct.

Definition show_length (lm : length_mod) : list Z := match lm with LNone => [] | LZ => [122] | LL => [108] | LLL => [108; 108] end.

Definition show (d : directive) : list Z :=
  match d with
  | DLit c => [c]
  | DDec w lm => 37 :: w ++ show_length lm ++ [100]
  | DUns w lm => 37 :: w ++ show_length lm ++ [117]
  | DHex up w lm => 37 :: w ++ show_length lm ++ [if up then 88 else 120]
  | DPtr => [37; 112]
  | DStr lj prec => 37 :: match lj with Some w => 45 :: w | None => [] end ++ (if prec then [46; 42] else []) ++ [115]
  | DChr => [37; 99]
  | DPct => [37; 37]
  end.

Definition width_value (w : list Z) : Z := value_of 10 (map (fun c => c - 48) w).
Definition width_ok (w : list Z) (limit : Z) : Prop := Forall (fun c => 48 <= c <= 57) w /\ width_value w < limit.

Definition directive_ok (d : directive) : Prop :=
  match d with
  | DLit c => c <> 37
  | DDec w _ | DUns w _ | DHex _ w _ => width_ok w 30
  | DStr (Some w) _ => width_ok w (2 ^ 31)
  | _ => True
  end.

Definition signed_arg (lm : length_mod) (z : Z) : Z := match lm with LNone => s32 z | _ => sptr z end.
Definition unsigned_arg (lm : length_mod) (z : Z) : Z := match lm with LNone => u32 z | _ => u64 z end.
Definition pads (w : list Z) : bool := hd 0 w =? 48.

(** What a directive prints of the arguments, and the arguments after it. *)
Definition render (d : directive) (args : list arg) : option (list Z * list arg) :=
  match d, args with
  | DLit c, _ => Some ([c], args)
  | DPct, _ => Some ([37], args)
  | DDec w lm, Num z :: args =>
      let v := signed_arg lm z in Some (number_text 10 (Z.abs v) (width_value w) (pads w) (v <? 0) false, args)
  | DUns w lm, Num z :: args => Some (number_text 10 (unsigned_arg lm z) (width_value w) (pads w) false false, args)
  | DHex up w lm, Num z :: args => Some (number_text 16 (unsigned_arg lm z) (width_value w) (pads w) false up, args)
  | DPtr, Num z :: args => Some (pointer_text (u64 z), args)
  | DChr, Num z :: args => Some ([s32 z], args)
  | DStr lj false, Str s :: args =>
      Some (string_text (match lj with Some w => - width_value w | None => 0 end) (-1) s, args)
  | DStr lj true, Num p :: Str s :: args =>
      Some (string_text (match lj with Some w => - width_value w | None => 0 end) (s32 p) s, args)
  | _, _ => None
  end.

Fixpoint render_all (ds : list directive) (args : list arg) : option (list Z) :=
  match ds with
  | [] => Some []
  | d :: ds => p ← render d args; rest ← render_all ds p.2; Some (p.1 ++ rest)
  end.

(** *** Reading back what [show] writes *)

Lemma s32_small x : 0 <= x < 2 ^ 31 -> s32 x = x.
Proof. intros Hx. unfold s32. rewrite u32_small by lia. rewrite (proj2 (Z.ltb_lt _ _)) by lia. done. Qed.

Lemma value_of_ge base ds acc : 1 <= base -> 0 <= acc -> Forall (fun d => 0 <= d) ds -> acc <= fold_left (fun acc d => base * acc + d) ds acc.
Proof.
  intros Hb Hacc Hds. revert acc Hacc. induction Hds as [|d ds Hd Hds IH]; intros acc Hacc; cbn; [lia|].
  specialize (IH (base * acc + d)). nia.
Qed.

Lemma digits_nonneg w : Forall (fun c => 48 <= c <= 57) w -> Forall (fun d => 0 <= d) (map (fun c => c - 48) w).
Proof. intros Hw. induction Hw as [|c w Hc Hw IH]; cbn [map]; constructor; [lia|done]. Qed.

Lemma width_value_nonneg w : Forall (fun c => 48 <= c <= 57) w -> 0 <= width_value w.
Proof. intros Hw. apply value_of_ge; [lia|lia|]. by apply digits_nonneg. Qed.

Lemma is_digit_true c : 48 <= c <= 57 -> is_digit c = true.
Proof. intros Hc. unfold is_digit. bool_goal; lia. Qed.

Lemma width_loop_reads w rest : forall acc, Forall (fun c => 48 <= c <= 57) w -> is_digit (at_cur rest) = false -> 0 <= acc ->
  fold_left (fun acc d => 10 * acc + d) (map (fun c => c - 48) w) acc < 2 ^ 31 ->
  width_loop (w ++ rest) acc = (fold_left (fun acc d => 10 * acc + d) (map (fun c => c - 48) w) acc, rest).
Proof.
  induction w as [|c w IH]; intros acc Hw Hr Hacc Hlim.
  - cbn [app map fold_left]. destruct rest as [|c rest]; [done|]. cbn in Hr |- *. by rewrite Hr.
  - apply Forall_cons_iff in Hw as [Hc Hw]. cbn [map fold_left app width_loop] in Hlim |- *. rewrite is_digit_true by done.
    pose proof (value_of_ge 10 _ (10 * acc + (c - 48)) ltac:(lia) ltac:(lia) (digits_nonneg w Hw)).
    rewrite s32_small by lia. replace (acc * 10 + c - 48) with (10 * acc + (c - 48)) by lia. apply IH; (done || lia).
Qed.

(** A width, or none. *)
Lemma width_reads w rest : width_ok w (2 ^ 31) -> is_digit (at_cur rest) = false ->
  (if is_digit (at_cur (w ++ rest)) then width_loop (w ++ rest) 0 else (0, w ++ rest)) = (width_value w, rest).
Proof.
  intros [Hw Hlim] Hr. destruct w as [|c w]; [cbn [app]; by rewrite Hr|].
  assert (is_digit (at_cur ((c :: w) ++ rest)) = true) as -> by (apply Forall_cons_iff in Hw as [Hc _]; by apply is_digit_true).
  by apply width_loop_reads.
Qed.

Lemma read_length_show lm c rest : c <> 122 -> c <> 108 -> read_length (show_length lm ++ c :: rest) =
  (match lm with LZ => true | _ => false end, match lm with LL => true | _ => false end, match lm with LLL => true | _ => false end, c :: rest).
Proof.
  intros Hz%Z.eqb_neq Hl%Z.eqb_neq. unfold read_length, at_cur, at_next. destruct lm; cbn [show_length app nth skip drop Z.eqb Pos.eqb andb negb];
    repeat (rewrite ?Hz, ?Hl; cbn [nth skip drop Z.eqb Pos.eqb andb negb]); done.
Qed.

Lemma flags_of_number w lm c rest args : width_ok w 30 -> c = 100 \/ c = 117 \/ c = 120 \/ c = 88 ->
  exists hw, read_flags (w ++ show_length lm ++ c :: rest) args =
    Done (mkFlags false hw (pads w) (width_value w) (-1) (match lm with LZ => true | _ => false end) (match lm with LL => true | _ => false end)
            (match lm with LLL => true | _ => false end), c :: rest, args).
Proof.
  intros [Hw Hlim] Hc. set (X := show_length lm ++ c :: rest).
  assert (is_digit (at_cur X) = false /\ (at_cur X =? 45) = false /\ (at_cur X =? 48) = false /\ (at_cur X =? 46) = false) as (X1 & X2 & X3 & X4).
  { unfold X. destruct lm; cbn; destruct Hc as [-> |[-> |[-> | ->]]]; done. }
  assert ((at_cur (w ++ X) =? 45) = false /\ (at_cur (w ++ X) =? 48) = pads w) as [W1 W2].
  { destruct w as [|d w]; [done|]. apply Forall_cons_iff in Hw as [Hd _]. cbn. split; [apply Z.eqb_neq; lia|done]. }
  eexists. unfold read_flags. rewrite W1. cbn [skip]. rewrite W2, width_reads by (try split; (done || lia)).
  unfold read_precision. rewrite X4. cbn [andb mbind outcome_bind mret outcome_ret]. unfold X. rewrite read_length_show by lia. done.
Qed.

Lemma signed_arg_range lm z : - 2 ^ 63 <= signed_arg lm z < 2 ^ 63.
Proof. destruct lm; cbn; try apply sptr_range. pose proof (s32_range z). lia. Qed.

Lemma unsigned_arg_range lm z : 0 <= unsigned_arg lm z < 2 ^ 64.
Proof. destruct lm; cbn; try apply u64_range. apply u32_fits. Qed.

Lemma AppendSignedDecimal_spec o e v min pad : - 2 ^ 63 <= v < 2 ^ 63 -> 0 <= min < 30 ->
  AppendSignedDecimal o e v min pad = Done (put o e (number_text 10 (Z.abs v) min pad (v <? 0) false), zlen (number_text 10 (Z.abs v) min pad (v <? 0) false)).
Proof.
  intros Hv Hmin. unfold AppendSignedDecimal. assert (u64 (if v <? 0 then - v else v) = Z.abs v) as ->.
  { rewrite u64_small; zcase; lia. }
  apply AppendNumber_spec; [by left|lia|done|]. intros Hn%Z.ltb_lt. lia.
Qed.

Lemma u8_width w : width_ok w 30 -> u8 (width_value w) = width_value w /\ 0 <= width_value w < 30.
Proof. intros [Hw Hlim]. pose proof (width_value_nonneg w Hw). split; [|lia]. unfold u8. rewrite Z.mod_small; lia. Qed.

Lemma string_step o e lj prec rest args t args' : directive_ok (DStr lj prec) -> render (DStr lj prec) args = Some (t, args') ->
  (p ← read_flags (match lj with Some w => 45 :: w | None => [] end ++ (if prec then [46; 42] else []) ++ 115 :: rest) args;
   let '(f, cur, args) := p : flags * list Z * list arg in
   r ← convert o e f (at_cur cur) args; mret (r, tl cur)) = Done (put o e t, zlen t, args', rest).
Proof.
  intros Hok Hr. set (X := (if prec then [46; 42] else []) ++ 115 :: rest).
  assert (is_digit (at_cur X) = false /\ (at_cur X =? 45) = false) as [X1 X2] by (by destruct prec).
  assert (read_flags (match lj with Some w => 45 :: w | None => [] end ++ X) args =
    (p ← read_precision X args; let '(precision, cur, args) := p : Z * list Z * list arg in
     let '(z, l, ll, cur) := read_length cur in
     mret (mkFlags (bool_decide (lj <> None)) (is_digit (at_cur (match lj with Some w => w | None => [] end ++ X)))
             (at_cur (match lj with Some w => w | None => [] end ++ X) =? 48) (match lj with Some w => width_value w | None => 0 end) precision z l ll, cur, args))) as ->.
  { unfold read_flags. destruct lj as [w|]; cbn [app].
    - change (at_cur (45 :: w ++ X)) with 45. change (skip (45 =? 45) 1 (45 :: w ++ X)) with (w ++ X). rewrite width_reads by done. done.
    - rewrite X2. cbn [skip]. rewrite X1. done. }
  assert (exists pr args1 s, read_precision X args = Done (pr, 115 :: rest, args1) /\ va_str args1 = Done (s, args') /\
    t = string_text (match lj with Some w => - width_value w | None => 0 end) pr s /\ (lj = None -> True)) as (pr & args1 & s & -> & Es & -> & _).
  { destruct prec; destruct args as [|[z|s] args]; cbn in Hr; try done.
    - destruct args as [|[z2|s] args]; cbn in Hr; try done. injection Hr as <- <-. by exists (s32 z), (Str s :: args), s.
    - injection Hr as <- <-. by exists (-1), (Str s :: args), s. }
  cbn [mbind outcome_bind]. pose proof (read_length_show LNone 115 rest ltac:(done) ltac:(done)) as E. cbn [show_length app] in E. rewrite E.
  cbn [mbind outcome_bind mret outcome_ret at_cur nth tl]. unfold convert.
  cbn [precision left_justified width pad_with_zero have_z have_l have_ll have_width have_length orb negb Z.eqb Pos.eqb]. rewrite andb_false_r.
  cbn [negb check mbind outcome_bind]. unfold have_length. cbn [have_z have_l have_ll orb negb check mbind outcome_bind].
  assert (negb (is_digit (at_cur (match lj with Some w => w | None => [] end ++ X))) || bool_decide (lj <> None) = true) as ->.
  { destruct lj; [by rewrite orb_true_r|]. cbn [app]. by rewrite X1. }
  cbn [check mbind outcome_bind]. rewrite Es. cbn [mbind outcome_bind fst snd mret outcome_ret]. rewrite AppendString_spec.
  destruct lj as [w|]; [rewrite bool_decide_eq_true_2 by done|rewrite bool_decide_eq_false_2 by (intros Hn; by apply Hn)]; done.
Qed.

(** The conversions of numbers, once their flags are known. *)
Lemma number_step o e c w lm rest z args text : width_ok w 30 -> c = 100 \/ c = 117 \/ c = 120 \/ c = 88 ->
  text = (if c =? 100 then number_text 10 (Z.abs (signed_arg lm z)) (width_value w) (pads w) (signed_arg lm z <? 0) false
          else number_text (if c =? 117 then 10 else 16) (unsigned_arg lm z) (width_value w) (pads w) false (c =? 88)) ->
  (p ← read_flags (w ++ show_length lm ++ c :: rest) (Num z :: args);
   let '(f, cur, args) := p : flags * list Z * list arg in
   r ← convert o e f (at_cur cur) args; mret (r, tl cur)) = Done (put o e text, zlen text, args, rest).
Proof.
  intros Hok Hc ->. destruct (u8_width w Hok) as [Eu Hu]. destruct (flags_of_number w lm c rest (Num z :: args) Hok Hc) as (hw & ->).
  cbn [app mbind outcome_bind at_cur nth tl]. unfold convert.
  pose proof (AppendSignedDecimal_spec o e (signed_arg lm z) (width_value w) (pads w) (signed_arg_range lm z) Hu) as Ed.
  assert (forall base up, base = 10 \/ base = 16 -> AppendUnsigned o e (unsigned_arg lm z) base (width_value w) (pads w) up = _) as Eun
    by (intros base up Hb; apply AppendNumber_spec; [done|apply unsigned_arg_range|done|done]).
  destruct Hc as [-> |[-> |[-> | ->]]]; cbn [precision left_justified width pad_with_zero have_z have_l have_ll Z.leb Z.compare orb andb negb check mbind outcome_bind Z.eqb Pos.eqb va_num mret outcome_ret fst snd];
    rewrite Eu; destruct lm; cbn [unsigned_arg signed_arg] in Ed, Eun |- *; rewrite ?Ed, ?Eun by auto; done.
Qed.

(** One directive, read and printed. *)
Lemma directive_step o e d rest args t args' : directive_ok d -> render d args = Some (t, args') ->
  match d with DLit _ => True | _ =>
    (p ← read_flags (tl (show d) ++ rest) args;
     let '(f, cur, args) := p : flags * list Z * list arg in
     r ← convert o e f (at_cur cur) args; mret (r, tl cur)) = Done (put o e t, zlen t, args', rest)
  end.
Proof.
  intros Hok Hr. destruct d as [c|w lm|w lm|up w lm| |lj prec| |]; [done|..]; cbn [show tl].
  5: { rewrite <- !app_assoc. by apply string_step. }
  all: try (destruct args as [|[z|s] args]; cbn in Hr; try done). all: injection Hr as <- <-.
  - rewrite <- !app_assoc. by apply number_step; [| left|].
  - rewrite <- !app_assoc. by apply number_step; [|right; left|].
  - rewrite <- !app_assoc. destruct up; (apply number_step; [done|auto|done]).
  - cbn. rewrite AppendPointer_spec by apply u64_range. done.
  - done.
  - done.
  - done.
  - done.
Qed.

(** The loop on a whole format. *)
Lemma format_loop_show ds : forall fuel o e args r t, Forall directive_ok ds -> render_all ds args = Some t -> (length (concat (map show ds)) < fuel)%nat ->
  format_loop fuel o e (concat (map show ds)) args r = Some (Done (put o e t, r + zlen t)).
Proof.
  induction ds as [|d ds IH]; intros fuel o e args r t Hok Hr Hf; destruct fuel as [|fuel]; [cbn in Hf; lia| |cbn in Hf; lia|].
  - cbn in Hr. injection Hr as <-. unfold zlen. cbn. do 3 f_equal. lia.
  - apply Forall_cons_iff in Hok as [Hd Hok]. cbn [render_all] in Hr. destruct (render d args) as [[t1 args1]|] eqn:E1; [|done]. cbn in Hr.
    destruct (render_all ds args1) as [t2|] eqn:E2; [|done]. cbn in Hr. injection Hr as <-. cbn [map concat] in Hf |- *.
    pose proof (directive_step o e d (concat (map show ds)) args t1 args1 Hd E1) as Hstep.
    assert (1 <= length (show d))%nat as Hlen by (destruct d; cbn; lia). rewrite length_app in Hf.
    rewrite put_app, zlen_app, Z.add_assoc, <- (IH fuel) with (args := args1) by (done || lia).
    destruct d as [c|w lm|w lm|up w lm| |lj prec| |]; cbn [show app format_loop tl] in *.
    { cbn in E1. injection E1 as <- <-. cbn in Hd. rewrite (proj2 (Z.eqb_neq c 37)) by done. cbn [negb]. by rewrite put_char. }
    all: cbn [Z.eqb Pos.eqb negb]; cbn [app] in Hstep; by rewrite Hstep.
Qed.

(** The output of a supported format is exactly the text of its directives, each
    rendered from its arguments: numbers in positional notation with their sign, width
    and padding, strings cut to the precision and padded on the right, pointers with at
    least twelve digits.  The buffer holds as much of it as fits, the result is its whole
    length. *)
Lemma VSNPrintf_exact m buff n ds args t : 0 < n -> Forall directive_ok ds -> render_all ds args = Some t ->
  exists m', VSNPrintf m buff n (concat (map show ds)) args = Some (Done (m', zlen t)) /\ printed m buff n t m'.
Proof.
  intros Hn Hok Hr. unfold VSNPrintf. rewrite (proj2 (Z.ltb_lt 0 n)) by lia. cbn [negb].
  rewrite (format_loop_show ds _ _ _ _ _ t) by (done || lia). cbn [mbind option_bind]. rewrite Z.add_0_l.
  destruct (VSNPrintf_puts m buff n t _ Hn eq_refl) as (m' & E & Hp). exists m'. by rewrite <- E.
Qed.

(** ** Messages *)

(** [char] arrays. *)
Class PageSize := page_size_log : Z.
#[export] Instance char_vector `{PageSize} : VectorParams Z := {| sizeof_T := 1; zero_T := 0; vector_page_log := page_size_log |}.

(** Printing into the cells of an array, from the offset [off] on: the array is memory
    of its own. *)
Definition image (cells : list Z) : mem := fun x => nth (Z.to_nat x) cells 0.
Definition print_at (cells : list Z) (off buff_length : Z) (format : list Z) (args : list arg) : option (outcome (list Z * Z)) :=
  fuel_bind (VSNPrintf (image cells) off buff_length format args)
    (fun '(m, n) => Some (mret (map m (zrange (zlen cells)), n))).

Section messages.
Context `{PageSize}.

(** [common_flags()->log_exe_name], [GetProcessName()], [internal_getpid()]. *)
Context (log_exe_name : bool) (exe_name : option (list Z)) (pid : Z).

(** One attempt to print the message into a buffer of [buffer_size] cells: the length it
    needs so far, and whether all of it fits. *)
Definition attempt (append_pid : bool) (cells : list Z) (buffer_size : Z) (format : list Z) (args : list arg)
    : option (outcome (list Z * Z * bool)) :=
  fuel_bind
    (if append_pid then
       fuel_bind
         (match exe_name with
          | Some exe =>
              if log_exe_name then
                fuel_bind (print_at cells 0 buffer_size (chars "==%s") [Str (Some exe)])
                  (fun '(cells, n) => Some (mret (cells, n, n <? buffer_size)))
              else Some (mret (cells, 0, true))
          | None => Some (mret (cells, 0, true))
          end)
         (fun '(cells, needed_length, fits) =>
            if negb fits then Some (mret (cells, needed_length, false)) else
            fuel_bind (print_at cells needed_length (buffer_size - needed_length) (chars "==%d==") [Num pid])
              (fun '(cells, n) => Some (mret (cells, needed_length + n, needed_length + n <? buffer_size))))
     else Some (mret (cells, 0, true)))
    (fun '(cells, needed_length, fits) =>
       if negb fits then Some (mret (cells, needed_length, false)) else
       fuel_bind (print_at cells needed_length (buffer_size - needed_length) format args)
         (fun '(cells, n) => Some (mret (cells, needed_length + n, needed_length + n <? buffer_size)))).

(** The retries, in the mapped array [v]. *)
Fixpoint retry (fuel : nat) (append_pid : bool) (v : vector (T := Z)) (needed_length : Z) (format : list Z) (args : list arg)
    : option (outcome (list Z)) :=
  match fuel with
  | O => None
  | S fuel =>
      fuel_bind (Some (v ← resize v (needed_length + 1); resize v (capacity v)))
        (fun v => fuel_bind (attempt append_pid (elements v) (size_ v) format args)
          (fun '(cells, needed_length, fits) =>
             if fits : bool then Some (mret cells)
             else retry fuel append_pid (mkVector (cells ++ drop (Z.to_nat (size_ v)) (data_ v)) (capacity_bytes_ v) (size_ v)) needed_length format args))
  end.

(** The buffer whose string is written: first the local one, then the mapped ones. *)
Definition SharedPrintfCodeNoBuffer (fuel : nat) (append_pid : bool) (local_buffer : list Z) (format : list Z) (args : list arg)
    : option (outcome (list Z)) :=
  fuel_bind (attempt append_pid local_buffer (zlen local_buffer) format args)
    (fun '(cells, needed_length, fits) =>
       if fits : bool then Some (mret cells)
       else fuel_bind (Some (Initialize 0)) (fun v => retry fuel append_pid v needed_length format args)).

(** The local buffer has 400 cells, of any content. *)
Definition SharedPrintfCode (fuel : nat) (append_pid : bool) (garbage : Z -> Z) (format : list Z) (args : list arg) :=
  SharedPrintfCodeNoBuffer fuel append_pid (map garbage (zrange 400)) format args.

Definition Printf (fuel : nat) := SharedPrintfCode fuel false.
Definition Report (fuel : nat) := SharedPrintfCode fuel true.

(** *** [InternalScopedString] *)

Definition InternalScopedString := vector (T := Z).
Definition scoped_length (buffer_ : InternalScopedString) : Z := size_ buffer_ - 1.

Definition Append (buffer_ : InternalScopedString) (str : list Z) : outcome InternalScopedString :=
  let prev_len := scoped_length buffer_ in
  let str_len := zlen str in
  v ← resize buffer_ (prev_len + str_len + 1);
  mret (mkVector (firstn (Z.to_nat prev_len) (data_ v) ++ str ++ 0 :: drop (Z.to_nat (prev_len + str_len + 1)) (data_ v))
          (capacity_bytes_ v) (size_ v)).

Fixpoint append_loop (fuel : nat) (buffer_ : InternalScopedString) (prev_len : Z) (format : list Z) (args : list arg)
    : option (outcome InternalScopedString) :=
  match fuel with
  | O => None
  | S fuel =>
      fuel_bind (Some (resize buffer_ (capacity buffer_)))
        (fun v => fuel_bind (print_at (data_ v) prev_len (size_ v - prev_len) format args)
          (fun '(cells, sz) =>
             let v := mkVector cells (capacity_bytes_ v) (size_ v) in
             if sz <? size_ v - prev_len then Some (resize v (prev_len + sz + 1))
             else fuel_bind (Some (reserve v (capacity v * 2))) (fun v => append_loop fuel v prev_len format args)))
  end.

Definition AppendF (fuel : nat) (buffer_ : InternalScopedString) (format : list Z) (args : list arg) : option (outcome InternalScopedString) :=
  fuel_bind (append_loop fuel buffer_ (scoped_length buffer_) format args)
    (fun v => Some (c ← at_ v (scoped_length v); _ ← check (c =? 0) "buffer_[length()] == 0"; mret v)).

(** *** What a message prints *)

(** The prints of an attempt, one after the other. *)
Definition stages (append_pid : bool) (format : list Z) (args : list arg) : list (list Z * list arg) :=
  (if append_pid then
     match exe_name with Some exe => if log_exe_name then [(chars "==%s", [Str (Some exe)])] else [] | None => [] end ++
     [(chars "==%d==", [Num pid])]
   else []) ++ [(format, args)].

Fixpoint run_stages (cells : list Z) (needed_length buffer_size : Z) (l : list (list Z * list arg)) : option (outcome (list Z * Z * bool)) :=
  match l with
  | [] => Some (mret (cells, needed_length, true))
  | (format, args) :: l =>
      fuel_bind (print_at cells needed_length (buffer_size - needed_length) format args)
        (fun '(cells, n) => if needed_length + n <? buffer_size then run_stages cells (needed_length + n) buffer_size l
                            else Some (mret (cells, needed_length + n, false)))
  end.

Lemma attempt_stages append_pid cells size format args :
  attempt append_pid cells size format args = run_stages cells 0 size (stages append_pid format args).
Proof.
  assert (forall cells needed, 
    fuel_bind (print_at cells needed (size - needed) format args) (fun '(cells, n) => Some (mret (cells, needed + n, needed + n <? size))) =
    run_stages cells needed size [(format, args)]) as Hlast.
  { intros c needed. cbn [run_stages]. destruct (print_at c needed _ _ _) as [[[c' n]|why]|]; cbn [fuel_bind]; try done. by destruct (_ <? _). }
  unfold attempt, stages. destruct append_pid; cbn [app]; [|apply Hlast].
  assert (forall cells needed, 
    fuel_bind (fuel_bind (print_at cells needed (size - needed) (chars "==%d==") [Num pid])
              (fun '(cells, n) => Some (mret (cells, needed + n, needed + n <? size))))
      (fun '(cells, needed_length, fits) => if negb fits then Some (mret (cells, needed_length, false)) else
        fuel_bind (print_at cells needed_length (size - needed_length) format args)
         (fun '(cells, n) => Some (mret (cells, needed_length + n, needed_length + n <? size)))) =
    run_stages cells needed size [(chars "==%d==", [Num pid]); (format, args)]) as Hpid.
  { intros c needed. cbn [run_stages]. destruct (print_at c needed _ _ _) as [[[c' n]|why]|]; cbn [fuel_bind]; try done.
    destruct (_ <? _); cbn [negb]; [apply Hlast|done]. }
  destruct exe_name as [exe|]; [destruct log_exe_name|]; cbn [app]; [|apply (Hpid cells 0)|apply (Hpid cells 0)].
  cbn [run_stages]. rewrite Z.sub_0_r. destruct (print_at cells 0 size (chars "==%s") _) as [[[c' n]|why]|]; cbn [fuel_bind]; try done.
  rewrite Z.add_0_l. destruct (n <? size); cbn [negb fuel_bind]; [apply Hpid|done].
Qed.

(** *** Prints into an array *)

Lemma lookup_map_zrange {A} (f : Z -> A) n i : (i < Z.to_nat n)%nat -> map f (zrange n) !! i = Some (f (Z.of_nat i)).
Proof. intros Hi. rewrite list_lookup_fmap. replace i with (Z.to_nat (Z.of_nat i)) at 1 by lia. by rewrite zrange_lookup by lia. Qed.

Lemma map_zrange_length {A} (f : Z -> A) n : length (map f (zrange n)) = Z.to_nat n.
Proof. by rewrite length_map, zrange_length. Qed.

(** A print that fits, after [off] cells. *)
Lemma print_at_spec cells off ds args t : 0 <= off < zlen cells -> Forall directive_ok ds -> render_all ds args = Some t ->
  exists cells', print_at cells off (zlen cells - off) (concat (map show ds)) args = Some (Done (cells', zlen t)) /\ length cells' = length cells /\
    firstn (Z.to_nat off) cells' = firstn (Z.to_nat off) cells /\
    (off + zlen t < zlen cells -> firstn (Z.to_nat (off + zlen t + 1)) cells' = firstn (Z.to_nat off) cells ++ map u8 t ++ [0]).
Proof.
  intros Hoff Hok Hr. unfold print_at.
  destruct (VSNPrintf_exact (image cells) off (zlen cells - off) ds args t ltac:(lia) Hok Hr) as (m' & -> & Hp). cbn [fuel_bind].
  eexists. split; [done|]. rewrite map_zrange_length. assert (0 <= zlen t) by (unfold zlen; lia). split; [unfold zlen; lia|].
  assert (forall i, (i < Z.to_nat off)%nat -> map m' (zrange (zlen cells)) !! i = cells !! i) as Hbefore.
  { intros i Hi. rewrite lookup_map_zrange, (Hp (Z.of_nat i)) by lia. destruct (lookup_lt_is_Some_2 cells i) as [x Hx]; [unfold zlen in *; lia|].
    rewrite Hx. f_equal. unfold image. rewrite Nat2Z.id, (nth_lookup_Some _ _ _ _ Hx). ranges; done || lia. }
  split.
  { apply list_eq. intros i. destruct (decide (i < Z.to_nat off)%nat); [rewrite !lookup_take_lt by lia; by apply Hbefore|by rewrite !lookup_take_ge by lia]. }
  intros Hfit. apply list_eq. intros i. destruct (decide (i < Z.to_nat (off + zlen t + 1))%nat) as [Hi|Hi].
  2: { rewrite lookup_take_ge by lia. symmetry. apply lookup_ge_None_2. rewrite !length_app, length_firstn, length_map. unfold zlen in *. cbn. lia. }
  rewrite lookup_take_lt by lia.
  assert (length (firstn (Z.to_nat off) cells) = Z.to_nat off) as Hlf by (rewrite length_firstn; unfold zlen in *; lia).
  destruct (decide (i < Z.to_nat off)%nat) as [Hlo|Hlo]; [rewrite lookup_app_l, lookup_take_lt by lia; by apply Hbefore|].
  rewrite lookup_map_zrange, (Hp (Z.of_nat i)) by (unfold zlen in *; lia). rewrite Z.min_l by lia.
  rewrite lookup_app_r, Hlf by lia. destruct (decide (Z.of_nat i = off + zlen t)) as [Hend|Hend].
  - rewrite lookup_app_r, length_map by (rewrite length_map; unfold zlen in *; lia).
      replace (i - Z.to_nat off - length t)%nat with 0%nat by (unfold zlen in *; lia). cbn. f_equal. ranges; done || lia.
  - rewrite lookup_app_l by (rewrite length_map; unfold zlen in *; lia).
      destruct (lookup_lt_is_Some_2 t (i - Z.to_nat off)) as [x Hx]; [unfold zlen in *; lia|]. rewrite list_lookup_fmap, Hx. cbn. f_equal.
      replace (Z.to_nat (Z.of_nat i - off)) with (i - Z.to_nat off)%nat by lia. rewrite (nth_lookup_Some _ _ _ _ Hx). ranges; done || lia.
Qed.

(** The prints, with their formats and texts. *)
Definition renders (l : list (list Z * list arg)) (texts : list (list Z)) : Prop :=
  Forall2 (fun p t => exists ds, p.1 = concat (map show ds) /\ Forall directive_ok ds /\ render_all ds p.2 = Some t) l texts.

(** The lengths after each print. *)
Fixpoint sums (n : Z) (texts : list (list Z)) : list Z :=
  match texts with [] => [] | t :: texts => (n + zlen t) :: sums (n + zlen t) texts end.

(** How many of them do not fit in [size] cells. *)
Definition too_long (n : Z) (texts : list (list Z)) (size : Z) : nat := length (List.filter (fun s => size <=? s) (sums n texts)).

Lemma sums_ge n texts s : In s (sums n texts) -> n <= s.
Proof.
  revert n. induction texts as [|t texts IH]; intros n; cbn [sums In]; [done|]. assert (0 <= zlen t) by (unfold zlen; lia).
  intros [<-|Hs%IH]; lia.
Qed.

Lemma filter_all {A} (f : A -> bool) l : (forall x, In x l -> f x = true) -> List.filter f l = l.
Proof.
  induction l as [|a l IH]; intros Hf; cbn [List.filter]; [done|]. rewrite Hf by by left. f_equal. apply IH. intros x Hx. apply Hf. by right.
Qed.

Lemma run_stages_spec l texts : renders l texts -> forall cells n pre, 0 <= n < zlen cells -> n = zlen pre ->
  firstn (length pre) cells = pre ->
  exists cells' needed (fits : bool), run_stages cells n (zlen cells) l = Some (Done (cells', needed, fits)) /\ length cells' = length cells /\
    if fits then needed = n + zlen (concat texts) /\ needed < zlen cells /\
                 firstn (Z.to_nat needed) cells' = pre ++ map u8 (concat texts) /\ (l <> [] -> nth (Z.to_nat needed) cells' 0 = 0)
    else zlen cells <= needed /\ needed <= n + zlen (concat texts) /\ (too_long n texts (needed + 1) < too_long n texts (zlen cells))%nat.
Proof.
  induction 1 as [|[fmt args] t l texts (ds & Hds & Hok & Hr) Hl IH]; intros cells n pre Hn Hpre Hcells.
  - exists cells, n, true. split; [done|]. split; [done|]. cbn [concat map app]. split; [unfold zlen; cbn; lia|]. split; [lia|]. split; [|done].
    rewrite app_nil_r, Hpre. unfold zlen. by rewrite Nat2Z.id.
  - cbn [run_stages fst snd] in *. subst fmt. destruct (print_at_spec cells n ds args t Hn Hok Hr) as (c1 & -> & Hlen & _ & Hfit). cbn [fuel_bind concat].
    assert (0 <= zlen t) by (unfold zlen; lia). assert (zlen c1 = zlen cells) as Hlc by (unfold zlen; congruence).
    assert (0 <= zlen (concat texts)) by (unfold zlen; lia). rewrite zlen_app.
    destruct (Z.ltb_spec (n + zlen t) (zlen cells)) as [Hlt|Hge].
    + specialize (Hfit Hlt). assert (firstn (length pre) c1 = pre ++ []) as Hc1.
      { replace (length pre) with (Nat.min (length pre) (Z.to_nat (n + zlen t + 1))) by (unfold zlen in *; lia). rewrite <- firstn_firstn, Hfit.
        replace (Z.to_nat n) with (length pre) by (unfold zlen in *; lia). by rewrite Hcells, take_app_length, app_nil_r. }
      assert (firstn (length (pre ++ map u8 t)) c1 = pre ++ map u8 t) as Hc2.
      { replace (length (pre ++ map u8 t)) with (Nat.min (length (pre ++ map u8 t)) (Z.to_nat (n + zlen t + 1))) by (rewrite length_app, length_map; unfold zlen in *; lia).
        rewrite <- firstn_firstn, Hfit. replace (Z.to_nat n) with (length pre) by (unfold zlen in *; lia). by rewrite Hcells, app_assoc, take_app_length. }
      assert (nth (Z.to_nat (n + zlen t)) c1 0 = 0) as Hz.
      { apply nth_lookup_Some. rewrite <- (lookup_take_lt _ (Z.to_nat (n + zlen t + 1))), Hfit by lia.
        rewrite app_assoc, lookup_app_r by (rewrite length_app, length_firstn, length_map; unfold zlen in *; lia).
        rewrite length_app, length_firstn, length_map. by replace (Z.to_nat (n + zlen t) - _)%nat with 0%nat by (unfold zlen in *; lia). }
      destruct (IH c1 (n + zlen t) (pre ++ map u8 t)) as (c' & needed & fits & E & Hl' & Hres); [lia|rewrite zlen_app; unfold zlen in *; rewrite length_map; lia|done|].
      rewrite <- Hlc, E. exists c', needed, fits. split; [done|]. split; [congruence|]. destruct fits.
      * destruct Hres as (-> & Hlt2 & Hpre2 & Hnul). rewrite map_app, app_assoc. split; [lia|]. split; [lia|]. split; [done|]. intros _.
        destruct l as [|p l]; [|by apply Hnul]. inversion Hl; subst. cbn in E. injection E as <-. unfold zlen. cbn. by rewrite Z.add_0_r.
      * destruct Hres as (Hn1 & Hn2 & Hn3). split; [lia|]. split; [lia|]. unfold too_long in *. cbn [sums List.filter].
        rewrite !(proj2 (Z.leb_gt _ (n + zlen t))) by lia. done.
    + exists c1, (n + zlen t), false. split; [done|]. split; [done|]. split; [lia|]. split; [lia|]. unfold too_long. cbn [sums List.filter].
      rewrite (proj2 (Z.leb_gt (n + zlen t + 1) (n + zlen t))) by lia. rewrite (proj2 (Z.leb_le (zlen cells) (n + zlen t))) by lia. cbn [length].
      rewrite (filter_all (fun s => zlen cells <=? s)) by (intros x Hx%sums_ge; apply Z.leb_le; lia).
      pose proof (List.filter_length_le (fun s => n + zlen t + 1 <=? s) (sums (n + zlen t) texts)). lia.
Qed.

Context (page_ok : 12 <= page_size_log <= 30).

Lemma char_vector_ok : VectorOk char_vector.
Proof. split; [done|exact page_ok]. Qed.

(** The texts of a message: its header and its body. *)
Definition message_texts (append_pid : bool) (body : list Z) : list (list Z) :=
  (if append_pid then
     match exe_name with Some exe => if log_exe_name then [chars "==" ++ exe] else [] | None => [] end ++
     [chars "==" ++ number_text 10 (Z.abs (s32 pid)) 0 false (s32 pid <? 0) false ++ chars "=="]
   else []) ++ [body].

Lemma stages_render append_pid ds args body : Forall directive_ok ds -> render_all ds args = Some body ->
  renders (stages append_pid (concat (map show ds)) args) (message_texts append_pid body).
Proof.
  intros Hok Hr. unfold renders, stages, message_texts. apply List.Forall2_app; [|by repeat constructor; exists ds].
  destruct append_pid; [|done]. apply List.Forall2_app.
  - destruct exe_name as [exe|]; [|done]. destruct log_exe_name; [|done]. constructor; [|done].
    exists [DLit 61; DLit 61; DStr None false]. split; [done|]. split; [by repeat constructor|]. cbn. rewrite !app_nil_r. done.
  - constructor; [|done]. exists [DLit 61; DLit 61; DDec [] LNone; DLit 61; DLit 61]. split; [done|].
    split; [|done]. repeat constructor; done.
Qed.

Definition holds_string (cells t : list Z) : Prop :=
  firstn (length t) cells = map u8 t /\ nth (length t) cells 0 = 0 /\ (length t < length cells)%nat.

Lemma attempt_spec append_pid cells ds args body : Forall directive_ok ds -> render_all ds args = Some body -> 0 < zlen cells ->
  let texts := message_texts append_pid body in
  exists cells' needed (fits : bool), attempt append_pid cells (zlen cells) (concat (map show ds)) args = Some (Done (cells', needed, fits)) /\
    length cells' = length cells /\
    if fits then holds_string cells' (concat texts)
    else zlen cells <= needed /\ needed <= zlen (concat texts) /\ (too_long 0 texts (needed + 1) < too_long 0 texts (zlen cells))%nat.
Proof.
  intros Hok Hr Hc. cbn zeta. rewrite attempt_stages. pose proof (stages_render append_pid ds args body Hok Hr) as Hs.
  destruct (run_stages_spec _ _ Hs cells 0 [] ltac:(lia) eq_refl eq_refl) as (c' & needed & fits & -> & Hl & Hres).
  exists c', needed, fits. split; [done|]. split; [done|]. destruct fits; [|by rewrite Z.add_0_l in Hres].
  destruct Hres as (-> & Hlt & Hf & Hz). rewrite Z.add_0_l in *. unfold zlen in Hf, Hz, Hlt |- *. rewrite Nat2Z.id in *. split; [done|]. split; [|lia].
  apply Hz. unfold stages. by destruct append_pid, exe_name, log_exe_name.
Qed.

Lemma too_long_mono n texts a b : a <= b -> (too_long n texts b <= too_long n texts a)%nat.
Proof.
  intros Hab. unfold too_long. induction (sums n texts) as [|s l IH]; cbn [List.filter]; [done|].
  destruct (Z.leb_spec a s), (Z.leb_spec b s); cbn [length]; lia.
Qed.

Lemma retry_spec ds args body append_pid : Forall directive_ok ds -> render_all ds args = Some body ->
  zlen (concat (message_texts append_pid body)) < 2 ^ 46 -> forall fuel v needed,
  vector_ok v -> capacity v < 2 ^ 47 -> 0 <= needed <= zlen (concat (message_texts append_pid body)) ->
  (too_long 0 (message_texts append_pid body) (needed + 1) < fuel)%nat ->
  exists cells, retry fuel append_pid v needed (concat (map show ds)) args = Some (Done cells) /\ holds_string cells (concat (message_texts append_pid body)).
Proof.
  intros Hok Hr Hlen. induction fuel as [|fuel IH]; intros v needed Hv Hcap Hneed Hf; [lia|]. cbn [retry]. pose proof char_vector_ok as Hcv.
  destruct (vector_resize_spec v (needed + 1) Hv) as (v1 & -> & Hv1 & Hs1 & Hc1 & _); [unfold max_elements; lia|]. cbn [mbind outcome_bind].
  destruct (v_size v1 Hv1) as [Hs0 Hs3]. assert (2 ^ page_size_log <= 2 ^ 30) as Hpg by (apply Z.pow_le_mono_r; lia).
  change (2 ^ vector_page_log) with (2 ^ page_size_log) in Hc1.
  destruct (vector_resize_spec v1 (capacity v1) Hv1) as (v2 & -> & Hv2 & Hs2 & Hc2 & _); [unfold max_elements; lia|]. cbn [mbind outcome_bind fuel_bind].
  pose proof (elements_length v2 Hv2) as Hl2. assert (zlen (elements v2) = size_ v2) as Hz2 by exact Hl2. rewrite <- Hz2.
  destruct (attempt_spec append_pid (elements v2) ds args body Hok Hr ltac:(lia)) as (c & need & fits & -> & Hlc & Hres). cbn [fuel_bind].
  destruct fits; [by exists c|]. destruct Hres as (Hn1 & Hn2 & Hn3). rewrite Hz2 in *.
  pose proof (v_cells v2 Hv2) as Hcells. destruct (v_size v2 Hv2). pose proof (v_bytes v2 Hv2).
  apply IH; [|unfold capacity in *; cbn [capacity_bytes_]; lia|lia|].
  - split; unfold capacity in *; cbn [capacity_bytes_ size_ data_]; [lia| |done]. rewrite length_app, length_drop. lia.
  - assert (forall a b, a <= b -> (too_long 0 (message_texts append_pid body) b <= too_long 0 (message_texts append_pid body) a)%nat) as Hmono.
    { intros a b Hab. apply too_long_mono. done. }
    pose proof (Hmono (needed + 1) (size_ v2) ltac:(lia)). lia.
Qed.

(** a message is printed in full, whatever its length: after at most three retries
    in mapped memory the buffer holds the header and the text of the format, terminated. *)
Theorem messages_are_complete append_pid garbage ds args body : Forall directive_ok ds -> render_all ds args = Some body ->
  zlen (concat (message_texts append_pid body)) < 2 ^ 46 ->
  exists cells, SharedPrintfCode 3 append_pid garbage (concat (map show ds)) args = Some (Done cells) /\
    holds_string cells (concat (message_texts append_pid body)).
Proof.
  intros Hok Hr Hlen. unfold SharedPrintfCode, SharedPrintfCodeNoBuffer.
  assert (zlen (map garbage (zrange 400)) = 400) as Hz by (unfold zlen; by rewrite map_zrange_length).
  destruct (attempt_spec append_pid (map garbage (zrange 400)) ds args body Hok Hr ltac:(lia)) as (c & need & fits & -> & Hlc & Hres).
  cbn [fuel_bind]. destruct fits; [by exists c|]. destruct Hres as (Hn1 & Hn2 & Hn3). cbn [Initialize]. pose proof char_vector_ok as Hcv.
  pose proof empty_vector_ok as Hv. unfold Initialize, reserve. assert (capacity (mkVector [] 0 0) <? 0 = false) as -> by (apply Z.ltb_ge; apply (v_size _ Hv)).
  cbn [fuel_bind mret outcome_ret]. apply retry_spec; try done; [lia|].
  eapply Nat.lt_le_trans; [exact Hn3|]. unfold too_long. etrans; [apply List.filter_length_le|]. unfold message_texts.
  by destruct append_pid, exe_name, log_exe_name; cbn; repeat constructor.
Qed.

(** *** Growing strings *)

(** A string and its terminator are the elements. *)
Definition scoped_ok (buffer_ : InternalScopedString) (s : list Z) : Prop := vector_ok buffer_ /\ elements buffer_ = s ++ [0].

Lemma scoped_size b s : scoped_ok b s -> size_ b = zlen s + 1.
Proof. intros [Hv He]. rewrite <- (elements_length b Hv), He, length_app. unfold zlen. cbn. lia. Qed.

(** The elements of a full array are its cells. *)
Lemma full_elements v : vector_ok v -> size_ v = capacity v -> elements v = data_ v.
Proof. intros Hv Hs. pose proof (v_cells v Hv). unfold elements. apply take_ge. lia. Qed.

(** One turn: the text fits, or the room is doubled and the string kept. *)
Lemma append_turn ds args t s fuel v : Forall directive_ok ds -> render_all ds args = Some t -> zlen s + zlen t + 1 <= 2 ^ 45 ->
  vector_ok v -> capacity v < 2 ^ 47 -> zlen s < size_ v -> firstn (length s) (elements v) = s ->
  let turn := append_loop (S fuel) v (zlen s) (concat (map show ds)) args in
  (exists v', turn = Some (Done v') /\ scoped_ok v' (s ++ map u8 t)) \/
  (capacity v < zlen s + zlen t + 1 /\ exists v', turn = append_loop fuel v' (zlen s) (concat (map show ds)) args /\
     vector_ok v' /\ capacity v' < 2 ^ 47 /\ zlen s < size_ v' /\ firstn (length s) (elements v') = s /\ 2 * capacity v <= capacity v').
Proof.
  intros Hok Hr Hlen Hv Hc Hsz Hpre turn. pose proof char_vector_ok as Hcv. assert (0 <= zlen s /\ 0 <= zlen t) as [Hs Ht] by (unfold zlen; lia).
  assert (2 ^ page_size_log <= 2 ^ 30) as Hpg by (apply Z.pow_le_mono_r; lia). unfold turn. cbn [append_loop].
  destruct (v_size v Hv) as [Hv0 Hv1]. pose proof (elements_length v Hv) as Hel.
  destruct (vector_resize_spec v (capacity v) Hv) as (v2 & -> & Hv2 & Hs2 & Hc2 & He2); [unfold max_elements; lia|].
  assert (capacity v2 = capacity v) as Hcc by (destruct Hc2 as [?|[? _]]; lia).
  pose proof (full_elements v2 Hv2 ltac:(lia)) as Hfull. pose proof (v_cells v2 Hv2) as Hcells. cbn [fuel_bind].
  assert (firstn (length s) (data_ v2) = s) as Hpre2.
  { rewrite <- Hfull, He2, (take_ge (elements v)) by lia. by rewrite take_app_le by (unfold zlen in *; lia). }
  assert (zlen (data_ v2) = size_ v2) as Hz2 by (unfold zlen; lia). rewrite <- Hz2.
  destruct (print_at_spec (data_ v2) (zlen s) ds args t) as (cells & -> & Hlc & Hkeep & Hfit); [lia|done|done|]. cbn [fuel_bind].
  assert (firstn (length s) cells = s) as Hkeep2 by (unfold zlen in Hkeep; by rewrite Nat2Z.id, Hpre2 in Hkeep).
  set (v3 := mkVector cells (capacity_bytes_ v2) (zlen (data_ v2))). assert (capacity v3 = capacity v2) as Hc3 by done.
  assert (vector_ok v3) as Hv3.
  { split; [rewrite Hc3; cbn [size_ v3]; lia|rewrite Hc3; cbn [data_ v3]; by rewrite Hlc|exact (v_bytes v2 Hv2)]. }
  change (size_ v3) with (zlen (data_ v2)). destruct (Z.ltb_spec (zlen t) (zlen (data_ v2) - zlen s)) as [Hlt|Hge].
  - left. specialize (Hfit ltac:(lia)). destruct (vector_resize_spec v3 (zlen s + zlen t + 1) Hv3) as (v4 & -> & Hv4 & Hs4 & _ & He4);
      [unfold max_elements; lia|]. exists v4. split; [done|]. split; [done|]. rewrite He4.
    assert (elements v3 = cells) as -> by (apply full_elements; [done|rewrite Hc3; cbn [size_ v3]; lia]).
    assert (Z.to_nat (zlen s + zlen t + 1) - length cells = 0)%nat as -> by (unfold zlen in *; lia). cbn [repeat]. rewrite app_nil_r, Hfit.
    unfold zlen at 1. by rewrite Nat2Z.id, Hpre2, app_assoc.
  - right. split; [lia|]. destruct (vector_reserve_spec v3 (capacity v3 * 2) Hv3) as (v4 & E4 & Hv4 & Hs4 & He4 & Hc4 & Hc4'); [unfold max_elements; lia|].
    rewrite E4. cbn [fuel_bind]. exists v4. split; [done|]. change (2 ^ vector_page_log) with (2 ^ page_size_log) in Hc4'.
    split; [done|]. split; [lia|]. split; [rewrite Hs4; cbn [size_ v3]; lia|]. split; [|lia]. rewrite He4.
    by rewrite full_elements by (done || (rewrite Hc3; cbn [size_ v3]; lia)).
Qed.

(** AppendF appends the text of the format to the string, however many times the
    array must grow for it; the room doubles each time. *)
Theorem AppendF_appends ds args t b s : Forall directive_ok ds -> render_all ds args = Some t -> zlen s + zlen t + 1 <= 2 ^ 45 ->
  scoped_ok b s -> capacity b < 2 ^ 47 ->
  exists b', AppendF (2 + Z.to_nat (Z.log2 (zlen s + zlen t + 1))) b (concat (map show ds)) args = Some (Done b') /\ scoped_ok b' (s ++ map u8 t).
Proof.
  intros Hok Hr Hlen Hb Hc. pose proof char_vector_ok as Hcv. pose proof (scoped_size b s Hb) as Hsz. destruct Hb as [Hv He].
  assert (0 <= zlen s /\ 0 <= zlen t) as [Hs Ht] by (unfold zlen; lia). set (need := zlen s + zlen t + 1) in *.
  assert (forall fuel v, vector_ok v -> capacity v < 2 ^ 47 -> zlen s < size_ v -> firstn (length s) (elements v) = s ->
    need <= capacity v * 2 ^ Z.of_nat fuel ->
    exists v', append_loop (S fuel) v (zlen s) (concat (map show ds)) args = Some (Done v') /\ scoped_ok v' (s ++ map u8 t)) as Hloop.
  { induction fuel as [|fuel IH]; intros v Hv' Hc' Hsz' Hpre Hneed.
    - destruct (append_turn ds args t s 0 v Hok Hr Hlen Hv' Hc' Hsz' Hpre) as [Hdone|[Hlt _]]; [exact Hdone|]. change (2 ^ Z.of_nat 0) with 1 in Hneed. lia.
    - destruct (append_turn ds args t s (S fuel) v Hok Hr Hlen Hv' Hc' Hsz' Hpre) as [Hdone|(_ & v' & -> & H1 & H2 & H3 & H4 & H5)]; [exact Hdone|].
      apply IH; try done. rewrite Nat2Z.inj_succ, Z.pow_succ_r in Hneed by lia. assert (0 < 2 ^ Z.of_nat fuel) by (apply Z.pow_pos_nonneg; lia). nia. }
  destruct (Hloop (S (Z.to_nat (Z.log2 need))) b Hv Hc) as (b' & E & Hb').
  - lia.
  - by rewrite He, take_app_length.
  - rewrite Nat2Z.inj_succ, Z2Nat.id by apply Z.log2_nonneg. pose proof (Z.log2_spec need ltac:(lia)). destruct (v_size b Hv).
    assert (0 < 2 ^ Z.succ (Z.log2 need)) by (apply Z.pow_pos_nonneg; pose proof (Z.log2_nonneg need); lia). nia.
  - exists b'. unfold AppendF, scoped_length. replace (size_ b - 1) with (zlen s) by lia. change (2 + Z.to_nat (Z.log2 need))%nat with (S (S (Z.to_nat (Z.log2 need)))).
    rewrite E. cbn [fuel_bind]. pose proof (scoped_size b' _ Hb') as Hs'. destruct Hb' as [Hv2 He2]. rewrite at_spec by (done || (unfold zlen in *; lia)).
    rewrite He2, Hs', lookup_app_r by (unfold zlen; lia). replace (Z.to_nat (zlen (s ++ map u8 t) + 1 - 1) - length (s ++ map u8 t))%nat with 0%nat by (unfold zlen; lia).
    done.
Qed.

Lemma Append_appends b s str : scoped_ok b s -> zlen s + zlen str + 1 <= max_elements ->
  exists b', Append b str = Done b' /\ scoped_ok b' (s ++ str).
Proof.
  intros Hb Hlen. pose proof char_vector_ok as Hcv. pose proof (scoped_size b s Hb) as Hsz. destruct Hb as [Hv He]. unfold Append, scoped_length.
  replace (size_ b - 1) with (zlen s) by lia. assert (0 <= zlen s /\ 0 <= zlen str) as [Hs Ht] by (unfold zlen; lia).
  destruct (vector_resize_spec b (zlen s + zlen str + 1) Hv ltac:(lia)) as (v & -> & Hv2 & Hs2 & _ & He2). cbn [mbind outcome_bind]. eexists. split; [done|].
  pose proof (v_cells v Hv2) as Hl. destruct (v_size v Hv2).
  assert (firstn (Z.to_nat (zlen s)) (data_ v) = s) as Hpre.
  { transitivity (firstn (Z.to_nat (zlen s)) (elements v)); [unfold elements; rewrite firstn_firstn; f_equal; lia|].
    rewrite He2, He, (take_ge (s ++ [0])) by (rewrite length_app; unfold zlen in *; cbn; lia). rewrite <- app_assoc. apply take_app_length'. unfold zlen. lia. }
  rewrite Hpre. split.
  - split; unfold capacity in *; cbn [capacity_bytes_ size_ data_]; [lia| |exact (v_bytes v Hv2)]. rewrite !length_app. cbn [length]. rewrite length_drop. unfold zlen in *. lia.
  - unfold elements. cbn [size_ data_]. rewrite Hs2. match goal with |- context [0 :: ?X] => replace (s ++ str ++ 0 :: X) with (((s ++ str) ++ [0]) ++ X) by (by rewrite <- !app_assoc) end.
    apply take_app_length'. rewrite !length_app. unfold zlen. cbn. lia.
Qed.
End messages.

(** Pages of 4 KiB. *)
Definition small_pages : PageSize := 12.

Lemma messages_are_complete_witness :
  exists cells, SharedPrintfCode (H := small_pages) true (Some (chars "a.out")) 77 3 true (fun _ => 5) (chars "x=%d") [Num 42] = Some (Done cells) /\
    holds_string cells (chars "==a.out==77==x=42").
Proof.
  apply (messages_are_complete (H := small_pages) true (Some (chars "a.out")) 77 ltac:(done) true (fun _ => 5) [DLit 120; DLit 61; DDec [] LNone] [Num 42] (chars "x=42"));
    [by repeat constructor|reflexivity|reflexivity].
Defined.

Lemma AppendF_appends_witness :
  exists b', AppendF (H := small_pages) 5 (mkVector [0] 1 1) (chars "%x") [Num 255] = Some (Done b') /\ scoped_ok (H := small_pages) b' (chars "ff").
Proof.
  apply (AppendF_appends (H := small_pages) ltac:(done) [DHex false [] LNone] [Num 255] (chars "ff") (mkVector [0] 1 1) []); try done.
  by repeat constructor.
Defined.
