(* ===== verification/Flags.v ===== *)
(** * Flags: the options of the runtime

    The parser of option strings (src/rt/sanitizer_common/sanitizer_flag_parser.{h,cpp}),
    the common flags with the substitutions and includes (sanitizer_flags.{inc,cpp}), and
    [InitializeFlags] of src/rt/cqmsan/cqmsan.cpp with the flags of cqmsan_flags.inc.

    The two structs of flags are generated from lists (X-macros); here each is a finite map
    from the names, and the lists are the tables [cqmsan_flags] and [common_flags].  A
    string is the list of its characters.  The environment and the files are functions.
    An included file is parsed by the same parser, to any depth: the depth is the fuel.

    Whatever the options, [InitializeFlags] stops the process or leaves flags of their
    declared types within the bounds the runtime relies on ([InitializeFlags_valid]); a
    list of settings is read back as it is written ([settings_roundtrip]).

    Left out: the printing of the descriptions, of warnings and of error texts. *)

From S2P Require Import Prelude Common Memory Libc MmapVector Printf Origin.

(** ** Values *)

Inductive HandleSignalMode := kHandleSignalNo | kHandleSignalYes | kHandleSignalExclusive.

Inductive flag_type := TBool | TInt | TUptr | TStr | TSignal.

Inductive value := VBool (b : bool) | VInt (z : Z) | VUptr (z : Z) | VStr (s : option (list Z)) | VSignal (m : HandleSignalMode).

Definition type_of (v : value) : flag_type :=
  match v with VBool _ => TBool | VInt _ => TInt | VUptr _ => TUptr | VStr _ => TStr | VSignal _ => TSignal end.

(** *** [FlagHandler<T>::Parse] *)

Definition str_eq (value : list Z) (s : string) : bool := bool_decide (value = chars s).

Definition ParseBool (value : list Z) : option bool :=
  if str_eq value "0" || str_eq value "no" || str_eq value "false" then Some false
  else if str_eq value "1" || str_eq value "yes" || str_eq value "true" then Some true
  else None.

(** The number at the start of the string, and whether [*value_end] is the terminator.
    The string is memory of its own, which the number cannot leave. *)
Definition ParseNumber (value : list Z) : option Z :=
  match internal_simple_strtoll (S (length value)) (image value) 0 10 with
  | Some (Done (z, value_end)) => if image value value_end =? 0 then Some z else None
  | _ => None
  end.

(** [None] is the result false: the parser then stops the process, whatever was stored. *)
Definition FlagHandler_Parse (t : flag_type) (text : list Z) : option value :=
  match t with
  | TBool => VBool <$> ParseBool text
  | TSignal =>
      match ParseBool text with
      | Some b => Some (VSignal (if b then kHandleSignalYes else kHandleSignalNo))
      | None => if str_eq text "2" || str_eq text "exclusive" then Some (VSignal kHandleSignalExclusive) else None
      end
  | TStr => Some (VStr (Some text))
  | TInt => (fun z => VInt (s32 z)) <$> ParseNumber text
  | TUptr => (fun z => VUptr (u64 z)) <$> ParseNumber text
  end.

Definition mode_number (m : HandleSignalMode) : Z :=
  match m with kHandleSignalNo => 0 | kHandleSignalYes => 1 | kHandleSignalExclusive => 2 end.

(** *** [FlagHandler<T>::Format]: the text, and what is left of it in the buffer *)
Definition format_of (v : value) : list Z * list arg :=
  match v with
  | VBool b => (chars "%s", [Str (Some (if b then chars "true" else chars "false"))])
  | VSignal m => (chars "%d", [Num (mode_number m)])
  | VStr s => (chars "%s", [Str s])
  | VInt z => (chars "%d", [Num z])
  | VUptr z => (chars "0x%zx", [Num z])
  end.

Definition FlagHandler_Format (v : value) (buffer size : Z) (m : mem) : option (outcome (mem * bool)) :=
  let '(format, args) := format_of v in
  fuel_bind (internal_snprintf m buffer size format args) (fun '(m, num_symbols_should_write) => Some (mret (m, num_symbols_should_write <? size))).

(** ** The tables *)

Definition cqmsan_flags : list (string * value) :=
  [
    ("exit_code", VInt (-1)); ("origin_history_size", VInt kMaxDepth); ("origin_history_per_stack_limit", VInt 20000);
    ("poison_heap_with_zeroes", VBool false); ("poison_stack_with_zeroes", VBool false);
    ("poison_in_malloc", VBool true); ("poison_in_free", VBool true); ("poison_in_dtor", VBool false);
    ("report_umrs", VBool true); ("wrap_signals", VBool true); ("print_stats", VBool false);
    ("halt_on_error", VBool false); ("atexit", VBool false); ("store_context_size", VInt 20);
    ("skip_known_sites", VBool false); ("umr_unwind_depth", VInt 0); ("umr_fast_unwind", VBool true);
    ("poison_reuse", VBool true)
  ].

Definition common_flags : list (string * value) :=
  [
    ("symbolize", VBool true); ("external_symbolizer_path", VStr None); ("allow_addr2line", VBool false);
    ("strip_path_prefix", VStr (Some (chars ""))); ("fast_unwind_on_check", VBool false);
    ("fast_unwind_on_fatal", VBool false); ("fast_unwind_on_malloc", VBool true); ("handle_ioctl", VBool false);
    ("malloc_context_size", VInt 1); ("log_path", VStr None); ("log_exe_name", VBool false);
    ("log_suffix", VStr None); ("log_to_syslog", VBool false); ("verbosity", VInt 0); ("strip_env", VBool true);
    ("verify_interceptors", VBool true); ("detect_leaks", VBool true); ("leak_check_at_exit", VBool true);
    ("allocator_may_return_null", VBool false); ("print_summary", VBool true); ("print_module_map", VInt 0);
    ("check_printf", VBool true); ("handle_segv", VSignal kHandleSignalYes);
    ("handle_sigbus", VSignal kHandleSignalYes); ("handle_abort", VSignal kHandleSignalNo);
    ("handle_sigill", VSignal kHandleSignalNo); ("handle_sigtrap", VSignal kHandleSignalNo);
    ("handle_sigfpe", VSignal kHandleSignalYes); ("allow_user_segv_handler", VBool true);
    ("use_sigaltstack", VBool true); ("detect_deadlocks", VBool true);
    ("clear_shadow_mmap_threshold", VUptr (64 * 1024)); ("color", VStr (Some (chars "auto")));
    ("legacy_pthread_cond", VBool false); ("intercept_tls_get_addr", VBool false); ("help", VBool false);
    ("mmap_limit_mb", VUptr 0); ("hard_rss_limit_mb", VUptr 0); ("soft_rss_limit_mb", VUptr 0);
    ("max_allocation_size_mb", VUptr 0); ("heap_profile", VBool false);
    ("allocator_release_to_os_interval_ms", VInt 5000); ("can_use_proc_maps_statm", VBool true);
    ("coverage", VBool false); ("coverage_dir", VStr (Some (chars ".")));
    ("cov_8bit_counters_out", VStr (Some (chars ""))); ("cov_pcs_out", VStr (Some (chars "")));
    ("full_address_space", VBool false); ("print_suppressions", VBool true); ("disable_coredump", VBool true);
    ("use_madv_dontdump", VBool true); ("symbolize_inline_frames", VBool true); ("demangle", VBool true);
    ("symbolize_vs_style", VBool false); ("dedup_token_length", VInt 0);
    ("stack_trace_format", VStr (Some (chars "DEFAULT"))); ("compress_stack_depot", VInt 0);
    ("no_huge_pages_for_shadow", VBool true); ("strict_string_checks", VBool false); ("intercept_strstr", VBool true);
    ("intercept_strspn", VBool true); ("intercept_strtok", VBool true); ("intercept_strpbrk", VBool true);
    ("intercept_strcmp", VBool true); ("intercept_strlen", VBool true); ("intercept_strndup", VBool true);
    ("intercept_strchr", VBool true); ("intercept_memcmp", VBool true); ("strict_memcmp", VBool true);
    ("intercept_memmem", VBool true); ("intercept_intrin", VBool true); ("intercept_stat", VBool true);
    ("intercept_send", VBool true); ("decorate_proc_maps", VBool false); ("exitcode", VInt 1);
    ("abort_on_error", VBool false); ("suppress_equal_pcs", VBool true); ("print_cmdline", VBool false);
    ("html_cov_report", VBool false); ("sancov_path", VStr (Some (chars "sancov")));
    ("dump_instruction_bytes", VBool false); ("dump_registers", VBool true); ("detect_write_exec", VBool false);
    ("test_only_emulate_no_memorymap", VBool false); ("test_only_replace_dlopen_main_program", VBool false);
    ("enable_symbolizer_markup", VBool false); ("detect_invalid_join", VBool true)
  ].

(** ** The parser *)

Inductive handler :=
| HFlag (common : bool) (name : string) (t : flag_type)
| HKeepGoing
| HInclude (ignore_missing : bool).

Record FlagsState := mkFlagsState {
  cqmsan_values : gmap string value;
  common_values : gmap string value;
  unknown_flags : list (list Z);
  verbosity : Z
}.

Definition get (st : FlagsState) (common : bool) (name : string) : option value :=
  (if common then common_values st else cqmsan_values st) !! name.
Definition put_flag (st : FlagsState) (common : bool) (name : string) (v : value) : FlagsState :=
  if common then mkFlagsState (cqmsan_values st) (<[name := v]> (common_values st)) (unknown_flags st) (verbosity st)
  else mkFlagsState (<[name := v]> (cqmsan_values st)) (common_values st) (unknown_flags st) (verbosity st).
Definition get_int (st : FlagsState) (common : bool) (name : string) : Z :=
  match get st common name with Some (VInt z) => z | _ => 0 end.
Definition get_bool (st : FlagsState) (common : bool) (name : string) : bool :=
  match get st common name with Some (VBool b) => b | _ => false end.

Definition kMaxFlags : Z := 200.
Definition kMaxUnknownFlags : Z := 20.

Definition FlagParser := list (string * handler).

Definition RegisterHandler (parser : FlagParser) (name : string) (h : handler) : outcome FlagParser :=
  _ ← check (zlen parser <? kMaxFlags) "n_flags_ < kMaxFlags"; mret (parser ++ [(name, h)]).

Fixpoint RegisterFlags (parser : FlagParser) (common : bool) (l : list (string * value)) : outcome FlagParser :=
  match l with
  | [] => mret parser
  | (name, v) :: l => parser ← RegisterHandler parser name (HFlag common name (type_of v)); RegisterFlags parser common l
  end.

Definition RegisterCQMsanFlags (parser : FlagParser) : outcome FlagParser :=
  parser ← RegisterFlags parser false cqmsan_flags; RegisterHandler parser "keep_going" HKeepGoing.

Definition RegisterIncludeFlags (parser : FlagParser) : outcome FlagParser :=
  parser ← RegisterHandler parser "include" (HInclude false); RegisterHandler parser "include_if_exists" (HInclude true).

Definition RegisterCommonFlags (parser : FlagParser) : outcome FlagParser :=
  parser ← RegisterFlags parser true common_flags; RegisterIncludeFlags parser.

Definition UnknownFlags_Add (st : FlagsState) (name : list Z) : outcome FlagsState :=
  _ ← check (zlen (unknown_flags st) <? kMaxUnknownFlags) "n_unknown_flags_ < kMaxUnknownFlags";
  mret (mkFlagsState (cqmsan_values st) (common_values st) (unknown_flags st ++ [name]) (verbosity st)).

Definition is_space (c : Z) : bool := (c =? 32) || (c =? 44) || (c =? 58) || (c =? 10) || (c =? 9) || (c =? 13).

(** [buf_ + pos_] is the list that is left; its end is the terminator. *)
Fixpoint skip_whitespace (buf : list Z) : list Z :=
  match buf with c :: rest => if is_space c then skip_whitespace rest else buf | [] => [] end.

(** The characters before the first one where [stop] holds, and what is left. *)
Fixpoint split_at (stop : Z -> bool) (buf : list Z) : list Z * list Z :=
  match buf with
  | c :: rest => if stop c then ([], buf) else let '(l, r) := split_at stop rest in (c :: l, r)
  | [] => ([], [])
  end.

(** [parse_flag] up to the handler: the name, the value, and what is left. *)
Definition parse_token (buf : list Z) : outcome (list Z * list Z * list Z) :=
  let '(name, buf) := split_at (fun c => (c =? 61) || is_space c) buf in
  if negb (at_cur buf =? 61) then Died "expected '='" else
  let buf := tl buf in
  if (at_cur buf =? 39) || (at_cur buf =? 34) then
    let quote := at_cur buf in
    let '(value, buf) := split_at (fun c => c =? quote) (tl buf) in
    match buf with [] => Died "unterminated string" | _ :: buf => mret (name, value, buf) end
  else
    let '(value, buf) := split_at is_space buf in
    mret (name, value, buf).

(** *** Substitutions *)

Section environment.
(** [GetProcessName], [internal_getpid], [ReadBinaryDir] of a buffer length, [GetEnv], the
    content of a file, the page size. *)
Context (process_name : list Z) (pid : Z) (read_binary_dir : Z -> list Z) (GetEnv : string -> option (list Z))
        (read_file : list Z -> option (list Z)) (page_size : Z).

Definition kMaxPathLength : Z := 4096.

(** The do-while loop over [pid] fills [buf] from its end. *)
Definition pid_chars : outcome (list Z) := ds ← num_buffer 32 pid 10; mret (map (Z.add 48) (rev ds)).

(** [out] is what was written; [room] is [out_end - 1 - out] at its start. *)
Fixpoint SubstituteForFlagValue_loop (fuel : nat) (s out : list Z) (out_size : Z) : option (outcome (list Z)) :=
  match fuel with
  | O => None
  | S fuel =>
      match s with
      | [] => Some (mret out)
      | c :: rest =>
          let room := Z.to_nat (out_size - 1 - zlen out) in
          if negb (zlen out <? out_size - 1) then Some (mret out) else
          if negb (c =? 37) then SubstituteForFlagValue_loop fuel rest (out ++ [c]) out_size else
          if at_cur rest =? 98 then SubstituteForFlagValue_loop fuel (tl rest) (out ++ firstn room process_name) out_size
          else if at_cur rest =? 112 then
            fuel_bind (Some pid_chars) (fun ds => SubstituteForFlagValue_loop fuel (tl rest) (out ++ firstn room ds) out_size)
          else if at_cur rest =? 100 then SubstituteForFlagValue_loop fuel (tl rest) (out ++ read_binary_dir (out_size - zlen out)) out_size
          else SubstituteForFlagValue_loop fuel rest (out ++ [c]) out_size
      end
  end.

Definition SubstituteForFlagValue (s : list Z) (out_size : Z) : option (outcome (list Z)) :=
  fuel_bind (SubstituteForFlagValue_loop (S (length s)) s [] out_size)
    (fun out => Some (_ ← check (zlen out <? out_size - 1) "out < out_end - 1"; mret out)).

(** *** Parsing *)

Definition kMaxIncludeSize : Z := Z.shiftl 1 15.

(** The string of a buffer. *)
Definition c_text (data : list Z) : list Z := (split_at (fun c => c =? 0) data).1.

(** A file that fills the buffer leaves no terminator in it. *)
Definition ParseFile (ParseString : list Z -> FlagsState -> option (outcome FlagsState)) (path : list Z) (ignore_missing : bool) (st : FlagsState)
    : option (outcome (bool * FlagsState)) :=
  let max_len := Max kMaxIncludeSize page_size in
  match read_file path with
  | None => Some (mret (ignore_missing, st))
  | Some data =>
      if negb (bool_decide (0 ∈ firstn (Z.to_nat max_len) data)) && (max_len <=? zlen data) then Some (Died "read past the buffer") else
      fuel_bind (ParseString (c_text data) st) (fun st => Some (mret (true, st)))
  end.

Definition FlagHandlerInclude_Parse (ParseString : list Z -> FlagsState -> option (outcome FlagsState)) (ignore_missing : bool) (value : list Z) (st : FlagsState)
    : option (outcome (bool * FlagsState)) :=
  if bool_decide (37 ∈ value) then
    fuel_bind (SubstituteForFlagValue value kMaxPathLength) (fun buf => ParseFile ParseString buf ignore_missing st)
  else ParseFile ParseString value ignore_missing st.

Definition FlagHandlerKeepGoing_Parse (value : list Z) (st : FlagsState) : bool * FlagsState :=
  match ParseBool value with
  | None => (false, st)
  | Some tmp => (true, put_flag st false "halt_on_error" (VBool (negb tmp)))
  end.

Definition find_handler (parser : FlagParser) (name : list Z) : option handler :=
  snd <$> List.find (fun p => str_eq name p.1) parser.

Definition run_handler (parser : FlagParser) (ParseString : list Z -> FlagsState -> option (outcome FlagsState)) (name value : list Z) (st : FlagsState)
    : option (outcome (bool * FlagsState)) :=
  match find_handler parser name with
  | Some (HFlag common n t) =>
      Some (mret match FlagHandler_Parse t value with Some v => (true, put_flag st common n v) | None => (false, st) end)
  | Some HKeepGoing => Some (mret (FlagHandlerKeepGoing_Parse value st))
  | Some (HInclude ignore_missing) => FlagHandlerInclude_Parse ParseString ignore_missing value st
  | None => Some (st ← UnknownFlags_Add st name; mret (true, st))
  end.

(** The sanity check at the end of [parse_flags]. *)
Definition check_context_size (st : FlagsState) : FlagsState :=
  if get_int st true "malloc_context_size" <? 1 then put_flag st true "malloc_context_size" (VInt 1) else st.

Fixpoint parse_flags (parser : FlagParser) (ParseString : list Z -> FlagsState -> option (outcome FlagsState)) (fuel : nat) (buf : list Z) (st : FlagsState)
    : option (outcome FlagsState) :=
  match fuel with
  | O => None
  | S fuel =>
      match skip_whitespace buf with
      | [] => Some (mret (check_context_size st))
      | buf =>
          fuel_bind (Some (parse_token buf)) (fun '(name, value, buf) =>
          fuel_bind (run_handler parser ParseString name value st) (fun '(res, st) =>
            if res : bool then parse_flags parser ParseString fuel buf st else Some (Died "Flag parsing failed.")))
      end
  end.

Fixpoint ParseString (depth : nat) (parser : FlagParser) (s : list Z) (st : FlagsState) : option (outcome FlagsState) :=
  match depth with
  | O => None
  | S depth => parse_flags parser (ParseString depth parser) (S (length s)) s st
  end.

Definition ParseStringFromEnv (depth : nat) (parser : FlagParser) (env_name : string) (st : FlagsState) : option (outcome FlagsState) :=
  match GetEnv env_name with None => Some (mret st) | Some s => ParseString depth parser s st end.

(** ** Start-up *)

Definition SetDefaults (l : list (string * value)) : gmap string value := list_to_map l.

(** [OverrideCommonFlags] of the scope at the start. *)
Definition override_common (common : gmap string value) : gmap string value :=
  <["abort_on_error" := VBool true]> (<["intercept_tls_get_addr" := VBool true]> (<["check_printf" := VBool false]>
  (<["handle_ioctl" := VBool true]> (<["malloc_context_size" := VInt 20]>
  (<["external_symbolizer_path" := VStr (GetEnv "CQMSAN_SYMBOLIZER_PATH")]> common))))).

Definition InitializeCommonFlags (st : FlagsState) : FlagsState :=
  let st := put_flag st true "coverage" (VBool (get_bool st true "coverage" || get_bool st true "html_cov_report")) in
  mkFlagsState (cqmsan_values st) (common_values st) (unknown_flags st) (get_int st true "verbosity").

Definition ReportUnrecognizedFlags (st : FlagsState) : FlagsState :=
  mkFlagsState (cqmsan_values st) (common_values st) [] (verbosity st).

Definition kStackDepotMaxUseCount : Z := Z.shiftl 1 20.

Definition check_flag_values (st : FlagsState) : outcome FlagsState :=
  let st := if negb (get_int st false "exit_code" =? -1) then put_flag st true "exitcode" (VInt (get_int st false "exit_code")) else st in
  let size := get_int st false "origin_history_size" in
  _ ← check (negb ((size <? 0) || (kMaxDepth <? size))) "Origin history size invalid";
  let limit := get_int st false "origin_history_per_stack_limit" in
  _ ← check (negb ((limit <? 0) || (kStackDepotMaxUseCount / 2 <? limit))) "Origin per-stack limit invalid";
  mret (if get_int st false "store_context_size" <? 1 then put_flag st false "store_context_size" (VInt 1) else st).

(** [default_options] is what [__cqmsan_default_options] answers. *)
Definition InitializeFlags (depth : nat) (default_options : option (list Z)) : option (outcome FlagsState) :=
  let st := mkFlagsState (SetDefaults cqmsan_flags) (override_common (SetDefaults common_flags)) [] 0 in
  fuel_bind (Some (parser ← RegisterCQMsanFlags []; RegisterCommonFlags parser)) (fun parser =>
  fuel_bind (match default_options with None => Some (mret st) | Some s => ParseString depth parser s st end) (fun st =>
  fuel_bind (ParseStringFromEnv depth parser "CQMSAN_OPTIONS" st) (fun st =>
    let st := InitializeCommonFlags st in
    let st := if negb (verbosity st =? 0) then ReportUnrecognizedFlags st else st in
    Some (check_flag_values st)))).
End environment.

(** ** Types and ranges *)

Definition declared (l : list (string * value)) (name : string) : option flag_type := type_of <$> (SetDefaults l !! name).

Definition in_range (v : value) : Prop :=
  match v with VInt z => - 2 ^ 31 <= z < 2 ^ 31 | VUptr z => 0 <= z < 2 ^ 64 | _ => True end.

(** Every flag is there, of its type and within its range; there is no other. *)
Definition typed (l : list (string * value)) (m : gmap string value) : Prop :=
  forall name, type_of <$> (m !! name) = declared l name /\ (forall v, m !! name = Some v -> in_range v).

Record flags_ok (st : FlagsState) : Prop := {
  fo_cqmsan : typed cqmsan_flags (cqmsan_values st);
  fo_common : typed common_flags (common_values st);
  fo_unknown : zlen (unknown_flags st) <= kMaxUnknownFlags
}.

Definition table (common : bool) : list (string * value) := if common then common_flags else cqmsan_flags.

Lemma typed_insert l m name v : typed l m -> declared l name = Some (type_of v) -> in_range v -> typed l (<[name := v]> m).
Proof.
  intros Hm Hd Hv n. destruct (decide (n = name)) as [->|Hne].
  - rewrite lookup_insert_eq. split; [by rewrite Hd|]. by intros w [= <-].
  - rewrite lookup_insert_ne by done. apply Hm.
Qed.

Lemma put_flag_ok st common name v : flags_ok st -> declared (table common) name = Some (type_of v) -> in_range v -> flags_ok (put_flag st common name v).
Proof.
  intros [Hq Hc Hu] Hd Hv. destruct common; split; cbn [put_flag cqmsan_values common_values unknown_flags];
    first [exact Hq|exact Hc|exact Hu|by apply typed_insert].
Qed.

#[global] Instance flag_type_eq_dec : EqDecision flag_type.
Proof. solve_decision. Defined.

(** Which flags a parser sets. *)
Definition handler_ok (h : handler) : bool :=
  match h with HFlag common n t => bool_decide (declared (table common) n = Some t) | _ => true end.

Definition parser_ok (parser : FlagParser) : Prop := Forall (fun p => handler_ok p.2 = true) parser.

Lemma find_handler_ok parser name h : parser_ok parser -> find_handler parser name = Some h -> handler_ok h = true.
Proof.
  intros Hp. unfold find_handler. destruct (List.find _ parser) as [[n h']|] eqn:E; [|done]. cbn. intros [= <-].
  apply List.find_some in E as [Hin _]. unfold parser_ok in Hp. rewrite List.Forall_forall in Hp. by apply (Hp (n, h')).
Qed.

Lemma s32_in_range z : in_range (VInt (s32 z)).
Proof. apply s32_range. Qed.

Lemma FlagHandler_Parse_ok t text v : FlagHandler_Parse t text = Some v -> type_of v = t /\ in_range v.
Proof.
  destruct t; cbn.
  - destruct (ParseBool text); cbn; [by intros [= <-]|done].
  - destruct (ParseNumber text); cbn; [intros [= <-]; split; [done|apply s32_range]|done].
  - destruct (ParseNumber text); cbn; [intros [= <-]; split; [done|apply u64_range]|done].
  - by intros [= <-].
  - destruct (ParseBool text); [by intros [= <-]|]. destruct (_ || _); [by intros [= <-]|done].
Qed.

Lemma fuel_bind_done {A B} (a : option (outcome A)) (f : A -> option (outcome B)) b :
  fuel_bind a f = Some (Done b) -> exists x, a = Some (Done x) /\ f x = Some (Done b).
Proof. destruct a as [[x|]|]; cbn; [by exists x|done|done]. Qed.

Section properties.
Context (process_name : list Z) (pid : Z) (read_binary_dir : Z -> list Z) (GetEnv : string -> option (list Z))
        (read_file : list Z -> option (list Z)) (page_size : Z).

Notation run_handler := (run_handler process_name pid read_binary_dir read_file page_size).
Notation parse_flags := (parse_flags process_name pid read_binary_dir read_file page_size).
Notation ParseString := (ParseString process_name pid read_binary_dir read_file page_size).
Notation ParseFile := (ParseFile read_file page_size).

Context (parser : FlagParser) (Hparser : parser_ok parser).

(** A parser of strings that keeps the invariant. *)
Definition keeps_ok (PS : list Z -> FlagsState -> option (outcome FlagsState)) : Prop :=
  forall s st st', flags_ok st -> PS s st = Some (Done st') -> flags_ok st'.

Lemma ParseFile_ok PS path ign st r : keeps_ok PS -> flags_ok st -> ParseFile PS path ign st = Some (Done r) -> flags_ok r.2.
Proof.
  intros HPS Hst. unfold ParseFile. destruct (read_file path) as [data|]; [|by intros [= <-]].
  destruct (_ && _); [done|]. intros (st' & E & [= <-])%fuel_bind_done. by eapply HPS.
Qed.

Lemma run_handler_ok PS name value st r : keeps_ok PS -> flags_ok st ->
  run_handler parser PS name value st = Some (Done r) -> flags_ok r.2.
Proof.
  intros HPS Hst. unfold run_handler. destruct (find_handler parser name) as [h|] eqn:Eh.
  - pose proof (find_handler_ok _ _ _ Hparser Eh) as Hh. destruct h as [common n t| |ign].
    + intros [= <-]. destruct (FlagHandler_Parse t value) as [v|] eqn:Ev; [|done]. destruct (FlagHandler_Parse_ok _ _ _ Ev) as [<- Hr].
      cbn in Hh |- *. apply bool_decide_eq_true_1 in Hh. by apply put_flag_ok.
    + intros [= <-]. unfold FlagHandlerKeepGoing_Parse. destruct (ParseBool value); [|done]. by apply put_flag_ok.
    + unfold FlagHandlerInclude_Parse. case_bool_decide; [|by apply ParseFile_ok]. intros (buf & _ & E)%fuel_bind_done. by eapply ParseFile_ok.
  - intros [= E]. unfold UnknownFlags_Add in E. inv_done. cbn [snd]. destruct Hst as [Hq Hc Hu]. split; cbn; try done.
    unfold zlen in *. rewrite length_app. cbn. bool_hyps. lia.
Qed.

Lemma check_context_size_ok st : flags_ok st -> flags_ok (check_context_size st).
Proof. intros Hst. unfold check_context_size. case_match; [|done]. by apply put_flag_ok. Qed.

Lemma parse_flags_ok PS : keeps_ok PS -> forall fuel buf st st', flags_ok st -> parse_flags parser PS fuel buf st = Some (Done st') -> flags_ok st'.
Proof.
  intros HPS. induction fuel as [|fuel IH]; intros buf st st' Hst; cbn [Flags.parse_flags]; [done|].
  destruct (skip_whitespace buf) as [|c rest]; [intros [= <-]; by apply check_context_size_ok|].
  intros ([[name value] buf'] & _ & E)%fuel_bind_done. apply fuel_bind_done in E as ([res st1] & E1 & E).
  apply run_handler_ok in E1; [|done|done]. cbn in E1. destruct res; [|done]. by eapply IH.
Qed.

Lemma ParseString_ok depth : keeps_ok (ParseString depth parser).
Proof.
  induction depth as [|depth IH]; intros s st st' Hst; cbn [Flags.ParseString]; [done|]. by apply parse_flags_ok.
Qed.

(** The context size is checked at the end of each string. *)
Definition context_size_ok (st : FlagsState) : Prop := 1 <= get_int st true "malloc_context_size".

Lemma parse_flags_context PS : forall fuel buf st st', parse_flags parser PS fuel buf st = Some (Done st') -> context_size_ok st'.
Proof.
  induction fuel as [|fuel IH]; intros buf st st'; cbn [Flags.parse_flags]; [done|].
  destruct (skip_whitespace buf) as [|c rest].
  - intros [= <-]. unfold check_context_size, context_size_ok. destruct (Z.ltb_spec (get_int st true "malloc_context_size") 1); [|lia].
    unfold get_int, get. cbn [put_flag common_values]. by rewrite lookup_insert_eq.
  - intros ([[name value] buf'] & _ & E)%fuel_bind_done. apply fuel_bind_done in E as ([res st1] & E1 & E). destruct res; [|done]. by eapply IH.
Qed.

Lemma ParseString_context depth s st st' : ParseString depth parser s st = Some (Done st') -> context_size_ok st'.
Proof. destruct depth; cbn [Flags.ParseString]; [done|]. apply parse_flags_context. Qed.
End properties.

(** The parser of the runtime. *)
Definition runtime_parser : outcome FlagParser := parser ← RegisterCQMsanFlags []; RegisterCommonFlags parser.

(** No two flags have the same name. *)
Lemma flag_names_differ : NoDup (map fst cqmsan_flags) /\ NoDup (map fst common_flags).
Proof. split; eapply bool_decide_eq_true_1; vm_compute; reflexivity. Qed.

Lemma declared_elem common name v : (name, v) ∈ table common -> declared (table common) name = Some (type_of v).
Proof.
  intros Hin. unfold declared, SetDefaults. destruct flag_names_differ as [Hq Hc].
  by rewrite (elem_of_list_to_map_1 _ name v) by (try (by destruct common); exact Hin).
Qed.

Lemma RegisterFlags_ok common l : (forall p, p ∈ l -> p ∈ table common) -> forall parser, parser_ok parser ->
  zlen parser + zlen l <= kMaxFlags -> exists parser', RegisterFlags parser common l = Done parser' /\ parser_ok parser' /\ zlen parser' = zlen parser + zlen l.
Proof.
  intros Hl. induction l as [|[name v] l IH]; intros parser Hp Hlen; cbn [RegisterFlags].
  - exists parser. unfold zlen. cbn. split_and!; (done || lia).
  - unfold zlen in *. cbn [length] in Hlen |- *. unfold RegisterHandler, zlen. rewrite (proj2 (Z.ltb_lt _ _)) by lia. cbn [check mbind outcome_bind mret outcome_ret].
    destruct (IH ltac:(intros p Hin; apply Hl; by right) (parser ++ [(name, HFlag common name (type_of v))])) as (p' & -> & Hok & Hz).
    + apply list.Forall_app. split; [done|]. constructor; [|done]. cbn [handler_ok snd]. rewrite (declared_elem common name v); [by apply bool_decide_eq_true_2|].
      apply Hl. by left.
    + rewrite length_app. cbn. lia.
    + exists p'. split; [done|]. split; [done|]. rewrite length_app in Hz. cbn in Hz. lia.
Qed.

(** All flags fit in the table of the parser. *)
Lemma runtime_parser_ok : exists parser, runtime_parser = Done parser /\ parser_ok parser.
Proof.
  unfold runtime_parser, RegisterCQMsanFlags, RegisterCommonFlags, RegisterIncludeFlags, RegisterHandler.
  destruct (RegisterFlags_ok false cqmsan_flags ltac:(done) [] ltac:(constructor) ltac:(done)) as (p1 & -> & Hp1 & Hz1). cbn [mbind outcome_bind].
  change (zlen [] + zlen cqmsan_flags) with 18 in Hz1. rewrite Hz1. cbn [Z.ltb Z.compare Pos.compare Pos.compare_cont kMaxFlags check mbind outcome_bind mret outcome_ret].
  set (p2 := p1 ++ [("keep_going", HKeepGoing)]). assert (parser_ok p2) as Hp2 by (apply list.Forall_app; split; [done|by repeat constructor]).
  assert (zlen p2 = 19) as Hz2 by (unfold p2; rewrite zlen_app, Hz1; done).
  destruct (RegisterFlags_ok true common_flags ltac:(done) p2 Hp2) as (p3 & -> & Hp3 & Hz3); [by rewrite Hz2|]. cbn [mbind outcome_bind].
  rewrite Hz2 in Hz3. change (19 + zlen common_flags) with 106 in Hz3. rewrite Hz3. cbn [Z.ltb Z.compare Pos.compare Pos.compare_cont kMaxFlags check mbind outcome_bind mret outcome_ret].
  rewrite zlen_app, Hz3. cbn [check mbind outcome_bind]. eexists. split; [reflexivity|]. repeat (apply list.Forall_app; split); (done || by repeat constructor).
Qed.

(** *** Start-up *)

Section startup.
Context (process_name : list Z) (pid : Z) (read_binary_dir : Z -> list Z) (GetEnv : string -> option (list Z))
        (read_file : list Z -> option (list Z)) (page_size : Z).

Notation InitializeFlags := (InitializeFlags process_name pid read_binary_dir GetEnv read_file page_size).
Notation ParseString := (ParseString process_name pid read_binary_dir read_file page_size).
Notation ParseStringFromEnv := (ParseStringFromEnv process_name pid read_binary_dir GetEnv read_file page_size).

Definition initial_state : FlagsState := mkFlagsState (SetDefaults cqmsan_flags) (override_common GetEnv (SetDefaults common_flags)) [] 0.

Definition ranges_ok (l : list (string * value)) : bool :=
  forallb (fun p => match p.2 with VInt z => (- 2 ^ 31 <=? z) && (z <? 2 ^ 31) | VUptr z => (0 <=? z) && (z <? 2 ^ 64) | _ => true end) l.

Lemma SetDefaults_typed l : ranges_ok l = true -> typed l (SetDefaults l).
Proof.
  intros Hr name. split; [done|]. intros v Hv. apply elem_of_list_to_map_2 in Hv. unfold ranges_ok in Hr.
  rewrite List.forallb_forall in Hr. apply list_elem_of_In, Hr in Hv. cbn in Hv. destruct v; cbn; bool_hyps; lia || done.
Qed.

Lemma initial_state_ok : flags_ok initial_state /\ context_size_ok initial_state.
Proof.
  split.
  2: { unfold context_size_ok, get_int, get. cbn [common_values initial_state]. unfold override_common. rewrite !lookup_insert_ne by done. by rewrite lookup_insert_eq. }
  split; [by apply SetDefaults_typed| |done]. cbn [common_values initial_state]. unfold override_common.
  do 6 (apply typed_insert; [|reflexivity|done]). by apply SetDefaults_typed.
Qed.

Lemma initial_strings depth parser default_options st st' : parser_ok parser ->
  flags_ok st /\ context_size_ok st ->
  fuel_bind (match default_options with None => Some (mret st) | Some s => ParseString depth parser s st end)
    (fun st => ParseStringFromEnv depth parser "CQMSAN_OPTIONS" st) = Some (Done st') -> flags_ok st' /\ context_size_ok st'.
Proof.
  intros Hp Hst (st1 & E1 & E2)%fuel_bind_done.
  assert (forall s st st', flags_ok st /\ context_size_ok st -> ParseString depth parser s st = Some (Done st') -> flags_ok st' /\ context_size_ok st') as HPS.
  { intros s st2 st2' [Hok _] E. split; [by eapply ParseString_ok|by eapply ParseString_context]. }
  assert (flags_ok st1 /\ context_size_ok st1) as H1 by (destruct default_options; [by eapply HPS|by injection E1 as <-]).
  unfold Flags.ParseStringFromEnv in E2. destruct (GetEnv "CQMSAN_OPTIONS"); [by eapply HPS|by injection E2 as <-].
Qed.

Lemma get_int_put_other st c c' n n' v : n <> n' -> get_int (put_flag st c n v) c' n' = get_int st c' n'.
Proof. intros Hne. unfold get_int, get. destruct c, c'; cbn [put_flag cqmsan_values common_values]; rewrite ?lookup_insert_ne by done; done. Qed.

Lemma get_int_put st c n z : get_int (put_flag st c n (VInt z)) c n = z.
Proof. unfold get_int, get. destruct c; cbn [put_flag cqmsan_values common_values]; by rewrite lookup_insert_eq. Qed.

Lemma get_int_put_struct st c n n' v : get_int (put_flag st c n v) (negb c) n' = get_int st (negb c) n'.
Proof. by destruct c. Qed.

Lemma get_int_range st c n : flags_ok st -> - 2 ^ 31 <= get_int st c n < 2 ^ 31.
Proof.
  intros [Hq Hc _]. unfold get_int, get. destruct ((if c then _ else _) !! n) as [v|] eqn:E; [|lia].
  assert (in_range v) as Hr by (destruct c; [by apply (Hc n)|by apply (Hq n)]). destruct v; cbn in Hr; lia.
Qed.

(** What the runtime relies on. *)
Record flags_valid (st : FlagsState) : Prop := {
  fv_ok : flags_ok st;
  fv_history : 0 <= get_int st false "origin_history_size" <= kMaxDepth;
  fv_limit : 0 <= get_int st false "origin_history_per_stack_limit" <= 2 ^ 19;
  fv_store : 1 <= get_int st false "store_context_size";
  fv_malloc : 1 <= get_int st true "malloc_context_size";
  fv_exit : get_int st false "exit_code" <> -1 -> get_int st true "exitcode" = get_int st false "exit_code";
  fv_verbosity : verbosity st = get_int st true "verbosity"
}.

Lemma InitializeCommonFlags_ok st : flags_ok st /\ context_size_ok st ->
  flags_ok (InitializeCommonFlags st) /\ context_size_ok (InitializeCommonFlags st) /\
  verbosity (InitializeCommonFlags st) = get_int (InitializeCommonFlags st) true "verbosity".
Proof.
  intros [Hok Hctx].
  destruct (put_flag_ok st true "coverage" (VBool (get_bool st true "coverage" || get_bool st true "html_cov_report")) Hok eq_refl Logic.I) as [Hq Hc Hu].
  split; [by split|]. split; [|done]. unfold context_size_ok in *.
  change (get_int (InitializeCommonFlags st) true "malloc_context_size")
    with (get_int (put_flag st true "coverage" (VBool (get_bool st true "coverage" || get_bool st true "html_cov_report"))) true "malloc_context_size").
  by rewrite get_int_put_other.
Qed.

(** The same flags, and perhaps no unknown ones. *)
Lemma report_ok st st' : st' = st \/ st' = ReportUnrecognizedFlags st ->
  flags_ok st -> flags_ok st' /\ verbosity st' = verbosity st /\ forall c n, get_int st' c n = get_int st c n.
Proof. intros [-> | ->] Hok; [done|]. split; [|done]. destruct Hok. by split. Qed.

(** The deprecated exit code, and then the sizes. *)
Lemma check_flag_values_ok st st' : flags_ok st -> context_size_ok st -> verbosity st = get_int st true "verbosity" ->
  check_flag_values st = Done st' -> flags_valid st'.
Proof.
  intros Hok Hctx Hverb E. unfold check_flag_values in E. set (st1 := if negb (get_int st false "exit_code" =? -1) then _ else _) in *.
  assert (flags_ok st1 /\ verbosity st1 = verbosity st /\ (forall n, get_int st1 false n = get_int st false n) /\
    (forall n, n <> "exitcode" -> get_int st1 true n = get_int st true n) /\
    (get_int st false "exit_code" <> -1 -> get_int st1 true "exitcode" = get_int st false "exit_code")) as (Hok1 & Hv1 & Hq1 & Hc1 & He1).
  { unfold st1. destruct (Z.eqb_spec (get_int st false "exit_code") (-1)) as [Ee|Ee]; cbn [negb]; [done|].
    split; [apply put_flag_ok; [done|done|apply (get_int_range st false "exit_code" Hok)]|]. split; [done|]. split; [done|].
    split; [intros n Hn; by apply get_int_put_other|]. intros _. apply get_int_put. }
  clearbody st1. apply bind_done in E as (u1 & Hs%check_done & E). apply bind_done in E as (u2 & Hl%check_done & E). bool_hyps.
  set (st2 := if get_int st1 false "store_context_size" <? 1 then put_flag st1 false "store_context_size" (VInt 1) else st1) in E.
  cbv [mret outcome_ret] in E. assert (st' = st2) as -> by congruence.
  assert (flags_ok st2 /\ verbosity st2 = verbosity st1 /\ (forall n, get_int st2 true n = get_int st1 true n) /\
    (forall n, n <> "store_context_size" -> get_int st2 false n = get_int st1 false n) /\ 1 <= get_int st2 false "store_context_size") as (Hok2 & Hv2 & Hc2 & Hq2 & Hs2).
  { unfold st2. destruct (Z.ltb_spec (get_int st1 false "store_context_size") 1); [|done].
    split; [by apply put_flag_ok|]. split; [done|]. split; [done|]. split; [intros n Hn; by apply get_int_put_other|]. rewrite get_int_put. lia. }
  clearbody st2. unfold context_size_ok in Hctx. change (kStackDepotMaxUseCount / 2) with (2 ^ 19) in *.
  split; [done|..]; rewrite ?Hc2, ?Hq2, ?Hq1, ?Hc1, ?Hv2, ?Hv1 by done; rewrite ?Hq1 in *; try lia; done.
Qed.

End startup.

(** ** The parser ends *)

Section termination.
Context (process_name : list Z) (pid : Z) (read_binary_dir : Z -> list Z) (GetEnv : string -> option (list Z))
        (read_file : list Z -> option (list Z)) (page_size : Z).

Notation Substitute := (SubstituteForFlagValue process_name pid read_binary_dir).
Notation run_handler := (run_handler process_name pid read_binary_dir read_file page_size).
Notation parse_flags := (parse_flags process_name pid read_binary_dir read_file page_size).
Notation ParseString := (ParseString process_name pid read_binary_dir read_file page_size).
Notation InitializeFlags := (InitializeFlags process_name pid read_binary_dir GetEnv read_file page_size).

(** Parsing the string [s] may lead to parsing [data], the text of an included file. *)
Definition includes (parser : FlagParser) (s data : list Z) : Prop :=
  exists buf name value rest ign path content, buf `suffix_of` s /\ parse_token buf = Done (name, value, rest) /\
    find_handler parser name = Some (HInclude ign) /\ (path = value \/ Substitute value kMaxPathLength = Some (Done path)) /\
    read_file path = Some content /\ data = c_text content.

Lemma skip_whitespace_suffix buf : skip_whitespace buf `suffix_of` buf.
Proof. induction buf as [|c buf IH]; cbn [skip_whitespace]; [done|]. destruct (is_space c); [by apply suffix_cons_r|done]. Qed.

Lemma split_at_spec stop buf l r : split_at stop buf = (l, r) -> buf = l ++ r.
Proof.
  revert l. induction buf as [|c buf IH]; intros l; cbn [split_at]; [by intros [= <- <-]|].
  destruct (stop c); [by intros [= <- <-]|]. destruct (split_at stop buf) as [l' r'] eqn:E. intros [= <- <-]. cbn. by rewrite (IH l').
Qed.

Lemma tl_suffix (buf : list Z) : tl buf `suffix_of` buf.
Proof. destruct buf as [|c buf]; [done|]. by apply suffix_cons_r. Qed.

Lemma split_suffix stop buf l r : split_at stop buf = (l, r) -> r `suffix_of` buf.
Proof. intros ->%split_at_spec. by apply suffix_app_r. Qed.

(** A setting takes at least its equals sign. *)
Lemma parse_token_suffix buf name value rest : parse_token buf = Done (name, value, rest) ->
  rest `suffix_of` buf /\ (length rest < length buf)%nat.
Proof.
  unfold parse_token. destruct (split_at _ buf) as [n r] eqn:E1. pose proof (split_suffix _ _ _ _ E1) as Hs1.
  destruct (Z.eqb_spec (at_cur r) 61) as [Hr|]; cbn [negb]; [|done]. destruct r as [|c r]; [done|]. cbn in Hr. subst c. cbn [tl].
  assert (r `suffix_of` buf) as Hs2 by (etrans; [by apply suffix_cons_r|exact Hs1]). apply suffix_length in Hs1 as Hl. cbn in Hl.
  assert (forall x : list Z, x `suffix_of` r -> x `suffix_of` buf /\ (length x < length buf)%nat) as Hfin.
  { intros x Hx. split; [by etrans|]. apply suffix_length in Hx. lia. }
  destruct (_ || _).
  - destruct (split_at _ (tl r)) as [v b] eqn:E2. pose proof (split_suffix _ _ _ _ E2) as Hs3. destruct b as [|q b]; [done|]. intros [= <- <- <-].
    apply Hfin. etrans; [by apply suffix_cons_r|]. etrans; [exact Hs3|apply tl_suffix].
  - destruct (split_at is_space r) as [v b] eqn:E2. intros [= <- <- <-]. apply Hfin. by eapply split_suffix.
Qed.

Lemma Substitute_loop_total fuel : forall s out size, (length s < fuel)%nat ->
  exists r, SubstituteForFlagValue_loop process_name pid read_binary_dir fuel s out size = Some r.
Proof.
  induction fuel as [|fuel IH]; intros s out size Hf; [lia|]. cbn [SubstituteForFlagValue_loop]. destruct s as [|c s]; [by eexists|].
  cbn [length] in Hf. assert (length (tl s) <= length s)%nat by (destruct s; cbn; lia). destruct (negb (zlen out <? _)); [by eexists|].
  destruct (negb _); [apply IH; lia|]. destruct (at_cur s =? 98); [apply IH; lia|]. destruct (at_cur s =? 112).
  - destruct (pid_chars pid) as [ds|why]; cbn [fuel_bind]; [apply IH; lia|by eexists].
  - destruct (at_cur s =? 100); apply IH; lia.
Qed.

Lemma Substitute_total s size : exists r, Substitute s size = Some r.
Proof.
  unfold SubstituteForFlagValue. destruct (Substitute_loop_total (S (length s)) s [] size ltac:(lia)) as [[out|why] ->]; cbn [fuel_bind]; by eexists.
Qed.

Lemma parse_flags_total parser PS s : (forall data st, includes parser s data -> exists r, PS data st = Some r) ->
  forall fuel buf st, buf `suffix_of` s -> (length buf < fuel)%nat -> exists r, parse_flags parser PS fuel buf st = Some r.
Proof.
  intros HPS. induction fuel as [|fuel IH]; intros buf st Hbuf Hf; [lia|]. cbn [Flags.parse_flags].
  pose proof (skip_whitespace_suffix buf) as Hskip. apply suffix_length in Hskip as Hl. destruct (skip_whitespace buf) as [|c b] eqn:Eb; [by eexists|]. rewrite <- Eb in *.
  destruct (parse_token (skip_whitespace buf)) as [[[name value] rest]|why] eqn:Et; cbn [fuel_bind]; [|by eexists].
  destruct (parse_token_suffix _ _ _ _ Et) as [Hs Hlt].
  assert (exists r, run_handler parser PS name value st = Some r) as [[[res st']|why] ->]; cbn [fuel_bind]; [|destruct res; [apply IH; [by repeat (etrans; [eassumption|])|lia]|by eexists]|by eexists].
  unfold Flags.run_handler. destruct (find_handler parser name) as [[common n t| |ign]|] eqn:Eh; try by eexists.
  assert (forall path, path = value \/ Substitute value kMaxPathLength = Some (Done path) -> exists r, ParseFile read_file page_size PS path ign st = Some r) as Hfile.
  { intros path Hp. unfold ParseFile. destruct (read_file path) as [content|] eqn:Er; [|by eexists]. destruct (_ && _); [by eexists|].
    destruct (HPS (c_text content) st) as [[st'|why] ->]; cbn [fuel_bind]; [|by eexists|by eexists].
    exists (skip_whitespace buf), name, value, rest, ign, path, content. split_and!; try done. by etrans. }
  unfold FlagHandlerInclude_Parse. case_bool_decide; [|apply Hfile; by left].
  destruct (Substitute_total value kMaxPathLength) as [[path|why] Esub]; rewrite Esub; cbn [fuel_bind]; [apply Hfile; by right|by eexists].
Qed.

Lemma ParseString_total parser (rank : list Z -> nat) : (forall s data, includes parser s data -> (rank data < rank s)%nat) ->
  forall depth s st, (rank s < depth)%nat -> exists r, ParseString depth parser s st = Some r.
Proof.
  intros Hrank. induction depth as [|depth IH]; intros s st Hd; [lia|]. cbn [Flags.ParseString].
  apply (parse_flags_total parser _ s); [|done|lia]. intros data st' Hi. apply IH. pose proof (Hrank _ _ Hi). lia.
Qed.

(** the start-up ends, if files do not include each other in a cycle: any number of
    settings, substitutions and nested includes is worked through. *)
Theorem InitializeFlags_ends (rank : list Z -> nat) depth default_options :
  (forall parser s data, runtime_parser = Done parser -> includes parser s data -> (rank data < rank s)%nat) ->
  (forall s, default_options = Some s \/ GetEnv "CQMSAN_OPTIONS" = Some s -> (rank s < depth)%nat) ->
  exists r, InitializeFlags depth default_options = Some r.
Proof.
  intros Hrank Hdepth. destruct runtime_parser_ok as (p & Ep & _). unfold Flags.InitializeFlags.
  change (Some (parser ← RegisterCQMsanFlags []; RegisterCommonFlags parser)) with (Some runtime_parser). rewrite Ep. cbn [fuel_bind].
  assert (forall s st, (rank s < depth)%nat -> exists r, ParseString depth p s st = Some r) as HPS.
  { intros s st. apply ParseString_total. intros s' data. by apply Hrank. }
  set (st0 := mkFlagsState _ _ _ _).
  assert (exists r, match default_options with None => Some (mret st0) | Some s => ParseString depth p s st0 end = Some r) as [[st1|why] ->]; cbn [fuel_bind]; [|..|by eexists].
  { destruct default_options as [s|]; [apply HPS, Hdepth; by left|by eexists]. }
  unfold Flags.ParseStringFromEnv. destruct (GetEnv "CQMSAN_OPTIONS") as [s|] eqn:Ee; [|by eexists].
  destruct (HPS s st1) as [[st2|why] ->]; [apply Hdepth; by right|by eexists|by eexists].
Qed.

(** ** Settings are read back *)

(** A setting as it is written: quoted, and followed by a separator. *)
Definition show_setting (p : list Z * list Z) : list Z := p.1 ++ [61; 39] ++ p.2 ++ [39; 58].

Definition setting_ok (p : list Z * list Z) : Prop := Forall (fun c => c <> 61 /\ is_space c = false) p.1 /\ 39 ∉ p.2.

(** The handlers of the settings, in order. *)
Fixpoint apply_settings (parser : FlagParser) (PS : list Z -> FlagsState -> option (outcome FlagsState)) (l : list (list Z * list Z)) (st : FlagsState)
    : option (outcome FlagsState) :=
  match l with
  | [] => Some (mret (check_context_size st))
  | (name, value) :: l =>
      fuel_bind (run_handler parser PS name value st) (fun '(res, st) =>
        if res : bool then apply_settings parser PS l st else Some (Died "Flag parsing failed."))
  end.

Lemma split_at_app stop l r : Forall (fun c => stop c = false) l -> (match r with c :: _ => stop c = true | [] => True end) -> split_at stop (l ++ r) = (l, r).
Proof.
  intros Hl Hr. induction Hl as [|c l Hc Hl IH]; cbn [app split_at].
  - destruct r as [|c r]; [done|]. cbn. by rewrite Hr.
  - by rewrite Hc, IH.
Qed.

Lemma parse_token_show p rest : setting_ok p -> parse_token (show_setting p ++ rest) = Done (p.1, p.2, 58 :: rest).
Proof.
  intros [Hn Hv]. destruct p as [name value]. cbn [fst snd] in *. unfold show_setting, parse_token. cbn [fst snd]. rewrite <- !app_assoc.
  rewrite split_at_app; [|eapply List.Forall_impl; [|exact Hn]; intros c [Hc%Z.eqb_neq Hs]; by rewrite Hc, Hs|done].
  cbn [app at_cur nth Z.eqb Pos.eqb negb tl orb]. rewrite split_at_app; [done| |done].
  apply List.Forall_forall. intros c Hc%list_elem_of_In. apply Z.eqb_neq. by intros ->.
Qed.

Lemma skip_show p rest : setting_ok p -> skip_whitespace (show_setting p ++ rest) = show_setting p ++ rest.
Proof.
  intros [Hn _]. destruct p as [[|c name] value]; [done|]. cbn in Hn |- *. apply Forall_cons_iff in Hn as [[_ Hc] _]. by rewrite Hc.
Qed.

Lemma show_setting_length p : (4 <= length (show_setting p))%nat.
Proof. unfold show_setting. rewrite !length_app. cbn. lia. Qed.

End termination.

(** ** Printed values are read back *)

Lemma text_at_image l k : text_at (image l) (Z.of_nat k) (drop k l ++ [0]).
Proof.
  remember (drop k l) as r eqn:Er. revert k Er. induction r as [|c r IH]; intros k Er; cbn [app text_at].
  - split; [|done]. unfold image. rewrite Nat2Z.id. apply nth_overflow. apply (f_equal length) in Er. rewrite length_drop in Er. cbn in Er. lia.
  - assert (l !! k = Some c) as Hk by (rewrite <- (Nat.add_0_r k), <- lookup_drop, <- Er; done).
    split; [unfold image; rewrite Nat2Z.id; by apply nth_lookup_Some|]. replace (Z.of_nat k + 1) with (Z.of_nat (S k)) by lia. apply IH.
    by rewrite (drop_S _ _ _ Hk) in Er; injection Er.
Qed.

(** A number without a sign, or after a minus sign. *)
Lemma ParseNumber_digits sgn ds stop rest : sgn = 1 \/ sgn = -1 -> ds <> [] -> Forall (fun d => 0 <= d <= 9) ds ->
  IsDigit (schar stop) = false -> - 2 ^ 63 <= sgn * digits_value ds < 2 ^ 63 ->
  ParseNumber (sign_chars sgn false ++ map (Z.add 48) ds ++ match rest with Some rest => stop :: rest | None => [] end) =
  match rest with Some _ => if stop =? 0 then Some (sgn * digits_value ds) else None | None => Some (sgn * digits_value ds) end.
Proof.
  intros Hsgn Hne Hds Hstop Hr. unfold ParseNumber. set (l := sign_chars sgn false ++ _).
  set (s := match rest with Some _ => stop | None => 0 end).
  assert (exists tail, l ++ [0] = (sign_chars sgn false ++ map (Z.add 48) ds ++ [s]) ++ tail) as [tail Htail].
  { unfold l, s. destruct rest as [rest|]; [exists (rest ++ [0])|exists []]; rewrite <- ?app_assoc; cbn [app]; rewrite ?app_nil_r; done. }
  pose proof (text_at_image l 0) as Ht. rewrite drop_0 in Ht. change (Z.of_nat 0) with 0 in Ht. rewrite Htail in Ht. apply text_at_app in Ht as [Ht _].
  assert (length ds <= length l)%nat as Hlen by (unfold l; rewrite !length_app, length_map; lia).
  rewrite (internal_simple_strtoll_spec (S (length l)) (image l) 0 [] sgn false ds s); try done; [|by destruct rest|cbn; lia|lia].
  cbn [length Nat.add]. assert (image l (0 + Z.of_nat (length (sign_chars sgn false) + length ds)) = s) as ->.
  { apply text_at_app in Ht as [_ Ht]. apply text_at_app in Ht as [_ [Ht _]]. rewrite length_map in Ht.
    rewrite <- Ht. f_equal. lia. }
  rewrite Z.max_r, Z.min_r by (unfold INT64_MAX, INT64_MIN; lia). unfold s. by destruct rest.
Qed.

Lemma numeral_digits v : 0 <= v < 2 ^ 64 -> numeral 10 v <> [] /\ Forall (fun d => 0 <= d <= 9) (numeral 10 v) /\ digits_value (numeral 10 v) = v /\
  map (digit_char false) (numeral 10 v) = map (Z.add 48) (numeral 10 v).
Proof.
  intros Hv. destruct (numeral_spec 10 v ltac:(by left) Hv) as [_ (Hne & Hall & Hval & _)]. split; [done|].
  assert (Forall (fun d => 0 <= d <= 9) (numeral 10 v)) as Hd by (eapply List.Forall_impl; [|exact Hall]; cbn; lia).
  split; [done|]. split; [done|]. apply map_ext_Forall. eapply List.Forall_impl; [|exact Hd]. intros d Hdr. cbn in Hdr. unfold digit_char.
  rewrite (proj2 (Z.ltb_lt d 10)) by lia. done.
Qed.

(** The decimal text of a number, and the number back. *)
Lemma ParseNumber_decimal z : - 2 ^ 63 <= z < 2 ^ 63 -> ParseNumber (number_text 10 (Z.abs z) 0 false (z <? 0) false) = Some z.
Proof.
  intros Hz. destruct (numeral_digits (Z.abs z) ltac:(lia)) as (Hne & Hd & Hval & Hmap). unfold number_text. rewrite Hmap, andb_false_r.
  rewrite andb_true_r. cbn [Z.eqb negb]. rewrite andb_false_r. change (Z.to_nat 0 - length (numeral 10 (Z.abs z)))%nat with 0%nat. cbn [repeat app].
  destruct (Z.ltb_spec z 0) as [Hneg|Hpos].
  - pose proof (ParseNumber_digits (-1) (numeral 10 (Z.abs z)) 0 None ltac:(by right) Hne Hd eq_refl) as E. rewrite Hval, app_nil_r in E.
    cbn [sign_chars Z.ltb Z.compare app] in E. cbn [andb negb app]. rewrite E by lia. f_equal. lia.
  - pose proof (ParseNumber_digits 1 (numeral 10 (Z.abs z)) 0 None ltac:(by left) Hne Hd eq_refl) as E. rewrite Hval, app_nil_r in E.
    cbn [sign_chars Z.ltb Z.compare app] in E. cbn [andb negb app]. rewrite E by lia. f_equal. lia.
Qed.

(** The text a value is printed as. *)
Definition value_text (v : value) : list Z :=
  match v with
  | VBool b => if b then chars "true" else chars "false"
  | VSignal m => [48 + mode_number m]
  | VStr s => match s with Some s => s | None => chars "<null>" end
  | VInt z => number_text 10 (Z.abs z) 0 false (z <? 0) false
  | VUptr z => chars "0x" ++ number_text 16 z 0 false false false
  end.

Lemma Format_text v buffer size m : 0 < size -> in_range v ->
  exists m', FlagHandler_Format v buffer size m = Some (Done (m', zlen (value_text v) <? size)) /\ printed m buffer size (value_text v) m'.
Proof.
  intros Hs Hv. unfold FlagHandler_Format, internal_snprintf.
  assert (exists ds, (format_of v).1 = concat (map show ds) /\ Forall directive_ok ds /\ render_all ds (format_of v).2 = Some (value_text v)) as (ds & Ef & Hok & Hr).
  { destruct v as [b|z|z|s|mode]; cbn in Hv |- *.
    - exists [DStr None false]. split; [done|]. split; [by repeat constructor|]. by destruct b.
    - exists [DDec [] LNone]. split; [done|]. split; [by repeat constructor|]. cbn. rewrite s32_id by done. by rewrite app_nil_r.
    - exists [DLit 48; DLit 120; DHex false [] LZ]. split; [done|]. split; [by repeat constructor|]. cbn. rewrite u64_small by done. by rewrite app_nil_r.
    - exists [DStr None false]. split; [done|]. split; [by repeat constructor|]. destruct s as [s|]; cbn; [by rewrite !app_nil_r|done].
    - exists [DDec [] LNone]. split; [done|]. split; [by repeat constructor|]. by destruct mode. }
  destruct (format_of v) as [fmt args]. cbn [fst snd] in *. subst fmt.
  destruct (VSNPrintf_exact m buffer size ds args _ Hs Hok Hr) as (m' & -> & Hp). by exists m'.
Qed.

(** a flag's value is printed into the buffer as far as it fits, and the whole text,
    given as an option, sets the flag to that value again: for booleans, numbers, signal
    modes and strings. *)
Theorem Format_Parse_roundtrip v buffer size m : 0 < size -> in_range v ->
  match v with VUptr _ | VStr None => False | _ => True end ->
  exists m', FlagHandler_Format v buffer size m = Some (Done (m', zlen (value_text v) <? size)) /\
    printed m buffer size (value_text v) m' /\ FlagHandler_Parse (type_of v) (value_text v) = Some v.
Proof.
  intros Hs Hv Hkind. destruct (Format_text v buffer size m Hs Hv) as (m' & E & Hp). exists m'. split; [done|]. split; [done|].
  destruct v as [b|z|z|[s|]|mode]; try done; cbn [type_of value_text FlagHandler_Parse].
  - by destruct b.
  - cbn in Hv. rewrite ParseNumber_decimal by lia. cbn. by rewrite s32_id.
  - by destruct mode.
Qed.

Lemma Format_Parse_roundtrip_witness :
  exists m', FlagHandler_Format (VInt (-20)) 100 8 (fun _ => 7) = Some (Done (m', true)) /\ FlagHandler_Parse TInt (chars "-20") = Some (VInt (-20)).
Proof.
  destruct (Format_Parse_roundtrip (VInt (-20)) 100 8 (fun _ => 7) ltac:(done) ltac:(done) ltac:(done)) as (m' & E & _ & Hp). exists m'. exact (conj E Hp).
Defined.

(** ** What the parser does with unexpected values *)

(** The text of a [uptr] flag is hexadecimal, which its own parser refuses. *)
Lemma uptr_text_is_refused z : FlagHandler_Parse TUptr (value_text (VUptr z)) = None.
Proof.
  cbn [FlagHandler_Parse value_text]. change (chars "0x") with (sign_chars 1 false ++ map (Z.add 48) [0] ++ [120]).
  rewrite <- !app_assoc. cbn [app].
  pose proof (ParseNumber_digits 1 [0] 120 (Some (number_text 16 z 0 false false false)) ltac:(by left) ltac:(done) ltac:(by repeat constructor) eq_refl ltac:(done)) as E.
  cbn [Z.eqb Pos.eqb] in E. rewrite E. done.
Qed.

(** A number out of the range of [int] is cut to it, and an empty value is 0. *)
Lemma int_flags_wrap : FlagHandler_Parse TInt (chars "4294967303") = Some (VInt 7) /\ FlagHandler_Parse TInt [] = Some (VInt 0).
Proof. split; vm_compute; reflexivity. Qed.

(** Nothing that is checked bounds the unwind depth. *)
Lemma unwind_depth_is_not_checked st z : flags_valid st -> - 2 ^ 31 <= z < 2 ^ 31 -> flags_valid (put_flag st false "umr_unwind_depth" (VInt z)).
Proof.
  intros [Hok Hh Hl Hs Hm He Hv] Hz. split; rewrite ?get_int_put_other by done; try done. by apply put_flag_ok.
Qed.

(** The twenty-first unknown flag stops the process. *)
Lemma unknown_flags_limit st name : zlen (unknown_flags st) = 20 -> UnknownFlags_Add st name = Died "n_unknown_flags_ < kMaxUnknownFlags".
Proof. intros E. unfold UnknownFlags_Add. by rewrite E. Qed.

(** An included file as large as the buffer is read past its end. *)
Lemma full_include_is_overread read_file page_size PS path ign st data : read_file path = Some data -> 0 ∉ data ->
  zlen data = Max kMaxIncludeSize page_size -> ParseFile read_file page_size PS path ign st = Some (Died "read past the buffer").
Proof.
  intros Hr Hz Hl. unfold ParseFile. rewrite Hr, Hl. rewrite bool_decide_eq_false_2 by (intros (i & Hi & _)%elem_of_take; apply Hz; by eapply list_elem_of_lookup_2).
  by rewrite Z.leb_refl.
Qed.

(** ** The theorems at work *)

(** No options at all: the defaults. *)
Lemma InitializeFlags_defaults process_name pid read_binary_dir read_file page_size :
  InitializeFlags process_name pid read_binary_dir (fun _ => None) read_file page_size 0 None =
  Some (check_flag_values (InitializeCommonFlags (initial_state (fun _ => None)))).
Proof.
  unfold InitializeFlags. change (Some (parser ← RegisterCQMsanFlags []; RegisterCommonFlags parser)) with (Some runtime_parser).
  destruct runtime_parser_ok as (p & -> & _). cbn [fuel_bind ParseStringFromEnv mret outcome_ret].
  assert (verbosity (InitializeCommonFlags (initial_state (fun _ => None))) = 0) as Hv by (vm_compute; reflexivity).
  unfold initial_state in *. rewrite Hv. done.
Qed.


Lemma InitializeFlags_ends_witness : exists r,
  InitializeFlags [] 1 (fun _ => []) (fun _ => Some (chars "poison_in_free=0")) (fun _ => None) 4096 1 (Some (chars "halt_on_error=1:include=x")) = Some r.
Proof.
  apply (InitializeFlags_ends [] 1 (fun _ => []) (fun _ => Some (chars "poison_in_free=0")) (fun _ => None) 4096 (fun _ => 0%nat) 1).
  - intros parser s data _ (buf & name & value & rest & ign & path & content & _ & _ & _ & _ & E & _). discriminate E.
  - intros s _. lia.
Defined.

