(* ===== verification/Formats.v ===== *)
(** * Formats: the scanf and printf interceptors

    src/rt/sanitizer_common/sanitizer_common_interceptors_format.inc and the macros of
    sanitizer_common_interceptors.inc that use it: a format string is parsed a second time, to
    find out which of the caller's buffers the C library has written.  What is written is
    marked as initialised; the checks of what is read are disabled in this runtime
    (COMMON_INTERCEPTOR_READ_RANGE is empty).

    A format is text in the memory of the process, as far as its terminator and beyond: the
    parser of a directive cut short reads past it ([cut_directive_is_overread]).  A list of
    variable arguments is a list of values; taking one that is not there, or not of the type,
    is undefined.  The warnings about unknown directives are not modelled, nor the two
    pointers of a directive that only they use.

    [scanf_marks_outputs]: for any format of directives, with literal text between them, the
    buffers of the conversions that were made are initialised afterwards and nothing else
    changes. *)

From S2P Require Import Prelude Common Memory Libc Layout Poisoning UmrMap Interface Interceptors Printf.

(** ** Characters *)

(** [internal_strchr] finds the terminator of the list too: the null character is one of
    any list. *)
Definition char_is_one_of (c : Z) (s : string) : bool := bool_decide (c ∈ chars s ++ [0]).

Definition is_digit (c : Z) : bool := (48 <=? c) && (c <=? 57).

Definition format_is_integer_conv (c : Z) : bool := char_is_one_of c "bB" || char_is_one_of c "diouxXn".
Definition format_is_float_conv (c : Z) : bool := char_is_one_of c "aAeEfFgG".

(** [lengthModifier[0]], [lengthModifier[1]]. *)
Definition modifier : Type := Z * Z.

Definition format_get_char_size (convSpecifier : Z) (lengthModifier : modifier) : Z :=
  if char_is_one_of convSpecifier "CS" then 4
  else if char_is_one_of convSpecifier "cs[" then
    if (lengthModifier.1 =? 108) && (lengthModifier.2 =? 0) then 4
    else if lengthModifier.1 =? 0 then 1 else 0
  else 0.

Definition FSS_WCSLEN : Z := -2.
Definition FSS_STRLEN : Z := -1.
Definition FSS_INVALID : Z := 0.

(** The characters are h l q L j z t. *)
Definition format_get_value_size (convSpecifier : Z) (lengthModifier : modifier) (promote_float : bool) : Z :=
  let '(l0, l1) := lengthModifier in
  if format_is_integer_conv convSpecifier then
    if l0 =? 104 then (if l1 =? 104 then 1 else 2)
    else if l0 =? 108 then 8
    else if (l0 =? 113) || (l0 =? 76) || (l0 =? 106) || (l0 =? 122) || (l0 =? 116) then 8
    else if l0 =? 0 then 4 else FSS_INVALID
  else if format_is_float_conv convSpecifier then
    if (l0 =? 76) || (l0 =? 113) then 16
    else if l0 =? 108 then (if l1 =? 108 then 16 else 8)
    else if l0 =? 0 then (if promote_float then 8 else 4) else FSS_INVALID
  else if convSpecifier =? 112 then (if negb (l0 =? 0) then FSS_INVALID else 8)
  else FSS_INVALID.

(** ** Parsing *)

Record ScanfDirective := mkScanfDirective {
  argIdx : Z; fieldWidth : Z; suppressed : bool; allocate : bool; lengthModifier : modifier; convSpecifier : Z; maybeGnuMalloc : bool
}.

Definition no_directive : ScanfDirective := mkScanfDirective (-1) 0 false false (0, 0) 0 false.

Record PrintfDirective := mkPrintfDirective {
  pfieldWidth : Z; pfieldPrecision : Z; pargIdx : Z; precisionIdx : Z; starredWidth : bool; starredPrecision : bool;
  plengthModifier : modifier; pconvSpecifier : Z
}.

Definition no_pdirective : PrintfDirective := mkPrintfDirective 0 0 (-1) (-1) false false (0, 0) 0.

Section parse.
Context (fuel : nat) (m : mem).

(** The first address from [p] on whose character is in [stop]. *)
Definition scan_to (stop : Z -> bool) (p : Z) : outcome Z :=
  match scan fuel (fun i => stop (m (p + i))) 0 with Some i => mret (p + i) | None => Died "no terminator" end.

(** The value, and the address after it. *)
Definition parse_number (p : Z) : outcome (Z * Z) :=
  out ← (match internal_atoll fuel m p with Some r => r | None => Died "no terminator" end);
  q ← scan_to (fun c => negb (is_digit c)) p;
  mret (s32 out, q).

Definition maybe_parse_param_index (p out : Z) : outcome (Z * Z) :=
  if is_digit (m p) then
    '(number, q) ← parse_number p;
    mret (if m q =? 36 then (q + 1, number) else (p, out))
  else mret (p, out).

Definition maybe_parse_length_modifier (p : Z) : Z * modifier :=
  if char_is_one_of (m p) "jztLq" then (p + 1, (m p, 0))
  else if m p =? 104 then
    let p := p + 1 in if m p =? 104 then (p + 1, (104, 104)) else (p, (104, 0))
  else if m p =? 108 then
    let p := p + 1 in if m p =? 108 then (p + 1, (108, 108)) else (p, (108, 0))
  else (p, (0, 0)).

(** The optional first characters of a bracket expression. *)
Definition skip_set_start (p : Z) : Z :=
  let p := if m p =? 94 then p + 1 else p in
  if m p =? 93 then p + 1 else p.

(** After [%[]; [None] is the end of the string. *)
Definition scan_set (p : Z) : outcome (option Z) :=
  p ← scan_to (fun c => (c =? 0) || (c =? 93)) (skip_set_start p);
  mret (if m p =? 0 then None else Some (p + 1)).

(** After [%a]: the address, and whether this may be the allocation of old versions. *)
Definition scan_gnu_malloc (p : Z) : outcome (option (Z * bool)) :=
  if (m p =? 115) || (m p =? 83) then mret (Some (p + 1, true))
  else if m p =? 91 then
    q ← scan_to (fun c => (c =? 0) || (c =? 93) || (c =? 37)) (skip_set_start (p + 1));
    mret (if (m q =? 0) || (m q =? 37) then None else Some (q + 1, true))
  else mret (Some (p, false)).

(** After the percent sign. *)
Definition scanf_directive (allowGnuMalloc : bool) (p : Z) : outcome (option (Z * ScanfDirective)) :=
  '(p, argIdx) ← maybe_parse_param_index p (-1);
  let suppressed := m p =? 42 in
  let p := if suppressed then p + 1 else p in
  width ← (if is_digit (m p) then '(w, p) ← parse_number p; mret (if w <=? 0 then None else Some (w, p)) else mret (Some (0, p)));
  match width with
  | None => mret None
  | Some (w, p) =>
      let allocate := m p =? 109 in
      let p := if allocate then p + 1 else p in
      let '(p, ll) := maybe_parse_length_modifier p in
      let conv := m p in
      set ← (if conv =? 91 then scan_set (p + 1) else mret (Some (p + 1)));
      match set with
      | None => mret None
      | Some p =>
          gnu ← (if allowGnuMalloc && (conv =? 97) && (ll.1 =? 0) then scan_gnu_malloc p else mret (Some (p, false)));
          mret (match gnu with
                | None => None
                | Some (p, maybe) => Some (p, mkScanfDirective argIdx w suppressed allocate ll conv maybe)
                end)
      end
  end.

(** [None] is the null pointer of an error. *)
Fixpoint scanf_parse_next (n : nat) (allowGnuMalloc : bool) (p : Z) : outcome (option (Z * ScanfDirective)) :=
  match n with
  | O => Died "no terminator"
  | S n =>
      if m p =? 0 then mret (Some (p, no_directive))
      else if negb (m p =? 37) then scanf_parse_next n allowGnuMalloc (p + 1)
      else if m (p + 1) =? 37 then scanf_parse_next n allowGnuMalloc (p + 2)
      else if m (p + 1) =? 0 then mret None
      else scanf_directive allowGnuMalloc (p + 1)
  end.

Definition maybe_parse_number (p out : Z) : outcome (Z * Z) :=
  if is_digit (m p) then '(out, p) ← parse_number p; mret (p, out) else mret (p, out).

(** The address, the number, the star. *)
Definition maybe_parse_number_or_star (p out : Z) : outcome (Z * Z * bool) :=
  if m p =? 42 then mret (p + 1, out, true) else '(p, out) ← maybe_parse_number p out; mret (p, out, false).

(** The index before the flags goes to [precisionIdx], as in the source. *)
Definition printf_directive (p : Z) : outcome (Z * PrintfDirective) :=
  '(p, precisionIdx) ← maybe_parse_param_index p (-1);
  p ← scan_to (fun c => negb (char_is_one_of c "'-+ #0")) p;
  '(p, width, starred) ← maybe_parse_number_or_star p 0;
  '(p, precision, starredp, precisionIdx) ← (if m p =? 46 then
      '(p, precision, starredp) ← maybe_parse_number_or_star (p + 1) 0;
      if starredp : bool then '(p, precisionIdx) ← maybe_parse_param_index p precisionIdx; mret (p, precision, starredp, precisionIdx)
      else mret (p, precision, starredp, precisionIdx)
    else mret (p, 0, false, precisionIdx));
  let '(p, ll) := maybe_parse_length_modifier p in
  mret (p + 1, mkPrintfDirective width precision (-1) precisionIdx starred starredp ll (m p)).

Fixpoint printf_parse_next (n : nat) (p : Z) : outcome (option (Z * PrintfDirective)) :=
  match n with
  | O => Died "no terminator"
  | S n =>
      if m p =? 0 then mret (Some (p, no_pdirective))
      else if negb (m p =? 37) then printf_parse_next n (p + 1)
      else if m (p + 1) =? 37 then printf_parse_next n (p + 2)
      else if m (p + 1) =? 0 then mret None
      else r ← printf_directive (p + 1); mret (Some r)
  end.
End parse.

(** ** Sizes *)

(** The product is unsigned, and [needsTerminator] is 0 or 1. *)
Definition scanf_get_value_size (dir : ScanfDirective) : Z :=
  let conv := convSpecifier dir in
  if allocate dir then (if negb (char_is_one_of conv "cCsS[") then FSS_INVALID else 8)
  else if maybeGnuMalloc dir then (if negb (conv =? 97) || negb ((lengthModifier dir).1 =? 0) then FSS_INVALID else 4)
  else if char_is_one_of conv "cCsS[" then
    let needsTerminator := char_is_one_of conv "sS[" in
    let charSize := format_get_char_size conv (lengthModifier dir) in
    if charSize =? 0 then FSS_INVALID
    else if fieldWidth dir =? 0 then
      if negb needsTerminator then charSize else if charSize =? 1 then FSS_STRLEN else FSS_WCSLEN
    else s32 (u32 (u32 (fieldWidth dir + (if needsTerminator then 1 else 0)) * charSize))
  else format_get_value_size conv (lengthModifier dir) false.

Definition printf_get_value_size (dir : PrintfDirective) : Z :=
  let conv := pconvSpecifier dir in
  if char_is_one_of conv "cCsS" then
    let charSize := format_get_char_size conv (plengthModifier dir) in
    if charSize =? 0 then FSS_INVALID
    else if char_is_one_of conv "sS" then (if charSize =? 1 then FSS_STRLEN else FSS_WCSLEN)
    else charSize
  else format_get_value_size conv (plengthModifier dir) true.

(** ** The interceptors *)

(** An argument of a call with a variable list; values of a floating-point type have no part
    in what follows. *)
Inductive va := VaPtr (a : Z) | VaInt (v : Z) | VaDouble | VaLongDouble.

Section interceptors.
(** [errno_location] is what [__errno_location] of the C library answers. *)
Context (c : Ctx) (check_printf : bool) (errno_location : Z).

(** COMMON_INTERCEPTOR_WRITE_RANGE; the size is an [int] or an [uptr]. *)
Definition WRITE_RANGE (ptr size : Z) : M unit := __cqmsan_unpoison c ptr (u64 size).

(** What a conversion that allocates has written. *)
Definition allocated_size (conv buf : Z) : M Z :=
  if conv =? 99 then mret 1
  else if conv =? 67 then mret 4
  else if conv =? 83 then n ← wcslen_M c buf; mret (s32 ((n + 1) * 4))
  else n ← strlen_M c buf; mret (s32 (n + 1)).

(** A valid directive and its argument. *)
Definition scanf_write (dir : ScanfDirective) (argp size : Z) : M unit :=
  size ← (if size =? FSS_STRLEN then n ← strlen_M c argp; mret (s32 (n + 1)) else mret (if size =? FSS_WCSLEN then 0 else size));
  WRITE_RANGE argp size;;
  when (allocate dir) (
    r ← get;
    let buf := load64 (rt_mem r) argp in
    when (negb (buf =? 0)) (size ← allocated_size (convSpecifier dir) buf; WRITE_RANGE buf size)).

Fixpoint scanf_loop (n : nat) (allowGnuMalloc : bool) (n_inputs p : Z) (aq : list Z) : M unit :=
  match n with
  | O => fun _ => Died "no terminator"
  | S n =>
      r ← get;
      if rt_mem r p =? 0 then mret tt else
      next ← lift (scanf_parse_next (cFuel c) (rt_mem r) (cFuel c) allowGnuMalloc p);
      match next with
      | None => mret tt
      | Some (p, dir) =>
          if convSpecifier dir =? 0 then CHECK (rt_mem r p =? 0) "CHECK_EQ(*p, 0)"
          else if negb (argIdx dir =? -1) then mret tt
          else if suppressed dir then scanf_loop n allowGnuMalloc n_inputs p aq
          else
            let size := scanf_get_value_size dir in
            if size =? FSS_INVALID then mret tt else
            match aq with
            | [] => fun _ => Died "va_arg"
            | argp :: aq =>
                let n_inputs := if negb (convSpecifier dir =? 110) then n_inputs - 1 else n_inputs in
                if n_inputs <? 0 then mret tt
                else scanf_write dir argp size;; scanf_loop n allowGnuMalloc n_inputs p aq
            end
      end
  end.

Definition scanf_common (n_inputs : Z) (allowGnuMalloc : bool) (format : Z) (aq : list Z) : M unit :=
  CHECK (0 <? n_inputs) "CHECK_GT(n_inputs, 0)";;
  scanf_loop (cFuel c) allowGnuMalloc n_inputs format aq.

Definition VSCANF_INTERCEPTOR_IMPL (allowGnuMalloc : bool) (real : CLibCall) (format : Z) (ap : list Z) : M Z :=
  COMMON_INTERCEPTOR_ENTER c errno_location real (
    res ← REAL real;
    when (0 <? res) (scanf_common res allowGnuMalloc format ap);;
    mret res).

(** scanf on vscanf, printf on vprintf and so on. *)
Definition FORMAT_INTERCEPTOR_IMPL (vreal : CLibCall) (vname : M Z) : M Z := COMMON_INTERCEPTOR_ENTER c errno_location vreal vname.

Definition vscanf := VSCANF_INTERCEPTOR_IMPL true.
Definition vsscanf := VSCANF_INTERCEPTOR_IMPL true.
Definition vfscanf := VSCANF_INTERCEPTOR_IMPL true.
Definition __isoc99_vscanf := VSCANF_INTERCEPTOR_IMPL false.
Definition __isoc99_vsscanf := VSCANF_INTERCEPTOR_IMPL false.
Definition __isoc99_vfscanf := VSCANF_INTERCEPTOR_IMPL false.
Definition scanf (real : CLibCall) (format : Z) (ap : list Z) : M Z := FORMAT_INTERCEPTOR_IMPL real (vscanf real format ap).
Definition sscanf (real : CLibCall) (format : Z) (ap : list Z) : M Z := FORMAT_INTERCEPTOR_IMPL real (vsscanf real format ap).
Definition __isoc99_sscanf (real : CLibCall) (format : Z) (ap : list Z) : M Z := FORMAT_INTERCEPTOR_IMPL real (__isoc99_vsscanf real format ap).

(** SKIP_SCALAR_ARG: the list without the argument, [None] to give up. *)
Definition SKIP_SCALAR_ARG (aq : list va) (conv size : Z) : outcome (option (list va)) :=
  if format_is_float_conv conv then
    match aq with
    | VaDouble :: aq => if size =? 8 then mret (Some aq) else if (size =? 12) || (size =? 16) then Died "va_arg" else mret None
    | VaLongDouble :: aq => if (size =? 12) || (size =? 16) then mret (Some aq) else if size =? 8 then Died "va_arg" else mret None
    | _ => if (size =? 8) || (size =? 12) || (size =? 16) then Died "va_arg" else mret None
    end
  else if (size =? 1) || (size =? 2) || (size =? 4) then
    match aq with VaInt _ :: aq => mret (Some aq) | _ => Died "va_arg" end
  else if size =? 8 then
    match aq with VaInt _ :: aq | VaPtr _ :: aq => mret (Some aq) | _ => Died "va_arg" end
  else mret None.

Definition va_ptr (aq : list va) : outcome (Z * list va) :=
  match aq with VaPtr a :: aq => mret (a, aq) | _ => Died "va_arg" end.

(** [None]: the scan of the arguments ends here. *)
Definition skip_star (starred : bool) (aq : list va) : outcome (option (list va)) :=
  if starred then SKIP_SCALAR_ARG aq 100 4 else mret (Some aq).

Fixpoint printf_loop (n : nat) (p : Z) (aq : list va) : M unit :=
  match n with
  | O => fun _ => Died "no terminator"
  | S n =>
      r ← get;
      if rt_mem r p =? 0 then mret tt else
      next ← lift (printf_parse_next (cFuel c) (rt_mem r) (cFuel c) p);
      match next with
      | None => mret tt
      | Some (p, dir) =>
          if pconvSpecifier dir =? 0 then CHECK (rt_mem r p =? 0) "CHECK_EQ(*p, 0)"
          else if negb (pargIdx dir =? -1) || negb (precisionIdx dir =? -1) then mret tt
          else
            aq ← lift (skip_star (starredWidth dir) aq);
            match aq with None => mret tt | Some aq =>
            aq ← lift (skip_star (starredPrecision dir) aq);
            match aq with None => mret tt | Some aq =>
            if pconvSpecifier dir =? 109 then printf_loop n p aq else
            let size := printf_get_value_size dir in
            if size =? FSS_INVALID then mret tt
            else if pconvSpecifier dir =? 110 then
              '(argp, aq) ← lift (va_ptr aq); WRITE_RANGE argp size;; printf_loop n p aq
            else if (size =? FSS_STRLEN) || (size =? FSS_WCSLEN) then
              (* only the disabled checks of what is read *)
              '(_, aq) ← lift (va_ptr aq); printf_loop n p aq
            else
              aq ← lift (SKIP_SCALAR_ARG aq (pconvSpecifier dir) size);
              match aq with None => mret tt | Some aq => printf_loop n p aq end
            end end
      end
  end.

Definition printf_common (format : Z) (aq : list va) : M unit := printf_loop (cFuel c) format aq.

Definition VPRINTF_INTERCEPTOR_IMPL (real : CLibCall) (format : Z) (ap : list va) : M Z :=
  COMMON_INTERCEPTOR_ENTER c errno_location real (
    when check_printf (printf_common format ap);;
    REAL real).

Definition VSPRINTF_INTERCEPTOR_IMPL (real : CLibCall) (str format : Z) (ap : list va) : M Z :=
  COMMON_INTERCEPTOR_ENTER c errno_location real (
    when check_printf (printf_common format ap);;
    res ← REAL real;
    when (0 <=? res) (WRITE_RANGE str (s32 (res + 1)));;
    mret res).

Definition VSNPRINTF_INTERCEPTOR_IMPL (real : CLibCall) (str size format : Z) (ap : list va) : M Z :=
  COMMON_INTERCEPTOR_ENTER c errno_location real (
    when check_printf (printf_common format ap);;
    res ← REAL real;
    when (0 <=? res) (WRITE_RANGE str (Z.min size (u64 (s32 (res + 1)))));;
    mret res).

Definition VASPRINTF_INTERCEPTOR_IMPL (real : CLibCall) (strp format : Z) (ap : list va) : M Z :=
  COMMON_INTERCEPTOR_ENTER c errno_location real (
    WRITE_RANGE strp 8;;
    when check_printf (printf_common format ap);;
    res ← REAL real;
    r ← get;
    when (0 <=? res) (WRITE_RANGE (load64 (rt_mem r) strp) (s32 (res + 1)));;
    mret res).

Definition vprintf := VPRINTF_INTERCEPTOR_IMPL.
Definition vfprintf := VPRINTF_INTERCEPTOR_IMPL.
Definition vsnprintf := VSNPRINTF_INTERCEPTOR_IMPL.
Definition vsprintf := VSPRINTF_INTERCEPTOR_IMPL.
Definition vasprintf := VASPRINTF_INTERCEPTOR_IMPL.
Definition printf (real : CLibCall) (format : Z) (ap : list va) : M Z := FORMAT_INTERCEPTOR_IMPL real (vprintf real format ap).
Definition fprintf (real : CLibCall) (format : Z) (ap : list va) : M Z := FORMAT_INTERCEPTOR_IMPL real (vfprintf real format ap).
Definition sprintf (real : CLibCall) (str format : Z) (ap : list va) : M Z := FORMAT_INTERCEPTOR_IMPL real (vsprintf real str format ap).
Definition snprintf (real : CLibCall) (str size format : Z) (ap : list va) : M Z := FORMAT_INTERCEPTOR_IMPL real (vsnprintf real str size format ap).
Definition asprintf (real : CLibCall) (strp format : Z) (ap : list va) : M Z := FORMAT_INTERCEPTOR_IMPL real (vasprintf real strp format ap).
End interceptors.

(** ** Formats *)

Inductive length_modifier := LNone | Lhh | Lh | Ll | Lll | LL | Lq | Lj | Lz | Lt.

Definition length_text (l : length_modifier) : list Z :=
  match l with
  | LNone => [] | Lhh => [104; 104] | Lh => [104] | Ll => [108] | Lll => [108; 108] | LL => [76]
  | Lq => [113] | Lj => [106] | Lz => [122] | Lt => [116]
  end.

Definition length_value (l : length_modifier) : modifier :=
  match l with
  | LNone => (0, 0) | Lhh => (104, 104) | Lh => (104, 0) | Ll => (108, 0) | Lll => (108, 108) | LL => (76, 0)
  | Lq => (113, 0) | Lj => (106, 0) | Lz => (122, 0) | Lt => (116, 0)
  end.

(** A directive of scanf: digits of the width, and for [%[] the caret, the first character of
    the set (which may be a bracket) and the others. *)
Record directive := mkDirective {
  d_suppressed : bool; d_width : list Z; d_allocate : bool; d_length : length_modifier; d_conv : Z; d_set : option (bool * Z * list Z)
}.

Definition set_text (s : bool * Z * list Z) : list Z := let '(caret, first, body) := s in (if caret : bool then [94] else []) ++ first :: body ++ [93].

Definition directive_tail (d : directive) : list Z :=
  length_text (d_length d) ++ d_conv d :: match d_set d with Some s => set_text s | None => [] end.

Definition directive_text (d : directive) : list Z :=
  (if d_suppressed d then [42] else []) ++ map (Z.add 48) (d_width d) ++ (if d_allocate d then [109] else []) ++ directive_tail d.

Definition directive_of (d : directive) : ScanfDirective :=
  mkScanfDirective (-1) (digits_value (d_width d)) (d_suppressed d) (d_allocate d) (length_value (d_length d)) (d_conv d) false.

Definition conversions : list Z := chars "bBdiouxXnaAeEfFgGpcCsS[".

Record directive_ok (allowGnuMalloc : bool) (d : directive) : Prop := {
  do_digits : Forall (fun x => 0 <= x <= 9) (d_width d);
  do_width : d_width d <> [] -> 0 < digits_value (d_width d) < 2 ^ 28;
  do_conv : d_conv d ∈ conversions;
  do_set : match d_set d with
           | Some (caret, first, body) => d_conv d = 91 /\ first <> 0 /\ (caret = false -> first <> 94) /\ 0 ∉ body /\ 93 ∉ body
           | None => d_conv d <> 91
           end;
  (** [%a] followed by text is ambiguous where the old allocations are allowed *)
  do_gnu : allowGnuMalloc = true -> d_conv d = 97 -> d_length d <> LNone
}.

Inductive item := Text (l : list Z) | Percent | Dir (d : directive).

Definition item_text (i : item) : list Z :=
  match i with Text l => l | Percent => [37; 37] | Dir d => 37 :: directive_text d end.

Definition format_text (l : list item) : list Z := concat (map item_text l).

Definition item_ok (allowGnuMalloc : bool) (i : item) : Prop :=
  match i with Text l => 37 ∉ l /\ 0 ∉ l | Percent => True | Dir d => directive_ok allowGnuMalloc d end.

(** *** Parsing them *)

Section parsing.
Context (fuel : nat) (m : mem).

Lemma text_at_skip p a l : text_at m p (a :: l) -> text_at m (p + 1) l.
Proof. by intros [_ Ht]. Qed.

Lemma scan_to_text stop p l x rest : text_at m p (l ++ x :: rest) -> (forall y, y ∈ l -> stop y = false) -> stop x = true -> (length l < fuel)%nat ->
  scan_to fuel m stop p = Done (p + zlen l).
Proof.
  intros Ht Hl Hx Hf. unfold scan_to. assert (scan fuel (fun i => stop (m (p + i))) 0 = Some (zlen l)) as ->; [|done].
  apply text_at_app in Ht as [Ht [Hc _]]. apply scan_total; [unfold zlen; lia|unfold zlen; by rewrite Hc|].
  intros j Hj. apply Hl. clear -Ht Hj. revert p j Ht Hj. induction l as [|y l IH]; intros p j Ht Hj; [unfold zlen in Hj; cbn in Hj; lia|].
  destruct Ht as [Hy Ht]. destruct (decide (j = 0)) as [->|]; [rewrite Z.add_0_r, Hy; by left|]. right.
  replace (p + j) with (p + 1 + (j - 1)) by lia. apply IH; [done|]. unfold zlen in *. cbn [length] in Hj. lia.
Qed.

Lemma parse_number_text p ds x rest : text_at m p (map (Z.add 48) ds ++ x :: rest) -> ds <> [] -> Forall (fun d => 0 <= d <= 9) ds -> 58 <= x < 128 ->
  digits_value ds < 2 ^ 31 -> (length ds < fuel)%nat -> parse_number fuel m p = Done (digits_value ds, p + zlen ds).
Proof.
  intros Ht Hne Hds Hx Hv Hf. unfold parse_number, internal_atoll.
  assert (IsDigit (schar x) = false) as Hstop by (rewrite schar_ascii by lia; unfold IsDigit; apply andb_false_iff; rewrite !Z.leb_gt; lia).
  assert (text_at m p ([] ++ sign_chars 1 false ++ map (Z.add 48) ds ++ [x])) as Ht'.
  { cbn [sign_chars Z.ltb Z.compare app]. apply text_at_app in Ht as [H1 [H2 _]]. apply text_at_app. by repeat split. }
  assert (length (@nil Z) < fuel)%nat as H0f by (cbn; lia).
  rewrite (internal_simple_strtoll_spec fuel m p [] 1 false ds x ltac:(by constructor) ltac:(by left) Hne Hds Hstop Ht' H0f Hf).
  cbn [mbind option_bind outcome_bind length Nat.add sign_chars Z.ltb Z.compare]. pose proof (digits_value_nonneg ds 0 Hds ltac:(lia)) as H0. fold (digits_value ds) in H0.
  rewrite (scan_to_text _ p (map (Z.add 48) ds) x rest Ht).
  - cbn [mbind outcome_bind mret outcome_ret]. f_equal. unfold INT64_MAX, INT64_MIN. f_equal; [|unfold zlen; by rewrite length_map].
    rewrite Z.mul_1_l. cbn [fst]. rewrite s32_id; lia.
  - intros y (d & -> & Hd)%list_elem_of_fmap. pose proof (proj1 (List.Forall_forall _ _) Hds d (proj1 (list_elem_of_In _ _) Hd)). cbn beta in *.
    apply negb_false_iff. unfold is_digit. apply andb_true_iff. rewrite !Z.leb_le. lia.
  - apply negb_true_iff. unfold is_digit. apply andb_false_iff. rewrite !Z.leb_gt. lia.
  - by rewrite length_map.
Qed.

Lemma char_is_one_of_false c s : c ∉ chars s ++ [0] -> char_is_one_of c s = false.
Proof. intros. by apply bool_decide_eq_false_2. Qed.

Lemma length_modifier_text p l x rest : x ∈ conversions -> text_at m p (length_text l ++ x :: rest) ->
  maybe_parse_length_modifier m p = (p + zlen (length_text l), length_value l).
Proof.
  intros Hx Ht. assert (char_is_one_of x "jztLq" = false /\ (x =? 104) = false /\ (x =? 108) = false) as (E1 & E2 & E3).
  { clear Ht. unfold conversions in Hx. cbn in Hx. repeat (apply elem_of_cons in Hx as [->|Hx]; [done|]). by apply elem_of_nil in Hx. }
  unfold maybe_parse_length_modifier. destruct l; cbn in Ht; destruct Ht as (H0 & Ht); try (destruct Ht as (H1 & Ht)); try (destruct Ht as (H2 & Ht)).
  all: rewrite ?H0, ?H1, ?H2, ?E1, ?E2, ?E3; cbn; rewrite ?H1, ?H2, ?E1, ?E2, ?E3; try done.
  all: rewrite ?Z.add_0_r; try done; f_equal; unfold zlen; cbn [length]; lia.
Qed.
End parsing.

Section directives.
Context (fuel : nat) (m : mem).

Lemma scan_set_text p caret first body rest : text_at m p (set_text (caret, first, body) ++ rest) -> first <> 0 -> (caret = false -> first <> 94) ->
  0 ∉ body -> 93 ∉ body -> (S (length body) < fuel)%nat -> scan_set fuel m p = Done (Some (p + zlen (set_text (caret, first, body)))).
Proof.
  intros Ht Hf Hc H0 H93 Hfuel. cbn [set_text] in *.
  assert (forall q pre, text_at m q (pre ++ body ++ 93 :: rest) -> skip_set_start m p = q + zlen pre \/ (skip_set_start m p = q /\ 0 ∉ pre /\ 93 ∉ pre /\ (length (pre ++ body) < fuel)%nat) ->
    scan_set fuel m p = Done (Some (q + zlen (pre ++ body ++ [93])))) as Hscan.
  { intros q pre Htq Hs. assert (exists l, text_at m (skip_set_start m p) (l ++ 93 :: rest) /\ (0 ∉ l /\ 93 ∉ l) /\ (length l < fuel)%nat /\ skip_set_start m p + zlen l + 1 = q + zlen (pre ++ body ++ [93])) as (l & Htl & [Hl0 Hl93] & Hlen & E).
    { destruct Hs as [-> | (-> & Hp0 & Hp93 & Hlen)].
      - exists body. apply text_at_app in Htq as [_ Htq]. split; [done|]. split; [done|]. split; [lia|]. unfold zlen. rewrite !length_app. cbn [length]. lia.
      - exists (pre ++ body). rewrite <- app_assoc. split; [done|]. split; [set_solver|]. split; [done|]. unfold zlen. rewrite !length_app. cbn [length]. lia. }
    unfold scan_set. rewrite (scan_to_text fuel m _ _ l 93 rest Htl); [|intros y Hy|done|done].
    - cbn [mbind outcome_bind mret outcome_ret]. rewrite <- E. apply text_at_app in Htl as [_ [H93l _]]. fold (zlen l) in H93l. rewrite H93l. done.
    - apply orb_false_iff. rewrite !Z.eqb_neq. split; intros ->; set_solver. }
  assert (set_text (caret, first, body) ++ rest = (if caret then [94] else []) ++ first :: body ++ 93 :: rest) as Eset by (cbn [set_text]; by rewrite <- !app_assoc; cbn; rewrite <- app_assoc).
  cbn [set_text] in Eset. rewrite Eset in Ht. destruct caret; cbn [app] in Ht |- *.
  - destruct Ht as [H94 Ht]. replace (p + zlen (94 :: first :: body ++ [93])) with (p + 1 + zlen ([first] ++ body ++ [93])) by (unfold zlen; cbn [length app]; lia).
    apply Hscan; [done|]. destruct Ht as [Hfirst _]. unfold skip_set_start. rewrite H94. cbn [Z.eqb Pos.eqb]. rewrite Hfirst.
    destruct (Z.eqb_spec first 93) as [->|Hne]; [left; unfold zlen; cbn [length]; lia|right].
    split; [done|]. split; [set_solver|]. split; [set_solver|]. cbn [app length]. lia.
  - replace (p + zlen (first :: body ++ [93])) with (p + zlen ([first] ++ body ++ [93])) by done.
    apply Hscan; [done|]. destruct Ht as [Hfirst _]. unfold skip_set_start. rewrite Hfirst, (proj2 (Z.eqb_neq _ _) (Hc eq_refl)), Hfirst.
    destruct (Z.eqb_spec first 93) as [->|Hne]; [left; unfold zlen; cbn [length]; lia|right].
    split; [done|]. split; [set_solver|]. split; [set_solver|]. cbn [app length]. lia.
Qed.

(** Where the digits of a directive end. *)
Lemma conversion_char x : x ∈ conversions -> 65 <= x < 128 /\ x <> 109.
Proof.
  intros Hx. unfold conversions in Hx. cbn in Hx. repeat (apply elem_of_cons in Hx as [->|Hx]; [lia|]). by apply elem_of_nil in Hx.
Qed.

Lemma tail_starts d : d_conv d ∈ conversions -> exists x rest, directive_tail d = x :: rest /\ 58 <= x < 128 /\ x <> 109.
Proof.
  intros Hc. pose proof (conversion_char _ Hc). unfold directive_tail. destruct (d_length d); cbn [length_text app]; eexists _, _; (split; [done|lia]).
Qed.

Lemma directive_tail_parse allow d p rest : directive_ok allow d -> text_at m p (directive_tail d ++ rest) -> (length (directive_tail d) < fuel)%nat ->
  exists q, maybe_parse_length_modifier m p = (q, length_value (d_length d)) /\ m q = d_conv d /\
    (if d_conv d =? 91 then scan_set fuel m (q + 1) else mret (Some (q + 1))) = Done (Some (p + zlen (directive_tail d))).
Proof.
  intros [_ _ Hc Hs _] Ht Hf. unfold directive_tail in *. rewrite <- app_assoc in Ht. cbn [app] in Ht.
  exists (p + zlen (length_text (d_length d))). split; [by eapply length_modifier_text|]. apply text_at_app in Ht as [_ Ht].
  split; [by destruct Ht|]. destruct Ht as [_ Ht]. rewrite length_app in Hf. cbn [length] in Hf. unfold zlen. rewrite length_app. cbn [length].
  destruct (d_set d) as [[[caret first] body]|].
  - destruct Hs as (E & H0 & H94 & Hb0 & Hb93). rewrite E. cbn [Z.eqb Pos.eqb]. rewrite (scan_set_text _ caret first body rest); try done.
    + do 2 f_equal. unfold zlen. lia.
    + cbn [set_text] in Hf. rewrite !length_app in Hf. cbn [length] in Hf. rewrite length_app in Hf. lia.
  - rewrite (proj2 (Z.eqb_neq _ _) Hs). cbn [mret outcome_ret length]. do 2 f_equal. lia.
Qed.

Lemma no_gnu allow d : directive_ok allow d -> allow && (d_conv d =? 97) && ((length_value (d_length d)).1 =? 0) = false.
Proof.
  intros [_ _ _ _ Hg]. destruct allow; [|done]. destruct (Z.eqb_spec (d_conv d) 97) as [E|]; [|done]. specialize (Hg eq_refl E). by destruct (d_length d).
Qed.

(** A directive is read as what it says. *)
Lemma scanf_directive_text allow d p rest : directive_ok allow d -> text_at m p (directive_text d ++ rest) -> (length (directive_text d) < fuel)%nat ->
  scanf_directive fuel m allow p = Done (Some (p + zlen (directive_text d), directive_of d)).
Proof.
  intros Hok Ht Hf. pose proof Hok as [Hds Hw Hc Hs Hg]. destruct (tail_starts d Hc) as (x & l & Ex & Hx & Hx109).
  set (sup := if d_suppressed d then [42] else []). set (alloc := if d_allocate d then [109] else []).
  set (ds := map (Z.add 48) (d_width d)).
  assert (exists y l', alloc ++ directive_tail d ++ rest = y :: l' /\ 58 <= y < 128) as (y & l' & Ey & Hy).
  { unfold alloc. destruct (d_allocate d); [by eexists _, _|]. rewrite Ex. by eexists _, _. }
  assert (directive_text d ++ rest = sup ++ ds ++ alloc ++ directive_tail d ++ rest) as Et by (unfold directive_text; by rewrite <- !app_assoc).
  rewrite Et in Ht. assert (zlen (directive_text d) = zlen sup + zlen ds + zlen alloc + zlen (directive_tail d)) as El.
  { unfold directive_text, zlen. rewrite !length_app. fold sup ds alloc. lia. }
  assert (length ds < fuel /\ length (directive_tail d) < fuel)%nat as [Hfd Hft] by (unfold zlen in El; lia).
  assert (forall q, text_at m q (ds ++ alloc ++ directive_tail d ++ rest) -> d_width d <> [] ->
    parse_number fuel m q = Done (digits_value (d_width d), q + zlen ds)) as Hnum.
  { intros q Hq Hne. rewrite Ey in Hq. unfold ds in *. rewrite (parse_number_text fuel m q _ y l' Hq Hne Hds Hy); [unfold zlen; by rewrite length_map|specialize (Hw Hne); lia|by rewrite length_map in Hfd]. }
  assert (forall q, text_at m q (ds ++ alloc ++ directive_tail d ++ rest) -> is_digit (m q) = negb (bool_decide (d_width d = []))) as Hdig.
  { intros q Hq. unfold is_digit. unfold ds in Hq. destruct (d_width d) as [|z zs]; cbn [map app] in Hq.
    - rewrite Ey in Hq. destruct Hq as [-> _]. cbn [bool_decide]. apply andb_false_iff. rewrite !Z.leb_gt. lia.
    - destruct Hq as [-> _]. apply Forall_cons_iff in Hds as [Hz _]. apply andb_true_iff. rewrite !Z.leb_le. lia. }
  unfold scanf_directive.
  assert (maybe_parse_param_index fuel m p (-1) = Done (p, -1)) as ->.
  { unfold maybe_parse_param_index. destruct (is_digit (m p)) eqn:Ed; [|done]. unfold sup in *. destruct (d_suppressed d).
    - cbn [app] in Ht. destruct Ht as [Hm _]. rewrite Hm in Ed. done.
    - cbn [app] in Ht. rewrite (Hdig p Ht) in Ed. apply negb_true_iff, bool_decide_eq_false in Ed. rewrite (Hnum p Ht Ed). cbn [mbind outcome_bind].
      rewrite Ey in Ht. apply text_at_app in Ht as [_ [Hm _]]. unfold zlen. rewrite Hm. by rewrite (proj2 (Z.eqb_neq y 36)) by lia. }
  cbn [mbind outcome_bind]. rewrite El.
  assert ((m p =? 42) = d_suppressed d) as ->.
  { unfold sup in Ht. destruct (d_suppressed d); cbn [app] in Ht; [by destruct Ht as [-> _]|]. unfold ds in Ht. destruct (d_width d) as [|z zs]; cbn [map app] in Ht.
    - rewrite Ey in Ht. destruct Ht as [-> _]. apply Z.eqb_neq. lia.
    - destruct Ht as [-> _]. apply Forall_cons_iff in Hds as [Hz _]. apply Z.eqb_neq. lia. }
  assert ((if d_suppressed d then p + 1 else p) = p + zlen sup) as -> by (unfold sup; destruct (d_suppressed d); unfold zlen; cbn [length]; lia).
  apply text_at_app in Ht as [_ Ht]. fold (zlen sup) in Ht. set (p1 := p + zlen sup) in *. rewrite (Hdig p1 Ht).
  assert ((if negb (bool_decide (d_width d = [])) then '(w, p2) ← parse_number fuel m p1; mret (if w <=? 0 then None else Some (w, p2)) else mret (Some (0, p1)))
    = Done (Some (digits_value (d_width d), p1 + zlen ds))) as ->.
  { destruct (decide (d_width d = [])) as [E|Hne].
    - rewrite bool_decide_eq_true_2 by done. cbn [negb]. unfold ds, zlen. rewrite E. cbn. by rewrite Z.add_0_r.
    - rewrite bool_decide_eq_false_2 by done. cbn [negb]. rewrite (Hnum p1 Ht Hne). cbn [mbind outcome_bind]. specialize (Hw Hne). by rewrite (proj2 (Z.leb_gt _ _)) by lia. }
  cbn [mbind outcome_bind]. apply text_at_app in Ht as [_ Ht]. fold (zlen ds) in Ht. set (p2 := p1 + zlen ds) in *.
  assert ((m p2 =? 109) = d_allocate d) as ->.
  { unfold alloc in Ht. destruct (d_allocate d); cbn [app] in Ht; [by destruct Ht as [-> _]|]. rewrite Ex in Ht. destruct Ht as [-> _]. by apply Z.eqb_neq. }
  assert ((if d_allocate d then p2 + 1 else p2) = p2 + zlen alloc) as -> by (unfold alloc; destruct (d_allocate d); unfold zlen; cbn [length]; lia).
  apply text_at_app in Ht as [_ Ht]. fold (zlen alloc) in Ht. set (p3 := p2 + zlen alloc) in *.
  destruct (directive_tail_parse allow d p3 rest Hok Ht Hft) as (q & -> & Hq & Hset). rewrite Hq, Hset. cbn [mbind outcome_bind].
  rewrite (no_gnu allow d Hok). cbn [mbind outcome_bind mret outcome_ret]. rewrite !Z.add_assoc. reflexivity.
Qed.

(** *** The next directive of a format *)

Lemma skip_text n allow p l rest : text_at m p (l ++ rest) -> 37 ∉ l -> 0 ∉ l -> (length l <= n)%nat ->
  scanf_parse_next fuel m n allow p = scanf_parse_next fuel m (n - length l) allow (p + zlen l).
Proof.
  revert n p. induction l as [|x l IH]; intros n p Ht H37 H0 Hn; [cbn [length]; rewrite Nat.sub_0_r; unfold zlen; cbn; by rewrite Z.add_0_r|].
  destruct n as [|n]; [cbn in Hn; lia|]. cbn [app] in Ht. destruct Ht as [Hx Ht]. cbn [scanf_parse_next]. rewrite Hx, (proj2 (Z.eqb_neq x 0)) by set_solver.
  rewrite (proj2 (Z.eqb_neq x 37)) by set_solver. cbn [negb]. rewrite IH; [|done|set_solver|set_solver|cbn [length] in Hn; lia].
  f_equal; unfold zlen; cbn [length]; lia.
Qed.

Definition directives (l : list item) : list directive := omap (fun i => match i with Dir d => Some d | _ => None end) l.

(** The next directive, or the end of the string. *)
Lemma scanf_parse_next_items n allow p l : text_at m p (format_text l ++ [0]) -> Forall (item_ok allow) l ->
  (length (format_text l) < n)%nat -> (length (format_text l) < fuel)%nat ->
  (directives l = [] /\ exists q, scanf_parse_next fuel m n allow p = Done (Some (q, no_directive)) /\ m q = 0) \/
  (exists d l' q, directives l = d :: directives l' /\ Forall (item_ok allow) l' /\ directive_ok allow d /\ (S (length (format_text l')) < length (format_text l))%nat /\ q = p + zlen (format_text l) - zlen (format_text l') /\
    scanf_parse_next fuel m n allow p = Done (Some (q, directive_of d)) /\ text_at m q (format_text l' ++ [0])).
Proof.
  intros Ht Hok Hn Hf. revert n p Ht Hn Hf. induction Hok as [|i l Hi Hok IH]; intros n p Ht Hn Hf.
  - left. split; [done|]. exists p. destruct n as [|n]; [cbn in Hn; lia|]. cbn in Ht. destruct Ht as [Hz _]. cbn [scanf_parse_next]. by rewrite Hz.
  - change (format_text (i :: l)) with (item_text i ++ format_text l) in *. rewrite <- app_assoc in Ht. rewrite length_app in Hn, Hf.
    destruct i as [t| |d]; cbn [item_text item_ok directives omap list_omap] in *.
    + destruct Hi as [H37 H0]. rewrite (skip_text n allow p t _ Ht H37 H0) by lia. apply text_at_app in Ht as [_ Ht]. fold (zlen t) in Ht.
      destruct (IH (n - length t)%nat (p + zlen t) Ht ltac:(lia) ltac:(lia)) as [?|(d & l' & q & E1 & E2 & E3 & E4 & E4' & E5)]; [by left|right].
      exists d, l', q. do 3 (split; [done|]). split; [rewrite length_app; lia|]. split; [unfold zlen in *; rewrite length_app; lia|done].
    + cbn [length] in Hn, Hf. destruct n as [|n]; [lia|]. cbn [scanf_parse_next]. cbn [app text_at] in Ht. destruct Ht as (H1 & H2 & Ht).
      rewrite H1. cbn [Z.eqb Pos.eqb negb]. rewrite H2. cbn [Z.eqb Pos.eqb]. rewrite <- Z.add_assoc in Ht. cbn [Z.add Pos.add] in Ht.
      destruct (IH n (p + 2) Ht ltac:(lia) ltac:(lia)) as [?|(d & l' & q & E1 & E2 & E3 & E4 & E4' & E5)]; [by left|right].
      exists d, l', q. do 3 (split; [done|]). split; [cbn [length app]; lia|]. split; [unfold zlen in *; cbn [length app]; lia|done].
    + right. cbn [length] in Hn, Hf. destruct n as [|n]; [lia|]. cbn [app] in Ht. destruct Ht as [H1 Ht].
      exists d, l, (p + 1 + zlen (directive_text d)). split; [done|]. split; [done|]. split; [done|].
      destruct (tail_starts d (do_conv _ _ Hi)) as (x & r & Ex & Hx & _).
      assert (m (p + 1) =? 37 = false /\ m (p + 1) =? 0 = false) as [H37 H0].
      { destruct Hi as [Hds _ _ _ _]. revert Ht. unfold directive_text. destruct (d_suppressed d); [cbn [app]; by intros [-> _]|].
        destruct (d_width d) as [|z zs]; cbn [map app].
        - destruct (d_allocate d); [cbn [app]; by intros [-> _]|]. rewrite Ex. cbn [app]. intros [-> _]. rewrite !Z.eqb_neq. lia.
        - intros [-> _]. apply Forall_cons_iff in Hds as [Hz _]. rewrite !Z.eqb_neq. lia. }
      split.
      { rewrite length_app. cbn [length]. unfold directive_text, directive_tail. rewrite !length_app. cbn [length]. lia. }
      split; [unfold zlen; rewrite length_app; cbn [length]; lia|].
      cbn [scanf_parse_next]. rewrite H1, H37, H0. cbn [Z.eqb Pos.eqb negb]. split.
      * apply (scanf_directive_text allow d (p + 1) (format_text l ++ [0])); [done|done|lia].
      * apply text_at_app in Ht as [_ Ht]. done.
Qed.
End directives.

(** ** What the conversions store *)

(** What a conversion stores in the object its argument points to, in the types of the C
    standard: bytes, a string with its terminator, or a wide string without a width, which
    the code leaves out. *)
Inductive store_size := Bytes (n : Z) | Str | Nothing.

Definition integer_size (l : length_modifier) : Z := match l with Lhh => 1 | Lh => 2 | LNone => 4 | _ => 8 end.
Definition float_size (l : length_modifier) : option Z := match l with LNone => Some 4 | Ll => Some 8 | Lll | LL | Lq => Some 16 | _ => None end.
Definition character_size (conv : Z) (l : length_modifier) : option Z :=
  if bool_decide (conv ∈ chars "CS") then Some 4 else match l with LNone => Some 1 | Ll => Some 4 | _ => None end.

Definition directive_store (d : directive) : option store_size :=
  let conv := d_conv d in
  if d_allocate d then (if bool_decide (conv ∈ chars "cCsS[") then Some (Bytes 8) else None)
  else if bool_decide (conv ∈ chars "bBdiouxXn") then Some (Bytes (integer_size (d_length d)))
  else if bool_decide (conv ∈ chars "aAeEfFgG") then Bytes <$> float_size (d_length d)
  else if conv =? 112 then match d_length d with LNone => Some (Bytes 8) | _ => None end
  else
    k ← character_size conv (d_length d);
    let string := bool_decide (conv ∈ chars "sS[") in
    Some (match d_width d with
          | [] => if string then (if k =? 1 then Str else Nothing) else Bytes k
          | _ => Bytes ((digits_value (d_width d) + if string then 1 else 0) * k)
          end).

Definition store_code (s : option store_size) : Z := match s with Some (Bytes n) => n | Some Str => FSS_STRLEN | Some Nothing => FSS_WCSLEN | None => FSS_INVALID end.

Lemma directive_store_bytes allow d n : directive_ok allow d -> directive_store d = Some (Bytes n) -> 0 < n < 2 ^ 31.
Proof.
  intros [Hds Hw _ _ _]. pose proof (digits_value_nonneg (d_width d) 0 Hds ltac:(lia)) as H0. fold (digits_value (d_width d)) in H0. unfold directive_store.
  destruct (d_allocate d); [case_bool_decide; [|done]; intros [= <-]; lia|].
  case_bool_decide; [unfold integer_size; destruct (d_length d); intros [= <-]; lia|].
  case_bool_decide; [destruct (d_length d); cbn; intros [= <-]; lia|].
  destruct (d_conv d =? 112); [destruct (d_length d); intros [= <-]; lia|].
  destruct (character_size (d_conv d) (d_length d)) as [k|] eqn:Ek; [|done]. assert (k = 1 \/ k = 4) as Hk.
  { unfold character_size in Ek. destruct (bool_decide _); [|destruct (d_length d)]; simplify_eq; auto. }
  cbn [mbind option_bind]. destruct (d_width d) as [|z zs]; [|specialize (Hw ltac:(done))].
  - destruct (bool_decide _); [by destruct (k =? 1)|]. intros [= <-]. lia.
  - intros [= <-]. destruct (bool_decide _), Hk as [-> | ->]; lia.
Qed.

Lemma scanf_size allow d : directive_ok allow d -> scanf_get_value_size (directive_of d) = store_code (directive_store d).
Proof.
  intros Hok. pose proof Hok as [Hds Hw Hc _ _]. unfold scanf_get_value_size, directive_of, directive_store. cbn [convSpecifier allocate maybeGnuMalloc lengthModifier fieldWidth].
  assert (d_width d = [] -> digits_value (d_width d) = 0) as Hnil by by intros ->.
  assert (digits_value (d_width d) =? 0 = bool_decide (d_width d = [])) as Ew.
  { destruct (decide (d_width d = [])) as [E|Hne]; [rewrite E; done|]. rewrite bool_decide_eq_false_2 by done. apply Z.eqb_neq. specialize (Hw Hne). lia. }
  assert (forall b : bool, d_width d <> [] -> u32 (digits_value (d_width d) + (if b then 1 else 0)) = digits_value (d_width d) + (if b then 1 else 0)) as Hu.
  { intros b Hne. specialize (Hw Hne). unfold u32. apply Z.mod_small. destruct b; lia. }
  assert (forall (b : bool) k, d_width d <> [] -> k = 1 \/ k = 4 -> s32 (u32 ((digits_value (d_width d) + (if b then 1 else 0)) * k)) = (digits_value (d_width d) + (if b then 1 else 0)) * k) as Hs.
  { intros b k Hne Hk. specialize (Hw Hne). unfold u32. rewrite Z.mod_small by (destruct b, Hk as [-> | ->]; lia). apply s32_id. destruct b, Hk as [-> | ->]; lia. }
  rewrite Ew. revert Hnil Hu Hs. generalize (digits_value (d_width d)). intros w Hnil Hu Hs. revert Hc. clear Hok Hds Hw Ew.
  generalize (d_conv d). intros x Hx. unfold conversions in Hx. cbn in Hx.
  destruct (decide (d_width d = [])) as [E|Hne].
  - rewrite E. repeat (apply elem_of_cons in Hx as [->|Hx]; [by destruct (d_allocate d), (d_length d)|]). by apply elem_of_nil in Hx.
  - rewrite bool_decide_eq_false_2 by done. destruct (d_width d) as [|z zs]; [done|].
    repeat (apply elem_of_cons in Hx as [->|Hx]; [destruct (d_allocate d), (d_length d); try done;
      cbv -[Z.mul Z.add s32 u32]; first [rewrite (Hu true), (Hs true) by (done || auto) | rewrite (Hu false), (Hs false) by (done || auto)]; done|]).
    by apply elem_of_nil in Hx.
Qed.

(** ** The outputs of a call *)

(** A wide string of [n] characters. *)
Definition w_string (m : mem) (s n : Z) : Prop := 0 <= n /\ wload m s n = 0 /\ forall i, 0 <= i < n -> wload m s i <> 0.

Section outputs.
Context (fuel : nat) (m : mem).

(** What an allocating conversion stores in the buffer it has made.  The length modifier is
    not looked at: the wide buffer of [%mls] is taken for a narrow one. *)
Inductive allocated (conv buf : Z) : Z -> Prop :=
| alloc_char : conv = 99 -> allocated conv buf 1
| alloc_wchar : conv = 67 -> allocated conv buf 4
| alloc_wstring n : conv = 83 -> w_string m buf n -> n < Z.of_nat fuel -> allocated conv buf ((n + 1) * 4)
| alloc_string n : conv = 115 \/ conv = 91 -> c_string m buf n -> n < Z.of_nat fuel -> allocated conv buf (n + 1).

(** The buffers, with their sizes, that [k] conversions of these directives store into; the
    position [%n] is not counted, and an invalid directive ends the scan. *)
Inductive outputs : Z -> list directive -> list Z -> list (Z * Z) -> Prop :=
| out_end k args : outputs k [] args []
| out_suppressed k d ds args o : d_suppressed d = true -> outputs k ds args o -> outputs k (d :: ds) args o
| out_invalid k d ds args : d_suppressed d = false -> directive_store d = None -> outputs k (d :: ds) args []
| out_stop d ds a args s : d_suppressed d = false -> directive_store d = Some s -> d_conv d <> 110 -> outputs 0 (d :: ds) (a :: args) []
| out_store k d ds a args s o o' : d_suppressed d = false -> directive_store d = Some s -> (d_conv d <> 110 -> 0 < k) ->
    stores d s a o -> outputs (if d_conv d =? 110 then k else k - 1) ds args o' -> outputs k (d :: ds) (a :: args) (o ++ o')
with stores : directive -> store_size -> Z -> list (Z * Z) -> Prop :=
| st_bytes d n a : d_allocate d = false -> stores d (Bytes n) a [(a, n)]
| st_string d n a : d_allocate d = false -> c_string m a n -> n < Z.of_nat fuel -> stores d Str a [(a, n + 1)]
| st_nothing d a : d_allocate d = false -> stores d Nothing a []
| st_null d n a : d_allocate d = true -> load64 m a = 0 -> stores d (Bytes n) a [(a, n)]
| st_alloc d n a k : d_allocate d = true -> load64 m a <> 0 -> allocated (d_conv d) (load64 m a) k -> stores d (Bytes n) a [(a, n); (load64 m a, k)].
End outputs.

Definition covered (o : list (Z * Z)) (b : Z) : bool := existsb (fun '(a, k) => in_range a k b) o.

(** Buffers in the program's memory, of a size an [int] can hold. *)
Definition buffers_ok (P : Platform) (o : list (Z * Z)) : Prop := Forall (fun '(a, k) => app_buffer P a k /\ 0 <= k < 2 ^ 31) o.

Section marks.
Context (c : Ctx) `{!ShadowLayout (cP c)} (Henv : env_ok (cEnv c)).

Definition same_app (m1 m2 : mem) : Prop := forall a, MEM_IS_APP (cP c) a = true -> m2 a = m1 a.

(** [m'] is the memory of [r] with the shadow of the buffers clean. *)
Definition marks (r : Rt) (o : list (Z * Z)) (m' : mem) : Prop :=
  refines (cP c) (rt_mem r) m' (fun b => (rt_mem r b, if covered o b then kCleanByte c else rt_mem r (MEM_TO_SHADOW (cP c) b))).

Lemma marks_same r o m' : marks r o m' -> same_app (rt_mem r) m'.
Proof. intros Hm a Ha. specialize (Hm a Ha). by injection Hm. Qed.

Lemma marks_nil r : marks r [] (rt_mem r).
Proof. by intros b Hb. Qed.

Lemma marks_app r o1 o2 m1 m2 : marks r o1 m1 -> marks (set_mem m1 r) o2 m2 -> marks r (o1 ++ o2) m2.
Proof.
  intros H1 H2 b Hb. rewrite (H2 b Hb). cbn [rt_mem set_mem]. specialize (H1 b Hb). unfold view in H1. injection H1 as E1 E2. rewrite E1, E2.
  unfold covered. rewrite existsb_app. f_equal. by destruct (existsb _ o1), (existsb _ o2).
Qed.

Lemma write_range_marks a n r : app_buffer (cP c) a n -> 0 <= n < 2 ^ 31 ->
  exists m', WRITE_RANGE c a n r = Done (tt, set_mem m' r) /\ marks r [(a, n)] m'.
Proof.
  intros Hb Hn. unfold WRITE_RANGE. rewrite u64_small by lia. destruct (unpoison_total c Henv a n r Hb ltac:(lia)) as (m' & -> & Href).
  exists m'. split; [done|]. intros b Happ. rewrite (Href b Happ). unfold covered. cbn [existsb]. rewrite orb_false_r.
  destruct (in_range a n b) eqn:E; [|done]. apply in_range_true in E. specialize (Hb 0). rewrite Z.add_0_r in Hb. by rewrite Hb by lia.
Qed.

Lemma text_at_same m1 m2 p l : text_at m1 p l -> app_buffer (cP c) p (zlen l) -> same_app m1 m2 -> text_at m2 p l.
Proof.
  intros Ht Hb Hs. revert p Ht Hb. induction l as [|x l IH]; intros p Ht Hb; [done|]. destruct Ht as [Hx Ht]. split.
  - rewrite Hs; [done|]. specialize (Hb 0). rewrite Z.add_0_r in Hb. apply Hb. unfold zlen. cbn [length]. lia.
  - apply IH; [done|]. intros j Hj. rewrite <- Z.add_assoc. apply Hb. unfold zlen in *. cbn [length]. lia.
Qed.

Lemma c_string_same m1 m2 s n : c_string m1 s n -> app_buffer (cP c) s (n + 1) -> same_app m1 m2 -> c_string m2 s n.
Proof.
  intros (H0 & Hz & Hnz) Hb Hs. split; [done|]. split; [rewrite Hs; [done|apply Hb; lia]|]. intros i Hi. rewrite Hs; [by apply Hnz|apply Hb; lia].
Qed.

Lemma load_same k m1 m2 a : app_buffer (cP c) a k -> same_app m1 m2 -> load k m2 a = load k m1 a.
Proof. intros Hb Hs. apply load_ext. intros i Hi. by apply Hs, Hb. Qed.

Lemma wload_same m1 m2 s n i : app_buffer (cP c) s ((n + 1) * 4) -> 0 <= i <= n -> same_app m1 m2 -> wload m2 s i = wload m1 s i.
Proof. intros Hb Hi. apply (load_same 4). intros j Hj. rewrite <- Z.add_assoc. apply Hb. lia. Qed.

Lemma allocated_size_spec m0 conv buf k r : allocated (cFuel c) m0 conv buf k -> app_buffer (cP c) buf k -> 0 <= k < 2 ^ 31 -> same_app m0 (rt_mem r) ->
  allocated_size c conv buf r = Done (k, r).
Proof.
  intros Ha Hb Hk Hs. unfold allocated_size. destruct Ha as [-> | -> |n -> (H0 & Hz & Hnz) Hf|n Hconv Hstr Hf]; [done|done| |].
  - cbn [Z.eqb Pos.eqb]. unfold mbind, M_bind, wcslen_M. assert (internal_wcslen (cFuel c) (rt_mem r) buf = Some n) as ->.
    { apply scan_total; [lia| |].
      - by rewrite (wload_same m0 _ buf n) by (done || lia); apply Z.eqb_eq.
      - intros j Hj. rewrite (wload_same m0 _ buf n) by (done || lia). by apply Z.eqb_neq, Hnz. }
    cbn [mret M_ret]. rewrite s32_id by lia. done.
  - assert (conv =? 99 = false /\ conv =? 67 = false /\ conv =? 83 = false) as (-> & -> & ->) by (rewrite !Z.eqb_neq; lia).
    rewrite (strlen_M_string c buf n); [cbn [mret M_ret]; by rewrite s32_id by lia|by eapply c_string_same|done].
Qed.
End marks.

Section loop.
Context (c : Ctx) `{!ShadowLayout (cP c)} (Henv : env_ok (cEnv c)) (m0 : mem).

Lemma set_mem_twice m1 m2 r : set_mem m2 (set_mem m1 r) = set_mem m2 r.
Proof. by destruct r. Qed.

(** One conversion. *)
Lemma scanf_write_marks allow d s a o r : directive_ok allow d -> directive_store d = Some s -> stores (cFuel c) m0 d s a o -> buffers_ok (cP c) o ->
  same_app c m0 (rt_mem r) -> exists m', scanf_write c (directive_of d) a (store_code (Some s)) r = Done (tt, set_mem m' r) /\ marks c r o m'.
Proof.
  intros Hok Es Hst Hb Hs. unfold scanf_write. cbn [allocate convSpecifier directive_of].
  assert (forall n, s = Bytes n -> (n =? FSS_STRLEN) = false /\ (n =? FSS_WCSLEN) = false /\ 0 < n < 2 ^ 31) as Hn.
  { intros n ->. pose proof (directive_store_bytes allow d n Hok Es). unfold FSS_STRLEN, FSS_WCSLEN. rewrite !Z.eqb_neq. lia. }
  destruct Hst as [d n a Ha|d n a Ha Hstr Hf|d a Ha|d n a Ha Hnull|d n a k Ha Hbuf Hal]; rewrite Ha; cbn [store_code when].
  - destruct (Hn n eq_refl) as (-> & -> & _). apply Forall_cons_iff in Hb as [[Hb1 Hb2] _].
    destruct (write_range_marks c Henv a n r Hb1 Hb2) as (m' & E & Hm). exists m'. split; [|done]. unfold mbind, M_bind at 1. cbn [mret M_ret]. unfold M_bind. by rewrite E.
  - apply Forall_cons_iff in Hb as [[Hb1 Hb2] _]. destruct (write_range_marks c Henv a (n + 1) r Hb1 Hb2) as (m' & E & Hm). exists m'. split; [|done].
    cbn [Z.eqb Pos.eqb FSS_STRLEN]. unfold mbind at 1, M_bind at 1. rewrite (strlen_M_string c a n); [|by eapply (c_string_same c)|done].
    cbn [mret M_ret]. rewrite s32_id by (destruct Hstr; lia). unfold mbind, M_bind. by rewrite E.
  - cbn [Z.eqb Pos.eqb FSS_STRLEN FSS_WCSLEN]. assert (app_buffer (cP c) a 0) as H0 by (intros j Hj; lia).
    destruct (write_range_marks c Henv a 0 r H0 ltac:(lia)) as (m' & E & Hm). exists m'. split; [unfold mbind, M_bind; cbn [mret M_ret]; by rewrite E|].
    intros b Happ. rewrite (Hm b Happ). cbn [covered existsb]. rewrite orb_false_r. by rewrite (proj2 (in_range_false a 0 b)) by lia.
  - destruct (Hn n eq_refl) as (-> & -> & _). apply Forall_cons_iff in Hb as [[Hb1 Hb2] _].
    destruct (write_range_marks c Henv a n r Hb1 Hb2) as (m' & E & Hm). exists m'. split; [|done].
    unfold mbind, M_bind. cbn [mret M_ret]. rewrite E. unfold get. cbn [rt_mem set_mem].
    assert (n = 8) as ->. { unfold directive_store in Es. rewrite Ha in Es. case_bool_decide; by simplify_eq. }
    assert (load64 m' a = 0) as ->; [|done]. rewrite <- Hnull. apply (load_same c 8); [done|]. intros x Hx. rewrite <- (Hs x Hx). by apply (marks_same c r [(a, 8)] m' Hm).
  - destruct (Hn n eq_refl) as (-> & -> & _). apply Forall_cons_iff in Hb as [[Hb1 Hb2] Hb]. apply Forall_cons_iff in Hb as [[Hb3 Hb4] _].
    destruct (write_range_marks c Henv a n r Hb1 Hb2) as (m1 & E & Hm). pose proof (marks_same c r [(a, n)] m1 Hm) as Hs1.
    assert (same_app c m0 m1) as Hs01 by (intros x Hx; rewrite <- (Hs x Hx); by apply Hs1).
    assert (n = 8) as ->. { unfold directive_store in Es. rewrite Ha in Es. case_bool_decide; by simplify_eq. }
    assert (load64 m1 a = load64 m0 a) as El by by apply (load_same c 8).
    destruct (write_range_marks c Henv (load64 m0 a) k (set_mem m1 r) Hb3 Hb4) as (m2 & E2 & Hm2). exists m2. split.
    + unfold mbind, M_bind. cbn [mret M_ret]. rewrite E. unfold get. cbn [rt_mem set_mem]. rewrite El, (proj2 (Z.eqb_neq _ _) Hbuf). cbn [negb when].
      unfold M_bind. rewrite (allocated_size_spec c m0 _ _ k (set_mem m1 r) Hal Hb3 Hb4 Hs01), E2. by rewrite set_mem_twice.
    + change [(a, 8); (load64 m0 a, k)] with ([(a, 8)] ++ [(load64 m0 a, k)]). by eapply (marks_app c).
Qed.

Lemma M_bind_done {A B} (f : M A) (k : A -> M B) r x r' : f r = Done (x, r') -> (y ← f; k y) r = k x r'.
Proof. intros E. unfold mbind, M_bind. by rewrite E. Qed.

Lemma scanf_loop_marks allow n k p args o r l : text_at m0 p (format_text l ++ [0]) -> app_buffer (cP c) p (zlen (format_text l) + 1) ->
  Forall (item_ok allow) l -> (length (format_text l) < n)%nat -> (length (format_text l) < cFuel c)%nat -> 0 <= k ->
  outputs (cFuel c) m0 k (directives l) args o -> buffers_ok (cP c) o -> same_app c m0 (rt_mem r) ->
  exists m', scanf_loop c n allow k p args r = Done (tt, set_mem m' r) /\ marks c r o m'.
Proof.
  revert k p args o r l. induction n as [|n IH]; intros k p args o r l Ht Happ Hok Hn Hf Hk Ho Hb Hs; [lia|].
  assert (forall q j, zlen j <= zlen (format_text l) + 1 -> app_buffer (cP c) q (zlen j) -> text_at m0 q j -> text_at (rt_mem r) q j) as Hsame by (intros; by eapply (text_at_same c)).
  assert (text_at (rt_mem r) p (format_text l ++ [0])) as Ht'.
  { apply Hsame; [unfold zlen; rewrite length_app; cbn [length]; lia| |done]. intros j Hj. apply Happ. unfold zlen in *. rewrite length_app in Hj. cbn [length] in Hj. lia. }
  assert (r = set_mem (rt_mem r) r) as Er by by destruct r.
  destruct (scanf_parse_next_items (cFuel c) (rt_mem r) (cFuel c) allow p l Ht' Hok Hf Hf) as [(Ed & q & Ep & Hq)|(d & l' & q & Ed & Hok' & Hd & Hlen & Eq & Ep & Htq)]; rewrite Ed in Ho;
    cbn [scanf_loop]; erewrite M_bind_done by done; cbv beta.
  { assert (o = []) as -> by by inversion Ho. exists (rt_mem r). split; [|apply marks_nil]. destruct (rt_mem r p =? 0); [by rewrite <- Er|].
    unfold lift. rewrite Ep. erewrite M_bind_done by done. cbn [convSpecifier no_directive Z.eqb]. unfold CHECK. rewrite Hq. by rewrite <- Er. }
  assert (rt_mem r p =? 0 = false) as ->.
  { apply Z.eqb_neq. intros Hz. destruct (cFuel c) as [|f]; [lia|]. cbn [scanf_parse_next] in Ep. rewrite Hz in Ep. cbn [Z.eqb] in Ep.
    pose proof (conversion_char _ (do_conv _ _ Hd)) as [Hc _]. apply (f_equal (fun x => match x with Done (Some (_, e)) => convSpecifier e | _ => 0 end)) in Ep. cbn in Ep. lia. }
  unfold lift. rewrite Ep. erewrite M_bind_done by done. cbn [convSpecifier argIdx suppressed directive_of].
  pose proof (conversion_char _ (do_conv _ _ Hd)) as [Hc _]. rewrite (proj2 (Z.eqb_neq (d_conv d) 0)) by lia. cbn [Z.eqb Pos.eqb negb].
  assert (app_buffer (cP c) q (zlen (format_text l') + 1)) as Happ'.
  { intros j Hj. replace (q + j) with (p + (q - p + j)) by lia. apply Happ. unfold zlen in *. lia. }
  assert (text_at m0 q (format_text l' ++ [0])) as Htq0.
  { apply (text_at_same c (rt_mem r)); [done| |intros x Hx; by rewrite (Hs x Hx)]. intros j Hj. apply Happ'. unfold zlen in *. rewrite length_app in Hj. cbn [length] in Hj. lia. }
  assert (forall k args o r, 0 <= k -> outputs (cFuel c) m0 k (directives l') args o -> buffers_ok (cP c) o -> same_app c m0 (rt_mem r) ->
    exists m', scanf_loop c n allow k q args r = Done (tt, set_mem m' r) /\ marks c r o m') as Hnext.
  { intros k1 args1 o1 r1 Hk1 Ho1 Hb1 Hs1. apply (IH k1 q args1 o1 r1 l'); try done; lia. }
  fold (directive_of d). rewrite (scanf_size allow d Hd).
  inversion Ho as [|? ? ds ? ? Hsup Ho'|? ? ds ? Hsup Hst|? ds a ? s Hsup Hst Hconv|? ? ds a ? s o1 o2 Hsup Hst Hpos Hstore Ho']; subst; rewrite Hsup.
  - by apply Hnext.
  - exists (rt_mem r). rewrite Hst. cbn [store_code FSS_INVALID Z.eqb]. split; [by rewrite <- Er|apply marks_nil].
  - exists (rt_mem r). assert (store_code (directive_store d) =? FSS_INVALID = false) as ->.
    { rewrite Hst. destruct s as [b| |]; [|done..]. cbn. pose proof (directive_store_bytes allow d b Hd Hst). apply Z.eqb_neq. unfold FSS_INVALID. lia. }
    rewrite (proj2 (Z.eqb_neq _ _) Hconv). cbn [negb Z.sub Z.add Z.opp Z.ltb Z.compare]. split; [by rewrite <- Er|apply marks_nil].
  - assert (store_code (directive_store d) =? FSS_INVALID = false) as ->.
    { rewrite Hst. destruct s as [b| |]; [|done..]. cbn. pose proof (directive_store_bytes allow d b Hd Hst). apply Z.eqb_neq. unfold FSS_INVALID. lia. }
    apply list.Forall_app in Hb as [Hb1 Hb2]. destruct (scanf_write_marks allow d s a o1 r Hd Hst Hstore Hb1 Hs) as (m1 & E1 & Hm1).
    assert ((if negb (d_conv d =? 110) then k - 1 else k) = (if d_conv d =? 110 then k else k - 1)) as -> by by destruct (d_conv d =? 110).
    assert (0 <= (if d_conv d =? 110 then k else k - 1)) as Hk' by (destruct (Z.eqb_spec (d_conv d) 110) as [|Hne]; [done|specialize (Hpos Hne); lia]).
    rewrite (proj2 (Z.ltb_ge _ _) Hk'). rewrite Hst. rewrite (M_bind_done _ _ _ _ _ E1).
    destruct (Hnext _ _ _ (set_mem m1 r) Hk' Ho' Hb2) as (m2 & E2 & Hm2).
    { intros x Hx. rewrite <- (Hs x Hx). by apply (marks_same c r o1 m1 Hm1). }
    exists m2. split; [by rewrite E2, set_mem_twice|]. by eapply (marks_app c).
Qed.
End loop.

(** ** The interceptors *)

Section interceptor.
Context (c : Ctx) `{!ShadowLayout (cP c)} (Henv : env_ok (cEnv c)) (errno_location : Z).

(** The C library answers [res] and leaves the program's memory as [m1] has it, whatever the
    shadow is, and writes no more than the buffers [o]. *)
Definition library_call (real : CLibCall) (r : Rt) (res : Z) (m1 : mem) (o : list (Z * Z)) : Prop :=
  forall me, same_app c (rt_mem r) me -> exists m1', real me = (res, m1') /\ same_app c m1 m1' /\ forall b, covered o b = false -> m1' b = me b.

(** The call answers [res] with the bytes of [m1] in the buffers [o], which it marks, and
    changes nothing else. *)
Definition marks_call (res : Z) (m1 : mem) (o : list (Z * Z)) (call : M Z) (r : Rt) : Prop :=
  exists m', call r = Done (res, set_mem m' r) /\
    refines (cP c) (rt_mem r) m' (fun b => if covered o b then (m1 b, kCleanByte c) else view (cP c) (rt_mem r) b).

Lemma covered_app o b : buffers_ok (cP c) o -> covered o b = true -> MEM_IS_APP (cP c) b = true.
Proof.
  intros Hb (x & Hx & Hin)%existsb_exists. pose proof (proj1 (List.Forall_forall _ _) Hb x Hx) as Hbuf. destruct x as [a k]. destruct Hbuf as [Hbuf _].
  apply in_range_true in Hin. replace b with (a + (b - a)) by lia. apply Hbuf. lia.
Qed.

Lemma shadow_not_covered o b : buffers_ok (cP c) o -> MEM_IS_APP (cP c) b = true -> covered o (MEM_TO_SHADOW (cP c) b) = false.
Proof.
  intros Hb Happ. destruct (covered o (MEM_TO_SHADOW (cP c) b)) eqn:Es; [|done]. apply covered_app in Es; [|done]. by rewrite sl_shadow_not_app in Es.
Qed.

Lemma entered_marks real (after : Z -> M unit) res m1 o r : runtime_up r -> library_call real r res m1 ((errno_location, 4) :: o) ->
  buffers_ok (cP c) ((errno_location, 4) :: o) ->
  (forall r1, same_app c m1 (rt_mem r1) -> exists m', after res r1 = Done (tt, set_mem m' r1) /\ marks c r1 o m') ->
  marks_call res m1 ((errno_location, 4) :: o) (COMMON_INTERCEPTOR_ENTER c errno_location real (x ← REAL real; after x;; mret x)) r.
Proof.
  intros Hup Hreal Hb Ha. unfold marks_call, COMMON_INTERCEPTOR_ENTER, or_real. erewrite M_bind_done by done. cbv beta. pose proof Hup as (_ & -> & _).
  rewrite ENSURE_up by done. unfold InterceptorScope. erewrite M_bind_done by done. cbv beta.
  set (r1 := set_scope _ r). assert (rt_mem r1 = rt_mem r) as E1 by done. pose proof Hb as [[He1 He2] Ho]%Forall_cons_iff.
  destruct (write_range_marks c Henv errno_location 4 r1 He1 He2) as (me & Ee & Hme). unfold WRITE_RANGE in Ee. rewrite u64_small in Ee by lia.
  pose proof (marks_same c r1 _ me Hme) as Hse. destruct (Hreal me Hse) as (m1' & Er & Hs1 & Hw).
  destruct (Ha (set_mem m1' (set_mem me r1)) Hs1) as (m' & Em & Hm). exists m'. split.
  - unfold mbind, M_bind, REAL at 1. rewrite Ee. cbn [rt_mem set_mem]. rewrite Er, Em.
    unfold modify, mret, M_ret. do 2 f_equal. destruct r. unfold r1, set_mem, set_scope. cbn. f_equal. lia.
  - intros b Happ. rewrite (Hm b Happ). cbn [rt_mem set_mem]. rewrite (Hw _ (shadow_not_covered _ b Hb Happ)), (Hs1 b Happ).
    pose proof (Hme b Happ) as Hv. unfold view in Hv. injection Hv as _ Hv2. rewrite Hv2. change (covered [(errno_location, 4)] b) with (in_range errno_location 4 b || false).
    change (covered ((errno_location, 4) :: o) b) with (in_range errno_location 4 b || covered o b). rewrite orb_false_r.
    destruct (covered o b) eqn:Ec; [by rewrite orb_true_r|]. rewrite orb_false_r. destruct (in_range errno_location 4 b) eqn:Ein; [done|].
    unfold view. f_equal. rewrite <- (Hs1 b Happ), Hw, (Hse b Happ); [done|]. change (in_range errno_location 4 b || covered o b = false). by rewrite Ein, Ec.
Qed.

Lemma VSCANF_marks allow real format ap o r l res m1 : runtime_up r -> library_call real r res m1 ((errno_location, 4) :: o) -> 0 < res ->
  text_at m1 format (format_text l ++ [0]) -> app_buffer (cP c) format (zlen (format_text l) + 1) ->
  Forall (item_ok allow) l -> (length (format_text l) < cFuel c)%nat ->
  outputs (cFuel c) m1 res (directives l) ap o -> buffers_ok (cP c) ((errno_location, 4) :: o) ->
  marks_call res m1 ((errno_location, 4) :: o) (VSCANF_INTERCEPTOR_IMPL c errno_location allow real format ap) r.
Proof.
  intros Hup Hreal Hn Ht Happ Hok Hf Ho Hb. unfold VSCANF_INTERCEPTOR_IMPL.
  apply (entered_marks real (fun res => when (0 <? res) (scanf_common c res allow format ap)) res m1); [done|done|done|].
  intros r1 E1. cbv beta. rewrite (proj2 (Z.ltb_lt _ _) Hn). cbn [when]. unfold scanf_common, CHECK. rewrite (proj2 (Z.ltb_lt _ _) Hn). erewrite M_bind_done by done. cbv beta.
  pose proof Hb as [_ Hb']%Forall_cons_iff. eapply (scanf_loop_marks c Henv m1); try done. lia.
Qed.

(** A call that converts nothing marks [errno] only. *)
Lemma VSCANF_fails allow real format ap r res m1 : runtime_up r -> library_call real r res m1 [(errno_location, 4)] -> res <= 0 ->
  buffers_ok (cP c) [(errno_location, 4)] -> marks_call res m1 [(errno_location, 4)] (VSCANF_INTERCEPTOR_IMPL c errno_location allow real format ap) r.
Proof.
  intros Hup Hreal Hn Hb. apply (entered_marks real (fun res => when (0 <? res) (scanf_common c res allow format ap)) res m1); [done|done|done|].
  intros r1 _. cbv beta. rewrite (proj2 (Z.ltb_ge _ _) Hn). exists (rt_mem r1). split; [by destruct r1|apply marks_nil].
Qed.

(** The printf interceptors mark what the C library reports to have written, with the
    terminator, and [vsnprintf] no more than the buffer's size. *)
Lemma VSNPRINTF_marks real str size format ap r res m1 : runtime_up r -> 0 <= res < 2 ^ 31 - 1 -> 0 <= size < 2 ^ 64 ->
  let o := [(errno_location, 4); (str, Z.min size (res + 1))] in library_call real r res m1 o -> buffers_ok (cP c) o ->
  marks_call res m1 o (VSNPRINTF_INTERCEPTOR_IMPL c false errno_location real str size format ap) r.
Proof.
  intros Hup Hn Hsize o Hreal Hb. apply (entered_marks real (fun res => when (0 <=? res) (WRITE_RANGE c str (Z.min size (u64 (s32 (res + 1)))))) res m1); [done|done|done|].
  intros r1 E1. cbv beta. rewrite (proj2 (Z.leb_le _ _)) by lia. cbn [when]. rewrite s32_id, u64_small by lia.
  apply Forall_cons_iff in Hb as [_ [[Hb1 Hb2] _]%Forall_cons_iff]. by apply (write_range_marks c Henv).
Qed.

Lemma VSPRINTF_marks real str format ap r res m1 : runtime_up r -> 0 <= res < 2 ^ 31 - 1 ->
  let o := [(errno_location, 4); (str, res + 1)] in library_call real r res m1 o -> buffers_ok (cP c) o ->
  marks_call res m1 o (VSPRINTF_INTERCEPTOR_IMPL c false errno_location real str format ap) r.
Proof.
  intros Hup Hn o Hreal Hb. apply (entered_marks real (fun res => when (0 <=? res) (WRITE_RANGE c str (s32 (res + 1)))) res m1); [done|done|done|].
  intros r1 E1. cbv beta. rewrite (proj2 (Z.leb_le _ _)) by lia. cbn [when]. rewrite s32_id by lia.
  apply Forall_cons_iff in Hb as [_ [[Hb1 Hb2] _]%Forall_cons_iff]. by apply (write_range_marks c Henv).
Qed.
End interceptor.


(** [sscanf(s, " %d%%%*s%3s", &i, t)] with two conversions made: an integer of four bytes at
    4096 and, with its width, four bytes at 8192. *)
Definition example_format : list item :=
  [Text [32]; Dir (mkDirective false [] false LNone 100 None); Percent; Dir (mkDirective true [] false LNone 115 None);
   Dir (mkDirective false [3] false LNone 115 None)].

Definition example_library : CLibCall := fun m => (2, memset (memset m 4096 0 4) 8192 65 4).


(** ** What the parsers do with a directive cut short *)

(** The null character is one of the length modifiers: in ["%5"] the parser takes the
    terminator for one, and the byte after the string for the conversion. *)
Lemma cut_directive_is_overread : scanf_parse_next 9 (image [37; 53; 0; 110; 0]) 9 false 0 = Done (Some (4, mkScanfDirective (-1) 5 false false (0, 0) 110 false)).
Proof. vm_compute. reflexivity. Qed.

(** If the string is followed by one more null character and then by another one, the
    process is stopped. *)
Lemma cut_directive_stops_the_process c r : rt_mem r = image [37; 53; 0; 0; 120] -> (9 <= cFuel c)%nat ->
  scanf_common c 1 false 0 [] r = Died "CHECK_EQ(*p, 0)".
Proof.
  intros E Hf. unfold scanf_common, CHECK. erewrite M_bind_done by done. cbv beta. destruct (cFuel c) as [|f] eqn:Ef; [lia|].
  cbn [scanf_loop]. erewrite M_bind_done by done. cbv beta. rewrite E, Ef. change (image [37; 53; 0; 0; 120] 0 =? 0) with false. unfold lift, mbind at 1, M_bind at 1.
  do 8 (destruct f as [|f]; [lia|]). vm_compute. reflexivity.
Qed.
