(* ===== verification/Streams.v ===== *)
(** * Streams: the interceptors of stdio streams and obstacks

    sanitizer_common_interceptors.inc: the wrappers of the functions that make, flush and
    close a [FILE], and of the obstack functions.  The C library keeps its buffers in the
    program's memory; the wrappers mark them as initialised from the pointers in the object.
    A memory stream's buffer is found through two variables of the program, which the wrappers
    remember in a map from streams ([interceptor_metadata_map]).

    The map is the address map of AddrHashMap, whose operations act on a finite map at one
    instant each; here it is that finite map, passed along.  The stored structure is what a
    lookup gives; the code keeps a pointer to it after the handle is released
    ([AddrHashMap.released_cell_is_reused] shows what that may read).  A lookup of the null
    stream, which [fclose(NULL)] would make, is left to the C library.  [fopencookie] is
    not modelled.

    [memstream_text_is_initialised]: after [fflush] and [fclose] of a memory stream its text
    is initialised. *)

From S2P Require Import Prelude Common Memory Libc Layout Poisoning UmrMap Interface Interceptors Printf Formats.

(** ** The objects of the C library *)

(** [sizeof(__sanitizer_FILE)] and the offsets of the fields in use. *)
Definition sizeof_FILE : Z := 120.
Definition _IO_read_end (m : mem) (fp : Z) : Z := load64 m (fp + 16).
Definition _IO_read_base (m : mem) (fp : Z) : Z := load64 m (fp + 24).
Definition _IO_write_base (m : mem) (fp : Z) : Z := load64 m (fp + 32).
Definition _IO_write_end (m : mem) (fp : Z) : Z := load64 m (fp + 48).

(** [__sanitizer_obstack] and [__sanitizer__obstack_chunk]. *)
Definition sizeof_obstack : Z := 88.
Definition sizeof_obstack_chunk : Z := 16.
Definition obstack_chunk (m : mem) (obstack : Z) : Z := load64 m (obstack + 8).
Definition obstack_next_free (m : mem) (obstack : Z) : Z := load64 m (obstack + 24).

(** ** The metadata of memory streams *)

Record FileMetadata := mkFileMetadata { fm_addr : Z; fm_size : Z }.
Notation Metadata := (gmap Z FileMetadata).

Definition SetInterceptorMetadata (addr : Z) (file : FileMetadata) (meta : Metadata) : outcome Metadata :=
  _ ← check (bool_decide (meta !! addr = None)) "h.created()"; mret (<[addr := file]> meta).
Definition GetInterceptorMetadata (addr : Z) (meta : Metadata) : option FileMetadata :=
  if addr =? 0 then None else meta !! addr.
Definition DeleteInterceptorMetadata (addr : Z) (meta : Metadata) : outcome Metadata :=
  _ ← check (bool_decide (is_Some (meta !! addr))) "h.exists()"; mret (delete addr meta).

Section streams.
Context (c : Ctx) (errno_location : Z).

Let INITIALIZE_RANGE := __cqmsan_unpoison c.
Let ENTER := COMMON_INTERCEPTOR_ENTER c errno_location.

(** COMMON_INTERCEPTOR_ENTER around a body that uses the metadata. *)
Definition ENTER_METADATA (meta : Metadata) (real : CLibCall) (body : M (Z * Metadata)) : M (Z * Metadata) :=
  r ← get;
  if cqmsan_init_is_running r then res ← REAL real; mret (res, meta)
  else ENSURE_CQMSAN_INITED c;; InterceptorScope (INITIALIZE_RANGE errno_location 4;; body).

Definition unpoison_file (fp : Z) : M unit :=
  INITIALIZE_RANGE fp sizeof_FILE;;
  r ← get;
  let base := _IO_read_base (rt_mem r) fp in let fin := _IO_read_end (rt_mem r) fp in
  when (negb (base =? 0) && (base <? fin)) (INITIALIZE_RANGE base (fin - base));;
  r ← get;
  let base := _IO_write_base (rt_mem r) fp in let fin := _IO_write_end (rt_mem r) fp in
  when (negb (base =? 0) && (base <? fin)) (INITIALIZE_RANGE base (fin - base)).

(** *** Streams *)

(** The entries of the C library that its macros call. *)
Definition libio_internal (real : CLibCall) (fp : Z) : M Z := ENTER real (res ← REAL real; unpoison_file fp;; mret res).
Definition __uflow := libio_internal.
Definition __underflow := libio_internal.
Definition __overflow := libio_internal.
Definition __wuflow := libio_internal.
Definition __wunderflow := libio_internal.
Definition __woverflow := libio_internal.

(** The reads of the names and modes are not checked. *)
Definition opens_stream (real : CLibCall) : M Z := ENTER real (res ← REAL real; when (negb (res =? 0)) (unpoison_file res);; mret res).
Definition fopen := opens_stream.
Definition fdopen := opens_stream.
Definition freopen := opens_stream.
Definition fopen64 := opens_stream.
Definition freopen64 := opens_stream.
Definition fmemopen := opens_stream.

Definition open_memstream (meta : Metadata) (real : CLibCall) (ptr sizeloc : Z) : M (Z * Metadata) :=
  ENTER_METADATA meta real (
    res ← REAL real;
    meta ← (if negb (res =? 0) then
        INITIALIZE_RANGE ptr 8;;
        INITIALIZE_RANGE sizeloc 8;;
        unpoison_file res;;
        lift (SetInterceptorMetadata res (mkFileMetadata ptr sizeloc) meta)
      else mret meta);
    mret (res, meta)).
Definition open_wmemstream := open_memstream.

(** [INITIALIZE_RANGE( *m->addr, *m->size)] *)
Definition unpoison_text (f : FileMetadata) : M unit :=
  r ← get; INITIALIZE_RANGE (load64 (rt_mem r) (fm_addr f)) (load64 (rt_mem r) (fm_size f)).

Definition fflush (meta : Metadata) (real : CLibCall) (fp : Z) : M (Z * Metadata) :=
  ENTER_METADATA meta real (
    when (negb (fp =? 0)) (unpoison_file fp);;
    res ← REAL real;
    (if negb (fp =? 0) then match GetInterceptorMetadata fp meta with Some f => unpoison_text f | None => mret tt end else mret tt);;
    mret (res, meta)).

(** After the C library has closed the stream; the map may have changed since the lookup. *)
Definition fclose_finish (m : option FileMetadata) (fp : Z) (meta : Metadata) : M Metadata :=
  match m with
  | Some f => unpoison_text f;; lift (DeleteInterceptorMetadata fp meta)
  | None => mret meta
  end.

Definition fclose (meta : Metadata) (real : CLibCall) (fp : Z) : M (Z * Metadata) :=
  ENTER_METADATA meta real (
    let m := GetInterceptorMetadata fp meta in
    when (negb (fp =? 0)) (unpoison_file fp);;
    res ← REAL real;
    meta ← fclose_finish m fp meta;
    mret (res, meta)).

(** [__sanitizer_bufsiz] is the C library's. *)
Definition set_buffer (real : CLibCall) (stream buf size : Z) : M Z :=
  ENTER real (
    ret ← REAL real;
    when (negb (buf =? 0)) (INITIALIZE_RANGE buf size);;
    when (negb (stream =? 0)) (unpoison_file stream);;
    mret ret).
Definition setvbuf := set_buffer.
Definition setbuf (bufsiz : Z) (real : CLibCall) (stream buf : Z) : M Z := set_buffer real stream buf bufsiz.
Definition setbuffer := set_buffer.
Definition setlinebuf (real : CLibCall) (stream : Z) : M Z := ENTER real (ret ← REAL real; when (negb (stream =? 0)) (unpoison_file stream);; mret ret).

(** *** Obstacks *)

Definition initialize_obstack (obstack : Z) : M unit :=
  INITIALIZE_RANGE obstack sizeof_obstack;;
  r ← get;
  let chunk := obstack_chunk (rt_mem r) obstack in
  when (negb (chunk =? 0)) (INITIALIZE_RANGE chunk sizeof_obstack_chunk).

Definition _obstack_begin (real : CLibCall) (obstack : Z) : M Z :=
  ENTER real (res ← REAL real; when (negb (res =? 0)) (initialize_obstack obstack);; mret res).
Definition _obstack_begin_1 := _obstack_begin.

Definition _obstack_newchunk (real : CLibCall) (obstack : Z) : M Z :=
  ENTER real (
    res ← REAL real;
    r ← get;
    let chunk := obstack_chunk (rt_mem r) obstack in
    when (negb (chunk =? 0)) (INITIALIZE_RANGE chunk (obstack_next_free (rt_mem r) obstack -64 chunk));;
    mret res).
End streams.

(** ** What a call does to the program's bytes and their shadow *)

(** The ranges that [unpoison_file] marks. *)
Definition stream_ranges (m : mem) (fp : Z) : list (Z * Z) :=
  let area base fin := if negb (base =? 0) && (base <? fin) then [(base, fin - base)] else [] in
  (fp, sizeof_FILE) :: area (_IO_read_base m fp) (_IO_read_end m fp) ++ area (_IO_write_base m fp) (_IO_write_end m fp).

Definition obstack_ranges (m : mem) (obstack : Z) : list (Z * Z) :=
  (obstack, sizeof_obstack) :: if obstack_chunk m obstack =? 0 then [] else [(obstack_chunk m obstack, sizeof_obstack_chunk)].

Section runs.
Context (c : Ctx) `{!ShadowLayout (cP c)} (Henv : env_ok (cEnv c)).

Definition ranges_ok (o : list (Z * Z)) : Prop := Forall (fun '(a, n) => app_buffer (cP c) a n /\ 0 <= n) o.

(** The bytes with their shadow, [v], after the ranges [o] were marked. *)
Definition cleaned (o : list (Z * Z)) (v : Z -> Z * Z) (b : Z) : Z * Z := if covered o b then ((v b).1, kCleanByte c) else v b.

(** The call answers [x] and changes only the memory, where the program's bytes and their
    shadow are then [v]. *)
Definition runs {A} (f : M A) (r : Rt) (x : A) (v : Z -> Z * Z) : Prop :=
  exists m', f r = Done (x, set_mem m' r) /\ refines (cP c) (rt_mem r) m' v.

(** The C library answers [res]; the program's bytes are then those of [m1], and the shadow is
    unchanged except where the memory the library has taken from the heap gets [fresh]. *)
Definition answers (real : CLibCall) (r : Rt) (res : Z) (m1 : mem) (fresh : Z -> option Z) : Prop :=
  forall me, same_app c (rt_mem r) me -> exists m', real me = (res, m') /\
    forall b, MEM_IS_APP (cP c) b = true -> view (cP c) m' b = (m1 b, default (me (MEM_TO_SHADOW (cP c) b)) (fresh b)).

Lemma covered_cons a n o b : covered ((a, n) :: o) b = in_range a n b || covered o b.
Proof. done. Qed.

Lemma covered_concat o1 o2 b : covered (o1 ++ o2) b = covered o1 b || covered o2 b.
Proof. apply existsb_app. Qed.

Lemma cleaned_app o1 o2 v b : cleaned o2 (cleaned o1 v) b = cleaned (o1 ++ o2) v b.
Proof. unfold cleaned. rewrite covered_concat. by destruct (covered o1 b), (covered o2 b). Qed.

Lemma cleaned_at o v w b : v b = w b -> cleaned o v b = cleaned o w b.
Proof. unfold cleaned. by intros ->. Qed.

Lemma runs_mret {A} (x : A) r : runs (mret x) r x (view (cP c) (rt_mem r)).
Proof. exists (rt_mem r). split; [by destruct r|by intros b Hb]. Qed.

Lemma runs_bind {A B} (f : M A) (k : A -> M B) r x y v w : runs f r x v ->
  (forall m', refines (cP c) (rt_mem r) m' v -> runs (k x) (set_mem m' r) y w) -> runs (f ≫= k) r y w.
Proof.
  intros (m' & E & Hv) Hk. destruct (Hk m' Hv) as (m2 & E2 & Hw). exists m2. split; [|done].
  unfold mbind, M_bind. by rewrite E, E2, set_mem_twice.
Qed.

Lemma runs_get {B} (k : Rt -> M B) r y w : runs (k r) r y w -> runs (x ← get; k x) r y w.
Proof. done. Qed.

Lemma runs_ext {A} (f : M A) r x v w : (forall b, MEM_IS_APP (cP c) b = true -> v b = w b) -> runs f r x v -> runs f r x w.
Proof. intros Hvw (m' & E & Hv). exists m'. split; [done|]. intros b Hb. by rewrite (Hv b Hb), Hvw. Qed.

Lemma runs_unpoison a n r : app_buffer (cP c) a n -> 0 <= n -> runs (__cqmsan_unpoison c a n) r tt (cleaned [(a, n)] (view (cP c) (rt_mem r))).
Proof.
  intros Hb Hn. destruct (unpoison_total c Henv a n r Hb Hn) as (m' & E & Hv). exists m'. split; [done|]. intros b Happ. rewrite (Hv b Happ).
  unfold cleaned. rewrite covered_cons. cbn [covered existsb]. rewrite orb_false_r. destruct (in_range a n b) eqn:Eb; [|done].
  apply in_range_true in Eb. specialize (Hb 0). rewrite Z.add_0_r in Hb. by rewrite Hb by lia.
Qed.

Lemma runs_real real r me res m1 fresh : answers real r res m1 fresh -> same_app c (rt_mem r) me ->
  runs (REAL real) (set_mem me r) res (fun b => (m1 b, default (me (MEM_TO_SHADOW (cP c) b)) (fresh b))).
Proof.
  intros Ha Hs. destruct (Ha me Hs) as (m' & E & Hv). exists m'. split; [|exact Hv]. unfold REAL. cbn [rt_mem set_mem]. by rewrite E, set_mem_twice.
Qed.

(** What a call has left, if it has only marked, are the same bytes. *)
Lemma cleaned_same o m m' : refines (cP c) m m' (cleaned o (view (cP c) m)) -> same_app c m m'.
Proof. intros Hv a Ha. specialize (Hv a Ha). unfold cleaned in Hv. destruct (covered o a); by injection Hv. Qed.

Lemma runs_when (b : bool) a n r : (b = true -> app_buffer (cP c) a n /\ 0 <= n) ->
  runs (when b (__cqmsan_unpoison c a n)) r tt (cleaned (if b then [(a, n)] else []) (view (cP c) (rt_mem r))).
Proof. intros Hb. destruct b; [by apply runs_unpoison; apply Hb|apply runs_mret]. Qed.

Lemma field_same m m' p off n : app_buffer (cP c) p n -> 0 <= off -> off + 8 <= n -> same_app c m m' -> load64 m' (p + off) = load64 m (p + off).
Proof. intros Hb H0 Hn Hs. apply (load_same c 8); [|done]. intros j Hj. rewrite <- Z.add_assoc. apply Hb. lia. Qed.

Lemma runs_unpoison_file fp r : ranges_ok (stream_ranges (rt_mem r) fp) ->
  runs (unpoison_file c fp) r tt (cleaned (stream_ranges (rt_mem r) fp) (view (cP c) (rt_mem r))).
Proof.
  intros Hok. pose proof Hok as [[Hf _] Hareas]%Forall_cons_iff. apply Forall_app in Hareas as [Hr Hw].
  unfold unpoison_file. eapply runs_bind; [by apply runs_unpoison|]. intros m1 H1. pose proof (cleaned_same _ _ _ H1) as S1. apply runs_get. cbv zeta. cbn [rt_mem set_mem].
  unfold _IO_read_base, _IO_read_end, _IO_write_base, _IO_write_end, sizeof_FILE in *. rewrite !(field_same (rt_mem r) m1 fp _ 120) by (done || lia).
  eapply runs_bind; [apply runs_when|].
  { intros E. rewrite E in Hr. by apply Forall_cons_iff in Hr as [Hr _]. }
  intros m2 H2. cbn [rt_mem set_mem] in *. pose proof (cleaned_same _ _ _ H2) as S2.
  assert (same_app c (rt_mem r) m2) as S by (intros a Ha; by rewrite (S2 a Ha), (S1 a Ha)).
  apply runs_get. cbv zeta. cbn [rt_mem set_mem]. unfold _IO_write_base, _IO_write_end. rewrite !(field_same (rt_mem r) m2 fp _ 120) by (done || lia).
  eapply runs_ext; [|apply runs_when].
  2: { intros E. rewrite E in Hw. by apply Forall_cons_iff in Hw as [Hw _]. }
  intros b Hb. cbn [rt_mem set_mem]. unfold stream_ranges, cleaned. rewrite covered_cons, covered_concat. specialize (H1 b Hb). specialize (H2 b Hb). unfold cleaned in H1, H2. rewrite H2, H1, covered_cons.
  unfold _IO_read_base, _IO_read_end, _IO_write_base, _IO_write_end, sizeof_FILE. change (covered [] b) with false. rewrite orb_false_r.
  destruct (in_range fp 120 b), (covered (if negb (load64 (rt_mem r) (fp + 24) =? 0) && _ then _ else _) b), (covered (if negb (load64 (rt_mem r) (fp + 32) =? 0) && _ then _ else _) b); done.
Qed.
End runs.

Section calls.
Context (c : Ctx) `{!ShadowLayout (cP c)} (Henv : env_ok (cEnv c)) (errno_location : Z).

Let errno : list (Z * Z) := [(errno_location, 4)].

(** The body of an interceptor runs after [errno] was marked, in the interceptor scope. *)
Lemma runs_scope {A} (body : M A) r x v : runtime_up r -> app_buffer (cP c) errno_location 4 ->
  (forall me, refines (cP c) (rt_mem r) me (cleaned c errno (view (cP c) (rt_mem r))) ->
     runs c body (set_mem me (set_scope (in_interceptor_scope r + 1) r)) x v) ->
  runs c (ENSURE_CQMSAN_INITED c;; InterceptorScope (__cqmsan_unpoison c errno_location 4;; body)) r x v.
Proof.
  intros Hup He Hbody. unfold runs. rewrite ENSURE_up by done. unfold InterceptorScope. erewrite M_bind_done by done. cbv beta.
  destruct (runs_unpoison c Henv errno_location 4 (set_scope (in_interceptor_scope r + 1) r) He ltac:(lia)) as (me & Ee & Hme).
  destruct (Hbody me Hme) as (m' & Em & Hv). exists m'. split; [|exact Hv].
  assert ((__cqmsan_unpoison c errno_location 4;; body) (set_scope (in_interceptor_scope r + 1) r) = Done (x, set_mem m' (set_mem me (set_scope (in_interceptor_scope r + 1) r)))) as E
    by (erewrite M_bind_done by exact Ee; exact Em).
  rewrite (M_bind_done _ _ _ _ _ E). unfold mbind, M_bind, modify, mret, M_ret. do 2 f_equal. destruct r. unfold set_mem, set_scope. cbn. f_equal. lia.
Qed.

Lemma runs_enter real (body : M Z) r x v : runtime_up r -> app_buffer (cP c) errno_location 4 ->
  (forall me, refines (cP c) (rt_mem r) me (cleaned c errno (view (cP c) (rt_mem r))) ->
     runs c body (set_mem me (set_scope (in_interceptor_scope r + 1) r)) x v) ->
  runs c (COMMON_INTERCEPTOR_ENTER c errno_location real body) r x v.
Proof.
  intros Hup He Hbody. unfold COMMON_INTERCEPTOR_ENTER, or_real. apply runs_get. pose proof Hup as (_ & -> & _). by apply runs_scope.
Qed.

Lemma runs_enter_metadata meta real (body : M (Z * Metadata)) r x v : runtime_up r -> app_buffer (cP c) errno_location 4 ->
  (forall me, refines (cP c) (rt_mem r) me (cleaned c errno (view (cP c) (rt_mem r))) ->
     runs c body (set_mem me (set_scope (in_interceptor_scope r + 1) r)) x v) ->
  runs c (ENTER_METADATA c errno_location meta real body) r x v.
Proof.
  intros Hup He Hbody. unfold ENTER_METADATA. apply runs_get. pose proof Hup as (_ & -> & _). by apply runs_scope.
Qed.

(** The ranges [o] are marked, then the C library answers. *)
Definition after_library (r : Rt) (o : list (Z * Z)) (m1 : mem) (fresh : Z -> option Z) (b : Z) : Z * Z :=
  (m1 b, default (cleaned c o (view (cP c) (rt_mem r)) b).2 (fresh b)).

Lemma stream_ranges_same m m' fp : app_buffer (cP c) fp sizeof_FILE -> same_app c m m' -> stream_ranges m' fp = stream_ranges m fp.
Proof.
  intros Hb Hs. unfold stream_ranges, _IO_read_base, _IO_read_end, _IO_write_base, _IO_write_end. by rewrite !(field_same c m m' fp _ sizeof_FILE) by (done || lia).
Qed.

(** The C library answers after the ranges [o] were marked, and what comes then. *)
Lemma library_then {A} (k : Z -> M A) real r r0 o res m1 fresh x v : answers c real r0 res m1 fresh ->
  refines (cP c) (rt_mem r0) (rt_mem r) (cleaned c o (view (cP c) (rt_mem r0))) ->
  (forall m2, refines (cP c) (rt_mem r0) m2 (after_library r0 o m1 fresh) -> runs c (k res) (set_mem m2 r) x v) ->
  runs c (res ← REAL real; k res) r x v.
Proof.
  intros Ha Hm Hk. destruct (Ha (rt_mem r) (cleaned_same c o _ _ Hm)) as (m2 & E2 & H2).
  assert (refines (cP c) (rt_mem r0) m2 (after_library r0 o m1 fresh)) as Hm2.
  { intros b Hb. rewrite (H2 b Hb). unfold after_library. do 2 f_equal. specialize (Hm b Hb). unfold view at 1 in Hm. by rewrite <- Hm. }
  destruct (Hk m2 Hm2) as (m3 & E3 & H3). exists m3. split; [|done]. unfold mbind, M_bind, REAL. rewrite E2, E3. by rewrite set_mem_twice.
Qed.

Lemma after_library_app r o m1 fresh m2 : refines (cP c) (rt_mem r) m2 (after_library r o m1 fresh) -> same_app c m1 m2.
Proof. intros Hv a Ha. specialize (Hv a Ha). unfold view, after_library in Hv. by injection Hv. Qed.

Definition text_range (m : mem) (f : FileMetadata) : Z * Z := (load64 m (fm_addr f), load64 m (fm_size f)).

(** The variables of a memory stream and the text they give. *)
Definition text_ok (m : mem) (f : FileMetadata) : Prop :=
  app_buffer (cP c) (fm_addr f) 8 /\ app_buffer (cP c) (fm_size f) 8 /\ app_buffer (cP c) (text_range m f).1 (text_range m f).2 /\ 0 <= (text_range m f).2.

Lemma runs_unpoison_text f r m1 v : text_ok m1 f -> same_app c m1 (rt_mem r) -> refines (cP c) (rt_mem r) (rt_mem r) v ->
  runs c (unpoison_text c f) r tt (cleaned c [text_range m1 f] v).
Proof.
  intros (Ha & Hn & Ht & H0) Hs Hv. unfold unpoison_text. apply runs_get. rewrite !(load_same c 8 m1 (rt_mem r)) by done.
  eapply runs_ext; [|by apply (runs_unpoison c Henv)]. intros b Hb. unfold cleaned. by rewrite <- (Hv b Hb).
Qed.

Lemma stream_entered fp r me : app_buffer (cP c) fp sizeof_FILE -> ranges_ok c (stream_ranges (rt_mem r) fp) ->
  refines (cP c) (rt_mem r) me (cleaned c errno (view (cP c) (rt_mem r))) ->
  runs c (unpoison_file c fp) (set_mem me (set_scope (in_interceptor_scope r + 1) r)) tt (cleaned c (errno ++ stream_ranges (rt_mem r) fp) (view (cP c) (rt_mem r))).
Proof.
  intros Hf Hok Hme. pose proof (stream_ranges_same (rt_mem r) me fp Hf (cleaned_same c errno _ _ Hme)) as Er.
  eapply runs_ext; [|apply (runs_unpoison_file c Henv); cbn [rt_mem set_mem]; by rewrite Er]. cbn [rt_mem set_mem]. rewrite Er.
  intros b Hb. rewrite <- cleaned_app. apply cleaned_at. exact (Hme b Hb).
Qed.

(** A memory stream that the program flushes or closes. *)
Lemma fflush_memstream meta real fp f r res m1 fresh : runtime_up r -> app_buffer (cP c) errno_location 4 -> fp <> 0 -> meta !! fp = Some f ->
  ranges_ok c (stream_ranges (rt_mem r) fp) -> answers c real r res m1 fresh -> text_ok m1 f ->
  runs c (fflush c errno_location meta real fp) r (res, meta) (cleaned c [text_range m1 f] (after_library r (errno ++ stream_ranges (rt_mem r) fp) m1 fresh)).
Proof.
  intros Hup He Hne Hm Hok Ha Ht. pose proof Hok as [[Hf _] _]%Forall_cons_iff. unfold fflush. apply runs_enter_metadata; [done|done|]. intros me Hme.
  rewrite (proj2 (Z.eqb_neq _ _) Hne). cbn [negb when]. eapply runs_bind; [by apply stream_entered|]. intros m2 H2.
  eapply (library_then _ _ _ r); [done|exact H2|]. intros m3 H3. unfold GetInterceptorMetadata. rewrite (proj2 (Z.eqb_neq _ _) Hne), Hm.
  eapply runs_bind; [apply (runs_unpoison_text f _ m1); [done|by eapply after_library_app|exact H3]|]. intros m4 H4.
  eapply runs_ext; [|apply runs_mret]. intros b Hb. by apply H4.
Qed.

Lemma fclose_memstream meta real fp f r res m1 fresh : runtime_up r -> app_buffer (cP c) errno_location 4 -> fp <> 0 -> meta !! fp = Some f ->
  ranges_ok c (stream_ranges (rt_mem r) fp) -> answers c real r res m1 fresh -> text_ok m1 f ->
  runs c (fclose c errno_location meta real fp) r (res, delete fp meta) (cleaned c [text_range m1 f] (after_library r (errno ++ stream_ranges (rt_mem r) fp) m1 fresh)).
Proof.
  intros Hup He Hne Hm Hok Ha Ht. pose proof Hok as [[Hf _] _]%Forall_cons_iff. unfold fclose. apply runs_enter_metadata; [done|done|]. intros me Hme. cbv zeta.
  rewrite (proj2 (Z.eqb_neq _ _) Hne). cbn [negb when]. eapply runs_bind; [by apply stream_entered|]. intros m2 H2.
  eapply (library_then _ _ _ r); [done|exact H2|]. intros m3 H3. unfold GetInterceptorMetadata. rewrite (proj2 (Z.eqb_neq _ _) Hne), Hm. unfold fclose_finish.
  eapply runs_bind; [eapply runs_bind; [apply (runs_unpoison_text f _ m1); [done|by eapply after_library_app|exact H3]|]|].
  - intros m4 H4. exists m4. split; [unfold lift, DeleteInterceptorMetadata; rewrite Hm; by destruct r|exact H4].
  - intros m4 H4. eapply runs_ext; [|apply runs_mret]. intros b Hb. by apply H4.
Qed.

(** A new memory stream, and its failure. *)
Lemma open_memstream_opens meta real ptr sizeloc r fp m1 fresh : runtime_up r -> app_buffer (cP c) errno_location 4 -> fp <> 0 -> meta !! fp = None ->
  answers c real r fp m1 fresh -> app_buffer (cP c) ptr 8 -> app_buffer (cP c) sizeloc 8 -> ranges_ok c (stream_ranges m1 fp) ->
  runs c (open_memstream c errno_location meta real ptr sizeloc) r (fp, <[fp := mkFileMetadata ptr sizeloc]> meta)
    (cleaned c ((ptr, 8) :: (sizeloc, 8) :: stream_ranges m1 fp) (after_library r errno m1 fresh)).
Proof.
  intros Hup He Hne Hm Ha Hp Hs Hok. pose proof Hok as [[Hf _] _]%Forall_cons_iff. unfold open_memstream. apply runs_enter_metadata; [done|done|]. intros me Hme.
  eapply (library_then _ _ _ r); [done|exact Hme|]. intros m2 H2. pose proof (after_library_app _ _ _ _ _ H2) as S2. rewrite (proj2 (Z.eqb_neq _ _) Hne). cbn [negb].
  eapply runs_bind; [eapply runs_bind; [by apply (runs_unpoison c Henv); [|lia]|]|].
  - intros m3 H3. eapply runs_bind; [by apply (runs_unpoison c Henv); [|lia]|]. intros m4 H4. cbn [rt_mem set_mem] in *.
    assert (same_app c m1 m4) as S4 by (intros a Hin; by rewrite (cleaned_same c _ _ _ H4 a Hin), (cleaned_same c _ _ _ H3 a Hin), (S2 a Hin)).
    pose proof (stream_ranges_same m1 m4 fp Hf S4) as Er.
    eapply runs_bind; [apply (runs_unpoison_file c Henv); cbn [rt_mem set_mem]; by rewrite Er|]. intros m5 H5. cbn [rt_mem set_mem] in *.
    exists m5. split; [unfold lift, SetInterceptorMetadata; rewrite Hm; by destruct r|].
    intros b Hb. rewrite (H5 b Hb), Er. instantiate (1 := cleaned c ((ptr, 8) :: (sizeloc, 8) :: stream_ranges m1 fp) (after_library r errno m1 fresh)).
    change ((ptr, 8) :: (sizeloc, 8) :: stream_ranges m1 fp) with ([(ptr, 8)] ++ [(sizeloc, 8)] ++ stream_ranges m1 fp). rewrite <- !cleaned_app.
    apply cleaned_at. rewrite (H4 b Hb). apply cleaned_at. rewrite (H3 b Hb). apply cleaned_at. exact (H2 b Hb).
  - intros m3 H3. eapply runs_ext; [|apply runs_mret]. intros b Hb. by apply H3.
Qed.

Lemma open_memstream_fails meta real ptr sizeloc r m1 fresh : runtime_up r -> app_buffer (cP c) errno_location 4 -> answers c real r 0 m1 fresh ->
  runs c (open_memstream c errno_location meta real ptr sizeloc) r (0, meta) (after_library r errno m1 fresh).
Proof.
  intros Hup He Ha. unfold open_memstream. apply runs_enter_metadata; [done|done|]. intros me Hme.
  eapply (library_then _ _ _ r); [done|exact Hme|]. intros m2 H2. eapply runs_ext; [|apply runs_mret]. intros b Hb. by apply H2.
Qed.

(** The wrappers that only mark: what they do after the call. *)
Lemma marks_after real (after : Z -> M unit) r res m1 fresh o : runtime_up r -> app_buffer (cP c) errno_location 4 -> answers c real r res m1 fresh ->
  (forall r2, same_app c m1 (rt_mem r2) -> runs c (after res) r2 tt (cleaned c o (view (cP c) (rt_mem r2)))) ->
  runs c (COMMON_INTERCEPTOR_ENTER c errno_location real (x ← REAL real; after x;; mret x)) r res (cleaned c o (after_library r errno m1 fresh)).
Proof.
  intros Hup He Ha Hafter. apply runs_enter; [done|done|]. intros me Hme. eapply (library_then _ _ _ r); [done|exact Hme|]. intros m2 H2.
  eapply runs_bind; [apply Hafter; by eapply after_library_app|]. intros m3 H3. eapply runs_ext; [|apply runs_mret].
  intros b Hb. cbn [rt_mem set_mem] in *. rewrite (H3 b Hb). apply cleaned_at. exact (H2 b Hb).
Qed.

Lemma opens_stream_marks real r fp m1 fresh : runtime_up r -> app_buffer (cP c) errno_location 4 -> answers c real r fp m1 fresh -> fp <> 0 ->
  ranges_ok c (stream_ranges m1 fp) ->
  runs c (opens_stream c errno_location real) r fp (cleaned c (stream_ranges m1 fp) (after_library r errno m1 fresh)).
Proof.
  intros Hup He Ha Hne Hok. pose proof Hok as [[Hf _] _]%Forall_cons_iff.
  apply (marks_after real (fun res => when (negb (res =? 0)) (unpoison_file c res))); [done|done|done|]. intros r2 S2. rewrite (proj2 (Z.eqb_neq _ _) Hne). cbn [negb when].
  rewrite <- (stream_ranges_same m1 (rt_mem r2) fp Hf S2). apply (runs_unpoison_file c Henv). by rewrite (stream_ranges_same m1 (rt_mem r2) fp Hf S2).
Qed.

Lemma obstack_begin_marks real obstack r res m1 fresh : runtime_up r -> app_buffer (cP c) errno_location 4 -> answers c real r res m1 fresh -> res <> 0 ->
  ranges_ok c (obstack_ranges m1 obstack) ->
  runs c (_obstack_begin c errno_location real obstack) r res (cleaned c (obstack_ranges m1 obstack) (after_library r errno m1 fresh)).
Proof.
  intros Hup He Ha Hne Hok. pose proof Hok as [[Hf _] Hchunk]%Forall_cons_iff.
  apply (marks_after real (fun x => when (negb (x =? 0)) (initialize_obstack c obstack))); [done|done|done|]. intros r2 S2. rewrite (proj2 (Z.eqb_neq _ _) Hne). cbn [negb when].
  unfold initialize_obstack. eapply runs_bind; [by apply (runs_unpoison c Henv)|]. intros m3 H3. apply runs_get. cbv zeta. cbn [rt_mem set_mem].
  assert (same_app c m1 m3) as S3 by (intros a Hin; by rewrite (cleaned_same c _ _ _ H3 a Hin), (S2 a Hin)).
  unfold obstack_ranges, obstack_chunk in *. rewrite (field_same c m1 m3 obstack 8 sizeof_obstack) by (done || lia).
  eapply runs_ext; [|apply (runs_when c Henv)].
  - intros b Hb. cbn [rt_mem set_mem]. unfold cleaned at 1. rewrite (H3 b Hb). unfold cleaned. rewrite !covered_cons. change (covered [] b) with false. rewrite orb_false_r.
    destruct (load64 m1 (obstack + 8) =? 0); cbn [negb]; [change (covered [] b) with false; by rewrite orb_false_r|]. destruct (in_range obstack sizeof_obstack b), (covered _ b); done.
  - intros E. apply negb_true_iff in E. rewrite E in Hchunk. by apply Forall_cons_iff in Hchunk as [Hchunk _].
Qed.
End calls.

(** ** The map follows the open streams *)

Inductive stream_event := Opened (fp : Z) (m : option FileMetadata) | Closed (fp : Z).

(** What the calls of one thread do to the map, ... *)
Definition stream_event_effect (e : stream_event) (meta : Metadata) : outcome Metadata :=
  match e with
  | Opened fp (Some f) => SetInterceptorMetadata fp f meta
  | Opened fp None => mret meta
  | Closed fp => match GetInterceptorMetadata fp meta with Some _ => DeleteInterceptorMetadata fp meta | None => mret meta end
  end.
Definition track (events : list stream_event) (meta : Metadata) : outcome Metadata := foldl (fun o e => m ← o; stream_event_effect e m) (mret meta) events.

(** ... with a C library that gives no stream out twice. *)
Inductive streams : list stream_event -> gset Z -> Prop :=
| streams_none : streams [] ∅
| streams_opened es fs fp m : streams es fs -> fp <> 0 -> fp ∉ fs -> streams (es ++ [Opened fp m]) ({[fp]} ∪ fs)
| streams_closed es fs fp : streams es fs -> fp ∈ fs -> streams (es ++ [Closed fp]) (fs ∖ {[fp]}).

Lemma metadata_tracks_streams es fs : streams es fs -> exists meta, track es ∅ = Done meta /\ dom meta ⊆ fs /\ 0 ∉ fs.
Proof.
  induction 1 as [|es fs fp m _ (meta & E & Hd & H0) Hne Hnew|es fs fp _ (meta & E & Hd & H0) Hin].
  - exists ∅. split; [done|]. set_solver.
  - unfold track in *. rewrite foldl_app. cbn [foldl]. rewrite E. assert (meta !! fp = None) as Hnone by (apply not_elem_of_dom; set_solver).
    destruct m as [f|]; cbn [mbind outcome_bind stream_event_effect]; [|exists meta; split; [done|set_solver]].
    exists (<[fp := f]> meta). unfold SetInterceptorMetadata. rewrite Hnone. split; [done|]. rewrite dom_insert_L. set_solver.
  - unfold track in *. rewrite foldl_app. cbn [foldl]. rewrite E. cbn [mbind outcome_bind stream_event_effect]. unfold GetInterceptorMetadata.
    destruct (Z.eqb_spec fp 0) as [->|_]; [done|].
    destruct (meta !! fp) as [f|] eqn:Ef.
    + exists (delete fp meta). unfold DeleteInterceptorMetadata. rewrite Ef. split; [done|]. rewrite dom_delete_L. set_solver.
    + exists meta. split; [done|]. apply not_elem_of_dom in Ef. set_solver.
Qed.

(** ** What is not marked, and what goes wrong *)

(** The size of a wide stream is in wide characters, but as many bytes are marked: the rest of
    the text, and the terminator of either kind of stream, keep the shadow of the heap. *)
Lemma beyond_size_is_not_marked c (L : ShadowLayout (cP c)) errno_location meta real fp f r res m1 fresh : env_ok (cEnv c) ->
  runtime_up r -> app_buffer (cP c) errno_location 4 -> fp <> 0 -> meta !! fp = Some f ->
  ranges_ok c (stream_ranges (rt_mem r) fp) -> answers c real r res m1 fresh -> text_ok c m1 f ->
  exists m', fflush c errno_location meta real fp r = Done (res, meta, set_mem m' r) /\
    forall b s, MEM_IS_APP (cP c) b = true -> (text_range m1 f).1 + (text_range m1 f).2 <= b -> fresh b = Some s -> m' (MEM_TO_SHADOW (cP c) b) = s.
Proof.
  intros Henv Hup He Hne Hm Hok Ha Ht. destruct (fflush_memstream c Henv errno_location meta real fp f r res m1 fresh Hup He Hne Hm Hok Ha Ht) as (m' & E & Hv).
  exists m'. split; [done|]. intros b s Hb Hbeyond Hf. specialize (Hv b Hb). unfold cleaned in Hv. destruct (text_range m1 f) as [a n]. cbn [fst snd] in *.
  rewrite covered_cons in Hv. rewrite (proj2 (in_range_false a n b)) in Hv by lia. cbn in Hv. unfold after_library in Hv. rewrite Hf in Hv. unfold view in Hv. by injection Hv.
Qed.

(** [fclose] forgets a stream after the C library has closed it; when another thread is given
    its address before that, the map still holds it and the process is stopped. *)
Lemma closing_races_with_opening :
  open_memstream ctx0 12288 {[8192 := mkFileMetadata 4096 4104]} (fun m => (8192, m)) 4096 4104 (rt0 (fun _ => 0)) = Died "h.created()".
Proof. by vm_compute. Qed.

(** ** The text of a memory stream *)

(** The program's bytes are what the C library left, the text is initialised, and outside of
    it, of [errno], of the stream's buffers and of new memory no shadow has changed. *)
Definition text_initialised (c : Ctx) (r : Rt) (marked : list (Z * Z)) (text : Z * Z) (m1 : mem) (fresh : Z -> option Z) (m' : mem) : Prop :=
  forall b, MEM_IS_APP (cP c) b = true -> m' b = m1 b /\
    (in_range text.1 text.2 b = true -> m' (MEM_TO_SHADOW (cP c) b) = kCleanByte c) /\
    (in_range text.1 text.2 b = false -> covered marked b = false -> fresh b = None -> m' (MEM_TO_SHADOW (cP c) b) = rt_mem r (MEM_TO_SHADOW (cP c) b)).

Lemma cleaned_text c r marked text m1 fresh m' : refines (cP c) (rt_mem r) m' (cleaned c [text] (after_library c r marked m1 fresh)) ->
  text_initialised c r marked text m1 fresh m'.
Proof.
  intros Hv b Hb. specialize (Hv b Hb). unfold view in Hv at 1. unfold cleaned at 1 in Hv. destruct text as [a n]. rewrite covered_cons in Hv. change (covered [] b) with false in Hv.
  rewrite orb_false_r in Hv. unfold after_library in Hv. cbn [fst snd] in *. destruct (in_range a n b); injection Hv as -> ->; [done|]. split; [done|]. split; [done|].
  intros _ Hc ->. unfold cleaned. by rewrite Hc.
Qed.

(** When a program flushes or closes a memory stream ([open_memstream]), its text is
    initialised: whatever the C library does to its own objects, and whatever the shadow of
    the memory is that it takes from the heap for the text, the call gives its answer, the
    program's bytes are those it left, and every byte of the text that the stream's two
    variables describe afterwards is clean; only the text, [errno] and the buffers of the
    stream were marked; [fflush] keeps the entry of the stream and [fclose] removes it. *)
Theorem memstream_text_is_initialised c (L : ShadowLayout (cP c)) errno_location meta real fp f r res m1 fresh : env_ok (cEnv c) ->
  runtime_up r -> app_buffer (cP c) errno_location 4 -> fp <> 0 -> meta !! fp = Some f ->
  ranges_ok c (stream_ranges (rt_mem r) fp) -> answers c real r res m1 fresh -> text_ok c m1 f ->
  let marked := (errno_location, 4) :: stream_ranges (rt_mem r) fp in
  (exists m', fflush c errno_location meta real fp r = Done (res, meta, set_mem m' r) /\ text_initialised c r marked (text_range m1 f) m1 fresh m') /\
  (exists m', fclose c errno_location meta real fp r = Done (res, delete fp meta, set_mem m' r) /\ text_initialised c r marked (text_range m1 f) m1 fresh m').
Proof.
  intros Henv Hup He Hne Hm Hok Ha Ht marked. split.
  - destruct (fflush_memstream c Henv errno_location meta real fp f r res m1 fresh Hup He Hne Hm Hok Ha Ht) as (m' & E & Hv). exists m'. split; [done|]. by apply cleaned_text.
  - destruct (fclose_memstream c Henv errno_location meta real fp f r res m1 fresh Hup He Hne Hm Hok Ha Ht) as (m' & E & Hv). exists m'. split; [done|]. by apply cleaned_text.
Qed.

(** A stream at 8192 with its variables at 4096 and 4104; the C library puts the text of three
    characters into new memory at 16384. *)
Definition example_stream : CLibCall := fun m => (0, store64 (store64 (memset m 16384 65 3) 4096 16384) 4104 3).
Definition example_writes : list (Z * Z) := [(16384, 3); (4096, 8); (4104, 8)].

Lemma example_stream_writes m m' b : (forall b, covered example_writes b = false -> MEM_IS_APP linux_x86_64 b = true -> m' b = m b) ->
  MEM_IS_APP linux_x86_64 b = true -> (example_stream m').2 b = (example_stream m).2 b.
Proof.
  intros Hs Hb. unfold example_stream, store64, store, memset. cbn [snd]. destruct (in_range 4104 8 b) eqn:E1; [done|]. destruct (in_range 4096 8 b) eqn:E2; [done|].
  destruct (in_range 16384 3 b) eqn:E3; [done|]. apply Hs; [|done]. unfold example_writes. cbn. by rewrite E1, E2, E3.
Qed.

Lemma example_stream_outside m b : covered example_writes b = false -> (example_stream m).2 b = m b.
Proof.
  unfold example_writes. cbn [covered existsb]. intros (E3 & (E2 & (E1 & _)%orb_false_iff)%orb_false_iff)%orb_false_iff.
  unfold example_stream, store64, store, memset. cbn [snd]. by rewrite E1, E2, E3.
Qed.

Lemma memstream_text_is_initialised_witness : exists m',
  fclose ctx0 12288 {[8192 := mkFileMetadata 4096 4104]} example_stream 8192 (rt0 (fun _ => 255)) = Done (0, ∅, set_mem m' (rt0 (fun _ => 255))) /\
  view linux_x86_64 m' 16386 = (65, 0).
Proof.
  set (m1 := (example_stream (fun _ => 255)).2).
  destruct (memstream_text_is_initialised ctx0 x86_64_shadow_layout 12288 {[8192 := mkFileMetadata 4096 4104]} example_stream 8192 (mkFileMetadata 4096 4104)
    (rt0 (fun _ => 255)) 0 m1 (fun _ => None)) as [_ (m' & E & Hv)].
  - exact linux_env_ok.
  - done.
  - apply app1_buffer; lia.
  - done.
  - done.
  - apply List.Forall_cons; [split; [apply app1_buffer; unfold sizeof_FILE; lia|done]|]. assert (load64 (fun _ : Z => 255) = fun _ => 2 ^ 64 - 1) as E by done.
    cbn [rt_mem rt0]. unfold _IO_read_base, _IO_read_end, _IO_write_base, _IO_write_end. rewrite E. constructor.
  - intros me Hs. exists (example_stream me).2. split; [done|]. intros b Hb. unfold view. f_equal.
    + apply example_stream_writes; [|done]. intros x _ Hx. by apply Hs.
    + apply example_stream_outside, (shadow_not_covered ctx0); [|done]. repeat constructor; cbn; try lia; apply app1_buffer; lia.
  - split; [apply app1_buffer; cbn; lia|]. split; [apply app1_buffer; cbn; lia|]. assert (text_range m1 (mkFileMetadata 4096 4104) = (16384, 3)) as -> by by vm_compute.
    split; [apply app1_buffer; cbn; lia|done].
  - exists m'. split; [exact E|]. destruct (Hv 16386 (app1_buffer 16386 1 ltac:(lia) ltac:(lia) 0 ltac:(lia))) as (H1 & H2 & _).
    unfold view. rewrite H1. f_equal. by apply H2; vm_compute.
Defined.
