(* ===== verification/Leb128.v ===== *)
(** * LEB128, and the delta compression of stack traces

    src/rt/sanitizer_common/sanitizer_leb128.h, and the encoder and the decoder of
    sanitizer_stack_store.cpp on it: a sequence of addresses is stored as the
    signed differences of consecutive ones, in seven bits per byte.

    Values are what their C++ types hold: [sptr] is a Z in [-2^63, 2^63), [uptr] in
    [0, 2^64).  A buffer is the list of the bytes written, with the room that is
    left; an encoder that runs out of room stops in the middle of a number. *)

From S2P Require Import Prelude.

(** A 64-bit value, read as a signed number. *)
Definition s64 (x : Z) : Z := if u64 x <? 2 ^ 63 then u64 x else u64 x - 2 ^ 64.

(** ** Signed *)

(** One byte per turn, while there is room; [value >>= 7] is an arithmetic shift. *)
Fixpoint EncodeSLEB128 (room : nat) (value : Z) : list Z :=
  match room with
  | O => []
  | S room =>
      let byte := Z.land value 0x7f in
      let value := Z.shiftr value 7 in
      let more := negb ((value =? 0) && (Z.land byte 0x40 =? 0) ||
                        (value =? -1) && negb (Z.land byte 0x40 =? 0)) in
      if more then Z.lor byte 0x80 :: EncodeSLEB128 room value else [byte]
  end.

(** The loop; a read at the end leaves the result unset. *)
Fixpoint decode_sleb (bytes : list Z) (value shift : Z) : list Z * option Z :=
  match bytes with
  | [] => ([], None)
  | byte :: bytes =>
      let slice := Z.land byte 0x7f in
      let value := Z.lor value (u64 (Z.shiftl slice shift)) in
      let shift := shift + 7 in
      if 128 <=? byte then decode_sleb bytes value shift
      else (bytes, Some (s64 (if (shift <? 64) && negb (Z.land byte 0x40 =? 0)
                              then Z.lor value (u64 (Z.shiftl (2 ^ 64 - 1) shift)) else value)))
  end.

Definition DecodeSLEB128 (bytes : list Z) : list Z * option Z := decode_sleb bytes 0 0.

(** ** Unsigned *)

Fixpoint EncodeULEB128 (room : nat) (value : Z) : list Z :=
  match room with
  | O => []
  | S room =>
      let byte := Z.land value 0x7f in
      let value := Z.shiftr value 7 in
      if value =? 0 then [byte] else Z.lor byte 0x80 :: EncodeULEB128 room value
  end.

Fixpoint decode_uleb (bytes : list Z) (value shift : Z) : list Z * option Z :=
  match bytes with
  | [] => ([], None)
  | byte :: bytes =>
      let slice := Z.land byte 0x7f in
      let value := u64 (value + Z.shiftl slice shift) in
      let shift := shift + 7 in
      if 128 <=? byte then decode_uleb bytes value shift else (bytes, Some value)
  end.

Definition DecodeULEB128 (bytes : list Z) : list Z * option Z := decode_uleb bytes 0 0.

(** ** The iterators of the stack store

    [SLeb128Encoder]: assigning a value writes its difference from the previous
    one.  [SLeb128Decoder]: reading advances, and adds the difference. *)

Record SLeb128Encoder := mkEncoder { enc_room : nat; enc_previous : Z }.

Definition encoder_assign (e : SLeb128Encoder) (v : Z) : list Z * SLeb128Encoder :=
  let diff := s64 (v - enc_previous e) in
  let bytes := EncodeSLEB128 (enc_room e) diff in
  (bytes, mkEncoder (enc_room e - length bytes) v).

Record SLeb128Decoder := mkDecoder { dec_bytes : list Z; dec_previous : Z }.

(** [None]: the bytes end in the middle of a number, and the difference that is
    added was never set. *)
Definition decoder_read (d : SLeb128Decoder) : option (Z * SLeb128Decoder) :=
  match DecodeSLEB128 (dec_bytes d) with
  | (bytes, Some diff) => let v := u64 (dec_previous d + diff) in Some (v, mkDecoder bytes v)
  | (_, None) => None
  end.

(** Writing a sequence of values, from [begin] to the end of the room. *)
Fixpoint encode_all (e : SLeb128Encoder) (from : list Z) : list Z :=
  match from with
  | [] => []
  | v :: from => let '(bytes, e) := encoder_assign e v in bytes ++ encode_all e from
  end.

(** Reading until the iterator is at the end; every value takes a byte or more. *)
Fixpoint decode_all (fuel : nat) (d : SLeb128Decoder) : option (list Z) :=
  match fuel with
  | O => None
  | S fuel =>
      match dec_bytes d with
      | [] => Some []
      | _ => match decoder_read d with
             | Some (v, d) => (cons v) <$> decode_all fuel d
             | None => None
             end
      end
  end.

Definition CompressDelta (from : list Z) (room : nat) : list Z := encode_all (mkEncoder room 0) from.

(** The check that the output is full is the caller's length. *)
Definition UncompressDelta (from : list Z) (to_len : Z) : outcome (list Z) :=
  match decode_all (S (length from)) (mkDecoder from 0) with
  | Some to => _ ← check (Z.of_nat (length to) =? to_len) "to == to_end"; mret to
  | None => Died "truncated"
  end.

(** ** Facts *)

Lemma s64_range x : - 2 ^ 63 <= s64 x < 2 ^ 63.
Proof. unfold s64. pose proof (u64_range x). case_match; bool_hyps; lia. Qed.

Lemma s64_small x : - 2 ^ 63 <= x < 2 ^ 63 -> s64 x = x.
Proof.
  intros Hx. unfold s64, u64. destruct (Z.le_gt_cases 0 x).
  - rewrite Z.mod_small by lia. case_match; bool_hyps; lia.
  - assert (x mod 2 ^ 64 = x + 2 ^ 64) as -> by (symmetry; apply (Z.mod_unique x _ (-1)); lia).
    case_match; bool_hyps; lia.
Qed.

Lemma u64_s64 x : u64 (s64 x) = u64 x.
Proof.
  unfold s64. case_match; unfold u64.
  - by rewrite Z.mod_mod by lia.
  - replace (x mod 2 ^ 64 - 2 ^ 64) with (x mod 2 ^ 64 + (-1) * 2 ^ 64) by lia. by rewrite Z_mod_plus_full, Z.mod_mod.
Qed.

Lemma u64_idemp_add a b : u64 (a + u64 b) = u64 (a + b).
Proof. unfold u64. by rewrite Zplus_mod_idemp_r. Qed.

(** The difference is added back. *)
Lemma delta_back prev v : 0 <= v < 2 ^ 64 -> u64 (prev + s64 (v - prev)) = v.
Proof.
  intros Hv. rewrite <- u64_idemp_add, u64_s64, u64_idemp_add.
  replace (prev + (v - prev)) with v by lia. by apply u64_small.
Qed.

Lemma lor_high a b s : 0 <= a < 2 ^ s -> 0 <= s -> Z.lor a (Z.shiftl b s) = a + b * 2 ^ s.
Proof.
  intros Ha Hs. rewrite <- Z.shiftl_mul_pow2 by done.
  assert (Z.land a (Z.shiftl b s) = 0) as H0.
  { apply Z.bits_inj'. intros n Hn. rewrite Z.land_spec, Z.bits_0. destruct (Z.lt_ge_cases n s).
    - rewrite (Z.shiftl_spec_low b s n) by done. apply andb_false_r.
    - assert (Z.testbit a n = false) as ->; [|done].
      rewrite <- (Z.mod_small a (2 ^ s) Ha). apply Z.mod_pow2_bits_high. lia. }
  rewrite Z.add_nocarry_lxor by done. by rewrite Z.lxor_lor.
Qed.

Lemma low7 v : Z.land v 0x7f = v mod 128.
Proof. exact (Z.land_ones v 7 ltac:(lia)). Qed.

Lemma high7 v : Z.shiftr v 7 = v / 128.
Proof. exact (Z.shiftr_div_pow2 v 7 ltac:(lia)). Qed.

Lemma with_more b : 0 <= b < 128 -> Z.lor b 0x80 = b + 128.
Proof. intros Hb. exact (lor_high b 1 7 ltac:(lia) ltac:(lia)). Qed.

Lemma without_more b : 0 <= b < 128 -> Z.land (b + 128) 0x7f = b.
Proof. intros Hb. rewrite low7. symmetry. apply (Z.mod_unique _ _ 1); lia. Qed.

(** The sign bit of a byte. *)
Lemma bit6 b : 0 <= b < 128 -> (Z.land b 0x40 =? 0) = (b <? 64).
Proof.
  intros Hb. assert (forallb (fun b => Bool.eqb (Z.land b 0x40 =? 0) (b <? 64)) (zrange 128) = true) as H by reflexivity.
  rewrite forallb_zrange in H. specialize (H b ltac:(lia)). by apply Bool.eqb_prop in H.
Qed.

(** What one turn of the encoder writes. *)
Lemma encode_turn room v :
  let b := v mod 128 in
  EncodeSLEB128 (S room) v =
    if (v =? b) && (b <? 64) || (v =? b - 128) && negb (b <? 64) then [b]
    else b + 128 :: EncodeSLEB128 room (v / 128).
Proof.
  intros b. cbn [EncodeSLEB128]. rewrite low7, high7. fold b. pose proof (Z.mod_pos_bound v 128 ltac:(lia)) as Hb. fold b in Hb.
  rewrite bit6, with_more by done. pose proof (Z.div_mod v 128 ltac:(lia)) as Hv. fold b in Hv.
  replace (v / 128 =? 0) with (v =? b) by (apply eq_true_iff_eq; rewrite !Z.eqb_eq; lia).
  replace (v / 128 =? -1) with (v =? b - 128) by (apply eq_true_iff_eq; rewrite !Z.eqb_eq; lia).
  by destruct (_ || _).
Qed.

(** The accumulated value after a byte, and its sign extension. *)
Lemma acc_next acc b s : 0 <= acc < 2 ^ s -> 0 <= b < 128 -> 0 <= s <= 57 ->
  Z.lor acc (u64 (Z.shiftl b s)) = acc + b * 2 ^ s /\ 0 <= acc + b * 2 ^ s < 2 ^ (s + 7).
Proof.
  intros Hacc Hb Hs. assert (0 < 2 ^ s) by (apply Z.pow_pos_nonneg; lia).
  assert (0 <= b * 2 ^ s <= 127 * 2 ^ s) as Hm by (split; [apply Z.mul_nonneg_nonneg|apply Z.mul_le_mono_nonneg_r]; lia).
  pose proof (Z.pow_le_mono_r 2 (s + 7) 64 ltac:(lia) ltac:(lia)) as H64.
  assert (2 ^ (s + 7) = 128 * 2 ^ s) as E7 by (rewrite Z.pow_add_r by lia; lia). split; [|lia].
  rewrite u64_small; [by apply lor_high; lia|]. rewrite Z.shiftl_mul_pow2 by lia. lia.
Qed.

Lemma sign_extend acc t : 0 <= acc < 2 ^ t -> 0 <= t < 64 ->
  s64 (Z.lor acc (u64 (Z.shiftl (2 ^ 64 - 1) t))) = s64 (acc - 2 ^ t).
Proof.
  intros Hacc Ht. assert (0 < 2 ^ t < 2 ^ 64) as Hp by (split; [apply Z.pow_pos_nonneg|apply Z.pow_lt_mono_r]; lia).
  assert (2 ^ 64 = 2 ^ t * 2 ^ (64 - t)) as E64 by (rewrite <- Z.pow_add_r by lia; f_equal; lia).
  assert (u64 (Z.shiftl (2 ^ 64 - 1) t) = Z.shiftl (2 ^ (64 - t) - 1) t) as ->.
  { rewrite !Z.shiftl_mul_pow2 by lia. unfold u64. symmetry. apply (Z.mod_unique _ _ (2 ^ t - 1)); lia. }
  rewrite lor_high by lia. unfold s64.
  assert (u64 (acc + (2 ^ (64 - t) - 1) * 2 ^ t) = u64 (acc - 2 ^ t)) as ->; [|done].
  replace (acc + (2 ^ (64 - t) - 1) * 2 ^ t) with (acc - 2 ^ t + 1 * 2 ^ 64) by lia.
  unfold u64. apply Z_mod_plus_full.
Qed.

(** The bits decoded so far, and the ones to come. *)
Lemma decode_encode i room v acc rest :
  0 <= i <= 9 -> (Z.to_nat (10 - i) <= room)%nat -> - 2 ^ (63 - 7 * i) <= v < 2 ^ (63 - 7 * i) ->
  0 <= acc < 2 ^ (7 * i) ->
  decode_sleb (EncodeSLEB128 room v ++ rest) acc (7 * i) = (rest, Some (s64 (acc + v * 2 ^ (7 * i)))) /\
  (length (EncodeSLEB128 room v) <= Z.to_nat (10 - i))%nat.
Proof.
  revert i v acc. induction room as [|room IH]; intros i v acc Hi Hroom Hv Hacc; [lia|].
  rewrite encode_turn. set (b := v mod 128). pose proof (Z.mod_pos_bound v 128 ltac:(lia)) as Hb. fold b in Hb.
  pose proof (Z.div_mod v 128 ltac:(lia)) as Hdm. fold b in Hdm. clearbody b.
  assert (0 < 2 ^ (7 * i)) as Hpos by (apply Z.pow_pos_nonneg; lia).
  assert (i = 9 -> (v =? b) && (b <? 64) || (v =? b - 128) && negb (b <? 64) = true) as Hlast.
  { intros ->. cbn in Hv. assert (v = 0 /\ b = 0 \/ v = -1 /\ b = 127) as [[-> ->]|[-> ->]] by lia; reflexivity. }
  destruct (_ || _) eqn:Estop.
  - split; [|cbn [length]; lia]. cbn [app decode_sleb].
    rewrite (proj2 (Z.leb_gt 128 b)), low7, bit6, (Z.mod_small b 128) by lia. do 2 f_equal.
    destruct (Z.eq_dec i 9) as [->|Hi9].
    + cbn in Hv. change (7 * 9 + 7 <? 64) with false. cbn [andb].
      assert (v = 0 /\ b = 0 \/ v = -1 /\ b = 127) as [[-> ->]|[-> ->]] by lia.
      * change (u64 (Z.shiftl 0 (7 * 9))) with 0. rewrite Z.lor_0_r. by rewrite Z.add_0_r.
      * change (u64 (Z.shiftl 127 (7 * 9))) with (Z.shiftl 1 63). rewrite lor_high by (cbn in Hacc; lia).
        unfold s64. assert (u64 (acc + 1 * 2 ^ 63) = u64 (acc + -1 * 2 ^ (7 * 9))) as ->; [|done].
        unfold u64. replace (acc + 1 * 2 ^ 63) with (acc + -1 * 2 ^ (7 * 9) + 1 * 2 ^ 64) by lia. apply Z_mod_plus_full.
    + destruct (acc_next acc b (7 * i) Hacc Hb ltac:(lia)) as [-> Hnext].
      rewrite (proj2 (Z.ltb_lt (7 * i + 7) 64)) by lia. cbn [andb].
      apply orb_true_iff in Estop. rewrite !andb_true_iff, !negb_true_iff, !Z.eqb_eq in Estop.
      destruct Estop as [[-> ->]|[-> ->]]; [done|]. cbn [negb]. rewrite sign_extend by lia. f_equal.
      rewrite (Z.pow_add_r 2 (7 * i) 7) by lia. lia.
  - assert (i <> 9) as Hi9 by (intros E9; specialize (Hlast E9); congruence).
    destruct (acc_next acc b (7 * i) Hacc Hb ltac:(lia)) as [Enext Hnext].
    assert (2 ^ (63 - 7 * i) = 128 * 2 ^ (63 - 7 * (i + 1))) as E128.
    { replace (63 - 7 * i) with (7 + (63 - 7 * (i + 1))) by lia. by rewrite Z.pow_add_r by lia. }
    destruct (IH (i + 1) (v / 128) (acc + b * 2 ^ (7 * i))) as [Ed El]; [lia|lia|lia| |].
    { replace (7 * (i + 1)) with (7 * i + 7) by lia. done. }
    split; [|cbn [length]; lia]. cbn [app decode_sleb].
    rewrite (proj2 (Z.leb_le 128 (b + 128))), without_more, Enext by lia.
    replace (7 * i + 7) with (7 * (i + 1)) by lia. rewrite Ed. do 3 f_equal.
    replace (7 * (i + 1)) with (7 * i + 7) by lia. rewrite (Z.pow_add_r 2 (7 * i) 7) by lia.
    rewrite Hdm at 2. lia.
Qed.

(** ** Room *)

(** A number as it is with room to spare. *)
Definition sleb (v : Z) : list Z := EncodeSLEB128 10 v.

Lemma encode_firstn room room' v : (room <= room')%nat -> EncodeSLEB128 room v = firstn room (EncodeSLEB128 room' v).
Proof.
  revert room' v. induction room as [|room IH]; intros [|room'] v Hle; [done|done|lia|].
  rewrite !encode_turn. destruct (_ || _); cbn [firstn]; [by rewrite firstn_nil|].
  f_equal. apply IH. lia.
Qed.

Lemma sleb_decode v rest : - 2 ^ 63 <= v < 2 ^ 63 ->
  DecodeSLEB128 (sleb v ++ rest) = (rest, Some v) /\ (1 <= length (sleb v) <= 10)%nat.
Proof.
  intros Hv. destruct (decode_encode 0 10 v 0 rest ltac:(lia) ltac:(lia) Hv ltac:(cbn; lia)) as [E Hl].
  split; [|split; [|exact Hl]].
  - change (decode_sleb (EncodeSLEB128 10 v ++ rest) 0 (7 * 0) = (rest, Some v)). rewrite E.
    by rewrite Z.mul_0_r, Z.pow_0_r, Z.mul_1_r, Z.add_0_l, s64_small.
  - unfold sleb. rewrite encode_turn. destruct (_ || _); cbn [length]; lia.
Qed.

Lemma encode_room room v : - 2 ^ 63 <= v < 2 ^ 63 -> EncodeSLEB128 room v = firstn room (sleb v).
Proof.
  intros Hv. destruct (le_lt_dec room 10) as [Hle|Hgt]; [by apply encode_firstn|].
  destruct (sleb_decode v [] Hv) as [_ [_ Hl]]. rewrite firstn_all2 by lia.
  unfold sleb. rewrite (encode_firstn 10 room v) by lia.
  destruct (decode_encode 0 room v 0 [] ltac:(lia) ltac:(lia) Hv ltac:(cbn; lia)) as [_ Hr].
  symmetry. apply firstn_all2. exact Hr.
Qed.

(** The differences of a sequence of addresses, all encoded. *)
Fixpoint delta_bytes (previous : Z) (from : list Z) : list Z :=
  match from with
  | [] => []
  | v :: from => sleb (s64 (v - previous)) ++ delta_bytes v from
  end.

Lemma encode_all_room e from :
  encode_all e from = firstn (enc_room e) (delta_bytes (enc_previous e) from).
Proof.
  revert e. induction from as [|v from IH]; intros [room prev]; cbn [encode_all delta_bytes enc_room enc_previous];
    [by rewrite firstn_nil|].
  unfold encoder_assign. cbn [enc_room enc_previous]. rewrite IH. cbn [enc_room enc_previous].
  rewrite (encode_room room _ (s64_range _)), length_firstn, firstn_app. do 2 f_equal. lia.
Qed.

Lemma decode_all_delta fuel previous from :
  Forall (fun v => 0 <= v < 2 ^ 64) from -> (length (delta_bytes previous from) < fuel)%nat ->
  decode_all fuel (mkDecoder (delta_bytes previous from) previous) = Some from.
Proof.
  revert fuel previous. induction from as [|v from IH]; intros [|fuel] previous Hall Hf; try (cbn in Hf; lia); [done|].
  apply list.Forall_cons in Hall as [Hv Hall]. cbn [delta_bytes] in *. rewrite length_app in Hf.
  destruct (sleb_decode (s64 (v - previous)) (delta_bytes v from) (s64_range _)) as [E [Hpos _]].
  cbn [decode_all dec_bytes]. unfold decoder_read. cbn [dec_bytes dec_previous]. rewrite E.
  destruct (sleb (s64 (v - previous))) as [|b bs] eqn:Eb; [cbn in Hpos; lia|]. cbn [app].
  rewrite delta_back by done. rewrite IH; [done|done|lia].
Qed.

Lemma decode_all_compressed from room :
  Forall (fun v => 0 <= v < 2 ^ 64) from -> (length (CompressDelta from room) < room)%nat ->
  let bytes := CompressDelta from room in decode_all (S (length bytes)) (mkDecoder bytes 0) = Some from.
Proof.
  intros Hall Hl bytes. subst bytes. unfold CompressDelta in *. rewrite encode_all_room in *. cbn [enc_room enc_previous] in *.
  rewrite length_firstn in Hl. rewrite firstn_all2 by lia. apply decode_all_delta; [done|lia].
Qed.

Lemma delta_bytes_length previous from : (length from <= length (delta_bytes previous from))%nat.
Proof.
  revert previous. induction from as [|v from IH]; intros previous; cbn [delta_bytes length]; [lia|].
  rewrite length_app. destruct (sleb_decode (s64 (v - previous)) [] (s64_range _)) as [_ [Hpos _]]. specialize (IH v). lia.
Qed.

Lemma compressed_length from room : (length (CompressDelta from room) < room)%nat ->
  (length from <= length (CompressDelta from room))%nat.
Proof.
  unfold CompressDelta. rewrite encode_all_room. cbn [enc_room enc_previous]. rewrite length_firstn.
  pose proof (delta_bytes_length 0 from). lia.
Qed.

(** ** Properties *)

(** signed LEB128 is a round trip.  Any 64-bit signed number is encoded in one
    to ten bytes, and decodes to itself from the front of any byte sequence, which
    the decoder leaves at the end of the number. *)
Theorem SLEB128_roundtrip v room rest :
  - 2 ^ 63 <= v < 2 ^ 63 -> (10 <= room)%nat ->
  DecodeSLEB128 (EncodeSLEB128 room v ++ rest) = (rest, Some v) /\
  (1 <= length (EncodeSLEB128 room v) <= 10)%nat.
Proof.
  intros Hv Hroom. rewrite encode_room by done. destruct (sleb_decode v rest Hv) as [E Hl].
  by rewrite firstn_all2 by lia.
Qed.

Lemma SLEB128_roundtrip_witness :
  DecodeSLEB128 (EncodeSLEB128 16 (- 2 ^ 63) ++ [7]) = ([7], Some (- 2 ^ 63)).
Proof. exact (proj1 (SLEB128_roundtrip (- 2 ^ 63) 16 [7] ltac:(lia) ltac:(lia))). Defined.

Lemma uncompress_compress_delta from room :
  Forall (fun v => 0 <= v < 2 ^ 64) from ->
  if (length (CompressDelta from room) <? room)%nat
  then UncompressDelta (CompressDelta from room) (Z.of_nat (length from)) = Done from
  else length (CompressDelta from room) = room.
Proof.
  intros Hall. destruct (Nat.ltb_spec (length (CompressDelta from room)) room) as [Hl|Hge].
  - unfold UncompressDelta. rewrite (decode_all_compressed from room Hall Hl).
    by rewrite (proj2 (check_done _ _ tt)) by apply Z.eqb_refl.
  - unfold CompressDelta in *. rewrite encode_all_room in *. rewrite length_firstn in *. cbn [enc_room] in *. lia.
Qed.

(** the delta compression of stack traces is lossless.  A block of addresses
    that compresses to less than the room it was given uncompresses to itself,
    with every check passing; one that does not fit fills the room exactly, which
    is how [Pack] knows that nothing was gained. *)
Theorem delta_roundtrip from room :
  Forall (fun v => 0 <= v < 2 ^ 64) from ->
  if (length (CompressDelta from room) <? room)%nat
  then UncompressDelta (CompressDelta from room) (Z.of_nat (length from)) = Done from
  else length (CompressDelta from room) = room.
Proof. apply uncompress_compress_delta. Qed.

Lemma delta_roundtrip_witness :
  UncompressDelta (CompressDelta [0x401000; 0x401004; 0x400ff0; 2 ^ 64 - 1; 0] 64) 5
    = Done [0x401000; 0x401004; 0x400ff0; 2 ^ 64 - 1; 0].
Proof.
  exact (delta_roundtrip [0x401000; 0x401004; 0x400ff0; 2 ^ 64 - 1; 0] 64 ltac:(repeat constructor; lia)).
Defined.

(** *** Unsigned *)

Lemma encode_uturn room v :
  EncodeULEB128 (S room) v =
    if v / 128 =? 0 then [v mod 128] else v mod 128 + 128 :: EncodeULEB128 room (v / 128).
Proof. cbn [EncodeULEB128]. by rewrite low7, high7, with_more by (apply Z.mod_pos_bound; lia). Qed.

Lemma udecode_encode i room v acc rest :
  0 <= i <= 9 -> (Z.to_nat (10 - i) <= room)%nat -> 0 <= v -> 0 <= acc -> acc + v * 2 ^ (7 * i) < 2 ^ 64 ->
  decode_uleb (EncodeULEB128 room v ++ rest) acc (7 * i) = (rest, Some (acc + v * 2 ^ (7 * i))) /\
  (length (EncodeULEB128 room v) <= Z.to_nat (10 - i))%nat.
Proof.
  revert i v acc. induction room as [|room IH]; intros i v acc Hi Hroom Hv Hacc Hle; [lia|].
  rewrite encode_uturn. pose proof (Z.div_mod v 128 ltac:(lia)) as Hdm. pose proof (Z.mod_pos_bound v 128 ltac:(lia)) as Hb.
  assert (0 < 2 ^ (7 * i)) as Hpos by (apply Z.pow_pos_nonneg; lia).
  assert (2 ^ (7 * (i + 1)) = 128 * 2 ^ (7 * i)) as E7
    by (replace (7 * (i + 1)) with (7 + 7 * i) by lia; by rewrite Z.pow_add_r by lia).
  set (b := v mod 128) in *. set (q := v / 128) in *. assert (0 <= q) as Hq by (apply Z.div_pos; lia). clearbody b q.
  assert (v * 2 ^ (7 * i) = q * 2 ^ (7 * (i + 1)) + b * 2 ^ (7 * i)) as Ev by (rewrite E7, Hdm; lia).
  assert (0 <= b * 2 ^ (7 * i) /\ 0 <= q * 2 ^ (7 * (i + 1))) as [Hb2 Hq2]
    by (split; apply Z.mul_nonneg_nonneg; lia).
  assert (u64 (acc + Z.shiftl b (7 * i)) = acc + b * 2 ^ (7 * i)) as Eacc
    by (rewrite Z.shiftl_mul_pow2 by lia; apply u64_small; lia).
  destruct (Z.eqb_spec q 0) as [->|Hq0]; cbn [app decode_uleb].
  - rewrite (proj2 (Z.leb_gt 128 b)), low7, (Z.mod_small b 128) by lia. rewrite Eacc. split; [|cbn [length]; lia].
    do 3 f_equal. lia.
  - assert (i <> 9) as Hi9.
    { intros ->. assert (1 * 2 ^ (7 * (9 + 1)) <= q * 2 ^ (7 * (9 + 1))) by (apply Z.mul_le_mono_nonneg_r; lia).
      change (2 ^ (7 * (9 + 1))) with (64 * 2 ^ 64) in *. lia. }
    destruct (IH (i + 1) q (acc + b * 2 ^ (7 * i))) as [Ed El]; [lia|lia|lia|lia|lia|].
    split; [|cbn [length]; lia].
    rewrite (proj2 (Z.leb_le 128 (b + 128))), without_more, Eacc by lia.
    replace (7 * i + 7) with (7 * (i + 1)) by lia. rewrite Ed. do 2 f_equal. lia.
Qed.

(** unsigned LEB128 is a round trip, for any 64-bit number. *)
Theorem ULEB128_roundtrip v room rest :
  0 <= v < 2 ^ 64 -> (10 <= room)%nat ->
  DecodeULEB128 (EncodeULEB128 room v ++ rest) = (rest, Some v) /\ (length (EncodeULEB128 room v) <= 10)%nat.
Proof.
  intros Hv Hroom. destruct (udecode_encode 0 room v 0 rest) as [E Hl]; try lia. split; [|exact Hl].
  change (decode_uleb (EncodeULEB128 room v ++ rest) 0 (7 * 0) = (rest, Some v)). rewrite E.
  by rewrite Z.mul_0_r, Z.pow_0_r, Z.mul_1_r, Z.add_0_l.
Qed.

Lemma ULEB128_roundtrip_witness : DecodeULEB128 (EncodeULEB128 10 (2 ^ 64 - 1) ++ []) = ([], Some (2 ^ 64 - 1)).
Proof. exact (proj1 (ULEB128_roundtrip (2 ^ 64 - 1) 10 [] ltac:(lia) ltac:(lia))). Defined.
