(* ===== verification/Lzw.v ===== *)
(** * LZW compression of stack traces

    src/rt/sanitizer_common/sanitizer_lzw.h.  The iterators are lists: the input
    and the output of the encoder, the input of the decoder.  The decoder's table
    refers to its own output by position, so the output is a list that grows.  The
    dense map from substrings to codes is a finite map; its two reserved keys have
    a prefix that no code reaches.

    The round trip: the decoder gives back what was encoded, and no check or
    access out of range happens on the way. *)

From S2P Require Import Prelude Common Arrays.

(** ** Definitions *)

(** A substring, as the code of its prefix and its last item. *)
Notation Substring := (Z * Z)%type.

(** Below the reserved keys, ~0U and ~0U - 1. *)
Definition kNoPrefix : Z := Z.min (2 ^ 32 - 1) (2 ^ 32 - 2) - 1.

(** [Sort] of a vector. *)
Definition sort_items (dict : list Z) : list Z :=
  let n := Z.of_nat (length dict) in
  map (Sort Z.ltb (fun i => nth (Z.to_nat i) dict 0) n) (zrange n).

(** The items of the input, each once, in the order they appear. *)
Fixpoint first_items (it : list Z) (prefix_to_code : gmap Substring Z) (dict_len1 : list Z)
    : gmap Substring Z * list Z :=
  match it with
  | [] => (prefix_to_code, dict_len1)
  | x :: it =>
      match prefix_to_code !! (kNoPrefix, x) with
      | Some _ => first_items it prefix_to_code dict_len1
      | None => first_items it (<[(kNoPrefix, x) := 0]> prefix_to_code) (dict_len1 ++ [x])
      end
  end.

Definition remap (dict_len1 : list Z) (prefix_to_code : gmap Substring Z) : gmap Substring Z :=
  fold_left (fun m (ix : Z * Z) => <[(kNoPrefix, ix.2) := ix.1]> m)
    (zip (zrange (Z.of_nat (length dict_len1))) dict_len1) prefix_to_code.

(** [prefix_to_code.find(...)->second], of a key that must be there. *)
Definition find (m : gmap Substring Z) (k : Substring) : outcome Z :=
  match m !! k with Some c => mret c | None => Died "end()->second" end.

(** The main loop, with the codes it writes. *)
Fixpoint encode_loop (it : list Z) (prefix_to_code : gmap Substring Z) (match_ : Z) : outcome (list Z) :=
  match it with
  | [] => mret [match_]
  | x :: it =>
      match prefix_to_code !! (match_, x) with
      | Some c => encode_loop it prefix_to_code c
      | None =>
          let prefix_to_code := <[(match_, x) := u32 (Z.of_nat (size prefix_to_code))]> prefix_to_code in
          c ← find prefix_to_code (kNoPrefix, x);
          out ← encode_loop it prefix_to_code c;
          mret (match_ :: out)
      end
  end.

Definition LzwEncode (input : list Z) : outcome (list Z) :=
  let '(prefix_to_code, dict_len1) := first_items input ∅ [] in
  let dict_len1 := sort_items dict_len1 in
  let prefix_to_code := remap dict_len1 prefix_to_code in
  _ ← check (size prefix_to_code =? length dict_len1)%nat "prefix_to_code.size() == dict_len1.size()";
  codes ← match input with
          | [] => mret []
          | x :: it => c ← find prefix_to_code (kNoPrefix, x); encode_loop it prefix_to_code c
          end;
  mret (Z.of_nat (length dict_len1) :: dict_len1 ++ codes).

(** *** The decoder *)

(** [for (it = first; it != second; ++it, ++out) *out = *it], on the output itself. *)
Fixpoint copy_range (n first : nat) (out : list Z) : outcome (list Z) :=
  match n with
  | O => mret out
  | S n =>
      match out !! first with
      | Some x => copy_range n (S first) (out ++ [x])
      | None => Died "read past the output"
      end
  end.

(** A code of one item, or a substring of the output. *)
Definition copy (dict_len1 : list Z) (code_to_substr : list (nat * nat)) (code : Z) (out : list Z)
    : outcome (list Z) :=
  match dict_len1 !! Z.to_nat code with
  | Some x => mret (out ++ [x])
  | None =>
      match code_to_substr !! (Z.to_nat code - length dict_len1)%nat with
      | Some (first, second) => copy_range (second - first) first out
      | None => Died "code_to_substr[]"
      end
  end.

Definition code_to_len (dict_len1 : list Z) (code_to_substr : list (nat * nat)) (code : Z) : outcome nat :=
  match dict_len1 !! Z.to_nat code with
  | Some _ => mret 1%nat
  | None =>
      match code_to_substr !! (Z.to_nat code - length dict_len1)%nat with
      | Some (first, second) => mret (second - first)%nat
      | None => Died "code_to_substr[]"
      end
  end.

Fixpoint decode_loop (dict_len1 : list Z) (it : list Z) (code_to_substr : list (nat * nat)) (prev_code : Z)
    (out : list Z) : outcome (list Z) :=
  match it with
  | [] => mret out
  | x :: it =>
      let code := u32 x in
      let start := length out in
      out ← (if code =? Z.of_nat (length dict_len1 + length code_to_substr) then
               out ← copy dict_len1 code_to_substr prev_code out;
               match out !! start with
               | Some first => mret (out ++ [first])
               | None => Died "read past the output"
               end
             else copy dict_len1 code_to_substr code out);
      len ← code_to_len dict_len1 code_to_substr prev_code;
      decode_loop dict_len1 it (code_to_substr ++ [((start - len)%nat, S start)]) code out
  end.

(** An input that ends inside of the dictionary is read past its end. *)
Definition LzwDecode (input : list Z) : outcome (list Z) :=
  match input with
  | [] => mret []
  | n :: input =>
      match input with
      | [] => mret []
      | _ =>
          let dict_len1 := firstn (Z.to_nat n) input in
          match skipn (Z.to_nat n) input with
          | x :: it =>
              let prev_code := u32 x in
              out ← copy dict_len1 [] prev_code [];
              decode_loop dict_len1 it [] prev_code out
          | [] => Died "read past the input"
          end
      end
  end.

(** ** The dictionary

    What a code stands for: an item of [dict_len1], or the string of an earlier
    code with the first item of the next one. *)

Definition pairs (ss : list (list Z)) : list (list Z) := zip_with (fun s t => s ++ take 1 t) ss (tail ss).

Definition dictionary (d : list Z) (ss : list (list Z)) : list (list Z) := map (fun x => [x]) d ++ pairs ss.

(** A stream of codes for the strings [ss]: each one can be looked up in the
    dictionary that the strings before it, and its own first item, make. *)
Definition stream (d : list Z) (cs : list Z) (ss : list (list Z)) : Prop :=
  length cs = length ss /\ Forall (fun s => s <> []) ss /\
  forall k c s, cs !! k = Some c -> ss !! k = Some s ->
    0 <= c < 2 ^ 32 /\ dictionary d (take (S k) ss) !! Z.to_nat c = Some s.

Lemma pairs_length ss : length (pairs ss) = pred (length ss).
Proof. unfold pairs. rewrite length_zip_with. destruct ss; cbn [tail length Nat.pred]; lia. Qed.

Lemma pairs_snoc ss s t : pairs (ss ++ [s] ++ [t]) = pairs (ss ++ [s]) ++ [s ++ take 1 t].
Proof.
  induction ss as [|u ss IH]; [done|]. cbn [app] in *.
  assert (forall l, pairs (u :: (ss ++ l)) = match ss ++ l with [] => [] | v :: _ => (u ++ take 1 v) :: pairs (ss ++ l) end) as Hcons
    by (intros l; by destruct (ss ++ l)).
  rewrite !Hcons. rewrite IH. by destruct ss.
Qed.

(** Only the first item of the last string matters. *)
Lemma pairs_last ss s s' : take 1 s = take 1 s' -> pairs (ss ++ [s]) = pairs (ss ++ [s']).
Proof.
  intros E. induction ss as [|u ss IH]; [done|]. destruct ss as [|v ss]; [cbn; by rewrite E|].
  change (pairs ((u :: v :: ss) ++ [s])) with ((u ++ take 1 v) :: pairs ((v :: ss) ++ [s])). by rewrite IH.
Qed.

(** ** The encoder *)

(** What the map holds is in the dictionary. *)
Definition sound (m : gmap Substring Z) (D : list (list Z)) : Prop :=
  size m = length D /\ Z.of_nat (length D) <= kNoPrefix /\
  forall p x c, m !! (p, x) = Some c -> 0 <= c < Z.of_nat (length D) /\
    (p = kNoPrefix -> D !! Z.to_nat c = Some [x]) /\
    (p <> kNoPrefix -> 0 <= p /\ exists s, D !! Z.to_nat p = Some s /\ D !! Z.to_nat c = Some (s ++ [x])).

Lemma sound_extend m D p x s :
  sound m D -> Z.of_nat (length D) < kNoPrefix -> 0 <= p < kNoPrefix -> D !! Z.to_nat p = Some s -> m !! (p, x) = None ->
  sound (<[(p, x) := Z.of_nat (length D)]> m) (D ++ [s ++ [x]]).
Proof.
  intros (Hsz & _ & Hs) Hl Hp Hd Hn. split; [|split].
  - rewrite map_size_insert_None by done. rewrite length_app, Hsz. cbn. lia.
  - rewrite length_app. cbn [length]. lia.
  - intros q y c Hc. rewrite length_app. cbn [length].
    destruct (decide ((q, y) = (p, x))) as [[= -> ->]|Hne].
    + rewrite lookup_insert_eq in Hc. injection Hc as <-. split; [lia|]. split; [lia|]. intros _. split; [lia|].
      exists s. split; [by apply lookup_app_l_Some|]. rewrite Nat2Z.id. by rewrite list_lookup_middle.
    + rewrite lookup_insert_ne in Hc by done. destruct (Hs q y c Hc) as (Hb & H1 & H2). split; [lia|]. split.
      * intros Eq. apply lookup_app_l_Some. by apply H1.
      * intros Nq. destruct (H2 Nq) as (Hq & t & Ht & Hc2). split; [done|].
        exists t. split; by apply lookup_app_l_Some.
Qed.

Lemma stream_snoc d cs ss c w :
  stream d cs ss -> w <> [] -> 0 <= c < 2 ^ 32 -> dictionary d (ss ++ [w]) !! Z.to_nat c = Some w ->
  stream d (cs ++ [c]) (ss ++ [w]).
Proof.
  intros (Hl & Hne & Hs) Hw Hc Hd. split; [rewrite !length_app; cbn [length]; lia|]. split.
  - apply Forall_app. by repeat constructor.
  - intros k c' s Hk1 Hk2. destruct (decide (k = length ss)) as [->|Hk].
    + rewrite list_lookup_middle in Hk2 by done. rewrite list_lookup_middle in Hk1 by lia.
      injection Hk1 as <-. injection Hk2 as <-. split; [done|].
      rewrite take_ge; [done|]. rewrite length_app. cbn [length]. lia.
    + assert (k < length ss)%nat.
      { apply lookup_lt_Some in Hk2. rewrite length_app in Hk2. cbn [length] in Hk2. lia. }
      rewrite lookup_app_l in Hk1 by lia. rewrite lookup_app_l in Hk2 by lia.
      rewrite take_app_le by lia. by apply Hs.
Qed.

Lemma dictionary_last d ss w x : w <> [] -> dictionary d (ss ++ [w ++ [x]]) = dictionary d (ss ++ [w]).
Proof. intros Hw. unfold dictionary. f_equal. apply pairs_last. by destruct w. Qed.

Lemma dictionary_snoc d ss w x : dictionary d ((ss ++ [w]) ++ [[x]]) = dictionary d (ss ++ [w]) ++ [w ++ [x]].
Proof. unfold dictionary. rewrite <- (app_assoc ss), pairs_snoc, app_assoc. done. Qed.

Lemma encode_loop_stream d it : forall m c w ss cs,
  sound m (dictionary d (ss ++ [w])) -> Z.of_nat (length (dictionary d (ss ++ [w])) + length it) < kNoPrefix ->
  dictionary d (ss ++ [w]) !! Z.to_nat c = Some w -> 0 <= c -> w <> [] ->
  (forall x, x ∈ it -> is_Some (m !! (kNoPrefix, x))) -> stream d cs ss ->
  exists out ss', encode_loop it m c = Done out /\ stream d (cs ++ out) (ss ++ ss') /\ concat ss' = w ++ it.
Proof.
  induction it as [|x it IH]; intros m c w ss cs Hs Hl Hd Hc Hw Hit Hst; cbn [encode_loop].
  - exists [c], [w]. split; [done|]. split; [|done].
    apply stream_snoc; try done. split; [done|]. apply lookup_lt_Some in Hd. unfold kNoPrefix in Hl. lia.
  - assert (0 <= c < kNoPrefix) as Hcb by (apply lookup_lt_Some in Hd; lia). cbn [length] in Hl.
    destruct (m !! (c, x)) as [c'|] eqn:Ec.
    + destruct Hs as (Hsz & Hb & Hs). destruct (Hs c x c' Ec) as (Hc' & _ & H2).
      destruct (H2 ltac:(lia)) as (_ & s & Hs1 & Hs2). rewrite Hd in Hs1. injection Hs1 as <-.
      destruct (IH m c' (w ++ [x]) ss cs) as (out & ss' & E & Hst' & Ecat).
      * by rewrite dictionary_last.
      * rewrite dictionary_last by done. lia.
      * by rewrite dictionary_last.
      * lia.
      * by destruct w.
      * intros y Hy. apply Hit. by right.
      * done.
      * exists out, ss'. split; [done|]. split; [done|]. rewrite Ecat. by rewrite <- app_assoc.
    + assert (u32 (Z.of_nat (size m)) = Z.of_nat (length (dictionary d (ss ++ [w])))) as ->.
      { destruct Hs as (-> & _). apply u32_small. unfold kNoPrefix in Hl. lia. }
      set (m' := <[_ := _]> m).
      assert (sound m' (dictionary d ((ss ++ [w]) ++ [[x]]))) as Hs'.
      { rewrite dictionary_snoc. apply sound_extend; try done. lia. }
      assert (forall y, is_Some (m !! (kNoPrefix, y)) -> exists i, m' !! (kNoPrefix, y) = Some i) as Hkeep.
      { intros y [i Hi]. exists i. unfold m'. rewrite lookup_insert_ne; [done|]. intros [= E _]. lia. }
      destruct (Hkeep x (Hit x ltac:(left))) as [i Hi]. unfold find. rewrite Hi. cbn [mbind outcome_bind mret outcome_ret].
      destruct Hs' as (Hsz' & Hb' & Hs'). destruct (Hs' _ _ _ Hi) as (Hib & Hi1 & _).
      destruct (IH m' i [x] (ss ++ [w]) (cs ++ [c])) as (out & ss' & E & Hst' & Ecat).
      * done.
      * rewrite dictionary_snoc, length_app. cbn [length]. lia.
      * by apply Hi1.
      * lia.
      * done.
      * intros y Hy. destruct (Hkeep y (Hit y ltac:(by right))) as [j Hj]. by exists j.
      * apply stream_snoc; try done. unfold kNoPrefix in Hcb. lia.
      * exists (c :: out), (w :: ss'). rewrite E. split; [done|].
        rewrite <- !app_assoc in Hst'. split; [done|]. cbn [concat]. by rewrite Ecat.
Qed.

(** *** The items *)

Definition items_inv (m : gmap Substring Z) (dict : list Z) : Prop :=
  NoDup dict /\ size m = length dict /\ forall k, is_Some (m !! k) <-> exists x, k = (kNoPrefix, x) /\ x ∈ dict.

Lemma first_items_spec it : forall m dict, items_inv m dict ->
  let '(m', dict') := first_items it m dict in
  items_inv m' dict' /\ (forall x, x ∈ dict' <-> x ∈ dict \/ x ∈ it) /\ (length dict' <= length dict + length it)%nat.
Proof.
  induction it as [|x it IH]; intros m dict (Hnd & Hsz & Hk); cbn [first_items].
  - split; [done|]. split; [|lia]. intros y. rewrite elem_of_nil. tauto.
  - destruct (m !! (kNoPrefix, x)) as [c|] eqn:E.
    + specialize (IH m dict (conj Hnd (conj Hsz Hk))). destruct (first_items it m dict) as [m' dict'].
      destruct IH as (H1 & H2 & H3). split; [done|]. split; [|cbn [length]; lia].
      assert (x ∈ dict) as Hx by (destruct (proj1 (Hk (kNoPrefix, x)) ltac:(by rewrite E)) as (y & [= <-] & ?); done).
      intros y. rewrite H2. set_solver.
    + assert (x ∉ dict) as Hx.
      { intros Hx. destruct (proj2 (Hk (kNoPrefix, x)) ltac:(by exists x)) as [c Hc]. congruence. }
      specialize (IH (<[(kNoPrefix, x) := 0]> m) (dict ++ [x])).
      destruct (first_items it _ _) as [m' dict']. destruct IH as (H1 & H2 & H3).
      * split; [|split].
        -- apply list.NoDup_app. split; [done|]. split; [|apply NoDup_singleton]. set_solver.
        -- rewrite map_size_insert_None, length_app by done. cbn [length]. lia.
        -- intros k. rewrite lookup_insert_is_Some', Hk. setoid_rewrite elem_of_app. setoid_rewrite list_elem_of_singleton.
           split; [intros [<-|(y & -> & Hy)]; eauto|]. intros (y & -> & [Hy| ->]); [right; eauto|by left].
      * split; [done|]. split; [|rewrite length_app in H3; cbn [length] in *; lia]. intros y. rewrite H2. set_solver.
Qed.

(** *** The sorted dictionary *)

Lemma sort_items_spec dict : NoDup dict ->
  NoDup (sort_items dict) /\ length (sort_items dict) = length dict /\ forall x, x ∈ sort_items dict <-> x ∈ dict.
Proof.
  intros Hnd. unfold sort_items. set (v := fun i => nth (Z.to_nat i) dict 0). set (n := Z.of_nat (length dict)).
  destruct (Sort_sorts Z.ltb v n) as [(p & q & Hp & Hpq & Hqp & Hin & Hiq & _) _].
  assert (forall i, 0 <= i < n -> dict !! Z.to_nat i = Some (v i)) as Hv.
  { intros i Hi. destruct (lookup_lt_is_Some_2 dict (Z.to_nat i) ltac:(lia)) as [x Hx].
    unfold v. by rewrite Hx, (nth_lookup_Some _ _ _ _ Hx). }
  split; [|split].
  - apply NoDup_fmap_2_strong; [|apply zrange_NoDup]. intros i j Hi%elem_of_zrange Hj%elem_of_zrange E.
    rewrite !Hp in E. pose proof (Hv (p i) ltac:(apply Hin; lia)) as H1. pose proof (Hv (p j) ltac:(apply Hin; lia)) as H2.
    rewrite E in H1. pose proof (NoDup_lookup _ _ _ _ Hnd H1 H2) as E2.
    pose proof (Hin i ltac:(lia)). pose proof (Hin j ltac:(lia)). rewrite <- (Hqp i), <- (Hqp j). f_equal. lia.
  - rewrite length_map, zrange_length. lia.
  - intros x. rewrite list_elem_of_fmap. setoid_rewrite elem_of_zrange. split.
    + intros (i & -> & Hi). rewrite Hp. eapply list_elem_of_lookup_2. apply Hv. apply Hin. lia.
    + intros (i & Hi)%list_elem_of_lookup_1. pose proof (lookup_lt_Some _ _ _ Hi).
      exists (q (Z.of_nat i)). rewrite Hp, Hpq. pose proof (Hiq (Z.of_nat i) ltac:(lia)).
      split; [|lia]. pose proof (Hv (Z.of_nat i) ltac:(lia)) as E. rewrite Nat2Z.id, Hi in E. by injection E.
Qed.

Lemma remap_spec ixs : forall (m : gmap Substring Z),
  NoDup (ixs.*2) -> (forall ix, ix ∈ ixs -> is_Some (m !! (kNoPrefix, ix.2))) ->
  let m' := fold_left (fun m (ix : Z * Z) => <[(kNoPrefix, ix.2) := ix.1]> m) ixs m in
  size m' = size m /\ (forall ix, ix ∈ ixs -> m' !! (kNoPrefix, ix.2) = Some ix.1) /\
  forall k, (forall ix, ix ∈ ixs -> k <> (kNoPrefix, ix.2)) -> m' !! k = m !! k.
Proof.
  induction ixs as [|ix ixs IH]; intros m Hnd Hm; cbn [fold_left].
  - split; [done|]. split; [|done]. by intros ix ?%not_elem_of_nil.
  - apply list.NoDup_cons in Hnd as [Hx Hnd].
    assert (forall iy, iy ∈ ixs -> (kNoPrefix, ix.2) <> (kNoPrefix, iy.2)) as Hne.
    { intros iy Hy [= E]. apply Hx. rewrite E. by apply list_elem_of_fmap_2. }
    destruct (IH (<[(kNoPrefix, ix.2) := ix.1]> m) Hnd) as (H1 & H2 & H3).
    { intros iy Hy. rewrite lookup_insert_ne by (by apply Hne). apply Hm. by right. }
    split; [|split].
    + rewrite H1. by rewrite map_size_insert_Some by (apply Hm; left).
    + intros iy [->|Hy]%elem_of_cons; [|by apply H2]. rewrite H3 by done. by rewrite lookup_insert_eq.
    + intros k Hk. rewrite H3 by (intros iy Hy; apply Hk; by right).
      rewrite lookup_insert_ne; [done|]. intros E. apply (Hk ix); [left|done].
Qed.

(** The map and the dictionary before the main loop. *)
Lemma initial_dictionary input : Z.of_nat (length input) <= kNoPrefix ->
  let '(m, dict) := first_items input ∅ [] in
  let d := sort_items dict in
  let m := remap d m in
  size m = length d /\ sound m (map (fun x => [x]) d) /\ (length d <= length input)%nat /\
  forall x, x ∈ input -> is_Some (m !! (kNoPrefix, x)).
Proof.
  intros Hl. pose proof (first_items_spec input ∅ []) as H.
  destruct (first_items input ∅ []) as [m dict]. destruct H as ((Hnd & Hsz & Hk) & Hin & Hlen).
  { split; [constructor|]. split; [apply map_size_empty|]. intros k. rewrite lookup_empty. split; [by intros []|].
    by intros (x & _ & ?%not_elem_of_nil). }
  destruct (sort_items_spec dict Hnd) as (Hnd2 & Hlen2 & Hin2). set (d := sort_items dict) in *.
  set (ixs := zip (zrange (Z.of_nat (length d))) d).
  assert (length (zrange (Z.of_nat (length d))) = length d) as Hzl by (rewrite zrange_length; lia).
  assert (ixs.*2 = d) as E2 by (apply snd_zip; lia).
  assert (forall i x, d !! i = Some x <-> ixs !! i = Some (Z.of_nat i, x)) as Hix.
  { intros i x. unfold ixs. rewrite lookup_zip_with. split.
    - intros Hi. pose proof (lookup_lt_Some _ _ _ Hi) as Hlt.
      pose proof (zrange_lookup (Z.of_nat (length d)) (Z.of_nat i) ltac:(lia)) as E. rewrite Nat2Z.id in E. by rewrite E, Hi.
    - destruct (zrange _ !! i); [|done]. cbn. destruct (d !! i); [|done]. cbn. by intros [= _ ->]. }
  assert (forall x, x ∈ d -> exists i, (i, x) ∈ ixs /\ 0 <= i < Z.of_nat (length d) /\ d !! Z.to_nat i = Some x) as Hcode.
  { intros x (i & Hi)%list_elem_of_lookup_1. exists (Z.of_nat i). pose proof (lookup_lt_Some _ _ _ Hi).
    rewrite Nat2Z.id. split; [|split; [lia|done]]. eapply list_elem_of_lookup_2. by apply Hix. }
  destruct (remap_spec ixs m) as (H1 & H2 & H3).
  { by rewrite E2. }
  { intros ix Hx. apply Hk. exists ix.2. split; [done|]. rewrite <- Hin2, <- E2. by apply list_elem_of_fmap_2. }
  change (fold_left _ ixs m) with (remap d m) in H1, H2, H3. cbn [length] in Hlen.
  split; [by rewrite H1, Hsz, Hlen2|]. split; [|split; [lia|]].
  - split; [by rewrite H1, Hsz, length_map, Hlen2|]. rewrite length_map. split; [lia|].
    intros p x c Hc. destruct (decide (p = kNoPrefix /\ x ∈ d)) as [[-> Hy]|Hno].
    + destruct (Hcode x Hy) as (i & Hi & Hb & Hd). pose proof (H2 _ Hi) as Ei. cbn [fst snd] in Ei. rewrite Ei in Hc. injection Hc as <-.
      split; [done|]. split; [|done]. intros _. by rewrite list_lookup_fmap, Hd.
    + exfalso. rewrite H3 in Hc.
      * destruct (proj1 (Hk (p, x)) ltac:(by rewrite Hc)) as (y & [= -> ->] & Hy). apply Hno. by rewrite Hin2.
      * intros ix Hx [= -> ->]. apply Hno. split; [done|]. rewrite <- E2. by apply list_elem_of_fmap_2.
  - intros x Hx. assert (x ∈ d) as Hd by (apply Hin2, Hin; by right).
    destruct (Hcode x Hd) as (i & Hi & _). exists i. exact (H2 _ Hi).
Qed.

(** What the encoder writes. *)
Lemma LzwEncode_stream input : Z.of_nat (2 * length input) < kNoPrefix ->
  exists d cs ss, LzwEncode input = Done (Z.of_nat (length d) :: d ++ cs) /\ stream d cs ss /\ concat ss = input /\
    (length d <= length input)%nat /\ (input = [] -> d = []) /\ (input <> [] -> cs <> []) /\
    forall x, x ∈ d -> x ∈ input.
Proof.
  intros Hl. unfold LzwEncode. pose proof (initial_dictionary input ltac:(lia)) as H.
  destruct (first_items input ∅ []) as [m dict] eqn:Ef. cbv zeta in H. set (d := sort_items dict) in *.
  destruct H as (Hsz & Hs & Hlen & Hx). rewrite Hsz.
  rewrite (proj2 (check_done (length d =? length d)%nat _ tt)) by apply Nat.eqb_refl. cbn [mbind outcome_bind].
  assert (forall x, x ∈ d -> x ∈ input) as Hsub.
  { pose proof (first_items_spec input ∅ []) as H. rewrite Ef in H. destruct H as ((Hnd & _) & Hin & _).
    { split; [constructor|]. split; [apply map_size_empty|]. intros k. rewrite lookup_empty. split; [by intros []|].
      by intros (x & _ & ?%not_elem_of_nil). }
    intros x Hxd. apply (sort_items_spec dict Hnd) in Hxd. apply Hin in Hxd as [?%not_elem_of_nil|?]; done. }
  destruct input as [|x it].
  - exists d, [], []. cbn [mret outcome_ret mbind outcome_bind]. split; [done|]. split; [by split_and!|].
    split; [done|]. split; [done|]. split; [|done]. intros _. cbn in Hlen. by destruct d; cbn in Hlen; [|lia].
  - destruct (Hx x ltac:(left)) as [i Hi]. unfold find. rewrite Hi. cbn [mret outcome_ret mbind outcome_bind].
    assert (dictionary d [[x]] = map (fun x => [x]) d) as Ed by (unfold dictionary; cbn; by rewrite app_nil_r).
    pose proof Hs as (_ & _ & Hs3). destruct (Hs3 _ _ _ Hi) as (Hib & Hi1 & _).
    destruct (encode_loop_stream d it (remap d m) i [x] [] []) as (out & ss & E & Hst & Ecat).
    + cbn [app]. by rewrite Ed.
    + cbn [app]. rewrite Ed, length_map. cbn [length] in *. lia.
    + cbn [app]. rewrite Ed. by apply Hi1.
    + lia.
    + done.
    + intros y Hy. apply Hx. by right.
    + by split_and!.
    + rewrite E. exists d, out, ss. cbn [mret outcome_ret mbind outcome_bind]. do 4 (split; [done|]). split; [done|].
      split; [|done]. intros _ ->. destruct Hst as (Hl0 & _). cbn in Hl0. by destruct ss.
Qed.

(** ** The decoder *)

(** A pair of positions and the string between them. *)
Definition substr_ok (out : list Z) (fs : nat * nat) (t : list Z) : Prop :=
  (fs.1 <= fs.2 <= length out)%nat /\ take (fs.2 - fs.1) (drop fs.1 out) = t.

Lemma substr_ok_app out l fs t : substr_ok out fs t -> substr_ok (out ++ l) fs t.
Proof.
  intros [Hb Ht]. split; [rewrite length_app; lia|]. rewrite drop_app_le by lia. rewrite take_app_le; [done|].
  rewrite length_drop. lia.
Qed.

Lemma copy_range_spec n : forall first out, (first + n <= length out)%nat ->
  copy_range n first out = Done (out ++ take n (drop first out)).
Proof.
  induction n as [|n IH]; intros first out Hle; cbn [copy_range]; [by rewrite take_0, app_nil_r|].
  destruct (lookup_lt_is_Some_2 out first ltac:(lia)) as [x Hx]. rewrite Hx.
  rewrite IH by (rewrite length_app; cbn [length]; lia). rewrite (drop_S _ _ _ Hx). cbn [take].
  rewrite drop_app_le, take_app_le by (rewrite ?length_drop; lia). by rewrite <- app_assoc.
Qed.

Lemma copy_spec d cts ss c s out :
  dictionary d ss !! Z.to_nat c = Some s -> Forall2 (substr_ok out) cts (pairs ss) ->
  copy d cts c out = Done (out ++ s) /\ code_to_len d cts c = Done (length s).
Proof.
  intros Hd Hcts. unfold dictionary in Hd. unfold copy, code_to_len.
  apply lookup_app_Some in Hd as [Hd|[Hge Hd]].
  - rewrite list_lookup_fmap in Hd. destruct (d !! Z.to_nat c) as [x|]; [|done]. injection Hd as <-. done.
  - rewrite length_map in Hge, Hd. rewrite lookup_ge_None_2 by done.
    destruct (Forall2_lookup_r _ _ _ _ _ Hcts Hd) as ([f e] & -> & [Hb Ht]). cbn [fst snd] in *.
    rewrite copy_range_spec by lia. rewrite Ht. split; [done|]. do 2 f_equal. rewrite <- Ht, length_take, length_drop. lia.
Qed.

Lemma stream_lookup d cs ss k c s : stream d cs ss -> cs !! k = Some c -> ss !! k = Some s ->
  0 <= c < 2 ^ 32 /\ s <> [] /\ dictionary d (take (S k) ss) !! Z.to_nat c = Some s.
Proof.
  intros (_ & Hne & Hs) Hc Hk. destruct (Hs k c s Hc Hk) as [Hb Hd]. split; [done|]. split; [|done].
  rewrite list.Forall_forall in Hne. apply Hne. by eapply list_elem_of_lookup_2.
Qed.

(** One turn: the string of the code is appended, in the special case too. *)
Lemma decode_turn d cts ss sp s prev code out :
  sp <> [] -> s <> [] -> 0 <= code ->
  dictionary d (ss ++ [sp]) !! Z.to_nat prev = Some sp ->
  dictionary d ((ss ++ [sp]) ++ [s]) !! Z.to_nat code = Some s ->
  Forall2 (substr_ok out) cts (pairs (ss ++ [sp])) ->
  (if code =? Z.of_nat (length d + length cts) then
     res ← copy d cts prev out;
     match res !! length out with Some first => mret (res ++ [first]) | None => Died "read past the output" end
   else copy d cts code out) = Done (out ++ s).
Proof.
  intros Hsp Hs Hc Hprev Hcode Hcts. destruct (copy_spec d cts _ prev sp out Hprev Hcts) as [Ecopy _].
  pose proof (Forall2_length Hcts) as Hlen.
  unfold dictionary in Hcode. rewrite <- (app_assoc ss), pairs_snoc, app_assoc in Hcode.
  fold (dictionary d (ss ++ [sp])) in Hcode.
  assert (length (dictionary d (ss ++ [sp])) = length d + length cts)%nat as Hdl
    by (unfold dictionary; by rewrite length_app, length_map, Hlen).
  destruct (Z.eqb_spec code (Z.of_nat (length d + length cts))) as [->|Hne].
  - rewrite Nat2Z.id, <- Hdl, list_lookup_middle in Hcode by done. injection Hcode as Es.
    rewrite Ecopy. cbn [mbind outcome_bind]. destruct sp as [|h sp]; [done|]. destruct s as [|h' s]; [done|].
    injection Es as <- Es. rewrite list_lookup_middle by done. cbn [mret outcome_ret].
    rewrite <- app_assoc. do 2 f_equal. cbn [app]. by f_equal.
  - apply (copy_spec d cts (ss ++ [sp]) code s out); [|done]. apply lookup_app_Some in Hcode as [?|[Hge Hx]]; [done|].
    apply list_lookup_singleton_Some in Hx as [Hx _]. rewrite Hdl in *. lia.
Qed.

Lemma decode_loop_spec d it : forall cs ss sp cts prev rest,
  stream d ((cs ++ [prev]) ++ it) ((ss ++ [sp]) ++ rest) -> length cs = length ss ->
  Forall2 (substr_ok (concat (ss ++ [sp]))) cts (pairs (ss ++ [sp])) ->
  decode_loop d it cts prev (concat (ss ++ [sp])) = Done (concat ((ss ++ [sp]) ++ rest)).
Proof.
  induction it as [|x it IH]; intros cs ss sp cts prev rest Hst Hl Hcts; pose proof Hst as (Hlen & _ & _);
    rewrite !length_app in Hlen; cbn [length] in Hlen; cbn [decode_loop].
  - destruct rest; [|cbn in Hlen; lia]. by rewrite app_nil_r.
  - destruct rest as [|s rest]; [cbn in Hlen; lia|].
    assert (0 <= x < 2 ^ 32 /\ s <> [] /\ dictionary d ((ss ++ [sp]) ++ [s]) !! Z.to_nat x = Some s) as (Hx & Hs & Hd).
    { replace ((ss ++ [sp]) ++ [s]) with (take (S (length (ss ++ [sp]))) ((ss ++ [sp]) ++ s :: rest)).
      - apply (stream_lookup d _ _ _ x s Hst); apply list_lookup_middle; [rewrite !length_app; cbn [length]; lia|done].
      - replace ((ss ++ [sp]) ++ s :: rest) with (((ss ++ [sp]) ++ [s]) ++ rest) by by rewrite <- app_assoc.
        apply take_app_length'. rewrite !length_app. cbn [length]. lia. }
    assert (sp <> [] /\ dictionary d (ss ++ [sp]) !! Z.to_nat prev = Some sp) as (Hsp & Hdp).
    { replace (ss ++ [sp]) with (take (S (length ss)) ((ss ++ [sp]) ++ s :: rest)).
      - apply (stream_lookup d _ _ _ prev sp Hst); rewrite <- app_assoc; apply list_lookup_middle; [by symmetry|done].
      - apply take_app_length'. rewrite length_app. cbn [length]. lia. }
    set (out := concat (ss ++ [sp])) in *. rewrite (u32_small x) by done.
    rewrite (decode_turn d cts ss sp s prev x out Hsp Hs ltac:(lia) Hdp Hd Hcts). cbn [mbind outcome_bind].
    destruct (copy_spec d cts (ss ++ [sp]) prev sp out Hdp Hcts) as [_ ->]. cbn [mbind outcome_bind].
    assert (concat ((ss ++ [sp]) ++ [s]) = out ++ s) as Eout by (rewrite concat_app; cbn [concat]; by rewrite app_nil_r).
    assert (out = concat ss ++ sp) as Eo by (unfold out; rewrite concat_app; cbn [concat]; by rewrite app_nil_r).
    rewrite <- Eout. replace ((ss ++ [sp]) ++ s :: rest) with (((ss ++ [sp]) ++ [s]) ++ rest) by by rewrite <- app_assoc.
    apply (IH (cs ++ [prev])).
    + by rewrite <- !app_assoc in *.
    + rewrite !length_app. cbn [length]. lia.
    + rewrite Eout. rewrite <- (app_assoc ss), pairs_snoc. apply Forall2_app.
      * eapply list.Forall2_impl; [exact Hcts|]. intros. by apply substr_ok_app.
      * constructor; [|constructor]. unfold substr_ok. cbn [fst snd]. destruct s as [|h s]; [done|].
        rewrite Eo, !length_app. cbn [length]. split; [lia|].
        replace (length (concat ss) + length sp - length sp)%nat with (length (concat ss)) by lia.
        rewrite <- app_assoc, drop_app_length, take_app_ge by lia. f_equal.
        replace (S (length (concat ss) + length sp) - length (concat ss) - length sp)%nat with 1%nat by lia. done.
Qed.

(** ** What the encoder writes: its size and its range *)

(** A string is at most one longer than the strings before it. *)
Lemma stream_short d cs ss : stream d cs ss -> forall k s, ss !! k = Some s -> (length s <= S k)%nat.
Proof.
  intros Hst k. induction (lt_wf k) as [k _ IH]. intros s Hk. pose proof Hst as (Hl & _).
  destruct (lookup_lt_is_Some_2 cs k) as [c Hc]; [rewrite Hl; by eapply lookup_lt_Some|].
  destruct (stream_lookup d cs ss k c s Hst Hc Hk) as (_ & _ & Hd). unfold dictionary in Hd.
  apply lookup_app_Some in Hd as [Hd|[_ Hd]].
  - rewrite list_lookup_fmap in Hd. destruct (d !! Z.to_nat c); [|done]. injection Hd as <-. cbn [length]. lia.
  - set (j := (Z.to_nat c - _)%nat) in Hd. unfold pairs in Hd. apply lookup_zip_with_Some in Hd as (u & v & -> & Hu & Hv).
    assert (j < k)%nat as Hj.
    { rewrite lookup_tail in Hv. apply lookup_lt_Some in Hv. rewrite length_take in Hv. lia. }
    rewrite lookup_take_Some in Hu. specialize (IH j Hj u (proj1 Hu)). rewrite length_app, length_take. lia.
Qed.

Lemma concat_short (ss : list (list Z)) : (forall k s, ss !! k = Some s -> (length s <= S k)%nat) ->
  (2 * length (concat ss : list Z) <= length ss * (length ss + 1))%nat.
Proof.
  induction ss as [|s ss IH] using rev_ind; intros Hs; [done|].
  rewrite concat_app, !length_app. cbn [concat length]. rewrite app_nil_r.
  assert (length s <= S (length ss))%nat by (apply Hs; by apply list_lookup_middle).
  assert (2 * length (concat ss) <= length ss * (length ss + 1))%nat; [|lia].
  apply IH. intros k t Hk. apply Hs. by apply lookup_app_l_Some.
Qed.

Lemma LzwEncode_facts input codes : Z.of_nat (2 * length input) < kNoPrefix -> LzwEncode input = Done codes ->
  (2 * length input <= length codes * (length codes + 1))%nat /\
  (Forall (fun v => 0 <= v < 2 ^ 64) input -> Forall (fun v => 0 <= v < 2 ^ 64) codes).
Proof.
  intros Hl E. destruct (LzwEncode_stream input Hl) as (d & cs & ss & E2 & Hst & Ecat & Hlen & _ & _ & Hd).
  rewrite E in E2. injection E2 as ->. pose proof Hst as (Hls & _). split.
  - pose proof (concat_short ss (stream_short d cs ss Hst)) as H. rewrite Ecat in H.
    cbn [length]. rewrite length_app. rewrite <- Hls in H. nia.
  - intros Hin. rewrite list.Forall_forall in Hin. constructor; [unfold kNoPrefix in Hl; lia|].
    apply Forall_app. split; apply list.Forall_forall; intros x Hx; [by apply Hin, Hd|].
    apply list_elem_of_lookup_1 in Hx as [k Hk]. destruct (lookup_lt_is_Some_2 ss k) as [s Hs];
      [rewrite <- Hls; by eapply lookup_lt_Some|].
    destruct (stream_lookup d cs ss k x s Hst Hk Hs) as (Hb & _). lia.
Qed.

(** ** The round trip *)

Lemma decode_encode_lzw input : Z.of_nat (2 * length input) < kNoPrefix ->
  exists codes, LzwEncode input = Done codes /\ LzwDecode codes = Done input.
Proof.
  intros Hl. destruct (LzwEncode_stream input Hl) as (d & cs & ss & E & Hst & Ecat & Hlen & Hnil & Hcs & _).
  eexists. split; [exact E|]. unfold LzwDecode. rewrite Nat2Z.id.
  destruct input as [|x input].
  - rewrite (Hnil eq_refl) in *. destruct cs as [|c cs]; [done|]. exfalso.
    destruct Hst as (Hl2 & Hne & _). destruct ss as [|s ss]; [done|]. apply list.Forall_cons in Hne as [Hne _].
    cbn in Ecat. by destruct s.
  - destruct cs as [|c cs]; [by destruct (Hcs ltac:(done))|]. destruct ss as [|s ss]; [by destruct Hst|].
    rewrite firstn_app, skipn_app, Nat.sub_diag, firstn_all, skipn_all. cbn [firstn skipn app]. rewrite app_nil_r.
    destruct (stream_lookup d _ _ 0 c s Hst eq_refl eq_refl) as (Hc & _ & Hd). cbn [take] in Hd.
    replace (match d ++ c :: cs with [] => _ | _ => _ end) with
      (res ← copy d [] c []; decode_loop d cs [] c res)
      by (destruct d; cbn [app]; rewrite (u32_small c Hc); reflexivity).
    destruct (copy_spec d [] [s] c s [] Hd ltac:(constructor)) as [-> _]. cbn [mbind outcome_bind app].
    pose proof (decode_loop_spec d cs [] [] s [] c ss Hst eq_refl ltac:(constructor)) as E2.
    cbn [app concat] in E2. rewrite app_nil_r in E2. rewrite E2. by rewrite <- Ecat.
Qed.

(** LZW compression is lossless.  For every input that the 32-bit codes can
    number, the encoder runs to the end with its check passing, and the decoder,
    run on what it wrote, reads nothing outside of its tables and its output and
    gives the input back: with repeated items, the empty input, and codes that
    refer to the substring being built. *)
Theorem lzw_roundtrip input : Z.of_nat (2 * length input) < kNoPrefix ->
  exists codes, LzwEncode input = Done codes /\ LzwDecode codes = Done input.
Proof. apply decode_encode_lzw. Qed.

Lemma lzw_roundtrip_witness :
  exists codes, LzwEncode [5; 9; 5; 9; 5; 9; 5; 5; 5; 5] = Done codes /\ LzwDecode codes = Done [5; 9; 5; 9; 5; 9; 5; 5; 5; 5].
Proof. apply (lzw_roundtrip [5; 9; 5; 9; 5; 9; 5; 5; 5; 5]). reflexivity. Defined.
