(* ===== verification/DenseMap.v ===== *)
(** * The dense map

    src/rt/sanitizer_common/sanitizer_dense_map.h and sanitizer_dense_map_info.h: an
    open-addressing hash table with two reserved keys, quadratic probing and
    tombstones.  The sequence of probes visits every bucket, so lookups end; the
    table is a finite map, whatever the sequence of operations and the hash.

    A bucket is its key and its value; the memory of a value that is not constructed
    holds [None].  The null pointer to the buckets is the empty list.  [insert_as] and
    [find_as], which differ in the type of the key they look for, are [try_emplace]
    and [find] here. *)

From S2P Require Import Prelude Common Lzw.

(** ** Keys *)

Class DenseMapInfo (KeyT : Type) := {
  getEmptyKey : KeyT;
  getTombstoneKey : KeyT;
  getHashValue : KeyT -> Z;
  isEqual : KeyT -> KeyT -> bool
}.

(** What the map relies on. *)
Class DenseMapInfoOk (KeyT : Type) `{DenseMapInfo KeyT} := {
  isEqual_eq k1 k2 : isEqual k1 k2 = true <-> k1 = k2;
  reserved_differ : getEmptyKey <> getTombstoneKey
}.

(** The 64-bit mix of two 32-bit hashes. *)
Definition combineHashValue (a b : Z) : Z :=
  let key := Z.lor (u64 (Z.shiftl a 32)) b in
  let key := key +64 not64 (u64 (Z.shiftl key 32)) in
  let key := Z.lxor key (Z.shiftr key 22) in
  let key := key +64 not64 (u64 (Z.shiftl key 13)) in
  let key := Z.lxor key (Z.shiftr key 8) in
  let key := key +64 u64 (Z.shiftl key 3) in
  let key := Z.lxor key (Z.shiftr key 15) in
  let key := key +64 not64 (u64 (Z.shiftl key 27)) in
  let key := Z.lxor key (Z.shiftr key 31) in
  u32 key.

(** Unsigned numbers of [w] bits: char, short, int, long. *)
Definition unsigned_info (w : Z) : DenseMapInfo Z :=
  {| getEmptyKey := 2 ^ w - 1; getTombstoneKey := 2 ^ w - 2; getHashValue := fun v => u32 (v *64 37); isEqual := Z.eqb |}.

Definition pointer_info : DenseMapInfo Z :=
  {| getEmptyKey := u64 (Z.shiftl (2 ^ 64 - 1) 12); getTombstoneKey := u64 (Z.shiftl (2 ^ 64 - 2) 12);
     getHashValue := fun p => Z.lxor (Z.shiftr (u32 p) 4) (Z.shiftr (u32 p) 9); isEqual := Z.eqb |}.

Definition pair_info {T U} (FirstInfo : DenseMapInfo T) (SecondInfo : DenseMapInfo U) : DenseMapInfo (T * U) :=
  {| getEmptyKey := (@getEmptyKey T FirstInfo, @getEmptyKey U SecondInfo);
     getTombstoneKey := (@getTombstoneKey T FirstInfo, @getTombstoneKey U SecondInfo);
     getHashValue := fun p => combineHashValue (@getHashValue T FirstInfo p.1) (@getHashValue U SecondInfo p.2);
     isEqual := fun p q => @isEqual T FirstInfo p.1 q.1 && @isEqual U SecondInfo p.2 q.2 |}.

Lemma unsigned_info_ok w : @DenseMapInfoOk Z (unsigned_info w).
Proof. split; cbn; [intros; apply Z.eqb_eq|lia]. Qed.

Lemma pointer_info_ok : @DenseMapInfoOk Z pointer_info.
Proof. split; cbn; [intros; apply Z.eqb_eq|done]. Qed.

Lemma pair_info_ok {T U} (I1 : DenseMapInfo T) (I2 : DenseMapInfo U) :
  @DenseMapInfoOk T I1 -> @DenseMapInfoOk U I2 -> @DenseMapInfoOk (T * U) (pair_info I1 I2).
Proof.
  intros [E1 R1] [E2 R2]. split; cbn.
  - intros [a b] [c d]. cbn. rewrite andb_true_iff, E1, E2. naive_solver.
  - congruence.
Qed.

(** ** The table *)

Section map.
Context {KeyT ValueT : Type} `{DenseMapInfo KeyT}.

(** [ValueT()], the size of a bucket, the size of a page, and whether values need no
    destruction. *)
Context (default : ValueT) (sizeof_BucketT GetPageSizeCached : Z) (trivially_destructible : bool).

Notation BucketT := (KeyT * option ValueT)%type.

Record DenseMap := mkMap {
  Buckets : list BucketT; NumEntries : Z; NumTombstones : Z; NumBuckets : Z
}.

Definition DenseMap0 : DenseMap := mkMap [] 0 0 0.

Definition setNumEntries (m : DenseMap) (n : Z) : DenseMap := mkMap (Buckets m) n (NumTombstones m) (NumBuckets m).
Definition setNumTombstones (m : DenseMap) (n : Z) : DenseMap := mkMap (Buckets m) (NumEntries m) n (NumBuckets m).
Definition setBuckets (m : DenseMap) (bs : list BucketT) : DenseMap :=
  mkMap bs (NumEntries m) (NumTombstones m) (NumBuckets m).

Definition incrementNumEntries (m : DenseMap) : DenseMap := setNumEntries m (u32 (NumEntries m + 1)).
Definition decrementNumEntries (m : DenseMap) : DenseMap := setNumEntries m (u32 (NumEntries m - 1)).
Definition incrementNumTombstones (m : DenseMap) : DenseMap := setNumTombstones m (u32 (NumTombstones m + 1)).
Definition decrementNumTombstones (m : DenseMap) : DenseMap := setNumTombstones m (u32 (NumTombstones m - 1)).

Definition is_live (b : BucketT) : bool :=
  negb (isEqual b.1 getEmptyKey) && negb (isEqual b.1 getTombstoneKey).

(** *** Lookup *)

(** [BucketNo += ProbeAmt++; BucketNo &= NumBuckets - 1] *)
Definition next_bucket (m : DenseMap) (BucketNo ProbeAmt : Z) : Z :=
  Z.land (u32 (BucketNo + ProbeAmt)) (u32 (NumBuckets m - 1)).

Fixpoint find_loop (fuel : nat) (m : DenseMap) (Val : KeyT) (BucketNo ProbeAmt : Z) : outcome (option Z) :=
  match fuel with
  | O => Died "out of fuel"
  | S fuel =>
      match Buckets m !! Z.to_nat BucketNo with
      | None => Died "past the buckets"
      | Some (k, _) =>
          if isEqual Val k then mret (Some BucketNo)
          else if isEqual k getEmptyKey then mret None
          else find_loop fuel m Val (next_bucket m BucketNo ProbeAmt) (u32 (ProbeAmt + 1))
      end
  end.

(** The index of the bucket. *)
Definition doFind (m : DenseMap) (Val : KeyT) : outcome (option Z) :=
  if NumBuckets m =? 0 then mret None
  else find_loop (Z.to_nat (NumBuckets m)) m Val (Z.land (getHashValue Val) (u32 (NumBuckets m - 1))) 1.

Fixpoint lookup_loop (fuel : nat) (m : DenseMap) (Val : KeyT) (BucketNo ProbeAmt : Z) (FoundTombstone : option Z)
    : outcome (bool * Z) :=
  match fuel with
  | O => Died "out of fuel"
  | S fuel =>
      match Buckets m !! Z.to_nat BucketNo with
      | None => Died "past the buckets"
      | Some (k, _) =>
          if isEqual Val k then mret (true, BucketNo)
          else if isEqual k getEmptyKey then mret (false, match FoundTombstone with Some t => t | None => BucketNo end)
          else
            let FoundTombstone := if isEqual k getTombstoneKey && bool_decide (FoundTombstone = None)
                                  then Some BucketNo else FoundTombstone in
            lookup_loop fuel m Val (next_bucket m BucketNo ProbeAmt) (u32 (ProbeAmt + 1)) FoundTombstone
      end
  end.

(** The bucket of the key, or one where it can go; none if there are no buckets. *)
Definition LookupBucketFor (m : DenseMap) (Val : KeyT) : outcome (bool * option Z) :=
  if NumBuckets m =? 0 then mret (false, None) else
  _ ← check (negb (isEqual Val getEmptyKey)) "!KeyInfoT::isEqual(Val, EmptyKey)";
  _ ← check (negb (isEqual Val getTombstoneKey)) "!KeyInfoT::isEqual(Val, TombstoneKey)";
  r ← lookup_loop (Z.to_nat (NumBuckets m)) m Val (Z.land (getHashValue Val) (u32 (NumBuckets m - 1))) 1 None;
  let '(found, b) := r : bool * Z in mret (found, Some b).

(** *** Growing *)

(** [unsigned]: 32 bits. *)
Definition getMinBucketToReserveForEntries (n : Z) : outcome Z :=
  if n =? 0 then mret 0 else
  r ← RoundUpToPowerOfTwo (u32 (u32 (u32 (n * 4) / 3 + 1) + 1)); mret (u32 r).

Definition allocateBuckets (m : DenseMap) (Num : Z) : outcome (bool * DenseMap) :=
  if Num =? 0 then mret (false, mkMap [] (NumEntries m) (NumTombstones m) 0) else
  let Size := sizeof_BucketT *64 Num in
  r ← (if Size *64 2 <=? GetPageSizeCached then
         Log2 ← MostSignificantSetBitIndex (GetPageSizeCached / Size);
         let Size := u64 (Z.shiftl Size Log2) in
         let Num := u32 (Z.shiftl Num Log2) in
         _ ← check (Size =? sizeof_BucketT *64 Num) "Size == sizeof(BucketT) * NumBuckets";
         _ ← check (GetPageSizeCached <? Size *64 2) "Size * 2 > GetPageSizeCached()";
         mret Num
       else mret Num);
  mret (true, mkMap (replicate (Z.to_nat r) (getEmptyKey, None)) (NumEntries m) (NumTombstones m) r).

(** The keys of new buckets are [EmptyKey] already: the mapping is fresh, and its bytes
    become keys here. *)
Definition initEmpty (m : DenseMap) : outcome DenseMap :=
  _ ← check (Z.land (NumBuckets m) (u32 (NumBuckets m - 1)) =? 0) "(NumBuckets & (NumBuckets - 1)) == 0";
  mret (mkMap (map (fun _ => (getEmptyKey, None)) (Buckets m)) 0 0 (NumBuckets m)).

(** The loop of [moveFromOldBuckets]. *)
Fixpoint move_loop (old : list BucketT) (m : DenseMap) : outcome DenseMap :=
  match old with
  | [] => mret m
  | B :: old =>
      if is_live B then
        r ← LookupBucketFor m B.1;
        let '(FoundVal, Dest) := r : bool * option Z in
        _ ← check (negb FoundVal) "!FoundVal";
        match Dest with
        | None => Died "no destination"
        | Some d => move_loop old (incrementNumEntries (setBuckets m (<[Z.to_nat d := B]> (Buckets m))))
        end
      else move_loop old m
  end.

Definition moveFromOldBuckets (old : list BucketT) (m : DenseMap) : outcome DenseMap :=
  m ← initEmpty m; move_loop old m.

Definition grow (m : DenseMap) (AtLeast : Z) : outcome DenseMap :=
  n ← RoundUpToPowerOfTwo (Max 64 AtLeast);
  r ← allocateBuckets m (u32 n);
  let '(ok, m') := r : bool * DenseMap in
  _ ← check ok "Buckets";
  if NumBuckets m =? 0 then initEmpty m' else moveFromOldBuckets (Buckets m) m'.

Definition init (n : Z) : outcome DenseMap :=
  b ← getMinBucketToReserveForEntries n;
  r ← allocateBuckets DenseMap0 b;
  let '(ok, m) := r : bool * DenseMap in
  if ok then initEmpty m else mret (setNumTombstones (setNumEntries m 0) 0).

Definition reserve (m : DenseMap) (n : Z) : outcome DenseMap :=
  b ← getMinBucketToReserveForEntries n;
  if NumBuckets m <? b then grow m b else mret m.

(** *** Insertion *)

(** The bucket to write to, and the map with its counts. *)
Definition InsertIntoBucketImpl (m : DenseMap) (Key : KeyT) (TheBucket : option Z) : outcome (Z * DenseMap) :=
  let NewNumEntries := u32 (NumEntries m + 1) in
  let n := NumBuckets m in
  r ← (if u32 (n * 3) <=? u32 (NewNumEntries * 4) then
         m ← grow m (u32 (n * 2)); r ← LookupBucketFor m Key; mret (r.2, m)
       else if u32 (n - u32 (NewNumEntries + NumTombstones m)) <=? n / 8 then
         m ← grow m n; r ← LookupBucketFor m Key; mret (r.2, m)
       else mret (TheBucket, m));
  let '(TheBucket, m) := r : option Z * DenseMap in
  match TheBucket with
  | None => Died "TheBucket"
  | Some b =>
      let m := incrementNumEntries m in
      match Buckets m !! Z.to_nat b with
      | None => Died "past the buckets"
      | Some (k, _) => mret (b, if negb (isEqual k getEmptyKey) then decrementNumTombstones m else m)
      end
  end.

Definition InsertIntoBucket (m : DenseMap) (TheBucket : option Z) (Key : KeyT) (v : ValueT) : outcome (Z * DenseMap) :=
  r ← InsertIntoBucketImpl m Key TheBucket;
  let '(b, m) := r : Z * DenseMap in
  mret (b, setBuckets m (<[Z.to_nat b := (Key, Some v)]> (Buckets m))).

(** The bucket, whether the key is new, and the map. *)
Definition try_emplace (m : DenseMap) (Key : KeyT) (v : ValueT) : outcome (Z * bool * DenseMap) :=
  r ← LookupBucketFor m Key;
  match r : bool * option Z with
  | (true, Some b) => mret (b, false, m)
  | (_, TheBucket) => r ← InsertIntoBucket m TheBucket Key v; mret (r.1, true, r.2)
  end.

Definition FindAndConstruct (m : DenseMap) (Key : KeyT) : outcome (Z * DenseMap) :=
  r ← LookupBucketFor m Key;
  match r : bool * option Z with
  | (true, Some b) => mret (b, m)
  | (_, TheBucket) => InsertIntoBucket m TheBucket Key default
  end.

(** [m[Key] = v] *)
Definition assign (m : DenseMap) (Key : KeyT) (v : ValueT) : outcome DenseMap :=
  r ← FindAndConstruct m Key;
  let '(b, m) := r : Z * DenseMap in
  match Buckets m !! Z.to_nat b with
  | None => Died "past the buckets"
  | Some (k, _) => mret (setBuckets m (<[Z.to_nat b := (k, Some v)]> (Buckets m)))
  end.

(** *** Other operations *)

Definition size (m : DenseMap) : Z := NumEntries m.
Definition empty (m : DenseMap) : bool := size m =? 0.
Definition contains (m : DenseMap) (Key : KeyT) : outcome bool := r ← doFind m Key; mret (bool_decide (r <> None)).
Definition count (m : DenseMap) (Key : KeyT) : outcome Z := c ← contains m Key; mret (Z.b2z c).

(** [find(Key)->second], and none for the null pointer. *)
Definition find_value (m : DenseMap) (Key : KeyT) : outcome (option ValueT) :=
  r ← doFind m Key;
  match r with
  | None => mret None
  | Some b =>
      match Buckets m !! Z.to_nat b with
      | Some (_, Some v) => mret (Some v)
      | _ => Died "value not constructed"
      end
  end.

Definition lookup (m : DenseMap) (Key : KeyT) : outcome ValueT :=
  r ← find_value m Key; mret (match r with Some v => v | None => default end).

Definition erase_bucket (m : DenseMap) (b : Z) : DenseMap :=
  incrementNumTombstones (decrementNumEntries (setBuckets m (<[Z.to_nat b := (getTombstoneKey, None)]> (Buckets m)))).

Definition erase (m : DenseMap) (Key : KeyT) : outcome (bool * DenseMap) :=
  r ← doFind m Key;
  match r with
  | None => mret (false, m)
  | Some b => mret (true, erase_bucket m b)
  end.

Definition clear (m : DenseMap) : outcome DenseMap :=
  if (NumEntries m =? 0) && (NumTombstones m =? 0) then mret m else
  let emptied := map (fun _ => (getEmptyKey, None)) (Buckets m) : list BucketT in
  _ ← (if trivially_destructible then mret tt else
         let NumEntries := fold_left (fun n B => if is_live B then u32 (n - 1) else n) (Buckets m) (NumEntries m) in
         check (NumEntries =? 0) "NumEntries == 0");
  mret (setNumTombstones (setNumEntries (setBuckets m emptied) 0) 0).

(** [fn] answers whether to go on. *)
Fixpoint forEach_loop {A} (fn : A -> BucketT -> A * bool) (bs : list BucketT) (a : A) : A :=
  match bs with
  | [] => a
  | P :: bs =>
      if is_live P then let '(a, more) := fn a P in if more then forEach_loop fn bs a else a
      else forEach_loop fn bs a
  end.

Definition forEach {A} (fn : A -> BucketT -> A * bool) (m : DenseMap) (a : A) : A := forEach_loop fn (Buckets m) a.

(** [operator==], with what it does for an entry; a failing search is an error. *)
Definition eqb_entry (eqV : ValueT -> ValueT -> bool) (RHS : DenseMap) (R : outcome bool) (KV : BucketT) : outcome bool * bool :=
  match find_value RHS KV.1, KV.2 with
  | Done (Some v), Some v' => if eqV v v' then (R, true) else (Done false, false)
  | Done None, _ => (Done false, false)
  | Died why, _ => (Died why, false)
  | _, None => (Died "value not constructed", false)
  end.

Definition map_eqb (eqV : ValueT -> ValueT -> bool) (LHS RHS : DenseMap) : outcome bool :=
  if negb (size LHS =? size RHS) then mret false else forEach (eqb_entry eqV RHS) LHS (Done true).

Definition copyFrom (other : DenseMap) : outcome DenseMap :=
  r ← allocateBuckets DenseMap0 (NumBuckets other);
  let '(ok, m) := r : bool * DenseMap in
  if ok then
    _ ← check (NumBuckets m =? NumBuckets other) "getNumBuckets() == other.getNumBuckets()";
    mret (mkMap (Buckets other) (NumEntries other) (NumTombstones other) (NumBuckets m))
  else mret m.

Definition getMemorySize (m : DenseMap) : outcome Z := RoundUpTo (u64 (NumBuckets m * sizeof_BucketT)) GetPageSizeCached.

(** ** The sequence of probes

    After [n] steps the search is [n * (n + 1) / 2] buckets from where it started; in
    a table whose size is a power of two, that meets every bucket. *)

Fixpoint tri (n : nat) : Z := match n with O => 0 | S n => tri n + Z.of_nat (S n) end.

Definition probe (h : Z) (k : Z) (n : nat) : Z := (h + tri n) mod 2 ^ k.

Lemma tri_twice n : 2 * tri n = Z.of_nat n * (Z.of_nat n + 1).
Proof. induction n as [|n IH]; [done|]. cbn [tri]. lia. Qed.

Lemma odd_factor k m p : 0 <= k -> Z.odd m = true -> (2 ^ k | m * p) -> (2 ^ k | p).
Proof.
  intros Hk Hm. revert k Hk. apply (natlike_ind (fun k => (2 ^ k | m * p) -> (2 ^ k | p))); [intros _; apply Z.divide_1_l|].
  intros k Hk IH [q Hq]. rewrite Z.pow_succ_r in Hq by done. destruct IH as [r ->]; [exists (q * 2); lia|].
  assert (m * r = 2 * q) as Hr by (apply (Z.mul_reg_r _ _ (2 ^ k)); [pose proof (Z.pow_pos_nonneg 2 k); lia|lia]).
  assert (Z.odd (m * r) = false) as Ho by (rewrite Hr, Z.odd_mul; done). rewrite Z.odd_mul, Hm in Ho. cbn in Ho.
  rewrite <- Z.negb_even in Ho. apply negb_false_iff, Z.even_spec in Ho as [s ->]. exists s. rewrite Z.pow_succ_r by done. lia.
Qed.

Lemma tri_apart k i j : 0 <= k -> (i < j)%nat -> Z.of_nat j < 2 ^ k -> ~ (2 ^ k | tri j - tri i).
Proof.
  intros Hk Hij Hj [q Hq]. set (a := Z.of_nat j - Z.of_nat i). set (b := Z.of_nat i + Z.of_nat j + 1).
  assert (a * b = 2 ^ (k + 1) * q) as Hab.
  { pose proof (tri_twice i). pose proof (tri_twice j). rewrite Z.pow_add_r, Z.pow_1_r by lia. unfold a, b. lia. }
  assert (Z.odd a = true \/ Z.odd b = true) as [Ho|Ho].
  { assert (Z.odd (a + b) = true) as Hs.
    { replace (a + b) with (2 * Z.of_nat j + 1) by (unfold a, b; lia). apply Z.odd_spec. by eexists. }
    rewrite Z.odd_add in Hs. destruct (Z.odd a), (Z.odd b); auto. }
  - assert (2 ^ (k + 1) | b) as [c Hc] by (apply (odd_factor _ a); [lia|done|]; exists q; lia).
    rewrite Z.pow_add_r, Z.pow_1_r in Hc by lia. unfold b in *. assert (c = 0 \/ c >= 1 \/ c <= -1) as [->|[?|?]] by lia; nia.
  - assert (2 ^ (k + 1) | a) as [c Hc] by (apply (odd_factor _ b); [lia|done|]; exists q; lia).
    rewrite Z.pow_add_r, Z.pow_1_r in Hc by lia. unfold a in *. assert (c = 0 \/ c >= 1 \/ c <= -1) as [->|[?|?]] by lia; nia.
Qed.

Lemma probe_inj h k i j : 0 <= k -> Z.of_nat i < 2 ^ k -> Z.of_nat j < 2 ^ k -> probe h k i = probe h k j -> i = j.
Proof.
  intros Hk Hi Hj E. pose proof (Z.pow_pos_nonneg 2 k ltac:(lia) Hk).
  assert (forall i j, (i < j)%nat -> Z.of_nat j < 2 ^ k -> probe h k i <> probe h k j) as Hgen.
  { clear i j Hi Hj E. intros i j Hij Hj E. apply (tri_apart k i j Hk Hij Hj). unfold probe in E.
    replace (tri j - tri i) with ((h + tri j) - (h + tri i)) by lia. apply Z.mod_divide; [lia|].
    rewrite Zminus_mod, E, Z.sub_diag. apply Z.mod_0_l. lia. }
  destruct (Nat.lt_trichotomy i j) as [Hlt|[->|Hlt]]; [|done|]; exfalso; [by apply (Hgen i j)|]. by apply (Hgen j i).
Qed.

Lemma probe_range h k n : 0 <= k -> 0 <= probe h k n < 2 ^ k.
Proof. intros Hk. apply Z.mod_pos_bound. apply Z.pow_pos_nonneg; lia. Qed.

(** Every bucket is probed. *)
Lemma probe_surj h k b : 0 <= k -> 0 <= b < 2 ^ k -> exists n, (n < Z.to_nat (2 ^ k))%nat /\ probe h k n = b.
Proof.
  intros Hk Hb. set (l := map (probe h k) (seq 0 (Z.to_nat (2 ^ k)))).
  assert (In b l) as Hin.
  { apply (NoDup_length_incl (l := l) (l' := zrange (2 ^ k))).
    - apply NoDup_ListNoDup, NoDup_fmap_2_strong; [|apply NoDup_seq].
      intros i j Hi%elem_of_seq Hj%elem_of_seq E. apply (probe_inj h k); lia || done.
    - unfold l. rewrite length_map, length_seq, zrange_length. lia.
    - intros x Hx. unfold l in Hx. apply in_map_iff in Hx as (n & <- & _). apply list_elem_of_In, elem_of_zrange. by apply probe_range.
    - by apply list_elem_of_In, elem_of_zrange. }
  apply in_map_iff in Hin as (n & Hn & Hin). apply in_seq in Hin. exists n. split; [lia|done].
Qed.

Lemma land_mask h k : 0 <= k -> Z.land h (2 ^ k - 1) = h mod 2 ^ k.
Proof. intros Hk. replace (2 ^ k - 1) with (Z.ones k) by (rewrite Z.ones_equiv; lia). by apply Z.land_ones. Qed.

Lemma probe_next h k n : 0 <= k -> (probe h k n + Z.of_nat (S n)) mod 2 ^ k = probe h k (S n).
Proof.
  intros Hk. unfold probe. cbn [tri]. rewrite Zplus_mod_idemp_l. f_equal. lia.
Qed.

(** ** Tables *)

Context `{!DenseMapInfoOk KeyT}.
Implicit Types (m : DenseMap) (bs : list BucketT).

Definition is_empty (b : BucketT) : bool := isEqual b.1 getEmptyKey.
Definition is_tomb (b : BucketT) : bool := isEqual b.1 getTombstoneKey.
Definition usable (Val : KeyT) : Prop := Val <> getEmptyKey /\ Val <> getTombstoneKey.

Definition countb (p : BucketT -> bool) bs : Z := foldr (fun b a => Z.b2z (p b) + a) 0 bs.

Lemma isEqual_neq k1 k2 : isEqual k1 k2 = false <-> k1 <> k2.
Proof. rewrite <- isEqual_eq. by rewrite not_true_iff_false. Qed.

Lemma isEqual_refl k : isEqual k k = true.
Proof. by apply isEqual_eq. Qed.

Lemma is_live_iff b : is_live b = true <-> usable b.1.
Proof. unfold is_live, usable. rewrite andb_true_iff, !negb_true_iff. by rewrite !isEqual_neq. Qed.

(** A bucket is exactly one of the three. *)
Lemma bucket_kinds b : Z.b2z (is_live b) + Z.b2z (is_tomb b) + Z.b2z (is_empty b) = 1.
Proof.
  unfold is_live, is_tomb, is_empty. destruct (isEqual b.1 getEmptyKey) eqn:E1, (isEqual b.1 getTombstoneKey) eqn:E2; try done.
  apply isEqual_eq in E1, E2. by destruct reserved_differ; congruence.
Qed.

Lemma countb_nonneg p bs : 0 <= countb p bs.
Proof. induction bs as [|b bs IH]; cbn; [done|]. fold (countb p bs). destruct (p b); cbn; lia. Qed.

Lemma countb_total bs : countb is_live bs + countb is_tomb bs + countb is_empty bs = Z.of_nat (length bs).
Proof.
  induction bs as [|b bs IH]; [done|]. cbn [countb foldr length]. fold (countb is_live bs) (countb is_tomb bs) (countb is_empty bs).
  pose proof (bucket_kinds b). lia.
Qed.

Lemma countb_insert p bs i b b' : bs !! i = Some b -> countb p (<[i := b']> bs) = countb p bs - Z.b2z (p b) + Z.b2z (p b').
Proof.
  revert i. induction bs as [|a bs IH]; intros i; [done|]. destruct i as [|i]; cbn [lookup list_lookup].
  - intros [= ->]. cbn. lia.
  - intros Hb. change (<[S i := b']> (a :: bs)) with (a :: <[i := b']> bs). cbn [countb foldr]. fold (countb p bs) (countb p (<[i := b']> bs)). rewrite (IH i Hb). lia.
Qed.

Lemma countb_exists p bs : 0 < countb p bs -> exists i b, bs !! i = Some b /\ p b = true.
Proof.
  induction bs as [|a bs IH]; [done|]. cbn [countb foldr]. fold (countb p bs). destruct (p a) eqn:E.
  - intros _. by exists 0%nat, a.
  - intros Hc. destruct IH as (i & b & Hb & Hp); [cbn in Hc; lia|]. by exists (S i), b.
Qed.

Lemma countb_replicate p n b : countb p (replicate n b) = Z.of_nat n * Z.b2z (p b).
Proof. induction n as [|n IH]; [done|]. cbn [replicate countb foldr]. fold (countb p (replicate n b)). rewrite IH. lia. Qed.

Record table m (k : Z) : Prop := {
  tb_k : 0 <= k <= 29;
  tb_n : NumBuckets m = 2 ^ k;
  tb_len : Z.of_nat (length (Buckets m)) = 2 ^ k;
  tb_live : NumEntries m = countb is_live (Buckets m);
  tb_tomb : NumTombstones m = countb is_tomb (Buckets m);
  tb_room : NumEntries m + NumTombstones m < 2 ^ k;
  tb_val i b : Buckets m !! i = Some b -> is_live b = true -> b.2 <> None;
  tb_unique i j b b' : Buckets m !! i = Some b -> Buckets m !! j = Some b' -> is_live b = true -> b.1 = b'.1 -> i = j;
  (** a search for the key gets to it: no bucket before it is empty *)
  tb_reach i b : Buckets m !! i = Some b -> is_live b = true -> exists n, (n < Z.to_nat (2 ^ k))%nat /\
    Z.to_nat (probe (getHashValue b.1) k n) = i /\
    forall n' b', (n' < n)%nat -> Buckets m !! Z.to_nat (probe (getHashValue b.1) k n') = Some b' -> is_empty b' = false
}.

Lemma table_size m k : table m k -> 0 < 2 ^ k <= 2 ^ 29.
Proof. intros Hm. pose proof (tb_k _ _ Hm). split; [apply Z.pow_pos_nonneg; lia|apply Z.pow_le_mono_r; lia]. Qed.

Lemma table_bucket m k i : table m k -> 0 <= i < 2 ^ k -> exists b, Buckets m !! Z.to_nat i = Some b.
Proof. intros Hm Hi. pose proof (tb_len _ _ Hm). apply lookup_lt_is_Some_2. lia. Qed.

Lemma table_probe m k h n : table m k -> exists b, Buckets m !! Z.to_nat (probe h k n) = Some b.
Proof. intros Hm. eapply table_bucket; [done|]. apply probe_range. apply (tb_k _ _ Hm). Qed.

Lemma table_counts m k : table m k -> 0 <= NumEntries m /\ 0 <= NumTombstones m.
Proof. intros Hm. rewrite (tb_live _ _ Hm), (tb_tomb _ _ Hm). split; apply countb_nonneg. Qed.

(** *** Where a search ends *)

Definition stop_at m k Val n : bool :=
  match Buckets m !! Z.to_nat (probe (getHashValue Val) k n) with
  | Some b => isEqual Val b.1 || is_empty b
  | None => true
  end.

Definition stops m k Val (n : nat) : Prop :=
  (n < Z.to_nat (2 ^ k))%nat /\ stop_at m k Val n = true /\ forall n', (n' < n)%nat -> stop_at m k Val n' = false.

Lemma least_stop (p : nat -> bool) n : p n = true -> exists n0, (n0 <= n)%nat /\ p n0 = true /\ forall n', (n' < n0)%nat -> p n' = false.
Proof.
  induction n as [n IH] using lt_wf_ind. intros Hn.
  destruct (existsb p (seq 0 n)) eqn:E.
  - apply existsb_exists in E as (n' & Hin%in_seq & Hp). destruct (IH n') as (n0 & Hle & Hn0); [lia|done|]. exists n0. split; [lia|done].
  - exists n. split; [lia|]. split; [done|]. intros n' Hlt. destruct (p n') eqn:Ep; [|done].
    assert (existsb p (seq 0 n) = true); [|congruence]. apply existsb_exists. exists n'. split; [apply in_seq; lia|done].
Qed.

Lemma search_stops m k Val : table m k -> exists n, stops m k Val n.
Proof.
  intros Hm. pose proof (countb_total (Buckets m)) as Ht. rewrite (tb_len _ _ Hm), <- (tb_live _ _ Hm), <- (tb_tomb _ _ Hm) in Ht.
  pose proof (tb_room _ _ Hm). destruct (countb_exists is_empty (Buckets m)) as (i & b & Hb & He); [lia|].
  pose proof (lookup_lt_Some _ _ _ Hb). pose proof (tb_len _ _ Hm).
  destruct (probe_surj (getHashValue Val) k (Z.of_nat i)) as (n & Hn & Hp); [apply (tb_k _ _ Hm)|lia|].
  destruct (least_stop (stop_at m k Val) n) as (n0 & Hle & Hs & Hlt).
  { unfold stop_at. rewrite Hp, Nat2Z.id, Hb, He. by rewrite orb_true_r. }
  exists n0. split; [lia|done].
Qed.

(** The step of both loops. *)
Lemma next_probe m k h n : table m k -> (n < Z.to_nat (2 ^ k))%nat ->
  next_bucket m (probe h k n) (Z.of_nat (S n)) = probe h k (S n) /\ u32 (Z.of_nat (S n) + 1) = Z.of_nat (S (S n)).
Proof.
  intros Hm Hn. pose proof (table_size _ _ Hm). pose proof (tb_k _ _ Hm) as Hk. pose proof (probe_range h k n (proj1 Hk)).
  unfold next_bucket. rewrite (tb_n _ _ Hm), !u32_small by lia. rewrite land_mask, probe_next by lia. split; [done|lia].
Qed.

Lemma first_probe m k h : table m k -> Z.land h (u32 (NumBuckets m - 1)) = probe h k 0.
Proof.
  intros Hm. pose proof (table_size _ _ Hm). rewrite (tb_n _ _ Hm), u32_small, land_mask by (lia || apply (tb_k _ _ Hm)).
  unfold probe. cbn [tri]. by rewrite Z.add_0_r.
Qed.

Lemma find_loop_run m k Val n0 b : table m k -> stops m k Val n0 ->
  Buckets m !! Z.to_nat (probe (getHashValue Val) k n0) = Some b ->
  forall fuel n, (n <= n0)%nat -> (n0 - n < fuel)%nat ->
  find_loop fuel m Val (probe (getHashValue Val) k n) (Z.of_nat (S n)) =
    Done (if isEqual Val b.1 then Some (probe (getHashValue Val) k n0) else None).
Proof.
  intros Hm (Hn0 & Hs & Hlt) Hb. induction fuel as [|fuel IH]; intros n Hle Hf; [lia|]. cbn [find_loop].
  destruct (decide (n = n0)) as [->|Hne].
  - rewrite Hb. unfold stop_at in Hs. rewrite Hb in Hs. destruct b as [key v]. unfold is_empty in Hs. cbn [fst] in *.
    destruct (isEqual Val key); [done|]. cbn in Hs. by rewrite Hs.
  - destruct (table_probe m k (getHashValue Val) n Hm) as [[key v] Hk]. pose proof (Hlt n ltac:(lia)) as Hns.
    unfold stop_at in Hns. rewrite Hk in Hns |- *. apply orb_false_iff in Hns as [Hnv Hne']. unfold is_empty in Hne'. cbn [fst] in Hnv, Hne'. rewrite Hnv.
    rewrite Hne'. destruct (next_probe m k (getHashValue Val) n Hm) as [-> ->]; [lia|]. apply IH; lia.
Qed.

Lemma lookup_loop_run m k Val n0 b : table m k -> stops m k Val n0 ->
  Buckets m !! Z.to_nat (probe (getHashValue Val) k n0) = Some b ->
  forall fuel n ft, (n <= n0)%nat -> (n0 - n < fuel)%nat ->
  (forall t, ft = Some t -> exists nt bt, (nt < n)%nat /\ t = probe (getHashValue Val) k nt /\ Buckets m !! Z.to_nat t = Some bt /\ is_tomb bt = true) ->
  exists r, lookup_loop fuel m Val (probe (getHashValue Val) k n) (Z.of_nat (S n)) ft = Done r /\
    (isEqual Val b.1 = true -> r = (true, probe (getHashValue Val) k n0)) /\
    (isEqual Val b.1 = false -> r.1 = false /\ exists nt bt, (nt <= n0)%nat /\ r.2 = probe (getHashValue Val) k nt /\
       Buckets m !! Z.to_nat r.2 = Some bt /\ is_live bt = false).
Proof.
  intros Hm (Hn0 & Hs & Hlt) Hb. induction fuel as [|fuel IH]; intros n ft Hle Hf Hft; [lia|]. cbn [lookup_loop].
  destruct (decide (n = n0)) as [->|Hne].
  - rewrite Hb. unfold stop_at in Hs. rewrite Hb in Hs. pose proof (bucket_kinds b) as Hkind. destruct b as [key v].
    cbn [fst] in *. unfold is_empty in Hs. cbn [fst] in Hs.
    destruct (isEqual Val key); [eexists; split; [done|]; by split|]. cbn in Hs. rewrite Hs. eexists. split; [done|]. split; [done|].
    intros _. split; [done|]. cbn [snd]. destruct ft as [t|].
    + destruct (Hft t eq_refl) as (nt & bt & Hnt & -> & Hbt & Htomb). exists nt, bt. split; [lia|]. split; [done|]. split; [done|].
      pose proof (bucket_kinds bt). rewrite Htomb in *. by destruct (is_live bt), (is_empty bt).
    + exists n0, (key, v). split; [done|]. split; [done|]. split; [done|]. unfold is_empty in Hkind. cbn [fst] in Hkind. rewrite Hs in Hkind.
      by destruct (is_live (key, v)), (is_tomb (key, v)).
  - destruct (table_probe m k (getHashValue Val) n Hm) as [[key v] Hk]. pose proof (Hlt n ltac:(lia)) as Hns.
    unfold stop_at in Hns. rewrite Hk in Hns |- *. apply orb_false_iff in Hns as [Hnv Hne']. unfold is_empty in Hne'. cbn [fst] in Hnv, Hne'. rewrite Hnv.
    rewrite Hne'. destruct (next_probe m k (getHashValue Val) n Hm) as [-> ->]; [lia|]. apply IH; [lia|lia|].
    intros t. destruct (isEqual key getTombstoneKey) eqn:Et; cbn [andb].
    + case_bool_decide as Hnone; [intros [= <-]|].
      * exists n, (key, v). split; [lia|]. split; [done|]. split; [done|]. exact Et.
      * intros Ht. destruct (Hft t Ht) as (nt & bt & ? & ?). exists nt, bt. split; [lia|done].
    + intros Ht. destruct (Hft t Ht) as (nt & bt & ? & ?). exists nt, bt. split; [lia|done].
Qed.

(** *** Searches *)

(** The table holds the value for the key; or nothing. *)
Definition holds m (key : KeyT) (v : ValueT) : Prop := usable key /\ exists i, Buckets m !! i = Some (key, Some v).
Definition absent m (key : KeyT) : Prop := forall i b, Buckets m !! i = Some b -> is_live b = true -> b.1 <> key.

(** A bucket where the key can go. *)
Definition free_for m k (key : KeyT) (d : Z) : Prop := exists n b,
  (n < Z.to_nat (2 ^ k))%nat /\ d = probe (getHashValue key) k n /\ Buckets m !! Z.to_nat d = Some b /\ is_live b = false /\
  forall n' b', (n' < n)%nat -> Buckets m !! Z.to_nat (probe (getHashValue key) k n') = Some b' -> is_empty b' = false.

Lemma absent_holds m key v : absent m key -> ~ holds m key v.
Proof. intros Ha [Hu (i & Hi)]. by apply (Ha i (key, Some v) Hi); [apply is_live_iff|]. Qed.

Lemma stop_found m k Val n b : table m k -> usable Val -> stops m k Val n ->
  Buckets m !! Z.to_nat (probe (getHashValue Val) k n) = Some b ->
  if isEqual Val b.1 then exists v, b = (Val, Some v) else absent m Val /\ is_empty b = true.
Proof.
  intros Hm Hu (Hn & Hs & Hlt) Hb. unfold stop_at in Hs. rewrite Hb in Hs. destruct (isEqual Val b.1) eqn:E.
  - apply isEqual_eq in E. destruct b as [key v]. cbn [fst] in E. subst key.
    pose proof (tb_val _ _ Hm _ _ Hb (proj2 (is_live_iff (Val, v)) Hu)) as Hv. cbn in Hv. destruct v as [v|]; [|done]. by exists v.
  - cbn in Hs. split; [|done]. intros i b' Hi Hl <-.
    destruct (tb_reach _ _ Hm i b' Hi Hl) as (nn & Hnn & Hp & Hr).
    destruct (Nat.lt_trichotomy nn n) as [Hlt'|[->|Hlt']].
    + pose proof (Hlt nn Hlt') as Hf. unfold stop_at in Hf. rewrite Hp, Hi, isEqual_refl in Hf. done.
    + rewrite Hp, Hi in Hb. injection Hb as ->. by rewrite isEqual_refl in E.
    + by rewrite (Hr n b Hlt' Hb) in Hs.
Qed.

Lemma not_reserved Val : usable Val -> isEqual Val getEmptyKey = false /\ isEqual Val getTombstoneKey = false.
Proof. intros [? ?]. by rewrite !isEqual_neq. Qed.

Lemma table_nonzero m k : table m k -> (NumBuckets m =? 0) = false.
Proof. intros Hm. rewrite (tb_n _ _ Hm). pose proof (table_size _ _ Hm). lia. Qed.

Lemma doFind_spec m k Val : table m k -> usable Val ->
  (exists i v, 0 <= i < 2 ^ k /\ Buckets m !! Z.to_nat i = Some (Val, Some v) /\ doFind m Val = Done (Some i)) \/
  (absent m Val /\ doFind m Val = Done None).
Proof.
  intros Hm Hu. destruct (search_stops m k Val Hm) as (n & Hs). pose proof Hs as (Hn & _ & _).
  destruct (table_probe m k (getHashValue Val) n Hm) as [b Hb]. pose proof (stop_found m k Val n b Hm Hu Hs Hb) as Hf.
  unfold doFind. rewrite (table_nonzero _ _ Hm), (first_probe m k _ Hm).
  rewrite (find_loop_run m k Val n b Hm Hs Hb _ 0) by (rewrite ?(tb_n _ _ Hm); lia).
  destruct (isEqual Val b.1).
  - left. destruct Hf as (v & ->). exists (probe (getHashValue Val) k n), v.
    split; [apply probe_range; apply (tb_k _ _ Hm)|done].
  - right. by destruct Hf.
Qed.

Lemma LookupBucketFor_spec m k Val : table m k -> usable Val ->
  (exists i v, 0 <= i < 2 ^ k /\ Buckets m !! Z.to_nat i = Some (Val, Some v) /\ LookupBucketFor m Val = Done (true, Some i)) \/
  (absent m Val /\ exists d, free_for m k Val d /\ LookupBucketFor m Val = Done (false, Some d)).
Proof.
  intros Hm Hu. destruct (search_stops m k Val Hm) as (n & Hs). pose proof Hs as (Hn & _ & Hlt).
  destruct (table_probe m k (getHashValue Val) n Hm) as [b Hb]. pose proof (stop_found m k Val n b Hm Hu Hs Hb) as Hf.
  unfold LookupBucketFor. rewrite (table_nonzero _ _ Hm), (first_probe m k _ Hm).
  destruct (not_reserved Val Hu) as [-> ->]. cbn [negb check mbind outcome_bind].
  destruct (lookup_loop_run m k Val n b Hm Hs Hb (Z.to_nat (NumBuckets m)) 0 None) as (r & Hr & Hyes & Hno);
    [lia|rewrite (tb_n _ _ Hm); lia|done|]. change (Z.of_nat 1) with 1 in Hr. rewrite Hr. cbn [mbind outcome_bind].
  destruct (isEqual Val b.1).
  - left. destruct Hf as (v & ->). exists (probe (getHashValue Val) k n), v. rewrite Hyes by done.
    split; [apply probe_range; apply (tb_k _ _ Hm)|done].
  - right. destruct Hf as [Hf _]. split; [done|]. destruct (Hno eq_refl) as (Hr1 & nt & bt & Hnt & Hr2 & Hbt & Hl).
    destruct r as [r1 r2]. cbn [fst snd] in *. subst r1. exists r2. split; [|done].
    exists nt, bt. split; [lia|]. split; [done|]. split; [done|]. split; [done|].
    intros n' b' Hn' Hb'. pose proof (Hlt n' ltac:(lia)) as Hns. unfold stop_at in Hns. rewrite Hb' in Hns.
    apply orb_false_iff in Hns as [_ Hns]. exact Hns.
Qed.

(** *** Writing to a table *)

Lemma table_insert m k key v d b : table m k -> usable key -> absent m key -> free_for m k key d ->
  Buckets m !! Z.to_nat d = Some b ->
  NumEntries m + 1 + NumTombstones m - Z.b2z (is_tomb b) < 2 ^ k ->
  let m' := mkMap (<[Z.to_nat d := (key, Some v)]> (Buckets m)) (NumEntries m + 1) (NumTombstones m - Z.b2z (is_tomb b)) (NumBuckets m) in
  table m' k /\ forall key' v', holds m' key' v' <-> (key' = key /\ v' = v) \/ holds m key' v'.
Proof.
  intros Hm Hu Habs (n & b0 & Hn & Hd & Hb0 & Hl & Hpath) Hb Hroom. rewrite Hb in Hb0. injection Hb0 as <-. cbn.
  assert (is_live (key, Some v) = true) as Hlive by by apply is_live_iff.
  pose proof (bucket_kinds (key, Some v)) as Hkinds. rewrite Hlive in Hkinds.
  assert (forall i b', <[Z.to_nat d := (key, Some v)]> (Buckets m) !! i = Some b' ->
    (i = Z.to_nat d /\ b' = (key, Some v)) \/ (i <> Z.to_nat d /\ Buckets m !! i = Some b')) as Hget.
  { intros i b' Hi. apply list_lookup_insert_Some in Hi as [(-> & -> & _)|[Hne Hi]]; [by left|right; by split]. }
  split.
  - split; cbn [Buckets NumEntries NumTombstones NumBuckets].
    + apply (tb_k _ _ Hm).
    + apply (tb_n _ _ Hm).
    + rewrite length_insert. apply (tb_len _ _ Hm).
    + rewrite (countb_insert _ _ _ _ _ Hb), (tb_live _ _ Hm), Hl, Hlive. cbn. lia.
    + rewrite (countb_insert _ _ _ _ _ Hb), (tb_tomb _ _ Hm). destruct (is_tomb (key, Some v)), (is_empty (key, Some v)); cbn in *; lia.
    + lia.
    + intros i b' [[-> ->]|[_ Hi]]%Hget; [done|]. by apply (tb_val _ _ Hm i).
    + intros i j b1 b2 [[-> ->]|[Hne1 Hi]]%Hget [[-> ->]|[Hne2 Hj]]%Hget Hl1 E; [done| | |].
      * cbn [fst] in E. exfalso. apply (Habs j b2 Hj); [|done]. apply is_live_iff. by rewrite <- E.
      * exfalso. by apply (Habs i b1 Hi).
      * by eapply (tb_unique _ _ Hm).
    + assert (forall i b', <[Z.to_nat d := (key, Some v)]> (Buckets m) !! i = Some b' -> is_empty b' = true -> Buckets m !! i = Some b') as Hold.
      { intros i b' [[-> ->]|[_ Hi]]%Hget He; [|done]. rewrite He in Hkinds. by destruct (is_tomb (key, Some v)). }
      assert (forall i b', <[Z.to_nat d := (key, Some v)]> (Buckets m) !! i = Some b' -> 
        (forall b'', Buckets m !! i = Some b'' -> is_empty b'' = false) -> is_empty b' = false) as Hne.
      { intros i b' Hi Hall. destruct (is_empty b') eqn:E; [|done]. by rewrite (Hall b' (Hold i b' Hi E)) in E. }
      intros i b' [[-> ->]|[_ Hi]]%Hget Hl'.
      * exists n. cbn [fst]. split; [done|]. split; [by rewrite Hd|]. intros n' b' Hn' Hb'. apply (Hne _ _ Hb'). intros b''. by apply Hpath.
      * destruct (tb_reach _ _ Hm i b' Hi Hl') as (n2 & Hn2 & Hp & Hr). exists n2. split; [done|]. split; [done|].
        intros n' b'' Hn' Hb'. apply (Hne _ _ Hb'). intros b3. by apply Hr.
  - intros key' v'. unfold holds. cbn [Buckets]. split.
    + intros [Hu' (i & [[-> E]|[_ Hi]]%Hget)]; [left; by injection E|]. right. split; [done|by exists i].
    + intros [[-> ->]|[Hu' (i & Hi)]].
      * split; [done|]. exists (Z.to_nat d). apply list_lookup_insert_eq. by eapply lookup_lt_Some.
      * split; [done|]. exists i. rewrite list_lookup_insert_ne; [done|]. intros <-. rewrite Hi in Hb. injection Hb as <-.
        pose proof (proj2 (is_live_iff (key', Some v')) Hu'). congruence.
Qed.

(** A value is replaced. *)
Lemma countb_fst (p : BucketT -> bool) bs bs' : (forall b b', b.1 = b'.1 -> p b = p b') -> map fst bs' = map fst bs -> countb p bs' = countb p bs.
Proof.
  intros Hp. revert bs'. induction bs as [|b bs IH]; intros [|b' bs'] E; try done. injection E as E1 E2.
  cbn [countb foldr]. fold (countb p bs) (countb p bs'). by rewrite (IH bs' E2), (Hp b' b E1).
Qed.

Lemma table_update m k key v0 v i : table m k -> Buckets m !! i = Some (key, Some v0) -> usable key ->
  let m' := setBuckets m (<[i := (key, Some v)]> (Buckets m)) in
  table m' k /\ forall key' v', holds m' key' v' <-> (key' = key /\ v' = v) \/ (key' <> key /\ holds m key' v').
Proof.
  intros Hm Hi Hu. cbn. set (bs' := <[i := (key, Some v)]> (Buckets m)).
  assert (map fst bs' = map fst (Buckets m)) as Hkeys.
  { unfold bs'. change (fst <$> <[i := (key, Some v)]> (Buckets m) = fst <$> Buckets m). rewrite list_fmap_insert. apply list_insert_id.
    by rewrite list_lookup_fmap, Hi. }
  assert (forall j b', bs' !! j = Some b' -> (j = i /\ b' = (key, Some v)) \/ (j <> i /\ Buckets m !! j = Some b')) as Hget.
  { intros j b' Hj. apply list_lookup_insert_Some in Hj as [(-> & -> & _)|[Hne Hj]]; [by left|right; by split]. }
  assert (forall j b', bs' !! j = Some b' -> exists b, Buckets m !! j = Some b /\ b.1 = b'.1) as Hold.
  { intros j b' [[-> ->]|[_ Hj]]%Hget; eauto. }
  assert (forall b b' : BucketT, b.1 = b'.1 -> is_live b = is_live b' /\ is_tomb b = is_tomb b' /\ is_empty b = is_empty b') as Hfst.
  { intros b b' E. unfold is_live, is_tomb, is_empty. by rewrite E. }
  split.
  - split; cbn [setBuckets Buckets NumEntries NumTombstones NumBuckets].
    + apply (tb_k _ _ Hm).
    + apply (tb_n _ _ Hm).
    + unfold bs'. rewrite length_insert. apply (tb_len _ _ Hm).
    + rewrite (countb_fst is_live _ _ (fun b b' E => proj1 (Hfst b b' E)) Hkeys). apply (tb_live _ _ Hm).
    + rewrite (countb_fst is_tomb _ _ (fun b b' E => proj1 (proj2 (Hfst b b' E))) Hkeys). apply (tb_tomb _ _ Hm).
    + apply (tb_room _ _ Hm).
    + intros j b' [[-> ->]|[_ Hj]]%Hget; [done|]. by apply (tb_val _ _ Hm j).
    + intros j1 j2 b1 b2 (c1 & Hc1 & E1)%Hold (c2 & Hc2 & E2)%Hold Hl E. destruct (Hfst c1 b1 E1) as (El & _).
      eapply (tb_unique _ _ Hm); [done|done|congruence|congruence].
    + intros j b' (c & Hc & E)%Hold Hl. destruct (Hfst c b' E) as (El & _).
      destruct (tb_reach _ _ Hm j c Hc) as (n & Hn & Hp & Hr); [congruence|]. rewrite E in Hp, Hr. exists n. split; [done|]. split; [done|].
      intros n' b'' Hn' (c' & Hc' & E')%Hold. destruct (Hfst c' b'' E') as (_ & _ & <-). by apply (Hr n').
  - intros key' v'. unfold holds. cbn [setBuckets Buckets]. fold bs'. split.
    + intros [Hu' (j & [[-> E]|[Hne Hj]]%Hget)]; [left; by injection E|]. right. split; [|split; [done|by exists j]].
      intros ->. apply Hne. eapply (tb_unique _ _ Hm); [exact Hj|exact Hi|by apply is_live_iff|done].
    + intros [[-> ->]|[Hne [Hu' (j & Hj)]]]; split; try done.
      * exists i. apply list_lookup_insert_eq. by eapply lookup_lt_Some.
      * exists j. unfold bs'. rewrite list_lookup_insert_ne; [done|]. intros <-. rewrite Hj in Hi. congruence.
Qed.

(** A key is replaced by a tombstone. *)
Lemma table_erase m k key v i : table m k -> 0 <= i -> Buckets m !! Z.to_nat i = Some (key, Some v) -> usable key ->
  table (erase_bucket m i) k /\ NumBuckets (erase_bucket m i) = NumBuckets m /\
  forall key' v', holds (erase_bucket m i) key' v' <-> key' <> key /\ holds m key' v'.
Proof.
  intros Hm Hi0 Hi Hu. pose proof (table_counts _ _ Hm). pose proof (table_size _ _ Hm). pose proof (tb_room _ _ Hm).
  assert (is_live (key, Some v) = true) as Hlive by by apply is_live_iff.
  assert (is_live (getTombstoneKey, None) = false /\ is_tomb (getTombstoneKey, None) = true /\ is_empty (getTombstoneKey, None) = false) as (Ht1 & Ht2 & Ht3).
  { pose proof (bucket_kinds (getTombstoneKey, None)) as Hk. unfold is_tomb in *. cbn [fst] in *. rewrite isEqual_refl in *.
    by destruct (is_live (getTombstoneKey, None)), (is_empty (getTombstoneKey, None)). }
  pose proof (bucket_kinds (key, Some v)) as Hkinds. rewrite Hlive in Hkinds.
  assert (1 <= NumEntries m) as Hpos.
  { rewrite (tb_live _ _ Hm). pose proof (countb_insert is_live _ _ _ (getTombstoneKey, None) Hi) as E. rewrite Hlive, Ht1 in E.
    pose proof (countb_nonneg is_live (<[Z.to_nat i := (getTombstoneKey, None)]> (Buckets m))). cbn in E. lia. }
  assert (forall j b', <[Z.to_nat i := (getTombstoneKey, None)]> (Buckets m) !! j = Some b' ->
    (j = Z.to_nat i /\ b' = (getTombstoneKey, None)) \/ (j <> Z.to_nat i /\ Buckets m !! j = Some b')) as Hget.
  { intros j b' Hj. apply list_lookup_insert_Some in Hj as [(-> & -> & _)|[Hne Hj]]; [by left|right; by split]. }
  assert (erase_bucket m i = mkMap (<[Z.to_nat i := (getTombstoneKey, None)]> (Buckets m)) (NumEntries m - 1) (NumTombstones m + 1) (NumBuckets m)) as ->.
  { unfold erase_bucket, incrementNumTombstones, decrementNumEntries, setNumTombstones, setNumEntries, setBuckets. cbn.
    rewrite !u32_small by lia. done. }
  split; [|split; [done|]].
  - split; cbn [Buckets NumEntries NumTombstones NumBuckets].
    + apply (tb_k _ _ Hm).
    + apply (tb_n _ _ Hm).
    + rewrite length_insert. apply (tb_len _ _ Hm).
    + rewrite (countb_insert _ _ _ _ _ Hi), (tb_live _ _ Hm), Hlive, Ht1. cbn. lia.
    + rewrite (countb_insert _ _ _ _ _ Hi), (tb_tomb _ _ Hm), Ht2. destruct (is_tomb (key, Some v)), (is_empty (key, Some v)); cbn in *; lia.
    + lia.
    + intros j b' [[-> ->]|[_ Hj]]%Hget; [congruence|]. by apply (tb_val _ _ Hm j).
    + intros j1 j2 b1 b2 [[-> ->]|[Hne1 Hj1]]%Hget [[-> ->]|[Hne2 Hj2]]%Hget Hl1 E; [done|congruence| |].
      * exfalso. assert (is_live b1 = is_live (getTombstoneKey, None)); [|congruence]. unfold is_live. by rewrite E.
      * by eapply (tb_unique _ _ Hm).
    + intros j b' [[-> ->]|[_ Hj]]%Hget Hl'; [congruence|].
      destruct (tb_reach _ _ Hm j b' Hj Hl') as (n2 & Hn2 & Hp & Hr). exists n2. split; [done|]. split; [done|].
      intros n' b'' Hn' [[E ->]|[_ Hb']]%Hget; [done|]. by apply (Hr n').
  - intros key' v'. unfold holds. cbn [Buckets]. split.
    + intros [Hu' (j & [[-> E]|[Hne Hj]]%Hget)]; [by injection E as -> _; destruct Hu'|]. split; [|split; [done|by exists j]].
      intros ->. apply Hne. eapply (tb_unique _ _ Hm); [exact Hj|exact Hi|by apply is_live_iff|done].
    + intros [Hne [Hu' (j & Hj)]]. split; [done|]. exists j. rewrite list_lookup_insert_ne; [done|]. intros <-. rewrite Hj in Hi. congruence.
Qed.

(** *** New tables *)

Context (sizeof_range : 0 < sizeof_BucketT < 2 ^ 20) (page_range : 0 <= GetPageSizeCached <= 2 ^ 28).

Definition new_map (n : Z) : DenseMap := mkMap (replicate (Z.to_nat n) (getEmptyKey, None)) 0 0 n.

(** The size uses the whole page. *)
Definition page_full (n : Z) : Prop := GetPageSizeCached < sizeof_BucketT * n * 2.

Lemma pow_le_29 j : 0 <= j <= 29 -> 0 < 2 ^ j <= 2 ^ 29.
Proof. intros Hj. split; [apply Z.pow_pos_nonneg; lia|apply Z.pow_le_mono_r; lia]. Qed.

Lemma allocateBuckets_spec m j : 0 <= j <= 29 -> exists j', j <= j' <= 29 /\ 
  allocateBuckets m (2 ^ j) =
    Done (true, mkMap (replicate (Z.to_nat (2 ^ j')) (getEmptyKey, None)) (NumEntries m) (NumTombstones m) (2 ^ j')) /\
  page_full (2 ^ j') /\ 2 ^ j' <= Z.max (2 ^ j) GetPageSizeCached.
Proof.
  intros Hj. pose proof (pow_le_29 j Hj) as Hp. unfold allocateBuckets, page_full.
  rewrite (proj2 (Z.eqb_neq (2 ^ j) 0)) by lia. assert (0 < sizeof_BucketT * 2 ^ j < 2 ^ 50) as Hs by nia.
  rewrite (u64_small (sizeof_BucketT * 2 ^ j)), (u64_small (sizeof_BucketT * 2 ^ j * 2)) by lia.
  set (S := sizeof_BucketT * 2 ^ j) in *. destruct (Z.leb_spec (S * 2) GetPageSizeCached) as [Hle|Hgt].
  - set (q := GetPageSizeCached / S). assert (2 <= q) as Hq by (apply Z.div_le_lower_bound; lia).
    pose proof (Z.log2_spec q ltac:(lia)) as [Hl1 Hl2]. pose proof (Z.log2_nonneg q) as HL. set (L := Z.log2 q) in *.
    rewrite Z.pow_succ_r in Hl2 by done. pose proof (Z.mul_div_le GetPageSizeCached S ltac:(lia)) as Hd. fold q in Hd.
    pose proof (Z.mul_succ_div_gt GetPageSizeCached S ltac:(lia)) as Hd'. fold q in Hd'.
    pose proof (Z.pow_pos_nonneg 2 L ltac:(lia) HL) as HpL.
    assert (S * 2 ^ L <= GetPageSizeCached) as H1 by nia. assert (GetPageSizeCached < S * 2 ^ L * 2) as H2 by nia.
    assert (2 ^ j * 2 ^ L <= GetPageSizeCached) as H3 by (unfold S in H1; nia).
    unfold MostSignificantSetBitIndex, CHECK_NE0. rewrite (proj2 (Z.eqb_neq q 0)) by lia.
    cbn [negb check mbind outcome_bind mret outcome_ret]. fold L. rewrite !Z.shiftl_mul_pow2 by done.
    rewrite (u64_small (S * 2 ^ L)), (u32_small (2 ^ j * 2 ^ L)) by lia.
    rewrite (u64_small (sizeof_BucketT * (2 ^ j * 2 ^ L))) by (unfold S in *; lia).
    rewrite (proj2 (Z.eqb_eq (S * 2 ^ L) _)) by (unfold S; lia). rewrite u64_small by lia.
    rewrite (proj2 (Z.ltb_lt GetPageSizeCached _)) by lia. cbn [check mbind outcome_bind].
    assert (j + L <= 28) as HjL by (apply (Z.pow_le_mono_r_iff 2); [lia|lia|rewrite Z.pow_add_r by lia; lia]).
    exists (j + L). rewrite Z.pow_add_r by lia. split; [lia|]. split; [done|]. split; [unfold S in H2; lia|lia].
  - exists j. split; [lia|]. split; [done|]. split; [unfold S in Hgt; lia|lia].
Qed.

Lemma new_map_lookup n i b : Buckets (new_map n) !! i = Some b -> b = (getEmptyKey, None).
Proof. cbn. intros Hi. by apply lookup_replicate in Hi as [-> _]. Qed.

Lemma empty_bucket : is_live (getEmptyKey, None) = false /\ is_tomb (getEmptyKey, None) = false /\ is_empty (getEmptyKey, None) = true.
Proof.
  pose proof (bucket_kinds (getEmptyKey, None)) as Hk. unfold is_empty in *. cbn [fst] in *. rewrite isEqual_refl in *.
  by destruct (is_live (getEmptyKey, None)), (is_tomb (getEmptyKey, None)).
Qed.

Lemma new_table j : 0 <= j <= 29 -> table (new_map (2 ^ j)) j.
Proof.
  intros Hj. pose proof (pow_le_29 j Hj). destruct empty_bucket as (E1 & E2 & E3). split; cbn [new_map Buckets NumEntries NumTombstones NumBuckets].
  - done.
  - done.
  - rewrite length_replicate. lia.
  - rewrite countb_replicate, E1. cbn. lia.
  - rewrite countb_replicate, E2. cbn. lia.
  - lia.
  - intros i b ->%(new_map_lookup (2 ^ j)) Hl. congruence.
  - intros i i' b b' ->%(new_map_lookup (2 ^ j)) _ Hl. congruence.
  - intros i b ->%(new_map_lookup (2 ^ j)) Hl. congruence.
Qed.

Lemma new_map_holds n key v : ~ holds (new_map n) key v.
Proof. intros [[Hu _] (i & Hi%new_map_lookup)]. injection Hi as -> . done. Qed.

Lemma initEmpty_spec n1 n2 j : 0 <= j <= 29 -> 
  initEmpty (mkMap (replicate (Z.to_nat (2 ^ j)) (getEmptyKey, None)) n1 n2 (2 ^ j)) = Done (new_map (2 ^ j)).
Proof.
  intros Hj. pose proof (pow_le_29 j Hj). unfold initEmpty. cbn [NumBuckets Buckets]. rewrite u32_small, land_pred_pow2 by lia.
  cbn [Z.eqb check mbind outcome_bind mret outcome_ret]. unfold new_map. do 2 f_equal.
  generalize (Z.to_nat (2 ^ j)) as n. induction n as [|n IH]; [done|]. cbn [replicate map]. by rewrite IH.
Qed.

(** *** Moving the entries *)

Lemma absent_iff m k key : table m k -> usable key -> absent m key <-> forall v, ~ holds m key v.
Proof.
  intros Hm Hu. split; [intros Ha v; by apply absent_holds|]. intros Hn i b Hi Hl <-. pose proof (tb_val _ _ Hm i b Hi Hl) as Hv.
  destruct b as [key [v|]]; [|done]. apply (Hn v). split; [done|by exists i].
Qed.

Lemma no_tombs m k (key : KeyT) d b : table m k -> free_for m k key d -> Buckets m !! Z.to_nat d = Some b -> NumTombstones m = 0 ->
  is_tomb b = false.
Proof.
  intros Hm _ Hb H0. rewrite (tb_tomb _ _ Hm) in H0. destruct (is_tomb b) eqn:E; [|done]. exfalso.
  pose proof (countb_insert is_tomb _ _ _ (getEmptyKey, None) Hb) as Hc. destruct empty_bucket as (_ & E2 & _). rewrite E, E2, H0 in Hc.
  pose proof (countb_nonneg is_tomb (<[Z.to_nat d := (getEmptyKey, None)]> (Buckets m))). cbn in Hc. lia.
Qed.

Lemma move_loop_spec j old : forall m, table m j -> NumTombstones m = 0 ->
  NumEntries m + countb is_live old < 2 ^ j ->
  (forall i1 i2 b b', old !! i1 = Some b -> old !! i2 = Some b' -> is_live b = true -> b.1 = b'.1 -> i1 = i2) ->
  (forall i b, old !! i = Some b -> is_live b = true -> b.2 <> None /\ absent m b.1) ->
  exists m', move_loop old m = Done m' /\ table m' j /\ NumTombstones m' = 0 /\
    NumEntries m' = NumEntries m + countb is_live old /\
    forall key v, holds m' key v <-> holds m key v \/ (usable key /\ exists i, old !! i = Some (key, Some v)).
Proof.
  induction old as [|B old IH]; intros m Hm Ht Hroom Huniq Hold.
  { exists m. split; [done|]. split; [done|]. split; [done|]. split; [cbn; lia|]. intros key v. split; [by left|].
    by intros [?|[_ (i & ?)]]. }
  cbn [move_loop]. cbn [countb foldr] in Hroom |- *. fold (countb is_live old) in Hroom |- *. destruct (is_live B) eqn:El.
  - pose proof (proj1 (is_live_iff B) El) as Hu. destruct (Hold 0%nat B eq_refl El) as [Hv Habs].
    destruct (LookupBucketFor_spec m j B.1 Hm Hu) as [(i & v & Hi & Hb & _)|(_ & d & Hfree & ->)].
    { exfalso. apply (Habs _ _ Hb); [|done]. by apply is_live_iff. }
    cbn [mbind outcome_bind negb check]. pose proof Hfree as (n & b & _ & _ & Hb & _ & _).
    destruct B as [key [v|]]; [|done]. cbn [fst snd] in *.
    pose proof (no_tombs m j key d b Hm Hfree Hb Ht) as Htomb. pose proof (table_counts _ _ Hm). pose proof (table_size _ _ Hm).
    pose proof (countb_nonneg is_live old). cbn in Hroom.
    destruct (table_insert m j key v d b Hm Hu Habs Hfree Hb) as [Hm' Hholds]; [rewrite Htomb; cbn; lia|].
    assert (incrementNumEntries (setBuckets m (<[Z.to_nat d := (key, Some v)]> (Buckets m))) =
      mkMap (<[Z.to_nat d := (key, Some v)]> (Buckets m)) (NumEntries m + 1) (NumTombstones m - Z.b2z (is_tomb b)) (NumBuckets m)) as ->.
    { unfold incrementNumEntries, setNumEntries, setBuckets. cbn. rewrite u32_small, Htomb by lia. f_equal. cbn. lia. }
    set (m' := mkMap _ _ _ _) in *.
    destruct (IH m' Hm') as (m'' & Hmove & Hm'' & Ht'' & Hn'' & Hh'').
    + cbn. rewrite Htomb, Ht. done.
    + cbn [m' NumEntries]. lia.
    + intros i1 i2 b1 b2 H1' H2' Hl E. assert (S i1 = S i2); [|lia]. by apply (Huniq (S i1) (S i2) b1 b2).
    + intros i b' Hi Hl. destruct (Hold (S i) b' Hi Hl) as [Hv' Ha']. split; [done|].
      apply (absent_iff m' j); [done|by apply is_live_iff|]. intros v0 [[E _]|Hh]%Hholds; [|by apply (absent_holds m b'.1 v0)].
      by specialize (Huniq (S i) 0%nat b' (key, Some v) Hi eq_refl Hl E).
    + exists m''. split; [done|]. split; [done|]. split; [done|]. split; [rewrite Hn''; cbn [m' NumEntries]; cbn; lia|].
      intros key' v'. rewrite Hh'', Hholds. split.
      * intros [[[-> ->]|?]|[Hu' (i & Hi)]]; [right; split; [done|by exists 0%nat]|by left|right; split; [done|by exists (S i)]].
      * intros [?|[Hu' ([|i] & Hi)]]; [by left; right|left; left; by injection Hi as -> ->|right; split; [done|by exists i]].
  - destruct (IH m Hm Ht) as (m' & Hmove & Hm' & Ht' & Hn' & Hh').
    + cbn in Hroom. lia.
    + intros i1 i2 b1 b2 H1' H2' Hl E. assert (S i1 = S i2); [|lia]. by apply (Huniq (S i1) (S i2) b1 b2).
    + intros i b' Hi Hl. by apply (Hold (S i)).
    + exists m'. split; [done|]. split; [done|]. split; [done|]. split; [rewrite Hn'; cbn; lia|].
      intros key' v'. rewrite Hh'. split.
      * intros [?|[Hu' (i & Hi)]]; [by left|right; split; [done|by exists (S i)]].
      * intros [?|[Hu' ([|i] & Hi)]]; [by left| |right; split; [done|by exists i]].
        injection Hi as ->. apply (is_live_iff (key', Some v')) in Hu'. congruence.
Qed.

(** *** Growing *)

Definition wf m : Prop := m = DenseMap0 \/ exists k, table m k /\ page_full (2 ^ k).

Lemma DenseMap0_holds key v : ~ holds DenseMap0 key v.
Proof. by intros [_ (i & Hi)]. Qed.

Lemma grow_spec m AtLeast : wf m -> 0 <= AtLeast <= 2 ^ 29 -> NumEntries m < Z.max 64 AtLeast ->
  exists m' k, grow m AtLeast = Done m' /\ table m' k /\ page_full (2 ^ k) /\ NumTombstones m' = 0 /\ NumEntries m' = NumEntries m /\
    (forall key v, holds m' key v <-> holds m key v) /\
    Z.max 64 AtLeast <= 2 ^ k /\ (forall e, 0 <= e -> Z.max 64 AtLeast <= 2 ^ e -> 2 ^ k <= Z.max GetPageSizeCached (2 ^ e)).
Proof.
  intros Hw Ha Hn. unfold grow. assert (Max 64 AtLeast = Z.max 64 AtLeast) as ->.
  { unfold Max. destruct (Z.ltb_spec AtLeast 64); lia. }
  destruct (RoundUpToPowerOfTwo_spec (Z.max 64 AtLeast)) as (j & -> & Hj & Hle); [lia|]. cbn [mbind outcome_bind].
  assert (6 <= j <= 29) as Hj'.
  { split; [|apply Z.lt_succ_r; apply (Z.pow_lt_mono_r_iff 2); cbn; lia].
    destruct (Z.lt_ge_cases j 6); [|done]. pose proof (Z.pow_le_mono_r 2 j 5). lia. }
  pose proof (pow_le_29 j ltac:(lia)) as Hpj. rewrite u32_small by lia.
  assert (forall e, 0 <= e -> Z.max 64 AtLeast <= 2 ^ e -> 2 ^ j <= 2 ^ e) as Hub.
  { intros e He Hle'. apply Z.pow_le_mono_r; [lia|]. apply Z.lt_succ_r, (Z.pow_lt_mono_r_iff 2); [lia|lia|]. rewrite Z.pow_succ_r by done. lia. }
  destruct (allocateBuckets_spec m j ltac:(lia)) as (k & Hk & -> & Hfull & Hkb). cbn [mbind outcome_bind check].
  pose proof (initEmpty_spec (NumEntries m) (NumTombstones m) k ltac:(lia)) as Hinit.
  pose proof (new_table k ltac:(lia)) as Hnew. assert (2 ^ j <= 2 ^ k) by (apply Z.pow_le_mono_r; lia).
  destruct Hw as [->|(k0 & Hm & _)].
  - cbn [DenseMap0 NumBuckets Z.eqb]. cbn [DenseMap0 NumEntries NumTombstones] in Hinit. exists (new_map (2 ^ k)), k. split; [exact Hinit|].
    split; [done|]. split; [done|]. split; [done|]. split; [done|].
    split; [|split; [lia|intros e He Hle'; specialize (Hub e He Hle'); lia]].
    intros key v. split; [by intros ?%new_map_holds|by intros ?%DenseMap0_holds].
  - rewrite (table_nonzero _ _ Hm). unfold moveFromOldBuckets. rewrite Hinit. cbn [mbind outcome_bind].
    destruct (move_loop_spec k (Buckets m) (new_map (2 ^ k)) Hnew eq_refl) as (m' & -> & Hm' & Ht' & Hn' & Hh').
    + cbn [new_map NumEntries]. rewrite <- (tb_live _ _ Hm). lia.
    + apply (tb_unique _ _ Hm).
    + intros i b Hi Hl. split; [by apply (tb_val _ _ Hm i)|].
      apply (absent_iff _ k); [done|by apply is_live_iff|intros v; apply new_map_holds].
    + exists m', k. split; [done|]. split; [done|]. split; [done|]. split; [done|].
      split; [rewrite Hn', (tb_live _ _ Hm); cbn; lia|].
      split; [|split; [lia|intros e He Hle'; specialize (Hub e He Hle'); lia]].
      intros key v. rewrite Hh'. change (usable key /\ _) with (holds m key v). split.
      * by intros [?%new_map_holds|?].
      * by right.
Qed.

(** *** Insertion *)

Lemma finish_insert m k key v d : table m k -> usable key -> absent m key -> free_for m k key d ->
  NumEntries m + 1 + NumTombstones m < 2 ^ k ->
  exists m', (match Buckets m !! Z.to_nat d with
              | None => Died "past the buckets"
              | Some (k', _) => Done (d, if negb (isEqual k' getEmptyKey) then decrementNumTombstones (incrementNumEntries m) else incrementNumEntries m)
              end ≫= (fun r : Z * DenseMap => let '(b, m) := r in mret (b, setBuckets m (<[Z.to_nat b := (key, Some v)]> (Buckets m))))) = Done (d, m') /\
    table m' k /\ NumEntries m' = NumEntries m + 1 /\ Buckets m' !! Z.to_nat d = Some (key, Some v) /\
    forall key' v', holds m' key' v' <-> (key' = key /\ v' = v) \/ holds m key' v'.
Proof.
  intros Hm Hu Habs Hfree Hroom. pose proof Hfree as (n & b & _ & _ & Hb & Hl & _). pose proof (table_counts _ _ Hm). pose proof (table_size _ _ Hm).
  pose proof (bucket_kinds b) as Hk. rewrite Hl in Hk.
  destruct (table_insert m k key v d b Hm Hu Habs Hfree Hb) as [Hm' Hh]; [destruct (is_tomb b); cbn; lia|].
  eexists. split; [|split; [exact Hm'|split; [done|split; [|exact Hh]]]].
  - rewrite Hb. destruct b as [kb vb]. assert (1 <= NumTombstones m \/ is_tomb (kb, vb) = false) as Hpos.
    { destruct (is_tomb (kb, vb)) eqn:Et; [left|by right]. rewrite (tb_tomb _ _ Hm).
      pose proof (countb_insert is_tomb _ _ _ (getEmptyKey, None) Hb) as E. destruct empty_bucket as (_ & E2 & _). rewrite Et, E2 in E.
      pose proof (countb_nonneg is_tomb (<[Z.to_nat d := (getEmptyKey, None)]> (Buckets m))). cbn in E. lia. }
    unfold is_empty in Hk. cbn [fst] in Hk. cbn [mbind outcome_bind].
    destruct (isEqual kb getEmptyKey), (is_tomb (kb, vb)); cbn in Hk; try lia; cbn [negb];
      unfold decrementNumTombstones, incrementNumEntries, setNumTombstones, setNumEntries, setBuckets; cbn [Buckets NumEntries NumTombstones NumBuckets];
      rewrite !u32_small by lia; cbn [Z.b2z]; rewrite ?Z.sub_0_r; done.
  - cbn [Buckets]. apply list_lookup_insert_eq. by eapply lookup_lt_Some.
Qed.

(** How large the table may become. *)
Definition grown_size m : Z := Z.max (NumBuckets m) (Z.max GetPageSizeCached (Z.max 64 (3 * (NumEntries m + 1)))).

Lemma table_insert_spec m key v TheBucket : wf m -> usable key -> absent m key ->
  NumBuckets m <= 2 ^ 28 ->
  (m = DenseMap0 \/ exists k d, table m k /\ TheBucket = Some d /\ free_for m k key d) ->
  exists b m' k, InsertIntoBucket m TheBucket key v = Done (b, m') /\ table m' k /\ page_full (2 ^ k) /\
    NumEntries m' = NumEntries m + 1 /\ Buckets m' !! Z.to_nat b = Some (key, Some v) /\
    (forall key' v', holds m' key' v' <-> (key' = key /\ v' = v) \/ holds m key' v') /\ NumBuckets m' <= grown_size m.
Proof.
  intros Hw Hu Habs Hle Hwhere. unfold InsertIntoBucket, InsertIntoBucketImpl.
  assert (0 <= NumBuckets m /\ 0 <= NumEntries m /\ 0 <= NumTombstones m /\ NumEntries m + NumTombstones m <= NumBuckets m /\
    (NumBuckets m = 0 -> m = DenseMap0) /\ (NumBuckets m <> 0 -> NumEntries m + NumTombstones m < NumBuckets m)) as (Hn0 & He0 & Ht0 & Hroom & Hzero & Hlt).
  { destruct Hw as [->|(k & Hm & _)]; [by split_and!|]. pose proof (table_counts _ _ Hm). pose proof (tb_room _ _ Hm). pose proof (table_size _ _ Hm).
    rewrite (tb_n _ _ Hm). split_and!; first [lia | intros ?; exfalso; lia]. }
  rewrite (u32_small (NumEntries m + 1)), (u32_small (NumBuckets m * 3)), (u32_small ((NumEntries m + 1) * 4)) by lia.
  rewrite (u32_small (NumEntries m + 1 + NumTombstones m)) by lia.
  assert (forall AtLeast, 0 <= AtLeast <= 2 ^ 29 -> NumEntries m + 1 < Z.max 64 AtLeast -> 
    (exists e, 0 <= e /\ Z.max 64 AtLeast <= 2 ^ e <= grown_size m) ->
    exists b m' k, (r ← (r ← (m0 ← grow m AtLeast; r ← LookupBucketFor m0 key; mret (r.2, m0));
             let '(TheBucket, m0) := r : option Z * DenseMap in
             match TheBucket with
             | None => Died "TheBucket"
             | Some b => let m0 := incrementNumEntries m0 in
                 match Buckets m0 !! Z.to_nat b with
                 | None => Died "past the buckets"
                 | Some (k, _) => mret (b, if negb (isEqual k getEmptyKey) then decrementNumTombstones m0 else m0)
                 end
             end);
        let '(b, m0) := r : Z * DenseMap in mret (b, setBuckets m0 (<[Z.to_nat b := (key, Some v)]> (Buckets m0)))) = Done (b, m') /\
      table m' k /\ page_full (2 ^ k) /\
      NumEntries m' = NumEntries m + 1 /\ Buckets m' !! Z.to_nat b = Some (key, Some v) /\
      (forall key' v', holds m' key' v' <-> (key' = key /\ v' = v) \/ holds m key' v') /\ NumBuckets m' <= grown_size m) as Hgrow.
  { intros AtLeast HA Hne (e & He & Hle1 & Hle2). destruct (grow_spec m AtLeast Hw HA ltac:(lia)) as (m1 & k1 & -> & Hm1 & Hfull & Ht1 & Hn1 & Hh1 & Hk1 & Hk2).
    cbn [mbind outcome_bind]. assert (absent m1 key) as Ha1.
    { apply (absent_iff _ k1); [done|done|]. intros v0 Hv0%Hh1. by apply (absent_holds m key v0). }
    destruct (LookupBucketFor_spec m1 k1 key Hm1 Hu) as [(i & v0 & _ & Hi & _)|(_ & d & Hfree & ->)].
    { exfalso. by apply (Ha1 _ _ Hi); [apply is_live_iff|]. }
    cbn [mbind outcome_bind mret outcome_ret snd]. cbv zeta. cbn [incrementNumEntries setNumEntries Buckets].
    destruct (finish_insert m1 k1 key v d Hm1 Hu Ha1 Hfree) as (m' & E & Hm' & Hn' & Hb' & Hh'); [lia|].
    exists d, m', k1. split; [exact E|]. split; [done|]. split; [done|]. split; [lia|]. split; [done|].
    split; [intros key' v'; by rewrite Hh', Hh1|]. rewrite (tb_n _ _ Hm'). specialize (Hk2 e He Hle1).
    unfold grown_size in *. lia. }
  assert (NumBuckets m = 0 \/ exists k, 0 <= k /\ NumBuckets m = 2 ^ k) as Hpow.
  { destruct Hw as [->|(k & Hm & _)]; [by left|right]. exists k. split; [apply (tb_k _ _ Hm)|apply (tb_n _ _ Hm)]. }
  assert (forall n, n = 0 \/ (exists k, 0 <= k /\ n = 2 ^ k) -> exists e, 0 <= e /\ 2 ^ e = Z.max 64 n) as Hmax.
  { intros n [->|(k & Hk & ->)]; [by exists 6|]. destruct (Z.leb_spec k 6); [exists 6; split; [lia|]|exists k; split; [lia|]].
    - pose proof (Z.pow_le_mono_r 2 k 6). lia.
    - pose proof (Z.pow_le_mono_r 2 6 k). lia. }
  destruct (Z.leb_spec (NumBuckets m * 3) ((NumEntries m + 1) * 4)) as [H1|H1].
  - rewrite u32_small by lia. apply Hgrow; [lia| |].
    + destruct (decide (NumBuckets m = 0)) as [E|E]; [rewrite (Hzero E); cbn; lia|]. specialize (Hlt E). lia.
    + destruct (Hmax (NumBuckets m * 2)) as (e & He & Ee).
      * destruct Hpow as [->|(k & Hk & ->)]; [by left|right]. exists (k + 1). rewrite Z.pow_add_r by lia. lia.
      * exists e. unfold grown_size. lia.
  - rewrite u32_small by lia. destruct (Z.leb_spec (NumBuckets m - (NumEntries m + 1 + NumTombstones m)) (NumBuckets m / 8)) as [H2|H2].
    + apply Hgrow; [lia|lia|]. destruct (Hmax (NumBuckets m) Hpow) as (e & He & Ee). exists e. unfold grown_size. lia.
    + destruct Hwhere as [->|(k & d & Hm & -> & Hfree)]; [cbn in H1; lia|].
      pose proof (Z.div_pos (NumBuckets m) 8 Hn0 ltac:(lia)).
      cbn [mbind outcome_bind mret outcome_ret snd]. cbv zeta. cbn [incrementNumEntries setNumEntries Buckets].
      destruct (finish_insert m k key v d Hm Hu Habs Hfree) as (m' & E & Hm' & Hn' & Hb' & Hh'); [rewrite <- (tb_n _ _ Hm); lia|].
      destruct Hw as [->|(k' & Hm0 & Hfull)]; [cbn in H1; lia|].
      assert (k' = k) as -> by (pose proof (tb_n _ _ Hm); pose proof (tb_n _ _ Hm0); apply (Z.pow_inj_r 2); [lia| | |congruence]; [apply (tb_k _ _ Hm0)|apply (tb_k _ _ Hm)]).
      exists d, m', k. split; [exact E|]. split; [done|]. split; [done|]. split; [done|]. split; [done|]. split; [done|].
      unfold grown_size. rewrite (tb_n _ _ Hm'), (tb_n _ _ Hm). lia.
Qed.

(** ** A finite map *)

Context `{Countable KeyT}.
Implicit Types (g : gmap KeyT ValueT).

(** The table represents the finite map. *)
Definition repr m g : Prop := wf m /\ forall key v, g !! key = Some v <-> holds m key v.

Definition entries (bs : list BucketT) : list (KeyT * ValueT) :=
  omap (fun b => if is_live b then option_map (pair b.1) b.2 else None) bs.

Lemma elem_of_entries bs key v : (key, v) ∈ entries bs <-> usable key /\ exists i, bs !! i = Some (key, Some v).
Proof.
  unfold entries. rewrite list_elem_of_omap. split.
  - intros ([k [v'|]] & Hin & E); cbn [fst snd option_map] in E; destruct (is_live (k, _)) eqn:El; try done.
    injection E as -> ->. apply is_live_iff in El. split; [done|]. by apply list_elem_of_lookup.
  - intros [Hu (i & Hi)]. exists (key, Some v). split; [by eapply list_elem_of_lookup_2|]. by rewrite (proj2 (is_live_iff (key, Some v)) Hu).
Qed.

Lemma entries_facts bs :
  (forall i b, bs !! i = Some b -> is_live b = true -> b.2 <> None) ->
  (forall i j b b', bs !! i = Some b -> bs !! j = Some b' -> is_live b = true -> b.1 = b'.1 -> i = j) ->
  NoDup (entries bs).*1 /\ Z.of_nat (length (entries bs)) = countb is_live bs.
Proof.
  induction bs as [|b bs IH]; intros Hv Hu; [by split; [apply list.NoDup_nil|]|].
  destruct IH as [IH1 IH2]; [intros i; apply (Hv (S i))| |].
  { intros i j b1 b2 H1' H2' Hl E. assert (S i = S j); [|lia]. by apply (Hu (S i) (S j) b1 b2). }
  cbn [countb foldr]. fold (countb is_live bs). destruct b as [key ov]. cbn [entries omap list_omap fst snd]. fold (entries bs).
  destruct (is_live (key, ov)) eqn:El; [|by split]. pose proof (Hv 0%nat (key, ov) eq_refl El) as Hov. destruct ov as [v|]; [|done].
  change (NoDup ((key :: (entries bs).*1)) /\ Z.of_nat (length ((key, v) :: entries bs)) = Z.b2z true + countb is_live bs).
  split; [|cbn [length Z.b2z]; lia]. apply list.NoDup_cons. split; [|done].
  intros ([k' v'] & -> & [_ (i & Hi)]%elem_of_entries)%list_elem_of_fmap.
  specialize (Hu 0%nat (S i) (k', Some v) (k', Some v') eq_refl Hi El eq_refl). done.
Qed.

Lemma repr_entries m k g : table m k -> repr m g -> g = list_to_map (entries (Buckets m)) /\ NoDup (entries (Buckets m)).*1.
Proof.
  intros Hm [_ Hg]. destruct (entries_facts (Buckets m) (tb_val _ _ Hm) (tb_unique _ _ Hm)) as [Hnd _]. split; [|done].
  apply map_eq. intros key. apply option_eq. intros v. rewrite Hg. rewrite <- elem_of_list_to_map by done. by rewrite elem_of_entries.
Qed.

Lemma repr_size m g : repr m g -> NumEntries m = Z.of_nat (base.size g).
Proof.
  intros Hr. pose proof Hr as [[->|(k & Hm & _)] Hg].
  - assert (g = ∅) as ->; [|done]. apply map_empty. intros key. apply eq_None_not_Some. intros [v Hv%Hg]. by apply DenseMap0_holds in Hv.
  - destruct (repr_entries m k g Hm Hr) as [-> Hnd]. rewrite (tb_live _ _ Hm).
    destruct (entries_facts (Buckets m) (tb_val _ _ Hm) (tb_unique _ _ Hm)) as [_ <-]. f_equal.
    rewrite <- length_map_to_list. symmetry. apply Permutation_length. by apply map_to_list_to_map.
Qed.

Lemma repr_0 : repr DenseMap0 ∅.
Proof. split; [by left|]. intros key v. rewrite lookup_empty. split; [done|]. by intros ?%DenseMap0_holds. Qed.

Lemma repr_absent m k g key : table m k -> repr m g -> usable key -> absent m key <-> g !! key = None.
Proof.
  intros Hm [_ Hg] Hu. rewrite (absent_iff m k key Hm Hu), eq_None_not_Some. split.
  - intros Hn [v Hv%Hg]. by apply (Hn v).
  - intros Hn v Hv%Hg. apply Hn. by exists v.
Qed.

(** *** The operations *)

Lemma find_value_spec m g key : repr m g -> usable key -> find_value m key = Done (g !! key).
Proof.
  intros Hr Hu. pose proof Hr as [[->|(k & Hm & _)] Hg].
  - unfold find_value, doFind. cbn [DenseMap0 NumBuckets Z.eqb mret outcome_ret mbind outcome_bind]. f_equal. symmetry.
    apply eq_None_not_Some. intros [v Hv%Hg]. by apply DenseMap0_holds in Hv.
  - unfold find_value. destruct (doFind_spec m k key Hm Hu) as [(i & v & Hi & Hb & ->)|[Ha ->]]; cbn [mbind outcome_bind].
    + rewrite Hb. cbn. f_equal. symmetry. apply Hg. split; [done|]. by eexists.
    + cbn. f_equal. symmetry. by apply (repr_absent m k).
Qed.

(** A search before an insertion. *)
Lemma lookup_cases m g key : repr m g -> usable key ->
  (exists i v, 0 <= i /\ g !! key = Some v /\ Buckets m !! Z.to_nat i = Some (key, Some v) /\ LookupBucketFor m key = Done (true, Some i)) \/
  (g !! key = None /\ absent m key /\ exists TheBucket, LookupBucketFor m key = Done (false, TheBucket) /\
     (m = DenseMap0 \/ exists k d, table m k /\ TheBucket = Some d /\ free_for m k key d)).
Proof.
  intros Hr Hu. pose proof Hr as [[->|(k & Hm & _)] Hg].
  - right. split; [|split; [by intros i b Hi|]].
    + apply eq_None_not_Some. intros [v Hv%Hg]. by apply DenseMap0_holds in Hv.
    + exists None. split; [done|by left].
  - destruct (LookupBucketFor_spec m k key Hm Hu) as [(i & v & Hi & Hb & ->)|(Ha & d & Hfree & ->)].
    + left. exists i, v. split; [lia|]. split; [|done]. apply Hg. split; [done|by eexists].
    + right. split; [by apply (repr_absent m k)|]. split; [done|]. exists (Some d). split; [done|]. right. by exists k, d.
Qed.

Lemma insert_repr m g key v TheBucket : repr m g -> usable key -> g !! key = None -> absent m key -> NumBuckets m <= 2 ^ 28 ->
  (m = DenseMap0 \/ exists k d, table m k /\ TheBucket = Some d /\ free_for m k key d) ->
  exists b m' k, InsertIntoBucket m TheBucket key v = Done (b, m') /\ repr m' (<[key := v]> g) /\ table m' k /\
    Buckets m' !! Z.to_nat b = Some (key, Some v) /\ NumBuckets m' <= grown_size m.
Proof.
  intros Hr Hu Hnone Ha Hle Hwhere. pose proof Hr as [Hw Hg].
  destruct (table_insert_spec m key v TheBucket Hw Hu Ha Hle Hwhere) as (b & m' & k & E & Hm' & Hfull & Hn & Hb & Hh & Hsize).
  exists b, m', k. split; [done|]. split; [|done]. split; [right; by exists k|]. intros key' v'. rewrite Hh, <- Hg.
  destruct (decide (key' = key)) as [->|Hne].
  - rewrite lookup_insert_eq. split; [intros [= ->]; by left|]. intros [[_ ->]|Hv]; [done|congruence].
  - rewrite lookup_insert_ne by done. split; [by right|]. intros [[? _]|?]; done.
Qed.

(** The value at the bucket, and whether it is new. *)
Lemma try_emplace_spec m g key v : repr m g -> usable key -> NumBuckets m <= 2 ^ 28 ->
  exists b m', try_emplace m key v = Done (b, bool_decide (g !! key = None), m') /\
    let v' := match g !! key with Some v0 => v0 | None => v end in
    (exists k', Buckets m' !! Z.to_nat b = Some (k', Some v')) /\ repr m' (<[key := v']> g) /\ NumBuckets m' <= grown_size m.
Proof.
  intros Hr Hu Hle. unfold try_emplace. destruct (lookup_cases m g key Hr Hu) as [(i & v0 & Hi & Hv & Hb & ->)|(Hnone & Ha & TB & -> & Hwhere)];
    cbn [mbind outcome_bind].
  - exists i, m. rewrite Hv. cbn. split; [done|]. split; [by eexists|]. split; [by rewrite insert_id|]. unfold grown_size. lia.
  - destruct (insert_repr m g key v TB Hr Hu Hnone Ha Hle Hwhere) as (b & m' & k & E & Hr' & _ & Hb & Hs). rewrite Hnone, E.
    exists b, m'. cbn. split; [done|]. split; [by eexists|]. done.
Qed.

Lemma assign_spec m g key v : repr m g -> usable key -> NumBuckets m <= 2 ^ 28 ->
  exists m', assign m key v = Done m' /\ repr m' (<[key := v]> g) /\ NumBuckets m' <= grown_size m.
Proof.
  intros Hr Hu Hle. unfold assign, FindAndConstruct.
  assert (forall m1 k1 b g1 v1, table m1 k1 -> repr m1 g1 -> page_full (2 ^ k1) -> Buckets m1 !! Z.to_nat b = Some (key, Some v1) ->
    repr (setBuckets m1 (<[Z.to_nat b := (key, Some v)]> (Buckets m1))) (<[key := v]> g1)) as Hset.
  { intros m1 k1 b g1 v1 Hm1 [_ Hg1] Hf1 Hb1. destruct (table_update m1 k1 key v1 v _ Hm1 Hb1 Hu) as [Hm' Hh].
    split; [right; by exists k1|]. intros key' v'. rewrite Hh. destruct (decide (key' = key)) as [->|Hne].
    - rewrite lookup_insert_eq. split; [intros [= ->]; by left|]. by intros [[_ ->]|[? _]].
    - rewrite lookup_insert_ne, Hg1 by done. split; [by right|]. by intros [[? _]|[_ ?]]. }
  assert (forall m1 k1, table m1 k1 -> wf m1 -> page_full (2 ^ k1)) as Hfull.
  { intros m1 k1 Hm1 [->|(k & Hm & Hf)]; [by pose proof (table_size _ _ Hm1); pose proof (tb_n _ _ Hm1); cbn in *; lia|].
    rewrite <- (tb_n _ _ Hm1), (tb_n _ _ Hm). done. }
  destruct (lookup_cases m g key Hr Hu) as [(i & v0 & Hi & Hv & Hb & ->)|(Hnone & Ha & TB & -> & Hwhere)]; cbn [mbind outcome_bind].
  - cbn [mret outcome_ret mbind outcome_bind]. rewrite Hb. eexists. split; [done|]. pose proof Hr as [[->|(k & Hm & Hf)] _]; [done|]. split; [by eapply Hset|].
    unfold grown_size. cbn [setBuckets NumBuckets]. lia.
  - destruct (insert_repr m g key default TB Hr Hu Hnone Ha Hle Hwhere) as (b & m' & k & E & Hr' & Hm' & Hb & Hs). rewrite E.
    cbn [mbind outcome_bind]. rewrite Hb. eexists. split; [done|]. split; [|done].
    rewrite <- (insert_insert_eq g key v default). eapply Hset; try done. apply (Hfull m'); [done|apply Hr'].
Qed.

Lemma erase_spec m g key : repr m g -> usable key ->
  exists m', erase m key = Done (bool_decide (g !! key <> None), m') /\ repr m' (delete key g) /\ NumBuckets m' = NumBuckets m /\
    NumEntries m' <= NumEntries m.
Proof.
  intros Hr Hu. pose proof Hr as [[->|(k & Hm & Hf)] Hg].
  - exists DenseMap0. assert (g !! key = None) as Hn by (apply eq_None_not_Some; intros [v Hv%Hg]; by apply DenseMap0_holds in Hv).
    unfold erase, doFind. cbn. rewrite Hn. split; [done|]. split; [|done]. by rewrite delete_id.
  - unfold erase. destruct (doFind_spec m k key Hm Hu) as [(i & v & Hi & Hb & ->)|[Ha ->]]; cbn [mbind outcome_bind].
    + destruct (table_erase m k key v i Hm ltac:(lia) Hb Hu) as (Hm' & Hn & Hh).
      assert (g !! key = Some v) as -> by (apply Hg; split; [done|by eexists]). exists (erase_bucket m i). split; [done|].
      assert (repr (erase_bucket m i) (delete key g)) as Hr'; [|split; [done|]; split; [done|]].
      { split; [right; by exists k|]. intros key' v'. rewrite Hh, <- Hg, lookup_delete_Some. split; intros [? ?]; (split; [|done]; congruence). }
      rewrite (repr_size _ _ Hr'), (repr_size _ _ Hr). pose proof (map_size_delete key g) as E. rewrite E.
      destruct (g !! key); unfold id; lia.
    + apply (repr_absent m k g key Hm Hr Hu) in Ha. rewrite Ha. exists m. split; [done|]. split; [by rewrite delete_id|]. lia.
Qed.

Lemma countb_fold bs n : 0 <= n < 2 ^ 32 -> countb is_live bs <= n ->
  fold_left (fun n B => if is_live B then u32 (n - 1) else n) bs n = n - countb is_live bs.
Proof.
  revert n. induction bs as [|b bs IH]; intros n Hn Hc; [cbn; lia|]. cbn [fold_left countb foldr] in *. fold (countb is_live bs) in *.
  pose proof (countb_nonneg is_live bs). destruct (is_live b); cbn [Z.b2z] in *; [rewrite u32_small by lia|]; rewrite IH by lia; lia.
Qed.

Lemma clear_spec m g : repr m g -> exists m', clear m = Done m' /\ repr m' ∅ /\ NumBuckets m' = NumBuckets m /\ NumEntries m' = 0.
Proof.
  intros Hr. pose proof Hr as [[->|(k & Hm & Hf)] Hg].
  { exists DenseMap0. split; [done|]. split; [|done]. apply repr_0. }
  unfold clear. destruct ((NumEntries m =? 0) && (NumTombstones m =? 0)) eqn:E.
  - apply andb_true_iff in E as [E _]. apply Z.eqb_eq in E. exists m. split; [done|]. split; [|done].
    pose proof (repr_size m g Hr) as Hsize. assert (g = ∅) as <-; [|done]. apply map_size_empty_inv. lia.
  - assert ((if trivially_destructible then Done tt else
       check (fold_left (fun n B => if is_live B then u32 (n - 1) else n) (Buckets m) (NumEntries m) =? 0) "NumEntries == 0") = Done tt) as Hc.
    { destruct trivially_destructible; [done|]. apply check_done, Z.eqb_eq. pose proof (table_counts _ _ Hm). pose proof (table_size _ _ Hm).
      pose proof (tb_room _ _ Hm). rewrite countb_fold; rewrite (tb_live _ _ Hm) in *; lia. }
    cbv zeta. change (mret tt) with (Done tt). rewrite Hc. cbn [mbind outcome_bind]. eexists. split; [done|].
    assert (setNumTombstones (setNumEntries (setBuckets m (map (fun _ => (getEmptyKey, None)) (Buckets m))) 0) 0 = new_map (2 ^ k)) as E2.
    { unfold setNumTombstones, setNumEntries, setBuckets, new_map. cbn [Buckets NumEntries NumTombstones NumBuckets]. rewrite (tb_n _ _ Hm).
      f_equal. pose proof (tb_len _ _ Hm) as Hl. replace (Z.to_nat (2 ^ k)) with (length (Buckets m)) by lia. clear.
      induction (Buckets m) as [|b bs IH]; [done|]. cbn [map length replicate]. by rewrite IH. }
    rewrite E2. split; [|cbn; by rewrite (tb_n _ _ Hm)]. split; [right; exists k; split; [|done]; apply new_table, (tb_k _ _ Hm)|].
    intros key v. rewrite lookup_empty. split; [done|]. by intros ?%new_map_holds.
Qed.

(** *** Room ahead of time *)

Lemma getMin_spec n : 0 <= n <= 2 ^ 26 -> exists b, getMinBucketToReserveForEntries n = Done b /\ b <= 2 ^ 28 /\ 0 <= b /\
  (n = 0 /\ b = 0 \/ (exists j, 0 <= j <= 28 /\ b = 2 ^ j) /\ n * 4 < b * 3).
Proof.
  intros Hn. unfold getMinBucketToReserveForEntries. destruct (Z.eqb_spec n 0) as [->|Hne]; [exists 0; split; [done|]; lia|].
  rewrite (u32_small (n * 4)) by lia. pose proof (Z.div_mod (n * 4) 3 ltac:(lia)) as Hd. pose proof (Z.mod_pos_bound (n * 4) 3 ltac:(lia)).
  set (q := n * 4 / 3) in *. rewrite !u32_small by (rewrite ?u32_small; lia).
  destruct (RoundUpToPowerOfTwo_spec (q + 1 + 1)) as (j & -> & Hj & Hle); [lia|]. cbn [mbind outcome_bind].
  assert (j <= 28) as Hj2 by (apply Z.lt_succ_r, (Z.pow_lt_mono_r_iff 2); [lia|lia|]; change (2 ^ Z.succ 28) with (2 ^ 29); lia).
  pose proof (pow_le_29 j ltac:(lia)). pose proof (Z.pow_le_mono_r 2 j 28). rewrite u32_small by lia.
  exists (2 ^ j). split; [done|]. split; [lia|]. split; [lia|]. right. split; [exists j; lia|lia].
Qed.

Lemma reserve_spec m g n : repr m g -> 0 <= n <= 2 ^ 26 -> NumBuckets m <= 2 ^ 28 ->
  exists m', reserve m n = Done m' /\ repr m' g /\ NumBuckets m' <= 2 ^ 28 /\ n * 4 <= NumBuckets m' * 3.
Proof.
  intros Hr Hn Hle. unfold reserve. destruct (getMin_spec n Hn) as (b & -> & Hb & Hb0 & Hcase). cbn [mbind outcome_bind].
  destruct (Z.ltb_spec (NumBuckets m) b) as [Hlt|Hge].
  - pose proof Hr as [Hw Hg]. assert (NumEntries m <= NumBuckets m) as Hne.
    { destruct Hw as [->|(k & Hm & _)]; [done|]. pose proof (table_counts _ _ Hm). pose proof (tb_room _ _ Hm). rewrite (tb_n _ _ Hm). lia. }
    destruct (grow_spec m b Hw ltac:(lia) ltac:(lia)) as (m' & k & -> & Hm' & Hf & _ & _ & Hh & Hk1 & Hk2).
    exists m'. split; [done|]. split; [split; [right; by exists k|]; intros key v; by rewrite Hh|]. rewrite (tb_n _ _ Hm').
    destruct Hcase as [[-> ->]|[(j & Hj & ->) Hj']].
    { exfalso. destruct Hw as [->|(k0 & Hm & _)]; [done|]. pose proof (tb_n _ _ Hm). pose proof (table_size _ _ Hm). lia. }
    assert (exists e, 0 <= e <= 28 /\ Z.max 64 (2 ^ j) <= 2 ^ e) as (e & He & Hle').
    { exists (Z.max 6 j). split; [lia|]. pose proof (Z.pow_le_mono_r 2 6 (Z.max 6 j)). pose proof (Z.pow_le_mono_r 2 j (Z.max 6 j)). lia. }
    specialize (Hk2 e (proj1 He) Hle'). pose proof (Z.pow_le_mono_r 2 e 28). lia.
  - exists m. split; [done|]. split; [done|]. split; [done|].
    destruct Hcase as [[-> ->]|[_ Hj']]; [|lia]. pose proof Hr as [[->|(k & Hm & _)] _]; [done|]. pose proof (tb_n _ _ Hm). pose proof (table_size _ _ Hm). lia.
Qed.

(** *** Entries, copies and comparisons *)

(** [forEach] visits each entry once. *)
Lemma forEach_loop_all bs (l : list BucketT) :
  forEach_loop (fun l b => (l ++ [b], true)) bs l = l ++ List.filter is_live bs.
Proof.
  revert l. induction bs as [|b bs IH]; intros l; cbn [forEach_loop List.filter]; [by rewrite app_nil_r|].
  destruct (is_live b); [|done]. by rewrite IH, <- app_assoc.
Qed.

Lemma entries_live bs : entries (List.filter is_live bs) = entries bs.
Proof.
  induction bs as [|b bs IH]; [done|]. cbn [List.filter entries omap list_omap]. fold (entries bs). destruct (is_live b) eqn:El; [|done].
  cbn [entries omap list_omap]. rewrite El. fold (entries (List.filter is_live bs)). by rewrite IH.
Qed.

Lemma forEach_spec m g : repr m g -> exists l, forEach (fun l b => (l ++ [b], true)) m [] = l /\ entries l ≡ₚ map_to_list g.
Proof.
  intros Hr. eexists. split; [done|]. unfold forEach. rewrite forEach_loop_all. cbn [app]. rewrite entries_live.
  pose proof Hr as [[->|(k & Hm & _)] Hg].
  - assert (g = ∅) as ->; [|by rewrite map_to_list_empty]. apply map_empty. intros key. apply eq_None_not_Some. intros [v Hv%Hg].
    by apply DenseMap0_holds in Hv.
  - destruct (repr_entries m k g Hm Hr) as [-> Hnd]. symmetry. by apply map_to_list_to_map.
Qed.

Lemma copyFrom_spec m : wf m -> copyFrom m = Done m.
Proof.
  intros [->|(k & Hm & Hf)]; [done|]. unfold copyFrom, allocateBuckets. rewrite (table_nonzero _ _ Hm).
  pose proof (tb_n _ _ Hm) as Hn. pose proof (table_size _ _ Hm). unfold page_full in Hf. rewrite <- Hn in Hf.
  assert (0 < sizeof_BucketT * NumBuckets m < 2 ^ 50) by nia. rewrite (u64_small (sizeof_BucketT * NumBuckets m)), u64_small by lia.
  rewrite (proj2 (Z.leb_gt (sizeof_BucketT * NumBuckets m * 2) GetPageSizeCached)) by lia.
  cbn [mret outcome_ret mbind outcome_bind NumBuckets]. rewrite Z.eqb_refl. cbn. by destruct m.
Qed.

Definition same_value (eqV : ValueT -> ValueT -> bool) g (kv : KeyT * ValueT) : bool :=
  match g !! kv.1 with Some v => eqV v kv.2 | None => false end.

Lemma map_eqb_loop eqV m g bs : repr m g ->
  (forall i b, bs !! i = Some b -> is_live b = true -> b.2 <> None) ->
  forEach_loop (eqb_entry eqV m) bs (Done true) = Done (forallb (same_value eqV g) (entries bs)).
Proof.
  intros Hr. induction bs as [|b bs IH]; intros Hv; [done|]. destruct b as [key ov]. cbn [forEach_loop entries omap list_omap fst snd]. fold (entries bs).
  assert (forall i b, bs !! i = Some b -> is_live b = true -> b.2 <> None) as Hv' by (intros i; apply (Hv (S i))). specialize (IH Hv').
  destruct (is_live (key, ov)) eqn:El; [|done]. pose proof (Hv 0%nat _ eq_refl El) as Hov. cbn in Hov. destruct ov as [v|]; [|done].
  cbn [fst snd option_map forallb]. unfold eqb_entry at 1. cbn [fst snd]. rewrite (find_value_spec m g key Hr (proj1 (is_live_iff (key, Some v)) El)). unfold same_value at 1. cbn [fst snd].
  destruct (g !! key) as [v0|]; [|done]. destruct (eqV v0 v); done.
Qed.

Lemma map_eqb_spec (eqV : ValueT -> ValueT -> bool) m1 m2 g1 g2 : (forall v v', eqV v v' = true <-> v = v') ->
  repr m1 g1 -> repr m2 g2 -> exists r, map_eqb eqV m1 m2 = Done r /\ (r = true <-> g1 = g2).
Proof.
  intros Heq Hr1 Hr2. unfold map_eqb, size, forEach. rewrite (repr_size m1 g1 Hr1), (repr_size m2 g2 Hr2).
  destruct (Z.eqb_spec (Z.of_nat (base.size g1)) (Z.of_nat (base.size g2))) as [E|E]; cbn [negb].
  2: { exists false. split; [done|]. split; [done|]. by intros ->. }
  assert (forall i b, Buckets m1 !! i = Some b -> is_live b = true -> b.2 <> None) as Hv.
  { pose proof Hr1 as [[->|(k & Hm & _)] _]; [by intros i b|]. apply (tb_val _ _ Hm). }
  rewrite (map_eqb_loop eqV m2 g2 (Buckets m1) Hr2 Hv). eexists. split; [done|].
  rewrite forallb_forall. assert (forall kv, In kv (entries (Buckets m1)) <-> g1 !! kv.1 = Some kv.2) as Hin.
  { intros [key v]. cbn [fst snd]. rewrite <- list_elem_of_In, elem_of_entries. destruct Hr1 as [_ Hg]. by rewrite Hg. }
  split.
  - intros Hall. apply map_subseteq_size_eq; [|lia]. apply map_subseteq_spec. intros key v Hk.
    specialize (Hall (key, v) (proj2 (Hin (key, v)) Hk)). unfold same_value in Hall. cbn [fst snd] in Hall.
    destruct (g2 !! key) as [v0|]; [|done]. by apply Heq in Hall as ->.
  - intros -> [key v] Hkv%Hin. unfold same_value. cbn [fst snd] in *. rewrite Hkv. by apply Heq.
Qed.

(** With room for the entries, an insertion moves nothing. *)
Lemma no_regrow m k key v d : table m k -> NumTombstones m = 0 -> (NumEntries m + 1) * 4 < 2 ^ k * 3 ->
  forall b m', InsertIntoBucket m (Some d) key v = Done (b, m') -> b = d /\ NumBuckets m' = NumBuckets m /\ Buckets m' = <[Z.to_nat d := (key, Some v)]> (Buckets m).
Proof.
  intros Hm Ht Hroom b m'. unfold InsertIntoBucket, InsertIntoBucketImpl. pose proof (table_counts _ _ Hm) as [? ?]. pose proof (table_size _ _ Hm).
  rewrite (tb_n _ _ Hm), Ht, (u32_small (NumEntries m + 1)), (u32_small (2 ^ k * 3)), (u32_small ((NumEntries m + 1) * 4)) by lia.
  rewrite (u32_small (NumEntries m + 1 + 0)), (u32_small (2 ^ k - (NumEntries m + 1 + 0))) by lia. rewrite (proj2 (Z.leb_gt (2 ^ k * 3) _)) by lia.
  assert (2 ^ k / 8 < 2 ^ k - (NumEntries m + 1 + 0)) as Hlt by (apply Z.div_lt_upper_bound; lia).
  rewrite (proj2 (Z.leb_gt (2 ^ k - _) _)) by lia. cbn [mret outcome_ret mbind outcome_bind]. cbn [incrementNumEntries setNumEntries Buckets].
  destruct (Buckets m !! Z.to_nat d) as [[k' v']|]; [|done]. cbn [mret outcome_ret mbind outcome_bind]. intros [= <- <-].
  destruct (isEqual k' getEmptyKey); cbn; rewrite (tb_n _ _ Hm); done.
Qed.

(** ** Any sequence of operations *)

Inductive op := OFind (key : KeyT) | OTryEmplace (key : KeyT) (v : ValueT) | OAssign (key : KeyT) (v : ValueT)
| OErase (key : KeyT) | OClear | OReserve (n : Z) | OSize.
Inductive answer := ANone | AValue (v : option ValueT) | AFlag (b : bool) | ASize (n : Z).

(** On the table. *)
Definition run_op m (o : op) : outcome (answer * DenseMap) :=
  match o with
  | OFind key => r ← find_value m key; mret (AValue r, m)
  | OTryEmplace key v => r ← try_emplace m key v; let '(_, fresh, m) := r : Z * bool * DenseMap in mret (AFlag fresh, m)
  | OAssign key v => m ← assign m key v; mret (ANone, m)
  | OErase key => r ← erase m key; mret (AFlag r.1, r.2)
  | OClear => m ← clear m; mret (ANone, m)
  | OReserve n => m ← reserve m n; mret (ANone, m)
  | OSize => mret (ASize (size m), m)
  end.

Fixpoint run_ops m (os : list op) : outcome (list answer * DenseMap) :=
  match os with
  | [] => mret ([], m)
  | o :: os => r ← run_op m o; r' ← run_ops r.2 os; mret (r.1 :: r'.1, r'.2)
  end.

(** On a finite map. *)
Definition spec_op g (o : op) : answer * gmap KeyT ValueT :=
  match o with
  | OFind key => (AValue (g !! key), g)
  | OTryEmplace key v => (AFlag (bool_decide (g !! key = None)), <[key := match g !! key with Some v0 => v0 | None => v end]> g)
  | OAssign key v => (ANone, <[key := v]> g)
  | OErase key => (AFlag (bool_decide (g !! key <> None)), delete key g)
  | OClear => (ANone, ∅)
  | OReserve _ => (ANone, g)
  | OSize => (ASize (Z.of_nat (base.size g)), g)
  end.

Fixpoint spec_ops g (os : list op) : list answer * gmap KeyT ValueT :=
  match os with
  | [] => ([], g)
  | o :: os => let '(a, g) := spec_op g o in let '(l, g) := spec_ops g os in (a :: l, g)
  end.

Definition op_ok (o : op) : Prop :=
  match o with
  | OFind key | OTryEmplace key _ | OAssign key _ | OErase key => usable key
  | OReserve n => 0 <= n <= 2 ^ 26
  | _ => True
  end.

Lemma size_insert_le g key v : (base.size (<[key := v]> g) <= S (base.size g))%nat.
Proof. rewrite map_size_insert. destruct (g !! key); unfold id; lia. Qed.

Lemma run_op_spec m g o : repr m g -> op_ok o -> NumBuckets m <= 2 ^ 28 -> Z.of_nat (base.size g) < 2 ^ 26 ->
  exists m', run_op m o = Done ((spec_op g o).1, m') /\ repr m' (spec_op g o).2 /\ NumBuckets m' <= 2 ^ 28 /\
    (base.size (spec_op g o).2 <= S (base.size g))%nat.
Proof.
  intros Hr Hok Hle Hs. pose proof (repr_size m g Hr) as Hsize. assert (grown_size m <= 2 ^ 28) as Hgr by (unfold grown_size; lia).
  destruct o as [key|key v|key v|key| |n|]; cbn [run_op spec_op op_ok fst snd] in *.
  - rewrite (find_value_spec m g key Hr Hok). exists m. split; [done|]. split; [done|]. lia.
  - destruct (try_emplace_spec m g key v Hr Hok Hle) as (b & m' & -> & _ & Hr' & Hn). exists m'. split; [done|]. split; [done|]. 
    split; [lia|]. apply size_insert_le.
  - destruct (assign_spec m g key v Hr Hok Hle) as (m' & -> & Hr' & Hn). exists m'. split; [done|]. split; [done|]. 
    split; [lia|]. apply size_insert_le.
  - destruct (erase_spec m g key Hr Hok) as (m' & -> & Hr' & Hn & Hne). exists m'. split; [done|]. split; [done|]. split; [lia|].
    pose proof (repr_size m' _ Hr'). lia.
  - destruct (clear_spec m g Hr) as (m' & -> & Hr' & Hn & _). exists m'. split; [done|]. split; [done|]. split; [lia|]. rewrite map_size_empty. lia.
  - destruct (reserve_spec m g n Hr Hok Hle) as (m' & -> & Hr' & Hn & _). exists m'. split; [done|]. split; [done|]. lia.
  - exists m. unfold size. rewrite Hsize. split; [done|]. split; [done|]. lia.
Qed.

Lemma run_ops_spec os : forall m g, repr m g -> Forall op_ok os -> NumBuckets m <= 2 ^ 28 ->
  Z.of_nat (base.size g + length os) <= 2 ^ 26 ->
  exists m', run_ops m os = Done ((spec_ops g os).1, m') /\ repr m' (spec_ops g os).2 /\ NumBuckets m' <= 2 ^ 28.
Proof.
  induction os as [|o os IH]; intros m g Hr Hok Hle Hs; [by exists m|]. apply list.Forall_cons in Hok as [Ho Hok].
  cbn [length] in Hs. destruct (run_op_spec m g o Hr Ho Hle) as (m1 & E1 & Hr1 & Hle1 & Hs1); [lia|]. cbn [run_ops spec_ops]. rewrite E1.
  cbn [mbind outcome_bind fst snd]. destruct (spec_op g o) as [a g1]. cbn [fst snd] in *.
  destruct (IH m1 g1 Hr1 Hok Hle1 ltac:(lia)) as (m2 & E2 & Hr2 & Hle2). rewrite E2. cbn [mbind outcome_bind fst snd].
  destruct (spec_ops g1 os) as [l g2]. exists m2. by split.
Qed.
End map.

Arguments DenseMap : clear implicits.

(** ** The map of the LZW encoder

    [LzwEncode] with its dense map from substrings to codes, of 24-byte buckets. *)

#[export] Instance Substring_info : DenseMapInfo Substring := pair_info (unsigned_info 32) (unsigned_info 64).
#[export] Instance Substring_info_ok : DenseMapInfoOk Substring := pair_info_ok _ _ (unsigned_info_ok 32) (unsigned_info_ok 64).

Section lzw.
Notation code_map := (DenseMap Substring Z).
Notation emplace := (try_emplace 24 4096).
Notation set_code := (assign 0 24 4096).
Implicit Types (m : code_map) (g : gmap Substring Z).

Fixpoint first_items_dense (it : list Z) m (dict_len1 : list Z) : outcome (code_map * list Z) :=
  match it with
  | [] => mret (m, dict_len1)
  | x :: it =>
      r ← emplace m (kNoPrefix, x) 0;
      let '(_, fresh, m) := r : Z * bool * code_map in
      first_items_dense it m (if fresh then dict_len1 ++ [x] else dict_len1)
  end.

Fixpoint remap_dense (l : list (Z * Z)) m : outcome code_map :=
  match l with
  | [] => mret m
  | (i, x) :: l => m ← set_code m (kNoPrefix, x) i; remap_dense l m
  end.

Definition find_dense m (k : Substring) : outcome Z :=
  r ← find_value m k; match r with Some c => mret c | None => Died "end()->second" end.

Fixpoint encode_loop_dense (it : list Z) m (match_ : Z) : outcome (list Z) :=
  match it with
  | [] => mret [match_]
  | x :: it =>
      r ← emplace m (match_, x) (size m);
      let '(b, fresh, m) := r : Z * bool * code_map in
      if fresh : bool then
        c ← find_dense m (kNoPrefix, x);
        out ← encode_loop_dense it m c;
        mret (match_ :: out)
      else
        match Buckets m !! Z.to_nat b with
        | Some (_, Some c) => encode_loop_dense it m c
        | _ => Died "value not constructed"
        end
  end.

Definition LzwEncode_dense (input : list Z) : outcome (list Z) :=
  r ← first_items_dense input DenseMap0 [];
  let '(m, dict_len1) := r : code_map * list Z in
  let dict_len1 := sort_items dict_len1 in
  m ← remap_dense (zip (zrange (Z.of_nat (length dict_len1))) dict_len1) m;
  _ ← check (size m =? Z.of_nat (length dict_len1)) "prefix_to_code.size() == dict_len1.size()";
  codes ← match input with
          | [] => mret []
          | x :: it => c ← find_dense m (kNoPrefix, x); encode_loop_dense it m c
          end;
  mret (Z.of_nat (length dict_len1) :: dict_len1 ++ codes).

(** *** It is the encoder of Lzw *)

Notation map_repr := (repr 24 4096).

(** The table, with room left for [n] more entries, and no code that is reserved. *)
Record codes_ok (n : nat) m g : Prop := {
  co_repr : map_repr m g;
  co_buckets : NumBuckets m <= 2 ^ 28;
  co_size : Z.of_nat (base.size g + n) <= 2 ^ 25;
  co_codes k c : g !! k = Some c -> 0 <= c <= 2 ^ 25
}.

Lemma usable_code c x : 0 <= c <= 2 ^ 25 -> usable (c, x).
Proof. intros Hc. split; intros [= -> _]; cbn in Hc; lia. Qed.

Lemma usable_single x : usable (kNoPrefix, x).
Proof. by split; intros [=]. Qed.

Lemma codes_room n m g : codes_ok (S n) m g -> grown_size 4096 m <= 2 ^ 28 /\ Z.of_nat (base.size g) <= 2 ^ 25.
Proof.
  intros [Hr Hb Hs _]. unfold grown_size. rewrite (repr_size 24 4096 m g Hr). lia.
Qed.

Lemma codes_insert n m g m' k c : codes_ok (S n) m g -> map_repr m' (<[k := c]> g) -> NumBuckets m' <= grown_size 4096 m ->
  0 <= c <= 2 ^ 25 -> codes_ok n m' (<[k := c]> g).
Proof.
  intros Hok Hr' Hle Hc. destruct (codes_room n m g Hok). pose proof (size_insert_le g k c). destruct Hok as [Hr Hb Hs Hcodes]. split; try done; try lia.
  intros k' c' [[_ <-]|[_ ?]]%lookup_insert_Some; [done|eauto].
Qed.

Lemma codes_emplace n m g k c : codes_ok (S n) m g -> usable k -> 0 <= c <= 2 ^ 25 ->
  exists b m', emplace m k c = Done (b, bool_decide (g !! k = None), m') /\
    let v := match g !! k with Some v0 => v0 | None => c end in
    (exists k', Buckets m' !! Z.to_nat b = Some (k', Some v)) /\ codes_ok n m' (<[k := v]> g).
Proof.
  intros Hok Hu Hc. destruct (try_emplace_spec 24 4096 ltac:(lia) ltac:(lia) m g k c (co_repr _ _ _ Hok) Hu (co_buckets _ _ _ Hok))
    as (b & m' & E & Hb & Hr' & Hn). exists b, m'. split; [done|]. split; [done|].
  eapply codes_insert; try done. destruct (g !! k) as [v0|] eqn:Ek; [|done]. by apply (co_codes _ _ _ Hok k).
Qed.

Lemma codes_find n m g k : codes_ok n m g -> usable k -> find_dense m k = find g k.
Proof.
  intros Hok Hu. unfold find_dense, find. rewrite (find_value_spec 24 4096 m g k (co_repr _ _ _ Hok) Hu). cbn.
  by destruct (g !! k).
Qed.

Lemma first_items_dense_spec n it : forall m g dict, codes_ok (length it + n) m g ->
  exists m', first_items_dense it m dict = Done (m', (first_items it g dict).2) /\ codes_ok n m' (first_items it g dict).1.
Proof.
  induction it as [|x it IH]; intros m g dict Hok; [by exists m|]. cbn [length] in Hok. cbn [first_items_dense first_items].
  destruct (codes_emplace _ m g (kNoPrefix, x) 0 Hok (usable_single x) ltac:(lia)) as (b & m1 & -> & _ & Hok1). cbn [mbind outcome_bind].
  destruct (g !! (kNoPrefix, x)) as [v0|] eqn:Eg.
  - rewrite insert_id in Hok1 by done. by apply IH.
  - by apply IH.
Qed.

Lemma remap_dense_spec n l : forall m g, codes_ok (length l + n) m g -> Forall (fun ix => 0 <= ix.1 <= 2 ^ 25) l ->
  exists m', remap_dense l m = Done m' /\
    codes_ok n m' (fold_left (fun acc (ix : Z * Z) => <[(kNoPrefix, ix.2) := ix.1]> acc) l g).
Proof.
  induction l as [|[i x] l IH]; intros m g Hok Hl; [by exists m|]. apply list.Forall_cons in Hl as [Hi Hl].
  cbn [length] in Hok. cbn [remap_dense fold_left fst snd] in *.
  destruct (assign_spec 0 24 4096 ltac:(lia) ltac:(lia) m g (kNoPrefix, x) i (co_repr _ _ _ Hok) (usable_single x) (co_buckets _ _ _ Hok))
    as (m1 & -> & Hr1 & Hn1). cbn [mbind outcome_bind]. apply IH; [|done]. by eapply codes_insert.
Qed.

Lemma encode_loop_dense_spec it : forall m g match_, codes_ok (length it) m g -> 0 <= match_ <= 2 ^ 25 ->
  encode_loop_dense it m match_ = encode_loop it g match_.
Proof.
  induction it as [|x it IH]; intros m g match_ Hok Hm; [done|]. cbn [length] in Hok. cbn [encode_loop_dense encode_loop].
  pose proof (repr_size 24 4096 m g (co_repr _ _ _ Hok)) as Hsize. destruct (codes_room _ m g Hok) as [_ Hroom].
  destruct (codes_emplace _ m g (match_, x) (size m) Hok (usable_code match_ x Hm) ltac:(unfold size; lia)) as (b & m1 & -> & (k' & Hb) & Hok1).
  cbn [mbind outcome_bind]. destruct (g !! (match_, x)) as [c|] eqn:Eg.
  - rewrite insert_id in Hok1 by done. cbn. rewrite Hb. apply IH; [done|]. by apply (co_codes _ _ _ Hok (match_, x)).
  - cbn [bool_decide decide_rel]. rewrite (bool_decide_eq_true_2 (None = None)) by done. rewrite u32_small by lia. unfold size in Hok1. rewrite Hsize in Hok1.
    rewrite (codes_find _ m1 _ (kNoPrefix, x) Hok1 (usable_single x)). unfold find. destruct (_ !! (kNoPrefix, x)) as [c|] eqn:Ec; [|done].
    cbn [mbind outcome_bind mret outcome_ret]. rewrite (IH m1 _ c Hok1); [done|]. by apply (co_codes _ _ _ Hok1 (kNoPrefix, x)).
Qed.

Lemma codes_less n n' m g : codes_ok n m g -> (n' <= n)%nat -> codes_ok n' m g.
Proof. intros [Hr Hb Hs Hc] Hle. split; try done. lia. Qed.

Lemma first_items_length it : forall g dict, (length (first_items it g dict).2 <= length it + length dict)%nat.
Proof.
  induction it as [|x it IH]; intros g dict; cbn [first_items length]; [done|]. destruct (g !! _).
  - specialize (IH g dict). lia.
  - specialize (IH (<[(kNoPrefix, x) := 0]> g) (dict ++ [x])). rewrite length_app in IH. cbn in IH. lia.
Qed.

Lemma lzw_dense input : Z.of_nat (length input) <= 2 ^ 23 -> LzwEncode_dense input = LzwEncode input.
Proof.
  intros Hlen. unfold LzwEncode_dense, LzwEncode. set (n := length input).
  assert (codes_ok (length input + (n + n)) DenseMap0 ∅) as Hok.
  { split; [apply repr_0|done|rewrite map_size_empty; lia|]. intros k c. by rewrite lookup_empty. }
  destruct (first_items_dense_spec (n + n) input DenseMap0 ∅ [] Hok) as (m1 & -> & Hok1). cbn [mbind outcome_bind].
  pose proof (first_items_length input ∅ []) as Hd. cbn [length] in Hd. destruct (first_items input ∅ []) as [g1 d1]. cbn [fst snd] in *.
  set (d := sort_items d1) in *. assert (length d = length d1) as Hld by (unfold d, sort_items; rewrite length_map, zrange_length; lia).
  set (l := zip (zrange (Z.of_nat (length d))) d). assert (length l = length d) as Hll.
  { unfold l. rewrite length_zip_with, zrange_length. lia. }
  destruct (remap_dense_spec n l m1 g1) as (m2 & -> & Hok2).
  - eapply codes_less; [done|]. unfold n. lia.
  - apply list.Forall_forall. intros [i x] Hin. apply elem_of_zip_l, elem_of_zrange in Hin. cbn. unfold n in *. lia.
  - cbn [mbind outcome_bind]. unfold remap. fold l. set (g2 := fold_left _ l g1) in *. unfold size.
    rewrite (repr_size 24 4096 m2 g2 (co_repr _ _ _ Hok2)). replace (Z.of_nat (base.size g2) =? Z.of_nat (length d)) with (base.size g2 =? length d)%nat.
    2: { destruct (Nat.eqb_spec (base.size g2) (length d)), (Z.eqb_spec (Z.of_nat (base.size g2)) (Z.of_nat (length d))); lia || done. }
    destruct (check _ _); [|done]. cbn [mbind outcome_bind]. destruct input as [|x it]; [done|].
    rewrite (codes_find n m2 g2 (kNoPrefix, x) Hok2 (usable_single x)). unfold find. destruct (g2 !! (kNoPrefix, x)) as [c|] eqn:Ec; [|done].
    cbn [mbind outcome_bind mret outcome_ret]. rewrite (encode_loop_dense_spec it m2 g2 c); [done| |by apply (co_codes _ _ _ Hok2 (kNoPrefix, x))].
    eapply codes_less; [done|]. unfold n. cbn. lia.
Qed.
End lzw.

(** ** Properties *)

(** C39: the dense map is a finite map.  For any sequence of searches, insertions,
    assignments, erasures, clearings, reservations and queries of the size, with any
    hash function, size of bucket and page and with keys that are not reserved: every
    operation ends, no check fails, and the answers and the final contents are those
    of a finite map. *)
Theorem dense_map_refines {KeyT ValueT : Type} `{DenseMapInfoOk KeyT, Countable KeyT} (default : ValueT)
    (sizeof_BucketT GetPageSizeCached : Z) (trivially_destructible : bool) (os : list (op (KeyT := KeyT))) :
  0 < sizeof_BucketT < 2 ^ 20 -> 0 <= GetPageSizeCached <= 2 ^ 28 ->
  Forall op_ok os -> Z.of_nat (length os) <= 2 ^ 26 ->
  exists m, run_ops default sizeof_BucketT GetPageSizeCached trivially_destructible DenseMap0 os = Done ((spec_ops ∅ os).1, m) /\
    forall key, usable key -> find_value m key = Done ((spec_ops ∅ os).2 !! key).
Proof.
  intros Hs Hp Hok Hlen. destruct (run_ops_spec default sizeof_BucketT GetPageSizeCached trivially_destructible Hs Hp os DenseMap0 ∅) as (m & E & Hr & _).
  - apply repr_0.
  - done.
  - done.
  - rewrite map_size_empty. lia.
  - exists m. split; [done|]. intros key Hu. by apply (find_value_spec sizeof_BucketT GetPageSizeCached m).
Qed.

(** the LZW encoder computes with its hash table what it computes with a finite
    map, for every input of up to 2^23 items (a block of the stack store has 2^20). *)
Theorem lzw_encoder_on_dense_map input : Z.of_nat (length input) <= 2 ^ 23 -> LzwEncode_dense input = LzwEncode input.
Proof. apply lzw_dense. Qed.

(** [operator==] of two dense maps holds just when they have the same contents,
    whatever the order of their insertions and erasures. *)
Theorem dense_map_equality_exact {KeyT ValueT : Type} `{DenseMapInfoOk KeyT, Countable KeyT}
    (sizeof_BucketT GetPageSizeCached : Z) (eqV : ValueT -> ValueT -> bool) m1 m2 (g1 g2 : gmap KeyT ValueT) :
  (forall v v', eqV v v' = true <-> v = v') ->
  repr sizeof_BucketT GetPageSizeCached m1 g1 -> repr sizeof_BucketT GetPageSizeCached m2 g2 ->
  exists r, map_eqb eqV m1 m2 = Done r /\ (r = true <-> g1 = g2).
Proof. intros Heq Hm1 Hm2. exact (map_eqb_spec sizeof_BucketT GetPageSizeCached eqV m1 m2 g1 g2 Heq Hm1 Hm2). Qed.

(** the number of buckets reserved for 48 entries is 128; the comment in the source
    gives 401. *)
Theorem min_buckets_of_48 : getMinBucketToReserveForEntries 48 = Done 128.
Proof. reflexivity. Qed.

(** Keys of 32 bits that collide in a page of 64 bytes. *)
#[local] Instance word_info : DenseMapInfo Z := unsigned_info 32.
#[local] Instance word_info_ok : DenseMapInfoOk Z := unsigned_info_ok 32.

Definition sample_ops : list op :=
  [OTryEmplace 1 10; OTryEmplace 65 20; OErase 1; OTryEmplace 65 30; OAssign 129 7; OFind 65; OReserve 100; OFind 1; OSize].

Lemma dense_map_refines_witness : exists m,
  run_ops 0 8 64 true DenseMap0 sample_ops =
    Done ([AFlag true; AFlag true; AFlag true; AFlag false; ANone; AValue (Some 20); ANone; AValue None; ASize 2], m) /\
  find_value m 129 = Done (Some 7).
Proof.
  destruct (dense_map_refines 0 8 64 true sample_ops) as (m & E & Hf).
  - lia.
  - lia.
  - repeat constructor; cbn; lia.
  - cbn. lia.
  - exists m. split; [exact E|]. rewrite Hf by (by split). reflexivity.
Defined.

Lemma lzw_encoder_on_dense_map_witness : LzwEncode_dense [5; 5; 6; 5; 5] = Done [2; 5; 6; 0; 0; 1; 2].
Proof. rewrite (lzw_encoder_on_dense_map [5; 5; 6; 5; 5]); [reflexivity|]. cbn. lia. Defined.

Lemma dense_map_equality_exact_witness : exists m1 m2 : DenseMap Z Z,
  map_eqb Z.eqb m1 m2 = Done true /\ m1 <> m2.
Proof.
  destruct (run_ops_spec 0 8 64 true ltac:(lia) ltac:(lia) [OAssign 1 10; OAssign 2 20] DenseMap0 ∅ (repr_0 8 64)) as (m1 & E1 & Hr1 & _);
    [repeat constructor; done|done|rewrite map_size_empty; cbn; lia|].
  destruct (run_ops_spec 0 8 64 true ltac:(lia) ltac:(lia) [OAssign 2 20; OAssign 3 1; OErase 3; OAssign 1 10] DenseMap0 ∅ (repr_0 8 64)) as (m2 & E2 & Hr2 & _);
    [repeat constructor; done|done|rewrite map_size_empty; cbn; lia|].
  exists m1, m2. destruct (dense_map_equality_exact 8 64 Z.eqb m1 m2 _ _ Z.eqb_eq Hr1 Hr2) as (r & -> & Hr). split.
  - f_equal. apply Hr. reflexivity.
  - intros E. apply (f_equal (fun o => match o with Done (_, m) => NumTombstones m | Died _ => 0 end)) in E1, E2.
    rewrite E in E1. vm_compute in E1. vm_compute in E2. congruence.
Defined.
