(* ===== verification/StackStore.v ===== *)
(** * The store of stack traces

    src/rt/sanitizer_common/sanitizer_stack_store.{h,cpp}: the traces of the stack
    depot, in blocks of frames that are compressed when all of their frames are
    written, and uncompressed when one of their traces is asked for.

    A thread that stores a trace bumps the count of frames, writes the trace where
    it was, and then counts the frames of the block as stored; these are separate
    steps here, and threads, packing and loading interleave.  The main result: a
    trace that was stored is what is loaded, whatever happened in between.

    Left out: the locks ([LockAll]), whose effect is that a block is packed or
    unpacked in one step; the protection of pages, and [TestOnlyUnmap]. *)

From S2P Require Import Prelude Common Leb128 Lzw.

(** ** Data *)

Class StackStoreParams := {
  kBlockSizeFrames : Z;
  kBlockCount : Z;
  (** the page size is 2 to the *)
  page_log : Z
}.

(** What the header asserts, and what the code's constants satisfy. *)
Class StackStoreOk (P : StackStoreParams) := {
  ids_fit : kBlockCount * kBlockSizeFrames = 2 ^ 32;
  block_size_range : 2 ^ 9 <= kBlockSizeFrames <= 2 ^ 30;
  page_log_range : 12 <= page_log <= 30;
  pages_in_block : (2 ^ page_log | 8 * kBlockSizeFrames)
}.

(** A trace is its frames and its tag. *)
Definition StackTrace : Type := list Z * Z.

Inductive Compression := CNone | CDelta | CLZW.
#[export] Instance Compression_eq_dec : EqDecision Compression.
Proof. solve_decision. Defined.
Inductive State := Storing | Packed | Unpacked.

(** What a block's memory holds: frames, zero at first, or packed data. *)
Inductive content := Frames (f : Z -> Z) | PackedData (type : Compression) (data : list Z).

Record BlockInfo := mkBlock { data_ : option content; stored_ : Z; state : State }.

Record StackStore := mkStore { total_frames_ : Z; allocated_ : Z; blocks_ : Z -> BlockInfo }.

Definition store0 : StackStore := mkStore 0 0 (fun _ => mkBlock None 0 Storing).

Section store.
Context `{StackStoreParams}.

Definition kBlockSizeBytes : Z := kBlockSizeFrames * 8.
Definition GetBlockIdx (frame_idx : Z) : Z := frame_idx / kBlockSizeFrames.
Definition GetInBlockIdx (frame_idx : Z) : Z := frame_idx mod kBlockSizeFrames.

Definition IdToOffset (id : Z) : outcome Z := _ ← check (negb (id =? 0)) "id != 0"; mret (id - 1).
Definition OffsetToId (id : Z) : Z := u32 (id + 1).

(** *** Headers *)

Record StackTraceHeader := mkHeader { hd_size : Z; hd_tag : Z }.

Definition header_of_trace (trace : StackTrace) : outcome StackTraceHeader :=
  _ ← check (trace.2 =? u8 trace.2) "trace.tag == tag";
  mret (mkHeader (Z.min (Z.of_nat (length trace.1)) (2 ^ 8 - 1)) (u8 trace.2)).

Definition header_of_uptr (h : Z) : StackTraceHeader :=
  mkHeader (u8 (Z.land h (2 ^ 8 - 1))) (u8 (Z.shiftr h 8)).

Definition ToUptr (h : StackTraceHeader) : Z := Z.lor (hd_size h) (Z.shiftl (hd_tag h) 8).

(** *** Blocks *)

Definition set_block (st : StackStore) (b : Z) (bi : BlockInfo) : StackStore :=
  mkStore (total_frames_ st) (allocated_ st) (fun x => if x =? b then bi else blocks_ st x).

Definition Map (st : StackStore) (size : Z) : StackStore :=
  mkStore (total_frames_ st) (allocated_ st +64 size) (blocks_ st).
Definition Unmap (st : StackStore) (size : Z) : StackStore :=
  mkStore (total_frames_ st) (allocated_ st -64 size) (blocks_ st).

(** A reference to a block out of the array is an error of the model. *)
Definition in_array (b : Z) : outcome unit := check ((0 <=? b) && (b <? kBlockCount)) "blocks_[]".

(** Whether the block is complete, and the store with the new count. *)
Definition Stored (st : StackStore) (b n : Z) : outcome (bool * StackStore) :=
  _ ← in_array b;
  let bi := blocks_ st b in
  mret (n +64 stored_ bi =? kBlockSizeFrames, set_block st b (mkBlock (data_ bi) (u32 (stored_ bi + n)) (state bi))).

Definition GetOrCreate (st : StackStore) (b : Z) : outcome StackStore :=
  _ ← in_array b;
  let bi := blocks_ st b in
  match data_ bi with
  | Some _ => mret st
  | None => mret (set_block (Map st kBlockSizeBytes) b (mkBlock (Some (Frames (fun _ => 0))) (stored_ bi) (state bi)))
  end.

(** *** Allocation *)

(** One turn of the loop, up to the counting of frames that are given up. *)
Inductive alloc_turn := NoSpace | At (idx : Z) | Retry (first in_first last_ in_last : Z).

Definition Alloc_turn (st : StackStore) (count : Z) : outcome (alloc_turn * StackStore) :=
  let start := total_frames_ st in
  let st := mkStore (start +64 count) (allocated_ st) (blocks_ st) in
  let block_idx := GetBlockIdx start in
  let last_idx := GetBlockIdx (start +64 count -64 1) in
  if block_idx =? last_idx then
    if kBlockCount <=? block_idx then mret (NoSpace, st)
    else st ← GetOrCreate st block_idx; mret (At start, st)
  else
    _ ← check (count <=? kBlockSizeFrames) "count <= kBlockSizeFrames";
    let in_first := kBlockSizeFrames - GetInBlockIdx start in
    mret (Retry block_idx in_first last_idx (count - in_first), st).

(** The loop; the number of completed blocks is added to [pack]. *)
Fixpoint Alloc (fuel : nat) (st : StackStore) (count pack : Z) : outcome (option Z * Z * StackStore) :=
  match fuel with
  | O => Died "out of fuel"
  | S fuel =>
      res ← Alloc_turn st count;
      let '(t, st) := res : alloc_turn * StackStore in
      match t with
      | NoSpace => mret (None, pack, st)
      | At idx => mret (Some idx, pack, st)
      | Retry first in_first last_ in_last =>
          r ← Stored st first in_first;
          let '(c1, st) := r : bool * StackStore in
          r ← Stored st last_ in_last;
          let '(c2, st) := r : bool * StackStore in
          Alloc fuel st count (pack + Z.b2z c1 + Z.b2z c2)
      end
  end.

(** The writes of the trace, at the frame [idx]. *)
Definition write_frames (f : Z -> Z) (off : Z) (h : Z) (frames : list Z) : Z -> Z :=
  fun j => if j =? off then h
           else if (off <? j) && (j <=? off + Z.of_nat (length frames)) then nth (Z.to_nat (j - off - 1)) frames 0
           else f j.

Definition write_trace (st : StackStore) (idx : Z) (h : StackTraceHeader) (trace : StackTrace) : outcome StackStore :=
  let b := GetBlockIdx idx in
  let bi := blocks_ st b in
  match data_ bi with
  | Some (Frames f) =>
      mret (set_block st b (mkBlock
        (Some (Frames (write_frames f (GetInBlockIdx idx) (ToUptr h) (firstn (Z.to_nat (hd_size h)) trace.1))))
        (stored_ bi) (state bi)))
  | _ => Died "write to a block without frames"
  end.

(** The id, the number of blocks completed, and the store. *)
Definition Store (st : StackStore) (trace : StackTrace) : outcome (Z * Z * StackStore) :=
  if (Z.of_nat (length trace.1) =? 0) && (trace.2 =? 0) then mret (0, 0, st) else
  h ← header_of_trace trace;
  res ← Alloc 2 st (hd_size h + 1) 0;
  let '(idx, pack, st) := res : option Z * Z * StackStore in
  match idx with
  | None => mret (0, pack, st)
  | Some idx =>
      st ← write_trace st idx h trace;
      r ← Stored st (GetBlockIdx idx) (hd_size h + 1);
      let '(c, st) := r : bool * StackStore in
      mret (OffsetToId idx, pack + Z.b2z c, st)
  end.

(** *** Packing *)

Definition CompressLzw (from : list Z) (room : nat) : outcome (list Z) :=
  codes ← LzwEncode from; mret (encode_all (mkEncoder room 0) codes).

Definition UncompressLzw (from : list Z) (to_len : Z) : outcome (list Z) :=
  match decode_all (S (length from)) (mkDecoder from 0) with
  | Some codes =>
      to ← LzwDecode codes;
      _ ← check (Z.of_nat (length to) =? to_len) "to == to_end";
      mret to
  | None => Died "truncated"
  end.

Definition compress (type : Compression) (from : list Z) (room : nat) : outcome (list Z) :=
  match type with
  | CNone => Died "Unexpected type"
  | CDelta => mret (CompressDelta from room)
  | CLZW => CompressLzw from room
  end.

Definition uncompress (type : Compression) (from : list Z) (to_len : Z) : outcome (list Z) :=
  match type with
  | CNone => Died "Unexpected type"
  | CDelta => UncompressDelta from to_len
  | CLZW => UncompressLzw from to_len
  end.

(** The packed data follows the size and the type, at byte 9; the structure itself
    is padded to 16. *)
Definition data_offset : Z := 9.
Definition sizeof_PackedHeader : Z := 16.

(** The released bytes. *)
Definition block_Pack (type : Compression) (st : StackStore) (b : Z) : outcome (Z * StackStore) :=
  if bool_decide (type = CNone) then mret (0, st) else
  let bi := blocks_ st b in
  match state bi with
  | Unpacked | Packed => mret (0, st)
  | Storing =>
      match data_ bi with
      | None => mret (0, st)
      | Some (PackedData _ _) => Died "packed block in the state Storing"
      | Some (Frames f) =>
          r ← Stored st b 0;
          let '(complete, st) := r : bool * StackStore in
          if negb complete then mret (0, st) else
          let bi := blocks_ st b in
          let st := Map st kBlockSizeBytes in
          packed ← compress type (map f (zrange kBlockSizeFrames)) (Z.to_nat (kBlockSizeBytes - data_offset));
          let size := data_offset + Z.of_nat (length packed) in
          if kBlockSizeBytes - size <? kBlockSizeBytes / 8 then
            mret (0, set_block (Unmap st kBlockSizeBytes) b (mkBlock (data_ bi) (stored_ bi) Unpacked))
          else
            packed_size_aligned ← RoundUpTo size (2 ^ page_log);
            let st := Unmap st (kBlockSizeBytes - packed_size_aligned) in
            let st := Unmap st kBlockSizeBytes in
            mret (kBlockSizeBytes - packed_size_aligned,
                  set_block st b (mkBlock (Some (PackedData type packed)) (stored_ bi) Packed))
      end
  end.

(** [for (BlockInfo &b : blocks_) res += b.Pack(type, this);] *)
Fixpoint pack_blocks (type : Compression) (bs : list Z) (st : StackStore) (res : Z) : outcome (Z * StackStore) :=
  match bs with
  | [] => mret (res, st)
  | b :: bs =>
      r ← block_Pack type st b;
      let '(n, st) := r : Z * StackStore in
      pack_blocks type bs st (res +64 n)
  end.

Definition Pack (type : Compression) (st : StackStore) : outcome (Z * StackStore) :=
  pack_blocks type (zrange kBlockCount) st 0.

(** *** Loading *)

(** The frames, if the block has any. *)
Definition GetOrUnpack (st : StackStore) (b : Z) : outcome (option (Z -> Z) * StackStore) :=
  let bi := blocks_ st b in
  match state bi, data_ bi with
  | Storing, Some (PackedData _ _) | Unpacked, Some (PackedData _ _) => Died "packed block in the wrong state"
  | Storing, d => mret (match d with Some (Frames f) => Some f | _ => None end,
                        set_block st b (mkBlock d (stored_ bi) Unpacked))
  | Unpacked, d => mret (match d with Some (Frames f) => Some f | _ => None end, st)
  | Packed, Some (PackedData type data) =>
      let size := data_offset + Z.of_nat (length data) in
      _ ← check (size <=? kBlockSizeBytes) "header->size <= kBlockSizeBytes";
      _ ← check (sizeof_PackedHeader <=? size) "header->size >= sizeof(PackedHeader)";
      packed_size_aligned ← RoundUpTo size (2 ^ page_log);
      let st := Map st kBlockSizeBytes in
      unpacked ← uncompress type data kBlockSizeFrames;
      let f := fun j => nth (Z.to_nat j) unpacked 0 in
      mret (Some f, set_block (Unmap st packed_size_aligned) b (mkBlock (Some (Frames f)) (stored_ bi) Unpacked))
  | Packed, _ => Died "nullptr != ptr"
  end.

Definition Load (st : StackStore) (id : Z) : outcome (StackTrace * StackStore) :=
  if id =? 0 then mret (([], 0), st) else
  idx ← IdToOffset id;
  let block_idx := GetBlockIdx idx in
  _ ← check (block_idx <? kBlockCount) "block_idx < ARRAY_SIZE(blocks_)";
  res ← GetOrUnpack st block_idx;
  let '(stack_trace, st) := res : option (Z -> Z) * StackStore in
  match stack_trace with
  | None => mret (([], 0), st)
  | Some f =>
      let off := GetInBlockIdx idx in
      let h := header_of_uptr (f off) in
      mret ((map (fun i => f (off + 1 + i)) (zrange (hd_size h)), hd_tag h), st)
  end.

(** ** Facts *)

Context `{!StackStoreOk _}.
Notation K := kBlockSizeFrames.
Implicit Types (st : StackStore) (b : Z).

Lemma in_array_done b : 0 <= b < kBlockCount -> in_array b = Done tt.
Proof.
  intros Hb. apply check_done. apply andb_true_iff. by rewrite Z.leb_le, Z.ltb_lt.
Qed.

Lemma header_roundtrip size tag : 0 <= size < 256 -> 0 <= tag < 256 ->
  header_of_uptr (ToUptr (mkHeader size tag)) = mkHeader size tag /\ 0 <= ToUptr (mkHeader size tag) < 2 ^ 64.
Proof.
  intros Hs Ht. unfold ToUptr, header_of_uptr. cbn [hd_size hd_tag]. rewrite lor_high by lia.
  change (2 ^ 8 - 1) with (Z.ones 8). rewrite Z.land_ones, Z.shiftr_div_pow2 by lia. split; [|lia]. unfold u8. f_equal.
  - rewrite Z_mod_plus_full, Z.mod_mod by lia. by apply Z.mod_small.
  - rewrite Z.div_add, Z.div_small, Z.add_0_l by lia. by apply Z.mod_small.
Qed.

(** What is compressed comes back, if it was not cut short. *)
Lemma compress_total type from room : type <> CNone -> Z.of_nat (length from) = K ->
  exists packed, compress type from room = Done packed.
Proof.
  intros Ht Hl. pose proof block_size_range. destruct type; [done|by eexists|]. cbn [compress]. unfold CompressLzw.
  destruct (decode_encode_lzw from) as (codes & -> & _); [unfold kNoPrefix; lia|]. by eexists.
Qed.

Lemma uncompress_compress type from room packed :
  type <> CNone -> Forall (fun v => 0 <= v < 2 ^ 64) from -> Z.of_nat (length from) = K ->
  compress type from room = Done packed -> (length packed < room)%nat ->
  uncompress type packed K = Done from /\ (7 <= length packed)%nat.
Proof.
  intros Ht Hall Hl E Hlt. pose proof block_size_range as HK. destruct type; [done| |]; cbn [compress uncompress] in *.
  - injection E as <-. pose proof (uncompress_compress_delta from room Hall) as Hu.
    rewrite (proj2 (Nat.ltb_lt _ _) Hlt), Hl in Hu. split; [done|].
    pose proof (compressed_length from room Hlt). lia.
  - unfold CompressLzw in E. destruct (decode_encode_lzw from) as (codes & Ec & Ed); [unfold kNoPrefix; lia|].
    rewrite Ec in E. injection E as <-.
    destruct (LzwEncode_facts from codes ltac:(unfold kNoPrefix; lia) Ec) as [Hsize Hrange]. specialize (Hrange Hall).
    unfold UncompressLzw. change (encode_all (mkEncoder room 0) codes) with (CompressDelta codes room) in *.
    rewrite (decode_all_compressed codes room Hrange Hlt), Ed. cbn [mbind outcome_bind].
    rewrite (proj2 (check_done (Z.of_nat (length from) =? K) _ tt)) by (by apply Z.eqb_eq). split; [done|].
    pose proof (compressed_length codes room Hlt). nia.
Qed.

(** The frames of a block, packed or not. *)
Definition view (bi : BlockInfo) : option (Z -> Z) :=
  match data_ bi with
  | None => None
  | Some (Frames f) => Some f
  | Some (PackedData type data) =>
      match uncompress type data K with Done l => Some (fun j => nth (Z.to_nat j) l 0) | Died _ => None end
  end.

(** The memory a block takes. *)
Definition pages (size : Z) : Z := 2 ^ page_log * ((size + 2 ^ page_log - 1) / 2 ^ page_log).
Definition block_bytes (bi : BlockInfo) : Z :=
  match data_ bi with
  | None => 0
  | Some (Frames _) => kBlockSizeBytes
  | Some (PackedData _ data) => pages (data_offset + Z.of_nat (length data))
  end.

Lemma page_pos : 0 < 2 ^ page_log <= 2 ^ 30.
Proof.
  pose proof page_log_range. split; [apply Z.pow_pos_nonneg; lia|apply Z.pow_le_mono_r; lia].
Qed.

Lemma RoundUpTo_pages size : 0 <= size <= kBlockSizeBytes ->
  RoundUpTo size (2 ^ page_log) = Done (pages size) /\ size <= pages size <= kBlockSizeBytes.
Proof.
  intros Hs. pose proof page_pos as Hp. pose proof block_size_range. pose proof page_log_range.
  destruct pages_in_block as [q Hq]. unfold pages, kBlockSizeBytes in *.
  split; [apply RoundUpTo_spec; lia|]. remember (2 ^ page_log) as p eqn:Ep.
  assert (p <> 0) as Hp0 by lia. pose proof (Z.div_mod (size + p - 1) p Hp0) as Hdm.
  assert (0 < p) as Hp1 by lia. pose proof (Z.mod_pos_bound (size + p - 1) p Hp1) as Hmb.
  split; [lia|]. replace (K * 8) with (p * q) by lia. apply Z.mul_le_mono_nonneg_l; [lia|].
  apply Z.lt_succ_r. apply Z.div_lt_upper_bound; [lia|]. rewrite Z.mul_succ_r. lia.
Qed.

(** ** Threads

    What threads still have to do: write a trace at the place they were given, and
    then count its frames; or count the frames they gave up. *)

Inductive task :=
| TWrite (idx : Z) (trace : StackTrace)
| TMark (b n : Z) (stored : option (Z * StackTrace)).

Record world := mkWorld { w_store : StackStore; w_pending : list task; w_log : list (Z * StackTrace) }.

Definition trace_len (tr : StackTrace) : Z := Z.of_nat (length tr.1).

(** The part of a trace that is stored. *)
Definition trim (h : StackTraceHeader) (trace : StackTrace) : StackTrace :=
  (firstn (Z.to_nat (hd_size h)) trace.1, hd_tag h).

Definition tasks_of (t : alloc_turn) (tr : StackTrace) : list task :=
  match t with
  | NoSpace => []
  | At idx => [TWrite idx tr]
  | Retry first in_first last_ in_last => [TMark first in_first None; TMark last_ in_last None]
  end.

Definition option_list {A} (x : option A) : list A := match x with Some a => [a] | None => [] end.

Inductive step : world -> world -> Prop :=
(** a turn of [Alloc], of a thread that stores [trace]; fewer than 2^54 of them *)
| step_alloc w trace h t st' :
    ~ (trace_len trace = 0 /\ trace.2 = 0) -> Forall (fun v => 0 <= v < 2 ^ 64) trace.1 ->
    header_of_trace trace = Done h -> total_frames_ (w_store w) + 2 ^ 8 < 2 ^ 62 ->
    Alloc_turn (w_store w) (hd_size h + 1) = Done (t, st') ->
    step w (mkWorld st' (tasks_of t (trim h trace) ++ w_pending w) (w_log w))
| step_write w l1 idx tr l2 st' :
    w_pending w = l1 ++ TWrite idx tr :: l2 ->
    write_trace (w_store w) idx (mkHeader (trace_len tr) tr.2) tr = Done st' ->
    step w (mkWorld st' (l1 ++ TMark (GetBlockIdx idx) (trace_len tr + 1) (Some (idx, tr)) :: l2) (w_log w))
| step_mark w l1 b n d l2 c st' :
    w_pending w = l1 ++ TMark b n d :: l2 -> Stored (w_store w) b n = Done (c, st') ->
    step w (mkWorld st' (l1 ++ l2) (option_list d ++ w_log w))
| step_pack w type b n st' :
    0 <= b < kBlockCount -> block_Pack type (w_store w) b = Done (n, st') ->
    step w (mkWorld st' (w_pending w) (w_log w))
| step_load w id tr st' :
    0 <= id < 2 ^ 32 -> Load (w_store w) id = Done (tr, st') -> step w (mkWorld st' (w_pending w) (w_log w)).

Definition world0 : world := mkWorld store0 [] [].

(** *** The invariant *)

(** The frames of block [b] that a task accounts for. *)
Definition amount b (t : task) : Z :=
  match t with
  | TWrite idx tr => if GetBlockIdx idx =? b then trace_len tr + 1 else 0
  | TMark b' n _ => if b' =? b then n else 0
  end.

Definition pend b (l : list task) : Z := foldr (fun t a => amount b t + a) 0 l.

(** The frames of block [b] below [total]. *)
Definition filled (total b : Z) : Z := Z.max 0 (Z.min K (total - b * K)).

Definition task_entry (t : task) : list (Z * StackTrace) :=
  match t with TWrite idx tr => [(idx, tr)] | TMark _ _ d => option_list d end.
Definition task_written (t : task) : list (Z * StackTrace) :=
  match t with TWrite _ _ => [] | TMark _ _ d => option_list d end.

(** The traces that were given a place, and those that were written. *)
Definition entries (w : world) : list (Z * StackTrace) := concat (map task_entry (w_pending w)) ++ w_log w.
Definition written (w : world) : list (Z * StackTrace) := concat (map task_written (w_pending w)) ++ w_log w.

Definition block_of (w : world) b : BlockInfo := blocks_ (w_store w) b.

Record entry_ok (total : Z) (e : Z * StackTrace) : Prop := {
  en_place : 0 <= e.1 /\ GetInBlockIdx e.1 + trace_len e.2 + 1 <= K /\ GetBlockIdx e.1 < kBlockCount;
  en_total : e.1 + trace_len e.2 + 1 <= total;
  en_len : trace_len e.2 < 256;
  en_tag : 0 <= e.2.2 < 256;
  en_frames : Forall (fun v => 0 <= v < 2 ^ 64) e.2.1
}.

Definition entries_apart (e1 e2 : Z * StackTrace) : Prop :=
  e1.1 + trace_len e1.2 + 1 <= e2.1 \/ e2.1 + trace_len e2.2 + 1 <= e1.1.

(** The trace is where it was stored. *)
Definition readable (bi : BlockInfo) (e : Z * StackTrace) : Prop :=
  exists f, view bi = Some f /\ f (GetInBlockIdx e.1) = ToUptr (mkHeader (trace_len e.2) e.2.2) /\
    forall i, 0 <= i < trace_len e.2 -> f (GetInBlockIdx e.1 + 1 + i) = nth (Z.to_nat i) e.2.1 0.

Definition frames_ok (f : Z -> Z) : Prop := forall j, 0 <= j < K -> 0 <= f j < 2 ^ 64.

Definition block_ok (bi : BlockInfo) : Prop :=
  match state bi, data_ bi with
  | Packed, Some (PackedData type data) =>
      stored_ bi = K /\ sizeof_PackedHeader <= data_offset + Z.of_nat (length data) <= kBlockSizeBytes /\
      exists l, uncompress type data K = Done l /\ Z.of_nat (length l) = K /\ Forall (fun v => 0 <= v < 2 ^ 64) l
  | Packed, _ => False
  | _, Some (PackedData _ _) => False
  | _, Some (Frames f) => frames_ok f
  | _, None => True
  end.

Definition sum_bytes (blocks : Z -> BlockInfo) (l : list Z) : Z := foldr (fun b a => block_bytes (blocks b) + a) 0 l.

Record inv (w : world) : Prop := {
  iv_total : 0 <= total_frames_ (w_store w) < 2 ^ 62;
  iv_tasks : Forall (fun t => forall b, 0 <= amount b t) (w_pending w);
  iv_count b : 0 <= b < kBlockCount ->
    0 <= stored_ (block_of w b) /\ stored_ (block_of w b) + pend b (w_pending w) = filled (total_frames_ (w_store w)) b;
  iv_entry e : e ∈ entries w -> entry_ok (total_frames_ (w_store w)) e /\ data_ (block_of w (GetBlockIdx e.1)) <> None;
  iv_apart e1 e2 : e1 ∈ entries w -> e2 ∈ entries w -> e1 = e2 \/ entries_apart e1 e2;
  iv_written e : e ∈ written w -> readable (block_of w (GetBlockIdx e.1)) e;
  iv_block b : 0 <= b < kBlockCount -> block_ok (block_of w b);
  iv_bytes : allocated_ (w_store w) = sum_bytes (blocks_ (w_store w)) (zrange kBlockCount)
}.

Lemma written_entries w e : e ∈ written w -> e ∈ entries w.
Proof.
  unfold written, entries. rewrite !elem_of_app. intros [He|?]; [left|by right].
  rewrite list_elem_of_In, in_concat in *. destruct He as (x & Hx & He). apply in_map_iff in Hx as (t & <- & Ht).
  exists (task_entry t). split; [by apply in_map|]. destruct t; done.
Qed.

Lemma pend_app b l1 l2 : pend b (l1 ++ l2) = pend b l1 + pend b l2.
Proof. induction l1 as [|t l1 IH]; cbn [app pend foldr]; [done|]. unfold pend in *. rewrite IH. lia. Qed.

Lemma pend_nonneg b l : Forall (fun t => forall b, 0 <= amount b t) l -> 0 <= pend b l.
Proof. induction 1 as [|t l Ht _ IH]; cbn; [done|]. specialize (Ht b). unfold pend in IH. lia. Qed.

Lemma inv_init : inv world0.
Proof.
  pose proof block_size_range. split; cbn; try done; try (by intros e ?%not_elem_of_nil).
  - intros b Hb. unfold filled. pose proof (Z.mul_nonneg_nonneg b K). lia.
  - by intros e1 e2 ?%not_elem_of_nil.
  - induction (zrange kBlockCount); [done|]. done.
Qed.

(** The bytes when one block changes. *)
Lemma sum_bytes_change blocks b bi l : NoDup l -> b ∈ l ->
  sum_bytes (fun x => if x =? b then bi else blocks x) l = sum_bytes blocks l - block_bytes (blocks b) + block_bytes bi.
Proof.
  induction 1 as [|a l Ha Hnd IH]; [by intros ?%not_elem_of_nil|]. cbn [sum_bytes foldr]. fold (sum_bytes blocks l).
  fold (sum_bytes (fun x => if x =? b then bi else blocks x) l). intros [<-|Hb]%elem_of_cons.
  - rewrite Z.eqb_refl. assert (sum_bytes (fun x => if x =? b then bi else blocks x) l = sum_bytes blocks l) as ->; [|lia].
    clear IH Hnd. induction l as [|c l IH]; [done|]. cbn [sum_bytes foldr]. apply not_elem_of_cons in Ha as [Hne Ha].
    rewrite (proj2 (Z.eqb_neq c b)) by congruence. f_equal. by apply IH.
  - rewrite (proj2 (Z.eqb_neq a b)) by (intros ->; done). rewrite IH by done. lia.
Qed.
(** *** Bounds *)

Lemma block_bytes_range bi : block_ok bi -> 0 <= block_bytes bi <= kBlockSizeBytes.
Proof.
  pose proof block_size_range. unfold block_ok, block_bytes, kBlockSizeBytes.
  destruct (state bi), (data_ bi) as [[f|type data]|]; try done; try lia. intros (_ & Hs & _).
  destruct (RoundUpTo_pages (data_offset + Z.of_nat (length data))) as [_ Hr];
    unfold data_offset, sizeof_PackedHeader, kBlockSizeBytes in *; lia.
Qed.

Lemma sum_bytes_range blocks l : (forall b, b ∈ l -> block_ok (blocks b)) ->
  0 <= sum_bytes blocks l <= Z.of_nat (length l) * kBlockSizeBytes.
Proof.
  induction l as [|b l IH]; intros Hok; [cbn; lia|]. cbn [sum_bytes foldr]. fold (sum_bytes blocks l).
  pose proof (block_bytes_range (blocks b) (Hok b ltac:(by left))).
  destruct IH; [intros b' Hb'; apply Hok; by right|]. cbn [length]. lia.
Qed.

Lemma sum_bytes_elem blocks l b : (forall b, b ∈ l -> block_ok (blocks b)) -> b ∈ l -> block_bytes (blocks b) <= sum_bytes blocks l.
Proof.
  intros Hok Hb. induction l as [|a l IH]; [by apply not_elem_of_nil in Hb|]. cbn [sum_bytes foldr]. fold (sum_bytes blocks l).
  pose proof (block_bytes_range (blocks a) (Hok a ltac:(by left))).
  assert (forall b, b ∈ l -> block_ok (blocks b)) as Hok' by (intros b' Hb'; apply Hok; by right).
  pose proof (sum_bytes_range blocks l Hok'). apply elem_of_cons in Hb as [->|Hb]; [lia|]. specialize (IH Hok' Hb). lia.
Qed.

Lemma geometry : 0 < kBlockCount <= 2 ^ 23 /\ kBlockCount * kBlockSizeBytes = 2 ^ 35 /\ 2 ^ 12 <= kBlockSizeBytes <= 2 ^ 33.
Proof. pose proof block_size_range. pose proof ids_fit. unfold kBlockSizeBytes. nia. Qed.

Lemma inv_bytes w : inv w -> 0 <= allocated_ (w_store w) <= 2 ^ 35.
Proof.
  intros Hw. pose proof geometry. rewrite (iv_bytes w Hw).
  destruct (sum_bytes_range (blocks_ (w_store w)) (zrange kBlockCount)) as [? Hle].
  - intros b Hb%elem_of_zrange. by apply (iv_block w Hw).
  - rewrite zrange_length, Z2Nat.id in Hle by lia. lia.
Qed.

Lemma inv_block_bytes w b : inv w -> 0 <= b < kBlockCount -> block_bytes (block_of w b) <= allocated_ (w_store w).
Proof.
  intros Hw Hb. rewrite (iv_bytes w Hw). apply sum_bytes_elem; [|by apply elem_of_zrange].
  intros b' Hb'%elem_of_zrange. by apply (iv_block w Hw).
Qed.

Lemma filled_range total b : 0 <= filled total b <= K.
Proof. pose proof block_size_range. unfold filled. lia. Qed.

Lemma inv_stored w b : inv w -> 0 <= b < kBlockCount ->
  0 <= stored_ (block_of w b) <= K /\ 0 <= pend b (w_pending w) <= K - stored_ (block_of w b).
Proof.
  intros Hw Hb. destruct (iv_count w Hw b Hb). pose proof (filled_range (total_frames_ (w_store w)) b).
  pose proof (pend_nonneg b _ (iv_tasks w Hw)). lia.
Qed.

(** *** The change of one block *)

(** Block [b] is now [bi], and the memory counted accordingly. *)
Record changes (st : StackStore) (b : Z) (bi : BlockInfo) (st' : StackStore) : Prop := {
  ch_total : total_frames_ st' = total_frames_ st;
  ch_bytes : allocated_ st' = allocated_ st - block_bytes (blocks_ st b) + block_bytes bi;
  ch_block x : blocks_ st' x = if x =? b then bi else blocks_ st x
}.

Lemma sum_bytes_ext blocks1 blocks2 l : (forall b, blocks1 b = blocks2 b) -> sum_bytes blocks1 l = sum_bytes blocks2 l.
Proof. intros Hext. induction l as [|b l IH]; [done|]. unfold sum_bytes in *. cbn [foldr]. by rewrite IH, Hext. Qed.

Lemma inv_block_change w b bi w' : inv w -> 0 <= b < kBlockCount -> changes (w_store w) b bi (w_store w') ->
  Forall (fun t => forall b, 0 <= amount b t) (w_pending w') ->
  0 <= stored_ bi /\ stored_ bi + pend b (w_pending w') = stored_ (block_of w b) + pend b (w_pending w) ->
  (forall b', b' <> b -> pend b' (w_pending w') = pend b' (w_pending w)) ->
  (forall e, e ∈ entries w' -> e ∈ entries w) ->
  (data_ (block_of w b) <> None -> data_ bi <> None) ->
  (forall e, e ∈ written w' -> if GetBlockIdx e.1 =? b then readable bi e else e ∈ written w) ->
  block_ok bi -> inv w'.
Proof.
  intros Hw Hb [Htot Hbytes Hblk] Hnn [Hs0 Hs] Hpend Hent Hdata Hwr Hok. change (forall x, block_of w' x = if x =? b then bi else block_of w x) in Hblk.
  split; rewrite ?Htot.
  - apply (iv_total w Hw).
  - done.
  - intros b' Hb'. rewrite Hblk. destruct (Z.eqb_spec b' b) as [->|Hne]; [rewrite Hs; split; [done|]|rewrite Hpend by done];
      by apply (iv_count w Hw).
  - intros e He%Hent. destruct (iv_entry w Hw e He) as [? ?]. split; [done|]. rewrite Hblk.
    destruct (Z.eqb_spec (GetBlockIdx e.1) b) as [<-|_]; auto.
  - intros e1 e2 ?%Hent ?%Hent. by apply (iv_apart w Hw).
  - intros e He%Hwr. rewrite Hblk. destruct (GetBlockIdx e.1 =? b); [done|]. by apply (iv_written w Hw).
  - intros b' Hb'. rewrite Hblk. destruct (b' =? b); [done|]. by apply (iv_block w Hw).
  - rewrite (sum_bytes_ext _ (fun x => if x =? b then bi else blocks_ (w_store w) x)) by done.
    rewrite sum_bytes_change; [|apply zrange_NoDup|by apply elem_of_zrange]. by rewrite Hbytes, (iv_bytes w Hw).
Qed.

(** A block that changes form: counts, traces and tasks stay. *)
Record reforms (bi bi' : BlockInfo) : Prop := {
  rf_stored : stored_ bi' = stored_ bi;
  rf_data : data_ bi <> None -> data_ bi' <> None;
  rf_view f : view bi = Some f -> exists f', view bi' = Some f' /\ forall j, 0 <= j < K -> f' j = f j;
  rf_ok : block_ok bi'
}.

Lemma reforms_readable bi bi' total e : reforms bi bi' -> entry_ok total e -> readable bi e -> readable bi' e.
Proof.
  intros Hr He (f & Hf & Hh & Hfr). destruct (rf_view _ _ Hr f Hf) as (f' & Hf' & Heq). destruct (en_place _ _ He) as (? & ? & _).
  pose proof block_size_range. assert (0 <= GetInBlockIdx e.1) by (apply Z.mod_pos_bound; lia).
  exists f'. split; [done|]. unfold trace_len in *. split; [by rewrite Heq by lia|]. intros i Hi. rewrite Heq by lia. by apply Hfr.
Qed.

Lemma inv_reform w b bi st' : inv w -> 0 <= b < kBlockCount -> changes (w_store w) b bi st' -> reforms (block_of w b) bi ->
  inv (mkWorld st' (w_pending w) (w_log w)).
Proof.
  intros Hw Hb Hch Hr. eapply (inv_block_change w b bi); cbn [w_store w_pending w_log]; try done; try apply Hr.
  - apply (iv_tasks w Hw).
  - rewrite (rf_stored _ _ Hr). split; [|done]. by apply inv_stored.
  - intros e He. change (e ∈ written w) in He. destruct (Z.eqb_spec (GetBlockIdx e.1) b) as [<-|_]; [|done].
    eapply reforms_readable; [done|by apply (iv_entry w Hw), written_entries|by apply (iv_written w Hw)].
Qed.

(** *** Packing *)

Lemma map_zrange_nth (f : Z -> Z) n j : 0 <= j < n -> nth (Z.to_nat j) (map f (zrange n)) 0 = f j.
Proof.
  intros Hj. apply nth_lookup_Some. by rewrite list_lookup_fmap, zrange_lookup.
Qed.

Lemma Stored_result st b n : 0 <= b < kBlockCount -> 0 <= stored_ (blocks_ st b) -> 0 <= n ->
  stored_ (blocks_ st b) + n <= K ->
  exists st', Stored st b n = Done (stored_ (blocks_ st b) + n =? K, st') /\
    changes st b (mkBlock (data_ (blocks_ st b)) (stored_ (blocks_ st b) + n) (state (blocks_ st b))) st'.
Proof.
  intros Hb Hs Hn Hle. pose proof block_size_range. unfold Stored. rewrite in_array_done by done. cbn [mbind outcome_bind].
  rewrite u64_small, u32_small by lia. rewrite (Z.add_comm n). eexists. split; [done|]. split; [done| |done].
  cbn [set_block allocated_]. unfold block_bytes. cbn [data_]. lia.
Qed.

Lemma changes_none st b : changes st b (blocks_ st b) st.
Proof. split; [done|lia|]. intros x. by destruct (Z.eqb_spec x b) as [->|]. Qed.

Lemma reforms_refl bi : block_ok bi -> reforms bi bi.
Proof. split; eauto. Qed.

(** The frames of a block, and what they are packed to. *)
Lemma pack_frames type f room : type <> CNone -> frames_ok f -> 
  exists packed, compress type (map f (zrange K)) room = Done packed /\
    ((length packed < room)%nat -> (7 <= length packed)%nat /\ uncompress type packed K = Done (map f (zrange K))).
Proof.
  intros Ht Hf. assert (Z.of_nat (length (map f (zrange K))) = K) as Hl.
  { pose proof block_size_range. rewrite length_map, zrange_length. lia. }
  destruct (compress_total type (map f (zrange K)) room) as (packed & Hp); [done|done|]. exists packed. split; [done|].
  intros Hlt. destruct (uncompress_compress type (map f (zrange K)) room packed); try done.
  apply Forall_map, list.Forall_forall. intros j Hj%elem_of_zrange. by apply Hf.
Qed.

Lemma packed_reforms f type packed stored : frames_ok f -> stored = K ->
  sizeof_PackedHeader <= data_offset + Z.of_nat (length packed) <= kBlockSizeBytes ->
  uncompress type packed K = Done (map f (zrange K)) ->
  reforms (mkBlock (Some (Frames f)) stored Storing) (mkBlock (Some (PackedData type packed)) stored Packed).
Proof.
  intros Hf Hs Hsize Hu. pose proof block_size_range. split; try done.
  - intros f0 [= <-]. unfold view. cbn [data_]. rewrite Hu. eexists. split; [done|]. intros j Hj. by apply map_zrange_nth.
  - cbn. split; [done|]. split; [done|]. eexists. split; [done|]. split; [rewrite length_map, zrange_length; lia|].
    apply Forall_map, list.Forall_forall. intros j Hj%elem_of_zrange. by apply Hf.
Qed.

Lemma block_Pack_result w type b : inv w -> 0 <= b < kBlockCount ->
  exists n bi st', block_Pack type (w_store w) b = Done (n, st') /\ changes (w_store w) b bi st' /\
    reforms (block_of w b) bi /\ n = allocated_ (w_store w) - allocated_ st' /\ 0 <= n <= kBlockSizeBytes.
Proof.
  intros Hw Hb. pose proof geometry as (_ & _ & HKB). pose proof (inv_stored w b Hw Hb) as [Hst _].
  pose proof (iv_block w Hw b Hb) as Hok.
  assert (exists n bi st', Done (0, w_store w) = Done (n, st') /\ changes (w_store w) b bi st' /\
    reforms (block_of w b) bi /\ n = allocated_ (w_store w) - allocated_ st' /\ 0 <= n <= kBlockSizeBytes) as Hsame.
  { exists 0, (block_of w b), (w_store w). split; [done|]. split; [apply changes_none|].
    split; [by apply reforms_refl|]. lia. }
  pose proof (inv_block_bytes w b Hw Hb) as Hbytes. pose proof (inv_bytes w Hw) as Hrange.
  unfold block_Pack. destruct (bool_decide_reflect (type = CNone)) as [|Ht]; [done|]. unfold block_of in *.
  destruct (blocks_ (w_store w) b) as [d stored []] eqn:Ebi; cbn [data_ stored_ state] in *; try done.
  destruct d as [[f|]|]; try done.
  destruct (Stored_result (w_store w) b 0) as (st1 & -> & [Hct Hcb Hcx]); rewrite ?Ebi; cbn [stored_]; try lia.
  rewrite Ebi in *. cbn [mbind outcome_bind negb data_ stored_ state] in *. rewrite Z.add_0_r in *.
  assert (allocated_ st1 = allocated_ (w_store w)) as Ha1 by (rewrite Hcb; unfold block_bytes; cbn [data_]; lia).
  destruct (Z.eqb_spec stored K) as [HK|HK]; cbn [negb]; [|].
  2: { exists 0, (mkBlock (Some (Frames f)) stored Storing), st1. split; [done|]. split; [split; [done|by rewrite Ebi|done]|].
       split; [by apply reforms_refl|]. lia. }
  pose proof (Hcx b) as Hb1. rewrite Z.eqb_refl in Hb1. rewrite Hb1. cbn [data_ stored_].
  destruct (pack_frames type f (Z.to_nat (kBlockSizeBytes - data_offset)) Ht Hok) as (packed & -> & Hpacked).
  cbn [mbind outcome_bind]. unfold Map, Unmap, set_block. cbn [total_frames_ allocated_ blocks_]. rewrite Ha1.
  change (block_bytes _) with kBlockSizeBytes in Hbytes. rewrite (u64_small (allocated_ _ + _)) by lia.
  destruct (Z.ltb_spec (kBlockSizeBytes - (data_offset + Z.of_nat (length packed))) (kBlockSizeBytes / 8)) as [Hlt|Hge].
  - exists 0, (mkBlock (Some (Frames f)) stored Unpacked). eexists. split; [done|].
    rewrite u64_small by lia. split; [|split; [by split; eauto|cbn [allocated_]; lia]].
    split; cbn [total_frames_ allocated_ blocks_]; [done|rewrite Ebi; unfold block_bytes; cbn [data_]; lia|].
    intros x. rewrite Hcx. by destruct (x =? b).
  - assert (2 ^ 9 <= kBlockSizeBytes / 8) by (apply Z.div_le_lower_bound; lia). unfold data_offset in *.
    destruct Hpacked as [H7 Hu]; [lia|].
    destruct (RoundUpTo_pages (9 + Z.of_nat (length packed))) as [-> Hp]; [lia|]. cbn [mbind outcome_bind].
    rewrite !u64_small by (rewrite ?u64_small; lia).
    eexists _, (mkBlock (Some (PackedData type packed)) stored Packed), _. split; [done|].
    split; [|split; [apply packed_reforms; try done; unfold sizeof_PackedHeader, data_offset; lia|cbn [allocated_]; lia]].
    split; cbn [total_frames_ allocated_ blocks_]; [done|rewrite Ebi; unfold block_bytes, data_offset; cbn [data_]; lia|].
    intros x. rewrite Hcx. by destruct (x =? b).
Qed.

(** *** Loading *)

Lemma view_frames f stored s : view (mkBlock (Some (Frames f)) stored s) = Some f.
Proof. done. Qed.

Lemma unpacked_ok l : Z.of_nat (length l) = K -> Forall (fun v => 0 <= v < 2 ^ 64) l ->
  frames_ok (fun j => nth (Z.to_nat j) l 0).
Proof.
  intros Hl Hall j Hj. destruct (lookup_lt_is_Some_2 l (Z.to_nat j)) as [v Hv]; [lia|].
  rewrite (nth_lookup_Some _ _ _ _ Hv). by eapply Forall_lookup_1 in Hall.
Qed.

Lemma GetOrUnpack_result w b : inv w -> 0 <= b < kBlockCount ->
  exists bi st', GetOrUnpack (w_store w) b = Done (view (block_of w b), st') /\ changes (w_store w) b bi st' /\
    reforms (block_of w b) bi.
Proof.
  intros Hw Hb. pose proof geometry as (_ & _ & HKB). pose proof (iv_block w Hw b Hb) as Hok.
  pose proof (inv_block_bytes w b Hw Hb) as Hbytes. pose proof (inv_bytes w Hw) as Hrange.
  unfold GetOrUnpack, block_of, view in *. set (st := w_store w) in *.
  destruct (blocks_ st b) as [d stored s] eqn:Ebi. cbn [data_ stored_ state] in *.
  destruct s, d as [[f|type data]|]; try done.
  - exists (mkBlock (Some (Frames f)) stored Unpacked). eexists. split; [done|].
    split; [split; [done|rewrite Ebi; unfold block_bytes; cbn [data_ set_block allocated_]; lia|done]|]. split; eauto.
  - exists (mkBlock None stored Unpacked). eexists. split; [done|].
    split; [split; [done|rewrite Ebi; unfold block_bytes; cbn [data_ set_block allocated_]; lia|done]|]. split; eauto.
  - destruct Hok as (HK & Hsize & l & Hu & Hl & Hall). cbn [stored_] in HK.
    rewrite (proj2 (check_done _ _ tt)) by (apply Z.leb_le; lia). rewrite (proj2 (check_done _ _ tt)) by (apply Z.leb_le; lia).
    unfold sizeof_PackedHeader, data_offset in *.
    destruct (RoundUpTo_pages (9 + Z.of_nat (length data))) as [-> Hp]; [lia|].
    cbn [mbind outcome_bind]. rewrite Hu. cbn [mbind outcome_bind].
    eexists (mkBlock (Some (Frames _)) stored Unpacked), _. split; [done|].
    change (block_bytes _) with (pages (9 + Z.of_nat (length data))) in Hbytes. split.
    + split; [done| |done]. unfold Map, Unmap, set_block. cbn [total_frames_ allocated_ blocks_]. rewrite Ebi.
      rewrite !u64_small by (rewrite ?u64_small; lia). unfold block_bytes, data_offset. cbn [data_]. lia.
    + split; try done.
      * intros f. unfold view. cbn [data_]. rewrite Hu. intros [= <-]. eauto.
      * by apply unpacked_ok.
  - eexists (mkBlock (Some (Frames f)) stored Unpacked), st. split; [done|].
    split; [rewrite <- Ebi; apply changes_none|]. split; eauto.
  - eexists (mkBlock None stored Unpacked), st. split; [done|].
    split; [rewrite <- Ebi; apply changes_none|]. split; eauto.
Qed.

Lemma block_idx_range idx : 0 <= idx < 2 ^ 32 -> 0 <= GetBlockIdx idx < kBlockCount.
Proof.
  intros Hi. pose proof block_size_range. pose proof ids_fit. unfold GetBlockIdx.
  split; [apply Z.div_pos; lia|apply Z.div_lt_upper_bound; lia].
Qed.

(** What [Load] gives, in any state of the store. *)
Definition trace_at (f : Z -> Z) (off : Z) : StackTrace :=
  let h := header_of_uptr (f off) in (map (fun i => f (off + 1 + i)) (zrange (hd_size h)), hd_tag h).

Lemma Load_result w id : inv w -> 0 < id < 2 ^ 32 ->
  exists bi st', Load (w_store w) id =
      Done (from_option (fun f => trace_at f (GetInBlockIdx (id - 1))) ([], 0) (view (block_of w (GetBlockIdx (id - 1)))), st') /\
    changes (w_store w) (GetBlockIdx (id - 1)) bi st' /\ reforms (block_of w (GetBlockIdx (id - 1))) bi.
Proof.
  intros Hw Hid. pose proof (block_idx_range (id - 1) ltac:(lia)) as Hb.
  destruct (GetOrUnpack_result w (GetBlockIdx (id - 1)) Hw Hb) as (bi & st' & Hg & Hch & Hr). exists bi, st'.
  split; [|done]. unfold Load, IdToOffset. rewrite (proj2 (Z.eqb_neq id 0)) by lia. 
  rewrite (proj2 (check_done (negb false) _ tt)) by done. cbn [mret outcome_ret mbind outcome_bind].
  rewrite (proj2 (check_done _ _ tt)) by (apply Z.ltb_lt; lia). cbn [mbind outcome_bind]. rewrite Hg. cbn [mbind outcome_bind].
  by destruct (view _).
Qed.

Lemma trace_at_readable bi e total : entry_ok total e -> readable bi e ->
  exists f, view bi = Some f /\ trace_at f (GetInBlockIdx e.1) = e.2.
Proof.
  intros He (f & Hv & Hh & Hf). exists f. split; [done|]. unfold trace_at. rewrite Hh.
  pose proof (en_len _ _ He). pose proof (en_tag _ _ He). destruct e as [idx [fr tag]]. cbn [fst snd] in *. unfold trace_len in *. cbn [fst snd] in *.
  destruct (header_roundtrip (Z.of_nat (length fr)) tag) as [-> _]; [lia|lia|]. cbn [hd_size hd_tag]. f_equal.
  apply list_eq_same_length with (n := length fr); [done|rewrite length_map, zrange_length; lia|].
  intros i x y Hi. rewrite list_lookup_fmap. replace i with (Z.to_nat (Z.of_nat i)) at 1 by lia. rewrite zrange_lookup by lia.
  intros [= <-] Hy. rewrite Hf by lia. apply nth_lookup_Some. by rewrite Nat2Z.id.
Qed.

(** *** Writing *)

Lemma pend_middle b l1 t l2 : pend b (l1 ++ t :: l2) = amount b t + pend b (l1 ++ l2).
Proof. rewrite !pend_app. unfold pend at 2. cbn [foldr]. fold (pend b l2). lia. Qed.

Lemma elem_of_middle {A B} (g : A -> list B) l1 t l2 (e : B) :
  e ∈ concat (map g (l1 ++ t :: l2)) <-> e ∈ g t \/ e ∈ concat (map g (l1 ++ l2)).
Proof. rewrite !map_app, !concat_app. cbn [map concat]. rewrite !elem_of_app. tauto. Qed.

Lemma entries_middle st l1 t l2 log e :
  e ∈ entries (mkWorld st (l1 ++ t :: l2) log) <-> e ∈ task_entry t \/ e ∈ entries (mkWorld st (l1 ++ l2) log).
Proof. unfold entries. cbn [w_pending w_log]. rewrite !elem_of_app, elem_of_middle. tauto. Qed.

Lemma written_middle st l1 t l2 log e :
  e ∈ written (mkWorld st (l1 ++ t :: l2) log) <-> e ∈ task_written t \/ e ∈ written (mkWorld st (l1 ++ l2) log).
Proof. unfold written. cbn [w_pending w_log]. rewrite !elem_of_app, elem_of_middle. tauto. Qed.

Lemma Forall_middle {A} (Q : A -> Prop) l1 t l2 : Forall Q (l1 ++ t :: l2) <-> Q t /\ Forall Q (l1 ++ l2).
Proof. rewrite !list.Forall_app, list.Forall_cons. tauto. Qed.

(** A write leaves what is apart from it. *)
Lemma write_frames_other f off h frames j : ~ off <= j <= off + Z.of_nat (length frames) ->
  write_frames f off h frames j = f j.
Proof.
  intros Hj. unfold write_frames. destruct (Z.eqb_spec j off); [lia|].
  destruct (Z.ltb_spec off j), (Z.leb_spec j (off + Z.of_nat (length frames))); try done. lia.
Qed.

Lemma write_frames_frame f off h frames i : 0 <= i < Z.of_nat (length frames) ->
  write_frames f off h frames (off + 1 + i) = nth (Z.to_nat i) frames 0.
Proof.
  intros Hi. unfold write_frames. rewrite (proj2 (Z.eqb_neq _ _)), (proj2 (Z.ltb_lt _ _)), (proj2 (Z.leb_le _ _)) by lia.
  cbn [andb]. do 2 f_equal. lia.
Qed.

Lemma entries_apart_offsets total e1 e2 : entry_ok total e1 -> entry_ok total e2 -> GetBlockIdx e1.1 = GetBlockIdx e2.1 ->
  entries_apart e1 e2 -> GetInBlockIdx e1.1 + trace_len e1.2 < GetInBlockIdx e2.1 \/
                         GetInBlockIdx e2.1 + trace_len e2.2 < GetInBlockIdx e1.1.
Proof.
  intros _ _ Hb. pose proof block_size_range. unfold entries_apart, GetInBlockIdx, GetBlockIdx in *.
  assert (K <> 0) as HK by lia. pose proof (Z.div_mod e1.1 K HK). pose proof (Z.div_mod e2.1 K HK). rewrite Hb in *. lia.
Qed.

Lemma write_trace_result w idx tr st' : inv w -> (idx, tr) ∈ entries w ->
  write_trace (w_store w) idx (mkHeader (trace_len tr) tr.2) tr = Done st' ->
  exists f, let b := GetBlockIdx idx in
    data_ (block_of w b) = Some (Frames f) /\ frames_ok f /\
    let bi := mkBlock (Some (Frames (write_frames f (GetInBlockIdx idx) (ToUptr (mkHeader (trace_len tr) tr.2)) tr.1)))
                (stored_ (block_of w b)) (state (block_of w b)) in
    changes (w_store w) b bi st' /\ block_ok bi.
Proof.
  intros Hw He Hwt. destruct (iv_entry w Hw _ He) as [Hok _]. destruct (en_place _ _ Hok) as (H0 & H1 & H2).
  pose proof (en_len _ _ Hok) as H3. pose proof (en_tag _ _ Hok) as H4. pose proof (en_frames _ _ Hok) as H5. cbn [fst snd] in *.
  assert (0 <= GetBlockIdx idx < kBlockCount) as Hb by (split; [apply Z.div_pos; pose proof block_size_range; lia|done]).
  pose proof (iv_block w Hw _ Hb) as Hbok. unfold write_trace in Hwt. fold (block_of w (GetBlockIdx idx)) in Hwt.
  destruct (block_of w (GetBlockIdx idx)) as [[[f|]|] stored s] eqn:Ebi; try done. cbn [data_ stored_ state] in *.
  injection Hwt as <-. exists f. split; [done|]. assert (frames_ok f) as Hf by (destruct s; done). split; [done|].
  assert (firstn (Z.to_nat (trace_len tr)) tr.1 = tr.1) as -> by (apply firstn_all2; unfold trace_len; lia).
  split.
  - split; [done| |done]. cbn [set_block allocated_]. change (blocks_ (w_store w) (GetBlockIdx idx)) with (block_of w (GetBlockIdx idx)).
    rewrite Ebi. unfold block_bytes. cbn [data_]. lia.
  - assert (frames_ok (write_frames f (GetInBlockIdx idx) (ToUptr (mkHeader (trace_len tr) tr.2)) tr.1)) as Hf'; [|destruct s; done].
    intros j Hj. unfold write_frames. destruct (j =? GetInBlockIdx idx).
    + destruct (header_roundtrip (trace_len tr) tr.2) as [_ Hr]; [unfold trace_len in *; lia|done|done].
    + destruct (Z.ltb_spec (GetInBlockIdx idx) j), (Z.leb_spec j (GetInBlockIdx idx + Z.of_nat (length tr.1))); cbn [andb]; auto.
      destruct (nth_lookup_or_length tr.1 (Z.to_nat (j - GetInBlockIdx idx - 1)) 0) as [Hn|]; [|lia].
      exact (Forall_lookup_1 _ _ _ _ H5 Hn).
Qed.

Lemma inv_write w l1 idx tr l2 st' : inv w -> w_pending w = l1 ++ TWrite idx tr :: l2 ->
  write_trace (w_store w) idx (mkHeader (trace_len tr) tr.2) tr = Done st' ->
  inv (mkWorld st' (l1 ++ TMark (GetBlockIdx idx) (trace_len tr + 1) (Some (idx, tr)) :: l2) (w_log w)).
Proof.
  destruct w as [st p log]. cbn [w_pending w_log w_store]. intros Hw -> Hwt. set (w := mkWorld st _ log) in *.
  assert ((idx, tr) ∈ entries w) as He by (apply entries_middle; left; by left).
  destruct (write_trace_result w idx tr st' Hw He Hwt) as (f & Hd & Hf & Hch & Hok).
  destruct (iv_entry w Hw _ He) as [Heok _]. destruct (en_place _ _ Heok) as (H0 & H1 & H2). cbn [fst snd] in *.
  pose proof (en_len _ _ Heok) as Hlen. cbn [fst snd] in Hlen.
  pose proof block_size_range. assert (0 <= GetBlockIdx idx < kBlockCount) as Hb by (split; [apply Z.div_pos; lia|done]).
  pose proof (inv_stored w _ Hw Hb) as [? _]. 
  eapply (inv_block_change w (GetBlockIdx idx)); try done; cbn [w_pending w_log].
  - apply Forall_middle. pose proof (iv_tasks w Hw) as Ht. apply Forall_middle in Ht. done.
  - cbn [stored_]. split; [lia|]. change (w_pending w) with (l1 ++ TWrite idx tr :: l2). by rewrite !pend_middle.
  - intros b' Hne. unfold w. cbn [w_pending]. by rewrite !pend_middle.
  - intros e. unfold w. rewrite !entries_middle. done.
  - intros e. rewrite written_middle. cbn [task_written option_list]. rewrite list_elem_of_singleton.
    assert (readable (mkBlock (Some (Frames (write_frames f (GetInBlockIdx idx) (ToUptr (mkHeader (trace_len tr) tr.2)) tr.1)))
       (stored_ (block_of w (GetBlockIdx idx))) (state (block_of w (GetBlockIdx idx)))) (idx, tr)) as Hnew.
    { eexists. split; [done|]. cbn [fst snd]. split; [unfold write_frames; by rewrite Z.eqb_refl|].
      intros i Hi. by apply write_frames_frame. }
    intros [->|Hwr]; [cbn [fst]; by rewrite Z.eqb_refl|]. 
    assert (e ∈ written w) as Hwr' by (unfold w; rewrite written_middle; by right). destruct (Z.eqb_spec (GetBlockIdx e.1) (GetBlockIdx idx)) as [Hbe|]; [|done].
    destruct (iv_apart w Hw e (idx, tr)) as [->|Hap]; [by apply written_entries|done|done|].
    destruct (iv_entry w Hw e) as [Heok' _]; [by apply written_entries|].
    pose proof (entries_apart_offsets _ _ _ Heok' Heok Hbe Hap) as Hoff. cbn [fst snd] in Hoff.
    destruct (iv_written w Hw e Hwr') as (f0 & Hv & Hh & Hfr). rewrite Hbe in Hv. unfold view in Hv. rewrite Hd in Hv. injection Hv as <-.
    eexists. split; [done|]. unfold trace_len in *. split; [rewrite write_frames_other by lia; done|].
    intros i Hi. rewrite write_frames_other by lia. by apply Hfr.
Qed.

(** *** Counting *)

Lemma inv_mark w l1 b n d l2 c st' : inv w -> w_pending w = l1 ++ TMark b n d :: l2 -> Stored (w_store w) b n = Done (c, st') ->
  inv (mkWorld st' (l1 ++ l2) (option_list d ++ w_log w)).
Proof.
  destruct w as [st p log]. cbn [w_pending w_log w_store]. intros Hw -> Hs. set (w := mkWorld st _ log) in *.
  assert (0 <= b < kBlockCount) as Hb.
  { unfold Stored in Hs. inv_done. unfold in_array in *. inv_done. bool_hyps. lia. }
  pose proof (inv_stored w b Hw Hb) as [Hst Hp]. pose proof (iv_tasks w Hw) as Ht. unfold w in Hp, Ht. cbn [w_pending] in Hp, Ht.
  rewrite pend_middle in Hp. apply Forall_middle in Ht as [Hn Ht]. pose proof (pend_nonneg b _ Ht). specialize (Hn b).
  cbn [amount] in *. rewrite Z.eqb_refl in *. unfold block_of in *. cbn [w_store w] in *.
  destruct (Stored_result st b n) as (st1 & Hs1 & Hch); try lia. rewrite Hs1 in Hs. injection Hs as <- <-.
  assert (forall e, e ∈ entries (mkWorld st1 (l1 ++ l2) (option_list d ++ log)) <-> e ∈ entries w) as Hent.
  { intros e. unfold w. rewrite entries_middle. unfold entries. cbn [w_pending w_log task_entry]. rewrite !elem_of_app. tauto. }
  assert (forall e, e ∈ written (mkWorld st1 (l1 ++ l2) (option_list d ++ log)) <-> e ∈ written w) as Hwr.
  { intros e. unfold w. rewrite written_middle. unfold written. cbn [w_pending w_log task_written]. rewrite !elem_of_app. tauto. }
  eapply (inv_block_change w b); try done; cbn [w_pending w_log].
  - cbn [stored_]. change (w_pending w) with (l1 ++ TMark b n d :: l2). change (block_of w b) with (blocks_ st b). rewrite !pend_middle. cbn [amount]. rewrite Z.eqb_refl. lia.
  - intros b' Hne. unfold w. cbn [w_pending]. rewrite !pend_middle. cbn [amount]. rewrite (proj2 (Z.eqb_neq b b')) by done. lia.
  - intros e. apply Hent.
  - intros e He%Hwr. destruct (Z.eqb_spec (GetBlockIdx e.1) b) as [<-|]; [|done].
    destruct (iv_written w Hw e He) as (f & Hv & Hrest). exists f. split; [|done]. unfold view in *. cbn [data_]. done.
  - pose proof (iv_block w Hw b Hb) as Hok. unfold block_ok, block_of in *. cbn [w_store w state data_ stored_] in *.
    destruct (state (blocks_ st b)), (data_ (blocks_ st b)) as [[|]|]; try done. destruct Hok as (? & ?). split; [lia|done].
Qed.

(** *** Allocation *)

(** The counter moves by what new tasks account for. *)
Lemma inv_bump w count ts : inv w -> 0 <= count -> total_frames_ (w_store w) + count < 2 ^ 62 ->
  Forall (fun t => forall b, 0 <= amount b t) ts ->
  (forall b, 0 <= b < kBlockCount ->
     pend b ts = filled (total_frames_ (w_store w) + count) b - filled (total_frames_ (w_store w)) b) ->
  (forall e, e ∈ concat (map task_entry ts) -> entry_ok (total_frames_ (w_store w) + count) e /\
     total_frames_ (w_store w) <= e.1 /\ data_ (block_of w (GetBlockIdx e.1)) <> None) ->
  (forall e1 e2, e1 ∈ concat (map task_entry ts) -> e2 ∈ concat (map task_entry ts) -> e1 = e2) ->
  concat (map task_written ts) = [] ->
  inv (mkWorld (mkStore (total_frames_ (w_store w) + count) (allocated_ (w_store w)) (blocks_ (w_store w)))
    (ts ++ w_pending w) (w_log w)).
Proof.
  intros Hw Hc Hlt Hnn Hp Hnew Hone Hwr. set (w' := mkWorld _ _ _).
  assert (forall e, e ∈ entries w' <-> e ∈ concat (map task_entry ts) \/ e ∈ entries w) as Hent.
  { intros e. unfold entries. cbn [w' w_pending w_log]. rewrite map_app, concat_app, !elem_of_app. tauto. }
  assert (forall e, e ∈ written w' <-> e ∈ written w) as Hwr'.
  { intros e. unfold written. cbn [w' w_pending w_log]. by rewrite map_app, concat_app, Hwr. }
  assert (forall e, e ∈ entries w -> entry_ok (total_frames_ (w_store w)) e) as Hold by (intros e He; by apply (iv_entry w Hw)).
  pose proof (iv_total w Hw). split.
  - cbn. lia.
  - apply list.Forall_app. split; [done|apply (iv_tasks w Hw)].
  - intros b Hb. destruct (iv_count w Hw b Hb). split; [done|]. cbn [w' w_pending w_store total_frames_].
    rewrite pend_app, Hp by done. unfold block_of in *. cbn [w' w_store blocks_]. lia.
  - intros e [He|He]%Hent; [by destruct (Hnew e He) as (? & _ & ?)|]. destruct (iv_entry w Hw e He) as [[? ? ? ? ?] ?]. split; [|done].
    split; try done. cbn. lia.
  - intros e1 e2 [H1|H1]%Hent [H2|H2]%Hent.
    + left. by apply Hone.
    + right. right. destruct (Hnew e1 H1) as (_ & ? & _). pose proof (en_total _ _ (Hold e2 H2)). lia.
    + right. left. destruct (Hnew e2 H2) as (_ & ? & _). pose proof (en_total _ _ (Hold e1 H1)). lia.
    + by apply (iv_apart w Hw).
  - intros e He%Hwr'. by apply (iv_written w Hw).
  - apply (iv_block w Hw).
  - apply (iv_bytes w Hw).
Qed.

Lemma GetOrCreate_result w b total : inv w -> 0 <= b < kBlockCount ->
  exists bi st', GetOrCreate (mkStore total (allocated_ (w_store w)) (blocks_ (w_store w))) b =
      Done (mkStore total (allocated_ st') (blocks_ st')) /\
    changes (w_store w) b bi st' /\ reforms (block_of w b) bi /\ data_ bi <> None.
Proof.
  intros Hw Hb. pose proof (inv_bytes w Hw). pose proof geometry as (_ & _ & HKB). pose proof (iv_block w Hw b Hb) as Hok.
  unfold GetOrCreate. rewrite in_array_done by done. cbn [mbind outcome_bind blocks_]. unfold block_of in *.
  destruct (data_ (blocks_ (w_store w) b)) as [c|] eqn:Ed.
  - exists (blocks_ (w_store w) b), (w_store w). split; [done|]. split; [apply changes_none|].
    split; [by apply reforms_refl|by rewrite Ed].
  - exists (mkBlock (Some (Frames (fun _ => 0))) (stored_ (blocks_ (w_store w) b)) (state (blocks_ (w_store w) b))).
    exists (mkStore (total_frames_ (w_store w)) (allocated_ (w_store w) + kBlockSizeBytes)
      (fun x => if x =? b then mkBlock (Some (Frames (fun _ => 0))) (stored_ (blocks_ (w_store w) b)) (state (blocks_ (w_store w) b))
                else blocks_ (w_store w) x)).
    split; [|split; [|split; [|done]]].
    + unfold Map, set_block. cbn [allocated_ total_frames_ blocks_]. by rewrite u64_small by lia.
    + split; [done| |done]. cbn [allocated_]. unfold block_bytes. rewrite Ed. cbn [data_]. lia.
    + split; try done.
      * intros f Hv. unfold view in Hv. by rewrite Ed in Hv.
      * unfold block_ok in *. rewrite Ed in Hok. cbn [data_ state]. 
        destruct (state _); try done; intros j Hj; done.
Qed.

(** How the counts of the blocks move. *)
Lemma filled_within total count b : 0 <= total -> 0 < count -> GetBlockIdx total = GetBlockIdx (total + count - 1) -> 
  filled (total + count) b - filled total b = if GetBlockIdx total =? b then count else 0.
Proof.
  intros Ht Hc Hsame. pose proof block_size_range. unfold GetBlockIdx in *. assert (0 < K) as HK by lia. assert (K <> 0) as HK0 by lia.
  pose proof (Z.div_mod total K HK0). pose proof (Z.mod_pos_bound total K HK).
  pose proof (Z.div_mod (total + count - 1) K HK0). pose proof (Z.mod_pos_bound (total + count - 1) K HK).
  unfold filled. rewrite <- Hsame in *. remember (total / K) as q. destruct (Z.eqb_spec q b) as [<-|Hne]; [lia|].
  assert (q + 1 <= b \/ b + 1 <= q) as [Hlt|Hlt] by lia; apply (Z.mul_le_mono_nonneg_r _ _ K) in Hlt; lia.
Qed.

Lemma filled_across total count b : 0 <= total -> 0 < count <= K -> GetBlockIdx total <> GetBlockIdx (total + count - 1) ->
  let first := K - GetInBlockIdx total in
  GetBlockIdx (total + count - 1) = GetBlockIdx total + 1 /\ 0 < first < count /\
  filled (total + count) b - filled total b =
    (if GetBlockIdx total =? b then first else 0) + (if GetBlockIdx (total + count - 1) =? b then count - first else 0).
Proof.
  intros Ht Hc Hdiff first. pose proof block_size_range. unfold GetBlockIdx, GetInBlockIdx in *. assert (0 < K) as HK by lia. assert (K <> 0) as HK0 by lia.
  pose proof (Z.div_mod total K HK0). pose proof (Z.mod_pos_bound total K HK).
  pose proof (Z.div_mod (total + count - 1) K HK0). pose proof (Z.mod_pos_bound (total + count - 1) K HK).
  remember (total / K) as q. remember ((total + count - 1) / K) as q'.
  assert (q' = q + 1) as -> by nia. split; [done|]. unfold first. split; [lia|]. unfold filled.
  destruct (Z.eqb_spec q b) as [<-|Hne]; [rewrite (proj2 (Z.eqb_neq (q + 1) q)) by lia; lia|].
  destruct (Z.eqb_spec (q + 1) b) as [<-|Hne']; [lia|].
  assert (q + 2 <= b \/ b + 1 <= q) as [Hlt|Hlt] by lia; apply (Z.mul_le_mono_nonneg_r _ _ K) in Hlt; lia.
Qed.

Lemma header_of_trace_spec trace h : header_of_trace trace = Done h ->
  hd_size h = Z.min (trace_len trace) 255 /\ hd_tag h = trace.2 /\ 0 <= trace.2 < 256 /\
  trace_len (trim h trace) = hd_size h /\ 0 <= hd_size h < 256.
Proof.
  unfold header_of_trace. intros Hh. inv_done. bool_hyps. cbn [hd_size hd_tag].
  assert (u8 trace.2 = trace.2) as E by congruence. pose proof (Z.mod_pos_bound trace.2 (2 ^ 8) ltac:(lia)).
  unfold u8, trim, trace_len in *. cbn [fst snd hd_size hd_tag]. rewrite length_firstn. lia.
Qed.

Lemma Alloc_turn_cases st count t st' : 0 <= total_frames_ st -> 0 < count -> total_frames_ st + count < 2 ^ 62 ->
  Alloc_turn st count = Done (t, st') ->
  let bumped := mkStore (total_frames_ st + count) (allocated_ st) (blocks_ st) in
  let first := GetBlockIdx (total_frames_ st) in
  let last_ := GetBlockIdx (total_frames_ st + count - 1) in
  (first = last_ /\ kBlockCount <= first /\ t = NoSpace /\ st' = bumped) \/
  (first = last_ /\ first < kBlockCount /\ t = At (total_frames_ st) /\ GetOrCreate bumped first = Done st') \/
  (first <> last_ /\ count <= K /\ st' = bumped /\
   t = Retry first (K - GetInBlockIdx (total_frames_ st)) last_ (count - (K - GetInBlockIdx (total_frames_ st)))).
Proof.
  intros Ht Hc Hlt. unfold Alloc_turn. rewrite (u64_small (total_frames_ st + count)), u64_small by lia.
  intros E. destruct (Z.eqb_spec (GetBlockIdx (total_frames_ st)) (GetBlockIdx (total_frames_ st + count - 1))).
  - destruct (Z.leb_spec kBlockCount (GetBlockIdx (total_frames_ st))); inv_done; [by left|right; left]. done.
  - inv_done. bool_hyps. right. right. done.
Qed.

Lemma inv_alloc w trace h t st' : inv w -> Forall (fun v => 0 <= v < 2 ^ 64) trace.1 ->
  header_of_trace trace = Done h -> total_frames_ (w_store w) + 2 ^ 8 < 2 ^ 62 ->
  Alloc_turn (w_store w) (hd_size h + 1) = Done (t, st') ->
  inv (mkWorld st' (tasks_of t (trim h trace) ++ w_pending w) (w_log w)).
Proof.
  intros Hw Hfr Hh Hlt Ha. destruct (header_of_trace_spec trace h Hh) as (_ & Htag & Htr & Hlen & Hs).
  pose proof (iv_total w Hw) as Htot. remember (total_frames_ (w_store w)) as total eqn:Etot. pose proof block_size_range as HK.
  assert (0 < hd_size h + 1) as Hc by lia. assert (total + (hd_size h + 1) < 2 ^ 62) as Hlt' by lia.
  destruct (Alloc_turn_cases (w_store w) _ _ _ ltac:(rewrite <- Etot; lia) Hc ltac:(by rewrite <- Etot) Ha)
    as [(Hsame & Hno & -> & ->)|[(Hsame & Hin & -> & Hg)|(Hdiff & Hle & -> & ->)]]; rewrite <- ?Etot in *; cbn [tasks_of app].
  - pose proof (inv_bump w (hd_size h + 1) []) as Hb1. rewrite <- Etot in Hb1. apply Hb1; try done; try (cbn; intros ? ?%not_elem_of_nil; done);
      try (cbn; intros ? ? ?%not_elem_of_nil; done); try lia.
    intros b Hb. rewrite filled_within by (lia || done). cbn. destruct (Z.eqb_spec (GetBlockIdx total) b); lia.
  - assert (0 <= GetBlockIdx total < kBlockCount) as Hb by (split; [apply Z.div_pos; lia|done]).
    destruct (GetOrCreate_result w (GetBlockIdx total) (total + (hd_size h + 1)) Hw Hb) as (bi & st1 & Hg' & Hch & Hr & Hd).
    rewrite Hg' in Hg. injection Hg as <-. pose proof (inv_reform w _ bi st1 Hw Hb Hch Hr) as Hw1.
    pose proof (ch_total _ _ _ _ Hch) as Ht1. rewrite <- Etot in Ht1.
    assert (entry_ok (total + (hd_size h + 1)) (total, trim h trace)) as Hok.
    { split; cbn [fst snd]; rewrite ?Hlen; try lia.
      - split; [lia|]. split; [|done]. unfold GetInBlockIdx. unfold GetBlockIdx in Hsame. assert (K <> 0) as HK0 by lia.
        pose proof (Z.div_mod total K HK0). pose proof (Z.div_mod (total + (hd_size h + 1) - 1) K HK0) as Hdm.
        assert (0 < K) as HKp by lia. pose proof (Z.mod_pos_bound (total + (hd_size h + 1) - 1) K HKp). rewrite <- Hsame in Hdm. lia.
      - cbn. lia.
      - cbn. by apply Forall_take. }
    pose proof (inv_bump (mkWorld st1 (w_pending w) (w_log w)) (hd_size h + 1) [TWrite total (trim h trace)] Hw1) as Hb1.
    cbn [w_store w_pending w_log] in Hb1. rewrite Ht1 in Hb1. apply Hb1; try done; try lia; clear Hb1.
    + constructor; [|done]. intros b'. cbn [amount]. destruct (_ =? _); lia.
    + intros b' Hb'. rewrite filled_within by (lia || done). cbn [pend foldr amount]. rewrite Hlen. lia.
    + intros e He. cbn in He. apply list_elem_of_singleton in He as ->. cbn [fst]. split; [done|]. split; [lia|].
      unfold block_of. cbn [w_store]. by rewrite (ch_block _ _ _ _ Hch), Z.eqb_refl.
    + intros e1 e2 He1 He2. cbn in He1, He2. apply list_elem_of_singleton in He1 as ->. by apply list_elem_of_singleton in He2 as ->.
  - assert (0 < hd_size h + 1 <= K) as Hck by lia.
    pose proof (inv_bump w (hd_size h + 1) (tasks_of (Retry (GetBlockIdx total) (K - GetInBlockIdx total)
      (GetBlockIdx (total + (hd_size h + 1) - 1)) (hd_size h + 1 - (K - GetInBlockIdx total))) (trim h trace))) as Hb1.
    rewrite <- Etot in Hb1. apply Hb1; try done; try lia.
    + pose proof (filled_across total (hd_size h + 1) 0 (proj1 Htot) Hck Hdiff) as (_ & ? & _).
      constructor; [|constructor; [|done]]; intros b'; cbn [amount]; destruct (_ =? _); lia.
    + intros b Hb. pose proof (filled_across total (hd_size h + 1) b (proj1 Htot) Hck Hdiff) as (_ & _ & ->).
      unfold pend. cbn [tasks_of foldr amount]. lia.
    + cbn. by intros ? ?%not_elem_of_nil.
    + cbn. by intros ? ? ?%not_elem_of_nil.
Qed.

Lemma store_step_inv w w' : inv w -> step w w' -> inv w'.
Proof.
  intros Hw Hs. destruct Hs as [w trace h t st' _ Hfr Hh Hlt Ha|w l1 idx tr l2 st' Hp Hwt|w l1 b n d l2 c st' Hp Hst
    |w type b n st' Hb Hp|w id tr st' Hid Hl].
  - by eapply inv_alloc.
  - by apply inv_write.
  - by eapply inv_mark.
  - destruct (block_Pack_result w type b Hw Hb) as (n' & bi & st1 & E & Hch & Hr & _). rewrite E in Hp. injection Hp as <- <-.
    by apply (inv_reform w b bi).
  - destruct (decide (id = 0)) as [->|Hne]; [by injection Hl as <- <-; destruct w|].
    destruct (Load_result w id Hw ltac:(lia)) as (bi & st1 & E & Hch & Hr). rewrite E in Hl. injection Hl as <- <-.
    eapply inv_reform; try done. by apply block_idx_range; lia.
Qed.

Lemma steps_inv_from w0 w : rtc step w0 w -> inv w0 -> inv w.
Proof. intros Hs. induction Hs as [|w0 w1 w2 H01 _ IH]; [done|]. intros H0. apply IH. by eapply store_step_inv. Qed.

Lemma steps_inv w : rtc step world0 w -> inv w.
Proof. intros Hs. exact (steps_inv_from _ _ Hs inv_init). Qed.

(** The log of stored traces only grows. *)
Lemma steps_log w0 w e : rtc step w0 w -> e ∈ w_log w0 -> e ∈ w_log w.
Proof.
  intros Hs. induction Hs as [|w0 w1 w2 H01 _ IH]; [done|]. intros He. apply IH. destruct H01; cbn [w_log]; try done.
  apply elem_of_app. by right.
Qed.

(** *** Every task can be done *)

Lemma alloc_turn_done w count : inv w -> 0 < count <= K -> total_frames_ (w_store w) + count <= 2 ^ 32 ->
  exists t st', Alloc_turn (w_store w) count = Done (t, st').
Proof.
  intros Hw Hc Hlt. pose proof (iv_total w Hw) as Ht. unfold Alloc_turn.
  rewrite (u64_small (total_frames_ (w_store w) + count)), u64_small by lia.
  destruct (GetBlockIdx _ =? GetBlockIdx _).
  - destruct (kBlockCount <=? _); [by eexists _, _|].
    assert (0 <= GetBlockIdx (total_frames_ (w_store w)) < kBlockCount) as Hb by (apply block_idx_range; lia).
    destruct (GetOrCreate_result w _ (total_frames_ (w_store w) + count) Hw Hb) as (bi & st' & -> & _). by eexists _, _.
  - rewrite (proj2 (check_done _ _ tt)) by (apply Z.leb_le; lia). by eexists _, _.
Qed.

Lemma write_done w l1 idx tr l2 : inv w -> w_pending w = l1 ++ TWrite idx tr :: l2 ->
  exists st', write_trace (w_store w) idx (mkHeader (trace_len tr) tr.2) tr = Done st'.
Proof.
  intros Hw Hp. assert ((idx, tr) ∈ entries w) as He.
  { destruct w. cbn [w_pending] in Hp. subst. apply entries_middle. left. by left. }
  destruct (iv_entry w Hw _ He) as [Hok Hd]. destruct (en_place _ _ Hok) as (H0 & H1 & H2). cbn [fst snd] in *.
  assert (0 <= GetBlockIdx idx < kBlockCount) as Hb by (split; [apply Z.div_pos; pose proof block_size_range; lia|done]).
  pose proof (iv_block w Hw _ Hb) as Hbok. pose proof (inv_stored w _ Hw Hb) as [_ Hpend]. pose proof (iv_tasks w Hw) as Ht.
  rewrite Hp in *. rewrite pend_middle in Hpend. cbn [amount] in Hpend. rewrite Z.eqb_refl in Hpend.
  apply Forall_middle in Ht as [_ Ht]. pose proof (pend_nonneg (GetBlockIdx idx) _ Ht).
  unfold write_trace. fold (block_of w (GetBlockIdx idx)). unfold block_ok in Hbok.
  destruct (data_ (block_of w (GetBlockIdx idx))) as [[f|type data]|]; [by eexists| |done].
  destruct (state (block_of w (GetBlockIdx idx))); try done. destruct Hbok as (HK & _). unfold trace_len in *. lia.
Qed.

Lemma mark_done w l1 b n d l2 : inv w -> w_pending w = l1 ++ TMark b n d :: l2 -> 0 <= b < kBlockCount ->
  exists c st', Stored (w_store w) b n = Done (c, st').
Proof.
  intros Hw Hp Hb. pose proof (inv_stored w _ Hw Hb) as [Hs Hpend]. pose proof (iv_tasks w Hw) as Ht.
  rewrite Hp in *. rewrite pend_middle in Hpend. cbn [amount] in Hpend. rewrite Z.eqb_refl in Hpend.
  apply Forall_middle in Ht as [Hn Ht]. specialize (Hn b). cbn [amount] in Hn. rewrite Z.eqb_refl in Hn.
  pose proof (pend_nonneg b _ Ht). unfold block_of in *.
  destruct (Stored_result (w_store w) b n) as (st' & -> & _); try lia. by eexists _, _.
Qed.

(** *** [Store], run by one thread while others wait *)

Definition storable (trace : StackTrace) : Prop :=
  ~ (trace_len trace = 0 /\ trace.2 = 0) /\ Forall (fun v => 0 <= v < 2 ^ 64) trace.1 /\ 0 <= trace.2 < 256.

Lemma storable_header trace : storable trace -> exists h, header_of_trace trace = Done h.
Proof.
  intros (_ & _ & Ht). unfold header_of_trace. rewrite (proj2 (check_done _ _ tt)); [by eexists|].
  apply Z.eqb_eq. symmetry. by apply Z.mod_small.
Qed.

(** After the place is given: the writing and the counting. *)
Lemma finish_store w idx trace h : inv w -> header_of_trace trace = Done h -> 
  w_pending w = TWrite idx (trim h trace) :: tail (w_pending w) ->
  exists c st1 st', write_trace (w_store w) idx h trace = Done st1 /\
    Stored st1 (GetBlockIdx idx) (hd_size h + 1) = Done (c, st') /\
    rtc step w (mkWorld st' (tail (w_pending w)) ((idx, trim h trace) :: w_log w)).
Proof.
  intros Hw Hh Hp. destruct (header_of_trace_spec trace h Hh) as (Hsz & Htag & _ & Hlen & Hr).
  destruct (write_done w [] idx _ _ Hw Hp) as (st1 & Hwt). rewrite Hlen in Hwt.
  change ((trim h trace).2) with (hd_tag h) in Hwt.
  assert (write_trace (w_store w) idx (mkHeader (hd_size h) (hd_tag h)) (trim h trace) = write_trace (w_store w) idx h trace) as E.
  { unfold write_trace, trim. cbn [fst hd_size]. destruct (data_ _) as [[|]|]; try done.
    rewrite (firstn_firstn trace.1), Nat.min_id. by destruct h. }
  set (w1 := mkWorld st1 ([] ++ TMark (GetBlockIdx idx) (trace_len (trim h trace) + 1) (Some (idx, trim h trace)) :: tail (w_pending w)) (w_log w)).
  assert (step w w1) as Hs1 by (apply (step_write w [] idx (trim h trace) _ st1 Hp); by rewrite Hlen).
  pose proof (store_step_inv _ _ Hw Hs1) as Hw1.
  assert (0 <= GetBlockIdx idx < kBlockCount) as Hb.
  { assert ((idx, trim h trace) ∈ entries w) as He by (unfold entries; rewrite Hp; apply elem_of_app; left; by left).
    destruct (iv_entry w Hw _ He) as [Hok _]. destruct (en_place _ _ Hok) as (H0 & _ & H2). cbn [fst] in *.
    pose proof block_size_range. split; [apply Z.div_pos; lia|done]. }
  destruct (mark_done w1 [] _ _ _ _ Hw1 eq_refl Hb) as (c & st' & Hst). rewrite Hlen in Hst.
  exists c, st1, st'. split; [by rewrite <- E|]. split; [done|]. eapply rtc_l; [done|]. apply rtc_once.
  apply (step_mark w1 [] (GetBlockIdx idx) (trace_len (trim h trace) + 1) (Some (idx, trim h trace)) _ c st' eq_refl).
  by rewrite Hlen.
Qed.

Lemma Stored_total st b n c st' : Stored st b n = Done (c, st') -> total_frames_ st' = total_frames_ st.
Proof. unfold Stored. intros E. by inv_done. Qed.

(** A thread whose trace fits the block. *)
Lemma store_at w trace h : let total := total_frames_ (w_store w) in
  inv w -> storable trace -> header_of_trace trace = Done h -> total + (hd_size h + 1) <= 2 ^ 32 ->
  GetBlockIdx total = GetBlockIdx (total + (hd_size h + 1) - 1) ->
  exists st1 st2 c st', Alloc_turn (w_store w) (hd_size h + 1) = Done (At total, st1) /\
    write_trace st1 total h trace = Done st2 /\ Stored st2 (GetBlockIdx total) (hd_size h + 1) = Done (c, st') /\
    rtc step w (mkWorld st' (w_pending w) ((total, trim h trace) :: w_log w)).
Proof.
  intros total Hw (Hne & Hfr & Htag) Hh Hlt Hsame. destruct (header_of_trace_spec trace h Hh) as (_ & _ & _ & Hlen & Hr).
  pose proof (iv_total w Hw) as Ht. pose proof block_size_range. fold total in Ht.
  destruct (alloc_turn_done w (hd_size h + 1) Hw) as (t & st1 & Ha); [lia|done|].
  destruct (Alloc_turn_cases (w_store w) (hd_size h + 1) t st1 (proj1 Ht) ltac:(lia) ltac:(fold total; lia) Ha)
    as [(_ & Hno & _)|[(_ & _ & -> & _)|(Hdiff & _)]]; [|fold total in Ha|done].
  { pose proof (block_idx_range total ltac:(lia)). fold total in Hno. lia. }
  set (w1 := mkWorld st1 (tasks_of (At total) (trim h trace) ++ w_pending w) (w_log w)).
  assert (step w w1) as Hs1 by (apply (step_alloc w trace h (At total) st1); try done; fold total; lia).
  destruct (finish_store w1 total trace h (store_step_inv _ _ Hw Hs1) Hh eq_refl) as (c & st2 & st' & Hwt & Hst & Hs).
  exists st1, st2, c, st'. split; [done|]. split; [done|]. split; [done|]. by eapply rtc_l.
Qed.

(** With room for two turns, a trace is stored. *)
Lemma Store_runs w trace : inv w -> storable trace -> total_frames_ (w_store w) + 2 ^ 9 <= 2 ^ 32 ->
  exists h idx pack st', header_of_trace trace = Done h /\ Store (w_store w) trace = Done (OffsetToId idx, pack, st') /\
    0 <= idx < 2 ^ 32 - 2 ^ 8 + 1 /\ rtc step w (mkWorld st' (w_pending w) ((idx, trim h trace) :: w_log w)).
Proof.
  intros Hw Hok Hlt. destruct (storable_header trace Hok) as (h & Hh). exists h. pose proof Hok as (Hne & Hfr & Htag).
  destruct (header_of_trace_spec trace h Hh) as (Hsz & _ & _ & Hlen & Hr). pose proof (iv_total w Hw) as Ht.
  pose proof block_size_range as HK. set (n := hd_size h + 1). assert (0 < n <= 2 ^ 8) as Hn by lia.
  unfold Store. replace ((Z.of_nat (length trace.1) =? 0) && (trace.2 =? 0)) with false
    by (symmetry; apply andb_false_iff; unfold trace_len in Hne; rewrite !Z.eqb_neq; lia).
  rewrite Hh. cbn [mbind outcome_bind Alloc]. fold n.
  destruct (decide (GetBlockIdx (total_frames_ (w_store w)) = GetBlockIdx (total_frames_ (w_store w) + n - 1))) as [Hsame|Hdiff].
  { destruct (store_at w trace h Hw Hok Hh ltac:(fold n; lia) Hsame) as (st1 & st2 & c & st' & Ha & Hwt & Hst & Hs).
    fold n in Ha, Hst. rewrite Ha. cbn [mbind outcome_bind mret outcome_ret]. rewrite Hwt. cbn [mbind outcome_bind].
    rewrite Hst. eexists _, _, st'. split; [done|]. split; [done|]. split; [lia|done]. }
  destruct (alloc_turn_done w n Hw) as (t & st1 & Ha); [lia|lia|]. rewrite Ha.
  destruct (Alloc_turn_cases (w_store w) n t st1 (proj1 Ht) (proj1 Hn) ltac:(lia) Ha) as [(? & _)|[(? & _)|(_ & _ & -> & ->)]]; [done|done|].
  destruct (filled_across (total_frames_ (w_store w)) n 0 (proj1 Ht) ltac:(lia) Hdiff) as (Hlast & Hfirst & _).
  set (total := total_frames_ (w_store w)) in *. set (f := K - GetInBlockIdx total) in *. cbn [mbind outcome_bind].
  set (w1 := mkWorld (mkStore (total + n) (allocated_ (w_store w)) (blocks_ (w_store w)))
    (tasks_of (Retry (GetBlockIdx total) f (GetBlockIdx (total + n - 1)) (n - f)) (trim h trace) ++ w_pending w) (w_log w)).
  assert (step w w1) as Hs1 by (apply (step_alloc w trace h); try done; fold total; lia).
  pose proof (store_step_inv _ _ Hw Hs1) as Hw1.
  destruct (mark_done w1 [] _ _ _ _ Hw1 eq_refl (block_idx_range total ltac:(lia))) as (c1 & st2 & Hst1).
  change (w_store w1) with (mkStore (total + n) (allocated_ (w_store w)) (blocks_ (w_store w))) in Hst1. rewrite Hst1.
  cbn [mbind outcome_bind].
  pose proof (step_mark w1 [] _ _ None _ c1 st2 eq_refl Hst1) as Hs2. pose proof (store_step_inv _ _ Hw1 Hs2) as Hw2.
  set (w2 := mkWorld st2 _ _) in Hs2, Hw2.
  destruct (mark_done w2 [] _ _ _ _ Hw2 eq_refl (block_idx_range (total + n - 1) ltac:(lia))) as (c2 & st3 & Hst2).
  change (w_store w2) with st2 in Hst2. rewrite Hst2. cbn [mbind outcome_bind].
  pose proof (step_mark w2 [] _ _ None _ c2 st3 eq_refl Hst2) as Hs3. pose proof (store_step_inv _ _ Hw2 Hs3) as Hw3.
  set (w3 := mkWorld st3 _ _) in Hs3, Hw3. 
  assert (total_frames_ st3 = total + n) as Htot.
  { rewrite (Stored_total _ _ _ _ _ Hst2). by rewrite (Stored_total _ _ _ _ _ Hst1). }
  assert (GetBlockIdx (total + n) = GetBlockIdx (total + n + n - 1)) as Hsame.
  { unfold GetBlockIdx, GetInBlockIdx in *. assert (0 < K) as HKp by lia. assert (K <> 0) as HK0 by lia.
    pose proof (Z.div_mod total K HK0). pose proof (Z.mod_pos_bound total K HKp).
    rewrite <- (Z.div_unique (total + n) K (total / K + 1) (total mod K + n - K)) by lia.
    apply (Z.div_unique _ K (total / K + 1) (total mod K + n + n - 1 - K)); lia. }
  destruct (store_at w3 trace h Hw3 Hok Hh) as (st4 & st5 & c3 & st' & Ha3 & Hwt3 & Hst3 & Hs4);
    cbn [w3 w_store]; rewrite ?Htot; fold n; [lia|done|].
  fold n in Ha3, Hst3. cbn [w3 w_store w_pending w_log] in Ha3, Hwt3, Hst3, Hs4. rewrite Htot in *.
  rewrite Ha3. cbn [mbind outcome_bind mret outcome_ret]. rewrite Hwt3. cbn [mbind outcome_bind].
  rewrite Hst3. eexists _, _, st'. split; [done|]. split; [done|]. split; [lia|].
  eapply rtc_l; [exact Hs1|]. eapply rtc_l; [exact Hs2|]. eapply rtc_l; [exact Hs3|]. exact Hs4.
Qed.

(** ** What the store promises *)

(** What [Load] gives for a trace that was stored. *)
Lemma Load_stored w idx tr : inv w -> (idx, tr) ∈ w_log w -> idx < 2 ^ 32 - 1 ->
  exists st', Load (w_store w) (OffsetToId idx) = Done (tr, st').
Proof.
  intros Hw He Hlt. assert ((idx, tr) ∈ written w) as Hwr by (unfold written; apply elem_of_app; by right).
  destruct (iv_entry w Hw _ (written_entries w _ Hwr)) as [Hok _]. destruct (en_place _ _ Hok) as (H0 & _). cbn [fst snd] in *.
  unfold OffsetToId. rewrite u32_small by lia. destruct (Load_result w (idx + 1) Hw ltac:(lia)) as (bi & st' & -> & _).
  exists st'. rewrite Z.add_simpl_r. destruct (trace_at_readable _ _ _ Hok (iv_written w Hw _ Hwr)) as (f & Hv & Ht).
  cbn [fst snd] in *. rewrite Hv. cbn [from_option]. by rewrite Ht.
Qed.

(** [Pack]: what it releases. *)
Lemma pack_blocks_spec type bs w res : inv w -> (forall b, b ∈ bs -> 0 <= b < kBlockCount) ->
  0 <= res -> res + Z.of_nat (length bs) * kBlockSizeBytes < 2 ^ 64 ->
  exists n st', pack_blocks type bs (w_store w) res = Done (n, st') /\
    rtc step w (mkWorld st' (w_pending w) (w_log w)) /\ n - res = allocated_ (w_store w) - allocated_ st' /\ res <= n.
Proof.
  revert w res. induction bs as [|b bs IH]; intros w res Hw Hbs Hr Hlt.
  { exists res, (w_store w). split; [done|]. split; [destruct w; apply rtc_refl|]. lia. }
  pose proof geometry as (_ & _ & HKB). cbn [pack_blocks length] in *. assert (0 <= b < kBlockCount) as Hb by (apply Hbs; by left).
  destruct (block_Pack_result w type b Hw Hb) as (n & bi & st1 & E & Hch & Href & Hn & Hn').
  rewrite E. cbn [mbind outcome_bind]. rewrite u64_small by lia.
  destruct (IH (mkWorld st1 (w_pending w) (w_log w)) (res + n)) as (n2 & st2 & E2 & Hs2 & Hn2 & Hle);
    [by apply (inv_reform w b bi)|intros b' Hb'; apply Hbs; by right|lia|lia|].
  cbn [w_store w_pending w_log] in *. exists n2, st2. split; [done|]. split; [|lia].
  eapply rtc_l; [|done]. by apply (step_pack w type b n).
Qed.

Lemma Pack_spec w type : inv w -> exists n st', Pack type (w_store w) = Done (n, st') /\
  rtc step w (mkWorld st' (w_pending w) (w_log w)) /\ n = allocated_ (w_store w) - allocated_ st' /\ 0 <= n.
Proof.
  intros Hw. pose proof geometry as (? & ? & ?). destruct (pack_blocks_spec type (zrange kBlockCount) w 0 Hw) as (n & st' & ? & ? & ? & ?).
  - by intros b Hb%elem_of_zrange.
  - done.
  - rewrite zrange_length, Z2Nat.id; lia.
  - exists n, st'. repeat split; try done; lia.
Qed.

(** A trace across the end of the last block. *)
Lemma alloc_past_the_end w trace h : inv w -> storable trace -> header_of_trace trace = Done h ->
  total_frames_ (w_store w) < 2 ^ 32 < total_frames_ (w_store w) + (hd_size h + 1) ->
  Store (w_store w) trace = Died "blocks_[]".
Proof.
  intros Hw Hok Hh Hlt. pose proof Hok as (Hne & Hfr & Htag).
  destruct (header_of_trace_spec trace h Hh) as (_ & _ & _ & Hlen & Hr). pose proof (iv_total w Hw) as Ht.
  pose proof block_size_range as HK. pose proof ids_fit. set (n := hd_size h + 1) in *. assert (0 < n <= 2 ^ 8) as Hn by lia.
  unfold Store. replace ((Z.of_nat (length trace.1) =? 0) && (trace.2 =? 0)) with false
    by (symmetry; apply andb_false_iff; unfold trace_len in Hne; rewrite !Z.eqb_neq; lia).
  rewrite Hh. cbn [mbind outcome_bind Alloc]. fold n. set (total := total_frames_ (w_store w)) in *.
  pose proof (block_idx_range total ltac:(lia)) as Hb.
  assert (GetBlockIdx (total + n - 1) = kBlockCount) as Hlast.
  { symmetry. apply (Z.div_unique _ K kBlockCount (total + n - 1 - 2 ^ 32)); lia. }
  assert (GetBlockIdx total <> GetBlockIdx (total + n - 1)) as Hdiff by lia.
  destruct (filled_across total n 0 ltac:(lia) ltac:(lia) Hdiff) as (_ & Hfirst & _).
  unfold Alloc_turn. fold total. rewrite (u64_small (total + n)), u64_small by lia.
  rewrite (proj2 (Z.eqb_neq _ _) Hdiff), (proj2 (check_done _ _ tt)) by (apply Z.leb_le; lia). cbn [mbind outcome_bind mret outcome_ret].
  destruct (inv_stored w _ Hw Hb) as [Hst _]. destruct (iv_count w Hw _ Hb) as [_ Hcount].
  pose proof (pend_nonneg (GetBlockIdx total) _ (iv_tasks w Hw)). fold total in Hcount. unfold block_of in *.
  assert (filled total (GetBlockIdx total) <= GetInBlockIdx total) as Hfill.
  { unfold filled, GetBlockIdx, GetInBlockIdx. assert (K <> 0) as HK0 by lia. assert (0 < K) as HKp by lia.
    pose proof (Z.div_mod total K HK0). pose proof (Z.mod_pos_bound total K HKp). lia. }
  destruct (Stored_result (mkStore (total + n) (allocated_ (w_store w)) (blocks_ (w_store w))) (GetBlockIdx total)
    (K - GetInBlockIdx total)) as (st' & -> & _); cbn [blocks_]; [done|lia|lia|lia|].
  cbn [mbind outcome_bind]. unfold Stored. unfold in_array. rewrite Hlast, Z.ltb_irrefl, andb_false_r. done.
Qed.

End store.

(** ** Properties *)

(** The constants of the source, and pages of 4 KiB. *)
#[export] Instance code_params : StackStoreParams :=
  {| kBlockSizeFrames := 0x100000; kBlockCount := 0x1000; page_log := 12 |}.

#[export] Instance code_params_ok : StackStoreOk code_params.
Proof. split; cbn [kBlockSizeFrames kBlockCount page_log]; [done|done|done|]. by exists 2048. Qed.

Section properties.
Context `{!StackStoreParams, !StackStoreOk _}.

(** C20: A trace that is stored is what is loaded with its id -- its first 255 frames,
    and its tag -- in every later state of the store: whatever other threads are in
    the middle of, and however storing, packing and loading go on. *)
Theorem stored_traces_are_loaded w trace :
  rtc step world0 w -> storable trace -> total_frames_ (w_store w) + 2 ^ 9 <= 2 ^ 32 ->
  exists id pack w1, Store (w_store w) trace = Done (id, pack, w_store w1) /\ id <> 0 /\
    rtc step w w1 /\ w_pending w1 = w_pending w /\
    forall w', rtc step w1 w' -> exists st', Load (w_store w') id = Done ((firstn 255 trace.1, trace.2), st').
Proof.
  intros Hs Hok Hlt. pose proof (steps_inv w Hs) as Hw.
  destruct (Store_runs w trace Hw Hok Hlt) as (h & idx & pack & st' & Hh & Hst & Hidx & Hs').
  destruct (header_of_trace_spec trace h Hh) as (Hsz & Htag & _).
  exists (OffsetToId idx), pack, (mkWorld st' (w_pending w) ((idx, trim h trace) :: w_log w)).
  split; [done|]. split; [unfold OffsetToId; rewrite u32_small; lia|]. split; [done|]. split; [done|].
  intros w' Hs2. destruct (Load_stored w' idx (trim h trace)) as (st2 & ->).
  - apply steps_inv. by do 2 (etrans; [eassumption|]).
  - eapply steps_log; [done|]. by left.
  - lia.
  - exists st2. do 2 f_equal. unfold trim. rewrite Htag, Hsz. unfold trace_len. f_equal.
    destruct (Z.leb_spec (Z.of_nat (length trace.1)) 255); [|f_equal; lia]. rewrite !firstn_all2 by lia. done.
Qed.

(** The traces that threads stored one step at a time, in any order of the steps:
    each is loaded, and the memory the store counts is that of its blocks. *)
Theorem any_interleaving_loads w idx tr :
  rtc step world0 w -> (idx, tr) ∈ w_log w -> idx < 2 ^ 32 - 1 ->
  (exists st', Load (w_store w) (OffsetToId idx) = Done (tr, st')) /\
  allocated_ (w_store w) = sum_bytes (blocks_ (w_store w)) (zrange kBlockCount).
Proof.
  intros Hs%steps_inv He Hlt. split; [by apply Load_stored|]. apply (iv_bytes w Hs).
Qed.

(** [Pack] never fails in a state that is reached, and returns the bytes by which the
    store has become smaller. *)
Theorem pack_releases w type : rtc step world0 w ->
  exists n st', Pack type (w_store w) = Done (n, st') /\ n = allocated_ (w_store w) - allocated_ st' /\ 0 <= n /\
    rtc step w (mkWorld st' (w_pending w) (w_log w)).
Proof.
  intros Hs%steps_inv. destruct (Pack_spec w type Hs) as (n & st' & ? & ? & ? & ?). by exists n, st'.
Qed.

(** No thread gets stuck: a trace that has its place is written, and frames are
    counted, except in a block after the last. *)
Theorem pending_tasks_are_done w l1 t l2 : rtc step world0 w -> w_pending w = l1 ++ t :: l2 ->
  match t with
  | TWrite idx tr => exists w', step w w' /\ w_pending w' = l1 ++ TMark (GetBlockIdx idx) (trace_len tr + 1) (Some (idx, tr)) :: l2
  | TMark b n d => 0 <= b < kBlockCount -> exists w', step w w' /\ w_pending w' = l1 ++ l2
  end.
Proof.
  intros Hs%steps_inv Hp. destruct t as [idx tr|b n d].
  - destruct (write_done w l1 idx tr l2 Hs Hp) as (st' & Hwt). eexists. split; [by eapply step_write|done].
  - intros Hb. destruct (mark_done w l1 b n d l2 Hs Hp Hb) as (c & st' & Hst). eexists. split; [by eapply step_mark|done].
Qed.

(** The frames of a trace that crosses the end of the last block are counted in a
    block that does not exist: the index is not checked on that path. *)
Theorem alloc_marks_past_the_end w trace h : inv w -> storable trace -> header_of_trace trace = Done h ->
  total_frames_ (w_store w) < 2 ^ 32 < total_frames_ (w_store w) + (hd_size h + 1) ->
  Store (w_store w) trace = Died "blocks_[]".
Proof. apply alloc_past_the_end. Qed.
End properties.

Lemma storable_example : storable ([7; 8], 0).
Proof. split; [|split; [repeat constructor; lia|done]]. by intros [? ?]. Qed.

Lemma stored_traces_are_loaded_witness : exists id pack w1,
  Store store0 ([7; 8], 0) = Done (id, pack, w_store w1) /\ id <> 0 /\
  exists st', Load (w_store w1) id = Done (([7; 8], 0), st').
Proof.
  destruct (stored_traces_are_loaded world0 ([7; 8], 0)) as (id & pack & w1 & Hs & Hid & _ & _ & Hl).
  - apply rtc_refl.
  - apply storable_example.
  - cbn. lia.
  - exists id, pack, w1. split; [done|]. split; [done|]. apply (Hl w1). apply rtc_refl.
Defined.

(** The first trace of a store, written but for its counting, and then counted. *)
Lemma any_interleaving_loads_witness : exists w,
  rtc step world0 w /\ (0, ([7; 8], 0)) ∈ w_log w /\ exists st', Load (w_store w) 1 = Done (([7; 8], 0), st').
Proof.
  destruct (Store_runs world0 ([7; 8], 0) inv_init storable_example) as (h & idx & pack & st' & Hh & Hst & Hidx & Hs); [cbn; lia|].
  injection Hh as <-. apply (f_equal (fun o => match o with Done (i, _, _) => i | Died _ => 0 end)) in Hst.
  change (1 = u32 (idx + 1)) in Hst. rewrite u32_small in Hst by lia. assert (idx = 0) as -> by lia.
  exists (mkWorld st' [] [(0, ([7; 8], 0))]). split; [done|]. split; [by left|].
  apply (any_interleaving_loads (mkWorld st' [] [(0, ([7; 8], 0))]) 0 ([7; 8], 0)); [done|by left|lia].
Defined.

Lemma pack_releases_witness : exists n st', Pack CDelta store0 = Done (n, st') /\ n = 0 - allocated_ st'.
Proof.
  destruct (pack_releases world0 CDelta) as (n & st' & Hp & Hn & _); [apply rtc_refl|].
  exists n, st'. split; [exact Hp|exact Hn].
Defined.

Lemma pending_tasks_are_done_witness : exists w w', w_pending w = [TWrite 0 ([7; 8], 0)] /\ step w w'.
Proof.
  destruct (Alloc_turn store0 3) as [[t st']|] eqn:E; [|done].
  assert (t = At 0) as ->.
  { apply (f_equal (fun o => match o with Done (t, _) => t | Died _ => NoSpace end)) in E. symmetry. exact E. }
  assert (step world0 (mkWorld st' [TWrite 0 ([7; 8], 0)] [])) as Hs.
  { destruct storable_example as (? & ? & ?). 
    apply (step_alloc world0 ([7; 8], 0) (mkHeader 2 0) (At 0) st'); try done; cbn; lia. }
  destruct (pending_tasks_are_done (mkWorld st' [TWrite 0 ([7; 8], 0)] []) [] (TWrite 0 ([7; 8], 0)) [] (rtc_once _ _ Hs) eq_refl)
    as (w' & Hw & _).
  by exists (mkWorld st' [TWrite 0 ([7; 8], 0)] []), w'.
Defined.

(** All frames but the last are taken. *)
Definition nearly_full : world :=
  mkWorld (mkStore (2 ^ 32 - 1) 0 (fun b => mkBlock None (filled (2 ^ 32 - 1) b) Storing)) [] [].

Lemma nearly_full_inv : inv nearly_full.
Proof.
  split; cbn -[Z.pow filled zrange]; try done; try (by intros e ?%not_elem_of_nil); try (by intros ? ? ?%not_elem_of_nil); try lia.
  - intros b Hb. pose proof (filled_range (2 ^ 32 - 1) b). rewrite Z.add_0_r. split; [lia|done].

Qed.

Lemma alloc_marks_past_the_end_witness : Store (w_store nearly_full) ([7; 8], 0) = Died "blocks_[]".
Proof.
  apply (alloc_marks_past_the_end nearly_full ([7; 8], 0) (mkHeader 2 0)).
  - apply nearly_full_inv.
  - apply storable_example.
  - reflexivity.
  - cbn. lia.
Defined.
