(* ===== verification/StackDepot.v ===== *)
(** * The stack depot

    src/rt/sanitizer_common/sanitizer_stackdepot.cpp: the depot of stack traces, which
    composes the hash-consing table (Depot) with the store of frames (StackStore), and the
    background thread that packs the store ([CompressThread]).

    A node of the table keeps the hash of its trace and the id the store gave it; the
    trace itself, which Depot keeps in the node, is only used to state the results.  The
    first part shows that what is put is what is got, while blocks are packed and
    unpacked.  The second is the protocol of the background thread: its start, the work
    it is notified of, and the two ways to stop it.

    Left out: the statistics, [PrintAll], and the locks of the depot around a fork other
    than that of the thread. *)

From S2P Require Import Prelude Common Depot StackStore.

(** ** Putting and getting *)

Section depot.
Context `{!StackStoreParams}.

Notation Trace := Depot.StackTrace.

Definition frames_and_tag (t : Trace) : StackStore.StackTrace := (Depot.trace t, Depot.tag t).

(** The table, the field [store_id] of its nodes, and the store. *)
Record StackDepot := mkStackDepot { theDepot : Depot.StackDepot; store_id : Z -> Z; stackStore : StackStore }.

Definition StackDepot0 : StackDepot := mkStackDepot empty_depot (fun _ => 0) store0.

(** [StackDepotNode::store], with whether the background thread is notified. *)
Definition node_store (sd : StackDepot) (id : Z) (args : Trace) : outcome (bool * StackDepot) :=
  r ← Store (stackStore sd) (frames_and_tag args);
  let '(sid, pack, st) := r : Z * Z * StackStore in
  mret (negb (pack =? 0), mkStackDepot (theDepot sd) (fun x => if x =? id then sid else store_id sd x) st).

(** [StackDepotNode::load]. *)
Definition node_load (sd : StackDepot) (id : Z) : outcome (StackStore.StackTrace * StackDepot) :=
  if store_id sd id =? 0 then mret (([], 0), sd) else
  r ← Load (stackStore sd) (store_id sd id);
  mret (r.1, mkStackDepot (theDepot sd) (store_id sd) r.2).

(** The id, whether the trace is new, and whether there is work to notify. *)
Definition StackDepotPut (sd : StackDepot) (stack : Trace) : option (outcome (Z * bool * bool * StackDepot)) :=
  p ← Put (theDepot sd) stack;
  Some (r ← p;
        let '(id, inserted, d) := r : Z * bool * Depot.StackDepot in
        let sd := mkStackDepot d (store_id sd) (stackStore sd) in
        if inserted : bool then r ← node_store sd id stack; mret (id, true, r.1, r.2)
        else mret (id, false, false, sd)).

Definition StackDepotGet (sd : StackDepot) (id : Z) : outcome (StackStore.StackTrace * StackDepot) :=
  if id =? 0 then mret (([], 0), sd) else
  _ ← check (Z.land id (Z.shiftr (2 ^ 32 - 1) kReservedBits) =? id) "depot";
  match nodes (theDepot sd) !! id with
  | None => mret (([], 0), sd)
  | Some _ => node_load sd id
  end.

(** [static_cast<Compression>(Abs(compress_stack_depot))], of a value the enumeration
    has. *)
Definition Compression_of (n : Z) : option Compression :=
  if n =? 0 then Some CNone else if n =? 1 then Some CDelta else if n =? 2 then Some CLZW else None.

Definition CompressStackStore (sd : StackDepot) (compress_stack_depot : Z) : outcome StackDepot :=
  match Compression_of (Z.abs compress_stack_depot) with
  | None => Died "no such compression"
  | Some type => r ← Pack type (stackStore sd); mret (mkStackDepot (theDepot sd) (store_id sd) r.2)
  end.

(** Any use of the depot: [StackDepotGet] packs nothing but may unpack, and packing may
    happen at any time. *)
Inductive sd_step : StackDepot -> StackDepot -> Prop :=
| sd_put sd stack id ins work sd' :
    node_is_valid stack = true -> storable (frames_and_tag stack) -> total_frames_ (stackStore sd) + 2 ^ 9 <= 2 ^ 32 ->
    StackDepotPut sd stack = Some (Done (id, ins, work, sd')) -> sd_step sd sd'
| sd_get sd id t sd' : StackDepotGet sd id = Done (t, sd') -> sd_step sd sd'
| sd_compress sd flag sd' : CompressStackStore sd flag = Done sd' -> sd_step sd sd'.

Context `{!StackStoreOk _}.
Implicit Types (sd : StackDepot) (t : Trace).

(** What the store keeps of a trace. *)
Definition clip t : StackStore.StackTrace := (firstn 255 (Depot.trace t), Depot.tag t).

(** The trace of a node is in the store, where its id says. *)
Definition kept sd (w : world) (id : Z) t : Prop :=
  exists idx, (idx, clip t) ∈ w_log w /\ 0 <= idx < 2 ^ 32 - 1 /\ store_id sd id = OffsetToId idx.

Record sd_ok_with sd (w : world) : Prop := {
  so_depot : depot_ok (theDepot sd);
  so_store : w_store w = stackStore sd;
  so_world : inv w;
  so_nodes id node : nodes (theDepot sd) !! id = Some node -> kept sd w id (n_args node)
}.

Definition sd_ok sd : Prop := exists w, sd_ok_with sd w.

Lemma StackDepot0_ok : sd_ok StackDepot0.
Proof.
  exists world0. split; [apply (empty_depot_ok (A := Trace))|done|apply inv_init|]. intros id node. cbn. by rewrite lookup_empty.
Qed.

(** The nodes of the one are nodes of the other, with the same place in the store. *)
Definition sd_extends sd sd' : Prop := forall id node, nodes (theDepot sd) !! id = Some node ->
  nodes (theDepot sd') !! id = Some node /\ store_id sd' id = store_id sd id.

Lemma sd_extends_trans sd1 sd2 sd3 : sd_extends sd1 sd2 -> sd_extends sd2 sd3 -> sd_extends sd1 sd3.
Proof. intros H12 H23 id node Hn. destruct (H12 id node Hn) as [Hn2 <-]. by apply H23. Qed.

Lemma trim_clip t h : header_of_trace (frames_and_tag t) = Done h -> trim h (frames_and_tag t) = clip t.
Proof.
  intros Hh. destruct (header_of_trace_spec _ h Hh) as (Hsz & Htag & _). unfold trim, clip. rewrite Htag, Hsz. unfold trace_len, frames_and_tag.
  cbn [fst snd]. f_equal. destruct (Z.leb_spec (Z.of_nat (length (Depot.trace t))) 255); [|f_equal; lia]. by rewrite !firstn_all2 by lia.
Qed.

(** What [Put] does to the nodes. *)
Lemma Put_shape d t id ins d' : Put d t = Some (Done (id, ins, d')) ->
  if ins : bool then exists node, n_args node = t /\ nodes d' = <[id := node]> (nodes d) else d' = d.
Proof.
  unfold Put, Put_locked. destruct (Put_probe d t) as [[id0|s]|]; cbn [mbind option_bind]; [by intros [= <- <- <-]| |done].
  assert (forall s2, insert_node d t s2 = Done (id, ins, d') ->
    if ins then exists node, n_args node = t /\ nodes d' = <[id := node]> (nodes d) else d' = d) as Hins.
  { intros s2 Hi. unfold insert_node in Hi. inv_done. eexists. split; [|done]. done. }
  destruct (negb _); [|intros [= Hi]; by eapply Hins].
  destruct (find_from _ _ _) as [node|]; cbn [mbind option_bind]; [|done].
  destruct (negb _); [by intros [= <- <- <-]|]. intros [= Hi]. by eapply Hins.
Qed.

Lemma put_ok sd stack : sd_ok sd -> node_is_valid stack = true -> storable (frames_and_tag stack) ->
  total_frames_ (stackStore sd) + 2 ^ 9 <= 2 ^ 32 ->
  exists p, StackDepotPut sd stack = Some p /\ forall id ins work sd', p = Done (id, ins, work, sd') ->
    sd_ok sd' /\ sd_extends sd sd' /\ 1 <= id /\ exists node, nodes (theDepot sd') !! id = Some node /\
      node_hash (n_args node) = node_hash stack /\ (ins = true -> n_args node = stack).
Proof.
  intros (w & [Hd Hst Hw Hnodes]) Hv Hok Hroom. unfold StackDepotPut.
  destruct (Put_correct (theDepot sd) stack Hd Hv) as (o & Eo & Ho). rewrite Eo. cbn [mbind option_bind].
  eexists. split; [done|]. intros id ins work sd' E. destruct o as [[[id0 ins0] d']|why]; [|done]. cbn [mbind outcome_bind] in E.
  destruct (Ho _ _ _ eq_refl) as (Hd' & Hg & (node & Hn & Heq) & Hfresh). pose proof (Put_shape _ _ _ _ _ Eo) as Hshape.
  assert (1 <= id0) as Hid by (apply (ok_ids d' Hd'); by eexists).
  assert (node_hash (n_args node) = node_hash stack) as Hhash by by apply same_args_hash.
  destruct ins0.
  - destruct Hshape as (node' & Ha & Hnodes'). destruct (Store_runs w (frames_and_tag stack) Hw Hok) as (h & idx & pack & st' & Hh & Hstore & Hidx & Hsteps);
      [by rewrite Hst|]. unfold node_store in E. cbn [stackStore theDepot store_id] in E. rewrite Hst in Hstore. rewrite Hstore in E.
    cbn [mbind outcome_bind mret outcome_ret fst snd] in E. injection E as <- <- <- <-.
    set (w' := mkWorld st' (w_pending w) ((idx, trim h (frames_and_tag stack)) :: w_log w)) in *.
    assert (forall i n, nodes (theDepot sd) !! i = Some n -> i <> id0) as Hne.
    { intros i n Hi ->. by rewrite (Hfresh eq_refl) in Hi. }
    split; [|split; [|split; [done|]]].
    + exists w'. split; cbn [theDepot stackStore]; try done; [by eapply steps_inv_from|].
      intros i n Hi. rewrite Hnodes' in Hi. apply lookup_insert_Some in Hi as [[<- <-]|[Hne' Hi]].
      * exists idx. cbn [store_id]. rewrite Z.eqb_refl. split; [|split; [lia|done]]. rewrite Ha, <- (trim_clip stack h Hh). by left.
      * destruct (Hnodes i n Hi) as (idx' & Hlog & Hidx' & Hsid). exists idx'. cbn [store_id].
        rewrite (proj2 (Z.eqb_neq i id0)) by congruence. split; [by right|done].
    + intros i n Hi. cbn [theDepot store_id]. split; [by apply Hg|]. by rewrite (proj2 (Z.eqb_neq i id0)) by eauto.
    + exists node. cbn [theDepot]. split; [done|]. split; [done|]. intros _. rewrite Hnodes', lookup_insert_eq in Hn. by injection Hn as <-.
  - subst d'. injection E as <- <- <- <-. split; [|split; [|split; [done|]]].
    + exists w. by split.
    + intros i n Hi. done.
    + exists node. done.
Qed.

Lemma get_ok sd w id node : sd_ok_with sd w -> nodes (theDepot sd) !! id = Some node ->
  exists sd', StackDepotGet sd id = Done (clip (n_args node), sd').
Proof.
  intros [Hd Hst Hw Hnodes] Hn. unfold StackDepotGet. assert (1 <= id <= n_uniq_ids (theDepot sd)) as Hid by (apply (ok_ids _ Hd); by eexists).
  pose proof (ok_count _ Hd) as Hc. rewrite (proj2 (Z.eqb_neq id 0)) by lia.
  assert (Z.land id (Z.shiftr (2 ^ 32 - 1) kReservedBits) =? id = true) as ->.
  { apply Z.eqb_eq. change (Z.shiftr (2 ^ 32 - 1) kReservedBits) with (Z.ones 31). rewrite Z.land_ones by lia. apply Z.mod_small.
    change kUnlockMask with (2 ^ 31 - 1) in Hc. lia. }
  cbn [check mbind outcome_bind]. rewrite Hn. destruct (Hnodes id node Hn) as (idx & Hlog & Hidx & Hsid). unfold node_load. rewrite Hsid.
  unfold OffsetToId at 1. rewrite u32_small, (proj2 (Z.eqb_neq (idx + 1) 0)) by lia.
  destruct (Load_stored w idx _ Hw Hlog ltac:(lia)) as (st' & Hl). rewrite Hst in Hl. rewrite Hl. by eexists.
Qed.

(** The store changes by its own steps, the table not. *)
Lemma same_table_ok sd w st' : sd_ok_with sd w -> rtc StackStore.step w (mkWorld st' (w_pending w) (w_log w)) ->
  sd_ok (mkStackDepot (theDepot sd) (store_id sd) st') /\ sd_extends sd (mkStackDepot (theDepot sd) (store_id sd) st').
Proof.
  intros [Hd Hst Hw Hnodes] Hs. split; [|by intros id node Hn]. exists (mkWorld st' (w_pending w) (w_log w)).
  split; try done. by eapply steps_inv_from.
Qed.

Lemma sd_step_ok sd sd' : sd_ok sd -> sd_step sd sd' -> sd_ok sd' /\ sd_extends sd sd'.
Proof.
  intros Hok Hs. destruct Hs as [sd stack id ins work sd' Hv Hstack Hroom Hput|sd id t sd' Hget|sd flag sd' Hc].
  - destruct (put_ok sd stack Hok Hv Hstack Hroom) as (p & Ep & Hp). rewrite Ep in Hput. injection Hput as ->.
    by destruct (Hp _ _ _ _ eq_refl) as (? & ? & _).
  - destruct Hok as (w & Hok). assert (sd_ok sd /\ sd_extends sd sd) as Hsame by (split; [by exists w|by intros i n]).
    unfold StackDepotGet in Hget. destruct (id =? 0); [by injection Hget as _ <-|]. inv_done.
    destruct (nodes (theDepot sd) !! id) as [node|] eqn:En; [|by injection Hget as _ <-]. unfold node_load in Hget.
    destruct (so_nodes _ _ Hok id node En) as (idx & Hlog & Hidx & Hsid). rewrite Hsid in Hget.
    unfold OffsetToId in Hget. rewrite u32_small, (proj2 (Z.eqb_neq (idx + 1) 0)) in Hget by lia.
    destruct (Load_stored w idx _ (so_world _ _ Hok) Hlog ltac:(lia)) as (st' & Hl). unfold OffsetToId in Hl. rewrite u32_small in Hl by lia.
    rewrite (so_store _ _ Hok) in Hl. rewrite Hl in Hget. cbn in Hget. injection Hget as _ <-.
    apply (same_table_ok sd w st' Hok). apply rtc_once. eapply (step_load w (idx + 1)); [lia|]. by rewrite (so_store _ _ Hok).
  - destruct Hok as (w & Hok). unfold CompressStackStore in Hc. destruct (Compression_of _) as [type|]; [|done].
    destruct (Pack_spec w type (so_world _ _ Hok)) as (n & st' & Hp & Hs & _). rewrite (so_store _ _ Hok) in Hp. rewrite Hp in Hc.
    cbn in Hc. injection Hc as <-. by apply (same_table_ok sd w st').
Qed.

Lemma sd_steps_ok sd sd' : rtc sd_step sd sd' -> sd_ok sd -> sd_ok sd' /\ sd_extends sd sd'.
Proof.
  induction 1 as [sd|sd1 sd2 sd3 H12 _ IH]; intros Hok; [split; [done|by intros i n]|].
  destruct (sd_step_ok sd1 sd2 Hok H12) as [Hok2 He]. destruct (IH Hok2) as [Hok3 He3]. split; [done|]. by eapply sd_extends_trans.
Qed.

(** C21: what is put in the stack depot is what is got.  In any state the depot reaches,
    a trace that fits is put (unless the ids are exhausted, a fatal check) under an id
    that is not 0; whatever is put, got and compressed afterwards, the id gives the
    first 255 frames and the tag of a trace with the same 64-bit hash -- of the very
    trace, if it was new. *)
Theorem stack_depot_roundtrip sd t : rtc sd_step StackDepot0 sd ->
  node_is_valid t = true -> storable (frames_and_tag t) -> total_frames_ (stackStore sd) + 2 ^ 9 <= 2 ^ 32 ->
  exists p, StackDepotPut sd t = Some p /\ forall id ins work sd1, p = Done (id, ins, work, sd1) ->
    id <> 0 /\ exists t', node_hash t' = node_hash t /\ (ins = true -> t' = t) /\
      forall sd2, rtc sd_step sd1 sd2 -> exists sd3, StackDepotGet sd2 id = Done (clip t', sd3).
Proof.
  intros Hs Hv Hok Hroom. destruct (sd_steps_ok _ _ Hs StackDepot0_ok) as [Hsd _].
  destruct (put_ok sd t Hsd Hv Hok Hroom) as (p & Ep & Hp). exists p. split; [done|]. intros id ins work sd1 ->.
  destruct (Hp _ _ _ _ eq_refl) as (Hsd1 & _ & Hid & node & Hn & Hhash & Hins). split; [lia|]. exists (n_args node).
  split; [done|]. split; [done|]. intros sd2 Hs2. destruct (sd_steps_ok _ _ Hs2 Hsd1) as [(w2 & Hsd2) He].
  destruct (He id node Hn) as [Hn2 _]. by apply (get_ok sd2 w2).
Qed.
End depot.

Lemma stack_depot_roundtrip_witness :
  exists p, StackDepotPut StackDepot0 (Depot.mkStackTrace [7; 8] 0) = Some p.
Proof.
  destruct (stack_depot_roundtrip StackDepot0 (Depot.mkStackTrace [7; 8] 0) (rtc_refl _ _)) as (p & Hp & _); [done| |done|by exists p].
  split; [by intros [? _]|]. by repeat constructor.
Defined.

(** ** The background thread

    [CompressThread]: a thread that packs the store when it is notified.  Its start and
    both ways of stopping it are run by any number of other threads.  A section under
    the mutex in which nothing waits is one step; [LockAndStop] keeps the mutex while it
    waits for the thread to end, so it is several. *)

Module CompressThread.

Inductive State := NotStarted | Started | Failed | Stopped.
#[export] Instance State_eq_dec : EqDecision State.
Proof. solve_decision. Defined.

(** [locked] is the mutex; a thread is its number. *)
Record CompressThread := mkCompressThread {
  semaphore_ : nat; locked : bool; state_ : State; thread_ : option nat; run_ : bool
}.

Definition CompressThread0 : CompressThread := mkCompressThread 0 false NotStarted None false.

Definition Post (c : CompressThread) : CompressThread := mkCompressThread (S (semaphore_ c)) (locked c) (state_ c) (thread_ c) (run_ c).
Definition set_run (c : CompressThread) (run : bool) : CompressThread :=
  mkCompressThread (semaphore_ c) (locked c) (state_ c) (thread_ c) run.
Definition set_state (c : CompressThread) (s : State) (t : option nat) : CompressThread :=
  mkCompressThread (semaphore_ c) (locked c) s t (run_ c).
Definition set_locked (c : CompressThread) (l : bool) : CompressThread :=
  mkCompressThread (semaphore_ c) l (state_ c) (thread_ c) (run_ c).

Definition is_null (t : option nat) : bool := bool_decide (t = None).

(** [NewWorkNotify] in the mutex: [new] is the thread the system starts, if it does.
    Whether the caller must pack the store itself. *)
Definition NewWorkNotify_locked (c : CompressThread) (new : option nat) : outcome (bool * CompressThread) :=
  c ← (if bool_decide (state_ c = NotStarted) then
         let c := set_run c true in
         _ ← check (is_null (thread_ c)) "nullptr == thread_";
         mret (set_state c (match new with Some _ => Started | None => Failed end) new)
       else mret c);
  if bool_decide (state_ c = Started) then mret (false, Post c) else mret (true, c).

(** [Stop] in the mutex: the thread to stop. *)
Definition Stop_locked (c : CompressThread) : outcome (option nat * CompressThread) :=
  if negb (bool_decide (state_ c = Started)) then mret (None, c) else
  let c := set_state c Stopped (thread_ c) in
  _ ← check (negb (is_null (thread_ c))) "nullptr != thread_";
  mret (thread_ c, set_state c (state_ c) None).

(** [LockAndStop] until it stores to [run_]: whether it goes on. *)
Definition LockAndStop_begin (c : CompressThread) : outcome (bool * CompressThread) :=
  let c := set_locked c true in
  if negb (bool_decide (state_ c = Started)) then mret (false, c) else
  _ ← check (negb (is_null (thread_ c))) "nullptr != thread_";
  mret (true, c).

(** Where the background thread is: before [semaphore_.Wait()], between it and the load
    of [run_], packing the store, or at its end. *)
Inductive background := Waiting | Woken | Working | Exited.

(** Where a caller is. *)
Inductive pc :=
| CallNotify (compress_stack_depot : Z) | Packing
| CallStop | StopRun (t : nat) | StopPost (t : nat) | StopJoin (t : nat)
| CallLockAndStop | LockRun | LockPost | LockJoin | Held
| Returned.

Record world := mkWorld { w_ct : CompressThread; w_threads : list background; w_calls : list pc }.

Notation call w i p := (w_calls w !! i = Some p).
Definition at_pc (w : world) (i : nat) (c : CompressThread) (p : pc) : world := mkWorld c (w_threads w) (<[i := p]> (w_calls w)).
Definition at_background (w : world) (t : nat) (c : CompressThread) (b : background) : world :=
  mkWorld c (<[t := b]> (w_threads w)) (w_calls w).

Inductive step : world -> world -> Prop :=
| step_notify_off w i : call w i (CallNotify 0) -> step w (at_pc w i (w_ct w) Returned)
| step_notify_inline w i f : call w i (CallNotify f) -> f < 0 -> step w (at_pc w i (w_ct w) Packing)
| step_notify w i f (starts : bool) work c' :
    call w i (CallNotify f) -> 0 < f -> locked (w_ct w) = false ->
    let new := if starts then Some (length (w_threads w)) else None in
    NewWorkNotify_locked (w_ct w) new = Done (work, c') ->
    step w (mkWorld c' (w_threads w ++ (if starts && bool_decide (state_ (w_ct w) = NotStarted) then [Waiting] else []))
              (<[i := if work : bool then Packing else Returned]> (w_calls w)))
| step_pack w i : call w i Packing -> step w (at_pc w i (w_ct w) Returned)
| step_stop w i r c' : call w i CallStop -> locked (w_ct w) = false -> Stop_locked (w_ct w) = Done (r, c') ->
    step w (at_pc w i c' (match r with Some t => StopRun t | None => Returned end))
| step_stop_run w i t : call w i (StopRun t) -> step w (at_pc w i (set_run (w_ct w) false) (StopPost t))
| step_stop_post w i t : call w i (StopPost t) -> step w (at_pc w i (Post (w_ct w)) (StopJoin t))
| step_stop_join w i t : call w i (StopJoin t) -> w_threads w !! t = Some Exited -> step w (at_pc w i (w_ct w) Returned)
| step_lock w i go c' : call w i CallLockAndStop -> locked (w_ct w) = false -> LockAndStop_begin (w_ct w) = Done (go, c') ->
    step w (at_pc w i c' (if go : bool then LockRun else Held))
| step_lock_run w i : call w i LockRun -> step w (at_pc w i (set_run (w_ct w) false) LockPost)
| step_lock_post w i : call w i LockPost -> step w (at_pc w i (Post (w_ct w)) LockJoin)
| step_lock_join w i t : call w i LockJoin -> thread_ (w_ct w) = Some t -> w_threads w !! t = Some Exited ->
    step w (at_pc w i (set_state (w_ct w) NotStarted None) Held)
| step_unlock w i : call w i Held -> step w (at_pc w i (set_locked (w_ct w) false) Returned)
(** the background thread [t] *)
| step_wait w t n : w_threads w !! t = Some Waiting -> semaphore_ (w_ct w) = S n ->
    step w (at_background w t (mkCompressThread n (locked (w_ct w)) (state_ (w_ct w)) (thread_ (w_ct w)) (run_ (w_ct w))) Woken)
| step_load_run w t : w_threads w !! t = Some Woken ->
    step w (at_background w t (w_ct w) (if run_ (w_ct w) then Working else Exited))
| step_work w t : w_threads w !! t = Some Working -> step w (at_background w t (w_ct w) Waiting).

Definition starting (p : pc) : Prop := match p with CallNotify _ | CallStop | CallLockAndStop => True | _ => False end.

(** *** What holds of every state *)

(** The thread a [Stop] is after, and the callers inside of [LockAndStop]. *)
Definition stopping (p : pc) : option nat := match p with StopRun t | StopPost t | StopJoin t => Some t | _ => None end.
Definition in_lock (p : pc) : bool := match p with LockRun | LockPost | LockJoin | Held => true | _ => false end.
Definition lock_stops (p : pc) : bool := match p with LockRun | LockPost | LockJoin => true | _ => false end.
Definition run_cleared (p : pc) : bool := match p with StopPost _ | StopJoin _ | LockPost | LockJoin => true | _ => false end.
Definition joining (w : world) (p : pc) : option nat :=
  match p with StopJoin t => Some t | LockJoin => thread_ (w_ct w) | _ => None end.

Record inv (w : world) : Prop := {
  ci_thread : match state_ (w_ct w) with
              | Started => exists t, thread_ (w_ct w) = Some t /\ (t < length (w_threads w))%nat
              | _ => thread_ (w_ct w) = None
              end;
  ci_live t b : w_threads w !! t = Some b -> b <> Exited ->
    thread_ (w_ct w) = Some t \/ exists i p, call w i p /\ stopping p = Some t;
  ci_stop i p t : call w i p -> stopping p = Some t -> state_ (w_ct w) = Stopped /\ (t < length (w_threads w))%nat;
  ci_stop_one i j p q t t' : call w i p -> call w j q -> stopping p = Some t -> stopping q = Some t' -> i = j;
  ci_lock i p : call w i p -> in_lock p = true -> locked (w_ct w) = true;
  ci_lock_one i j p q : call w i p -> call w j q -> in_lock p = true -> in_lock q = true -> i = j;
  ci_lock_state i p : call w i p -> lock_stops p = true -> state_ (w_ct w) = Started;
  ci_held i : call w i Held -> state_ (w_ct w) <> Started;
  ci_cleared i p : call w i p -> run_cleared p = true -> run_ (w_ct w) = false;
  ci_alive t : thread_ (w_ct w) = Some t -> run_ (w_ct w) = true -> w_threads w !! t <> Some Exited;
  ci_posted i p t b : call w i p -> joining w p = Some t -> w_threads w !! t = Some b ->
    b = Exited \/ b = Woken \/ (1 <= semaphore_ (w_ct w))%nat
}.

Lemma compress_inv_init calls : Forall starting calls -> inv (mkWorld CompressThread0 [] calls).
Proof.
  intros Hs. assert (forall i p, calls !! i = Some p -> starting p) as Hst by (intros i p; by apply Forall_lookup_1).
  split; cbn; try done.
  - intros i p t Hp%Hst. by destruct p.
  - intros i j p q t t' Hp%Hst. by destruct p.
  - intros i p Hp%Hst. by destruct p.
  - intros i j p q Hp%Hst. by destruct p.
  - intros i p Hp%Hst. by destruct p.
Qed.

(** At most one background thread is left. *)
Lemma one_live w t t' b b' : inv w -> w_threads w !! t = Some b -> w_threads w !! t' = Some b' ->
  b <> Exited -> b' <> Exited -> t = t'.
Proof.
  intros Hw Ht Ht' Hb Hb'. pose proof (ci_thread w Hw) as Hth.
  destruct (ci_live w Hw t b Ht Hb) as [E|(i & p & Hi & Hp)], (ci_live w Hw t' b' Ht' Hb') as [E'|(j & q & Hj & Hq)].
  - congruence.
  - destruct (ci_stop w Hw j q t' Hj Hq) as [Es _]. rewrite Es in Hth. congruence.
  - destruct (ci_stop w Hw i p t Hi Hp) as [Es _]. rewrite Es in Hth. congruence.
  - pose proof (ci_stop_one w Hw i j p q t t' Hi Hj Hp Hq) as <-. rewrite Hi in Hj. injection Hj as <-. congruence.
Qed.

Lemma insert_cases {A} (l : list A) i x j y : <[i := x]> l !! j = Some y -> (j = i /\ y = x) \/ (j <> i /\ l !! j = Some y).
Proof. intros [(-> & -> & _)|[Hne Hj]]%list_lookup_insert_Some; [by left|right; by split]. Qed.

(** A step of the background thread. *)
Lemma inv_background w t c b b0 : inv w -> w_threads w !! t = Some b0 -> b0 <> Exited ->
  locked c = locked (w_ct w) -> state_ c = state_ (w_ct w) -> thread_ c = thread_ (w_ct w) -> run_ c = run_ (w_ct w) ->
  (b = Exited -> run_ (w_ct w) = false) ->
  (run_ (w_ct w) = false -> b = Exited \/ b = Woken \/ (b0 <> Woken /\ semaphore_ c = semaphore_ (w_ct w))) ->
  inv (at_background w t c b).
Proof.
  intros Hw Ht Hb0 El Es Eth Er Hexit Hpost. pose proof (lookup_lt_Some _ _ _ Ht) as Hlt.
  split; cbn [at_background w_ct w_threads w_calls]; rewrite ?El, ?Es, ?Eth, ?Er, ?length_insert; try (by apply Hw).
  - intros j b' [[-> ->]|[Hne Hj]]%insert_cases Hb'; [by apply (ci_live w Hw t b0)|by apply (ci_live w Hw j b')].
  - intros t' E' Hrun [[-> E]|[Hne Hj]]%insert_cases; [by rewrite (Hexit (eq_sym E)) in Hrun|by apply (ci_alive w Hw t')].
  - intros i p t' b' Hi Hj. assert (joining w p = Some t') as Hj' by (destruct p; try done; cbn in *; congruence).
    assert (run_ (w_ct w) = false) as Hrun by (apply (ci_cleared w Hw i p Hi); by destruct p).
    assert (b' <> Exited -> t' = t) as Hsame.
    { intros Hb'. destruct (decide (t' = t)) as [|Hne]; [done|]. exfalso. pose proof (ci_thread w Hw) as Hth. destruct p; try done; cbn in Hj'.
      + injection Hj' as ->. destruct (ci_stop w Hw i (StopJoin t') t' Hi eq_refl) as [Est _]. rewrite Est in Hth.
        destruct (ci_live w Hw t b0 Ht Hb0) as [E|(k & q & Hk & Hq)]; [congruence|].
        pose proof (ci_stop_one w Hw i k _ q _ _ Hi Hk eq_refl Hq) as <-. rewrite Hi in Hk. injection Hk as <-. cbn in Hq. congruence.
      + pose proof (ci_lock_state w Hw i _ Hi eq_refl) as Est. destruct (ci_live w Hw t b0 Ht Hb0) as [E|(k & q & Hk & Hq)]; [congruence|].
        destruct (ci_stop w Hw k q t Hk Hq). congruence. }
    intros [[-> ->]|[Hne Hb']]%insert_cases.
    + destruct (Hpost Hrun) as [->|[->|[Hnw ->]]]; [by left|right; by left|].
      destruct (ci_posted w Hw i p t b0 Hi Hj' Ht) as [?|[?|?]]; [done|done|by right; right].
    + left. destruct b'; try done; by destruct Hne; apply Hsame.
Qed.

(** A step of a caller that only moves. *)
Lemma inv_call w i c p p' : inv w -> call w i p ->
  state_ c = state_ (w_ct w) -> thread_ c = thread_ (w_ct w) -> (semaphore_ (w_ct w) <= semaphore_ c)%nat ->
  (run_ c = run_ (w_ct w) \/ run_ c = false) -> (run_cleared p' = true -> run_ c = false) ->
  (stopping p' = stopping p \/ stopping p' = None) ->
  (forall t, stopping p = Some t -> stopping p' = Some t \/ w_threads w !! t = Some Exited) ->
  (in_lock p' = true -> in_lock p = true) -> 
  (locked c = locked (w_ct w) \/ (in_lock p = true /\ in_lock p' = false)) ->
  (lock_stops p' = true -> lock_stops p = true) -> p' <> Held ->
  (forall t, joining (at_pc w i c p') p' = Some t -> joining w p = Some t \/ (1 <= semaphore_ c)%nat) ->
  inv (at_pc w i c p').
Proof.
  intros Hw Hi Es Eth Hsem Hrun Hcl Hstop Hstop' Hin Hlk Hls Hnh Hj.
  split; cbn [at_pc w_ct w_threads w_calls]; rewrite ?Es, ?Eth.
  - apply (ci_thread w Hw).
  - intros t b Ht Hb. destruct (ci_live w Hw t b Ht Hb) as [?|(j & q & Hq & Hqt)]; [by left|right].
    destruct (decide (j = i)) as [->|Hne].
    + rewrite Hi in Hq. injection Hq as <-. destruct (Hstop' t Hqt) as [?|?]; [|congruence].
      exists i, p'. split; [apply list_lookup_insert_eq; by eapply lookup_lt_Some|done].
    + exists j, q. by rewrite list_lookup_insert_ne.
  - intros j q t [[-> ->]|[_ Hq]]%insert_cases Hqt; [|by apply (ci_stop w Hw j q)].
    destruct Hstop as [E|E]; rewrite E in Hqt; [by apply (ci_stop w Hw i p)|done].
  - intros j1 j2 q1 q2 t1 t2 [[-> ->]|[_ H1]]%insert_cases [[-> ->]|[_ H2]]%insert_cases Hq1 Hq2; try done;
      destruct Hstop as [E|E]; rewrite ?E in *; try done; by eapply (ci_stop_one w Hw).
  - intros j q [[-> ->]|[Hne Hq]]%insert_cases Hl.
    + destruct Hlk as [->|[_ ?]]; [|congruence]. apply (ci_lock w Hw i p Hi). by apply Hin.
    + destruct Hlk as [->|[Hp _]]; [by apply (ci_lock w Hw j q)|]. destruct Hne. by apply (ci_lock_one w Hw j i q p).
  - intros j1 j2 q1 q2 [[-> ->]|[_ H1]]%insert_cases [[-> ->]|[_ H2]]%insert_cases Hl1 Hl2; [done| | |by apply (ci_lock_one w Hw j1 j2 q1 q2)].
    + apply (ci_lock_one w Hw i j2 p q2); auto.
    + apply (ci_lock_one w Hw j1 i q1 p); auto.
  - intros j q [[-> ->]|[_ Hq]]%insert_cases Hl; [apply (ci_lock_state w Hw i p); auto|by apply (ci_lock_state w Hw j q)].
  - intros j [[-> E]|[_ Hq]]%insert_cases; [by destruct Hnh|by apply (ci_held w Hw j)].
  - intros j q [[-> ->]|[_ Hq]]%insert_cases Hl; [by apply Hcl|]. pose proof (ci_cleared w Hw j q Hq Hl). destruct Hrun; congruence.
  - intros t Ht Hr. apply (ci_alive w Hw t Ht). destruct Hrun; congruence.
  - intros j q t b [[-> ->]|[Hne Hq]]%insert_cases Hjn Hb.
    + destruct (Hj t Hjn) as [Hjp|?]; [|by right; right]. destruct (ci_posted w Hw i p t b Hi Hjp Hb) as [?|[?|?]]; [by left|by right; left|right; right; lia].
    + assert (joining w q = Some t) as Hjq by (destruct q; try done; cbn in *; congruence).
      destruct (ci_posted w Hw j q t b Hq Hjq Hb) as [?|[?|?]]; [by left|by right; left|right; right; lia].
Qed.

(** *** The sections *)

(** With the mutex free, no one is in [LockAndStop]; with no thread to stop, no one is in [Stop]. *)
Lemma no_lock w j q : inv w -> locked (w_ct w) = false -> call w j q -> in_lock q = false.
Proof. intros Hw Hl Hq. destruct (in_lock q) eqn:E; [|done]. pose proof (ci_lock w Hw j q Hq E). congruence. Qed.

Lemma no_stop w j q : inv w -> state_ (w_ct w) <> Stopped -> call w j q -> stopping q = None.
Proof. intros Hw Hs Hq. destruct (stopping q) as [t|] eqn:E; [|done]. by destruct (ci_stop w Hw j q t Hq E). Qed.

Lemma pc_plain q : in_lock q = false -> stopping q = None ->
  run_cleared q = false /\ lock_stops q = false /\ forall w, joining w q = None.
Proof. by destruct q. Qed.

(** Nothing in the protocol: only the thread, if any, is described. *)
Lemma inv_quiet w : (forall i p, call w i p -> in_lock p = false /\ stopping p = None) ->
  match state_ (w_ct w) with
  | Started => exists t, thread_ (w_ct w) = Some t /\ (t < length (w_threads w))%nat
  | _ => thread_ (w_ct w) = None
  end ->
  (forall t b, w_threads w !! t = Some b -> b <> Exited -> thread_ (w_ct w) = Some t) ->
  (forall t, thread_ (w_ct w) = Some t -> run_ (w_ct w) = true -> w_threads w !! t <> Some Exited) -> inv w.
Proof.
  intros Hq Hth Hlive Halive. split; try done.
  - intros t b Ht Hb. left. by apply (Hlive t b).
  - intros i p t Hi Hp. destruct (Hq i p Hi). congruence.
  - intros i j p q t t' Hi _ Hp. destruct (Hq i p Hi). congruence.
  - intros i p Hi Hp. destruct (Hq i p Hi). congruence.
  - intros i j p q Hi _ Hp. destruct (Hq i p Hi). congruence.
  - intros i p Hi Hp. destruct (Hq i p Hi) as [H1 H2]. destruct (pc_plain p H1 H2) as (_ & ? & _). congruence.
  - intros i Hi. by destruct (Hq i Held Hi).
  - intros i p Hi Hp. destruct (Hq i p Hi) as [H1 H2]. destruct (pc_plain p H1 H2) as (? & _). congruence.
  - intros i p t b Hi Hp. destruct (Hq i p Hi) as [H1 H2]. destruct (pc_plain p H1 H2) as (_ & _ & E). by rewrite E in Hp.
Qed.

(** With no [Stop] going on, a live thread is the recorded one. *)
Lemma live_recorded w t b : inv w -> state_ (w_ct w) <> Stopped -> w_threads w !! t = Some b -> b <> Exited -> thread_ (w_ct w) = Some t.
Proof.
  intros Hw Hs Ht Hb. destruct (ci_live w Hw t b Ht Hb) as [?|(i & p & Hi & Hp)]; [done|].
  pose proof (no_stop w i p Hw Hs Hi). congruence.
Qed.

Lemma inv_notify w i f starts work c' : inv w -> call w i (CallNotify f) -> locked (w_ct w) = false ->
  NewWorkNotify_locked (w_ct w) (if starts : bool then Some (length (w_threads w)) else None) = Done (work, c') ->
  inv (mkWorld c' (w_threads w ++ (if starts && bool_decide (state_ (w_ct w) = NotStarted) then [Waiting] else []))
        (<[i := if work : bool then Packing else Returned]> (w_calls w))).
Proof.
  intros Hw Hi Hl Hn. pose proof (ci_thread w Hw) as Hth. unfold NewWorkNotify_locked in Hn.
  destruct (decide (state_ (w_ct w) = NotStarted)) as [Es|Es].
  - rewrite (bool_decide_eq_true_2 _ Es) in Hn |- *. rewrite Es in Hth. unfold is_null in Hn. cbn [set_run thread_ state_] in Hn. rewrite Hth in Hn.
    cbn in Hn. rewrite andb_true_r.
    assert (forall j q, <[i := if work then Packing else Returned]> (w_calls w) !! j = Some q -> in_lock q = false /\ stopping q = None) as Hq.
    { intros j q [[-> ->]|[_ Hq]]%insert_cases; [by destruct work|]. split; [by apply (no_lock w j)|]. apply (no_stop w j); [done|congruence|done]. }
    assert (forall t b, w_threads w !! t = Some b -> b = Exited) as Hdead.
    { intros t b Ht. destruct b; try done; pose proof (live_recorded w t _ Hw ltac:(congruence) Ht ltac:(done)); congruence. }
    destruct starts; cbn in Hn; injection Hn as <- <-; apply inv_quiet; cbn; try done.
    + eexists. split; [done|]. rewrite length_app. cbn. lia.
    + intros t b [Ht|[Hge Ht]]%lookup_app_Some Hb; [by destruct (Hb (Hdead t b Ht))|]. f_equal.
      apply lookup_lt_Some in Ht. cbn in Ht. lia.
    + intros t [= <-] _. rewrite lookup_app_r, Nat.sub_diag by lia. done.
    + intros t b [Ht|[_ Ht]]%lookup_app_Some Hb; [by destruct (Hb (Hdead t b Ht))|done].
  - rewrite (bool_decide_eq_false_2 _ Es) in Hn |- *. rewrite andb_false_r, app_nil_r. cbn in Hn.
    assert (forall c, inv (at_pc w i c (if work then Packing else Returned)) -> 
      inv (mkWorld c (w_threads w) (<[i := if work then Packing else Returned]> (w_calls w)))) as Hat by done.
    case_bool_decide; cbn in Hn; injection Hn as <- <-; apply Hat; eapply inv_call; try done; cbn; auto.
Qed.

Lemma inv_stop w i r c' : inv w -> call w i CallStop -> locked (w_ct w) = false -> Stop_locked (w_ct w) = Done (r, c') ->
  inv (at_pc w i c' (match r with Some t => StopRun t | None => Returned end)).
Proof.
  intros Hw Hi Hl Hs. pose proof (ci_thread w Hw) as Hth. unfold Stop_locked in Hs.
  case_bool_decide as Es; cbn [negb] in Hs.
  2: { injection Hs as <- <-. eapply inv_call; try done; auto. }
  rewrite Es in Hth. destruct Hth as (t & Et & Ht). unfold is_null in Hs. cbn [set_state thread_ state_] in Hs. rewrite Et in Hs.
  cbn in Hs. injection Hs as <- <-.
  assert (forall j q, call w j q -> in_lock q = false /\ stopping q = None) as Hq.
  { intros j q Hq. split; [by apply (no_lock w j)|]. apply (no_stop w j); [done|congruence|done]. }
  assert (forall j q, <[i := StopRun t]> (w_calls w) !! j = Some q -> j = i /\ q = StopRun t \/
    (in_lock q = false /\ stopping q = None)) as Hq'.
  { intros j q [[-> ->]|[_ Hj]]%insert_cases; [by left|right; by apply (Hq j)]. }
  split; cbn [at_pc w_ct w_threads w_calls state_ thread_ locked run_ semaphore_]; try done.
  - intros t' b Ht' Hb. right. exists i, (StopRun t). split; [apply list_lookup_insert_eq; by eapply lookup_lt_Some|]. cbn. 
    rewrite <- Et. by apply (live_recorded w t' b Hw); [congruence| |].
  - intros j q t' [[-> ->]|[_ E]]%Hq' Hqt; [|congruence]. cbn in Hqt. injection Hqt as <-. done.
  - intros j1 j2 q1 q2 t1 t2 [[-> ->]|[_ E]]%Hq' [[-> ->]|[_ E']]%Hq' H1 H2; congruence.
  - intros j q [[-> ->]|[E _]]%Hq' Hl'; [done|congruence].
  - intros j1 j2 q1 q2 [[-> ->]|[E _]]%Hq' _ Hl1; [done|congruence].
  - intros j q [[-> ->]|[E1 E2]]%Hq' Hl'; [done|]. destruct (pc_plain q E1 E2) as (_ & ? & _). congruence.
  - intros j q [[-> ->]|[E1 E2]]%Hq' Hl'; [done|]. destruct (pc_plain q E1 E2) as (? & _). congruence.
  - intros j q t' b [[-> ->]|[E1 E2]]%Hq' Hl'; [done|]. destruct (pc_plain q E1 E2) as (_ & _ & E). by rewrite E in Hl'.
Qed.

Lemma inv_lock w i go c' : inv w -> call w i CallLockAndStop -> locked (w_ct w) = false -> LockAndStop_begin (w_ct w) = Done (go, c') ->
  inv (at_pc w i c' (if go : bool then LockRun else Held)).
Proof.
  intros Hw Hi Hl Hs. pose proof (ci_thread w Hw) as Hth. unfold LockAndStop_begin in Hs.
  assert (c' = set_locked (w_ct w) true /\ (if go then state_ (w_ct w) = Started else state_ (w_ct w) <> Started)) as [-> Hgo].
  { cbn [set_locked state_ thread_] in Hs. case_bool_decide as Es; cbn [negb] in Hs; [|by injection Hs as <- <-].
    inv_done. done. }
  assert (forall j q, call w j q -> in_lock q = false) as Hq by (intros j q Hq; by apply (no_lock w j)).
  set (p' := if go then LockRun else Held). assert (in_lock p' = true /\ stopping p' = None /\ run_cleared p' = false) as (P1 & P2 & P3) by by destruct go.
  assert (forall w', joining w' p' = None) as P4 by by destruct go.
  split; cbn [at_pc w_ct w_threads w_calls set_locked state_ thread_ locked run_ semaphore_]; try done; try (by apply Hw).
  - intros t b Ht Hb. destruct (ci_live w Hw t b Ht Hb) as [?|(j & q & Hj & Hqt)]; [by left|right]. exists j, q.
    rewrite list_lookup_insert_ne; [done|]. intros <-. rewrite Hi in Hj. by injection Hj as <-.
  - intros j q t [[-> ->]|[_ Hj]]%insert_cases Hqt; [congruence|by apply (ci_stop w Hw j q)].
  - intros j1 j2 q1 q2 t1 t2 [[-> ->]|[_ H1]]%insert_cases [[-> ->]|[_ H2]]%insert_cases Hq1 Hq2; try congruence. by eapply (ci_stop_one w Hw).
  - intros j1 j2 q1 q2 [[-> ->]|[_ H1]]%insert_cases [[-> ->]|[_ H2]]%insert_cases Hl1 Hl2; [done| | |];
      exfalso; [by rewrite (Hq j2 q2 H2) in Hl2|by rewrite (Hq j1 q1 H1) in Hl1|by rewrite (Hq j1 q1 H1) in Hl1].
  - intros j q [[-> ->]|[_ Hj]]%insert_cases Hl'; [|by apply (ci_lock_state w Hw j q)]. by destruct go.
  - intros j [[-> E]|[_ Hj]]%insert_cases; [|by pose proof (Hq j Held Hj)]. by destruct go.
  - intros j q [[-> ->]|[_ Hj]]%insert_cases Hl'; [congruence|by apply (ci_cleared w Hw j q)].
  - intros j q t b [[-> ->]|[_ Hj]]%insert_cases Hjn Hb; [by rewrite P4 in Hjn|].
    assert (joining w q = Some t) as Hjn' by (destruct q; done). by apply (ci_posted w Hw j q t b).
Qed.

Lemma inv_lock_join w i t : inv w -> call w i LockJoin -> thread_ (w_ct w) = Some t -> w_threads w !! t = Some Exited ->
  inv (at_pc w i (set_state (w_ct w) NotStarted None) Held).
Proof.
  intros Hw Hi Et Ht. pose proof (ci_lock_state w Hw i _ Hi eq_refl) as Es.
  assert (forall j q, call w j q -> stopping q = None) as Hst by (intros j q Hq; apply (no_stop w j); [done|congruence|done]).
  assert (forall j q, call w j q -> j <> i -> in_lock q = false) as Hlk.
  { intros j q Hq Hne. destruct (in_lock q) eqn:E; [|done]. destruct Hne. by apply (ci_lock_one w Hw j i q LockJoin). }
  split; cbn [at_pc w_ct w_threads w_calls set_state state_ thread_ locked run_ semaphore_]; try done.
  - intros t' b Ht' Hb. pose proof (live_recorded w t' b Hw ltac:(congruence) Ht' Hb). congruence.
  - intros j q t' [[-> ->]|[_ Hj]]%insert_cases Hqt; [done|]. pose proof (Hst j q Hj). congruence.
  - intros j1 j2 q1 q2 t1 t2 [[-> ->]|[_ H1]]%insert_cases [[-> ->]|[_ H2]]%insert_cases Hq1 Hq2; try done.
    pose proof (Hst j1 q1 H1). congruence.
  - intros j q _ _. by apply (ci_lock w Hw i LockJoin).
  - intros j1 j2 q1 q2 [[-> ->]|[N1 H1]]%insert_cases [[-> ->]|[N2 H2]]%insert_cases Hl1 Hl2; [done| | |].
    + by rewrite (Hlk j2 q2 H2 N2) in Hl2.
    + by rewrite (Hlk j1 q1 H1 N1) in Hl1.
    + by rewrite (Hlk j1 q1 H1 N1) in Hl1.
  - intros j q [[-> ->]|[N Hj]]%insert_cases Hl'; [done|]. destruct (pc_plain q (Hlk j q Hj N) (Hst j q Hj)) as (_ & E & _). congruence.
  - intros j q [[-> ->]|[N Hj]]%insert_cases Hl'; [done|]. destruct (pc_plain q (Hlk j q Hj N) (Hst j q Hj)) as (E & _). congruence.
  - intros j q t' b [[-> ->]|[N Hj]]%insert_cases Hl'; [done|]. destruct (pc_plain q (Hlk j q Hj N) (Hst j q Hj)) as (_ & _ & E). by rewrite E in Hl'.
Qed.

Lemma compress_step_inv w w' : inv w -> step w w' -> inv w'.
Proof.
  intros Hw Hs. destruct Hs as [w i Hi|w i f Hi Hf|w i f starts work c' Hi Hf Hl new Hn|w i Hi|w i r c' Hi Hl Hn|w i t Hi|w i t Hi|w i t Hi Ht
    |w i go c' Hi Hl Hn|w i Hi|w i Hi|w i t Hi Et Ht|w i Hi|w t n Ht Hn|w t Ht|w t Ht].
  - eapply inv_call; try done; cbn; auto.
  - eapply inv_call; try done; cbn; auto.
  - by eapply inv_notify.
  - eapply inv_call; try done; cbn; auto.
  - by eapply inv_stop.
  - eapply inv_call; try done; cbn; auto.
  - eapply inv_call; try done; cbn; auto with lia.
    intros _. by apply (ci_cleared w Hw i (StopPost t)).
  - eapply inv_call; try done; cbn; auto. intros t' [= <-]. by right.
  - by eapply inv_lock.
  - eapply inv_call; try done; cbn; auto.
  - eapply inv_call; try done; cbn; auto with lia.
    intros _. by apply (ci_cleared w Hw i LockPost).
  - by eapply inv_lock_join.
  - eapply inv_call; try done; cbn; auto.
  - eapply inv_background; try done. intros _. right. by left.
  - eapply inv_background; try done.
    + by destruct (run_ (w_ct w)).
    + intros ->. by left.
  - eapply inv_background; try done. intros _. right. right. done.
Qed.

Lemma compress_steps_inv w w' : rtc step w w' -> inv w -> inv w'.
Proof. induction 1 as [w|w1 w2 w3 H12 _ IH]; [done|]. intros H1. apply IH. by eapply compress_step_inv. Qed.

(** The background thread [t] by itself. *)
Definition only_thread (t : nat) (w w' : world) : Prop :=
  w_calls w' = w_calls w /\ state_ (w_ct w') = state_ (w_ct w) /\ thread_ (w_ct w') = thread_ (w_ct w).

(** Who waits for the thread is let go after at most three of its steps. *)
Lemma join_ends w i p t : inv w -> call w i p -> joining w p = Some t -> (t < length (w_threads w))%nat ->
  exists w', rtc step w w' /\ only_thread t w w' /\ w_threads w' !! t = Some Exited.
Proof.
  intros Hw Hi Hj Ht. destruct (lookup_lt_is_Some_2 _ _ Ht) as [b Hb].
  assert (run_ (w_ct w) = false) as Hrun by (apply (ci_cleared w Hw i p Hi); by destruct p).
  assert (forall w0, w_threads w0 !! t = Some Woken -> run_ (w_ct w0) = false -> only_thread t w w0 ->
    exists w', rtc step w0 w' /\ only_thread t w w' /\ w_threads w' !! t = Some Exited) as Hwoken.
  { intros w0 H0 Hr0 Ho. exists (at_background w0 t (w_ct w0) Exited). split; [apply rtc_once|split; [done|]].
    - pose proof (step_load_run w0 t H0) as Hs. by rewrite Hr0 in Hs.
    - apply list_lookup_insert_eq. by eapply lookup_lt_Some. }
  assert (forall w0, w_threads w0 !! t = Some Waiting -> (1 <= semaphore_ (w_ct w0))%nat -> run_ (w_ct w0) = false -> only_thread t w w0 ->
    exists w', rtc step w0 w' /\ only_thread t w w' /\ w_threads w' !! t = Some Exited) as Hwaiting.
  { intros w0 H0 Hsem Hr0 Ho. destruct (semaphore_ (w_ct w0)) as [|n] eqn:En; [lia|].
    destruct (Hwoken (at_background w0 t (mkCompressThread n (locked (w_ct w0)) (state_ (w_ct w0)) (thread_ (w_ct w0)) (run_ (w_ct w0))) Woken))
      as (w' & Hs & Hrest); [apply list_lookup_insert_eq; by eapply lookup_lt_Some|done|done|].
    exists w'. split; [|done]. eapply rtc_l; [by apply (step_wait w0 t n)|done]. }
  assert (only_thread t w w) as Hself by done.
  destruct (ci_posted w Hw i p t b Hi Hj Hb) as [->|[->|Hsem]]; [by exists w|by apply Hwoken|].
  destruct b; [by apply Hwaiting|by apply Hwoken| |by exists w].
  destruct (Hwaiting (at_background w t (w_ct w) Waiting)) as (w' & Hs & Hrest); [by apply list_lookup_insert_eq|done|done|done|].
  exists w'. split; [|done]. eapply rtc_l; [by apply (step_work w t)|done].
Qed.

Lemma joining_thread w i p t : inv w -> call w i p -> joining w p = Some t -> (t < length (w_threads w))%nat.
Proof.
  intros Hw Hi Hj. destruct p; try done; cbn in Hj.
  - injection Hj as ->. by apply (ci_stop w Hw i (StopJoin t)).
  - pose proof (ci_lock_state w Hw i _ Hi eq_refl) as Es. pose proof (ci_thread w Hw) as Hth. rewrite Es in Hth.
    destruct Hth as (t' & Et & Hlt). congruence.
Qed.

(** C22: the background thread is started and stopped safely.  However notifications,
    [Stop] and [LockAndStop] of any number of threads interleave: no check of
    [thread_] fails; at most one background thread is not at its end; while one is
    recorded and not being stopped it has not ended; a caller that waits for a thread
    can always be let go by that thread's own steps; and when [LockAndStop] has
    returned, no background thread is left unless a [Stop] is going on. *)
Theorem compress_thread_is_safe calls w : Forall starting calls -> rtc step (mkWorld CompressThread0 [] calls) w ->
  (locked (w_ct w) = false -> forall new, exists r1 r2 r3,
     NewWorkNotify_locked (w_ct w) new = Done r1 /\ Stop_locked (w_ct w) = Done r2 /\ LockAndStop_begin (w_ct w) = Done r3) /\
  (forall t t' b b', w_threads w !! t = Some b -> w_threads w !! t' = Some b' -> b <> Exited -> b' <> Exited -> t = t') /\
  (forall t, thread_ (w_ct w) = Some t -> run_ (w_ct w) = true -> w_threads w !! t <> Some Exited) /\
  (forall i p t, call w i p -> joining w p = Some t ->
     exists w', rtc step w w' /\ w_calls w' = w_calls w /\ w_threads w' !! t = Some Exited) /\
  (forall i t b, call w i Held -> w_threads w !! t = Some b -> b <> Exited ->
     exists j q, call w j q /\ stopping q = Some t).
Proof.
  intros Hc Hs. pose proof (compress_steps_inv _ _ Hs (compress_inv_init calls Hc)) as Hw. split; [|split; [|split; [|split]]].
  - intros _ new. pose proof (ci_thread w Hw) as Hth. unfold NewWorkNotify_locked, Stop_locked, LockAndStop_begin.
    destruct (w_ct w) as [sem lk st th run]. cbn in Hth. destruct st; try destruct Hth as (t & -> & _); try subst th; destruct new; eexists _, _, _; split_and!; reflexivity.
  - intros t t' b b' H1 H2 H3 H4. by apply (one_live w t t' b b').
  - apply (ci_alive w Hw).
  - intros i p t Hi Hj. destruct (join_ends w i p t Hw Hi Hj (joining_thread w i p t Hw Hi Hj)) as (w' & Hs' & (Hcalls & _) & Hex).
    by exists w'.
  - intros i t b Hi Ht Hb. destruct (ci_live w Hw t b Ht Hb) as [E|?]; [|done]. pose proof (ci_held w Hw i Hi) as Hns.
    pose proof (ci_thread w Hw) as Hth. destruct (state_ (w_ct w)); congruence.
Qed.

(** One caller notifies and another stops the thread: here after the start, while the
    stopper waits. *)
Definition example_calls : list pc := [CallNotify 1; CallStop].
Definition example_world : world := mkWorld (mkCompressThread 2 false Stopped None false) [Waiting] [Returned; StopJoin 0].

Lemma example_steps : rtc step (mkWorld CompressThread0 [] example_calls) example_world.
Proof.
  eapply rtc_l. { by apply (step_notify _ 0 1 true false (mkCompressThread 1 false Started (Some 0%nat) true)). }
  eapply rtc_l. { by apply (step_stop _ 1 (Some 0%nat) (mkCompressThread 1 false Stopped None true)). }
  eapply rtc_l. { by apply (step_stop_run _ 1 0). }
  eapply rtc_l. { by apply (step_stop_post _ 1 0). }
  done.
Qed.

Lemma compress_thread_is_safe_witness :
  exists w', rtc step example_world w' /\ w_calls w' = w_calls example_world /\ w_threads w' !! 0%nat = Some Exited.
Proof.
  apply (compress_thread_is_safe example_calls example_world ltac:(by repeat constructor) example_steps) with (i := 1%nat) (p := StopJoin 0); done.
Defined.
End CompressThread.
