(* ===== verification/SizeClassMap.v ===== *)
(** * SizeClassMap: allocation sizes and size classes

    [sanitizer_allocator_size_class_map.h].  The template parameters are the
    class [SizeClassMapParams]; [SizeClassMapOk] is what the compile-time checks
    and the arithmetic of the header need of them, and holds of the five
    instantiations at the end of the header.

    [Size] and [ClassID] are shown to be a Galois connection between sizes and
    classes, which is what [Validate] tests at run time. *)

From S2P Require Import Prelude Common.

(** ** Definitions *)

Class SizeClassMapParams := mkSizeClassMapParams {
  kNumBits : Z;
  kMinSizeLog : Z;
  kMidSizeLog : Z;
  kMaxSizeLog : Z;
  kMaxNumCachedHint : Z;
  kMaxBytesCachedLog : Z
}.

Section size_class_map.
Context `{SizeClassMapParams}.

Definition kMinSize : Z := Z.shiftl 1 kMinSizeLog.
Definition kMidSize : Z := Z.shiftl 1 kMidSizeLog.
Definition kMidClass : Z := kMidSize / kMinSize.
Definition scm_S : Z := kNumBits - 1.
Definition scm_M : Z := Z.shiftl 1 scm_S - 1.
Definition kMaxSize : Z := u64 (Z.shiftl 1 kMaxSizeLog).
Definition kNumClasses : Z := kMidClass + Z.shiftl (kMaxSizeLog - kMidSizeLog) scm_S + 1 + 1.
Definition kLargestClassID : Z := kNumClasses - 2.
Definition kBatchClassID : Z := kNumClasses - 1.
Definition kNumClassesRounded : Z :=
  if kNumClasses <=? 32 then 32 else
  if kNumClasses <=? 64 then 64 else
  if kNumClasses <=? 128 then 128 else 256.

(** [sizeof(uptr)] is 8. *)
Definition Size (class_id : Z) : Z :=
  if class_id =? kBatchClassID then kMaxNumCachedHint *64 8 else
  if class_id <=? kMidClass then kMinSize *64 class_id else
  let class_id := class_id - kMidClass in
  let t := u64 (Z.shiftl kMidSize (Z.shiftr class_id scm_S)) in
  t +64 Z.shiftr t scm_S * Z.land class_id scm_M.

Definition ClassID (size : Z) : outcome Z :=
  if kMaxSize <? size then mret 0 else
  if size <=? kMidSize then mret (Z.shiftr (size +64 kMinSize -64 1) kMinSizeLog) else
  l ← MostSignificantSetBitIndex size;
  let hbits := Z.land (Z.shiftr size (l - scm_S)) scm_M in
  let lbits := Z.land size (u32 (u32 (Z.shiftl 1 (l - scm_S)) - 1)) in
  let l1 := l - kMidSizeLog in
  mret (kMidClass + Z.shiftl l1 scm_S + hbits + (if 0 <? lbits then 1 else 0)).

(** The divisions are by a non-zero size; release builds drop the [DCHECK]. *)
Definition MaxCachedHint (size : Z) : Z :=
  if size =? 0 then 0 else
  let n := if (31 <? kMaxBytesCachedLog) || (31 <? kMaxSizeLog)
           then u64 (Z.shiftl 1 kMaxBytesCachedLog) / size
           else u32 (Z.shiftl 1 kMaxBytesCachedLog) / u32 size in
  Max 1 (Min kMaxNumCachedHint n).

(** One iteration of the first loop of [Validate]. *)
Definition validate_class (c : Z) : outcome unit :=
  let s := Size c in
  _ ← check (negb (s =? 0)) "CHECK_NE";
  if c =? kBatchClassID then mret tt else
  c1 ← ClassID s;
  _ ← check (c1 =? c) "CHECK_EQ";
  _ ← (if c <? kLargestClassID
       then (c2 ← ClassID (s + 1); check (c2 =? c + 1) "CHECK_EQ") else mret tt);
  c3 ← ClassID (s - 1);
  _ ← check (c3 =? c) "CHECK_EQ";
  check (Size (c - 1) <? Size c) "CHECK_GT".

(** One iteration of the second loop. *)
Definition validate_size (s : Z) : outcome unit :=
  c ← ClassID s;
  _ ← check (c <? kNumClasses) "CHECK_LT";
  _ ← check (s <=? Size c) "CHECK_GE";
  if 0 <? c then check (Size (c - 1) <? s) "CHECK_LT" else mret tt.

Fixpoint run_checks (f : Z -> outcome unit) (l : list Z) : outcome unit :=
  match l with [] => mret tt | x :: l => _ ← f x; run_checks f l end.

Definition Validate : outcome unit :=
  _ ← run_checks validate_class (map (Z.add 1) (zrange (kNumClasses - 1)));
  c ← ClassID (kMaxSize + 1);
  _ ← check (c =? 0) "CHECK_EQ";
  run_checks validate_size (map (Z.add 1) (zrange kMaxSize)).

End size_class_map.

(** What the compile-time checks state, the ranges for which the header's shifts
    are defined, and a step of at least two bytes between classes. *)
Class SizeClassMapOk `(P : SizeClassMapParams) : Prop := {
  scm_bits : 1 <= kNumBits;
  scm_min : 1 <= kMinSizeLog <= kMidSizeLog;
  scm_step : kMinSizeLog <= kMidSizeLog - scm_S /\ kMidSizeLog < 31;
  scm_max : kMidSizeLog < kMaxSizeLog /\ kMaxSizeLog - scm_S < 32 /\ kMaxSizeLog < 62;
  scm_hint : 1 <= kMaxNumCachedHint < 2 ^ 30 /\
             Z.land kMaxNumCachedHint (kMaxNumCachedHint - 1) = 0;
  scm_bytes : 0 <= kMaxBytesCachedLog < 64;
  scm_classes : 16 <= kNumClasses <= 256
}.

Definition DefaultSizeClassMap := mkSizeClassMapParams 3 4 8 17 128 16.
Definition CompactSizeClassMap := mkSizeClassMapParams 3 4 8 17 64 14.
Definition VeryCompactSizeClassMap := mkSizeClassMapParams 2 5 9 16 64 14.
Definition DenseSizeClassMap := mkSizeClassMapParams 3 4 8 17 8 10.
Definition VeryDenseSizeClassMap := mkSizeClassMapParams 2 5 9 16 8 10.

Ltac solve_scm := split; vm_compute; repeat split; congruence.
#[export] Instance DefaultSizeClassMap_ok : SizeClassMapOk DefaultSizeClassMap. Proof. solve_scm. Qed.
#[export] Instance CompactSizeClassMap_ok : SizeClassMapOk CompactSizeClassMap. Proof. solve_scm. Qed.
#[export] Instance VeryCompactSizeClassMap_ok : SizeClassMapOk VeryCompactSizeClassMap. Proof. solve_scm. Qed.
#[export] Instance DenseSizeClassMap_ok : SizeClassMapOk DenseSizeClassMap. Proof. solve_scm. Qed.
#[export] Instance VeryDenseSizeClassMap_ok : SizeClassMapOk VeryDenseSizeClassMap. Proof. solve_scm. Qed.

Example default_classes :
  (@kNumClasses DefaultSizeClassMap, @kNumClassesRounded DefaultSizeClassMap,
   map (@Size DefaultSizeClassMap) [1; 16; 17; 20; 48; 51; 52],
   map (@ClassID DefaultSizeClassMap) [1; 16; 17; 256; 257; 131072; 131073])
  = (54, 64, [16; 256; 320; 512; 65536; 114688; 131072],
     map Done [1; 1; 2; 16; 17; 52; 0]).
Proof. vm_compute. reflexivity. Qed.

(** ** Lemmas *)

Section facts.
Context `{P : SizeClassMapParams, !SizeClassMapOk P}.

Lemma scm_powers :
  kMinSize = 2 ^ kMinSizeLog /\ kMidSize = 2 ^ kMidSizeLog /\
  kMidClass = 2 ^ (kMidSizeLog - kMinSizeLog) /\ kMaxSize = 2 ^ kMaxSizeLog /\
  scm_M = Z.ones scm_S /\ 0 <= scm_S.
Proof.
  pose proof scm_bits. pose proof scm_min. pose proof scm_step. pose proof scm_max.
  assert (0 <= scm_S) by (unfold scm_S; lia).
  unfold kMidClass, kMinSize, kMidSize, kMaxSize, scm_M. rewrite !Z.shiftl_1_l.
  split_and!; try done.
  - rewrite Z.pow_sub_r by lia. done.
  - apply u64_small. split; [lia|]. apply Z.pow_lt_mono_r; lia.
  - rewrite Z.ones_equiv. lia.
Qed.

Lemma kLargestClassID_eq : kLargestClassID = kMidClass + (kMaxSizeLog - kMidSizeLog) * 2 ^ scm_S.
Proof.
  pose proof scm_powers as (_ & _ & _ & _ & _ & ?).
  unfold kLargestClassID, kNumClasses. rewrite Z.shiftl_mul_pow2 by done. lia.
Qed.

Lemma kMidClass_pos : 1 <= kMidClass.
Proof.
  pose proof scm_powers as (_ & _ & -> & _). pose proof scm_min.
  pose proof (Z.pow_pos_nonneg 2 (kMidSizeLog - kMinSizeLog)). lia.
Qed.

Lemma kMidClass_lt : kMidClass < kLargestClassID.
Proof.
  rewrite kLargestClassID_eq. pose proof scm_max.
  pose proof scm_powers as (_ & _ & _ & _ & _ & HS). pose proof (Z.pow_pos_nonneg 2 scm_S). nia.
Qed.

(** The first classes grow by [kMinSize]. *)
Lemma Size_low c : 0 <= c <= kMidClass -> Size c = 2 ^ kMinSizeLog * c.
Proof.
  intros Hc. pose proof kMidClass_lt. pose proof scm_powers as (Hmin & _ & Hcl & _).
  pose proof scm_min. pose proof scm_step. unfold Size.
  rewrite (proj2 (Z.eqb_neq c kBatchClassID)) by (unfold kBatchClassID, kLargestClassID in *; lia).
  rewrite (proj2 (Z.leb_le c kMidClass)) by lia. rewrite Hmin. apply u64_small.
  assert (2 ^ kMinSizeLog * kMidClass = 2 ^ kMidSizeLog) as E
    by (rewrite Hcl, <- Z.pow_add_r by lia; f_equal; lia).
  pose proof (Z.pow_pos_nonneg 2 kMinSizeLog). pose proof (Z.pow_lt_mono_r 2 kMidSizeLog 64). nia.
Qed.

(** From [kMidSize] on, band [k] has [2^S] classes, [2^(mid+k-S)] apart. *)
Lemma Size_band k j :
  0 <= k < kMaxSizeLog - kMidSizeLog -> 0 <= j <= 2 ^ scm_S ->
  Size (kMidClass + k * 2 ^ scm_S + j) = 2 ^ (kMidSizeLog + k - scm_S) * (2 ^ scm_S + j).
Proof.
  pose proof scm_powers as (Hmin & Hmid & Hcl & _ & HM & HS). pose proof scm_min. pose proof scm_step.
  pose proof scm_max. pose proof (Z.pow_pos_nonneg 2 scm_S ltac:(lia) HS) as Hp.
  assert (forall k j, 0 <= k <= kMaxSizeLog - kMidSizeLog -> 0 <= j < 2 ^ scm_S -> 0 < k + j ->
    k * 2 ^ scm_S + j <= (kMaxSizeLog - kMidSizeLog) * 2 ^ scm_S ->
    Size (kMidClass + (k * 2 ^ scm_S + j)) = 2 ^ (kMidSizeLog + k - scm_S) * (2 ^ scm_S + j)) as Hin.
  { clear k j. intros k j Hk Hj Hkj Hle. unfold Size.
    pose proof kLargestClassID_eq as HL.
    rewrite (proj2 (Z.eqb_neq _ kBatchClassID)) by (unfold kBatchClassID, kLargestClassID in *; lia).
    rewrite (proj2 (Z.leb_gt _ kMidClass)) by nia.
    replace (kMidClass + (k * 2 ^ scm_S + j) - kMidClass) with (k * 2 ^ scm_S + j) by lia.
    rewrite HM, Z.land_ones, Z.shiftr_div_pow2 by lia.
    replace ((k * 2 ^ scm_S + j) / 2 ^ scm_S) with k
      by (apply (Z.div_unique _ _ k j); lia).
    replace ((k * 2 ^ scm_S + j) mod 2 ^ scm_S) with j
      by (apply (Z.mod_unique _ _ k j); lia).
    rewrite Hmid, Z.shiftl_mul_pow2, <- Z.pow_add_r by lia.
    pose proof (Z.pow_lt_mono_r 2 (kMidSizeLog + k) 63).
    rewrite (u64_small (2 ^ (kMidSizeLog + k))) by lia.
    rewrite Z.shiftr_div_pow2, <- Z.pow_sub_r by lia.
    assert (2 ^ (kMidSizeLog + k) = 2 ^ (kMidSizeLog + k - scm_S) * 2 ^ scm_S) as E
      by (rewrite <- Z.pow_add_r by lia; f_equal; lia).
    rewrite E. rewrite u64_small by nia. ring. }
  intros Hk Hj. rewrite <- Z.add_assoc.
  destruct (Z.eq_dec (k + j) 0) as [E0|E0].
  { assert (k = 0 /\ j = 0) as [-> ->] by lia. rewrite !Z.add_0_r.
    rewrite Size_low by (pose proof kMidClass_pos; lia).
    rewrite Hcl, <- !Z.pow_add_r by lia. f_equal; lia. }
  destruct (Z.eq_dec j (2 ^ scm_S)) as [->|].
  - replace (k * 2 ^ scm_S + 2 ^ scm_S) with ((k + 1) * 2 ^ scm_S + 0) by lia.
    rewrite Hin by nia. replace (kMidSizeLog + (k + 1) - scm_S) with (1 + (kMidSizeLog + k - scm_S)) by lia.
    rewrite (Z.pow_add_r 2 1) by lia. ring.
  - apply Hin; nia.
Qed.

(** A class above the first ones is [j]-th in band [k]. *)
Lemma class_band c :
  kMidClass <= c < kLargestClassID ->
  exists k j, c = kMidClass + k * 2 ^ scm_S + j /\ 0 <= k < kMaxSizeLog - kMidSizeLog /\ 0 <= j < 2 ^ scm_S.
Proof.
  intros Hc. rewrite kLargestClassID_eq in Hc. pose proof scm_powers as (_ & _ & _ & _ & _ & HS).
  pose proof (Z.pow_pos_nonneg 2 scm_S ltac:(lia) HS) as Hp.
  exists ((c - kMidClass) / 2 ^ scm_S), ((c - kMidClass) mod 2 ^ scm_S).
  pose proof (Z.div_mod (c - kMidClass) (2 ^ scm_S)). pose proof (Z.mod_pos_bound (c - kMidClass) (2 ^ scm_S)).
  split; [lia|]. split; [|lia]. split; [apply Z.div_pos; lia|]. apply Z.div_lt_upper_bound; lia.
Qed.

(** Consecutive classes are at least [kMinSize] apart. *)
Lemma Size_step c : 0 <= c < kLargestClassID -> Size c + 2 ^ kMinSizeLog <= Size (c + 1).
Proof.
  intros Hc. destruct (Z.lt_ge_cases c kMidClass) as [Hlt|Hge].
  - rewrite !Size_low by lia. lia.
  - destruct (class_band c ltac:(lia)) as (k & j & -> & Hk & Hj). rewrite <- (Z.add_assoc _ j 1).
    rewrite !Size_band by lia. pose proof scm_step. pose proof scm_min.
    pose proof (Z.pow_le_mono_r 2 kMinSizeLog (kMidSizeLog + k - scm_S)). lia.
Qed.

Lemma Size_0 : Size 0 = 0.
Proof. rewrite Size_low by (pose proof kMidClass_pos; lia). lia. Qed.

Lemma Size_mono c d : 0 <= c -> c < d -> d <= kLargestClassID -> Size c < Size d.
Proof.
  intros H0 Hlt. replace d with (c + Z.of_nat (Z.to_nat (d - c - 1)) + 1) by lia.
  induction (Z.to_nat (d - c - 1)) as [|n IH]; intros Hle.
  - replace (c + Z.of_nat 0 + 1) with (c + 1) by lia. pose proof (Size_step c).
    pose proof scm_min. pose proof (Z.pow_pos_nonneg 2 kMinSizeLog). lia.
  - specialize (IH ltac:(lia)). pose proof (Size_step (c + Z.of_nat n + 1)).
    pose proof scm_min. pose proof (Z.pow_pos_nonneg 2 kMinSizeLog).
    replace (c + Z.of_nat (Datatypes.S n) + 1) with (c + Z.of_nat n + 1 + 1) by lia. lia.
Qed.

(** Every chunk size is a multiple of [kMinSize]. *)
Lemma Size_divide c : 0 <= c <= kLargestClassID -> (2 ^ kMinSizeLog | Size c).
Proof.
  intros Hc. pose proof scm_min. pose proof scm_step. destruct (Z.le_gt_cases c kMidClass).
  - exists c. rewrite Size_low by lia. ring.
  - destruct (class_band (c - 1)) as (k & j & E & Hk & Hj); [lia|].
    exists (2 ^ (kMidSizeLog + k - scm_S - kMinSizeLog) * (2 ^ scm_S + (j + 1))).
    replace c with (kMidClass + k * 2 ^ scm_S + (j + 1)) by lia. rewrite Size_band by lia.
    replace (kMidSizeLog + k - scm_S) with (kMidSizeLog + k - scm_S - kMinSizeLog + kMinSizeLog) at 1 by lia.
    rewrite Z.pow_add_r by lia. ring.
Qed.

Lemma Size_largest : Size kLargestClassID = kMaxSize.
Proof.
  pose proof scm_powers as (_ & _ & _ & HX & _ & HS). pose proof scm_max. pose proof scm_step. pose proof scm_min.
  rewrite kLargestClassID_eq.
  replace (kMidClass + (kMaxSizeLog - kMidSizeLog) * 2 ^ scm_S)
    with (kMidClass + (kMaxSizeLog - kMidSizeLog - 1) * 2 ^ scm_S + 2 ^ scm_S) by lia.
  pose proof (Z.pow_pos_nonneg 2 scm_S). rewrite Size_band by lia.
  replace (2 ^ scm_S + 2 ^ scm_S) with (2 ^ (1 + scm_S)) by (rewrite Z.pow_add_r by lia; lia).
  rewrite <- Z.pow_add_r, HX by lia. f_equal. lia.
Qed.

(** The class [c] is the least one whose chunks hold [s] bytes. *)
Definition fits (s c : Z) : Prop := 1 <= c <= kLargestClassID /\ Size (c - 1) < s <= Size c.

Lemma fits_unique s c d : fits s c -> fits s d -> c = d.
Proof.
  intros [Hc Hsc] [Hd Hsd]. destruct (Z.lt_trichotomy c d) as [Hlt|[|Hlt]]; [|done|].
  - exfalso. destruct (Z.eq_dec c (d - 1)) as [->|]; [lia|].
    pose proof (Size_mono c (d - 1) ltac:(lia) ltac:(lia) ltac:(lia)). lia.
  - exfalso. destruct (Z.eq_dec d (c - 1)) as [->|]; [lia|].
    pose proof (Size_mono d (c - 1) ltac:(lia) ltac:(lia) ltac:(lia)). lia.
Qed.

Lemma ClassID_low s : 1 <= s <= kMidSize -> exists c, ClassID s = Done c /\ fits s c.
Proof.
  intros Hs. pose proof scm_powers as (Hmin & Hmid & Hcl & HX & _ & _).
  pose proof scm_min. pose proof scm_step. pose proof scm_max.
  pose proof (Z.pow_lt_mono_r 2 kMidSizeLog kMaxSizeLog).
  pose proof (Z.pow_lt_mono_r 2 kMidSizeLog 62). pose proof (Z.pow_le_mono_r 2 kMinSizeLog kMidSizeLog).
  assert (0 < 2 ^ kMinSizeLog) as Hp by (apply Z.pow_pos_nonneg; lia).
  unfold ClassID. rewrite (proj2 (Z.ltb_ge kMaxSize s)) by lia. rewrite (proj2 (Z.leb_le s kMidSize)) by lia.
  replace (s +64 kMinSize -64 1) with (s + kMinSize - 1).
  2:{ rewrite (u64_small (s + kMinSize)) by lia. rewrite u64_small by lia. done. }
  rewrite Z.shiftr_div_pow2, Hmin by lia.
  set (c := (s + 2 ^ kMinSizeLog - 1) / 2 ^ kMinSizeLog).
  assert (2 ^ kMinSizeLog * c <= s + 2 ^ kMinSizeLog - 1 < 2 ^ kMinSizeLog * c + 2 ^ kMinSizeLog) as Hdiv.
  { pose proof (Z.div_mod (s + 2 ^ kMinSizeLog - 1) (2 ^ kMinSizeLog)) as E.
    pose proof (Z.mod_pos_bound (s + 2 ^ kMinSizeLog - 1) (2 ^ kMinSizeLog)). fold c in E. lia. }
  assert (2 ^ kMinSizeLog * kMidClass = kMidSize) as E
    by (rewrite Hcl, Hmid, <- Z.pow_add_r by lia; f_equal; lia).
  assert (1 <= c <= kMidClass) as Hc by nia.
  exists c. split; [done|]. pose proof kMidClass_lt. split; [lia|].
  rewrite !Size_low by lia. lia.
Qed.

(** A size above [kMidSize] by its most significant bit, the [S] bits below and
    the rest. *)
Lemma ClassID_high s : kMidSize < s <= kMaxSize -> exists c, ClassID s = Done c /\ fits s c.
Proof.
  intros Hs. pose proof scm_powers as (Hmin & Hmid & _ & HX & HM & HS).
  pose proof scm_min. pose proof scm_step. pose proof scm_max.
  assert (0 < 2 ^ kMidSizeLog) by (apply Z.pow_pos_nonneg; lia).
  pose proof (Z.pow_lt_mono_r 2 kMaxSizeLog 62).
  unfold ClassID. rewrite (proj2 (Z.ltb_ge kMaxSize s)) by lia. rewrite (proj2 (Z.leb_gt s kMidSize)) by lia.
  unfold MostSignificantSetBitIndex, CHECK_NE0. rewrite (proj2 (Z.eqb_neq s 0)) by lia.
  cbn [negb check mbind outcome_bind mret outcome_ret].
  pose proof (Z.log2_spec s ltac:(lia)) as Hl. pose proof (Z.log2_nonneg s) as Hl0.
  set (l := Z.log2 s) in *. clearbody l.
  assert (kMidSizeLog <= l <= kMaxSizeLog) as Hlb.
  { split; [apply Z.lt_succ_r, (Z.pow_lt_mono_r_iff 2); lia|apply (Z.pow_le_mono_r_iff 2); lia]. }
  set (e := l - scm_S). assert (0 <= e < 32) as He by lia.
  assert (u32 (u32 (Z.shiftl 1 e) - 1) = 2 ^ e - 1) as ->.
  { rewrite Z.shiftl_1_l. pose proof (Z.pow_lt_mono_r 2 e 32). pose proof (Z.pow_pos_nonneg 2 e).
    rewrite !u32_small; rewrite ?u32_small; lia. }
  rewrite HM. replace (2 ^ e - 1) with (Z.ones e) by (rewrite Z.ones_equiv; lia).
  rewrite !Z.land_ones, Z.shiftr_div_pow2, Z.shiftl_mul_pow2 by lia.
  pose proof (Z.pow_pos_nonneg 2 e ltac:(lia) ltac:(lia)) as Hpe.
  pose proof (Z.pow_pos_nonneg 2 scm_S ltac:(lia) HS) as HpS.
  pose proof (Z.div_mod s (2 ^ e) ltac:(lia)) as Hdm. pose proof (Z.mod_pos_bound s (2 ^ e) Hpe) as Hr.
  set (q := s / 2 ^ e) in *. set (r := s mod 2 ^ e) in *. clearbody q r.
  assert (2 ^ l = 2 ^ e * 2 ^ scm_S) as El by (rewrite <- Z.pow_add_r by lia; f_equal; lia).
  assert (2 ^ Z.succ l = 2 ^ e * (2 * 2 ^ scm_S)) as El1 by (rewrite Z.pow_succ_r by lia; lia).
  assert (2 ^ scm_S <= q < 2 * 2 ^ scm_S) as Hq by nia.
  assert (q mod 2 ^ scm_S = q - 2 ^ scm_S) as ->.
  { symmetry. apply (Z.mod_unique _ _ 1); lia. }
  set (j := q - 2 ^ scm_S). set (k := l - kMidSizeLog).
  assert (s = 2 ^ e * (2 ^ scm_S + j) + r) as Es by (unfold j; lia). assert (0 <= j < 2 ^ scm_S) as Hj by lia.
  pose proof kLargestClassID_eq as HL. pose proof kMidClass_pos as HM1.
  eexists. split; [reflexivity|].
  assert (e = kMidSizeLog + k - scm_S) as Ek by lia.
  destruct (Z.eq_dec l kMaxSizeLog) as [Emax|].
  - assert (s = 2 ^ l) as Esl by (pose proof (f_equal (Z.pow 2) Emax); lia). assert (j = 0 /\ r = 0) as [Ej Er] by nia.
    rewrite Ej, Er. cbn [Z.ltb Z.compare]. rewrite !Z.add_0_r.
    assert (kMidClass + k * 2 ^ scm_S = kLargestClassID) as -> by (unfold k; rewrite HL, Emax; lia).
    assert (kMidClass < kLargestClassID) by apply kMidClass_lt.
    split; [lia|]. rewrite Size_largest. split; [|lia].
    assert (s = kMaxSize) as -> by (rewrite HX, Esl, Emax; done). rewrite <- Size_largest.
    apply Size_mono; lia.
  - assert (0 <= k < kMaxSizeLog - kMidSizeLog) as Hk by lia.
    destruct (Z.ltb_spec 0 r) as [Hr0|Hr0].
    + split; [rewrite HL; nia|]. rewrite Z.add_simpl_r. rewrite <- (Z.add_assoc _ j 1).
      rewrite !Size_band by lia. rewrite <- Ek, Es. nia.
    + rewrite Z.add_0_r. assert (Size (kMidClass + k * 2 ^ scm_S + j) = s) as Esz.
      { rewrite Size_band by lia. rewrite <- Ek. lia. }
      split; [rewrite HL; nia|]. rewrite Esz. split; [|lia]. rewrite <- Esz. apply Size_mono; [nia|lia|].
      rewrite HL. nia.
Qed.

Lemma ClassID_fits s : 1 <= s <= kMaxSize -> exists c, ClassID s = Done c /\ fits s c.
Proof.
  intros Hs. destruct (Z.le_gt_cases s kMidSize); [apply ClassID_low|apply ClassID_high]; lia.
Qed.

Lemma ClassID_of_fits s c : fits s c -> ClassID s = Done c.
Proof.
  intros Hf. pose proof Hf as [Hc Hs]. assert (1 <= s <= kMaxSize) as Hb.
  { rewrite <- Size_largest. split.
    - destruct (Z.eq_dec c 1) as [->|]; [change (1 - 1) with 0 in Hs; rewrite Size_0 in Hs; lia|].
      pose proof (Size_mono 0 (c - 1) ltac:(lia) ltac:(lia) ltac:(lia)). rewrite Size_0 in *. lia.
    - destruct (Z.eq_dec c kLargestClassID) as [Ec|]; [rewrite <- Ec; lia|].
      pose proof (Size_mono c kLargestClassID). lia. }
  destruct (ClassID_fits s Hb) as (d & -> & Hd). f_equal. by eapply fits_unique.
Qed.

Lemma ClassID_too_big s : kMaxSize < s -> ClassID s = Done 0.
Proof. intros Hs. unfold ClassID. by rewrite (proj2 (Z.ltb_lt kMaxSize s) Hs). Qed.

(** Every size up to the maximum has a class, the least that holds it. *)
Lemma ClassID_least s :
  1 <= s <= kMaxSize ->
  exists c, ClassID s = Done c /\ 1 <= c <= kLargestClassID /\
    forall d, 0 <= d <= kLargestClassID -> s <= Size d <-> c <= d.
Proof.
  intros Hs. destruct (ClassID_fits s Hs) as (c & E & Hc & Hlo & Hhi).
  exists c. split_and!; [done|lia|lia|]. intros d Hd. split.
  - intros Hsd. destruct (Z.le_gt_cases c d) as [|Hlt]; [done|]. exfalso.
    destruct (Z.eq_dec d (c - 1)) as [->|]; [lia|].
    pose proof (Size_mono d (c - 1) ltac:(lia) ltac:(lia) ltac:(lia)). lia.
  - intros Hcd. destruct (Z.eq_dec c d) as [->|]; [done|].
    pose proof (Size_mono c d ltac:(lia) ltac:(lia) ltac:(lia)). lia.
Qed.

Lemma Size_pos c : 1 <= c <= kLargestClassID -> 0 < Size c.
Proof. intros Hc. rewrite <- Size_0. apply Size_mono; lia. Qed.

Lemma Size_le_max c : 0 <= c <= kLargestClassID -> Size c <= kMaxSize.
Proof.
  intros Hc. rewrite <- Size_largest. destruct (Z.eq_dec c kLargestClassID) as [Ec|]; [by rewrite Ec|].
  pose proof (Size_mono c kLargestClassID). lia.
Qed.

Lemma ClassID_Size c : 1 <= c <= kLargestClassID -> ClassID (Size c) = Done c.
Proof.
  intros Hc. apply ClassID_of_fits. split; [done|]. split; [|done]. apply Size_mono; lia.
Qed.

(** A size that is a multiple of a power of two gets chunks whose size is. *)
Lemma class_size_multiple s a c :
  0 <= a -> (2 ^ a | s) -> fits s c -> (2 ^ a | Size c).
Proof.
  intros Ha [m Hm] [Hc Hs]. pose proof scm_powers as (Hmin & Hmid & Hcl & HX & HM & HS).
  pose proof scm_min. pose proof scm_step. pose proof scm_max.
  assert (0 < 2 ^ a) by (apply Z.pow_pos_nonneg; lia).
  (* either the step between classes is a multiple of the alignment, or [s] is a class size *)
  assert (forall e u, 0 <= e -> Size c = 2 ^ e * u -> Size (c - 1) = 2 ^ e * (u - 1) -> (2 ^ a | Size c)) as Hstep.
  { intros e u He Hu Hu'. rewrite Hu, Hu' in Hs.
    assert (0 < 2 ^ e) by (apply Z.pow_pos_nonneg; lia). destruct (Z.le_gt_cases a e) as [Hae|Hea].
    - exists (2 ^ (e - a) * u). rewrite Hu. replace e with (e - a + a) at 1 by lia.
      rewrite Z.pow_add_r by lia. ring.
    - exists m. rewrite Hu, <- Hm.
      assert (s = 2 ^ e * (m * 2 ^ (a - e))) as E.
      { rewrite Hm. replace a with (e + (a - e)) at 1 by lia. rewrite Z.pow_add_r by lia. ring. }
      rewrite E in Hs |- *. f_equal. nia. }
  destruct (Z.le_gt_cases c kMidClass).
  - apply (Hstep kMinSizeLog c); [lia|apply Size_low; lia|apply Size_low; lia].
  - destruct (class_band (c - 1) ltac:(lia)) as (k & j & E & Hk & Hj).
    apply (Hstep (kMidSizeLog + k - scm_S) (2 ^ scm_S + j + 1)); [lia| |].
    + replace c with (kMidClass + k * 2 ^ scm_S + (j + 1)) by lia. rewrite Size_band by lia. ring.
    + rewrite E, Size_band by lia. ring.
Qed.

(** The number of chunks a thread caches is between one and the hint. *)
Lemma MaxCachedHint_range s : 1 <= s -> 1 <= MaxCachedHint s <= kMaxNumCachedHint.
Proof.
  intros Hs. pose proof scm_hint. unfold MaxCachedHint, Max, Min.
  rewrite (proj2 (Z.eqb_neq s 0)) by lia. cbv zeta.
  match goal with |- context [kMaxNumCachedHint <? ?x] => generalize x; intros n end.
  repeat case_match; bool_hyps; lia.
Qed.

Lemma run_checks_done f l : (forall x, x ∈ l -> f x = Done tt) -> run_checks f l = Done tt.
Proof.
  induction l as [|x l IH]; intros Hf; [done|]. cbn [run_checks]. rewrite (Hf x) by (by left).
  apply IH. intros y Hy. apply Hf. by right.
Qed.

Lemma elem_of_from_1 x n : x ∈ map (Z.add 1) (zrange n) -> 1 <= x <= n.
Proof.
  intros Hx. apply list_elem_of_fmap in Hx as (y & -> & Hy%elem_of_zrange). lia.
Qed.

Lemma validate_class_done c : 1 <= c < kNumClasses -> validate_class c = Done tt.
Proof.
  intros Hc. unfold validate_class. destruct (Z.eqb_spec c kBatchClassID) as [->|Hb].
  - pose proof scm_hint. unfold Size at 1. rewrite Z.eqb_refl.
    rewrite u64_small by lia. rewrite (proj2 (Z.eqb_neq (kMaxNumCachedHint * 8) 0)) by lia. done.
  - assert (1 <= c <= kLargestClassID) as Hl by (unfold kLargestClassID, kBatchClassID in *; lia).
    pose proof (Size_pos c Hl) as Hpos. pose proof (Size_step (c - 1) ltac:(lia)) as Hstep.
    rewrite Z.sub_add in Hstep. pose proof scm_min.
    assert (2 <= 2 ^ kMinSizeLog) by (apply (Z.pow_le_mono_r 2 1); lia).
    rewrite (proj2 (Z.eqb_neq (Size c) 0)) by lia. cbn [negb check mbind outcome_bind].
    rewrite ClassID_Size by done. cbn [mbind outcome_bind]. rewrite Z.eqb_refl. cbn [check mbind outcome_bind].
    assert ((if c <? kLargestClassID then c2 ← ClassID (Size c + 1); check (c2 =? c + 1) "CHECK_EQ" else mret tt)
            = Done tt) as ->.
    { destruct (Z.ltb_spec c kLargestClassID) as [Hlt|]; [|done].
      pose proof (Size_step c ltac:(lia)). rewrite (ClassID_of_fits _ (c + 1)).
      - cbn [mbind outcome_bind]. by rewrite Z.eqb_refl.
      - split; [lia|]. rewrite Z.add_simpl_r. lia. }
    cbn [mbind outcome_bind]. rewrite (ClassID_of_fits (Size c - 1) c) by (split; [done|lia]).
    cbn [mbind outcome_bind]. rewrite Z.eqb_refl. cbn [check mbind outcome_bind].
    by rewrite (proj2 (Z.ltb_lt (Size (c - 1)) (Size c))) by lia.
Qed.

Lemma validate_size_done s : 1 <= s <= kMaxSize -> validate_size s = Done tt.
Proof.
  intros Hs. unfold validate_size. destruct (ClassID_fits s Hs) as (c & -> & Hc & Hlo & Hhi).
  cbn [mbind outcome_bind]. rewrite (proj2 (Z.ltb_lt c kNumClasses)) by (unfold kLargestClassID in *; lia).
  cbn [check mbind outcome_bind]. rewrite (proj2 (Z.leb_le s (Size c))) by lia. cbn [check mbind outcome_bind].
  rewrite (proj2 (Z.ltb_lt 0 c)) by lia. by rewrite (proj2 (Z.ltb_lt (Size (c - 1)) s)) by lia.
Qed.

(** [ClassID] maps every size up to [kMaxSize] to the least class whose
    chunks hold it: the two functions form a Galois connection, for every
    instantiation of the template that passes its compile-time checks. *)
Theorem ClassID_Size_galois s :
  1 <= s <= kMaxSize ->
  exists c, ClassID s = Done c /\ 1 <= c <= kLargestClassID /\
    forall d, 0 <= d <= kLargestClassID -> s <= Size d <-> c <= d.
Proof. exact (ClassID_least s). Qed.

(** the self-check of the header passes: no [CHECK] of [Validate] fails,
    whatever the template parameters. *)
Theorem Validate_never_dies : Validate = Done tt.
Proof.
  unfold Validate. rewrite (run_checks_done validate_class).
  - cbn [mbind outcome_bind]. rewrite ClassID_too_big by lia. cbn.
    apply run_checks_done. intros s Hs%elem_of_from_1. apply validate_size_done. lia.
  - intros c Hc%elem_of_from_1. apply validate_class_done. lia.
Qed.

(** rounding a size up to an alignment before it is mapped to a class is
    enough for every chunk of the class, at a multiple of the chunk size, to have
    that alignment: the check after the primary allocation cannot fail. *)
Theorem class_size_keeps_alignment s a :
  0 <= a -> 1 <= s <= kMaxSize -> (2 ^ a | s) ->
  exists c, ClassID s = Done c /\ s <= Size c /\ (2 ^ a | Size c).
Proof.
  intros Ha Hs Hd. destruct (ClassID_fits s Hs) as (c & E & Hf). exists c.
  split_and!; [done|apply Hf|by eapply class_size_multiple].
Qed.
End facts.

(** ** Witnesses *)

Lemma ClassID_Size_galois_witness :
  1 <= 300 <= @kMaxSize DefaultSizeClassMap /\
  exists c, @ClassID DefaultSizeClassMap 300 = Done c /\ 1 <= c <= @kLargestClassID DefaultSizeClassMap /\
    forall d, 0 <= d <= @kLargestClassID DefaultSizeClassMap -> 300 <= @Size DefaultSizeClassMap d <-> c <= d.
Proof.
  assert (1 <= 300 <= @kMaxSize DefaultSizeClassMap) as H by (vm_compute; split; discriminate).
  split; [exact H|]. exact (@ClassID_Size_galois DefaultSizeClassMap _ 300 H).
Defined.

Lemma Validate_never_dies_witness :
  SizeClassMapOk VeryCompactSizeClassMap /\ @Validate VeryCompactSizeClassMap = Done tt.
Proof. split; [exact _|]. exact (@Validate_never_dies VeryCompactSizeClassMap _). Defined.

Lemma class_size_keeps_alignment_witness :
  (2 ^ 8 | 768) /\
  exists c, @ClassID DefaultSizeClassMap 768 = Done c /\ 768 <= @Size DefaultSizeClassMap c /\
    (2 ^ 8 | @Size DefaultSizeClassMap c).
Proof.
  split; [by exists 3|].
  apply (@class_size_keeps_alignment DefaultSizeClassMap _ 768 8);
    [lia|vm_compute; split; discriminate|by exists 3].
Defined.
