(* ===== verification/PageRelease.v ===== *)
(** * PageRelease: giving the pages of free chunks back to the operating system

    The part of [sanitizer_allocator_primary64.h] that decides which pages of a
    region hold nothing but free chunks: the array of packed counters, the tracker
    of page ranges, and [ReleaseFreeMemoryToOS], which counts the free chunks on
    every page and compares with the number of chunks a page has.

    The file shows that the packed counters behave as an array of integers, and
    that the pages released are exactly those all of whose chunks are free. *)

From S2P Require Import Prelude Common.

(** ** Definitions *)

Definition kCompactPtrScale : Z := 4.

(** *** PackedCounterArray *)

Record PackedCounterArray := mkPCA {
  pca_n : Z;
  counter_size_bits_log : Z;
  counter_mask : Z;
  packing_ratio_log : Z;
  bit_offset_mask : Z;
  pca_words : Z;          (* the size of the buffer *)
  pca_buffer : Z -> Z     (* its 64-bit words *)
}.

(** The buffer the mapper returns is zero-filled. *)
Definition PackedCounterArray_new (num_counters max_value : Z) : outcome PackedCounterArray :=
  _ ← check (0 <? num_counters) "CHECK_GT";
  _ ← check (0 <? max_value) "CHECK_GT";
  msb ← MostSignificantSetBitIndex max_value;
  counter_size_bits ← RoundUpToPowerOfTwo (msb + 1);
  _ ← check (counter_size_bits <=? 64) "CHECK_LE";
  size_log ← Log2 counter_size_bits;
  let mask := Z.shiftr (2 ^ 64 - 1) (64 - counter_size_bits) in
  let packing_ratio := Z.shiftr 64 size_log in
  _ ← check (0 <? packing_ratio) "CHECK_GT";
  ratio_log ← Log2 packing_ratio;
  rounded ← RoundUpTo num_counters (Z.shiftl 1 ratio_log);
  mret (mkPCA num_counters size_log mask ratio_log (packing_ratio - 1)
          (Z.shiftr rounded ratio_log) (fun _ => 0)).

(** [buffer] is the data of a vector: null when the vector is empty. *)
Definition IsAllocated (c : PackedCounterArray) : bool := 0 <? pca_words c.

Definition GetCount (c : PackedCounterArray) : Z := pca_n c.

Definition pca_index (c : PackedCounterArray) (i : Z) : Z := Z.shiftr i (packing_ratio_log c).
Definition pca_bit_offset (c : PackedCounterArray) (i : Z) : Z :=
  Z.shiftl (Z.land i (bit_offset_mask c)) (counter_size_bits_log c).

Definition pca_Get (c : PackedCounterArray) (i : Z) : Z :=
  Z.land (Z.shiftr (pca_buffer c (pca_index c i)) (pca_bit_offset c i)) (counter_mask c).

Definition Inc (c : PackedCounterArray) (i : Z) : PackedCounterArray :=
  let b := pca_buffer c in
  let index := pca_index c i in
  mkPCA (pca_n c) (counter_size_bits_log c) (counter_mask c) (packing_ratio_log c)
    (bit_offset_mask c) (pca_words c)
    (fun w => if w =? index then b w +64 Z.shiftl 1 (pca_bit_offset c i) else b w).

(** [for (uptr i = from; i <= to; i++) Inc(i)] *)
Definition IncRange (c : PackedCounterArray) (from to : Z) : PackedCounterArray :=
  fold_left (fun c d => Inc c (from + d)) (zrange (to - from + 1)) c.

(** *** FreePagesRangeTracker

    The ranges it hands to [ReleasePageRangeToOS] are collected in order, as
    compact pointers. *)

Record Tracker := mkTracker {
  in_the_range : bool;
  current_page : Z;
  current_range_start_page : Z;
  tr_released : list (Z * Z)
}.

Definition tracker_init : Tracker := mkTracker false 0 0 [].

Definition CloseOpenedRange (page_size_scaled_log : Z) (t : Tracker) : Tracker :=
  if in_the_range t then
    mkTracker false (current_page t) (current_range_start_page t)
      (tr_released t ++ [(u32 (Z.shiftl (current_range_start_page t) page_size_scaled_log),
                          u32 (Z.shiftl (current_page t) page_size_scaled_log))])
  else t.

Definition NextPage (page_size_scaled_log : Z) (t : Tracker) (freed : bool) : Tracker :=
  let t := if freed then
             if negb (in_the_range t)
             then mkTracker true (current_page t) (current_page t) (tr_released t) else t
           else CloseOpenedRange page_size_scaled_log t in
  mkTracker (in_the_range t) (current_page t + 1) (current_range_start_page t) (tr_released t).

(** *** ReleaseFreeMemoryToOS *)

(** How many chunks a page has at most, and whether all pages have that many. *)
Definition chunks_on_pages (page_size chunk_size : Z) : outcome (Z * bool) :=
  if (chunk_size <=? page_size) && (page_size mod chunk_size =? 0) then
    mret (page_size / chunk_size, true)
  else if (chunk_size <=? page_size) && negb (page_size mod chunk_size =? 0) &&
          (chunk_size mod (page_size mod chunk_size) =? 0) then
    mret (page_size / chunk_size + 1, true)
  else if chunk_size <=? page_size then mret (page_size / chunk_size + 2, false)
  else if (page_size <? chunk_size) && (chunk_size mod page_size =? 0) then mret (1, true)
  else if page_size <? chunk_size then mret (2, false)
  else Died "UNREACHABLE".

(** The loops over the free array. *)
Definition count_chunk (page_size chunk_size chunk_size_scaled page_size_scaled_log : Z)
    (c : PackedCounterArray) (e : Z) : PackedCounterArray :=
  if (chunk_size <=? page_size) && (page_size mod chunk_size =? 0)
  then Inc c (Z.shiftr e page_size_scaled_log)
  else IncRange c (Z.shiftr e page_size_scaled_log)
                  (Z.shiftr (e + chunk_size_scaled - 1) page_size_scaled_log).

(** The slow path: [(prev_page_boundary, current_boundary)] after a page, and the
    number of chunks on it. *)
Definition slow_step (page_size_scaled chunk_size_scaled pn : Z) (b : Z * Z) : (Z * Z) * Z :=
  let '(prev_page_boundary, current_boundary) := b in
  let pnc := pn * chunk_size_scaled in
  let page_boundary := prev_page_boundary + page_size_scaled in
  let chunks_per_page := pn in
  let '(current_boundary, chunks_per_page) :=
    if current_boundary <? page_boundary then
      let chunks_per_page := if prev_page_boundary <? current_boundary
                             then chunks_per_page + 1 else chunks_per_page in
      let current_boundary := current_boundary + pnc in
      if current_boundary <? page_boundary
      then (current_boundary + chunk_size_scaled, chunks_per_page + 1)
      else (current_boundary, chunks_per_page)
    else (current_boundary, chunks_per_page) in
  ((page_boundary, current_boundary), chunks_per_page).

Fixpoint slow_path (page_size_scaled chunk_size_scaled pn page_log : Z) (get : Z -> Z)
    (pages : list Z) (b : Z * Z) (t : Tracker) : Tracker :=
  match pages with
  | [] => t
  | i :: pages =>
      let '(b, chunks_per_page) := slow_step page_size_scaled chunk_size_scaled pn b in
      slow_path page_size_scaled chunk_size_scaled pn page_log get pages b
        (NextPage page_log t (get i =? chunks_per_page))
  end.

Definition ReleaseFreeMemoryToOS (page_size : Z) (free_array : list Z)
    (chunk_size allocated_pages_count : Z) : outcome (list (Z * Z)) :=
  full ← chunks_on_pages page_size chunk_size;
  let '(full_pages_chunk_count_max, same_chunk_count_per_page) := full : Z * bool in
  counters ← PackedCounterArray_new allocated_pages_count full_pages_chunk_count_max;
  if negb (IsAllocated counters) then mret [] else
  let chunk_size_scaled := Z.shiftr chunk_size kCompactPtrScale in
  let page_size_scaled := Z.shiftr page_size kCompactPtrScale in
  page_size_scaled_log ← Log2 page_size_scaled;
  let counters := fold_left (count_chunk page_size chunk_size chunk_size_scaled page_size_scaled_log)
                    free_array counters in
  let pages := zrange (GetCount counters) in
  let t :=
    if same_chunk_count_per_page then
      fold_left (fun t i => NextPage page_size_scaled_log t
                   (pca_Get counters i =? full_pages_chunk_count_max)) pages tracker_init
    else
      let pn := if chunk_size <? page_size then page_size_scaled / chunk_size_scaled else 1 in
      slow_path page_size_scaled chunk_size_scaled pn page_size_scaled_log (pca_Get counters)
        pages (0, 0) tracker_init in
  mret (tr_released (CloseOpenedRange page_size_scaled_log t)).

(** Chunks of 80 bytes on pages of 4096: pages 0 to 2 hold chunks 0 to 153, the
    last of which crosses into page 3. *)
Example release_80 :
  ReleaseFreeMemoryToOS 4096 (map (fun k => 5 * k) (zrange 154)) 80 5 = Done [(0, 768)].
Proof. vm_compute. reflexivity. Qed.

Example release_80_partial :
  ReleaseFreeMemoryToOS 4096 (map (fun k => 5 * k) (List.filter (fun k => negb (k =? 60)) (zrange 154))) 80 5
  = Done [(0, 256); (512, 768)].
Proof. vm_compute. reflexivity. Qed.

(** ** Lemmas *)

(** *** Counters packed into words *)

(** Adding one to a field that does not overflow changes no other field. *)
Lemma field_add W B i j :
  0 < B -> 0 <= i -> 0 <= j -> 0 <= W -> (W / 2 ^ (i * B)) mod 2 ^ B + 1 < 2 ^ B ->
  ((W + 2 ^ (i * B)) / 2 ^ (j * B)) mod 2 ^ B =
  (W / 2 ^ (j * B)) mod 2 ^ B + (if i =? j then 1 else 0).
Proof.
  intros HB Hi Hj HW Hf.
  assert (0 < 2 ^ B) by (apply Z.pow_pos_nonneg; lia).
  assert (forall k, 0 <= k -> 0 < 2 ^ (k * B)) as Hpos by (intros; apply Z.pow_pos_nonneg; nia).
  destruct (Z.eqb_spec i j) as [<-|Hne].
  - replace (W + 2 ^ (i * B)) with (W + 1 * 2 ^ (i * B)) by lia.
    rewrite Z.div_add by (pose proof (Hpos i); lia).
    rewrite <- Z.add_mod_idemp_l by lia. apply Z.mod_small.
    pose proof (Z.mod_pos_bound (W / 2 ^ (i * B)) (2 ^ B)). lia.
  - rewrite Z.add_0_r. destruct (Z.lt_ge_cases j i) as [Hlt|Hge].
    + replace (2 ^ (i * B)) with (2 ^ ((i - j - 1) * B) * 2 ^ B * 2 ^ (j * B))
        by (rewrite <- !Z.pow_add_r by nia; f_equal; lia).
      rewrite Z.div_add by (pose proof (Hpos j); lia). by rewrite Z.mod_add by lia.
    + f_equal. replace (2 ^ (j * B)) with (2 ^ (i * B) * (2 ^ B * 2 ^ ((j - i - 1) * B)))
        by (rewrite <- !Z.pow_add_r by nia; f_equal; lia).
      pose proof (Hpos i). pose proof (Hpos (j - i - 1)).
      rewrite <- !Z.div_div by nia. f_equal.
      replace (W + 2 ^ (i * B)) with (W + 1 * 2 ^ (i * B)) by lia. rewrite Z.div_add by lia.
      set (q := W / 2 ^ (i * B)) in *. symmetry. apply (Z.div_unique _ _ _ (q mod 2 ^ B + 1)).
      * pose proof (Z.mod_pos_bound q (2 ^ B)). lia.
      * pose proof (Z.div_mod q (2 ^ B)). lia.
Qed.

Lemma field_add_bound W B i :
  0 < B -> 0 <= i -> (i + 1) * B <= 64 -> 0 <= W < 2 ^ 64 ->
  (W / 2 ^ (i * B)) mod 2 ^ B + 1 < 2 ^ B -> W + 2 ^ (i * B) < 2 ^ 64.
Proof.
  intros HB Hi Hle HW Hf.
  assert (0 < 2 ^ B) by (apply Z.pow_pos_nonneg; lia).
  assert (0 < 2 ^ (i * B)) as Hp by (apply Z.pow_pos_nonneg; nia).
  assert (2 ^ 64 = 2 ^ (64 - (i + 1) * B) * 2 ^ B * 2 ^ (i * B)) as E64
    by (rewrite <- !Z.pow_add_r by nia; f_equal; lia).
  pose proof (Z.div_mod W (2 ^ (i * B)) ltac:(lia)) as HW1.
  pose proof (Z.mod_pos_bound W (2 ^ (i * B)) Hp) as HW2.
  set (q := W / 2 ^ (i * B)) in *. pose proof (Z.div_mod q (2 ^ B) ltac:(lia)) as Hq.
  set (a := q / 2 ^ B) in *. set (f := q mod 2 ^ B) in *.
  assert (a < 2 ^ (64 - (i + 1) * B)) as Ha.
  { unfold a, q. apply Z.div_lt_upper_bound; [lia|]. apply Z.div_lt_upper_bound; [lia|]. lia. }
  assert (q + 1 < (a + 1) * 2 ^ B) by lia.
  assert (q + 1 < 2 ^ (64 - (i + 1) * B) * 2 ^ B) by nia. nia.
Qed.

Record pca_ok (c : PackedCounterArray) : Prop := {
  pca_log : 0 <= counter_size_bits_log c <= 6;
  pca_mask : counter_mask c = 2 ^ 2 ^ counter_size_bits_log c - 1;
  pca_ratio : packing_ratio_log c = 6 - counter_size_bits_log c;
  pca_offset : bit_offset_mask c = 2 ^ packing_ratio_log c - 1;
  pca_word w : 0 <= pca_buffer c w < 2 ^ 64;
  (** every counter lies in the buffer *)
  pca_size i : 0 <= i < pca_n c -> 0 <= pca_index c i < pca_words c
}.

Lemma pca_Get_field c i :
  pca_ok c -> 0 <= i ->
  pca_Get c i = (pca_buffer c (i / 2 ^ packing_ratio_log c)
                 / 2 ^ ((i mod 2 ^ packing_ratio_log c) * 2 ^ counter_size_bits_log c))
                mod 2 ^ 2 ^ counter_size_bits_log c.
Proof.
  intros [Hl Hm Hr Ho _ _] Hi. unfold pca_Get, pca_index, pca_bit_offset. rewrite Hm, Ho.
  assert (0 <= 2 ^ counter_size_bits_log c) by (apply Z.pow_nonneg; lia).
  replace (2 ^ 2 ^ counter_size_bits_log c - 1) with (Z.ones (2 ^ counter_size_bits_log c))
    by (rewrite Z.ones_equiv; lia).
  replace (2 ^ packing_ratio_log c - 1) with (Z.ones (packing_ratio_log c)) by (rewrite Z.ones_equiv; lia).
  rewrite !Z.land_ones by lia. rewrite Z.shiftl_mul_pow2 by lia.
  pose proof (Z.mod_pos_bound i (2 ^ packing_ratio_log c)) as Hb.
  assert (0 < 2 ^ packing_ratio_log c) by (apply Z.pow_pos_nonneg; lia).
  rewrite !Z.shiftr_div_pow2 by nia. done.
Qed.

(** The packed array behaves as an array of integers. *)
Lemma Inc_spec c i :
  pca_ok c -> 0 <= i -> pca_Get c i < counter_mask c ->
  pca_ok (Inc c i) /\ counter_mask (Inc c i) = counter_mask c /\ pca_n (Inc c i) = pca_n c /\
  forall j, 0 <= j -> pca_Get (Inc c i) j = pca_Get c j + (if i =? j then 1 else 0).
Proof.
  intros Hok Hi Hlt. pose proof Hok as [Hl Hm Hr Ho Hw Hs].
  set (l := counter_size_bits_log c) in *. set (R := 2 ^ packing_ratio_log c).
  assert (0 < 2 ^ l) as HB by (apply Z.pow_pos_nonneg; lia).
  assert (0 < R) as HR by (apply Z.pow_pos_nonneg; lia).
  assert (R * 2 ^ l = 64) as E64.
  { unfold R. rewrite Hr, <- Z.pow_add_r by lia. replace (6 - l + l) with 6 by lia. done. }
  rewrite pca_Get_field in Hlt by done. fold l R in Hlt. rewrite Hm in Hlt.
  pose proof (Z.mod_pos_bound i R HR) as Hmi.
  assert (pca_bit_offset c i = (i mod R) * 2 ^ l) as Eoff.
  { unfold pca_bit_offset. rewrite Ho.
    replace (2 ^ packing_ratio_log c - 1) with (Z.ones (packing_ratio_log c)) by (rewrite Z.ones_equiv; lia).
    rewrite Z.land_ones, Z.shiftl_mul_pow2 by lia. done. }
  assert (pca_index c i = i / R) as Eidx by (unfold pca_index; rewrite Z.shiftr_div_pow2 by lia; done).
  assert (pca_buffer c (i / R) +64 Z.shiftl 1 (pca_bit_offset c i)
          = pca_buffer c (i / R) + 2 ^ (i mod R * 2 ^ l)) as Eadd.
  { rewrite Eoff, Z.shiftl_1_l. apply u64_small. pose proof (Hw (i / R)).
    split; [pose proof (Z.pow_nonneg 2 (i mod R * 2 ^ l)); lia|].
    apply field_add_bound; try done; try lia; nia. }
  assert (pca_ok (Inc c i)) as Hok'.
  { split; cbn; try done. intros w. destruct (Z.eqb_spec w (pca_index c i)); [apply u64_range|apply Hw]. }
  split_and!; [exact Hok'|done|done|]. intros j Hj.
  rewrite !pca_Get_field by done. cbn [counter_size_bits_log packing_ratio_log pca_buffer Inc].
  fold l R. rewrite Eidx. destruct (Z.eqb_spec (j / R) (i / R)) as [Ej|Ej].
  - rewrite Ej, Eadd. rewrite field_add; try done; try nia; [|pose proof (Z.mod_pos_bound j R HR); lia|apply Hw].
    f_equal. pose proof (Z.div_mod i R). pose proof (Z.div_mod j R). zcase; try done; nia.
  - destruct (Z.eqb_spec i j) as [->|]; [done|lia].
Qed.

(** What an operation on the counters adds to each of them. *)
Definition bumps (c c' : PackedCounterArray) (f : Z -> Z) : Prop :=
  pca_ok c' /\ counter_mask c' = counter_mask c /\ pca_n c' = pca_n c /\
  forall j, 0 <= j -> pca_Get c' j = pca_Get c j + f j.

Lemma bumps_refl c : pca_ok c -> bumps c c (fun _ => 0).
Proof. intros Hc. split_and!; try done. intros j _. lia. Qed.

Lemma bumps_trans c c' c'' f g h :
  bumps c c' f -> bumps c' c'' g -> (forall j, 0 <= j -> h j = f j + g j) -> bumps c c'' h.
Proof.
  intros (_ & Hm & Hn & Hf) (Hok & Hm' & Hn' & Hg) Hh.
  split_and!; [done|congruence|congruence|]. intros j Hj. rewrite Hg, Hf, Hh by done. lia.
Qed.

Definition b2z (b : bool) : Z := if b then 1 else 0.

Lemma Inc_bumps c i :
  pca_ok c -> 0 <= i -> pca_Get c i < counter_mask c -> bumps c (Inc c i) (fun j => b2z (i =? j)).
Proof. intros Hok Hi Hlt. destruct (Inc_spec c i Hok Hi Hlt) as (? & ? & ? & ?). by split_and!. Qed.

Lemma IncRange_bumps c from to :
  pca_ok c -> 0 <= from <= to + 1 -> (forall j, from <= j <= to -> pca_Get c j < counter_mask c) ->
  bumps c (IncRange c from to) (fun j => b2z ((from <=? j) && (j <=? to))).
Proof.
  intros Hok Hft Hlt. unfold IncRange, zrange.
  assert (forall n : nat, from + Z.of_nat n <= to + 1 ->
    bumps c (fold_left (fun c d => Inc c (from + d)) (map Z.of_nat (seq 0 n)) c)
      (fun j => b2z ((from <=? j) && (j <? from + Z.of_nat n)))) as Hind.
  { induction n as [|n IH]; intros Hn.
    - destruct (bumps_refl c Hok) as (? & ? & ? & H0). split_and!; try done. intros j Hj.
      change (pca_Get c j = pca_Get c j + b2z ((from <=? j) && (j <? from + 0))).
      zcase; cbn [b2z]; lia.
    - rewrite seq_S, map_app, fold_left_app. cbn [map fold_left].
      specialize (IH ltac:(lia)). pose proof IH as (Hok' & Hm & _ & Hget). rewrite Nat.add_0_l.
      eapply bumps_trans; [exact IH|apply Inc_bumps; [done|lia|]|].
      + rewrite Hget, Hm by lia. zcase; cbn [b2z]; try lia. specialize (Hlt (from + Z.of_nat n)). lia.
      + intros j Hj. cbn beta. zcase; cbn [b2z]; lia. }
  specialize (Hind (Z.to_nat (to - from + 1)) ltac:(lia)).
  destruct Hind as (? & ? & ? & Hget). split_and!; try done. intros j Hj. rewrite Hget by done.
  do 2 f_equal. zcase; try done; lia.
Qed.

Lemma PackedCounterArray_new_spec n mx :
  0 < n < 2 ^ 63 -> 0 < mx < 2 ^ 63 ->
  exists c, PackedCounterArray_new n mx = Done c /\ pca_ok c /\ pca_n c = n /\
    mx <= counter_mask c /\ IsAllocated c = true /\ forall i, 0 <= i -> pca_Get c i = 0.
Proof.
  intros Hn Hm. unfold PackedCounterArray_new, MostSignificantSetBitIndex, CHECK_NE0.
  rewrite (proj2 (Z.ltb_lt 0 n)), (proj2 (Z.ltb_lt 0 mx)), (proj2 (Z.eqb_neq mx 0)) by lia.
  cbn [check negb mbind outcome_bind mret outcome_ret].
  pose proof (Z.log2_spec mx ltac:(lia)) as Hl. pose proof (Z.log2_nonneg mx) as Hl0.
  set (m := Z.log2 mx) in *. clearbody m.
  assert (m < 63) by (apply (Z.pow_lt_mono_r_iff 2); lia).
  destruct (RoundUpToPowerOfTwo_spec (m + 1)) as (k & -> & Hk & Hb); [lia|]. cbn [mbind outcome_bind].
  assert (k <= 6) as Hk6.
  { apply Z.lt_succ_r. apply (Z.pow_lt_mono_r_iff 2); [lia|lia|]. change (2 ^ Z.succ 6) with 128. lia. }
  assert (Z.shiftr 64 k = 2 ^ (6 - k) /\ Z.shiftr (2 ^ 64 - 1) (64 - 2 ^ k) = 2 ^ 2 ^ k - 1 /\ 2 ^ k <= 64)
    as (E1 & E2 & Hle).
  { assert (k = 0 \/ k = 1 \/ k = 2 \/ k = 3 \/ k = 4 \/ k = 5 \/ k = 6) as Hc by lia.
    repeat destruct Hc as [-> | Hc]; try (split_and!; [reflexivity|reflexivity|apply Z.leb_le; reflexivity]).
    subst k. split_and!; [reflexivity|reflexivity|apply Z.leb_le; reflexivity]. }
  rewrite (proj2 (Z.leb_le (2 ^ k) 64)) by lia. cbn [check mbind outcome_bind].
  rewrite Log2_pow2 by lia. cbn [mbind outcome_bind]. rewrite E1, E2.
  pose proof (Z.pow_pos_nonneg 2 (6 - k) ltac:(lia) ltac:(lia)) as HR.
  rewrite (proj2 (Z.ltb_lt 0 (2 ^ (6 - k)))) by lia. cbn [check mbind outcome_bind].
  rewrite Log2_pow2 by lia. cbn [mbind outcome_bind]. rewrite Z.shiftl_1_l.
  pose proof (Z.pow_le_mono_r 2 (6 - k) 6).
  rewrite RoundUpTo_spec by lia. cbn [mbind outcome_bind].
  eexists. split; [reflexivity|].
  assert (n <= 2 ^ (6 - k) * ((n + 2 ^ (6 - k) - 1) / 2 ^ (6 - k))) as Hup.
  { pose proof (Z.div_mod (n + 2 ^ (6 - k) - 1) (2 ^ (6 - k))).
    pose proof (Z.mod_pos_bound (n + 2 ^ (6 - k) - 1) (2 ^ (6 - k))). lia. }
  set (u := (n + 2 ^ (6 - k) - 1) / 2 ^ (6 - k)) in *.
  assert (Z.shiftr (2 ^ (6 - k) * u) (6 - k) = u) as Eu
    by (rewrite Z.shiftr_div_pow2, Z.mul_comm, Z.div_mul by lia; done).
  split_and!.
  - split; cbn [counter_size_bits_log counter_mask packing_ratio_log bit_offset_mask pca_n pca_words pca_buffer];
      try lia; try done.
    intros i Hi. rewrite Eu. unfold pca_index. cbn [packing_ratio_log]. rewrite Z.shiftr_div_pow2 by lia.
    split; [apply Z.div_pos; lia|]. apply Z.div_lt_upper_bound; lia.
  - done.
  - cbn [counter_mask]. rewrite Z.pow_succ_r in Hl by lia.
    pose proof (Z.pow_le_mono_r 2 (m + 1) (2 ^ k)) as Hp. rewrite Z.pow_add_r, Z.pow_1_r in Hp by lia. lia.
  - unfold IsAllocated. cbn [pca_words]. rewrite Eu. apply Z.ltb_lt. nia.
  - intros i Hi. unfold pca_Get. cbn [pca_buffer counter_mask]. by rewrite Z.shiftr_0_l, Z.land_0_l.
Qed.

(** *** Chunks and pages

    Sizes are in units of a compact pointer: [C] is the size of a chunk, [G] the
    size of a page.  Chunk [k] starts at [k * C]. *)

Section geometry.
Context (C G : Z) (HC : 0 < C) (HG : 0 < G).

(** Chunk [k] has a byte on page [i]. *)
Definition on_page (k i : Z) : bool := (k * C / G <=? i) && (i <=? (k * C + C - 1) / G).

Definition first_chunk (i : Z) : Z := i * G / C.
Definition last_chunk (i : Z) : Z := ((i + 1) * G - 1) / C.

(** The number of chunks on a page. *)
Definition page_chunks (i : Z) : Z := last_chunk i - first_chunk i + 1.

Lemma div_le_iff x d i : 0 < d -> x / d <= i <-> x < (i + 1) * d.
Proof.
  intros Hd. pose proof (Z.div_mod x d). pose proof (Z.mod_pos_bound x d Hd). split; intros; nia.
Qed.

Lemma le_div_iff x d i : 0 < d -> i <= x / d <-> i * d <= x.
Proof.
  intros Hd. pose proof (Z.div_mod x d). pose proof (Z.mod_pos_bound x d Hd). split; intros; nia.
Qed.

Lemma on_page_iff k i : on_page k i = true <-> first_chunk i <= k <= last_chunk i.
Proof.
  unfold on_page, first_chunk, last_chunk. rewrite andb_true_iff, !Z.leb_le.
  rewrite !div_le_iff, !le_div_iff by done. split; intros; nia.
Qed.

(** A unit of a page belongs to a chunk on the page. *)
Lemma unit_on_page x i : i * G <= x < (i + 1) * G -> on_page (x / C) i = true.
Proof.
  intros Hx. apply on_page_iff. unfold first_chunk, last_chunk.
  split; apply Z.div_le_mono; lia.
Qed.

Lemma page_chunks_pos i : 1 <= page_chunks i.
Proof.
  unfold page_chunks, first_chunk, last_chunk.
  assert (i * G / C <= ((i + 1) * G - 1) / C) by (apply Z.div_le_mono; lia). lia.
Qed.

(** The three cases of the source in which every page has as many chunks. *)
Lemma page_chunks_divides i : G mod C = 0 -> page_chunks i = G / C.
Proof.
  intros Hm. pose proof (Z.div_mod G C ltac:(lia)) as E. rewrite Hm in E. set (q := G / C) in *. clearbody q.
  unfold page_chunks, first_chunk, last_chunk.
  replace (i * G / C) with (i * q) by (apply (Z.div_unique _ _ _ 0); nia).
  replace (((i + 1) * G - 1) / C) with ((i + 1) * q - 1) by (apply (Z.div_unique _ _ _ (C - 1)); nia). lia.
Qed.

Lemma page_chunks_crossing i :
  0 <= i -> G mod C <> 0 -> C mod (G mod C) = 0 -> page_chunks i = G / C + 1.
Proof.
  intros Hi Hne Hm. pose proof (Z.div_mod G C ltac:(lia)) as E. pose proof (Z.mod_pos_bound G C HC) as Hr.
  set (r := G mod C) in *. set (q := G / C) in *. clearbody q r.
  pose proof (Z.div_mod C r ltac:(lia)) as EC. rewrite Hm in EC. set (m := C / r) in *. clearbody m.
  assert (0 < m) by nia.
  pose proof (Z.div_mod i m ltac:(lia)) as Ei. pose proof (Z.mod_pos_bound i m ltac:(lia)) as Him.
  set (a := i / m) in *. set (o := i mod m) in *. clearbody a o.
  unfold page_chunks, first_chunk, last_chunk.
  replace (i * G / C) with (i * q + a) by (apply (Z.div_unique _ _ _ (o * r)); nia).
  replace (((i + 1) * G - 1) / C) with ((i + 1) * q + a) by (apply (Z.div_unique _ _ _ (o * r + r - 1)); nia).
  lia.
Qed.

Lemma page_chunks_multiple i : 0 <= i -> C mod G = 0 -> page_chunks i = 1.
Proof.
  intros Hi Hm. pose proof (Z.div_mod C G ltac:(lia)) as E. rewrite Hm in E. set (m := C / G) in *. clearbody m.
  assert (0 < m) by nia.
  pose proof (Z.div_mod i m ltac:(lia)) as Ei. pose proof (Z.mod_pos_bound i m ltac:(lia)) as Him.
  set (a := i / m) in *. set (o := i mod m) in *. clearbody a o.
  unfold page_chunks, first_chunk, last_chunk.
  replace (i * G / C) with a by (apply (Z.div_unique _ _ _ (o * G)); nia).
  replace (((i + 1) * G - 1) / C) with a by (apply (Z.div_unique _ _ _ (o * G + G - 1)); nia).
  lia.
Qed.

(** No page has more chunks than the counters are made for. *)
Lemma page_chunks_small i : C <= G -> page_chunks i <= G / C + 2.
Proof.
  intros Hle. unfold page_chunks, first_chunk, last_chunk.
  pose proof (Z.div_mod G C ltac:(lia)) as E. pose proof (Z.mod_pos_bound G C HC) as Hr.
  assert (((i + 1) * G - 1) / C <= i * G / C + G / C + 1); [|lia].
  apply div_le_iff; [done|]. pose proof (Z.div_mod (i * G) C ltac:(lia)).
  pose proof (Z.mod_pos_bound (i * G) C HC). nia.
Qed.

Lemma page_chunks_big i : G < C -> page_chunks i <= 2.
Proof.
  intros Hlt. unfold page_chunks, first_chunk, last_chunk.
  assert (((i + 1) * G - 1) / C <= i * G / C + 1); [|lia].
  apply div_le_iff; [done|]. pose proof (Z.div_mod (i * G) C ltac:(lia)).
  pose proof (Z.mod_pos_bound (i * G) C HC). nia.
Qed.

(** The boundaries the slow path keeps: the start of the page, and the end of the
    last chunk counted, the first multiple of the chunk size not below it. *)
Definition boundaries (i : Z) (b : Z * Z) : Prop :=
  b.1 = i * G /\ exists a, b.2 = a * C /\ i * G <= a * C < i * G + C.

Lemma slow_step_spec i b pn :
  0 <= i -> pn = (if C <? G then G / C else 1) -> C <> G -> boundaries i b ->
  boundaries (i + 1) (slow_step G C pn b).1 /\ (slow_step G C pn b).2 = page_chunks i.
Proof.
  intros Hi Hpn Hne [Hprev (a & Hcur & Ha)]. destruct b as [prev cur]. cbn [fst snd] in *. subst prev cur.
  assert (forall a' n, (i + 1) * G <= a' * C < (i + 1) * G + C ->
    n = a' - a + (if i * G <? a * C then 1 else 0) ->
    boundaries (i + 1) ((i * G + G), a' * C) /\ n = page_chunks i) as Hend.
  { intros a' n Ha' ->. split; [split; [cbn; lia|]; exists a'; cbn; lia|].
    unfold page_chunks, first_chunk, last_chunk.
    replace (((i + 1) * G - 1) / C) with (a' - 1)
      by (apply (Z.div_unique _ _ _ ((i + 1) * G - 1 - (a' - 1) * C)); lia).
    destruct (Z.ltb_spec (i * G) (a * C)).
    - replace (i * G / C) with (a - 1) by (apply (Z.div_unique _ _ _ (i * G - (a - 1) * C)); lia). lia.
    - replace (i * G / C) with a by (apply (Z.div_unique _ _ _ 0); lia). lia. }
  pose proof (Z.div_mod G C ltac:(lia)) as Eq. pose proof (Z.mod_pos_bound G C HC) as Hr.
  unfold slow_step. cbv zeta. destruct (Z.ltb_spec (a * C) (i * G + G)) as [Hlt|Hge].
  - destruct (Z.ltb_spec (a * C + pn * C) (i * G + G)) as [Hlt2|Hge2].
    + replace (a * C + pn * C + C) with ((a + pn + 1) * C) by lia.
      apply Hend; [|zcase; cbn [fst snd]; lia]. destruct (Z.ltb_spec C G); subst pn; nia.
    + replace (a * C + pn * C) with ((a + pn) * C) by lia.
      apply Hend; [|zcase; cbn [fst snd]; lia]. destruct (Z.ltb_spec C G); subst pn; nia.
  - apply Hend; [nia|]. rewrite (proj2 (Z.ltb_lt (i * G) (a * C))) by lia.
    rewrite Hpn, (proj2 (Z.ltb_ge C G)) by nia. cbn [fst snd]. lia.
Qed.

(** *** Counting the free chunks *)

Definition count_on (ks : list Z) (i : Z) : Z := Z.of_nat (length (List.filter (fun k => on_page k i) ks)).

(** A page has as many free chunks as chunks exactly when all of them are free. *)
Lemma count_full ks i :
  NoDup ks -> count_on ks i <= page_chunks i /\
  (count_on ks i = page_chunks i <-> forall k, on_page k i = true -> k ∈ ks).
Proof.
  intros Hnd. unfold count_on. set (fs := List.filter (fun k => on_page k i) ks).
  set (all := map (fun d => first_chunk i + d) (zrange (page_chunks i))).
  assert (forall k, k ∈ all <-> on_page k i = true) as Hall.
  { intros k. rewrite on_page_iff. unfold all. rewrite list_elem_of_fmap. unfold page_chunks. split.
    - intros (d & -> & Hd%elem_of_zrange). lia.
    - intros Hk. exists (k - first_chunk i). split; [lia|]. apply elem_of_zrange. lia. }
  assert (Z.of_nat (length all) = page_chunks i) as Hlen.
  { unfold all, zrange. rewrite !length_map, length_seq. pose proof (page_chunks_pos i). lia. }
  assert (forall k, k ∈ fs <-> k ∈ ks /\ on_page k i = true) as Hfs.
  { intros k. unfold fs. rewrite !list_elem_of_In, filter_In. done. }
  assert (NoDup fs) as Hndf.
  { apply NoDup_ListNoDup, List.NoDup_filter, NoDup_ListNoDup. done. }
  assert (incl fs all) as Hincl.
  { intros k Hk. apply list_elem_of_In, Hall. apply list_elem_of_In, Hfs in Hk. apply Hk. }
  assert (length fs <= length all)%nat as Hle.
  { apply List.NoDup_incl_length; [by apply NoDup_ListNoDup|done]. }
  split; [lia|]. split.
  - intros Heq k Hk. assert (incl all fs) as Hback.
    { apply (List.NoDup_length_incl (l := fs)); [by apply NoDup_ListNoDup|lia|done]. }
    apply Hfs. apply list_elem_of_In, Hback. apply list_elem_of_In. by apply Hall.
  - intros Hk. assert (length all <= length fs)%nat; [|lia].
    apply List.NoDup_incl_length.
    + apply NoDup_ListNoDup. unfold all. apply NoDup_fmap; [intros x y; lia|]. unfold zrange.
      apply (NoDup_fmap_2 Z.of_nat). apply NoDup_seq.
    + intros k Hin. apply list_elem_of_In, Hfs. apply list_elem_of_In, Hall in Hin. split; [by apply Hk|done].
Qed.

Lemma count_on_cons k ks i : count_on (k :: ks) i = b2z (on_page k i) + count_on ks i.
Proof. unfold count_on. cbn [List.filter]. destruct (on_page k i); cbn [length b2z]; lia. Qed.
End geometry.

(** *** The loops *)

(** Every iteration of [NextPage] on a list of pages, with the pages to release. *)
Definition track (g : Z) (full : Z -> bool) (pages : list Z) (t : Tracker) : Tracker :=
  fold_left (fun t i => NextPage g t (full i)) pages t.

(** The ranges collected after the pages below [p]. *)
Record tracked (g : Z) (full : Z -> bool) (p : Z) (t : Tracker) : Prop := {
  tk_page : current_page t = p;
  tk_sound a b : (a, b) ∈ tr_released t -> exists s e, a = s * 2 ^ g /\ b = e * 2 ^ g /\
    0 <= s < e /\ e <= p /\ forall i, s <= i < e -> full i = true;
  tk_open : in_the_range t = true -> 0 <= current_range_start_page t < p /\
    forall i, current_range_start_page t <= i < p -> full i = true;
  tk_complete i : 0 <= i < p -> full i = true ->
    (in_the_range t = true /\ current_range_start_page t <= i) \/
    exists a b, (a, b) ∈ tr_released t /\ a <= i * 2 ^ g /\ (i + 1) * 2 ^ g <= b
}.

Lemma close_tracked g full p t :
  0 <= g -> p * 2 ^ g < 2 ^ 32 -> tracked g full p t ->
  tracked g full p (CloseOpenedRange g t) /\ in_the_range (CloseOpenedRange g t) = false.
Proof.
  intros Hg Hp Ht. pose proof Ht as [Hcur Hs Ho Hc].
  unfold CloseOpenedRange. destruct (in_the_range t) eqn:E; [|done].
  destruct (Ho eq_refl) as [Hst Hfull]. rewrite Hcur.
  pose proof (Z.pow_pos_nonneg 2 g ltac:(lia) Hg) as Hpg. set (s := current_range_start_page t) in *.
  assert (u32 (Z.shiftl s g) = s * 2 ^ g /\ u32 (Z.shiftl p g) = p * 2 ^ g) as [-> ->].
  { rewrite !Z.shiftl_mul_pow2 by done. rewrite !u32_small by nia. done. }
  split; [|done]. split; cbn [current_page in_the_range tr_released current_range_start_page]; try done.
  - intros a b [Hin|Hin%list_elem_of_singleton]%elem_of_app; [by apply Hs|].
    injection Hin as -> ->. exists s, p. split_and!; done || lia.
  - intros i Hi Hf. right. destruct (Hc i Hi Hf) as [[_ Hle]|(a & b & Hin & Hab)].
    + exists (s * 2 ^ g), (p * 2 ^ g). split; [apply elem_of_app; right; by left|]. split; nia.
    + exists a, b. split; [apply elem_of_app; by left|done].
Qed.

Lemma NextPage_tracked g full p t :
  0 <= g -> 0 <= p -> p * 2 ^ g < 2 ^ 32 -> tracked g full p t ->
  tracked g full (p + 1) (NextPage g t (full p)).
Proof.
  intros Hg Hp0 Hp Ht. unfold NextPage. destruct (full p) eqn:Ef.
  - destruct Ht as [Hcur Hs Ho Hc]. destruct (in_the_range t) eqn:E; cbn [negb]; cbv zeta; split;
      cbn [current_page in_the_range tr_released current_range_start_page]; rewrite ?E, ?Hcur; try done.
    + intros a b Hin. destruct (Hs a b Hin) as (s & e & ? & ? & ? & ? & ?). exists s, e. split_and!; done || lia.
    + intros _. destruct (Ho eq_refl) as [? Hf]. split; [lia|]. intros i Hi.
      destruct (Z.eq_dec i p) as [->|]; [done|]. apply Hf. lia.
    + intros i Hi Hf. destruct (Z.eq_dec i p) as [->|].
      * left. split; [done|]. specialize (Ho eq_refl). lia.
      * apply Hc; [lia|done].
    + intros a b Hin. destruct (Hs a b Hin) as (s & e & ? & ? & ? & ? & ?). exists s, e. split_and!; done || lia.
    + intros _. split; [lia|]. intros i Hi. by replace i with p by lia.
    + intros i Hi Hf. destruct (Z.eq_dec i p) as [->|]; [left; split; [done|lia]|].
      right. destruct (Hc i ltac:(lia) Hf) as [[? _]|?]; [done|done].
  - destruct (close_tracked g full p t Hg Hp Ht) as [[Hcur Hs Ho Hc] E]. cbv zeta.
    split; cbn [current_page in_the_range tr_released current_range_start_page]; rewrite ?E, ?Hcur; try done.
    + intros a b Hin. destruct (Hs a b Hin) as (s & e & ? & ? & ? & ? & ?). exists s, e. split_and!; done || lia.
    + intros i Hi Hf. destruct (Z.eq_dec i p) as [->|]; [congruence|].
      right. destruct (Hc i ltac:(lia) Hf) as [[Ht1 _]|?]; [congruence|done].
Qed.

Lemma track_spec g full n :
  0 <= g -> 0 <= n -> n * 2 ^ g < 2 ^ 32 ->
  tracked g full n (CloseOpenedRange g (track g full (zrange n) tracker_init)) /\
  in_the_range (CloseOpenedRange g (track g full (zrange n) tracker_init)) = false.
Proof.
  intros Hg Hn Hlt. apply close_tracked; [done..|]. unfold track, zrange.
  rewrite <- (Z2Nat.id n) at 1 by done.
  assert (forall m : nat, Z.of_nat m <= n ->
    tracked g full (Z.of_nat m) (fold_left (fun t i => NextPage g t (full i)) (map Z.of_nat (seq 0 m)) tracker_init))
    as Hind; [|apply Hind; lia].
  induction m as [|m IH]; intros Hm.
  - split; cbn; try done; intros; try lia. by match goal with H : _ ∈ [] |- _ => inversion H end.
  - rewrite seq_S, map_app, fold_left_app. cbn [map fold_left]. rewrite Nat.add_0_l.
    replace (Z.of_nat (S m)) with (Z.of_nat m + 1) by lia.
    pose proof (Z.pow_pos_nonneg 2 g). apply NextPage_tracked; [done|lia|nia|apply IH; lia].
Qed.

Section release.
Context (C g : Z) (HC : 0 < C) (Hg : 0 <= g).
Notation G := (2 ^ g).
Notation N := (page_chunks C G).

(** The slow path compares every page with its number of chunks. *)
Lemma slow_path_spec get n b pn t i :
  0 <= i -> pn = (if C <? G then G / C else 1) -> C <> G -> boundaries C G i b ->
  slow_path G C pn g get (map (fun d => i + Z.of_nat d) (seq 0 n)) b t
  = track g (fun j => get j =? N j) (map (fun d => i + Z.of_nat d) (seq 0 n)) t.
Proof.
  assert (0 < G) as HG by (apply Z.pow_pos_nonneg; lia).
  revert b t i. induction n as [|n IH]; intros b t i Hi Hpn Hne Hb; [done|].
  cbn [seq map slow_path]. rewrite <- seq_shift, map_map, Z.add_0_r.
  destruct (slow_step_spec C G HC HG i b pn Hi Hpn Hne Hb) as [Hb' En].
  destruct (slow_step G C pn b) as [b' m]. cbn [fst snd] in *. subst m.
  rewrite (map_ext _ (fun d => i + 1 + Z.of_nat d)) by (intros; lia).
  rewrite IH by (done || lia). done.
Qed.

Lemma slow_path_track get n pn :
  pn = (if C <? G then G / C else 1) -> C <> G -> 
  slow_path G C pn g get (zrange n) (0, 0) tracker_init
  = track g (fun j => get j =? N j) (zrange n) tracker_init.
Proof.
  intros Hpn Hne. unfold zrange. rewrite (map_ext Z.of_nat (fun d => 0 + Z.of_nat d)) by (intros; lia).
  assert (0 < G) by (apply Z.pow_pos_nonneg; lia).
  apply slow_path_spec; [lia|done|done|]. split; [done|]. exists 0. cbn. lia.
Qed.

Lemma chunk_on_one_page k j : G mod C = 0 -> 0 <= k -> on_page C G k j = (k * C / G =? j).
Proof.
  intros Hm Hk. assert (0 < G) as HG by (apply Z.pow_pos_nonneg; lia).
  pose proof (Z.div_mod G C ltac:(lia)) as E. rewrite Hm in E. set (q := G / C) in *.
  assert (0 < q) by nia. clearbody q.
  pose proof (Z.div_mod k q ltac:(lia)) as Ek. pose proof (Z.mod_pos_bound k q ltac:(lia)) as Hb.
  set (a := k / q) in *. set (o := k mod q) in *. clearbody a o.
  assert (k * C / G = a) as Ea by (symmetry; apply (Z.div_unique _ _ _ (o * C)); nia).
  assert ((k * C + C - 1) / G = a) as Eb by (symmetry; apply (Z.div_unique _ _ _ (o * C + C - 1)); nia).
  unfold on_page. rewrite Ea, Eb. zcase; try done; lia.
Qed.

(** [16 * C] and [16 * G] are the sizes in bytes. *)
Lemma count_chunk_bumps c k :
  pca_ok c -> 0 <= k -> (forall j, 0 <= j -> on_page C G k j = true -> pca_Get c j < counter_mask c) ->
  bumps c (count_chunk (16 * G) (16 * C) C g c (k * C)) (fun j => b2z (on_page C G k j)).
Proof.
  intros Hok Hk Hlt. assert (0 < G) as HG by (apply Z.pow_pos_nonneg; lia).
  unfold count_chunk. rewrite !Z.shiftr_div_pow2 by done. rewrite Z.mul_mod_distr_l by lia.
  assert (0 <= k * C / G) by (apply Z.div_pos; nia).
  destruct ((16 * C <=? 16 * G) && (16 * (G mod C) =? 0)) eqn:E.
  - bool_hyps. assert (G mod C = 0) as Hm by lia.
    destruct (Inc_bumps c (k * C / G) Hok ltac:(done)) as (? & ? & ? & Hget).
    + apply Hlt; [done|]. rewrite chunk_on_one_page by done. apply Z.eqb_refl.
    + split_and!; try done. intros j Hj. rewrite Hget by done. by rewrite chunk_on_one_page by done.
  - apply IncRange_bumps; [done| |].
    + assert (k * C / G <= (k * C + C - 1) / G) by (apply Z.div_le_mono; lia). lia.
    + intros j Hj. apply Hlt; [lia|]. unfold on_page. bool_goal; lia.
Qed.

Lemma count_on_snoc ks k i : count_on C G (ks ++ [k]) i = count_on C G ks i + b2z (on_page C G k i).
Proof.
  unfold count_on. rewrite filter_app, length_app. cbn [List.filter].
  destruct (on_page C G k i); cbn [length b2z]; lia.
Qed.

Lemma count_loop c ks :
  pca_ok c -> (forall j, 0 <= j -> pca_Get c j = 0) -> (forall j, 0 <= j -> N j <= counter_mask c) ->
  NoDup ks -> Forall (Z.le 0) ks ->
  bumps c (fold_left (count_chunk (16 * G) (16 * C) C g) (map (fun k => k * C) ks) c) (count_on C G ks).
Proof.
  intros Hok H0 Hmask. assert (0 < G) as HG by (apply Z.pow_pos_nonneg; lia).
  induction ks as [|k ks IH] using rev_ind; intros Hnd Hpos.
  - destruct (bumps_refl c Hok) as (? & ? & ? & Hz). split_and!; done.
  - apply list.Forall_app in Hpos as [Hpos Hk]. apply list.Forall_cons in Hk as [Hk _].
    assert (NoDup ks) as Hnd' by (apply list.NoDup_app in Hnd; apply Hnd).
    specialize (IH Hnd' Hpos). rewrite map_app, fold_left_app. cbn [map fold_left].
    pose proof IH as (Hok' & Hm & _ & Hget).
    eapply bumps_trans; [exact IH|apply count_chunk_bumps; [done|done|]|].
    + intros j Hj Hon. rewrite Hget, Hm, H0 by done.
      destruct (count_full C G HC HG (ks ++ [k]) j Hnd) as [Hle _]. rewrite count_on_snoc, Hon in Hle.
      cbn [b2z] in Hle. pose proof (Hmask j Hj). lia.
    + intros j Hj. cbn beta. apply count_on_snoc.
Qed.

(** What the case analysis of the source answers. *)
Lemma chunks_on_pages_spec :
  exists full same, chunks_on_pages (16 * G) (16 * C) = Done (full, same) /\
    0 < full <= G + 2 /\ (forall i, 0 <= i -> N i <= full) /\
    (same = true -> forall i, 0 <= i -> N i = full) /\ (same = false -> C <> G).
Proof.
  assert (0 < G) as HG by (apply Z.pow_pos_nonneg; lia).
  assert (0 <= G / C <= G) as Hq by (split; [apply Z.div_pos; lia|apply Z.div_le_upper_bound; nia]).
  unfold chunks_on_pages. rewrite (Z.mul_mod_distr_l G C 16), (Z.mul_mod_distr_l C G 16), Z.div_mul_cancel_l by lia.
  assert (C mod G = 0 -> C <= G -> G mod C = 0) as Hdiv.
  { intros Hm Hle. apply Z.mod_divide in Hm as [q Hq']; [|lia]. assert (q = 1) as -> by nia.
    rewrite Hq', Z.mul_1_l. apply Z.mod_same. lia. }
  destruct (Z.leb_spec (16 * C) (16 * G)) as [Hle|Hgt]; cbn [andb].
  - destruct (Z.eqb_spec (16 * (G mod C)) 0) as [Hm|Hm]; cbn [negb andb].
    + exists (G / C), true. pose proof (page_chunks_divides C G HC) as Hall.
      assert (1 <= G / C) by (apply Z.div_le_lower_bound; lia).
      split_and!; try done; try lia; intros; try (rewrite Hall by lia; lia); apply Hall; lia.
    + destruct (Z.eqb_spec ((16 * C) mod (16 * (G mod C))) 0) as [Hm2|Hm2].
      * rewrite Z.mul_mod_distr_l in Hm2 by lia.
        pose proof (fun i Hi => page_chunks_crossing C G HC i Hi ltac:(lia) ltac:(lia)) as Hall.
        exists (G / C + 1), true. split_and!; try done; try lia; intros; try (rewrite Hall by lia; lia); apply Hall; lia.
      * exists (G / C + 2), false. split_and!; try done; try lia.
        -- intros i _. apply page_chunks_small; lia.
        -- intros _ ->. rewrite Z.mod_same in Hm by lia. lia.
  - rewrite (proj2 (Z.ltb_lt (16 * G) (16 * C))) by lia. cbn [andb].
    destruct (Z.eqb_spec (16 * (C mod G)) 0) as [Hm|Hm].
    + pose proof (fun i Hi => page_chunks_multiple C G HC HG i Hi ltac:(lia)) as Hall.
      exists 1, true. split_and!; try done; try lia; intros; try (rewrite Hall by lia; lia); apply Hall; lia.
    + exists 2, false. split_and!; try done; try lia. intros i _. apply page_chunks_big; lia.
Qed.

(** What a run releases. *)
Lemma release_run pages ks :
  g <= 32 -> 0 < pages -> pages * G < 2 ^ 32 -> NoDup ks -> Forall (Z.le 0) ks ->
  exists t, ReleaseFreeMemoryToOS (16 * G) (map (fun k => k * C) ks) (16 * C) pages = Done (tr_released t) /\
    in_the_range t = false /\
    exists full, tracked g full pages t /\
      forall i, 0 <= i -> full i = true <-> forall k, on_page C G k i = true -> k ∈ ks.
Proof.
  intros Hg32 Hp Hlt Hnd Hpos. assert (0 < G) as HG by (apply Z.pow_pos_nonneg; lia).
  pose proof (Z.pow_le_mono_r 2 g 32 ltac:(lia) Hg32).
  unfold ReleaseFreeMemoryToOS.
  destruct chunks_on_pages_spec as (full & same & -> & Hfull & HN & Hsame & Hslow).
  cbn [mbind outcome_bind].
  destruct (PackedCounterArray_new_spec pages full) as (c & -> & Hok & Hn & Hmask & Hal & H0); [nia|lia|].
  cbn [mbind outcome_bind]. rewrite Hal. cbn [negb]. unfold kCompactPtrScale. rewrite !Z.shiftr_div_pow2 by lia.
  change (2 ^ 4) with 16. rewrite !(Z.mul_comm 16), !Z.div_mul by lia.
  rewrite Log2_pow2 by lia. cbn [mbind outcome_bind mret outcome_ret]. rewrite <- !(Z.mul_comm 16).
  destruct (count_loop c ks Hok H0) as (Hok' & _ & Hn' & Hget); [intros j Hj; specialize (HN j Hj); lia|done|done|].
  set (c' := fold_left _ _ c) in *. unfold GetCount. rewrite Hn', Hn.
  set (fl := fun i => pca_Get c' i =? N i).
  assert (forall i, 0 <= i -> fl i = true <-> forall k, on_page C G k i = true -> k ∈ ks) as Hfl.
  { intros i Hi. unfold fl. rewrite Z.eqb_eq, Hget, H0, Z.add_0_l by done.
    apply (count_full C G HC HG ks i Hnd). }
  match goal with |- context [CloseOpenedRange g ?t] => assert (t = track g fl (zrange pages) tracker_init) as -> end.
  { destruct same.
    - unfold track. clear -Hsame Hg. specialize (Hsame eq_refl).
      assert (forall l t, Forall (Z.le 0) l -> fold_left (fun t i => NextPage g t (pca_Get c' i =? full)) l t
        = fold_left (fun t i => NextPage g t (fl i)) l t) as Hext.
      { induction l as [|i l IH]; intros t Hl; [done|]. apply list.Forall_cons in Hl as [Hi Hl].
        cbn [fold_left]. rewrite IH by done. unfold fl. by rewrite Hsame. }
      apply Hext. apply list.Forall_forall. intros i Hi%elem_of_zrange. lia.
    - rewrite slow_path_track; [done| |by apply Hslow].
      destruct (Z.ltb_spec (16 * C) (16 * G)), (Z.ltb_spec C G); done || lia. }
  destruct (track_spec g fl pages Hg ltac:(lia) Hlt) as [Ht E].
  eexists. split; [reflexivity|]. split; [exact E|]. exists fl. by split.
Qed.

(** What a run releases, in units. *)
Lemma release_exact pages ks :
  g <= 32 -> 0 < pages -> pages * G < 2 ^ 32 -> NoDup ks -> Forall (Z.le 0) ks ->
  exists rs, ReleaseFreeMemoryToOS (16 * G) (map (fun k => k * C) ks) (16 * C) pages = Done rs /\
    (forall a b, (a, b) ∈ rs -> 0 <= a < b /\ forall x, a <= x < b -> x < pages * G /\ x / C ∈ ks) /\
    (forall i, 0 <= i < pages ->
       (exists a b, (a, b) ∈ rs /\ a <= i * G /\ (i + 1) * G <= b) <->
       forall k, on_page C G k i = true -> k ∈ ks).
Proof.
  intros Hg32 Hp Hlt Hnd Hpos. assert (0 < G) as HG by (apply Z.pow_pos_nonneg; lia).
  destruct (release_run pages ks Hg32 Hp Hlt Hnd Hpos) as (t & E & Hin & full & [_ Hs _ Hc] & Hfull).
  exists (tr_released t). split_and!; [exact E| |].
  - intros a b Hab. destruct (Hs a b Hab) as (s & e & -> & -> & Hse & Hep & Hf).
    split; [nia|]. intros x Hx.
    assert (0 <= x / G) by (apply Z.div_pos; nia).
    pose proof (Z.div_mod x G ltac:(lia)). pose proof (Z.mod_pos_bound x G HG).
    assert (s <= x / G < e) as Hi by nia. split; [nia|].
    apply (proj1 (Hfull (x / G) ltac:(lia)) (Hf _ Hi)). apply unit_on_page; [done|done|]. nia.
  - intros i Hi. rewrite <- Hfull by lia. split.
    + intros (a & b & Hab & Ha & Hb). destruct (Hs a b Hab) as (s & e & -> & -> & Hse & Hep & Hf).
      apply Hf. nia.
    + intros Hf. destruct (Hc i Hi Hf) as [[Ht _]|?]; [congruence|done].
Qed.

(** C18: [ReleaseFreeMemoryToOS] never gives away memory in use, and misses
    nothing: every 16-byte unit of a range it releases belongs to a chunk of the
    free array, and a page is inside a released range exactly when all the chunks
    that have a byte on it are free.  The packed counters never overflow, and every
    branch of the chunk-size/page-size case analysis counts the chunks of a page
    right. *)
Theorem ReleaseFreeMemoryToOS_exact pages ks :
  g <= 32 -> 0 < pages -> pages * G < 2 ^ 32 -> NoDup ks -> Forall (Z.le 0) ks ->
  exists rs, ReleaseFreeMemoryToOS (16 * G) (map (fun k => k * C) ks) (16 * C) pages = Done rs /\
    (forall a b, (a, b) ∈ rs -> 0 <= a < b /\ forall x, a <= x < b -> x < pages * G /\ x / C ∈ ks) /\
    (forall i, 0 <= i < pages ->
       (exists a b, (a, b) ∈ rs /\ a <= i * G /\ (i + 1) * G <= b) <->
       forall k, on_page C G k i = true -> k ∈ ks).
Proof. exact (release_exact pages ks). Qed.
End release.

(** ** Witnesses *)

Lemma ReleaseFreeMemoryToOS_exact_witness :
  exists rs, ReleaseFreeMemoryToOS (16 * 2 ^ 8) (map (fun k => k * 5) [0; 1; 2]) (16 * 5) 1 = Done rs /\
    (forall a b, (a, b) ∈ rs -> 0 <= a < b /\ forall x, a <= x < b -> x < 1 * 2 ^ 8 /\ x / 5 ∈ [0; 1; 2]) /\
    (forall i, 0 <= i < 1 ->
       (exists a b, (a, b) ∈ rs /\ a <= i * 2 ^ 8 /\ (i + 1) * 2 ^ 8 <= b) <->
       forall k, on_page 5 (2 ^ 8) k i = true -> k ∈ [0; 1; 2]).
Proof.
  apply (ReleaseFreeMemoryToOS_exact 5 8 ltac:(lia) ltac:(lia) 1 [0; 1; 2]); [lia..| |].
  - by apply (bool_decide_unpack _).
  - by repeat constructor.
Defined.
