(* ===== verification/Primary64.v ===== *)
(** * Primary64: the size-class allocator of 64-bit address spaces

    [SizeClassAllocator64] of [sanitizer_allocator_primary64.h]: the layout of the
    space into one region per size class, the three parts of a region (chunks,
    metadata, free array), and the operations that move chunks between a region
    and the caches of the threads.

    The parameters of the template are the class [Primary64Params].  The state is
    the record [Primary]: one [RegionInfo] and one free array per class.  What the
    operating system answers to an operation (whether it maps a range, what the
    clock reads) is the record [OsEnv], an argument of each operation.  A region is
    changed with its mutex held, so each operation is one step. *)

From S2P Require Import Prelude Common Arrays SizeClassMap PageRelease.

(** ** Definitions *)

Class Primary64Params := {
  kSpaceBeg : Z;
  kSpaceSize : Z;
  kMetadataSize : Z;
  kRandomShuffleChunks : bool
}.

(** What the system answers during one operation: the address the range was mapped
    at (0: it was not), and the successive readings of the clock. *)
Record OsEnv := mkOsEnv {
  page_size_log : Z;
  address_range_Map : Z -> Z -> Z;
  MonotonicNanoTime : nat -> Z
}.

Definition GetPageSizeCached (os : OsEnv) : Z := 2 ^ page_size_log os.

Record RegionInfo := mkRegionInfo {
  num_freed_chunks : Z;
  mapped_free_array : Z;
  allocated_user : Z;
  allocated_meta : Z;
  mapped_user : Z;
  mapped_meta : Z;
  rand_state : Z;
  exhausted : bool;
  n_allocated : Z;
  n_freed : Z;
  n_freed_at_last_release : Z;
  num_releases : Z;
  last_release_at_ns : Z;
  last_released_bytes : Z
}.

(** The region information comes from a fresh mapping. *)
Definition region0 : RegionInfo := mkRegionInfo 0 0 0 0 0 0 0 false 0 0 0 0 0 0.

Definition FreeArray := Z -> Z.

Record Primary := mkPrimary {
  NonConstSpaceBeg : Z;
  PremappedHeap : bool;
  release_to_os_interval_ms : Z;
  regions : Z -> RegionInfo;
  free_arrays : Z -> FreeArray
}.

Section primary64.
Context `{SizeClassMapParams, Primary64Params}.

Definition kUsingConstantSpaceBeg : bool := negb (kSpaceBeg =? 2 ^ 64 - 1).
Definition kRegionSize : Z := kSpaceSize / kNumClassesRounded.
Definition kFreeArraySize : Z := kRegionSize / 8.
Definition kUserMapSize : Z := Z.shiftl 1 18.
Definition kMetaMapSize : Z := Z.shiftl 1 16.
Definition kFreeArrayMapSize : Z := Z.shiftl 1 18.

Definition PointerToCompactPtr (base ptr : Z) : Z := u32 (Z.shiftr (ptr -64 base) kCompactPtrScale).
Definition CompactPtrToPointer (base ptr32 : Z) : Z := base +64 Z.shiftl ptr32 kCompactPtrScale.

Definition SpaceBeg (st : Primary) : Z :=
  if kUsingConstantSpaceBeg then kSpaceBeg else NonConstSpaceBeg st.
Definition SpaceEnd (st : Primary) : Z := SpaceBeg st +64 kSpaceSize.

Definition CanAllocate (size alignment : Z) : bool := (size <=? kMaxSize) && (alignment <=? kMaxSize).

Definition ClassIdToSize (class_id : Z) : Z := Size class_id.

Definition PointerIsMine (st : Primary) (P : Z) : bool :=
  if kUsingConstantSpaceBeg && (kSpaceBeg mod kSpaceSize =? 0)
  then P / kSpaceSize =? kSpaceBeg / kSpaceSize
  else (SpaceBeg st <=? P) && (P <? SpaceEnd st).

Definition GetRegionBegin (st : Primary) (p : Z) : Z :=
  if kUsingConstantSpaceBeg then Z.land p (not64 (kRegionSize - 1))
  else Z.land (p -64 SpaceBeg st) (not64 (kRegionSize - 1)) +64 SpaceBeg st.

Definition GetRegionBeginBySizeClass (st : Primary) (class_id : Z) : Z :=
  SpaceBeg st +64 kRegionSize * class_id.

Definition GetSizeClass (st : Primary) (p : Z) : Z :=
  if kUsingConstantSpaceBeg && (kSpaceBeg mod kSpaceSize =? 0)
  then (p / kRegionSize) mod kNumClassesRounded
  else ((p -64 SpaceBeg st) / kRegionSize) mod kNumClassesRounded.

(** 32-bit division when the offset fits. *)
Definition GetChunkIdx (st : Primary) (chunk size : Z) : Z :=
  let chunk := if negb kUsingConstantSpaceBeg then chunk -64 SpaceBeg st else chunk in
  let offset := chunk mod kRegionSize in
  if negb (Z.shiftr offset 32 =? 0) then offset / size else u32 offset / u32 size.

Definition GetMetadataEnd (region_beg : Z) : Z := region_beg +64 kRegionSize -64 kFreeArraySize.
(** The address of the free array; its contents are [free_arrays]. *)
Definition GetFreeArray (region_beg : Z) : Z := GetMetadataEnd region_beg.

Definition GetBlockBegin (st : Primary) (p : Z) : Z :=
  let class_id := GetSizeClass st p in
  if kNumClasses <=? class_id then 0 else
  let size := ClassIdToSize class_id in
  if size =? 0 then 0 else
  let chunk_idx := GetChunkIdx st p size in
  let reg_beg := GetRegionBegin st p in
  let beg := chunk_idx *64 size in
  let next_beg := beg +64 size in
  if next_beg <=? mapped_user (regions st class_id) then reg_beg +64 beg else 0.

Definition GetActuallyAllocatedSize (st : Primary) (p : Z) : outcome Z :=
  _ ← check (PointerIsMine st p) "CHECK"; mret (ClassIdToSize (GetSizeClass st p)).

Definition GetMetaData (st : Primary) (p : Z) : outcome Z :=
  _ ← check (negb (kMetadataSize =? 0)) "CHECK";
  let class_id := GetSizeClass st p in
  let size := ClassIdToSize class_id in
  if size =? 0 then mret 0 else
  let chunk_idx := GetChunkIdx st p size in
  let region_beg := GetRegionBeginBySizeClass st class_id in
  mret (GetMetadataEnd region_beg -64 (1 + chunk_idx) * kMetadataSize).

Definition TotalMemoryUsed (st : Primary) : Z :=
  fold_left (fun res i => res +64 allocated_user (regions st i)) (zrange kNumClasses) 0.

(** The chunks [ForEachChunk] visits, in order: [chunk_size] apart from the start of
    the region while inside its allocated part. *)
Definition ForEachChunk (st : Primary) : list Z :=
  flat_map (fun class_id =>
    let chunk_size := ClassIdToSize class_id in
    let region_beg := SpaceBeg st + class_id * kRegionSize in
    map (fun i => region_beg + i * chunk_size)
      (zrange ((allocated_user (regions st class_id) + chunk_size - 1) / chunk_size)))
    (map (Z.add 1) (zrange (kNumClasses - 1))).

(** *** Mapping *)

(** [OnMap] of the runtime's callback does nothing. *)
Definition MapWithCallback (os : OsEnv) (st : Primary) (beg size : Z) : outcome bool :=
  if PremappedHeap st then
    mret ((NonConstSpaceBeg st <=? beg) && (beg + size <=? NonConstSpaceBeg st + kSpaceSize))
  else
    let mapped := address_range_Map os beg size in
    if mapped =? 0 then mret false else
    _ ← check (beg =? mapped) "CHECK_EQ"; mret true.

Definition set_mapped_free_array (r : RegionInfo) (n : Z) : RegionInfo :=
  mkRegionInfo (num_freed_chunks r) n (allocated_user r) (allocated_meta r) (mapped_user r)
    (mapped_meta r) (rand_state r) (exhausted r) (n_allocated r) (n_freed r)
    (n_freed_at_last_release r) (num_releases r) (last_release_at_ns r) (last_released_bytes r).

Definition EnsureFreeArraySpace (os : OsEnv) (st : Primary) (r : RegionInfo) (region_beg num : Z)
    : outcome (bool * RegionInfo) :=
  let needed_space := num *64 4 in
  if mapped_free_array r <? needed_space then
    new_mapped ← RoundUpTo needed_space kFreeArrayMapSize;
    _ ← check (new_mapped <=? kFreeArraySize) "CHECK_LE";
    let current_map_end := GetFreeArray region_beg +64 mapped_free_array r in
    let new_map_size := new_mapped -64 mapped_free_array r in
    ok ← MapWithCallback os st current_map_end new_map_size;
    if negb ok then mret (false, r) else mret (true, set_mapped_free_array r new_mapped)
  else mret (true, r).

Definition set_exhausted (r : RegionInfo) (b : bool) : RegionInfo :=
  mkRegionInfo (num_freed_chunks r) (mapped_free_array r) (allocated_user r) (allocated_meta r)
    (mapped_user r) (mapped_meta r) (rand_state r) b (n_allocated r) (n_freed r)
    (n_freed_at_last_release r) (num_releases r) (last_release_at_ns r) (last_released_bytes r).

Definition IsRegionExhausted (r : RegionInfo) (additional_map_size : Z) : bool * RegionInfo :=
  if mapped_user r + mapped_meta r + additional_map_size <=? kRegionSize - kFreeArraySize
  then (false, r) else (true, set_exhausted r true).

(** *** PopulateFreeArray *)

(** The random state and the time of the first release. *)
Definition first_map (os : OsEnv) (st : Primary) (r : RegionInfo) (region_beg : Z) : RegionInfo :=
  mkRegionInfo (num_freed_chunks r) (mapped_free_array r) (allocated_user r) (allocated_meta r)
    (mapped_user r) (mapped_meta r)
    (if negb kUsingConstantSpaceBeg && kRandomShuffleChunks then u32 (Z.shiftr region_beg 12)
     else rand_state r)
    (exhausted r) (n_allocated r) (n_freed r) (n_freed_at_last_release r) (num_releases r)
    (if 0 <=? release_to_os_interval_ms st then MonotonicNanoTime os 0 else last_release_at_ns r)
    (last_released_bytes r).

Definition add_mapped_user (r : RegionInfo) (n : Z) : RegionInfo :=
  mkRegionInfo (num_freed_chunks r) (mapped_free_array r) (allocated_user r) (allocated_meta r)
    (mapped_user r + n) (mapped_meta r) (rand_state r) (exhausted r) (n_allocated r) (n_freed r)
    (n_freed_at_last_release r) (num_releases r) (last_release_at_ns r) (last_released_bytes r).
Definition add_mapped_meta (r : RegionInfo) (n : Z) : RegionInfo :=
  mkRegionInfo (num_freed_chunks r) (mapped_free_array r) (allocated_user r) (allocated_meta r)
    (mapped_user r) (mapped_meta r + n) (rand_state r) (exhausted r) (n_allocated r) (n_freed r)
    (n_freed_at_last_release r) (num_releases r) (last_release_at_ns r) (last_released_bytes r).

(** Maps more space for chunks, if necessary; also the bytes the statistics gain. *)
Definition map_user_space (os : OsEnv) (st : Primary) (class_id requested_count : Z) (r : RegionInfo)
    : outcome (bool * RegionInfo * Z) :=
  let region_beg := GetRegionBeginBySizeClass st class_id in
  let size := ClassIdToSize class_id in
  let total_user_bytes := allocated_user r +64 requested_count *64 size in
  if mapped_user r <? total_user_bytes then
    let r := if mapped_user r =? 0 then first_map os st r region_beg else r in
    user_map_size ← RoundUpTo (total_user_bytes - mapped_user r) kUserMapSize;
    let '(full, r) := IsRegionExhausted r user_map_size in
    if full : bool then mret (false, r, 0) else
    ok ← MapWithCallback os st (region_beg +64 mapped_user r) user_map_size;
    if negb ok then mret (false, r, 0) else
    mret (true, add_mapped_user r user_map_size, user_map_size)
  else mret (true, r, 0).

(** Maps more space for metadata, if necessary. *)
Definition map_meta_space (os : OsEnv) (st : Primary) (class_id new_chunks_count : Z) (r : RegionInfo)
    : outcome (bool * RegionInfo) :=
  let region_beg := GetRegionBeginBySizeClass st class_id in
  if kMetadataSize =? 0 then mret (true, r) else
  let total_meta_bytes := allocated_meta r +64 new_chunks_count *64 kMetadataSize in
  meta_map_size ← (if mapped_meta r <? total_meta_bytes
                   then RoundUpTo (total_meta_bytes - mapped_meta r) kMetaMapSize else mret 0);
  if meta_map_size =? 0 then mret (true, r) else
  let '(full, r) := IsRegionExhausted r meta_map_size in
  if full : bool then mret (false, r) else
  ok ← MapWithCallback os st
         (GetMetadataEnd region_beg -64 mapped_meta r -64 meta_map_size) meta_map_size;
  if negb ok then mret (false, r) else mret (true, add_mapped_meta r meta_map_size).

(** The loop that writes the new chunks, the first one last. *)
Definition fill_free_array (total_freed_chunks allocated size new_chunks_count : Z) (fa : FreeArray)
    : FreeArray :=
  fst (fold_left (fun '(fa, chunk) i =>
         (upd fa (total_freed_chunks - 1 - i) (PointerToCompactPtr 0 chunk), chunk + size))
       (zrange new_chunks_count) (fa, allocated)).

(** [Rand], [RandN] and [RandomShuffle] of [sanitizer_allocator.h], on the elements
    from [off] on. *)
Definition Rand (state : Z) : Z * Z :=
  let state := u32 (state * 1103515245 + 12345) in (Z.shiftr state 16, state).
Definition RandN (state n : Z) : Z * Z := let '(v, state) := Rand state in (v mod n, state).

Fixpoint shuffle_loop (i : nat) (off : Z) (fa : FreeArray) (state : Z) : FreeArray * Z :=
  match i with
  | O => (fa, state)
  | Datatypes.S i' =>
      let '(j, state) := RandN state (Z.of_nat i + 1) in
      shuffle_loop i' off (Swap fa (off + Z.of_nat i) (off + j)) state
  end.

Definition RandomShuffle (fa : FreeArray) (off n : Z) (rand_state : Z) : FreeArray * Z :=
  if n <=? 1 then (fa, rand_state) else shuffle_loop (Z.to_nat (n - 1)) off fa rand_state.

Definition advance (r : RegionInfo) (new_chunks_count size rand : Z) : RegionInfo :=
  mkRegionInfo (num_freed_chunks r + new_chunks_count) (mapped_free_array r)
    (allocated_user r + new_chunks_count * size)
    (allocated_meta r + new_chunks_count * kMetadataSize) (mapped_user r) (mapped_meta r) rand
    false (n_allocated r) (n_freed r) (n_freed_at_last_release r) (num_releases r)
    (last_release_at_ns r) (last_released_bytes r).

(** A region, its free array and the bytes the statistics gain. *)
Definition PopulateFreeArray (os : OsEnv) (st : Primary) (class_id requested_count : Z)
    (r : RegionInfo) (fa : FreeArray) : outcome (bool * RegionInfo * FreeArray * Z) :=
  let region_beg := GetRegionBeginBySizeClass st class_id in
  let size := ClassIdToSize class_id in
  user ← map_user_space os st class_id requested_count r;
  let '(ok, r, stat) := user : bool * RegionInfo * Z in
  if negb ok then mret (false, r, fa, stat) else
  let new_chunks_count := (mapped_user r - allocated_user r) / size in
  meta ← map_meta_space os st class_id new_chunks_count r;
  let '(ok, r) := meta : bool * RegionInfo in
  if negb ok then mret (false, r, fa, stat) else
  let total_freed_chunks := num_freed_chunks r + new_chunks_count in
  arr ← EnsureFreeArraySpace os st r region_beg total_freed_chunks;
  let '(ok, r) := arr : bool * RegionInfo in
  if negb ok then mret (false, r, fa, stat) else
  let fa := fill_free_array total_freed_chunks (allocated_user r) size new_chunks_count fa in
  let '(fa, rand) := if kRandomShuffleChunks
                     then RandomShuffle fa (num_freed_chunks r) (u32 new_chunks_count) (rand_state r)
                     else (fa, rand_state r) in
  let r := advance r new_chunks_count size rand in
  _ ← check (allocated_user r <=? mapped_user r) "CHECK_LE";
  _ ← check (allocated_meta r <=? mapped_meta r) "CHECK_LE";
  mret (true, r, fa, stat).

(** *** Moving chunks *)

Definition set_freed (r : RegionInfo) (num allocs frees : Z) : RegionInfo :=
  mkRegionInfo num (mapped_free_array r) (allocated_user r) (allocated_meta r) (mapped_user r)
    (mapped_meta r) (rand_state r) (exhausted r) allocs frees
    (n_freed_at_last_release r) (num_releases r) (last_release_at_ns r) (last_released_bytes r).

Definition set_region (st : Primary) (class_id : Z) (r : RegionInfo) (fa : FreeArray) : Primary :=
  mkPrimary (NonConstSpaceBeg st) (PremappedHeap st) (release_to_os_interval_ms st)
    (upd (regions st) class_id r) (upd (free_arrays st) class_id fa).

(** The answer, the state, the caller's array, the bytes the statistics gain. *)
Definition GetFromAllocator (os : OsEnv) (st : Primary) (class_id : Z) (chunks : FreeArray) (n_chunks : Z)
    : outcome (bool * Primary * FreeArray * Z) :=
  let r := regions st class_id in
  let fa := free_arrays st class_id in
  res ← (if num_freed_chunks r <? n_chunks then
           res ← PopulateFreeArray os st class_id (n_chunks - num_freed_chunks r) r fa;
           let '(ok, r, fa, stat) := res : bool * RegionInfo * FreeArray * Z in
           _ ← (if ok then check (n_chunks <=? num_freed_chunks r) "CHECK_GE" else mret tt);
           mret (ok, r, fa, stat)
         else mret (true, r, fa, 0));
  let '(ok, r, fa, stat) := res : bool * RegionInfo * FreeArray * Z in
  if negb ok then mret (false, set_region st class_id r fa, chunks, stat) else
  let base_idx := num_freed_chunks r - n_chunks in
  let chunks := copy_array chunks 0 fa base_idx n_chunks in
  mret (true, set_region st class_id (set_freed r base_idx (n_allocated r +64 n_chunks) (n_freed r)) fa,
        chunks, stat).

(** [GetAndResetStats]: the ranges and bytes of the ranges released. *)
Definition released_bytes (st : Primary) (class_id : Z) (rs : list (Z * Z)) : list (Z * Z) :=
  map (fun '(from, to) =>
         (CompactPtrToPointer (GetRegionBeginBySizeClass st class_id) from,
          CompactPtrToPointer (GetRegionBeginBySizeClass st class_id) to)) rs.

Definition range_bytes (rs : list (Z * Z)) : Z :=
  fold_left (fun n '(from, to) => n +64 (to -64 from)) rs 0.

Definition after_release (os : OsEnv) (r : RegionInfo) (rs : list (Z * Z)) : RegionInfo :=
  let ranges := Z.of_nat (length rs) in
  let some := negb (ranges =? 0) in
  mkRegionInfo (num_freed_chunks r) (mapped_free_array r) (allocated_user r) (allocated_meta r)
    (mapped_user r) (mapped_meta r) (rand_state r) (exhausted r) (n_allocated r) (n_freed r)
    (if some then n_freed r else n_freed_at_last_release r)
    (if some then num_releases r +64 ranges else num_releases r)
    (MonotonicNanoTime os 2)
    (if some then range_bytes rs else last_released_bytes r).

(** The byte ranges whose pages go back to the system. *)
Definition MaybeReleaseToOS (os : OsEnv) (st : Primary) (class_id : Z) (force : bool)
    : outcome (Primary * list (Z * Z)) :=
  let r := regions st class_id in
  let fa := free_arrays st class_id in
  let chunk_size := ClassIdToSize class_id in
  let page_size := GetPageSizeCached os in
  let n := num_freed_chunks r in
  if n *64 chunk_size <? page_size then mret (st, []) else
  if (n_freed r -64 n_freed_at_last_release r) *64 chunk_size <? page_size then mret (st, []) else
  let interval_ms := release_to_os_interval_ms st in
  if negb force && ((interval_ms <? 0) ||
       (MonotonicNanoTime os 1 <? u64 (last_release_at_ns r + interval_ms * 1000000)))
  then mret (st, []) else
  pages ← RoundUpTo (allocated_user r) page_size;
  rs ← ReleaseFreeMemoryToOS page_size (map fa (zrange n)) chunk_size (pages / page_size);
  let rs := released_bytes st class_id rs in
  mret (set_region st class_id (after_release os r rs) fa, rs).

Definition ReturnToAllocator (os : OsEnv) (st : Primary) (class_id : Z) (chunks : FreeArray)
    (off n_chunks : Z) : outcome (Primary * list (Z * Z)) :=
  let r := regions st class_id in
  let fa := free_arrays st class_id in
  let region_beg := GetRegionBeginBySizeClass st class_id in
  let old_num_chunks := num_freed_chunks r in
  let new_num_freed_chunks := old_num_chunks + n_chunks in
  arr ← EnsureFreeArraySpace os st r region_beg new_num_freed_chunks;
  let '(ok, r) := arr : bool * RegionInfo in
  if negb ok then Died "allocator exhausted the free list space" else
  let fa := copy_array fa old_num_chunks chunks off n_chunks in
  let r := set_freed r new_num_freed_chunks (n_allocated r) (n_freed r +64 n_chunks) in
  MaybeReleaseToOS os (set_region st class_id r fa) class_id false.

Fixpoint force_release (os : OsEnv) (class_ids : list Z) (st : Primary)
    : outcome (Primary * list (Z * Z)) :=
  match class_ids with
  | [] => mret (st, [])
  | class_id :: class_ids =>
      res ← MaybeReleaseToOS os st class_id true;
      let '(st, rs) := res : Primary * list (Z * Z) in
      res ← force_release os class_ids st;
      let '(st, rs') := res : Primary * list (Z * Z) in
      mret (st, rs ++ rs')
  end.

Definition ForceReleaseToOS (os : OsEnv) (st : Primary) : outcome (Primary * list (Z * Z)) :=
  force_release os (map (Z.add 1) (zrange (kNumClasses - 1))) st.

(** *** Init *)

(** The space the system reserved ([address_range.Init], [InitAligned]), whether it
    maps the region information, and [sizeof(RegionInfo)]. *)
Record InitEnv := mkInitEnv {
  sizeof_RegionInfo : Z;
  reserved : Z -> Z;
  MapOrDie : Z -> Z -> outcome Z
}.

Definition AdditionalSize (os : OsEnv) (ie : InitEnv) : outcome Z :=
  RoundUpTo (sizeof_RegionInfo ie * kNumClassesRounded) (GetPageSizeCached os).

Definition Init (os : OsEnv) (ie : InitEnv) (interval heap_start : Z) : outcome Primary :=
  additional ← AdditionalSize os ie;
  let total := kSpaceSize +64 additional in
  let fresh beg premapped := mkPrimary beg premapped interval (fun _ => region0) (fun _ _ => 0) in
  if negb (heap_start =? 0) then
    _ ← check (negb kUsingConstantSpaceBeg) "CHECK";
    let RegionInfoSpace := reserved ie additional in
    _ ← check (negb (RegionInfoSpace =? 2 ^ 64 - 1)) "CHECK_NE";
    mapped ← MapOrDie ie RegionInfoSpace additional;
    _ ← check (RegionInfoSpace =? mapped) "CHECK_EQ";
    mret (fresh heap_start true)
  else
    beg ← (if kUsingConstantSpaceBeg then
             _ ← check (IsAligned kSpaceBeg kMaxSize) "CHECK";
             _ ← check (kSpaceBeg =? reserved ie total) "CHECK_EQ";
             mret 0
           else
             let beg := reserved ie total in
             _ ← check (negb (beg =? 2 ^ 64 - 1)) "CHECK_NE"; mret beg);
    let st := fresh beg false in
    mapped ← MapOrDie ie (SpaceEnd st) additional;
    _ ← check (SpaceEnd st =? mapped) "CHECK_EQ";
    mret st.

End primary64.

(** What the template's static checks and comments ask of the parameters. *)
Class Primary64Ok `(P : SizeClassMapParams) `(Q : Primary64Params) : Prop := {
  p64_space : kSpaceSize = 2 ^ Z.log2 kSpaceSize /\ Z.log2 kSpaceSize <= 60;
  p64_region : kMaxSize <= kRegionSize <= 2 ^ 36;
  (** "size always fits into 32-bits" *)
  p64_size : kMaxSize < 2 ^ 32;
  p64_beg : kUsingConstantSpaceBeg = true ->
    0 < kSpaceBeg /\ kSpaceBeg mod kRegionSize = 0 /\ kSpaceBeg + 2 * kSpaceSize <= 2 ^ 64;
  p64_meta : 0 <= kMetadataSize <= 2 ^ 16;
  p64_min : 4 <= kMinSizeLog
}.

(** [AP64] of the runtime on Linux: the allocator's metadata are two words. *)
#[export] Instance AP64 : Primary64Params := {|
  kSpaceBeg := 0x700000000000; kSpaceSize := 0x40000000000; kMetadataSize := 16;
  kRandomShuffleChunks := false
|}.

#[export] Instance AP64_ok : Primary64Ok DefaultSizeClassMap AP64.
Proof. split; vm_compute; repeat split; congruence. Qed.

(** ** Lemmas *)

Section layout.
Context `{P : SizeClassMapParams, !SizeClassMapOk P, Q : Primary64Params, !Primary64Ok P Q}.

Lemma rounded_classes : kNumClasses <= kNumClassesRounded /\
  exists l, kNumClassesRounded = 2 ^ l /\ 5 <= l <= 8.
Proof.
  pose proof scm_classes. unfold kNumClassesRounded.
  destruct (Z.leb_spec kNumClasses 32); [split; [done|by exists 5]|].
  destruct (Z.leb_spec kNumClasses 64); [split; [done|by exists 6]|].
  destruct (Z.leb_spec kNumClasses 128); [split; [done|by exists 7]|].
  split; [lia|by exists 8].
Qed.

Lemma region_size : exists r, kRegionSize = 2 ^ r /\ kMaxSizeLog <= r <= 36 /\
  kSpaceSize = kRegionSize * kNumClassesRounded /\ kFreeArraySize = 2 ^ (r - 3).
Proof.
  destruct rounded_classes as (_ & l & Hl & Hlb). pose proof p64_space as [HS Hlog]. pose proof p64_region as HR.
  pose proof scm_powers as (Hmin & Hmid & _ & HX & _). pose proof scm_min. pose proof scm_step. pose proof scm_max.
  assert (0 <= Z.log2 kSpaceSize) by apply Z.log2_nonneg.
  assert (0 < kMaxSize) by (rewrite HX; apply Z.pow_pos_nonneg; lia).
  assert (l <= Z.log2 kSpaceSize) as Hle.
  { destruct (Z.le_gt_cases l (Z.log2 kSpaceSize)) as [|Hlt]; [done|]. exfalso.
    unfold kRegionSize in HR. rewrite Hl, HS in HR.
    rewrite Z.div_small in HR; [lia|]. split; [apply Z.pow_nonneg; lia|]. apply Z.pow_lt_mono_r; lia. }
  assert (kRegionSize = 2 ^ (Z.log2 kSpaceSize - l)) as E
    by (unfold kRegionSize; rewrite Hl, HS at 1; by rewrite <- Z.pow_sub_r by lia).
  exists (Z.log2 kSpaceSize - l). rewrite E, HX in HR.
  assert (kMaxSizeLog <= Z.log2 kSpaceSize - l) by (apply (Z.pow_le_mono_r_iff 2); lia).
  assert (Z.log2 kSpaceSize - l <= 36) by (apply (Z.pow_le_mono_r_iff 2); lia).
  split_and!; [done|done|done| |].
  - rewrite E, Hl, <- Z.pow_add_r by lia. rewrite HS at 1. f_equal. lia.
  - pose proof p64_min. unfold kFreeArraySize. rewrite E. change 8 with (2 ^ 3). by rewrite <- Z.pow_sub_r by lia.
Qed.

Lemma region_facts :
  0 < kRegionSize <= 2 ^ 36 /\ 0 < kFreeArraySize /\ kRegionSize = 8 * kFreeArraySize /\
  kSpaceSize = kRegionSize * kNumClassesRounded /\ kSpaceSize <= 2 ^ 60.
Proof.
  destruct region_size as (r & HR & Hr & HS & HF). pose proof scm_max. pose proof scm_min. pose proof scm_step.
  pose proof p64_region. pose proof p64_space as [HS2 Hlog].
  assert (4 <= kMaxSizeLog) by (pose proof p64_min; lia).
  assert (0 < 2 ^ (r - 3)) by (apply Z.pow_pos_nonneg; lia).
  assert (kRegionSize = 8 * kFreeArraySize).
  { rewrite HF, HR. change 8 with (2 ^ 3). rewrite <- Z.pow_add_r by lia. f_equal. lia. }
  assert (kSpaceSize <= 2 ^ 60) by (rewrite HS2; apply Z.pow_le_mono_r; lia).
  lia.
Qed.

(** The space of an initialised allocator. *)
Record space_ok (st : Primary) : Prop := {
  so_beg : 0 < SpaceBeg st /\ SpaceBeg st + 2 * kSpaceSize <= 2 ^ 64;
  so_aligned : SpaceBeg st mod kMaxSize = 0
}.

Definition region_beg st c : Z := SpaceBeg st + kRegionSize * c.
Definition chunk_addr st c k : Z := region_beg st c + k * Size c.
Definition meta_addr st c k : Z := region_beg st c + kRegionSize - kFreeArraySize - (1 + k) * kMetadataSize.

Lemma class_range c : 1 <= c <= kLargestClassID ->
  c < kNumClasses /\ c + 1 < kNumClassesRounded /\ 0 < Size c < 2 ^ 32 /\ Size c <= kRegionSize.
Proof.
  intros Hc. destruct rounded_classes as [Hr _]. pose proof p64_region. pose proof p64_size.
  assert (c + 1 < kNumClasses) by (unfold kLargestClassID in *; lia).
  pose proof (Size_pos c Hc). pose proof (Size_le_max c). lia.
Qed.

Lemma region_beg_range st c : space_ok st -> 1 <= c <= kLargestClassID ->
  0 < region_beg st c /\ region_beg st c + kRegionSize <= SpaceBeg st + kSpaceSize /\
  region_beg st c + kRegionSize < 2 ^ 64.
Proof.
  intros [Hb _] Hc. pose proof (class_range c Hc). pose proof region_facts as (? & ? & ? & E & ?).
  assert (kRegionSize * (c + 1) < kRegionSize * kNumClassesRounded) by (apply Z.mul_lt_mono_pos_l; lia).
  assert (0 <= kRegionSize * c) by (apply Z.mul_nonneg_nonneg; lia). unfold region_beg. lia.
Qed.

Lemma GetRegionBeginBySizeClass_eq st c :
  space_ok st -> 1 <= c <= kLargestClassID -> GetRegionBeginBySizeClass st c = region_beg st c.
Proof.
  intros Hs Hc. pose proof (region_beg_range st c Hs Hc). pose proof region_facts.
  unfold GetRegionBeginBySizeClass. apply u64_small. unfold region_beg in *. lia.
Qed.

Lemma GetMetadataEnd_eq st c :
  space_ok st -> 1 <= c <= kLargestClassID ->
  GetMetadataEnd (region_beg st c) = region_beg st c + kRegionSize - kFreeArraySize.
Proof.
  intros Hs Hc. pose proof (region_beg_range st c Hs Hc). pose proof region_facts.
  unfold GetMetadataEnd. rewrite (u64_small (region_beg st c + kRegionSize)) by lia. apply u64_small. lia.
Qed.

(** When the space is a constant, it starts at a multiple of the region size. *)
Lemma const_beg st : kUsingConstantSpaceBeg = true ->
  SpaceBeg st = kSpaceBeg /\ exists b, kSpaceBeg = b * kRegionSize.
Proof.
  intros Hk. destruct (p64_beg Hk) as (_ & Hm & _). unfold SpaceBeg. rewrite Hk. split; [done|].
  pose proof region_facts. apply Z.mod_divide in Hm as [b Hb]; [|lia]. by exists b.
Qed.

(** A pointer into the space: its region, and its offset there. *)
Section pointer.
Context (st : Primary) (Hst : space_ok st) (c o : Z) (Hc : 1 <= c <= kLargestClassID) (Ho : 0 <= o < kRegionSize).
Notation p := (region_beg st c + o).

Lemma ptr_offset : p -64 SpaceBeg st = kRegionSize * c + o /\ 0 <= kRegionSize * c + o < kSpaceSize.
Proof.
  pose proof (region_beg_range st c Hst Hc). pose proof region_facts as (? & ? & ? & E & ?).
  destruct Hst as [Hb _]. pose proof (class_range c Hc).
  assert (0 <= kRegionSize * c + o < kSpaceSize) as Hr.
  { unfold region_beg in *. assert (0 <= kRegionSize * c) by (apply Z.mul_nonneg_nonneg; lia). lia. }
  split; [|exact Hr].
  rewrite u64_small; unfold region_beg; lia.
Qed.

Lemma GetSizeClass_ptr : GetSizeClass st p = c.
Proof.
  pose proof ptr_offset as [Hoff Hr]. pose proof region_facts as (HR & ? & ? & E & ?).
  pose proof (class_range c Hc). unfold GetSizeClass. case_match eqn:Hk.
  - apply andb_true_iff in Hk as [Hk Hm]. apply Z.eqb_eq in Hm. destruct (const_beg st Hk) as [Hbeg _].
    apply Z.mod_divide in Hm as [b Hb]; [|lia]. unfold region_beg. rewrite Hbeg, Hb, E.
    replace ((b * (kRegionSize * kNumClassesRounded) + kRegionSize * c + o) / kRegionSize)
      with (b * kNumClassesRounded + c) by (apply (Z.div_unique _ _ _ o); lia).
    rewrite Z.add_comm, Z.mod_add by lia. apply Z.mod_small. lia.
  - rewrite Hoff. replace ((kRegionSize * c + o) / kRegionSize) with c by (apply (Z.div_unique _ _ _ o); lia).
    apply Z.mod_small. lia.
Qed.

Lemma PointerIsMine_ptr : PointerIsMine st p = true.
Proof.
  pose proof ptr_offset as [_ Hr]. pose proof region_facts as (HR & ? & ? & E & ?).
  unfold PointerIsMine. case_match eqn:Hk.
  - apply andb_true_iff in Hk as [Hk Hm]. apply Z.eqb_eq in Hm. destruct (const_beg st Hk) as [Hbeg _].
    apply Z.mod_divide in Hm as [b Hb]; [|lia]. unfold region_beg. rewrite Hbeg, Hb, Z.div_mul by lia.
    apply Z.eqb_eq. symmetry. apply (Z.div_unique _ _ _ (kRegionSize * c + o)); lia.
  - destruct Hst as [Hb _]. unfold SpaceEnd. rewrite u64_small by lia.
    unfold region_beg. bool_goal; lia.
Qed.

Lemma GetRegionBegin_ptr : GetRegionBegin st p = region_beg st c.
Proof.
  pose proof ptr_offset as [Hoff Hr]. destruct region_size as (r & HR & Hrb & E & _).
  pose proof (region_beg_range st c Hst Hc). pose proof scm_max. pose proof scm_min.
  assert (0 <= r <= 64) as Hr64 by lia. destruct Hst as [Hb _]. pose proof region_facts.
  assert (forall x, 0 <= x < 2 ^ 64 -> Z.land x (not64 (kRegionSize - 1)) = kRegionSize * (x / kRegionSize)) as Hland
    by (intros x Hx; rewrite HR; by apply land_not64_pow2).
  unfold GetRegionBegin. case_match eqn:Hk.
  - rewrite Hland by lia. destruct (const_beg st Hk) as [Hbeg (b & Hb')]. unfold region_beg. rewrite Hbeg, Hb'.
    replace ((b * kRegionSize + kRegionSize * c + o) / kRegionSize) with (b + c)
      by (apply (Z.div_unique _ _ _ o); lia). lia.
  - rewrite Hoff, Hland by lia.
    replace ((kRegionSize * c + o) / kRegionSize) with c by (apply (Z.div_unique _ _ _ o); lia).
    unfold region_beg in *. rewrite u64_small; lia.
Qed.

Lemma GetChunkIdx_ptr size : 0 < size < 2 ^ 32 -> GetChunkIdx st p size = o / size.
Proof.
  intros Hsz. pose proof ptr_offset as [Hoff Hr]. pose proof region_facts as (HR & ? & ? & E & ?).
  unfold GetChunkIdx.
  assert ((if negb kUsingConstantSpaceBeg then p -64 SpaceBeg st else p) mod kRegionSize = o) as ->.
  { destruct kUsingConstantSpaceBeg eqn:Hk; cbn [negb].
    - destruct (const_beg st Hk) as [Hbeg (b & Hb)]. unfold region_beg. rewrite Hbeg, Hb.
      symmetry. apply (Z.mod_unique _ _ (b + c)); lia.
    - rewrite Hoff. symmetry. apply (Z.mod_unique _ _ c); lia. }
  rewrite Z.shiftr_div_pow2 by lia. destruct (Z.eqb_spec (o / 2 ^ 32) 0) as [E0|E0]; cbn [negb]; [|done].
  apply Z.div_small_iff in E0; [|lia]. rewrite !u32_small by lia. done.
Qed.
End pointer.

(** An address inside chunk [k] of class [c]. *)
Lemma chunk_ptr st c k x :
  1 <= c <= kLargestClassID -> 0 <= k -> (k + 1) * Size c <= kRegionSize - kFreeArraySize -> 0 <= x < Size c ->
  0 <= k * Size c + x < kRegionSize /\ chunk_addr st c k + x = region_beg st c + (k * Size c + x) /\
  (k * Size c + x) / Size c = k.
Proof.
  intros Hc Hk Hle Hx. pose proof region_facts. pose proof (class_range c Hc).
  split_and!; [nia|lia|unfold chunk_addr; lia|].
  symmetry. apply (Z.div_unique _ _ _ x); lia.
Qed.

Section chunk.
Context (st : Primary) (Hst : space_ok st) (c k x : Z) (Hc : 1 <= c <= kLargestClassID) (Hk : 0 <= k)
  (Hle : (k + 1) * Size c <= kRegionSize - kFreeArraySize) (Hx : 0 <= x < Size c).
Notation p := (chunk_addr st c k + x).

Lemma chunk_class : PointerIsMine st p = true /\ GetSizeClass st p = c.
Proof.
  destruct (chunk_ptr st c k x Hc Hk Hle Hx) as (Hr & -> & _).
  split; [by apply PointerIsMine_ptr|by apply GetSizeClass_ptr].
Qed.

Lemma chunk_block_begin :
  GetBlockBegin st p = if (k + 1) * Size c <=? mapped_user (regions st c) then chunk_addr st c k else 0.
Proof.
  destruct (chunk_ptr st c k x Hc Hk Hle Hx) as (Hr & -> & Hd). pose proof (class_range c Hc) as (Hn & _ & Hsz & _).
  pose proof region_facts. pose proof (region_beg_range st c Hst Hc).
  unfold GetBlockBegin. rewrite GetSizeClass_ptr by done. unfold ClassIdToSize.
  rewrite (proj2 (Z.leb_gt kNumClasses c)) by lia. rewrite (proj2 (Z.eqb_neq (Size c) 0)) by lia.
  rewrite GetChunkIdx_ptr, GetRegionBegin_ptr, Hd by done. unfold chunk_addr.
  rewrite (u64_small (k * Size c)) by nia. rewrite (u64_small (k * Size c + Size c)) by nia.
  replace ((k + 1) * Size c) with (k * Size c + Size c) by lia. case_match; [|done]. apply u64_small. nia.
Qed.

Lemma chunk_actual_size : GetActuallyAllocatedSize st p = Done (Size c).
Proof.
  destruct chunk_class as [Hm Hcl]. unfold GetActuallyAllocatedSize. rewrite Hm, Hcl. done.
Qed.

Lemma chunk_meta_data :
  kMetadataSize <> 0 -> (1 + k) * kMetadataSize <= kRegionSize - kFreeArraySize ->
  GetMetaData st p = Done (meta_addr st c k).
Proof.
  intros Hm Hfit. destruct (chunk_ptr st c k x Hc Hk Hle Hx) as (Hr & -> & Hd).
  pose proof (class_range c Hc) as (Hn & _ & Hsz & _). pose proof (region_beg_range st c Hst Hc).
  pose proof region_facts. pose proof p64_meta.
  unfold GetMetaData. rewrite (proj2 (Z.eqb_neq kMetadataSize 0) Hm). cbn [negb check mbind outcome_bind].
  rewrite GetSizeClass_ptr by done. unfold ClassIdToSize. rewrite (proj2 (Z.eqb_neq (Size c) 0)) by lia.
  rewrite GetChunkIdx_ptr, GetRegionBeginBySizeClass_eq, GetMetadataEnd_eq, Hd by done.
  unfold meta_addr. do 2 f_equal. apply u64_small. nia.
Qed.
End chunk.
End layout.

(** *** Arrays *)

Lemma fill_free_array_spec total alloc size n fa j :
  0 <= n -> fill_free_array total alloc size n fa j =
  if (total - n <=? j) && (j <? total) then PointerToCompactPtr 0 (alloc + (total - 1 - j) * size) else fa j.
Proof.
  intros Hn. unfold fill_free_array, zrange.
  set (f := fun '(fa, chunk) i => (upd fa (total - 1 - i) (PointerToCompactPtr 0 chunk), chunk + size)).
  assert (forall m : nat, snd (fold_left f (map Z.of_nat (seq 0 m)) (fa, alloc)) = alloc + Z.of_nat m * size /\
    fst (fold_left f (map Z.of_nat (seq 0 m)) (fa, alloc)) j
    = if (total - Z.of_nat m <=? j) && (j <? total)
      then PointerToCompactPtr 0 (alloc + (total - 1 - j) * size) else fa j) as Hind.
  { induction m as [|m [IH1 IH2]].
    - cbn [seq map fold_left fst snd]. split; [lia|]. zcase; try done; lia.
    - rewrite seq_S, map_app, fold_left_app. cbn [map fold_left]. rewrite Nat.add_0_l.
      destruct (fold_left f (map Z.of_nat (seq 0 m)) (fa, alloc)) as [fa' chunk]. cbn [fst snd] in *. subst chunk.
      unfold f. cbn [fst snd]. split; [lia|]. unfold upd at 1. rewrite IH2. zcase; try done; try lia. do 2 f_equal. lia. }
  destruct (Hind (Z.to_nat n)) as [_ ->]. by rewrite Z2Nat.id by done.
Qed.

Lemma shuffle_permutes i off n fa state :
  Z.of_nat i < n -> permutes off n fa (shuffle_loop i off fa state).1.
Proof.
  revert fa state. induction i as [|i IH]; intros fa state Hi; [apply permutes_refl|].
  cbn [shuffle_loop]. unfold RandN, Rand. set (v := u32 _). cbv zeta.
  eapply permutes_trans; [|apply IH; lia]. apply Swap_permutes; [lia|].
  pose proof (Z.mod_pos_bound (Z.shiftr v 16) (Z.of_nat (Datatypes.S i) + 1)). lia.
Qed.

Lemma RandomShuffle_permutes fa off n state : permutes off n fa (RandomShuffle fa off n state).1.
Proof.
  unfold RandomShuffle. destruct (Z.leb_spec n 1); [apply permutes_refl|]. apply shuffle_permutes. lia.
Qed.

(** *** Regions *)

Section region.
Context `{P : SizeClassMapParams, !SizeClassMapOk P, Q : Primary64Params, !Primary64Ok P Q}.

(** The number of chunks a region has handed to the free array so far. *)
Definition nchunks (c : Z) (r : RegionInfo) : Z := allocated_user r / Size c.

(** Compact pointers count 16-byte units. *)
Definition csize (c : Z) : Z := Size c / 16.

Record region_ok (c : Z) (r : RegionInfo) : Prop := {
  ro_chunks : 0 <= nchunks c r /\ allocated_user r = nchunks c r * Size c;
  ro_user : allocated_user r <= mapped_user r;
  ro_meta : allocated_meta r = nchunks c r * kMetadataSize /\ allocated_meta r <= mapped_meta r;
  ro_space : mapped_user r + mapped_meta r <= kRegionSize - kFreeArraySize;
  ro_free : 0 <= num_freed_chunks r /\ 4 * num_freed_chunks r <= mapped_free_array r <= kFreeArraySize
}.

(** Only mappings grew. *)
Record grown (r r' : RegionInfo) : Prop := {
  gr_num : num_freed_chunks r' = num_freed_chunks r;
  gr_user : allocated_user r' = allocated_user r;
  gr_meta : allocated_meta r' = allocated_meta r;
  gr_mapped : mapped_user r <= mapped_user r'
}.

Lemma grown_refl r : grown r r.
Proof. by split. Qed.

Lemma grown_trans r r' r'' : grown r r' -> grown r' r'' -> grown r r''.
Proof. intros [] []. split; congruence || lia. Qed.

Lemma size_16 c : 1 <= c <= kLargestClassID -> Size c = 16 * csize c /\ 0 < csize c.
Proof.
  intros Hc. pose proof p64_min. pose proof (class_range c Hc) as (_ & _ & Hs & _).
  destruct (Size_divide c) as [q Hq]; [lia|].
  assert (Size c = csize c * 16) as E; [|lia]. unfold csize.
  replace kMinSizeLog with (kMinSizeLog - 4 + 4) in Hq by lia. rewrite Z.pow_add_r in Hq by lia.
  change (2 ^ 4) with 16 in Hq. rewrite Z.mul_assoc in Hq. rewrite Hq, Z.div_mul by lia. done.
Qed.

Lemma compact_chunk c k :
  1 <= c <= kLargestClassID -> 0 <= k -> k * Size c < 2 ^ 36 -> PointerToCompactPtr 0 (k * Size c) = k * csize c.
Proof.
  intros Hc Hk Hlt. destruct (size_16 c Hc) as [E Hp]. unfold PointerToCompactPtr, kCompactPtrScale.
  assert (0 <= k * Size c) by nia. rewrite Z.sub_0_r, u64_small by lia.
  rewrite Z.shiftr_div_pow2 by lia. change (2 ^ 4) with 16. rewrite E at 1.
  replace (k * (16 * csize c)) with (k * csize c * 16) by ring. rewrite Z.div_mul by lia.
  apply u32_small. nia.
Qed.

(** The operations below see a region through its sizes only. *)
Ltac region_eq := unfold nchunks in *; cbn [num_freed_chunks allocated_user allocated_meta mapped_user mapped_meta mapped_free_array
  set_exhausted set_mapped_free_array add_mapped_user add_mapped_meta first_map] in *.

Lemma exhausted_cases r n full r' :
  IsRegionExhausted r n = (full, r') ->
  (forall c, region_ok c r -> region_ok c r') /\ grown r r' /\
  (full = false -> r' = r /\ mapped_user r + mapped_meta r + n <= kRegionSize - kFreeArraySize).
Proof.
  unfold IsRegionExhausted. case_match; intros [= <- <-].
  - bool_hyps. split; [done|]. split; [apply grown_refl|]. done.
  - split; [|split; [by split|done]]. intros c [? ? ? ? ?]. by split.
Qed.

Lemma map_user_spec os st c n r ok r' stat :
  1 <= c <= kLargestClassID -> region_ok c r -> 0 < n <= 2 ^ 30 ->
  map_user_space os st c n r = Done (ok, r', stat) ->
  region_ok c r' /\ grown r r' /\ (ok = true -> allocated_user r + n * Size c <= mapped_user r').
Proof.
  intros Hc Hr Hn. pose proof (class_range c Hc) as (_ & _ & Hs & _). pose proof region_facts as (HR & HF & _).
  pose proof Hr as [[H0 Ha] Hu Hm Hsp Hf]. pose proof p64_meta.
  assert (0 <= allocated_user r) by nia. assert (0 <= allocated_meta r) by nia.
  assert (0 < n * Size c < 2 ^ 62) as Hb by nia.
  unfold map_user_space, ClassIdToSize. rewrite (u64_small (n * Size c)) by lia.
  rewrite (u64_small (allocated_user r + n * Size c)) by lia.
  destruct (Z.ltb_spec (mapped_user r) (allocated_user r + n * Size c)) as [Hlt|Hge].
  2:{ intros [= <- <- <-]. split; [done|]. split; [apply grown_refl|]. lia. }
  set (r1 := if mapped_user r =? 0 then _ else r).
  assert (region_ok c r1 /\ grown r r1) as [Hr1 Hg1].
  { unfold r1. case_match; [|by split; [|apply grown_refl]]. split; [by split|by split]. }
  assert (mapped_user r1 = mapped_user r) as Emu by (unfold r1; by case_match).
  clearbody r1. cbv zeta. intros E. apply bind_done in E as (ms & Ems & E).
  change kUserMapSize with (2 ^ 18) in Ems. rewrite Emu in Ems.
  apply RoundUpTo_bounds in Ems; [|lia..]. destruct Ems as (Hms & _ & _).
  destruct (IsRegionExhausted r1 ms) as [full r2] eqn:Ex.
  apply exhausted_cases in Ex as (Hr2 & Hg2 & Hfull). destruct full.
  { injection E as <- <- <-. split; [by apply Hr2|]. split; [by eapply grown_trans|done]. }
  destruct (Hfull eq_refl) as [-> Hsp2]. apply bind_done in E as (m & _ & E). destruct m; cbn [negb] in E.
  2:{ by injection E as <- <- <-. }
  injection E as <- <- <-. destruct Hr1 as [Hc1 Hu1 Hm1 Hs1 Hf1]. destruct Hg1 as [G1 G2 G3 G4].
  split; [|split].
  - split; region_eq; try done; lia.
  - split; region_eq; try done; lia.
  - intros _. region_eq. lia.
Qed.

Lemma map_meta_spec os st c n r ok r' :
  1 <= c <= kLargestClassID -> region_ok c r -> 0 <= n <= 2 ^ 36 ->
  map_meta_space os st c n r = Done (ok, r') ->
  region_ok c r' /\ grown r r' /\ mapped_user r' = mapped_user r /\
  (ok = true -> allocated_meta r + n * kMetadataSize <= mapped_meta r').
Proof.
  intros Hc Hr Hn. pose proof region_facts as (HR & HF & _). pose proof p64_meta.
  pose proof Hr as [[H0 Ha] Hu [Hm Hm2] Hsp Hf]. pose proof (class_range c Hc) as (_ & _ & Hs & _).
  assert (0 <= allocated_user r) by nia. assert (0 <= allocated_meta r) by nia.
  assert (0 <= n * kMetadataSize <= 2 ^ 52) as Hb by nia.
  unfold map_meta_space. destruct (Z.eqb_spec kMetadataSize 0) as [E0|_].
  { intros [= <- <-]. rewrite E0. split; [done|]. split; [apply grown_refl|]. lia. }
  cbv zeta. rewrite (u64_small (n * kMetadataSize)) by lia. rewrite (u64_small (allocated_meta r + n * kMetadataSize)) by lia.
  intros E. apply bind_done in E as (ms & Ems & E).
  assert (0 <= ms /\ allocated_meta r + n * kMetadataSize <= mapped_meta r + ms) as [Hms0 Hms].
  { destruct (Z.ltb_spec (mapped_meta r) (allocated_meta r + n * kMetadataSize)) as [Hlt|Hge].
    - change kMetaMapSize with (2 ^ 16) in Ems. apply RoundUpTo_bounds in Ems; [|lia..]. lia.
    - injection Ems as <-. lia. }
  destruct (Z.eqb_spec ms 0) as [->|Hne].
  { injection E as <- <-. split; [done|]. split; [apply grown_refl|]. lia. }
  destruct (IsRegionExhausted r ms) as [full r2] eqn:Ex.
  pose proof Ex as Ex'. unfold IsRegionExhausted in Ex'.
  apply exhausted_cases in Ex as (Hr2 & Hg2 & Hfull). destruct full.
  { injection E as <- <-. split; [by apply Hr2|]. split; [done|]. split; [|done].
    case_match; [done|]. by injection Ex' as <-. }
  destruct (Hfull eq_refl) as [-> Hsp2]. apply bind_done in E as (m & _ & E). destruct m; cbn [negb] in E.
  2:{ injection E as <- <-. done. }
  injection E as <- <-. destruct Hr as [Hc1 Hu1 Hm1 Hs1 Hf1]. split_and!; [| |done|region_eq; lia].
  - split; region_eq; try done; lia.
  - split; region_eq; done || lia.
Qed.

Lemma ensure_spec os st c r beg num ok r' :
  region_ok c r -> 0 <= num <= 2 ^ 40 ->
  EnsureFreeArraySpace os st r beg num = Done (ok, r') ->
  region_ok c r' /\ grown r r' /\ mapped_user r' = mapped_user r /\ mapped_meta r' = mapped_meta r /\
  rand_state r' = rand_state r /\ (ok = true -> 4 * num <= mapped_free_array r').
Proof.
  intros Hr Hn. pose proof Hr as [Hc1 Hu1 Hm1 Hs1 Hf1]. unfold EnsureFreeArraySpace.
  rewrite (u64_small (num * 4)) by lia. destruct (Z.ltb_spec (mapped_free_array r) (num * 4)) as [Hlt|Hge].
  2:{ intros [= <- <-]. split; [done|]. split; [apply grown_refl|]. split_and!; try done. lia. }
  intros E. apply bind_done in E as (nm & Enm & E). apply bind_done in E as ([] & Ec & E). apply check_done in Ec.
  bool_hyps. change kFreeArrayMapSize with (2 ^ 18) in Enm. apply RoundUpTo_bounds in Enm; [|lia..].
  cbv zeta in E. apply bind_done in E as (m & _ & E). destruct m; cbn [negb] in E.
  2:{ injection E as <- <-. split; [done|]. split; [apply grown_refl|]. by split_and!. }
  injection E as <- <-. split_and!; try done; [|region_eq; lia].
  split; region_eq; try done; lia.
Qed.

(** New chunks in the free array, above the old ones. *)
Record populated (c : Z) (r : RegionInfo) (fa : FreeArray) (r' : RegionInfo) (fa' : FreeArray) : Prop := {
  pp_num : num_freed_chunks r' = num_freed_chunks r + (nchunks c r' - nchunks c r);
  pp_more : nchunks c r <= nchunks c r';
  pp_old i : i < num_freed_chunks r -> fa' i = fa i;
  pp_new i : num_freed_chunks r <= i < num_freed_chunks r' ->
    exists k, nchunks c r <= k < nchunks c r' /\ fa' i = k * csize c;
  pp_inj i j : num_freed_chunks r <= i < num_freed_chunks r' ->
    num_freed_chunks r <= j < num_freed_chunks r' -> fa' i = fa' j -> i = j;
  pp_all k : nchunks c r <= k < nchunks c r' ->
    exists i, num_freed_chunks r <= i < num_freed_chunks r' /\ fa' i = k * csize c
}.

Lemma populated_refl c r fa : populated c r fa r fa.
Proof. split; try done; intros; lia. Qed.

Lemma permutes_populated c r fa r' fa' fa'' :
  populated c r fa r' fa' ->
  permutes (num_freed_chunks r) (num_freed_chunks r' - num_freed_chunks r) fa' fa'' ->
  populated c r fa r' fa''.
Proof.
  intros [Hn Hm Ho Hnew Hinj Hall] (p & q & Hp & Hpq & Hqp & Hin & Hiq & Hout).
  assert (forall i, num_freed_chunks r <= i < num_freed_chunks r' ->
    num_freed_chunks r <= p i < num_freed_chunks r') as Hin' by (intros i Hi; specialize (Hin i); lia).
  split; [done|done| | | |].
  - intros i Hi. rewrite Hp, Hout by lia. by apply Ho.
  - intros i Hi. rewrite Hp. by apply Hnew, Hin'.
  - intros i j Hi Hj. rewrite !Hp. intros E. rewrite <- (Hqp i), <- (Hqp j). f_equal.
    apply Hinj; [by apply Hin'|by apply Hin'|done].
  - intros k Hk. destruct (Hall k Hk) as (i & Hi & Ei). exists (q i).
    split; [specialize (Hiq i); lia|]. by rewrite Hp, Hpq.
Qed.

Lemma fill_populated c r fa n :
  1 <= c <= kLargestClassID -> region_ok c r -> 0 <= n -> (nchunks c r + n) * Size c < 2 ^ 36 -> forall rand,
  populated c r fa (advance r n (Size c) rand)
    (fill_free_array (num_freed_chunks r + n) (allocated_user r) (Size c) n fa).
Proof.
  intros Hc [[H0 Ha] _ _ _ _] Hn Hlt rand. destruct (size_16 c Hc) as [_ Hcs].
  pose proof (class_range c Hc) as (_ & _ & Hs & _).
  assert (nchunks c (advance r n (Size c) rand) = nchunks c r + n) as En.
  { unfold nchunks. cbn [advance allocated_user]. apply Z.div_add. lia. }
  assert (forall i, num_freed_chunks r <= i < num_freed_chunks r + n ->
    fill_free_array (num_freed_chunks r + n) (allocated_user r) (Size c) n fa i
    = (nchunks c r + (num_freed_chunks r + n - 1 - i)) * csize c) as Hfill.
  { intros i Hi. rewrite fill_free_array_spec by done.
    rewrite (proj2 (Z.leb_le _ i)), (proj2 (Z.ltb_lt i _)) by lia. cbn [andb].
    rewrite Ha. replace (nchunks c r * Size c + (num_freed_chunks r + n - 1 - i) * Size c)
      with ((nchunks c r + (num_freed_chunks r + n - 1 - i)) * Size c) by ring.
    apply compact_chunk; [done|lia|nia]. }
  split; rewrite ?En; cbn [advance num_freed_chunks]; try lia.
  - intros i Hi. rewrite fill_free_array_spec by done. rewrite (proj2 (Z.leb_gt _ i)) by lia. done.
  - intros i Hi. exists (nchunks c r + (num_freed_chunks r + n - 1 - i)). split; [lia|by apply Hfill].
  - intros i j Hi Hj. rewrite !Hfill by done. nia.
  - intros k Hk. exists (num_freed_chunks r + n - 1 - (k - nchunks c r)). split; [lia|].
    rewrite Hfill by lia. f_equal. lia.
Qed.

Lemma populated_grown c r r1 fa r' fa' :
  grown r r1 -> populated c r1 fa r' fa' -> populated c r fa r' fa'.
Proof.
  intros [Gn Gu Gm Gp] [Hn Hm Ho Hnew Hinj Hall]. unfold nchunks in *. rewrite Gn, Gu in *.
  split; unfold nchunks; try done.
Qed.

Lemma populate_spec os st c n r fa ok r' fa' stat :
  1 <= c <= kLargestClassID -> region_ok c r -> 0 < n <= 2 ^ 30 ->
  PopulateFreeArray os st c n r fa = Done (ok, r', fa', stat) ->
  region_ok c r' /\
  if ok then populated c r fa r' fa' /\ n <= nchunks c r' - nchunks c r
  else grown r r' /\ fa' = fa.
Proof.
  intros Hc Hr Hn E. pose proof (class_range c Hc) as (_ & _ & Hs & _).
  pose proof region_facts as (HR & HF & _). unfold PopulateFreeArray in E. cbv zeta in E.
  apply bind_done in E as ([[ok1 r1] stat1] & E1 & E). unfold ClassIdToSize in E.
  destruct (map_user_spec _ _ _ _ _ _ _ _ Hc Hr Hn E1) as (Hr1 & Hg1 & Hmore).
  destruct ok1; cbn [negb] in E; [|by injection E as <- <- <- <-].
  specialize (Hmore eq_refl).
  set (m := (mapped_user r1 - allocated_user r1) / Size c) in E.
  pose proof Hr1 as [[H0 Ha] Hu Hm Hsp Hf]. pose proof (gr_user _ _ Hg1) as Gu.
  assert (0 <= allocated_user r1) by (rewrite Ha; apply Z.mul_nonneg_nonneg; lia).
  assert (0 <= mapped_meta r1) by (pose proof p64_meta; destruct Hm; nia).
  assert (n <= m) as Hnm by (apply Z.div_le_lower_bound; lia).
  assert (m * Size c <= mapped_user r1 - allocated_user r1) as Hms
    by (rewrite Z.mul_comm; apply Z.mul_div_le; lia).
  assert (m < 2 ^ 32) as Hmb by (pose proof (size_16 c Hc); nia).
  apply bind_done in E as ([ok2 r2] & E2 & E).
  destruct (map_meta_spec os st c m r1 ok2 r2 Hc Hr1 ltac:(lia) E2) as (Hr2 & Hg2 & Emu & Hmeta).
  assert (grown r r2) as Hg02 by (by eapply grown_trans).
  destruct ok2; cbn [negb] in E; [|by injection E as <- <- <- <-].
  specialize (Hmeta eq_refl).
  apply bind_done in E as ([ok3 r3] & E3 & E).
  pose proof Hr2 as [_ _ _ _ Hf2].
  destruct (ensure_spec os st c r2 _ (num_freed_chunks r2 + m) ok3 r3 Hr2 ltac:(lia) E3) as (Hr3 & Hg3 & Emu3 & Emm3 & Erand & Hfree).
  assert (grown r r3) as Hg03 by (by eapply grown_trans).
  destruct ok3; cbn [negb] in E; [|by injection E as <- <- <- <-].
  specialize (Hfree eq_refl).
  pose proof (gr_num _ _ Hg3) as Gn3. pose proof (gr_user _ _ Hg3) as Gu3. pose proof (gr_user _ _ Hg2) as Gu2.
  pose proof (gr_meta _ _ Hg3) as Gm3. pose proof (gr_meta _ _ Hg2) as Gm2.
  pose proof Hr3 as [[H03 Ha3] Hu3 [Hm3 _] Hsp3 Hf3].
  assert ((nchunks c r3 + m) * Size c < 2 ^ 36) as Hbig by nia.
  rewrite <- Gn3 in E.
  pose proof (fill_populated c r3 fa m Hc Hr3 ltac:(lia) Hbig) as Hfill.
  set (fa1 := fill_free_array _ _ _ _ _) in *.
  destruct (if kRandomShuffleChunks then _ else _) as [fa2 rand] eqn:Esh in E.
  apply bind_done in E as ([] & C1 & E). apply bind_done in E as ([] & C2 & E).
  apply check_done in C1, C2. bool_hyps. injection E as <- <- <- <-.
  assert (nchunks c (advance r3 m (Size c) rand) = nchunks c r3 + m) as En.
  { unfold nchunks. cbn [advance allocated_user]. apply Z.div_add. lia. }
  assert (nchunks c r3 = nchunks c r) as En3 by (unfold nchunks; by rewrite (gr_user _ _ Hg03)).
  split.
  - split; rewrite ?En; cbn [advance num_freed_chunks allocated_user allocated_meta mapped_user mapped_meta mapped_free_array];
      cbn [advance allocated_user allocated_meta mapped_user mapped_meta] in *; try lia.
  - rewrite En, En3. split; [|lia]. eapply populated_grown; [exact Hg03|].
    eapply permutes_populated; [exact (Hfill rand)|]. cbn [advance num_freed_chunks].
    destruct kRandomShuffleChunks.
    + pose proof (RandomShuffle_permutes fa1 (num_freed_chunks r3) (u32 m) (rand_state r3)) as Hp.
      rewrite Esh in Hp. cbn [fst] in Hp.
      rewrite u32_small in Hp by lia. by replace (num_freed_chunks r3 + m - num_freed_chunks r3) with m by lia.
    + injection Esh as <- _. apply permutes_refl.
Qed.

(** *** The operations of the allocator *)

Record primary_ok (st : Primary) : Prop := {
  pk_space : space_ok st;
  pk_region c : 1 <= c <= kLargestClassID -> region_ok c (regions st c)
}.

(** Only class [c] changed. *)
Record only_class (c : Z) (st st' : Primary) : Prop := {
  oc_beg : NonConstSpaceBeg st' = NonConstSpaceBeg st;
  oc_premapped : PremappedHeap st' = PremappedHeap st;
  oc_regions d : d <> c -> regions st' d = regions st d;
  oc_arrays d : d <> c -> free_arrays st' d = free_arrays st d
}.

Lemma only_class_refl c st : only_class c st st.
Proof. by split. Qed.

Lemma only_class_trans c st st' st'' : only_class c st st' -> only_class c st' st'' -> only_class c st st''.
Proof.
  intros [A1 A2 A3 A4] [B1 B2 B3 B4]. split; try congruence.
  - intros d Hd. by rewrite B3, A3.
  - intros d Hd. by rewrite B4, A4.
Qed.

Lemma set_region_only c st r fa : only_class c st (set_region st c r fa).
Proof.
  split; try done; intros d Hd; cbn; unfold upd; by rewrite (proj2 (Z.eqb_neq d c)).
Qed.

Lemma set_region_same c st r fa :
  regions (set_region st c r fa) c = r /\ free_arrays (set_region st c r fa) c = fa.
Proof. cbn. unfold upd. by rewrite Z.eqb_refl. Qed.

Lemma only_class_space c st st' : only_class c st st' -> SpaceBeg st' = SpaceBeg st.
Proof. intros [E _ _ _]. unfold SpaceBeg. by rewrite E. Qed.

Lemma only_class_space_ok c st st' : only_class c st st' -> space_ok st -> space_ok st'.
Proof. intros Ho [Hb Ha]. split; by rewrite (only_class_space c st st'). Qed.

Lemma only_class_ok c st st' :
  only_class c st st' -> primary_ok st -> region_ok c (regions st' c) -> primary_ok st'.
Proof.
  intros Ho [Hs Hr] Hc. split; [by eapply only_class_space_ok|].
  intros d Hd. destruct (Z.eq_dec d c) as [->|Hne]; [done|]. rewrite (oc_regions _ _ _ Ho) by done. by apply Hr.
Qed.

Lemma set_freed_ok c r num a f :
  region_ok c r -> 0 <= num -> 4 * num <= mapped_free_array r -> region_ok c (set_freed r num a f).
Proof. intros [H1 H2 H3 H4 H5] H0 Hn. split; try done. cbn. lia. Qed.

(** Taking chunks: the free array first gets new chunks if it has too few, then its
    last [n] elements move to the caller's array. *)
Record taken (c n : Z) (st st' : Primary) (chunks chunks' : FreeArray) (r1 : RegionInfo) (fa1 : FreeArray) : Prop := {
  tk_populated : populated c (regions st c) (free_arrays st c) r1 fa1;
  tk_enough : n <= num_freed_chunks r1;
  tk_num : num_freed_chunks (regions st' c) = num_freed_chunks r1 - n;
  tk_nchunks : nchunks c (regions st' c) = nchunks c r1;
  tk_array : free_arrays st' c = fa1;
  tk_chunks i : chunks' i = if (0 <=? i) && (i <? n) then fa1 (num_freed_chunks r1 - n + i) else chunks i
}.

Lemma get_spec os st c chunks n ok st' chunks' stat :
  1 <= c <= kLargestClassID -> primary_ok st -> 0 < n <= 2 ^ 30 ->
  GetFromAllocator os st c chunks n = Done (ok, st', chunks', stat) ->
  primary_ok st' /\ only_class c st st' /\
  if ok then exists r1 fa1, taken c n st st' chunks chunks' r1 fa1
  else chunks' = chunks /\ free_arrays st' c = free_arrays st c /\ grown (regions st c) (regions st' c).
Proof.
  intros Hc Hst Hn E. pose proof (pk_region _ Hst c Hc) as Hr. unfold GetFromAllocator in E. cbv zeta in E.
  apply bind_done in E as ([[[ok1 r1] fa1] stat1] & E1 & E).
  assert (region_ok c r1 /\ if ok1 then populated c (regions st c) (free_arrays st c) r1 fa1 /\ n <= num_freed_chunks r1
          else grown (regions st c) r1 /\ fa1 = free_arrays st c) as [Hr1 Hcase].
  { destruct (Z.ltb_spec (num_freed_chunks (regions st c)) n) as [Hlt|Hge].
    - apply bind_done in E1 as ([[[ok2 r2] fa2] stat2] & E2 & E1).
      pose proof (ro_free _ _ Hr) as [Hf0 _].
      destruct (populate_spec os st c (n - num_freed_chunks (regions st c)) _ _ _ _ _ _ Hc Hr ltac:(lia) E2) as [Hr2 Hp].
      destruct ok2.
      + apply bind_done in E1 as ([] & Hck & E1). apply check_done in Hck. bool_hyps.
        injection E1 as <- <- <- <-. split; [done|]. split; [apply Hp|done].
      + by injection E1 as <- <- <- <-.
    - injection E1 as <- <- <- <-. split; [done|]. split; [apply populated_refl|done]. }
  assert (forall r fa, region_ok c r -> primary_ok (set_region st c r fa)) as Hset.
  { intros r fa Hrr. eapply only_class_ok; [apply set_region_only|done|].
    by rewrite (proj1 (set_region_same c st r fa)). }
  destruct ok1; cbn [negb] in E.
  - destruct Hcase as [Hp Hle]. injection E as <- <- <- <-.
    split; [apply Hset, set_freed_ok; [done|lia|pose proof (ro_free _ _ Hr1); lia]|].
    split; [apply set_region_only|]. exists r1, fa1.
    split; rewrite ?(proj1 (set_region_same c st _ _)), ?(proj2 (set_region_same c st _ _)); try done.
    intros i. rewrite copy_array_spec by lia. rewrite Z.add_0_l, Z.sub_0_r. done.
  - destruct Hcase as [Hg ->]. injection E as <- <- <- <-.
    split; [by apply Hset|]. split; [apply set_region_only|]. split; [done|].
    by rewrite (proj1 (set_region_same c st _ _)), (proj2 (set_region_same c st _ _)).
Qed.

(** The free array holds distinct chunks of the region. *)
Record entries_ok (c : Z) (r : RegionInfo) (fa : FreeArray) : Prop := {
  en_chunk i : 0 <= i < num_freed_chunks r -> exists k, 0 <= k < nchunks c r /\ fa i = k * csize c;
  en_inj i j : 0 <= i < num_freed_chunks r -> 0 <= j < num_freed_chunks r -> fa i = fa j -> i = j
}.

(** The bytes of a list of ranges all belong to chunks of the free array. *)
Definition released_free (c : Z) (st : Primary) (rs : list (Z * Z)) : Prop :=
  forall a b x, (a, b) ∈ rs -> a <= x < b ->
    exists k i, 0 <= i < num_freed_chunks (regions st c) /\ free_arrays st c i = k * csize c /\
      chunk_addr st c k <= x < chunk_addr st c k + Size c.

Definition os_ok (os : OsEnv) : Prop := 4 <= page_size_log os <= 32.

Lemma entries_list c r fa :
  0 < csize c -> entries_ok c r fa ->
  exists ks, map fa (zrange (num_freed_chunks r)) = map (fun k => k * csize c) ks /\ NoDup ks /\
    Forall (Z.le 0) ks /\
    forall k, k ∈ ks -> exists i, 0 <= i < num_freed_chunks r /\ fa i = k * csize c.
Proof.
  intros Hcs [Hck Hinj]. exists (map (fun i => fa i / csize c) (zrange (num_freed_chunks r))).
  assert (forall i, 0 <= i < num_freed_chunks r -> fa i / csize c * csize c = fa i /\ 0 <= fa i / csize c) as Hdiv.
  { intros i Hi. destruct (Hck i Hi) as (k & Hk & ->). rewrite Z.div_mul by lia. lia. }
  split_and!.
  - rewrite map_map. apply map_ext_in. intros i Hi. apply list_elem_of_In, elem_of_zrange in Hi.
    symmetry. by apply Hdiv.
  - apply NoDup_ListNoDup. apply List.NoDup_map_NoDup_ForallPairs.
    + intros i j Hi Hj E. apply list_elem_of_In, elem_of_zrange in Hi, Hj.
      apply Hinj; [done|done|]. destruct (Hdiv i Hi) as [<- _]. destruct (Hdiv j Hj) as [<- _]. by rewrite E.
    + apply NoDup_ListNoDup. unfold zrange. apply (NoDup_fmap_2 Z.of_nat). apply NoDup_seq.
  - apply list.Forall_forall. intros k Hk. apply list_elem_of_fmap in Hk as (i & -> & Hi%elem_of_zrange).
    by apply Hdiv.
  - intros k Hk. apply list_elem_of_fmap in Hk as (i & -> & Hi%elem_of_zrange).
    exists i. split; [done|]. symmetry. by apply Hdiv.
Qed.

(** From units of the region to bytes. *)
Lemma released_units c st (ks : list Z) (rs : list (Z * Z)) n :
  1 <= c <= kLargestClassID -> primary_ok st -> entries_ok c (regions st c) (free_arrays st c) ->
  (forall k, k ∈ ks -> exists i, 0 <= i < num_freed_chunks (regions st c) /\ free_arrays st c i = k * csize c) ->
  (forall a b, (a, b) ∈ rs -> 0 <= a < b /\ forall x, a <= x < b -> x < n /\ x / csize c ∈ ks) ->
  released_free c st (released_bytes st c rs).
Proof.
  intros Hc Hst Hen Hks Hsound a b x Hab Hx.
  destruct (size_16 c Hc) as [E16 Hcs]. pose proof region_facts as (HR & HF & _).
  pose proof (pk_region _ Hst c Hc) as [[_ Ha] Hu [Hm Hm2] Hsp _]. pose proof (pk_space _ Hst) as Hspace.
  pose proof p64_meta as Hmeta.
  apply list_elem_of_fmap in Hab as ([from to] & [= -> ->] & Hft).
  rewrite GetRegionBeginBySizeClass_eq in Hx by done. pose proof (region_beg_range st c Hspace Hc) as Hrb.
  destruct (Hsound from to Hft) as [Hab Hunit].
  assert (to * 16 <= allocated_user (regions st c)) as HeR.
  { destruct (Hks _ (proj2 (Hunit (to - 1) ltac:(lia)))) as (i & Hi & Efa).
    destruct (en_chunk _ _ _ Hen i Hi) as (k & Hk & Ek). rewrite Ek in Efa.
    apply Z.mul_reg_r in Efa; [|lia].
    pose proof (Z.div_mod (to - 1) (csize c) ltac:(lia)) as Hdm.
    pose proof (Z.mod_pos_bound (to - 1) (csize c) Hcs). rewrite <- Efa in Hdm. rewrite Ha, E16.
    assert (csize c * (k + 1) <= csize c * nchunks c (regions st c)) by (apply Z.mul_le_mono_nonneg_l; lia). lia. }
  assert (0 <= mapped_meta (regions st c)).
  { assert (0 <= nchunks c (regions st c) * kMetadataSize); [|lia].
    destruct (Hks _ (proj2 (Hunit (to - 1) ltac:(lia)))) as (i & Hi & _).
    destruct (en_chunk _ _ _ Hen i Hi) as (k & Hk & _). apply Z.mul_nonneg_nonneg; lia. }
  unfold CompactPtrToPointer, kCompactPtrScale in Hx.
  rewrite !Z.shiftl_mul_pow2 in Hx by lia. change (2 ^ 4) with 16 in Hx. rewrite !u64_small in Hx by lia.
  set (u := (x - region_beg st c) / 16).
  pose proof (Z.div_mod (x - region_beg st c) 16 ltac:(lia)) as Hdm.
  pose proof (Z.mod_pos_bound (x - region_beg st c) 16 ltac:(lia)). fold u in Hdm.
  destruct (Hks _ (proj2 (Hunit u ltac:(lia)))) as (i & Hi & Efa). exists (u / csize c), i.
  split; [done|]. split; [done|].
  pose proof (Z.div_mod u (csize c) ltac:(lia)). pose proof (Z.mod_pos_bound u (csize c) Hcs).
  unfold chunk_addr. rewrite E16. clear -Hdm H H0 H1 H2 Hcs.
  assert (u / csize c * (16 * csize c) = 16 * (csize c * (u / csize c))) as -> by ring. lia.
Qed.

(** Releasing always succeeds, changes the counters of the region only, and gives
    away bytes of free chunks only. *)
Lemma release_spec os st c force :
  1 <= c <= kLargestClassID -> primary_ok st -> os_ok os -> entries_ok c (regions st c) (free_arrays st c) ->
  exists st' rs, MaybeReleaseToOS os st c force = Done (st', rs) /\
    primary_ok st' /\ only_class c st st' /\ free_arrays st' c = free_arrays st c /\
    num_freed_chunks (regions st' c) = num_freed_chunks (regions st c) /\
    allocated_user (regions st' c) = allocated_user (regions st c) /\
    mapped_user (regions st' c) = mapped_user (regions st c) /\ released_free c st rs.
Proof.
  intros Hc Hst Hos Hen. pose proof (pk_region _ Hst c Hc) as Hr. pose proof (pk_space _ Hst) as Hsp.
  destruct (size_16 c Hc) as [E16 Hcs]. pose proof (class_range c Hc) as (_ & _ & Hs & _).
  pose proof region_facts as (HR & HF & HRF & _). pose proof Hr as [[H0 Ha] Hu [Hm Hm2] Hspc Hf]. pose proof p64_meta.
  assert (exists st' rs, Done (st, []) = Done (st', rs) /\ primary_ok st' /\ only_class c st st' /\
    free_arrays st' c = free_arrays st c /\
    num_freed_chunks (regions st' c) = num_freed_chunks (regions st c) /\
    allocated_user (regions st' c) = allocated_user (regions st c) /\
    mapped_user (regions st' c) = mapped_user (regions st c) /\ released_free c st rs) as Hnone.
  { exists st, []. split_and!; try done. intros a b x Hx. by apply not_elem_of_nil in Hx. }
  unfold MaybeReleaseToOS, ClassIdToSize, GetPageSizeCached. cbv zeta.
  set (r := regions st c) in *. set (fa := free_arrays st c) in *.
  set (g := page_size_log os - 4). assert (2 ^ page_size_log os = 16 * 2 ^ g) as Epg.
  { change 16 with (2 ^ 4). rewrite <- Z.pow_add_r by (unfold os_ok in Hos; lia). f_equal. unfold g. lia. }
  destruct (Z.ltb_spec (num_freed_chunks r *64 Size c) (2 ^ page_size_log os)) as [_|Hbig]; [exact Hnone|].
  case_match; [exact Hnone|]. case_match; [exact Hnone|]. clear Hnone.
  unfold os_ok in Hos. assert (0 < 2 ^ g) as Hpg by (apply Z.pow_pos_nonneg; lia).
  pose proof (Z.pow_le_mono_r 2 (page_size_log os) 32 ltac:(lia) ltac:(lia)) as Hp32.
  assert (0 < num_freed_chunks r) as Hnum.
  { destruct (Z.eq_dec (num_freed_chunks r) 0) as [E0|]; [|lia]. rewrite E0, Z.mul_0_l in Hbig.
    change (u64 0) with 0 in Hbig. lia. }
  destruct (en_chunk _ _ _ Hen 0 ltac:(lia)) as (k0 & Hk0 & _).
  assert (0 < allocated_user r) by (rewrite Ha; apply Z.mul_pos_pos; lia).
  assert (0 <= mapped_meta r) by nia.
  rewrite RoundUpTo_spec by lia. cbn [mbind outcome_bind].
  rewrite (Z.mul_comm (2 ^ page_size_log os)), Z.div_mul by lia.
  set (pages := (allocated_user r + 2 ^ page_size_log os - 1) / 2 ^ page_size_log os).
  assert (0 < pages) as Hpages by (apply Z.div_str_pos; lia).
  assert (pages * 2 ^ page_size_log os <= allocated_user r + 2 ^ page_size_log os - 1) as Hpb
    by (unfold pages; rewrite Z.mul_comm; apply Z.mul_div_le; lia).
  assert (pages * 2 ^ g < 2 ^ 32) as Hfit by lia.
  destruct (entries_list c r fa Hcs Hen) as (ks & -> & Hnd & Hpos & Hks).
  rewrite Epg, E16.
  destruct (release_exact (csize c) g Hcs ltac:(lia) pages ks ltac:(lia) Hpages Hfit Hnd Hpos)
    as (rs & -> & Hsound & _).
  cbn [mbind outcome_bind mret outcome_ret]. eexists _, _. split; [reflexivity|].
  split; [eapply only_class_ok; [apply set_region_only|done|]; rewrite (proj1 (set_region_same c st _ _)); by split|].
  split; [apply set_region_only|].
  rewrite ?(proj1 (set_region_same c st _ _)), ?(proj2 (set_region_same c st _ _)).
  split_and!; [done..|]. by eapply released_units.
Qed.

(** Giving chunks back: they go on top of the free array. *)
Record returned (c n : Z) (st st' : Primary) (chunks : FreeArray) (off : Z) : Prop := {
  rt_num : num_freed_chunks (regions st' c) = num_freed_chunks (regions st c) + n;
  rt_user : allocated_user (regions st' c) = allocated_user (regions st c);
  rt_mapped : mapped_user (regions st' c) = mapped_user (regions st c);
  rt_array i : free_arrays st' c i =
    if (num_freed_chunks (regions st c) <=? i) && (i <? num_freed_chunks (regions st c) + n)
    then chunks (off + (i - num_freed_chunks (regions st c))) else free_arrays st c i
}.

Lemma nchunks_user c r r' : allocated_user r' = allocated_user r -> nchunks c r' = nchunks c r.
Proof. unfold nchunks. by intros ->. Qed.

Lemma entries_ext c r r' fa fa' :
  num_freed_chunks r' = num_freed_chunks r -> allocated_user r' = allocated_user r ->
  (forall i, 0 <= i < num_freed_chunks r -> fa' i = fa i) -> entries_ok c r fa -> entries_ok c r' fa'.
Proof.
  intros En Eu Ef [H1 H2]. split; rewrite En.
  - intros i Hi. rewrite (nchunks_user c r r' Eu), Ef by done. by apply H1.
  - intros i j Hi Hj. rewrite !Ef by done. by apply H2.
Qed.

Lemma return_spec os st c chunks off n st' rs :
  1 <= c <= kLargestClassID -> primary_ok st -> os_ok os -> 0 <= n <= 2 ^ 31 ->
  entries_ok c (set_freed (regions st c) (num_freed_chunks (regions st c) + n) 0 0)
    (copy_array (free_arrays st c) (num_freed_chunks (regions st c)) chunks off n) ->
  ReturnToAllocator os st c chunks off n = Done (st', rs) ->
  primary_ok st' /\ only_class c st st' /\ returned c n st st' chunks off /\ released_free c st' rs.
Proof.
  intros Hc Hst Hos Hn Hen E. pose proof (pk_region _ Hst c Hc) as Hr.
  pose proof (ro_free _ _ Hr) as [Hf0 Hf1]. pose proof region_facts as (HR & HF & HRF & _).
  unfold ReturnToAllocator in E. cbv zeta in E.
  apply bind_done in E as ([ok1 r1] & E1 & E).
  destruct (ensure_spec os st c (regions st c) _ (num_freed_chunks (regions st c) + n) ok1 r1 Hr ltac:(lia) E1)
    as (Hr1 & Hg & Emu & _ & _ & Hfree).
  destruct ok1; cbn [negb] in E; [|done]. specialize (Hfree eq_refl).
  set (num := num_freed_chunks (regions st c)) in *.
  set (fa1 := copy_array (free_arrays st c) num chunks off n) in *.
  set (r2 := set_freed r1 (num + n) (n_allocated r1) (n_freed r1 +64 n)) in *.
  set (st2 := set_region st c r2 fa1) in *.
  pose proof (set_region_same c st r2 fa1) as [Er2 Efa2]. fold st2 in Er2, Efa2.
  assert (primary_ok st2) as Hst2.
  { apply (only_class_ok c st); [apply set_region_only|done|]. rewrite Er2.
    apply set_freed_ok; [done|lia|lia]. }
  assert (entries_ok c (regions st2 c) (free_arrays st2 c)) as Hen2.
  { rewrite Er2, Efa2. eapply entries_ext; [| | |exact Hen]; [done|exact (gr_user _ _ Hg)|done]. }
  destruct (release_spec os st2 c false Hc Hst2 Hos Hen2)
    as (st3 & rs3 & E3 & Hst3 & Hoc3 & Efa3 & En3 & Eu3 & Em3 & Hrel).
  rewrite E3 in E. injection E as <- <-. rewrite Er2, Efa2 in *.
  split; [done|]. split; [eapply only_class_trans; [apply set_region_only|exact Hoc3]|]. split.
  - split; [by rewrite En3| | |].
    + rewrite Eu3. exact (gr_user _ _ Hg).
    + rewrite Em3. exact Emu.
    + intros i. rewrite Efa3. apply copy_array_spec. lia.
  - intros a b x Hab Hx. destruct (Hrel a b x Hab Hx) as (k & i & Hi & Hk & Hb).
    rewrite Er2, Efa2 in *. exists k, i. rewrite En3, Efa3. split; [done|]. split; [done|].
    unfold chunk_addr, region_beg in *. by rewrite (only_class_space _ _ _ Hoc3).
Qed.

(** *** The parts of a region *)

(** A chunk of the region, with its metadata. *)
Definition in_region (c k : Z) (r : RegionInfo) : Prop := 0 <= k < nchunks c r.

Lemma chunk_bounds c k r :
  1 <= c <= kLargestClassID -> region_ok c r -> in_region c k r ->
  0 <= k /\ (k + 1) * Size c <= mapped_user r /\ (k + 1) * Size c <= kRegionSize - kFreeArraySize /\
  (k + 1) * kMetadataSize <= mapped_meta r /\
  (k + 1) * Size c + (k + 1) * kMetadataSize <= kRegionSize - kFreeArraySize.
Proof.
  intros Hc [[H0 Ha] Hu [Hm Hm2] Hsp Hf] Hk. unfold in_region in Hk.
  pose proof (class_range c Hc) as (_ & _ & Hs & _). pose proof p64_meta.
  assert ((k + 1) * Size c <= allocated_user r) by (rewrite Ha; apply Z.mul_le_mono_nonneg_r; lia).
  assert ((k + 1) * kMetadataSize <= allocated_meta r) by (rewrite Hm; apply Z.mul_le_mono_nonneg_r; lia).
  assert (0 <= (k + 1) * kMetadataSize) by (apply Z.mul_nonneg_nonneg; lia).
  lia.
Qed.

Lemma chunks_apart st c k d j :
  space_ok st -> 1 <= c <= kLargestClassID -> 1 <= d <= kLargestClassID -> 0 <= k -> 0 <= j ->
  (k + 1) * Size c <= kRegionSize -> (j + 1) * Size d <= kRegionSize -> (c, k) <> (d, j) ->
  apart (chunk_addr st c k) (Size c) (chunk_addr st d j) (Size d).
Proof.
  intros Hst Hc Hd Hk Hj Hkle Hjle Hne. pose proof region_facts as (HR & _).
  pose proof (class_range c Hc) as (_ & _ & Hsc & _). pose proof (class_range d Hd) as (_ & _ & Hsd & _).
  assert (0 <= k * Size c) by (apply Z.mul_nonneg_nonneg; lia).
  assert (0 <= j * Size d) by (apply Z.mul_nonneg_nonneg; lia).
  unfold apart, chunk_addr, region_beg.
  destruct (Z.lt_trichotomy c d) as [Hlt|[<-|Hlt]].
  - left. assert (kRegionSize * (c + 1) <= kRegionSize * d) by (apply Z.mul_le_mono_nonneg_l; lia). lia.
  - assert (k <> j) as Hkj by congruence. destruct (Z.lt_total k j) as [Hl|[|Hl]]; [left|done|right].
    + assert ((k + 1) * Size c <= j * Size c) by (apply Z.mul_le_mono_nonneg_r; lia). lia.
    + assert ((j + 1) * Size c <= k * Size c) by (apply Z.mul_le_mono_nonneg_r; lia). lia.
  - right. assert (kRegionSize * (d + 1) <= kRegionSize * c) by (apply Z.mul_le_mono_nonneg_l; lia). lia.
Qed.

(** A range inside a region is apart from one inside another. *)
Lemma regions_apart st c o n d o' n' :
  c <> d -> 0 <= o -> o + n <= kRegionSize -> 0 <= o' -> o' + n' <= kRegionSize ->
  apart (region_beg st c + o) n (region_beg st d + o') n'.
Proof.
  intros Hne Ho Hn Ho' Hn'. pose proof region_facts as (HR & _). unfold apart, region_beg.
  destruct (Z.lt_total c d) as [Hlt|[|Hlt]]; [left|done|right].
  - assert (kRegionSize * (c + 1) <= kRegionSize * d) by (apply Z.mul_le_mono_nonneg_l; lia). lia.
  - assert (kRegionSize * (d + 1) <= kRegionSize * c) by (apply Z.mul_le_mono_nonneg_l; lia). lia.
Qed.

Lemma apart_eq a n b m a' b' : a = a' -> b = b' -> apart a' n b' m -> apart a n b m.
Proof. by intros -> ->. Qed.

(** Chunks and metadata, of any two chunks the regions have carved. *)
Lemma parts_apart st c k r d j r' :
  1 <= c <= kLargestClassID -> 1 <= d <= kLargestClassID -> region_ok c r -> region_ok d r' ->
  in_region c k r -> in_region d j r' -> (c = d -> r = r') ->
  apart (chunk_addr st c k) (Size c) (meta_addr st d j) kMetadataSize /\
  ((c, k) <> (d, j) -> apart (meta_addr st c k) kMetadataSize (meta_addr st d j) kMetadataSize).
Proof.
  intros Hc Hd Hr Hr' Hk Hj Heq. pose proof region_facts as (HR & HF & HRF & _). pose proof p64_meta as HM.
  pose proof (class_range c Hc) as (_ & _ & Hsc & _). pose proof (class_range d Hd) as (_ & _ & Hsd & _).
  destruct (chunk_bounds c k r Hc Hr Hk) as (Hk0 & Hku & Hkf & Hkm & Hkb).
  destruct (chunk_bounds d j r' Hd Hr' Hj) as (Hj0 & Hju & Hjf & Hjm & Hjb).
  assert (0 <= k * Size c) by (apply Z.mul_nonneg_nonneg; lia).
  assert (0 <= j * Size d) by (apply Z.mul_nonneg_nonneg; lia).
  assert (0 <= k * kMetadataSize) by (apply Z.mul_nonneg_nonneg; lia).
  assert (0 <= j * kMetadataSize) by (apply Z.mul_nonneg_nonneg; lia).
  unfold chunk_addr, meta_addr. destruct (Z.eq_dec c d) as [<-|Hne].
  - rewrite <- (Heq eq_refl) in *. pose proof (ro_space _ _ Hr). split; [unfold apart; left; lia|].
    intros Hkj. assert (k <> j) as Hkj' by congruence. unfold apart.
    destruct (Z.lt_total k j) as [Hlt|[|Hlt]]; [right|done|left].
    + assert ((k + 1) * kMetadataSize <= j * kMetadataSize) by (apply Z.mul_le_mono_nonneg_r; lia). lia.
    + assert ((j + 1) * kMetadataSize <= k * kMetadataSize) by (apply Z.mul_le_mono_nonneg_r; lia). lia.
  - split; [|intros _].
    + eapply apart_eq; [| |apply (regions_apart st c (k * Size c) (Size c) d
        (kRegionSize - kFreeArraySize - (1 + j) * kMetadataSize)); [done|..]]; lia.
    + eapply apart_eq; [| |apply (regions_apart st c (kRegionSize - kFreeArraySize - (1 + k) * kMetadataSize)
        kMetadataSize d (kRegionSize - kFreeArraySize - (1 + j) * kMetadataSize)); [done|..]]; lia.
Qed.

(** The free array lies above both, and inside the region. *)
Lemma array_apart st c k r :
  space_ok st -> 1 <= c <= kLargestClassID -> region_ok c r -> in_region c k r ->
  apart (chunk_addr st c k) (Size c) (GetFreeArray (region_beg st c)) (4 * num_freed_chunks r) /\
  apart (meta_addr st c k) kMetadataSize (GetFreeArray (region_beg st c)) (4 * num_freed_chunks r).
Proof.
  intros Hst Hc Hr Hk. destruct (chunk_bounds c k r Hc Hr Hk) as (Hk0 & _ & Hkf & _ & _).
  unfold GetFreeArray. rewrite GetMetadataEnd_eq by done. pose proof p64_meta.
  assert (0 <= k * kMetadataSize) by (apply Z.mul_nonneg_nonneg; lia).
  unfold apart, chunk_addr, meta_addr. lia.
Qed.
End region.
