(* ===== verification/LocalCache.v ===== *)
(** * LocalCache: the caches of the threads over the size-class allocator

    [SizeClassAllocator64LocalCache] of [sanitizer_allocator_local_cache.h].  Every
    thread has a cache of chunks per size class, refilled from and drained to the
    free array of the class's region.

    The file shows where chunks are: every chunk a region has carved is in exactly
    one place, the free array of its region, one slot of one thread's cache, or the
    program; [Allocate] and [Deallocate] move it between the program and a cache,
    the rest moves chunks between caches and free arrays. *)

From S2P Require Import Prelude Common Arrays SizeClassMap PageRelease Primary64.

(** ** Definitions *)

Record PerClass := mkPerClass {
  count : Z;
  max_count : Z;
  class_size : Z;
  chunks : FreeArray
}.

Record AllocatorStats := mkStats { AllocatorStatAllocated : Z; AllocatorStatMapped : Z }.

Record LocalCache := mkCache { per_class : Z -> PerClass; stats : AllocatorStats }.

(** The memory of a cache starts zeroed. *)
Definition cache0 : LocalCache := mkCache (fun _ => mkPerClass 0 0 0 (fun _ => 0)) (mkStats 0 0).

Definition stats_Add_allocated (s : AllocatorStats) (v : Z) : AllocatorStats :=
  mkStats (AllocatorStatAllocated s +64 v) (AllocatorStatMapped s).
Definition stats_Sub_allocated (s : AllocatorStats) (v : Z) : AllocatorStats :=
  mkStats (AllocatorStatAllocated s -64 v) (AllocatorStatMapped s).
Definition stats_Add_mapped (s : AllocatorStats) (v : Z) : AllocatorStats :=
  mkStats (AllocatorStatAllocated s) (AllocatorStatMapped s +64 v).

Section local_cache.
Context `{SizeClassMapParams, Primary64Params}.

Definition set_class (ca : LocalCache) (class_id : Z) (pc : PerClass) : LocalCache :=
  mkCache (upd (per_class ca) class_id pc) (stats ca).
Definition set_stats (ca : LocalCache) (s : AllocatorStats) : LocalCache := mkCache (per_class ca) s.

Definition InitCache (ca : LocalCache) (class_id : Z) : LocalCache :=
  if negb (max_count (per_class ca class_id) =? 0) then ca else
  fold_left (fun ca i =>
      let size := ClassIdToSize i in
      let pc := per_class ca i in
      set_class ca i (mkPerClass (count pc) (u32 (2 * MaxCachedHint size)) size (chunks pc)))
    (map (Z.add 1) (zrange (kNumClasses - 1))) ca.

Definition Refill (os : OsEnv) (st : Primary) (ca : LocalCache) (class_id : Z)
    : outcome (bool * Primary * LocalCache) :=
  let ca := InitCache ca class_id in
  let pc := per_class ca class_id in
  let num_requested_chunks := max_count pc / 2 in
  res ← GetFromAllocator os st class_id (chunks pc) num_requested_chunks;
  let '(ok, st, ch, mapped) := res : bool * Primary * FreeArray * Z in
  let ca := set_stats ca (stats_Add_mapped (stats ca) mapped) in
  if negb ok then
    mret (false, st, set_class ca class_id (mkPerClass (count pc) (max_count pc) (class_size pc) ch))
  else
    mret (true, st, set_class ca class_id (mkPerClass (u32 num_requested_chunks) (max_count pc) (class_size pc) ch)).

Definition cache_Allocate (os : OsEnv) (st : Primary) (ca : LocalCache) (class_id : Z)
    : outcome (Z * Primary * LocalCache) :=
  _ ← check (negb (class_id =? 0)) "CHECK_NE";
  _ ← check (class_id <? kNumClasses) "CHECK_LT";
  res ← (if count (per_class ca class_id) =? 0 then Refill os st ca class_id else mret (true, st, ca));
  let '(ok, st, ca) := res : bool * Primary * LocalCache in
  if negb ok then mret (0, st, ca) else
  let pc := per_class ca class_id in
  let n := count pc - 1 in
  let chunk := chunks pc n in
  let ca := set_class ca class_id (mkPerClass n (max_count pc) (class_size pc) (chunks pc)) in
  mret (CompactPtrToPointer (GetRegionBeginBySizeClass st class_id) chunk, st,
        set_stats ca (stats_Add_allocated (stats ca) (class_size pc))).

(** The private [Drain]: the top [n] chunks of the class. *)
Definition drain_class (os : OsEnv) (st : Primary) (ca : LocalCache) (class_id n : Z)
    : outcome (Primary * LocalCache * list (Z * Z)) :=
  let pc := per_class ca class_id in
  _ ← check (n <=? count pc) "CHECK_GE";
  let first_idx_to_drain := count pc - n in
  let ca := set_class ca class_id (mkPerClass first_idx_to_drain (max_count pc) (class_size pc) (chunks pc)) in
  res ← ReturnToAllocator os st class_id (chunks pc) first_idx_to_drain n;
  let '(st, rs) := res : Primary * list (Z * Z) in
  mret (st, ca, rs).

Definition DrainHalfMax (os : OsEnv) (st : Primary) (ca : LocalCache) (class_id : Z)
    : outcome (Primary * LocalCache * list (Z * Z)) :=
  drain_class os st ca class_id (max_count (per_class ca class_id) / 2).

(** Also the pages that went back to the system. *)
Definition cache_Deallocate (os : OsEnv) (st : Primary) (ca : LocalCache) (class_id p : Z)
    : outcome (Primary * LocalCache * list (Z * Z)) :=
  _ ← check (negb (class_id =? 0)) "CHECK_NE";
  _ ← check (class_id <? kNumClasses) "CHECK_LT";
  let ca := InitCache ca class_id in
  let pc := per_class ca class_id in
  res ← (if count pc =? max_count pc then DrainHalfMax os st ca class_id else mret (st, ca, []));
  let '(st, ca, rs) := res : Primary * LocalCache * list (Z * Z) in
  let pc := per_class ca class_id in
  let chunk := PointerToCompactPtr (GetRegionBeginBySizeClass st class_id) p in
  let ca := set_class ca class_id
    (mkPerClass (count pc + 1) (max_count pc) (class_size pc) (upd (chunks pc) (count pc) chunk)) in
  mret (st, set_stats ca (stats_Sub_allocated (stats ca) (class_size pc)), rs).

(** The public [Drain].  The inner loop ends after one round: draining [count]
    chunks leaves none. *)
Fixpoint drain_classes (os : OsEnv) (class_ids : list Z) (st : Primary) (ca : LocalCache)
    : outcome (Primary * LocalCache * list (Z * Z)) :=
  match class_ids with
  | [] => mret (st, ca, [])
  | i :: class_ids =>
      res ← (if 0 <? count (per_class ca i)
             then drain_class os st ca i (count (per_class ca i)) else mret (st, ca, []));
      let '(st, ca, rs) := res : Primary * LocalCache * list (Z * Z) in
      res ← drain_classes os class_ids st ca;
      let '(st, ca, rs') := res : Primary * LocalCache * list (Z * Z) in
      mret (st, ca, rs ++ rs')
  end.

Definition Drain (os : OsEnv) (st : Primary) (ca : LocalCache)
    : outcome (Primary * LocalCache * list (Z * Z)) :=
  drain_classes os (map (Z.add 1) (zrange (kNumClasses - 1))) st ca.

End local_cache.

(** ** Where the chunks are

    The part of the state that holds the chunks of one class: its free array and
    the caches of every thread. *)

Record View := mkView {
  v_num : Z;
  v_array : FreeArray;
  v_count : Z -> Z;
  v_chunks : Z -> FreeArray
}.

Inductive place := InArray (i : Z) | InCache (t i : Z).

Definition at_place (v : View) (l : place) : option Z :=
  match l with
  | InArray i => if (0 <=? i) && (i <? v_num v) then Some (v_array v i) else None
  | InCache t i => if (0 <=? i) && (i <? v_count v t) then Some (v_chunks v t i) else None
  end.

Section view.
Context (cs : Z) (Hcs : 0 < cs).

(** Chunk [k] is in the free array or in a cache. *)
Definition free_in (v : View) (k : Z) : Prop := exists l, at_place v l = Some (k * cs).

(** The places hold chunks below [n], each at most once. *)
Record view_ok (n : Z) (v : View) : Prop := {
  vo_chunk l e : at_place v l = Some e -> exists k, 0 <= k < n /\ e = k * cs;
  vo_once l l' e : at_place v l = Some e -> at_place v l' = Some e -> l = l'
}.

(** [v'] holds the same chunks at other places. *)
Definition rearranged (v v' : View) : Prop :=
  exists f g : place -> place,
    (forall l e, at_place v' l = Some e -> at_place v (f l) = Some e) /\
    (forall l e, at_place v l = Some e -> at_place v' (g l) = Some e) /\
    (forall l l' e, at_place v' l = Some e -> at_place v' l' = Some e -> f l = f l' -> l = l').

Lemma rearranged_ok n v v' : rearranged v v' -> view_ok n v ->
  view_ok n v' /\ forall k, free_in v' k <-> free_in v k.
Proof.
  intros (f & g & Hf & Hg & Hi) [Hck Hon]. split; [split|].
  - intros l e He. by apply (Hck (f l)), Hf.
  - intros l l' e He He'. apply (Hi l l' e); [done|done|]. by apply (Hon _ _ e); apply Hf.
  - intros k. split; intros [l Hl]; [exists (f l); by apply Hf|exists (g l); by apply Hg].
Qed.

Lemma at_array v i e : at_place v (InArray i) = Some e <-> 0 <= i < v_num v /\ v_array v i = e.
Proof. cbn. split; [case_match; bool_hyps; naive_solver lia|]. intros [Hi <-]. zcase; done || lia. Qed.

Lemma at_cache v t i e : at_place v (InCache t i) = Some e <-> 0 <= i < v_count v t /\ v_chunks v t i = e.
Proof. cbn. split; [case_match; bool_hyps; naive_solver lia|]. intros [Hi <-]. zcase; done || lia. Qed.

(** The views agree on every cache but [t]'s. *)
Definition same_caches (t : Z) (v v' : View) : Prop :=
  forall u, u <> t -> v_count v' u = v_count v u /\ v_chunks v' u = v_chunks v u.

Ltac at_cases :=
  repeat match goal with
  | H : at_place _ (InArray _) = Some _ |- _ => apply at_array in H as [? ?]
  | H : at_place _ (InCache _ _) = Some _ |- _ => apply at_cache in H as [? ?]
  | |- at_place _ (InArray _) = Some _ => apply at_array
  | |- at_place _ (InCache _ _) = Some _ => apply at_cache
  end.

(** The top [m] elements of the array move to an empty cache. *)
Lemma array_to_cache v v' t m :
  0 <= m <= v_num v -> v_count v t = 0 -> same_caches t v v' ->
  v_num v' = v_num v - m -> (forall i, 0 <= i < v_num v - m -> v_array v' i = v_array v i) ->
  v_count v' t = m -> (forall i, 0 <= i < m -> v_chunks v' t i = v_array v (v_num v - m + i)) ->
  rearranged v v'.
Proof.
  intros Hm H0 Hs Hn Ha Hc Hch.
  exists (fun l => match l with InCache u i => if u =? t then InArray (v_num v - m + i) else l | _ => l end).
  exists (fun l => match l with InArray i => if v_num v - m <=? i then InCache t (i - (v_num v - m)) else l | _ => l end).
  split_and!.
  - intros [i|u i] e He; at_cases.
    + split; [lia|]. rewrite <- Ha by lia. done.
    + destruct (Z.eqb_spec u t) as [->|Hne]; at_cases.
      * split; [lia|]. rewrite <- Hch by lia. done.
      * destruct (Hs u Hne) as [<- <-]. done.
  - intros [i|u i] e He; at_cases.
    + destruct (Z.leb_spec (v_num v - m) i); at_cases.
      * split; [lia|]. rewrite Hch by lia. by replace (v_num v - m + (i - (v_num v - m))) with i by lia.
      * split; [lia|]. by rewrite Ha by lia.
    + destruct (Z.eq_dec u t) as [->|Hne]; [lia|]. destruct (Hs u Hne) as [-> ->]. done.
  - intros [i|u i] [j|w j] e He He' E; at_cases; try done.
    + destruct (Z.eqb_spec w t); [injection E as E; lia|done].
    + destruct (Z.eqb_spec u t); [injection E as E; lia|done].
    + destruct (Z.eqb_spec u t) as [->|], (Z.eqb_spec w t) as [->|]; try done.
      injection E as E. f_equal. lia.
Qed.

(** The top [m] elements of a cache move onto the array. *)
Lemma cache_to_array v v' t m :
  0 <= m <= v_count v t -> 0 <= v_num v -> same_caches t v v' ->
  v_num v' = v_num v + m -> v_count v' t = v_count v t - m ->
  (forall i, 0 <= i < v_count v t - m -> v_chunks v' t i = v_chunks v t i) ->
  (forall i, 0 <= i < v_num v -> v_array v' i = v_array v i) ->
  (forall i, 0 <= i < m -> v_array v' (v_num v + i) = v_chunks v t (v_count v t - m + i)) ->
  rearranged v v'.
Proof.
  intros Hm H0 Hs Hn Hc Hk Ha Hch.
  exists (fun l => match l with InArray i => if v_num v <=? i then InCache t (v_count v t - m + (i - v_num v)) else l | _ => l end).
  exists (fun l => match l with InCache u i => if (u =? t) && (v_count v t - m <=? i)
                              then InArray (v_num v + (i - (v_count v t - m))) else l | _ => l end).
  split_and!.
  - intros [i|u i] e He; at_cases.
    + destruct (Z.leb_spec (v_num v) i); at_cases.
      * split; [lia|]. rewrite <- Hch by lia. by replace (v_num v + (i - v_num v)) with i by lia.
      * split; [lia|]. by rewrite <- Ha by lia.
    + destruct (Z.eq_dec u t) as [->|Hne].
      * split; [lia|]. by rewrite <- Hk by lia.
      * destruct (Hs u Hne) as [<- <-]. done.
  - intros [i|u i] e He; at_cases.
    + split; [lia|]. by rewrite Ha by lia.
    + destruct (Z.eqb_spec u t) as [->|Hne]; cbn [andb].
      * destruct (Z.leb_spec (v_count v t - m) i); at_cases.
        -- split; [lia|]. rewrite Hch by lia. by replace (v_count v t - m + (i - (v_count v t - m))) with i by lia.
        -- split; [lia|]. by rewrite Hk by lia.
      * at_cases. destruct (Hs u Hne) as [-> ->]. done.
  - intros [i|u i] [j|w j] e He He' E; at_cases; try done.
    + destruct (Z.leb_spec (v_num v) i), (Z.leb_spec (v_num v) j); try done. injection E as E. f_equal. lia.
    + destruct (Z.leb_spec (v_num v) i); [injection E as <- E; lia|done].
    + destruct (Z.leb_spec (v_num v) j); [injection E as -> E; lia|done].
Qed.

(** The region carves new chunks. *)
Lemma array_grows n n' v v' :
  view_ok n v -> n <= n' -> 0 <= v_num v -> v_num v' = v_num v + (n' - n) ->
  (forall t, v_count v' t = v_count v t /\ v_chunks v' t = v_chunks v t) ->
  (forall i, 0 <= i < v_num v -> v_array v' i = v_array v i) ->
  (forall i, v_num v <= i < v_num v' -> exists k, n <= k < n' /\ v_array v' i = k * cs) ->
  (forall i j, v_num v <= i < v_num v' -> v_num v <= j < v_num v' -> v_array v' i = v_array v' j -> i = j) ->
  (forall k, n <= k < n' -> exists i, v_num v <= i < v_num v' /\ v_array v' i = k * cs) -> 0 <= n ->
  view_ok n' v' /\ (forall k, 0 <= k < n -> free_in v' k <-> free_in v k) /\
  forall k, n <= k < n' -> free_in v' k.
Proof.
  intros [Hck Hon] Hn H0 Hnum Hcache Hold Hnew Hinj Hall Hn0.
  assert (forall l e, at_place v' l = Some e ->
    at_place v l = Some e \/ exists i k, l = InArray i /\ v_num v <= i < v_num v' /\ n <= k < n' /\ e = k * cs) as Hcases.
  { intros [i|u i] e He; at_cases.
    - destruct (Z.lt_ge_cases i (v_num v)).
      + left. at_cases. split; [lia|]. by rewrite <- Hold by lia.
      + right. destruct (Hnew i) as (k & Hk & Ek); [lia|]. exists i, k. split_and!; try done; lia || congruence.
    - left. at_cases. destruct (Hcache u) as [<- <-]. done. }
  assert (forall l e, at_place v l = Some e -> at_place v' l = Some e) as Hkeep.
  { intros [i|u i] e He; at_cases.
    - split; [lia|]. by rewrite Hold by lia.
    - destruct (Hcache u) as [-> ->]. done. }
  split; [split|split].
  - intros l e He. destruct (Hcases l e He) as [Ho|(i & k & _ & _ & Hk & ->)].
    + destruct (Hck l e Ho) as (k & Hk & ->). exists k. split; [lia|done].
    + exists k. split; [lia|done].
  - intros l l' e He He'. destruct (Hcases l e He) as [Ho|(i & k & -> & Hi & Hk & ->)],
      (Hcases l' _ He') as [Ho'|(i' & k' & -> & Hi' & Hk' & Ek)].
    + by apply (Hon l l' e).
    + subst e. destruct (Hck l _ Ho) as (k2 & Hk2 & Ek2). apply Z.mul_reg_r in Ek2; lia.
    + destruct (Hck l' _ Ho') as (k2 & Hk2 & Ek2). apply Z.mul_reg_r in Ek2; lia.
    + f_equal. at_cases. apply Hinj; [done|done|congruence].
  - intros k Hk. split; intros [l Hl].
    + destruct (Hcases l _ Hl) as [Ho|(i & k2 & _ & _ & Hk2 & Ek)]; [by exists l|].
      apply Z.mul_reg_r in Ek; lia.
    + exists l. by apply Hkeep.
  - intros k Hk. destruct (Hall k Hk) as (i & Hi & Ei). exists (InArray i). apply at_array. split; [lia|done].
Qed.

(** A chunk leaves the top of a cache. *)
Lemma cache_pop n v v' t :
  view_ok n v -> 0 < v_count v t -> same_caches t v v' -> v_num v' = v_num v -> v_array v' = v_array v ->
  v_count v' t = v_count v t - 1 -> v_chunks v' t = v_chunks v t ->
  exists k, 0 <= k < n /\ v_chunks v t (v_count v t - 1) = k * cs /\ free_in v k /\ view_ok n v' /\
    forall j, free_in v' j <-> free_in v j /\ j <> k.
Proof.
  intros [Hck Hon] H0 Hs Hn Ha Hc Hch.
  assert (forall l e, at_place v' l = Some e <-> at_place v l = Some e /\ l <> InCache t (v_count v t - 1)) as Hat.
  { intros [i|u i] e; rewrite ?at_array, ?at_cache, ?Hn, ?Ha; [naive_solver|].
    destruct (Z.eq_dec u t) as [->|Hne].
    - rewrite Hc, Hch. split; intros Hx; [split; [split; [lia|apply Hx]|intros [= ->]; lia]|].
      destruct Hx as [[Hi He] Hne]. split; [|done]. assert (i <> v_count v t - 1) by congruence. lia.
    - destruct (Hs u Hne) as [-> ->]. split; [|naive_solver]. intros Hx. split; [done|]. by intros [= -> _]. }
  assert (at_place v (InCache t (v_count v t - 1)) = Some (v_chunks v t (v_count v t - 1))) as Htop
    by (apply at_cache; split; [lia|done]).
  destruct (Hck _ _ Htop) as (k & Hk & Ek). rewrite Ek in Htop.
  exists k. split_and!; [lia|lia|done|by eexists| |].
  - split; [intros l e [He _]%Hat; by apply (Hck l)|]. intros l l' e [He _]%Hat [He' _]%Hat. by apply (Hon l l' e).
  - intros j. split.
    + intros (l & [Hl Hne]%Hat). split; [by exists l|]. intros ->. apply Hne. by apply (Hon _ _ _ Hl Htop).
    + intros [[l Hl] Hne]. exists l. apply Hat. split; [done|]. intros ->. rewrite Htop in Hl.
      injection Hl as E. apply Z.mul_reg_r in E; lia.
Qed.

(** A chunk of the program goes on top of a cache. *)
Lemma cache_push n v v' t k :
  view_ok n v -> 0 <= k < n -> ~ free_in v k -> 0 <= v_count v t -> same_caches t v v' ->
  v_num v' = v_num v -> v_array v' = v_array v -> v_count v' t = v_count v t + 1 ->
  (forall i, 0 <= i < v_count v t -> v_chunks v' t i = v_chunks v t i) -> v_chunks v' t (v_count v t) = k * cs ->
  view_ok n v' /\ forall j, free_in v' j <-> free_in v j \/ j = k.
Proof.
  intros [Hck Hon] Hk Hnf H0 Hs Hn Ha Hc Hch Htop.
  assert (forall l e, at_place v' l = Some e <-> at_place v l = Some e \/ (l = InCache t (v_count v t) /\ e = k * cs)) as Hat.
  { intros [i|u i] e; rewrite ?at_array, ?at_cache, ?Hn, ?Ha; [naive_solver|].
    destruct (Z.eq_dec u t) as [->|Hne].
    - rewrite Hc. split.
      + intros [Hi He]. destruct (Z.eq_dec i (v_count v t)) as [->|]; [right; by rewrite <- He|].
        left. split; [lia|]. by rewrite <- Hch by lia.
      + intros [[Hi He]|[[= ->] ->]]; [|split; [lia|done]]. split; [lia|]. by rewrite Hch by lia.
    - destruct (Hs u Hne) as [-> ->]. naive_solver. }
  split; [split|].
  - intros l e [He|[_ ->]]%Hat; [by apply (Hck l)|by exists k].
  - intros l l' e [He|[-> ->]]%Hat [He'|[-> E]]%Hat; [by apply (Hon l l' e)| | |done].
    + subst e. exfalso. apply Hnf. by exists l.
    + exfalso. apply Hnf. by exists l'.
  - intros j. split.
    + intros [l [Hl|[_ E]]%Hat]; [left; by exists l|right]. apply Z.mul_reg_r in E; lia.
    + intros [[l Hl]| ->]; [exists l; apply Hat; by left|]. exists (InCache t (v_count v t)). apply Hat. by right.
Qed.
End view.

(** ** The allocator with the caches of all threads *)

Record System := mkSystem { sys_primary : Primary; sys_caches : Z -> LocalCache }.

Definition sys_view (s : System) (c : Z) : View :=
  mkView (num_freed_chunks (regions (sys_primary s) c)) (free_arrays (sys_primary s) c)
    (fun t => count (per_class (sys_caches s t) c)) (fun t => chunks (per_class (sys_caches s t) c)).

Section system.
Context `{P : SizeClassMapParams, !SizeClassMapOk P, Q : Primary64Params, !Primary64Ok P Q}.
Implicit Types s : System.

(** The state after an operation of thread [t]. *)
Definition with_cache s t st ca : System := mkSystem st (upd (sys_caches s) t ca).

Definition sys_Allocate (os : OsEnv) (t class_id : Z) s : outcome (Z * System) :=
  res ← cache_Allocate os (sys_primary s) (sys_caches s t) class_id;
  let '(p, st, ca) := res : Z * Primary * LocalCache in mret (p, with_cache s t st ca).

Definition sys_Deallocate (os : OsEnv) (t class_id p : Z) s : outcome (System * list (Z * Z)) :=
  res ← cache_Deallocate os (sys_primary s) (sys_caches s t) class_id p;
  let '(st, ca, rs) := res : Primary * LocalCache * list (Z * Z) in mret (with_cache s t st ca, rs).

Definition sys_Drain (os : OsEnv) (t : Z) s : outcome (System * list (Z * Z)) :=
  res ← Drain os (sys_primary s) (sys_caches s t);
  let '(st, ca, rs) := res : Primary * LocalCache * list (Z * Z) in mret (with_cache s t st ca, rs).

(** *** The invariant *)

Notation region s c := (regions (sys_primary s) c).
Notation carved s c := (nchunks c (region s c)).

(** A class of a cache: either untouched, or with room for the hint of its size. *)
Definition class_ok (c : Z) (pc : PerClass) : Prop :=
  0 <= count pc <= max_count pc /\
  (max_count pc = 0 \/ max_count pc = 2 * MaxCachedHint (Size c) /\ class_size pc = Size c).

Definition free s c k : Prop := free_in (csize c) (sys_view s c) k.

(** The chunks the program owns. *)
Definition owned s c k : Prop := 0 <= k < carved s c /\ ~ free s c k.

Record sys_ok s : Prop := {
  sy_primary : primary_ok (sys_primary s);
  sy_cache t c : 1 <= c <= kLargestClassID -> class_ok c (per_class (sys_caches s t) c);
  sy_view c : 1 <= c <= kLargestClassID -> view_ok (csize c) (carved s c) (sys_view s c);
  (** no chunk of the batch class is ever carved *)
  sy_batch t : count (per_class (sys_caches s t) kBatchClassID) = 0;
  sy_batch_region : num_freed_chunks (region s kBatchClassID) = 0
}.

(** *** InitCache *)

Lemma hint_range c : 1 <= c <= kLargestClassID ->
  1 <= MaxCachedHint (Size c) < 2 ^ 30 /\ u32 (2 * MaxCachedHint (Size c)) = 2 * MaxCachedHint (Size c).
Proof.
  intros Hc. pose proof (Size_pos c Hc). pose proof (MaxCachedHint_range (Size c)). pose proof scm_hint.
  split; [lia|]. apply u32_small. lia.
Qed.

Lemma InitCache_spec ca c :
  1 <= c <= kLargestClassID -> (forall d, 1 <= d <= kLargestClassID -> class_ok d (per_class ca d)) ->
  (forall d, 1 <= d <= kLargestClassID -> class_ok d (per_class (InitCache ca c) d)) /\
  (forall d, count (per_class (InitCache ca c) d) = count (per_class ca d) /\
             chunks (per_class (InitCache ca c) d) = chunks (per_class ca d)) /\
  max_count (per_class (InitCache ca c) c) = 2 * MaxCachedHint (Size c).
Proof.
  intros Hc Hok. unfold InitCache. destruct (Z.eqb_spec (max_count (per_class ca c)) 0) as [E0|Hne]; cbn [negb].
  2:{ split; [done|]. split; [done|]. destruct (Hok c Hc) as [_ [?|[? _]]]; done. }
  set (f := fun (ca : LocalCache) (i : Z) => _).
  assert (forall l ca, let ca' := fold_left f l ca in
    (forall d, count (per_class ca' d) = count (per_class ca d) /\ chunks (per_class ca' d) = chunks (per_class ca d)) /\
    (forall d, ~ d ∈ l -> per_class ca' d = per_class ca d) /\
    (forall d, d ∈ l -> max_count (per_class ca' d) = u32 (2 * MaxCachedHint (Size d)) /\
                        class_size (per_class ca' d) = Size d)) as Hfold.
  { clear. induction l as [|i l IH]; intros ca; cbn zeta; cbn [fold_left].
    { split_and!; try done. intros d Hd. by apply not_elem_of_nil in Hd. }
    destruct (IH (f ca i)) as (H1 & H2 & H3). split_and!.
    - intros d. destruct (H1 d) as [-> ->]. unfold f, set_class. cbn [per_class]. unfold upd.
      by destruct (Z.eqb_spec d i) as [->|].
    - intros d Hd. rewrite not_elem_of_cons in Hd. rewrite H2 by apply Hd. unfold f, set_class. cbn [per_class].
      unfold upd. by rewrite (proj2 (Z.eqb_neq d i)) by apply Hd.
    - intros d Hd. destruct (decide (d ∈ l)) as [Hin|Hni]; [by apply H3|].
      apply elem_of_cons in Hd as [->|?]; [|done]. rewrite H2 by done. unfold f, set_class. cbn [per_class].
      unfold upd. rewrite Z.eqb_refl. done. }
  set (l := map (Z.add 1) (zrange (kNumClasses - 1))).
  assert (forall d, 1 <= d <= kLargestClassID -> d ∈ l) as Hin.
  { intros d Hd. apply list_elem_of_fmap. exists (d - 1). split; [lia|]. apply elem_of_zrange.
    unfold kLargestClassID in Hd. lia. }
  destruct (Hfold l ca) as (H1 & _ & H3). split_and!.
  - intros d Hd. destruct (H3 d (Hin d Hd)) as [Em Es]. destruct (H1 d) as [Ec _].
    destruct (hint_range d Hd) as [Hh Eh]. rewrite Eh in Em. unfold class_ok. rewrite Ec, Em.
    destruct (Hok d Hd) as [Hcount [?|[? _]]]; split; try lia; right; by split.
  - done.
  - destruct (H3 c (Hin c Hc)) as [-> _]. by destruct (hint_range c Hc).
Qed.

(** *** Steps that touch one class *)

Lemma same_view_ok cs n v v' :
  v_num v' = v_num v -> v_array v' = v_array v ->
  (forall t, v_count v' t = v_count v t /\ v_chunks v' t = v_chunks v t) ->
  view_ok cs n v -> view_ok cs n v' /\ forall k, free_in cs v' k <-> free_in cs v k.
Proof.
  intros En Ea Ec. apply rearranged_ok. exists (fun l => l), (fun l => l).
  assert (forall l, at_place v' l = at_place v l) as E.
  { intros [i|t i]; cbn; rewrite ?En, ?Ea; [done|]. destruct (Ec t) as [-> ->]. done. }
  split_and!; intros; by rewrite ?E in *.
Qed.

(** The caches agree on the class [d]. *)
Definition same_class (ca ca' : LocalCache) (d : Z) : Prop :=
  count (per_class ca' d) = count (per_class ca d) /\ chunks (per_class ca' d) = chunks (per_class ca d).

Lemma other_class s t st ca c d :
  only_class c (sys_primary s) st -> same_class (sys_caches s t) ca d -> d <> c -> sys_ok s ->
  1 <= d <= kLargestClassID ->
  view_ok (csize d) (carved (with_cache s t st ca) d) (sys_view (with_cache s t st ca) d) /\
  forall k, owned (with_cache s t st ca) d k <-> owned s d k.
Proof.
  intros Hoc [Hc Hch] Hne Hs Hd. unfold owned, free.
  assert (region (with_cache s t st ca) d = region s d) as -> by (cbn; by rewrite (oc_regions _ _ _ Hoc)).
  destruct (same_view_ok (csize d) (carved s d) (sys_view s d) (sys_view (with_cache s t st ca) d)) as [Hok Hf].
  - cbn. by rewrite (oc_regions _ _ _ Hoc).
  - cbn. by rewrite (oc_arrays _ _ _ Hoc).
  - intros u. cbn. unfold upd. destruct (Z.eqb_spec u t) as [->|]; done.
  - by apply sy_view.
  - split; [done|]. intros k. by rewrite Hf.
Qed.

(** What an operation of thread [t] on class [c] leaves to show. *)
Lemma step_ok s t c st ca :
  1 <= c <= kLargestClassID -> sys_ok s -> primary_ok st -> only_class c (sys_primary s) st ->
  (forall d, 1 <= d <= kLargestClassID -> class_ok d (per_class ca d)) ->
  (forall d, d <> c -> same_class (sys_caches s t) ca d) ->
  view_ok (csize c) (carved (with_cache s t st ca) c) (sys_view (with_cache s t st ca) c) ->
  sys_ok (with_cache s t st ca) /\
  forall d k, 1 <= d <= kLargestClassID -> d <> c -> owned (with_cache s t st ca) d k <-> owned s d k.
Proof.
  intros Hc Hs Hst Hoc Hca Hsame Hv. split.
  - split; [done| | | |].
    + intros u d Hd. cbn. unfold upd. destruct (Z.eqb_spec u t); [by apply Hca|by apply sy_cache].
    + intros d Hd. destruct (Z.eq_dec d c) as [->|Hne]; [done|].
      exact (proj1 (other_class s t st ca c d Hoc (Hsame d Hne) Hne Hs Hd)).
    + intros u. cbn. unfold upd. destruct (Z.eqb_spec u t); [|by apply sy_batch].
      assert (kBatchClassID <> c) as Hb by (unfold kBatchClassID, kLargestClassID in *; lia).
      destruct (Hsame _ Hb) as [-> _]. by apply sy_batch.
    + cbn. rewrite (oc_regions _ _ _ Hoc); [by apply sy_batch_region|].
      unfold kBatchClassID, kLargestClassID in *. lia.
  - intros d k Hd Hne. apply (other_class s t st ca c d Hoc (Hsame d Hne) Hne Hs Hd).
Qed.

Lemma entries_of_view c r fa v :
  view_ok (csize c) (nchunks c r) v -> v_num v = num_freed_chunks r -> v_array v = fa -> entries_ok c r fa.
Proof.
  intros [Hck Hon] En <-. split; rewrite <- En.
  - intros i Hi. apply (Hck (InArray i)). by apply at_array.
  - intros i j Hi Hj E. assert (InArray i = InArray j) as [=]; [|done].
    apply (Hon _ _ (v_array v i)); apply at_array; by split.
Qed.

(** *** Refill *)

Lemma refill_spec os s t c ok st ca :
  1 <= c <= kLargestClassID -> sys_ok s -> count (per_class (sys_caches s t) c) = 0 ->
  Refill os (sys_primary s) (sys_caches s t) c = Done (ok, st, ca) ->
  sys_ok (with_cache s t st ca) /\ only_class c (sys_primary s) st /\
  (forall d, d <> c -> same_class (sys_caches s t) ca d) /\
  (forall d k, 1 <= d <= kLargestClassID -> owned (with_cache s t st ca) d k <-> owned s d k) /\
  (ok = true -> 0 < count (per_class ca c)).
Proof.
  intros Hc Hs Hcount E. destruct (size_16 c Hc) as [_ Hcs]. destruct (hint_range c Hc) as [Hh _].
  destruct (InitCache_spec (sys_caches s t) c Hc (fun d Hd => sy_cache s Hs t d Hd)) as (Hok1 & Hsame1 & Hmax).
  unfold Refill in E. set (ca1 := InitCache (sys_caches s t) c) in *. cbv zeta in E.
  apply bind_done in E as ([[[ok1 st1] ch1] mapped] & Eg & E).
  rewrite Hmax, Z.mul_comm, Z.div_mul in Eg by lia. rewrite Hmax in E.
  replace (2 * MaxCachedHint (Size c) / 2) with (MaxCachedHint (Size c)) in E
    by (rewrite Z.mul_comm, Z.div_mul by lia; done).
  set (n := MaxCachedHint (Size c)) in *.
  destruct (get_spec os (sys_primary s) c _ n ok1 st1 ch1 mapped Hc (sy_primary s Hs) ltac:(lia) Eg)
    as (Hst & Hoc & Hcase).
  pose proof (pk_region _ (sy_primary s Hs) c Hc) as Hr.
  pose proof (ro_free _ _ Hr) as [Hnum0 _]. pose proof (ro_chunks _ _ Hr) as [Hn0 _].
  destruct (Hsame1 c) as [Ecount Echunks]. pose proof (sy_view s Hs c Hc) as Hv.
  assert (forall d pc, d <> c -> same_class (sys_caches s t)
    (set_class (set_stats ca1 (stats_Add_mapped (stats ca1) mapped)) c pc) d) as Hsame.
  { intros d pc Hne. unfold same_class, set_class. cbn [per_class]. rewrite upd_other by done. apply Hsame1. }
  destruct ok1; cbn [negb] in E; injection E as <- <- <-.
  - destruct Hcase as (r1 & fa1 & [[Pn Pm Po Pnew Pinj Pall] Hen Hnum Hnch Harr Hch]).
    set (ca' := set_class _ c _). set (s' := with_cache s t st1 ca').
    set (v1 := mkView (num_freed_chunks r1) fa1 (v_count (sys_view s c)) (v_chunks (sys_view s c))).
    destruct (array_grows (csize c) Hcs (carved s c) (nchunks c r1) (sys_view s c) v1 Hv Pm)
      as (Hv1 & Hf1 & Hnew1); [exact Hnum0|exact Pn|done|intros i Hi; apply Po, Hi|exact Pnew|exact Pinj|exact Pall|done|].
    assert (per_class ca' c = mkPerClass (u32 n) (2 * n) (class_size (per_class ca1 c)) ch1) as Epc
      by (unfold ca', set_class; cbn [per_class]; by rewrite upd_same).
    assert (u32 n = n) as En by (apply u32_small; lia). rewrite En in Epc.
    assert (rearranged v1 (sys_view s' c)) as Hre.
    { apply (array_to_cache v1 (sys_view s' c) t n); cbn [v1 v_num v_array v_count v_chunks].
      - lia.
      - exact Hcount.
      - intros u Hu. cbn. rewrite upd_other by done. done.
      - cbn. exact Hnum.
      - intros i Hi. cbn. by rewrite Harr.
      - cbn. by rewrite upd_same, Epc.
      - intros i Hi. cbn. rewrite upd_same, Epc. cbn [chunks]. rewrite Hch.
        by rewrite (proj2 (Z.leb_le 0 i)), (proj2 (Z.ltb_lt i n)) by lia. }
    destruct (rearranged_ok (csize c) (nchunks c r1) v1 (sys_view s' c) Hre Hv1) as [Hv2 Hf2].
    assert (carved s' c = nchunks c r1) as Ecar by exact Hnch.
    destruct (step_ok s t c st1 ca' Hc Hs Hst Hoc) as [Hs' Hown].
    { intros d Hd. destruct (Z.eq_dec d c) as [->|Hne].
      - rewrite Epc. split; cbn [count max_count class_size]; [lia|]. right. split; [done|].
        destruct (Hok1 c Hc) as [_ [?|[_ ?]]]; [lia|done].
      - unfold ca', set_class. cbn [per_class]. rewrite upd_other by done. by apply Hok1. }
    { intros d Hne. by apply Hsame. }
    { fold s'. rewrite Ecar. exact Hv2. }
    split; [exact Hs'|]. split; [done|]. split; [intros d Hne; by apply Hsame|]. split; [|intros _; rewrite Epc; cbn; lia].
    intros d k Hd. destruct (Z.eq_dec d c) as [->|Hne]; [|by apply Hown].
    unfold owned, free. fold s'. rewrite Ecar, Hf2. split.
    + intros [Hk Hnf]. destruct (Z.lt_ge_cases k (carved s c)).
      * split; [lia|]. rewrite <- Hf1 by lia. done.
      * exfalso. apply Hnf, Hnew1. lia.
    + intros [Hk Hnf]. split; [lia|]. by rewrite Hf1 by lia.
  - destruct Hcase as (-> & Harr & [Gn Gu _ _]).
    set (ca' := set_class _ c _). set (s' := with_cache s t st1 ca').
    assert (per_class ca' c = mkPerClass (count (per_class ca1 c)) (2 * n) (class_size (per_class ca1 c))
      (chunks (per_class ca1 c))) as Epc by (unfold ca', set_class; cbn [per_class]; by rewrite upd_same).
    assert (carved s' c = carved s c) as Ecar by (by apply nchunks_user).
    destruct (same_view_ok (csize c) (carved s c) (sys_view s c) (sys_view s' c)) as [Hv2 Hf2]; [done|done| |done|].
    { intros u. cbn. unfold upd. destruct (Z.eqb_spec u t) as [->|]; [|done]. by rewrite Epc. }
    destruct (step_ok s t c st1 ca' Hc Hs Hst Hoc) as [Hs' Hown].
    { intros d Hd. destruct (Z.eq_dec d c) as [->|Hne].
      - rewrite Epc. destruct (Hok1 c Hc) as [H1 H2]. rewrite Hmax in *. split; done.
      - unfold ca', set_class. cbn [per_class]. rewrite upd_other by done. by apply Hok1. }
    { intros d Hne. by apply Hsame. }
    { fold s'. rewrite Ecar. exact Hv2. }
    split; [exact Hs'|]. split; [done|]. split; [intros d Hne; by apply Hsame|]. split; [|done].
    intros d k Hd. destruct (Z.eq_dec d c) as [->|Hne]; [|by apply Hown].
    unfold owned, free. fold s'. by rewrite Ecar, Hf2.
Qed.

(** *** Allocate *)

(** Systems with the same contents. *)
Lemma sys_ext s s' :
  sys_primary s' = sys_primary s -> (forall u, sys_caches s' u = sys_caches s u) -> sys_ok s ->
  sys_ok s' /\ forall d k, 1 <= d <= kLargestClassID -> owned s' d k <-> owned s d k.
Proof.
  intros Ep Ec Hs.
  assert (forall d, 1 <= d <= kLargestClassID -> view_ok (csize d) (carved s d) (sys_view s' d) /\
    forall k, free s' d k <-> free s d k) as Hv.
  { intros d Hd. apply (same_view_ok (csize d) (carved s d) (sys_view s d));
      [cbn; by rewrite Ep|cbn; by rewrite Ep| |by apply sy_view]. intros u. cbn. by rewrite Ec. }
  split; [split|].
  - rewrite Ep. by apply sy_primary.
  - intros u d Hd. rewrite Ec. by apply sy_cache.
  - intros d Hd. rewrite Ep. by apply Hv.
  - intros u. rewrite Ec. by apply sy_batch.
  - rewrite Ep. by apply sy_batch_region.
  - intros d k Hd. unfold owned. rewrite Ep. by rewrite (proj2 (Hv d Hd) k).
Qed.

Lemma with_cache_same s t u : sys_caches (with_cache s t (sys_primary s) (sys_caches s t)) u = sys_caches s u.
Proof. cbn. unfold upd. by destruct (Z.eqb_spec u t) as [->|]. Qed.

Lemma with_cache_twice s t st ca st' ca' u :
  sys_caches (with_cache (with_cache s t st ca) t st' ca') u = sys_caches (with_cache s t st' ca') u.
Proof. cbn. unfold upd. by destruct (Z.eqb_spec u t). Qed.

(** Popping the top of a cache that has chunks. *)
Lemma pop_spec s t c :
  1 <= c <= kLargestClassID -> sys_ok s -> 0 < count (per_class (sys_caches s t) c) -> forall stt,
  let pc := per_class (sys_caches s t) c in
  let s' := with_cache s t (sys_primary s)
    (set_stats (set_class (sys_caches s t) c (mkPerClass (count pc - 1) (max_count pc) (class_size pc) (chunks pc))) stt) in
  sys_ok s' /\ exists k, chunks pc (count pc - 1) = k * csize c /\ 0 <= k < carved s c /\ ~ owned s c k /\
    forall d j, 1 <= d <= kLargestClassID -> owned s' d j <-> owned s d j \/ (d, j) = (c, k).
Proof.
  intros Hc Hs Hcount stt pc s'. destruct (size_16 c Hc) as [_ Hcs].
  assert (per_class (sys_caches s' t) c = mkPerClass (count pc - 1) (max_count pc) (class_size pc) (chunks pc)) as Epc.
  { unfold s'. cbn. rewrite upd_same. cbn. by rewrite upd_same. }
  destruct (cache_pop (csize c) Hcs (carved s c) (sys_view s c) (sys_view s' c) t (sy_view s Hs c Hc) Hcount)
    as (k & Hk & Ek & Hfk & Hv & Hf).
  - intros u Hu. unfold s'. cbn. by rewrite upd_other.
  - done.
  - done.
  - cbn [sys_view v_count]. by rewrite Epc.
  - cbn [sys_view v_chunks]. by rewrite Epc.
  - destruct (step_ok s t c (sys_primary s) (sys_caches s' t) Hc Hs (sy_primary s Hs) (only_class_refl c _))
      as [Hs' Hown].
    + intros d Hd. destruct (Z.eq_dec d c) as [->|Hne].
      * rewrite Epc. destruct (sy_cache s Hs t c Hc) as [H1 H2]. fold pc in H1, H2, Hcount. split; cbn; [lia|done].
      * unfold s'. cbn. rewrite upd_same. cbn. rewrite upd_other by done. by apply sy_cache.
    + intros d Hne. unfold s'. cbn. rewrite upd_same. unfold same_class. cbn. by rewrite upd_other.
    + unfold s' in Hv |- *. cbn [with_cache sys_caches] in Hv |- *. rewrite upd_same. exact Hv.
    + replace (sys_caches s' t) with (set_stats (set_class (sys_caches s t) c
        (mkPerClass (count pc - 1) (max_count pc) (class_size pc) (chunks pc))) stt) in Hs', Hown
        by (unfold s'; cbn; by rewrite upd_same). fold s' in Hs', Hown.
      split; [exact Hs'|]. exists k. split; [exact Ek|]. split; [exact Hk|]. split; [by intros [_ Hnf]|].
      intros d j Hd. destruct (Z.eq_dec d c) as [->|Hne]; [|rewrite Hown by done; naive_solver].
      unfold owned, free in *. change (carved s' c) with (carved s c). rewrite Hf.
      destruct (Z.eq_dec j k) as [->|Hjk].
      * split; [by right|]. intros _. split; [done|]. naive_solver.
      * split; [intros [Hj Hnf]; left; split; [done|]; naive_solver|]. intros [[Hj Hnf]|[=]]; [|done].
        split; [done|]. naive_solver.
Qed.

(** Allocation of a chunk of class [c]: the chunk was not the program's, and
    nothing else changes hands. *)
Lemma allocate_spec os s t c p s' :
  1 <= c <= kLargestClassID -> sys_ok s -> sys_Allocate os t c s = Done (p, s') ->
  sys_ok s' /\ SpaceBeg (sys_primary s') = SpaceBeg (sys_primary s) /\
  if p =? 0 then forall d j, 1 <= d <= kLargestClassID -> owned s' d j <-> owned s d j
  else exists k, p = chunk_addr (sys_primary s) c k /\ ~ owned s c k /\ in_region c k (region s' c) /\
    forall d j, 1 <= d <= kLargestClassID -> owned s' d j <-> owned s d j \/ (d, j) = (c, k).
Proof.
  intros Hc Hs E. destruct (size_16 c Hc) as [E16 Hcs].
  unfold sys_Allocate in E. apply bind_done in E as ([[p1 st1] ca1] & E1 & E). injection E as <- <-.
  unfold cache_Allocate in E1. apply bind_done in E1 as ([] & _ & E1). apply bind_done in E1 as ([] & _ & E1).
  apply bind_done in E1 as ([[ok st] ca] & Er & E1).
  assert (sys_ok (with_cache s t st ca) /\ only_class c (sys_primary s) st /\
    (forall d k, 1 <= d <= kLargestClassID -> owned (with_cache s t st ca) d k <-> owned s d k) /\
    (ok = true -> 0 < count (per_class ca c))) as (Hs1 & Hoc & Hown1 & Hcnt).
  { destruct (Z.eqb_spec (count (per_class (sys_caches s t) c)) 0) as [E0|Hne].
    - destruct (refill_spec os s t c ok st ca Hc Hs E0 Er) as (H1 & H2 & _ & H3 & H4). done.
    - injection Er as <- <- <-. destruct (sy_cache s Hs t c Hc) as [Hcnt _].
      destruct (sys_ext s (with_cache s t (sys_primary s) (sys_caches s t)) eq_refl (with_cache_same s t) Hs)
        as [Hs' Hown'].
      split; [done|]. split; [apply only_class_refl|]. split; [done|lia]. }
  destruct ok; cbn [negb] in E1.
  2:{ injection E1 as <- <- <-. cbn [Z.eqb]. split; [done|]. split; [|exact Hown1].
      exact (only_class_space _ _ _ Hoc). }
  specialize (Hcnt eq_refl). injection E1 as <- <- <-.
  set (s1 := with_cache s t st ca) in *.
  assert (sys_caches s1 t = ca) as Eca by (cbn; by rewrite upd_same).
  destruct (pop_spec s1 t c Hc Hs1 ltac:(by rewrite Eca)
    (stats_Add_allocated (stats ca) (class_size (per_class ca c)))) as (Hs2 & k & Ek & Hk & Hno & Hown2).
  rewrite Eca in *. change (sys_primary s1) with st in *.
  set (ca2 := set_stats _ _) in *.
  destruct (sys_ext (with_cache s1 t st ca2) (with_cache s t st ca2) eq_refl) as [Hs3 Hown3];
    [intros u; symmetry; apply with_cache_twice|exact Hs2|].
  pose proof (pk_space _ (sy_primary s Hs)) as Hsp. pose proof (only_class_space _ _ _ Hoc) as Ebeg.
  assert (space_ok st) as Hspst by (by eapply only_class_space_ok).
  pose proof (pk_region _ (sy_primary _ Hs1) c Hc) as Hr1.
  destruct (chunk_bounds c k _ Hc Hr1 Hk) as (Hk0 & _ & Hkle & _ & _).
  pose proof (region_beg_range st c Hspst Hc) as Hrb. pose proof region_facts as (_ & HF & _).
  assert (CompactPtrToPointer (GetRegionBeginBySizeClass st c) (chunks (per_class ca c) (count (per_class ca c) - 1))
    = chunk_addr (sys_primary s) c k) as ->.
  { rewrite Ek, GetRegionBeginBySizeClass_eq by done. unfold CompactPtrToPointer, kCompactPtrScale.
    rewrite Z.shiftl_mul_pow2 by lia. change (2 ^ 4) with 16.
    assert (k * csize c * 16 = k * Size c) as -> by (rewrite E16; ring).
    assert (0 <= k * Size c) by (apply Z.mul_nonneg_nonneg; lia).
    rewrite u64_small by lia. unfold chunk_addr, region_beg. by rewrite Ebeg. }
  assert (0 < chunk_addr (sys_primary s) c k).
  { unfold chunk_addr. assert (0 <= k * Size c) by (apply Z.mul_nonneg_nonneg; lia).
    unfold region_beg in *. rewrite <- Ebeg. lia. }
  rewrite (proj2 (Z.eqb_neq (chunk_addr (sys_primary s) c k) 0)) by lia.
  split; [exact Hs3|]. split; [exact Ebeg|]. exists k. split; [done|]. split; [by rewrite <- Hown1|].
  split; [exact Hk|]. intros d j Hd. rewrite Hown3, Hown2, Hown1 by done. done.
Qed.

(** *** Drain *)

(** The chunk lies in the part of its region that holds chunks. *)
Definition chunk_fits (c k : Z) : Prop := 0 <= k /\ (k + 1) * Size c <= kRegionSize - kFreeArraySize.

(** The pages that went back to the system held no byte of the program's chunks. *)
Definition released_ok s (rs : list (Z * Z)) : Prop :=
  forall a b x, (a, b) ∈ rs -> a <= x < b ->
    exists c k, 1 <= c <= kLargestClassID /\ ~ owned s c k /\ chunk_fits c k /\
      chunk_addr (sys_primary s) c k <= x < chunk_addr (sys_primary s) c k + Size c.

Lemma drain_spec os s t c n st ca rs :
  1 <= c <= kLargestClassID -> sys_ok s -> os_ok os -> 0 <= n ->
  drain_class os (sys_primary s) (sys_caches s t) c n = Done (st, ca, rs) ->
  let s' := with_cache s t st ca in
  sys_ok s' /\ only_class c (sys_primary s) st /\
  (forall d, d <> c -> per_class ca d = per_class (sys_caches s t) d) /\
  (forall d k, 1 <= d <= kLargestClassID -> owned s' d k <-> owned s d k) /\
  n <= count (per_class (sys_caches s t) c) /\
  count (per_class ca c) = count (per_class (sys_caches s t) c) - n /\
  max_count (per_class ca c) = max_count (per_class (sys_caches s t) c) /\ released_ok s' rs.
Proof.
  intros Hc Hs Hos Hn E s'. unfold drain_class in E. cbv zeta in E.
  set (pc := per_class (sys_caches s t) c) in *.
  apply bind_done in E as ([] & Hle & E). apply check_done in Hle. bool_hyps.
  apply bind_done in E as ([st1 rs1] & Er & E). cbn [mret outcome_ret] in E.
  injection E as E1 E2 E3. subst st1 rs1.
  assert (per_class ca c = mkPerClass (count pc - n) (max_count pc) (class_size pc) (chunks pc)) as Epc
    by (rewrite <- E2; cbn; by rewrite upd_same).
  assert (forall d, d <> c -> per_class ca d = per_class (sys_caches s t) d) as Hother
    by (intros d Hd; rewrite <- E2; cbn; by rewrite upd_other).
  destruct (sy_cache s Hs t c Hc) as [Hcnt Hmax]. fold pc in Hcnt, Hmax.
  destruct (hint_range c Hc) as [Hh _]. destruct (size_16 c Hc) as [_ Hcs].
  pose proof (pk_region _ (sy_primary s Hs) c Hc) as Hr. pose proof (ro_free _ _ Hr) as [Hnum0 _].
  pose proof (sy_view s Hs c Hc) as Hv.
  set (num := num_freed_chunks (region s c)) in *. set (fa := free_arrays (sys_primary s) c) in *.
  set (vm := mkView (num + n) (copy_array fa num (chunks pc) (count pc - n) n)
               (upd (v_count (sys_view s c)) t (count pc - n)) (v_chunks (sys_view s c))).
  assert (forall v', v_num v' = num + n -> v_count v' t = count pc - n ->
    (forall i, v_array v' i = copy_array fa num (chunks pc) (count pc - n) n i) -> v_chunks v' t = chunks pc ->
    same_caches t (sys_view s c) v' -> rearranged (sys_view s c) v') as Hre.
  { intros v' H1 H2 H3 H4 H5. apply (cache_to_array (sys_view s c) v' t n); cbn [sys_view v_num v_array v_count v_chunks];
      fold num fa pc; try done; try lia.
    - intros i Hi. by rewrite H4.
    - intros i Hi. rewrite H3, copy_array_spec by done. by rewrite (proj2 (Z.leb_gt num i)) by lia.
    - intros i Hi. rewrite H3, copy_array_spec by done.
      rewrite (proj2 (Z.leb_le num (num + i))), (proj2 (Z.ltb_lt (num + i) (num + n))) by lia. cbn [andb].
      f_equal. lia. }
  assert (rearranged (sys_view s c) vm) as Hrm.
  { apply Hre; try done. - cbn. by rewrite upd_same.
    - intros u Hu. cbn. by rewrite upd_other. }
  destruct (rearranged_ok (csize c) (carved s c) _ vm Hrm Hv) as [Hvm _].
  destruct (return_spec os (sys_primary s) c (chunks pc) (count pc - n) n st rs Hc (sy_primary s Hs) Hos)
    as (Hst & Hoc & [Rn Ru Rm Ra] & Hrel); [lia| |exact Er|].
  { by apply (entries_of_view c _ _ vm). }
  fold num fa in Rn, Ru, Rm, Ra.
  assert (rearranged (sys_view s c) (sys_view s' c)) as Hrs.
  { apply Hre; unfold s'; cbn.
    - exact Rn.
    - by rewrite upd_same, Epc.
    - intros i. rewrite Ra, copy_array_spec by done. done.
    - by rewrite upd_same, Epc.
    - intros u Hu. cbn. by rewrite upd_other. }
  destruct (rearranged_ok (csize c) (carved s c) _ _ Hrs Hv) as [Hv' Hf'].
  assert (carved s' c = carved s c) as Ecar by (by apply nchunks_user).
  destruct (step_ok s t c st ca Hc Hs Hst Hoc) as [Hs' Hown].
  { intros d Hd. destruct (Z.eq_dec d c) as [->|Hne].
    - rewrite Epc. split; cbn; [lia|exact Hmax].
    - rewrite Hother by done. by apply sy_cache. }
  { intros d Hne. unfold same_class. by rewrite Hother. }
  { fold s'. rewrite Ecar. exact Hv'. }
  fold s' in Hs', Hown. split; [exact Hs'|]. split; [done|]. split; [done|]. split.
  { intros d k Hd. destruct (Z.eq_dec d c) as [->|Hne]; [|by apply Hown]. unfold owned, free. by rewrite Ecar, Hf'. }
  rewrite Epc. cbn [count max_count]. split_and!; [lia|done|done|].
  intros a b x Hab Hx. destruct (Hrel a b x Hab Hx) as (k & i & Hi & Hk & Hb). exists c, k.
  assert (at_place (sys_view s' c) (InArray i) = Some (k * csize c)) as Hat by (apply at_array; split; [exact Hi|exact Hk]).
  split; [done|]. split; [intros [_ Hnf]; apply Hnf; by eexists|]. split; [|exact Hb].
  destruct (vo_chunk _ _ _ Hv' _ _ Hat) as (k' & Hk' & E). apply Z.mul_reg_r in E; [|lia]. subst k'.
  rewrite <- Ecar in Hk'. pose proof (chunk_bounds c k _ Hc (pk_region _ (sy_primary _ Hs') c Hc) Hk').
  unfold chunk_fits. lia.
Qed.

(** *** Deallocate *)

(** Pushing a chunk of the program onto a cache with room. *)
Lemma push_spec s t c k stt :
  1 <= c <= kLargestClassID -> sys_ok s -> owned s c k ->
  let pc := per_class (sys_caches s t) c in
  count pc < max_count pc ->
  let s' := with_cache s t (sys_primary s)
    (set_stats (set_class (sys_caches s t) c
      (mkPerClass (count pc + 1) (max_count pc) (class_size pc) (upd (chunks pc) (count pc) (k * csize c)))) stt) in
  sys_ok s' /\ forall d j, 1 <= d <= kLargestClassID -> owned s' d j <-> owned s d j /\ (d, j) <> (c, k).
Proof.
  intros Hc Hs [Hk Hnf] pc Hroom s'. destruct (size_16 c Hc) as [_ Hcs].
  set (ca := set_stats _ stt) in s'.
  assert (per_class ca c = mkPerClass (count pc + 1) (max_count pc) (class_size pc)
    (upd (chunks pc) (count pc) (k * csize c))) as Epc by (unfold ca; cbn; by rewrite upd_same).
  assert (forall d, d <> c -> per_class ca d = per_class (sys_caches s t) d) as Hother
    by (intros d Hd; unfold ca; cbn; by rewrite upd_other).
  destruct (sy_cache s Hs t c Hc) as [Hcnt Hmax]. fold pc in Hcnt, Hmax.
  destruct (cache_push (csize c) Hcs (carved s c) (sys_view s c) (sys_view s' c) t k (sy_view s Hs c Hc) Hk Hnf)
    as [Hv Hf].
  - cbn. fold pc. lia.
  - intros u Hu. unfold s'. cbn. by rewrite upd_other.
  - done.
  - done.
  - unfold s'. cbn [sys_view with_cache sys_caches v_count]. rewrite upd_same, Epc. done.
  - unfold s'. cbn [sys_view with_cache sys_caches v_count v_chunks]. rewrite upd_same, Epc. cbn [chunks].
    fold pc. intros i Hi. by rewrite upd_other by lia.
  - unfold s'. cbn [sys_view with_cache sys_caches v_count v_chunks]. rewrite upd_same, Epc. cbn [chunks].
    fold pc. by rewrite upd_same.
  - destruct (step_ok s t c (sys_primary s) ca Hc Hs (sy_primary s Hs) (only_class_refl c _)) as [Hs' Hown].
    + intros d Hd. destruct (Z.eq_dec d c) as [->|Hne].
      * rewrite Epc. split; cbn; [lia|done].
      * rewrite Hother by done. by apply sy_cache.
    + intros d Hne. unfold same_class. by rewrite Hother.
    + exact Hv.
    + fold s' in Hs', Hown. split; [exact Hs'|]. intros d j Hd.
      destruct (Z.eq_dec d c) as [->|Hne]; [|rewrite Hown by done; naive_solver].
      unfold owned, free in *. change (carved s' c) with (carved s c). rewrite Hf.
      split; [intros [Hj Hn]; split; [naive_solver|]; intros [= ->]; naive_solver|].
      intros [[Hj Hn] Hne]. split; [done|]. intros [?| ->]; naive_solver.
Qed.

(** Deallocation of a chunk the program owns. *)
Lemma deallocate_spec os s t c k s' rs :
  1 <= c <= kLargestClassID -> sys_ok s -> os_ok os -> owned s c k ->
  sys_Deallocate os t c (chunk_addr (sys_primary s) c k) s = Done (s', rs) ->
  sys_ok s' /\ SpaceBeg (sys_primary s') = SpaceBeg (sys_primary s) /\ released_ok s' rs /\
  forall d j, 1 <= d <= kLargestClassID -> owned s' d j <-> owned s d j /\ (d, j) <> (c, k).
Proof.
  intros Hc Hs Hos Hown E. destruct (size_16 c Hc) as [E16 Hcs]. destruct (hint_range c Hc) as [Hh _].
  unfold sys_Deallocate in E. apply bind_done in E as ([[st2 ca2] rs2] & E1 & E). injection E as <- <-.
  unfold cache_Deallocate in E1. apply bind_done in E1 as ([] & _ & E1). apply bind_done in E1 as ([] & _ & E1).
  destruct (InitCache_spec (sys_caches s t) c Hc (fun d Hd => sy_cache s Hs t d Hd)) as (Hok1 & Hsame1 & Hmax1).
  set (ca1 := InitCache (sys_caches s t) c) in *. cbv zeta in E1.
  (* the initialised cache holds the same chunks *)
  set (s1 := with_cache s t (sys_primary s) ca1).
  assert (sys_caches s1 t = ca1) as Eca1 by (cbn; by rewrite upd_same).
  assert (sys_ok s1 /\ forall d j, 1 <= d <= kLargestClassID -> owned s1 d j <-> owned s d j) as [Hs1 Hown1].
  { assert (forall d, 1 <= d <= kLargestClassID -> view_ok (csize d) (carved s d) (sys_view s1 d) /\
      forall j, free s1 d j <-> free s d j) as Hv.
    { intros d Hd. apply (same_view_ok (csize d) (carved s d) (sys_view s d)); [done|done| |by apply sy_view].
      intros u. cbn. unfold upd. destruct (Z.eqb_spec u t) as [->|]; [apply Hsame1|done]. }
    split; [split|].
    - apply (sy_primary s Hs).
    - intros u d Hd. cbn. unfold upd. destruct (Z.eqb_spec u t); [by apply Hok1|by apply sy_cache].
    - intros d Hd. by apply Hv.
    - intros u. cbn. unfold upd. destruct (Z.eqb_spec u t); [|by apply sy_batch].
      destruct (Hsame1 kBatchClassID) as [-> _]. by apply sy_batch.
    - apply (sy_batch_region s Hs).
    - intros d j Hd. unfold owned. by rewrite (proj2 (Hv d Hd) j). }
  apply bind_done in E1 as ([[st ca] rs] & Ed & E1).
  set (s3 := with_cache s1 t st ca).
  assert (sys_caches s3 t = ca) as Eca by (cbn; by rewrite upd_same).
  assert (sys_ok s3 /\ only_class c (sys_primary s) st /\ released_ok s3 rs /\
    (forall d j, 1 <= d <= kLargestClassID -> owned s3 d j <-> owned s1 d j) /\
    count (per_class ca c) < max_count (per_class ca c)) as (Hs3 & Hoc & Hrel & Hown3 & Hroom).
  { destruct (Z.eqb_spec (count (per_class ca1 c)) (max_count (per_class ca1 c))) as [Efull|Hne].
    - unfold DrainHalfMax in Ed. rewrite Hmax1, Z.mul_comm, Z.div_mul in Ed by lia.
      rewrite <- Eca1 in Ed.
      assert (0 <= MaxCachedHint (Size c)) as Hh0 by lia.
      destruct (drain_spec os s1 t c (MaxCachedHint (Size c)) st ca rs Hc Hs1 Hos Hh0 Ed)
        as (H1 & H2 & _ & H4 & _ & H6 & H7 & H8).
      rewrite Eca1 in *. split_and!; try done. lia.
    - injection Ed as <- <- <-. destruct (Hok1 c Hc) as [Hcnt _].
      destruct (sys_ext s1 (with_cache s1 t (sys_primary s) ca1) eq_refl) as [H1 H2]; [|done|].
      { intros u. rewrite <- Eca1 at 1. apply (with_cache_same s1 t u). }
      split_and!; [exact H1|apply only_class_refl| |exact H2|lia].
      intros a b x Hab. by apply not_elem_of_nil in Hab. }
  assert (owned s3 c k) as Howned3 by (by apply Hown3, Hown1).
  pose proof (pk_space _ (sy_primary s Hs)) as Hsp. pose proof (only_class_space _ _ _ Hoc) as Ebeg.
  assert (space_ok st) as Hspst by (by eapply only_class_space_ok).
  destruct (chunk_bounds c k _ Hc (pk_region _ (sy_primary _ Hs) c Hc) (proj1 Hown)) as (Hk0 & _ & Hkle & _ & _).
  pose proof region_facts as (HR & HF & _).
  assert (PointerToCompactPtr (GetRegionBeginBySizeClass st c) (chunk_addr (sys_primary s) c k) = k * csize c) as Ep.
  { rewrite GetRegionBeginBySizeClass_eq by done. unfold chunk_addr, region_beg. rewrite Ebeg.
    rewrite <- (compact_chunk c k) by (done || lia). unfold PointerToCompactPtr. do 3 f_equal. lia. }
  rewrite Ep in E1.
  pose proof (push_spec s3 t c k (stats_Sub_allocated (stats ca) (class_size (per_class ca c))) Hc Hs3 Howned3) as Hpush.
  rewrite Eca in Hpush. destruct (Hpush Hroom) as [Hs4 Hown4]. change (sys_primary s3) with st in Hs4, Hown4.
  injection E1 as <- <- <-.
  match goal with |- sys_ok (with_cache s t st ?x) /\ _ => set (ca4 := x) end.
  change (sys_ok (with_cache s3 t st ca4)) in Hs4.
  change (forall d j, 1 <= d <= kLargestClassID ->
    owned (with_cache s3 t st ca4) d j <-> owned s3 d j /\ (d, j) <> (c, k)) in Hown4.
  destruct (sys_ext (with_cache s3 t st ca4) (with_cache s t st ca4) eq_refl) as [Hs5 Hown5]; [|exact Hs4|].
  { intros u. unfold s3, s1. cbn. unfold upd. by destruct (Z.eqb_spec u t). }
  split; [exact Hs5|]. split; [exact Ebeg|]. split.
  - intros a b x Hab Hx. destruct (Hrel a b x Hab Hx) as (d & j & Hd & Hfree & Hreg & Hb).
    exists d, j. split; [done|]. split; [|by split].
    intros Ho. apply Hfree. by apply Hown5, Hown4 in Ho as [Ho _].
  - intros d j Hd. rewrite Hown5, (Hown4 d j), Hown3, Hown1 by done. done.
Qed.

Lemma released_mono s s' rs :
  SpaceBeg (sys_primary s') = SpaceBeg (sys_primary s) ->
  (forall d k, 1 <= d <= kLargestClassID -> owned s' d k -> owned s d k) -> released_ok s rs -> released_ok s' rs.
Proof.
  intros Eb Ho Hr a b x Hab Hx. destruct (Hr a b x Hab Hx) as (c & k & Hc & Hn & Hf & Hbytes).
  exists c, k. split; [done|]. split; [intros H; by apply Hn, Ho|]. split; [done|].
  unfold chunk_addr, region_beg in *. by rewrite Eb.
Qed.

Lemma released_nil s : released_ok s [].
Proof. intros a b x Hab. by apply not_elem_of_nil in Hab. Qed.

Lemma released_app s rs rs' : released_ok s rs -> released_ok s rs' -> released_ok s (rs ++ rs').
Proof. intros H1 H2 a b x [Hab|Hab]%elem_of_app; [by apply H1|by apply H2]. Qed.

(** What the draining of a whole cache, and the forced release, preserve. *)
Record same_owners s s' : Prop := {
  so_ok : sys_ok s';
  so_space : SpaceBeg (sys_primary s') = SpaceBeg (sys_primary s);
  so_owned d k : 1 <= d <= kLargestClassID -> owned s' d k <-> owned s d k
}.

Lemma same_owners_ext s s' :
  sys_primary s' = sys_primary s -> (forall u, sys_caches s' u = sys_caches s u) -> sys_ok s -> same_owners s s'.
Proof. intros Ep Ec Hs. destruct (sys_ext s s' Ep Ec Hs). split; [done|by rewrite Ep|done]. Qed.

Lemma same_owners_trans s s' s'' : same_owners s s' -> same_owners s' s'' -> same_owners s s''.
Proof. intros [_ A2 A3] [B1 B2 B3]. split; [done|congruence|]. intros d k Hd. by rewrite B3, A3. Qed.

Lemma same_owners_released s s' rs : same_owners s s' -> released_ok s rs -> released_ok s' rs.
Proof. intros [_ H2 H3]. apply released_mono; [done|]. intros d k Hd. by apply H3. Qed.

Lemma batch_class : kBatchClassID = kLargestClassID + 1.
Proof. unfold kBatchClassID, kLargestClassID. lia. Qed.

Lemma drain_classes_spec os t l s st ca rs :
  sys_ok s -> os_ok os -> Forall (fun i => 1 <= i <= kBatchClassID) l ->
  drain_classes os l (sys_primary s) (sys_caches s t) = Done (st, ca, rs) ->
  same_owners s (with_cache s t st ca) /\ released_ok (with_cache s t st ca) rs /\
  (forall d, d ∈ l \/ count (per_class (sys_caches s t) d) = 0 -> count (per_class ca d) = 0).
Proof.
  intros Hs Hos. revert s rs Hs. induction l as [|i l IH]; intros s rs Hs Hl E.
  { injection E as <- <- <-.
    split; [apply same_owners_ext; [done|apply with_cache_same|done]|]. split; [apply released_nil|].
    intros d [Hd|?]; [by apply not_elem_of_nil in Hd|done]. }
  apply list.Forall_cons in Hl as [Hi Hl]. cbn [drain_classes] in E.
  apply bind_done in E as ([[st1 ca1] rs1] & E1 & E). apply bind_done in E as ([[st2 ca2] rs2] & E2 & E).
  injection E as <- <- <-. set (s1 := with_cache s t st1 ca1).
  assert (sys_caches s1 t = ca1) as Eca1 by (cbn; by rewrite upd_same).
  assert (same_owners s s1 /\ released_ok s1 rs1 /\ count (per_class ca1 i) = 0 /\
    forall d, count (per_class (sys_caches s t) d) = 0 -> count (per_class ca1 d) = 0) as (Hso & Hrel & Hci & Hc0).
  { destruct (Z.ltb_spec 0 (count (per_class (sys_caches s t) i))) as [Hpos|Hz].
    - destruct (Z.eq_dec i kBatchClassID) as [->|Hne]; [rewrite (sy_batch s Hs t) in Hpos; lia|].
      pose proof batch_class as Hb. assert (1 <= i <= kLargestClassID) as Hir by lia.
      assert (0 <= count (per_class (sys_caches s t) i)) as H0 by lia.
      destruct (drain_spec os s t i _ st1 ca1 rs1 Hir Hs Hos H0 E1) as (H1 & H2 & H3 & H4 & _ & H6 & _ & H8).
      split; [split; [done|exact (only_class_space _ _ _ H2)|done]|]. split; [done|]. split; [lia|].
      intros d Hd. destruct (Z.eq_dec d i) as [->|Hdi]; [lia|]. by rewrite H3.
    - injection E1 as <- <- <-. split; [apply same_owners_ext; [done|apply with_cache_same|done]|].
      split; [apply released_nil|]. split; [|done].
      destruct (Z.eq_dec i kBatchClassID) as [->|Hne]; [by apply sy_batch|].
      pose proof batch_class. destruct (sy_cache s Hs t i ltac:(lia)) as [Hcnt _]. lia. }
  rewrite <- Eca1 in E2. destruct (IH s1 rs2 (so_ok _ _ Hso) Hl E2) as (Hso2 & Hrel2 & Hz2).
  assert (same_owners (with_cache s1 t st2 ca2) (with_cache s t st2 ca2)) as Hext.
  { apply same_owners_ext; [done|intros u; symmetry; apply with_cache_twice|apply (so_ok _ _ Hso2)]. }
  split; [eapply same_owners_trans; [exact Hso|]; eapply same_owners_trans; [exact Hso2|exact Hext]|].
  split.
  - apply (same_owners_released _ _ _ Hext). apply released_app; [|done]. by apply (same_owners_released s1).
  - intros d Hd. apply Hz2. rewrite Eca1. destruct Hd as [[->|Hd]%elem_of_cons|Hd]; [by right|by left|right; by apply Hc0].
Qed.

Lemma from_1_classes i : i ∈ map (Z.add 1) (zrange (kNumClasses - 1)) <-> 1 <= i <= kBatchClassID.
Proof.
  rewrite list_elem_of_fmap. unfold kBatchClassID. split.
  - intros (j & -> & Hj%elem_of_zrange). lia.
  - intros Hi. exists (i - 1). split; [lia|]. apply elem_of_zrange. lia.
Qed.

(** Draining a cache leaves it empty, and changes the owner of no chunk. *)
Lemma sys_drain_spec os t s s' rs :
  sys_ok s -> os_ok os -> sys_Drain os t s = Done (s', rs) ->
  same_owners s s' /\ released_ok s' rs /\
  forall c, 1 <= c < kNumClasses -> count (per_class (sys_caches s' t) c) = 0.
Proof.
  intros Hs Hos E. unfold sys_Drain, Drain in E. apply bind_done in E as ([[st ca] rs1] & E1 & E).
  injection E as <- <-. destruct (drain_classes_spec os t (map (Z.add 1) (zrange (kNumClasses - 1))) s st ca rs1 Hs Hos) as (H1 & H2 & H3);
    [|exact E1|].
  - apply list.Forall_forall. intros i Hi. by apply from_1_classes.
  - split; [done|]. split; [done|]. intros c Hc. cbn. rewrite upd_same. apply H3. left. apply from_1_classes.
    unfold kBatchClassID. lia.
Qed.

(** *** ForceReleaseToOS *)

Definition sys_ForceReleaseToOS (os : OsEnv) s : outcome (System * list (Z * Z)) :=
  res ← ForceReleaseToOS os (sys_primary s);
  let '(st, rs) := res : Primary * list (Z * Z) in mret (mkSystem st (sys_caches s), rs).

Lemma release_one os c s :
  1 <= c <= kLargestClassID -> sys_ok s -> os_ok os ->
  exists st rs, MaybeReleaseToOS os (sys_primary s) c true = Done (st, rs) /\
    same_owners s (mkSystem st (sys_caches s)) /\ released_ok (mkSystem st (sys_caches s)) rs.
Proof.
  intros Hc Hs Hos. destruct (size_16 c Hc) as [_ Hcs]. pose proof (sy_view s Hs c Hc) as Hv.
  destruct (release_spec os (sys_primary s) c true Hc (sy_primary s Hs) Hos)
    as (st & rs & E & Hst & Hoc & Harr & Hnum & Huser & _ & Hrel).
  { by apply (entries_of_view c _ _ (sys_view s c)). }
  exists st, rs. split; [exact E|].
  set (w := with_cache s 0 st (sys_caches s 0)).
  assert (carved w c = carved s c) as Ecar by (by apply nchunks_user).
  destruct (same_view_ok (csize c) (carved s c) (sys_view s c) (sys_view w c)) as [Hv' Hf']; [done|done| |done|].
  { intros u. cbn. unfold upd. by destruct (Z.eqb_spec u 0) as [->|]. }
  destruct (step_ok s 0 c st (sys_caches s 0) Hc Hs Hst Hoc) as [Hw Hown].
  { intros d Hd. by apply sy_cache. }
  { done. }
  { fold w. by rewrite Ecar. }
  fold w in Hw, Hown.
  assert (same_owners s w) as Hsw.
  { split; [done|exact (only_class_space _ _ _ Hoc)|]. intros d k Hd.
    destruct (Z.eq_dec d c) as [->|Hne]; [|by apply Hown]. unfold owned, free. by rewrite Ecar, Hf'. }
  assert (same_owners w (mkSystem st (sys_caches s))) as Hws.
  { apply same_owners_ext; [done| |done]. intros u. cbn. unfold upd. by destruct (Z.eqb_spec u 0) as [->|]. }
  split; [by eapply same_owners_trans|]. apply (same_owners_released w); [done|].
  apply (same_owners_released s); [done|]. intros a b x Hab Hx.
  destruct (Hrel a b x Hab Hx) as (k & i & Hi & Hk & Hb). exists c, k.
  assert (at_place (sys_view s c) (InArray i) = Some (k * csize c)) as Hat by (apply at_array; split; [exact Hi|exact Hk]).
  split; [done|]. split; [intros [_ Hnf]; apply Hnf; by eexists|]. split; [|exact Hb].
  destruct (vo_chunk _ _ _ Hv _ _ Hat) as (k' & Hk' & Ek). apply Z.mul_reg_r in Ek; [|lia]. subst k'.
  pose proof (chunk_bounds c k _ Hc (pk_region _ (sy_primary _ Hs) c Hc) Hk'). unfold chunk_fits. lia.
Qed.

Lemma force_release_spec os l s :
  sys_ok s -> os_ok os -> Forall (fun i => 1 <= i <= kBatchClassID) l ->
  exists st rs, force_release os l (sys_primary s) = Done (st, rs) /\
    same_owners s (mkSystem st (sys_caches s)) /\ released_ok (mkSystem st (sys_caches s)) rs.
Proof.
  intros Hs Hos Hl. revert s Hs. induction Hl as [|i l Hi Hl IH]; intros s Hs.
  { exists (sys_primary s), []. split; [done|]. split; [by apply same_owners_ext|apply released_nil]. }
  cbn [force_release].
  assert (exists st rs, MaybeReleaseToOS os (sys_primary s) i true = Done (st, rs) /\
    same_owners s (mkSystem st (sys_caches s)) /\ released_ok (mkSystem st (sys_caches s)) rs)
    as (st & rs & -> & Hso & Hrel).
  { destruct (Z.eq_dec i kBatchClassID) as [->|Hne].
    - exists (sys_primary s), []. split; [|split; [by apply same_owners_ext|apply released_nil]].
      unfold MaybeReleaseToOS. cbv zeta. rewrite (sy_batch_region s Hs), Z.mul_0_l. change (u64 0) with 0.
      unfold GetPageSizeCached. unfold os_ok in Hos.
      by rewrite (proj2 (Z.ltb_lt 0 (2 ^ page_size_log os))) by (apply Z.pow_pos_nonneg; lia).
    - apply release_one; [pose proof batch_class; lia|done|done]. }
  cbn [mbind outcome_bind]. destruct (IH _ (so_ok _ _ Hso)) as (st2 & rs2 & E2 & Hso2 & Hrel2).
  cbn [sys_primary sys_caches] in E2, Hso2, Hrel2. rewrite E2. cbn [mbind outcome_bind mret outcome_ret].
  exists st2, (rs ++ rs2). split; [done|]. split; [by eapply same_owners_trans|].
  apply released_app; [|done]. by eapply same_owners_released.
Qed.

(** *** Executions

    Operations of any threads, in any order, under any answers of the system.  The
    program frees chunks it owns. *)

Inductive sys_step : System -> System -> Prop :=
| sys_step_allocate os t c p s s' :
    1 <= c <= kLargestClassID -> sys_Allocate os t c s = Done (p, s') -> sys_step s s'
| sys_step_deallocate os t c k s s' rs :
    os_ok os -> 1 <= c <= kLargestClassID -> owned s c k ->
    sys_Deallocate os t c (chunk_addr (sys_primary s) c k) s = Done (s', rs) -> sys_step s s'
| sys_step_drain os t s s' rs : os_ok os -> sys_Drain os t s = Done (s', rs) -> sys_step s s'
| sys_step_release os s s' rs : os_ok os -> sys_ForceReleaseToOS os s = Done (s', rs) -> sys_step s s'.

Lemma sys_step_ok s s' : sys_step s s' -> sys_ok s ->
  sys_ok s' /\ SpaceBeg (sys_primary s') = SpaceBeg (sys_primary s).
Proof.
  intros Hstep Hs. destruct Hstep as [os t c p s s' Hc E|os t c k s s' rs Hos Hc Ho E|os t s s' rs Hos E|os s s' rs Hos E].
  - destruct (allocate_spec os s t c p s' Hc Hs E) as (H1 & H2 & _). done.
  - destruct (deallocate_spec os s t c k s' rs Hc Hs Hos Ho E) as (H1 & H2 & _). done.
  - destruct (sys_drain_spec os t s s' rs Hs Hos E) as ([H1 H2 _] & _). done.
  - destruct (force_release_spec os (map (Z.add 1) (zrange (kNumClasses - 1))) s Hs Hos) as (st & rs2 & E2 & [H1 H2 _] & _).
    { apply list.Forall_forall. intros i Hi. by apply from_1_classes. }
    unfold sys_ForceReleaseToOS, ForceReleaseToOS in E. rewrite E2 in E. by injection E as <- <-.
Qed.

Lemma sys_steps_ok s s' : rtc sys_step s s' -> sys_ok s ->
  sys_ok s' /\ SpaceBeg (sys_primary s') = SpaceBeg (sys_primary s).
Proof.
  induction 1 as [|s1 s2 s3 Hs _ IH]; intros Hok; [done|].
  destruct (sys_step_ok _ _ Hs Hok) as [Hok2 E]. destruct (IH Hok2) as [? E2]. split; [done|congruence].
Qed.

(** A fresh allocator, with the caches of all threads zeroed. *)
Definition fresh_system (st : Primary) : System := mkSystem st (fun _ => cache0).

Lemma region0_ok c : 1 <= c <= kLargestClassID -> region_ok c region0.
Proof.
  intros Hc. pose proof region_facts. pose proof (class_range c Hc) as (_ & _ & Hs & _).
  assert (nchunks c region0 = 0) as E by (apply Z.div_0_l; lia).
  split; rewrite ?E; cbn; lia.
Qed.

Lemma fresh_ok st :
  space_ok st -> (forall c, regions st c = region0) -> sys_ok (fresh_system st).
Proof.
  intros Hst Hr. split.
  - split; [exact Hst|]. intros c Hc. cbn. rewrite Hr. by apply region0_ok.
  - intros t c Hc. split; cbn; [lia|by left].
  - intros c Hc. split.
    + intros [i|t i] e; rewrite ?at_array, ?at_cache; cbn; rewrite ?Hr; cbn; lia.
    + intros [i|t i] l' e; rewrite ?at_array, ?at_cache; cbn; rewrite ?Hr; cbn; lia.
  - done.
  - cbn. by rewrite Hr.
Qed.

(** [Init] at a fixed address. *)
Lemma Init_ok os ie interval st :
  kUsingConstantSpaceBeg = true -> Init os ie interval 0 = Done st ->
  space_ok st /\ forall c, regions st c = region0.
Proof.
  intros Hk E. unfold Init in E. rewrite Hk in E. cbn [Z.eqb negb] in E.
  apply bind_done in E as (additional & _ & E). cbv zeta in E.
  apply bind_done in E as (beg & Eb & E). apply bind_done in E as (mapped & _ & E).
  apply bind_done in E as ([] & _ & E). injection E as <-. split; [|done].
  apply bind_done in Eb as ([] & Hal & _). apply check_done in Hal.
  pose proof scm_powers as (_ & _ & _ & HX & _). pose proof scm_max. pose proof scm_min.
  rewrite HX, IsAligned_spec, Z.eqb_eq in Hal by lia. rewrite <- HX in Hal.
  destruct (p64_beg Hk) as (? & ? & ?). split; unfold SpaceBeg; rewrite Hk; done.
Qed.

(** *** Properties *)

(** what [Allocate] of a thread's cache hands out.  After any interleaving of
    the operations of any number of threads from a fresh allocator, and whatever
    the system answers, a non-null answer is a chunk of the class asked for, in the
    part of the region that is mapped; it was not the program's before, so it
    overlaps no chunk the program has; it is afterwards, and nothing else changes
    hands. *)
Theorem allocation_is_exclusive os0 ie interval st0 s os t c p s' :
  kUsingConstantSpaceBeg = true -> Init os0 ie interval 0 = Done st0 ->
  rtc sys_step (fresh_system st0) s -> 1 <= c <= kLargestClassID ->
  sys_Allocate os t c s = Done (p, s') -> p <> 0 ->
  exists k, p = chunk_addr st0 c k /\ 0 <= k /\ (k + 1) * Size c <= mapped_user (region s' c) /\
    ~ owned s c k /\
    (forall d j, 1 <= d <= kLargestClassID -> owned s' d j <-> owned s d j \/ (d, j) = (c, k)) /\
    forall d j, 1 <= d <= kLargestClassID -> owned s d j -> apart p (Size c) (chunk_addr st0 d j) (Size d).
Proof.
  intros Hk Hinit Hrun Hc E Hp. destruct (Init_ok _ _ _ _ Hk Hinit) as [Hsp Hr0].
  destruct (sys_steps_ok _ _ Hrun (fresh_ok st0 Hsp Hr0)) as [Hs Ebeg]. cbn in Ebeg.
  assert (forall d j, chunk_addr (sys_primary s) d j = chunk_addr st0 d j) as Eaddr
    by (intros; unfold chunk_addr, region_beg; by rewrite Ebeg).
  destruct (allocate_spec os s t c p s' Hc Hs E) as (Hs' & _ & Hcase).
  rewrite (proj2 (Z.eqb_neq p 0) Hp) in Hcase. destruct Hcase as (k & -> & Hno & Hin & Hown).
  pose proof region_facts as (HR & HF & _).
  destruct (chunk_bounds c k _ Hc (pk_region _ (sy_primary _ Hs') c Hc) Hin) as (Hk0 & Hm & Hfit & _ & _).
  exists k. rewrite Eaddr. split_and!; try done. intros d j Hd Ho.
  destruct (chunk_bounds d j _ Hd (pk_region _ (sy_primary _ Hs) d Hd) (proj1 Ho)) as (Hj0 & _ & Hjfit & _ & _).
  apply chunks_apart; try done; try lia. intros [= <- <-]. done.
Qed.

(** C17: giving memory back to the system is safe.  Whenever a deallocation makes a
    thread's cache drain into its region, and the region releases pages to the
    system, no released byte belongs to a chunk the program has: neither one it had
    all along nor one in another thread's hands. *)
Theorem released_pages_hold_no_live_data os0 ie interval st0 s os t c k s' rs a b x d j :
  kUsingConstantSpaceBeg = true -> Init os0 ie interval 0 = Done st0 ->
  rtc sys_step (fresh_system st0) s -> os_ok os -> 1 <= c <= kLargestClassID -> owned s c k ->
  sys_Deallocate os t c (chunk_addr st0 c k) s = Done (s', rs) ->
  (a, b) ∈ rs -> a <= x < b -> 1 <= d <= kLargestClassID -> owned s' d j ->
  ~ chunk_addr st0 d j <= x < chunk_addr st0 d j + Size d.
Proof.
  intros Hk Hinit Hrun Hos Hc Ho E Hab Hx Hd Hoj Hin. destruct (Init_ok _ _ _ _ Hk Hinit) as [Hsp Hr0].
  destruct (sys_steps_ok _ _ Hrun (fresh_ok st0 Hsp Hr0)) as [Hs Ebeg]. cbn in Ebeg.
  assert (forall d j, chunk_addr (sys_primary s) d j = chunk_addr st0 d j) as Eaddr
    by (intros; unfold chunk_addr, region_beg; by rewrite Ebeg).
  rewrite <- Eaddr in E. destruct (deallocate_spec os s t c k s' rs Hc Hs Hos Ho E) as (Hs' & Ebeg' & Hrel & _).
  destruct (Hrel a b x Hab Hx) as (d2 & j2 & Hd2 & Hn2 & [Hj20 Hj2] & Hin2).
  assert (chunk_addr (sys_primary s') d2 j2 = chunk_addr st0 d2 j2) as E2
    by (unfold chunk_addr, region_beg; by rewrite Ebeg', Ebeg). rewrite E2 in Hin2.
  pose proof region_facts as (HR & HF & _).
  destruct (chunk_bounds d j _ Hd (pk_region _ (sy_primary _ Hs') d Hd) (proj1 Hoj)) as (Hj0 & _ & Hjfit & _ & _).
  assert ((d, j) <> (d2, j2)) as Hne by (intros [= <- <-]; done).
  destruct (chunks_apart st0 d j d2 j2 Hsp Hd Hd2 Hj0 Hj20) as [?|?]; try done; lia.
Qed.

(** pointers are decoded right, and the three parts of a region never meet.
    Every chunk the region has carved is found again from any address inside it:
    its class, its beginning, its size and its metadata; the metadata of different
    chunks are disjoint, and chunks, metadata and free array lie apart, inside the
    region and in mapped memory. *)
Theorem pointer_lookup_exact os0 ie interval st0 s c k x :
  kUsingConstantSpaceBeg = true -> Init os0 ie interval 0 = Done st0 ->
  rtc sys_step (fresh_system st0) s -> 1 <= c <= kLargestClassID -> in_region c k (region s c) ->
  0 <= x < Size c -> kMetadataSize <> 0 ->
  let st := sys_primary s in
  let p := chunk_addr st0 c k + x in
  PointerIsMine st p = true /\ GetSizeClass st p = c /\ GetBlockBegin st p = chunk_addr st0 c k /\
  GetActuallyAllocatedSize st p = Done (Size c) /\ GetMetaData st p = Done (meta_addr st0 c k) /\
  (forall d j, 1 <= d <= kLargestClassID -> in_region d j (region s d) ->
     apart (chunk_addr st0 c k) (Size c) (meta_addr st0 d j) kMetadataSize /\
     ((c, k) <> (d, j) -> apart (meta_addr st0 c k) kMetadataSize (meta_addr st0 d j) kMetadataSize)) /\
  apart (chunk_addr st0 c k) (Size c) (GetFreeArray (region_beg st0 c)) (4 * num_freed_chunks (region s c)) /\
  apart (meta_addr st0 c k) kMetadataSize (GetFreeArray (region_beg st0 c)) (4 * num_freed_chunks (region s c)).
Proof.
  intros Hk Hinit Hrun Hc Hin Hx Hm st p. destruct (Init_ok _ _ _ _ Hk Hinit) as [Hsp Hr0].
  destruct (sys_steps_ok _ _ Hrun (fresh_ok st0 Hsp Hr0)) as [Hs Ebeg]. cbn in Ebeg. fold st in Ebeg.
  assert (forall d j, chunk_addr st d j = chunk_addr st0 d j /\ meta_addr st d j = meta_addr st0 d j) as Eaddr
    by (intros; unfold chunk_addr, meta_addr, region_beg; by rewrite Ebeg).
  pose proof region_facts as (HR & HF & HRF & _). pose proof p64_meta as Hmeta.
  pose proof (pk_space _ (sy_primary _ Hs)) as Hspst. fold st in Hspst.
  assert (forall d j, 1 <= d <= kLargestClassID -> in_region d j (region s d) ->
    0 <= j /\ (j + 1) * Size d <= mapped_user (region s d) /\ (j + 1) * Size d <= kRegionSize - kFreeArraySize /\
    (j + 1) * kMetadataSize <= mapped_meta (region s d) /\
    (j + 1) * Size d + (j + 1) * kMetadataSize <= kRegionSize - kFreeArraySize) as Hb
    by (intros d j Hd Hj; by apply (chunk_bounds d j _ Hd (pk_region _ (sy_primary _ Hs) d Hd))).
  destruct (Hb c k Hc Hin) as (Hk0 & Hmu & Hfit & Hmm & Hboth).
  unfold p. destruct (Eaddr c k) as [<- <-].
  destruct (chunk_class st Hspst c k x Hc Hk0 Hfit Hx) as [H1 H2].
  assert ((1 + k) * kMetadataSize <= kRegionSize - kFreeArraySize) as Hmfit.
  { pose proof (class_range c Hc) as (_ & _ & Hsz & _).
    assert (0 <= (k + 1) * Size c) by (apply Z.mul_nonneg_nonneg; lia). lia. }
  split; [exact H1|]. split; [exact H2|]. split; [|split; [|split; [|split]]].
  - rewrite (chunk_block_begin st Hspst c k x Hc Hk0 Hfit Hx). fold st in Hmu. by rewrite (proj2 (Z.leb_le _ _) Hmu).
  - exact (chunk_actual_size st Hspst c k x Hc Hk0 Hfit Hx).
  - exact (chunk_meta_data st Hspst c k x Hc Hk0 Hfit Hx Hm Hmfit).
  - intros d j Hd Hj. destruct (Eaddr d j) as [_ <-].
    apply (parts_apart st c k (region s c) d j (region s d) Hc Hd); try done; [| |by intros ->];
      apply (pk_region _ (sy_primary _ Hs)); done.
  - assert (region_beg st0 c = region_beg st c) as -> by (unfold region_beg; by rewrite Ebeg).
    apply (array_apart st c k (region s c) Hspst Hc (pk_region _ (sy_primary _ Hs) c Hc) Hin).
Qed.
End system.

(** ** Witnesses

    The allocator of the runtime on Linux, with the largest size class, whose
    caches hold one or two chunks. *)

Definition os1 : OsEnv := mkOsEnv 12 (fun beg _ => beg) (fun n => 1 + Z.of_nat n).
Definition ie1 : InitEnv := mkInitEnv 192 (fun _ => 0x700000000000) (fun beg _ => Done beg).
Notation DefaultMap := DefaultSizeClassMap.

Definition st1 : Primary := @mkPrimary 0 false 0 (fun _ => region0) (fun _ _ => 0).
Definition w0 : System := fresh_system st1.
Notation alloc1 s := (@sys_Allocate DefaultMap AP64 os1 1 52 s).
Notation free1 p s := (@sys_Deallocate DefaultMap AP64 os1 1 52 p s).

Definition after_alloc (o : outcome (Z * System)) : System := match o with Done (_, s) => s | Died _ => w0 end.
Definition after_free (o : outcome (System * list (Z * Z))) : System := match o with Done (s, _) => s | Died _ => w0 end.
Definition answer (o : outcome (Z * System)) : option Z := match o with Done (p, _) => Some p | Died _ => None end.
Definition ranges (o : outcome (System * list (Z * Z))) : option (list (Z * Z)) :=
  match o with Done (_, rs) => Some rs | Died _ => None end.

Lemma answer_done o p : answer o = Some p -> o = Done (p, after_alloc o).
Proof. destruct o as [[? ?]|]; [|done]. by intros [= ->]. Qed.

Lemma ranges_done o rs : ranges o = Some rs -> o = Done (after_free o, rs).
Proof. destruct o as [[? ?]|]; [|done]. by intros [= ->]. Qed.

Definition w1 := after_alloc (alloc1 w0).
Definition w2 := after_alloc (alloc1 w1).
Definition w3 := after_alloc (alloc1 w2).
Definition w4 := after_alloc (alloc1 w3).
Definition chunk1 (k : Z) : Z := 0x700000000000 + 2 ^ 36 * 52 + k * 131072.
Definition w5 := after_free (free1 (chunk1 0) w4).
Definition w6 := after_free (free1 (chunk1 1) w5).
Definition w7 := after_free (free1 (chunk1 2) w6).

Lemma Init1 : @Init DefaultMap AP64 os1 ie1 0 0 = Done st1.
Proof. vm_compute. reflexivity. Qed.

Lemma answers1 : answer (alloc1 w0) = Some (chunk1 0) /\ answer (alloc1 w1) = Some (chunk1 1) /\
  answer (alloc1 w2) = Some (chunk1 2) /\ answer (alloc1 w3) = Some (chunk1 3).
Proof. vm_compute. repeat split. Qed.

Lemma ranges1 : ranges (free1 (chunk1 0) w4) = Some [] /\ ranges (free1 (chunk1 1) w5) = Some [] /\
  ranges (free1 (chunk1 2) w6) = Some [(chunk1 1, chunk1 2)].
Proof. vm_compute. repeat split. Qed.

(** The chunks of the class the program has after a run. *)
Definition has (s : System) (l : list Z) : Prop :=
  rtc (@sys_step DefaultMap AP64) w0 s /\ @sys_ok DefaultMap AP64 s /\
  forall k, @owned DefaultMap s 52 k <-> k ∈ l.

Lemma class52 : 1 <= 52 <= @kLargestClassID DefaultMap.
Proof. vm_compute. split; discriminate. Qed.

Lemma chunk_addr1 k : @chunk_addr DefaultMap AP64 st1 52 k = chunk1 k.
Proof.
  unfold chunk_addr, region_beg, chunk1. change (@SpaceBeg AP64 st1) with 0x700000000000.
  change (@Size DefaultMap 52) with 131072. change (@kRegionSize DefaultMap AP64) with (2 ^ 36). lia.
Qed.

Lemma has_space s l : has s l -> @SpaceBeg AP64 (sys_primary s) = @SpaceBeg AP64 st1.
Proof. reflexivity. Qed.

Lemma has_alloc s l k : has s l -> answer (alloc1 s) = Some (chunk1 k) -> 0 <= k ->
  has (after_alloc (alloc1 s)) (k :: l).
Proof.
  intros (Hr & Hs & Ho) E H0. apply answer_done in E.
  destruct (@allocate_spec DefaultMap _ AP64 _ os1 s 1 52 _ _ class52 Hs E) as (Hs' & _ & Hcase).
  assert (chunk1 k <> 0) as Hne by (unfold chunk1; lia). rewrite (proj2 (Z.eqb_neq _ _) Hne) in Hcase.
  destruct Hcase as (k' & Ek & _ & _ & Hown).
  pose proof (eq_trans Ek (chunk_addr1 k')) as Ek'. assert (k' = k) as -> by (unfold chunk1 in Ek'; lia).
  split; [|split; [exact Hs'|]].
  - eapply rtc_r; [exact Hr|]. eapply sys_step_allocate; [exact class52|exact E].
  - intros j. rewrite (Hown 52 j class52), Ho, elem_of_cons.
    split; [intros [?|E2]; [by right|left; congruence]|intros [->|?]; [by right|by left]].
Qed.

Lemma os1_ok : os_ok os1.
Proof. unfold os_ok. cbn. lia. Qed.

Lemma has_free s l k rs : has s l -> k ∈ l -> ranges (free1 (chunk1 k) s) = Some rs ->
  has (after_free (free1 (chunk1 k) s)) (filter (fun j => j <> k) l).
Proof.
  intros (Hr & Hs & Ho) Hk E. apply ranges_done in E. apply Ho in Hk.
  assert (chunk1 k = @chunk_addr DefaultMap AP64 (sys_primary s) 52 k) as Ea by (symmetry; apply chunk_addr1).
  rewrite Ea in E at 1.
  destruct (@deallocate_spec DefaultMap _ AP64 _ os1 s 1 52 k _ _ class52 Hs os1_ok Hk E) as (Hs' & _ & _ & Hown).
  split; [|split; [exact Hs'|]].
  - eapply rtc_r; [exact Hr|]. eapply sys_step_deallocate; [exact os1_ok|exact class52|exact Hk|exact E].
  - intros j. rewrite (Hown 52 j class52), Ho, list_elem_of_filter.
    split; intros [H1 H2]; split; congruence || done.
Qed.

Lemma has_w0 : has w0 [].
Proof.
  destruct (@Init_ok DefaultMap _ AP64 _ _ _ _ _ eq_refl Init1) as [Hsp Hr].
  split; [done|]. split; [by apply fresh_ok|]. intros k. unfold owned.
  change (nchunks 52 (regions (sys_primary w0) 52)) with 0. split; [lia|]. intros Hk. by apply not_elem_of_nil in Hk.
Qed.

(** The third allocation and the third deallocation, as equations. *)
Lemma third_alloc : answer (alloc1 w2) = Some (chunk1 2) ->
  @sys_Allocate DefaultMap AP64 os1 1 52 w2 = Done (chunk1 2, w3).
Proof. unfold w3. exact (answer_done (alloc1 w2) (chunk1 2)). Qed.

Lemma third_free rs : ranges (free1 (chunk1 2) w6) = Some rs ->
  @sys_Deallocate DefaultMap AP64 os1 1 52 (@chunk_addr DefaultMap AP64 st1 52 2) w6 = Done (w7, rs).
Proof.
  intros E. refine (eq_trans (f_equal (fun p => @sys_Deallocate DefaultMap AP64 os1 1 52 p w6) (chunk_addr1 2)) _).
  unfold w7. exact (ranges_done (free1 (chunk1 2) w6) rs E).
Qed.

#[local] Opaque sys_Allocate sys_Deallocate after_alloc after_free.

Lemma has_w4 : has w2 [1; 0] /\ has w3 [2; 1; 0] /\ has w4 [3; 2; 1; 0].
Proof.
  destruct answers1 as (E0 & E1 & E2 & E3).
  assert (has w1 [0]) as H1 by (unfold w1; exact (has_alloc _ _ 0 has_w0 E0 ltac:(lia))).
  assert (has w2 [1; 0]) as H2 by (unfold w2; exact (has_alloc _ _ 1 H1 E1 ltac:(lia))).
  assert (has w3 [2; 1; 0]) as H3 by (unfold w3; exact (has_alloc _ _ 2 H2 E2 ltac:(lia))).
  assert (has w4 [3; 2; 1; 0]) as H4 by (unfold w4; exact (has_alloc _ _ 3 H3 E3 ltac:(lia))).
  exact (conj H2 (conj H3 H4)).
Qed.

Lemma has_w7 : has w6 [3; 2] /\ has w7 [3].
Proof.
  destruct ranges1 as (E0 & E1 & E2). destruct has_w4 as (_ & _ & H4).
  assert (has w5 [3; 2; 1]) as H5 by (unfold w5; exact (has_free _ _ 0 _ H4 ltac:(in_list) E0)).
  assert (has w6 [3; 2]) as H6 by (unfold w6; exact (has_free _ _ 1 _ H5 ltac:(in_list) E1)).
  assert (has w7 [3]) as H7 by (unfold w7; exact (has_free _ _ 2 _ H6 ltac:(in_list) E2)).
  exact (conj H6 H7).
Qed.

Lemma allocation_is_exclusive_witness :
  exists k, chunk1 2 = @chunk_addr DefaultMap AP64 st1 52 k /\ ~ @owned DefaultMap w2 52 k /\
    @owned DefaultMap w2 52 0 /\ apart (chunk1 2) (@Size DefaultMap 52) (chunk1 0) (@Size DefaultMap 52).
Proof.
  destruct has_w4 as ((Hr & _ & Ho) & _). destruct answers1 as (_ & _ & E2 & _).
  apply third_alloc in E2.
  destruct (@allocation_is_exclusive DefaultMap _ AP64 _ os1 ie1 0 st1 w2 os1 1 52 (chunk1 2) w3
    eq_refl Init1 Hr class52 E2 ltac:(unfold chunk1; lia)) as (k & Ek & _ & _ & Hn & _ & Hap).
  assert (@owned DefaultMap w2 52 0) as H0 by (apply Ho; in_list).
  exists k. split; [exact Ek|]. split; [exact Hn|]. split; [exact H0|].
  rewrite <- (chunk_addr1 0). exact (Hap 52 0 class52 H0).
Defined.

Lemma released_pages_hold_no_live_data_witness :
  ranges (free1 (chunk1 2) w6) = Some [(chunk1 1, chunk1 2)] /\ @owned DefaultMap w7 52 3 /\
  ~ chunk1 3 <= chunk1 1 < chunk1 3 + 131072.
Proof.
  destruct has_w7 as [(Hr & _ & Ho6) (_ & _ & Ho7)]. destruct ranges1 as (_ & _ & E2).
  split; [exact E2|]. apply third_free in E2.
  assert (@owned DefaultMap w7 52 3) as H3 by (apply Ho7; in_list). split; [exact H3|].
  rewrite <- (chunk_addr1 3).
  apply (@released_pages_hold_no_live_data DefaultMap _ AP64 _ os1 ie1 0 st1 w6 os1 1 52 2 w7
    [(chunk1 1, chunk1 2)] (chunk1 1) (chunk1 2) (chunk1 1) 52 3 eq_refl Init1 Hr os1_ok class52);
    [apply Ho6; in_list|exact E2|in_list|unfold chunk1; lia|exact class52|exact H3].
Defined.

Lemma pointer_lookup_exact_witness :
  @GetBlockBegin DefaultMap AP64 (sys_primary w4) (chunk1 1 + 5000) = chunk1 1 /\
  @GetSizeClass DefaultMap AP64 (sys_primary w4) (chunk1 1 + 5000) = 52.
Proof.
  destruct has_w4 as (_ & _ & Hr & _ & Ho). assert (@owned DefaultMap w4 52 1) as [Hin _] by (apply Ho; in_list).
  destruct (@pointer_lookup_exact DefaultMap _ AP64 _ os1 ie1 0 st1 w4 52 1 5000 eq_refl Init1 Hr class52 Hin
    ltac:(split; [lia|reflexivity]) ltac:(discriminate)) as (_ & Hc & Hb & _).
  rewrite chunk_addr1 in Hb, Hc. by split.
Defined.
