(* ===== verification/Secondary.v ===== *)
(** * Secondary: the allocator of large blocks

    [LargeMmapAllocator] of [sanitizer_allocator_secondary.h], with the mapping
    functions of [sanitizer_posix.cpp] it calls.  A block is a mapping of its own:
    a page for the header, then the block.  The headers of the live blocks are in
    an array, which is sorted lazily.

    The file shows that a block is never handed out over another one, that a
    pointer is decoded to the block whose mapping holds it, and that the binary
    search of [GetBlockBeginFastLocked] answers what the linear search of
    [GetBlockBegin] does. *)

From Stdlib Require Import Sorted.
From S2P Require Import Prelude Common Arrays LocalCache.

(** ** Definitions *)

(** *** Mapping *)

(** What the system answers: the raw result of mmap for a size, whether the array
    of chunks can be extended, whether the optional limit on mapped memory allows
    a size. *)
Record MmapEnv := mkMmapEnv {
  internal_mmap : Z -> Z;
  array_MapOrDie : Z -> Z -> outcome unit;
  under_mmap_limit : Z -> bool
}.

Definition ENOMEM : Z := 12.

(** The result, if an error, is minus the error number. *)
Definition internal_iserror (retval : Z) : option Z :=
  if 2 ^ 64 - 4095 <=? retval then Some (0 -64 retval) else None.

Class SecondaryParams := { page_size_ : Z; static_array : bool }.

(** The statistics of a thread's cache are [AllocatorStats]; a block of this
    allocator counts as mapped too. *)
Definition stats_Sub_mapped (s : AllocatorStats) (v : Z) : AllocatorStats :=
  mkStats (AllocatorStatAllocated s) (AllocatorStatMapped s -64 v).

Record Header := mkHeader { map_beg : Z; map_size : Z; h_size : Z; chunk_idx : Z }.

Record LargeStats := mkLargeStats {
  n_allocs : Z;
  n_frees : Z;
  currently_allocated : Z;
  max_allocated : Z;
  by_size_log : Z -> Z
}.

(** The headers lie in memory, at the addresses the array holds. *)
Record Large := mkLarge {
  chunks_ : Z -> Z;
  n_chunks_ : Z;
  chunks_sorted_ : bool;
  n_reserved_ : Z;
  headers : Z -> Header;
  large_stats : LargeStats
}.

Section secondary.
Context `{SecondaryParams}.

Definition MmapOrDieOnFatalError (env : MmapEnv) (size : Z) : outcome Z :=
  size ← RoundUpTo size page_size_;
  let res := internal_mmap env size in
  match internal_iserror res with
  | Some reserrno => if reserrno =? ENOMEM then mret 0 else Died "mmap failed"
  | None => _ ← check (under_mmap_limit env size) "RAW_CHECK"; mret res
  end.

Definition kMaxNumChunks : Z := if static_array then 2 ^ 15 else 2 ^ 20.
Definition kChunksBlockCount : Z := 2 ^ 14.

(** How much of the dynamic array is mapped, after the call. *)
Definition EnsureSpace (env : MmapEnv) (n_reserved n : Z) : outcome Z :=
  _ ← check (n <? kMaxNumChunks) "CHECK_LT";
  if static_array then mret n_reserved else
  if n =? n_reserved then
    _ ← array_MapOrDie env (n_reserved *64 8) (kChunksBlockCount *64 8);
    mret (n_reserved + kChunksBlockCount)
  else mret n_reserved.

Definition RoundUpMapSize (size : Z) : outcome Z :=
  r ← RoundUpTo size page_size_; mret (r +64 page_size_).

Definition GetHeader (p : Z) : outcome Z :=
  _ ← check (IsAligned p page_size_) "CHECK"; mret (p -64 page_size_).

Definition GetUser (h : Z) : outcome Z :=
  _ ← check (IsAligned h page_size_) "CHECK"; mret (h +64 page_size_).

Definition set_chunk_idx (h : Header) (idx : Z) : Header :=
  mkHeader (map_beg h) (map_size h) (h_size h) idx.

Definition stats_allocated (s : LargeStats) (map_size size_log : Z) : LargeStats :=
  let current := currently_allocated s +64 map_size in
  mkLargeStats (n_allocs s +64 1) (n_frees s) current (Max (max_allocated s) current)
    (upd (by_size_log s) size_log (by_size_log s size_log +64 1)).

Definition stats_freed (s : LargeStats) (map_size : Z) : LargeStats :=
  mkLargeStats (n_allocs s) (n_frees s +64 1) (currently_allocated s -64 map_size) (max_allocated s)
    (by_size_log s).

(** The block, or 0, and the state and the caller's statistics. *)
Definition large_Allocate (env : MmapEnv) (st : Large) (stat : AllocatorStats) (size alignment : Z)
    : outcome (Z * Large * AllocatorStats) :=
  _ ← check (IsPowerOfTwo alignment) "CHECK";
  map_size ← RoundUpMapSize size;
  let map_size := if page_size_ <? alignment then map_size +64 alignment else map_size in
  if map_size <? size then mret (0, st, stat) else
  map_beg ← MmapOrDieOnFatalError env map_size;
  if map_beg =? 0 then mret (0, st, stat) else
  _ ← check (IsAligned map_beg page_size_) "CHECK";
  let map_end := map_beg +64 map_size in
  let res := map_beg +64 page_size_ in
  let res := if negb (Z.land res (alignment -64 1) =? 0)
             then res +64 (alignment -64 Z.land res (alignment -64 1)) else res in
  _ ← check (IsAligned res alignment) "CHECK";
  _ ← check (IsAligned res page_size_) "CHECK";
  _ ← check (map_beg <=? res +64 size) "CHECK_GE";
  _ ← check (res +64 size <=? map_end) "CHECK_LE";
  h ← GetHeader res;
  size_log ← MostSignificantSetBitIndex map_size;
  _ ← check (size_log <? 64) "CHECK_LT";
  n_reserved ← EnsureSpace env (n_reserved_ st) (n_chunks_ st);
  let idx := n_chunks_ st in
  mret (res,
    mkLarge (upd (chunks_ st) idx h) (idx + 1) false n_reserved
      (upd (headers st) h (mkHeader map_beg map_size size idx))
      (stats_allocated (large_stats st) map_size size_log),
    stats_Add_mapped (stats_Add_allocated stat map_size) map_size).

(** The state, the caller's statistics, and the range that is unmapped. *)
Definition large_Deallocate (st : Large) (stat : AllocatorStats) (p : Z)
    : outcome (Large * AllocatorStats * (Z * Z)) :=
  h ← GetHeader p;
  let idx := chunk_idx (headers st h) in
  _ ← check (chunks_ st idx =? h) "CHECK_EQ";
  _ ← check (idx <? n_chunks_ st) "CHECK_LT";
  let n := n_chunks_ st - 1 in
  let last := chunks_ st n in
  let hs := upd (headers st) last (set_chunk_idx (headers st last) idx) in
  let size := map_size (hs h) in
  mret (mkLarge (upd (chunks_ st) idx last) n false (n_reserved_ st) hs (stats_freed (large_stats st) size),
        stats_Sub_mapped (stats_Sub_allocated stat size) size, (map_beg (hs h), size)).

(** The loop, from index [0]. *)
Fixpoint large_total (is_ : list Z) (st : Large) (res : Z) : outcome Z :=
  match is_ with
  | [] => mret res
  | i :: is_ =>
      let h := headers st (chunks_ st i) in
      _ ← check (chunk_idx h =? i) "CHECK_EQ";
      r ← RoundUpMapSize (h_size h);
      large_total is_ st (res +64 r)
  end.

Definition large_TotalMemoryUsed (st : Large) : outcome Z := large_total (zrange (n_chunks_ st)) st 0.

(** The nearest header not above [p]. *)
Definition nearer (st : Large) (p nearest_chunk i : Z) : Z :=
  let ch := chunks_ st i in
  if p <? ch then nearest_chunk
  else if p -64 ch <? p -64 nearest_chunk then ch else nearest_chunk.

Definition large_GetBlockBegin (st : Large) (p : Z) : outcome Z :=
  let nearest_chunk := fold_left (nearer st p) (zrange (n_chunks_ st)) 0 in
  if nearest_chunk =? 0 then mret 0 else
  let h := headers st nearest_chunk in
  _ ← check (map_beg h <=? nearest_chunk) "CHECK_GE";
  _ ← check (nearest_chunk <? map_beg h +64 map_size h) "CHECK_LT";
  _ ← check (nearest_chunk <=? p) "CHECK_LE";
  if map_beg h +64 map_size h <=? p then mret 0 else GetUser nearest_chunk.

Definition large_PointerIsMine (st : Large) (p : Z) : outcome bool :=
  b ← large_GetBlockBegin st p; mret (negb (b =? 0)).

Definition large_GetActuallyAllocatedSize (st : Large) (p : Z) : outcome Z :=
  h ← GetHeader p; RoundUpTo (h_size (headers st h)) page_size_.

(** The metadata follow the header, four words. *)
Definition large_GetMetaData (p : Z) : outcome Z :=
  _ ← check (IsAligned p page_size_) "CHECK";
  h ← GetHeader p; mret (h +64 32).

Definition EnsureSortedChunks (st : Large) : Large :=
  if chunks_sorted_ st then st else
  let chunks := Sort Z.ltb (chunks_ st) (n_chunks_ st) in
  mkLarge chunks (n_chunks_ st) true (n_reserved_ st)
    (fold_left (fun hs i => upd hs (chunks i) (set_chunk_idx (hs (chunks i)) i)) (zrange (n_chunks_ st))
       (headers st))
    (large_stats st).

(** The binary search; the interval shrinks at each iteration. *)
Fixpoint fast_search (fuel : nat) (chunks : Z -> Z) (p beg end_ : Z) : Z * Z :=
  match fuel with
  | O => (beg, end_)
  | S fuel =>
      if 2 <=? end_ - beg then
        let mid := (beg + end_) / 2 in
        if p <? chunks mid then fast_search fuel chunks p beg (mid - 1)
        else fast_search fuel chunks p mid end_
      else (beg, end_)
  end.

(** The block and the state, with its chunks sorted. *)
Definition large_GetBlockBeginFastLocked (st : Large) (p : Z) : outcome (Z * Large) :=
  let n := n_chunks_ st in
  if n =? 0 then mret (0, st) else
  let st := EnsureSortedChunks st in
  let chunks := chunks_ st in
  let min_mmap_ := chunks 0 in
  let max_mmap_ := chunks (n - 1) +64 map_size (headers st (chunks (n - 1))) in
  if (p <? min_mmap_) || (max_mmap_ <=? p) then mret (0, st) else
  let '(beg, end_) := fast_search (Z.to_nat n) chunks p 0 (n - 1) in
  beg ← (if beg <? end_ then
           _ ← check (beg + 1 =? end_) "CHECK_EQ";
           mret (if chunks end_ <=? p then end_ else beg)
         else mret beg);
  let h := headers st (chunks beg) in
  if (map_beg h +64 map_size h <=? p) || (p <? map_beg h) then mret (0, st) else
  u ← GetUser (chunks beg); mret (u, st).

(** The blocks the callback gets, in order. *)
Fixpoint visit_chunks (is_ : list Z) (st : Large) : outcome (list Z) :=
  match is_ with
  | [] => mret []
  | i :: is_ =>
      u ← GetUser (chunks_ st i);
      _ ← check (chunk_idx (headers st (chunks_ st i)) =? i) "CHECK_EQ";
      us ← visit_chunks is_ st;
      mret (u :: us)
  end.

Definition large_ForEachChunk (st : Large) : outcome (list Z * Large) :=
  let st := EnsureSortedChunks st in
  us ← visit_chunks (zrange (n_chunks_ st)) st; mret (us, st).
End secondary.

Definition large0 : Large :=
  mkLarge (fun _ => 0) 0 false 0 (fun _ => mkHeader 0 0 0 0) (mkLargeStats 0 0 0 0 (fun _ => 0)).

(** ** The invariant *)

Class SecondaryOk (P : SecondaryParams) := {
  page_log : Z;
  page_log_range : 12 <= page_log <= 30;
  page_pow2 : page_size_ = 2 ^ page_log
}.

Section invariant.
Context `{P : SecondaryParams, !SecondaryOk P}.
Implicit Types st : Large.
Notation page := page_size_.

Definition extent (h : Header) : Z * Z * Z := (map_beg h, map_size h, h_size h).

(** A block: its address, its mapping and its size. *)
Definition large_block st (p : Z) (b : Z * Z * Z) : Prop :=
  exists i, 0 <= i < n_chunks_ st /\ p = chunks_ st i + page /\ extent (headers st (chunks_ st i)) = b.

(** The header page and the block lie inside the mapping. *)
Record header_ok (h : Header) (c : Z) : Prop := {
  ho_beg : 0 < map_beg h <= c;
  ho_page : (page | c);
  ho_size : 0 <= h_size h;
  ho_fits : c + page + h_size h <= map_beg h + map_size h;
  ho_end : map_beg h + map_size h < 2 ^ 63;
  ho_map : (page | map_beg h + map_size h)
}.

Definition map_of st (i : Z) : Header := headers st (chunks_ st i).
Definition maps_apart (h g : Header) : Prop := apart (map_beg h) (map_size h) (map_beg g) (map_size g).

Record large_ok st : Prop := {
  lo_n : 0 <= n_chunks_ st <= kMaxNumChunks;
  lo_reserved : static_array = false -> n_chunks_ st <= n_reserved_ st;
  lo_idx i : 0 <= i < n_chunks_ st -> chunk_idx (map_of st i) = i;
  lo_header i : 0 <= i < n_chunks_ st -> header_ok (map_of st i) (chunks_ st i);
  lo_apart i j : 0 <= i < n_chunks_ st -> 0 <= j < n_chunks_ st -> i <> j -> maps_apart (map_of st i) (map_of st j);
  lo_sorted i j : chunks_sorted_ st = true -> 0 <= i < j -> j < n_chunks_ st -> chunks_ st i < chunks_ st j
}.

Lemma page_range : 2 ^ 12 <= page <= 2 ^ 30.
Proof. rewrite page_pow2. pose proof page_log_range. split; apply Z.pow_le_mono_r; lia. Qed.

Lemma page_aligned a : IsAligned a page = (a mod page =? 0).
Proof. rewrite page_pow2. apply IsAligned_spec. pose proof page_log_range. lia. Qed.

Lemma page_aligned_divide a : (page | a) -> IsAligned a page = true.
Proof. intros Hd. rewrite page_aligned. apply Z.eqb_eq, Z.mod_divide; [|done]. pose proof page_range. lia. Qed.

Lemma large0_ok : large_ok large0.
Proof. split; cbn; try lia; try done. unfold kMaxNumChunks. destruct static_array; lia. Qed.

(** Where chunk [i] is, as numbers. *)
Lemma chunk_place st i : large_ok st -> 0 <= i < n_chunks_ st ->
  0 < map_beg (map_of st i) <= chunks_ st i /\ chunks_ st i + page <= map_beg (map_of st i) + map_size (map_of st i) /\
  map_beg (map_of st i) + map_size (map_of st i) < 2 ^ 63 /\ (page | chunks_ st i).
Proof. intros Hok Hi. destruct (lo_header st Hok i Hi). split_and!; try done; lia. Qed.

(** A header address is in no mapping but its own. *)
Lemma chunk_in_mapping st i j : large_ok st -> 0 <= i < n_chunks_ st -> 0 <= j < n_chunks_ st ->
  map_beg (map_of st j) <= chunks_ st i < map_beg (map_of st j) + map_size (map_of st j) -> i = j.
Proof.
  intros Hok Hi Hj Hin. destruct (Z.eq_dec i j) as [|Hne]; [done|].
  pose proof (lo_apart st Hok i j Hi Hj Hne) as Ha. unfold maps_apart, apart in Ha.
  pose proof (chunk_place st i Hok Hi). pose proof page_range. lia.
Qed.

Lemma chunks_distinct st i j : large_ok st -> 0 <= i < n_chunks_ st -> 0 <= j < n_chunks_ st ->
  chunks_ st i = chunks_ st j -> i = j.
Proof.
  intros Hok Hi Hj E. apply (chunk_in_mapping st i j Hok Hi Hj). rewrite E.
  pose proof (chunk_place st j Hok Hj). pose proof page_range. lia.
Qed.

Lemma GetUser_chunk st i : large_ok st -> 0 <= i < n_chunks_ st -> GetUser (chunks_ st i) = Done (chunks_ st i + page).
Proof.
  intros Hok Hi. destruct (chunk_place st i Hok Hi) as (H1 & H2 & H3 & H4). unfold GetUser.
  rewrite page_aligned_divide by done. cbn. pose proof page_range. by rewrite u64_small by lia.
Qed.

Lemma GetHeader_block p : (page | p) -> page <= p < 2 ^ 64 -> GetHeader p = Done (p - page).
Proof.
  intros Hd Hp. unfold GetHeader. rewrite page_aligned_divide by done. cbn. pose proof page_range.
  by rewrite u64_small by lia.
Qed.

(** A state whose chunks are some of the chunks of another one, renumbered. *)
Lemma renumber_ok st st' (f : Z -> Z) :
  large_ok st -> 0 <= n_chunks_ st' <= n_chunks_ st -> n_reserved_ st' = n_reserved_ st ->
  (forall i, 0 <= i < n_chunks_ st' -> 0 <= f i < n_chunks_ st) ->
  (forall i j, 0 <= i < n_chunks_ st' -> 0 <= j < n_chunks_ st' -> f i = f j -> i = j) ->
  (forall i, 0 <= i < n_chunks_ st' -> chunks_ st' i = chunks_ st (f i)) ->
  (forall i, 0 <= i < n_chunks_ st' -> map_of st' i = set_chunk_idx (map_of st (f i)) i) ->
  (forall i j, chunks_sorted_ st' = true -> 0 <= i < j -> j < n_chunks_ st' -> chunks_ st' i < chunks_ st' j) ->
  large_ok st' /\
  forall p b, large_block st' p b <->
    exists i, 0 <= i < n_chunks_ st' /\ p = chunks_ st (f i) + page /\ extent (map_of st (f i)) = b.
Proof.
  intros Hok Hn Hr Hf Hinj Hc Hm Hs. split; [split|].
  - pose proof (lo_n st Hok). lia.
  - intros Hst. rewrite Hr. pose proof (lo_reserved st Hok Hst). lia.
  - intros i Hi. by rewrite Hm.
  - intros i Hi. rewrite Hm, Hc by done. destruct (lo_header st Hok (f i) (Hf i Hi)). by split.
  - intros i j Hi Hj Hne. rewrite !Hm by done.
    apply (lo_apart st Hok (f i) (f j)); [by apply Hf|by apply Hf|]. intros E. apply Hne. by apply Hinj.
  - done.
  - intros p b. unfold large_block. fold (map_of st').
    split; intros (i & Hi & Hp & Hb); exists i; rewrite Hc in * by done;
      (split; [done|]; split; [done|]); rewrite <- Hb.
    + rewrite <- (Hc i Hi). fold (map_of st' i). by rewrite Hm.
    + rewrite <- (Hc i Hi). fold (map_of st' i). by rewrite Hm.
Qed.

(** *** Lookup *)

Lemma nearest_spec st p n :
  0 <= p < 2 ^ 64 -> 0 <= n -> (forall i, 0 <= i < n -> 0 < chunks_ st i) ->
  let r := fold_left (nearer st p) (zrange n) 0 in
  (r = 0 /\ forall i, 0 <= i < n -> p < chunks_ st i) \/
  (exists i, 0 <= i < n /\ r = chunks_ st i /\ r <= p /\
     forall j, 0 <= j < n -> chunks_ st j <= p -> chunks_ st j <= r).
Proof.
  intros Hp Hn Hpos. unfold zrange.
  assert (forall m : nat, Z.of_nat m <= n ->
    let r := fold_left (nearer st p) (map Z.of_nat (seq 0 m)) 0 in
    (r = 0 /\ forall i, 0 <= i < Z.of_nat m -> p < chunks_ st i) \/
    (exists i, 0 <= i < Z.of_nat m /\ r = chunks_ st i /\ r <= p /\
       forall j, 0 <= j < Z.of_nat m -> chunks_ st j <= p -> chunks_ st j <= r)) as Hind.
  { induction m as [|m IH]; intros Hm; cbv zeta in *.
    - left. split; [done|lia].
    - rewrite seq_S, map_app, fold_left_app. cbn [map fold_left]. rewrite Nat.add_0_l.
      specialize (IH ltac:(lia)). set (r := fold_left _ _ 0) in *. clearbody r.
      pose proof (Hpos (Z.of_nat m) ltac:(lia)) as Hm0. unfold nearer.
      assert (forall j, 0 <= j < Z.of_nat (S m) -> j = Z.of_nat m \/ 0 <= j < Z.of_nat m) as Hj by lia.
      destruct (Z.ltb_spec p (chunks_ st (Z.of_nat m))) as [Hlt|Hge].
      + destruct IH as [[-> Hall]|(i & Hi & E & Hr & Hmax)]; [left|right].
        * split; [done|]. intros j [->|Hj']%Hj; [done|by apply Hall].
        * exists i. split; [lia|]. split; [done|]. split; [done|].
          intros j [->|Hj']%Hj Hle; [lia|by apply Hmax].
      + right. assert (0 <= r <= p) as Hrp.
        { destruct IH as [[-> _]|(i & Hi & -> & Hr & _)]; [lia|]. pose proof (Hpos i ltac:(lia)). lia. }
        rewrite !u64_small by lia. destruct (Z.ltb_spec (p - chunks_ st (Z.of_nat m)) (p - r)) as [Hnear|Hfar].
        * exists (Z.of_nat m). split; [lia|]. split; [done|]. split; [lia|]. intros j [->|Hj']%Hj Hle; [lia|].
          destruct IH as [[-> Hall]|(i & Hi & E & Hr & Hmax)]; [specialize (Hall j Hj'); lia|].
          specialize (Hmax j Hj' Hle). lia.
        * destruct IH as [[-> Hall]|(i & Hi & E & Hr & Hmax)]; [lia|]. exists i. split; [lia|].
          split; [done|]. split; [done|]. intros j [->|Hj']%Hj Hle; [lia|by apply Hmax]. }
  specialize (Hind (Z.to_nat n)). rewrite Z2Nat.id in Hind by done. by apply Hind.
Qed.

(** [p] is in the mapping of chunk [i], at its header or after. *)
Definition holds st (i p : Z) : Prop :=
  0 <= i < n_chunks_ st /\ chunks_ st i <= p < map_beg (map_of st i) + map_size (map_of st i).

Lemma holds_once st i j p : large_ok st -> holds st i p -> holds st j p -> i = j.
Proof.
  intros Hok [Hi Hip] [Hj Hjp]. destruct (Z.eq_dec i j) as [|Hne]; [done|].
  pose proof (lo_apart st Hok i j Hi Hj Hne) as Ha. unfold maps_apart, apart in Ha.
  pose proof (chunk_place st i Hok Hi). pose proof (chunk_place st j Hok Hj). lia.
Qed.

(** If the nearest header does not hold [p], none does. *)
Lemma nearest_holds st i p : large_ok st -> 0 <= i < n_chunks_ st -> chunks_ st i <= p ->
  (forall j, 0 <= j < n_chunks_ st -> chunks_ st j <= p -> chunks_ st j <= chunks_ st i) ->
  map_beg (map_of st i) + map_size (map_of st i) <= p -> forall j, ~ holds st j p.
Proof.
  intros Hok Hi Hip Hmax Hend j [Hj Hjp]. specialize (Hmax j Hj ltac:(lia)).
  assert (i = j) as -> by (apply (chunk_in_mapping st i j Hok Hi Hj); pose proof (chunk_place st j Hok Hj); lia).
  lia.
Qed.

(** What a lookup answers. *)
Definition lookup_answer st (p r : Z) : Prop :=
  (exists i, holds st i p /\ r = chunks_ st i + page) \/ ((forall i, ~ holds st i p) /\ r = 0).

Lemma lookup_answer_once st p r r' : large_ok st -> lookup_answer st p r -> lookup_answer st p r' -> r = r'.
Proof.
  intros Hok [(i & Hi & ->)|[Hn ->]] [(j & Hj & ->)|[Hn' ->]]; try done.
  - by rewrite (holds_once st i j p).
  - by apply Hn' in Hi.
  - by apply Hn in Hj.
Qed.

Lemma GetBlockBegin_lookup st p : large_ok st -> 0 <= p < 2 ^ 64 ->
  exists r, large_GetBlockBegin st p = Done r /\ lookup_answer st p r.
Proof.
  intros Hok Hp. unfold large_GetBlockBegin.
  destruct (nearest_spec st p (n_chunks_ st) Hp) as [[-> Hall]|(i & Hi & -> & Hr & Hmax)].
  - apply Hok.
  - intros i Hi. pose proof (chunk_place st i Hok Hi). lia.
  - exists 0. split; [done|]. right. split; [|done]. intros i [Hi Hip]. specialize (Hall i Hi). lia.
  - destruct (chunk_place st i Hok Hi) as (H1 & H2 & H3 & H4). pose proof page_range.
    rewrite (proj2 (Z.eqb_neq _ 0)) by lia. fold (map_of st i). rewrite u64_small by lia.
    rewrite (proj2 (Z.leb_le (map_beg _) (chunks_ st i))), (proj2 (Z.ltb_lt _ _)), (proj2 (Z.leb_le (chunks_ st i) p)) by lia.
    cbn [check mbind outcome_bind].
    destruct (Z.leb_spec (map_beg (map_of st i) + map_size (map_of st i)) p) as [Hend|Hin].
    + exists 0. split; [done|]. right. split; [|done]. by apply (nearest_holds st i).
    + exists (chunks_ st i + page). split; [by apply GetUser_chunk|]. left. exists i. split; [|done]. split; [done|lia].
Qed.

Lemma EnsureSorted_ok st : large_ok st ->
  let st' := EnsureSortedChunks st in
  large_ok st' /\ chunks_sorted_ st' = true /\ n_chunks_ st' = n_chunks_ st /\
  (forall p b, large_block st' p b <-> large_block st p b) /\
  forall p r, lookup_answer st' p r <-> lookup_answer st p r.
Proof.
  intros Hok. unfold EnsureSortedChunks. destruct (chunks_sorted_ st) eqn:Es; [by split_and!|].
  cbv zeta. destruct (Sort_sorts Z.ltb (chunks_ st) (n_chunks_ st)) as [Hperm Hle].
  set (chunks := Sort Z.ltb (chunks_ st) (n_chunks_ st)) in *. clearbody chunks.
  destruct Hperm as (f & g & Hv & Hfg & Hgf & Hf & Hg & _).
  set (n := n_chunks_ st) in *. pose proof (lo_n st Hok) as Hn. fold n in Hn.
  assert (forall i j, 0 <= i < n -> 0 <= j < n -> chunks i = chunks j -> i = j) as Hdist.
  { intros i j Hi Hj E. rewrite !Hv in E.
    apply (chunks_distinct st) in E; [|done|by apply Hf|by apply Hf]. rewrite <- (Hgf i), <- (Hgf j). by rewrite E. }
  set (hs := fold_left _ (zrange n) (headers st)).
  assert (forall i, 0 <= i < n -> hs (chunks i) = set_chunk_idx (map_of st (f i)) i) as Hhs.
  { unfold hs, zrange. assert (forall m : nat, Z.of_nat m <= n -> forall i, 0 <= i < n ->
      fold_left (fun hs i => upd hs (chunks i) (set_chunk_idx (hs (chunks i)) i)) (map Z.of_nat (seq 0 m)) (headers st) (chunks i)
      = if i <? Z.of_nat m then set_chunk_idx (map_of st (f i)) i else map_of st (f i)) as Hind.
    { induction m as [|m IH]; intros Hm i Hi.
      - cbn [seq map fold_left]. rewrite (proj2 (Z.ltb_ge i (Z.of_nat 0))) by lia. unfold map_of. by rewrite Hv.
      - rewrite seq_S, map_app, fold_left_app. cbn [map fold_left]. rewrite Nat.add_0_l. unfold upd at 1.
        destruct (Z.eqb_spec (chunks i) (chunks (Z.of_nat m))) as [E|Hne].
        + apply Hdist in E; [|lia|lia]. subst i. rewrite IH by lia.
          rewrite (proj2 (Z.ltb_ge _ _)), (proj2 (Z.ltb_lt _ _)) by lia. done.
        + rewrite IH by lia. assert (i <> Z.of_nat m) by congruence. zcase; done || lia. }
    intros i Hi. rewrite Hind by lia. by rewrite (proj2 (Z.ltb_lt _ _)) by lia. }
  set (st' := mkLarge _ _ _ _ _ _).
  destruct (renumber_ok st st' f) as [Hok' Hb]; try done.
  - cbn. fold n. lia.
  - intros i j _ _ E. rewrite <- (Hgf i), <- (Hgf j). by rewrite E.
  - intros i j _ Hij Hj. cbn in Hj |- *. specialize (Hle i j ltac:(lia) ltac:(lia)). unfold le in Hle.
    apply Z.ltb_ge in Hle. assert (chunks i <> chunks j) by (intros E; apply Hdist in E; lia). lia.
  - split; [done|]. split; [done|]. split; [done|]. split.
    + intros p b. rewrite Hb. cbn [n_chunks_ st']. fold n. split.
      * intros (i & Hi & Hp & Hx). exists (f i). split; [by apply Hf|done].
      * intros (i & Hi & Hp & Hx). exists (g i). rewrite Hfg. split; [by apply Hg|done].
    + assert (forall i p, holds st' i p <-> 0 <= i < n /\ holds st (f i) p) as Hh.
      { intros i p. unfold holds. cbn [n_chunks_ st' chunks_]. fold n. unfold map_of at 1 2. cbn [headers st' chunks_].
        split; intros [Hi H2]; split; try done.
        - rewrite Hhs, Hv in H2 by done. split; [by apply Hf|done].
        - rewrite Hhs, Hv by done. apply H2. }
      intros p r. unfold lookup_answer. setoid_rewrite Hh. cbn [chunks_ st']. setoid_rewrite Hv. split.
      * intros [(i & [Hi H1] & H2)|[H1 H2]]; [left; by exists (f i)|right]. split; [|done].
        intros i Hi. apply (H1 (g i)). rewrite Hfg. split; [apply Hg, Hi|done].
      * intros [(i & H1 & H2)|[H1 H2]]; [left; exists (g i); rewrite Hfg|right].
        { split; [|done]. split; [apply Hg, H1|done]. }
        split; [|done]. intros i [Hi Hx]. by apply H1 in Hx.
Qed.

Lemma fast_search_spec chunks p n : forall fuel beg end_,
  (forall i j, 0 <= i < j -> j < n -> chunks i < chunks j) ->
  0 <= beg <= end_ -> end_ < n -> end_ - beg <= Z.of_nat fuel ->
  chunks beg <= p -> (forall j, end_ < j < n -> p < chunks j) ->
  let '(b, e) := fast_search fuel chunks p beg end_ in
  0 <= b <= e /\ e < n /\ e - b < 2 /\ chunks b <= p /\ forall j, e < j < n -> p < chunks j.
Proof.
  induction fuel as [|fuel IH]; intros beg end_ Hs Hb He Hf Hlo Hhi; cbn [fast_search].
  { split_and!; try done; lia. }
  destruct (Z.leb_spec 2 (end_ - beg)) as [Hge|Hlt]; [|split_and!; try done; lia].
  pose proof (Z.div_mod (beg + end_) 2). pose proof (Z.mod_pos_bound (beg + end_) 2).
  set (mid := (beg + end_) / 2) in *. destruct (Z.ltb_spec p (chunks mid)) as [Hm|Hm].
  - apply IH; try done; try lia. intros j Hj. destruct (Z.eq_dec j mid) as [->|]; [done|].
    destruct (Z.lt_ge_cases j mid); [lia|]. pose proof (Hs mid j). lia.
  - by apply IH; try lia.
Qed.

Lemma FastLocked_lookup st p : large_ok st -> 0 <= p < 2 ^ 64 ->
  exists r st', large_GetBlockBeginFastLocked st p = Done (r, st') /\ lookup_answer st p r /\ large_ok st' /\
    forall q b, large_block st' q b <-> large_block st q b.
Proof.
  intros Hok Hp. unfold large_GetBlockBeginFastLocked. destruct (Z.eqb_spec (n_chunks_ st) 0) as [E0|H0].
  { exists 0, st. split; [done|]. split; [|done]. right. split; [|done]. intros i [Hi _]. lia. }
  destruct (EnsureSorted_ok st Hok) as (Hok1 & Hs1 & En & Hb & Ha). cbv zeta.
  rewrite <- En in H0 |- *. set (s := EnsureSortedChunks st) in *. clearbody s.
  setoid_rewrite <- Ha. setoid_rewrite <- Hb. clear Ha Hb En Hok st.
  pose proof (lo_n s Hok1) as Hn. set (n := n_chunks_ s) in *.
  assert (forall i j, 0 <= i < j -> j < n -> chunks_ s i < chunks_ s j) as Hs by (intros i j; by apply lo_sorted).
  assert (forall i, 0 <= i < n -> 0 < map_beg (map_of s i) <= chunks_ s i /\
    chunks_ s i + page <= map_beg (map_of s i) + map_size (map_of s i) /\
    map_beg (map_of s i) + map_size (map_of s i) < 2 ^ 63 /\ (page | chunks_ s i)) as Hpl by (intros i; by apply chunk_place).
  pose proof page_range as Hpage. destruct (Hpl (n - 1) ltac:(lia)) as (L1 & L2 & L3 & _).
  fold (map_of s (n - 1)). rewrite (u64_small (chunks_ s (n - 1) + _)) by lia.
  set (max := chunks_ s (n - 1) + map_size (map_of s (n - 1))).
  assert (large_ok s /\ forall q b, large_block s q b <-> large_block s q b) as Hkeep by done.
  destruct (Z.ltb_spec p (chunks_ s 0)) as [Hmin|Hmin].
  { exists 0, s. split; [done|]. split; [|done]. right. split; [|done]. intros i [Hi Hip]. fold n in Hi.
    destruct (Z.eq_dec i 0) as [->|]; [lia|]. pose proof (Hs 0 i). lia. }
  destruct (Z.leb_spec max p) as [Hmax|Hmax]; cbn [orb].
  { exists 0, s. split; [done|]. split; [|done]. right. split; [|done]. apply (nearest_holds s (n - 1)); [done|fold n; lia| | |].
    - lia.
    - intros j Hj _. fold n in Hj. destruct (Z.eq_dec j (n - 1)) as [->|]; [done|]. pose proof (Hs j (n - 1)). lia.
    - lia. }
  pose proof (fast_search_spec (chunks_ s) p n (Z.to_nat n) 0 (n - 1) Hs) as Hfs.
  destruct (fast_search (Z.to_nat n) (chunks_ s) p 0 (n - 1)) as [b e].
  destruct Hfs as (Hbe & Hen & Hd & Hlo & Hhi); [lia|lia|lia|done|lia|].
  set (k := if (b <? e) && (chunks_ s e <=? p) then e else b).
  assert ((if b <? e then _ ← check (b + 1 =? e) "CHECK_EQ"; mret (if chunks_ s e <=? p then e else b)
           else mret b) = Done k) as ->.
  { unfold k. destruct (Z.ltb_spec b e); [|done]. by rewrite (proj2 (Z.eqb_eq _ _)) by lia. }
  assert (0 <= k < n /\ chunks_ s k <= p /\ forall j, 0 <= j < n -> chunks_ s j <= p -> chunks_ s j <= chunks_ s k)
    as (Hk & Hkp & Hkmax).
  { unfold k. destruct (Z.ltb_spec b e), (Z.leb_spec (chunks_ s e) p); cbn [andb];
      (split; [lia|]; split; [done|]); intros j Hj Hjp.
    all: match goal with |- _ <= chunks_ _ ?x => destruct (Z.lt_trichotomy j x) as [Hlt|[->|Hgt]];
      [pose proof (Hs j x); lia|lia|] end.
    all: destruct (Z.lt_ge_cases e j); [pose proof (Hhi j); lia|]; try (assert (j = e) as -> by lia; lia); lia. }
  cbn [mbind outcome_bind]. destruct (Hpl k Hk) as (K1 & K2 & K3 & K4).
  fold (map_of s k). rewrite u64_small by lia. rewrite (proj2 (Z.ltb_ge p _)) by lia. rewrite orb_false_r.
  destruct (Z.leb_spec (map_beg (map_of s k) + map_size (map_of s k)) p) as [Hend|Hin].
  - exists 0, s. split; [done|]. split; [|done]. right. split; [|done]. by apply (nearest_holds s k).
  - rewrite GetUser_chunk by done. exists (chunks_ s k + page), s. split; [done|]. split; [|done].
    left. exists k. split; [|done]. split; [done|lia].
Qed.

(** *** Allocation *)

(** The mapping is page aligned and fresh, in the lower half of the address space. *)
Definition mmap_law env st : Prop :=
  forall size, 0 < size -> (page | size) -> let a := internal_mmap env size in
  internal_iserror a = None -> a <> 0 ->
  0 < a /\ (page | a) /\ a + size < 2 ^ 63 /\
  forall i, 0 <= i < n_chunks_ st -> apart a size (map_beg (map_of st i)) (map_size (map_of st i)).

Lemma RoundUp_page x : 0 <= x < 2 ^ 64 ->
  exists r, RoundUpTo x page = Done r /\ (page | r) /\
    (x <= r < x + page /\ r < 2 ^ 64 \/ r = 0 /\ 2 ^ 64 - page < x).
Proof.
  intros Hx. rewrite page_pow2. pose proof page_log_range as Hl. set (k := page_log) in *.
  destruct (Z.lt_ge_cases (x + 2 ^ k - 1) (2 ^ 64)) as [Hs|Hs].
  - eexists. split; [apply RoundUpTo_spec; lia|].
    pose proof (RoundUpTo_bounds x k _ ltac:(lia) ltac:(lia) Hs (RoundUpTo_spec x k ltac:(lia) ltac:(lia) Hs)) as (H1 & H2 & H3).
    split; [done|]. left. lia.
  - exists 0. split; [apply RoundUpTo_wraps; lia|]. split; [apply Z.divide_0_r|]. right. lia.
Qed.

Lemma page_divides_pow k : page < 2 ^ k -> 0 <= k -> (page | 2 ^ k).
Proof.
  rewrite page_pow2. intros Hlt Hk. pose proof page_log_range. apply (Z.pow_lt_mono_r_iff 2) in Hlt; [|lia|done].
  exists (2 ^ (k - page_log)). rewrite <- Z.pow_add_r by lia. f_equal. lia.
Qed.

(** The size of the mapping, or an overflow the code sees. *)
Lemma map_size_cases size k :
  0 <= k < 64 -> 0 <= size < 2 ^ 64 ->
  exists r, RoundUpMapSize size = Done r /\
  let m := if page <? 2 ^ k then r +64 2 ^ k else r in
  m < size /\ 2 ^ 64 <= size + 2 * page + 2 ^ k \/
  exists up, (page | up) /\ size <= up < size + page /\ m = up + page + (if page <? 2 ^ k then 2 ^ k else 0) /\
    m < 2 ^ 64 /\ (page | m).
Proof.
  intros Hk Hs. destruct (RoundUp_page size Hs) as (up & E & Hd & Hup). unfold RoundUpMapSize. rewrite E.
  eexists. split; [reflexivity|]. pose proof page_range as Hp.
  assert (0 < 2 ^ k <= 2 ^ 63) as Hk63 by (split; [lia|apply Z.pow_le_mono_r; lia]).
  assert ((page | 2 ^ 64)) as Hp64 by (rewrite page_pow2; exists (2 ^ (64 - page_log)); pose proof page_log_range; rewrite <- Z.pow_add_r by lia; f_equal; lia).
  destruct Hup as [[Hup Hu64]|[-> Hbig]].
  - destruct (Z.lt_ge_cases (up + page) (2 ^ 64)) as [Hw|Hw].
    + rewrite (u64_small (up + page)) by lia. destruct (Z.ltb_spec page (2 ^ k)) as [Hpk|Hpk].
      * destruct (Z.lt_ge_cases (up + page + 2 ^ k) (2 ^ 64)) as [Hw2|Hw2].
        -- rewrite u64_small by lia. right. exists up. split_and!; try done; try lia.
           apply Z.divide_add_r; [apply Z.divide_add_r; [done|apply Z.divide_refl]|apply page_divides_pow; lia].
        -- left. split; [|lia]. unfold u64. rewrite <- (Z_mod_plus_full _ (-1)), Z.mod_small; lia.
      * right. exists up. split_and!; try done; try lia.
        replace (up + page) with (page + up) by lia. apply Z.divide_add_r; [apply Z.divide_refl|done].
    + (* the last page of the address space *)
      assert (up + page = 2 ^ 64) as Eup.
      { destruct Hd as [q Eq], Hp64 as [q' E'].
        assert (q < q') by (apply (Z.mul_lt_mono_pos_r page); lia).
        assert (q' = q + 1) as ->; [|lia].
        assert (q' <= q + 1); [|lia]. apply (Z.mul_le_mono_pos_r _ _ page); lia. }
      rewrite Eup. change (u64 (2 ^ 64)) with 0. left. split; [|lia]. destruct (Z.ltb_spec page (2 ^ k)); [|lia].
      rewrite Z.add_0_l, u64_small by lia. lia.
  - left. split; [|lia]. rewrite Z.add_0_l, (u64_small page) by lia. destruct (Z.ltb_spec page (2 ^ k)); [|lia].
    rewrite u64_small by lia. lia.
Qed.

(** The address inside the mapping: the first multiple of the alignment after the
    header page. *)
Definition align_in (res al : Z) : Z :=
  if negb (Z.land res (al -64 1) =? 0) then res +64 (al -64 Z.land res (al -64 1)) else res.

Lemma align_in_spec res k :
  0 <= k < 64 -> 0 <= res -> res + 2 ^ k <= 2 ^ 64 -> (page | res) ->
  let r := align_in res (2 ^ k) in
  res <= r /\ (2 ^ k | r) /\ (page | r) /\ r <= res + (if page <? 2 ^ k then 2 ^ k - 1 else 0).
Proof.
  intros Hk H0 Hw Hd. unfold align_in. pose proof page_range.
  assert (0 < 2 ^ k < 2 ^ 64) as Hk64 by (split; [lia|apply Z.pow_lt_mono_r; lia]).
  rewrite (u64_small (2 ^ k - 1)) by lia. replace (2 ^ k - 1) with (Z.ones k) by (rewrite Z.ones_equiv; lia).
  rewrite Z.land_ones by lia. pose proof (Z.mod_pos_bound res (2 ^ k) ltac:(lia)) as Hm.
  pose proof (Z.div_mod res (2 ^ k) ltac:(lia)) as Hdm. cbv zeta. rewrite Z.ones_equiv, <- Z.sub_1_r.
  destruct (Z.eqb_spec (res mod 2 ^ k) 0) as [E|Hne]; cbn [negb].
  - split; [lia|]. split; [by apply Z.mod_divide; [lia|]|]. split; [done|]. destruct (page <? 2 ^ k); lia.
  - rewrite (u64_small (2 ^ k - res mod 2 ^ k)), u64_small by lia.
    assert (page < 2 ^ k) as Hpk.
    { destruct (Z.lt_ge_cases page (2 ^ k)) as [|Hge]; [done|]. exfalso. apply Hne. apply Z.mod_divide; [lia|].
      apply (Z.divide_trans _ page); [|done]. rewrite page_pow2 in Hge |- *. pose proof page_log_range.
      apply Z.pow_le_mono_r_iff in Hge; [|lia|lia]. exists (2 ^ (page_log - k)). rewrite <- Z.pow_add_r by lia. f_equal. lia. }
    rewrite (proj2 (Z.ltb_lt _ _)) by lia.
    replace (res + (2 ^ k - res mod 2 ^ k)) with ((res / 2 ^ k + 1) * 2 ^ k) by lia.
    split; [lia|]. split; [apply Z.divide_factor_r|]. split; [|lia].
    apply Z.divide_mul_r. apply page_divides_pow; lia.
Qed.

(** The state with a new chunk. *)
Lemma push_ok st st' a m h size :
  large_ok st -> n_chunks_ st < kMaxNumChunks -> n_chunks_ st' = n_chunks_ st + 1 ->
  (static_array = false -> n_chunks_ st < n_reserved_ st') -> chunks_sorted_ st' = false ->
  chunks_ st' = upd (chunks_ st) (n_chunks_ st) h ->
  headers st' = upd (headers st) h (mkHeader a m size (n_chunks_ st)) ->
  header_ok (mkHeader a m size (n_chunks_ st)) h ->
  (forall i, 0 <= i < n_chunks_ st -> apart a m (map_beg (map_of st i)) (map_size (map_of st i))) ->
  large_ok st' /\
  forall q b, large_block st' q b <-> (q = h + page /\ b = (a, m, size)) \/ large_block st q b.
Proof.
  intros Hok Hmax En Hres Es Ec Eh Hh Hap. pose proof (lo_n st Hok) as Hn. set (n := n_chunks_ st) in *.
  pose proof page_range as Hp.
  assert (forall i, 0 <= i < n -> chunks_ st i <> h) as Hne.
  { intros i Hi E. specialize (Hap i Hi). unfold apart in Hap. pose proof (chunk_place st i Hok Hi).
    destruct Hh as [[? ?] _ ? ? _ _]. cbn in *. lia. }
  assert (forall i, 0 <= i < n -> chunks_ st' i = chunks_ st i /\ map_of st' i = map_of st i) as Hold.
  { intros i Hi. assert (chunks_ st' i = chunks_ st i) as E by (rewrite Ec; apply upd_other; lia).
    split; [done|]. unfold map_of. rewrite E, Eh. apply upd_other. by apply Hne. }
  assert (chunks_ st' n = h /\ map_of st' n = mkHeader a m size n) as [Hc Hm].
  { assert (chunks_ st' n = h) as E by (rewrite Ec; apply upd_same). split; [done|].
    unfold map_of. rewrite E, Eh. apply upd_same. }
  assert (forall i, 0 <= i < n_chunks_ st' -> i = n \/ 0 <= i < n) as Hcase by (rewrite En; lia).
  split; [split|].
  - rewrite En. lia.
  - intros Hst. specialize (Hres Hst). rewrite En. lia.
  - intros i [->|Hi]%Hcase; [by rewrite Hm|]. destruct (Hold i Hi) as [_ ->]. by apply lo_idx.
  - intros i [->|Hi]%Hcase; [by rewrite Hm, Hc|]. destruct (Hold i Hi) as [-> ->]. by apply lo_header.
  - intros i j [->|Hi]%Hcase [->|Hj]%Hcase Hij; [done| | |].
    + rewrite Hm. destruct (Hold j Hj) as [_ ->]. by apply Hap.
    + rewrite Hm. destruct (Hold i Hi) as [_ ->]. specialize (Hap i Hi). unfold maps_apart, apart in *. cbn. tauto.
    + destruct (Hold i Hi) as [_ ->], (Hold j Hj) as [_ ->]. by apply lo_apart.
  - rewrite Es. done.
  - intros q b. unfold large_block. fold (map_of st') (map_of st). split.
    + intros (i & [->|Hi]%Hcase & Hq & Hb).
      * left. fold (map_of st' n) in Hb. rewrite Hc in Hq. rewrite Hm in Hb. by split.
      * right. exists i. fold (map_of st' i) in Hb. destruct (Hold i Hi) as [E1 E2]. rewrite E1 in Hq. rewrite E2 in Hb. done.
    + intros [[Hq Hb]|(i & Hi & Hq & Hb)].
      * exists n. fold (map_of st' n). rewrite Hm, Hc, En. split; [lia|]. by split.
      * exists i. fold (map_of st' i). destruct (Hold i Hi) as [-> ->]. rewrite En. split; [lia|]. by split.
Qed.

Lemma pow2_power k : 0 <= k < 64 -> IsPowerOfTwo (2 ^ k) = true.
Proof.
  intros Hk. apply IsPowerOfTwo_spec; [split; [lia|apply Z.pow_lt_mono_r; lia]|]. right. by exists k.
Qed.

Lemma pow2_aligned a k : 0 <= k < 64 -> (2 ^ k | a) -> IsAligned a (2 ^ k) = true.
Proof. intros Hk Hd. rewrite IsAligned_spec by done. apply Z.eqb_eq, Z.mod_divide; [lia|done]. Qed.

(** What the environment has to give for a size: room in the array, and a mapping or
    ENOMEM. *)
Definition env_gives env st : Prop :=
  n_chunks_ st < kMaxNumChunks /\
  (forall a n, array_MapOrDie env a n = Done tt) /\ (forall n, under_mmap_limit env n = true) /\
  forall n e, internal_iserror (internal_mmap env n) = Some e -> e = ENOMEM.

Lemma EnsureSpace_spec env st n : large_ok st -> EnsureSpace env (n_reserved_ st) (n_chunks_ st) = Done n ->
  n_chunks_ st < kMaxNumChunks /\ (static_array = false -> n_chunks_ st < n).
Proof.
  intros Hok. unfold EnsureSpace. intros E. apply bind_done in E as (u & Hc%check_done & E). bool_hyps.
  split; [done|]. intros Hst. rewrite Hst in E. pose proof (lo_reserved st Hok Hst).
  destruct (Z.eqb_spec (n_chunks_ st) (n_reserved_ st)).
  - apply bind_done in E as (? & _ & [= <-]). unfold kChunksBlockCount. lia.
  - injection E as <-. lia.
Qed.

(** Everything after the mapping succeeds: the block fits. *)
Lemma placed a m up size k :
  0 <= k < 64 -> 0 <= size -> (page | up) -> size <= up ->
  m = up + page + (if page <? 2 ^ k then 2 ^ k else 0) ->
  0 < a -> (page | a) -> a + m < 2 ^ 63 ->
  let r := align_in (a + page) (2 ^ k) in
  a + page <= r /\ (2 ^ k | r) /\ (page | r) /\ r + size <= a + m.
Proof.
  intros Hk Hs Hup Hle Hm Ha Hda Hend. cbv zeta. pose proof page_range.
  assert (2 ^ k <= 2 ^ 63) by (apply Z.pow_le_mono_r; lia).
  destruct (align_in_spec (a + page) k) as (H1 & H2 & H3 & H4); try done; try lia.
  { destruct (Z.ltb_spec page (2 ^ k)); lia. }
  { apply Z.divide_add_r; [done|apply Z.divide_refl]. }
  split_and!; try done. destruct (Z.ltb_spec page (2 ^ k)); lia.
Qed.

Lemma RoundUpTo_page_multiple m : (page | m) -> 0 <= m < 2 ^ 64 -> RoundUpTo m page = Done m.
Proof.
  intros [y Ey] Hm. destruct (RoundUp_page m Hm) as (r & E & [x Ex] & Hr). rewrite E. f_equal.
  pose proof page_range. destruct Hr as [[Hr _]|[-> Hbig]].
  - assert (x = y) as ->; [|lia]. assert (y <= x) by (apply (Z.mul_le_mono_pos_r _ _ page); lia).
    assert (x < y + 1) by (apply (Z.mul_lt_mono_pos_r page); lia). lia.
  - exfalso. assert ((page | 2 ^ 64)) as [z Ez].
    { rewrite page_pow2. exists (2 ^ (64 - page_log)). pose proof page_log_range. rewrite <- Z.pow_add_r by lia. f_equal. lia. }
    assert (y < z) by (apply (Z.mul_lt_mono_pos_r page); lia).
    assert (z < y + 1) by (apply (Z.mul_lt_mono_pos_r page); lia). lia.
Qed.

(** The state with the new block. *)
Definition pushed st (a m size h nr : Z) : Large :=
  mkLarge (upd (chunks_ st) (n_chunks_ st) h) (n_chunks_ st + 1) false nr
    (upd (headers st) h (mkHeader a m size (n_chunks_ st)))
    (stats_allocated (large_stats st) m (Z.log2 m)).

(** The allocation, with its checks that cannot fail taken out. *)
Lemma allocate_reduce env st stat size k :
  large_ok st -> mmap_law env st -> 0 <= k < 64 -> 0 <= size < 2 ^ 64 ->
  exists m, let a := internal_mmap env m in let res := align_in (a + page) (2 ^ k) in
  (m < size -> 2 ^ 64 <= size + 2 * page + 2 ^ k) /\
  (size <= m -> 0 < m < 2 ^ 64 /\ (page | m) /\ (internal_iserror a = None -> a <> 0 ->
     a + page <= res /\ (2 ^ k | res) /\ (page | res) /\ res + size <= a + m)) /\
  large_Allocate env st stat size (2 ^ k) =
    if m <? size then Done (0, st, stat) else
    match internal_iserror a with
    | Some e => if e =? ENOMEM then Done (0, st, stat) else Died "mmap failed"
    | None =>
        _ ← check (under_mmap_limit env m) "RAW_CHECK";
        if a =? 0 then Done (0, st, stat) else
        nr ← EnsureSpace env (n_reserved_ st) (n_chunks_ st);
        Done (res, pushed st a m size (res - page) nr,
              stats_Add_mapped (stats_Add_allocated stat m) m)
    end.
Proof.
  intros Hok Hlaw Hk Hs. unfold large_Allocate. rewrite (pow2_power k Hk).
  destruct (map_size_cases size k Hk Hs) as (r & Er & Hm). rewrite Er. cbn [check mbind outcome_bind].
  set (m := if page <? 2 ^ k then r +64 2 ^ k else r) in *. clearbody m. exists m. cbv zeta.
  pose proof page_range as Hp. set (a := internal_mmap env m).
  destruct (Z.ltb_spec m size) as [|Hge].
  { split; [|split; [lia|done]]. destruct Hm as [[_ Hov]|(? & ? & ? & -> & _)]; [by intros _|].
    destruct (Z.ltb_spec page (2 ^ k)); lia. }
  split; [lia|]. destruct Hm as [[? _]|(up & Hup & Hsz & Hmd & Hm64 & Hmp)]; [lia|].
  assert (0 < m) as Hm0 by (destruct (page <? 2 ^ k); lia).
  assert (internal_iserror a = None -> a <> 0 -> 0 < a /\ (page | a) /\ a + m < 2 ^ 63 /\
    a + page <= align_in (a + page) (2 ^ k) /\ (2 ^ k | align_in (a + page) (2 ^ k)) /\
    (page | align_in (a + page) (2 ^ k)) /\ align_in (a + page) (2 ^ k) + size <= a + m) as Hplaced.
  { intros Ea Ha0. destruct (Hlaw m Hm0 Hmp Ea Ha0) as (H1 & H2 & H3 & _). do 3 (split; [done|]).
    by apply (placed a m up size k); try lia. }
  split; [intros _; split_and!; try lia; try done; intros; by apply Hplaced|].
  unfold MmapOrDieOnFatalError. rewrite (RoundUpTo_page_multiple m Hmp) by lia. cbn [mbind outcome_bind]. fold a.
  destruct (internal_iserror a) as [e|]; [by destruct (e =? ENOMEM)|].
  destruct (under_mmap_limit env m); [|done]. cbn [check mbind outcome_bind mret outcome_ret].
  destruct (Z.eqb_spec a 0) as [_|Ha0]; [done|].
  destruct (Hplaced eq_refl Ha0) as (Hapos & Hda & Hend & H1 & H2 & H3 & H4).
  rewrite (page_aligned_divide a Hda). cbn [check mbind outcome_bind].
  rewrite (u64_small (a + page)) by (destruct (page <? 2 ^ k); lia).
  fold (align_in (a + page) (2 ^ k)). set (res := align_in (a + page) (2 ^ k)) in *. clearbody res.
  rewrite (pow2_aligned res k), (page_aligned_divide res), !u64_small by (done || lia).
  rewrite (proj2 (Z.leb_le a _)), (proj2 (Z.leb_le _ (a + m))) by lia. cbn [check mbind outcome_bind].
  rewrite (GetHeader_block res) by (done || lia). cbn [mbind outcome_bind].
  unfold MostSignificantSetBitIndex, CHECK_NE0. rewrite (proj2 (Z.eqb_neq m 0)) by lia. cbn [negb check mbind outcome_bind mret outcome_ret].
  assert (Z.log2 m < 64) as Hlog by (apply Z.log2_lt_pow2; lia).
  by rewrite (proj2 (Z.ltb_lt _ _) Hlog).
Qed.

Lemma allocate_at env st stat size k p st' stat' :
  large_ok st -> mmap_law env st -> 0 <= k < 64 -> 0 <= size < 2 ^ 64 ->
  large_Allocate env st stat size (2 ^ k) = Done (p, st', stat') ->
  (p = 0 /\ st' = st /\ stat' = stat) \/
  exists m, let a := internal_mmap env m in
    internal_iserror a = None /\ a <> 0 /\ 0 < m /\ (page | m) /\
    a + page <= p /\ p + size <= a + m /\ (2 ^ k | p) /\ (page | p) /\ large_ok st' /\
    forall q b, large_block st' q b <-> (q = p /\ b = (a, m, size)) \/ large_block st q b.
Proof.
  intros Hok Hlaw Hk Hs E. destruct (allocate_reduce env st stat size k Hok Hlaw Hk Hs) as (m & _ & Hm & Er).
  rewrite Er in E. clear Er. set (a := internal_mmap env m) in *.
  destruct (Z.ltb_spec m size) as [_|Hge]; [injection E as <- <- <-; by left|].
  destruct (internal_iserror a) as [e|] eqn:Ea.
  { destruct (e =? ENOMEM); [|done]. injection E as <- <- <-. by left. }
  destruct (under_mmap_limit env m); [|done]. cbn [check mbind outcome_bind] in E.
  destruct (Z.eqb_spec a 0) as [_|Ha0]; [injection E as <- <- <-; by left|].
  destruct (Hm Hge) as (Hm0 & Hmp & Hres). destruct (Hres eq_refl Ha0) as (H1 & H2 & H3 & H4).
  destruct (Hlaw m (proj1 Hm0) Hmp Ea Ha0) as (Hapos & Hda & Hend & Hap). fold a in Hapos, Hda, Hend, Hap.
  apply bind_done in E as (nr & Hnr & E). injection E as <- <- <-.
  destruct (EnsureSpace_spec env st nr Hok Hnr) as [Hmax Hr].
  set (res := align_in (a + page) (2 ^ k)) in *. right. exists m. fold a. cbv zeta.
  do 8 (split; [done || lia|]).
  destruct (push_ok st (pushed st a m size (res - page) nr) a m (res - page) size) as [Hok' Hb]; try done.
  - pose proof page_range. split; cbn; try lia; [|by apply Z.divide_add_r].
    apply Z.divide_sub_r; [done|apply Z.divide_refl].
  - split; [exact Hok'|]. intros q b. rewrite Hb. by rewrite Z.sub_add.
Qed.

(** It does not die, and a null answer has a reason: the request overflows, or the
    system has no memory. *)
Lemma allocate_total env st stat size k :
  large_ok st -> mmap_law env st -> env_gives env st -> 0 <= k < 64 -> 0 <= size < 2 ^ 64 ->
  exists p st' stat', large_Allocate env st stat size (2 ^ k) = Done (p, st', stat') /\
    (p = 0 -> 2 ^ 64 <= size + 2 * page + 2 ^ k \/
      exists m, internal_iserror (internal_mmap env m) = Some ENOMEM \/ internal_mmap env m = 0).
Proof.
  intros Hok Hlaw (Hmax & Harr & Hlim & Herr) Hk Hs.
  destruct (allocate_reduce env st stat size k Hok Hlaw Hk Hs) as (m & Hov & Hm & ->).
  set (a := internal_mmap env m) in *.
  destruct (Z.ltb_spec m size) as [Hlt|Hge]; [do 3 eexists; split; [reflexivity|]; left; by apply Hov|].
  destruct (internal_iserror a) as [e|] eqn:Ea.
  { pose proof (Herr m e Ea) as ->. do 3 eexists. split; [reflexivity|]. intros _. right. exists m. by left. }
  rewrite Hlim. cbn [check mbind outcome_bind]. destruct (Z.eqb_spec a 0) as [Ha0|Ha0].
  { do 3 eexists. split; [reflexivity|]. intros _. right. exists m. by right. }
  assert (exists nr, EnsureSpace env (n_reserved_ st) (n_chunks_ st) = Done nr) as [nr ->].
  { unfold EnsureSpace. rewrite (proj2 (Z.ltb_lt _ _) Hmax). cbn [check mbind outcome_bind].
    destruct static_array; [by eexists|]. destruct (n_chunks_ st =? n_reserved_ st); [|by eexists].
    rewrite Harr. by eexists. }
  do 3 eexists. split; [reflexivity|]. intros E0. exfalso.
  destruct (Hm Hge) as (Hm0 & Hmp & Hres). destruct (Hres eq_refl Ha0) as (H1 & _).
  destruct (Hlaw m (proj1 Hm0) Hmp Ea Ha0) as (Hapos & _). fold a in Hapos. pose proof page_range. lia.
Qed.

(** *** Deallocation *)

Lemma deallocate_at st stat p a m size :
  large_ok st -> large_block st p (a, m, size) ->
  exists st', large_Deallocate st stat p =
    Done (st', stats_Sub_mapped (stats_Sub_allocated stat m) m, (a, m)) /\ large_ok st' /\
    forall q b, large_block st' q b <-> q <> p /\ large_block st q b.
Proof.
  intros Hok (k & Hk & -> & Hb). fold (map_of st k) in Hb. unfold large_Deallocate.
  destruct (chunk_place st k Hok Hk) as (K1 & K2 & K3 & K4). pose proof page_range as Hp.
  rewrite GetHeader_block, Z.add_simpl_r by first [lia|apply Z.divide_add_r; [done|apply Z.divide_refl]].
  cbn [mbind outcome_bind]. fold (map_of st k). rewrite (lo_idx st Hok k Hk), Z.eqb_refl.
  rewrite (proj2 (Z.ltb_lt _ _)) by lia. cbn [check mbind outcome_bind mret outcome_ret].
  set (n := n_chunks_ st) in *. set (last := chunks_ st (n - 1)).
  set (hs := upd (headers st) last (set_chunk_idx (headers st last) k)).
  assert (forall i, 0 <= i < n -> hs (chunks_ st i) = if i =? n - 1 then set_chunk_idx (map_of st (n - 1)) k else map_of st i) as Hhs.
  { intros i Hi. unfold hs, last, upd. fold (map_of st (n - 1)). destruct (Z.eqb_spec i (n - 1)) as [->|Hne]; [by rewrite Z.eqb_refl|].
    destruct (Z.eqb_spec (chunks_ st i) (chunks_ st (n - 1))) as [E|]; [|done].
    apply chunks_distinct in E; [done|done|done|fold n; lia]. }
  assert (extent (hs (chunks_ st k)) = (a, m, size)) as Hek.
  { rewrite Hhs by done. destruct (Z.eqb_spec k (n - 1)) as [->|]; exact Hb. }
  assert (map_size (hs (chunks_ st k)) = m /\ map_beg (hs (chunks_ st k)) = a) as [-> ->] by (injection Hek; done).
  eexists. split; [reflexivity|]. set (st' := mkLarge _ _ _ _ _ _).
  destruct (renumber_ok st st' (fun i => if i =? k then n - 1 else i)) as [Hok' Hbl]; try done.
  - cbn. fold n. lia.
  - intros i Hi. cbn in Hi. zcase; fold n; lia.
  - intros i j Hi Hj. cbn in Hi, Hj. zcase; lia.
  - intros i Hi. cbn. unfold upd. by destruct (Z.eqb_spec i k).
  - intros i Hi. cbn in Hi. unfold map_of at 1. cbn [st' chunks_ headers]. unfold upd.
    destruct (Z.eqb_spec i k) as [->|Hne].
    + unfold last. rewrite Hhs by lia. by rewrite Z.eqb_refl.
    + rewrite Hhs by lia. rewrite (proj2 (Z.eqb_neq i (n - 1))) by lia.
      pose proof (lo_idx st Hok i ltac:(fold n; lia)) as E. unfold set_chunk_idx. destruct (map_of st i). cbn in E |- *. by f_equal.
  - split; [done|]. intros q b. rewrite Hbl. cbn [n_chunks_ st']. split.
    + intros (i & Hi & -> & Hib). split.
      * intros E. assert (chunks_ st (if i =? k then n - 1 else i) = chunks_ st k) as E' by lia.
        apply chunks_distinct in E'; [|done|zcase; fold n; lia|done].
        destruct (Z.eqb_spec i k) as [->|]; [lia|done].
      * exists (if i =? k then n - 1 else i). split; [zcase; fold n; lia|]. by split.
    + intros [Hne (i & Hi & -> & Hib)]. fold n in Hi. fold (map_of st i) in Hib.
      assert (i <> k) by (intros ->; done).
      exists (if i =? n - 1 then k else i). destruct (Z.eqb_spec i (n - 1)) as [->|].
      * rewrite Z.eqb_refl. split; [lia|]. by split.
      * rewrite (proj2 (Z.eqb_neq i k)) by done. split; [lia|]. by split.
Qed.

(** ** Executions *)

Inductive large_step : Large -> Large -> Prop :=
| large_step_allocate env stat size k p st st' stat' :
    mmap_law env st -> 0 <= k < 64 -> 0 <= size < 2 ^ 64 ->
    large_Allocate env st stat size (2 ^ k) = Done (p, st', stat') -> large_step st st'
| large_step_deallocate stat p b st st' stat' r :
    large_block st p b -> large_Deallocate st stat p = Done (st', stat', r) -> large_step st st'
| large_step_lookup p r st st' :
    0 <= p < 2 ^ 64 -> large_GetBlockBeginFastLocked st p = Done (r, st') -> large_step st st'.

Lemma large_step_ok st st' : large_step st st' -> large_ok st -> large_ok st'.
Proof.
  intros Hs Hok. destruct Hs as [env stat size k p st st' stat' Hlaw Hk Hsz E|stat p [[a m] s] st st' stat' r Hb E|p r st st' Hp E].
  - destruct (allocate_at env st stat size k p st' stat' Hok Hlaw Hk Hsz E) as [(_ & -> & _)|(m & H)]; [done|].
    by apply H.
  - destruct (deallocate_at st stat p a m s Hok Hb) as (st2 & E2 & Hok2 & _). rewrite E in E2. by injection E2 as -> -> ->.
  - destruct (FastLocked_lookup st p Hok Hp) as (r2 & st2 & E2 & _ & Hok2 & _). rewrite E in E2. by injection E2 as -> ->.
Qed.

Lemma large_reachable_ok st : rtc large_step large0 st -> large_ok st.
Proof.
  intros H. generalize large0_ok. induction H as [|s1 s2 s3 Hs _ IH]; [done|]. intros Hok.
  apply IH. by eapply large_step_ok.
Qed.

(** The lookup in terms of the live blocks. *)
Lemma lookup_block st p r : large_ok st -> lookup_answer st p r ->
  forall q, (r = q /\ q <> 0) <-> exists a m s, large_block st q (a, m, s) /\ q - page <= p < a + m.
Proof.
  intros Hok Ha q. pose proof page_range.
  assert (forall i, holds st i p -> large_block st (chunks_ st i + page) (extent (map_of st i))) as Hhb
    by (intros i [Hi _]; by exists i).
  split.
  - intros [-> Hne]. destruct Ha as [(i & Hi & ->)|[_ ->]]; [|done].
    exists (map_beg (map_of st i)), (map_size (map_of st i)), (h_size (map_of st i)).
    split; [by apply Hhb|]. rewrite Z.add_simpl_r. apply Hi.
  - intros (a & m & s & (i & Hi & -> & Hb) & Hp). fold (map_of st i) in Hb. injection Hb as <- <- <-.
    rewrite Z.add_simpl_r in Hp. pose proof (chunk_place st i Hok Hi).
    destruct Ha as [(j & Hj & ->)|[Hn ->]]; [|by destruct (Hn i)].
    rewrite (holds_once st j i p); [|done|done|done]. split; [done|lia].
Qed.

(** large blocks are exclusive.  In every state an execution can reach, a block
    that the allocator hands out is aligned, holds the bytes that were asked for
    inside a mapping of its own after the page of its header, meets the mapping of
    no other live block, and leaves those as they were. *)
Theorem large_blocks_exclusive env st stat size k p st' stat' :
  rtc large_step large0 st -> mmap_law env st -> 0 <= k < 64 -> 0 <= size < 2 ^ 64 ->
  large_Allocate env st stat size (2 ^ k) = Done (p, st', stat') -> p <> 0 ->
  exists a m, large_block st' p (a, m, size) /\ (2 ^ k | p) /\ (page | p) /\
    a + page <= p /\ p + size <= a + m /\
    (forall q b n s, large_block st q (b, n, s) -> q <> p /\ apart a m b n /\ apart p size q s) /\
    forall q b, large_block st' q b <-> (q = p /\ b = (a, m, size)) \/ large_block st q b.
Proof.
  intros Hrun Hlaw Hk Hs E Hp. pose proof (large_reachable_ok st Hrun) as Hok.
  destruct (allocate_at env st stat size k p st' stat' Hok Hlaw Hk Hs E) as [[? _]|(m & Ea & Ha0 & Hm & Hmp & H1 & H2 & H3 & H4 & Hok' & Hb)]; [done|].
  set (a := internal_mmap env m) in *. exists a, m. split; [apply Hb; by left|]. do 4 (split; [done|]). split; [|done].
  intros q b n s (i & Hi & -> & Hx). fold (map_of st i) in Hx.
  destruct (Hlaw m Hm Hmp Ea Ha0) as (_ & _ & _ & Hap). specialize (Hap i Hi). fold a in Hap.
  pose proof (lo_header st Hok i Hi) as Hh. injection Hx as <- <- <-. pose proof page_range.
  destruct Hh as [[Hb1 Hb2] _ Hh3 Hh4 _ _]. unfold apart in *. split; [lia|]. split; [lia|lia].
Qed.

(** the binary search is the linear search.  In every state an execution can
    reach and for every address, [GetBlockBeginFastLocked] and [GetBlockBegin] do
    not die and answer the same: the block whose header page or bytes hold the
    address up to the end of its mapping, or null if there is none.  The sorting
    the former does leaves every block where it is. *)
Theorem fast_lookup_exact st p :
  rtc large_step large0 st -> 0 <= p < 2 ^ 64 ->
  exists r st', large_GetBlockBegin st p = Done r /\ large_GetBlockBeginFastLocked st p = Done (r, st') /\
    (forall q, (r = q /\ q <> 0) <-> exists a m s, large_block st q (a, m, s) /\ q - page <= p < a + m) /\
    forall q b, large_block st' q b <-> large_block st q b.
Proof.
  intros Hrun Hp. pose proof (large_reachable_ok st Hrun) as Hok.
  destruct (GetBlockBegin_lookup st p Hok Hp) as (r & E & Ha).
  destruct (FastLocked_lookup st p Hok Hp) as (r' & st' & E' & Ha' & _ & Hb).
  rewrite (lookup_answer_once st p r' r Hok Ha' Ha) in E'. exists r, st'. split; [done|]. split; [done|].
  split; [by apply lookup_block|done].
Qed.

(** the requests of the large allocator are exact.  With room in the array of
    chunks and a system that answers memory or ENOMEM, an allocation does not die,
    whatever the size and the alignment, and null means that the request overflows
    the address space or that the system has no memory. *)
Theorem large_requests_are_exact env st stat size k :
  rtc large_step large0 st -> mmap_law env st -> env_gives env st -> 0 <= k < 64 -> 0 <= size < 2 ^ 64 ->
  exists p st' stat', large_Allocate env st stat size (2 ^ k) = Done (p, st', stat') /\
    (p = 0 -> 2 ^ 64 <= size + 2 * page + 2 ^ k \/
      exists m, internal_iserror (internal_mmap env m) = Some ENOMEM \/ internal_mmap env m = 0).
Proof. intros Hrun. apply allocate_total. by apply large_reachable_ok. Qed.

(** *** Iteration *)

Lemma visit_chunks_spec st : large_ok st -> forall m i : nat, Z.of_nat (i + m) <= n_chunks_ st ->
  visit_chunks (map Z.of_nat (seq i m)) st = Done (map (fun i => chunks_ st i + page) (map Z.of_nat (seq i m))).
Proof.
  intros Hok. induction m as [|m IH]; intros i Hi; cbn [seq map visit_chunks]; [done|].
  rewrite GetUser_chunk by (done || lia). cbn [mbind outcome_bind]. fold (map_of st (Z.of_nat i)).
  rewrite lo_idx, Z.eqb_refl by (done || lia). cbn [check mbind outcome_bind]. by rewrite IH by lia.
Qed.

(** the iteration visits every live block once, in the order of addresses. *)
Theorem ForEachChunk_exact st :
  rtc large_step large0 st -> exists us st', large_ForEachChunk st = Done (us, st') /\
    (forall q, q ∈ us <-> exists b, large_block st q b) /\ StronglySorted Z.lt us /\
    forall q b, large_block st' q b <-> large_block st q b.
Proof.
  intros Hrun. pose proof (large_reachable_ok st Hrun) as Hok.
  destruct (EnsureSorted_ok st Hok) as (Hok' & Hs & En & Hb & _). unfold large_ForEachChunk, zrange.
  set (s := EnsureSortedChunks st) in *. clearbody s. pose proof (lo_n s Hok').
  rewrite visit_chunks_spec by (done || lia). do 2 eexists. split; [reflexivity|]. split; [|split; [|done]].
  - intros q. setoid_rewrite <- Hb. rewrite list_elem_of_fmap. setoid_rewrite elem_of_zrange.
    unfold large_block. split; [intros (i & -> & Hi); by exists (extent (headers s (chunks_ s i))), i|].
    intros (b & i & Hi & -> & _). by exists i.
  - assert (forall m i : nat, Z.of_nat (i + m) <= n_chunks_ s ->
      StronglySorted Z.lt (map (fun i => chunks_ s i + page) (map Z.of_nat (seq i m)))) as Hsort; [|apply Hsort; lia].
    induction m as [|m IH]; intros i Hi; cbn [seq map]; constructor; [apply IH; lia|].
    apply list.Forall_forall. intros x (j & -> & (k & -> & Hk)%list_elem_of_fmap)%list_elem_of_fmap.
    apply list_elem_of_In, in_seq in Hk. pose proof (lo_sorted s Hok' (Z.of_nat i) (Z.of_nat k) Hs). lia.
Qed.
End invariant.

(** ** Witnesses *)

Definition linux_pages : SecondaryParams := {| page_size_ := 4096; static_array := false |}.
#[export] Instance linux_pages_ok : SecondaryOk linux_pages.
Proof. by exists 12. Defined.

(** A system that has one mapping of at most a megabyte to give, at [base]. *)
Definition one_mapping (base : Z) : MmapEnv :=
  mkMmapEnv (fun n => if n <=? 2 ^ 20 then base else 2 ^ 64 - ENOMEM) (fun _ _ => Done tt) (fun _ => true).

Lemma one_mapping_law base st :
  0 < base < 2 ^ 62 -> (@page_size_ linux_pages | base) ->
  (forall i, 0 <= i < n_chunks_ st -> map_beg (map_of st i) + map_size (map_of st i) <= base) ->
  @mmap_law linux_pages (one_mapping base) st.
Proof.
  intros Hb Hd Hlow size Hs _. cbn [one_mapping internal_mmap]. destruct (Z.leb_spec size (2 ^ 20)); [|done].
  intros _ _. split; [lia|]. split; [done|]. split; [lia|]. intros i Hi. right. by apply Hlow.
Qed.

Definition large_after (o : outcome (Z * Large * AllocatorStats)) : Large :=
  match o with Done (_, s, _) => s | Died _ => large0 end.

Notation first_large := (@large_Allocate linux_pages (one_mapping (2 ^ 30)) large0 (mkStats 0 0) 5000 (2 ^ 3)).

Lemma first_large_run : rtc (@large_step linux_pages) large0 (large_after first_large) /\
  n_chunks_ (large_after first_large) = 1 /\ map_of (large_after first_large) 0 = mkHeader (2 ^ 30) 12288 5000 0.
Proof.
  split; [|split; vm_compute; reflexivity]. apply rtc_once.
  apply (@large_step_allocate linux_pages (one_mapping (2 ^ 30)) (mkStats 0 0) 5000 3 (2 ^ 30 + 4096) large0 _
    (mkStats 12288 12288)); [|lia|lia|vm_compute; reflexivity].
  apply one_mapping_law; [lia|by exists (2 ^ 18)|cbn; lia].
Qed.

Lemma second_large_law : @mmap_law linux_pages (one_mapping (2 ^ 31)) (large_after first_large).
Proof.
  destruct first_large_run as (_ & En & Em). apply one_mapping_law; [lia|by exists (2 ^ 19)|].
  intros i Hi. assert (i = 0) as -> by lia. rewrite Em. cbn. lia.
Qed.

Lemma large_blocks_exclusive_witness :
  exists st' stat', @large_Allocate linux_pages (one_mapping (2 ^ 31)) (large_after first_large) (mkStats 0 0) 100 (2 ^ 14)
    = Done (2 ^ 31 + 16384, st', stat') /\ apart (2 ^ 31 + 16384) 100 (2 ^ 30 + 4096) 5000.
Proof.
  destruct first_large_run as (Hrun & En & Em). do 2 eexists. split; [vm_compute; reflexivity|].
  edestruct (@large_blocks_exclusive linux_pages _ (one_mapping (2 ^ 31)) (large_after first_large) (mkStats 0 0) 100 14
    (2 ^ 31 + 16384)) as (a & m & _ & _ & _ & _ & _ & Hap & _);
    [exact Hrun|apply second_large_law|lia|lia|vm_compute; reflexivity|lia|].
  apply (Hap (2 ^ 30 + 4096) (2 ^ 30) 12288 5000). exists 0. rewrite En. split; [lia|]. split; vm_compute; reflexivity.
Defined.

Lemma fast_lookup_exact_witness :
  exists st', @large_GetBlockBegin linux_pages (large_after first_large) (2 ^ 30 + 9000) = Done (2 ^ 30 + 4096) /\
    @large_GetBlockBeginFastLocked linux_pages (large_after first_large) (2 ^ 30 + 9000) = Done (2 ^ 30 + 4096, st').
Proof.
  destruct first_large_run as (Hrun & _ & _).
  destruct (@fast_lookup_exact linux_pages _ (large_after first_large) (2 ^ 30 + 9000) Hrun ltac:(lia)) as (r & st' & E & E' & _).
  assert (@large_GetBlockBegin linux_pages (large_after first_large) (2 ^ 30 + 9000) = Done (2 ^ 30 + 4096)) as E2
    by (vm_compute; reflexivity).
  assert (r = 2 ^ 30 + 4096) as -> by congruence. exists st'. by split.
Defined.

Lemma large_requests_are_exact_witness :
  exists p st' stat', @large_Allocate linux_pages (one_mapping (2 ^ 31)) (large_after first_large) (mkStats 0 0) (2 ^ 64 - 1) (2 ^ 12)
    = Done (p, st', stat').
Proof.
  destruct first_large_run as (Hrun & En & _).
  destruct (@large_requests_are_exact linux_pages _ (one_mapping (2 ^ 31)) (large_after first_large) (mkStats 0 0) (2 ^ 64 - 1) 12
    Hrun second_large_law) as (p & st' & stat' & E & _).
  - split; [rewrite En; reflexivity|]. split; [done|]. split; [done|]. intros n e. cbn. destruct (n <=? 2 ^ 20); [done|].
    by intros [= <-].
  - lia.
  - lia.
  - by exists p, st', stat'.
Defined.

Lemma ForEachChunk_exact_witness :
  exists us st', @large_ForEachChunk linux_pages (large_after first_large) = Done (us, st') /\ 2 ^ 30 + 4096 ∈ us.
Proof.
  destruct first_large_run as (Hrun & En & Em).
  destruct (@ForEachChunk_exact linux_pages _ (large_after first_large) Hrun) as (us & st' & E & Hin & _).
  exists us, st'. split; [exact E|]. apply Hin. exists (2 ^ 30, 12288, 5000), 0. rewrite En. split; [lia|]. split; vm_compute; reflexivity.
Defined.
