(* ===== verification/Combined.v ===== *)
(** * Combined: the allocator of sanitizer_common

    [CombinedAllocator] of [sanitizer_allocator_combined.h]: small requests go to
    the size-class allocator through the cache of the thread, the rest to the
    allocator of large blocks.  The global statistics ([AllocatorGlobalStats] of
    [sanitizer_allocator_stats.h]) are a list of the caches that are registered.

    The file composes the invariants of the two allocators: their blocks never
    meet, whichever allocator they come from, and every pointer into a block is
    decoded to it. *)

From S2P Require Import Prelude Common Arrays Memory Libc SizeClassMap PageRelease Primary64 LocalCache Secondary.

(** ** Definitions *)

Record CombEnv := mkCombEnv { ce_os : OsEnv; ce_mmap : MmapEnv }.

(** [System] is the size-class allocator with the caches of the threads; the caches
    that are registered, the last one first. *)
Record CombinedAllocator := mkCombined {
  primary_ : System;
  secondary_ : Large;
  stats_ : AllocatorStats;
  registered : list Z
}.

Definition with_primary (s : CombinedAllocator) (p : System) : CombinedAllocator :=
  mkCombined p (secondary_ s) (stats_ s) (registered s).
Definition with_secondary (s : CombinedAllocator) (l : Large) (st : AllocatorStats) : CombinedAllocator :=
  mkCombined (primary_ s) l st (registered s).

Section combined.
Context `{SizeClassMapParams, Primary64Params, SecondaryParams}.

(** In thread [t]. *)
Definition comb_Allocate (e : CombEnv) (t size alignment : Z) (s : CombinedAllocator)
    : outcome (Z * CombinedAllocator) :=
  let size := if size =? 0 then 1 else size in
  if size +64 alignment <? size then mret (0, s) else
  let original_size := size in
  size ← (if 8 <? alignment then RoundUpTo size alignment else mret size);
  res ← (if CanAllocate size alignment then
           class_id ← ClassID size;
           res ← sys_Allocate (ce_os e) t class_id (primary_ s);
           let '(p, pr) := res : Z * System in mret (p, with_primary s pr)
         else
           res ← large_Allocate (ce_mmap e) (secondary_ s) (stats_ s) original_size alignment;
           let '(p, l, st) := res : Z * Large * AllocatorStats in mret (p, with_secondary s l st));
  let '(p, s) := res : Z * CombinedAllocator in
  _ ← (if 8 <? alignment then check (Z.land p (alignment -64 1) =? 0) "CHECK_EQ" else mret tt);
  mret (p, s).

Definition comb_PrimaryIsMine (s : CombinedAllocator) (p : Z) : bool := PointerIsMine (sys_primary (primary_ s)) p.
Definition comb_FromPrimary : CombinedAllocator -> Z -> bool := comb_PrimaryIsMine.

(** Also the ranges that were unmapped, on each of which the callback runs. *)
Definition comb_Deallocate (e : CombEnv) (t p : Z) (s : CombinedAllocator)
    : outcome (CombinedAllocator * list (Z * Z)) :=
  if p =? 0 then mret (s, []) else
  if comb_PrimaryIsMine s p then
    res ← sys_Deallocate (ce_os e) t (GetSizeClass (sys_primary (primary_ s)) p) p (primary_ s);
    let '(pr, _) := res : System * list (Z * Z) in mret (with_primary s pr, [])
  else
    res ← large_Deallocate (secondary_ s) (stats_ s) p;
    let '(l, st, r) := res : Large * AllocatorStats * (Z * Z) in mret (with_secondary s l st, [r]).

Definition comb_PointerIsMine (s : CombinedAllocator) (p : Z) : outcome bool :=
  if comb_PrimaryIsMine s p then mret true else large_PointerIsMine (secondary_ s) p.

Definition comb_GetActuallyAllocatedSize (s : CombinedAllocator) (p : Z) : outcome Z :=
  if comb_PrimaryIsMine s p then GetActuallyAllocatedSize (sys_primary (primary_ s)) p
  else large_GetActuallyAllocatedSize (secondary_ s) p.

Definition comb_GetMetaData (s : CombinedAllocator) (p : Z) : outcome Z :=
  if comb_PrimaryIsMine s p then GetMetaData (sys_primary (primary_ s)) p else large_GetMetaData p.

Definition comb_GetBlockBegin (s : CombinedAllocator) (p : Z) : outcome Z :=
  if comb_PrimaryIsMine s p then mret (GetBlockBegin (sys_primary (primary_ s)) p)
  else large_GetBlockBegin (secondary_ s) p.

Definition comb_GetBlockBeginFastLocked (s : CombinedAllocator) (p : Z) : outcome (Z * CombinedAllocator) :=
  if comb_PrimaryIsMine s p then mret (GetBlockBegin (sys_primary (primary_ s)) p, s)
  else
    res ← large_GetBlockBeginFastLocked (secondary_ s) p;
    let '(r, l) := res : Z * Large in mret (r, with_secondary s l (stats_ s)).

(** The block moves, with its bytes; also the ranges that were unmapped. *)
Definition comb_Reallocate (e : CombEnv) (t p new_size alignment : Z) (s : CombinedAllocator) (m : mem)
    : outcome (Z * CombinedAllocator * mem * list (Z * Z)) :=
  if p =? 0 then
    res ← comb_Allocate e t new_size alignment s;
    let '(q, s) := res : Z * CombinedAllocator in mret (q, s, m, [])
  else if new_size =? 0 then
    res ← comb_Deallocate e t p s;
    let '(s, rs) := res : CombinedAllocator * list (Z * Z) in mret (0, s, m, rs)
  else
    mine ← comb_PointerIsMine s p;
    _ ← check mine "CHECK";
    old_size ← comb_GetActuallyAllocatedSize s p;
    let memcpy_size := Min new_size old_size in
    res ← comb_Allocate e t new_size alignment s;
    let '(new_p, s) := res : Z * CombinedAllocator in
    let m := if negb (new_p =? 0) then internal_memcpy m new_p p memcpy_size else m in
    res ← comb_Deallocate e t p s;
    let '(s, rs) := res : CombinedAllocator * list (Z * Z) in
    mret (new_p, s, m, rs).

Definition comb_TotalMemoryUsed (s : CombinedAllocator) : outcome Z :=
  n ← large_TotalMemoryUsed (secondary_ s);
  mret (TotalMemoryUsed (sys_primary (primary_ s)) +64 n).

(** The blocks, and the state with the large chunks sorted. *)
Definition comb_ForEachChunk (s : CombinedAllocator) : outcome (list Z * CombinedAllocator) :=
  res ← large_ForEachChunk (secondary_ s);
  let '(us, l) := res : list Z * Large in
  mret (ForEachChunk (sys_primary (primary_ s)) ++ us, with_secondary s l (stats_ s)).

(** *** The caches of the threads and the statistics *)

Definition with_cache_stats (pr : System) (t : Z) (st : AllocatorStats) : System :=
  with_cache pr t (sys_primary pr) (set_stats (sys_caches pr t) st).

Definition InitCache_global (t : Z) (s : CombinedAllocator) : CombinedAllocator :=
  mkCombined (with_cache_stats (primary_ s) t (mkStats 0 0)) (secondary_ s) (stats_ s) (t :: registered s).

(** [Unregister]: the counters of the cache go to the global ones. *)
Definition Unregister (t : Z) (s : CombinedAllocator) : CombinedAllocator :=
  let c := stats (sys_caches (primary_ s) t) in
  mkCombined (primary_ s) (secondary_ s)
    (stats_Add_mapped (stats_Add_allocated (stats_ s) (AllocatorStatAllocated c)) (AllocatorStatMapped c))
    (List.remove Z.eq_dec t (registered s)).

Definition SwallowCache (e : CombEnv) (t : Z) (s : CombinedAllocator) : outcome CombinedAllocator :=
  res ← sys_Drain (ce_os e) t (primary_ s);
  let '(pr, _) := res : System * list (Z * Z) in mret (with_primary s pr).

Definition DestroyCache (e : CombEnv) (t : Z) (s : CombinedAllocator) : outcome CombinedAllocator :=
  s ← SwallowCache e t s; mret (Unregister t s).

Definition comb_ForceReleaseToOS (e : CombEnv) (s : CombinedAllocator) : outcome CombinedAllocator :=
  res ← sys_ForceReleaseToOS (ce_os e) (primary_ s);
  let '(pr, _) := res : System * list (Z * Z) in mret (with_primary s pr).

(** The sums over the registered counters; a negative one reads as 0. *)
Definition stat_total (f : AllocatorStats -> Z) (s : CombinedAllocator) : Z :=
  fold_left (fun n t => n +64 f (stats (sys_caches (primary_ s) t))) (registered s) (f (stats_ s)).

Definition non_negative (x : Z) : Z := if x <? 2 ^ 63 then x else 0.

Definition GetStats (s : CombinedAllocator) : Z * Z :=
  (non_negative (stat_total AllocatorStatAllocated s), non_negative (stat_total AllocatorStatMapped s)).
End combined.

(** ** The invariant *)

Section invariant.
Context `{P : SizeClassMapParams, !SizeClassMapOk P, Q : Primary64Params, !Primary64Ok P Q}.
Context `{R : SecondaryParams, !SecondaryOk R}.
Implicit Types s : CombinedAllocator.

Notation prim s := (sys_primary (primary_ s)).
Notation space s := (SpaceBeg (prim s)).

(** A live block, with the bytes it has. *)
Definition small_block s (p n : Z) : Prop :=
  exists c k, 1 <= c <= kLargestClassID /\ owned (primary_ s) c k /\ p = chunk_addr (prim s) c k /\ n = Size c.
Definition big_block s (p n : Z) : Prop := exists a m, large_block (secondary_ s) p (a, m, n).
Definition comb_block s (p n : Z) : Prop := small_block s p n \/ big_block s p n.

Record comb_ok s : Prop := {
  co_primary : sys_ok (primary_ s);
  co_secondary : large_ok (secondary_ s);
  co_apart p a m n : large_block (secondary_ s) p (a, m, n) -> apart a m (space s) kSpaceSize;
  (** a request of 0 bytes is one of 1 *)
  co_pos p a m n : large_block (secondary_ s) p (a, m, n) -> 0 < n
}.

(** The system maps large blocks at fresh addresses, outside of the space of the
    size classes. *)
Record comb_law (e : CombEnv) s : Prop := {
  cl_os : os_ok (ce_os e);
  cl_mmap : mmap_law (ce_mmap e) (secondary_ s);
  cl_apart size : 0 < size -> let a := internal_mmap (ce_mmap e) size in
    internal_iserror a = None -> a <> 0 -> apart a size (space s) kSpaceSize
}.

(** *** Addresses *)

Lemma PointerIsMine_iff st x : space_ok st -> 0 <= x ->
  PointerIsMine st x = true <-> SpaceBeg st <= x < SpaceBeg st + kSpaceSize.
Proof.
  intros Hst Hx. pose proof region_facts as (HR & ? & ? & E & ?).
  assert (0 < kSpaceSize) by (pose proof p64_space as [-> _]; apply Z.pow_pos_nonneg; [lia|apply Z.log2_nonneg]).
  unfold PointerIsMine. case_match eqn:Hk.
  - apply andb_true_iff in Hk as [Hk Hm]. apply Z.eqb_eq in Hm. destruct (const_beg st Hk) as [Hbeg _].
    apply Z.mod_divide in Hm as [b Hb]; [|lia]. rewrite Hbeg, Hb, Z.div_mul, Z.eqb_eq by lia.
    pose proof (Z.div_mod x kSpaceSize). pose proof (Z.mod_pos_bound x kSpaceSize). split.
    + intros Ex. rewrite Ex in *. lia.
    + intros Hin. symmetry. apply (Z.div_unique _ _ _ (x - b * kSpaceSize)); lia.
  - destruct Hst as [Hb _]. unfold SpaceEnd. rewrite u64_small by lia. rewrite andb_true_iff, Z.leb_le, Z.ltb_lt. done.
Qed.

(** A block of a size class: its class, its place and the pointers into it. *)
Lemma small_block_facts s p n : comb_ok s -> small_block s p n ->
  0 < n /\ 0 < p /\ p + n < 2 ^ 64 /\ space s <= p /\ p + n <= space s + kSpaceSize /\
  forall x, p <= x < p + n -> comb_PrimaryIsMine s x = true /\ GetBlockBegin (prim s) x = p /\
    GetActuallyAllocatedSize (prim s) x = Done n.
Proof.
  intros [Hs _ _ _] (c & k & Hc & [Hin Hno] & -> & ->).
  pose proof (pk_space _ (sy_primary _ Hs)) as Hsp.
  destruct (chunk_bounds c k _ Hc (pk_region _ (sy_primary _ Hs) c Hc) Hin) as (H0 & Hm & Hfit & _).
  pose proof (class_range c Hc) as (_ & _ & Hsz & _). pose proof (region_beg_range (prim s) c Hsp Hc) as (B1 & B2 & B3).
  pose proof region_facts. assert (0 <= k * Size c) by (apply Z.mul_nonneg_nonneg; lia).
  assert (space s <= region_beg (prim s) c) by (unfold region_beg; assert (0 <= kRegionSize * c) by (apply Z.mul_nonneg_nonneg; lia); lia).
  unfold chunk_addr in *. split_and!; try lia. intros x Hx.
  replace x with (chunk_addr (prim s) c k + (x - chunk_addr (prim s) c k)) by (unfold chunk_addr; lia).
  assert (0 <= x - chunk_addr (prim s) c k < Size c) as Hxo by (unfold chunk_addr; lia).
  split; [apply (chunk_class (prim s) Hsp c k _ Hc H0 Hfit Hxo)|]. split.
  - rewrite (chunk_block_begin (prim s) Hsp c k _ Hc H0 Hfit Hxo). by rewrite (proj2 (Z.leb_le _ _) Hm).
  - by apply chunk_actual_size.
Qed.

Lemma big_block_facts s p a m n : comb_ok s -> large_block (secondary_ s) p (a, m, n) ->
  0 < a /\ a + page_size_ <= p /\ 0 < n /\ p + n <= a + m /\ a + m < 2 ^ 63 /\ (page_size_ | p) /\
  forall x, a <= x < a + m -> comb_PrimaryIsMine s x = false.
Proof.
  intros [Hs Hl Ha Hpos] Hb. pose proof (Ha p a m n Hb) as Hap. pose proof (Hpos p a m n Hb). destruct Hb as (i & Hi & -> & Hb).
  pose proof (lo_header _ Hl i Hi) as [Hh1 Hh2 Hh3 Hh4 Hh5 Hh6]. unfold map_of in *. injection Hb as <- <- <-.
  pose proof page_range. split_and!; try lia.
  - apply Z.divide_add_r; [done|apply Z.divide_refl].
  - intros x Hx. apply not_true_iff_false. unfold comb_PrimaryIsMine.
    rewrite PointerIsMine_iff by (lia || apply (pk_space _ (sy_primary _ Hs))). unfold apart in Hap. lia.
Qed.

Lemma comb_blocks_apart s p n q m : comb_ok s -> comb_block s p n -> comb_block s q m -> p <> q -> apart p n q m.
Proof.
  intros Hok [Hp|[a [k Hp]]] [Hq|[b [l Hq]]] Hne.
  - destruct Hp as (c & i & Hc & [Hin _] & -> & ->), Hq as (d & j & Hd & [Hjn _] & -> & ->).
    destruct Hok as [Hs _ _ _].
    destruct (chunk_bounds c i _ Hc (pk_region _ (sy_primary _ Hs) c Hc) Hin) as (H0 & _ & Hfit & _).
    destruct (chunk_bounds d j _ Hd (pk_region _ (sy_primary _ Hs) d Hd) Hjn) as (J0 & _ & Jfit & _).
    pose proof region_facts. apply chunks_apart; try done; try lia; [apply (pk_space _ (sy_primary _ Hs))|].
    by intros [= -> ->].
  - pose proof (small_block_facts s p n Hok Hp) as (? & ? & ? & ? & ? & _).
    pose proof (big_block_facts s q b l m Hok Hq) as (? & ? & ? & ? & ? & _).
    pose proof (co_apart s Hok q b l m Hq). unfold apart in *. pose proof page_range. lia.
  - pose proof (small_block_facts s q m Hok Hq) as (? & ? & ? & ? & ? & _).
    pose proof (big_block_facts s p a k n Hok Hp) as (? & ? & ? & ? & ? & _).
    pose proof (co_apart s Hok p a k n Hp). unfold apart in *. pose proof page_range. lia.
  - pose proof (big_block_facts s p a k n Hok Hp) as (? & ? & ? & ? & ? & _).
    pose proof (big_block_facts s q b l m Hok Hq) as (? & ? & ? & ? & ? & _).
    destruct Hp as (i & Hi & -> & Hp), Hq as (j & Hj & -> & Hq).
    assert (i <> j) as Hij by (by intros ->).
    pose proof (lo_apart _ (co_secondary s Hok) i j Hi Hj Hij) as Hap. unfold maps_apart, map_of in Hap.
    injection Hp as <- <- <-. injection Hq as <- <- <-. unfold apart in *. pose proof page_range. lia.
Qed.

(** *** Allocation *)

Lemma pow2_divide_le i j : 0 <= i <= j -> (2 ^ i | 2 ^ j).
Proof. intros Hij. exists (2 ^ (j - i)). rewrite <- Z.pow_add_r by lia. f_equal. lia. Qed.

(** The chunks of a class have the alignment of its size. *)
Lemma chunk_aligned st c k a : space_ok st -> 1 <= c <= kLargestClassID -> 0 <= a -> 2 ^ a <= kMaxSize ->
  (2 ^ a | Size c) -> (2 ^ a | chunk_addr st c k).
Proof.
  intros [_ Hal] Hc Ha Hle Hd. destruct region_size as (r & HR & Hr & _). pose proof scm_powers as (_ & _ & _ & HX & _).
  rewrite HX in Hle, Hal. pose proof scm_max. pose proof scm_min.
  apply Z.pow_le_mono_r_iff in Hle; [|lia|lia].
  unfold chunk_addr, region_beg. apply Z.divide_add_r; [apply Z.divide_add_r|by apply Z.divide_mul_r].
  - apply (Z.divide_trans _ (2 ^ kMaxSizeLog)); [apply pow2_divide_le; lia|]. apply Z.mod_divide; [|done].
    pose proof (Z.pow_pos_nonneg 2 kMaxSizeLog). lia.
  - apply Z.divide_mul_l. rewrite HR. apply pow2_divide_le. lia.
Qed.

(** The size that is looked up: at least what was asked for, a multiple of an
    alignment above 8. *)
Lemma rounded_size size al r :
  1 <= size < 2 ^ 64 -> 0 < al < 2 ^ 64 -> size <= size +64 al ->
  (if 8 <? al then RoundUpTo size al else mret size) = Done r ->
  size <= r < 2 ^ 64 /\ (8 < al -> exists k, 0 <= k < 64 /\ al = 2 ^ k /\ (2 ^ k | r)).
Proof.
  intros Hs Ha Hov. destruct (Z.ltb_spec 8 al) as [H8|H8]; intros E; [|injection E as <-; lia].
  assert (size + al < 2 ^ 64) as Hno.
  { destruct (Z.lt_ge_cases (size + al) (2 ^ 64)) as [|Hge]; [done|]. unfold u64 in Hov.
    rewrite <- (Z_mod_plus_full _ (-1)), Z.mod_small in Hov; lia. }
  unfold RoundUpTo in E. destruct (IsPowerOfTwo al) eqn:Ep; [|done].
  apply IsPowerOfTwo_spec in Ep as [->|(k & Hk & ->)]; [lia| |lia].
  assert (RoundUpTo size (2 ^ k) = Done r) as E2.
  { unfold RoundUpTo. by rewrite (proj2 (IsPowerOfTwo_spec (2 ^ k) ltac:(lia))) by (right; by exists k). }
  destruct (RoundUpTo_bounds size k r Hk ltac:(lia) ltac:(lia) E2) as (H1 & H2 & H3).
  split; [lia|]. intros _. by exists k.
Qed.

Lemma comb_ext s s' : comb_ok s -> sys_ok (primary_ s') -> space s' = space s -> secondary_ s' = secondary_ s -> comb_ok s'.
Proof. intros [_ Hl Ha Hp] Hs Eb El. split; [done|by rewrite El| |]; intros p a m n; rewrite El, ?Eb; [apply Ha|apply Hp]. Qed.

(** A new block. *)
Definition new_block s s' (p n : Z) : Prop :=
  (forall q m, comb_block s q m -> q <> p /\ apart p n q m) /\
  forall q m, comb_block s' q m <-> (q = p /\ m = n) \/ comb_block s q m.

(** A mapping of [s'] that [s] does not have is an answer of the system. *)
Definition from_system (e : CombEnv) s s' : Prop :=
  forall q a m n, large_block (secondary_ s') q (a, m, n) -> large_block (secondary_ s) q (a, m, n) \/
    (0 < m /\ a = internal_mmap (ce_mmap e) m /\ internal_iserror a = None /\ a <> 0).

Definition same_blocks s s' : Prop :=
  forall q m, (small_block s' q m <-> small_block s q m) /\ (big_block s' q m <-> big_block s q m).

Lemma same_space st st' c k : SpaceBeg st' = SpaceBeg st -> chunk_addr st' c k = chunk_addr st c k.
Proof. intros E. unfold chunk_addr, region_beg. by rewrite E. Qed.

Lemma primary_allocate e t c p s s' pr :
  comb_ok s -> 1 <= c <= kLargestClassID -> sys_Allocate (ce_os e) t c (primary_ s) = Done (p, pr) ->
  s' = with_primary s pr ->
  comb_ok s' /\ space s' = space s /\
  if p =? 0 then same_blocks s s'
  else small_block s' p (Size c) /\ new_block s s' p (Size c) /\
       (forall k, 0 <= k -> 2 ^ k <= kMaxSize -> (2 ^ k | Size c) -> (2 ^ k | p)).
Proof.
  intros Hok Hc E ->. destruct (allocate_spec (ce_os e) (primary_ s) t c p pr Hc (co_primary s Hok) E) as (Hs' & Ebeg & Hcase).
  assert (comb_ok (with_primary s pr)) as Hok' by by apply (comb_ext s).
  split; [done|]. split; [done|]. destruct (Z.eqb_spec p 0) as [->|Hp].
  - intros q m. split; [|done]. unfold small_block. cbn.
    split; intros (d & j & Hd & Ho & -> & ->); exists d, j; rewrite (same_space _ _ _ _ Ebeg);
      (split; [done|]; split; [by apply Hcase|done]).
  - destruct Hcase as (k & -> & Hno & Hin & Hown).
    assert (forall q m, small_block (with_primary s pr) q m <->
      (q = chunk_addr (prim s) c k /\ m = Size c) \/ small_block s q m) as Hsmall.
    { intros q m. unfold small_block. cbn. split.
      - intros (d & j & Hd & Ho & -> & ->). rewrite (same_space _ _ _ _ Ebeg).
        apply Hown in Ho as [Ho|[= -> ->]]; [right; by exists d, j|by left|done].
      - intros [[-> ->]|(d & j & Hd & Ho & -> & ->)].
        + exists c, k. rewrite (same_space _ _ _ _ Ebeg). split; [done|]. split; [apply Hown; [done|by right]|done].
        + exists d, j. rewrite (same_space _ _ _ _ Ebeg). split; [done|]. split; [apply Hown; [done|by left]|done]. }
    assert (small_block (with_primary s pr) (chunk_addr (prim s) c k) (Size c)) as Hnew by (apply Hsmall; by left).
    split; [exact Hnew|]. split.
    + split.
      * intros q m Hq. assert (q <> chunk_addr (prim s) c k) as Hne.
        { intros ->. destruct Hq as [(d & j & Hd & Ho & Ea & ->)|[b [l Hq]]].
          - destruct (decide ((c, k) = (d, j))) as [[= <- <-]|Hcj]; [by apply Hno|].
            destruct (chunk_bounds c k _ Hc (pk_region _ (sy_primary _ Hs') c Hc) Hin) as (H0 & _ & Hfit & _).
            destruct (chunk_bounds d j _ Hd (pk_region _ (sy_primary _ (co_primary s Hok)) d Hd) (proj1 Ho)) as (J0 & _ & Jfit & _).
            pose proof region_facts. pose proof (class_range c Hc). pose proof (class_range d Hd).
            destruct (chunks_apart (prim s) c k d j (pk_space _ (sy_primary _ (co_primary s Hok))) Hc Hd H0 J0) as [?|?];
              try done; lia.
          - pose proof (big_block_facts s _ b l m Hok Hq) as (? & ? & ? & ? & ? & _).
            pose proof (co_apart s Hok _ b l m Hq) as Hap.
            pose proof (small_block_facts _ _ _ Hok' Hnew) as (? & ? & ? & ? & ? & _). cbn in *. rewrite Ebeg in *.
            unfold apart in Hap. pose proof page_range. lia. }
        split; [done|]. apply (comb_blocks_apart (with_primary s pr)); [done|by left| |congruence].
        destruct Hq as [Hq|Hq]; [left; apply Hsmall; by right|by right].
      * intros q m. unfold comb_block. rewrite Hsmall. change (big_block (with_primary s pr) q m) with (big_block s q m). tauto.
    + intros j Hj Hle Hd. by apply chunk_aligned; [apply (pk_space _ (sy_primary _ (co_primary s Hok)))|..].
Qed.

Lemma secondary_allocate e size k p s s' l st :
  comb_ok s -> comb_law e s -> 0 <= k < 64 -> 1 <= size < 2 ^ 64 ->
  large_Allocate (ce_mmap e) (secondary_ s) (stats_ s) size (2 ^ k) = Done (p, l, st) ->
  s' = with_secondary s l st ->
  comb_ok s' /\ space s' = space s /\ from_system e s s' /\
  if p =? 0 then same_blocks s s'
  else big_block s' p size /\ new_block s s' p size /\ (2 ^ k | p).
Proof.
  intros Hok [_ Hlaw Hsp] Hk Hsz E ->. pose proof (co_secondary s Hok) as Hl. pose proof page_range.
  destruct (allocate_at (ce_mmap e) (secondary_ s) (stats_ s) size k p l st Hl Hlaw Hk ltac:(lia) E)
    as [(-> & -> & ->)|(m & Ea & Ha0 & Hm & Hmp & H1 & H2 & H3 & H4 & Hl' & Hb)].
  { cbn [Z.eqb]. split; [by destruct s|]. split; [done|]. split; [intros q a m n Hq; by left|]. intros q n. by destruct s. }
  set (a := internal_mmap (ce_mmap e) m) in *.
  destruct (Hlaw m Hm Hmp Ea Ha0) as (Hapos & _ & _ & Hap). fold a in Hapos, Hap.
  rewrite (proj2 (Z.eqb_neq p 0)) by lia.
  assert (comb_ok (with_secondary s l st)) as Hok'.
  { split; [apply Hok|done| |]; intros q b n k' Hq; cbn in Hq |- *; apply Hb in Hq as [[-> [= -> -> ->]]|Hq].
    - by apply Hsp.
    - by apply (co_apart s Hok q b n k').
    - lia.
    - by apply (co_pos s Hok q b n k'). }
  split; [done|]. split; [done|]. split.
  { intros q b n k' Hq. cbn in Hq. apply Hb in Hq as [[-> [= -> -> ->]]|Hq]; [by right|by left]. }
  assert (forall q n, big_block (with_secondary s l st) q n <-> (q = p /\ n = size) \/ big_block s q n) as Hbig.
  { intros q n. unfold big_block. cbn. setoid_rewrite Hb. split.
    - intros (b & k' & [[-> [= -> -> ->]]|Hq]); [by left|right; by exists b, k'].
    - intros [[-> ->]|(b & k' & Hq)]; [exists a, m; by left|exists b, k'; by right]. }
  assert (big_block (with_secondary s l st) p size) as Hnew by (apply Hbig; by left).
  split; [done|]. split; [|done]. split.
  - intros q n Hq. assert (q <> p) as Hne.
    { intros ->. destruct Hq as [Hq|(b & k' & i & Hi & -> & Hx)].
      - pose proof (small_block_facts s p n Hok Hq) as (? & ? & ? & ? & ? & _).
        pose proof (Hsp m Hm Ea Ha0) as Hx. fold a in Hx. unfold apart in Hx. lia.
      - specialize (Hap i Hi). destruct (chunk_place _ i Hl Hi) as (? & ? & ? & _). unfold apart in Hap. lia. }
    split; [done|]. apply (comb_blocks_apart (with_secondary s l st)); [done|by right| |congruence].
    destruct Hq as [Hq|Hq]; [by left|right; apply Hbig; by right].
  - intros q n. unfold comb_block. rewrite Hbig. change (small_block (with_secondary s l st) q n) with (small_block s q n). tauto.
Qed.

Lemma pow2_low a k : 0 <= a -> 0 <= k < 64 -> (2 ^ k | a) -> Z.land a (2 ^ k -64 1) = 0.
Proof. intros Ha Hk Hd. apply Z.eqb_eq. by apply (pow2_aligned a k). Qed.

(** What an allocation does, whichever allocator serves it. *)
Lemma comb_allocate_spec e t size al s p s' :
  comb_ok s -> comb_law e s -> 0 <= size < 2 ^ 64 -> 0 < al < 2 ^ 64 ->
  comb_Allocate e t size al s = Done (p, s') ->
  comb_ok s' /\ space s' = space s /\ from_system e s s' /\
  if p =? 0 then same_blocks s s'
  else (forall k, 0 <= k -> al = 2 ^ k -> (2 ^ k | p)) /\
       exists n, size <= n /\ new_block s s' p n /\
         (small_block s' p n \/ big_block s' p n /\ n = if size =? 0 then 1 else size).
Proof.
  intros Hok Hlaw Hs Ha E. unfold comb_Allocate in E.
  set (sz := if size =? 0 then 1 else size) in *.
  assert (1 <= sz < 2 ^ 64 /\ size <= sz) as [Hsz Hle] by (unfold sz; destruct (Z.eqb_spec size 0); lia). clearbody sz.
  destruct (Z.ltb_spec (sz +64 al) sz) as [|Hov].
  { injection E as <- <-. split; [done|]. split; [done|]. split; [intros q a m n Hq; by left|done]. }
  apply bind_done in E as (r & Er & E). destruct (rounded_size sz al r Hsz Ha Hov Er) as [Hr Hal].
  apply bind_done in E as ([p1 s1] & E1 & E). apply bind_done in E as ([] & Hck & E). injection E as <- <-.
  destruct (CanAllocate r al) eqn:Hcan.
  - unfold CanAllocate in Hcan. bool_hyps. apply bind_done in E1 as (c & Ec & E1).
    apply bind_done in E1 as ([p2 pr] & E2 & E1). injection E1 as <- <-.
    destruct (ClassID_fits r) as (c' & Ec' & Hf); [lia|]. rewrite Ec in Ec'. injection Ec' as <-.
    destruct Hf as [Hc Hfit].
    destruct (primary_allocate e t c p2 s _ pr Hok Hc E2 eq_refl) as (H1 & H2 & H3).
    split; [done|]. split; [done|]. split; [intros q a m n Hq; by left|].
    destruct (Z.eqb_spec p2 0) as [->|Hne]; [done|]. destruct H3 as (H3 & H4 & H5).
    split.
    + intros k Hk ->. apply H5; [done|done|]. destruct (Z.lt_ge_cases 8 (2 ^ k)) as [H8|H8].
      * destruct (Hal H8) as (k' & Hk' & Ek & Hd). apply Z.pow_inj_r in Ek as ->; [|lia..].
        apply (class_size_multiple r k' c); [lia|done|by split].
      * assert (k <= 3) by (apply (Z.pow_le_mono_r_iff 2); lia).
        destruct (size_16 c Hc) as [-> _]. apply Z.divide_mul_l. apply (pow2_divide_le k 4). lia.
    + exists (Size c). split; [lia|]. split; [done|by left].
  - apply bind_done in E1 as ([[p2 l] st] & E2 & E1). injection E1 as <- <-.
    assert (exists k, 0 <= k < 64 /\ al = 2 ^ k) as (k & Hk & ->).
    { unfold large_Allocate in E2. apply bind_done in E2 as ([] & Hp & _). apply check_done in Hp.
      apply IsPowerOfTwo_spec in Hp as [->|?]; [lia|done|lia]. }
    destruct (secondary_allocate e sz k p2 s _ l st Hok Hlaw Hk Hsz E2 eq_refl) as (H1 & H2 & Hfrom & H3).
    split; [done|]. split; [done|]. split; [done|]. destruct (p2 =? 0); [done|]. destruct H3 as (H3 & H4 & H5).
    split; [intros k' Hk' Ek; by apply Z.pow_inj_r in Ek as <-; [|lia..]|].
    exists sz. split; [lia|]. split; [done|by right].
Qed.

(** The check after the allocation cannot fail. *)
Lemma aligned_check al p : 0 <= p -> 0 < al < 2 ^ 64 -> (forall k, 0 <= k -> al = 2 ^ k -> (2 ^ k | p)) ->
  (exists k, 0 <= k < 64 /\ al = 2 ^ k) -> Z.land p (al -64 1) = 0.
Proof. intros Hp Ha Hd (k & Hk & ->). apply pow2_low; [done|done|]. by apply Hd; [lia|]. Qed.

(** *** Deallocation *)

Lemma comb_deallocate_spec e t p n s s' rs :
  comb_ok s -> os_ok (ce_os e) -> comb_block s p n -> comb_Deallocate e t p s = Done (s', rs) ->
  comb_ok s' /\ space s' = space s /\ (forall q m, comb_block s' q m <-> q <> p /\ comb_block s q m) /\
  (small_block s p n -> rs = []) /\
  forall a m, large_block (secondary_ s) p (a, m, n) -> rs = [(a, m)].
Proof.
  intros Hok Hos Hb E. unfold comb_Deallocate in E.
  assert (0 < p) as Hp.
  { destruct Hb as [Hb|[a [m Hb]]].
    - pose proof (small_block_facts s p n Hok Hb). lia.
    - pose proof (big_block_facts s p a m n Hok Hb). pose proof page_range. lia. }
  rewrite (proj2 (Z.eqb_neq p 0)) in E by lia.
  destruct Hb as [Hb|[a [m Hb]]].
  - pose proof (small_block_facts s p n Hok Hb) as (H1 & _ & _ & _ & _ & Hlook).
    destruct (Hlook p ltac:(lia)) as (Hmine & _). rewrite Hmine in E.
    pose proof Hb as (c & k & Hc & Ho & -> & ->). destruct Ho as [Hin Hno].
    pose proof (pk_space _ (sy_primary _ (co_primary s Hok))) as Hsp.
    destruct (chunk_bounds c k _ Hc (pk_region _ (sy_primary _ (co_primary s Hok)) c Hc) Hin) as (H0 & _ & Hfit & _).
    destruct (chunk_class (prim s) Hsp c k 0 Hc H0 Hfit ltac:(lia)) as [_ Hcl]. rewrite Z.add_0_r in Hcl. rewrite Hcl in E.
    apply bind_done in E as ([pr rs1] & E & E2). injection E2 as <- <-.
    destruct (deallocate_spec (ce_os e) (primary_ s) t c k pr rs1 Hc (co_primary s Hok) Hos (conj Hin Hno) E) as (Hs' & Ebeg & _ & Hown).
    assert (comb_ok (with_primary s pr)) as Hok' by by apply (comb_ext s).
    split; [done|]. split; [done|]. split; [|split; [done|]].
    + intros q m. split.
      * intros [(d & j & Hd & Hoj & -> & ->)|Hq].
        -- cbn in Hoj |- *. rewrite (same_space _ _ _ _ Ebeg). apply Hown in Hoj as [Hoj Hne]; [|done]. split; [|left; by exists d, j].
           intros Ea. destruct (chunk_bounds d j _ Hd (pk_region _ (sy_primary _ (co_primary s Hok)) d Hd) (proj1 Hoj)) as (J0 & _ & Jfit & _).
           pose proof region_facts. pose proof (class_range d Hd).
           destruct (chunks_apart (prim s) c k d j Hsp Hc Hd H0 J0) as [?|?]; try lia. congruence.
        -- change (big_block s q m) in Hq. split; [|by right]. intros ->. destruct Hq as [a [l Hq]].
           pose proof (big_block_facts s _ a l m Hok Hq) as (? & ? & ? & ? & ? & _ & Hf).
           rewrite Hf in Hmine; [done|]. pose proof page_range. lia.
      * intros [Hne [(d & j & Hd & Hoj & -> & ->)|Hq]]; [left|by right]. exists d, j. cbn.
        rewrite (same_space _ _ _ _ Ebeg). split; [done|]. split; [|done]. apply Hown; [done|]. split; [done|].
        by intros [= -> ->].
    + intros a m Hl. pose proof (big_block_facts s _ a m _ Hok Hl) as (? & ? & ? & ? & ? & _ & Hf).
      rewrite Hf in Hmine; [done|]. pose proof page_range. lia.
  - pose proof (big_block_facts s p a m n Hok Hb) as (H1 & H2 & H3 & H4 & H5 & H6 & Hf). pose proof page_range.
    rewrite Hf in E by lia.
    destruct (deallocate_at (secondary_ s) (stats_ s) p a m n (co_secondary s Hok) Hb) as (l & El & Hl & Hbl).
    rewrite El in E. cbn [mbind outcome_bind] in E. injection E as <- <-.
    assert (comb_ok (with_secondary s l (stats_Sub_mapped (stats_Sub_allocated (stats_ s) m) m))) as Hok'.
    { split; [apply Hok|done| |]; intros q b k i Hq; cbn in Hq |- *; apply Hbl in Hq as [_ Hq];
        [by apply (co_apart s Hok q b k i)|by apply (co_pos s Hok q b k i)]. }
    split; [done|]. split; [done|]. split; [|split].
    + intros q i. unfold comb_block, big_block. cbn. setoid_rewrite Hbl. split.
      * intros [Hq|(b & k & Hne & Hq)]; [|split; [done|right; by exists b, k]]. split; [|by left].
        intros ->. pose proof (small_block_facts s p i Hok Hq) as (? & ? & ? & ? & ? & Hlook).
        destruct (Hlook p ltac:(lia)) as (Hmine & _). rewrite Hf in Hmine; [done|lia].
      * intros [Hne [Hq|(b & k & Hq)]]; [by left|right; by exists b, k].
    + intros Hq. pose proof (small_block_facts s p n Hok Hq) as (? & ? & ? & ? & ? & Hlook).
      destruct (Hlook p ltac:(lia)) as (Hmine & _). rewrite Hf in Hmine; [done|lia].
    + intros b k Hq. destruct Hb as (i & Hi & Ep & Hx), Hq as (j & Hj & Eq & Hy).
      assert (i = j) as -> by (apply (chunks_distinct (secondary_ s)); [apply Hok|done|done|lia]).
      rewrite Hx in Hy. by injection Hy as -> ->.
Qed.

(** *** Lookup *)

(** The mapping of a large block meets no other block. *)
Lemma mapping_apart s p a m n q j : comb_ok s -> large_block (secondary_ s) p (a, m, n) ->
  comb_block s q j -> q <> p -> apart a m q j.
Proof.
  intros Hok Hp Hq Hne. pose proof page_range. destruct Hq as [Hq|(b & l & Hq)].
  - pose proof (small_block_facts s q j Hok Hq) as (? & ? & ? & ? & ? & _).
    pose proof (co_apart s Hok p a m n Hp). unfold apart in *. lia.
  - pose proof (big_block_facts s q b l j Hok Hq) as (? & ? & ? & ? & ? & _).
    destruct Hp as (i & Hi & -> & Hp), Hq as (k & Hk & -> & Hq).
    assert (i <> k) as Hik by (by intros ->).
    pose proof (lo_apart _ (co_secondary s Hok) i k Hi Hk Hik) as Hap. unfold maps_apart, map_of in Hap.
    injection Hp as <- <- <-. injection Hq as <- <- <-. unfold apart in *. lia.
Qed.

(** Rounding the size up to pages stays in the mapping. *)
Lemma rounded_fits s p a m n u : comb_ok s -> large_block (secondary_ s) p (a, m, n) ->
  (page_size_ | u) -> u < n + page_size_ -> p + u <= a + m.
Proof.
  intros Hok Hb Hu Hlt. pose proof (big_block_facts s p a m n Hok Hb) as (_ & _ & _ & Hfit & _ & [x Hx] & _).
  destruct Hb as (i & Hi & _ & Hb). pose proof (ho_map _ _ (lo_header _ (co_secondary s Hok) i Hi)) as Hm.
  unfold map_of in Hm. injection Hb as Ha Hm2 _. rewrite Ha, Hm2 in Hm. destruct Hm as [y Hy], Hu as [z Hz].
  pose proof page_range. assert (x + z <= y); [|rewrite Hx, Hz, Hy, <- Z.mul_add_distr_r; apply Z.mul_le_mono_nonneg_r; lia].
  assert (x + z < y + 1); [|lia]. apply (Z.mul_lt_mono_pos_r page_size_); lia.
Qed.

Lemma comb_lookup s p n x : comb_ok s -> comb_block s p n -> p <= x < p + n ->
  comb_GetBlockBegin s x = Done p /\ comb_PointerIsMine s x = Done true /\
  (exists s', comb_GetBlockBeginFastLocked s x = Done (p, s') /\ forall q m, comb_block s' q m <-> comb_block s q m) /\
  exists u, comb_GetActuallyAllocatedSize s p = Done u /\ n <= u /\
    forall q m, comb_block s q m -> q <> p -> apart p u q m.
Proof.
  intros Hok Hb Hx.
  assert (comb_block s p n) as Hbp by done.
  destruct Hb as [Hb|[a [m Hb]]].
  - pose proof (small_block_facts s p n Hok Hb) as (H1 & _ & _ & _ & _ & Hlook).
    destruct (Hlook x Hx) as (Hmine & Hbeg & _). destruct (Hlook p ltac:(lia)) as (Hmine0 & _ & Hact).
    unfold comb_GetBlockBegin, comb_PointerIsMine, comb_GetBlockBeginFastLocked, comb_GetActuallyAllocatedSize.
    rewrite Hmine, Hmine0, Hbeg. split; [done|]. split; [done|]. split; [by exists s|].
    exists n. split; [done|]. split; [lia|]. intros q i Hq Hne. by apply (comb_blocks_apart s); try congruence.
  - pose proof (big_block_facts s p a m n Hok Hb) as (H1 & H2 & H3 & H4 & H5 & H6 & Hf). pose proof page_range as Hpg.
    unfold comb_GetBlockBegin, comb_PointerIsMine, comb_GetBlockBeginFastLocked, comb_GetActuallyAllocatedSize.
    rewrite !Hf by lia. pose proof (co_secondary s Hok) as Hl.
    destruct (GetBlockBegin_lookup (secondary_ s) x Hl ltac:(lia)) as (r & E & Ha).
    assert (r = p /\ p <> 0) as [-> Hp0].
    { apply (proj2 (lookup_block (secondary_ s) x r Hl Ha p)). exists a, m, n. split; [done|lia]. }
    destruct (FastLocked_lookup (secondary_ s) x Hl ltac:(lia)) as (r' & l & E' & Ha' & _ & Hbl).
    rewrite (lookup_answer_once (secondary_ s) x r' p Hl Ha' Ha) in E'.
    split; [done|]. split.
    { unfold large_PointerIsMine. rewrite E. cbn. by rewrite (proj2 (Z.eqb_neq p 0)) by done. }
    split.
    { rewrite E'. eexists. split; [reflexivity|]. intros q i. unfold comb_block, big_block. cbn. by setoid_rewrite Hbl. }
    unfold large_GetActuallyAllocatedSize. rewrite GetHeader_block by (done || lia). cbn [mbind outcome_bind].
    pose proof Hb as (i & Hi & Ep & Hx2). rewrite Ep, Z.add_simpl_r. injection Hx2 as Ha2 Hm2 Hn2. rewrite Hn2.
    destruct (RoundUp_page n ltac:(lia)) as (u & Eu & Hd & Hu). exists u. rewrite Eu, <- Ep. split; [done|].
    destruct Hu as [[Hu _]|[-> Hu]]; [|lia]. split; [lia|].
    pose proof (rounded_fits s p a m n u Hok Hb Hd ltac:(lia)) as Hend.
    intros q j Hq Hne. pose proof (mapping_apart s p a m n q j Hok Hb Hq Hne) as Hap. unfold apart in *. lia.
Qed.

(** *** Iteration and maintenance *)

Lemma comb_primary_step s pr : comb_ok s -> same_owners (primary_ s) pr ->
  comb_ok (with_primary s pr) /\ space (with_primary s pr) = space s /\ same_blocks s (with_primary s pr).
Proof.
  intros Hok [Hs Ebeg Hown]. split; [by apply (comb_ext s)|]. split; [done|]. intros q m. split; [|done].
  unfold small_block. cbn.
  split; intros (c & k & Hc & Ho & -> & ->); exists c, k; rewrite (same_space _ _ _ _ Ebeg);
    (split; [done|]; split; [by apply Hown|done]).
Qed.

Lemma SwallowCache_spec e t s s' : comb_ok s -> os_ok (ce_os e) -> SwallowCache e t s = Done s' ->
  comb_ok s' /\ space s' = space s /\ same_blocks s s'.
Proof.
  intros Hok Hos E. apply bind_done in E as ([pr rs] & E & [= <-]).
  apply comb_primary_step; [done|]. by apply (sys_drain_spec (ce_os e) t (primary_ s) pr rs (co_primary s Hok) Hos E).
Qed.

(** ** Executions *)

Inductive comb_step : CombinedAllocator -> CombinedAllocator -> Prop :=
| comb_step_allocate e t size al p s s' :
    comb_law e s -> 0 <= size < 2 ^ 64 -> 0 < al < 2 ^ 64 -> comb_Allocate e t size al s = Done (p, s') -> comb_step s s'
| comb_step_deallocate e t p n s s' rs :
    os_ok (ce_os e) -> comb_block s p n -> comb_Deallocate e t p s = Done (s', rs) -> comb_step s s'
| comb_step_fast_lookup p r s s' :
    0 <= p < 2 ^ 64 -> comb_GetBlockBeginFastLocked s p = Done (r, s') -> comb_step s s'
| comb_step_swallow e t s s' :
    os_ok (ce_os e) -> SwallowCache e t s = Done s' -> comb_step s s'
| comb_step_destroy e t s s' :
    os_ok (ce_os e) -> DestroyCache e t s = Done s' -> comb_step s s'.

Definition combined0 (st : Primary) : CombinedAllocator := mkCombined (fresh_system st) large0 (mkStats 0 0) [].

Lemma combined0_ok st : space_ok st -> (forall c, regions st c = region0) -> comb_ok (combined0 st).
Proof.
  intros Hst Hr. split; [by apply fresh_ok|apply large0_ok| |]; intros p a m n (i & Hi & _); cbn in Hi; lia.
Qed.

Lemma same_stats s a r : comb_ok s -> comb_ok (mkCombined (primary_ s) (secondary_ s) a r).
Proof. by intros [? ? ? ?]. Qed.

Lemma comb_step_ok s s' : comb_step s s' -> comb_ok s -> comb_ok s'.
Proof.
  intros Hstep Hok. destruct Hstep as [e t size al p s s' Hl Hs Ha E|e t p n s s' rs Hos Hb E|p r s s' Hp E|e t s s' Hos E|e t s s' Hos E].
  - by apply (comb_allocate_spec e t size al s p s').
  - by apply (comb_deallocate_spec e t p n s s' rs).
  - unfold comb_GetBlockBeginFastLocked in E. destruct (comb_PrimaryIsMine s p); [by injection E as <- <-|].
    apply bind_done in E as ([r2 l] & E & [= <- <-]).
    destruct (FastLocked_lookup (secondary_ s) p (co_secondary s Hok) Hp) as (r' & l' & E' & _ & Hl & Hb).
    rewrite E in E'. injection E' as -> ->.
    split; [apply Hok|done| |]; intros q a m n Hq; cbn in Hq; apply Hb in Hq; [by apply (co_apart s Hok q a m n)|by apply (co_pos s Hok q a m n)].
  - by apply (SwallowCache_spec e t s s').
  - apply bind_done in E as (s2 & E & [= <-]). apply same_stats. by apply (SwallowCache_spec e t s s2).
Qed.

Lemma comb_reachable_ok s s' : rtc comb_step s s' -> comb_ok s -> comb_ok s'.
Proof. induction 1 as [|s1 s2 s3 Hs _ IH]; [done|]. intros Hok. apply IH. by eapply comb_step_ok. Qed.

(** the composition hands out memory once.  In every state an execution of the
    combined allocator can reach, with any number of threads: an allocation that
    succeeds answers a block with at least the bytes asked for and the alignment
    asked for, which meets no live block, whichever of the two allocators the
    blocks come from, and leaves those live. *)
Theorem combined_allocation_is_exclusive os ie interval st0 s e t size k p s' :
  kUsingConstantSpaceBeg = true -> Init os ie interval 0 = Done st0 -> rtc comb_step (combined0 st0) s ->
  comb_law e s -> 0 <= size < 2 ^ 64 -> 0 <= k < 64 ->
  comb_Allocate e t size (2 ^ k) s = Done (p, s') -> p <> 0 ->
  (2 ^ k | p) /\ exists n, size <= n /\ comb_block s' p n /\
    (forall q m, comb_block s q m -> q <> p /\ apart p n q m) /\
    forall q m, comb_block s' q m <-> (q = p /\ m = n) \/ comb_block s q m.
Proof.
  intros Hk Hinit Hrun Hlaw Hs Hk64 E Hp. destruct (Init_ok _ _ _ _ Hk Hinit) as [Hsp Hr].
  pose proof (comb_reachable_ok _ _ Hrun (combined0_ok st0 Hsp Hr)) as Hok.
  assert (0 < 2 ^ k < 2 ^ 64) as Ha by (split; [lia|apply Z.pow_lt_mono_r; lia]).
  destruct (comb_allocate_spec e t size (2 ^ k) s p s' Hok Hlaw Hs Ha E) as (_ & _ & _ & Hcase).
  rewrite (proj2 (Z.eqb_neq p 0) Hp) in Hcase. destruct Hcase as (Hd & n & Hn & [Hnew Hiff] & _).
  split; [by apply Hd; [lia|]|]. exists n. split; [done|]. split; [apply Hiff; by left|]. by split.
Qed.

(** C19: pointers are decoded right by the composition.  In every reachable state,
    from every address inside a live block: [GetBlockBegin] and its fast version
    answer the block, the pointer is the allocator's, and the size it claims for
    the block covers what was asked for and meets no other live block. *)
Theorem combined_lookup_exact os ie interval st0 s p n x :
  kUsingConstantSpaceBeg = true -> Init os ie interval 0 = Done st0 -> rtc comb_step (combined0 st0) s ->
  comb_block s p n -> p <= x < p + n ->
  comb_GetBlockBegin s x = Done p /\ comb_PointerIsMine s x = Done true /\
  (exists s', comb_GetBlockBeginFastLocked s x = Done (p, s') /\ forall q m, comb_block s' q m <-> comb_block s q m) /\
  exists u, comb_GetActuallyAllocatedSize s p = Done u /\ n <= u /\
    forall q m, comb_block s q m -> q <> p -> apart p u q m.
Proof.
  intros Hk Hinit Hrun Hb Hx. destruct (Init_ok _ _ _ _ Hk Hinit) as [Hsp Hr].
  by apply comb_lookup; [apply (comb_reachable_ok _ _ Hrun), combined0_ok|..].
Qed.
End invariant.

(** ** Statistics *)

Section statistics.
Context `{SizeClassMapParams, Primary64Params, SecondaryParams}.

Definition sum (g : Z -> Z) (l : list Z) : Z := fold_right (fun t n => g t + n) 0 l.

Lemma fold_u64 g l a : 0 <= a < 2 ^ 64 -> fold_left (fun n t => n +64 g t) l a = u64 (a + sum g l).
Proof.
  revert a. induction l as [|t l IH]; intros a Ha; cbn [fold_left sum fold_right].
  - rewrite u64_small; lia.
  - fold (sum g l). rewrite IH by apply u64_range. unfold u64. rewrite Zplus_mod_idemp_l. f_equal. lia.
Qed.

Lemma sum_remove g t l : NoDup l -> t ∈ l -> sum g l = g t + sum g (List.remove Z.eq_dec t l).
Proof.
  induction 1 as [|u l Hu Hnd IH]; [by intros ?%not_elem_of_nil|]. cbn [sum fold_right List.remove].
  destruct (Z.eq_dec t u) as [->|Hne].
  - intros _. rewrite notin_remove; [done|]. by rewrite <- list_elem_of_In.
  - intros [->|Ht]%elem_of_cons; [done|]. cbn [sum fold_right]. fold (sum g l). rewrite IH by done.
    fold (sum g (List.remove Z.eq_dec t l)). lia.
Qed.

Lemma drain_classes_stats os l : forall st ca st' ca' rs,
  drain_classes os l st ca = Done (st', ca', rs) -> stats ca' = stats ca.
Proof.
  induction l as [|i l IH]; intros st ca st' ca' rs E; cbn [drain_classes] in E; [by injection E as <- <- <-|].
  apply bind_done in E as ([[st1 ca1] rs1] & E1 & E). apply bind_done in E as ([[st2 ca2] rs2] & E2 & E).
  injection E as <- <- <-. rewrite (IH _ _ _ _ _ E2). destruct (0 <? count (per_class ca i)); [|by injection E1 as <- <- <-].
  unfold drain_class in E1. apply bind_done in E1 as ([] & _ & E1). apply bind_done in E1 as ([st3 rs3] & _ & E1).
  by injection E1 as <- <- <-.
Qed.

(** a thread that exits takes no memory out of the statistics: destroying a
    registered cache leaves the totals as they were. *)
Theorem DestroyCache_keeps_totals e t s s' :
  NoDup (registered s) -> t ∈ registered s ->
  0 <= AllocatorStatAllocated (stats_ s) < 2 ^ 64 -> 0 <= AllocatorStatMapped (stats_ s) < 2 ^ 64 ->
  DestroyCache e t s = Done s' ->
  ~ t ∈ registered s' /\ GetStats s' = GetStats s.
Proof.
  intros Hnd Ht Ha Hm E. apply bind_done in E as (s2 & E & [= <-]).
  apply bind_done in E as ([pr rs] & E & [= <-]). apply bind_done in E as ([[st ca] rs1] & E & [= <- _]).
  apply drain_classes_stats in E.
  split; [cbn; rewrite list_elem_of_In; apply remove_In|].
  assert (forall u, stats (sys_caches (with_cache (primary_ s) t st ca) u) = stats (sys_caches (primary_ s) u)) as Hst.
  { intros u. cbn. unfold upd. by destruct (Z.eqb_spec u t) as [->|]. }
  assert (forall f, (forall a b, f (mkStats a b) = a) \/ (forall a b, f (mkStats a b) = b) -> 0 <= f (stats_ s) < 2 ^ 64 ->
    stat_total f (Unregister t (with_primary s (with_cache (primary_ s) t st ca))) = stat_total f s) as Htot.
  { intros f Hf Hr. unfold stat_total, Unregister. cbn [registered stats_ primary_ with_primary].
    assert (forall l a, fold_left (fun n u => n +64 f (stats (sys_caches (with_cache (primary_ s) t st ca) u))) l a
      = fold_left (fun n u => n +64 f (stats (sys_caches (primary_ s) u))) l a) as -> .
    { induction l as [|u l IH]; intros a; cbn [fold_left]; [done|]. by rewrite Hst, IH. }
    rewrite Hst. set (g := fun u => f (stats (sys_caches (primary_ s) u))).
    assert (f (stats_Add_mapped (stats_Add_allocated (stats_ s) (AllocatorStatAllocated (stats (sys_caches (primary_ s) t))))
      (AllocatorStatMapped (stats (sys_caches (primary_ s) t)))) = f (stats_ s) +64 g t) as ->.
    { unfold g, stats_Add_mapped, stats_Add_allocated. destruct (stats_ s) as [a1 a2], (stats (sys_caches (primary_ s) t)) as [b1 b2].
      cbn [AllocatorStatAllocated AllocatorStatMapped]. destruct Hf as [Hf|Hf]; rewrite !Hf; done. }
    rewrite (fold_u64 g) by apply u64_range. rewrite (fold_u64 g) by done.
    rewrite (sum_remove g t (registered s) Hnd Ht). unfold u64. rewrite Zplus_mod_idemp_l. f_equal. lia. }
  unfold GetStats. rewrite (Htot AllocatorStatAllocated), (Htot AllocatorStatMapped); try done; [by right|by left].
Qed.
End statistics.

(** ** Witnesses

    The allocator of the runtime on Linux: a request of the largest class, then one
    that is too big for the size classes. *)

Definition env1 : CombEnv := mkCombEnv os1 (one_mapping (2 ^ 30)).
Definition s0 : CombinedAllocator := combined0 st1.
Notation comb_alloc n s := (@comb_Allocate DefaultSizeClassMap AP64 linux_pages env1 1 n 16 s).

Definition comb_after (o : outcome (Z * CombinedAllocator)) : CombinedAllocator :=
  match o with Done (_, s) => s | Died _ => s0 end.
Definition comb_answer (o : outcome (Z * CombinedAllocator)) : option Z :=
  match o with Done (p, _) => Some p | Died _ => None end.

Lemma comb_answer_done o p : comb_answer o = Some p -> o = Done (p, comb_after o).
Proof. destruct o as [[? ?]|]; [|done]. by intros [= ->]. Qed.

Definition s1 := comb_after (comb_alloc 131072 s0).

Lemma comb_answers : comb_answer (comb_alloc 131072 s0) = Some (chunk1 0) /\
  comb_answer (comb_alloc 200000 s1) = Some (2 ^ 30 + 4096).
Proof. split; vm_compute; reflexivity. Qed.

Lemma law1 s : n_chunks_ (secondary_ s) = 0 -> @SpaceBeg AP64 (sys_primary (primary_ s)) = 0x700000000000 ->
  @comb_law AP64 linux_pages env1 s.
Proof.
  intros En Eb. split; [exact os1_ok| |].
  - apply one_mapping_law; [lia|by exists (2 ^ 18)|]. intros i Hi. rewrite En in Hi. lia.
  - intros size Hs. cbn [env1 ce_mmap one_mapping internal_mmap]. destruct (Z.leb_spec size (2 ^ 20)); [|done].
    intros _ _. rewrite Eb. left. lia.
Qed.

Lemma n_chunks_s1 : n_chunks_ (secondary_ s1) = 0.
Proof. vm_compute. reflexivity. Qed.

#[local] Opaque comb_Allocate.

Lemma run1 : rtc (@comb_step DefaultSizeClassMap AP64 linux_pages) s0 s1.
Proof.
  apply rtc_once. eapply (@comb_step_allocate DefaultSizeClassMap AP64 linux_pages env1 1 131072 16).
  - by apply law1.
  - lia.
  - lia.
  - exact (comb_answer_done _ _ (proj1 comb_answers)).
Qed.

Lemma block1 : @comb_block DefaultSizeClassMap AP64 linux_pages s1 (chunk1 0) 131072.
Proof.
  assert (Hne : chunk1 0 <> 0) by (unfold chunk1; lia).
  assert (Hk : 0 <= 17 < 64) by lia.
  destruct (@Init_ok DefaultSizeClassMap _ AP64 _ _ _ _ _ eq_refl Init1) as [Hsp Hr].
  pose proof (@combined0_ok DefaultSizeClassMap _ AP64 _ linux_pages st1 Hsp Hr) as Hok.
  pose proof (@comb_allocate_spec DefaultSizeClassMap _ AP64 _ linux_pages _ env1 1 131072 16 s0 (chunk1 0) s1 Hok
    (law1 s0 eq_refl eq_refl) ltac:(lia) ltac:(lia) (comb_answer_done _ _ (proj1 comb_answers))) as (_ & _ & _ & Hcase).
  rewrite (proj2 (Z.eqb_neq _ _) Hne) in Hcase. destruct Hcase as (_ & n & Hn & [_ Hiff] & [Hsm|[_ Hsz]]).
  - left. destruct Hsm as (c & k & Hc & Ho & Ea & En). exists c, k. split; [done|]. split; [done|]. split; [done|].
    pose proof (@Size_le_max DefaultSizeClassMap _ c ltac:(lia)) as Hmax. change (@kMaxSize DefaultSizeClassMap) with 131072 in Hmax. lia.
  - rewrite Hsz in Hiff. apply Hiff. by left.
Qed.

Lemma combined_allocation_is_exclusive_witness :
  exists n s2, comb_alloc 200000 s1 = Done (2 ^ 30 + 4096, s2) /\ 200000 <= n /\
    @comb_block DefaultSizeClassMap AP64 linux_pages s2 (2 ^ 30 + 4096) n /\ apart (2 ^ 30 + 4096) n (chunk1 0) 131072.
Proof.
  pose proof (comb_answer_done _ _ (proj2 comb_answers)) as E.
  destruct (@combined_allocation_is_exclusive DefaultSizeClassMap _ AP64 _ linux_pages _ os1 ie1 0 st1 s1 env1 1 200000 4
    (2 ^ 30 + 4096) _ eq_refl Init1 run1 (law1 s1 n_chunks_s1 eq_refl) ltac:(lia) ltac:(lia) E ltac:(lia))
    as (_ & n & Hn & Hb & Hap & _).
  exists n. eexists. split; [exact E|]. split; [exact Hn|]. split; [exact Hb|]. exact (proj2 (Hap _ _ block1)).
Defined.

Lemma combined_lookup_exact_witness :
  @comb_GetBlockBegin DefaultSizeClassMap AP64 linux_pages s1 (chunk1 0 + 5000) = Done (chunk1 0).
Proof.
  exact (proj1 (@combined_lookup_exact DefaultSizeClassMap _ AP64 _ linux_pages _ os1 ie1 0 st1 s1 (chunk1 0) 131072
    (chunk1 0 + 5000) eq_refl Init1 run1 block1 ltac:(lia))).
Defined.

(** Two threads; the first one exits. *)
Definition two_threads : CombinedAllocator :=
  mkCombined (mkSystem st1 (fun t => if t =? 1 then mkCache (per_class cache0) (mkStats 300 0) else
                                     mkCache (per_class cache0) (mkStats 50 40)))
    large0 (mkStats 7 0) [1; 2].

Definition destroyed : CombinedAllocator :=
  match @DestroyCache DefaultSizeClassMap AP64 env1 1 two_threads with Done s => s | Died _ => two_threads end.

Lemma DestroyCache_keeps_totals_witness :
  @DestroyCache DefaultSizeClassMap AP64 env1 1 two_threads = Done destroyed /\ GetStats destroyed = (357, 40).
Proof.
  assert (@DestroyCache DefaultSizeClassMap AP64 env1 1 two_threads = Done destroyed) as E
    by (unfold destroyed; vm_compute; reflexivity).
  split; [exact E|].
  rewrite (proj2 (@DestroyCache_keeps_totals DefaultSizeClassMap AP64 env1 1 two_threads destroyed
    ltac:(repeat constructor; set_solver) ltac:(in_list) ltac:(done) ltac:(done) E)). reflexivity.
Defined.
