(* ===== verification/AllocatorCombined.v ===== *)
(** * AllocatorCombined: the default build of the allocator

    The half of [cqmsan_allocator.cpp] that is compiled without
    [CQMSAN_GLIBC_ALLOC]: allocation, deallocation and reallocation over the
    combined (size-class and large-mmap) allocator of sanitizer_common, the
    metadata of a chunk, and the unmap callback.

    The optimisation poison_reuse trusts the shadow of a chunk that comes back
    from free: [poisoned_size] in the metadata of a free chunk counts the bytes
    whose shadow is known to be poisoned, and malloc only poisons the rest.  The
    file shows the invariant this rests on and that it makes the optimisation
    invisible.

    The combined allocator itself is the class [CombinedOps], and what the runtime
    relies on of it the class [CombinedLaws]. *)

From S2P Require Import Prelude Common Memory Layout Poisoning UmrMap Interface Allocator.

(** ** The allocator underneath *)

Record Metadata := mkMeta { requested_size : Z; poisoned_size : Z }.

Class CombinedOps (H : Type) := {
  (** a fresh mapping may change the bytes of the process *)
  ca_Allocate : H -> mem -> Z -> Z -> outcome (Z * (H * mem));
  (** the ranges it unmaps, on each of which the callback runs *)
  ca_Deallocate : H -> Z -> outcome (H * list (Z * Z));
  FromPrimary : Z -> bool;
  GetActuallyAllocatedSize : H -> Z -> Z;
  GetBlockBegin : H -> Z -> Z
}.

(** The state: the allocator's, and the metadata of every chunk. *)
Record CHeap (H : Type) := mkCHeap { ch_inner : H; ch_meta : Z -> Metadata }.
Arguments mkCHeap {H}. Arguments ch_inner {H}. Arguments ch_meta {H}.

Section combined.
Context {H : Type} `{CombinedOps H}.
Implicit Types (w : World (CHeap H)).

Definition meta_of w (p : Z) : Metadata := ch_meta (w_heap w) p.
Definition set_meta w (p : Z) (md : Metadata) : World (CHeap H) :=
  set_heap w (mkCHeap (ch_inner (w_heap w)) (fun q => if q =? p then md else ch_meta (w_heap w) q)).
Definition set_requested w p n : World (CHeap H) :=
  set_meta w p (mkMeta n (poisoned_size (meta_of w p))).
Definition set_poisoned w p n : World (CHeap H) :=
  set_meta w p (mkMeta (requested_size (meta_of w p)) n).
Definition set_inner w (h : H) : World (CHeap H) :=
  set_heap w (mkCHeap h (ch_meta (w_heap w))).

(** CQMsanMapUnmapCallback::OnUnmap *)
Definition OnUnmap (c : Ctx) (p size : Z) w : outcome (World (CHeap H)) :=
  w ← exec (__cqmsan_unpoison c p size) w;
  let shadow_p := MEM_TO_SHADOW (cP c) p in
  m ← ReleaseMemoryPagesToOS (cEnv c) (w_mem w) shadow_p (shadow_p +64 size);
  mret (set_w_mem w m).

Fixpoint on_unmap_all (c : Ctx) (l : list (Z * Z)) w : outcome (World (CHeap H)) :=
  match l with
  | [] => mret w
  | (p, size) :: l => w ← OnUnmap c p size w; on_unmap_all c l w
  end.

(** The guard of the poisoning branch, under either convention. *)
Definition poisons_in_malloc (ac : AllocCtx) : bool :=
  poison_in_malloc ac && (negb (cFlip (ac_ctx ac)) || negb (poison_in_free ac)).

(** The bytes of a new block malloc does not have to poison. *)
Definition already_poisoned (ac : AllocCtx) w (allocated : Z) : Z :=
  if poison_reuse ac && FromPrimary allocated then poisoned_size (meta_of w allocated) else 0.

(** The rest of the function once the block is there. *)
Definition finish_allocation (ac : AllocCtx) (allocated size : Z) (zero : bool) w
    : outcome (Z * World (CHeap H)) :=
  let c := ac_ctx ac in
  let w := set_requested w allocated size in
  w ← (if zero then
         w ← exec (if FromPrimary allocated then __cqmsan_clear_and_unpoison c allocated size
                   else __cqmsan_unpoison c allocated size) w;
         mret (set_poisoned w allocated 0)
       else if poisons_in_malloc ac then
         let already := already_poisoned ac w allocated in
         w ← (if already <? size
              then exec (__cqmsan_poison c (allocated + already) (size - already)) w
              else mret w);
         mret (set_poisoned w allocated size)
       else mret w);
  w ← exec (UnpoisonParam 2) w;
  mret (allocated, RunMallocHooks w allocated size).

Definition combined_allocate (ac : AllocCtx) (size alignment : Z) (zero : bool) w
    : outcome (Z * World (CHeap H)) :=
  if max_malloc_size ac <? size then null_or_die ac 0 "allocation-size-too-big" w else
  if IsRssLimitExceeded ac then null_or_die ac 0 "rss-limit-exceeded" w else
  res ← ca_Allocate (ch_inner (w_heap w)) (w_mem w) size alignment;
  let '(allocated, (h, m)) := res : Z * (H * mem) in
  let w := set_w_mem (set_inner w h) m in
  if allocated =? 0 then null_or_die ac 0 "out-of-memory" (SetAllocatorOutOfMemory w) else
  finish_allocation ac allocated size zero w.

Definition combined_deallocate (ac : AllocCtx) (p : Z) w : outcome (World (CHeap H)) :=
  let c := ac_ctx ac in
  w ← exec (UnpoisonParam 1) w;
  let w := RunFreeHooks w p in
  let size := requested_size (meta_of w p) in
  let w := set_requested w p 0 in
  let w := set_poisoned w p 0 in
  w ← (if poison_in_free ac && FromPrimary p then
         w ← exec (__cqmsan_poison c p size) w; mret (set_poisoned w p size)
       else mret w);
  res ← ca_Deallocate (ch_inner (w_heap w)) p;
  let '(h, unmapped) := res : H * list (Z * Z) in
  on_unmap_all c unmapped (set_inner w h).

Definition combined_reallocate (ac : AllocCtx) (old_p new_size alignment : Z) w
    : outcome (Z * World (CHeap H)) :=
  let c := ac_ctx ac in
  let old_size := requested_size (meta_of w old_p) in
  let actually_allocated_size := GetActuallyAllocatedSize (ch_inner (w_heap w)) old_p in
  if new_size <=? actually_allocated_size then
    let w := set_requested w old_p new_size in
    if (old_size <? new_size) && poison_in_malloc ac then
      m ← PoisonMemory (cP c) (cEnv c) track_origins false 0 (w_mem w)
            (old_p + old_size) (new_size - old_size);
      mret (old_p, set_w_mem w m)
    else mret (old_p, w)
  else
    let memcpy_size := Min new_size old_size in
    '(new_p, w) ← combined_allocate ac new_size alignment false w;
    if negb (new_p =? 0) then
      let m := (CopyMemory (cP c) (fun d o => (o, d)) track_origins
                  (w_mem w, tt) new_p old_p memcpy_size).1 in
      w ← combined_deallocate ac old_p (set_w_mem w m);
      mret (new_p, w)
    else mret (new_p, w).

Definition combined_allocation_begin (p : Z) w : Z :=
  if p =? 0 then 0 else
  let beg := GetBlockBegin (ch_inner (w_heap w)) p in
  if beg =? 0 then 0 else
  if requested_size (meta_of w beg) =? 0 then 0 else beg.

Definition combined_allocation_size_fast (p : Z) w : Z := requested_size (meta_of w p).

#[export] Instance combined_impl : AllocatorImpl (CHeap H) := {|
  CQMsanAllocate := combined_allocate;
  CQMsanDeallocate := combined_deallocate;
  CQMsanReallocate := combined_reallocate;
  AllocationBegin := combined_allocation_begin;
  AllocationSizeFast := combined_allocation_size_fast
|}.
End combined.

(** ** What the runtime relies on of the combined allocator

    The chunks of the size-class allocator lie at fixed, disjoint places of
    application memory; a block is handed out once until it is given back; blocks
    of the large-mmap allocator, and the ranges it unmaps, stay clear of the
    chunks.  Allocating does not touch shadow memory. *)

Definition disjoint (a n b k : Z) : Prop := forall x, a <= x < a + n -> ~ b <= x < b + k.

(** A request: a size and an alignment of the machine's width, not a null alignment. *)
Definition request_ok (size alignment : Z) : Prop := 0 <= size < 2 ^ 64 /\ 0 < alignment < 2 ^ 64.

Class CombinedLaws (H : Type) `{CombinedOps H} (P : Platform) : Type := {
  is_chunk : Z -> Prop;
  chunk_size : Z -> Z;
  live : H -> Z -> Prop;
  (** the states the allocator can be in *)
  inner_ok : H -> Prop;
  (** the block handed out at an address has room for [n] bytes *)
  fits : H -> Z -> Z -> Prop;
  chunk_nonneg p : is_chunk p -> 0 <= chunk_size p;
  chunk_app p : is_chunk p -> app_buffer P p (chunk_size p);
  chunk_disjoint p q : is_chunk p -> is_chunk q -> p <> q -> disjoint p (chunk_size p) q (chunk_size q);
  (** [n] bytes at [p] belong to one block *)
  block_ok (p n : Z) : Prop :=
    0 <= n /\ MEM_IS_APP P p = true /\ app_buffer P p n /\
    if FromPrimary p then is_chunk p /\ n <= chunk_size p
    else forall q, is_chunk q -> disjoint p n q (chunk_size q);
  allocate_block h m size alignment p h' m' : inner_ok h -> request_ok size alignment ->
    ca_Allocate h m size alignment = Done (p, (h', m')) ->
    inner_ok h' /\
    (forall a, MEM_IS_APP P a = true -> m' (MEM_TO_SHADOW P a) = m (MEM_TO_SHADOW P a)) /\
    (forall q n, live h q -> fits h q n -> fits h' q n) /\
    if p =? 0 then forall q, live h' q <-> live h q
    else ~ live h p /\ block_ok p size /\ fits h' p size /\ forall q, live h' q <-> q = p \/ live h q;
  deallocate_block h p h' unmapped : inner_ok h -> live h p ->
    ca_Deallocate h p = Done (h', unmapped) ->
    inner_ok h' /\ (forall q, live h' q <-> q <> p /\ live h q) /\
    (forall q n, q <> p -> fits h q n -> fits h' q n) /\
    Forall (fun r => 0 <= r.2 /\ MEM_IS_APP P r.1 = true /\ app_buffer P r.1 r.2 /\
                     forall q, is_chunk q -> disjoint r.1 r.2 q (chunk_size q)) unmapped;
  actual_size h p : inner_ok h -> live h p ->
    block_ok p (GetActuallyAllocatedSize h p) /\ fits h p (GetActuallyAllocatedSize h p);
  fits_le h p n k : 0 <= k <= n -> fits h p n -> fits h p k;
  fits_disjoint h p q n k : inner_ok h -> live h p -> live h q -> p <> q ->
    fits h p n -> fits h q k -> disjoint p n q k
}.

(** ** The invariant *)

Section invariant.
Context {H : Type} `{!CombinedOps H} (ac : AllocCtx).
Notation c := (ac_ctx ac).
Context `{!ShadowLayout (cP c), !CombinedLaws H (cP c)} (Henv : env_ok (cEnv c)).
Implicit Types (w : World (CHeap H)) (m : mem).

Definition shadow_at m (a : Z) : Z := m (MEM_TO_SHADOW (cP c) a).

(** The chunks of the size-class allocator that are not handed out. *)
Definition free_chunk (h : H) (q : Z) : Prop := is_chunk q /\ ~ live h q.

(** [q]'s first [poisoned_size] bytes are poisoned. *)
Definition chunk_poisoned (q n : Z) m : Prop :=
  0 <= n <= chunk_size q /\ forall i, 0 <= i < n -> shadow_at m (q + i) = kPoisonByte c.

Record heap_inv (h : H) (meta : Z -> Metadata) m : Prop := {
  inv_inner : inner_ok h;
  inv_free q : free_chunk h q -> chunk_poisoned q (poisoned_size (meta q)) m;
  inv_live p : live h p -> block_ok p (requested_size (meta p)) /\ fits h p (requested_size (meta p))
}.

Definition world_inv w : Prop := heap_inv (ch_inner (w_heap w)) (ch_meta (w_heap w)) (w_mem w).

(** The shadow of free chunks is the same. *)
Definition free_shadow_same (h : H) m m' : Prop :=
  forall q i, free_chunk h q -> 0 <= i < chunk_size q -> shadow_at m' (q + i) = shadow_at m (q + i).

Lemma chunk_poisoned_same h q n m m' :
  free_shadow_same h m m' -> free_chunk h q -> chunk_poisoned q n m -> chunk_poisoned q n m'.
Proof.
  intros Hs Hq [Hn Hp]. split; [done|]. intros i Hi. rewrite (Hs q i Hq) by lia. by apply Hp.
Qed.

Lemma heap_inv_same h meta m m' : free_shadow_same h m m' -> heap_inv h meta m -> heap_inv h meta m'.
Proof.
  intros Hs [Hin Hf Hl]. split; [done| |done]. intros q Hq. eapply chunk_poisoned_same; eauto.
Qed.

(** A write to the shadow of a block that is handed out, or that is not one of
    the chunks, leaves the free chunks alone. *)
Lemma touch_block h p n m m' :
  block_ok p n -> ~ free_chunk h p ->
  (forall b, MEM_IS_APP (cP c) b = true -> ~ p <= b < p + n -> shadow_at m' b = shadow_at m b) ->
  free_shadow_same h m m'.
Proof.
  intros (Hn & _ & _ & Hb) Hp Hm q i Hq Hi. apply Hm; [by apply chunk_app; [apply Hq|]|].
  intros Hin. destruct (FromPrimary p).
  - destruct Hb as [Hc Hle]. assert (p <> q) as Hpq by (by intros ->).
    apply (chunk_disjoint p q Hc (proj1 Hq) Hpq (q + i)); lia.
  - apply (Hb q (proj1 Hq) (q + i)); lia.
Qed.

Lemma block_sub p n i j :
  block_ok p n -> 0 <= i -> 0 < j -> i + j <= n ->
  MEM_IS_APP (cP c) (p + i) = true /\ app_buffer (cP c) (p + i) j.
Proof.
  intros (_ & _ & Hbuf & _) Hi Hj Hle. split; [apply Hbuf; lia|].
  apply (app_buffer_sub (cP c) p n i j); (done || lia).
Qed.

(** What a fill of [j] bytes at [p + i] does to the shadow. *)
Lemma refines_shadow m m' f b :
  refines (cP c) m m' f -> MEM_IS_APP (cP c) b = true -> shadow_at m' b = (f b).2.
Proof. intros Hr Hb. by rewrite <- (Hr b Hb). Qed.

Lemma exec_UnpoisonParam_world n w :
  exists w', exec (UnpoisonParam n) w = Done w' /\ w_mem w' = w_mem w /\ w_heap w' = w_heap w /\
    w_hooks w' = w_hooks w /\ w_errno w' = w_errno w /\ w_oom w' = w_oom w.
Proof. eexists. split; [reflexivity|]. done. Qed.

(** Poisoning what is not poisoned yet poisons the block. *)
Lemma poison_rest w p size already :
  block_ok p size -> 0 <= already ->
  (forall i, 0 <= i < Z.min already size -> shadow_at (w_mem w) (p + i) = kPoisonByte c) ->
  exists m', (if already <? size
              then exec (__cqmsan_poison c (p + already) (size - already)) w else mret w)
             = Done (set_w_mem w m') /\
    refines (cP c) (w_mem w) m' (fun b =>
      (w_mem w b, if in_range p size b then kPoisonByte c else shadow_at (w_mem w) b)).
Proof.
  intros Hb H0 Hal. destruct (Z.ltb_spec already size) as [Hlt|Hge].
  - destruct (block_sub p size already (size - already) Hb) as [Ha Hbuf]; [lia..|].
    destruct (exec_poison_view c Henv (p + already) (size - already) w Ha Hbuf) as (m' & E & Href); [lia|].
    exists m'. split; [exact E|]. intros b Happ. rewrite (Href b Happ). f_equal. fold (shadow_at (w_mem w) b).
    destruct (in_range (p + already) (size - already) b) eqn:E1, (in_range p size b) eqn:E2;
      rewrite ?in_range_true, ?in_range_false in *; try done; [lia|].
    rewrite <- (Hal (b - p)) by lia. by rewrite Zplus_minus.
  - exists (w_mem w). split; [by destruct w as [[] ? ? ? ?]|]. intros b Happ. unfold view. f_equal.
    fold (shadow_at (w_mem w) b). destruct (in_range p size b) eqn:E; [|done].
    apply in_range_true in E. rewrite <- (Hal (b - p)) by lia. by rewrite Zplus_minus.
Qed.

(** The state right after the allocator underneath answered. *)
Definition handed_out w size alignment p w1 : Prop :=
  exists h m, ca_Allocate (ch_inner (w_heap w)) (w_mem w) size alignment = Done (p, (h, m)) /\
    w1 = set_w_mem (set_inner w h) m.

Lemma handed_out_inv w size alignment p w1 :
  world_inv w -> request_ok size alignment -> handed_out w size alignment p w1 ->
  if p =? 0 then world_inv w1
  else block_ok p size /\ fits (ch_inner (w_heap w1)) p size /\ ~ free_chunk (ch_inner (w_heap w1)) p /\
       live (ch_inner (w_heap w1)) p /\
       world_inv (set_requested w1 p size) /\
       (FromPrimary p = true -> chunk_poisoned p (poisoned_size (meta_of w1 p)) (w_mem w1)).
Proof.
  intros [Hin Hf Hl] Hs (h & m & Ha & ->).
  destruct (allocate_block (ch_inner (w_heap w)) (w_mem w) size alignment p h m Hin Hs Ha) as (Hin' & Hsh & Hfit & Hb).
  assert (forall q, is_chunk q -> forall n, chunk_poisoned q n (w_mem w) -> chunk_poisoned q n m) as Hkeep.
  { intros q Hq n [Hn Hp]. split; [done|]. intros i Hi. unfold shadow_at. rewrite Hsh by (apply chunk_app; [done|lia]).
    by apply Hp. }
  destruct (Z.eqb_spec p 0) as [_|_].
  - split; cbn; [done| |].
    + intros q [Hq Hnl]. apply Hkeep; [done|]. apply Hf. split; [done|]. by rewrite <- Hb.
    + intros q Hq. apply Hb in Hq. destruct (Hl q Hq). by split; [|apply Hfit].
  - destruct Hb as (Hnl & Hok & Hroom & Hlive). split_and!; [exact Hok|exact Hroom| | | |].
    + intros [_ Hn]. apply Hn. cbn. apply Hlive. by left.
    + cbn. apply Hlive. by left.
    + split; cbn; [done| |].
      * intros q [Hq Hn]. case_match eqn:Eq; [apply Z.eqb_eq in Eq; subst; exfalso; apply Hn, Hlive; by left|].
        apply Hkeep; [done|]. apply Hf. split; [done|]. intros Hlq. apply Hn, Hlive. by right.
      * intros q Hq. case_match eqn:Eq; [apply Z.eqb_eq in Eq; by subst|].
        apply Z.eqb_neq in Eq. apply Hlive in Hq as [?|Hq]; [done|]. destruct (Hl q Hq). by split; [|apply Hfit].
    + intros Hp. cbn. pose proof Hok as (_ & _ & _ & Hprim). rewrite Hp in Hprim.
      apply Hkeep; [apply Hprim|]. apply Hf. split; [apply Hprim|done].
Qed.
(** *** Allocation *)

(** What the calls on a new block do to memory: nothing outside of the block's
    shadow, as far as shadow is concerned. *)
Definition only_shadow_of p n m m' : Prop :=
  forall b, MEM_IS_APP (cP c) b = true -> ~ p <= b < p + n -> shadow_at m' b = shadow_at m b.

Lemma clear_block w p size :
  block_ok p size ->
  exists m', exec (if FromPrimary p then __cqmsan_clear_and_unpoison c p size
                   else __cqmsan_unpoison c p size) w = Done (set_w_mem w m') /\
    only_shadow_of p size (w_mem w) m' /\
    forall i, 0 <= i < size -> shadow_at m' (p + i) = kCleanByte c.
Proof.
  intros Hok. pose proof Hok as (Hn & Ha & Hbuf & _).
  assert (forall v, u8 v = v -> forall w0, exists m', exec (SetShadow_M c p size v) w0 = Done (set_w_mem w0 m') /\
    only_shadow_of p size (w_mem w0) m' /\ forall i, 0 <= i < size -> shadow_at m' (p + i) = v) as Hset.
  { intros v Hv w0. destruct (exec_SetShadow_view c Henv p size v w0 Ha Hbuf Hn) as (m' & E & Href).
    exists m'. split; [exact E|]. split.
    - intros b Hb Hout. rewrite (refines_shadow _ _ _ b Href Hb). cbn [snd].
      by rewrite (proj2 (in_range_false _ _ _) Hout).
    - intros i Hi. rewrite (refines_shadow _ _ _ _ Href (Hbuf i Hi)). cbn [snd].
      rewrite (proj2 (in_range_true _ _ _)) by lia. done. }
  assert (u8 (kCleanByte c) = kCleanByte c) as Hu by (unfold kCleanByte; by destruct (cFlip c)).
  destruct (FromPrimary p).
  - set (w0 := set_w_mem w (memset (w_mem w) p 0 size)).
    destruct (Hset _ Hu w0) as (m' & E & Hout & Hin). exists m'. split; [exact E|].
    split; [|done]. intros b Hb Hnb. rewrite Hout by done. unfold shadow_at. apply memset_out.
    intros Hmem. pose proof (sl_shadow_not_app b Hb) as Hna.
    specialize (Hbuf (MEM_TO_SHADOW (cP c) b - p) ltac:(lia)). rewrite Zplus_minus in Hbuf. congruence.
  - destruct (Hset _ Hu w) as (m' & E & Hout & Hin). exists m'. split; [|done].
    unfold __cqmsan_unpoison. rewrite Ha. exact E.
Qed.

(** A successful allocation, in terms of what was handed out. *)
Record allocated size (zero : bool) p w1 w' : Prop := {
  al_inner : ch_inner (w_heap w') = ch_inner (w_heap w1);
  al_requested : requested_size (meta_of w' p) = size;
  al_others q : q <> p -> meta_of w' q = meta_of w1 q;
  al_shadow : only_shadow_of p size (w_mem w1) (w_mem w');
  al_poisoned : zero = false -> poisons_in_malloc ac = true ->
    refines (cP c) (w_mem w1) (w_mem w') (fun b =>
      (w_mem w1 b, if in_range p size b then kPoisonByte c else shadow_at (w_mem w1) b));
  al_clean : zero = true -> forall i, 0 <= i < size -> shadow_at (w_mem w') (p + i) = kCleanByte c
}.

(** With the chunk's metadata right, the bytes malloc skips are poisoned. *)
Lemma already_ok w1 p size :
  (FromPrimary p = true -> chunk_poisoned p (poisoned_size (meta_of w1 p)) (w_mem w1)) ->
  0 <= already_poisoned ac (set_requested w1 p size) p /\
  forall i, 0 <= i < Z.min (already_poisoned ac (set_requested w1 p size) p) size ->
    shadow_at (w_mem w1) (p + i) = kPoisonByte c.
Proof.
  intros Hp. unfold already_poisoned. destruct (poison_reuse ac); [|cbn [andb]; split; [lia|intros i Hi; lia]].
  destruct (FromPrimary p); [|cbn [andb]; split; [lia|intros i Hi; lia]].
  assert (poisoned_size (meta_of (set_requested w1 p size) p) = poisoned_size (meta_of w1 p)) as ->.
  { unfold meta_of, set_requested, set_meta. cbn. by rewrite Z.eqb_refl. }
  destruct (Hp eq_refl) as [Hn Hsh]. cbn [andb]. split; [lia|]. intros i Hi. apply Hsh. lia.
Qed.

Lemma body_allocated w1 p size zero w' r :
  block_ok p size ->
  (FromPrimary p = true -> chunk_poisoned p (poisoned_size (meta_of w1 p)) (w_mem w1)) ->
  finish_allocation ac p size zero w1 = Done (r, w') ->
  r = p /\ allocated size zero p w1 w'.
Proof.
  intros Hok Hprim. unfold finish_allocation. set (w2 := set_requested w1 p size). cbv zeta.
  assert (forall w3, ch_inner (w_heap w3) = ch_inner (w_heap w1) ->
    requested_size (meta_of w3 p) = size -> (forall q, q <> p -> meta_of w3 q = meta_of w1 q) ->
    only_shadow_of p size (w_mem w1) (w_mem w3) ->
    (zero = false -> poisons_in_malloc ac = true -> refines (cP c) (w_mem w1) (w_mem w3) (fun b =>
      (w_mem w1 b, if in_range p size b then kPoisonByte c else shadow_at (w_mem w1) b))) ->
    (zero = true -> forall i, 0 <= i < size -> shadow_at (w_mem w3) (p + i) = kCleanByte c) ->
    (w ← exec (UnpoisonParam 2) w3; mret (p, RunMallocHooks w p size)) = Done (r, w') ->
    r = p /\ allocated size zero p w1 w') as Hfinish.
  { intros w3 H1 H2 H3 H4 H5 H6. destruct (exec_UnpoisonParam_world 2 w3) as (w4 & -> & Em & Eh & _).
    cbn [mbind outcome_bind]. intros [= <- <-]. split; [done|].
    assert (forall x, w_mem (RunMallocHooks w4 x size) = w_mem w3) as Em' by (intros; exact Em).
    split; unfold meta_of; cbn [w_heap RunMallocHooks run_hook]; rewrite ?Eh, ?Em'; done. }
  assert (forall q, q <> p -> meta_of w2 q = meta_of w1 q) as Hother.
  { intros q Hq. unfold w2, meta_of, set_requested, set_meta. cbn. by rewrite (proj2 (Z.eqb_neq q p)). }
  assert (requested_size (meta_of w2 p) = size) as Hreq.
  { unfold w2, meta_of, set_requested, set_meta. cbn. by rewrite Z.eqb_refl. }
  assert (forall m' n q, q <> p -> meta_of (set_poisoned (set_w_mem w2 m') p n) q = meta_of w1 q) as Hother2.
  { intros m' n q Hq. rewrite <- Hother by done. unfold meta_of, set_poisoned, set_meta. cbn.
    by rewrite (proj2 (Z.eqb_neq q p)). }
  assert (forall m' n, requested_size (meta_of (set_poisoned (set_w_mem w2 m') p n) p) = size) as Hreq2.
  { intros m' n. rewrite <- Hreq. unfold meta_of, set_poisoned, set_meta. cbn. by rewrite Z.eqb_refl. }
  destruct zero; [|destruct (poisons_in_malloc ac) eqn:Ep].
  - destruct (clear_block w2 p size Hok) as (m' & -> & Hout & Hin). cbn [mbind outcome_bind mret outcome_ret].
    apply Hfinish; (done || apply Hreq2 || apply Hother2).
  - destruct (already_ok w1 p size Hprim) as [Hal0 Hal].
    destruct (poison_rest w2 p size (already_poisoned ac w2 p) Hok Hal0 Hal) as (m' & -> & Href).
    cbn [mbind outcome_bind mret outcome_ret].
    apply Hfinish; try (done || apply Hreq2 || apply Hother2).
    intros b Hb Hout. change (w_mem (set_poisoned (set_w_mem w2 m') p size)) with m'.
    rewrite (refines_shadow _ _ _ b Href Hb). cbn [snd].
    by rewrite (proj2 (in_range_false _ _ _) Hout).
  - cbn [mbind outcome_bind mret outcome_ret]. by apply Hfinish.
Qed.

Lemma allocate_cases size alignment zero w p w' :
  world_inv w -> request_ok size alignment ->
  combined_allocate ac size alignment zero w = Done (p, w') ->
  (p = 0 /\ (w' = w \/ exists w1, handed_out w size alignment 0 w1 /\ w' = SetAllocatorOutOfMemory w1)) \/
  (p <> 0 /\ exists w1, handed_out w size alignment p w1 /\ allocated size zero p w1 w').
Proof.
  intros Hinv Hs. unfold combined_allocate, null_or_die.
  destruct (max_malloc_size ac <? size); [destruct (AllocatorMayReturnNull ac); intros [= <- <-]; left; by eauto|].
  destruct (IsRssLimitExceeded ac); [destruct (AllocatorMayReturnNull ac); intros [= <- <-]; left; by eauto|].
  destruct (ca_Allocate (ch_inner (w_heap w)) (w_mem w) size alignment) as [[a [h m]]|] eqn:Ea; [|done].
  cbn [mbind outcome_bind]. set (w1 := set_w_mem (set_inner w h) m).
  assert (handed_out w size alignment a w1) as Hh by (by exists h, m).
  pose proof (handed_out_inv w size alignment a w1 Hinv Hs Hh) as Hi.
  destruct (Z.eqb_spec a 0) as [->|Hne].
  - destruct (AllocatorMayReturnNull ac); intros [= <- <-]. left. split; [done|]. right. by exists w1.
  - destruct Hi as (Hok & _ & _ & _ & _ & Hprim). intros E.
    destruct (body_allocated w1 a size zero w' p Hok Hprim E) as [-> Hal]. right. split; [done|]. by exists w1.
Qed.
Lemma finish_total w1 p size :
  block_ok p size ->
  (FromPrimary p = true -> chunk_poisoned p (poisoned_size (meta_of w1 p)) (w_mem w1)) ->
  exists w', finish_allocation ac p size false w1 = Done (p, w').
Proof.
  intros Hok Hprim. unfold finish_allocation. cbv zeta. destruct (poisons_in_malloc ac).
  - destruct (already_ok w1 p size Hprim) as [Hal0 Hal].
    destruct (poison_rest (set_requested w1 p size) p size _ Hok Hal0 Hal) as (m' & -> & _).
    by eexists.
  - by eexists.
Qed.

(** A block that was handed out and marked keeps the invariant. *)
Lemma allocated_inv size zero p w1 w' :
  block_ok p size -> fits (ch_inner (w_heap w1)) p size ->
  ~ free_chunk (ch_inner (w_heap w1)) p -> live (ch_inner (w_heap w1)) p ->
  world_inv (set_requested w1 p size) -> allocated size zero p w1 w' -> world_inv w'.
Proof.
  intros Hok Hroom Hnf Hl [Hio Hf Hlive] [Hin Hreq Hother Hsh _ _].
  apply (heap_inv_same _ _ (w_mem w1)); [rewrite Hin; by apply (touch_block _ p size)|].
  assert (forall q, q <> p -> ch_meta (w_heap w') q = ch_meta (w_heap (set_requested w1 p size)) q) as Hmeta.
  { intros q Hq. unfold meta_of in Hother. rewrite Hother by done. cbn. by rewrite (proj2 (Z.eqb_neq q p)). }
  rewrite Hin. split; [exact Hio| |].
  - intros q Hq. rewrite Hmeta by (by intros ->). by apply Hf.
  - intros q Hq. destruct (Z.eq_dec q p) as [->|Hne]; [unfold meta_of in Hreq; by rewrite Hreq|].
    rewrite Hmeta by done. by apply Hlive.
Qed.

Lemma allocate_inv size alignment zero w p w' :
  world_inv w -> request_ok size alignment ->
  combined_allocate ac size alignment zero w = Done (p, w') ->
  world_inv w' /\
  (p <> 0 -> ~ live (ch_inner (w_heap w)) p /\ block_ok p size /\ fits (ch_inner (w_heap w')) p size /\
     forall q, live (ch_inner (w_heap w')) q <-> q = p \/ live (ch_inner (w_heap w)) q).
Proof.
  intros Hinv Hs E. destruct (allocate_cases size alignment zero w p w' Hinv Hs E)
    as [(-> & [->|(w1 & Hh & ->)])|(Hne & w1 & Hh & Hal)]; [done| |].
  - split; [|done]. exact (handed_out_inv w size alignment 0 w1 Hinv Hs Hh).
  - pose proof (handed_out_inv w size alignment p w1 Hinv Hs Hh) as Hi.
    rewrite (proj2 (Z.eqb_neq p 0) Hne) in Hi. destruct Hi as (Hok & Hroom & Hnf & Hl & Hi & _).
    split; [by eapply allocated_inv|]. intros _. rewrite (al_inner _ _ _ _ _ Hal).
    destruct Hh as (h & m & Ha & ->).
    destruct (allocate_block (ch_inner (w_heap w)) (w_mem w) size alignment p h m (inv_inner _ _ _ Hinv) Hs Ha) as (_ & _ & _ & Hb).
    rewrite (proj2 (Z.eqb_neq p 0) Hne) in Hb. done.
Qed.

(** *** Deallocation *)

Lemma live_not_free h p : live h p -> ~ free_chunk h p.
Proof. intros Hl [_ Hn]. by apply Hn. Qed.

Lemma release_outside m beg k end_ m' x :
  ReleaseMemoryPagesToOS (cEnv c) m beg end_ = Done m' -> page_size (cEnv c) = 2 ^ k -> 0 <= k <= 32 ->
  0 <= beg <= 2 ^ 48 -> 0 <= end_ <= 2 ^ 48 -> ~ beg <= x < end_ -> m' x = m x.
Proof.
  intros E Hp Hk Hb He Hx. unfold ReleaseMemoryPagesToOS in E. rewrite Hp in E.
  assert (1 <= 2 ^ k <= 2 ^ 32) as Hk2.
  { pose proof (Z.pow_le_mono_r 2 k 32). pose proof (Z.pow_pos_nonneg 2 k). lia. }
  inv_done. rewrite (RoundDownTo_spec _ k) in * by lia.
  pose proof (RoundUpTo_bounds beg k r ltac:(lia) ltac:(lia) ltac:(lia) Hr) as Hup.
  pose proof (Z.mul_div_le end_ (2 ^ k) ltac:(lia)) as Hdn.
  case_match; [|done]. apply memset_out. lia.
Qed.

(** The callback stays outside of the chunks. *)
Lemma on_unmap_same h l w w' :
  Forall (fun r => 0 <= r.2 /\ MEM_IS_APP (cP c) r.1 = true /\ app_buffer (cP c) r.1 r.2 /\
                   forall q, is_chunk q -> disjoint r.1 r.2 q (chunk_size q)) l ->
  on_unmap_all c l w = Done w' ->
  w_heap w' = w_heap w /\ free_shadow_same h (w_mem w) (w_mem w').
Proof.
  intros Hl. revert w. induction Hl as [|[p n] l (Hn & Ha & Hbuf & Hdis) _ IH]; intros w E.
  { injection E as <-. by split. }
  cbn [on_unmap_all] in E. apply bind_done in E as (w2 & E1 & E2). cbn [fst snd] in *.
  destruct (IH w2 E2) as [Hh Hs]. unfold OnUnmap in E1.
  assert (exists m', exec (__cqmsan_unpoison c p n) w = Done (set_w_mem w m') /\
    only_shadow_of p n (w_mem w) m') as (m' & Eu & Hu).
  { destruct (exec_SetShadow_view c Henv p n (kCleanByte c) w Ha Hbuf Hn) as (m' & E & Href).
    exists m'. split; [unfold __cqmsan_unpoison; rewrite Ha; exact E|].
    intros b Hb Hout. rewrite (refines_shadow _ _ _ b Href Hb). cbn [snd].
    by rewrite (proj2 (in_range_false _ _ _) Hout). }
  rewrite Eu in E1. apply bind_done in E1 as (w3 & [= <-] & E1). cbv zeta in E1.
  apply bind_done in E1 as (m2 & Er & [= <-]).
  split; [exact Hh|]. intros q i Hq Hi. rewrite Hs by done.
  assert (~ p <= q + i < p + n) as Hout by (intros Hin; apply (Hdis q (proj1 Hq) (q + i)); lia).
  assert (MEM_IS_APP (cP c) (q + i) = true) as Happ by (apply chunk_app; [apply Hq|done]).
  rewrite <- (Hu (q + i) Happ Hout). destruct Henv as [(k & Hk & Hpage) _].
  pose proof (sl_shadow_range p Ha) as Hr. pose proof (shadow_end_range c p n Ha Hbuf Hn) as He.
  rewrite (u64_small (MEM_TO_SHADOW (cP c) p + n)) in Er by lia.
  change (m2 (MEM_TO_SHADOW (cP c) (q + i)) = m' (MEM_TO_SHADOW (cP c) (q + i))).
  eapply (release_outside m' _ k); [exact Er|done|done|lia|lia|].
  intros Hin. apply Hout. by apply (shadow_of_buffer c p n (q + i) Hbuf Happ).
Qed.

(** The first half of the deallocation: the metadata and the shadow of the block. *)
Definition mark_freed p w : outcome (World (CHeap H)) :=
  let size := requested_size (meta_of w p) in
  let w := set_poisoned (set_requested w p 0) p 0 in
  if poison_in_free ac && FromPrimary p then
    w ← exec (__cqmsan_poison c p size) w; mret (set_poisoned w p size)
  else mret w.

Record freed p w w3 : Prop := {
  fr_inner : ch_inner (w_heap w3) = ch_inner (w_heap w);
  fr_others q : q <> p -> meta_of w3 q = meta_of w q;
  fr_meta : meta_of w3 p = mkMeta 0 (if poison_in_free ac && FromPrimary p
                                     then requested_size (meta_of w p) else 0);
  fr_shadow : only_shadow_of p (requested_size (meta_of w p)) (w_mem w) (w_mem w3);
  fr_poisoned : is_chunk p -> chunk_poisoned p (poisoned_size (meta_of w3 p)) (w_mem w3)
}.

Lemma mark_freed_total p w :
  block_ok p (requested_size (meta_of w p)) -> exists w3, mark_freed p w = Done w3 /\ freed p w w3.
Proof.
  intros Hok. pose proof Hok as (Hn & Ha & Hbuf & Hprim). unfold mark_freed.
  set (size := requested_size (meta_of w p)) in *.
  set (w2 := set_poisoned (set_requested w p 0) p 0).
  assert (forall q, q <> p -> meta_of w2 q = meta_of w q) as Hother.
  { intros q Hq. unfold w2, meta_of. cbn. by rewrite (proj2 (Z.eqb_neq q p)). }
  destruct (poison_in_free ac && FromPrimary p) eqn:Eb.
  - destruct (exec_poison_view c Henv p size w2 Ha Hbuf Hn) as (m' & -> & Href).
    change (w_mem w2) with (w_mem w) in Href. eexists. split; [reflexivity|].
    apply andb_true_iff in Eb as [Ef Efp]. rewrite Efp in Hprim.
    split; fold size; rewrite ?Ef, ?Efp; cbn [andb].
    + done.
    + intros q Hq. rewrite <- Hother by done. unfold meta_of. cbn. by rewrite (proj2 (Z.eqb_neq q p)).
    + unfold meta_of. cbn. by rewrite !Z.eqb_refl.
    + intros b Hb Hnb. change (shadow_at m' b = shadow_at (w_mem w) b).
      rewrite (refines_shadow _ _ _ b Href Hb). cbn [snd]. by rewrite (proj2 (in_range_false _ _ _) Hnb).
    + intros _. unfold meta_of. cbn. rewrite Z.eqb_refl. cbn. split; [lia|].
      intros i Hi. change (shadow_at m' (p + i) = kPoisonByte c).
      rewrite (refines_shadow _ _ _ _ Href (Hbuf i Hi)). cbn [snd].
      by rewrite (proj2 (in_range_true _ _ _)) by lia.
  - exists w2. split; [done|]. split; rewrite ?Eb; try done.
    + unfold w2, meta_of. cbn. by rewrite !Z.eqb_refl.
    + intros Hc. unfold meta_of. cbn. rewrite Z.eqb_refl. cbn. split; [|lia].
      split; [lia|by apply chunk_nonneg].
Qed.

Lemma deallocate_unfold p w :
  combined_deallocate ac p w =
  (w1 ← exec (UnpoisonParam 1) w;
   w3 ← mark_freed p (RunFreeHooks w1 p);
   res ← ca_Deallocate (ch_inner (w_heap w3)) p;
   let '(h, unmapped) := res : H * list (Z * Z) in
   on_unmap_all c unmapped (set_inner w3 h)).
Proof. reflexivity. Qed.

(** The state in which the block goes back to the allocator. *)
Lemma deallocate_freed p w :
  live (ch_inner (w_heap w)) p -> world_inv w ->
  exists w3, freed p w w3 /\ combined_deallocate ac p w =
    (res ← ca_Deallocate (ch_inner (w_heap w)) p;
     let '(h, unmapped) := res : H * list (Z * Z) in on_unmap_all c unmapped (set_inner w3 h)).
Proof.
  intros Hlive [_ _ Hl]. destruct (Hl p Hlive) as [Hok _]. rewrite deallocate_unfold.
  destruct (exec_UnpoisonParam_world 1 w) as (w1 & -> & Em & Eh & _). cbn [mbind outcome_bind].
  assert (forall q, meta_of (RunFreeHooks w1 p) q = meta_of w q) as Hm.
  { intros q. unfold meta_of. cbn. by rewrite Eh. }
  destruct (mark_freed_total p (RunFreeHooks w1 p)) as (w3 & -> & [Hin Hother Hmeta Hsh Hp]); [by rewrite Hm|].
  cbn [mbind outcome_bind]. rewrite Hm in *. change (w_mem (RunFreeHooks w1 p)) with (w_mem w1) in Hsh.
  change (w_heap (RunFreeHooks w1 p)) with (w_heap w1) in Hin. rewrite Em, Eh in *.
  exists w3. split; [|by rewrite Hin]. split; try done. intros q Hq. by rewrite Hother, Hm.
Qed.

Lemma deallocate_inv p w w' :
  world_inv w -> live (ch_inner (w_heap w)) p -> combined_deallocate ac p w = Done w' ->
  world_inv w' /\ forall q, live (ch_inner (w_heap w')) q <-> q <> p /\ live (ch_inner (w_heap w)) q.
Proof.
  intros Hinv Hlive. pose proof Hinv as [Hio Hf Hl]. destruct (Hl p Hlive) as [Hok _].
  destruct (deallocate_freed p w Hlive Hinv) as (w3 & [Hin3 Hother3 _ Hout Hpois] & ->).
  intros E. apply bind_done in E as ([h unmapped] & Ed & E).
  destruct (deallocate_block (ch_inner (w_heap w)) p h unmapped Hio Hlive Ed) as (Hio' & Hq & Hfit & Hun).
  destruct (on_unmap_same h unmapped _ _ Hun E) as [Hh Hs].
  unfold world_inv. rewrite Hh. split; [|exact Hq].
  apply (heap_inv_same _ _ (w_mem w3)); [exact Hs|]. cbn [set_inner set_heap w_heap ch_inner ch_meta].
  unfold meta_of in Hother3. split; [exact Hio'| |].
  - intros q [Hc Hnl]. destruct (Z.eq_dec q p) as [->|Hne]; [by apply Hpois|].
    rewrite Hother3 by done.
    assert (free_chunk (ch_inner (w_heap w)) q) as Hqf by (split; [done|]; intros Hlq; apply Hnl; by apply Hq).
    apply (chunk_poisoned_same (ch_inner (w_heap w)) q _ (w_mem w)); [|done|by apply Hf].
    apply (touch_block _ p (requested_size (meta_of w p))); [exact Hok|by apply live_not_free|exact Hout].
  - intros q [Hne Hlq]%Hq. rewrite Hother3 by done. destruct (Hl q Hlq). by split; [|apply Hfit].
Qed.

(** *** Reallocation *)

Lemma block_ok_le p n k : block_ok p n -> 0 <= k <= n -> block_ok p k.
Proof.
  intros (Hn & Ha & Hbuf & Hp) Hk. split_and!; [lia|done| |].
  - intros j Hj. apply Hbuf. lia.
  - destruct (FromPrimary p); [split; [apply Hp|lia]|]. intros q Hq x Hx. apply (Hp q Hq). lia.
Qed.

(** Growing in place. *)
Lemma poison_tail p old new m m' :
  block_ok p new -> 0 <= old < new ->
  PoisonMemory (cP c) (cEnv c) track_origins false 0 m (p + old) (new - old) = Done m' ->
  refines (cP c) m m' (fun b => (m b, if in_range (p + old) (new - old) b then 255 else shadow_at m b)).
Proof.
  intros Hok Hold E. unfold PoisonMemory in E. apply bind_done in E as (m2 & E & [= <-]).
  destruct (block_sub p new old (new - old) Hok) as [Ha Hbuf]; [lia..|].
  destruct Henv as [(k & Hk & Hpage) _].
  by apply (SetShadow_view c k Hk Hpage m m2 (p + old) (new - old) 255 Ha Hbuf ltac:(lia)).
Qed.

Lemma copy_only_shadow_of dst src n m :
  block_ok dst n ->
  only_shadow_of dst n m (CopyMemory (cP c) (fun d o => (o, d)) track_origins (m, tt) dst src n).1.
Proof.
  intros (Hn & Ha & Hbuf & _) b Hb Hout.
  assert (shadow_at (memmove m dst src n) b = shadow_at m b) as Hmove.
  { unfold shadow_at, memmove. rewrite (proj2 (in_range_false _ _ _)); [done|]. intros Hin.
    pose proof (sl_shadow_not_app b Hb) as Hna.
    specialize (Hbuf (MEM_TO_SHADOW (cP c) b - dst) ltac:(lia)). rewrite Zplus_minus in Hbuf. congruence. }
  unfold CopyMemory, CopyShadowAndOrigin. rewrite Ha. cbn [negb fst snd].
  destruct (MEM_IS_APP (cP c) src); cbn [negb]; [|exact Hmove].
  change (negb (track_origins =? 0)) with false. cbn [fst]. rewrite <- Hmove.
  unfold shadow_at. unfold memmove at 1. rewrite (proj2 (in_range_false _ _ _)); [done|]. intros Hin.
  apply Hout. by apply (shadow_of_buffer c dst n b Hbuf Hb).
Qed.

Lemma reallocate_inv old_p new_size alignment w p w' :
  world_inv w -> live (ch_inner (w_heap w)) old_p -> request_ok new_size alignment ->
  combined_reallocate ac old_p new_size alignment w = Done (p, w') -> world_inv w'.
Proof.
  intros Hinv Hlive Hnew. pose proof Hinv as [Hio Hf Hl]. destruct (Hl old_p Hlive) as [Hok _].
  destruct (actual_size _ _ Hio Hlive) as [Hact Hroom]. pose proof Hnew as [Hnew0 _]. unfold combined_reallocate.
  set (old_size := requested_size (meta_of w old_p)). fold (meta_of w old_p) old_size in Hok.
  destruct (Z.leb_spec new_size (GetActuallyAllocatedSize (ch_inner (w_heap w)) old_p)) as [Hle|Hgt].
  - pose proof (block_ok_le _ _ new_size Hact ltac:(lia)) as Hok2.
    assert (world_inv (set_requested w old_p new_size)) as Hreq.
    { split; cbn; [done| |].
      - intros q Hq. case_match eqn:Eq; [|by apply Hf].
        apply Z.eqb_eq in Eq. subst. by apply live_not_free in Hlive.
      - intros q Hq. case_match eqn:Eq; [|by apply Hl]. apply Z.eqb_eq in Eq. subst.
        split; [done|]. refine (fits_le _ _ _ new_size _ Hroom). lia. }
    destruct ((old_size <? new_size) && poison_in_malloc ac) eqn:Eg; [|by intros [= <- <-]].
    bool_hyps. intros E. apply bind_done in E as (m' & E & [= <- <-]).
    apply (heap_inv_same _ _ (w_mem w)); [|exact Hreq].
    destruct Hok as [Hold _]. pose proof (poison_tail old_p old_size new_size _ _ Hok2 ltac:(lia) E) as Href.
    apply (touch_block _ old_p new_size); [done|by apply live_not_free|].
    intros b Hb Hout. change (shadow_at m' b = shadow_at (w_mem w) b).
    rewrite (refines_shadow _ _ _ b Href Hb). cbn [snd]. by rewrite (proj2 (in_range_false _ _ _)) by lia.
  - intros E. apply bind_done in E as ([new_p w1] & E1 & E).
    destruct (allocate_inv _ _ _ _ _ _ Hinv Hnew E1) as [Hinv1 Hal].
    destruct (Z.eqb_spec new_p 0) as [_|Hne]; cbn [negb] in E; [by injection E as <- <-|].
    destruct (Hal Hne) as (Hnl & Hok1 & _ & Hq). apply bind_done in E as (w2 & E & [= <- <-]).
    assert (0 <= Min new_size old_size <= new_size) as Hmin.
    { destruct Hok as [Hold _]. unfold Min. case_match; bool_hyps; lia. }
    set (m := (CopyMemory _ _ _ _ _ _ _).1) in E.
    assert (live (ch_inner (w_heap (set_w_mem w1 m))) old_p) as Hlive1 by (apply Hq; by right).
    refine (proj1 (deallocate_inv old_p (set_w_mem w1 m) w2 _ Hlive1 E)).
    apply (heap_inv_same _ _ (w_mem w1)); [|exact Hinv1].
    pose proof (block_ok_le _ _ _ Hok1 Hmin) as Hok3.
    apply (touch_block _ new_p (Min new_size old_size)); [exact Hok3| |].
    + apply live_not_free. apply Hq. by left.
    + by apply copy_only_shadow_of.
Qed.

(** What two blocks were asked for does not overlap. *)
Lemma live_apart w p q :
  world_inv w -> live (ch_inner (w_heap w)) p -> live (ch_inner (w_heap w)) q -> p <> q ->
  disjoint p (requested_size (meta_of w p)) q (requested_size (meta_of w q)).
Proof.
  intros [Hio _ Hl] Hp Hq Hne. by apply (fits_disjoint (ch_inner (w_heap w))); [..|apply Hl|apply Hl].
Qed.

(** What a successful allocation does. *)
Record allocation_effect size (zero : bool) w p w' : Prop := {
  ae_size : requested_size (meta_of w' p) = size;
  ae_buffer : app_buffer (cP c) p size;
  ae_new : ~ live (ch_inner (w_heap w)) p;
  ae_live q : live (ch_inner (w_heap w')) q <-> q = p \/ live (ch_inner (w_heap w)) q;
  ae_others q : live (ch_inner (w_heap w)) q ->
    meta_of w' q = meta_of w q /\ disjoint p size q (requested_size (meta_of w q)) /\
    forall i, 0 <= i < requested_size (meta_of w q) -> shadow_at (w_mem w') (q + i) = shadow_at (w_mem w) (q + i);
  ae_shadow i : 0 <= i < size -> zero || poisons_in_malloc ac = true ->
    shadow_at (w_mem w') (p + i) = if zero then kCleanByte c else kPoisonByte c
}.

Lemma allocate_effect size alignment zero w p w' :
  world_inv w -> request_ok size alignment ->
  combined_allocate ac size alignment zero w = Done (p, w') -> p <> 0 ->
  allocation_effect size zero w p w' /\
  exists h m, ca_Allocate (ch_inner (w_heap w)) (w_mem w) size alignment = Done (p, (h, m)).
Proof.
  intros Hinv Hs E Hne. destruct (allocate_inv _ _ _ _ _ _ Hinv Hs E) as [Hinv' Hal].
  destruct (Hal Hne) as (Hnl & Hok & _ & Hlive). pose proof Hok as (Hn & _ & Hbuf & _).
  destruct (allocate_cases size alignment zero w p w' Hinv Hs E) as [[-> _]|(_ & w1 & (h & m & Ha & ->) & A)]; [done|].
  split; [|by exists h, m].
  destruct (allocate_block (ch_inner (w_heap w)) (w_mem w) size alignment p h m (inv_inner _ _ _ Hinv) Hs Ha) as (_ & Hsh & _).
  split; [apply A|done|done|done| |].
  - intros q Hq. assert (q <> p) as Hqp by (by intros ->).
    assert (meta_of w' q = meta_of w q) as Hm by exact (al_others _ _ _ _ _ A q Hqp).
    assert (disjoint p size q (requested_size (meta_of w q))) as Hd.
    { rewrite <- Hm, <- (al_requested _ _ _ _ _ A). apply live_apart; [done|apply Hlive; by left|apply Hlive; by right|done]. }
    split; [done|]. split; [done|]. intros i Hi.
    destruct (inv_live _ _ _ Hinv q Hq) as [(_ & _ & Hqb & _) _].
    rewrite (al_shadow _ _ _ _ _ A) by (first [by apply Hqb|intros Hin; apply (Hd (q + i)); lia]).
    apply Hsh. by apply Hqb.
  - intros i Hi Hz. destruct zero; [by apply (al_clean _ _ _ _ _ A)|].
    rewrite (refines_shadow _ _ _ _ (al_poisoned _ _ _ _ _ A eq_refl Hz) (Hbuf i Hi)). cbn [snd].
    by rewrite (proj2 (in_range_true _ _ _)) by lia.
Qed.

(** ** Executions *)

(** The allocator's operations, called on blocks that are handed out, and the
    program, which may change anything but the shadow of free chunks. *)
Inductive step : World (CHeap H) -> World (CHeap H) -> Prop :=
| step_allocate size alignment zero p w w' :
    request_ok size alignment -> combined_allocate ac size alignment zero w = Done (p, w') -> step w w'
| step_deallocate p w w' :
    live (ch_inner (w_heap w)) p -> combined_deallocate ac p w = Done w' -> step w w'
| step_reallocate p size alignment q w w' :
    live (ch_inner (w_heap w)) p -> request_ok size alignment ->
    combined_reallocate ac p size alignment w = Done (q, w') -> step w w'
| step_program w r :
    free_shadow_same (ch_inner (w_heap w)) (w_mem w) (rt_mem r) -> step w (set_rt w r).

(** Fresh metadata reads as zero, and nothing is handed out yet. *)
Definition initial w : Prop :=
  inner_ok (ch_inner (w_heap w)) /\ (forall p, ~ live (ch_inner (w_heap w)) p) /\ forall p, meta_of w p = mkMeta 0 0.

Lemma initial_inv w : initial w -> world_inv w.
Proof.
  intros (Hio & Hl & Hm). unfold meta_of in Hm. split; [done| |].
  - intros q [Hc _]. rewrite Hm. cbn. split; [|lia]. pose proof (chunk_nonneg q Hc). lia.
  - intros p Hp. by apply Hl in Hp.
Qed.

Lemma step_inv w w' : step w w' -> world_inv w -> world_inv w'.
Proof.
  intros Hs Hinv. destruct Hs as [size al zero p w w' Hs E|p w w' Hlive E|p size al q w w' Hlive Hs E|w r Hm].
  - by apply (allocate_inv _ _ _ _ _ _ Hinv Hs E).
  - by apply (deallocate_inv _ _ _ Hinv Hlive E).
  - by apply (reallocate_inv _ _ _ _ _ _ Hinv Hlive Hs E).
  - by apply (heap_inv_same _ _ (w_mem w)).
Qed.

Lemma reachable_inv w w' : rtc step w w' -> world_inv w -> world_inv w'.
Proof. induction 1 as [|w1 w2 w3 Hs _ IH]; [done|]. intros Hi. apply IH. by eapply step_inv. Qed.
End invariant.

(** ** Properties *)

Lemma finish_pointer {H} `{!CombinedOps H} ac a size zero (w : World (CHeap H)) p w' :
  finish_allocation ac a size zero w = Done (p, w') -> p = a.
Proof.
  unfold finish_allocation. cbv zeta. intros E.
  apply bind_done in E as (w1 & _ & E). apply bind_done in E as (w2 & _ & E). by injection E.
Qed.

(** The flags with poison_reuse set or cleared. *)
Definition with_reuse (b : bool) (ac : AllocCtx) : AllocCtx :=
  mkAllocCtx (ac_ctx ac) (poison_in_malloc ac) (poison_in_free ac) b (AllocatorMayReturnNull ac)
    (IsRssLimitExceeded ac) (max_malloc_size ac).

(** An allocator of one chunk of 64 bytes, for the witnesses. *)
#[export] Instance one_chunk_ops : CombinedOps bool := {
  ca_Allocate h m size _ := Done (if negb h && (size <=? 64) then (65536, (true, m)) else (0, (h, m)));
  ca_Deallocate h p := Done (h && negb (p =? 65536), []);
  FromPrimary p := p =? 65536;
  GetActuallyAllocatedSize _ _ := 64;
  GetBlockBegin h p := if h && in_range 65536 64 p then 65536 else 0
}.

#[export] Instance one_chunk_laws : CombinedLaws bool linux_x86_64.
Proof.
  assert (app_buffer linux_x86_64 65536 64) as Hbuf by (apply app1_buffer; lia).
  assert (MEM_IS_APP linux_x86_64 65536 = true) as Ha by (apply (Hbuf 0); lia).
  assert (forall n, 0 <= n <= 64 -> app_buffer linux_x86_64 65536 n) as Hsub by (intros n Hn; apply app1_buffer; lia).
  refine {| is_chunk p := p = 65536; chunk_size _ := 64; live h p := h = true /\ p = 65536; inner_ok _ := True;
    fits h p n := n <= 64 |}.
  - intros p _. lia.
  - by intros p ->.
  - by intros p q -> ->.
  - intros h m size al p h' m' _ [Hs _] E. cbn in E.
    destruct h; cbn in E; [by injection E as <- <- <-|].
    destruct (Z.leb_spec size 64); injection E as <- <- <-; [|done]. split; [done|]. split; [done|].
    split; [done|]. cbn -[MEM_IS_APP MEM_TO_SHADOW].
    split; [by intros []|]. split; [|split; [done|naive_solver]].
    split; [lia|]. split; [done|]. split; [apply Hsub; lia|done].
  - intros h p h' unmapped _ [-> ->] [= <- <-]. cbn. split; [done|]. split; [naive_solver|]. split; [done|constructor].
  - intros h p _ [-> ->]. cbn -[MEM_IS_APP]. by split_and!.
  - intros h p n k ? ?. lia.
  - by intros h p q n k _ [_ ->] [_ ->].
Defined.

(** C15: poison_reuse is invisible.  In every state the program can bring a fresh
    allocator to, with any mix of allocations, reallocations and frees, an
    allocation with the optimisation answers the same block as one that poisons
    all of it, and every application byte ends up with the same value and the
    same shadow; in particular every byte of the block is poisoned when malloc
    poisons.  The one assumption on the program is that it leaves the shadow of
    freed chunks alone. *)
Theorem poison_reuse_is_invisible {H} `{!CombinedOps H} ac `{!ShadowLayout (cP (ac_ctx ac))}
    `{!CombinedLaws H (cP (ac_ctx ac))} w0 w size alignment p w1 :
  env_ok (cEnv (ac_ctx ac)) -> initial ac w0 -> rtc (step (with_reuse true ac)) w0 w -> request_ok size alignment ->
  combined_allocate (with_reuse true ac) size alignment false w = Done (p, w1) ->
  exists w2, combined_allocate (with_reuse false ac) size alignment false w = Done (p, w2) /\
  ch_inner (w_heap w2) = ch_inner (w_heap w1) /\
  (forall a, MEM_IS_APP (cP (ac_ctx ac)) a = true ->
     view (cP (ac_ctx ac)) (w_mem w2) a = view (cP (ac_ctx ac)) (w_mem w1) a) /\
  (p <> 0 -> poisons_in_malloc ac = true -> forall i, 0 <= i < size ->
     snd (view (cP (ac_ctx ac)) (w_mem w1) (p + i)) = kPoisonByte (ac_ctx ac)).
Proof.
  intros Henv Hinit Hrun Hs E.
  pose proof (reachable_inv (with_reuse true ac) Henv w0 w Hrun (initial_inv (with_reuse true ac) w0 Hinit)) as Hinv.
  unfold combined_allocate, null_or_die in E |- *. cbn [with_reuse max_malloc_size IsRssLimitExceeded AllocatorMayReturnNull] in E |- *.
  destruct (max_malloc_size ac <? size); [destruct (AllocatorMayReturnNull ac); [injection E as <- <-; by exists w|done]|].
  destruct (IsRssLimitExceeded ac); [destruct (AllocatorMayReturnNull ac); [injection E as <- <-; by exists w|done]|].
  destruct (ca_Allocate (ch_inner (w_heap w)) (w_mem w) size alignment) as [[a [h m]]|] eqn:Ea; [|done].
  cbn [mbind outcome_bind] in E |- *. set (w3 := set_w_mem (set_inner w h) m) in *.
  assert (handed_out w size alignment a w3) as Hh by (by exists h, m).
  pose proof (handed_out_inv (with_reuse true ac) w size alignment a w3 Hinv Hs Hh) as Hi.
  destruct (Z.eqb_spec a 0) as [->|Hne].
  { destruct (AllocatorMayReturnNull ac); [injection E as <- <-; by eexists|done]. }
  destruct Hi as (Hok & _ & _ & _ & _ & Hprim).
  destruct (body_allocated (with_reuse true ac) Henv w3 a size false w1 p Hok Hprim E) as [-> Hal1].
  destruct (finish_total (with_reuse false ac) Henv w3 a size Hok Hprim) as (w2 & E2).
  destruct (body_allocated (with_reuse false ac) Henv w3 a size false w2 a Hok Hprim E2) as [_ Hal2].
  exists w2. split; [exact E2|]. split; [by rewrite (al_inner _ _ _ _ _ _ Hal1), (al_inner _ _ _ _ _ _ Hal2)|].
  split.
  - intros b Hb. destruct (poisons_in_malloc ac) eqn:Ep.
    + exact (eq_trans (al_poisoned _ _ _ _ _ _ Hal2 eq_refl Ep b Hb)
                      (eq_sym (al_poisoned _ _ _ _ _ _ Hal1 eq_refl Ep b Hb))).
    + unfold finish_allocation in E, E2.
      change (poisons_in_malloc (with_reuse true ac)) with (poisons_in_malloc ac) in E.
      change (poisons_in_malloc (with_reuse false ac)) with (poisons_in_malloc ac) in E2.
      rewrite Ep in E, E2. cbn [with_reuse ac_ctx] in E, E2. rewrite E in E2. by injection E2 as <-.
  - intros _ Ep i Hi. destruct Hok as (_ & _ & Hbuf & _).
    etransitivity; [exact (f_equal snd (al_poisoned _ _ _ _ _ _ Hal1 eq_refl Ep (a + i) (Hbuf i Hi)))|].
    cbn [snd]. by rewrite (proj2 (in_range_true _ _ _)) by lia.
Qed.

#[export] Instance chunk_laws0 : CombinedLaws bool (cP (ac_ctx alloc_ctx0)) := one_chunk_laws.
#[export] Instance chunk_layout0 : ShadowLayout (cP (ac_ctx alloc_ctx0)) := x86_64_shadow_layout.

Definition chunk_world : World (CHeap bool) := world0 (mkCHeap false (fun _ => mkMeta 0 0)) (fun _ => 0).

Lemma chunk_world_initial : initial alloc_ctx0 chunk_world.
Proof. split; [done|]. split; [intros p [[=] _]|done]. Qed.

(** The block of a successful allocation of the one chunk. *)
Lemma chunk_allocate w size :
  world_inv (with_reuse true alloc_ctx0) w -> ch_inner (w_heap w) = false -> 0 <= size <= 64 ->
  exists w1, combined_allocate (with_reuse true alloc_ctx0) size 8 false w = Done (65536, w1) /\
    ch_inner (w_heap w1) = true /\ requested_size (meta_of w1 65536) = size.
Proof.
  intros Hinv Hh Hs. set (w3 := set_w_mem (set_inner w true) (w_mem w)).
  assert (ca_Allocate (ch_inner (w_heap w)) (w_mem w) size 8 = Done (65536, (true, w_mem w))) as Ha.
  { cbn. rewrite Hh. cbn. by rewrite (proj2 (Z.leb_le size 64)) by lia. }
  assert (handed_out w size 8 65536 w3) as Hho by (by exists true, (w_mem w)).
  pose proof (handed_out_inv (with_reuse true alloc_ctx0) w size 8 65536 w3 Hinv ltac:(unfold request_ok; lia) Hho) as Hi.
  destruct Hi as (Hok & _ & _ & _ & _ & Hprim).
  destruct (finish_total (with_reuse true alloc_ctx0) linux_env_ok w3 65536 size Hok Hprim) as (w1 & E).
  destruct (body_allocated (with_reuse true alloc_ctx0) linux_env_ok w3 65536 size false w1 65536 Hok Hprim E) as [_ Hal].
  exists w1. split; [|split; [by rewrite (al_inner _ _ _ _ _ _ Hal)|by rewrite (al_requested _ _ _ _ _ _ Hal)]].
  unfold combined_allocate. rewrite Ha. fold w3.
  rewrite (proj2 (Z.ltb_ge (max_malloc_size (with_reuse true alloc_ctx0)) size)) by (cbn; lia). exact E.
Qed.

(** malloc(40), free, and malloc(64) of the one chunk: at the second malloc 40
    bytes are known to be poisoned. *)
Lemma chunk_reused :
  exists w2 w3, rtc (step (with_reuse true alloc_ctx0)) chunk_world w2 /\
  combined_allocate (with_reuse true alloc_ctx0) 64 8 false w2 = Done (65536, w3) /\
  meta_of w2 65536 = mkMeta 0 40 /\ ch_inner (w_heap w2) = false.
Proof.
  pose proof (initial_inv (with_reuse true alloc_ctx0) chunk_world chunk_world_initial) as Hinv.
  destruct (chunk_allocate chunk_world 40 Hinv eq_refl ltac:(lia)) as (w1 & E1 & H1 & Hr).
  assert (step (with_reuse true alloc_ctx0) chunk_world w1) as S1
    by (eapply (step_allocate (with_reuse true alloc_ctx0)); [|exact E1]; unfold request_ok; lia).
  pose proof (step_inv _ linux_env_ok _ _ S1 Hinv) as Hinv1.
  assert (live (ch_inner (w_heap w1)) 65536) as Hl by (by split).
  destruct (deallocate_freed (with_reuse true alloc_ctx0) linux_env_ok 65536 w1 Hl Hinv1) as (w' & Hfr & E2).
  assert (ca_Deallocate (ch_inner (w_heap w1)) 65536 = Done (false, [])) as Ed by (by rewrite H1).
  rewrite Ed in E2. cbn [mbind outcome_bind on_unmap_all] in E2. set (w2 := set_inner w' false) in *.
  assert (step (with_reuse true alloc_ctx0) w1 w2) as S2
    by (eapply (step_deallocate (with_reuse true alloc_ctx0)); [exact Hl|exact E2]).
  pose proof (step_inv (with_reuse true alloc_ctx0) linux_env_ok _ _ S2 Hinv1) as Hinv2.
  destruct (chunk_allocate w2 64 Hinv2 eq_refl ltac:(lia)) as (w3 & E3 & _).
  exists w2, w3. split; [eapply rtc_l; [exact S1|]; by apply rtc_once|]. split; [exact E3|]. split; [|done].
  change (meta_of w2 65536) with (meta_of w' 65536). by rewrite (fr_meta _ _ _ _ Hfr), Hr.
Qed.

Lemma poison_reuse_is_invisible_witness :
  exists w w1 : World (CHeap bool), meta_of w 65536 = mkMeta 0 40 /\
  combined_allocate (with_reuse true alloc_ctx0) 64 8 false w = Done (65536, w1) /\
  snd (view linux_x86_64 (w_mem w1) (65536 + 63)) = 255.
Proof.
  destruct chunk_reused as (w2 & w3 & Hrun & E3 & Hm & _).
  exists w2, w3. split; [exact Hm|]. split; [exact E3|].
  destruct (poison_reuse_is_invisible alloc_ctx0 chunk_world w2 64 8 65536 w3
    linux_env_ok chunk_world_initial Hrun ltac:(unfold request_ok; lia) E3) as (_ & _ & _ & _ & Hpois).
  apply Hpois; [discriminate|reflexivity|lia].
Defined.

(** C14: the heap invariant.  After any execution from a fresh allocator, in any
    of the two conventions and for any flags: a chunk that is not handed out has
    the shadow of its first [poisoned_size] bytes poisoned, so its metadata never
    overstates what is known; every block that is handed out holds the
    [requested_size] bytes it was asked for, inside its chunk; and the bytes two
    such blocks were asked for are disjoint. *)
Theorem heap_invariant {H} `{!CombinedOps H} ac `{!ShadowLayout (cP (ac_ctx ac))}
    `{!CombinedLaws H (cP (ac_ctx ac))} w0 w :
  env_ok (cEnv (ac_ctx ac)) -> initial ac w0 -> rtc (step ac) w0 w ->
  (forall q, free_chunk ac (ch_inner (w_heap w)) q ->
     0 <= poisoned_size (meta_of w q) <= chunk_size q /\
     forall i, 0 <= i < poisoned_size (meta_of w q) ->
       snd (view (cP (ac_ctx ac)) (w_mem w) (q + i)) = kPoisonByte (ac_ctx ac)) /\
  (forall p, live (ch_inner (w_heap w)) p -> block_ok p (requested_size (meta_of w p))) /\
  (forall p q, live (ch_inner (w_heap w)) p -> live (ch_inner (w_heap w)) q -> p <> q ->
     disjoint p (requested_size (meta_of w p)) q (requested_size (meta_of w q))).
Proof.
  intros Henv Hinit Hrun.
  pose proof (reachable_inv ac Henv w0 w Hrun (initial_inv ac w0 Hinit)) as Hinv. pose proof Hinv as [_ Hf Hl].
  split; [done|]. split; [by intros p Hp; apply Hl|]. intros p q. by apply live_apart.
Qed.

Lemma heap_invariant_witness :
  exists w : World (CHeap bool), meta_of w 65536 = mkMeta 0 40 /\
  forall i, 0 <= i < 40 -> snd (view linux_x86_64 (w_mem w) (65536 + i)) = 255.
Proof.
  destruct chunk_reused as (w2 & w3 & Hrun & _ & Hm & Hh). exists w2. split; [exact Hm|].
  destruct (heap_invariant (with_reuse true alloc_ctx0) chunk_world w2 linux_env_ok chunk_world_initial Hrun)
    as (Hf & _).
  intros i Hi. destruct (Hf 65536) as [_ Hp].
  - split; [reflexivity|]. intros [Hlive _]. rewrite Hh in Hlive. discriminate Hlive.
  - rewrite Hm in Hp. exact (Hp i Hi).
Defined.

(** growing a block in place is not flip-aware.  Built with
    CQMSAN_FLIP_CONVENTION, a realloc that fits in the chunk marks the bytes it
    adds with 0xff, which that convention reads as initialised: uses of them are
    never reported, although malloc of the same bytes would poison them. *)
Theorem realloc_growth_clean_under_flip {H} `{!CombinedOps H} ac `{!ShadowLayout (cP (ac_ctx ac))}
    `{!CombinedLaws H (cP (ac_ctx ac))} (w : World (CHeap H)) p q new_size alignment w' :
  env_ok (cEnv (ac_ctx ac)) -> cFlip (ac_ctx ac) = true -> poison_in_malloc ac = true ->
  world_inv ac w -> live (ch_inner (w_heap w)) p ->
  let old_size := requested_size (meta_of w p) in
  old_size < new_size <= GetActuallyAllocatedSize (ch_inner (w_heap w)) p ->
  combined_reallocate ac p new_size alignment w = Done (q, w') ->
  q = p /\ forall i, old_size <= i < new_size ->
    snd (view (cP (ac_ctx ac)) (w_mem w') (p + i)) = kCleanByte (ac_ctx ac).
Proof.
  intros Henv Hflip Hpm [Hio _ Hl] Hlive old_size Hsz. unfold combined_reallocate.
  rewrite (proj2 (Z.leb_le _ _)) by lia. fold old_size.
  rewrite (proj2 (Z.ltb_lt old_size new_size)), Hpm by lia. cbn [andb]. intros E.
  apply bind_done in E as (m' & E & [= <- <-]). split; [done|]. intros i Hi.
  destruct (Hl p Hlive) as [[Hold _] _]. fold (meta_of w p) old_size in Hold.
  pose proof (block_ok_le ac _ _ new_size (proj1 (actual_size _ _ Hio Hlive)) ltac:(lia)) as Hok.
  pose proof (poison_tail ac Henv p old_size new_size _ _ Hok ltac:(lia) E) as Href.
  destruct Hok as (_ & _ & Hbuf & _).
  etransitivity; [exact (f_equal snd (Href (p + i) (Hbuf i ltac:(lia))))|]. cbn [snd].
  rewrite (proj2 (in_range_true _ _ _)) by lia. unfold kCleanByte. by rewrite Hflip.
Qed.

Definition flip_alloc_ctx : AllocCtx := mkAllocCtx ctx_flip true true true true false (2 ^ 40).

#[export] Instance flip_laws0 : CombinedLaws bool (cP (ac_ctx flip_alloc_ctx)) := one_chunk_laws.
#[export] Instance flip_layout0 : ShadowLayout (cP (ac_ctx flip_alloc_ctx)) := x86_64_shadow_layout.

(** The chunk handed out for a request of 40 bytes. *)
Definition live_world : World (CHeap bool) := world0 (mkCHeap true (fun _ => mkMeta 40 0)) (fun _ => 0).

Lemma live_world_inv : world_inv flip_alloc_ctx live_world.
Proof.
  split; [done| |].
  - intros q [Hq Hl]. exfalso. apply Hl. by split.
  - intros p [_ ->]. split; [|done].
    exact (block_ok_le flip_alloc_ctx 65536 64 40 (proj1 (actual_size (P := linux_x86_64) true 65536 I (conj eq_refl eq_refl))) ltac:(lia)).
Qed.

Lemma realloc_growth_clean_under_flip_witness :
  exists w', combined_reallocate flip_alloc_ctx 65536 64 8 live_world = Done (65536, w') /\
  snd (view linux_x86_64 (w_mem w') (65536 + 63)) = 255.
Proof.
  destruct (combined_reallocate flip_alloc_ctx 65536 64 8 live_world) as [[q w']|why] eqn:E; [|discriminate E].
  destruct (realloc_growth_clean_under_flip flip_alloc_ctx live_world 65536 q 64 8 w' linux_env_ok eq_refl eq_refl
    live_world_inv (conj eq_refl eq_refl) ltac:(cbn; lia) E) as [-> H].
  exists w'. split; [reflexivity|]. exact (H 63 ltac:(cbn; lia)).
Defined.
