(* ===== verification/AllocatorStack.v ===== *)
(** * AllocatorStack: the allocator of the runtime, from malloc to the size classes

    AllocatorCombined proves the runtime's allocation functions against the classes
    [CombinedOps] and [CombinedLaws].  Here the combined allocator of
    sanitizer_common (Combined), on Linux x86_64, implements them: its operations
    are the class's, its invariant gives the laws.  What is left to assume is the
    system: it maps large blocks at fresh addresses of application memory. *)

From S2P Require Import Prelude Common Arrays Memory Layout Poisoning UmrMap Interface Allocator.
From S2P Require Import SizeClassMap PageRelease Primary64 LocalCache Secondary Combined AllocatorCombined.

(** ** The operations *)

(** The state: the allocator, and how many operations it has done.  The system's
    answers and the thread of an operation depend on its number. *)
Record Inner := mkInner { in_state : CombinedAllocator; in_count : nat }.

#[local] Existing Instance DefaultSizeClassMap.
#[local] Existing Instance linux_pages.
Notation P64 := linux_x86_64.

(** The bytes that are mapped in [s'] and were not in [s]: a fresh mapping reads as
    zero. *)
Definition newly_mapped (s s' : CombinedAllocator) (a : Z) : bool :=
  existsb (fun c =>
    let beg := region_beg (sys_primary (primary_ s')) c in
    (beg + mapped_user (regions (sys_primary (primary_ s)) c) <=? a) &&
    (a <? beg + mapped_user (regions (sys_primary (primary_ s')) c)))
    (map (Z.add 1) (zrange kLargestClassID)) ||
  existsb (fun i => in_range (map_beg (map_of (secondary_ s') i)) (map_size (map_of (secondary_ s') i)) a)
    (map (Z.add (n_chunks_ (secondary_ s))) (zrange (n_chunks_ (secondary_ s') - n_chunks_ (secondary_ s)))).

Definition fresh_bytes (s s' : CombinedAllocator) (m : mem) : mem :=
  fun a => if newly_mapped s s' a then 0 else m a.

(** The space of the size classes is at a constant address. *)
Definition from_primary (p : Z) : bool := PointerIsMine (sys_primary (primary_ (combined0 st1))) p.

Section stack.
Context (os : nat -> CombinedAllocator -> CombEnv) (thread : nat -> Z).

Definition stack_Allocate (h : Inner) (m : mem) (size alignment : Z) : outcome (Z * (Inner * mem)) :=
  let s := in_state h in
  res ← comb_Allocate (os (in_count h) s) (thread (in_count h)) size alignment s;
  let '(p, s') := res : Z * CombinedAllocator in
  mret (p, (mkInner s' (S (in_count h)), fresh_bytes s s' m)).

Definition stack_Deallocate (h : Inner) (p : Z) : outcome (Inner * list (Z * Z)) :=
  let s := in_state h in
  res ← comb_Deallocate (os (in_count h) s) (thread (in_count h)) p s;
  let '(s', rs) := res : CombinedAllocator * list (Z * Z) in
  mret (mkInner s' (S (in_count h)), rs).

Definition stack_ops : CombinedOps Inner := {|
  ca_Allocate := stack_Allocate;
  ca_Deallocate := stack_Deallocate;
  FromPrimary := from_primary;
  GetActuallyAllocatedSize h p := match comb_GetActuallyAllocatedSize (in_state h) p with Done u => u | Died _ => 0 end;
  GetBlockBegin h p := match comb_GetBlockBegin (in_state h) p with Done b => b | Died _ => 0 end
|}.

(** ** The laws *)

(** The system: fresh mappings, in application memory. *)
Record system_law : Prop := {
  sys_comb n s : comb_ok s -> comb_law (os n s) s;
  sys_app n s size : comb_ok s -> 0 < size -> let a := internal_mmap (ce_mmap (os n s)) size in
    internal_iserror a = None -> a <> 0 -> MEM_IS_APP P64 a = true /\ app_buffer P64 a size
}.
Context (Hsys : system_law).

Definition stack_chunk (p : Z) : Prop :=
  exists c k, 1 <= c <= kLargestClassID /\ 0 <= k /\ (k + 1) * Size c <= kRegionSize - kFreeArraySize /\
    p = chunk_addr st1 c k.

Definition stack_chunk_size (p : Z) : Z := Size (GetSizeClass st1 p).

Definition stack_live (h : Inner) (p : Z) : Prop := exists n, comb_block (in_state h) p n.

Record stack_ok (h : Inner) : Prop := {
  sk_comb : comb_ok (in_state h);
  sk_app p a m n : large_block (secondary_ (in_state h)) p (a, m, n) ->
    MEM_IS_APP P64 a = true /\ app_buffer P64 a m
}.

Lemma st1_space : space_ok st1.
Proof. by apply (Init_ok os1 ie1 0 st1). Qed.

Lemma space_app a n : 0x700000000000 <= a -> a + n <= 0x740000000000 -> app_buffer P64 a n.
Proof.
  intros Ha Hn j Hj. apply x86_app_block. exists (0x700000000000, 0x800000000000, 7).
  split; [unfold x86_app_blocks; in_list|cbn; lia].
Qed.

Lemma apart_disjoint a n b k : apart a n b k -> disjoint a n b k.
Proof. unfold apart, disjoint. lia. Qed.

Lemma disjoint_sub a n b k a' n' : a <= a' -> a' + n' <= a + n -> disjoint a n b k -> disjoint a' n' b k.
Proof. unfold disjoint. intros Ha Hn H x Hx. apply H. lia. Qed.

Lemma stack_chunk_facts p : stack_chunk p ->
  exists c k, 1 <= c <= kLargestClassID /\ 0 <= k /\ (k + 1) * Size c <= kRegionSize - kFreeArraySize /\
    p = chunk_addr st1 c k /\ stack_chunk_size p = Size c /\ 0 < Size c /\ from_primary p = true /\
    0x700000000000 <= p /\ p + Size c <= 0x740000000000.
Proof.
  intros (c & k & Hc & Hk & Hfit & ->). exists c, k. pose proof (class_range c Hc) as (_ & _ & Hsz & _).
  destruct (chunk_class st1 st1_space c k 0 Hc Hk Hfit ltac:(lia)) as [Hmine Hcl]. rewrite Z.add_0_r in Hmine, Hcl.
  unfold stack_chunk_size. rewrite Hcl. do 7 (split; [done || lia|]).
  pose proof (region_beg_range st1 c st1_space Hc) as (_ & Hend & _).
  assert (0 <= k * Size c) by (apply Z.mul_nonneg_nonneg; lia). pose proof region_facts as (HR & HF & _).
  assert (0 <= kRegionSize * c) by (apply Z.mul_nonneg_nonneg; lia).
  unfold chunk_addr, region_beg in *. change (SpaceBeg st1) with 0x700000000000 in *.
  change kSpaceSize with 0x40000000000 in *. lia.
Qed.

Lemma small_is_chunk s p n : comb_ok s -> small_block s p n -> stack_chunk p /\ stack_chunk_size p = n.
Proof.
  intros Hok (c & k & Hc & [Hin _] & -> & ->). pose proof (co_primary s Hok) as Hs.
  destruct (chunk_bounds c k _ Hc (pk_region _ (sy_primary _ Hs) c Hc) Hin) as (H0 & _ & Hfit & _).
  assert (stack_chunk (chunk_addr (sys_primary (primary_ s)) c k)) as Hch by (by exists c, k).
  split; [done|]. destruct (stack_chunk_facts _ Hch) as (d & j & Hd & Hj & Hjf & E & -> & _).
  assert (chunk_addr (sys_primary (primary_ s)) c k = chunk_addr st1 c k) as E2 by reflexivity. rewrite E2 in E.
  pose proof (class_range c Hc). pose proof (class_range d Hd). pose proof region_facts.
  destruct (decide ((c, k) = (d, j))) as [[= -> ->]|Hne]; [done|].
  destruct (chunks_apart st1 c k d j st1_space Hc Hd H0 Hj ltac:(lia) ltac:(lia) Hne) as [?|?]; lia.
Qed.

(** A chunk is not handed out if no block is there. *)
Lemma small_or_big h p n : stack_ok h -> comb_block (in_state h) p n ->
  if from_primary p then small_block (in_state h) p n else big_block (in_state h) p n.
Proof.
  intros [Hok _] [Hb|[a [m Hb]]].
  - destruct (small_is_chunk _ p n Hok Hb) as [Hch _]. by destruct (stack_chunk_facts p Hch) as (? & ? & _ & _ & _ & _ & _ & _ & -> & _).
  - pose proof (big_block_facts _ p a m n Hok Hb) as (H1 & H2 & H3 & H4 & H5 & H6 & Hf). pose proof page_range.
    assert (from_primary p = false) as -> by (apply (Hf p); lia). by exists a, m.
Qed.

Lemma mapping_clear h p a m n : stack_ok h -> large_block (secondary_ (in_state h)) p (a, m, n) ->
  forall q, stack_chunk q -> disjoint a m q (stack_chunk_size q).
Proof.
  intros [Hok _] Hb q Hq. destruct (stack_chunk_facts q Hq) as (c & k & _ & _ & _ & _ & -> & Hsz & _ & Hlo & Hhi).
  apply apart_disjoint. pose proof (co_apart _ Hok p a m n Hb) as Hap. change (SpaceBeg _) with 0x700000000000 in Hap.
  change kSpaceSize with 0x40000000000 in Hap. unfold apart in *. lia.
Qed.

(** [n] bytes at [p] are a block, in the sense of the laws. *)
Definition stack_block_ok (p n : Z) : Prop :=
  0 <= n /\ MEM_IS_APP P64 p = true /\ app_buffer P64 p n /\
  if from_primary p then stack_chunk p /\ n <= stack_chunk_size p
  else forall q, stack_chunk q -> disjoint p n q (stack_chunk_size q).

(** [k] bytes are in a block of [n]; a large one goes to the end of its page. *)
Definition room (p n k : Z) : Prop :=
  k <= n \/ from_primary p = false /\ exists u, k <= u /\ (page_size_ | u) /\ u < n + page_size_.

Definition stack_fits (h : Inner) (p k : Z) : Prop := exists n, comb_block (in_state h) p n /\ room p n k.

Lemma big_fits h p n k a m : stack_ok h -> large_block (secondary_ (in_state h)) p (a, m, n) ->
  room p n k -> p + k <= a + m.
Proof.
  intros Hok Hb [Hle|(_ & u & Hk & Hd & Hle)].
  - pose proof (big_block_facts _ p a m n (sk_comb h Hok) Hb). lia.
  - pose proof (rounded_fits _ p a m n u (sk_comb h Hok) Hb Hd Hle). lia.
Qed.

Lemma small_fits p n k : from_primary p = true -> room p n k -> k <= n.
Proof. intros Hp [?|[? _]]; [done|congruence]. Qed.

Lemma block_is_ok h p k : stack_ok h -> 0 <= k -> stack_fits h p k -> stack_block_ok p k.
Proof.
  intros Hok Hk (n & Hb & Hle). pose proof (small_or_big h p n Hok Hb) as Hcase. unfold stack_block_ok.
  destruct (from_primary p) eqn:Hprim.
  - destruct (small_is_chunk _ p n (sk_comb h Hok) Hcase) as [Hch Hsz].
    destruct (stack_chunk_facts p Hch) as (c & j & _ & _ & _ & _ & Hsz2 & Hpos & _ & Hlo & Hhi).
    pose proof (small_fits p n k Hprim Hle).
    split; [done|]. rewrite Hsz. split; [|split; [|done]].
    + rewrite <- (Z.add_0_r p). apply (space_app p (Size c)); lia.
    + apply space_app; lia.
  - destruct Hcase as (a & m & Hbig).
    pose proof (big_fits h p n k a m Hok Hbig Hle) as Hend.
    pose proof (big_block_facts _ p a m n (sk_comb h Hok) Hbig) as (H1 & H2 & H3 & H4 & H5 & _). pose proof page_range.
    destruct (sk_app h Hok p a m n Hbig) as [_ Happ]. split; [done|]. split; [|split].
    + replace p with (a + (p - a)) by lia. apply Happ. lia.
    + intros j Hj. replace (p + j) with (a + (p - a + j)) by lia. apply Happ. lia.
    + intros q Hq. eapply disjoint_sub; [| |by apply (mapping_clear h p a m n)]; lia.
Qed.

(** What is newly mapped is application memory, so no shadow changes. *)
Lemma fresh_shadow h h' m b : stack_ok h -> stack_ok h' -> MEM_IS_APP P64 b = true ->
  fresh_bytes (in_state h) (in_state h') m (MEM_TO_SHADOW P64 b) = m (MEM_TO_SHADOW P64 b).
Proof.
  intros Hok Hok' Hb. unfold fresh_bytes. destruct (newly_mapped _ _ _) eqn:E; [|done]. exfalso.
  pose proof (sl_shadow_not_app (ShadowLayout := x86_64_shadow_layout) b Hb) as Hna.
  set (x := MEM_TO_SHADOW P64 b) in *. apply not_true_iff_false in Hna. apply Hna. clear Hna Hb.
  unfold newly_mapped in E. apply orb_true_iff in E as [E|E]; apply existsb_exists_elem in E.
  - destruct E as (c & Hc & E). bool_hyps. apply list_elem_of_fmap in Hc as (j & -> & Hj%elem_of_zrange).
    assert (1 <= 1 + j <= kLargestClassID) as Hc by lia. set (c := 1 + j) in *.
    pose proof (pk_region _ (sy_primary _ (co_primary _ (sk_comb h Hok))) c Hc) as [[N0 HA] HU _ _ _].
    pose proof (pk_region _ (sy_primary _ (co_primary _ (sk_comb h' Hok'))) c Hc) as [[N0' HA'] HU' [HM HM'] HS _].
    pose proof (class_range c Hc) as (_ & _ & Hsz & _). pose proof region_facts as (HR & HF & _).
    assert (0 <= allocated_user (regions (sys_primary (primary_ (in_state h))) c))
      by (rewrite HA; apply Z.mul_nonneg_nonneg; lia).
    assert (0 <= allocated_meta (regions (sys_primary (primary_ (in_state h'))) c))
      by (rewrite HM; apply Z.mul_nonneg_nonneg; [lia|done]).
    pose proof (region_beg_range st1 c st1_space Hc) as (_ & Hend & _).
    assert (region_beg (sys_primary (primary_ (in_state h'))) c = region_beg st1 c) as E2 by reflexivity. rewrite E2 in *.
    assert (0 <= kRegionSize * c) by (apply Z.mul_nonneg_nonneg; lia).
    unfold region_beg in *. change (SpaceBeg st1) with 0x700000000000 in *. change kSpaceSize with 0x40000000000 in *.
    rewrite <- (Z.add_0_r x). apply (space_app x 1); lia.
  - destruct E as (i & Hi & E). apply list_elem_of_fmap in Hi as (j & -> & Hj%elem_of_zrange).
    set (k := n_chunks_ (secondary_ (in_state h)) + j) in *. apply in_range_true in E.
    pose proof (lo_n _ (co_secondary _ (sk_comb h Hok))).
    destruct (sk_app h' Hok' (chunks_ (secondary_ (in_state h')) k + page_size_)
      (map_beg (map_of (secondary_ (in_state h')) k)) (map_size (map_of (secondary_ (in_state h')) k))
      (h_size (map_of (secondary_ (in_state h')) k))) as [_ Happ].
    { exists k. split; [unfold k; lia|]. by split. }
    replace x with (map_beg (map_of (secondary_ (in_state h')) k) + (x - map_beg (map_of (secondary_ (in_state h')) k))) by lia.
    apply Happ. lia.
Qed.

Lemma stack_allocate_block h m size al p h' m' :
  stack_ok h -> request_ok size al -> stack_Allocate h m size al = Done (p, (h', m')) ->
  stack_ok h' /\
  (forall a, MEM_IS_APP P64 a = true -> m' (MEM_TO_SHADOW P64 a) = m (MEM_TO_SHADOW P64 a)) /\
  (forall q n, stack_live h q -> stack_fits h q n -> stack_fits h' q n) /\
  if p =? 0 then forall q, stack_live h' q <-> stack_live h q
  else ~ stack_live h p /\ stack_block_ok p size /\ stack_fits h' p size /\ forall q, stack_live h' q <-> q = p \/ stack_live h q.
Proof.
  intros Hok [Hs Ha] E. apply bind_done in E as ([p1 s'] & E & [= <- <- <-]).
  pose proof (sk_comb h Hok) as Hc.
  destruct (comb_allocate_spec _ _ size al (in_state h) p1 s' Hc (sys_comb Hsys _ _ Hc) Hs Ha E) as (Hc' & _ & Hfrom & Hcase).
  set (h' := mkInner s' (S (in_count h))).
  assert (stack_ok h') as Hok'.
  { split; [done|]. intros q a n k Hq. destruct (Hfrom q a n k Hq) as [Hold|(Hn & -> & He & H0)].
    - by apply (sk_app h Hok q a n k).
    - by apply (sys_app Hsys _ _ n Hc Hn He H0). }
  split; [done|]. split; [intros b Hb; by apply (fresh_shadow h h')|].
  assert (forall q n, comb_block (in_state h) q n -> comb_block s' q n) as Hkeep.
  { intros q n Hq. destruct (p1 =? 0); [|destruct Hcase as (_ & k & _ & [_ Hiff] & _); apply Hiff; by right].
    destruct (Hcase q n). unfold comb_block in *. tauto. }
  split; [intros q n _ (k & Hk & Hle); exists k; by split; [apply Hkeep|]|].
  unfold stack_live. cbn [h' in_state]. destruct (Z.eqb_spec p1 0) as [_|Hne].
  - intros q. unfold comb_block. split; intros (n & Hq); exists n; destruct (Hcase q n) as [H1 H2]; tauto.
  - destruct Hcase as (_ & n & Hn & [Hnew Hiff] & _).
    assert (stack_fits h' p1 size) as Hroom by (exists n; split; [apply Hiff; by left|by left]).
    split; [|split; [|split; [done|]]].
    + intros (k & Hk). by destruct (Hnew p1 k Hk).
    + apply (block_is_ok h' p1 size Hok'); [lia|done].
    + intros q. setoid_rewrite Hiff. split.
      * intros (k & [[-> _]|Hk]); [by left|right; by exists k].
      * intros [->|(k & Hk)]; [exists n; by left|exists k; by right].
Qed.

Lemma stack_deallocate_block h p h' unmapped :
  stack_ok h -> stack_live h p -> stack_Deallocate h p = Done (h', unmapped) ->
  stack_ok h' /\ (forall q, stack_live h' q <-> q <> p /\ stack_live h q) /\
  (forall q k, q <> p -> stack_fits h q k -> stack_fits h' q k) /\
  Forall (fun r => 0 <= r.2 /\ MEM_IS_APP P64 r.1 = true /\ app_buffer P64 r.1 r.2 /\
                   forall q, stack_chunk q -> disjoint r.1 r.2 q (stack_chunk_size q)) unmapped.
Proof.
  intros Hok [n Hb] E. apply bind_done in E as ([s' rs] & E & [= <- <-]).
  pose proof (sk_comb h Hok) as Hc. pose proof (cl_os _ _ (sys_comb Hsys (in_count h) _ Hc)) as Hos.
  destruct (comb_deallocate_spec _ _ p n (in_state h) s' rs Hc Hos Hb E) as (Hc' & _ & Hiff & Hsmall & Hbig).
  split; [|split; [|split]].
  - split; [done|]. intros q a m k Hq. cbn in Hq.
    assert (comb_block s' q k) as Hq2 by (right; by exists a, m).
    apply Hiff in Hq2 as [Hne Hq2].
    unfold comb_Deallocate in E. destruct (p =? 0); [by injection E as <- <-; apply (sk_app h Hok q a m k)|].
    destruct (comb_PrimaryIsMine (in_state h) p).
    + apply bind_done in E as ([pr rs1] & _ & [= <- <-]). by apply (sk_app h Hok q a m k).
    + destruct Hb as [Hb|(b & l & Hb)].
      { apply bind_done in E as ([[lg st] r] & E & [= <- <-]). cbn in Hq. by discriminate (Hsmall Hb). }
      destruct (deallocate_at (secondary_ (in_state h)) (stats_ (in_state h)) p b l n (co_secondary _ Hc) Hb) as (l' & El & _ & Hbl).
      rewrite El in E. cbn [mbind outcome_bind] in E. injection E as <- <-. cbn in Hq.
      apply Hbl in Hq as [_ Hq]. by apply (sk_app h Hok q a m k).
  - intros q. unfold stack_live. cbn [in_state]. setoid_rewrite Hiff. naive_solver.
  - intros q k Hq (m & Hm & Hle). exists m. split; [by apply Hiff|done].
  - destruct Hb as [Hb|(a & m & Hb)]; [rewrite (Hsmall Hb); constructor|].
    rewrite (Hbig a m Hb). constructor; [|constructor]. cbn [fst snd].
    destruct (sk_app h Hok p a m n Hb) as [H1 H2].
    pose proof (big_block_facts _ p a m n Hc Hb). pose proof page_range.
    split; [lia|]. split; [done|]. split; [done|]. by apply (mapping_clear h p a m n).
Qed.

Lemma stack_chunks_disjoint p q : stack_chunk p -> stack_chunk q -> p <> q ->
  disjoint p (stack_chunk_size p) q (stack_chunk_size q).
Proof.
  intros Hp Hq Hne. apply apart_disjoint.
  destruct (stack_chunk_facts p Hp) as (c & k & Hc & Hk & Hkf & -> & -> & _ & _).
  destruct (stack_chunk_facts q Hq) as (d & j & Hd & Hj & Hjf & -> & -> & _ & _). pose proof region_facts.
  apply chunks_apart; try done; try lia. by intros [= -> ->].
Qed.

Lemma stack_actual_size h p : stack_ok h -> stack_live h p ->
  let n := @GetActuallyAllocatedSize Inner stack_ops h p in stack_block_ok p n /\ stack_fits h p n.
Proof.
  intros Hok [n Hb]. pose proof (sk_comb h Hok) as Hc. pose proof (small_or_big h p n Hok Hb) as Hcase.
  cbn [GetActuallyAllocatedSize stack_ops]. unfold comb_GetActuallyAllocatedSize.
  change (comb_PrimaryIsMine (in_state h) p) with (from_primary p).
  assert (forall u, 0 <= u -> stack_fits h p u -> stack_block_ok p u /\ stack_fits h p u) as Hboth.
  { intros u Hu Hfit. split; [by apply (block_is_ok h)|done]. }
  destruct (from_primary p) eqn:Hfp.
  - pose proof (small_block_facts _ p n Hc Hcase) as (H1 & _ & _ & _ & _ & Hlook).
    destruct (Hlook p ltac:(lia)) as (_ & _ & ->). apply Hboth; [lia|]. exists n. by split; [|left].
  - destruct Hcase as (a & m & Hbig). pose proof (big_block_facts _ p a m n Hc Hbig) as (H1 & H2 & H3 & H4 & H5 & H6 & _).
    pose proof page_range as Hpg. unfold large_GetActuallyAllocatedSize. rewrite GetHeader_block by (done || lia).
    cbn [mbind outcome_bind]. pose proof Hbig as (i & Hi & Ep & Hx). rewrite Ep, Z.add_simpl_r. injection Hx as _ _ Hn2.
    rewrite Hn2. destruct (RoundUp_page n ltac:(lia)) as (u & Eu & Hd & Hu). rewrite Eu, <- Ep.
    destruct Hu as [[Hu _]|[-> Hu]].
    + apply Hboth; [lia|]. exists n. split; [done|]. right. split; [done|]. exists u. split; [lia|]. split; [done|lia].
    + apply Hboth; [lia|]. exists n. split; [done|]. left. lia.
Qed.

Lemma stack_fits_disjoint h p q n k : stack_ok h -> stack_live h p -> stack_live h q -> p <> q ->
  stack_fits h p n -> stack_fits h q k -> disjoint p n q k.
Proof.
  intros Hok _ _ Hne (n0 & Hp & Hn) (k0 & Hq & Hk). pose proof (sk_comb h Hok) as Hc.
  pose proof (small_or_big h p n0 Hok Hp) as Hcp. pose proof (small_or_big h q k0 Hok Hq) as Hcq.
  assert (forall x m j, stack_fits h x m -> big_block (in_state h) x j -> from_primary x = false ->
    forall y i l, small_block (in_state h) y i -> l <= i -> disjoint x m y l) as Hmix.
  { intros x m j Hx (a & b & Hb) Hfp y i l Hy Hl. destruct Hx as (j2 & Hx & Hm).
    pose proof (small_or_big h x j2 Hok Hx) as Hx2. rewrite Hfp in Hx2. destruct Hx2 as (a2 & b2 & Hb2).
    destruct (small_is_chunk _ y i Hc Hy) as [Hch Hsz]. pose proof (mapping_clear h x a2 b2 j2 Hok Hb2 y Hch) as Hd.
    pose proof (big_fits h x j2 m a2 b2 Hok Hb2 Hm). pose proof (big_block_facts _ x a2 b2 j2 Hc Hb2). pose proof page_range.
    rewrite Hsz in Hd. intros z Hz Hz2. apply (Hd z); lia. }
  destruct (from_primary p) eqn:Fp, (from_primary q) eqn:Fq.
  - pose proof (small_fits p n0 n Fp Hn). pose proof (small_fits q k0 k Fq Hk).
    destruct (small_is_chunk _ p n0 Hc Hcp) as [Hch1 Hs1], (small_is_chunk _ q k0 Hc Hcq) as [Hch2 Hs2].
    pose proof (stack_chunks_disjoint p q Hch1 Hch2 Hne) as Hd. rewrite Hs1, Hs2 in Hd.
    intros z Hz Hz2. apply (Hd z); lia.
  - pose proof (small_fits p n0 n Fp Hn).
    intros z Hz Hz2. by apply (Hmix q k k0 (ex_intro _ k0 (conj Hq Hk)) Hcq Fq p n0 n Hcp ltac:(lia) z).
  - pose proof (small_fits q k0 k Fq Hk). by apply (Hmix p n n0 (ex_intro _ n0 (conj Hp Hn)) Hcp Fp q k0 k).
  - destruct Hcp as (a & m & Hbp), Hcq as (b & l & Hbq).
    pose proof (big_fits h p n0 n a m Hok Hbp Hn). pose proof (big_fits h q k0 k b l Hok Hbq Hk).
    pose proof (big_block_facts _ p a m n0 Hc Hbp). pose proof (big_block_facts _ q b l k0 Hc Hbq). pose proof page_range.
    pose proof Hbp as (i & Hi & Ep & Hx). pose proof Hbq as (j & Hj & Eq & Hy).
    assert (i <> j) as Hij by (intros ->; congruence).
    pose proof (lo_apart _ (co_secondary _ Hc) i j Hi Hj Hij) as Hap. unfold maps_apart, apart, map_of in Hap.
    injection Hx as E1 E2 _. injection Hy as E3 E4 _. rewrite E1, E2, E3, E4 in Hap. intros z Hz Hz2. lia.
Qed.

Definition stack_laws : @CombinedLaws Inner stack_ops P64.
Proof.
  refine (@Build_CombinedLaws Inner stack_ops P64 stack_chunk stack_chunk_size stack_live stack_ok stack_fits _ _
    stack_chunks_disjoint stack_allocate_block stack_deallocate_block stack_actual_size _ stack_fits_disjoint).
  - intros p Hp. destruct (stack_chunk_facts p Hp) as (c & k & _ & _ & _ & _ & -> & ? & _). lia.
  - intros p Hp. destruct (stack_chunk_facts p Hp) as (c & k & _ & _ & _ & _ & -> & ? & _ & ? & ?). by apply space_app.
  - intros h p n k Hk (m & Hm & Hle). exists m. split; [done|].
    destruct Hle as [?|(Hp & u & Hu & ?)]; [left; lia|]. right. split; [done|]. exists u. split; [lia|done].
Defined.
End stack.

(** ** The runtime on this allocator *)

(** The runtime on Linux x86_64, for any flags and any other environment. *)
Definition x86_ctx (c : Ctx) : Ctx :=
  mkCtx P64 (cEnv c) (cFlags c) (cCommon c) (cFlip c) (cCapture c) (cInit c) (cFuel c).
Definition x86_ac (ac : AllocCtx) : AllocCtx :=
  mkAllocCtx (x86_ctx (ac_ctx ac)) (poison_in_malloc ac) (poison_in_free ac) (poison_reuse ac)
    (AllocatorMayReturnNull ac) (IsRssLimitExceeded ac) (max_malloc_size ac).

(** The allocator after its initialisation, with fresh metadata. *)
Definition fresh_world (w : World (CHeap Inner)) : Prop :=
  (exists osi ie interval st, Init osi ie interval 0 = Done st /\ in_state (ch_inner (w_heap w)) = combined0 st) /\
  forall p, meta_of w p = mkMeta 0 0.

Section runtime.
Context (os : nat -> CombinedAllocator -> CombEnv) (thread : nat -> Z) (Hsys : system_law os) (ac0 : AllocCtx).
Notation ac := (x86_ac ac0).
Context (Henv : env_ok (cEnv (ac_ctx ac0))).
#[local] Instance runtime_ops : CombinedOps Inner := stack_ops os thread.
#[local] Instance runtime_layout : ShadowLayout (cP (ac_ctx ac)) := x86_64_shadow_layout.
#[local] Instance runtime_laws : CombinedLaws Inner (cP (ac_ctx ac)) := stack_laws os thread Hsys.

Lemma no_blocks st p n : (forall c, regions st c = region0) -> ~ comb_block (combined0 st) p n.
Proof.
  intros Hr [(c & k & _ & [Hk _] & _)|(a & m & i & Hi & _)]; [|by cbn in Hi; lia].
  cbn in Hk. rewrite Hr in Hk. unfold nchunks, region0 in Hk. cbn [allocated_user] in Hk.
  rewrite Zdiv_0_l in Hk. lia.
Qed.

Lemma fresh_world_inv w : fresh_world w -> world_inv ac w.
Proof.
  intros [(osi & ie & interval & st & Hinit & Est) Hm]. apply initial_inv. 
  destruct (@Init_ok DefaultSizeClassMap _ AP64 _ _ _ _ _ eq_refl Hinit) as [Hsp Hr].
  pose proof (combined0_ok st Hsp Hr) as Hok.
  assert (forall p n, ~ comb_block (in_state (ch_inner (w_heap w))) p n) as Hno.
  { intros p n Hb. rewrite Est in Hb. by apply (no_blocks st p n Hr). }
  split; [|split; [|done]].
  - split; [by rewrite Est|]. intros p a m n Hb. destruct (Hno p n). right. by exists a, m.
  - intros p [n Hb]. by apply Hno in Hb.
Qed.

Lemma runtime_inv w0 w : fresh_world w0 -> rtc (step ac) w0 w -> world_inv ac w.
Proof. intros H0 Hrun. apply (reachable_inv ac Henv w0 w Hrun). by apply fresh_world_inv. Qed.
End runtime.

(** ** Witnesses *)

(** A system that has room for one large block, at 2^30. *)
Definition os_once (_ : nat) (s : CombinedAllocator) : CombEnv :=
  mkCombEnv os1 (if n_chunks_ (secondary_ s) =? 0 then one_mapping (2 ^ 30)
                 else mkMmapEnv (fun _ => 2 ^ 64 - ENOMEM) (fun _ _ => Done tt) (fun _ => true)).

Lemma os_once_maps n s size : let a := internal_mmap (ce_mmap (os_once n s)) size in
  internal_iserror a = None -> n_chunks_ (secondary_ s) = 0 /\ size <= 2 ^ 20 /\ a = 2 ^ 30.
Proof.
  cbn. destruct (Z.eqb_spec (n_chunks_ (secondary_ s)) 0); [|done]. cbn.
  destruct (Z.leb_spec size (2 ^ 20)); [done|done].
Qed.

Lemma os_once_law : system_law os_once.
Proof.
  split.
  - intros n s Hok. split; [exact os1_ok| |].
    + intros size Hs Hu a He Hne. subst a. destruct (os_once_maps n s size He) as (H0 & Hle & ->).
      split; [lia|]. split; [by exists (2 ^ 18)|]. split; [lia|]. intros i Hi. lia.
    + intros size Hs a He Hne. destruct (os_once_maps n s size He) as (H0 & Hle & Ea). fold a in Ea. rewrite Ea.
      left. change (SpaceBeg _) with 0x700000000000. lia.
  - intros n s size Hok Hs a He Hne. destruct (os_once_maps n s size He) as (H0 & Hle & Ea). fold a in Ea. rewrite Ea.
    split; [|by apply app1_buffer; lia].
    rewrite <- (Z.add_0_r (2 ^ 30)). apply (app1_buffer (2 ^ 30) 1); lia.
Qed.

Definition stack_world : World (CHeap Inner) :=
  world0 (mkCHeap (mkInner (combined0 st1) 0) (fun _ => mkMeta 0 0)) (fun _ => 0).

Lemma stack_world_fresh : fresh_world stack_world.
Proof. split; [|done]. by exists os1, ie1, 0, st1. Qed.

Notation first_block := (@comb_Allocate DefaultSizeClassMap AP64 linux_pages (os_once 0 s0) 1 131072 (2 ^ 4) s0).

Definition first_state : CombinedAllocator := comb_after first_block.

Lemma first_block_done : first_block = Done (chunk1 0, first_state).
Proof. apply comb_answer_done. vm_compute. reflexivity. Qed.

#[local] Instance witness_ops : CombinedOps Inner := stack_ops os_once (fun _ => 1).
#[local] Instance witness_layout : ShadowLayout (cP (ac_ctx (x86_ac alloc_ctx0))) := x86_64_shadow_layout.
#[local] Instance witness_laws : CombinedLaws Inner (cP (ac_ctx (x86_ac alloc_ctx0))) :=
  stack_laws os_once (fun _ => 1) os_once_law.
#[local] Opaque comb_Allocate.

Lemma first_answer : exists h m,
  ca_Allocate (ch_inner (w_heap stack_world)) (w_mem stack_world) 131072 (2 ^ 4) = Done (chunk1 0, (h, m)).
Proof.
  exists (mkInner (first_state) 1), (fresh_bytes s0 (first_state) (fun _ => 0)).
  change (stack_Allocate os_once (fun _ => 1) (mkInner s0 0) (fun _ => 0) 131072 (2 ^ 4) =
    Done (chunk1 0, (mkInner (first_state) 1, fresh_bytes s0 (first_state) (fun _ => 0)))).
  unfold stack_Allocate. cbn [in_state in_count]. rewrite first_block_done. exact eq_refl.
Qed.

(** The first request succeeds. *)
Lemma first_malloc : exists w', combined_allocate (x86_ac alloc_ctx0) 131072 (2 ^ 4) false stack_world = Done (chunk1 0, w').
Proof.
  pose proof (fresh_world_inv os_once (fun _ => 1) os_once_law alloc_ctx0 stack_world stack_world_fresh) as Hinv.
  destruct first_answer as (h & m & Ha). generalize stack_world, Hinv, Ha. clear Hinv Ha. intros stack_world Hinv Ha.
  assert (chunk1 0 <> 0) as Hne by (unfold chunk1; lia). generalize (chunk1 0), Hne, Ha. clear Ha Hne. intros p Hne Ha.
  set (w3 := set_w_mem (set_inner stack_world h) m).
  assert (handed_out stack_world 131072 (2 ^ 4) p w3) as Hh by (by exists h, m).
  assert (request_ok 131072 (2 ^ 4)) as Hreq by (unfold request_ok; lia).
  pose proof (handed_out_inv (x86_ac alloc_ctx0) stack_world _ _ _ w3 Hinv Hreq Hh) as Hi.
  rewrite (proj2 (Z.eqb_neq p 0) Hne) in Hi.
  destruct Hi as (Hok & _ & _ & _ & _ & Hprim).
  destruct (finish_total (x86_ac alloc_ctx0) linux_env_ok w3 p 131072 Hok Hprim) as (w1 & E).
  exists w1. unfold combined_allocate. rewrite Ha. cbn [mbind outcome_bind]. fold w3.
  rewrite (proj2 (Z.eqb_neq p 0) Hne).
  rewrite (proj2 (Z.ltb_ge (max_malloc_size (x86_ac alloc_ctx0)) 131072)) by (cbn; lia). exact E.
Qed.

